(* ===== verification/_CoqProject ===== *)
-Q . S2P
Prelude.v
Machine.v
Intset.v
UtilNum.v
Glob.v
GlobSpec.v
Sds.v
SdsSpec.v
SdsText.v
SdsTextSpec.v
SdsFmt.v
SdsFmtSpec.v
Gf2.v
Slot.v
Crc64.v
Crc64Inv.v
Crc64Spec.v
Listpack.v
ListpackEnc.v
ListpackSeq.v
ListpackRead.v
ListpackUpd.v
ListpackValid.v
ListpackSpec.v
ListpackBatch.v
Dict.v
DictInv.v
DictOps.v
Iterable.v
DictIter.v
DictSafe.v
DictLog.v
DictScan.v
DictSpec.v
DictRun.v
Adlist.v
AdlistSpec.v
Fwtree.v
Bitops.v
BitopsSpec.v
Lzf.v
LzfSpec.v
SetType.v
SetTypeSpec.v
Double.v
Skiplist.v
ZOrder.v
SkiplistInv.v
SkiplistUpd.v
SkiplistOps.v
SkiplistDel.v
SkiplistRange.v
SkiplistSpec.v
DoubleConv.v
Zzl.v
ZzlInv.v
ZzlRange.v
Zset.v
ZsetInv.v
ZsetConv.v
ZsetSpec.v
ZsetRefine.v
Rio.v
StringObj.v
Rdb.v
RdbSpec.v
RdbDups.v
RdbObj.v
RdbSetSpec.v
RdbSetObj.v
RdbZset.v
RdbObjSpec.v
Dump.v
DumpSpec.v
Kvstore.v
KvstoreInv.v
KvstoreOps.v
KvstoreSpec.v
KvstoreMove.v
KvstoreIter.v
