(* ===== verification/Prelude.v ===== *)
(** * A verification library for the core of Redis

    The repository vendors the Redis server under src/redis-stable/src.  This library
    models, function by function, the data structures the server keeps its keyspace in,
    and proves that they implement the abstract objects the commands rely on: finite sets,
    finite maps, sequences of byte strings, bitmaps.

    ** The parts of the program and how they interact

    A database is a kvstore (kvstore.c): an array of dicts, one per cluster slot, with a
    Fenwick tree of their sizes (fwtree.c) and a list of the dicts being rehashed
    (adlist.c).  A dict (dict.c) is a hash table that grows and shrinks by moving a few
    buckets per operation; it tells its kvstore about resizes through callbacks.  The
    value of a key is an object; a set object (t_set.c) is stored as an integer set
    (intset.c), as a listpack (listpack.c) or as a dict, and is converted from one to the
    other as it grows; a sorted set (t_zset.c) is a listpack of
    elements and scores while it is small, and a dict with a skip list then.  Listpacks store
    integers and strings in the shortest of several
    encodings, which needs the conversions between integers and decimal strings of util.c.
    A string object (object.c) is a byte string or an integer; it can be used as a bitmap
    (bitops.c).  Values are saved to and loaded from a stream (rio.h) in the format of rdb.c,
    where strings are compressed with LZF (lzf_c.c, lzf_d.c); a dumped value (cluster.c) is
    a saved value with a version and a checksum (crc64.c, crcspeed.c, crccombine.c).  Byte
    strings are kept behind a header with their length (sds.c).  Keys are selected with glob patterns (util.c), and in a
    cluster they are distributed over slots by a checksum (crc16.c, cluster.h).

    ** How the code is modelled

    One definition per C function, under the name of the function.  A [w]-bit integer is a
    [Z] with its wrap-around written out ([Machine]); bytes are integers below 256 and a
    block of memory a list of them; a pointer into a block is an offset, NULL is [None].  A
    load, store, memmove or memcpy outside of its block is [Fault OutOfBounds], a failed
    assert [Fault AssertFailed]: a theorem that promises [Ok] promises that neither
    happens.  State is passed explicitly, as records with the fields of the C structs.
    Loops whose end is not given by the structure of the data take fuel and give
    [Fault OutOfFuel] when it is exhausted; the public operations choose the fuel from
    their argument and every theorem that promises a result proves that it suffices.
    Allocation succeeds, except in [Adlist] and [Rdb], where the code handles failure and the
    allocator is a parameter that may fail.  [Sds] models the strings down to the bytes of
    their headers; the other components take a string as the list of its bytes, which
    [SdsSpec] justifies.
    Code outside the repository and sources of chance are parameters of the definitions:
    the hash function and its seed, addresses where the code looks at them, the random
    numbers, the contents of uninitialised memory, the size classes of the allocator.  So are
    the two functions of the bundled dependencies that print and read a double, fpconv_dtoa
    and fast_float_strtod, with the contract [FloatText] of [DoubleConv]: what one prints the
    other reads back.

    ** The files

    - [Prelude]: results of C code, notations, tactics, hint databases, generic lemmas.
    - [Machine]: integers of a given width, little-endian loads and stores, flat buffers.
    - [Intset] (intset.c, all of it): an intset is a sorted array of integers of the
      smallest width that holds them all; adding, removing, searching and validating refine
      a finite set of 64-bit integers.
    - [UtilNum] (util.c): digits10, ll2string, string2ll, string2ul_base16_async_signal_safe
      and relatives, with the round trip, the exact accepted language and overflow.
    - [Glob] and [GlobSpec] (util.c): the glob patterns of KEYS, SCAN and PSUBSCRIBE,
      stringmatchlen, against a declarative semantics of patterns.
    - [Sds] is the model of the dynamic strings (sds.c, sds.h), [SdsSpec] their contract: an sds is a byte
      string, whatever its header and its allocation.  [SdsText] models quoting, splitting
      and joining; [SdsTextSpec]: the grammar of a line of arguments, and the round trips.
      [SdsFmt] models sdscatfmt and sdstemplate; [SdsFmtSpec]: what a format and a template denote.
    - [Gf2]: words as vectors of bits.  [Crc64] is the model of the checksum of 64 bits
      (crc64.c, crcspeed.c for little-endian machines, crccombine.c); [Crc64Inv]: its tables and
      matrices as powers of a shift register; [Crc64Spec]: the fast checksum is the one of
      the register, and detects changes.
    - [Slot] (crc16.c, keyHashSlot of cluster.h, patternHashSlot of cluster.c): the cluster
      slot of a key is the checksum of its hash tag, and a pattern that is assigned a slot
      matches keys of that slot only.
    - [Listpack] is the model of listpack.c.  [ListpackEnc]: encoders and decoders of one
      entry.  [ListpackSeq]: the representation invariant and traversal.  [ListpackRead]:
      getters, comparison and search.  [ListpackUpd]: lpInsert and what is built on it.
      [ListpackValid]: validation of untrusted bytes.  [ListpackSpec]: the contract, a
      listpack is a sequence of byte strings.  [ListpackBatch]: batch insertion and
      deletion, merging.
    - [Dict] is the model of dict.c.  [DictInv]: the invariant and its preservation by
      rehashing and resizing.  [DictOps]: the operations refine a finite map.  [DictIter]:
      iterators and insertion at a found bucket.  [DictSafe]: deletions
      under a safe iterator.  [DictLog]: the notifications of a dict.
      [DictScan]: the bit-reversed cursor of dictScan.  [DictSpec]: the contract.
      [DictRun]: histories, any sequence of calls of the interface beside a finite map.
    - [Iterable]: the class of iterators and what they promise to a loop over them, with
      instances for integer sets, listpacks, dicts and set objects.
    - [Adlist], [AdlistSpec] (adlist.c, all of it): doubly linked lists on a heap of nodes.
    - [Fwtree] (fwtree.c, all of it): Fenwick trees refine an array of counters.
    - [Bitops], [BitopsSpec] (bitops.c): population count, bit search and bitfields agree
      with the list of bits of the bitmap.
    - [Lzf], [LzfSpec] (lzf_c.c, lzf_d.c): compression and decompression.
    - [SetType], [SetTypeSpec] (the type layer of t_set.c): set objects refine finite sets
      of byte strings across all encodings and conversions.
    - [Double]: scores, IEEE 754 numbers and their order.  [Skiplist] is the model of the
      skip list of t_zset.c.  [ZOrder]: the order of scores and elements.  [SkiplistInv]: a
      skip list represents a sorted sequence of towers.  [SkiplistUpd], [SkiplistOps],
      [SkiplistDel]: level updates, insertion, deletion and score updates.
      [SkiplistRange]: ranks and ranges.  [SkiplistSpec]: the contract.
    - [DoubleConv] (util.c): doubles as integers and as text.  [Zzl] is the model of the
      listpack encoding of sorted sets, [ZzlInv] what such a listpack represents,
      [ZzlRange] its ranges.  [Zset] is
      the model of the sorted set object; [ZsetInv]: the two encodings as a map with an
      order; [ZsetConv]: conversions and copies; [ZsetSpec]: the contract of each operation;
      [ZsetRefine]: sorted sets refine finite maps from elements to scores.
    - [Rio] (rio.h, the buffer of rio.c): streams over a class of backends with a contract.
      [StringObj] (object.c): string objects and their encodings.  [Rdb] is the model of the
      encodings of rdb.c; [RdbSpec]: a string that is saved
      is loaded, and loading is safe.  [RdbDups]: the validation of a loaded listpack whose
      tuples must start with different texts.  [RdbObj] is the model of saving and loading
      objects; [RdbSetSpec], [RdbSetObj]: sets; [RdbZset]: sorted sets and
      the bits of a double; [RdbObjSpec]: an object
      of any encoding loads as an object with the same value.
    - [Dump], [DumpSpec] (createDumpPayload and verifyDumpPayload of cluster.c): what is dumped
      is accepted and restored; a change of up to eight bytes is noticed.
    - [Kvstore] is the model of kvstore.c.  [KvstoreInv]: an array of maps and its
      statistics.  [KvstoreOps]: the contract of each operation.  [KvstoreSpec]: the whole
      keyspace refines an array of maps; index queries and scans.  [KvstoreMove]: moving a
      dict between kvstores.  [KvstoreIter]: iterating over all dicts while deleting.

    ** What the theorems show

    - Refinement: an arbitrary sequence of operations on a dict, a kvstore or a set object
      gives the answers of a finite map, an array of finite maps, a finite set; on a dynamic string those of a byte string; every
      listpack and intset operation does to the bytes what its name says on the sequence or
      set they represent, and each operation succeeds, with the C result on every branch.
    - Invariants: every state that the operations reach satisfies the representation
      invariant, at every stage of an incremental rehash and for every resize policy; the
      counters of a kvstore agree with its dicts after any sequence of operations.
    - Sorted sets: a skip list of any shape that random levels can give is the sorted
      sequence of its members, under insertion, deletion, score updates and range deletion;
      spans are exact, so that ranks and the n-th member of a range are.  A sorted set object
      answers additions with all their flags, removals, scores and ranks like a finite map,
      in both encodings and across conversions, and never returns NaN as a score.
    - Scanning: dictScan and kvstoreScan terminate and return every key that was present
      from the first call to the last, although tables grow, shrink and are rehashed in
      between.
    - Safety on untrusted input: listpack and intset validation, LZF decompression and the
      loading of saved strings never leave their buffers, whatever the bytes, and what
      validation accepts can be walked.  A dumped value in which up to eight bytes in a row
      were changed is refused.
    - Round trips: arguments that are quoted and split (exactly those that
      sdsneedsrepr quotes, or that are non-empty and free of single quotes), strings that are split and joined,
      dumped and restored values, saved and loaded strings, sets and sorted sets in every encoding, LZF,
      integers and strings, bitfields, listpack encodings.
    - Equivalence of an optimised routine with a reference: population count, bit search,
      the glob matcher, the table-driven checksums, the Fenwick tree.

    ** Bounds and fuel

    Traversals of a block of memory have the size of the block as fuel: every iteration
    consumes a byte or more. Rehashing has the number of buckets left, the Fenwick tree
    the bits of its size (64 at most), a walk along a level of a skip list its length, the glob matcher the length of the pattern,
    binary search the number of elements, iterators the number of buckets and entries, a
    scan the number of cursors of the two tables, a checksum the number of bytes, the product of
    a matrix and a word the 16 digits of the word. Sizes are bounded where the C types
    bound them: a listpack by the 32 bits of its header, an intset by the 32 bits of its
    length, a table by 2^62 buckets, a kvstore by 2^16 dicts, a
    sorted set in a listpack by a configured limit of at most 2^24 members, an sds by 2^60 bytes; the theorems state the
    bounds they need as hypotheses, with a witness for each. Lengths that are passed as
    uint32_t or int (lpInsert, lpFind, keyHashSlot) are integers of the model without a wrap-around:
    the theorems assume the bound of the type.

    ** Not modelled

    Within the modelled files: debugAsserts, which are compiled out, the statistics and debugging printers, defragmentation, the
    random choice of entries where the distribution is all there is to say, the packing of
    entries into tagged pointers, the prefetching of the dict, the vectorised variants of
    population count, the release of an sds, the checksums for big-endian machines, and the command procedures (SADD, BITOP, ...), which parse arguments
    and reply to clients.  Of the rest of Redis: the event loop, networking, the files of
    persistence, replication, cluster, scripting, modules and configuration are I/O and glue around
    these structures; quicklist.c, rax.c and ziplist.c
    are data structures that the library does not cover yet.  The bundled dependencies under
    src/redis-stable/deps, the Python packages under src/backend/venv, and the web
    application are not part of the server core. *)

From Stdlib Require Export ZArith Lia ZifyBool.
From stdpp Require Export base list list_numbers numbers option.

#[global] Open Scope Z_scope.

(** * Results of C code

    A C function that may read or write outside an object, fail an [assert], or
    (for a loop written with fuel) not finish, returns a [res].  Every theorem
    that promises a result proves an [Ok]. *)

Inductive fault : Set :=
| OutOfBounds   (* a load or store outside the object *)
| AssertFailed  (* an assert() / panic in the source *)
| OutOfFuel.    (* the model's loop bound was exhausted *)

Inductive res (A : Type) : Type :=
| Ok (a : A)
| Fault (f : fault).
Arguments Ok {A} _.
Arguments Fault {A} _.

Declare Scope c_scope.
Delimit Scope c_scope with c.
#[global] Open Scope c_scope.

Notation "'let!' x ':=' e 'in' k" :=
  (match e with Ok x => k | Fault f => Fault f end)
  (at level 10, x name, e at level 200, k at level 200,
   format "'[v' 'let!'  x  ':='  e  'in' '/' k ']'") : c_scope.
Notation "'let!' ' p ':=' e 'in' k" :=
  (match e with Ok p => k | Fault f => Fault f end)
  (at level 10, p strict pattern, e at level 200, k at level 200,
   format "'[v' 'let!'  ' p  ':='  e  'in' '/' k ']'") : c_scope.
Notation "'assert!' b 'in' k" :=
  (if b then k else Fault AssertFailed)
  (at level 10, b at level 200, k at level 200,
   format "'[v' 'assert!'  b  'in' '/' k ']'") : c_scope.

#[global] Instance fault_eq_dec : EqDecision fault.
Proof. solve_decision. Defined.
#[global] Instance res_eq_dec {A} `{EqDecision A} : EqDecision (res A).
Proof. solve_decision. Defined.

(** * Tactics *)

(** Case analysis on every boolean comparison of integers in sight. *)
Ltac zbool :=
  rewrite ?Z.gtb_ltb, ?Z.geb_leb in *;
  repeat match goal with
  | H : context [Z.ltb ?a ?b] |- _ => destruct (Z.ltb_spec a b)
  | H : context [Z.leb ?a ?b] |- _ => destruct (Z.leb_spec a b)
  | H : context [Z.eqb ?a ?b] |- _ => destruct (Z.eqb_spec a b)
  | |- context [Z.ltb ?a ?b] => destruct (Z.ltb_spec a b)
  | |- context [Z.leb ?a ?b] => destruct (Z.leb_spec a b)
  | |- context [Z.eqb ?a ?b] => destruct (Z.eqb_spec a b)
  end.

(** Invert a chain of successful results. *)
Ltac res_inv :=
  repeat match goal with
  | H : Ok _ = Ok _ |- _ => injection H as H
  | H : Fault _ = Ok _ |- _ => discriminate H
  | H : Ok _ = Fault _ |- _ => discriminate H
  | H : (match ?e with Ok _ => _ | Fault _ => _ end) = Ok _ |- _ =>
      let E := fresh "E" in destruct e eqn:E; simpl in H; try discriminate H
  | H : (if ?b then _ else Fault _) = Ok _ |- _ =>
      let E := fresh "E" in destruct b eqn:E; try discriminate H
  end.

(** Settle the first boolean test of the goal by arithmetic. *)
Ltac zif :=
  rewrite ?Z.gtb_ltb, ?Z.geb_leb;
  match goal with
  | |- context [Z.ltb ?a ?b] =>
      first [ rewrite (proj2 (Z.ltb_lt a b)) by lia
            | rewrite (proj2 (Z.ltb_ge a b)) by lia ]
  | |- context [Z.leb ?a ?b] =>
      first [ rewrite (proj2 (Z.leb_le a b)) by lia
            | rewrite (proj2 (Z.leb_gt a b)) by lia ]
  | |- context [Z.eqb ?a ?b] =>
      first [ rewrite (proj2 (Z.eqb_eq a b)) by lia
            | rewrite (proj2 (Z.eqb_neq a b)) by lia ]
  end.

(** Evaluate the powers of two with a constant exponent. *)
Ltac pow_const :=
  repeat match goal with
  | |- context [2 ^ ?e] =>
      let v := eval vm_compute in (2 ^ e) in
      lazymatch v with Zpos _ => change (2 ^ e) with v end
  | H : context [2 ^ ?e] |- _ =>
      let v := eval vm_compute in (2 ^ e) in
      lazymatch v with Zpos _ => change (2 ^ e) with v in H end
  end.

(** * Hint databases *)
Create HintDb redis discriminated.
Create Rewrite HintDb redis_len.

#[export] Hint Rewrite @length_app @length_take @length_drop @length_replicate
  @length_fmap @length_insert @length_seqZ : redis_len.

(** Length arithmetic on lists. *)
Ltac len := cbn [length] in *; autorewrite with redis_len in *; cbn [length] in *; try lia.

(** The same with products of lengths. *)
Ltac nlen := cbn [length] in *; autorewrite with redis_len in *; cbn [length] in *; try nia.
