(* ===== verification/Machine.v ===== *)
(** Machine integers and byte memory.

    Fixed-width unsigned and two's-complement integers over [Z] with their
    wrap-around, little-endian encoding of integers as bytes, and flat byte
    buffers with bounds-checked loads, stores, [memmove] and [realloc]. *)

From S2P Require Import Prelude.

(** * Fixed-width integers *)

(** Conversion to a [w]-bit unsigned integer. *)
Definition u (w z : Z) : Z := z mod 2 ^ w.
(** Conversion to a [w]-bit two's-complement integer. *)
Definition s (w z : Z) : Z := (z + 2 ^ (w - 1)) mod 2 ^ w - 2 ^ (w - 1).

Notation u8 := (u 8).
Notation u16 := (u 16).
Notation u32 := (u 32).
Notation u64 := (u 64).
Notation s16 := (s 16).
Notation s32 := (s 32).
Notation s64 := (s 64).

Definition INT16_MIN : Z := -32768.
Definition INT16_MAX : Z := 32767.
Definition INT32_MIN : Z := -2147483648.
Definition INT32_MAX : Z := 2147483647.
Definition UINT32_MAX : Z := 4294967295.
Definition LLONG_MIN : Z := -9223372036854775808.
Definition LLONG_MAX : Z := 9223372036854775807.
Definition ULLONG_MAX : Z := 18446744073709551615.
(** size_t is 64 bits wide *)
Definition SIZE_MAX : Z := ULLONG_MAX.

Definition in_u (w z : Z) : Prop := 0 <= z < 2 ^ w.
Definition in_s (w z : Z) : Prop := - 2 ^ (w - 1) <= z < 2 ^ (w - 1).
(** A C truth value as an integer. *)
Definition b2z (b : bool) : Z := if b then 1 else 0.

Lemma u_id w z : 0 <= z < 2 ^ w -> u w z = z.
Proof. intros; unfold u; by apply Z.mod_small. Qed.

Lemma u_range w z : 0 <= w -> 0 <= u w z < 2 ^ w.
Proof. intros; unfold u; apply Z.mod_pos_bound; lia. Qed.

Lemma pow2_split w : 0 < w -> 2 ^ w = 2 * 2 ^ (w - 1).
Proof.
  intros. rewrite <- (Z.pow_succ_r 2 (w - 1)) by lia. f_equal; lia.
Qed.

Lemma s_id w z : 0 < w -> in_s w z -> s w z = z.
Proof.
  intros Hw [? ?]; unfold s. pose proof (pow2_split w Hw).
  rewrite Z.mod_small; lia.
Qed.

Lemma s_range w z : 0 < w -> in_s w (s w z).
Proof.
  intros Hw; unfold in_s, s. pose proof (pow2_split w Hw).
  pose proof (Z.mod_pos_bound (z + 2 ^ (w - 1)) (2 ^ w)). lia.
Qed.

Lemma s_mod w z : 0 <= w -> s w (z mod 2 ^ w) = s w z.
Proof.
  intros; unfold s. by rewrite Zplus_mod_idemp_l.
Qed.

(** * Bytes and little-endian integers *)

Definition bytes_ok (bs : list Z) : Prop := Forall (fun b => 0 <= b < 256) bs.

(** The [n] low-order bytes of [v], least significant first. *)
Fixpoint le_enc (n : nat) (v : Z) : list Z :=
  match n with
  | O => []
  | S n => v mod 256 :: le_enc n (v / 256)
  end.

(** The unsigned integer whose little-endian bytes are [bs]. *)
Fixpoint le_dec (bs : list Z) : Z :=
  match bs with
  | [] => 0
  | b :: bs => b + 256 * le_dec bs
  end.

Lemma length_le_enc n v : length (le_enc n v) = n.
Proof. revert v; induction n; intros; simpl; auto. Qed.

Lemma le_enc_bytes n v : bytes_ok (le_enc n v).
Proof.
  unfold bytes_ok; revert v; induction n; intros; simpl; constructor; auto.
  apply Z.mod_pos_bound; lia.
Qed.

Lemma pow256_succ n : 2 ^ (8 * Z.of_nat (S n)) = 256 * 2 ^ (8 * Z.of_nat n).
Proof.
  replace (8 * Z.of_nat (S n)) with (8 + 8 * Z.of_nat n) by lia.
  rewrite Z.pow_add_r by lia. lia.
Qed.

Lemma le_dec_enc n v : le_dec (le_enc n v) = v mod 2 ^ (8 * Z.of_nat n).
Proof.
  revert v; induction n; intros; [by rewrite Z.mod_1_r|].
  cbn [le_enc le_dec]. rewrite IHn, pow256_succ, Z.rem_mul_r by lia. lia.
Qed.

Lemma le_dec_range bs :
  bytes_ok bs -> 0 <= le_dec bs < 2 ^ (8 * Z.of_nat (length bs)).
Proof.
  induction 1 as [|b bs Hb _ IH]; [simpl; lia|].
  cbn [le_dec length]. rewrite pow256_succ. lia.
Qed.

Lemma le_enc_dec bs : bytes_ok bs -> le_enc (length bs) (le_dec bs) = bs.
Proof.
  induction 1 as [|b bs Hb _ IH]; [done|]. cbn [le_enc le_dec length].
  rewrite (Z.mul_comm 256), Z.mod_add, Z.div_add by lia.
  rewrite Z.mod_small, Z.div_small by lia. by rewrite Z.add_0_l, IH.
Qed.

Lemma le_enc_mod n v : le_enc n (v mod 2 ^ (8 * Z.of_nat n)) = le_enc n v.
Proof.
  rewrite <- le_dec_enc. rewrite <- (length_le_enc n v) at 1.
  apply le_enc_dec, le_enc_bytes.
Qed.

Lemma le_dec_app bs1 bs2 :
  le_dec (bs1 ++ bs2) = le_dec bs1 + 2 ^ (8 * Z.of_nat (length bs1)) * le_dec bs2.
Proof.
  induction bs1 as [|b bs1 IH]; [cbn; lia|].
  cbn [app le_dec length]. rewrite IH, pow256_succ. lia.
Qed.

(** The signed value of [n] little-endian bytes. *)
Definition sle_dec (bs : list Z) : Z := s (8 * Z.of_nat (length bs)) (le_dec bs).

Lemma sle_dec_enc n v :
  (0 < n)%nat -> in_s (8 * Z.of_nat n) v -> sle_dec (le_enc n v) = v.
Proof.
  intros Hn Hv. unfold sle_dec. rewrite length_le_enc, le_dec_enc.
  rewrite s_mod by lia. apply s_id; [lia|done].
Qed.

Lemma le_enc_sle_dec bs :
  bytes_ok bs -> (0 < length bs)%nat -> le_enc (length bs) (sle_dec bs) = bs.
Proof.
  intros Hb Hl. rewrite <- (le_enc_mod _ (sle_dec bs)).
  transitivity (le_enc (length bs) (le_dec bs)); [|by apply le_enc_dec]. f_equal.
  unfold sle_dec, s. rewrite Zminus_mod_idemp_l, Z.add_simpl_r.
  apply Z.mod_small, le_dec_range, Hb.
Qed.

#[export] Hint Rewrite length_le_enc : redis_len.
#[export] Hint Resolve le_enc_bytes : redis.

Lemma bytes_ok_app l1 l2 : bytes_ok (l1 ++ l2) <-> bytes_ok l1 /\ bytes_ok l2.
Proof. apply Forall_app. Qed.

(** * Byte buffers *)

Notation zlength l := (Z.of_nat (length l)).

Section Buffers.
Context {A : Type}.
Implicit Types b bs : list A.

(** Read [n] cells at offset [off]. *)
Definition load (off n : Z) b : res (list A) :=
  if (0 <=? off) && (0 <=? n) && (off + n <=? zlength b)
  then Ok (take (Z.to_nat n) (drop (Z.to_nat off) b))
  else Fault OutOfBounds.

(** Overwrite the cells at [off] with [bs]. *)
Definition store (off : Z) bs b : res (list A) :=
  if (0 <=? off) && (off + zlength bs <=? zlength b)
  then Ok (take (Z.to_nat off) b ++ bs ++ drop (Z.to_nat off + length bs) b)
  else Fault OutOfBounds.

(** One cell. *)
Definition get1 (off : Z) b : res A :=
  if off <? 0 then Fault OutOfBounds
  else match b !! Z.to_nat off with Some x => Ok x | None => Fault OutOfBounds end.
Definition set1 (off : Z) (x : A) b : res (list A) := store off [x] b.

(** memmove: the source is read completely before the destination is written. *)
Definition memmove (dst src n : Z) b : res (list A) :=
  let! bs := load src n b in store dst bs b.

(** zrealloc to [n] cells; cells past the old size hold indeterminate contents,
    represented by [junk]. *)
Definition realloc (junk : A) (n : Z) b : list A :=
  take (Z.to_nat n) b ++ replicate (Z.to_nat n - length b) junk.

Lemma load_app pre mid post off n :
  off = zlength pre -> n = zlength mid -> load off n (pre ++ mid ++ post) = Ok mid.
Proof.
  intros -> ->. unfold load. rewrite !length_app.
  repeat zif. simpl. f_equal.
  rewrite !Nat2Z.id, drop_app_length. by rewrite take_app_length.
Qed.

Lemma store_app pre mid mid' post off :
  off = zlength pre -> length mid = length mid' ->
  store off mid' (pre ++ mid ++ post) = Ok (pre ++ mid' ++ post).
Proof.
  intros -> Hl. unfold store. rewrite !length_app.
  repeat zif. simpl. f_equal.
  rewrite Nat2Z.id, take_app_length. do 2 f_equal.
  rewrite <- drop_drop, drop_app_length, <- Hl. apply drop_app_length.
Qed.

Lemma split_at b off n :
  0 <= off -> 0 <= n -> off + n <= zlength b ->
  exists pre mid post, b = pre ++ mid ++ post /\ off = zlength pre /\ n = zlength mid.
Proof.
  intros. exists (take (Z.to_nat off) b),
    (take (Z.to_nat n) (drop (Z.to_nat off) b)), (drop (Z.to_nat n) (drop (Z.to_nat off) b)).
  rewrite !take_drop. repeat split; len.
Qed.

Lemma load_Ok off n b r :
  load off n b = Ok r ->
  exists pre post, b = pre ++ r ++ post /\ off = zlength pre /\ n = zlength r.
Proof.
  unfold load. intros H.
  destruct ((0 <=? off) && (0 <=? n) && (off + n <=? zlength b)) eqn:E; [|done].
  injection H as <-. exists (take (Z.to_nat off) b), (drop (Z.to_nat n) (drop (Z.to_nat off) b)).
  rewrite !take_drop. repeat split; len.
Qed.

Lemma load_ok off n b :
  0 <= off -> 0 <= n -> off + n <= zlength b -> exists r, load off n b = Ok r /\ zlength r = n.
Proof.
  intros H1 H2 H3. destruct (split_at b off n H1 H2 H3) as (pre & mid & post & -> & -> & ->).
  exists mid. by rewrite load_app.
Qed.

Lemma get1_app pre x post off : off = zlength pre -> get1 off (pre ++ x :: post) = Ok x.
Proof.
  intros ->. unfold get1. zif. rewrite Nat2Z.id, lookup_app_r by lia.
  by rewrite Nat.sub_diag.
Qed.

Lemma get1_0 x b : get1 0 (x :: b) = Ok x.
Proof. done. Qed.
Lemma get1_1 x y b : get1 1 (x :: y :: b) = Ok y.
Proof. done. Qed.

Lemma get1_lookup b i x : b !! i = Some x -> get1 (Z.of_nat i) b = Ok x.
Proof. intros H. unfold get1. zif. by rewrite Nat2Z.id, H. Qed.

Lemma get1_Ok off b x : get1 off b = Ok x <-> 0 <= off /\ b !! Z.to_nat off = Some x.
Proof.
  unfold get1. zbool; [split; [done|lia]|].
  destruct (b !! Z.to_nat off); split; [intros; res_inv; by subst|intros [_ ?]; congruence|done|intros [_ ?]; congruence].
Qed.

Lemma get1_in b off : 0 <= off < zlength b -> exists x, get1 off b = Ok x.
Proof.
  intros H. destruct (lookup_lt_is_Some_2 b (Z.to_nat off)) as [x Hx]; [lia|].
  exists x. apply get1_Ok. split; [lia|done].
Qed.

Lemma set1_insert b off x :
  0 <= off < zlength b -> set1 off x b = Ok (<[Z.to_nat off := x]> b).
Proof.
  intros H. destruct (split_at b off 1) as (pre & xx & post & -> & -> & Hx); [lia..|].
  destruct xx as [|y [|]]; cbn [length] in Hx; try lia.
  unfold set1. rewrite (store_app pre [y] [x]) by done. f_equal.
  rewrite Nat2Z.id. simpl app. by rewrite insert_app_r_alt, Nat.sub_diag by lia.
Qed.

Lemma length_realloc junk n b : 0 <= n -> zlength (realloc junk n b) = n.
Proof. intros. unfold realloc. len. Qed.

Lemma realloc_grow junk n b :
  zlength b <= n -> realloc junk n b = b ++ replicate (Z.to_nat (n - zlength b)) junk.
Proof.
  intros. unfold realloc. rewrite take_ge by lia. do 2 f_equal. lia.
Qed.

Lemma realloc_shrink junk b1 b2 n :
  n = zlength b1 -> realloc junk n (b1 ++ b2) = b1.
Proof.
  intros ->. unfold realloc. rewrite Nat2Z.id, take_app_length, length_app.
  replace (_ - _)%nat with 0%nat by lia. by rewrite app_nil_r.
Qed.

Lemma memmove_app pre mid post dst src n d dpre dpost :
  pre ++ mid ++ post = dpre ++ d ++ dpost -> src = zlength pre -> n = zlength mid ->
  dst = zlength dpre -> length d = length mid ->
  memmove dst src n (pre ++ mid ++ post) = Ok (dpre ++ mid ++ dpost).
Proof.
  intros Heq -> -> -> Hl. unfold memmove. rewrite load_app by done.
  rewrite Heq. by apply store_app.
Qed.
End Buffers.

(** memcmp: the sign of the first difference *)
Fixpoint memcmp (n : nat) (s1 s2 : list Z) : Z :=
  match n, s1, s2 with
  | S n, c1 :: s1, c2 :: s2 => if c1 =? c2 then memcmp n s1 s2 else if c1 <? c2 then -1 else 1
  | _, _, _ => 0
  end.

(** * Bit operations as arithmetic *)

Lemma lor_shl_add a b k : 0 <= k -> 0 <= a < 2 ^ k -> Z.lor a (Z.shiftl b k) = a + b * 2 ^ k.
Proof.
  intros Hk Ha. rewrite Z.shiftl_mul_pow2 by done. rewrite <- Z.add_lor_land.
  replace (Z.land a (b * 2 ^ k)) with 0; [lia|]. symmetry. apply Z.bits_inj'. intros i Hi.
  rewrite Z.land_spec, Z.bits_0, Z.mul_pow2_bits by lia.
  destruct (Z.lt_ge_cases i k).
  - by rewrite (Z.testbit_neg_r b), andb_false_r by lia.
  - rewrite <- (Z.mod_small a (2 ^ k)) by done. by rewrite Z.mod_pow2_bits_high by lia.
Qed.

Lemma land_ones_mod v k : 0 <= k -> Z.land v (Z.ones k) = v mod 2 ^ k.
Proof. apply Z.land_ones. Qed.
