(* ===== verification/Intset.v ===== *)
(** Integer sets: src/redis-stable/src/intset.c.

    An intset is one allocation: a header with the encoding (the byte width of
    every element) and the number of elements, followed by the elements as sorted
    little-endian integers.  The model keeps the element area as a flat list of
    bytes, so in-place upgrades and [memmove]s are byte operations, as in C. *)

From stdpp Require Import gmap sorting.
From S2P Require Import Prelude Machine.

(** * Model *)

(** [contents] is the flexible array member; its length is the allocated size. *)
Record intset := mk_intset {
  encoding : Z;      (* uint32_t *)
  is_length : Z;     (* uint32_t, the field [length] *)
  contents : list Z  (* int8_t[] *)
}.

Definition INTSET_ENC_INT16 : Z := 2.
Definition INTSET_ENC_INT32 : Z := 4.
Definition INTSET_ENC_INT64 : Z := 8.
(** sizeof(intset): the two 32-bit header fields *)
Definition sizeof_intset : Z := 8.

Definition _intsetValueEncoding (v : Z) : Z :=
  if (v <? INT32_MIN) || (INT32_MAX <? v) then INTSET_ENC_INT64
  else if (v <? INT16_MIN) || (INT16_MAX <? v) then INTSET_ENC_INT32
  else INTSET_ENC_INT16.

Definition _intsetGetEncoded (iset : intset) (pos enc : Z) : res Z :=
  if enc =? INTSET_ENC_INT64 then
    let! v64 := load (pos * 8) 8 (contents iset) in Ok (sle_dec v64)
  else if enc =? INTSET_ENC_INT32 then
    let! v32 := load (pos * 4) 4 (contents iset) in Ok (sle_dec v32)
  else
    let! v16 := load (pos * 2) 2 (contents iset) in Ok (sle_dec v16).

Definition _intsetGet (iset : intset) (pos : Z) : res Z :=
  _intsetGetEncoded iset pos (encoding iset).

Definition _intsetSet (iset : intset) (pos value : Z) : res intset :=
  let! c := (if encoding iset =? INTSET_ENC_INT64 then
               store (pos * 8) (le_enc 8 value) (contents iset)
             else if encoding iset =? INTSET_ENC_INT32 then
               store (pos * 4) (le_enc 4 value) (contents iset)
             else
               store (pos * 2) (le_enc 2 value) (contents iset)) in
  Ok (mk_intset (encoding iset) (is_length iset) c).

Definition intsetNew : intset := mk_intset INTSET_ENC_INT16 0 [].

Definition intsetAllocSize (iset : intset) : res Z :=
  let size := u64 (is_length iset * encoding iset) in
  assert! size <=? SIZE_MAX - sizeof_intset in
  Ok (u64 (sizeof_intset + size)).

Section Ops.
(** the contents of freshly allocated bytes *)
Context (junk : Z).

Definition intsetResize (iset : intset) (len : Z) : res intset :=
  let size := u64 (len * encoding iset) in
  assert! size <=? SIZE_MAX - sizeof_intset in
  Ok (mk_intset (encoding iset) (is_length iset) (realloc junk size (contents iset))).

(** the while loop of intsetSearch: the final (min, mid, cur) *)
Fixpoint intsetSearch_loop (fuel : nat) (iset : intset) (value min max mid cur : Z)
    : res (Z * Z * Z) :=
  if max >=? min then
    match fuel with
    | O => Fault OutOfFuel
    | S fuel =>
        let mid := s32 (Z.shiftr (u32 (u32 min + u32 max)) 1) in
        let! cur := _intsetGet iset mid in
        if value >? cur then intsetSearch_loop fuel iset value (mid + 1) max mid cur
        else if value <? cur then intsetSearch_loop fuel iset value min (mid - 1) mid cur
        else Ok (min, mid, cur)
    end
  else Ok (min, mid, cur).

(** the result and the position written to [*pos] *)
Definition intsetSearch (iset : intset) (value : Z) : res (bool * Z) :=
  let max := s32 (is_length iset - 1) in
  let loop :=
    let! '(min, mid, cur) :=
      intsetSearch_loop (S (Z.to_nat (is_length iset))) iset value 0 max (-1) (-1) in
    if value =? cur then Ok (true, mid) else Ok (false, min) in
  if is_length iset =? 0 then Ok (false, 0)
  else
    let! last := _intsetGet iset max in
    if value >? last then Ok (false, is_length iset)
    else
      let! first := _intsetGet iset 0 in
      if value <? first then Ok (false, 0) else loop.

(** while(length--) _intsetSet(is,length+prepend,_intsetGetEncoded(is,length,curenc)) *)
Fixpoint intsetUpgrade_loop (length : nat) (iset : intset) (prepend curenc : Z) : res intset :=
  match length with
  | O => Ok iset
  | S length =>
      let! v := _intsetGetEncoded iset (Z.of_nat length) curenc in
      let! iset := _intsetSet iset (Z.of_nat length + prepend) v in
      intsetUpgrade_loop length iset prepend curenc
  end.

Definition intsetUpgradeAndAdd (iset : intset) (value : Z) : res intset :=
  let curenc := u8 (encoding iset) in
  let newenc := _intsetValueEncoding value in
  let length := s32 (is_length iset) in
  let prepend := if value <? 0 then 1 else 0 in
  let iset := mk_intset newenc (is_length iset) (contents iset) in
  let! iset := intsetResize iset (u32 (is_length iset + 1)) in
  let! iset := intsetUpgrade_loop (Z.to_nat length) iset prepend curenc in
  let! iset := (if prepend =? 1 then _intsetSet iset 0 value
              else _intsetSet iset (is_length iset) value) in
  Ok (mk_intset (encoding iset) (u32 (is_length iset + 1)) (contents iset)).

Definition intsetMoveTail (iset : intset) (from to : Z) : res intset :=
  let bytes := u32 (is_length iset - from) in
  let! c := (if encoding iset =? INTSET_ENC_INT64 then
               memmove (to * 8) (from * 8) (u32 (bytes * 8)) (contents iset)
             else if encoding iset =? INTSET_ENC_INT32 then
               memmove (to * 4) (from * 4) (u32 (bytes * 4)) (contents iset)
             else
               memmove (to * 2) (from * 2) (u32 (bytes * 2)) (contents iset)) in
  Ok (mk_intset (encoding iset) (is_length iset) c).

(** the set and [*success] *)
Definition intsetAdd (iset : intset) (value : Z) : res (intset * bool) :=
  let valenc := _intsetValueEncoding value in
  if valenc >? encoding iset then
    let! iset := intsetUpgradeAndAdd iset value in Ok (iset, true)
  else
    let! '(found, pos) := intsetSearch iset value in
    if (found : bool) then Ok (iset, false)
    else
      let! iset := intsetResize iset (u32 (is_length iset + 1)) in
      let! iset := (if pos <? is_length iset then intsetMoveTail iset pos (u32 (pos + 1))
                  else Ok iset) in
      let! iset := _intsetSet iset pos value in
      Ok (mk_intset (encoding iset) (u32 (is_length iset + 1)) (contents iset), true).

Definition intsetRemove (iset : intset) (value : Z) : res (intset * bool) :=
  let valenc := _intsetValueEncoding value in
  let! '(found, pos) := (if valenc <=? encoding iset then intsetSearch iset value
                         else Ok (false, 0)) in
  if (found : bool) then
    let len := is_length iset in
    let! iset := (if pos <? u32 (len - 1) then intsetMoveTail iset (u32 (pos + 1)) pos
                else Ok iset) in
    let! iset := intsetResize iset (u32 (len - 1)) in
    Ok (mk_intset (encoding iset) (u32 (len - 1)) (contents iset), true)
  else Ok (iset, false).
End Ops.

Definition intsetFind (iset : intset) (value : Z) : res bool :=
  let valenc := _intsetValueEncoding value in
  if valenc <=? encoding iset then
    let! '(found, _) := intsetSearch iset value in Ok found
  else Ok false.

(** [rand] is the value returned by rand() *)
Definition intsetRandom (rand : Z) (iset : intset) : res Z :=
  let len := is_length iset in
  assert! negb (len =? 0) in
  _intsetGet iset (s32 (u32 rand mod len)).

Definition intsetMax (iset : intset) : res Z := _intsetGet iset (s32 (u32 (is_length iset - 1))).

Definition intsetMin (iset : intset) : res Z := _intsetGet iset 0.

(** [None] is the return value 0 *)
Definition intsetGet (iset : intset) (pos : Z) : res (option Z) :=
  if pos <? is_length iset then
    let! v := _intsetGet iset (s32 pos) in Ok (Some v)
  else Ok None.

Definition intsetLen (iset : intset) : Z := is_length iset.

Definition intsetBlobLen (iset : intset) : Z :=
  u64 (sizeof_intset + u64 (is_length iset * encoding iset)).

(** for (i = 1; i < count; i++): [n] iterations from [i] *)
Fixpoint intsetValidate_loop (n : nat) (iset : intset) (i prev : Z) : res bool :=
  match n with
  | O => Ok true
  | S n =>
      let! cur := _intsetGet iset (s32 i) in
      if cur <=? prev then Ok false else intsetValidate_loop n iset (i + 1) cur
  end.

(** [p] is the memory the pointer designates; [size] bytes of it are the payload *)
Definition intsetValidateIntegrity (p : list Z) (size : Z) (deep : bool) : res bool :=
  if size <? sizeof_intset then Ok false
  else
    let! enc_bytes := load 0 4 p in
    let encoding := le_dec enc_bytes in
    let! len_bytes := load 4 4 p in
    let count := le_dec len_bytes in
    let iset := mk_intset encoding count (drop 8 p) in
    if (encoding =? INTSET_ENC_INT64) || (encoding =? INTSET_ENC_INT32)
       || (encoding =? INTSET_ENC_INT16) then
      let record_size := encoding in
      if negb (u64 (sizeof_intset + u64 (count * record_size)) =? size) then Ok false
      else if count =? 0 then Ok false
      else if negb deep then Ok true
      else
        let! prev := _intsetGet iset 0 in
        intsetValidate_loop (Z.to_nat (count - 1)) iset 1 prev
    else Ok false.

(** ** Examples *)

Definition add_all (vs : list Z) : res intset :=
  foldl (fun r v => let! iset := r in
                    let! '(iset, _) := intsetAdd 170 iset v in Ok iset) (Ok intsetNew) vs.

Example add_all_upgrades :
  add_all [5; 3; 70000; -5; 3] =
  Ok (mk_intset 4 4 (concat (map (le_enc 4) [-5; 3; 5; 70000]))).
Proof. vm_compute. reflexivity. Qed.

(** * Representation invariant *)

(** The elements [xs] laid out one after the other, [n] bytes each. *)
Definition enc_seq (n : nat) (xs : list Z) : list Z := concat (map (le_enc n) xs).

Definition valid_enc (e : Z) : Prop :=
  e = INTSET_ENC_INT16 \/ e = INTSET_ENC_INT32 \/ e = INTSET_ENC_INT64.

(** [repr iset xs]: the structure holds the strictly increasing sequence [xs].
    The bound on the number of elements is the range of the [int] indices. *)
Record repr (iset : intset) (xs : list Z) : Prop := {
  repr_enc : valid_enc (encoding iset);
  repr_len : is_length iset = zlength xs;
  repr_contents : contents iset = enc_seq (Z.to_nat (encoding iset)) xs;
  repr_sorted : StronglySorted Z.lt xs;
  repr_fit : Forall (in_s (8 * encoding iset)) xs
}.

Lemma length_enc_seq n xs : length (enc_seq n xs) = (n * length xs)%nat.
Proof.
  unfold enc_seq. induction xs; simpl; [lia|]. rewrite length_app, length_le_enc, IHxs. lia.
Qed.
#[local] Hint Rewrite length_enc_seq : redis_len.

Lemma enc_seq_app n xs ys : enc_seq n (xs ++ ys) = enc_seq n xs ++ enc_seq n ys.
Proof. unfold enc_seq. by rewrite map_app, concat_app. Qed.

Lemma enc_seq_cons n x xs : enc_seq n (x :: xs) = le_enc n x ++ enc_seq n xs.
Proof. done. Qed.

Lemma bytes_ok_enc_seq n xs : bytes_ok (enc_seq n xs).
Proof.
  unfold enc_seq, bytes_ok. induction xs; simpl; [done|].
  apply Forall_app; split; [apply le_enc_bytes|done].
Qed.

(** The three branches of the accessors differ only in the width. *)
Lemma getEncoded_width c pos enc :
  valid_enc enc ->
  _intsetGetEncoded c pos enc =
    (let! v := load (pos * enc) enc (contents c) in Ok (sle_dec v)).
Proof. intros [-> | [-> | ->]]; reflexivity. Qed.

Lemma set_width iset pos v :
  valid_enc (encoding iset) ->
  _intsetSet iset pos v =
    (let! c := store (pos * encoding iset) (le_enc (Z.to_nat (encoding iset)) v) (contents iset) in
     Ok (mk_intset (encoding iset) (is_length iset) c)).
Proof. unfold _intsetSet. destruct iset; simpl. intros [-> | [-> | ->]]; reflexivity. Qed.

Lemma moveTail_width iset from to :
  valid_enc (encoding iset) ->
  intsetMoveTail iset from to =
    (let! c := memmove (to * encoding iset) (from * encoding iset)
                 (u32 (u32 (is_length iset - from) * encoding iset)) (contents iset) in
     Ok (mk_intset (encoding iset) (is_length iset) c)).
Proof. unfold intsetMoveTail. destruct iset; simpl. intros [-> | [-> | ->]]; reflexivity. Qed.

Lemma valid_enc_bounds e : valid_enc e -> 2 <= e <= 8.
Proof. unfold valid_enc, INTSET_ENC_INT16, INTSET_ENC_INT32, INTSET_ENC_INT64. lia. Qed.

Lemma valueEncoding_valid v : valid_enc (_intsetValueEncoding v).
Proof. unfold _intsetValueEncoding, valid_enc. repeat case_match; auto. Qed.

(** A value fits an encoding exactly when its required encoding is not larger. *)
Lemma valueEncoding_fits v e :
  in_s 64 v -> valid_enc e -> in_s (8 * e) v <-> _intsetValueEncoding v <= e.
Proof.
  unfold in_s, _intsetValueEncoding, INT32_MIN, INT32_MAX, INT16_MIN, INT16_MAX.
  intros Hv [-> | [-> | ->]];
    unfold INTSET_ENC_INT16, INTSET_ENC_INT32, INTSET_ENC_INT64; pow_const;
    zbool; simpl; lia.
Qed.

(** Reading element [length l1] of a byte area that starts with [l1 ++ x :: l2]. *)
Lemma getEncoded_at c enc l1 x l2 tl pos :
  valid_enc enc -> contents c = enc_seq (Z.to_nat enc) (l1 ++ x :: l2) ++ tl ->
  pos = zlength l1 -> in_s (8 * enc) x -> _intsetGetEncoded c pos enc = Ok x.
Proof.
  intros He Hc -> Hx. pose proof (valid_enc_bounds _ He).
  rewrite getEncoded_width by done. rewrite Hc, enc_seq_app, enc_seq_cons, <- !app_assoc.
  rewrite load_app by len. f_equal. apply sle_dec_enc; [lia|].
  by replace (8 * Z.of_nat (Z.to_nat enc)) with (8 * enc) by lia.
Qed.

Lemma get_laid_out iset xs i x :
  valid_enc (encoding iset) -> contents iset = enc_seq (Z.to_nat (encoding iset)) xs ->
  Forall (in_s (8 * encoding iset)) xs -> xs !! i = Some x ->
  _intsetGet iset (Z.of_nat i) = Ok x.
Proof.
  intros He Hc Hf Hx. unfold _intsetGet.
  rewrite <- (take_drop_middle _ _ _ Hx) in Hc, Hf.
  apply Forall_app in Hf as [_ Hf]. apply Forall_cons_1 in Hf as [Hf _].
  eapply (getEncoded_at _ _ _ _ _ []); eauto.
  - by rewrite app_nil_r.
  - apply lookup_lt_Some in Hx. len.
Qed.

Lemma get_lookup iset xs i x :
  repr iset xs -> xs !! i = Some x -> _intsetGet iset (Z.of_nat i) = Ok x.
Proof. intros [? ? ? ? ?]. by apply get_laid_out. Qed.

(** * Search *)

(** Largest number of elements a set may hold for [int] positions to address them
    while one more is being added. *)
Definition fits_int (n : Z) : Prop := n <= INT32_MAX.

Lemma sorted_lookup_lt (xs : list Z) i j x y :
  StronglySorted Z.lt xs -> (i < j)%nat -> xs !! i = Some x -> xs !! j = Some y -> x < y.
Proof.
  intros Hs. revert i j. induction Hs as [|a xs Hs IH Ha]; intros i j Hij Hi Hj; [done|].
  destruct j as [|j]; [lia|]. destruct i as [|i]; simpl in *.
  - injection Hi as ->. by eapply Forall_lookup_1 in Hj; [|exact Ha].
  - by apply (IH i j); [lia|..].
Qed.

(** [split_pos xs v p]: [p] is where [v] belongs in the sorted [xs]. *)
Definition split_pos (xs : list Z) (v p : Z) : Prop :=
  0 <= p <= zlength xs /\
  (forall i x, xs !! i = Some x -> Z.of_nat i < p -> x < v) /\
  (forall i x, xs !! i = Some x -> p <= Z.of_nat i -> v < x).

Definition search_spec (xs : list Z) (v : Z) (r : bool * Z) : Prop :=
  match r with
  | (true, p) => 0 <= p /\ xs !! Z.to_nat p = Some v
  | (false, p) => split_pos xs v p
  end.

Lemma mid_range min max :
  0 <= min <= max -> max < INT32_MAX ->
  let mid := s32 (Z.shiftr (u32 (u32 min + u32 max)) 1) in min <= mid <= max.
Proof.
  unfold INT32_MAX; intros. cbv zeta. rewrite (u_id 32 min), (u_id 32 max) by lia.
  rewrite u_id by lia. rewrite Z.shiftr_div_pow2 by lia.
  rewrite s_id; unfold in_s; pow_const; Z.to_euclidean_division_equations; lia.
Qed.

Lemma search_loop_spec iset xs v fuel : forall min max mid cur,
  repr iset xs -> fits_int (zlength xs) ->
  0 <= min -> min <= max + 1 -> max < zlength xs ->
  (forall i x, xs !! i = Some x -> Z.of_nat i < min -> x < v) ->
  (forall i x, xs !! i = Some x -> max < Z.of_nat i -> v < x) ->
  (cur <> v \/ min <= max) -> max - min + 1 <= Z.of_nat fuel ->
  exists r, intsetSearch_loop fuel iset v min max mid cur = Ok r /\
    let '(min', mid', cur') := r in
    (cur' = v /\ 0 <= mid' /\ xs !! Z.to_nat mid' = Some v) \/
    (cur' <> v /\ split_pos xs v min').
Proof.
  induction fuel as [|fuel IH]; intros min max mid cur HR Hn H0 H1 H2 Hlo Hhi Hc Hf;
    simpl; rewrite Z.geb_leb; destruct (Z.leb_spec min max) as [Hle|Hgt]; try lia.
  1,3: eexists; split; [done|]; right; split; [lia|]; split; [lia|]; split; [done|];
       intros; apply (Hhi i); [done|lia].
  unfold fits_int in Hn. pose proof (mid_range min max ltac:(lia) ltac:(lia)) as Hm.
  cbv zeta in *. set (m := s32 _) in *.
  destruct (lookup_lt_is_Some_2 xs (Z.to_nat m)) as [c Hmc]; [lia|].
  pose proof (get_lookup _ _ _ _ HR Hmc) as Hget. rewrite Z2Nat.id in Hget by lia.
  rewrite Hget. pose proof (repr_sorted _ _ HR) as Hs. rewrite Z.gtb_ltb.
  destruct (Z.ltb_spec c v); [|destruct (Z.ltb_spec v c)].
  - apply IH; auto; try lia.
    intros i x Hx Hi. destruct (decide (i = Z.to_nat m)) as [->|]; [congruence|].
    pose proof (sorted_lookup_lt xs i (Z.to_nat m) x c Hs ltac:(lia) Hx Hmc). lia.
  - apply IH; auto; try lia.
    intros i x Hx Hi. destruct (decide (i = Z.to_nat m)) as [->|]; [congruence|].
    pose proof (sorted_lookup_lt xs (Z.to_nat m) i c x Hs ltac:(lia) Hmc Hx). lia.
  - eexists; split; [done|]; left. assert (c = v) as -> by lia. repeat split; [lia|done].
Qed.

(** intsetSearch finds [v] or the position where it belongs. *)
Lemma search_correct iset xs v :
  repr iset xs -> fits_int (zlength xs) ->
  exists r, intsetSearch iset v = Ok r /\ search_spec xs v r.
Proof.
  intros HR Hn. unfold intsetSearch. pose proof (repr_len _ _ HR) as Hl.
  pose proof (repr_sorted _ _ HR) as Hs. rewrite Hl. unfold fits_int, INT32_MAX in Hn.
  destruct (Z.eqb_spec (zlength xs) 0) as [Hz|Hz].
  { destruct xs; [|simpl in *; lia]. eexists; split; [done|]. split; [simpl; lia|done]. }
  rewrite (s_id 32) by (unfold in_s; pow_const; lia).
  destruct (lookup_lt_is_Some_2 xs (Z.to_nat (zlength xs - 1))) as [last Hlast]; [lia|].
  pose proof (get_lookup _ _ _ _ HR Hlast) as Hgl. rewrite Z2Nat.id in Hgl by lia.
  destruct (lookup_lt_is_Some_2 xs 0%nat) as [first Hfirst]; [lia|].
  pose proof (get_lookup _ _ _ _ HR Hfirst) as Hgf. change (Z.of_nat 0) with 0 in Hgf.
  rewrite Hgl, Hgf, Z.gtb_ltb.
  destruct (Z.ltb_spec last v).
  { eexists; split; [done|]. split; [lia|]. split; intros i x Hx Hi.
    - destruct (decide (i = Z.to_nat (zlength xs - 1))) as [->|]; [congruence|].
      pose proof (lookup_lt_Some _ _ _ Hx).
      pose proof (sorted_lookup_lt xs i (Z.to_nat (zlength xs - 1)) x last Hs ltac:(lia) Hx Hlast). lia.
    - apply lookup_lt_Some in Hx. lia. }
  destruct (Z.ltb_spec v first).
  { eexists; split; [done|]. split; [lia|]. split; intros i x Hx Hi; [lia|].
    destruct i as [|i]; [congruence|].
    pose proof (sorted_lookup_lt xs 0 (S i) first x Hs ltac:(lia) Hfirst Hx). lia. }
  destruct (search_loop_spec iset xs v (S (Z.to_nat (zlength xs))) 0 (zlength xs - 1) (-1) (-1))
    as ([[min' mid'] cur'] & -> & Hr); auto; try (unfold fits_int, INT32_MAX; lia).
  all: try (intros i x Hx Hi; apply lookup_lt_Some in Hx; lia).
  destruct Hr as [(-> & ? & ?)|[? ?]]; [rewrite Z.eqb_refl|rewrite (proj2 (Z.eqb_neq _ _)) by done];
    eexists; (split; [done|]); simpl; auto.
Qed.

(** * Insertion and removal *)

(** With fewer than 2^29 elements the byte counts of intsetMoveTail, which are
    computed in 32 bits, do not wrap for any encoding. *)
Definition small (xs : list Z) : Prop := zlength xs < 536870912.

Lemma split_pos_app xs v p :
  split_pos xs v p ->
  exists l1 l2, xs = l1 ++ l2 /\ p = zlength l1 /\ Forall (fun x => x < v) l1 /\ Forall (Z.lt v) l2.
Proof.
  intros (Hp & Hlo & Hhi). exists (take (Z.to_nat p) xs), (drop (Z.to_nat p) xs).
  split; [by rewrite take_drop|]. split; [len|].
  split; apply Forall_lookup; intros i x Hx.
  - apply lookup_take_Some in Hx as [Hx Hi]. apply (Hlo i); [done|lia].
  - rewrite lookup_drop in Hx. eapply Hhi; [exact Hx|lia].
Qed.

Lemma sorted_insert l1 l2 v :
  StronglySorted Z.lt (l1 ++ l2) -> Forall (fun x => x < v) l1 -> Forall (Z.lt v) l2 ->
  StronglySorted Z.lt (l1 ++ v :: l2).
Proof.
  rewrite !StronglySorted_app.
  intros (Hx & H1 & H2) Ha Hb. split_and!; [|done|by constructor].
  intros x1 x2 Hx1 Hx2. apply elem_of_cons in Hx2 as [->|Hx2]; [|by apply Hx].
  by apply (proj1 (list.Forall_forall _ _) Ha).
Qed.

Lemma sorted_delete l1 l2 v :
  StronglySorted Z.lt (l1 ++ v :: l2) -> StronglySorted Z.lt (l1 ++ l2).
Proof.
  rewrite !StronglySorted_app. intros (Hx & H1 & H2). inversion_clear H2.
  split_and!; auto. intros; apply Hx; [done|]. by apply elem_of_cons; right.
Qed.

Section Updates.
Context (junk : Z).

Lemma resize_spec iset len :
  valid_enc (encoding iset) -> 0 <= len < 2 ^ 32 ->
  intsetResize junk iset len =
  Ok (mk_intset (encoding iset) (is_length iset)
        (realloc junk (len * encoding iset) (contents iset))).
Proof.
  intros He Hl. pose proof (valid_enc_bounds _ He). unfold intsetResize.
  assert (0 <= len * encoding iset <= 34359738368) by (pow_const; nia).
  rewrite u_id by (pow_const; lia).
  unfold SIZE_MAX, ULLONG_MAX, sizeof_intset. by zif.
Qed.

Lemma set_at iset l1 l2 pre mid post v pos :
  valid_enc (encoding iset) ->
  contents iset = pre ++ mid ++ post ->
  pre = enc_seq (Z.to_nat (encoding iset)) l1 -> post = enc_seq (Z.to_nat (encoding iset)) l2 ->
  length mid = Z.to_nat (encoding iset) -> pos = zlength l1 ->
  _intsetSet iset pos v =
  Ok (mk_intset (encoding iset) (is_length iset)
        (enc_seq (Z.to_nat (encoding iset)) (l1 ++ v :: l2))).
Proof.
  intros He Hc -> -> Hm ->. pose proof (valid_enc_bounds _ He).
  rewrite set_width, Hc by done. rewrite store_app by len.
  by rewrite enc_seq_app, enc_seq_cons.
Qed.

(** The non-upgrading branch of intsetAdd, after the search has failed at [l1 | l2]. *)
Lemma insert_at iset l1 l2 v :
  repr iset (l1 ++ l2) -> small (l1 ++ l2) ->
  (let! iset := intsetResize junk iset (u32 (is_length iset + 1)) in
   let! iset := (if zlength l1 <? is_length iset
                 then intsetMoveTail iset (zlength l1) (u32 (zlength l1 + 1)) else Ok iset) in
   _intsetSet iset (zlength l1) v) =
  Ok (mk_intset (encoding iset) (is_length iset)
        (enc_seq (Z.to_nat (encoding iset)) (l1 ++ v :: l2))).
Proof.
  intros [He Hl Hc _ _] Hsm. unfold small in Hsm. pose proof (valid_enc_bounds _ He).
  rewrite Hl in *. len. rewrite (u_id 32) by (pow_const; lia).
  rewrite resize_spec by (done || (pow_const; lia)). cbn [is_length].
  assert (encoding iset = Z.of_nat (Z.to_nat (encoding iset))) as Hn by lia.
  rewrite Hc. set (n := Z.to_nat (encoding iset)) in *.
  rewrite realloc_grow by nlen.
  replace (Z.to_nat _) with n by nlen.
  destruct (Z.ltb_spec (zlength l1) (is_length iset)) as [Hlt|Hge].
  - rewrite moveTail_width by done. cbn [encoding is_length contents].
    rewrite Hl. rewrite !(u_id 32) by (rewrite ?u_id; pow_const; nlen).
    rewrite enc_seq_app, <- app_assoc.
    destruct (split_at (enc_seq n l2 ++ replicate n junk) 0 (Z.of_nat n)) as (p0 & g & d & Hsp & Hp0 & Hg);
      [lia|lia|len|].
    destruct p0; [|simpl in Hp0; lia]. simpl in Hsp.
    assert (length (enc_seq n l2 ++ replicate n junk) = length (g ++ d)) as Hlen by by rewrite Hsp.
    rewrite (memmove_app (enc_seq n l1) (enc_seq n l2) (replicate n junk) _ _ _ d (enc_seq n l1 ++ g) []);
      [|by rewrite app_nil_r, <- app_assoc, <- Hsp|nlen..].
    rewrite app_nil_r. erewrite (set_at _ l1 l2 _ g); cbn [encoding is_length contents]; eauto; [|lia].
    by rewrite <- app_assoc.
  - destruct l2; [|len]. rewrite app_nil_r in *.
    erewrite (set_at _ l1 [] _ (replicate n junk) []); cbn [encoding is_length contents]; eauto.
    all: subst n; by rewrite ?length_replicate, ?app_nil_r, ?Hl, ?Hc.
Qed.

(** Loop invariant of the upgrade: the first [k] elements are still in the old
    width at the front, the others already in the new width at the back. *)
Lemma upgrade_loop_spec xs curenc p slack : forall k iset mid,
  valid_enc curenc -> valid_enc (encoding iset) -> curenc <= encoding iset ->
  0 <= p <= 1 -> Forall (in_s (8 * curenc)) xs -> (k <= length xs)%nat ->
  contents iset = enc_seq (Z.to_nat curenc) (take k xs) ++ mid ++
    enc_seq (Z.to_nat (encoding iset)) (drop k xs) ++ slack ->
  (length mid + Z.to_nat curenc * k = Z.to_nat (encoding iset) * (k + Z.to_nat p))%nat ->
  exists mid', zlength mid' = encoding iset * p /\
    intsetUpgrade_loop k iset p curenc =
    Ok (mk_intset (encoding iset) (is_length iset)
          (mid' ++ enc_seq (Z.to_nat (encoding iset)) xs ++ slack)).
Proof.
  induction k as [|k IH]; intros iset mid Hc He Hle Hp Hf Hk Hct Hm.
  { exists mid. rewrite take_0, drop_0 in Hct.
    pose proof (valid_enc_bounds _ He). split; [assert (p = 0 \/ p = 1) as [-> | ->] by lia; lia|].
    simpl. destruct iset; simpl in *. by rewrite Hct. }
  destruct (lookup_lt_is_Some_2 xs k) as [x Hx]; [lia|].
  pose proof (valid_enc_bounds _ Hc) as Hcb. pose proof (valid_enc_bounds _ He) as Heb.
  assert (in_s (8 * curenc) x) as Hxs by by apply (Forall_lookup_1 _ _ _ _ Hf Hx).
  cbn [intsetUpgrade_loop]. rewrite (take_S_r _ _ _ Hx) in Hct.
  erewrite getEncoded_at; [|exact Hc|exact Hct|len|exact Hxs].
  rewrite set_width by done. rewrite enc_seq_app in Hct.
  set (c := Z.to_nat curenc) in *. set (n := Z.to_nat (encoding iset)) in *.
  assert (encoding iset = Z.of_nat n) as Hn by lia.
  set (w := enc_seq c [x] ++ mid) in *.
  assert (length w = (c + length mid)%nat) as Hw by (unfold w; nlen).
  destruct (split_at w (zlength w - Z.of_nat n) (Z.of_nat n)) as (m1 & m2 & m3 & Hsp & Hm1 & Hm2);
    [nia|lia|lia|].
  assert (length w = length (m1 ++ m2 ++ m3)) as Hlw by by rewrite Hsp.
  destruct m3; [|len]. rewrite app_nil_r in Hsp.
  assert (contents iset = (enc_seq c (take k xs) ++ m1) ++ m2 ++
            enc_seq n (drop (S k) xs) ++ slack) as ->.
  { rewrite Hct, <- !app_assoc. f_equal. rewrite (app_assoc _ mid), (app_assoc m1). by rewrite <- Hsp. }
  rewrite store_app by nlen.
  edestruct (IH (mk_intset (encoding iset) (is_length iset)
    ((enc_seq c (take k xs) ++ m1) ++ le_enc n x ++ enc_seq n (drop (S k) xs) ++ slack)) m1)
    as (mid' & Hmid' & ->); cbn [encoding contents is_length]; eauto; [lia|..].
  - rewrite (drop_S _ _ _ Hx). fold n. by rewrite enc_seq_cons, <- !app_assoc.
  - fold c n. nlen.
Qed.

Lemma upgrade_correct iset xs v :
  repr iset xs -> small xs -> in_s 64 v -> encoding iset < _intsetValueEncoding v ->
  exists iset', intsetUpgradeAndAdd junk iset v = Ok iset' /\
    repr iset' (if v <? 0 then v :: xs else xs ++ [v]).
Proof.
  intros [He Hl Hc Hs Hf] Hsm Hv Hlt. unfold small in Hsm.
  pose proof (valueEncoding_valid v) as He'.
  pose proof (valid_enc_bounds _ He). pose proof (valid_enc_bounds _ He').
  pose proof (proj2 (valueEncoding_fits v _ Hv He') (Z.le_refl _)) as Hfv.
  assert (~ in_s (8 * encoding iset) v) as Hnf by (rewrite valueEncoding_fits by done; lia).
  assert (Forall (in_s (8 * _intsetValueEncoding v)) xs) as Hf'.
  { eapply Forall_impl; [|exact Hf]. intros x Hx. unfold in_s in *.
    pose proof (Z.pow_le_mono_r 2 (8 * encoding iset - 1) (8 * _intsetValueEncoding v - 1)). lia. }
  unfold intsetUpgradeAndAdd. cbn [encoding is_length contents].
  rewrite Hl. rewrite (u_id 8), (u_id 32), (s_id 32) by (unfold in_s; pow_const; lia).
  rewrite resize_spec by (done || (pow_const; lia)). cbn [encoding is_length contents].
  set (N := _intsetValueEncoding v) in *.
  set (p := if v <? 0 then 1 else 0). assert (0 <= p <= 1) by (subst p; case_match; lia).
  rewrite Nat2Z.id. rewrite realloc_grow by (rewrite Hc; nlen).
  set (slackn := Z.to_nat (N * (1 - p))).
  edestruct (upgrade_loop_spec xs (encoding iset) p (replicate slackn junk) (length xs)
    (mk_intset N (zlength xs) (contents iset ++
       replicate (Z.to_nat ((zlength xs + 1) * N - zlength (contents iset))) junk))
    (replicate (Z.to_nat (N * (zlength xs + p) - encoding iset * zlength xs)) junk))
    as (mid' & Hmid' & ->); cbn [encoding is_length contents] in *; auto; try lia.
  { rewrite take_ge, drop_ge by lia. simpl. rewrite Hc. f_equal.
    rewrite <- replicate_add. f_equal. subst slackn. rewrite length_enc_seq. nia. }
  { rewrite length_replicate. nia. }
  subst p slackn. destruct (Z.ltb_spec v 0).
  - rewrite Z.eqb_refl. erewrite (set_at _ [] xs [] mid'); cbn [encoding is_length contents]; eauto; [|f_equal|lia].
    2: { by rewrite Z.sub_diag, Z.mul_0_r, app_nil_r. }
    eexists; split; [reflexivity|]. split; cbn [encoding is_length contents app]; auto.
    + rewrite u_id by (pow_const; lia). simpl. lia.
    + apply (sorted_insert [] xs); [done|done|]. eapply Forall_impl; [|exact Hf].
      unfold in_s in *. lia.
  - destruct mid'; [|simpl in *; lia]. simpl.
    erewrite (set_at _ xs [] _ (replicate (Z.to_nat (N * (1 - 0))) junk) []); cbn [encoding is_length contents]; eauto.
    2: { by rewrite app_nil_r. }
    2: { rewrite length_replicate. lia. }
    eexists; split; [reflexivity|]. split; cbn [encoding is_length contents app]; auto.
    + rewrite u_id by (pow_const; lia). len.
    + apply (sorted_insert xs []); [by rewrite app_nil_r| |done]. eapply Forall_impl; [|exact Hf].
      unfold in_s in *. cbv beta. lia.
    + apply Forall_app; split; [done|]. by constructor.
Qed.
End Updates.

(** * The abstract set *)

(** [is_set iset X]: the intset represents the finite set [X] of 64-bit integers. *)
Definition is_set (iset : intset) (X : gset Z) : Prop :=
  exists xs, repr iset xs /\ small xs /\ X = list_to_set xs.

Lemma encoding_absent iset xs v :
  repr iset xs -> in_s 64 v -> encoding iset < _intsetValueEncoding v -> v ∉ xs.
Proof.
  intros HR Hv Hlt Hin. pose proof (proj1 (list.Forall_forall _ _) (repr_fit _ _ HR) v Hin) as Hf.
  apply valueEncoding_fits in Hf; [lia|done|apply HR].
Qed.

Lemma split_absent l1 l2 v :
  Forall (fun x => x < v) l1 -> Forall (Z.lt v) l2 -> v ∉ l1 ++ l2.
Proof.
  rewrite !list.Forall_forall. intros H1 H2 [H|H]%elem_of_app.
  - specialize (H1 _ H). simpl in H1. lia.
  - specialize (H2 _ H). lia.
Qed.

Lemma sorted_absent l1 l2 v : StronglySorted Z.lt (l1 ++ v :: l2) -> v ∉ l1 ++ l2.
Proof.
  rewrite StronglySorted_app. intros (Hx & _ & H2). inversion_clear H2.
  apply split_absent; [|done]. apply list.Forall_forall. intros x Hin. apply Hx; [done|set_solver].
Qed.

Lemma sorted_NoDup xs : StronglySorted Z.lt xs -> NoDup xs.
Proof.
  induction 1 as [|x xs _ IH Hf]; constructor; [|done].
  intros Hin. pose proof (proj1 (list.Forall_forall _ _) Hf x Hin). lia.
Qed.

Lemma small_fits xs : small xs -> fits_int (zlength xs).
Proof. unfold small, fits_int, INT32_MAX. lia. Qed.

(** The two outcomes of a search, as decompositions of the element sequence. *)
Lemma search_cases iset xs v :
  repr iset xs -> small xs ->
  exists l1 l2 found, intsetSearch iset v = Ok (found, zlength l1) /\
    if found then xs = l1 ++ v :: l2
    else xs = l1 ++ l2 /\ Forall (fun x => x < v) l1 /\ Forall (Z.lt v) l2.
Proof.
  intros HR Hsm. destruct (search_correct iset xs v HR (small_fits _ Hsm)) as ([[] p] & -> & Hr).
  - destruct Hr as [Hp Hx]. exists (take (Z.to_nat p) xs), (drop (S (Z.to_nat p)) xs), true.
    pose proof (lookup_lt_Some _ _ _ Hx).
    split; [do 2 f_equal; len|]. symmetry. by apply take_drop_middle.
  - apply split_pos_app in Hr as (l1 & l2 & -> & -> & H1 & H2). by exists l1, l2, false.
Qed.

Lemma add_list junk iset xs v :
  repr iset xs -> small xs -> in_s 64 v ->
  exists iset' xs', intsetAdd junk iset v = Ok (iset', bool_decide (v ∉ xs)) /\
    repr iset' xs' /\ (forall x, x ∈ xs' <-> x = v \/ x ∈ xs) /\ zlength xs' <= zlength xs + 1.
Proof.
  intros HR Hsm Hv. unfold intsetAdd. rewrite Z.gtb_ltb.
  destruct (Z.ltb_spec (encoding iset) (_intsetValueEncoding v)) as [Hlt|Hge].
  { destruct (upgrade_correct junk iset xs v HR Hsm Hv Hlt) as (iset' & -> & HR').
    pose proof (encoding_absent _ _ _ HR Hv Hlt). rewrite bool_decide_eq_true_2 by done.
    do 2 eexists; split; [done|]. split; [exact HR'|].
    case_match; (split; [set_solver|len]). }
  destruct (search_cases iset xs v HR Hsm) as (l1 & l2 & found & -> & Hf).
  destruct found.
  { subst xs. rewrite bool_decide_eq_false_2 by set_solver.
    do 2 eexists; split; [done|]. split; [exact HR|]. split; [set_solver|lia]. }
  destruct Hf as (-> & H1 & H2). pose proof (insert_at junk iset l1 l2 v HR Hsm) as Hins.
  rewrite bool_decide_eq_true_2 by by apply split_absent.
  res_inv. rewrite Hins. exists (mk_intset (encoding iset) (u32 (is_length iset + 1))
    (enc_seq (Z.to_nat (encoding iset)) (l1 ++ v :: l2))), (l1 ++ v :: l2).
  split; [done|]. split; [|split; [set_solver|len]].
  destruct HR as [He Hl Hc Hs Hf]. unfold small in Hsm.
  split; cbn [encoding is_length contents]; auto.
  - rewrite Hl, u_id by (pow_const; lia). len.
  - by apply sorted_insert.
  - apply Forall_app in Hf as [? ?]. apply Forall_app; split; [done|]. constructor; [|done].
    apply valueEncoding_fits; auto.
Qed.

Lemma remove_list junk iset xs v :
  repr iset xs -> small xs -> in_s 64 v ->
  exists iset' xs', intsetRemove junk iset v = Ok (iset', bool_decide (v ∈ xs)) /\
    repr iset' xs' /\ small xs' /\ (forall x, x ∈ xs' <-> x <> v /\ x ∈ xs).
Proof.
  intros HR Hsm Hv. unfold intsetRemove.
  destruct (Z.leb_spec (_intsetValueEncoding v) (encoding iset)) as [Hle|Hgt].
  2: { pose proof (encoding_absent _ _ _ HR Hv Hgt). rewrite bool_decide_eq_false_2 by done.
       exists iset, xs; split_and!; auto. set_solver. }
  destruct (search_cases iset xs v HR Hsm) as (l1 & l2 & found & -> & Hf).
  destruct found.
  2: { destruct Hf as (-> & H1 & H2). pose proof (split_absent _ _ _ H1 H2).
       rewrite bool_decide_eq_false_2 by done. exists iset, (l1 ++ l2); split_and!; auto. set_solver. }
  subst xs. rewrite bool_decide_eq_true_2 by set_solver.
  destruct HR as [He Hl Hc Hs Hf]. unfold small in *.
  pose proof (valid_enc_bounds _ He). rewrite Hl in *. len.
  rewrite (u_id 32 (_ - 1)) by (pow_const; lia).
  assert (encoding iset = Z.of_nat (Z.to_nat (encoding iset))) as Hn by lia.
  set (n := Z.to_nat (encoding iset)) in *.
  assert (exists c tl, (if zlength l1 <? Z.of_nat (length l1 + S (length l2)) - 1
            then intsetMoveTail iset (u32 (zlength l1 + 1)) (zlength l1) else Ok iset) =
          Ok (mk_intset (encoding iset) (is_length iset) c) /\
          c = enc_seq n (l1 ++ l2) ++ tl) as (c & tl & -> & ->).
  { destruct (Z.ltb_spec (zlength l1) (Z.of_nat (length l1 + S (length l2)) - 1)).
    - rewrite moveTail_width by done. rewrite Hc, Hl, enc_seq_app, enc_seq_cons.
      rewrite !(u_id 32) by (rewrite ?u_id; rewrite ?u_id; pow_const; nlen).
      destruct (split_at (le_enc n v ++ enc_seq n l2) 0 (Z.of_nat (n * length l2)))
        as (p0 & g & d & Hsp & Hp0 & Hg); [lia|nia|nlen|].
      destruct p0; [|simpl in Hp0; lia]. simpl in Hsp.
      rewrite app_assoc, <- (app_nil_r (enc_seq n l2)).
      rewrite (memmove_app _ _ _ _ _ _ g (enc_seq n l1) d); [|rewrite app_nil_r, <- app_assoc; by f_equal|nlen..].
      eexists _, d. split; [done|]. by rewrite enc_seq_app, <- !app_assoc.
    - destruct l2; [|len]. exists (contents iset), (le_enc n v).
      split; [by destruct iset|]. rewrite Hc, enc_seq_app, enc_seq_cons. by rewrite !app_nil_r. }
  rewrite resize_spec by (done || (pow_const; lia)). cbn [encoding is_length contents].
  eexists _, (l1 ++ l2); split; [done|]. split; [|split; [len|]].
  - split; cbn [encoding is_length contents]; auto.
    + len.
    + rewrite realloc_shrink by nlen. done.
    + by eapply sorted_delete.
    + apply Forall_app in Hf as [? Hf]. apply Forall_cons_1 in Hf as [? ?]. by apply Forall_app.
  - pose proof (sorted_absent _ _ _ Hs). set_solver.
Qed.

Lemma get_index iset xs i :
  repr iset xs -> 0 <= i < zlength xs ->
  exists x, _intsetGet iset i = Ok x /\ xs !! Z.to_nat i = Some x.
Proof.
  intros HR Hi. destruct (lookup_lt_is_Some_2 xs (Z.to_nat i)) as [x Hx]; [lia|].
  exists x. split; [|done]. pose proof (get_lookup _ _ _ _ HR Hx) as Hg.
  by rewrite Z2Nat.id in Hg by lia.
Qed.

(** * Integrity check *)

(** The serialized form: what intsetBlobLen bytes at the pointer contain. *)
Definition blob (iset : intset) : list Z :=
  le_enc 4 (encoding iset) ++ le_enc 4 (is_length iset) ++ contents iset.

(** Successive integers read from a byte area. *)
Lemma area_decode n cs k :
  bytes_ok cs -> (0 < n)%nat -> length cs = (n * k)%nat ->
  exists xs, length xs = k /\ cs = enc_seq n xs /\ Forall (in_s (8 * Z.of_nat n)) xs.
Proof.
  intros Hb Hn. revert cs Hb. induction k as [|k IH]; intros cs Hb Hl.
  { exists []. destruct cs; [done|simpl in *; lia]. }
  destruct (IH (drop n cs)) as (xs & Hx & Hd & Hf); [by apply Forall_drop|len|].
  assert (length (take n cs) = n) as Ht by len.
  exists (sle_dec (take n cs) :: xs). split; [by simpl; rewrite Hx|]. split.
  - pose proof (le_enc_sle_dec (take n cs) (Forall_take _ _ _ Hb) ltac:(lia)) as He.
    rewrite Ht in He. by rewrite enc_seq_cons, He, <- Hd, take_drop.
  - constructor; [|done]. unfold sle_dec. rewrite Ht. apply s_range. lia.
Qed.

Lemma sorted_cons_hd (x : Z) xs :
  StronglySorted Z.lt (x :: xs) <->
  match xs with [] => True | y :: _ => x < y end /\ StronglySorted Z.lt xs.
Proof.
  split.
  - intros H. inversion_clear H as [|? ? ? Hf]. split; [|done].
    destruct xs; [done|]. by inversion_clear Hf.
  - intros [Hh Hs]. constructor; [done|]. destruct xs as [|y ys]; [done|].
    inversion_clear Hs as [|? ? ? Hf]. constructor; [done|].
    eapply Forall_impl; [|exact Hf]. simpl; lia.
Qed.

Lemma validate_loop_spec iset xs : forall n i prev,
  (forall j x, xs !! j = Some x -> _intsetGet iset (Z.of_nat j) = Ok x) ->
  zlength xs <= INT32_MAX -> (Z.to_nat i + n = length xs)%nat -> 0 <= i ->
  intsetValidate_loop n iset i prev =
    Ok (bool_decide (StronglySorted Z.lt (prev :: drop (Z.to_nat i) xs))).
Proof.
  unfold INT32_MAX. induction n as [|n IH]; intros i prev Hg Hx Hn Hi.
  { rewrite drop_ge by lia. cbn [intsetValidate_loop]. rewrite bool_decide_eq_true_2; [done|].
    apply sorted_cons_hd. split; [done|constructor]. }
  destruct (lookup_lt_is_Some_2 xs (Z.to_nat i)) as [c Hc]; [lia|].
  pose proof (Hg _ _ Hc) as Hr. rewrite Z2Nat.id in Hr by lia.
  cbn [intsetValidate_loop]. rewrite s_id by (unfold in_s; pow_const; lia). rewrite Hr.
  rewrite (drop_S _ _ _ Hc). destruct (Z.leb_spec c prev).
  - rewrite bool_decide_eq_false_2; [done|]. rewrite sorted_cons_hd. lia.
  - rewrite IH by (auto; lia). f_equal. apply bool_decide_ext.
    rewrite (sorted_cons_hd prev). rewrite Z2Nat.inj_add, Nat.add_1_r by lia.
    tauto.
Qed.

(** * Properties *)

(** C25: Adding a 64-bit value to an intset that represents [X] succeeds without any
    out-of-bounds access, gives an intset that represents [X] with the value, and
    reports success exactly when the value was absent.  This covers the in-place
    upgrade to a wider encoding as well as insertion by moving the tail. *)
Theorem intsetAdd_correct junk iset X v :
  is_set iset X -> in_s 64 v -> Z.of_nat (size X) < 536870911 ->
  exists iset', intsetAdd junk iset v = Ok (iset', bool_decide (v ∉ X)) /\ is_set iset' ({[v]} ∪ X).
Proof.
  intros (xs & HR & Hsm & ->) Hv Hsz.
  destruct (add_list junk iset xs v HR Hsm Hv) as (iset' & xs' & Hadd & HR' & Hel & Hlen).
  exists iset'. split.
  - rewrite Hadd. do 2 f_equal. apply bool_decide_ext. set_solver.
  - exists xs'. split; [done|]. split; [|set_solver].
    assert (size (list_to_set xs : gset Z) = length xs) as Hxs.
    { apply size_list_to_set, sorted_NoDup, HR. }
    unfold small in *. lia.
Qed.

(** A concrete set used by the witnesses. *)
Definition ex_set : intset := mk_intset 2 3 [253; 255; 3; 0; 5; 0].

Lemma ex_set_repr : repr ex_set [-3; 3; 5].
Proof.
  split; [by left|done|by vm_compute|repeat constructor|].
  unfold in_s; repeat constructor; by vm_compute.
Qed.

Lemma ex_set_is_set : is_set ex_set {[-3; 3; 5]}.
Proof.
  exists [-3; 3; 5]. split; [apply ex_set_repr|]. split; [by vm_compute|]. set_solver.
Qed.

Lemma intsetAdd_correct_witness :
  exists iset', intsetAdd 170 ex_set 70000 = Ok (iset', true) /\ is_set iset' ({[70000]} ∪ {[-3; 3; 5]}).
Proof.
  destruct (intsetAdd_correct 170 ex_set {[-3; 3; 5]} 70000) as (iset' & Heq & HS);
    [apply ex_set_is_set|split; vm_compute; congruence|by vm_compute|].
  exists iset'. split; [|exact HS]. rewrite Heq. by rewrite bool_decide_eq_true_2 by set_solver.
Defined.

(** Removing a value from an intset that represents [X] succeeds without any
    out-of-bounds access, gives an intset that represents [X] without the value, and
    reports success exactly when the value was present. *)
Theorem intsetRemove_correct junk iset X v :
  is_set iset X -> in_s 64 v ->
  exists iset', intsetRemove junk iset v = Ok (iset', bool_decide (v ∈ X)) /\ is_set iset' (X ∖ {[v]}).
Proof.
  intros (xs & HR & Hsm & ->) Hv.
  destruct (remove_list junk iset xs v HR Hsm Hv) as (iset' & xs' & Hrm & HR' & Hsm' & Hel).
  exists iset'. split.
  - rewrite Hrm. do 2 f_equal. apply bool_decide_ext. set_solver.
  - exists xs'. split_and!; [done..|set_solver].
Qed.

Lemma intsetRemove_correct_witness :
  exists iset', intsetRemove 170 ex_set 3 = Ok (iset', true) /\ is_set iset' ({[-3; 3; 5]} ∖ {[3]}).
Proof.
  destruct (intsetRemove_correct 170 ex_set {[-3; 3; 5]} 3) as (iset' & Heq & HS);
    [apply ex_set_is_set|split; vm_compute; congruence|].
  exists iset'. split; [|exact HS]. rewrite Heq. by rewrite bool_decide_eq_true_2 by set_solver.
Defined.

(** Membership and the ends of the element sequence. *)
Lemma find_list iset xs v :
  repr iset xs -> small xs -> in_s 64 v -> intsetFind iset v = Ok (bool_decide (v ∈ xs)).
Proof.
  intros HR Hsm Hv. unfold intsetFind. destruct (Z.leb_spec (_intsetValueEncoding v) (encoding iset)) as [Hle|Hgt].
  - destruct (search_cases iset xs v HR Hsm) as (l1 & l2 & [] & -> & Hf); f_equal; symmetry.
    + apply bool_decide_eq_true_2. set_solver.
    + destruct Hf as (-> & H1 & H2). pose proof (split_absent _ _ _ H1 H2).
      apply bool_decide_eq_false_2. set_solver.
  - pose proof (encoding_absent _ _ _ HR Hv Hgt). by rewrite bool_decide_eq_false_2.
Qed.

Lemma ends_list iset xs :
  repr iset xs -> small xs -> xs <> [] ->
  exists lo hi, intsetMin iset = Ok lo /\ intsetMax iset = Ok hi /\ lo ∈ xs /\ hi ∈ xs /\ forall x, x ∈ xs -> lo <= x <= hi.
Proof.
  intros HR Hsm Hne. pose proof (repr_sorted _ _ HR) as Hs. unfold small in Hsm.
  assert (0 < zlength xs) as Hpos by (destruct xs; [done|simpl; lia]).
  destruct (get_index iset xs 0 HR ltac:(lia)) as (lo & Hlo & Hxlo).
  destruct (get_index iset xs (zlength xs - 1) HR ltac:(lia)) as (hi & Hhi & Hxhi).
  exists lo, hi. unfold intsetMin, intsetMax. rewrite (repr_len _ _ HR).
  rewrite (u_id 32 (_ - 1)), s_id by (unfold in_s; pow_const; lia).
  split_and!; [done|done|by eapply list_elem_of_lookup_2..|].
  intros x [j Hj]%list_elem_of_lookup. pose proof (lookup_lt_Some _ _ _ Hj). split.
  - destruct (decide (j = Z.to_nat 0)) as [->|]; [by assert (x = lo) as -> by congruence|].
    pose proof (sorted_lookup_lt xs (Z.to_nat 0) j lo x Hs ltac:(lia) Hxlo Hj). lia.
  - destruct (decide (j = Z.to_nat (zlength xs - 1))) as [->|]; [by assert (x = hi) as -> by congruence|].
    pose proof (sorted_lookup_lt xs j (Z.to_nat (zlength xs - 1)) x hi Hs ltac:(lia) Hj Hxhi). lia.
Qed.

(** Membership, size and the positional accessors agree with the represented
    set: intsetFind decides membership, intsetLen is the cardinality, intsetGet
    returns the elements in increasing order and refuses positions past the end,
    intsetMin and intsetMax are the extreme elements, and intsetRandom returns a
    member whatever rand() gives. *)
Theorem intset_observers iset X v i rand :
  is_set iset X -> in_s 64 v -> 0 <= i < 2 ^ 32 ->
  intsetFind iset v = Ok (bool_decide (v ∈ X)) /\
  intsetLen iset = Z.of_nat (size X) /\
  intsetAllocSize iset = Ok (intsetBlobLen iset) /\
  (exists xs, StronglySorted Z.lt xs /\ X = list_to_set xs /\ intsetGet iset i = Ok (xs !! Z.to_nat i)) /\
  (X <> ∅ -> exists lo hi r, intsetMin iset = Ok lo /\ intsetMax iset = Ok hi /\
     intsetRandom rand iset = Ok r /\ lo ∈ X /\ hi ∈ X /\ r ∈ X /\ forall x, x ∈ X -> lo <= x <= hi).
Proof.
  intros (xs & HR & Hsm & ->) Hv Hi. pose proof (repr_len _ _ HR) as Hl. pose proof Hsm as Hsm'.
  pose proof (repr_sorted _ _ HR) as Hs. unfold small in Hsm.
  pose proof (valid_enc_bounds _ (repr_enc _ _ HR)) as Heb.
  split_and!.
  - rewrite (find_list iset xs v HR Hsm' Hv). f_equal. apply bool_decide_ext. by rewrite elem_of_list_to_set.
  - unfold intsetLen. rewrite Hl, size_list_to_set by by apply sorted_NoDup. done.
  - unfold intsetAllocSize, intsetBlobLen, SIZE_MAX, ULLONG_MAX, sizeof_intset.
    assert (0 <= is_length iset * encoding iset <= 4294967296) by nia.
    rewrite !(u_id 64 (is_length iset * _)) by (pow_const; lia). by zif.
  - exists xs. split_and!; auto. unfold intsetGet. rewrite Hl.
    destruct (Z.ltb_spec i (zlength xs)).
    + rewrite s_id by (unfold in_s; pow_const; lia).
      by destruct (get_index iset xs i HR ltac:(lia)) as (x & -> & ->).
    + by rewrite lookup_ge_None_2 by lia.
  - intros Hne. assert (xs <> []) as Hne' by (intros ->; done).
    assert (0 < zlength xs) as Hpos by (destruct xs; [done|simpl; lia]).
    destruct (ends_list iset xs HR Hsm' Hne') as (lo & hi & -> & -> & Hlo & Hhi & Hends).
    destruct (get_index iset xs (u32 rand mod zlength xs) HR) as (r & Hr & Hxr);
      [apply Z.mod_pos_bound; lia|].
    pose proof (Z.mod_pos_bound (u32 rand) (zlength xs) ltac:(lia)).
    exists lo, hi, r. unfold intsetRandom. rewrite Hl.
    rewrite !s_id by (unfold in_s; pow_const; lia). rewrite Hr.
    rewrite (proj2 (Z.eqb_neq (zlength xs) 0)) by lia. simpl.
    rewrite !elem_of_list_to_set. split_and!; try done; [by eapply list_elem_of_lookup_2|].
    intros x Hx%elem_of_list_to_set. by apply Hends.
Qed.

Lemma intset_observers_witness :
  intsetFind ex_set 5 = Ok true /\ intsetLen ex_set = 3.
Proof.
  destruct (intset_observers ex_set {[-3; 3; 5]} 5 1 99) as (Hf & Hl & _);
    [apply ex_set_is_set|split; vm_compute; congruence|lia|].
  rewrite Hf, Hl. split; [|by vm_compute]. by rewrite bool_decide_eq_true_2 by set_solver.
Defined.

Lemma load_header (h1 h2 cs : list Z) :
  length h1 = 4%nat -> length h2 = 4%nat ->
  load 0 4 (h1 ++ h2 ++ cs) = Ok h1 /\ load 4 4 (h1 ++ h2 ++ cs) = Ok h2 /\
  drop 8 (h1 ++ h2 ++ cs) = cs.
Proof.
  intros H1 H2. split_and!; [apply (load_app [] h1); simpl; lia|apply load_app; lia|].
  rewrite app_assoc, drop_app_length'; [done|len].
Qed.

(** A payload of the right size is the blob of at most one well-formed intset: the
    one its own header describes. *)
Lemma blob_view h1 h2 cs :
  length h1 = 4%nat -> length h2 = 4%nat -> bytes_ok h1 -> bytes_ok h2 ->
  zlength cs < 2 ^ 32 ->
  (exists i xs, repr i xs /\ xs <> [] /\ h1 ++ h2 ++ cs = blob i) <->
  (exists xs, repr (mk_intset (le_dec h1) (le_dec h2) cs) xs /\ xs <> []).
Proof.
  intros H1 H2 Hb1 Hb2 Hcs. split.
  - intros (i & xs & HR & Hne & Hbl). exists xs. split; [|done]. unfold blob in Hbl.
    pose proof (valid_enc_bounds _ (repr_enc _ _ HR)) as He.
    apply app_inj_1 in Hbl as [-> Hbl]; [|len]. apply app_inj_1 in Hbl as [-> ->]; [|len].
    rewrite (repr_contents _ _ HR) in Hcs. pose proof (repr_len _ _ HR).
    rewrite !le_dec_enc. rewrite !Z.mod_small by (pow_const; nlen). by destruct i.
  - intros (xs & HR & Hne). eexists _, xs. split_and!; eauto.
    unfold blob. cbn [encoding is_length contents].
    pose proof (le_enc_dec _ Hb1) as E1. pose proof (le_enc_dec _ Hb2) as E2.
    rewrite H1 in E1. rewrite H2 in E2. by rewrite E1, E2.
Qed.

(** The deep integrity check, run on a payload of [size] bytes (below 4 GB),
    never reads outside the payload, and accepts it exactly when it is the
    serialization of a well-formed non-empty intset: a valid encoding, a matching
    size, and strictly increasing elements. *)
Theorem intsetValidateIntegrity_correct p size :
  bytes_ok p -> zlength p = size -> size < 2 ^ 32 ->
  exists b, intsetValidateIntegrity p size true = Ok b /\
    (b = true <-> exists iset xs, repr iset xs /\ xs <> [] /\ p = blob iset).
Proof.
  intros Hb Hsz Hmax. unfold intsetValidateIntegrity, sizeof_intset.
  destruct (Z.ltb_spec size 8).
  { exists false. split; [done|]. split; [done|]. intros (iset & xs & _ & _ & ->).
    unfold blob in Hsz. len. }
  destruct (split_at p 0 4) as ([|] & h1 & p1 & -> & Hp0 & Hh1); [lia..| |simpl in Hp0; lia].
  destruct (split_at p1 0 4) as ([|] & h2 & cs & -> & Hq0 & Hh2); [lia|lia|len| |simpl in Hq0; lia].
  simpl app in *. rewrite !bytes_ok_app in Hb. destruct Hb as (Hb1 & Hb2 & Hbc).
  destruct (load_header h1 h2 cs) as (-> & -> & ->); [lia..|].
  setoid_rewrite (blob_view h1 h2 cs); [|solve [auto; len]..]. pose proof (le_dec_range _ Hb2) as Hr2.
  replace (length h2) with 4%nat in Hr2 by lia.
  set (e := le_dec h1). set (count := le_dec h2) in *. pow_const.
  destruct ((e =? INTSET_ENC_INT64) || (e =? INTSET_ENC_INT32) || (e =? INTSET_ENC_INT16)) eqn:Ee.
  2: { exists false. split; [done|]. split; [done|]. intros (xs & [He _ _ _ _] & _).
       unfold valid_enc in He. simpl in He. lia. }
  assert (valid_enc e) as He by (unfold valid_enc; lia). pose proof (valid_enc_bounds _ He).
  assert (0 <= count * e <= 34359738368) by nia. rewrite !(u_id 64) by (rewrite ?u_id; pow_const; lia).
  destruct (Z.eqb_spec (8 + count * e) size) as [Hse|Hse]; cbn [negb].
  2: { exists false. split; [done|]. split; [done|]. intros (xs & [_ Hl Hc _ _] & _). simpl in Hl, Hc.
       subst cs. nlen. }
  destruct (Z.eqb_spec count 0) as [Hc0|Hc0].
  { exists false. split; [done|]. split; [done|]. intros (xs & [_ Hl _ _ _] & Hne). simpl in Hl.
    destruct xs; [done|simpl in Hl; lia]. }
  destruct (area_decode (Z.to_nat e) cs (Z.to_nat count)) as (xs & Hlx & Hcs & Hfx);
    [done|lia|len; nia|]. rewrite Z2Nat.id in Hfx by lia.
  assert (forall j x, xs !! j = Some x -> _intsetGet (mk_intset e count cs) (Z.of_nat j) = Ok x) as Hget.
  { intros j x. by apply get_laid_out. }
  destruct xs as [|x0 xs]; [simpl in Hlx; lia|].
  pose proof (Hget 0%nat x0 eq_refl) as Hg0. change (Z.of_nat 0) with 0 in Hg0. rewrite Hg0. rewrite (validate_loop_spec _ (x0 :: xs)); auto; [|unfold INT32_MAX; nlen..].
  eexists; split; [done|]. rewrite bool_decide_eq_true. change (drop (Z.to_nat 1) (x0 :: xs)) with xs.
  split.
  - intros Hs. exists (x0 :: xs). split; [|done]. split; simpl; auto. simpl in Hlx; lia.
  - intros (ys & HR & Hne). replace (x0 :: xs) with ys; [apply HR|].
    apply (list_eq_same_length _ _ (length ys)); [pose proof (repr_len _ _ HR); simpl in *; lia|done|].
    intros j x y _ Hx Hy. pose proof (get_lookup _ _ _ _ HR Hx) as Hg. rewrite (Hget _ _ Hy) in Hg. congruence.
Qed.

Lemma intsetValidateIntegrity_correct_witness :
  exists b, intsetValidateIntegrity (blob ex_set) 14 true = Ok b /\
    (b = true <-> exists iset xs, repr iset xs /\ xs <> [] /\ blob ex_set = blob iset).
Proof.
  apply intsetValidateIntegrity_correct; [|done|by vm_compute].
  unfold bytes_ok; repeat constructor; by vm_compute.
Defined.

(** The byte count of intsetMoveTail is kept in 32 bits: moving a tail of 2^29
    64-bit elements, which the element limit of the callers allows, moves nothing. *)
Lemma moveTail_wraps iset from to :
  encoding iset = INTSET_ENC_INT64 -> is_length iset - from = 536870912 ->
  0 <= to -> 0 <= from -> to * 8 <= zlength (contents iset) -> from * 8 <= zlength (contents iset) ->
  intsetMoveTail iset from to = Ok iset.
Proof.
  intros He Hn H1 H2 H3 H4. unfold intsetMoveTail. rewrite He, Hn. cbn -[Z.mul].
  change (u32 (u32 536870912 * 8)) with 0. unfold memmove, load.
  repeat zif. simpl. unfold store. simpl length. repeat zif. simpl.
  rewrite Nat.add_0_r, take_drop. rewrite <- He. by destruct iset.
Qed.
