(* ===== verification/UtilNum.v ===== *)
(** Conversions between integers and decimal or hexadecimal strings:
    src/redis-stable/src/util.c.

    A C string argument is a list of bytes, the memory its pointer designates; a
    destination buffer is a list of bytes that the function overwrites. *)

From Stdlib Require Import Ascii String.
From S2P Require Import Prelude Machine.

(** * Model *)

(** The bytes of a string literal (without the terminator). *)
Definition bytes_of (str : string) : list Z :=
  map (fun c => Z.of_nat (nat_of_ascii c)) (list_ascii_of_string str).

Definition LONG_STR_SIZE : Z := 21.
Definition isdig (c : Z) : bool := (48 <=? c) && (c <=? 57).

(** The recursive call divides by 10^12: two calls are enough for 64 bits. *)
Fixpoint digits10_fuel (fuel : nat) (v : Z) : res Z :=
  if v <? 10 then Ok 1
  else if v <? 100 then Ok 2
  else if v <? 1000 then Ok 3
  else if v <? 1000000000000 then
    if v <? 100000000 then
      if v <? 1000000 then
        if v <? 10000 then Ok 4
        else Ok (5 + b2z (v >=? 100000))
      else Ok (7 + b2z (v >=? 10000000))
    else if v <? 10000000000 then Ok (9 + b2z (v >=? 1000000000))
    else Ok (11 + b2z (v >=? 100000000000))
  else
    match fuel with
    | O => Fault OutOfFuel
    | S fuel => let! d := digits10_fuel fuel (v / 1000000000000) in Ok (12 + d)
    end.
Definition digits10 (v : Z) : res Z := digits10_fuel 2 v.

Definition sdigits10 (v : Z) : res Z :=
  if v <? 0 then
    let uv := if negb (v =? LLONG_MIN) then u64 (- v) else u64 LLONG_MAX + 1 in
    let! d := digits10 uv in Ok (d + 1)
  else digits10 v.

(** the static table of two-digit strings *)
Definition digits : list Z := bytes_of
  ("0001020304050607080910111213141516171819" ++
   "2021222324252627282930313233343536373839" ++
   "4041424344454647484950515253545556575859" ++
   "6061626364656667686970717273747576777879" ++
   "8081828384858687888990919293949596979899").

(** while (value >= 100) ...: the buffer, the remaining value and [next] *)
Fixpoint ull2string_loop (fuel : nat) (dst : list Z) (value next : Z) : res (list Z * Z * Z) :=
  if value >=? 100 then
    match fuel with
    | O => Fault OutOfFuel
    | S fuel =>
        let i := (value mod 100) * 2 in
        let value := value / 100 in
        let! hi := get1 (i + 1) digits in
        let! dst := set1 next hi dst in
        let! lo := get1 i digits in
        let! dst := set1 (u32 (next - 1)) lo dst in
        ull2string_loop fuel dst value (u32 (next - 2))
    end
  else Ok (dst, value, next).

(** the return value and the buffer *)
Definition ull2string (dst : list Z) (dstlen value : Z) : res (Z * list Z) :=
  let! length := digits10 value in
  if length >=? dstlen then
    if dstlen >? 0 then let! dst := set1 0 0 dst in Ok (0, dst) else Ok (0, dst)
  else
    let next := u32 (length - 1) in
    let! dst := set1 (u32 (next + 1)) 0 dst in
    let! '(dst, value, next) := ull2string_loop 10 dst value next in
    if value <? 10 then
      let! dst := set1 next (48 + value) dst in Ok (length, dst)
    else
      let i := value * 2 in
      let! hi := get1 (i + 1) digits in
      let! dst := set1 next hi dst in
      let! lo := get1 i digits in
      let! dst := set1 (u32 (next - 1)) lo dst in
      Ok (length, dst).

(** [dst + 1] is the tail of the buffer. *)
Definition ll2string (dst : list Z) (dstlen svalue : Z) : res (Z * list Z) :=
  if svalue <? 0 then
    let value := if negb (svalue =? LLONG_MIN) then u64 (- svalue) else u64 LLONG_MAX + 1 in
    if dstlen <? 2 then
      if dstlen >? 0 then let! dst := set1 0 0 dst in Ok (0, dst) else Ok (0, dst)
    else
      let! dst := set1 0 45 dst in
      let! '(length, tl) := ull2string (drop 1 dst) (dstlen - 1) value in
      let dst := take 1 dst ++ tl in
      if length =? 0 then Ok (0, dst) else Ok (length + 1, dst)
  else
    let! '(length, dst) := ull2string dst dstlen svalue in
    if length =? 0 then Ok (0, dst) else Ok (length, dst).

(** The digit loop of string2ll from index [plen]: [None] on overflow, otherwise the
    index reached and the value. *)
Fixpoint string2ll_loop (fuel : nat) (str : list Z) (slen plen v : Z) : res (option (Z * Z)) :=
  if plen <? slen then
    let! c := get1 plen str in
    if isdig c then
      match fuel with
      | O => Fault OutOfFuel
      | S fuel =>
          if v >? ULLONG_MAX / 10 then Ok None
          else
            let v := u64 (v * 10) in
            if v >? ULLONG_MAX - (c - 48) then Ok None
            else string2ll_loop fuel str slen (plen + 1) (u64 (v + (c - 48)))
      end
    else Ok (Some (plen, v))
  else Ok (Some (plen, v)).

(** [None] is the return value 0 *)
Definition string2ll (str : list Z) (slen : Z) : res (option Z) :=
  if (0 =? slen) || (slen >=? LONG_STR_SIZE) then Ok None
  else
    let! c0 := get1 0 str in
    if (slen =? 1) && (c0 =? 48) then Ok (Some 0)
    else
      let negative := c0 =? 45 in
      let plen := if negative then 1 else 0 in
      if negative && (plen =? slen) then Ok None
      else
        let! c := get1 plen str in
        if (49 <=? c) && (c <=? 57) then
          let! r := string2ll_loop (Z.to_nat slen) str slen (plen + 1) (c - 48) in
          match r with
          | None => Ok None
          | Some (plen, v) =>
              if plen <? slen then Ok None
              else if negative then
                if v >? u64 (- (LLONG_MIN + 1)) + 1 then Ok None
                else Ok (Some (s64 (- v)))
              else if v >? LLONG_MAX then Ok None
              else Ok (Some v)
          end
        else Ok None.

Definition LONG_MIN : Z := LLONG_MIN.
Definition LONG_MAX : Z := LLONG_MAX.

Definition string2l (str : list Z) (slen : Z) : res (option Z) :=
  let! r := string2ll str slen in
  match r with
  | None => Ok None
  | Some llval =>
      if (llval <? LONG_MIN) || (llval >? LONG_MAX) then Ok None else Ok (Some llval)
  end.

Definition safe_is_c_in_range (c start stop : Z) : bool := (c >=? start) && (c <=? stop).

Definition base_16_char_type (c : Z) : Z :=
  if safe_is_c_in_range c 48 57 then 0
  else if safe_is_c_in_range c 97 102 then 1
  else if safe_is_c_in_range c 65 70 then 2
  else -1.

Definition ascii_to_dec : list Z := [48; 97 - 10; 65 - 10].

Fixpoint string2ul_base16_loop (fuel : nat) (src : list Z) (slen idx result : Z)
    : res (option Z) :=
  let! c := get1 idx src in
  let char_type := base_16_char_type c in
  if negb (-1 =? char_type) && (idx <? slen) then
    match fuel with
    | O => Fault OutOfFuel
    | S fuel =>
        let! off := get1 char_type ascii_to_dec in
        let curr_val := c - off in
        if (result >? ULLONG_MAX / 16) || (result >? (ULLONG_MAX - curr_val) / 16) then Ok None
        else string2ul_base16_loop fuel src slen (idx + 1) (u64 (result * 16 + curr_val))
    end
  else Ok (Some result).

(** [None] is the return value -1, [Some v] is 1 with [v] stored *)
Definition string2ul_base16_async_signal_safe (src : list Z) (slen : Z) : res (option Z) :=
  string2ul_base16_loop (S (Z.to_nat slen)) src slen 0 0.

Example ull2string_ex :
  ull2string (replicate 8 7) 8 10234 = Ok (5, bytes_of "10234" ++ [0; 7; 7]).
Proof. vm_compute. reflexivity. Qed.
Example ll2string_ex :
  ll2string (replicate 21 7) 21 LLONG_MIN = Ok (20, bytes_of "-9223372036854775808" ++ [0]).
Proof. vm_compute. reflexivity. Qed.
Example string2ll_ex :
  (string2ll (bytes_of "-9223372036854775808") 20,
   string2ll (bytes_of "9223372036854775808") 19, string2ll (bytes_of "007") 3) =
  (Ok (Some LLONG_MIN), Ok None, Ok None).
Proof. vm_compute. reflexivity. Qed.

(** * Reference: decimal notation *)

(** The last [n] decimal digits of [v], as characters. *)
Fixpoint digs (n : nat) (v : Z) : list Z :=
  match n with
  | O => []
  | S n => digs n (v / 10) ++ [48 + v mod 10]
  end.

(** The value of a digit string, continuing from [acc]. *)
Definition undec (acc : Z) (l : list Z) : Z := foldl (fun a c => a * 10 + (c - 48)) acc l.

(** [ndigits v] is the number of digits of [v] (one for zero). *)
Definition ndigits (v d : Z) : Prop := 1 <= d /\ v < 10 ^ d /\ (d = 1 \/ 10 ^ (d - 1) <= v).

(** The decimal notation of a non-negative and of a signed integer. *)
Inductive decimal (v : Z) : list Z -> Prop :=
| decimal_intro d : ndigits v d -> decimal v (digs (Z.to_nat d) v).
Inductive sdecimal (v : Z) : list Z -> Prop :=
| sdecimal_nonneg l : 0 <= v -> decimal v l -> sdecimal v l
| sdecimal_neg l : v < 0 -> decimal (- v) l -> sdecimal v (45 :: l).

Lemma ndigits_unique v d d' : ndigits v d -> ndigits v d' -> d = d'.
Proof.
  intros (H1 & H2 & H3) (H1' & H2' & H3').
  destruct (Z.lt_trichotomy d d') as [Hlt|[->|Hlt]]; [exfalso| done|exfalso].
  - destruct H3' as [->|H3']; [lia|].
    pose proof (Z.pow_le_mono_r 10 d (d' - 1)). lia.
  - destruct H3 as [->|H3]; [lia|].
    pose proof (Z.pow_le_mono_r 10 d' (d - 1)). lia.
Qed.

Ltac pow10_const :=
  repeat match goal with
  | |- context [10 ^ ?e] =>
      let v := eval vm_compute in (10 ^ e) in
      lazymatch v with Zpos _ => change (10 ^ e) with v end
  end.

Lemma digits10_small fuel v : 0 <= v < 1000000000000 ->
  exists d, digits10_fuel fuel v = Ok d /\ ndigits v d /\ d <= 12.
Proof.
  intros Hv. unfold ndigits. destruct fuel; simpl; unfold b2z; zbool; try lia; eexists;
    (split; [reflexivity|]); simpl Z.add; pow10_const; lia.
Qed.

Lemma digits10_ok v : 0 <= v < 2 ^ 64 -> exists d, digits10 v = Ok d /\ ndigits v d /\ d <= 20.
Proof.
  intros Hv. pow_const. unfold digits10.
  destruct (Z.lt_ge_cases v 1000000000000) as [Hlt|Hge].
  { destruct (digits10_small 2 v) as (d & ? & ? & ?); [lia|]. exists d. split_and!; auto; lia. }
  destruct (digits10_small 1 (v / 1000000000000)) as (d & Hd & (H1 & H2 & H3) & Hle).
  { Z.to_euclidean_division_equations; lia. }
  change (digits10_fuel 2 v) with
    (if v <? 10 then Ok 1
  else if v <? 100 then Ok 2
  else if v <? 1000 then Ok 3
  else if v <? 1000000000000 then
    if v <? 100000000 then
      if v <? 1000000 then
        if v <? 10000 then Ok 4
        else Ok (5 + b2z (v >=? 100000))
      else Ok (7 + b2z (v >=? 10000000))
    else if v <? 10000000000 then Ok (9 + b2z (v >=? 1000000000))
    else Ok (11 + b2z (v >=? 100000000000))
    else let! d := digits10_fuel 1 (v / 1000000000000) in Ok (12 + d)).
  do 4 zif. rewrite Hd. exists (12 + d). split; [done|].
  assert (10 ^ (12 + d) = 1000000000000 * 10 ^ d) as E1 by (rewrite Z.pow_add_r by lia; lia).
  assert (10 ^ (12 + d - 1) = 1000000000000 * 10 ^ (d - 1)) as E2.
  { replace (12 + d - 1) with (12 + (d - 1)) by lia. rewrite Z.pow_add_r by lia. lia. }
  assert (d <= 8) as Hd8.
  { destruct H3 as [->|H3]; [lia|]. destruct (Z.le_gt_cases d 8); [done|].
    pose proof (Z.pow_le_mono_r 10 8 (d - 1)). Z.to_euclidean_division_equations; lia. }
  split; [|lia]. split; [lia|]. rewrite E1, E2. split.
  - Z.to_euclidean_division_equations; lia.
  - right. destruct H3 as [->|H3]; [simpl; lia|]. Z.to_euclidean_division_equations; lia.
Qed.

Lemma length_digs n v : length (digs n v) = n.
Proof. revert v; induction n; intros; simpl; [done|]. rewrite length_app, IHn. simpl; lia. Qed.
#[local] Hint Rewrite length_digs : redis_len.

Lemma undec_app acc l1 l2 : undec acc (l1 ++ l2) = undec (undec acc l1) l2.
Proof. apply foldl_app. Qed.

Lemma undec_lin acc l : undec acc l = acc * 10 ^ zlength l + undec 0 l.
Proof.
  revert acc; induction l as [|c l IH]; intros; [simpl; lia|].
  cbn [undec foldl length]. fold (undec (acc * 10 + (c - 48)) l). fold (undec (0 * 10 + (c - 48)) l).
  rewrite (IH (acc * 10 + _)), (IH (0 * 10 + _)).
  rewrite Nat2Z.inj_succ, Z.pow_succ_r by lia. lia.
Qed.

Lemma undec_digs n v : undec 0 (digs n v) = v mod 10 ^ Z.of_nat n.
Proof.
  revert v; induction n; intros; [simpl; by rewrite Z.mod_1_r|].
  cbn [digs]. rewrite undec_app, IHn. simpl undec.
  rewrite Nat2Z.inj_succ, Z.pow_succ_r by lia. rewrite (Z.rem_mul_r v 10) by lia. unfold undec; simpl. lia.
Qed.

Lemma digs_digits n v : Forall (fun c => isdig c = true) (digs n v).
Proof.
  revert v; induction n; intros; simpl; [done|]. apply Forall_app; split; [done|].
  constructor; [|done]. unfold isdig. pose proof (Z.mod_pos_bound v 10). lia.
Qed.

Lemma undec_range l :
  Forall (fun c => isdig c = true) l -> 0 <= undec 0 l < 10 ^ zlength l.
Proof.
  unfold isdig. induction 1 as [|c l Hc _ IH]; [simpl; lia|].
  cbn [undec foldl length]. fold (undec (0 * 10 + (c - 48)) l).
  rewrite undec_lin, Nat2Z.inj_succ, Z.pow_succ_r by lia. nia.
Qed.

Lemma digs_undec l : Forall (fun c => isdig c = true) l -> digs (length l) (undec 0 l) = l.
Proof.
  induction l as [|c l IH] using rev_ind; [done|]. intros Hf.
  apply Forall_app in Hf as [Hf Hc]. apply Forall_cons_1 in Hc as [Hc _].
  unfold isdig in Hc. rewrite length_app, Nat.add_1_r, undec_app. cbn [digs].
  unfold undec at 1 3; cbn [foldl]. fold (undec 0 l).
  rewrite (Z.add_comm (undec 0 l * 10)), Z.mod_add, Z.div_add by lia.
  rewrite (Z.mod_small (c - 48)), Z.div_small by lia. rewrite Z.add_0_l, IH by done.
  do 2 f_equal. lia.
Qed.

Lemma undec_mono acc l : Forall (fun c => isdig c = true) l -> 0 <= acc -> acc <= undec acc l.
Proof.
  intros Hf Ha. rewrite undec_lin. pose proof (undec_range l Hf).
  pose proof (Z.pow_pos_nonneg 10 (zlength l)). nia.
Qed.

(** * Integer to string *)

Lemma digits_table k : 0 <= k < 100 ->
  get1 (k * 2) digits = Ok (48 + k / 10) /\ get1 (k * 2 + 1) digits = Ok (48 + k mod 10).
Proof.
  intros Hk. set (P := fun k => bool_decide (get1 (k * 2) digits = Ok (48 + k / 10)) &&
                        bool_decide (get1 (k * 2 + 1) digits = Ok (48 + k mod 10))).
  assert (forallb P (seqZ 0 100) = true) as Hall by (vm_compute; reflexivity).
  rewrite List.forallb_forall in Hall. specialize (Hall k).
  assert (In k (seqZ 0 100)) as Hin by (apply list_elem_of_In, elem_of_seqZ; lia).
  apply Hall, andb_prop in Hin as [H1%bool_decide_eq_true H2%bool_decide_eq_true]. done.
Qed.

Lemma set1_app {A} (pre : list A) x y post off :
  off = zlength pre -> set1 off y (pre ++ x :: post) = Ok (pre ++ y :: post).
Proof. intros ->. by apply (store_app pre [x] [y] post). Qed.

Lemma set1_hd {A} (x y : A) post off : off = 0 -> set1 off y (x :: post) = Ok (y :: post).
Proof. intros ->. by apply (set1_app []). Qed.

Lemma digs_two n v : digs (S (S n)) v =
  digs n (v / 100) ++ [48 + (v mod 100) / 10; 48 + (v mod 100) mod 10].
Proof.
  cbn [digs]. rewrite <- app_assoc. simpl. rewrite Z.div_div by lia. f_equal.
  f_equal; [|f_equal]; Z.to_euclidean_division_equations; lia.
Qed.

Lemma ndigits_div100 v d : 0 <= v -> 100 <= v -> ndigits v d -> 3 <= d /\ ndigits (v / 100) (d - 2).
Proof.
  intros H0 Hv (H1 & H2 & H3).
  assert (3 <= d) as Hd.
  { destruct (Z.le_gt_cases 3 d); [done|]. assert (d = 1 \/ d = 2) as [-> | ->] by lia; simpl in H2; lia. }
  split; [done|]. split; [lia|].
  replace d with (2 + (d - 2)) in H2 by lia. rewrite Z.pow_add_r in H2 by lia.
  split; [Z.to_euclidean_division_equations; lia|].
  destruct (decide (d = 3)) as [->|]; [by left|right]. destruct H3 as [->|H3]; [lia|].
  replace (d - 1) with (2 + (d - 2 - 1)) in H3 by lia. rewrite Z.pow_add_r in H3 by lia.
  Z.to_euclidean_division_equations; lia.
Qed.

(** The part of ull2string after the loop. *)
Definition ull2string_last (dst : list Z) (value next : Z) : res (list Z) :=
  if value <? 10 then set1 next (48 + value) dst
  else
    let! hi := get1 (value * 2 + 1) digits in
    let! dst := set1 next hi dst in
    let! lo := get1 (value * 2) digits in
    set1 (u32 (next - 1)) lo dst.

Lemma ull2string_fill fuel : forall n pre suf value,
  length pre = n -> (n <= 2 * fuel + 2)%nat -> 0 <= value < 2 ^ 64 -> ndigits value (Z.of_nat n) ->
  Z.of_nat n <= 20 ->
  (let! '(dst, value, next) := ull2string_loop fuel (pre ++ suf) value (Z.of_nat n - 1) in
   ull2string_last dst value next) = Ok (digs n value ++ suf).
Proof.
  induction fuel as [|fuel IH]; intros n pre suf value Hl Hn Hv Hd H20;
    cbn [ull2string_loop]; rewrite Z.geb_leb; destruct (Z.leb_spec 100 value) as [Hge|Hlt].
  1: { destruct (ndigits_div100 value _ ltac:(lia) Hge Hd) as [? _]. lia. }
  2: { destruct (ndigits_div100 value _ ltac:(lia) Hge Hd) as [Hd3 Hd'].
    destruct pre as [|b pre _] using rev_ind; [simpl in *; lia|].
    destruct pre as [|a pre _] using rev_ind; [simpl in *; lia|].
    rewrite <- !app_assoc in *. simpl app. len.
    pose proof (Z.mod_pos_bound value 100 ltac:(lia)) as Hm.
    destruct (digits_table (value mod 100) Hm) as [Hlo Hhi]. rewrite Hhi, Hlo.
    replace (pre ++ a :: b :: suf) with ((pre ++ [a]) ++ b :: suf) by (by rewrite <- app_assoc).
    rewrite (set1_app (pre ++ [a])) by len. rewrite <- app_assoc. rewrite !(u_id 32) by (pow_const; lia). simpl app.
    rewrite (set1_app pre) by len.
    replace (Z.of_nat n - 1 - 2) with (Z.of_nat (n - 2) - 1) by lia.
    rewrite (IH (n - 2)%nat); [| lia|lia| |by rewrite Nat2Z.inj_sub by lia|lia].
    - destruct n as [|[|n]]; [lia|lia|]. rewrite digs_two, <- app_assoc. simpl.
      by rewrite Nat.sub_0_r.
    - pow_const. Z.to_euclidean_division_equations; lia. }
  all: unfold ull2string_last; destruct (Z.ltb_spec value 10) as [H10|H10].
  1,3: assert (n = 1%nat) as -> by
        (destruct Hd as (H1 & H2 & [H3|H3]); [lia|];
         destruct (decide (n = 1%nat)); [done|];
         pose proof (Z.pow_le_mono_r 10 1 (Z.of_nat n - 1)); lia);
      destruct pre as [|b [|]]; try (simpl in *; lia); simpl;
      rewrite set1_hd by done; simpl; rewrite Z.mod_small by lia; done.
  all: assert (n = 2%nat) as -> by
        (destruct Hd as (H1 & H2 & [H3|H3]);
         [replace n with 1%nat in H2 by lia; simpl in H2; lia|];
         destruct (decide (n = 1%nat)) as [->|]; [simpl in H2; lia|];
         destruct (decide (n = 2%nat)); [done|];
         pose proof (Z.pow_le_mono_r 10 2 (Z.of_nat n - 1)); lia).
  all: rewrite (digs_two 0), (Z.mod_small value 100) by lia.
  all: destruct pre as [|a [|b [|]]]; try (simpl in *; lia).
  all: destruct (digits_table value) as [-> ->]; [lia|]; simpl app.
  all: change (a :: b :: suf) with ([a] ++ b :: suf); rewrite (set1_app [a]) by done; rewrite u_id by (pow_const; lia); simpl app.
  all: rewrite set1_hd by done; done.
Qed.

Lemma ull2string_eq dst dstlen value d :
  digits10 value = Ok d ->
  ull2string dst dstlen value =
  if d >=? dstlen then
    if dstlen >? 0 then let! dst := set1 0 0 dst in Ok (0, dst) else Ok (0, dst)
  else
    let! dst := set1 (u32 (u32 (d - 1) + 1)) 0 dst in
    let! dst := (let! '(dst, value, next) := ull2string_loop 10 dst value (u32 (d - 1)) in
                 ull2string_last dst value next) in
    Ok (d, dst).
Proof.
  intros Hd. unfold ull2string. rewrite Hd. destruct (d >=? dstlen); [done|].
  destruct (set1 _ _ dst) as [dst'|]; [|done].
  destruct (ull2string_loop _ _ _ _) as [[[dst'' v''] n'']|]; [|done].
  unfold ull2string_last. by repeat (case_match; try done).
Qed.

(** What a conversion that has room leaves in the buffer: the text, a terminator,
    and the old contents after it. *)
Lemma ull2string_fits dst value d :
  0 <= value < 2 ^ 64 -> ndigits value d -> d < zlength dst ->
  forall dstlen, d < dstlen ->
  ull2string dst dstlen value =
  Ok (d, digs (Z.to_nat d) value ++ 0 :: drop (S (Z.to_nat d)) dst).
Proof.
  intros Hv Hd Hlen dstlen Hdl. destruct (digits10_ok value Hv) as (d' & Hd' & Hn & H20).
  rewrite (ndigits_unique _ _ _ Hd Hn) in *. clear d Hd.
  pose proof (proj1 Hn) as H1.
  rewrite (ull2string_eq _ _ _ d') by done.
  rewrite Z.geb_leb, (proj2 (Z.leb_gt dstlen d')) by lia.
  rewrite !(u_id 32) by (rewrite ?u_id; pow_const; lia).
  destruct (split_at dst d' 1) as (pre & xx & post & -> & Hp & Hx); [lia..|].
  destruct xx as [|x [|]]; [cbn [length] in Hx; lia| |cbn [length] in Hx; lia].
  simpl app. rewrite (set1_app pre) by lia.
  replace (d' - 1) with (Z.of_nat (length pre) - 1) by lia.
  rewrite (ull2string_fill 10 (length pre)); [|done|lia|done|by rewrite <- Hp|lia].
  do 2 f_equal. rewrite Hp, Nat2Z.id. do 2 f_equal.
  change (x :: post) with ([x] ++ post). rewrite app_assoc, drop_app_length'; [done|len].
Qed.

Lemma ull2string_short dst value d dstlen :
  0 <= value < 2 ^ 64 -> ndigits value d -> 0 <= dstlen <= d -> dstlen <= zlength dst ->
  ull2string dst dstlen value = Ok (0, if 0 <? dstlen then 0 :: drop 1 dst else dst).
Proof.
  intros Hv Hd Hdl Hlen. destruct (digits10_ok value Hv) as (d' & Hd' & Hn & H20).
  rewrite (ndigits_unique _ _ _ Hd Hn) in *.
  rewrite (ull2string_eq _ _ _ d') by done. rewrite Z.geb_leb, Z.gtb_ltb, (proj2 (Z.leb_le dstlen d')) by lia.
  destruct (Z.ltb_spec 0 dstlen); [|done]. destruct dst as [|x dst]; [simpl in *; lia|].
  by rewrite set1_hd.
Qed.

(** * String to integer *)

Lemma string2ll_loop_spec fuel : forall rest pre tl v,
  (length rest <= fuel)%nat -> 0 <= v <= ULLONG_MAX ->
  exists r, string2ll_loop fuel (pre ++ rest ++ tl) (zlength (pre ++ rest)) (zlength pre) v = Ok r /\
    (Forall (fun c => isdig c = true) rest ->
       r = if undec v rest <=? ULLONG_MAX then Some (zlength (pre ++ rest), undec v rest) else None) /\
    (~ Forall (fun c => isdig c = true) rest ->
       r = None \/ exists p w, r = Some (p, w) /\ p < zlength (pre ++ rest)).
Proof.
  unfold ULLONG_MAX. induction fuel as [|fuel IH]; intros [|c rest] pre tl v Hf Hv; simpl in Hf; try lia.
  1,2: cbn [string2ll_loop]; rewrite app_nil_r, Z.ltb_irrefl; eexists; (split; [done|]);
       (split; [intros _; simpl; by zif|intros Hn; by destruct Hn]).
  cbn [string2ll_loop]. rewrite (proj2 (Z.ltb_lt _ _)) by len.
  rewrite <- !app_comm_cons. rewrite get1_app by done. destruct (isdig c) eqn:Ec.
  2: { eexists; split; [done|]. split.
       - intros Hall. apply Forall_cons_1 in Hall as [? _]. congruence.
       - intros _. right. do 2 eexists; split; [done|]. len. }
  pose proof Ec as Ed. unfold isdig in Ed.
  assert (Forall (fun c => isdig c = true) (c :: rest) <-> Forall (fun c => isdig c = true) rest) as Hiff.
  { split; [by intros [_ ?]%Forall_cons_1|by constructor]. }
  unfold ULLONG_MAX. change (18446744073709551615 / 10) with 1844674407370955161. rewrite !Z.gtb_ltb.
  assert (undec v (c :: rest) = undec (v * 10 + (c - 48)) rest) as Hu by done.
  assert (forall r : option (Z * Z), v * 10 + (c - 48) > 18446744073709551615 -> r = None ->
    (Forall (fun c => isdig c = true) (c :: rest) ->
       r = if undec v (c :: rest) <=? 18446744073709551615 then Some (zlength (pre ++ c :: rest), undec v (c :: rest)) else None) /\
    (~ Forall (fun c => isdig c = true) (c :: rest) ->
       r = None \/ exists p w, r = Some (p, w) /\ p < zlength (pre ++ c :: rest))) as Hover.
  { intros r Hb ->. split; [|by left]. intros Hall. rewrite Hiff in Hall.
    pose proof (undec_mono (v * 10 + (c - 48)) rest Hall ltac:(lia)). rewrite Hu. by zif. }
  destruct (Z.ltb_spec 1844674407370955161 v); [eexists; split; [done|]; apply Hover; lia || done|].
  rewrite (u_id 64 (v * 10)) by (pow_const; lia).
  destruct (Z.ltb_spec (18446744073709551615 - (c - 48)) (v * 10));
    [eexists; split; [done|]; apply Hover; lia || done|].
  rewrite u_id by (pow_const; lia).
  destruct (IH rest (pre ++ [c]) tl (v * 10 + (c - 48))) as (r & Hr & H1 & H2); [lia|lia|].
  rewrite <- !app_assoc in *. simpl app in *. exists r. rewrite Hiff, Hu. split; [|done].
  rewrite <- Hr. f_equal. len.
Qed.

Lemma decimal_lead v d :
  0 < v -> ndigits v d -> exists c l, digs (Z.to_nat d) v = c :: l /\ 49 <= c <= 57.
Proof.
  intros Hv (H1 & H2 & H3). destruct (digs (Z.to_nat d) v) as [|c l] eqn:E.
  { apply (f_equal length) in E. rewrite length_digs in E. simpl in E. lia. }
  exists c, l. split; [done|]. pose proof (digs_digits (Z.to_nat d) v) as Hf.
  pose proof (undec_digs (Z.to_nat d) v) as Hu. rewrite Z2Nat.id in Hu by lia.
  rewrite Z.mod_small in Hu by lia. rewrite E in Hf, Hu.
  apply Forall_cons_1 in Hf as [Hc Hf]. unfold isdig in Hc.
  destruct (Z.eq_dec c 48) as [->|]; [|lia]. exfalso.
  change (undec 0 (48 :: l)) with (undec 0 l) in Hu. pose proof (undec_range l Hf) as Hr.
  assert (zlength l = d - 1) as Hl by (apply (f_equal length) in E; rewrite length_digs in E; simpl in E; lia).
  rewrite Hl, Hu in Hr. destruct H3 as [->|H3]; [simpl in Hr; lia|lia].
Qed.

(** A digit string without a leading zero is the decimal notation of its value. *)
Lemma undec_decimal c l :
  49 <= c <= 57 -> Forall (fun c => isdig c = true) l -> decimal (undec 0 (c :: l)) (c :: l).
Proof.
  intros Hc Hf. assert (Forall (fun c => isdig c = true) (c :: l)) as Hf'.
  { constructor; [unfold isdig; lia|done]. }
  rewrite <- (digs_undec _ Hf') at 2. rewrite <- (Nat2Z.id (length (c :: l))). constructor.
  pose proof (undec_range _ Hf') as Hr. split; [cbn [length]; lia|]. split; [lia|].
  destruct l as [|c' l]; [by left|right].
  replace (zlength (c :: c' :: l) - 1) with (zlength (c' :: l)) by (cbn [length]; lia).
  change (undec 0 (c :: c' :: l)) with (undec (c - 48) (c' :: l)). rewrite undec_lin.
  pose proof (undec_range _ Hf). nia.
Qed.

Lemma decimal_unique v w l : 0 <= v -> 0 <= w -> decimal v l -> decimal w l -> v = w.
Proof.
  intros H1 H2 [d Hd] Hw. inversion Hw as [d' Hd' E].
  assert (Z.to_nat d' = Z.to_nat d) as Hdd by (apply (f_equal length) in E; by rewrite !length_digs in E).
  pose proof (undec_digs (Z.to_nat d) v) as Hu. pose proof (undec_digs (Z.to_nat d') w) as Hu'.
  rewrite E, Hu, Hdd in Hu'. destruct Hd as (? & ? & _), Hd' as (? & ? & _).
  rewrite Z2Nat.id in Hu' by lia. assert (d = d') as <- by lia.
  by rewrite !Z.mod_small in Hu' by lia.
Qed.

Lemma decimal_digits v l : decimal v l -> Forall (fun c => isdig c = true) l.
Proof. intros [d _]. apply digs_digits. Qed.

Lemma decimal_value v l : 0 <= v -> decimal v l -> undec 0 l = v.
Proof.
  intros Hv [d (H1 & H2 & _)]. rewrite undec_digs, Z2Nat.id by lia. apply Z.mod_small; lia.
Qed.

Lemma decimal_zero v l : 0 <= v -> decimal v l -> (v = 0 <-> l = [48]) /\ l <> [].
Proof.
  intros Hv [d Hd]. pose proof Hd as (H1 & H2 & H3). split; [split|].
  - intros ->. assert (d = 1) as -> by (destruct H3 as [|H3]; [done|]; pose proof (Z.pow_pos_nonneg 10 (d - 1)); lia).
    done.
  - intros Hl. pose proof (decimal_value v _ Hv (decimal_intro v d Hd)) as Hu. by rewrite Hl in Hu.
  - intros Hl. apply (f_equal length) in Hl. rewrite length_digs in Hl. simpl in Hl; lia.
Qed.

(** The digit loop started on the leading digit [c] of [c :: rest] consumes all the
    text and returns [w] exactly when the text is the decimal notation of [w]. *)
Lemma string2ll_loop_decimal fuel pre c rest tl :
  (length rest <= fuel)%nat -> 49 <= c <= 57 ->
  exists r, string2ll_loop fuel (pre ++ c :: rest ++ tl) (zlength (pre ++ c :: rest)) (zlength pre + 1) (c - 48) = Ok r /\
    forall w, (exists p, r = Some (p, w) /\ zlength (pre ++ c :: rest) <= p) <->
              decimal w (c :: rest) /\ 0 < w <= ULLONG_MAX.
Proof.
  intros Hf Hc. destruct (string2ll_loop_spec fuel rest (pre ++ [c]) tl (c - 48)) as (r & Hr & H1 & H2);
    [done|unfold ULLONG_MAX; lia|].
  rewrite <- !app_assoc in *. simpl app in *. exists r. split.
  { rewrite <- Hr. f_equal. len. }
  change (undec (c - 48) rest) with (undec 0 (c :: rest)) in *. intros w.
  destruct (decide (Forall (fun c => isdig c = true) rest)) as [Hall|Hno].
  - rewrite (H1 Hall). pose proof (undec_decimal c rest Hc Hall) as Hd.
    assert (0 < undec 0 (c :: rest)).
    { change (undec 0 (c :: rest)) with (undec (c - 48) rest). pose proof (undec_mono (c - 48) rest Hall). lia. }
    destruct (Z.leb_spec (undec 0 (c :: rest)) ULLONG_MAX); split.
    + intros (p & [= <- <-] & _). done.
    + intros [Hd' Hw]. rewrite <- (decimal_value w _ ltac:(lia) Hd'). eexists; split; [done|lia].
    + by intros (p & ? & _).
    + intros [Hd' Hw]. rewrite (decimal_value w _ ltac:(lia) Hd') in *. lia.
  - split.
    + intros (p & -> & Hp). destruct (H2 Hno) as [?|(p' & w' & [= <- <-] & ?)]; [done|lia].
    + intros [Hd _]. apply decimal_digits, Forall_cons_1 in Hd as [_ ?]. done.
Qed.

Lemma sdecimal_length v txt : in_s 64 v -> sdecimal v txt -> zlength txt <= 20.
Proof.
  intros Hv Hd. assert (forall w l, 0 <= w <= 9223372036854775808 -> decimal w l -> zlength l <= 19) as Haux.
  { intros w l Hw [d (H1 & H2 & H3)]. rewrite length_digs, Z2Nat.id by lia. destruct H3 as [->|H3]; [lia|].
    destruct (Z.le_gt_cases d 19); [done|]. pose proof (Z.pow_le_mono_r 10 19 (d - 1)). lia. }
  unfold in_s in Hv. pow_const. destruct Hd as [l ? Hd|l ? Hd]; apply Haux in Hd; cbn [length]; lia.
Qed.

Lemma sdecimal_inv v txt : sdecimal v txt ->
  exists c rest, txt = c :: rest /\
    ((0 <= v /\ decimal v txt /\ c <> 45) \/ (v < 0 /\ c = 45 /\ decimal (- v) rest)).
Proof.
  intros [l Hv Hd|l Hv Hd].
  - destruct (decimal_zero _ _ Hv Hd) as [_ Hne]. destruct l as [|c rest]; [done|].
    exists c, rest. split; [done|]. left. split_and!; auto.
    intros ->. apply decimal_digits, Forall_cons_1 in Hd as [? _]. done.
  - exists 45, l. split; [done|]. by right.
Qed.

Lemma decimal_first v c rest : 0 < v -> decimal v (c :: rest) -> 49 <= c <= 57.
Proof.
  intros Hv Hd. inversion Hd as [d Hnd E]. destruct (decimal_lead v d Hv Hnd) as (c' & l & E' & Hc). congruence.
Qed.

(** Both signs of string2ll after the sign has been dealt with: the text [c :: rest]
    that follows [pre], the optional minus sign. *)
Lemma string2ll_magnitude fuel pre c rest tl (limit : Z) (f : Z -> Z) :
  (length rest <= fuel)%nat -> limit <= ULLONG_MAX ->
  (forall a b, f a = f b -> a = b) ->
  exists r,
    (if (49 <=? c) && (c <=? 57) then
       let! r := string2ll_loop fuel (pre ++ c :: rest ++ tl) (zlength (pre ++ c :: rest))
                   (zlength pre + 1) (c - 48) in
       match r with
       | None => Ok None
       | Some (plen, v) =>
           if plen <? zlength (pre ++ c :: rest) then Ok None
           else if v >? limit then Ok None else Ok (Some (f v))
       end
     else Ok None) = Ok r /\
    forall w, r = Some (f w) <-> decimal w (c :: rest) /\ 0 < w <= limit.
Proof.
  intros Hfu Hlim Hinj. destruct ((49 <=? c) && (c <=? 57)) eqn:Ec.
  2: { eexists; split; [done|]. intros w. split; [done|]. intros [Hd Hw].
       apply decimal_first in Hd; lia. }
  destruct (string2ll_loop_decimal fuel pre c rest tl Hfu) as (r & -> & Hr); [lia|].
  destruct r as [[p v]|].
  2: { eexists; split; [done|]. intros w. split; [done|]. intros [Hd Hw].
       destruct (proj2 (Hr w)) as (p & ? & _); [split; [done|lia]|done]. }
  destruct (Z.ltb_spec p (zlength (pre ++ c :: rest))) as [Hp|Hp].
  { eexists; split; [done|]. intros w. split; [done|]. intros [Hd Hw].
    destruct (proj2 (Hr w)) as (p' & [= -> ->] & ?); [split; [done|lia]|lia]. }
  destruct (proj1 (Hr v)) as [Hdv Hv]; [by exists p|]. rewrite Z.gtb_ltb.
  destruct (Z.ltb_spec limit v); (eexists; split; [done|]); intros w.
  - split; [done|]. intros [Hd Hw]. rewrite (decimal_unique v w _ ltac:(lia) ltac:(lia) Hdv Hd) in *. lia.
  - split; [intros [= ->%Hinj]; split; [done|lia]|]. intros [Hd Hw].
    by rewrite (decimal_unique v w _ ltac:(lia) ltac:(lia) Hdv Hd).
Qed.

Lemma string2ll_spec txt tl :
  exists r, string2ll (txt ++ tl) (zlength txt) = Ok r /\
    forall v, r = Some v <-> in_s 64 v /\ sdecimal v txt.
Proof.
  unfold string2ll, LONG_STR_SIZE. rewrite Z.geb_leb.
  destruct ((0 =? zlength txt) || (21 <=? zlength txt)) eqn:E0.
  { eexists; split; [done|]. intros v. split; [done|]. intros [Hv Hd].
    pose proof (sdecimal_length _ _ Hv Hd). apply sdecimal_inv in Hd as (c & rest & -> & _).
    cbn [length] in *. exfalso; lia. }
  destruct txt as [|c rest]; [done|]. rewrite <- app_comm_cons.
  rewrite get1_0.
  destruct ((zlength (c :: rest) =? 1) && (c =? 48)) eqn:E1.
  { apply andb_prop in E1 as [E1 ->%Z.eqb_eq]. destruct rest; [|cbn [length] in E1; lia].
    eexists; split; [done|]. intros v. split.
    - intros [= <-]. split; [split; vm_compute; congruence|]. apply sdecimal_nonneg; [lia|].
      apply (decimal_intro 0 1). unfold ndigits. simpl. lia.
    - intros [_ Hd]. apply sdecimal_inv in Hd as (c & rest & [= <- <-] & [(Hv & Hd & _)|(_ & ? & _)]); [|lia].
      f_equal. symmetry. by apply (decimal_zero v [48]). }
  destruct (Z.eqb_spec c 45) as [->|Hneg].
  - cbn [andb]. destruct rest as [|c rest]; [cbn [length] in *; cbn in E1|].
    { eexists; split; [done|]. intros v. split; [done|]. intros [_ Hd].
      apply sdecimal_inv in Hd as (c & rest & [= <- <-] & [(_ & _ & ?)|(Hv & _ & Hd)]); [done|].
      exfalso. by eapply (decimal_zero (- v) []); [lia|..]. }
    rewrite (proj2 (Z.eqb_neq 1 _)) by (cbn [length]; lia).
    rewrite <- app_comm_cons, get1_1.
    destruct (string2ll_magnitude (Z.to_nat (zlength (45 :: c :: rest))) [45] c rest tl
                9223372036854775808 (fun v => - v)) as (r & Hr & Hs);
      [cbn [length]; lia|unfold ULLONG_MAX; lia|lia|].
    exists (match r with Some v => Some (s64 v) | None => None end). simpl app in Hr. split.
    + revert Hr. change (1 + 1) with (zlength [45] + 1).
      change (u64 (- (LLONG_MIN + 1)) + 1) with 9223372036854775808.
      destruct ((49 <=? c) && (c <=? 57)); [|by intros [= <-]].
      destruct (string2ll_loop _ _ _ _ _) as [[[p v]|]|]; intros Hr; res_inv; subst; try done.
      by repeat case_match; res_inv; subst.
    + intros v. destruct r as [w|].
      * destruct (proj1 (Hs (- w))) as [Hdw Hw]; [f_equal; lia|].
        rewrite s_id by (unfold in_s; pow_const; lia). split.
        -- intros [= ->]. split; [unfold in_s; pow_const; lia|]. by apply sdecimal_neg; [lia|].
        -- intros [_ Hd]. apply sdecimal_inv in Hd as (c' & rest' & [= <- <-] & [(_ & _ & ?)|(Hv & _ & Hd)]); [done|].
           f_equal. pose proof (decimal_unique (- w) (- v) (c :: rest) ltac:(lia) ltac:(lia) Hdw Hd). lia.
      * split; [done|]. intros [Hv Hd]. unfold in_s in Hv. pow_const.
        apply sdecimal_inv in Hd as (c' & rest' & [= <- <-] & [(_ & _ & ?)|(Hv' & _ & Hd)]); [done|].
        exfalso. discriminate (proj2 (Hs (- v))). split; [done|lia].
  - cbn [andb]. rewrite get1_0.
    destruct (string2ll_magnitude (Z.to_nat (zlength (c :: rest))) [] c rest tl LLONG_MAX (fun v => v))
      as (r & Hr & Hs); [cbn [length]; lia|vm_compute; congruence|done|].
    exists r. simpl app in Hr. split; [exact Hr|]. intros v. rewrite Hs. unfold LLONG_MAX, in_s. pow_const.
    split.
    + intros [Hd Hv]. split; [lia|]. by apply sdecimal_nonneg; [lia|].
    + intros [Hv Hd]. apply sdecimal_inv in Hd as (c' & rest' & [= <- <-] & [(Hv' & Hd & _)|(_ & ? & _)]); [|done].
      split; [done|]. destruct (decide (v = 0)) as [->|]; [|lia].
      apply (decimal_zero 0) in Hd; [|lia]. destruct Hd as [[Hz _] _]. specialize (Hz eq_refl).
      injection Hz as -> ->. done.
Qed.

(** The value of a hexadecimal digit, in either case. *)
Definition hexval (c : Z) : Z :=
  if (48 <=? c) && (c <=? 57) then c - 48
  else if (97 <=? c) && (c <=? 102) then c - 87 else c - 55.
Definition ishex (c : Z) : Prop := base_16_char_type c <> -1.
Definition unhex (acc : Z) (l : list Z) : Z := foldl (fun a c => a * 16 + hexval c) acc l.

Lemma base16_hexval c : 0 <= c < 256 -> ishex c ->
  exists off, get1 (base_16_char_type c) ascii_to_dec = Ok off /\ c - off = hexval c /\ 0 <= hexval c < 16.
Proof.
  intros Hc. unfold ishex, base_16_char_type, safe_is_c_in_range, hexval. rewrite !Z.geb_leb.
  destruct ((48 <=? c) && (c <=? 57)) eqn:E1; [eexists; split; [reflexivity|lia]|].
  destruct ((97 <=? c) && (c <=? 102)) eqn:E2; [eexists; split; [reflexivity|lia]|].
  destruct ((65 <=? c) && (c <=? 70)) eqn:E3; [eexists; split; [reflexivity|lia]|done].
Qed.

Lemma unhex_mono acc l : Forall ishex l -> bytes_ok l -> 0 <= acc -> acc <= unhex acc l.
Proof.
  intros Hf Hb. revert acc. induction Hf as [|c l Hc _ IH]; intros acc Ha; [simpl; lia|].
  apply Forall_cons_1 in Hb as [Hb1 Hb]. destruct (base16_hexval c Hb1 Hc) as (_ & _ & _ & ?).
  cbn [unhex foldl]. fold (unhex (acc * 16 + hexval c) l).
  specialize (IH Hb (acc * 16 + hexval c) ltac:(lia)). lia.
Qed.

Lemma decimal_exists v :
  in_u 64 v -> exists txt, decimal v txt /\ digits10 v = Ok (zlength txt).
Proof.
  intros Hx. destruct (digits10_ok v Hx) as (d & Hd & Hn & _). exists (digs (Z.to_nat d) v).
  split; [by constructor|]. rewrite Hd, length_digs. f_equal. destruct Hn. lia.
Qed.

(** The magnitude of a negative 64-bit integer, computed without overflow. *)
Lemma magnitude v : in_s 64 v -> v < 0 ->
  (if negb (v =? LLONG_MIN) then u64 (- v) else u64 LLONG_MAX + 1) = - v.
Proof.
  unfold in_s, LLONG_MIN, LLONG_MAX. intros Hv Hn. pow_const.
  destruct (Z.eqb_spec v (-9223372036854775808)) as [->|]; [done|]. simpl. apply u_id. pow_const. lia.
Qed.

Lemma sdecimal_exists v :
  in_s 64 v -> exists txt, sdecimal v txt /\ sdigits10 v = Ok (zlength txt).
Proof.
  intros Hv. unfold sdigits10. destruct (Z.ltb_spec v 0) as [Hn|Hp].
  - rewrite magnitude by done. unfold in_s in Hv. pow_const.
    destruct (decimal_exists (- v)) as (txt & Ht & ->); [unfold in_u; pow_const; lia|].
    exists (45 :: txt). split; [by apply sdecimal_neg|]. f_equal. cbn [length]. lia.
  - unfold in_s in Hv. pow_const.
    destruct (decimal_exists v) as (txt & Ht & ->); [unfold in_u; pow_const; lia|].
    exists txt. split; [by apply sdecimal_nonneg|done].
Qed.

Lemma ll2string_fits dst dstlen v txt :
  in_s 64 v -> sdecimal v txt -> 0 <= dstlen <= zlength dst -> zlength txt < dstlen ->
  ll2string dst dstlen v = Ok (zlength txt, txt ++ 0 :: drop (S (length txt)) dst).
Proof.
  intros Hv Hd Hl Hfit. unfold ll2string. pose proof (magnitude v Hv) as Hm. unfold in_s in Hv. pow_const.
  destruct Hd as [l Hp Hd|l Hn Hd]; destruct Hd as [d Hnd]; pose proof (proj1 Hnd);
    cbn [length] in *; rewrite ?length_digs in *.
  - rewrite (proj2 (Z.ltb_ge v 0)) by lia. rewrite (ull2string_fits _ _ d) by (done || (pow_const; lia)).
    rewrite Z2Nat.id by lia. by zif.
  - rewrite (proj2 (Z.ltb_lt v 0)), Hm, (proj2 (Z.ltb_ge dstlen 2)) by lia.
    destruct dst as [|x dst]; [simpl in *; lia|]. rewrite set1_hd by done. cbn [drop take length] in *.
    rewrite drop_0. rewrite (ull2string_fits _ _ d) by (done || (pow_const; lia)).
    rewrite (proj2 (Z.eqb_neq d 0)) by lia. do 2 f_equal. lia.
Qed.

Lemma ll2string_short dst dstlen v txt :
  in_s 64 v -> sdecimal v txt -> 0 <= dstlen <= zlength dst -> dstlen <= zlength txt ->
  exists dst', ll2string dst dstlen v = Ok (0, dst') /\ length dst' = length dst.
Proof.
  intros Hv Hd Hl Hfit. unfold ll2string. pose proof (magnitude v Hv) as Hm. unfold in_s in Hv. pow_const.
  destruct Hd as [l Hp Hd|l Hn Hd]; destruct Hd as [d Hnd]; pose proof (proj1 Hnd);
    cbn [length] in *; rewrite ?length_digs in *.
  - rewrite (proj2 (Z.ltb_ge v 0)) by lia. rewrite (ull2string_short _ _ d) by (done || (pow_const; lia)).
    rewrite Z.eqb_refl. eexists; split; [done|]. destruct (Z.ltb_spec 0 dstlen); [|done].
    destruct dst; [simpl in *; lia|]. simpl. by rewrite drop_0.
  - rewrite (proj2 (Z.ltb_lt v 0)), Hm by lia. destruct (Z.ltb_spec dstlen 2).
    { rewrite Z.gtb_ltb. destruct (Z.ltb_spec 0 dstlen); [|by eexists].
      destruct dst as [|x dst]; [simpl in *; lia|]. rewrite set1_hd by done. by eexists. }
    destruct dst as [|x dst]; [simpl in *; lia|]. rewrite set1_hd by done. cbn [drop take length] in *.
    rewrite drop_0, (ull2string_short _ _ d) by (done || (pow_const; lia)). rewrite Z.eqb_refl.
    eexists; split; [done|]. rewrite (proj2 (Z.ltb_lt 0 (dstlen - 1))) by lia.
    destruct dst; [cbn [length] in *; lia|]. simpl. by rewrite drop_0.
Qed.

(** One iteration of the hexadecimal loop on a digit. *)
Lemma base16_step fuel pre c rest slen acc :
  ishex c -> 0 <= c < 256 -> 0 <= acc <= ULLONG_MAX -> zlength pre < slen ->
  string2ul_base16_loop (S fuel) (pre ++ c :: rest) slen (zlength pre) acc =
  if acc * 16 + hexval c <=? ULLONG_MAX
  then string2ul_base16_loop fuel (pre ++ c :: rest) slen (zlength pre + 1) (acc * 16 + hexval c)
  else Ok None.
Proof.
  intros Hc Hbc Ha Hs. cbn [string2ul_base16_loop]. rewrite get1_app by done.
  destruct (base16_hexval c Hbc Hc) as (off & -> & -> & Hh). unfold ULLONG_MAX in *.
  rewrite (proj2 (Z.eqb_neq _ _)) by (unfold ishex in Hc; lia). rewrite (proj2 (Z.ltb_lt _ _)) by lia.
  cbn [negb andb]. rewrite !Z.gtb_ltb. destruct (Z.leb_spec (acc * 16 + hexval c) 18446744073709551615).
  - rewrite u_id by (pow_const; lia).
    rewrite !(proj2 (Z.ltb_ge _ _)) by (Z.to_euclidean_division_equations; lia). done.
  - rewrite (proj2 (Z.ltb_lt ((18446744073709551615 - hexval c) / 16) acc))
      by (Z.to_euclidean_division_equations; lia). by rewrite orb_true_r.
Qed.

Lemma base16_loop_spec fuel : forall l pre rest slen acc,
  (length l < fuel)%nat -> Forall ishex l -> bytes_ok l -> 0 <= acc <= ULLONG_MAX ->
  zlength pre + zlength l <= slen ->
  (forall c rest', rest = c :: rest' -> ishex c -> slen = zlength pre + zlength l) ->
  string2ul_base16_loop fuel (pre ++ l ++ rest) slen (zlength pre) acc =
    if unhex acc l <=? ULLONG_MAX
    then if decide (rest = []) then Fault OutOfBounds else Ok (Some (unhex acc l)) else Ok None.
Proof.
  induction fuel as [|fuel IH]; intros l pre rest slen acc Hf Hl Hb Ha Hs Hr; [lia|].
  destruct l as [|c l].
  - cbn [string2ul_base16_loop]. simpl app. rewrite (proj2 (Z.leb_le _ _)) by (simpl; lia).
    destruct rest as [|c rest']; simpl decide.
    { unfold get1. rewrite app_nil_r, Nat2Z.id, (proj2 (Z.ltb_ge _ _)) by lia. by rewrite lookup_ge_None_2 by lia. }
    rewrite get1_app by done. simpl unhex.
    destruct (Z.eqb_spec (-1) (base_16_char_type c)) as [|Hh]; [done|].
    specialize (Hr c rest' eq_refl). unfold ishex in Hr. cbn [negb andb length] in *.
    rewrite (proj2 (Z.ltb_ge _ _)) by (rewrite Hr by lia; lia). done.
  - apply Forall_cons_1 in Hl as [Hc Hl]. apply Forall_cons_1 in Hb as [Hbc Hb]. cbn [length] in *.
    rewrite <- app_comm_cons, base16_step by (auto; lia). cbn [unhex foldl]. fold (unhex (acc * 16 + hexval c) l).
    destruct (base16_hexval c Hbc Hc) as (_ & _ & _ & Hh).
    destruct (Z.leb_spec (acc * 16 + hexval c) ULLONG_MAX) as [Hle|Hgt].
    + specialize (IH l (pre ++ [c]) rest slen (acc * 16 + hexval c)).
      rewrite <- app_assoc in IH. simpl app in IH. rewrite <- IH; auto; [f_equal; len|lia|lia|len|].
      intros c' rest' -> Hc'. rewrite (Hr c' rest') by done. len.
    + pose proof (unhex_mono (acc * 16 + hexval c) l Hl Hb ltac:(lia)). by zif.
Qed.

(** digits10 and sdigits10 return, for every 64-bit value, the length of its
    decimal notation (with the minus sign for sdigits10, LLONG_MIN included). *)
Theorem digits10_correct v w :
  in_u 64 v -> in_s 64 w ->
  (exists txt, decimal v txt /\ digits10 v = Ok (zlength txt)) /\
  (exists txt, sdecimal w txt /\ sdigits10 w = Ok (zlength txt)).
Proof. intros Hv Hw. split; [by apply decimal_exists|by apply sdecimal_exists]. Qed.

Lemma digits10_correct_witness :
  (exists txt, decimal 0 txt /\ digits10 0 = Ok (zlength txt)) /\
  (exists txt, sdecimal LLONG_MIN txt /\ sdigits10 LLONG_MIN = Ok (zlength txt)).
Proof. apply digits10_correct; split; vm_compute; congruence. Defined.

(** ll2string writes the decimal notation of any signed 64-bit value followed by
    a terminator when the buffer has room for both and returns its length; otherwise
    it returns 0.  In both cases only the [dstlen] bytes of the buffer are accessed. *)
Theorem ll2string_correct dst dstlen v txt :
  in_s 64 v -> sdecimal v txt -> 0 <= dstlen <= zlength dst ->
  (zlength txt < dstlen ->
   ll2string dst dstlen v = Ok (zlength txt, txt ++ 0 :: drop (S (length txt)) dst)) /\
  (dstlen <= zlength txt ->
   exists dst', ll2string dst dstlen v = Ok (0, dst') /\ length dst' = length dst).
Proof. intros Hv Hd Hl. split; [by apply ll2string_fits|by apply ll2string_short]. Qed.

Lemma ll2string_correct_witness :
  ll2string (replicate 4 7) 4 (-12) = Ok (3, [45; 49; 50; 0]).
Proof.
  destruct (ll2string_correct (replicate 4 7) 4 (-12) [45; 49; 50]) as [H _];
    [split; vm_compute; congruence| |simpl; lia|by apply H; simpl].
  apply sdecimal_neg; [lia|]. apply (decimal_intro 12 2). unfold ndigits; simpl; lia.
Defined.

(** C26: string2ll (and string2l) accepts exactly the decimal notations of signed
    64-bit integers, with no spaces, plus signs or leading zeroes, returns their
    value, and never reads past [slen] bytes. *)
Theorem string2ll_correct txt tl :
  exists r, string2ll (txt ++ tl) (zlength txt) = Ok r /\ string2l (txt ++ tl) (zlength txt) = Ok r /\
    forall v, r = Some v <-> in_s 64 v /\ sdecimal v txt.
Proof.
  destruct (string2ll_spec txt tl) as (r & Hr & Hs). exists r. split; [done|]. split; [|done].
  unfold string2l. rewrite Hr. destruct r as [v|]; [|done].
  destruct (proj1 (Hs v) eq_refl) as [Hv _]. unfold in_s, LONG_MIN, LONG_MAX, LLONG_MIN, LLONG_MAX in *. pow_const.
  by repeat zif.
Qed.

(** Converting a signed 64-bit integer with ll2string and parsing the result
    with string2ll gives the integer back, and a string accepted by string2ll is
    reproduced, byte for byte, by ll2string. *)
Theorem ll2string_string2ll_roundtrip v dst txt :
  in_s 64 v -> 21 <= zlength dst ->
  (exists n dst', ll2string dst (zlength dst) v = Ok (n, dst') /\ string2ll dst' n = Ok (Some v)) /\
  (string2ll txt (zlength txt) = Ok (Some v) ->
   ll2string dst (zlength dst) v = Ok (zlength txt, txt ++ 0 :: drop (S (length txt)) dst)).
Proof.
  intros Hv Hl. split.
  - destruct (sdecimal_exists v Hv) as (txt' & Hd & _). pose proof (sdecimal_length v txt' Hv Hd).
    do 2 eexists. split; [apply (ll2string_fits dst _ v txt'); auto; lia|].
    destruct (string2ll_spec txt' (0 :: drop (S (length txt')) dst)) as (r & -> & Hs).
    f_equal. by apply Hs.
  - intros Hp. destruct (string2ll_spec txt []) as (r & Hr & Hs). rewrite app_nil_r, Hp in Hr. injection Hr as <-.
    destruct (proj1 (Hs v) eq_refl) as [_ Hd]. pose proof (sdecimal_length v txt Hv Hd).
    apply ll2string_fits; auto; lia.
Qed.

Lemma ll2string_string2ll_roundtrip_witness :
  exists n dst', ll2string (replicate 21 0) 21 (-5) = Ok (n, dst') /\ string2ll dst' n = Ok (Some (-5)).
Proof.
  apply (ll2string_string2ll_roundtrip (-5) (replicate 21 0) []); [split; vm_compute; congruence|by vm_compute].
Defined.

(** The hexadecimal parser returns the value of the longest prefix [l] of at most
    [slen] hexadecimal digits, or reports overflow exactly when that value does not
    fit an unsigned long.  It tests the byte after that prefix even when [slen]
    digits have been read: with no byte there it reads out of bounds. *)
Theorem string2ul_base16_correct l rest slen :
  Forall ishex l -> bytes_ok l -> zlength l <= slen ->
  (forall c rest', rest = c :: rest' -> ishex c -> slen = zlength l) ->
  string2ul_base16_async_signal_safe (l ++ rest) slen =
    if unhex 0 l <=? ULLONG_MAX
    then if decide (rest = []) then Fault OutOfBounds else Ok (Some (unhex 0 l)) else Ok None.
Proof.
  intros Hl Hb Hs Hr.
  apply (base16_loop_spec _ l [] rest slen 0); auto; [lia|split; vm_compute; congruence].
Qed.

Lemma string2ul_base16_correct_witness :
  string2ul_base16_async_signal_safe ([49; 102; 70] ++ [32]) 8 = Ok (Some 511).
Proof.
  rewrite string2ul_base16_correct; [done| | |by vm_compute|].
  - repeat constructor; vm_compute; congruence.
  - repeat constructor; vm_compute; congruence.
  - intros c rest' [= <- <-] Hc. by destruct Hc.
Defined.
