(* ===== verification/Glob.v ===== *)
(** Glob patterns, the model: stringmatchlen and prefixmatch of
    src/redis-stable/src/util.c.

    The patterns of KEYS, SCAN, PSUBSCRIBE and of the access control lists.  A pattern and
    a string are blocks of memory with a pointer into each and the number of bytes left; a
    block may go on after the pattern or string.  [char] is signed, and tolower is the one
    of the C locale. *)

From S2P Require Import Prelude Machine.

(** * Characters *)

Definition STAR : Z := 42.
Definition QUESTION : Z := 63.
Definition LBRACKET : Z := 91.
Definition BACKSLASH : Z := 92.
Definition RBRACKET : Z := 93.
Definition CARET : Z := 94.
Definition DASH : Z := 45.

(** a [char] converted to [int] *)
Definition char_int (c : Z) : Z := s 8 c.

Definition tolower (c : Z) : Z := if (65 <=? c) && (c <=? 90) then c + 32 else c.

(** [char_eq nocase a b]: the comparison of the default case of the switch *)
Definition char_eq (nocase : bool) (a b : Z) : bool :=
  if nocase then tolower (char_int a) =? tolower (char_int b) else a =? b.

(** The range test of a character class. *)
Definition range_match (nocase : bool) (first last chr : Z) : bool :=
  let start := char_int first in
  let end_ := char_int last in
  let c := char_int chr in
  let '(start, end_) := if start >? end_ then (end_, start) else (start, end_) in
  let '(start, end_, c) :=
    if nocase then (tolower start, tolower end_, tolower c) else (start, end_, c) in
  (c >=? start) && (c <=? end_).

(** * stringmatchlen_impl *)

Section Match.
Variables pattern string : list Z.
Variable nocase : bool.

(** while (patternLen && pattern[1] == '*') *)
Fixpoint skip_stars (fuel : nat) (p plen : Z) : res (Z * Z) :=
  if plen =? 0 then Ok (p, plen)
  else
    let! c := get1 (p + 1) pattern in
    if c =? STAR then
      match fuel with
      | O => Fault OutOfFuel
      | S fuel => skip_stars fuel (p + 1) (plen - 1)
      end
    else Ok (p, plen).

(** while (patternLen && *pattern == '*') *)
Fixpoint skip_trailing_stars (fuel : nat) (p plen : Z) : res Z :=
  if plen =? 0 then Ok plen
  else
    let! c := get1 p pattern in
    if c =? STAR then
      match fuel with
      | O => Fault OutOfFuel
      | S fuel => skip_trailing_stars fuel (p + 1) (plen - 1)
      end
    else Ok plen.

(** pattern[i] == c, guarded by [guard && ...] *)
Definition and_at (guard : bool) (i c : Z) : res bool :=
  if guard then let! x := get1 i pattern in Ok (x =? c) else Ok false.

(** The loop over the characters of a class: where the class ends, and [match]. *)
Fixpoint class_loop (fuel : nat) (p plen sp : Z) (found : bool) : res (Z * Z * bool) :=
  match fuel with
  | O => Fault OutOfFuel
  | S fuel =>
      let! escaped := and_at (plen >=? 2) p BACKSLASH in
      if escaped then
        let p := p + 1 in
        let plen := plen - 1 in
        let! c := get1 p pattern in
        let! chr := get1 sp string in
        class_loop fuel (p + 1) (plen - 1) sp (found || (c =? chr))
      else if plen =? 0 then Ok (p - 1, plen + 1, found)
      else
        let! c := get1 p pattern in
        if c =? RBRACKET then Ok (p, plen, found)
        else
          let! range := and_at (plen >=? 3) (p + 1) DASH in
          let! chr := get1 sp string in
          if range then
            let! last := get1 (p + 2) pattern in
            let p := p + 2 in
            let plen := plen - 2 in
            class_loop fuel (p + 1) (plen - 1) sp (found || range_match nocase c last chr)
          else
            class_loop fuel (p + 1) (plen - 1) sp (found || char_eq nocase c chr)
  end.

(** One iteration for a pattern that does not start with a star: [None] if the character
    does not match, otherwise the last byte of the pattern that was used. *)
Definition match_one (p plen sp c : Z) : res (option (Z * Z)) :=
  if c =? QUESTION then Ok (Some (p, plen))
  else if c =? LBRACKET then
    let p := p + 1 in
    let plen := plen - 1 in
    let! not := and_at (negb (plen =? 0)) p CARET in
    let p := if not then p + 1 else p in
    let plen := if not then plen - 1 else plen in
    let! '(p, plen, found) := class_loop (S (Z.to_nat plen)) p plen sp false in
    if xorb not found then Ok (Some (p, plen)) else Ok None
  else
    let escaped := (c =? BACKSLASH) && (plen >=? 2) in
    let p := if escaped then p + 1 else p in
    let plen := if escaped then plen - 1 else plen in
    let! c := get1 p pattern in
    let! chr := get1 sp string in
    if char_eq nocase c chr then Ok (Some (p, plen)) else Ok None.

(** The loop of the star: [call] matches the rest of the pattern.  The results are the
    returned value and [*skipLongerMatches]. *)
Fixpoint star_loop (fuel : nat) (call : Z -> Z -> bool -> res (bool * bool))
    (sp slen : Z) (skip : bool) : res (bool * bool) :=
  if slen =? 0 then Ok (false, true)
  else
    let! '(found, skip) := call sp slen skip in
    if found then Ok (true, skip)
    else if skip then Ok (false, skip)
    else
      match fuel with
      | O => Fault OutOfFuel
      | S fuel => star_loop fuel call (sp + 1) (slen - 1) skip
      end.

(** Protection against abusive patterns. *)
Definition guard_nesting (nesting : Z) (skip : bool) (k : res (bool * bool)) : res (bool * bool) :=
  if nesting >? 1000 then Ok (false, skip) else k.

(** while (patternLen && stringLen), and the return after it *)
Fixpoint match_loop (fuel : nat) (p plen sp slen : Z) (skip : bool) (nesting : Z)
    : res (bool * bool) :=
  if (plen =? 0) || (slen =? 0) then Ok ((plen =? 0) && (slen =? 0), skip)
  else
    match fuel with
    | O => Fault OutOfFuel
    | S fuel =>
        let! c := get1 p pattern in
        if c =? STAR then
          let! '(p, plen) := skip_stars (Z.to_nat plen) p plen in
          if plen =? 1 then Ok (true, skip)
          else
            star_loop (Z.to_nat slen)
              (fun sp slen skip =>
                 guard_nesting (nesting + 1) skip
                   (match_loop fuel (p + 1) (plen - 1) sp slen skip (nesting + 1)))
              sp slen skip
        else
          let! r := match_one p plen sp c in
          match r with
          | None => Ok (false, skip)
          | Some (p, plen) =>
              let sp := sp + 1 in
              let slen := slen - 1 in
              let p := p + 1 in
              let plen := plen - 1 in
              if slen =? 0 then
                let! plen := skip_trailing_stars (Z.to_nat plen) p plen in
                Ok (plen =? 0, skip)
              else match_loop fuel p plen sp slen skip nesting
          end
    end.

Definition stringmatchlen_impl (p plen sp slen : Z) (skip : bool) (nesting : Z)
    : res (bool * bool) :=
  guard_nesting nesting skip (match_loop (S (Z.to_nat plen)) p plen sp slen skip nesting).

End Match.

(** * The functions built on it *)

Definition stringmatchlen (pattern : list Z) (patternLen : Z) (string : list Z) (stringLen : Z)
    (nocase : bool) : res bool :=
  let! '(found, _) := stringmatchlen_impl pattern string nocase 0 patternLen 0 stringLen false 0 in
  Ok found.

(** The number of bytes before the first NUL. *)
Fixpoint strlen (mem : list Z) : res Z :=
  match mem with
  | [] => Fault OutOfBounds
  | c :: mem => if c =? 0 then Ok 0 else let! n := strlen mem in Ok (n + 1)
  end.

Definition stringmatch (pattern string : list Z) (nocase : bool) : res bool :=
  let! plen := strlen pattern in
  let! slen := strlen string in
  stringmatchlen pattern plen string slen nocase.

(** for (i = patternLen - 2; i >= 0; i--), counting backslashes *)
Fixpoint count_backslashes (fuel : nat) (pattern : list Z) (i count : Z) : res Z :=
  if i >=? 0 then
    let! c := get1 i pattern in
    if c =? BACKSLASH then
      match fuel with
      | O => Fault OutOfFuel
      | S fuel => count_backslashes fuel pattern (i - 1) (count + 1)
      end
    else Ok count
  else Ok count.

Definition prefixmatch (pattern : list Z) (patternLen : Z) (prefixStr : list Z)
    (prefixStrLen : Z) (nocase : bool) : res bool :=
  let! '(found, _) :=
    stringmatchlen_impl pattern prefixStr nocase 0 patternLen 0 prefixStrLen false 0 in
  if negb found then Ok false
  else if patternLen =? 0 then Ok false
  else
    let! c := get1 (patternLen - 1) pattern in
    if negb (c =? STAR) then Ok false
    else
      let! n := count_backslashes (Z.to_nat patternLen) pattern (patternLen - 2) 0 in
      Ok (n mod 2 =? 0).
