(* ===== verification/GlobSpec.v ===== *)
(** Glob patterns, the contract: stringmatchlen of src/redis-stable/src/util.c decides the
    language of the pattern, with its early exit from nested stars and its limit on their
    number; a pattern accepted by prefixmatch matches every continuation of the prefix. *)

From S2P Require Import Prelude Machine Glob.

(** * The meaning of a pattern *)

(** A member of a character class: an escaped character, a range, a character. *)
Inductive item : Set :=
| Exact (c : Z)
| Range (first last : Z)
| Char (c : Z).

Inductive tok : Set :=
| Star
| Any
| Class (neg : bool) (items : list item)
| Lit (c : Z).

(** The members of a class, and the pattern after it; a class that is not closed extends
    to the end of the pattern. *)
Fixpoint parse_class (l : list Z) : list item * list Z :=
  match l with
  | [] => ([], [])
  | c :: l1 =>
      let default := let '(its, r) := parse_class l1 in (Char c :: its, r) in
      if c =? BACKSLASH then
        match l1 with
        | d :: l2 => let '(its, r) := parse_class l2 in (Exact d :: its, r)
        | [] => default
        end
      else if c =? RBRACKET then ([], l1)
      else
        match l1 with
        | d :: e :: l3 =>
            if d =? DASH then let '(its, r) := parse_class l3 in (Range c e :: its, r) else default
        | _ => default
        end
  end.

(** The token that starts with [c], which is not a star, and the pattern after it. *)
Definition parse_one (c : Z) (l : list Z) : tok * list Z :=
  if c =? QUESTION then (Any, l)
  else if c =? LBRACKET then
    let '(neg, l) :=
      match l with
      | d :: l1 => if d =? CARET then (true, l1) else (false, l)
      | [] => (false, l)
      end in
    let '(its, r) := parse_class l in (Class neg its, r)
  else if c =? BACKSLASH then
    match l with d :: l1 => (Lit d, l1) | [] => (Lit c, l) end
  else (Lit c, l).

Fixpoint parse_go (fuel : nat) (l : list Z) : list tok :=
  match fuel, l with
  | S fuel, c :: l =>
      if c =? STAR then Star :: parse_go fuel l
      else let '(t, r) := parse_one c l in t :: parse_go fuel r
  | _, _ => []
  end.

(** The tokens of a pattern. *)
Definition parse (l : list Z) : list tok := parse_go (length l) l.

Definition item_match (nocase : bool) (chr : Z) (i : item) : bool :=
  match i with
  | Exact c => c =? chr
  | Range a b => range_match nocase a b chr
  | Char c => char_eq nocase c chr
  end.

(** The characters that a token other than a star matches. *)
Definition tok_match (nocase : bool) (t : tok) (chr : Z) : bool :=
  match t with
  | Star => false
  | Any => true
  | Class neg its => xorb neg (existsb (item_match nocase chr) its)
  | Lit c => char_eq nocase c chr
  end.

(** The language of a pattern. *)
Inductive glob (nocase : bool) : list tok -> list Z -> Prop :=
| glob_nil : glob nocase [] []
| glob_one t ts chr str :
    tok_match nocase t chr = true -> glob nocase ts str -> glob nocase (t :: ts) (chr :: str)
| glob_star ts str1 str2 : glob nocase ts str2 -> glob nocase (Star :: ts) (str1 ++ str2).

(** The number of runs of stars. *)
Fixpoint groups (ts : list tok) : Z :=
  match ts with
  | [] => 0
  | Star :: ts => (match ts with Star :: _ => 0 | _ => 1 end) + groups ts
  | _ :: ts => groups ts
  end.

(** * Tokens *)

(** The cases of [parse_class], in the order of the conditions of the C loop. *)
Inductive class_of : list Z -> list item -> list Z -> Prop :=
| class_end : class_of [] [] []
| class_close l : class_of (RBRACKET :: l) [] l
| class_escape c l its r : class_of l its r -> class_of (BACKSLASH :: c :: l) (Exact c :: its) r
| class_range a b l its r :
    a <> BACKSLASH -> a <> RBRACKET -> class_of l its r ->
    class_of (a :: DASH :: b :: l) (Range a b :: its) r
| class_char c l its r :
    (c = BACKSLASH -> l = []) -> c <> RBRACKET ->
    (forall b l', l <> DASH :: b :: l') -> class_of l its r ->
    class_of (c :: l) (Char c :: its) r.

Lemma parse_class_of l : class_of l (parse_class l).1 (parse_class l).2.
Proof.
  induction l as [l IH] using (induction_ltof1 _ (@length Z)); unfold ltof in IH.
  assert (Hd : forall c l1, l = c :: l1 -> class_of l1 (parse_class l1).1 (parse_class l1).2)
    by (intros c l1 ->; apply IH; simpl; lia).
  destruct l as [|c l1]; [constructor|].
  specialize (Hd c l1 eq_refl). simpl.
  destruct (Z.eqb_spec c BACKSLASH) as [->|Hb].
  { destruct l1 as [|d l2]; [repeat constructor; done|].
    specialize (IH l2 ltac:(simpl; lia)). destruct (parse_class l2). by constructor. }
  destruct (Z.eqb_spec c RBRACKET) as [->|Hr]; [constructor|].
  destruct l1 as [|d [|e l3]]; [repeat constructor; done|destruct (parse_class [d]); by constructor|].
  destruct (Z.eqb_spec d DASH) as [->|Hn].
  - specialize (IH l3 ltac:(simpl; lia)). destruct (parse_class l3). by constructor.
  - destruct (parse_class (d :: e :: l3)). constructor; try done. congruence.
Qed.

Lemma class_of_rest l its r : class_of l its r -> r = [] \/ exists pre, l = pre ++ RBRACKET :: r.
Proof.
  induction 1 as [|l|c l its r _ IH|a b l its r _ _ _ IH|c l its r _ _ _ _ IH]; auto;
    [right; by exists []|..];
    (destruct IH as [->|[pre ->]]; [by left|right]).
  - by exists (BACKSLASH :: c :: pre).
  - by exists (a :: DASH :: b :: pre).
  - by exists (c :: pre).
Qed.

Lemma class_of_length l its r : class_of l its r -> (length r <= length l)%nat.
Proof. induction 1; simpl; lia. Qed.

(** The token of a class. *)
Definition caret (l : list Z) : bool := match l with d :: _ => d =? CARET | [] => false end.
Definition class_body (l : list Z) : list Z := if caret l then tail l else l.

Lemma parse_one_class l :
  parse_one LBRACKET l =
  (Class (caret l) (parse_class (class_body l)).1, (parse_class (class_body l)).2).
Proof.
  unfold parse_one, class_body, caret. simpl.
  destruct l as [|d l1]; [done|]. destruct (d =? CARET); by destruct (parse_class _).
Qed.

Lemma parse_one_length c l : (length (parse_one c l).2 <= length l)%nat.
Proof.
  destruct (Z.eqb_spec c LBRACKET) as [->|Hc].
  - rewrite parse_one_class. simpl. pose proof (class_of_length _ _ _ (parse_class_of (class_body l))).
    unfold class_body, caret in *. destruct l as [|d l]; simpl in *; [lia|].
    destruct (d =? CARET); simpl in *; lia.
  - unfold parse_one. destruct (Z.eqb_spec c LBRACKET); [done|].
    repeat case_match; simplify_eq/=; lia.
Qed.

Lemma parse_go_enough n m l :
  (length l <= n)%nat -> (length l <= m)%nat -> parse_go n l = parse_go m l.
Proof.
  revert m l. induction n as [|n IH]; intros [|m] [|c l] Hn Hm; simpl in *; try done; try lia.
  case_match; [f_equal; apply IH; lia|].
  pose proof (parse_one_length c l). destruct (parse_one c l) as [t r]. simpl in *.
  f_equal. apply IH; lia.
Qed.

Lemma parse_star l : parse (STAR :: l) = Star :: parse l.
Proof. done. Qed.

Lemma parse_cons c l :
  c <> STAR -> parse (c :: l) = (parse_one c l).1 :: parse (parse_one c l).2.
Proof.
  intros Hc. unfold parse. simpl. destruct (Z.eqb_spec c STAR); [done|].
  pose proof (parse_one_length c l). destruct (parse_one c l) as [t r]. simpl in *.
  f_equal. apply parse_go_enough; lia.
Qed.

Lemma parse_one_not_star c l : (parse_one c l).1 <> Star.
Proof.
  destruct (Z.eqb_spec c LBRACKET) as [->|Hc]; [by rewrite parse_one_class|].
  unfold parse_one. destruct (Z.eqb_spec c LBRACKET); [done|]. by repeat case_match.
Qed.

(** The pattern without its leading stars. *)
Fixpoint strip (l : list Z) : list Z :=
  match l with c :: l1 => if c =? STAR then strip l1 else l | [] => [] end.

Lemma strip_length l : (length (strip l) <= length l)%nat.
Proof. induction l as [|c l IH]; simpl; [done|]. case_match; simpl; lia. Qed.

Lemma strip_head l c l1 : strip l = c :: l1 -> c <> STAR.
Proof.
  induction l as [|d l IH]; simpl; [done|]. destruct (Z.eqb_spec d STAR); [done|congruence].
Qed.

Lemma parse_strip l c l1 :
  strip l = c :: l1 -> exists t, t <> Star /\ parse (strip l) = t :: parse (parse_one c l1).2.
Proof.
  intros Hs. exists (parse_one c l1).1. split; [apply parse_one_not_star|].
  rewrite Hs. apply parse_cons. by eapply strip_head.
Qed.

(** * The language *)

Lemma suffix_cons_cases {A} (k : list A) x l :
  k `suffix_of` x :: l -> k = x :: l \/ k `suffix_of` l.
Proof. intros [[|y pre] H]; simpl in H; [by left|right]. injection H as _ ->. by exists pre. Qed.

Section Language.
Context {nocase : bool}.
Local Abbreviation glob := (glob nocase).

Lemma glob_star_iff ts str :
  glob (Star :: ts) str <-> exists k, k `suffix_of` str /\ glob ts k.
Proof.
  split.
  - inversion 1 as [|? ? ? ? Hm|? str1 str2 Hg]; subst; [done|]. exists str2. split; [by exists str1|done].
  - intros (k & [pre ->] & Hk). by constructor.
Qed.

Lemma glob_one_iff t ts chr str :
  t <> Star -> glob (t :: ts) (chr :: str) <-> tok_match nocase t chr = true /\ glob ts str.
Proof.
  intros Ht. split; [by inversion 1; subst|]. intros []. by constructor.
Qed.

Lemma glob_one_empty t ts : t <> Star -> ~ glob (t :: ts) [].
Proof. intros Ht. by inversion 1; subst. Qed.

Lemma glob_star_star ts str : glob (Star :: Star :: ts) str <-> glob (Star :: ts) str.
Proof.
  rewrite glob_star_iff. setoid_rewrite glob_star_iff. split.
  - intros (k & Hk & k' & Hk' & Hg). exists k'. split; [by etrans|done].
  - intros (k & Hk & Hg). exists k. split; [done|]. by exists k.
Qed.

Lemma glob_strip l str : glob (Star :: parse l) str <-> glob (Star :: parse (strip l)) str.
Proof.
  induction l as [|c l IH]; simpl; [done|].
  destruct (Z.eqb_spec c STAR) as [->|]; [|done]. by rewrite parse_star, glob_star_star.
Qed.

Lemma glob_stars l str : strip l = [] -> glob (Star :: parse l) str.
Proof.
  intros Hl. apply glob_strip. rewrite Hl, <-(app_nil_r str). constructor. constructor.
Qed.

Lemma glob_nullable l : glob (parse l) [] <-> strip l = [].
Proof.
  destruct l as [|c l]; [split; [done|constructor]|]. simpl.
  destruct (Z.eqb_spec c STAR) as [->|Hc].
  - rewrite parse_star. split; [|apply glob_stars]. rewrite glob_strip, glob_star_iff.
    intros (k & Hk%suffix_nil_inv & Hg). subst k. destruct (strip l) as [|d l1] eqn:Hs; [done|].
    destruct (parse_strip _ _ _ Hs) as (t & Ht & Hp). rewrite Hs in Hp. rewrite Hp in Hg.
    by apply glob_one_empty in Hg.
  - rewrite parse_cons by done. split; [|done].
    intros Hg. by apply glob_one_empty in Hg; [|apply parse_one_not_star].
Qed.

Lemma glob_app_star ts str more :
  list.last ts = Some Star -> glob ts str -> glob ts (str ++ more).
Proof.
  intros Hl Hg. induction Hg as [|t ts chr str Ht Hg IH|ts str1 str2 Hg IH]; [done|..].
  - destruct ts as [|t' ts]; [simpl in Hl; simplify_eq/=|]. constructor; [done|]. by apply IH.
  - rewrite <-app_assoc. destruct ts as [|t' ts].
    + inversion Hg; subst. rewrite app_nil_l, <-(app_nil_r (str1 ++ more)). constructor. constructor.
    + constructor. by apply IH.
Qed.

End Language.

Lemma groups_strip l : groups (Star :: parse l) = 1 + groups (parse (strip l)).
Proof.
  induction l as [|c l IH]; simpl strip; [done|]. destruct (Z.eqb_spec c STAR) as [->|Hc].
  - rewrite parse_star. by rewrite <-IH.
  - rewrite parse_cons by done. pose proof (parse_one_not_star c l).
    by destruct (parse_one c l).1.
Qed.

Lemma groups_nonneg ts : 0 <= groups ts.
Proof. induction ts as [|[] ts IH]; simpl; try lia. destruct ts as [|[]]; lia. Qed.

(** * The loops *)

Section Loops.
Variables pattern string : list Z.
Variable nocase : bool.
(** the byte after the pattern, and the memory after it *)
Variables (final : Z) (post : list Z).
Hypothesis final_not_star : final <> STAR.

(** [p] points to [l], the rest of the pattern; [sp] to a part [str] of the string. *)
Definition pat_at (p : Z) (l : list Z) : Prop :=
  exists pre, pattern = pre ++ l ++ final :: post /\ p = zlength pre.
Definition str_at (sp : Z) (str : list Z) : Prop :=
  exists pre rest, string = pre ++ str ++ rest /\ sp = zlength pre.

Lemma pat_get p c l : pat_at p (c :: l) -> get1 p pattern = Ok c.
Proof. intros (pre & -> & ->). by apply get1_app. Qed.

Lemma pat_get_end p : pat_at p [] -> get1 p pattern = Ok final.
Proof. intros (pre & -> & ->). by apply get1_app. Qed.

Lemma pat_next p c l : pat_at p (c :: l) -> pat_at (p + 1) l.
Proof. intros (pre & -> & ->). exists (pre ++ [c]). split; [by rewrite <-app_assoc|len]. Qed.

Lemma str_get sp chr str : str_at sp (chr :: str) -> get1 sp string = Ok chr.
Proof. intros (pre & rest & -> & ->). by apply get1_app. Qed.

Lemma str_next sp chr str : str_at sp (chr :: str) -> str_at (sp + 1) str.
Proof.
  intros (pre & rest & -> & ->). exists (pre ++ [chr]), rest. split; [by rewrite <-app_assoc|len].
Qed.

Lemma skip_stars_spec fuel p l :
  (length l <= fuel)%nat -> pat_at (p + 1) l ->
  exists p', skip_stars pattern fuel p (zlength l + 1) = Ok (p', zlength (strip l) + 1) /\
             pat_at (p' + 1) (strip l).
Proof.
  revert p l. induction fuel as [|fuel IH]; intros p [|c l] Hf Hl; simpl in Hf; try lia.
  all: simpl.
  1,2: rewrite (pat_get_end _ Hl); destruct (Z.eqb_spec final STAR); [done|eauto].
  rewrite (pat_get _ _ _ Hl). destruct (Z.eqb_spec c STAR) as [->|]; [|eauto].
  destruct (IH (p + 1) l ltac:(lia) ltac:(by eapply pat_next)) as (p' & He & Hp').
  exists p'. split; [|done]. rewrite <-He. f_equal. lia.
Qed.

Lemma skip_trailing_stars_spec fuel p l :
  (length l <= fuel)%nat -> pat_at p l ->
  skip_trailing_stars pattern fuel p (zlength l) = Ok (zlength (strip l)).
Proof.
  revert p l. induction fuel as [|fuel IH]; intros p [|c l] Hf Hl; simpl in Hf; try lia; try done.
  simpl. rewrite (pat_get _ _ _ Hl). destruct (Z.eqb_spec c STAR) as [->|]; [|done].
  rewrite <-(IH (p + 1) l ltac:(lia) ltac:(by eapply pat_next)). f_equal. lia.
Qed.

(** Reads of the pattern at a known position, tests of its length. *)
Lemma and_at_true i c d l :
  pat_at i (c :: l) -> and_at pattern true i d = Ok (c =? d).
Proof. intros H. unfold and_at. by rewrite (pat_get _ _ _ H). Qed.

Lemma class_loop_spec sp chr str l its r :
  str_at sp (chr :: str) -> class_of l its r -> forall fuel p found,
  (length l < fuel)%nat -> pat_at p l ->
  exists p', class_loop pattern string nocase fuel p (zlength l) sp found =
             Ok (p', zlength r + 1, found || existsb (item_match nocase chr) its) /\
             pat_at (p' + 1) r.
Proof.
  intros Hs. pose proof (str_get _ _ _ Hs) as Hg.
  induction 1 as [|l|c l its r _ IH|a b l its r Hb Hr _ IH|c l its r Hb Hr Hd _ IH];
    intros [|fuel] p found Hf Hp; try (simpl in Hf; lia).
  - exists (p - 1). rewrite orb_false_r. split; [done|]. by replace (p - 1 + 1) with p by lia.
  - exists p. rewrite orb_false_r. split; [|by eapply pat_next].
    cbn [class_loop]. assert (and_at pattern (zlength (RBRACKET :: l) >=? 2) p BACKSLASH = Ok false) as ->.
    { unfold and_at. case_match; [|done]. by rewrite (pat_get _ _ _ Hp). }
    cbn [length]. zif. rewrite (pat_get _ _ _ Hp). cbn -[Z.of_nat]. do 3 f_equal. lia.
  - pose proof (pat_next _ _ _ Hp) as Hp1. pose proof (pat_next _ _ _ Hp1) as Hp2.
    destruct (IH fuel (p + 1 + 1) (found || (c =? chr)) ltac:(simpl in Hf; lia) Hp2) as (p' & He & Hp').
    exists p'. split; [|done]. cbn [class_loop length]. zif. rewrite (and_at_true _ _ _ _ Hp), Z.eqb_refl.
    rewrite (pat_get _ _ _ Hp1), Hg. cbn [existsb item_match]. rewrite orb_assoc, <-He. f_equal. len.
  - pose proof (pat_next _ _ _ Hp) as Hp1. pose proof (pat_next _ _ _ Hp1) as Hp2.
    pose proof (pat_next _ _ _ Hp2) as Hp3.
    destruct (IH fuel (p + 1 + 1 + 1) (found || range_match nocase a b chr) ltac:(simpl in Hf; lia) Hp3)
      as (p' & He & Hp').
    exists p'. split; [|done]. cbn [class_loop length]. zif. rewrite (and_at_true _ _ _ _ Hp).
    destruct (Z.eqb_spec a BACKSLASH); [done|]. zif. rewrite (pat_get _ _ _ Hp).
    destruct (Z.eqb_spec a RBRACKET); [done|]. zif. rewrite (and_at_true _ _ _ _ Hp1), Z.eqb_refl, Hg.
    replace (p + 2) with (p + 1 + 1) by lia. rewrite (pat_get _ _ _ Hp2).
    cbn [existsb item_match]. rewrite orb_assoc, <-He. f_equal. len.
  - pose proof (pat_next _ _ _ Hp) as Hp1.
    destruct (IH fuel (p + 1) (found || char_eq nocase c chr) ltac:(simpl in Hf; lia) Hp1)
      as (p' & He & Hp').
    exists p'. split; [|done]. cbn [class_loop].
    assert (and_at pattern (zlength (c :: l) >=? 2) p BACKSLASH = Ok false) as ->.
    { unfold and_at. case_match; [|done]. rewrite (pat_get _ _ _ Hp).
      destruct (Z.eqb_spec c BACKSLASH) as [Hc|]; [|done]. rewrite (Hb Hc) in *. done. }
    cbn [length]. zif. rewrite (pat_get _ _ _ Hp). destruct (Z.eqb_spec c RBRACKET); [done|].
    assert (and_at pattern (3 <=? Z.of_nat (S (length l))) (p + 1) DASH = Ok false) as ->.
    { unfold and_at. case_match; [|done]. destruct l as [|d [|e l]]; [done..|].
      rewrite (pat_get _ _ _ Hp1). destruct (Z.eqb_spec d DASH) as [->|]; [|done]. by edestruct Hd. }
    rewrite Hg. cbn [existsb item_match]. rewrite orb_assoc, <-He. f_equal. len.
Qed.

Lemma match_one_spec p c l sp chr str :
  c <> STAR -> pat_at p (c :: l) -> str_at sp (chr :: str) ->
  exists p', match_one pattern string nocase p (zlength l + 1) sp c =
    Ok (if tok_match nocase (parse_one c l).1 chr
        then Some (p', zlength (parse_one c l).2 + 1) else None) /\
    pat_at (p' + 1) (parse_one c l).2.
Proof.
  intros Hc Hp Hs. pose proof (pat_next _ _ _ Hp) as Hp1. unfold match_one.
  destruct (Z.eqb_spec c LBRACKET) as [->|Hl].
  - rewrite parse_one_class. cbn -[class_loop Z.of_nat].
    replace (zlength l + 1 - 1) with (zlength l) by lia.
    assert (and_at pattern (negb (zlength l =? 0)) (p + 1) CARET = Ok (caret l)) as ->.
    { destruct l as [|d l]; [done|]. simpl. by eapply and_at_true. }
    assert (pat_at (if caret l then p + 1 + 1 else p + 1) (class_body l)) as Hb.
    { unfold class_body. destruct l as [|d l]; [done|]. destruct (caret (d :: l)); [|done].
      by eapply pat_next. }
    assert ((if caret l then zlength l - 1 else zlength l) = zlength (class_body l)) as ->.
    { unfold class_body. destruct l as [|d l]; [done|]. destruct (caret (d :: l)); [|done]. simpl. lia. }
    destruct (class_loop_spec _ _ _ _ _ _ Hs (parse_class_of (class_body l))
      (S (Z.to_nat (zlength (class_body l)))) _ false ltac:(lia) Hb) as (p' & -> & Hp').
    exists p'. split; [|done]. simpl orb. by destruct (xorb _ _).
  - unfold parse_one. destruct (Z.eqb_spec c LBRACKET); [done|].
    destruct (Z.eqb_spec c QUESTION) as [->|Hq]; [by exists p|].
    rewrite (str_get _ _ _ Hs). destruct (Z.eqb_spec c BACKSLASH) as [->|Hb].
    + destruct l as [|d l]; simpl andb.
      * change (Z.of_nat 0 + 1 >=? 2) with false. cbn iota.
        rewrite (pat_get _ _ _ Hp). exists p. split; [|done]. simpl. by case_match.
      * zif. rewrite (pat_get _ _ _ Hp1). exists (p + 1). split; [|by eapply pat_next].
        simpl tok_match. case_match; [|done]. do 3 f_equal. simpl. lia.
    + cbn [andb]. rewrite (pat_get _ _ _ Hp). exists p. split; [|done]. simpl. by case_match.
Qed.

(** What the two results say: the answer is right unless there are too many stars, and
    once [*skipLongerMatches] is set, no later start of the string matches either. *)
Definition verdict (ts : list tok) (str : list Z) (nesting : Z) (r : bool * bool) : Prop :=
  (r.1 = true -> glob nocase ts str) /\
  (nesting + groups ts <= 1000 -> r.1 = false -> str <> [] -> ~ glob nocase ts str) /\
  (r.2 = true -> r.1 = false /\
     (nesting + groups ts <= 1000 -> forall k, k `suffix_of` str -> ~ glob nocase ts k)).

Lemma star_loop_spec ts nesting call :
  ~ glob nocase ts [] ->
  (forall sp str, str_at sp str -> exists r, call sp (zlength str) false = Ok r /\ verdict ts str nesting r) ->
  forall fuel sp str, (length str <= fuel)%nat -> str_at sp str ->
  exists r, star_loop fuel call sp (zlength str) false = Ok r /\
    (r.1 = true -> r.2 = false /\ glob nocase (Star :: ts) str) /\
    (r.1 = false -> r.2 = true /\
       (nesting + groups ts <= 1000 -> forall k, k `suffix_of` str -> ~ glob nocase ts k)).
Proof.
  intros Hnull Hcall. induction fuel as [|fuel IH]; intros sp str Hf Hs.
  all: destruct str as [|chr str]; [|simpl in Hf; try lia].
  1,2: exists (false, true); split_and!; try done; intros _; split; [done|];
    intros _ k ->%suffix_nil_inv; done.
  destruct (Hcall sp (chr :: str) Hs) as ([found skip] & Hc & Hsound & Hcomplete & Hskip).
  cbn [star_loop]. cbn [length]. zif. cbn [length] in Hc. rewrite Hc. simpl in Hsound, Hcomplete, Hskip.
  destruct found.
  { exists (true, skip). split_and!; try done. intros _. simpl. split.
    - destruct skip; [by destruct Hskip|done].
    - apply glob_star_iff. exists (chr :: str). auto. }
  destruct skip.
  { exists (false, true). split_and!; try done. intros _. split; [done|]. by apply Hskip. }
  destruct (IH (sp + 1) str ltac:(lia) ltac:(by eapply str_next)) as (r & Hr & Ht & Hfalse).
  exists r. split_and!.
  - rewrite <-Hr. f_equal. lia.
  - intros H1. destruct (Ht H1) as [H2 (k & Hk & Hg)%glob_star_iff]. split; [done|].
    apply glob_star_iff. exists k. split; [by apply suffix_cons_r|done].
  - intros H1. destruct (Hfalse H1) as [H2 H3]. split; [done|]. intros Hn k [->|Hk]%suffix_cons_cases.
    + by apply Hcomplete.
    + by apply H3.
Qed.

Lemma match_loop_spec fuel : forall p l sp str nesting,
  (length l < fuel)%nat -> pat_at p l -> str_at sp str ->
  exists r, match_loop pattern string nocase fuel p (zlength l) sp (zlength str) false nesting = Ok r /\
            verdict (parse l) str nesting r.
Proof.
  induction fuel as [|fuel IH]; intros p l sp str nesting Hf Hp Hs; [lia|].
  destruct l as [|c l].
  { exists (zlength str =? 0, false). split; [done|]. unfold verdict. simpl. split_and!; try done.
    - destruct str; [constructor|done].
    - destruct str; [done|]. inversion 4. }
  destruct str as [|chr str].
  { exists (false, false). split; [|by unfold verdict]. cbn [match_loop length]. by zif. }
  pose proof (pat_next _ _ _ Hp) as Hp1. simpl in Hf.
  cbn [match_loop length]. do 2 zif. cbn [orb]. rewrite (pat_get _ _ _ Hp).
  destruct (Z.eqb_spec c STAR) as [->|Hc].
  - replace (Z.of_nat (S (length l))) with (zlength l + 1) by lia.
    destruct (skip_stars_spec (Z.to_nat (zlength l + 1)) p l ltac:(lia) Hp1) as (p' & -> & Hp').
    rewrite parse_star. destruct (strip l) as [|d l1] eqn:Hl.
    { exists (true, false). split; [done|]. split_and!; try done. intros _. by apply glob_stars. }
    cbn [length]. zif. rewrite <-Hl in Hp'.
    destruct (star_loop_spec (parse (strip l)) (nesting + 1)
      (fun sp slen skip => guard_nesting (nesting + 1) skip
         (match_loop pattern string nocase fuel (p' + 1) (zlength (strip l)) sp slen skip (nesting + 1))))
      with (fuel := Z.to_nat (Z.of_nat (S (length str)))) (sp := sp) (str := chr :: str)
      as (r & Hr & Ht & Hfalse).
    + intros Hg. apply glob_nullable in Hg. rewrite Hl in Hg. simpl in Hg.
      apply strip_head in Hl as Hd. by destruct (Z.eqb_spec d STAR).
    + intros sp' str' Hs'. unfold guard_nesting. destruct (Z.gtb_spec (nesting + 1) 1000).
      * exists (false, false). split; [done|]. pose proof (groups_nonneg (parse (strip l))).
        split_and!; simpl; try done. lia.
      * apply IH; [|done..]. pose proof (strip_length l). lia.
    + simpl. lia.
    + done.
    + exists r. split.
      * rewrite <-Hr. f_equal. rewrite Hl. cbn [length].
        replace (Z.of_nat (S (length l1)) + 1 - 1) with (Z.of_nat (S (length l1))) by lia. done.
      * unfold verdict. rewrite groups_strip. destruct r as [[|] skip]; simpl in *.
        -- destruct (Ht eq_refl) as [-> Hg]. split_and!; try done. intros _. by apply glob_strip.
        -- destruct (Hfalse eq_refl) as [-> Hno].
           assert (Hall : nesting + (1 + groups (parse (strip l))) <= 1000 ->
             forall k, k `suffix_of` chr :: str -> ~ glob nocase (Star :: parse l) k).
           { intros Hn k Hk (k' & Hk' & Hg)%glob_strip%glob_star_iff.
             apply (Hno ltac:(lia) k'); [by etrans|done]. }
           split_and!; try done. intros Hn _ _. by apply Hall.
  - replace (Z.of_nat (S (length l))) with (zlength l + 1) by lia.
    destruct (match_one_spec _ _ _ _ _ _ Hc Hp Hs) as (p' & -> & Hp').
    rewrite parse_cons by done. pose proof (parse_one_not_star c l) as Hns.
    pose proof (parse_one_length c l) as Hlen.
    destruct (parse_one c l) as [t l']; simpl in Hp', Hlen, Hns |- *.
    destruct (tok_match nocase t chr) eqn:Ht.
    2: { exists (false, false). split; [done|]. split_and!; simpl; try done.
         intros _ _ _ [Hm _]%glob_one_iff; congruence. }
    replace (Z.of_nat (S (length str)) - 1) with (zlength str) by lia.
    replace (zlength l' + 1 - 1) with (zlength l') by lia.
    pose proof (str_next _ _ _ Hs) as Hs1.
    destruct str as [|chr' str].
    { rewrite (skip_trailing_stars_spec (Z.to_nat (zlength l')) (p' + 1) l' ltac:(lia) Hp'). simpl.
      exists (zlength (strip l') =? 0, false). split; [done|]. unfold verdict. simpl. split_and!; try done.
      - intros Hz. constructor; [done|]. apply glob_nullable. by destruct (strip l').
      - intros _ Hz _ [_ Hg%glob_nullable]%glob_one_iff; [|done]. by rewrite Hg in Hz. }
    cbn [length]. zif.
    destruct (IH (p' + 1) l' (sp + 1) (chr' :: str) nesting ltac:(lia) Hp' Hs1)
      as (r & Hr & Hsound & Hcomplete & Hskip).
    exists r. split; [exact Hr|]. unfold verdict.
    replace (groups (t :: parse l')) with (groups (parse l')) by by destruct t.
    split_and!.
    + intros Hr1. constructor; auto.
    + intros Hn Hr1 _ [_ Hg]%glob_one_iff; [|done]. by apply Hcomplete.
    + intros Hr2. destruct (Hskip Hr2) as [Hr1 Hno]. split; [done|].
      intros Hn [|k0 k] Hk Hg; [by apply glob_one_empty in Hg|].
      apply glob_one_iff in Hg as [_ Hg]; [|done]. eapply Hno; [done| |done].
      apply suffix_cons_cases in Hk as [?|Hk]; simplify_eq/=; [done|].
      by eapply suffix_cons_l.
Qed.

End Loops.

(** * Escaped stars *)

(** The number of backslashes a list starts with; a pattern is looked at from its end. *)
Fixpoint leading (l : list Z) : Z :=
  match l with c :: l => if c =? BACKSLASH then leading l + 1 else 0 | [] => 0 end.

(** The last byte of the pattern is a star after an even number of backslashes. *)
Definition final_star (l : list Z) : Prop :=
  exists l', l = l' ++ [STAR] /\ leading (rev l') mod 2 = 0.

Lemma leading_stop x c y : c <> BACKSLASH -> leading (x ++ c :: y) = leading x.
Proof.
  intros Hc. induction x as [|d x IH]; simpl; [by destruct (Z.eqb_spec c BACKSLASH)|].
  case_match; by rewrite ?IH.
Qed.

Lemma leading_two x : leading (x ++ [BACKSLASH; BACKSLASH]) mod 2 = leading x mod 2.
Proof.
  assert (leading (x ++ [BACKSLASH; BACKSLASH]) = leading x \/
          leading (x ++ [BACKSLASH; BACKSLASH]) = leading x + 2) as [->| ->].
  - induction x as [|d x IH]; simpl; [by right|]. case_match; lia.
  - done.
  - apply (Z.mod_add _ 1 2). done.
Qed.

(** The final star of a suffix is the final star of the list. *)
Lemma final_star_suffix c x l :
  c <> BACKSLASH -> l <> [] -> final_star (x ++ c :: l) -> final_star l.
Proof.
  intros Hc Hl (l' & He & Hm). destruct (exists_last Hl) as (l1 & d & ->).
  exists l1. assert (x ++ c :: l1 = l' /\ d = STAR) as [<- ->].
  { apply (app_inj_tail (x ++ c :: l1) l'). by rewrite <-app_assoc. }
  split; [done|]. rewrite rev_app_distr in Hm. simpl in Hm.
  rewrite <-app_assoc in Hm. simpl in Hm. by rewrite leading_stop in Hm.
Qed.

Lemma final_star_escape c l : l <> [] -> final_star (BACKSLASH :: c :: l) -> final_star l.
Proof.
  intros Hl Hf. destruct (Z.eqb_spec c BACKSLASH) as [->|Hc].
  - destruct Hf as (l' & He & Hm). destruct (exists_last Hl) as (l1 & d & ->).
    exists l1. assert (BACKSLASH :: BACKSLASH :: l1 = l' /\ d = STAR) as [<- ->].
    { apply (app_inj_tail (BACKSLASH :: BACKSLASH :: l1) l'). done. }
    split; [done|]. simpl in Hm. rewrite <-app_assoc in Hm. simpl in Hm. by rewrite leading_two in Hm.
  - by apply (final_star_suffix c [BACKSLASH]).
Qed.

Definition is_class (t : tok) : bool := match t with Class _ _ => true | _ => false end.

(** Such a star is a token of the pattern, unless the pattern ends within a class. *)
Lemma final_star_token l :
  final_star l -> exists t, list.last (parse l) = Some t /\ (t = Star \/ is_class t = true).
Proof.
  induction l as [l IH] using (induction_ltof1 _ (@length Z)); unfold ltof in IH. intros Hf.
  assert (Hstep : forall t r, parse l = t :: parse r -> (length r < length l)%nat ->
    (r <> [] -> final_star r) -> (r = [] -> t = Star \/ is_class t = true) ->
    exists t, list.last (parse l) = Some t /\ (t = Star \/ is_class t = true)).
  { intros t r Hp Hlen Hr Ht. rewrite Hp, last_cons. destruct r as [|c r]; [by exists t; auto|].
    destruct (IH (c :: r) Hlen (Hr ltac:(done))) as (t' & -> & Ht'). by exists t'. }
  destruct l as [|c l]; [destruct Hf as ([|? ?] & ? & _); done|].
  destruct (Z.eqb_spec c STAR) as [->|Hc].
  { apply (Hstep Star l); [done|simpl; lia| |by left].
    intros Hr. by apply (final_star_suffix STAR []). }
  assert (Hl : l <> []).
  { intros ->. destruct Hf as ([|? [|]] & He & _); simplify_eq/=. }
  pose proof (parse_one_length c l) as Hlen.
  apply (Hstep (parse_one c l).1 (parse_one c l).2); [by apply parse_cons|simpl; lia|..].
  all: destruct (Z.eqb_spec c LBRACKET) as [->|Hb]; [rewrite parse_one_class; simpl|].
  - intros Hr. destruct (class_of_rest _ _ _ (parse_class_of (class_body l))) as [|[pre Hpre]]; [done|].
    revert Hpre Hr Hf. generalize (parse_class (class_body l)).2 as r. intros r Hpre Hr Hf.
    assert (exists x, LBRACKET :: l = x ++ RBRACKET :: r) as [x Hx].
    { unfold class_body in Hpre. destruct l as [|d l]; [done|].
      destruct (caret (d :: l)); simpl in Hpre; rewrite Hpre; [by exists (LBRACKET :: d :: pre)|].
      by exists (LBRACKET :: pre). }
    rewrite Hx in Hf. by apply (final_star_suffix RBRACKET x).
  - unfold parse_one. destruct (Z.eqb_spec c LBRACKET); [done|].
    destruct (c =? QUESTION) eqn:Hq; [intros _; apply (final_star_suffix c []); [|done..]; intros ->; done|].
    destruct (Z.eqb_spec c BACKSLASH) as [->|Hbs].
    + destruct l as [|d l]; [done|]. intros Hr. by apply (final_star_escape d).
    + intros _. by apply (final_star_suffix c []).
  - by right.
  - unfold parse_one. destruct (Z.eqb_spec c LBRACKET); [done|].
    destruct (c =? QUESTION); [done|].
    destruct (Z.eqb_spec c BACKSLASH) as [->|Hbs]; [|done].
    destruct l as [|d l]; [done|]. simpl. intros ->.
    destruct Hf as ([|? [|? [|]]] & He & Hm); by simplify_eq/=.
Qed.

Lemma count_backslashes_spec fuel l more count :
  (length l <= fuel)%nat ->
  count_backslashes fuel (l ++ more) (zlength l - 1) count = Ok (count + leading (rev l)).
Proof.
  revert l more count. induction fuel as [|fuel IH]; intros l more count Hf.
  all: destruct l as [|c l _] using rev_ind; [simpl; f_equal; lia|rewrite length_app in *; simpl in Hf; try lia].
  simpl. zif. rewrite <-app_assoc. simpl. rewrite get1_app by lia.
  rewrite rev_app_distr. simpl. destruct (c =? BACKSLASH); [|f_equal; lia].
  replace (Z.of_nat (length l + 1) - 1 - 1) with (zlength l - 1) by lia.
  rewrite IH by lia. f_equal. lia.
Qed.

(** * The contract *)

Lemma stringmatchlen_impl_contract l final post str rest nocase :
  final <> STAR ->
  exists r, stringmatchlen_impl (l ++ final :: post) (str ++ rest) nocase
              0 (zlength l) 0 (zlength str) false 0 = Ok r /\
            verdict nocase (parse l) str 0 r.
Proof.
  intros Hfinal. unfold stringmatchlen_impl, guard_nesting. cbn [Z.gtb Z.compare].
  apply (match_loop_spec _ _ _ final post Hfinal); [lia|by exists []|by exists [], rest].
Qed.

(** The empty string is matched by the empty pattern only. *)
Lemma match_empty_string l final post rest nocase :
  stringmatchlen (l ++ final :: post) (zlength l) rest 0 nocase = Ok (bool_decide (l = [])).
Proof.
  unfold stringmatchlen, stringmatchlen_impl, guard_nesting. cbn [match_loop].
  rewrite Z.eqb_refl, orb_true_r. destruct l as [|c l]; [done|]. simpl. done.
Qed.

Lemma strlen_spec l post : Forall (fun c => c <> 0) l -> strlen (l ++ 0 :: post) = Ok (zlength l).
Proof.
  induction 1 as [|c l Hc _ IH]; simpl; [done|].
  destruct (Z.eqb_spec c 0); [done|]. rewrite IH. f_equal. lia.
Qed.

(** C17: stringmatchlen always returns.  A match it reports is a match of the pattern, and on
    a non-empty string every match is reported when the pattern has at most 1000 runs of
    stars, although the search skips longer matches; the empty string is matched by the
    empty pattern only.  The byte after the pattern must not be a star, which holds for the
    NUL of a C string. *)
Theorem stringmatchlen_correct l final post str rest nocase :
  final <> STAR ->
  exists b, stringmatchlen (l ++ final :: post) (zlength l) (str ++ rest) (zlength str) nocase = Ok b /\
    (b = true -> glob nocase (parse l) str) /\
    (groups (parse l) <= 1000 -> str <> [] -> glob nocase (parse l) str -> b = true) /\
    (str = [] -> b = bool_decide (l = [])).
Proof.
  intros Hf. destruct (stringmatchlen_impl_contract l final post str rest nocase Hf)
    as ([b skip] & He & Hsound & Hcomplete & _).
  exists b. split_and!.
  - unfold stringmatchlen. by rewrite He.
  - done.
  - intros Hn Hs Hg. destruct b; [done|]. by destruct (Hcomplete Hn eq_refl Hs).
  - intros ->. pose proof (match_empty_string l final post rest nocase) as Hm.
    unfold stringmatchlen in Hm. rewrite app_nil_l in He. change (zlength []) with 0 in He. rewrite He in Hm. by res_inv.
Qed.

(** prefixmatch accepts exactly the patterns that match the prefix and end with a star
    after an even number of backslashes.  An accepted pattern matches every continuation of
    the prefix, unless the final star is in a class that is not closed. *)
Theorem prefixmatch_correct l final post str rest nocase :
  final <> STAR -> groups (parse l) <= 1000 -> str <> [] ->
  exists b, prefixmatch (l ++ final :: post) (zlength l) (str ++ rest) (zlength str) nocase = Ok b /\
    (b = true <-> glob nocase (parse l) str /\ final_star l) /\
    (b = true -> (forall t, list.last (parse l) = Some t -> is_class t = false) ->
     forall more, glob nocase (parse l) (str ++ more)).
Proof.
  intros Hf Hn Hs. destruct (stringmatchlen_impl_contract l final post str rest nocase Hf)
    as ([found skip] & He & Hsound & Hcomplete & _). simpl in Hsound, Hcomplete.
  assert (Hb : exists b,
    prefixmatch (l ++ final :: post) (zlength l) (str ++ rest) (zlength str) nocase = Ok b /\
    (b = true <-> glob nocase (parse l) str /\ final_star l)).
  { unfold prefixmatch. rewrite He. destruct found; simpl negb; cbn iota.
    2: { exists false. split; [done|]. split; [done|]. intros [Hg _]. by destruct (Hcomplete Hn eq_refl Hs). }
    destruct l as [|c l1 _] using rev_ind.
    { exists false. split; [done|]. split; [done|]. by intros [_ ([|] & ? & _)]. }
    rewrite length_app. cbn [length]. zif. rewrite <-app_assoc. simpl.
    rewrite get1_app by lia. destruct (Z.eqb_spec c STAR) as [->|Hc]; simpl.
    - replace (Z.of_nat (length l1 + 1) - 2) with (zlength l1 - 1) by lia.
      rewrite count_backslashes_spec by lia. eexists. split; [done|]. rewrite Z.add_0_l, Z.eqb_eq.
      split; [intros Hm; split; [by apply Hsound|by exists l1]|].
      intros [_ (l' & [<- _]%app_inj_tail & Hm)]. done.
    - exists false. split; [done|]. split; [done|]. by intros [_ (l' & [_ ->]%app_inj_tail & _)]. }
  destruct Hb as (b & Hp & Hiff). exists b. split_and!; [done..|].
  intros [Hg Hstar]%Hiff Hclass more. apply glob_app_star; [|done].
  destruct (final_star_token l Hstar) as (t & Ht & [->|Hc]); [done|].
  by rewrite (Hclass t Ht) in Hc.
Qed.

(** The pattern h*l?o on the string "hallello". *)
Lemma stringmatchlen_correct_witness :
  glob false (parse [104; 42; 108; 63; 111]) [104; 97; 108; 108; 101; 108; 108; 111].
Proof.
  destruct (stringmatchlen_correct [104; 42; 108; 63; 111] 0 []
    [104; 97; 108; 108; 101; 108; 108; 111] [] false ltac:(done)) as (b & He & Hs & _).
  vm_compute in He. apply Hs. congruence.
Defined.

(** The pattern k:*, the prefix "k:1" and the key "k:123". *)
Lemma prefixmatch_correct_witness :
  glob false (parse [107; 58; 42]) ([107; 58; 49] ++ [50; 51]).
Proof.
  destruct (prefixmatch_correct [107; 58; 42] 0 [] [107; 58; 49] [] false
    ltac:(done) ltac:(done) ltac:(done)) as (b & He & _ & Hb).
  vm_compute in He. apply Hb; [congruence|]. intros t Ht. vm_compute in Ht. by injection Ht as <-.
Defined.

(** ** Corner cases *)

(** The pattern [* is an open class: it matches the one-character string * only, but is
    taken for a pattern that covers every key that starts with a star. *)
Example prefixmatch_open_class :
  prefixmatch [LBRACKET; STAR; 0] 2 [STAR] 1 false = Ok true /\
  ~ glob false (parse [LBRACKET; STAR]) [STAR; 120].
Proof.
  split; [done|]. change (parse [LBRACKET; STAR]) with [Class false [Char STAR]].
  intros [_ Hg]%glob_one_iff; [|done]. inversion Hg.
Qed.

(** A pattern that ends with a star and is followed in memory by another one is read past
    its end. *)
Example match_reads_past_pattern :
  stringmatchlen [STAR; STAR] 1 [97] 1 false = Fault OutOfBounds.
Proof. done. Qed.

(** Without regard to case, A, \A and [A] match a, but [\A] does not. *)
Example match_escape_in_class :
  map (fun p => stringmatchlen (p ++ [0]) (zlength p) [97] 1 true)
    [[65]; [BACKSLASH; 65]; [LBRACKET; 65; RBRACKET]; [LBRACKET; BACKSLASH; 65; RBRACKET]]
  = [Ok true; Ok true; Ok true; Ok false].
Proof. done. Qed.
