(* ===== verification/Sds.v ===== *)
(** Dynamic strings, the model: src/redis-stable/src/sds.c and the inline functions of sds.h.

    An sds is a pointer into a block of memory, behind a header whose layout depends on the
    type in the byte before the pointer: the length alone in five bits of that byte, or the
    length and the allocated size in integers of 8, 16, 32 or 64 bits.  The block is a list
    of bytes and the pointer an offset, so that everything that is read or written behind
    the header is checked against the block.  [usable] is the size of the block that the
    allocator gives for a request, [junk] a byte of uninitialised memory; [nallocx] is je_nallocx
    when the allocator is jemalloc.  The allocator aborts when there is no memory, except in
    sdstrynewlen, for which [malloc_ok] tells whether there is.  debugAssert is checked. *)

From stdpp Require Import list.
From S2P Require Import Prelude Machine UtilNum Glob.

Definition SDS_MAX_PREALLOC : Z := 1024 * 1024.
Definition SDS_TYPE_5 : Z := 0.
Definition SDS_TYPE_8 : Z := 1.
Definition SDS_TYPE_16 : Z := 2.
Definition SDS_TYPE_32 : Z := 3.
Definition SDS_TYPE_64 : Z := 4.
Definition SDS_TYPE_MASK : Z := 7.
Definition SDS_TYPE_BITS : Z := 3.

(** * The header *)

(** [block]: the allocated memory; [pos]: where the string starts in it. *)
Record sds := mkSds { block : list Z; pos : Z }.

(** switch (type): the cases of the four headers differ in the width of their integers, in bytes. *)
Definition switch_type {A} (type : Z) (five : A) (hdr : Z -> A) (other : A) : A :=
  if type =? SDS_TYPE_5 then five
  else if type =? SDS_TYPE_8 then hdr 1
  else if type =? SDS_TYPE_16 then hdr 2
  else if type =? SDS_TYPE_32 then hdr 4
  else if type =? SDS_TYPE_64 then hdr 8
  else other.

(** sizeof(struct sdshdr8), ... *)
Definition hdr_size (w : Z) : Z := 2 * w + 1.

(** SDS_HDR(T,s)->len and SDS_HDR(T,s)->alloc *)
Definition hdr_len (w : Z) (s : sds) : res Z := let! bs := load (pos s - hdr_size w) w (block s) in Ok (le_dec bs).
Definition hdr_alloc (w : Z) (s : sds) : res Z := let! bs := load (pos s - hdr_size w + w) w (block s) in Ok (le_dec bs).
Definition set_hdr_len (w v : Z) (s : sds) : res sds := let! b := store (pos s - hdr_size w) (le_enc (Z.to_nat w) v) (block s) in Ok (mkSds b (pos s)).
Definition set_hdr_alloc (w v : Z) (s : sds) : res sds := let! b := store (pos s - hdr_size w + w) (le_enc (Z.to_nat w) v) (block s) in Ok (mkSds b (pos s)).

(** Bytes of the string: s[i], s[i] = c, memcpy(s + i, bs, n), memmove(s + dst, s + src, n) *)
Definition char_at (i : Z) (s : sds) : res Z := get1 (pos s + i) (block s).
Definition set_char (i c : Z) (s : sds) : res sds := let! b := set1 (pos s + i) c (block s) in Ok (mkSds b (pos s)).
Definition copy_in (i : Z) (bs : list Z) (s : sds) : res sds := let! b := store (pos s + i) bs (block s) in Ok (mkSds b (pos s)).
Definition move_in (dst src n : Z) (s : sds) : res sds := let! b := memmove (pos s + dst) (pos s + src) n (block s) in Ok (mkSds b (pos s)).

Definition sdsType (s : sds) : res Z := let! flags := char_at (-1) s in Ok (Z.land flags SDS_TYPE_MASK).
Definition SDS_TYPE_5_LEN (s : sds) : res Z := let! flags := char_at (-1) s in Ok (Z.shiftr flags SDS_TYPE_BITS).

Definition sdsHdrSize (type : Z) : Z := switch_type (Z.land type SDS_TYPE_MASK) 1 hdr_size 0.

Definition sdslen (s : sds) : res Z :=
  let! type := sdsType s in switch_type type (SDS_TYPE_5_LEN s) (fun w => hdr_len w s) (Ok 0).

(** The difference is an int for the narrow headers. *)
Definition sdsavail (s : sds) : res Z :=
  let! type := sdsType s in
  switch_type type (Ok 0)
    (fun w => let! alloc := hdr_alloc w s in let! len := hdr_len w s in Ok (if w =? 4 then u32 (alloc - len) else u64 (alloc - len)))
    (Ok 0).

Definition sdssetlen (s : sds) (newlen : Z) : res sds :=
  let! type := sdsType s in
  switch_type type (set_char (-1) (u8 (Z.lor SDS_TYPE_5 (u64 (Z.shiftl newlen SDS_TYPE_BITS)))) s) (fun w => set_hdr_len w newlen s) (Ok s).

Definition sdsinclen (s : sds) (inc : Z) : res sds :=
  let! type := sdsType s in
  switch_type type
    (let! len := SDS_TYPE_5_LEN s in
     let newlen := u8 (len + inc) in
     set_char (-1) (u8 (Z.lor SDS_TYPE_5 (Z.shiftl newlen SDS_TYPE_BITS))) s)
    (fun w => let! len := hdr_len w s in set_hdr_len w (len + inc) s) (Ok s).

Definition sdsAllocSize (s : sds) : res Z :=
  let! type := sdsType s in
  switch_type type (let! len := SDS_TYPE_5_LEN s in Ok (1 + len + 1))
    (fun w => let! alloc := hdr_alloc w s in Ok (u64 (hdr_size w + alloc + 1))) (Ok 0).

Definition sdsalloc (s : sds) : res Z :=
  let! type := sdsType s in switch_type type (SDS_TYPE_5_LEN s) (fun w => hdr_alloc w s) (Ok 0).

Definition sdssetalloc (s : sds) (newlen : Z) : res sds :=
  let! type := sdsType s in switch_type type (Ok s) (fun w => set_hdr_alloc w newlen s) (Ok s).

Definition sdsReqSize (len type : Z) : Z := u64 (len + sdsHdrSize type + 1).

(** * Creation *)

Definition sdsReqType (string_size : Z) : Z :=
  if string_size <? Z.shiftl 1 5 then SDS_TYPE_5
  else if string_size <=? Z.shiftl 1 8 - hdr_size 1 - 1 then SDS_TYPE_8
  else if string_size <=? Z.shiftl 1 16 - hdr_size 2 - 1 then SDS_TYPE_16
  else if string_size <=? Z.shiftl 1 32 - hdr_size 4 - 1 then SDS_TYPE_32
  else SDS_TYPE_64.

Definition sdsTypeMaxSize (type : Z) : Z :=
  if type =? SDS_TYPE_5 then Z.shiftl 1 5 - 1
  else if type =? SDS_TYPE_8 then Z.shiftl 1 8 - 1
  else if type =? SDS_TYPE_16 then Z.shiftl 1 16 - 1
  else if type =? SDS_TYPE_32 then Z.shiftl 1 32 - 1
  else 2 ^ 64 - 1.

(** The type, the size of the header, and whether they were adjusted. *)
Definition adjustTypeIfNeeded (type hdrlen bufsize : Z) : Z * Z * bool :=
  let usable := u64 (bufsize - hdrlen - 1) in
  if negb (type =? SDS_TYPE_5) && (usable >? sdsTypeMaxSize type) then
    let type := sdsReqType usable in (type, sdsHdrSize type, true)
  else (type, hdrlen, false).

(** NULL, SDS_NOINIT or bytes. *)
Inductive sds_init := INIT_NULL | INIT_NOINIT | INIT_BYTES (init : list Z).

Definition sdsnewplacement (buf : list Z) (bufsize type : Z) (init : sds_init) (initlen : Z) : res sds :=
  assert! bufsize >=? sdsReqSize initlen type in
  let hdrlen := sdsHdrSize type in
  let usable := u64 (bufsize - hdrlen - 1) in
  let s := mkSds buf hdrlen in
  let! s := switch_type type
    (set_char (-1) (u8 (Z.lor type (u64 (Z.shiftl initlen SDS_TYPE_BITS)))) s)
    (fun w =>
       let! s := set_hdr_len w initlen s in
       assert! usable <=? sdsTypeMaxSize type in
       let! s := set_hdr_alloc w usable s in
       set_char (-1) type s)
    (Ok s) in
  let! s :=
    match init with
    | INIT_NOINIT => Ok s
    | INIT_NULL => copy_in 0 (replicate (Z.to_nat initlen) 0) s
    | INIT_BYTES init => if negb (initlen =? 0) then let! bs := load 0 initlen init in copy_in 0 bs s else Ok s
    end in
  set_char initlen 0 s.

Section Sds.
Context (junk : Z) (usable : Z -> Z) (nallocx : option (Z -> Z)) (malloc_ok : Z -> bool).

(** malloc(size), as a block of [usable size] bytes *)
Definition malloc (size : Z) : list Z := replicate (Z.to_nat (usable size)) junk.

Definition _sdsnewlen (init : sds_init) (initlen : Z) (trymalloc : bool) : res (option sds) :=
  let type := sdsReqType initlen in
  let type := if (type =? SDS_TYPE_5) && (initlen =? 0) then SDS_TYPE_8 else type in
  let hdrlen := sdsHdrSize type in
  assert! u64 (initlen + hdrlen + 1) >? initlen in
  let size := u64 (hdrlen + initlen + 1) in
  if trymalloc && negb (malloc_ok size) then Ok None
  else
    let sh := malloc size in
    let bufsize := usable size in
    let '(type, hdrlen, _) := adjustTypeIfNeeded type hdrlen bufsize in
    let! s := sdsnewplacement sh bufsize type init initlen in
    Ok (Some s).

Definition sdstrynewlen (init : sds_init) (initlen : Z) : res (option sds) := _sdsnewlen init initlen true.

(** Without trymalloc there is memory. *)
Definition sdsnewlen (init : sds_init) (initlen : Z) : res sds :=
  let! s := _sdsnewlen init initlen false in
  match s with Some s => Ok s | None => Fault AssertFailed end.

Definition sdsempty : res sds := sdsnewlen (INIT_BYTES []) 0.

Definition sdsnew (init : option (list Z)) : res sds :=
  match init with
  | None => sdsnewlen INIT_NULL 0
  | Some init => let! initlen := strlen init in sdsnewlen (INIT_BYTES init) initlen
  end.

(** The memory from the start of the string on. *)
Definition chars (s : sds) : list Z := drop (Z.to_nat (pos s)) (block s).

Definition sdsdup (s : sds) : res sds := let! len := sdslen s in sdsnewlen (INIT_BYTES (chars s)) len.

Definition sdsupdatelen (s : sds) : res sds := let! reallen := strlen (chars s) in sdssetlen s reallen.

Definition sdsclear (s : sds) : res sds := let! s := sdssetlen s 0 in set_char 0 0 s.

(** * Growing and shrinking *)

Definition _sdsMakeRoomFor (s : sds) (addlen : Z) (greedy : bool) : res sds :=
  let! avail := sdsavail s in
  let! oldtype := sdsType s in
  if avail >=? addlen then Ok s
  else
    let! len := sdslen s in
    let newlen := u64 (len + addlen) in
    let reqlen := newlen in
    assert! newlen >? len in
    let newlen := if greedy then (if newlen <? SDS_MAX_PREALLOC then u64 (newlen * 2) else u64 (newlen + SDS_MAX_PREALLOC)) else newlen in
    let type := sdsReqType newlen in
    let type := if type =? SDS_TYPE_5 then SDS_TYPE_8 else type in
    let hdrlen := sdsHdrSize type in
    assert! u64 (hdrlen + newlen + 1) >? reqlen in
    let size := u64 (hdrlen + newlen + 1) in
    let bufsize := usable size in
    let! '(s, type, hdrlen) :=
      (if oldtype =? type then
         let s := mkSds (realloc junk bufsize (block s)) hdrlen in
         let '(type, hdrlen', adjusted) := adjustTypeIfNeeded type hdrlen bufsize in
         if (adjusted : bool) then
           let! b := memmove hdrlen' (pos s) (len + 1) (block s) in
           let s := mkSds b hdrlen' in
           let! s := set_char (-1) type s in
           let! s := sdssetlen s len in
           Ok (s, type, hdrlen')
         else Ok (s, type, hdrlen')
       else
         let '(type, hdrlen, _) := adjustTypeIfNeeded type hdrlen bufsize in
         let! bs := load (pos s) (len + 1) (block s) in
         let! b := store hdrlen bs (malloc size) in
         let s := mkSds b hdrlen in
         let! s := set_char (-1) type s in
         let! s := sdssetlen s len in
         Ok (s, type, hdrlen)) in
    let usable := u64 (bufsize - hdrlen - 1) in
    assert! (type =? SDS_TYPE_5) || (usable <=? sdsTypeMaxSize type) in
    sdssetalloc s usable.

Definition sdsMakeRoomFor (s : sds) (addlen : Z) : res sds := _sdsMakeRoomFor s addlen true.
Definition sdsMakeRoomForNonGreedy (s : sds) (addlen : Z) : res sds := _sdsMakeRoomFor s addlen false.

Definition sdsResize (s : sds) (size : Z) (would_regrow : bool) : res sds :=
  let! oldtype := sdsType s in
  let oldhdrlen := sdsHdrSize oldtype in
  let! len := sdslen s in
  let! alloc := sdsalloc s in
  if alloc =? size then Ok s
  else
    let len := if size <? len then size else len in
    let type := sdsReqType size in
    let type := if would_regrow && (type =? SDS_TYPE_5) then SDS_TYPE_8 else type in
    let hdrlen := sdsHdrSize type in
    let use_realloc := (oldtype =? type) || ((type <? oldtype) && (type >? SDS_TYPE_8)) in
    let newlen := if use_realloc then u64 (oldhdrlen + size + 1) else u64 (hdrlen + size + 1) in
    let! '(s, newsize) :=
      (if use_realloc then
         let! optimal :=
           match nallocx with
           | Some nallocx => let! bufsize := sdsAllocSize s in Ok (if nallocx newlen =? bufsize then Some bufsize else None)
           | None => Ok None
           end in
         match optimal with
         | Some bufsize =>
             let newsize := u64 (bufsize - oldhdrlen - 1) in
             assert! (oldtype =? SDS_TYPE_5) || (newsize <=? sdsTypeMaxSize oldtype) in
             Ok (s, newsize)
         | None =>
             let bufsize := usable newlen in
             let s := mkSds (realloc junk bufsize (block s)) oldhdrlen in
             let '(oldtype, oldhdrlen', adjusted) := adjustTypeIfNeeded oldtype oldhdrlen bufsize in
             let! s :=
               (if (adjusted : bool) then
                  let! b := memmove oldhdrlen' (pos s) (len + 1) (block s) in
                  let s := mkSds b oldhdrlen' in
                  let! s := set_char (-1) oldtype s in
                  sdssetlen s len
                else Ok s) in
             let newsize := u64 (bufsize - oldhdrlen' - 1) in
             assert! (oldtype =? SDS_TYPE_5) || (newsize <=? sdsTypeMaxSize oldtype) in
             Ok (s, newsize)
         end
       else
         let bufsize := usable newlen in
         let '(type, hdrlen, _) := adjustTypeIfNeeded type hdrlen bufsize in
         let! bs := load (pos s) (len + 1) (block s) in
         let! b := store hdrlen bs (malloc newlen) in
         let s := mkSds b hdrlen in
         let! s := set_char (-1) type s in
         let newsize := u64 (bufsize - hdrlen - 1) in
         assert! (type =? SDS_TYPE_5) || (newsize <=? sdsTypeMaxSize type) in
         Ok (s, newsize)) in
    let! s := set_char len 0 s in
    let! s := sdssetlen s len in
    sdssetalloc s newsize.

Definition sdsRemoveFreeSpace (s : sds) (would_regrow : bool) : res sds := let! len := sdslen s in sdsResize s len would_regrow.

(** The cases of the switch of sdsIncrLen: the assertion, the new header and the new length. *)
Definition incr_five (s : sds) (incr : Z) : res (sds * Z) :=
  let! oldlen := SDS_TYPE_5_LEN s in
  assert! ((incr >? 0) && (oldlen + incr <? 32)) || ((incr <? 0) && (oldlen >=? u32 (- incr))) in
  let! s := set_char (-1) (u8 (Z.lor SDS_TYPE_5 (Z.shiftl (oldlen + incr) SDS_TYPE_BITS))) s in
  Ok (s, oldlen + incr).

Definition incr_header (s : sds) (incr w : Z) : res (sds * Z) :=
  let! alloc := hdr_alloc w s in
  let! len := hdr_len w s in
  let free := if w =? 4 then u32 (alloc - len) else if w =? 8 then u64 (alloc - len) else alloc - len in
  let up := if w =? 4 then u32 incr else if w =? 8 then u64 incr else incr in
  let down := if w =? 8 then u64 (- incr) else u32 (- incr) in
  assert! ((incr >=? 0) && (free >=? up)) || ((incr <? 0) && (len >=? down)) in
  let! s := set_hdr_len w (len + incr) s in
  let! len := hdr_len w s in
  Ok (s, len).

Definition sdsIncrLen (s : sds) (incr : Z) : res sds :=
  let! type := sdsType s in
  let! '(s, len) := switch_type type (incr_five s incr) (incr_header s incr) (Ok (s, 0)) in
  set_char len 0 s.

Definition sdsgrowzero (s : sds) (len : Z) : res sds :=
  let! curlen := sdslen s in
  if len <=? curlen then Ok s
  else
    let! s := sdsMakeRoomFor s (len - curlen) in
    let! s := copy_in curlen (replicate (Z.to_nat (len - curlen + 1)) 0) s in
    sdssetlen s len.

(** * Contents *)

Definition sdscatlen (s : sds) (t : list Z) (len : Z) : res sds :=
  let! curlen := sdslen s in
  let! s := sdsMakeRoomFor s len in
  let! bs := load 0 len t in
  let! s := copy_in curlen bs s in
  let! s := sdssetlen s (curlen + len) in
  set_char (curlen + len) 0 s.

Definition sdscat (s : sds) (t : list Z) : res sds := let! len := strlen t in sdscatlen s t len.
Definition sdscatsds (s t : sds) : res sds := let! len := sdslen t in sdscatlen s (chars t) len.

Definition sdscpylen (s : sds) (t : list Z) (len : Z) : res sds :=
  let! alloc := sdsalloc s in
  let! s := (if alloc <? len then let! cur := sdslen s in sdsMakeRoomFor s (u64 (len - cur)) else Ok s) in
  let! bs := load 0 len t in
  let! s := copy_in 0 bs s in
  let! s := set_char len 0 s in
  sdssetlen s len.

Definition sdscpy (s : sds) (t : list Z) : res sds := let! len := strlen t in sdscpylen s t len.

Definition sdsfromlonglong (value : Z) : res sds :=
  let! '(len, buf) := ll2string (replicate (Z.to_nat LONG_STR_SIZE) junk) LONG_STR_SIZE value in
  sdsnewlen (INIT_BYTES buf) len.

(** strchr(cset, c) != NULL: the terminator is a character of the string *)
Definition in_cset (cset : list Z) (c : Z) : res bool :=
  let! n := strlen cset in Ok (bool_decide (c ∈ take (Z.to_nat (n + 1)) cset)).

(** while (sp <= end && strchr(cset, *sp)) sp++ *)
Fixpoint trim_left (fuel : nat) (s : sds) (cset : list Z) (sp end_ : Z) : res Z :=
  if sp <=? end_ then
    match fuel with
    | O => Fault OutOfFuel
    | S fuel =>
        let! c := char_at sp s in
        let! skip := in_cset cset c in
        if (skip : bool) then trim_left fuel s cset (sp + 1) end_ else Ok sp
    end
  else Ok sp.

(** while (ep > sp && strchr(cset, *ep)) ep-- *)
Fixpoint trim_right (fuel : nat) (s : sds) (cset : list Z) (sp ep : Z) : res Z :=
  if ep >? sp then
    match fuel with
    | O => Fault OutOfFuel
    | S fuel =>
        let! c := char_at ep s in
        let! skip := in_cset cset c in
        if (skip : bool) then trim_right fuel s cset sp (ep - 1) else Ok ep
    end
  else Ok ep.

(** The pointers are offsets from [s]. *)
Definition sdstrim (s : sds) (cset : list Z) : res sds :=
  let! n := sdslen s in
  let end_ := n - 1 in
  let! sp := trim_left (Z.to_nat n) s cset 0 end_ in
  let! ep := trim_right (Z.to_nat n) s cset sp end_ in
  let len := ep - sp + 1 in
  let! s := (if negb (sp =? 0) then move_in 0 sp len s else Ok s) in
  let! s := set_char len 0 s in
  sdssetlen s len.

Definition sdssubstr (s : sds) (start len : Z) : res sds :=
  let! oldlen := sdslen s in
  let '(start, len) := (if start >=? oldlen then (0, 0) else (start, len)) in
  let len := if len >? oldlen - start then oldlen - start else len in
  let! s := (if negb (len =? 0) then move_in 0 start len s else Ok s) in
  let! s := set_char len 0 s in
  sdssetlen s len.

Definition sdsrange (s : sds) (start end_ : Z) : res sds :=
  let! len := sdslen s in
  if len =? 0 then Ok s
  else
    let start := if start <? 0 then s64 (len + start) else start in
    let end_ := if end_ <? 0 then s64 (len + end_) else end_ in
    let newlen := if start >? end_ then 0 else u64 (s64 (end_ - start) + 1) in
    sdssubstr s (u64 start) newlen.

(** for (j = 0; j < len; j++) s[j] = f(s[j]), from [j] *)
Fixpoint map_loop (n : nat) (f : Z -> res Z) (s : sds) (j : Z) : res sds :=
  match n with
  | O => Ok s
  | S n =>
      let! c := char_at j s in
      let! c := f c in
      let! s := set_char j c s in
      map_loop n f s (j + 1)
  end.

Definition toupper (c : Z) : Z := if (97 <=? c) && (c <=? 122) then c - 32 else c.

Definition sdstolower (s : sds) : res sds := let! len := sdslen s in map_loop (Z.to_nat len) (fun c => Ok (tolower c)) s 0.
Definition sdstoupper (s : sds) : res sds := let! len := sdslen s in map_loop (Z.to_nat len) (fun c => Ok (toupper c)) s 0.

(** for (i = 0; i < setlen; i++) if (s[j] == from[i]) ... *)
Fixpoint map_char (n : nat) (from to : list Z) (i c : Z) : res Z :=
  match n with
  | O => Ok c
  | S n =>
      let! f := get1 i from in
      if c =? f then get1 i to else map_char n from to (i + 1) c
  end.

Definition sdsmapchars (s : sds) (from to : list Z) (setlen : Z) : res sds :=
  let! l := sdslen s in map_loop (Z.to_nat l) (map_char (Z.to_nat setlen) from to 0) s 0.

Definition sdscmp (s1 s2 : sds) : res Z :=
  let! l1 := sdslen s1 in
  let! l2 := sdslen s2 in
  let minlen := if l1 <? l2 then l1 else l2 in
  let! b1 := load (pos s1) minlen (block s1) in
  let! b2 := load (pos s2) minlen (block s2) in
  let cmp := memcmp (Z.to_nat minlen) b1 b2 in
  Ok (if cmp =? 0 then (if l1 >? l2 then 1 else if l1 <? l2 then -1 else 0) else cmp).
End Sds.

Example sds_demo :
  (let! s := sdsnew 165 (fun n => n + 7) (fun _ => true) (Some [72; 105; 0]) in
   let! s := sdscatlen 165 (fun n => n + 7) s (replicate 40 33) 40 in
   let! s := sdsrange s 1 (-37) in
   let! len := sdslen s in let! cs := load (pos s) (len + 1) (block s) in Ok (len, cs)) = Ok (5, [105; 33; 33; 33; 33; 0]).
Proof. vm_compute. reflexivity. Qed.
