(* ===== verification/SdsSpec.v ===== *)
(** Dynamic strings: an sds is a string of bytes.

    A string is represented by a block whose header holds its length, and its free space when
    the type is not SDS_TYPE_5; every operation does to the block what it says on the string,
    whatever the allocator returns, with the header that fits. *)

From stdpp Require Import list.
From S2P Require Import Prelude Machine UtilNum Glob Sds.

(** * Memory behind the header *)

Lemma load_shift {A} (pre body : list A) i n : 0 <= i -> load (zlength pre + i) n (pre ++ body) = load i n body.
Proof.
  intros Hi. unfold load. rewrite length_app, Nat2Z.inj_add.
  assert (((0 <=? zlength pre + i) && (0 <=? n) && (zlength pre + i + n <=? zlength pre + zlength body)) = ((0 <=? i) && (0 <=? n) && (i + n <=? zlength body))) as ->.
  { apply eq_true_iff_eq. rewrite !andb_true_iff, !Z.leb_le. lia. }
  destruct (_ && _); [|done]. rewrite Z2Nat.inj_add, Nat2Z.id by lia. by rewrite drop_app_add.
Qed.

Lemma get1_shift {A} (pre body : list A) i : 0 <= i -> get1 (zlength pre + i) (pre ++ body) = get1 i body.
Proof.
  intros Hi. unfold get1. rewrite (proj2 (Z.ltb_ge _ _)), (proj2 (Z.ltb_ge _ _)) by lia. rewrite Z2Nat.inj_add, Nat2Z.id by lia.
  rewrite lookup_app_r by lia. by replace (length pre + Z.to_nat i - length pre)%nat with (Z.to_nat i) by lia.
Qed.

Lemma store_shift {A} (pre body bs body' : list A) i : 0 <= i -> store i bs body = Ok body' -> store (zlength pre + i) bs (pre ++ body) = Ok (pre ++ body').
Proof.
  intros Hi. unfold store. rewrite length_app, Nat2Z.inj_add. destruct (_ && _) eqn:E; [|done]. intros [= <-]. apply andb_true_iff in E as [_ E%Z.leb_le].
  rewrite (proj2 (Z.leb_le _ _)), (proj2 (Z.leb_le _ _)) by lia. cbn [andb]. rewrite Z2Nat.inj_add, Nat2Z.id by lia.
  rewrite take_app_add, <- Nat.add_assoc, drop_app_add. by rewrite <- (assoc_L (++)).
Qed.

(** The block is [pre], of the size of the header, and [body]. *)
Definition at_pos (s : sds) (pre body : list Z) : Prop := block s = pre ++ body /\ pos s = zlength pre.

Lemma chars_at s pre body : at_pos s pre body -> chars s = body.
Proof. intros [Hb Hp]. unfold chars. by rewrite Hb, Hp, Nat2Z.id, drop_app_length. Qed.

Lemma char_at_at s pre body i : at_pos s pre body -> 0 <= i -> char_at i s = get1 i body.
Proof. intros [Hb Hp] Hi. unfold char_at. rewrite Hb, Hp. by apply get1_shift. Qed.

Lemma load_at s pre body i n : at_pos s pre body -> 0 <= i -> load (pos s + i) n (block s) = load i n body.
Proof. intros [Hb Hp] Hi. rewrite Hb, Hp. by apply load_shift. Qed.

Lemma copy_at s pre body i bs body' : at_pos s pre body -> 0 <= i -> store i bs body = Ok body' -> exists s', copy_in i bs s = Ok s' /\ at_pos s' pre body'.
Proof. intros [Hb Hp] Hi Hs. unfold copy_in. rewrite Hb, Hp, (store_shift _ _ _ _ _ Hi Hs). by eexists. Qed.

Lemma set_char_at s pre body i c body' : at_pos s pre body -> 0 <= i -> set1 i c body = Ok body' -> exists s', set_char i c s = Ok s' /\ at_pos s' pre body'.
Proof. intros [Hb Hp] Hi Hs. unfold set_char, set1. rewrite Hb, Hp, (store_shift _ _ _ _ _ Hi Hs). by eexists. Qed.

Lemma move_at s pre body dst src n body' : at_pos s pre body -> 0 <= dst -> 0 <= src -> memmove dst src n body = Ok body' -> exists s', move_in dst src n s = Ok s' /\ at_pos s' pre body'.
Proof.
  intros [Hb Hp] Hd Hs. unfold move_in, memmove. rewrite Hb, Hp, load_shift by done. destruct (load src n body) as [bs|]; [|done]. intros Hst.
  rewrite (store_shift _ _ _ _ _ Hd Hst). by eexists.
Qed.

(** * Headers *)

Definition width (t : Z) : Z := if t =? SDS_TYPE_8 then 1 else if t =? SDS_TYPE_16 then 2 else if t =? SDS_TYPE_32 then 4 else 8.
Definition wide (t : Z) : Prop := 1 <= t <= 4.
(** The longest string for which the type is chosen. *)
Definition req_max (t : Z) : Z := sdsTypeMaxSize t - hdr_size (width t).

Lemma wide_cases t : wide t -> t = 1 \/ t = 2 \/ t = 3 \/ t = 4.
Proof. unfold wide. lia. Qed.

Ltac type_cases H := destruct (wide_cases _ H) as [-> |[-> |[-> | ->]]].

Lemma switch_wide {A} t (five : A) hdr other : wide t -> switch_type t five hdr other = hdr (width t).
Proof. intros Ht. by type_cases Ht. Qed.

Lemma hdrsize_wide t : wide t -> sdsHdrSize t = hdr_size (width t).
Proof. intros Ht. by type_cases Ht. Qed.

Lemma width_max t : wide t -> 1 <= width t <= 8 /\ sdsTypeMaxSize t = 2 ^ (8 * width t) - 1.
Proof. intros Ht. by type_cases Ht. Qed.

(** A header of which the three parts may hold anything. *)
Definition raw (s : sds) (t : Z) (L A : list Z) (f : Z) (body : list Z) : Prop :=
  wide t /\ at_pos s (L ++ A ++ [f]) body /\ zlength L = width t /\ zlength A = width t.

Lemma raw_pos s t L A f body : raw s t L A f body -> pos s = hdr_size (width t) /\ block s = L ++ A ++ f :: body.
Proof. intros (Ht & [Hb Hp] & HL & HA). rewrite !length_app in Hp. unfold hdr_size. split; [simpl in Hp; lia|]. by rewrite Hb, <- !(assoc_L (++)). Qed.

Lemma raw_flags s t L A f body : raw s t L A f body -> char_at (-1) s = Ok f.
Proof.
  intros H. destruct (raw_pos _ _ _ _ _ _ H) as [Hp Hb]. destruct H as (_ & _ & HL & HA). unfold char_at, hdr_size in *. rewrite Hb, (assoc_L (++)).
  apply get1_app. rewrite length_app. lia.
Qed.

Lemma raw_len s t L A f body : raw s t L A f body -> hdr_len (width t) s = Ok (le_dec L).
Proof.
  intros H. destruct (raw_pos _ _ _ _ _ _ H) as [Hp Hb]. destruct H as (_ & _ & HL & HA). unfold hdr_len. rewrite Hb, Hp, Z.sub_diag. by rewrite (load_app [] L (A ++ f :: body)).
Qed.

Lemma raw_alloc s t L A f body : raw s t L A f body -> hdr_alloc (width t) s = Ok (le_dec A).
Proof.
  intros H. destruct (raw_pos _ _ _ _ _ _ H) as [Hp Hb]. destruct H as (_ & _ & HL & HA). unfold hdr_alloc. rewrite Hb, Hp, Z.sub_diag. by rewrite (load_app L A (f :: body)).
Qed.

Lemma raw_again s t L A f body L' A' f' : raw s t L A f body -> zlength L' = width t -> zlength A' = width t ->
  raw (mkSds (L' ++ A' ++ f' :: body) (pos s)) t L' A' f' body.
Proof.
  intros H HL HA. destruct (raw_pos _ _ _ _ _ _ H) as [Hp _]. destruct H as (Ht & _). split; [done|]. split; [|done].
  split; cbn [block pos]; [by rewrite <- !(assoc_L (++))|]. rewrite !length_app, Hp. unfold hdr_size. simpl. lia.
Qed.

Lemma enc_width t v : wide t -> zlength (le_enc (Z.to_nat (width t)) v) = width t.
Proof. intros Ht. rewrite length_le_enc. pose proof (width_max t Ht). lia. Qed.

Lemma raw_set_len s t L A f body v : raw s t L A f body ->
  exists s', set_hdr_len (width t) v s = Ok s' /\ raw s' t (le_enc (Z.to_nat (width t)) v) A f body.
Proof.
  intros H. destruct (raw_pos _ _ _ _ _ _ H) as [Hp Hb]. pose proof H as (Ht & _ & HL & HA). pose proof (enc_width t v Ht) as He.
  unfold set_hdr_len. rewrite Hb, Hp, Z.sub_diag. rewrite (store_app [] L _ (A ++ f :: body)) by (done || lia). rewrite <- Hp. eexists. split; [done|]. by eapply raw_again.
Qed.

Lemma raw_set_alloc s t L A f body v : raw s t L A f body ->
  exists s', set_hdr_alloc (width t) v s = Ok s' /\ raw s' t L (le_enc (Z.to_nat (width t)) v) f body.
Proof.
  intros H. destruct (raw_pos _ _ _ _ _ _ H) as [Hp Hb]. pose proof H as (Ht & _ & HL & HA). pose proof (enc_width t v Ht) as He.
  unfold set_hdr_alloc. rewrite Hb, Hp, Z.sub_diag. rewrite (store_app L A _ (f :: body)) by lia. rewrite <- Hp. eexists. split; [done|]. by eapply raw_again.
Qed.

Lemma raw_set_flags s t L A f body v : raw s t L A f body -> exists s', set_char (-1) v s = Ok s' /\ raw s' t L A v body.
Proof.
  intros H. destruct (raw_pos _ _ _ _ _ _ H) as [Hp Hb]. pose proof H as (Ht & _ & HL & HA). unfold set_char, set1. rewrite Hb, (assoc_L (++)).
  unfold hdr_size in Hp. rewrite (store_app (L ++ A) [f] [v] body) by (rewrite ?length_app; done || lia). rewrite <- (assoc_L (++)). eexists. split; [done|].
  by apply (raw_again _ _ _ _ _ _ L A v) in H.
Qed.

(** Any memory of the size of a header. *)
Lemma raw_intro s t pre body : wide t -> at_pos s pre body -> zlength pre = sdsHdrSize t -> exists L A f, raw s t L A f body.
Proof.
  intros Ht Hp Hl. rewrite hdrsize_wide in Hl by done. unfold hdr_size in Hl. pose proof (width_max t Ht) as [Hw _].
  destruct (split_at pre 0 (width t)) as (l0 & L & r & -> & H0 & HL); [lia..|]. destruct l0; [|simpl in H0; lia].
  destruct (split_at r 0 (width t)) as (l1 & A & f & -> & H1 & HA); [lia|lia|rewrite !length_app in Hl; simpl in Hl; lia|]. destruct l1; [|simpl in H1; lia].
  cbn [app] in *. rewrite !length_app in Hl. destruct f as [|f [|? ?]]; simpl in Hl; [lia| |lia]. by exists L, A, f.
Qed.

Lemma type_mask t : 0 <= t <= 4 -> Z.land t SDS_TYPE_MASK = t.
Proof. intros Ht. change SDS_TYPE_MASK with (Z.ones 3). rewrite Z.land_ones by lia. apply Z.mod_small. change (2 ^ 3) with 8. lia. Qed.

Lemma raw_type s t L A body : raw s t L A t body -> sdsType s = Ok t.
Proof. intros H. unfold sdsType. rewrite (raw_flags _ _ _ _ _ _ H). rewrite type_mask by (pose proof (proj1 H); unfold wide in *; lia). done. Qed.

(** s[-1] = type; sdssetlen(s, len) *)
Lemma raw_init s t L A f body len : raw s t L A f body ->
  exists s1 s2, set_char (-1) t s = Ok s1 /\ sdssetlen s1 len = Ok s2 /\ raw s2 t (le_enc (Z.to_nat (width t)) len) A t body.
Proof.
  intros H. destruct (raw_set_flags _ _ _ _ _ _ t H) as (s1 & H1 & Hr1). destruct (raw_set_len _ _ _ _ _ _ len Hr1) as (s2 & H2 & Hr2).
  exists s1, s2. split; [done|]. split; [|done]. unfold sdssetlen. rewrite (raw_type _ _ _ _ _ Hr1), switch_wide by apply H. done.
Qed.

Lemma raw_setalloc s t L A body v : raw s t L A t body -> exists s', sdssetalloc s v = Ok s' /\ raw s' t L (le_enc (Z.to_nat (width t)) v) t body.
Proof. intros H. unfold sdssetalloc. rewrite (raw_type _ _ _ _ _ H), switch_wide by apply H. by apply (raw_set_alloc _ _ _ A). Qed.

(** * Strings *)

(** A string of [len] bytes with [alloc] allocated; [body] is the memory behind the header. *)
Definition mid (s : sds) (t len alloc : Z) (body : list Z) : Prop :=
  (t = SDS_TYPE_5 /\ at_pos s [8 * len] body /\ 0 <= len < 32) \/
  (raw s t (le_enc (Z.to_nat (width t)) len) (le_enc (Z.to_nat (width t)) alloc) t body /\ 0 <= len <= alloc /\ alloc <= sdsTypeMaxSize t).

Lemma mid_frame s t len alloc body : mid s t len alloc body ->
  exists pre, at_pos s pre body /\ zlength pre = sdsHdrSize t /\ forall s' body', at_pos s' pre body' -> mid s' t len alloc body'.
Proof.
  intros [(-> & Hp & Hl)|((Ht & Hp & HL & HA) & Hl)].
  - exists [8 * len]. split; [done|]. split; [done|]. intros s' body' Hp'. by left.
  - eexists. split; [exact Hp|]. split; [rewrite !length_app, hdrsize_wide by done; unfold hdr_size; simpl; lia|]. intros s' body' Hp'. right. by split.
Qed.

Lemma dec_enc t v : wide t -> 0 <= v <= sdsTypeMaxSize t -> le_dec (le_enc (Z.to_nat (width t)) v) = v.
Proof. intros Ht Hv. pose proof (width_max t Ht) as [Hw Hm]. rewrite le_dec_enc, Z2Nat.id by lia. apply Z.mod_small. lia. Qed.

Lemma mid_five s len body : at_pos s [8 * len] body -> 0 <= len < 32 -> sdsType s = Ok SDS_TYPE_5 /\ SDS_TYPE_5_LEN s = Ok len.
Proof.
  intros [Hb Hp] Hl. unfold sdsType, SDS_TYPE_5_LEN, char_at. rewrite Hb, Hp. change (get1 _ _) with (@Ok Z (8 * len)). split.
  - change SDS_TYPE_MASK with (Z.ones 3). rewrite Z.land_ones by lia. change (2 ^ 3) with 8. by rewrite Z.mul_comm, Z.mod_mul.
  - rewrite Z.shiftr_div_pow2 by (vm_compute; discriminate). change (2 ^ SDS_TYPE_BITS) with 8. by rewrite Z.mul_comm, Z.div_mul.
Qed.

Section Getters.
Context (s : sds) (t len alloc : Z) (body : list Z) (H : mid s t len alloc body).

Lemma mid_type : sdsType s = Ok t.
Proof. destruct H as [(-> & Hp & Hl)|[Hr _]]; [by apply (mid_five s len body)|by apply raw_type in Hr]. Qed.

Lemma mid_bounds : 0 <= t <= 4 /\ 0 <= len /\ (t = 0 -> len < 32) /\ (t <> 0 -> len <= alloc <= sdsTypeMaxSize t).
Proof. destruct H as [(-> & Hp & Hl)|[[Ht _] [Hl Ha]]]; unfold SDS_TYPE_5, wide in *; lia. Qed.

Lemma mid_len : sdslen s = Ok len.
Proof.
  unfold sdslen. rewrite mid_type. destruct H as [(-> & Hp & Hl)|[Hr Hl]]; [by apply (mid_five s len body)|].
  pose proof (proj1 Hr) as Ht. rewrite switch_wide, (raw_len _ _ _ _ _ _ Hr) by done. rewrite dec_enc by (done || lia). done.
Qed.

Lemma mid_alloc : sdsalloc s = Ok (if t =? 0 then len else alloc).
Proof.
  unfold sdsalloc. rewrite mid_type. destruct H as [(-> & Hp & Hl)|[Hr Hl]]; [by apply (mid_five s len body)|].
  pose proof (proj1 Hr) as Ht. rewrite switch_wide, (raw_alloc _ _ _ _ _ _ Hr) by done. rewrite dec_enc by (done || lia). by rewrite (proj2 (Z.eqb_neq _ _)) by (unfold wide in Ht; lia).
Qed.

Lemma mid_avail : alloc < 2 ^ 64 -> sdsavail s = Ok (if t =? 0 then 0 else alloc - len).
Proof.
  intros Hmax. unfold sdsavail. rewrite mid_type. destruct H as [(-> & Hp & Hl)|[Hr [Hl Ha]]]; [done|].
  pose proof (proj1 Hr) as Ht. rewrite switch_wide, (raw_alloc _ _ _ _ _ _ Hr), (raw_len _ _ _ _ _ _ Hr), !dec_enc by (done || lia).
  rewrite (proj2 (Z.eqb_neq t _)) by (unfold wide in Ht; lia). pose proof (width_max t Ht) as [_ Hm]. rewrite Hm in Ha.
  destruct (Z.eqb_spec (width t) 4) as [E|E]; [rewrite E in Ha; change (8 * 4) with 32 in Ha|]; by rewrite u_id by lia.
Qed.

Lemma mid_allocsize : sdsAllocSize s = Ok (if t =? 0 then len + 2 else u64 (sdsHdrSize t + alloc + 1)).
Proof.
  unfold sdsAllocSize. rewrite mid_type. destruct H as [(-> & Hp & Hl)|[Hr [Hl Ha]]].
  - destruct (mid_five s len body Hp Hl) as [_ E]. unfold switch_type. rewrite Z.eqb_refl, E. change (SDS_TYPE_5 =? 0) with true. cbn iota. f_equal. lia.
  - pose proof (proj1 Hr) as Ht. rewrite switch_wide, (raw_alloc _ _ _ _ _ _ Hr), dec_enc, hdrsize_wide by (done || lia).
    by rewrite (proj2 (Z.eqb_neq t _)) by (unfold wide in Ht; lia).
Qed.

Lemma mid_setlen v : 0 <= v -> (t = 0 -> v < 32) -> (t <> 0 -> v <= alloc) -> exists s', sdssetlen s v = Ok s' /\ mid s' t v alloc body.
Proof.
  intros Hv H5 Hw. unfold sdssetlen. rewrite mid_type. destruct H as [(-> & [Hb Hp] & Hl)|[Hr [Hl Ha]]].
  - specialize (H5 eq_refl). unfold switch_type. rewrite Z.eqb_refl. change (Z.lor SDS_TYPE_5 ?z) with z. rewrite Z.shiftl_mul_pow2 by (vm_compute; discriminate).
    change (2 ^ SDS_TYPE_BITS) with 8. rewrite (u_id 64), (u_id 8) by (pow_const; lia). unfold set_char, set1. rewrite Hb, Hp. rewrite (store_app [] [8 * len] [v * 8] body) by done.
    eexists. split; [done|]. left. split; [done|]. split; [|lia]. split; cbn [block pos]; [|done]. cbn [app]. by rewrite Z.mul_comm.
  - pose proof (proj1 Hr) as Ht. rewrite switch_wide by done. destruct (raw_set_len _ _ _ _ _ _ v Hr) as (s' & -> & Hr'). exists s'. split; [done|]. right.
    split; [done|]. unfold wide in Ht. lia.
Qed.

Lemma mid_setalloc v : len <= v -> (t <> 0 -> v <= sdsTypeMaxSize t) -> exists s', sdssetalloc s v = Ok s' /\ mid s' t len v body.
Proof.
  intros Hv Hm. destruct H as [(-> & Hp & Hl)|[Hr [Hl Ha]]].
  - exists s. unfold sdssetalloc. rewrite (proj1 (mid_five _ _ _ Hp Hl)). split; [done|]. by left.
  - pose proof (proj1 Hr) as Ht. destruct (raw_setalloc _ _ _ _ _ v Hr) as (s' & Hs & Hr'). exists s'. split; [done|]. right. split; [done|]. unfold wide in Ht. lia.
Qed.

Lemma mid_set_char i c body' : 0 <= i -> set1 i c body = Ok body' -> exists s', set_char i c s = Ok s' /\ mid s' t len alloc body'.
Proof. intros Hi Hs. destruct (mid_frame _ _ _ _ _ H) as (pre & Hp & _ & Hf). destruct (set_char_at _ _ _ _ _ _ Hp Hi Hs) as (s' & ? & ?). exists s'. auto. Qed.

Lemma mid_copy i bs body' : 0 <= i -> store i bs body = Ok body' -> exists s', copy_in i bs s = Ok s' /\ mid s' t len alloc body'.
Proof. intros Hi Hs. destruct (mid_frame _ _ _ _ _ H) as (pre & Hp & _ & Hf). destruct (copy_at _ _ _ _ _ _ Hp Hi Hs) as (s' & ? & ?). exists s'. auto. Qed.

Lemma mid_move dst src n body' : 0 <= dst -> 0 <= src -> memmove dst src n body = Ok body' -> exists s', move_in dst src n s = Ok s' /\ mid s' t len alloc body'.
Proof. intros Hd Hi Hs. destruct (mid_frame _ _ _ _ _ H) as (pre & Hp & _ & Hf). destruct (move_at _ _ _ _ _ _ _ Hp Hd Hi Hs) as (s' & ? & ?). exists s'. auto. Qed.

Lemma mid_char i : 0 <= i -> char_at i s = get1 i body.
Proof. destruct (mid_frame _ _ _ _ _ H) as (pre & Hp & _). by apply (char_at_at _ pre). Qed.

Lemma mid_load i n : 0 <= i -> load (pos s + i) n (block s) = load i n body.
Proof. destruct (mid_frame _ _ _ _ _ H) as (pre & Hp & _). by apply (load_at _ pre). Qed.

Lemma mid_chars : chars s = body.
Proof. destruct (mid_frame _ _ _ _ _ H) as (pre & Hp & _). by apply (chars_at _ pre). Qed.
End Getters.

(** * The choice of the type *)

Lemma reqtype_range n : 0 <= sdsReqType n <= 4.
Proof. unfold sdsReqType. repeat case_match; vm_compute; split; discriminate. Qed.

Lemma req_max_values : req_max SDS_TYPE_8 = 252 /\ req_max SDS_TYPE_16 = 65530 /\ req_max SDS_TYPE_32 = 4294967286 /\ req_max SDS_TYPE_64 = 2 ^ 64 - 18.
Proof. done. Qed.

Lemma reqtype_cases n : n < 2 ^ 63 ->
  (n < 32 /\ sdsReqType n = SDS_TYPE_5) \/ (32 <= n /\ wide (sdsReqType n) /\ n <= req_max (sdsReqType n) /\
    (sdsReqType n = 2 -> 252 < n) /\ (sdsReqType n = 3 -> 65530 < n) /\ (sdsReqType n = 4 -> 4294967286 < n)).
Proof.
  destruct req_max_values as (E8 & E16 & E32 & E64). unfold sdsReqType, wide.
  change (Z.shiftl 1 5) with 32. change (Z.shiftl 1 8 - hdr_size 1 - 1) with 252. change (Z.shiftl 1 16 - hdr_size 2 - 1) with 65530. change (Z.shiftl 1 32 - hdr_size 4 - 1) with 4294967286.
  intros Hn. destruct (Z.ltb_spec n 32); [by left|right]. split; [done|].
  destruct (Z.leb_spec n 252); [rewrite E8; by repeat split|]. destruct (Z.leb_spec n 65530); [rewrite E16; by repeat split|].
  destruct (Z.leb_spec n 4294967286); [rewrite E32; repeat split; done || lia|rewrite E64; pow_const; repeat split; done || lia].
Qed.

Lemma type_values t : wide t ->
  (t = 1 /\ sdsHdrSize t = 3 /\ sdsTypeMaxSize t = 255) \/ (t = 2 /\ sdsHdrSize t = 5 /\ sdsTypeMaxSize t = 65535) \/
  (t = 3 /\ sdsHdrSize t = 9 /\ sdsTypeMaxSize t = 4294967295) \/ (t = 4 /\ sdsHdrSize t = 17 /\ sdsTypeMaxSize t = 18446744073709551615).
Proof. intros Ht. type_cases Ht; [left|right; left|right; right; left|right; right; right]; done. Qed.

Lemma req_max_sum t : wide t -> req_max t = sdsTypeMaxSize t - sdsHdrSize t.
Proof. intros Ht. unfold req_max. by rewrite hdrsize_wide. Qed.

(** The type that is adjusted to the size of the block still has room for the string. *)
Lemma adjust_spec t bufsize size : wide t -> 0 <= size <= req_max t -> sdsHdrSize t + size + 1 <= bufsize < 2 ^ 63 ->
  exists t' adjusted, adjustTypeIfNeeded t (sdsHdrSize t) bufsize = (t', sdsHdrSize t', adjusted) /\ wide t' /\
    size <= bufsize - sdsHdrSize t' - 1 <= sdsTypeMaxSize t' /\ (adjusted = false -> t' = t) /\ sdsHdrSize t <= sdsHdrSize t'.
Proof.
  intros Ht Hs Hb. unfold adjustTypeIfNeeded. rewrite (proj2 (Z.eqb_neq t _)) by (unfold wide, SDS_TYPE_5 in *; lia). cbn [negb andb].
  rewrite req_max_sum in Hs by done. pose proof (type_values t Ht) as Hv. rewrite u_id by (pow_const; lia).
  destruct (Z.gtb_spec (bufsize - sdsHdrSize t - 1) (sdsTypeMaxSize t)) as [Hg|Hg]; [|exists t, false; repeat split; (done || lia)].
  destruct (reqtype_cases (bufsize - sdsHdrSize t - 1) ltac:(lia)) as [[Hlt _]|(_ & Ht' & Hr & Hlow)]; [lia|].
  exists (sdsReqType (bufsize - sdsHdrSize t - 1)), true. split; [done|]. split; [done|].
  revert Ht' Hr Hlow. generalize (sdsReqType (bufsize - sdsHdrSize t - 1)). intros t' Ht' Hr Hlow. rewrite req_max_sum in Hr by done.
  pose proof (type_values t' Ht') as Hv'. change (2 ^ 63) with 9223372036854775808 in *. repeat split; (done || lia).
Qed.

(** The type is set, the rest of the header may hold anything that fits. *)
Definition ready (s : sds) (t : Z) (body : list Z) : Prop :=
  (t = SDS_TYPE_5 /\ exists len, at_pos s [8 * len] body /\ 0 <= len < 32) \/ exists L A, raw s t L A t body.

Lemma mid_ready s t len alloc body : mid s t len alloc body -> ready s t body.
Proof. intros [(-> & Hp & Hl)|[Hr _]]; [left; split; [done|by exists len]|right; by do 2 eexists]. Qed.

(** * Growing *)

Lemma raw_sets s t L A len v body : raw s t L A t body -> 0 <= len <= v -> v <= sdsTypeMaxSize t ->
  exists s1 s2, sdssetlen s len = Ok s1 /\ sdssetalloc s1 v = Ok s2 /\ mid s2 t len v body.
Proof.
  intros H Hl Hv. destruct (raw_set_len _ _ _ _ _ _ len H) as (s1 & H1 & Hr1). destruct (raw_setalloc _ _ _ _ _ v Hr1) as (s2 & H2 & Hr2).
  exists s1, s2. split; [|split; [done|by right]]. unfold sdssetlen. rewrite (raw_type _ _ _ _ _ H), switch_wide by apply H. done.
Qed.

(** s[len] = 0; sdssetlen(s, len); sdssetalloc(s, v) *)
Lemma ready_finish s t bs z rest v : ready s t (bs ++ z :: rest) -> (t = 0 -> zlength bs < 32) -> (t <> 0 -> v = zlength bs + zlength rest /\ v <= sdsTypeMaxSize t) ->
  exists s', (let! s := set_char (zlength bs) 0 s in let! s := sdssetlen s (zlength bs) in sdssetalloc s v) = Ok s' /\ mid s' t (zlength bs) (zlength bs + zlength rest) (bs ++ 0 :: rest).
Proof.
  assert (Hs : set1 (zlength bs) 0 (bs ++ z :: rest) = Ok (bs ++ 0 :: rest)) by (by apply (store_app bs [z] [0] rest)).
  intros [(-> & len & Hp & Hl)|(L & A & Hr)] H5 Hw.
  - assert (Hm : mid s SDS_TYPE_5 len (zlength bs + zlength rest) (bs ++ z :: rest)) by (by left).
    destruct (mid_set_char _ _ _ _ _ Hm (zlength bs) 0 _ ltac:(lia) Hs) as (s1 & -> & Hm1).
    destruct (mid_setlen _ _ _ _ _ Hm1 (zlength bs) ltac:(lia) H5 ltac:(done)) as (s2 & -> & Hm2).
    unfold sdssetalloc. rewrite (mid_type _ _ _ _ _ Hm2). by exists s2.
  - assert (t <> 0) as Hne by (pose proof (proj1 Hr); unfold wide in *; lia). destruct (Hw Hne) as [-> Hm].
    destruct Hr as (Ht & Hp & HL & HA). destruct (set_char_at _ _ _ (zlength bs) _ _ Hp ltac:(lia) Hs) as (s1 & -> & Hp1).
    destruct (raw_sets s1 t L A (zlength bs) (zlength bs + zlength rest) (bs ++ 0 :: rest)) as (s2 & s3 & -> & -> & Hm3); [by split|lia|lia|by exists s3].
Qed.

(** A string is copied behind the header of a block, and its type is set. *)
Lemma install b0 t bs z : wide t -> sdsHdrSize t + zlength bs + 1 <= zlength b0 ->
  exists b s1 L A rest, store (sdsHdrSize t) (bs ++ [z]) b0 = Ok b /\ set_char (-1) t (mkSds b (sdsHdrSize t)) = Ok s1 /\
    raw s1 t L A t (bs ++ z :: rest) /\ zlength rest = zlength b0 - sdsHdrSize t - zlength bs - 1.
Proof.
  intros Ht Hl. assert (Hh : 0 <= sdsHdrSize t) by (by type_cases Ht). destruct (split_at b0 (sdsHdrSize t) (zlength bs + 1)) as (pre & m & rest & -> & Hp & Hm); [lia..|].
  rewrite (store_app pre m (bs ++ [z]) rest) by (rewrite ?length_app; simpl; lia). eexists _. set (b := pre ++ _).
  destruct (raw_intro (mkSds b (sdsHdrSize t)) t pre (bs ++ z :: rest) Ht) as (L & A & f & Hr); [split; [by unfold b; cbn [block]; rewrite <- (assoc_L (++))|done]|done|].
  destruct (raw_set_flags _ _ _ _ _ _ t Hr) as (s1 & H1 & Hr1). exists s1, L, A, rest. split; [done|]. split; [done|]. split; [done|]. rewrite !length_app. lia.
Qed.

(** The string [bs] with the byte [z] behind it and [rest] as free space. *)
Definition holds (s : sds) (t : Z) (bs : list Z) (z : Z) (rest : list Z) : Prop := mid s t (zlength bs) (zlength bs + zlength rest) (bs ++ z :: rest).

(** The sds is the string [bs]. *)
Definition rep (s : sds) (bs : list Z) : Prop := exists t rest, holds s t bs 0 rest /\ zlength bs + zlength rest < 2 ^ 63.

Section Spec.
Context (junk : Z) (usable : Z -> Z) (nallocx : option (Z -> Z)) (malloc_ok : Z -> bool).

(** Blocks are at least as large as requested; so is what je_nallocx announces. *)
Class AllocOk : Prop := {
  usable_ok n : 0 <= n < 2 ^ 62 -> n <= usable n < 2 ^ 63;
  nallocx_ok f n : nallocx = Some f -> 0 <= n < 2 ^ 62 -> n <= f n
}.
Context `{Halloc : AllocOk}.

Notation makeRoom := (_sdsMakeRoomFor junk usable).

(** The string and the byte behind it. *)
Lemma load_prefix (bs : list Z) (z : Z) (rest : list Z) : load 0 (zlength bs + 1) (bs ++ z :: rest) = Ok (bs ++ [z]).
Proof.
  pose proof (load_app [] (bs ++ [z]) rest 0 (zlength bs + 1) eq_refl) as E. cbn [app] in E. rewrite <- (assoc_L (++)) in E. apply E. rewrite length_app. simpl. lia.
Qed.

(** The block after zrealloc to a size that is enough. *)
Lemma realloc_mid s t len alloc bs z rest n : mid s t len alloc (bs ++ z :: rest) -> sdsHdrSize t + zlength bs + 1 <= n ->
  exists rest', mid (mkSds (realloc junk n (block s)) (pos s)) t len alloc (bs ++ z :: rest') /\
    zlength rest' = n - sdsHdrSize t - zlength bs - 1 /\ zlength (realloc junk n (block s)) = n /\ pos s = sdsHdrSize t.
Proof.
  intros H Hn. destruct (mid_frame _ _ _ _ _ H) as (pre & [Hb Hp] & Hl & Hf). unfold realloc. rewrite Hb.
  assert (Hsplit : take (Z.to_nat n) (pre ++ bs ++ z :: rest) = (pre ++ bs ++ [z]) ++ take (Z.to_nat n - length (pre ++ bs ++ [z])) rest).
  { replace (pre ++ bs ++ z :: rest) with ((pre ++ bs ++ [z]) ++ rest) by (by rewrite <- !(assoc_L (++))). rewrite take_app_ge; [done|]. rewrite !length_app. simpl. lia. }
  rewrite Hsplit. set (J := replicate _ junk). set (T := take _ rest). exists (T ++ J). split; [|split; [|split; [|lia]]].
  - apply Hf. split; [|exact Hp]. cbn [block]. by rewrite <- !(assoc_L (++)).
  - unfold T, J. rewrite !length_app, length_take, length_replicate, ?length_app. cbn [length]. lia.
  - unfold T, J. rewrite !length_app, length_take, length_replicate, ?length_app. cbn [length]. lia.
Qed.

Lemma holds_load s t bs z rest : holds s t bs z rest -> load (pos s) (zlength bs + 1) (block s) = Ok (bs ++ [z]).
Proof.
  intros H. pose proof (mid_load _ _ _ _ _ H 0 (zlength bs + 1) ltac:(lia)) as Hl. rewrite Z.add_0_r in Hl. rewrite Hl.
  apply load_prefix.
Qed.

(** The type that is chosen for a string that will grow. *)
Lemma grow_type n : 0 <= n < 2 ^ 62 -> let t := if sdsReqType n =? SDS_TYPE_5 then SDS_TYPE_8 else sdsReqType n in wide t /\ n <= req_max t.
Proof.
  intros Hn. destruct req_max_values as (E8 & _). destruct (reqtype_cases n ltac:(pow_const; lia)) as [[Hlt ->]|(_ & Ht & Hr & _)].
  - change (SDS_TYPE_5 =? SDS_TYPE_5) with true. cbn iota zeta. split; [done|]. rewrite E8. lia.
  - rewrite (proj2 (Z.eqb_neq _ _)) by (unfold wide, SDS_TYPE_5 in *; lia). by split.
Qed.

Lemma holds_avail s t bs z rest : holds s t bs z rest -> zlength bs + zlength rest < 2 ^ 63 -> sdsavail s = Ok (if t =? 0 then 0 else zlength rest).
Proof using Type.
  intros H Hfree. destruct (Z.eqb_spec t 0) as [->|Hne]; [unfold sdsavail; rewrite (mid_type _ _ _ _ _ H); reflexivity|].
  rewrite (mid_avail _ _ _ _ _ H) by (pow_const; lia). rewrite (proj2 (Z.eqb_neq t 0)) by done. f_equal. lia.
Qed.

Lemma makeRoom_spec s t bs z rest addlen greedy : holds s t bs z rest -> zlength bs + zlength rest < 2 ^ 63 -> 0 <= addlen -> zlength bs + addlen < 2 ^ 60 ->
  exists s' t' rest', makeRoom s addlen greedy = Ok s' /\ holds s' t' bs z rest' /\ addlen <= zlength rest' /\ zlength bs + zlength rest' < 2 ^ 63 /\ (t' = 0 -> addlen = 0).
Proof.
  intros H Hfree Ha Hmax. pose proof (mid_bounds _ _ _ _ _ H) as (Ht & _ & H5 & Hw). unfold _sdsMakeRoomFor.
  rewrite (holds_avail _ _ _ _ _ H Hfree), (mid_type _ _ _ _ _ H), (mid_len _ _ _ _ _ H). set (avail := if t =? 0 then _ else _).
  destruct (Z.geb_spec avail addlen) as [Hge|Hlt].
  { exists s, t, rest. split; [done|]. split; [done|]. unfold avail in Hge. destruct (Z.eqb_spec t 0); lia. }
  assert (0 < addlen) by (unfold avail in Hlt; destruct (t =? 0); lia). rewrite (u_id 64 (zlength bs + addlen)) by (pow_const; lia).
  rewrite (proj2 (Z.gtb_lt _ _)) by lia. set (n := if greedy then _ else _). assert (Hn : zlength bs + addlen <= n < 2 ^ 61).
  { subst n. change SDS_MAX_PREALLOC with 1048576. destruct greedy; [|pow_const; lia]. destruct (Z.ltb_spec (zlength bs + addlen) 1048576); rewrite u_id by (pow_const; lia); pow_const; lia. }
  clearbody n. destruct (grow_type n ltac:(pow_const; lia)) as [Htn Hrn]. set (tn := if sdsReqType n =? SDS_TYPE_5 then _ else _) in *. clearbody tn.
  pose proof (type_values tn Htn) as Hv. rewrite !(u_id 64 (sdsHdrSize tn + n + 1)) by (pow_const; lia). rewrite (proj2 (Z.gtb_lt _ _)) by lia.
  pose proof (usable_ok (sdsHdrSize tn + n + 1) ltac:(pow_const; lia)) as Hu. unfold malloc. set (bufsize := usable _) in *. clearbody bufsize.
  destruct (adjust_spec tn bufsize n Htn ltac:(lia) Hu) as (t' & adjusted & -> & Ht' & Hroom & Had & Hh). pose proof (type_values t' Ht') as Hv'.
  assert (Hfin : forall s1 L A rest', raw s1 t' L A t' (bs ++ z :: rest') -> zlength rest' = bufsize - sdsHdrSize t' - zlength bs - 1 ->
    exists s', (let! s2 := sdssetlen s1 (zlength bs) in sdssetalloc s2 (bufsize - sdsHdrSize t' - 1)) = Ok s' /\ holds s' t' bs z rest').
  { intros s1 L A rest' Hr Hrest. destruct (raw_sets _ _ _ _ (zlength bs) (bufsize - sdsHdrSize t' - 1) _ Hr) as (s2 & s3 & H2 & H3 & Hm); [lia|lia|].
    rewrite H2. exists s3. split; [done|]. unfold holds. replace (zlength bs + zlength rest') with (bufsize - sdsHdrSize t' - 1) by lia. done. }
  destruct (Z.eqb_spec t tn) as [->|Hne].
  - destruct (realloc_mid _ _ _ _ _ _ _ bufsize H ltac:(lia)) as (rest1 & Hm1 & Hr1 & Hb1 & Hp1). destruct adjusted.
    + cbn [block pos]. destruct (install (realloc junk bufsize (block s)) t' bs z Ht' ltac:(lia)) as (b & s1 & L & A & rest' & Hst & Hs1 & Hraw & Hrest).
      unfold memmove. rewrite <- Hp1. assert (Hld : load (pos s) (zlength bs + 1) (realloc junk bufsize (block s)) = Ok (bs ++ [z])).
      { pose proof (mid_load _ _ _ _ _ Hm1 0 (zlength bs + 1) ltac:(lia)) as E. cbn [block pos] in E. rewrite Z.add_0_r in E. rewrite E.
        apply load_prefix. }
      rewrite Hld, Hst, Hs1. destruct (Hfin s1 L A rest' Hraw ltac:(lia)) as (s' & Hs' & Hh'). destruct (sdssetlen s1 (zlength bs)) as [s2|]; [|done]. cbn iota beta.
      rewrite (u_id 64) by (pow_const; lia). rewrite (proj2 (Z.leb_le _ _)), orb_true_r by lia. exists s', t', rest'. split; [exact Hs'|]. split; [exact Hh'|]. unfold wide in Ht'. lia.
    + rewrite (Had eq_refl) in *. rewrite (u_id 64) by (pow_const; lia). rewrite (proj2 (Z.leb_le _ _)), orb_true_r by lia. rewrite <- Hp1.
      destruct (mid_setalloc _ _ _ _ _ Hm1 (bufsize - pos s - 1)) as (s' & Hs' & Hm'); [lia|intros _; lia|]. rewrite Hs'. exists s', tn, rest1. split; [done|]. split; [|unfold wide in Htn; lia].
      unfold holds. replace (zlength bs + zlength rest1) with (bufsize - pos s - 1) by lia. done.
  - rewrite (holds_load _ _ _ _ _ H). destruct (install (replicate (Z.to_nat bufsize) junk) t' bs z Ht') as (b & s1 & L & A & rest' & Hst & Hs1 & Hraw & Hrest); [rewrite length_replicate; lia|].
    rewrite Hst, Hs1. rewrite length_replicate in Hrest. destruct (Hfin s1 L A rest' Hraw ltac:(lia)) as (s' & Hs' & Hh'). destruct (sdssetlen s1 (zlength bs)) as [s2|]; [|done]. cbn iota beta.
    rewrite (u_id 64) by (pow_const; lia). rewrite (proj2 (Z.leb_le _ _)), orb_true_r by lia. exists s', t', rest'. split; [exact Hs'|]. split; [exact Hh'|]. unfold wide in Ht'. lia.
Qed.

(** * Shrinking *)

(** A new block for the string: the type that was asked for, or the one that fits the block. *)
Lemma fresh_ready t size bs z : 0 <= t <= 4 -> 0 <= size < 2 ^ 60 -> zlength bs <= size -> (t = 0 -> size < 32) -> (wide t -> size <= req_max t) ->
  let bufsize := usable (sdsHdrSize t + size + 1) in
  exists t' adjusted b s1 rest, adjustTypeIfNeeded t (sdsHdrSize t) bufsize = (t', sdsHdrSize t', adjusted) /\
    store (sdsHdrSize t') (bs ++ [z]) (malloc junk usable (sdsHdrSize t + size + 1)) = Ok b /\ set_char (-1) t' (mkSds b (sdsHdrSize t')) = Ok s1 /\
    ready s1 t' (bs ++ z :: rest) /\ (t' = 0 -> t = 0) /\ 0 <= t' <= 4 /\
    zlength bs + zlength rest = bufsize - sdsHdrSize t' - 1 /\ (t' <> 0 -> bufsize - sdsHdrSize t' - 1 <= sdsTypeMaxSize t') /\ 0 <= bufsize - sdsHdrSize t' - 1 < 2 ^ 63.
Proof.
  intros Ht Hs Hl H5 Hw bufsize. unfold malloc. fold bufsize. destruct (Z.eq_dec t 0) as [->|Hne].
  - change (sdsHdrSize 0) with 1 in *. pose proof (usable_ok (1 + size + 1) ltac:(pow_const; lia)) as Hu. fold bufsize in Hu. clearbody bufsize.
    destruct (split_at (replicate (Z.to_nat bufsize) junk) 1 (zlength bs + 1)) as (pre & m & rest & E & Hp & Hm); [lia|lia|rewrite length_replicate; lia|].
    assert (Hst : store 1 (bs ++ [z]) (replicate (Z.to_nat bufsize) junk) = Ok (pre ++ (bs ++ [z]) ++ rest)) by (rewrite E; apply store_app; [done|rewrite length_app; simpl; lia]).
    destruct pre as [|f [|? ?]]; simpl in Hp; [lia| |lia].
    assert (Hlen : zlength bs + zlength rest = bufsize - 1 - 1). { apply (f_equal length) in E. rewrite length_replicate, !length_app in E. simpl in E. lia. }
    exists 0, false, ([f] ++ (bs ++ [z]) ++ rest), (mkSds ([0] ++ (bs ++ [z]) ++ rest) 1), rest. split; [done|]. split; [exact Hst|].
    split; [unfold set_char, set1; cbn [pos block]; change (sdsHdrSize 0 + -1) with 0; by rewrite (store_app [] [f] [0] ((bs ++ [z]) ++ rest))|]. split; [|change (sdsHdrSize 0) with 1; lia].
    left. split; [done|]. exists 0. split; [|lia]. split; cbn [block pos]; [|done]. by rewrite <- (assoc_L (++)).
  - assert (Htw : wide t) by (unfold wide; lia). pose proof (type_values t Htw) as Hv. pose proof (usable_ok (sdsHdrSize t + size + 1) ltac:(pow_const; lia)) as Hu. fold bufsize in Hu. clearbody bufsize.
    destruct (adjust_spec t bufsize size Htw (conj (proj1 Hs) (Hw Htw)) Hu) as (t' & adjusted & Had & Ht' & Hroom & _ & Hh).
    pose proof (type_values t' Ht') as Hv'. destruct (install (replicate (Z.to_nat bufsize) junk) t' bs z Ht') as (b & s1 & L & A & rest & Hst & Hs1 & Hraw & Hrest); [rewrite length_replicate; lia|].
    rewrite length_replicate in Hrest. exists t', adjusted, b, s1, rest. split; [done|]. split; [done|]. split; [done|]. split; [right; by exists L, A|]. lia.
Qed.

(** The same block, reallocated for [size] bytes. *)
Lemma same_ready s t len alloc bs z rest size : mid s t len alloc (bs ++ z :: rest) -> 0 <= size < 2 ^ 60 -> zlength bs <= size -> (wide t -> size <= req_max t) ->
  let bufsize := usable (sdsHdrSize t + size + 1) in let s0 := mkSds (realloc junk bufsize (block s)) (sdsHdrSize t) in
  exists t' adjusted s1 rest', adjustTypeIfNeeded t (sdsHdrSize t) bufsize = (t', sdsHdrSize t', adjusted) /\
    (if adjusted then let! b := memmove (sdsHdrSize t') (pos s0) (zlength bs + 1) (block s0) in let! s := set_char (-1) t' (mkSds b (sdsHdrSize t')) in sdssetlen s (zlength bs) else Ok s0) = Ok s1 /\
    ready s1 t' (bs ++ z :: rest') /\ (t' = 0 -> t = 0) /\ 0 <= t' <= 4 /\
    zlength bs + zlength rest' = bufsize - sdsHdrSize t' - 1 /\ (t' <> 0 -> bufsize - sdsHdrSize t' - 1 <= sdsTypeMaxSize t') /\ 0 <= bufsize - sdsHdrSize t' - 1 < 2 ^ 63.
Proof.
  intros H Hs Hl Hw bufsize s0. pose proof (mid_bounds _ _ _ _ _ H) as (Ht & _). assert (Hh0 : 1 <= sdsHdrSize t <= 17).
  { destruct (Z.eq_dec t 0) as [->|]; [by vm_compute|]. pose proof (type_values t ltac:(unfold wide; lia)). lia. }
  pose proof (usable_ok (sdsHdrSize t + size + 1) ltac:(pow_const; lia)) as Hu. fold bufsize in Hu. clearbody bufsize.
  destruct (realloc_mid _ _ _ _ _ _ _ bufsize H ltac:(lia)) as (rest1 & Hm1 & Hr1 & Hb1 & Hp1). rewrite Hp1 in Hm1. fold s0 in Hm1.
  destruct (Z.eq_dec t 0) as [->|Hne].
  { exists 0, false, s0, rest1. split; [done|]. split; [done|]. split; [by eapply mid_ready|]. change (sdsHdrSize 0) with 1 in *. lia. }
  assert (Htw : wide t) by (unfold wide; lia). destruct (adjust_spec t bufsize size Htw (conj (proj1 Hs) (Hw Htw)) Hu) as (t' & adjusted & Had & Ht' & Hroom & Hsame & Hh).
  pose proof (type_values t' Ht') as Hv'. exists t', adjusted. rewrite Had. destruct adjusted.
  - destruct (install (realloc junk bufsize (block s)) t' bs z Ht' ltac:(lia)) as (b & s1 & L & A & rest' & Hst & Hs1 & Hraw & Hrest).
    unfold memmove. cbn [block pos s0]. assert (Hld : load (sdsHdrSize t) (zlength bs + 1) (realloc junk bufsize (block s)) = Ok (bs ++ [z])).
    { pose proof (mid_load _ _ _ _ _ Hm1 0 (zlength bs + 1) ltac:(lia)) as E. cbn [s0 block pos] in E. rewrite Z.add_0_r in E. rewrite E. apply load_prefix. }
    rewrite Hld, Hst, Hs1. destruct (raw_set_len _ _ _ _ _ _ (zlength bs) Hraw) as (s2 & Hs2 & Hr2). exists s2, rest'. split; [done|].
    split; [unfold sdssetlen; by rewrite (raw_type _ _ _ _ _ Hraw), switch_wide by done|]. split; [right; by do 2 eexists|]. lia.
  - rewrite (Hsame eq_refl) in *. exists s0, rest1. split; [done|]. split; [done|]. split; [by eapply mid_ready|]. lia.
Qed.

Lemma resize_finish (r : res (sds * Z)) bs :
  (exists s0 v t0 z0 rest0, r = Ok (s0, v) /\ ready s0 t0 (bs ++ z0 :: rest0) /\ (t0 = 0 -> zlength bs < 32) /\
    (t0 <> 0 -> v = zlength bs + zlength rest0 /\ v <= sdsTypeMaxSize t0) /\ zlength bs + zlength rest0 < 2 ^ 63) ->
  exists s', (let! '(s, newsize) := r in let! s := set_char (zlength bs) 0 s in let! s := sdssetlen s (zlength bs) in sdssetalloc s newsize) = Ok s' /\ rep s' bs.
Proof.
  intros (s0 & v & t0 & z0 & rest0 & -> & Hr & H5 & Hw & Hf). destruct (ready_finish _ _ _ _ _ v Hr H5 Hw) as (s' & Hs' & Hm). exists s'. split; [done|]. by exists t0, rest0.
Qed.

Lemma take_split (bs : list Z) (z : Z) rest n : exists z' rest', bs ++ z :: rest = take n bs ++ z' :: rest' /\ (length (take n bs) + length rest' = length bs + length rest)%nat.
Proof.
  pose proof (take_drop n bs) as E. destruct (drop n bs) as [|z' tl].
  - exists z, rest. rewrite app_nil_r in E. rewrite E. by split.
  - exists z', (tl ++ z :: rest). apply (f_equal length) in E as El. rewrite length_app in El. cbn [length] in El. split; [by rewrite <- E at 1; rewrite <- (assoc_L (++))|].
    rewrite length_app. cbn [length]. lia.
Qed.

Lemma resize_type size (would_regrow : bool) : 0 <= size < 2 ^ 60 ->
  let type := if would_regrow && (sdsReqType size =? SDS_TYPE_5) then SDS_TYPE_8 else sdsReqType size in
  0 <= type <= 4 /\ (type = 0 -> size < 32) /\ (wide type -> size <= req_max type).
Proof using Type.
  intros Hs. destruct req_max_values as (E8 & _). destruct (reqtype_cases size ltac:(pow_const; lia)) as [[Hlt ->]|(_ & Hwide & Hr & _)].
  - destruct would_regrow; cbn [andb]; [change (SDS_TYPE_5 =? SDS_TYPE_5) with true; cbn zeta iota; rewrite E8; unfold SDS_TYPE_8; lia|unfold SDS_TYPE_5, wide; lia].
  - rewrite (proj2 (Z.eqb_neq _ _)), andb_false_r by (unfold wide, SDS_TYPE_5 in *; lia). unfold wide in *. lia.
Qed.

Lemma hdr_bound t : 0 <= t <= 4 -> 1 <= sdsHdrSize t <= 17.
Proof using Type. intros Ht. destruct (Z.eq_dec t 0) as [->|]; [by vm_compute|]. pose proof (type_values t ltac:(unfold wide; lia)). lia. Qed.

Lemma sdsresize_spec s bs size would_regrow : rep s bs -> 0 <= size < 2 ^ 60 -> exists s', sdsResize junk usable nallocx s size would_regrow = Ok s' /\ rep s' (take (Z.to_nat size) bs).
Proof.
  intros (t & rest & H & Hfree) Hs. pose proof (mid_bounds _ _ _ _ _ H) as (Ht & _ & H5 & Hw). unfold sdsResize.
  rewrite (mid_type _ _ _ _ _ H), (mid_len _ _ _ _ _ H), (mid_alloc _ _ _ _ _ H). set (alloc := if t =? 0 then _ else _).
  assert (Hal : zlength bs <= alloc /\ (t = 0 -> alloc = zlength bs) /\ (t <> 0 -> alloc = zlength bs + zlength rest)) by (unfold alloc; destruct (Z.eqb_spec t 0); lia).
  destruct (Z.eqb_spec alloc size) as [Heq|Hneq]; [exists s; split; [done|]; exists t, rest; by rewrite take_ge by lia|].
  destruct (take_split bs 0 rest (Z.to_nat size)) as (z' & rest' & Eb & Er). set (bs' := take (Z.to_nat size) bs) in *.
  assert (Hlen : (if size <? zlength bs then size else zlength bs) = zlength bs') by (unfold bs'; rewrite length_take; destruct (Z.ltb_spec size (zlength bs)); lia).
  rewrite Hlen. assert (Hbs' : zlength bs' <= size) by (unfold bs'; rewrite length_take; lia). pose proof H as Hm. unfold holds in Hm. rewrite Eb in Hm.
  destruct (resize_type size would_regrow Hs) as (Hty & Hty5 & Htyw). set (type := if would_regrow && _ then _ else _) in *. clearbody type.
  pose proof (hdr_bound t Ht) as Ht17. pose proof (hdr_bound type Hty) as Hty17. rewrite !(u_id 64 (_ + size + 1)) by (pow_const; lia).
  apply resize_finish. destruct ((t =? type) || ((type <? t) && (type >? SDS_TYPE_8))) eqn:Euse.
  - assert (Hbig : (t = 0 -> size < 32) /\ (wide t -> size <= req_max t)).
    { apply orb_true_iff in Euse as [->%Z.eqb_eq|[Hlt%Z.ltb_lt Hgt%Z.gtb_lt]%andb_true_iff]; [by split|]. unfold SDS_TYPE_8 in Hgt. split; [lia|]. intros Hwt.
      assert (Hwty : wide type) by (unfold wide in *; lia).
      pose proof (type_values t Hwt). pose proof (type_values type Hwty). specialize (Htyw Hwty). rewrite (req_max_sum type) in Htyw by done. rewrite (req_max_sum t) by done. lia. }
    assert (Hres : exists o, (match nallocx with Some nallocx => let! bufsize := sdsAllocSize s in Ok (if nallocx (sdsHdrSize t + size + 1) =? bufsize then Some bufsize else None) | None => Ok None end) = Ok o /\
      forall bufsize, o = Some bufsize -> bufsize = (if t =? 0 then zlength bs + 2 else u64 (sdsHdrSize t + (zlength bs + zlength rest) + 1)) /\ sdsHdrSize t + size + 1 <= bufsize).
    { pose proof nallocx_ok as Hn. destruct nallocx as [f|]; [|by exists None]. specialize (Hn f (sdsHdrSize t + size + 1) eq_refl ltac:(pow_const; lia)).
      rewrite (mid_allocsize _ _ _ _ _ H). eexists. split; [done|]. intros bufsize. destruct (Z.eqb_spec (f (sdsHdrSize t + size + 1)) (if t =? 0 then zlength bs + 2 else u64 (sdsHdrSize t + (zlength bs + zlength rest) + 1))) as [E|]; [|done].
      intros [= <-]. split; [done|]. by rewrite <- E. }
    destruct Hres as (o & -> & Ho). destruct o as [bufsize|].
    + destruct (Ho bufsize eq_refl) as [Eb' Hfit]. clear Ho. destruct (Z.eqb_spec t 0) as [->|Hne].
      * change (0 =? SDS_TYPE_5) with true. cbn [orb]. exists s, (u64 (bufsize - sdsHdrSize 0 - 1)), 0, z', rest'. split; [done|]. split; [by eapply mid_ready|]. lia.
      * pose proof (type_values t ltac:(unfold wide; lia)) as Hv. assert (bufsize = sdsHdrSize t + (zlength bs + zlength rest) + 1) as -> by (rewrite Eb', u_id; [done|pow_const; lia]).
        rewrite (u_id 64) by (pow_const; lia). rewrite (proj2 (Z.leb_le _ _)), orb_true_r by lia.
        exists s, (sdsHdrSize t + (zlength bs + zlength rest) + 1 - sdsHdrSize t - 1), t, z', rest'. split; [done|]. split; [by eapply mid_ready|]. lia.
    + destruct (same_ready _ _ _ _ _ _ _ size Hm Hs Hbs' (proj2 Hbig)) as (t' & adjusted & s1 & rest1 & -> & Hs1 & Hready & Ht0 & Ht' & Hrest1 & Hmax & Hb63).
      rewrite Hs1. rewrite (u_id 64) by (pow_const; lia).
      assert ((t' =? SDS_TYPE_5) || (usable (sdsHdrSize t + size + 1) - sdsHdrSize t' - 1 <=? sdsTypeMaxSize t') = true) as ->.
      { destruct (Z.eqb_spec t' SDS_TYPE_5); [done|]. cbn [orb]. apply Z.leb_le. by apply Hmax. }
      do 5 eexists. split; [done|]. split; [exact Hready|]. lia.
  - destruct (fresh_ready type size bs' z' Hty Hs Hbs' Hty5 Htyw) as (t' & adjusted & b & s1 & rest1 & -> & Hst & Hs1 & Hready & Ht0 & Ht' & Hrest1 & Hmax & Hb63).
    assert (Hld : load (pos s) (zlength bs' + 1) (block s) = Ok (bs' ++ [z'])).
    { pose proof (mid_load _ _ _ _ _ Hm 0 (zlength bs' + 1) ltac:(lia)) as E. rewrite Z.add_0_r in E. rewrite E. apply load_prefix. }
    rewrite Hld, Hst, Hs1. rewrite (u_id 64) by (pow_const; lia).
    assert ((t' =? SDS_TYPE_5) || (usable (sdsHdrSize type + size + 1) - sdsHdrSize t' - 1 <=? sdsTypeMaxSize t') = true) as ->.
    { destruct (Z.eqb_spec t' SDS_TYPE_5); [done|]. cbn [orb]. apply Z.leb_le. by apply Hmax. }
    do 5 eexists. split; [done|]. split; [exact Hready|]. lia.
Qed.

(** * Creation *)

Definition init_bytes (init : sds_init) (initlen : Z) : list Z :=
  match init with INIT_BYTES bs => take (Z.to_nat initlen) bs | _ => replicate (Z.to_nat initlen) 0 end.
Definition init_ok (init : sds_init) (initlen : Z) : Prop :=
  match init with INIT_BYTES bs => initlen <= zlength bs | INIT_NULL => True | INIT_NOINIT => False end.

(** The header of a new string. *)
Lemma place_header buf t initlen : 0 <= t <= 4 -> 0 <= initlen -> (t = 0 -> initlen < 32) -> let hdrlen := sdsHdrSize t in
  hdrlen + initlen + 1 <= zlength buf < 2 ^ 63 -> (t <> 0 -> zlength buf - hdrlen - 1 <= sdsTypeMaxSize t) ->
  exists s body, switch_type t (set_char (-1) (u8 (Z.lor t (u64 (Z.shiftl initlen SDS_TYPE_BITS)))) (mkSds buf hdrlen))
    (fun w => let! s := set_hdr_len w initlen (mkSds buf hdrlen) in assert! u64 (zlength buf - hdrlen - 1) <=? sdsTypeMaxSize t in
       let! s := set_hdr_alloc w (u64 (zlength buf - hdrlen - 1)) s in set_char (-1) t s) (Ok (mkSds buf hdrlen)) = Ok s /\
    mid s t initlen (zlength buf - hdrlen - 1) body /\ zlength body = zlength buf - hdrlen.
Proof.
  intros Ht Hi H5 hdrlen Hb Hmax. assert (Hh : 1 <= hdrlen <= 17).
  { unfold hdrlen. destruct (Z.eq_dec t 0) as [->|]; [by vm_compute|]. pose proof (type_values t ltac:(unfold wide; lia)). lia. }
  rewrite (u_id 64 (zlength buf - hdrlen - 1)) by (pow_const; lia). destruct (Z.eq_dec t 0) as [->|Hne].
  - specialize (H5 eq_refl). unfold hdrlen in *. change (sdsHdrSize 0) with 1 in *. destruct buf as [|f body]; [simpl in Hb; lia|]. cbn [switch_type Z.eqb SDS_TYPE_5].
    change (Z.lor 0 ?z) with z. rewrite Z.shiftl_mul_pow2 by (vm_compute; discriminate). change (2 ^ SDS_TYPE_BITS) with 8. rewrite (u_id 64), (u_id 8) by (pow_const; lia).
    unfold set_char, set1. cbn [block pos]. change (1 + -1) with 0. change (switch_type 0 ?a ?b ?c) with a. rewrite (store_app [] [f] [initlen * 8] body) by done. eexists _, body. split; [done|]. split; [|simpl; lia].
    left. split; [done|]. split; [|lia]. split; cbn [block pos app]; [by rewrite Z.mul_comm|done].
  - assert (Hw : wide t) by (unfold wide; lia). destruct (split_at buf 0 hdrlen) as (l & pre & body & -> & Hl & Hp); [lia..|]. destruct l; [|simpl in Hl; lia].
    cbn [app] in *. rewrite length_app in *. destruct (raw_intro (mkSds (pre ++ body) hdrlen) t pre body Hw) as (L & A & f & Hr); [by split|done|].
    rewrite switch_wide by done. destruct (raw_set_len _ _ _ _ _ _ initlen Hr) as (s1 & -> & Hr1). rewrite (proj2 (Z.leb_le _ _)) by lia.
    destruct (raw_set_alloc _ _ _ _ _ _ (Z.of_nat (length pre + length body) - hdrlen - 1) Hr1) as (s2 & -> & Hr2). destruct (raw_set_flags _ _ _ _ _ _ t Hr2) as (s3 & -> & Hr3).
    exists s3, body. split; [done|]. split; [|lia]. right. split; [done|]. lia.
Qed.

(** The bytes of a new string, and the terminator. *)
Lemma place_bytes s t alloc body init initlen : mid s t initlen alloc body -> 0 <= initlen -> init_ok init initlen -> zlength body = alloc + 1 -> initlen <= alloc ->
  exists s' rest, (let! s := match init with
      | INIT_NOINIT => Ok s
      | INIT_NULL => copy_in 0 (replicate (Z.to_nat initlen) 0) s
      | INIT_BYTES bs => if negb (initlen =? 0) then let! bs := load 0 initlen bs in copy_in 0 bs s else Ok s
      end in set_char initlen 0 s) = Ok s' /\ holds s' t (init_bytes init initlen) 0 rest /\ zlength (init_bytes init initlen) = initlen /\ initlen + zlength rest = alloc.
Proof.
  intros H Hi Hok Hb Hl. assert (Hlen : zlength (init_bytes init initlen) = initlen).
  { destruct init; cbn [init_bytes init_ok] in *; [rewrite length_replicate; lia|done|rewrite length_take; lia]. }
  destruct (split_at body 0 initlen) as (l & m & r & -> & Hl0 & Hm); [lia..|]. destruct l; [|simpl in Hl0; lia]. cbn [app] in *. rewrite length_app in Hb.
  destruct r as [|x rest]; [simpl in Hb; lia|]. cbn [length] in Hb.
  assert (Hcopy : store 0 (init_bytes init initlen) (m ++ x :: rest) = Ok (init_bytes init initlen ++ x :: rest)) by (apply (store_app [] m (init_bytes init initlen) (x :: rest)); [done|lia]).
  destruct (mid_copy _ _ _ _ _ H 0 _ _ ltac:(lia) Hcopy) as (s1 & Hc1 & Hm1).
  assert (Hinit : exists s1', (match init with INIT_NOINIT => Ok s | INIT_NULL => copy_in 0 (replicate (Z.to_nat initlen) 0) s
      | INIT_BYTES bs => if negb (initlen =? 0) then let! bs := load 0 initlen bs in copy_in 0 bs s else Ok s end) = Ok s1' /\ mid s1' t initlen alloc (init_bytes init initlen ++ x :: rest)).
  { destruct init as [| |bs]; cbn [init_ok init_bytes] in *; [by exists s1|done|]. destruct (Z.eqb_spec initlen 0) as [->|Hne]; cbn [negb].
    - exists s. split; [done|]. destruct m; [done|simpl in Hm; lia].
    - unfold load. rewrite (proj2 (Z.leb_le 0 initlen)), (proj2 (Z.leb_le (0 + initlen) _)) by lia. by exists s1. }
  destruct Hinit as (s1' & -> & Hm1'). destruct (mid_set_char _ _ _ _ _ Hm1' initlen 0 (init_bytes init initlen ++ 0 :: rest) ltac:(lia)) as (s2 & -> & Hm2).
  { by apply (store_app _ [x] [0] rest). }
  exists s2, rest. split; [done|]. split; [|lia]. unfold holds. rewrite Hlen. by replace (initlen + zlength rest) with alloc by lia.
Qed.

Lemma newlen_spec init initlen : 0 <= initlen < 2 ^ 60 -> init_ok init initlen ->
  exists s, sdsnewlen junk usable malloc_ok init initlen = Ok s /\ rep s (init_bytes init initlen).
Proof.
  intros Hi Hok. unfold sdsnewlen, _sdsnewlen. set (t := if (sdsReqType initlen =? SDS_TYPE_5) && (initlen =? 0) then _ else _).
  assert (Ht : 0 <= t <= 4 /\ (t = 0 -> initlen < 32) /\ (wide t -> initlen <= req_max t)).
  { destruct req_max_values as (E8 & _). unfold t. destruct (reqtype_cases initlen ltac:(pow_const; lia)) as [[Hlt ->]|(_ & Hw & Hr & _)].
    - change (SDS_TYPE_5 =? SDS_TYPE_5) with true. destruct (initlen =? 0); cbn [andb]; [rewrite E8|]; unfold SDS_TYPE_8, SDS_TYPE_5, wide; lia.
    - rewrite (proj2 (Z.eqb_neq _ SDS_TYPE_5)) by (unfold wide, SDS_TYPE_5 in *; lia). cbn [andb]. unfold wide in *. lia. }
  clearbody t. destruct Ht as (Ht & H5 & Hw). assert (Hh : 1 <= sdsHdrSize t <= 17).
  { destruct (Z.eq_dec t 0) as [->|]; [by vm_compute|]. pose proof (type_values t ltac:(unfold wide; lia)). lia. }
  rewrite !(u_id 64) by (pow_const; lia). rewrite (proj2 (Z.gtb_lt _ _)) by lia. cbn [andb].
  replace (sdsHdrSize t + initlen + 1) with (sdsHdrSize t + initlen + 1) by lia. set (size := sdsHdrSize t + initlen + 1). pose proof (usable_ok size ltac:(unfold size; pow_const; lia)) as Hu.
  assert (Had : exists t' adjusted, adjustTypeIfNeeded t (sdsHdrSize t) (usable size) = (t', sdsHdrSize t', adjusted) /\ 0 <= t' <= 4 /\ (t' = 0 -> t = 0) /\
    initlen <= usable size - sdsHdrSize t' - 1 /\ (t' <> 0 -> usable size - sdsHdrSize t' - 1 <= sdsTypeMaxSize t')).
  { destruct (Z.eq_dec t 0) as [->|Hne]; [exists 0, false; split; [done|]; unfold size in *; lia|]. assert (Hwt : wide t) by (unfold wide; lia).
    destruct (adjust_spec t (usable size) initlen Hwt (conj (proj1 Hi) (Hw Hwt))) as (t' & ad & E & Ht' & Hr & _); [unfold size in *; lia|]. exists t', ad. split; [done|]. unfold wide in Ht'. lia. }
  destruct Had as (t' & ad & -> & Ht' & Ht0 & Hroom & Hmax). unfold sdsnewplacement, sdsReqSize. assert (Hh' : 1 <= sdsHdrSize t' <= 17).
  { destruct (Z.eq_dec t' 0) as [->|]; [by vm_compute|]. pose proof (type_values t' ltac:(unfold wide; lia)). lia. }
  rewrite (u_id 64 (initlen + sdsHdrSize t' + 1)) by (pow_const; lia). rewrite (proj2 (Z.geb_le _ _)) by lia.
  assert (Hz : zlength (malloc junk usable size) = usable size) by (unfold malloc; rewrite length_replicate; lia).
  destruct (place_header (malloc junk usable size) t' initlen Ht' (proj1 Hi)) as (s & body & Hs & Hm & Hb); [intros E; apply H5, Ht0, E|rewrite Hz; lia|intros E; rewrite Hz; by apply Hmax|].
  rewrite Hz in *. rewrite Hs. destruct (place_bytes _ _ _ _ init initlen Hm (proj1 Hi) Hok) as (s' & rest & Hs' & Hh2 & Hl & Hr); [lia|lia|].
  rewrite Hs'. exists s'. split; [done|]. exists t', rest. split; [done|lia].
Qed.

(** * Contents *)

Lemma setchar_app (bs : list Z) z rest c : set1 (zlength bs) c (bs ++ z :: rest) = Ok (bs ++ c :: rest).
Proof. by apply (store_app bs [z] [c] rest). Qed.

(** s[len] = 0; sdssetlen(s, len) in either order, when the bytes are in place. *)
Section Finish.
Context (s : sds) (t len alloc : Z) (bs : list Z) (z : Z) (rest : list Z).
Hypothesis H : mid s t len alloc (bs ++ z :: rest).
Hypothesis H5 : t = 0 -> zlength bs < 32.
Hypothesis Hw : t <> 0 -> alloc = zlength bs + zlength rest.

Lemma holds_of_mid s' z' : mid s' t (zlength bs) alloc (bs ++ z' :: rest) -> holds s' t bs z' rest.
Proof.
  clear H H5. intros Hm. unfold holds. destruct (Z.eq_dec t 0) as [->|Hne]; [|by rewrite <- Hw].
  destruct Hm as [(Ht & Hp & Hl)|[[Hwide _] _]]; [by left|unfold wide in Hwide; lia].
Qed.

Lemma finish_set_len : exists s', (let! s := set_char (zlength bs) 0 s in sdssetlen s (zlength bs)) = Ok s' /\ holds s' t bs 0 rest.
Proof.
  destruct (mid_set_char _ _ _ _ _ H (zlength bs) 0 _ ltac:(lia) (setchar_app _ _ _ _)) as (s1 & -> & Hm1).
  destruct (mid_setlen _ _ _ _ _ Hm1 (zlength bs)) as (s2 & -> & Hm2); [lia|done|intros Hne; rewrite (Hw Hne); lia|]. exists s2. split; [done|]. by apply holds_of_mid.
Qed.

Lemma finish_len_set : exists s', (let! s := sdssetlen s (zlength bs) in set_char (zlength bs) 0 s) = Ok s' /\ holds s' t bs 0 rest.
Proof.
  destruct (mid_setlen _ _ _ _ _ H (zlength bs)) as (s1 & -> & Hm1); [lia|done|intros Hne; rewrite (Hw Hne); lia|].
  destruct (mid_set_char _ _ _ _ _ Hm1 (zlength bs) 0 _ ltac:(lia) (setchar_app _ _ _ _)) as (s2 & -> & Hm2). exists s2. split; [done|]. by apply holds_of_mid.
Qed.
End Finish.

(** The first [n] bytes of memory, and what is behind them. *)
Lemma body_split (bs : list Z) (z : Z) rest n : 0 <= n <= zlength bs + zlength rest ->
  exists m x r, bs ++ z :: rest = m ++ x :: r /\ zlength m = n /\ zlength m + zlength r = zlength bs + zlength rest.
Proof.
  intros Hn. destruct (split_at (bs ++ z :: rest) 0 n) as (l & m & r & E & Hl & Hm); [lia|lia|rewrite length_app; simpl; lia|]. destruct l; [|simpl in Hl; lia]. cbn [app] in E.
  apply (f_equal length) in E as El. rewrite !length_app in El. cbn [length] in El. destruct r as [|x r]; [simpl in El; lia|]. cbn [length] in El. exists m, x, r. split; [done|]. lia.
Qed.

Lemma catlen_spec s bs t len : rep s bs -> 0 <= len <= zlength t -> zlength bs + len < 2 ^ 60 ->
  exists s', sdscatlen junk usable s t len = Ok s' /\ rep s' (bs ++ take (Z.to_nat len) t).
Proof.
  intros (ty & rest & H & Hfree) Hlen Hmax. unfold sdscatlen. rewrite (mid_len _ _ _ _ _ H).
  destruct (makeRoom_spec s ty bs 0 rest len true H Hfree (proj1 Hlen) Hmax) as (s1 & t1 & rest1 & Hroom & H1 & Hr1 & Hf1 & H51). unfold sdsMakeRoomFor. rewrite Hroom.
  unfold load. rewrite (proj2 (Z.leb_le 0 len)), (proj2 (Z.leb_le (0 + len) _)) by lia. cbn [andb Z.leb Z.compare]. change (drop (Z.to_nat 0) t) with t.
  set (x := take (Z.to_nat len) t). assert (Hx : zlength x = len) by (unfold x; rewrite length_take; lia).
  destruct (body_split [] 0 rest1 len ltac:(simpl; lia)) as (m & y & r & E & Hm & Hr). cbn [app length] in E, Hr.
  pose proof (mid_bounds _ _ _ _ _ H1) as (_ & _ & H5 & _). unfold holds in H1. rewrite E in H1.
  assert (Hst : store (zlength bs) x (bs ++ m ++ y :: r) = Ok ((bs ++ x) ++ y :: r)) by (rewrite <- (assoc_L (++)); apply store_app; [done|lia]).
  destruct (mid_copy _ _ _ _ _ H1 (zlength bs) x _ ltac:(lia) Hst) as (s2 & -> & H2).
  replace (zlength bs + len) with (zlength (bs ++ x)) by (rewrite length_app; lia).
  destruct (finish_len_set s2 t1 _ _ (bs ++ x) y r H2) as (s3 & -> & H3); [intros E0; rewrite length_app; specialize (H5 E0); specialize (H51 E0); lia|intros _; rewrite length_app; simpl in Hr; lia|].
  exists s3. split; [done|]. exists t1, r. split; [done|]. rewrite length_app. simpl in Hr. lia.
Qed.

Lemma cpylen_spec s bs t len : rep s bs -> 0 <= len <= zlength t -> zlength bs < 2 ^ 60 -> len < 2 ^ 60 ->
  exists s', sdscpylen junk usable s t len = Ok s' /\ rep s' (take (Z.to_nat len) t).
Proof.
  intros (ty & rest & H & Hfree) Hlen Hmax Hmaxl. unfold sdscpylen. rewrite (mid_alloc _ _ _ _ _ H), (mid_len _ _ _ _ _ H).
  pose proof (mid_bounds _ _ _ _ _ H) as (_ & _ & H5 & _).
  assert (Hroom : exists s1 t1 rest1, (if (if ty =? 0 then zlength bs else zlength bs + zlength rest) <? len then sdsMakeRoomFor junk usable s (u64 (len - zlength bs)) else Ok s) = Ok s1 /\
    holds s1 t1 bs 0 rest1 /\ len <= zlength bs + zlength rest1 < 2 ^ 63 /\ (t1 = 0 -> len < 32)).
  { destruct (Z.ltb_spec (if ty =? 0 then zlength bs else zlength bs + zlength rest) len) as [Hlt|Hge].
    - assert (zlength bs < len) by (destruct (ty =? 0); lia). rewrite u_id by (pow_const; lia).
      destruct (makeRoom_spec s ty bs 0 rest (len - zlength bs) true H Hfree) as (s1 & t1 & rest1 & Hroom & H1 & Hr1 & Hf1 & H51); [lia|lia|]. exists s1, t1, rest1.
      split; [done|]. split; [done|]. split; [lia|]. intros E. specialize (H51 E). lia.
    - exists s, ty, rest. split; [done|]. split; [done|]. destruct (Z.eqb_spec ty 0); split; lia. }
  destruct Hroom as (s1 & t1 & rest1 & -> & H1 & Hl1 & H51). unfold load. rewrite (proj2 (Z.leb_le 0 len)), (proj2 (Z.leb_le (0 + len) _)) by lia. cbn [andb Z.leb Z.compare].
  change (drop (Z.to_nat 0) t) with t. set (x := take (Z.to_nat len) t). assert (Hx : zlength x = len) by (unfold x; rewrite length_take; lia).
  destruct (body_split bs 0 rest1 len ltac:(lia)) as (m & y & r & E & Hm & Hr). unfold holds in H1. rewrite E in H1.
  assert (Hst : store 0 x (m ++ y :: r) = Ok (x ++ y :: r)) by (apply (store_app [] m x (y :: r)); [done|lia]).
  destruct (mid_copy _ _ _ _ _ H1 0 x _ ltac:(lia) Hst) as (s2 & -> & H2). rewrite <- Hx.
  destruct (finish_set_len s2 t1 _ _ x y r H2) as (s3 & -> & H3); [intros E0; specialize (H51 E0); lia|intros _; lia|].
  exists s3. split; [done|]. exists t1, r. split; [done|lia].
Qed.

Lemma growzero_spec s bs len : rep s bs -> zlength bs < 2 ^ 60 -> 0 <= len < 2 ^ 60 ->
  exists s', sdsgrowzero junk usable s len = Ok s' /\ rep s' (bs ++ replicate (Z.to_nat len - length bs) 0).
Proof.
  intros (ty & rest & H & Hfree) Hb Hmax. unfold sdsgrowzero. rewrite (mid_len _ _ _ _ _ H). destruct (Z.leb_spec len (zlength bs)) as [Hle|Hgt].
  { exists s. split; [done|]. exists ty, rest. replace (Z.to_nat len - length bs)%nat with 0%nat by lia. by rewrite app_nil_r. }
  destruct (makeRoom_spec s ty bs 0 rest (len - zlength bs) true H Hfree) as (s1 & t1 & rest1 & Hroom & H1 & Hr1 & Hf1 & H51); [lia|lia|]. unfold sdsMakeRoomFor. rewrite Hroom.
  assert (t1 <> 0) as Hne by (intros E; specialize (H51 E); lia). destruct (body_split [] 0 rest1 (len - zlength bs) ltac:(simpl; lia)) as (m & y & r & E & Hm & Hr). cbn [app length] in E, Hr.
  unfold holds in H1. rewrite E in H1. set (zs := replicate (Z.to_nat len - length bs) 0). assert (Hz : zlength zs = len - zlength bs) by (unfold zs; rewrite length_replicate; lia).
  assert (Hrep : replicate (Z.to_nat (len - zlength bs + 1)) 0 = zs ++ [0]).
  { unfold zs. replace (Z.to_nat (len - zlength bs + 1)) with (Z.to_nat len - length bs + 1)%nat by lia. by rewrite replicate_add. }
  assert (Hst : store (zlength bs) (zs ++ [0]) (bs ++ m ++ y :: r) = Ok ((bs ++ zs) ++ 0 :: r)).
  { change (m ++ y :: r) with (m ++ [y] ++ r). rewrite (assoc_L (++) m). rewrite (store_app bs (m ++ [y]) (zs ++ [0]) r) by (rewrite ?length_app; simpl; lia). by rewrite <- !(assoc_L (++)). }
  rewrite Hrep. destruct (mid_copy _ _ _ _ _ H1 (zlength bs) _ _ ltac:(lia) Hst) as (s2 & -> & H2).
  destruct (mid_setlen _ _ _ _ _ H2 len) as (s3 & -> & H3); [lia|done|intros _; simpl in Hr; lia|]. exists s3. split; [done|]. exists t1, r.
  assert (Hl : zlength (bs ++ zs) = len) by (rewrite length_app; lia). rewrite <- Hl in H3. simpl in Hr. split; [|lia].
  apply holds_of_mid with (alloc := zlength bs + zlength rest1); [intros _; lia|done].
Qed.

(** Bytes are moved to the front. *)
Lemma move_spec s bs start len (b : bool) : rep s bs -> 0 <= start -> 0 <= len -> start + len <= zlength bs -> (b = false -> len = 0 \/ start = 0) ->
  exists s', (let! s := (if b then move_in 0 start len s else Ok s) in let! s := set_char len 0 s in sdssetlen s len) = Ok s' /\
    rep s' (take (Z.to_nat len) (drop (Z.to_nat start) bs)).
Proof.
  intros (ty & rest & H & Hfree) H0 Hl Hs Hb. set (x := take (Z.to_nat len) (drop (Z.to_nat start) bs)). assert (Hx : zlength x = len) by (unfold x; rewrite length_take, length_drop; lia).
  pose proof (mid_bounds _ _ _ _ _ H) as (_ & _ & H5 & _). destruct (body_split bs 0 rest len ltac:(lia)) as (m & y & r & E & Hm & Hr). unfold holds in H.
  assert (Hmv : memmove 0 start len (bs ++ 0 :: rest) = Ok (x ++ y :: r)).
  { unfold memmove, load. rewrite (proj2 (Z.leb_le 0 start)), (proj2 (Z.leb_le 0 len)), (proj2 (Z.leb_le (start + len) _)) by (rewrite ?length_app; lia). cbn [andb].
    rewrite drop_app_le, take_app_le by (rewrite ?length_drop; lia). fold x. rewrite E. apply (store_app [] m x (y :: r)); [done|lia]. }
  assert (Hmid : exists s1, (if b then move_in 0 start len s else Ok s) = Ok s1 /\ mid s1 ty (zlength bs) (zlength bs + zlength rest) (x ++ y :: r)).
  { destruct b; [apply (mid_move _ _ _ _ _ H); [lia|lia|done]|]. exists s. split; [done|]. replace x with m; [by rewrite <- E|].
    assert (m = take (Z.to_nat len) bs) as ->.
    { apply (f_equal (take (Z.to_nat len))) in E. rewrite take_app_le in E by lia. rewrite E, take_app_le, take_ge by lia. done. }
    unfold x. destruct (Hb eq_refl) as [-> | ->]; [by change (Z.to_nat 0) with 0%nat; rewrite !take_0|done]. }
  destruct Hmid as (s1 & -> & H1). rewrite <- Hx. destruct (finish_set_len s1 ty _ _ x y r H1) as (s2 & -> & H2); [intros E0; specialize (H5 E0); lia|intros _; lia|].
  exists s2. split; [done|]. exists ty, r. split; [done|lia].
Qed.

Lemma rep_len s bs : rep s bs -> sdslen s = Ok (zlength bs).
Proof. intros (t & rest & H & _). by rewrite (mid_len _ _ _ _ _ H). Qed.

Lemma rep_load s bs : rep s bs -> load (pos s) (zlength bs + 1) (block s) = Ok (bs ++ [0]).
Proof. intros (t & rest & H & _). by apply (holds_load _ t _ _ rest). Qed.

Lemma rep_chars s bs : rep s bs -> exists rest, chars s = bs ++ 0 :: rest.
Proof. intros (t & rest & H & _). exists rest. by apply (mid_chars _ _ _ _ _ H). Qed.

Lemma rep_char s bs i : rep s bs -> 0 <= i < zlength bs -> exists c, char_at i s = Ok c /\ bs !! Z.to_nat i = Some c.
Proof.
  intros (t & rest & H & _) Hi. rewrite (mid_char _ _ _ _ _ H) by lia. destruct (lookup_lt_is_Some_2 bs (Z.to_nat i)) as [c Hc]; [lia|].
  exists c. split; [|done]. apply get1_Ok. split; [lia|]. by apply lookup_app_l_Some.
Qed.

(** The characters from [start] on, at most [len] of them. *)
Lemma substr_spec s bs start len : rep s bs -> 0 <= start -> 0 <= len ->
  exists s', sdssubstr s start len = Ok s' /\ rep s' (take (Z.to_nat len) (drop (Z.to_nat start) bs)).
Proof.
  intros H Hs Hl. unfold sdssubstr. rewrite (rep_len _ _ H). destruct (Z.geb_spec start (zlength bs)) as [Hge|Hlt].
  - rewrite Z.sub_0_r. destruct (Z.gtb_spec 0 (zlength bs)); [lia|]. destruct (move_spec s bs 0 0 false H) as (s' & Hs' & Hr); [lia|lia|lia|by left|]. exists s'. split; [exact Hs'|].
    rewrite drop_ge, take_nil by lia. done.
  - destruct (Z.gtb_spec len (zlength bs - start)) as [Hg|Hle].
    + destruct (move_spec s bs start (zlength bs - start) (negb (zlength bs - start =? 0)) H ltac:(lia) ltac:(lia) ltac:(lia) (fun E => or_introl (proj1 (Z.eqb_eq _ _) (proj1 (negb_false_iff _) E)))) as (s' & Hs' & Hr). exists s'. split; [exact Hs'|].
      rewrite take_ge in Hr by (rewrite length_drop; lia). by rewrite take_ge by (rewrite length_drop; lia).
    + destruct (move_spec s bs start len (negb (len =? 0)) H ltac:(lia) ltac:(lia) ltac:(lia) (fun E => or_introl (proj1 (Z.eqb_eq _ _) (proj1 (negb_false_iff _) E)))) as (s' & Hs' & Hr). by exists s'.
Qed.

(** The index of sdsrange, counted from the end when negative. *)
Definition range_index (n i : Z) : Z := if i <? 0 then n + i else i.

(** From [start] to [end_]; nothing when [start] is before the string. *)
Definition range_bytes (bs : list Z) (start end_ : Z) : list Z :=
  let a := range_index (zlength bs) start in
  let b := range_index (zlength bs) end_ in
  if (a <? 0) || (b <? a) then [] else take (Z.to_nat (b - a + 1)) (drop (Z.to_nat a) bs).

Lemma range_spec s bs start end_ : rep s bs -> zlength bs < 2 ^ 60 -> in_s 64 start -> in_s 64 end_ ->
  exists s', sdsrange s start end_ = Ok s' /\ rep s' (range_bytes bs start end_).
Proof.
  unfold in_s. change (2 ^ (64 - 1)) with 9223372036854775808. intros H Hb Hs He. unfold sdsrange. rewrite (rep_len _ _ H).
  unfold range_bytes. destruct (Z.eqb_spec (zlength bs) 0) as [H0|Hne].
  { exists s. split; [done|]. destruct bs; [|simpl in H0; lia]. rewrite drop_nil, take_nil. by case_match. }
  assert (Hidx : forall i, - 9223372036854775808 <= i < 9223372036854775808 -> (if i <? 0 then s64 (zlength bs + i) else i) = range_index (zlength bs) i).
  { intros i Hi. unfold range_index. destruct (Z.ltb_spec i 0); [|done]. apply s_id; [lia|]. unfold in_s. change (2 ^ (64 - 1)) with 9223372036854775808. pow_const. lia. }
  rewrite !Hidx by done. set (a := range_index _ start). set (b := range_index _ end_).
  assert (Hab : - 9223372036854775808 <= a < 9223372036854775808 /\ - 9223372036854775808 <= b < 9223372036854775808) by (subst a b; unfold range_index; do 2 case_match; pow_const; lia).
  clearbody a b. destruct (Z.ltb_spec a 0) as [Ha|Ha]; cbn [orb].
  - assert (Hu : u64 a = 2 ^ 64 + a) by (unfold u; rewrite <- (Z.mod_add a 1) by done; rewrite Z.mod_small; pow_const; lia). rewrite Hu.
    assert (Hlen : 0 <= (if a >? b then 0 else u64 (s64 (b - a) + 1))) by (destruct (a >? b); [lia|apply u_range; lia]).
    destruct (substr_spec s bs (2 ^ 64 + a) _ H ltac:(pow_const; lia) Hlen) as (s' & Hs' & Hr). exists s'. split; [exact Hs'|].
    rewrite drop_ge, take_nil in Hr by (pow_const; lia). done.
  - rewrite (u_id 64 a) by (pow_const; lia). rewrite Z.gtb_ltb. destruct (Z.ltb_spec b a) as [Hba|Hba].
    + destruct (substr_spec s bs a 0 H) as (s' & Hs' & Hr); [lia..|]. by exists s'.
    + rewrite (s_id 64), u_id by (unfold in_s; pow_const; change (2 ^ (64 - 1)) with 9223372036854775808; lia).
      destruct (substr_spec s bs a (b - a + 1) H) as (s' & Hs' & Hr); [lia..|]. by exists s'.
Qed.

Lemma clear_spec s bs : rep s bs -> exists s', sdsclear s = Ok s' /\ rep s' [].
Proof.
  intros (t & rest & H & Hf). unfold sdsclear. destruct (body_split bs 0 rest 0 ltac:(lia)) as (m & x & r & E & Hm & Hr). destruct m; [|simpl in Hm; lia].
  unfold holds in H. rewrite E in H. destruct (finish_len_set s t _ _ [] x r H) as (s' & Hs' & H'); [simpl; lia|intros _; lia|].
  exists s'. split; [exact Hs'|]. exists t, r. split; [done|]. simpl in Hr |- *. lia.
Qed.

(** ** Characters *)

Lemma map_loop_spec f g n : forall s pre bs, rep s (pre ++ bs) -> length bs = n -> (forall c, c ∈ bs -> f c = Ok (g c)) ->
  exists s', map_loop n f s (zlength pre) = Ok s' /\ rep s' (pre ++ (g <$> bs)).
Proof.
  induction n as [|n IH]; intros s pre bs H Hn Hf; [destruct bs; [by exists s|done]|]. destruct bs as [|c bs]; [done|]. cbn [map_loop].
  destruct H as (t & rest & H & Hfree). rewrite (mid_char _ _ _ _ _ H), <- (assoc_L (++)) by lia. cbn [app]. rewrite get1_app by done. rewrite Hf by (by left).
  assert (Hst : set1 (zlength pre) (g c) ((pre ++ c :: bs) ++ 0 :: rest) = Ok ((pre ++ g c :: bs) ++ 0 :: rest)) by (rewrite <- !(assoc_L (++)); apply setchar_app).
  destruct (mid_set_char _ _ _ _ _ H (zlength pre) _ _ ltac:(lia) Hst) as (s1 & -> & H1).
  assert (Hl : zlength (pre ++ c :: bs) = zlength ((pre ++ [g c]) ++ bs)) by (rewrite !length_app; simpl; lia).
  destruct (IH s1 (pre ++ [g c]) bs) as (s2 & Hs2 & H2).
  - exists t, rest. rewrite Hl in *. split; [|done]. unfold holds. by rewrite <- (assoc_L (++) pre) in *.
  - simpl in Hn. lia.
  - intros c' Hc'. apply Hf. by right.
  - exists s2. replace (zlength (pre ++ [g c])) with (zlength pre + 1) in Hs2 by (rewrite length_app; simpl; lia). split; [exact Hs2|]. rewrite <- (assoc_L (++)) in H2. done.
Qed.

Lemma map_spec f g s bs : rep s bs -> (forall c, f c = Ok (g c)) -> exists s', (let! len := sdslen s in map_loop (Z.to_nat len) f s 0) = Ok s' /\ rep s' (g <$> bs).
Proof. intros H Hf. rewrite (rep_len _ _ H), Nat2Z.id. by apply (map_loop_spec f g (length bs) s [] bs). Qed.

(** The first occurrence decides. *)
Fixpoint map_chars (from to : list Z) (c : Z) : Z :=
  match from, to with f :: from, t :: to => if c =? f then t else map_chars from to c | _, _ => c end.

Lemma map_char_spec c : forall fr to pf pt tf tt, length fr = length to -> length pf = length pt ->
  map_char (length fr) (pf ++ fr ++ tf) (pt ++ to ++ tt) (zlength pf) c = Ok (map_chars fr to c).
Proof.
  induction fr as [|f fr IH]; intros [|t to] pf pt tf tt Hl Hp; try done. cbn [length map_char map_chars app]. rewrite get1_app by done.
  destruct (c =? f); [by rewrite get1_app by lia|]. specialize (IH to (pf ++ [f]) (pt ++ [t]) tf tt). rewrite <- !(assoc_L (++)) in IH. cbn [app] in IH.
  replace (zlength (pf ++ [f])) with (zlength pf + 1) in IH by (rewrite length_app; simpl; lia). apply IH; [simpl in Hl; lia|rewrite !length_app; simpl; lia].
Qed.

Lemma mapchars_spec s bs from to setlen : rep s bs -> 0 <= setlen -> setlen <= zlength from -> setlen <= zlength to ->
  exists s', sdsmapchars s from to setlen = Ok s' /\ rep s' (map_chars (take (Z.to_nat setlen) from) (take (Z.to_nat setlen) to) <$> bs).
Proof.
  intros H H0 Hf Ht. unfold sdsmapchars. apply map_spec; [done|]. intros c.
  pose proof (map_char_spec c (take (Z.to_nat setlen) from) (take (Z.to_nat setlen) to) [] [] (drop (Z.to_nat setlen) from) (drop (Z.to_nat setlen) to)) as E.
  cbn [app length] in E. rewrite !take_drop in E. rewrite !length_take in E. replace (Z.to_nat setlen `min` length from)%nat with (Z.to_nat setlen) in E by lia. apply E; lia.
Qed.

(** ** Trimming *)

(** A character of the C string [cset], or the terminator. *)
Definition trimmed (cset : list Z) (c : Z) : bool := bool_decide (c ∈ cset) || (c =? 0).

Lemma strlen_cstr bs rest : 0 ∉ bs -> strlen (bs ++ 0 :: rest) = Ok (zlength bs).
Proof.
  induction bs as [|b bs IH]; intros H; [done|]. cbn [strlen app]. apply not_elem_of_cons in H as [Hb H]. rewrite (proj2 (Z.eqb_neq b 0)) by done. rewrite IH by done.
  cbn [length]. f_equal. lia.
Qed.

Lemma in_cset_spec cset rest c : 0 ∉ cset -> in_cset (cset ++ 0 :: rest) c = Ok (trimmed cset c).
Proof.
  intros H. unfold in_cset, trimmed. rewrite strlen_cstr by done. replace (Z.to_nat (zlength cset + 1)) with (length cset + 1)%nat by lia. rewrite take_app_add. cbn [take].
  f_equal. apply eq_true_iff_eq. rewrite bool_decide_eq_true, orb_true_iff, bool_decide_eq_true, Z.eqb_eq, elem_of_app. split; (intros [|E]; [by left|right]); [by apply list_elem_of_singleton in E|subst; by left].
Qed.

Fixpoint drop_while (p : Z -> bool) (l : list Z) : list Z := match l with c :: l' => if p c then drop_while p l' else l | [] => [] end.

(** Both ends of the string. *)
Definition trim_bytes (p : Z -> bool) (bs : list Z) : list Z := reverse (drop_while p (reverse (drop_while p bs))).

Lemma trim_left_spec s cset rest fuel : 0 ∉ cset -> forall pre bs, rep s (pre ++ bs) -> (length bs <= fuel)%nat ->
  trim_left fuel s (cset ++ 0 :: rest) (zlength pre) (zlength (pre ++ bs) - 1) = Ok (zlength (pre ++ bs) - zlength (drop_while (trimmed cset) bs)).
Proof.
  intros Hc. induction fuel as [|fuel IH]; intros pre bs H Hf.
  { destruct bs; [|simpl in Hf; lia]. cbn [trim_left drop_while]. rewrite app_nil_r, (proj2 (Z.leb_gt _ _)) by lia. f_equal. simpl. lia. }
  cbn [trim_left]. destruct bs as [|c bs]; [rewrite app_nil_r, (proj2 (Z.leb_gt _ _)) by lia; f_equal; simpl; lia|].
  rewrite (proj2 (Z.leb_le _ _)) by (rewrite length_app; simpl; lia). destruct (rep_char s _ (zlength pre) H) as (c' & -> & Hl); [rewrite length_app; simpl; lia|].
  rewrite Nat2Z.id, list_lookup_middle in Hl by done. injection Hl as <-. rewrite in_cset_spec by done. cbn [drop_while]. destruct (trimmed cset c).
  - specialize (IH (pre ++ [c]) bs). rewrite <- (assoc_L (++)) in IH. replace (zlength (pre ++ [c])) with (zlength pre + 1) in IH by (rewrite length_app; simpl; lia). apply IH; [done|simpl in Hf; lia].
  - f_equal. rewrite length_app. lia.
Qed.

Lemma trim_right_spec s cset rest fuel : 0 ∉ cset -> forall pre c mid_ post, rep s (pre ++ c :: mid_ ++ post) -> trimmed cset c = false -> (length mid_ <= fuel)%nat ->
  trim_right fuel s (cset ++ 0 :: rest) (zlength pre) (zlength (pre ++ c :: mid_) - 1) = Ok (zlength pre + zlength (drop_while (trimmed cset) (reverse mid_))).
Proof.
  intros Hc. induction fuel as [|fuel IH]; intros pre c mid_ post H Ht Hf.
  { destruct mid_; [|simpl in Hf; lia]. cbn [trim_right]. rewrite length_app. cbn [length]. destruct (Z.gtb_spec (Z.of_nat (length pre + 1) - 1) (zlength pre)); [lia|]. f_equal. change (reverse []) with (@nil Z). cbn [drop_while length]. lia. }
  cbn [trim_right]. rewrite length_app. cbn [length]. destruct mid_ as [|d mid_ _] using rev_ind.
  { cbn [length]. destruct (Z.gtb_spec (Z.of_nat (length pre + 1) - 1) (zlength pre)); [simpl in *; lia|]. f_equal. change (reverse []) with (@nil Z). cbn [drop_while length]. lia. }
  destruct (Z.gtb_spec (Z.of_nat (length pre + S (length (mid_ ++ [d]))) - 1) (zlength pre)) as [_|?]; [|rewrite length_app in *; simpl in *; lia].
  destruct (rep_char s _ (Z.of_nat (length pre + S (length (mid_ ++ [d]))) - 1) H) as (c' & -> & Hl); [rewrite !length_app; simpl; rewrite !length_app; simpl; lia|].
  assert (c' = d) as ->.
  { rewrite length_app in Hl. cbn [length] in Hl. replace (pre ++ c :: (mid_ ++ [d]) ++ post) with ((pre ++ c :: mid_) ++ d :: post) in Hl by (by rewrite <- !(assoc_L (++))).
    rewrite list_lookup_middle in Hl by (rewrite length_app; simpl; lia). by injection Hl. }
  rewrite in_cset_spec, reverse_snoc by done. cbn [drop_while]. destruct (trimmed cset d).
  - specialize (IH pre c mid_ (d :: post)). rewrite length_app in IH. cbn [length] in IH. rewrite length_app in Hf |- *. cbn [length] in Hf |- *.
    replace (Z.of_nat (length pre + S (length mid_ + 1)) - 1 - 1) with (Z.of_nat (length pre + S (length mid_)) - 1) by lia. apply IH; [by rewrite <- (assoc_L (++)) in H|done|lia].
  - f_equal. cbn [length]. rewrite length_reverse, length_app. cbn [length]. lia.
Qed.

Lemma drop_while_suffix p l : exists x, l = x ++ drop_while p l.
Proof. induction l as [|c l (x & IH)]; [by exists []|]. cbn [drop_while]. destruct (p c); [exists (c :: x); cbn [app]; by f_equal|by exists []]. Qed.

Lemma drop_while_snoc p l c : p c = false -> drop_while p (l ++ [c]) = drop_while p l ++ [c].
Proof. intros Hc. induction l as [|d l IH]; cbn [drop_while app]; [by rewrite Hc|]. by destruct (p d). Qed.

Lemma drop_while_head p l c l' : drop_while p l = c :: l' -> p c = false.
Proof. induction l as [|d l IH]; [done|]. cbn [drop_while]. destruct (p d) eqn:E; [done|]. by intros [= -> _]. Qed.

Lemma trim_spec s bs cset rest : rep s bs -> zlength bs < 2 ^ 60 -> 0 ∉ cset ->
  exists s', sdstrim s (cset ++ 0 :: rest) = Ok s' /\ rep s' (trim_bytes (trimmed cset) bs).
Proof.
  intros H Hmax Hc. unfold sdstrim. rewrite (rep_len _ _ H), Nat2Z.id.
  pose proof (trim_left_spec s cset rest (length bs) Hc [] bs H ltac:(lia)) as Hleft. cbn [app length] in Hleft. change (Z.of_nat 0) with 0 in Hleft. rewrite Hleft.
  unfold trim_bytes. destruct (drop_while_suffix (trimmed cset) bs) as (pre & Epre). destruct (drop_while (trimmed cset) bs) as [|c tl] eqn:Ed.
  - cbn [length]. change (Z.of_nat 0) with 0. rewrite Z.sub_0_r.
    assert (trim_right (length bs) s (cset ++ 0 :: rest) (zlength bs) (zlength bs - 1) = Ok (zlength bs - 1)) as ->.
    { destruct (length bs); cbn [trim_right]; rewrite Z.gtb_ltb, (proj2 (Z.ltb_ge _ _)) by lia; done. }
    replace (zlength bs - 1 - zlength bs + 1) with 0 by lia.
    destruct (move_spec s bs (zlength bs) 0 (negb (zlength bs =? 0)) H) as (s' & Hs' & Hr); [lia|lia|lia|by left|]. exists s'. by split.
  - assert (Hc0 : trimmed cset c = false) by (by apply drop_while_head in Ed). assert (Hn : zlength bs = zlength pre + zlength (c :: tl)) by (rewrite Epre at 1; rewrite length_app; lia).
    replace (zlength bs - zlength (c :: tl)) with (zlength pre) by lia.
    pose proof (trim_right_spec s cset rest (length bs) Hc pre c tl []) as Hright. rewrite app_nil_r, <- Epre in Hright. rewrite Hright by (done || (cbn [length] in Hn; lia)).
    destruct (drop_while_suffix (trimmed cset) (reverse tl)) as (x & Ex). set (dw := drop_while (trimmed cset) (reverse tl)) in *.
    assert (Etl : tl = reverse dw ++ reverse x) by (rewrite <- reverse_app, <- Ex; by rewrite reverse_involutive).
    assert (Hdw : length tl = (length dw + length x)%nat) by (rewrite Etl, length_app, !length_reverse; lia). cbn [length] in Hn.
    destruct (move_spec s bs (zlength pre) (zlength pre + zlength dw - zlength pre + 1) (negb (zlength pre =? 0)) H) as (s' & Hs' & Hr); [lia|lia|lia|intros E%negb_false_iff%Z.eqb_eq; by right|].
    exists s'. split; [exact Hs'|]. rewrite reverse_cons, drop_while_snoc, reverse_snoc by done. fold dw.
    rewrite Epre, Nat2Z.id, drop_app_length in Hr. replace (Z.to_nat (zlength pre + zlength dw - zlength pre + 1)) with (S (length (reverse dw))) in Hr by (rewrite length_reverse; lia).
    cbn [take] in Hr. rewrite Etl, take_app_length in Hr. done.
Qed.

(** ** Copies, comparison, and lengths that the caller sets *)

Lemma dup_spec s bs : rep s bs -> zlength bs < 2 ^ 60 -> exists s', sdsdup junk usable malloc_ok s = Ok s' /\ rep s' bs.
Proof.
  intros H Hmax. unfold sdsdup. rewrite (rep_len _ _ H). destruct (rep_chars _ _ H) as (rest & ->).
  destruct (newlen_spec (INIT_BYTES (bs ++ 0 :: rest)) (zlength bs)) as (s' & Hs' & Hr); [lia|cbn [init_ok]; rewrite length_app; lia|].
  exists s'. split; [exact Hs'|]. cbn [init_bytes] in Hr. by rewrite Nat2Z.id, take_app_length in Hr.
Qed.

(** The bytes before the first NUL. *)
Fixpoint c_string (bs : list Z) : list Z := match bs with [] => [] | b :: bs => if b =? 0 then [] else b :: c_string bs end.

Lemma c_string_split bs rest : exists tl, bs ++ 0 :: rest = c_string bs ++ 0 :: tl /\ strlen (bs ++ 0 :: rest) = Ok (zlength (c_string bs)) /\
  (length (c_string bs) + length tl = length bs + length rest)%nat.
Proof.
  induction bs as [|b bs (tl & E & Hs & Hl)]; [by exists rest|]. cbn [c_string app strlen]. destruct (Z.eqb_spec b 0) as [->|Hb].
  - exists (bs ++ 0 :: rest). split; [done|]. split; [done|]. rewrite length_app. simpl. lia.
  - exists tl. rewrite E. split; [done|]. rewrite <- E, Hs. split; [f_equal; simpl; lia|simpl; lia].
Qed.

Lemma updatelen_spec s bs : rep s bs -> exists s', sdsupdatelen s = Ok s' /\ rep s' (c_string bs).
Proof.
  intros (t & rest & H & Hf). unfold sdsupdatelen. rewrite (mid_chars _ _ _ _ _ H). destruct (c_string_split bs rest) as (tl & E & -> & Hl).
  pose proof (mid_bounds _ _ _ _ _ H) as (_ & _ & H5 & _). assert (Hle : (length (c_string bs) <= length bs)%nat) by (clear; induction bs as [|b bs IH]; [done|]; cbn [c_string]; destruct (b =? 0); simpl; lia).
  unfold holds in H. rewrite E in H. destruct (mid_setlen _ _ _ _ _ H (zlength (c_string bs))) as (s' & Hs' & H'); [lia|intros E0; specialize (H5 E0); lia|intros _; lia|].
  exists s'. split; [exact Hs'|]. exists t, tl. split; [|lia]. apply holds_of_mid with (alloc := zlength bs + zlength rest); [intros _; lia|done].
Qed.

Lemma incr_five_spec s len body incr : mid s SDS_TYPE_5 len 0 body -> incr < 0 <= len + incr ->
  exists s', incr_five s incr = Ok (s', len + incr) /\ mid s' SDS_TYPE_5 (len + incr) 0 body.
Proof.
  intros H Hi. pose proof (mid_bounds _ _ _ _ _ H) as (_ & _ & H5 & _). specialize (H5 eq_refl). destruct (mid_setlen _ _ _ _ _ H (len + incr)) as (s1 & Hs1 & Hm1); [lia|lia|done|].
  unfold sdssetlen in Hs1. rewrite (mid_type _ _ _ _ _ H) in Hs1. change (switch_type SDS_TYPE_5 ?a ?b ?c) with a in Hs1.
  rewrite (u_id 64) in Hs1 by (rewrite Z.shiftl_mul_pow2 by (vm_compute; discriminate); change (2 ^ SDS_TYPE_BITS) with 8; pow_const; lia).
  destruct H as [(_ & Hp & Hl)|[[Hwide _] _]]; [|unfold wide, SDS_TYPE_5 in Hwide; lia]. destruct (mid_five _ _ _ Hp Hl) as [_ E5]. unfold incr_five. rewrite E5.
  rewrite (u_id 32) by (pow_const; lia). rewrite (Z.gtb_ltb incr 0), (proj2 (Z.ltb_ge 0 incr)), (proj2 (Z.ltb_lt incr 0)), (proj2 (Z.geb_le _ _)) by lia. cbn [andb orb].
  rewrite Hs1. by exists s1.
Qed.

Lemma incr_header_spec s t len alloc body incr : mid s t len alloc body -> wide t -> 0 <= len + incr <= alloc -> alloc < 2 ^ 63 -> - 2 ^ 31 < incr < 2 ^ 31 ->
  exists s', incr_header s incr (width t) = Ok (s', len + incr) /\ mid s' t (len + incr) alloc body.
Proof.
  intros H Hwide Hi Hfree Hincr. change (2 ^ 31) with 2147483648 in Hincr. pose proof (type_values t Hwide) as Hv. pose proof (width_max t Hwide) as [Hw8 Hmax].
  destruct H as [(-> & _)|[Hr [Hl Ha]]]; [unfold wide, SDS_TYPE_5 in Hwide; lia|].
  unfold incr_header. rewrite (raw_alloc _ _ _ _ _ _ Hr), (raw_len _ _ _ _ _ _ Hr), !dec_enc by (done || lia). cbn zeta.
  assert (H4 : width t = 4 -> alloc < 4294967296) by (intros E4; rewrite E4 in Hmax; change (2 ^ (8 * 4)) with 4294967296 in Hmax; lia).
  assert (Hup : incr >= 0 -> (if width t =? 4 then u32 incr else if width t =? 8 then u64 incr else incr) = incr) by (intros; destruct (width t =? 4), (width t =? 8); try (apply u_id; pow_const; lia); done).
  assert (Hdown : incr < 0 -> (if width t =? 8 then u64 (- incr) else u32 (- incr)) = - incr) by (intros; destruct (width t =? 8); apply u_id; pow_const; lia).
  assert (Hroom : (if width t =? 4 then u32 (alloc - len) else if width t =? 8 then u64 (alloc - len) else alloc - len) = alloc - len).
  { destruct (Z.eqb_spec (width t) 4) as [E|_]; [apply u_id; specialize (H4 E); pow_const; lia|]. destruct (width t =? 8); [apply u_id; pow_const; lia|done]. }
  rewrite Hroom. assert (Hassert : ((incr >=? 0) && (alloc - len >=? (if width t =? 4 then u32 incr else if width t =? 8 then u64 incr else incr))) || ((incr <? 0) && (len >=? (if width t =? 8 then u64 (- incr) else u32 (- incr)))) = true).
  { apply orb_true_iff. rewrite !andb_true_iff, Z.geb_le, Z.ltb_lt, !Z.geb_le. destruct (Z.lt_ge_cases incr 0); [right; rewrite Hdown by done|left; rewrite Hup by lia]; lia. }
  rewrite Hassert. destruct (raw_set_len _ _ _ _ _ _ (len + incr) Hr) as (s1 & -> & Hr1). rewrite (raw_len _ _ _ _ _ _ Hr1), dec_enc by (done || lia).
  exists s1. split; [done|]. right. split; [done|lia].
Qed.

Lemma incr_spec s t bs z rest new x r incr : holds s t bs z rest -> zlength bs + zlength rest < 2 ^ 63 -> bs ++ z :: rest = new ++ x :: r -> zlength new = zlength bs + incr -> - 2 ^ 31 < incr < 2 ^ 31 ->
  (t = 0 -> incr < 0) -> exists s', sdsIncrLen s incr = Ok s' /\ holds s' t new 0 r.
Proof.
  intros H Hfree E Hnew Hincr Hfive. pose proof (mid_bounds _ _ _ _ _ H) as (Ht & _ & H5 & Hw). apply (f_equal length) in E as El. rewrite !length_app in El. cbn [length] in El.
  unfold holds in H. rewrite E in H. assert (Hset : exists s1, switch_type t (incr_five s incr) (incr_header s incr) (Ok (s, 0)) = Ok (s1, zlength new) /\ mid s1 t (zlength new) (zlength bs + zlength rest) (new ++ x :: r)).
  { rewrite Hnew. destruct (Z.eq_dec t 0) as [->|Hne].
    - specialize (Hfive eq_refl). destruct H as [(_ & Hp & Hl)|[[Hwd _] _]]; [|unfold wide in Hwd; lia].
      destruct (incr_five_spec s (zlength bs) (new ++ x :: r) incr) as (s1 & Hs1 & Hm1); [by left|lia|]. exists s1. split; [exact Hs1|].
      destruct Hm1 as [(_ & Hp1 & Hl1)|[[Hwd _] _]]; [by left|unfold wide, SDS_TYPE_5 in Hwd; lia].
    - assert (Hwide : wide t) by (unfold wide; lia). rewrite switch_wide by done. apply (incr_header_spec _ _ _ _ _ _ H Hwide); [lia|done|done]. }
  destruct Hset as (s1 & Hs1 & H1). unfold sdsIncrLen. rewrite (mid_type _ _ _ _ _ H), Hs1.
  destruct (mid_set_char _ _ _ _ _ H1 (zlength new) 0 _ ltac:(lia) (setchar_app _ _ _ _)) as (s2 & -> & H2).
  exists s2. split; [done|]. apply holds_of_mid with (alloc := zlength bs + zlength rest); [intros _; lia|done].
Qed.

(** ** Comparison *)

(** The first difference decides; a prefix is smaller. *)
Fixpoint bytes_compare (b1 b2 : list Z) : Z :=
  match b1, b2 with
  | [], [] => 0
  | [], _ => -1
  | _, [] => 1
  | c1 :: b1, c2 :: b2 => if c1 =? c2 then bytes_compare b1 b2 else if c1 <? c2 then -1 else 1
  end.

Lemma memcmp_compare b1 : forall b2, let n := (length b1 `min` length b2)%nat in
  (if memcmp n (take n b1) (take n b2) =? 0 then (if zlength b1 >? zlength b2 then 1 else if zlength b1 <? zlength b2 then -1 else 0) else memcmp n (take n b1) (take n b2)) = bytes_compare b1 b2.
Proof.
  induction b1 as [|c1 b1 IH]; intros [|c2 b2]; [done..|]. specialize (IH b2). cbn [length Nat.min take memcmp bytes_compare]. destruct (Z.eqb_spec c1 c2) as [_|]; [|by destruct (c1 <? c2)].
  cbn zeta in IH. rewrite <- IH. destruct (_ =? 0); [|done]. rewrite !Nat2Z.inj_succ, !Z.gtb_ltb.
  destruct (Z.ltb_spec (zlength b2) (zlength b1)), (Z.ltb_spec (zlength b1) (zlength b2)), (Z.ltb_spec (Z.succ (zlength b2)) (Z.succ (zlength b1))), (Z.ltb_spec (Z.succ (zlength b1)) (Z.succ (zlength b2))); try lia; done.
Qed.

Lemma rep_load_prefix s bs n : rep s bs -> 0 <= n <= zlength bs -> load (pos s) n (block s) = Ok (take (Z.to_nat n) bs).
Proof.
  intros (t & rest & H & _) Hn. pose proof (mid_load _ _ _ _ _ H 0 n ltac:(lia)) as E. rewrite Z.add_0_r in E. rewrite E. unfold load.
  rewrite (proj2 (Z.leb_le 0 n)), (proj2 (Z.leb_le (0 + n) _)) by (rewrite ?length_app; lia). cbn [andb Z.leb Z.compare]. by rewrite drop_0, take_app_le by lia.
Qed.

Lemma cmp_spec s1 s2 b1 b2 : rep s1 b1 -> rep s2 b2 -> sdscmp s1 s2 = Ok (bytes_compare b1 b2).
Proof.
  intros H1 H2. unfold sdscmp. rewrite (rep_len _ _ H1), (rep_len _ _ H2). set (n := if zlength b1 <? zlength b2 then _ else _).
  assert (Hn : Z.to_nat n = (length b1 `min` length b2)%nat /\ 0 <= n) by (unfold n; destruct (Z.ltb_spec (zlength b1) (zlength b2)); lia).
  rewrite (rep_load_prefix _ _ _ H1), (rep_load_prefix _ _ _ H2) by lia. rewrite (proj1 Hn). f_equal. apply memcmp_compare.
Qed.

(** * Sequences of operations *)

(** [OpRead]: room is made, the caller writes [t] behind the string, and sdsIncrLen adds it. *)
Inductive sds_op :=
| OpCatLen (t : list Z) (len : Z) | OpCpyLen (t : list Z) (len : Z) | OpGrowZero (len : Z) | OpTrim (cset : list Z) | OpSubstr (start len : Z)
| OpRange (start end_ : Z) | OpClear | OpToLower | OpToUpper | OpMapChars (from to : list Z) (setlen : Z) | OpMakeRoom (addlen : Z) (greedy : bool)
| OpResize (size : Z) (would_regrow : bool) | OpRemoveFreeSpace (would_regrow : bool) | OpDup | OpUpdateLen | OpIncrLen (incr : Z)
| OpRead (t : list Z) (addlen : Z).

Definition exec (op : sds_op) (s : sds) : res sds :=
  match op with
  | OpCatLen t len => sdscatlen junk usable s t len
  | OpCpyLen t len => sdscpylen junk usable s t len
  | OpGrowZero len => sdsgrowzero junk usable s len
  | OpTrim cset => sdstrim s (cset ++ [0])
  | OpSubstr start len => sdssubstr s start len
  | OpRange start end_ => sdsrange s start end_
  | OpClear => sdsclear s
  | OpToLower => sdstolower s
  | OpToUpper => sdstoupper s
  | OpMapChars from to setlen => sdsmapchars s from to setlen
  | OpMakeRoom addlen greedy => makeRoom s addlen greedy
  | OpResize size would_regrow => sdsResize junk usable nallocx s size would_regrow
  | OpRemoveFreeSpace would_regrow => sdsRemoveFreeSpace junk usable nallocx s would_regrow
  | OpDup => sdsdup junk usable malloc_ok s
  | OpUpdateLen => sdsupdatelen s
  | OpIncrLen incr => sdsIncrLen s incr
  | OpRead t addlen =>
      let! oldlen := sdslen s in
      let! s := sdsMakeRoomFor junk usable s addlen in
      let! s := copy_in oldlen t s in
      sdsIncrLen s (zlength t)
  end.

(** What the operation means for the string. *)
Definition meaning (op : sds_op) (bs : list Z) : list Z :=
  match op with
  | OpCatLen t len => bs ++ take (Z.to_nat len) t
  | OpCpyLen t len => take (Z.to_nat len) t
  | OpGrowZero len => bs ++ replicate (Z.to_nat len - length bs) 0
  | OpTrim cset => trim_bytes (trimmed cset) bs
  | OpSubstr start len => take (Z.to_nat len) (drop (Z.to_nat start) bs)
  | OpRange start end_ => range_bytes bs start end_
  | OpClear => []
  | OpToLower => tolower <$> bs
  | OpToUpper => toupper <$> bs
  | OpMapChars from to setlen => map_chars (take (Z.to_nat setlen) from) (take (Z.to_nat setlen) to) <$> bs
  | OpResize size _ => take (Z.to_nat size) bs
  | OpMakeRoom _ _ | OpRemoveFreeSpace _ | OpDup => bs
  | OpUpdateLen => c_string bs
  | OpIncrLen incr => take (Z.to_nat (zlength bs + incr)) bs
  | OpRead t _ => bs ++ t
  end.

(** The arguments are sizes and indices of memory; sdsIncrLen shortens by at least a byte. *)
Definition op_ok (op : sds_op) (bs : list Z) : Prop :=
  match op with
  | OpCatLen t len => 0 <= len <= zlength t /\ zlength bs + len < 2 ^ 60
  | OpCpyLen t len => 0 <= len <= zlength t /\ len < 2 ^ 60
  | OpGrowZero len | OpResize len _ => 0 <= len < 2 ^ 60
  | OpTrim cset => 0 ∉ cset
  | OpSubstr start len => 0 <= start /\ 0 <= len
  | OpRange start end_ => in_s 64 start /\ in_s 64 end_
  | OpMapChars from to setlen => 0 <= setlen /\ setlen <= zlength from /\ setlen <= zlength to
  | OpMakeRoom addlen _ => 0 <= addlen /\ zlength bs + addlen < 2 ^ 60
  | OpIncrLen incr => - 2 ^ 31 < incr < 0 /\ 0 <= zlength bs + incr
  | OpRead t addlen => zlength t <= addlen /\ 0 < addlen < 2 ^ 31 /\ zlength bs + addlen < 2 ^ 60
  | OpClear | OpToLower | OpToUpper | OpRemoveFreeSpace _ | OpDup | OpUpdateLen => True
  end.

Lemma read_spec s bs t addlen : rep s bs -> op_ok (OpRead t addlen) bs -> exists s', exec (OpRead t addlen) s = Ok s' /\ rep s' (bs ++ t).
Proof.
  intros (ty & rest & H & Hfree) (Hlen & Ha & Hmax). cbn [exec]. rewrite (mid_len _ _ _ _ _ H).
  destruct (makeRoom_spec s ty bs 0 rest addlen true H Hfree) as (s1 & t1 & rest1 & Hroom & H1 & Hr1 & Hf1 & H51); [lia|lia|]. unfold sdsMakeRoomFor. rewrite Hroom.
  assert (t1 <> 0) as Hne by (intros E; specialize (H51 E); lia). destruct (body_split [] 0 rest1 (zlength t) ltac:(simpl; lia)) as (m & y & r & E & Hm & Hr). cbn [app length] in E, Hr.
  unfold holds in H1. rewrite E in H1. assert (Hst : store (zlength bs) t (bs ++ m ++ y :: r) = Ok (bs ++ t ++ y :: r)) by (apply store_app; [done|lia]).
  destruct (mid_copy _ _ _ _ _ H1 (zlength bs) t _ ltac:(lia) Hst) as (s2 & -> & H2).
  assert (Hbody : exists z rest2, bs ++ t ++ y :: r = bs ++ z :: rest2 /\ zlength rest2 = zlength rest1).
  { destruct t as [|b t]; [exists y, r; split; [done|]; simpl in Hm, Hr; lia|]. exists b, (t ++ y :: r). split; [done|]. rewrite length_app. cbn [length] in *. lia. }
  destruct Hbody as (z & rest2 & Eb & Hl2). rewrite Eb in H2. assert (H2' : holds s2 t1 bs z rest2) by (unfold holds; by rewrite Hl2).
  destruct (incr_spec s2 t1 bs z rest2 (bs ++ t) y r (zlength t) H2') as (s3 & Hs3 & H3); [lia|by rewrite <- Eb, <- (assoc_L (++))|rewrite length_app; lia|lia|done|].
  exists s3. split; [exact Hs3|]. exists t1, r. split; [done|]. rewrite length_app. simpl in Hr. lia.
Qed.

Lemma incrlen_spec s bs incr : rep s bs -> op_ok (OpIncrLen incr) bs -> exists s', sdsIncrLen s incr = Ok s' /\ rep s' (take (Z.to_nat (zlength bs + incr)) bs).
Proof.
  intros (ty & rest & H & Hfree) [Hi Hl]. destruct (body_split bs 0 rest (zlength bs + incr) ltac:(lia)) as (m & y & r & E & Hm & Hr).
  assert (m = take (Z.to_nat (zlength bs + incr)) bs) as Em.
  { apply (f_equal (take (Z.to_nat (zlength bs + incr)))) in E. rewrite take_app_le in E by lia. rewrite E, take_app_le, take_ge by lia. done. }
  destruct (incr_spec s ty bs 0 rest m y r incr H) as (s' & Hs' & H'); [lia|done|lia|lia|lia|]. exists s'. split; [done|]. exists ty, r. rewrite <- Em. split; [done|lia].
Qed.

Lemma exec_spec op s bs : rep s bs -> zlength bs < 2 ^ 60 -> op_ok op bs -> exists s', exec op s = Ok s' /\ rep s' (meaning op bs).
Proof.
  intros H Hmax Hok. destruct op; cbn [exec meaning op_ok] in *.
  - apply catlen_spec; tauto.
  - apply (cpylen_spec _ bs); tauto.
  - apply growzero_spec; tauto.
  - apply trim_spec; tauto.
  - apply substr_spec; tauto.
  - apply range_spec; tauto.
  - by apply (clear_spec _ bs).
  - by apply (map_spec (fun c => Ok (tolower c)) tolower).
  - by apply (map_spec (fun c => Ok (toupper c)) toupper).
  - apply mapchars_spec; tauto.
  - destruct H as (t & rest & H & Hf). destruct (makeRoom_spec s t bs 0 rest addlen greedy H Hf) as (s' & t' & rest' & Hs' & H' & _ & Hf' & _); [tauto..|]. exists s'. split; [done|]. by exists t', rest'.
  - apply sdsresize_spec; tauto.
  - unfold sdsRemoveFreeSpace. rewrite (rep_len _ _ H). destruct (sdsresize_spec s bs (zlength bs) would_regrow H ltac:(lia)) as (s' & Hs' & Hr). exists s'. split; [done|]. by rewrite Nat2Z.id, firstn_all in Hr.
  - apply dup_spec; tauto.
  - apply updatelen_spec; tauto.
  - by apply incrlen_spec.
  - by apply read_spec.
Qed.

Fixpoint run (ops : list sds_op) (s : sds) : res sds := match ops with [] => Ok s | op :: ops => let! s := exec op s in run ops s end.
Fixpoint means (ops : list sds_op) (bs : list Z) : list Z := match ops with [] => bs | op :: ops => means ops (meaning op bs) end.
Fixpoint ops_ok (ops : list sds_op) (bs : list Z) : Prop :=
  match ops with [] => True | op :: ops => op_ok op bs /\ zlength (meaning op bs) < 2 ^ 60 /\ ops_ok ops (meaning op bs) end.

Lemma run_spec ops : forall s bs, rep s bs -> zlength bs < 2 ^ 60 -> ops_ok ops bs -> exists s', run ops s = Ok s' /\ rep s' (means ops bs).
Proof.
  induction ops as [|op ops IH]; intros s bs H Hmax Hok; [by exists s|]. destruct Hok as (Hop & Hm & Hok). destruct (exec_spec op s bs H Hmax Hop) as (s1 & Hs1 & H1).
  cbn [run means]. rewrite Hs1. by apply IH.
Qed.

(** C18: an sds is a string of bytes.  A string that is created by sdsnewlen and driven by any
    sequence of operations of sds.c, appending, overwriting, trimming, taking ranges,
    growing, resizing, mapping characters, setting the length after the caller wrote behind the end, is
    the string that the operations on plain byte strings give: its length, its bytes and the
    NUL behind them, and its comparison with any other string.  No access leaves the block, no
    assertion fails and no integer of the header overflows, for every allocator that gives at
    least what is asked for. *)
Theorem sds_refines_strings init initlen ops :
  0 <= initlen <= zlength init -> initlen < 2 ^ 60 -> ops_ok ops (take (Z.to_nat initlen) init) ->
  exists s s', sdsnewlen junk usable malloc_ok (INIT_BYTES init) initlen = Ok s /\ run ops s = Ok s' /\
    let bs := means ops (take (Z.to_nat initlen) init) in
    rep s' bs /\ sdslen s' = Ok (zlength bs) /\ load (pos s') (zlength bs + 1) (block s') = Ok (bs ++ [0]) /\
    forall s2 bs2, rep s2 bs2 -> sdscmp s' s2 = Ok (bytes_compare bs bs2).
Proof.
  intros Hl Hmax Hok. destruct (newlen_spec (INIT_BYTES init) initlen) as (s & Hs & H); [lia|simpl; lia|]. cbn [init_bytes] in H.
  destruct (run_spec ops s _ H) as (s' & Hs' & H'); [rewrite length_take; lia|done|]. exists s, s'. split; [done|]. split; [done|]. split; [done|].
  split; [by apply rep_len|]. split; [by apply rep_load|]. intros s2 bs2 H2. by apply cmp_spec.
Qed.
End Spec.
Arguments AllocOk usable nallocx : clear implicits.

Definition demo_ops : list sds_op := [OpRead (replicate 300 120) 1000; OpTrim [120]; OpCatLen [33; 33] 2; OpResize 3 false; OpGrowZero 40; OpRange 0 (-38); OpMapChars [105; 72] [105; 74] 2].

#[local] Instance demo_alloc : AllocOk (fun n => n + 5) (Some (fun n => n)).
Proof. split; [intros n Hn; pow_const; lia|intros f n [= <-]; lia]. Qed.

Lemma sds_refines_strings_witness :
  exists s s', sdsnewlen 165 (fun n => n + 5) (fun _ => true) (INIT_BYTES [72; 105; 0]) 2 = Ok s /\ run 165 (fun n => n + 5) (Some (fun n => n)) (fun _ => true) demo_ops s = Ok s' /\
    sdslen s' = Ok 3 /\ load (pos s') 4 (block s') = Ok [74; 105; 33; 0].
Proof.
  destruct (sds_refines_strings 165 (fun n => n + 5) (Some (fun n => n)) (fun _ => true) [72; 105; 0] 2 demo_ops) as (s & s' & Hs & Hr & _ & Hl & Hd & _).
  - simpl. lia.
  - pow_const. lia.
  - vm_compute. repeat split; try discriminate; try (intros H; repeat (apply elem_of_cons in H as [H|H]; [discriminate H|]); by apply elem_of_nil in H).
  - exists s, s'. split; [exact Hs|]. split; [exact Hr|]. split; [exact Hl|exact Hd].
Defined.
