(* ===== verification/SdsText.v ===== *)
(** Dynamic strings as text, the model: quoting, splitting, joining, formatting and templates of
    src/redis-stable/src/sds.c.

    The functions work on the strings of [Sds], byte by byte as in the code.  A C string is a
    list of bytes that contains a NUL.  The functions of ctype.h are those of the C locale;
    what vsnprintf would print is an argument.  A result of sdssplitlen or sdssplitargs is the
    list of the tokens, [None] for NULL. *)

From stdpp Require Import list.
From S2P Require Import Prelude Machine UtilNum Glob Sds.

Definition isprint (c : Z) : bool := (32 <=? c) && (c <=? 126).
Definition isspace (c : Z) : bool := (c =? 32) || ((9 <=? c) && (c <=? 13)).

Definition is_hex_digit (c : Z) : bool :=
  ((c >=? 48) && (c <=? 57)) || ((c >=? 97) && (c <=? 102)) || ((c >=? 65) && (c <=? 70)).

(** The digits, and 0 for everything else. *)
Definition hex_digit_to_int (c : Z) : Z :=
  if (48 <=? c) && (c <=? 57) then c - 48
  else if (97 <=? c) && (c <=? 102) then c - 87
  else if (65 <=? c) && (c <=? 70) then c - 55
  else 0.

(** A digit of the conversion %x *)
Definition hex_digit (n : Z) : Z := if n <? 10 then 48 + n else 87 + n.

Section Text.
Context (junk : Z) (usable : Z -> Z) (malloc_ok : Z -> bool).

Notation makeRoom := (sdsMakeRoomFor junk usable).
Notation catlen := (sdscatlen junk usable).
Notation newlen := (sdsnewlen junk usable malloc_ok).
Notation empty := (sdsempty junk usable malloc_ok).

(** * Formatting *)

(** while(1): a larger buffer until the text and its NUL fit *)
Fixpoint vprintf_loop (fuel : nat) (buflen : Z) (text : list Z) : res Z :=
  match fuel with
  | O => Fault OutOfFuel
  | S fuel =>
      let bufstrlen := zlength text in
      if bufstrlen >=? buflen then vprintf_loop fuel (u64 (bufstrlen + 1)) text else Ok buflen
  end.

(** [text] is what vsnprintf prints for the format, of length [fmtlen], and its arguments.  A
    text that is too long for an int, where vsnprintf reports an error and the function
    returns NULL, is not modelled. *)
Definition sdscatvprintf (s : sds) (fmtlen : Z) (text : list Z) : res sds :=
  assert! zlength text <? 2 ^ 31 in
  let buflen := u64 (fmtlen * 2) in
  let buflen := if buflen >? 1024 then buflen else 1024 in
  let! buflen := vprintf_loop 2 buflen text in
  let! buf := store 0 (text ++ [0]) (replicate (Z.to_nat buflen) junk) in
  catlen s buf (zlength text).

Definition sdscatprintf (s : sds) (fmtlen : Z) (text : list Z) : res sds := sdscatvprintf s fmtlen text.

(** * Quoting *)

(** One iteration of the loop of sdscatrepr. *)
Definition cat_repr_char (s : sds) (p : list Z) (off : Z) : res sds :=
  let! c := get1 off p in
  if (c =? 92) || (c =? 34) then sdscatprintf s 4 [92; c]
  else if c =? 10 then catlen s [92; 110] 2
  else if c =? 13 then catlen s [92; 114] 2
  else if c =? 9 then catlen s [92; 116] 2
  else if c =? 7 then catlen s [92; 97] 2
  else if c =? 8 then catlen s [92; 98] 2
  else if isprint c then catlen s [c] 1
  else sdscatprintf s 7 [92; 120; hex_digit (Z.shiftr c 4); hex_digit (Z.land c 15)].

Fixpoint repr_loop (n : nat) (s : sds) (p : list Z) (off : Z) : res sds :=
  match n with
  | O => Ok s
  | S n => let! s := cat_repr_char s p off in repr_loop n s p (off + 1)
  end.

Definition sdscatrepr (s : sds) (p : list Z) (len : Z) : res sds :=
  let! s := makeRoom s (u64 (len + 2)) in
  let! s := catlen s [34] 1 in
  let! s := repr_loop (Z.to_nat len) s p 0 in
  catlen s [34] 1.

Definition needs_repr (c : Z) : bool :=
  (c =? 92) || (c =? 34) || (c =? 10) || (c =? 13) || (c =? 9) || (c =? 7) || (c =? 8) || negb (isprint c) || isspace c.

Fixpoint needsrepr_loop (n : nat) (s : sds) (off : Z) : res bool :=
  match n with
  | O => Ok false
  | S n => let! c := char_at off s in if needs_repr c then Ok true else needsrepr_loop n s (off + 1)
  end.

Definition sdsneedsrepr (s : sds) : res bool := let! len := sdslen s in needsrepr_loop (Z.to_nat len) s 0.

(** * Splitting into arguments *)

Definition unescape (c : Z) : Z :=
  if c =? 110 then 10 else if c =? 114 then 13 else if c =? 116 then 9 else if c =? 98 then 8 else if c =? 97 then 7 else c.

(** Behind a closing quote there is a blank or the end. *)
Definition closed (line : list Z) (p : Z) : res bool := let! c := get1 (p + 1) line in Ok ((c =? 0) || isspace c).

(** The value of \xhh at [p], if it is one. *)
Definition hex_escape (line : list Z) (p : Z) : res (option Z) :=
  let! c := get1 p line in
  if negb (c =? 92) then Ok None
  else
    let! x := get1 (p + 1) line in
    if negb (x =? 120) then Ok None
    else
      let! h1 := get1 (p + 2) line in
      if negb (is_hex_digit h1) then Ok None
      else
        let! h2 := get1 (p + 3) line in
        Ok (if is_hex_digit h2 then Some (u8 (hex_digit_to_int h1 * 16 + hex_digit_to_int h2)) else None).

(** An iteration in each of the three states: the new string, the new pointer, and whether the
    token is done; [None] is goto err. *)
Definition quoted_step (line : list Z) (current : sds) (p : Z) : res (option (sds * Z * bool)) :=
  let! hex := hex_escape line p in
  match hex with
  | Some byte => let! current := catlen current [byte] 1 in Ok (Some (current, p + 3, false))
  | None =>
      let! c := get1 p line in
      let! esc := (if c =? 92 then let! c1 := get1 (p + 1) line in Ok (negb (c1 =? 0)) else Ok false) in
      if (esc : bool) then
        let p := p + 1 in
        let! c := get1 p line in
        let! current := catlen current [unescape c] 1 in
        Ok (Some (current, p, false))
      else if c =? 34 then
        let! ok := closed line p in
        if negb ok then Ok None else Ok (Some (current, p, true))
      else if c =? 0 then Ok None
      else
        let! bs := load p 1 line in
        let! current := catlen current bs 1 in
        Ok (Some (current, p, false))
  end.

Definition single_step (line : list Z) (current : sds) (p : Z) : res (option (sds * Z * bool)) :=
  let! c := get1 p line in
  let! esc := (if c =? 92 then let! c1 := get1 (p + 1) line in Ok (c1 =? 39) else Ok false) in
  if (esc : bool) then
    let p := p + 1 in
    let! current := catlen current [39] 1 in
    Ok (Some (current, p, false))
  else if c =? 39 then
    let! ok := closed line p in
    if negb ok then Ok None else Ok (Some (current, p, true))
  else if c =? 0 then Ok None
  else
    let! bs := load p 1 line in
    let! current := catlen current bs 1 in
    Ok (Some (current, p, false)).

(** inq, insq *)
Inductive quote_mode := PLAIN | QUOTED | SINGLE.

(** The new state as well. *)
Definition plain_step (line : list Z) (current : sds) (p : Z) : res (sds * Z * bool * quote_mode) :=
  let! c := get1 p line in
  if (c =? 32) || (c =? 10) || (c =? 13) || (c =? 9) || (c =? 0) then Ok (current, p, true, PLAIN)
  else if c =? 34 then Ok (current, p, false, QUOTED)
  else if c =? 39 then Ok (current, p, false, SINGLE)
  else
    let! bs := load p 1 line in
    let! current := catlen current bs 1 in
    Ok (current, p, false, PLAIN).

Definition token_step (line : list Z) (mode : quote_mode) (current : sds) (p : Z) : res (option (sds * Z * bool * quote_mode)) :=
  match mode with
  | QUOTED => let! r := quoted_step line current p in Ok (match r with Some (current, p, done) => Some (current, p, done, QUOTED) | None => None end)
  | SINGLE => let! r := single_step line current p in Ok (match r with Some (current, p, done) => Some (current, p, done, SINGLE) | None => None end)
  | PLAIN => let! r := plain_step line current p in Ok (Some r)
  end.

(** while(!done) *)
Fixpoint token_loop (fuel : nat) (line : list Z) (mode : quote_mode) (current : sds) (p : Z) : res (option (sds * Z)) :=
  match fuel with
  | O => Fault OutOfFuel
  | S fuel =>
      let! r := token_step line mode current p in
      match r with
      | None => Ok None
      | Some (current, p, done, mode) =>
          let! c := get1 p line in
          let p := if negb (c =? 0) then p + 1 else p in
          if (done : bool) then Ok (Some (current, p)) else token_loop fuel line mode current p
      end
  end.

(** The loop that skips blanks. *)
Fixpoint skip_blanks (fuel : nat) (line : list Z) (p : Z) : res Z :=
  let! c := get1 p line in
  if negb (c =? 0) && isspace c then
    match fuel with O => Fault OutOfFuel | S fuel => skip_blanks fuel line (p + 1) end
  else Ok p.

Fixpoint args_loop (fuel : nat) (line : list Z) (vector : list sds) (p : Z) : res (option (list sds)) :=
  match fuel with
  | O => Fault OutOfFuel
  | S fuel =>
      let! p := skip_blanks (length line) line p in
      let! c := get1 p line in
      if negb (c =? 0) then
        let! current := empty in
        let! r := token_loop (S (length line)) line PLAIN current p in
        match r with
        | None => Ok None
        | Some (current, p) => args_loop fuel line (vector ++ [current]) p
        end
      else Ok (Some vector)
  end.

Definition sdssplitargs (line : list Z) : res (option (list sds)) := args_loop (S (length line)) line [] 0.

(** * Splitting at a separator, joining *)

(** The loop over [j]: the tokens, their number, the size of the array and the start of the
    current token. *)
Fixpoint split_loop (fuel : nat) (s : list Z) (len : Z) (sep : list Z) (seplen : Z) (tokens : list sds) (elements slots start j : Z) : res (list sds * Z * Z * Z) :=
  if j <? len - (seplen - 1) then
    match fuel with
    | O => Fault OutOfFuel
    | S fuel =>
        let slots := if slots <? elements + 2 then s32 (slots * 2) else slots in
        let! found := (let! c := get1 j s in let! c0 := get1 0 sep in
                       if (seplen =? 1) && (c =? c0) then Ok true
                       else let! a := load j seplen s in let! b := load 0 seplen sep in Ok (bool_decide (a = b))) in
        if (found : bool) then
          assert! elements <? slots in
          let! bs := load start (j - start) s in
          let! token := newlen (INIT_BYTES bs) (j - start) in
          let start := j + seplen in
          let j := j + seplen - 1 in
          split_loop fuel s len sep seplen (tokens ++ [token]) (s32 (elements + 1)) slots start (j + 1)
        else split_loop fuel s len sep seplen tokens elements slots start (j + 1)
    end
  else Ok (tokens, elements, slots, start).

(** The tokens, NULL with a count of 0 for an empty string or separator. *)
Definition sdssplitlen (s : list Z) (len : Z) (sep : list Z) (seplen : Z) : res (option (list sds) * Z) :=
  if (seplen <? 1) || (len <=? 0) then Ok (None, 0)
  else
    let! '(tokens, elements, slots, start) := split_loop (Z.to_nat len) s len sep seplen [] 0 5 0 0 in
    assert! elements <? slots in
    let! bs := load start (len - start) s in
    let! token := newlen (INIT_BYTES bs) (len - start) in
    Ok (Some (tokens ++ [token]), s32 (elements + 1)).

Fixpoint joinsds_loop (argv : list sds) (sep : list Z) (seplen : Z) (join : sds) : res sds :=
  match argv with
  | [] => Ok join
  | arg :: argv =>
      let! join := sdscatsds junk usable join arg in
      let! join := (match argv with [] => Ok join | _ => catlen join sep seplen end) in
      joinsds_loop argv sep seplen join
  end.

Definition sdsjoinsds (argv : list sds) (sep : list Z) (seplen : Z) : res sds := let! join := empty in joinsds_loop argv sep seplen join.

Fixpoint join_loop (argv : list (list Z)) (sep : list Z) (join : sds) : res sds :=
  match argv with
  | [] => Ok join
  | arg :: argv =>
      let! join := sdscat junk usable join arg in
      let! join := (match argv with [] => Ok join | _ => sdscat junk usable join sep end) in
      join_loop argv sep join
  end.

Definition sdsjoin (argv : list (list Z)) (sep : list Z) : res sds := let! join := empty in join_loop argv sep join.
End Text.

Example split_demo :
  (let! r := sdssplitargs 165 (fun n => n + 7) (fun _ => true) [32; 102; 32; 34; 92; 120; 52; 49; 92; 110; 34; 32; 39; 97; 39; 0] in
   match r with Some v => Ok (Some ((fun s => (fun n => take (Z.to_nat n) (chars s)) <$> (match sdslen s with Ok n => Some n | _ => None end)) <$> v)) | None => Ok None end)
  = Ok (Some [Some [102]; Some [65; 10]; Some [97]]).
Proof. vm_compute. reflexivity. Qed.

(** A single quote is not escaped, but it starts a string for sdssplitargs. *)
Example quote_demo :
  (let! s := sdsnew 165 (fun n => n + 7) (fun _ => true) (Some [105; 116; 39; 115; 0]) in sdsneedsrepr s) = Ok false /\
  sdssplitargs 165 (fun n => n + 7) (fun _ => true) [105; 116; 39; 115; 0] = Ok None.
Proof. vm_compute. by split. Qed.
