(* ===== verification/SdsTextSpec.v ===== *)
(** Dynamic strings as text: quoting and splitting are inverse to each other.

    [token] and [args] are the grammar that sdssplitargs reads, as functions on the rest of the
    line; the function follows them on every line.  What sdscatrepr writes is read back as the
    bytes it was given.  sdssplitlen cuts at the separator and sdsjoinsds puts the string together
    again. *)

From stdpp Require Import list.
From S2P Require Import Prelude Machine UtilNum Glob Sds SdsSpec SdsText.

(** * The grammar of a line *)

Definition blank (c : Z) : bool := (c =? 32) || (c =? 10) || (c =? 13) || (c =? 9).
Definition hex_byte (h1 h2 : Z) : Z := u8 (hex_digit_to_int h1 * 16 + hex_digit_to_int h2).

(** What the first characters of [r], the rest of the line, do to the token [acc]: an error, its
    end, or the state in which to go on. *)
Inductive step_result := STEP_ERR | STEP_DONE (acc rest : list Z) | STEP_GO (mode : quote_mode) (acc rest : list Z).

Definition step (mode : quote_mode) (r acc : list Z) : step_result :=
  match r with
  | [] => match mode with PLAIN => STEP_DONE acc [] | _ => STEP_ERR end
  | c :: r1 =>
      match mode with
      | PLAIN => if blank c then STEP_DONE acc r1 else if c =? 34 then STEP_GO QUOTED acc r1 else if c =? 39 then STEP_GO SINGLE acc r1 else STEP_GO PLAIN (acc ++ [c]) r1
      | SINGLE =>
          match r1 with
          | [] => if c =? 39 then STEP_DONE acc [] else STEP_GO SINGLE (acc ++ [c]) []
          | c1 :: r2 =>
              if (c =? 92) && (c1 =? 39) then STEP_GO SINGLE (acc ++ [39]) r2
              else if c =? 39 then (if isspace c1 then STEP_DONE acc r1 else STEP_ERR) else STEP_GO SINGLE (acc ++ [c]) r1
          end
      | QUOTED =>
          match r1 with
          | [] => if c =? 34 then STEP_DONE acc [] else STEP_GO QUOTED (acc ++ [c]) []
          | c1 :: r2 =>
              if c =? 92 then
                match r2 with
                | h1 :: h2 :: r4 => if (c1 =? 120) && is_hex_digit h1 && is_hex_digit h2 then STEP_GO QUOTED (acc ++ [hex_byte h1 h2]) r4 else STEP_GO QUOTED (acc ++ [unescape c1]) r2
                | _ => STEP_GO QUOTED (acc ++ [unescape c1]) r2
                end
              else if c =? 34 then (if isspace c1 then STEP_DONE acc r1 else STEP_ERR) else STEP_GO QUOTED (acc ++ [c]) r1
          end
      end
  end.

Lemma step_shorter mode r acc m a r' : step mode r acc = STEP_GO m a r' -> (length r' < length r)%nat /\ (length a <= length acc + 1)%nat /\ exists x, r = x ++ r'.
Proof.
  destruct r as [|c r1]; [by destruct mode|]. destruct mode; cbn [step].
  - repeat case_match; intros [= <- <- <-]; (split; [simpl; lia|]; split; [rewrite ?length_app; simpl; lia|by exists [c]]).
  - destruct r1 as [|c1 r2]; [case_match; intros [= <- <- <-]; (split; [simpl; lia|]; split; [rewrite ?length_app; simpl; lia|by exists [c]])|].
    destruct (c =? 92); [|repeat case_match; intros [= <- <- <-]; (split; [simpl; lia|]; split; [rewrite ?length_app; simpl; lia|by exists [c]])].
    destruct r2 as [|h1 [|h2 r4]]; [intros [= <- <- <-]..|case_match; intros [= <- <- <-]]; (split; [simpl; lia|]; split; [rewrite ?length_app; simpl; lia|]);
      first [by exists [c; c1]|by exists [c; c1; h1; h2]].
  - destruct r1 as [|c1 r2]; [case_match; intros [= <- <- <-]; (split; [simpl; lia|]; split; [rewrite ?length_app; simpl; lia|by exists [c]])|].
    repeat case_match; intros [= <- <- <-]; (split; [simpl; lia|]; split; [rewrite ?length_app; simpl; lia|]); first [by exists [c; c1]|by exists [c]].
Qed.
(** The token at the start of [r] after [acc], and what follows it; [None] for unbalanced
    quotes.  A step consumes a character or more. *)
Fixpoint token_n (n : nat) (mode : quote_mode) (r acc : list Z) : option (list Z * list Z) :=
  match step mode r acc with
  | STEP_ERR => None
  | STEP_DONE t r' => Some (t, r')
  | STEP_GO mode acc r' => match n with O => None | S n => token_n n mode r' acc end
  end.

Definition token (mode : quote_mode) (r acc : list Z) : option (list Z * list Z) := token_n (length r) mode r acc.

Lemma token_n_enough n : forall m mode r acc, (length r <= n)%nat -> (length r <= m)%nat -> token_n n mode r acc = token_n m mode r acc.
Proof.
  induction n as [|n IH]; intros m mode r acc Hn Hm.
  - destruct r; [|simpl in Hn; lia]. by destruct m, mode.
  - destruct m as [|m]; cbn [token_n]; destruct (step mode r acc) as [| |mode' acc' r'] eqn:E; try done.
    + apply step_shorter in E. lia.
    + apply step_shorter in E. apply IH; lia.
Qed.

Lemma token_eq mode r acc : token mode r acc = match step mode r acc with STEP_ERR => None | STEP_DONE t r' => Some (t, r') | STEP_GO mode acc r' => token mode r' acc end.
Proof.
  unfold token. destruct (length r) as [|n] eqn:En; cbn [token_n]; destruct (step mode r acc) as [| |mode' acc' r'] eqn:E; try done; apply step_shorter in E; [lia|].
  apply token_n_enough; lia.
Qed.

Lemma step_done_shorter mode r acc t r' : step mode r acc = STEP_DONE t r' -> t = acc /\ (r <> [] -> (length r' < length r)%nat) /\ exists x, r = x ++ r'.
Proof.
  destruct r as [|c r1]; [destruct mode; [|done..]; intros [= <- <-]; split; [done|]; split; [done|by exists []]|]. destruct mode; cbn [step].
  - repeat case_match; intros [= <- <-]. split; [done|]. split; [simpl; lia|by exists [c]].
  - destruct r1 as [|c1 r2]; [|destruct (c =? 92); [destruct r2 as [|? [|? ?]]; [done..|by case_match]|]]; repeat case_match; intros [= <- <-]; (split; [done|]; split; [simpl; lia|by exists [c]]).
  - destruct r1 as [|c1 r2]; repeat case_match; intros [= <- <-]; (split; [done|]; split; [simpl; lia|by exists [c]]).
Qed.

(** The token and what follows it are shorter than what was read, and the rest is its end. *)
Lemma token_shorter n : forall mode r acc t r', (length r <= n)%nat -> token mode r acc = Some (t, r') ->
  (length t <= length acc + length r)%nat /\ (r <> [] -> (length r' < length r)%nat) /\ exists x, r = x ++ r'.
Proof.
  induction n as [|n IH]; intros mode r acc t r' Hn; rewrite token_eq; destruct (step mode r acc) as [|t0 r0|m a r0] eqn:E; try done.
  1, 3: intros [= -> ->]; apply step_done_shorter in E as (-> & Hs & Hx); split; [lia|by split].
  - apply step_shorter in E. lia.
  - apply step_shorter in E as (Hs & Ha & x & ->). intros Ht. apply IH in Ht as (Hl & Hl' & y & ->); [|lia]. rewrite !length_app in *. split; [lia|]. split; [lia|].
    exists (x ++ y). by rewrite (assoc_L (++)).
Qed.

(** The tokens of the line; [n] is more than the length of the line. *)
Fixpoint args (n : nat) (r : list Z) : option (list (list Z)) :=
  match n with
  | O => None
  | S n =>
      match drop_while isspace r with
      | [] => Some []
      | r => match token PLAIN r [] with Some (t, r') => (fun ts => t :: ts) <$> args n r' | None => None end
      end
  end.

Definition line_args (r : list Z) : option (list (list Z)) := args (S (length r)) r.

(** * What sdscatrepr prints *)

Definition repr_char (c : Z) : list Z :=
  if (c =? 92) || (c =? 34) then [92; c]
  else if c =? 10 then [92; 110]
  else if c =? 13 then [92; 114]
  else if c =? 9 then [92; 116]
  else if c =? 7 then [92; 97]
  else if c =? 8 then [92; 98]
  else if isprint c then [c]
  else [92; 120; hex_digit (Z.shiftr c 4); hex_digit (Z.land c 15)].

Definition repr_bytes (bs : list Z) : list Z := [34] ++ concat (repr_char <$> bs) ++ [34].

(** A byte that sdssplitargs takes as it is, outside of quotes. *)
Definition plain_char (c : Z) : bool := negb (isspace c || (c =? 34) || (c =? 39) || (c =? 0)).

Lemma needs_repr_plain c : needs_repr c = false -> c <> 39 -> plain_char c = true.
Proof. unfold needs_repr, plain_char, isprint, isspace. intros H Hc. lia. Qed.

Lemma every_byte (P : Z -> bool) c : forallb P (seqZ 0 256) = true -> 0 <= c < 256 -> P c = true.
Proof. intros H Hc. rewrite forallb_forall in H. apply H. apply list_elem_of_In, elem_of_seqZ. lia. Qed.

Lemma hex_digits c : 0 <= c < 256 -> is_hex_digit (hex_digit (Z.shiftr c 4)) = true /\ is_hex_digit (hex_digit (Z.land c 15)) = true /\
  hex_byte (hex_digit (Z.shiftr c 4)) (hex_digit (Z.land c 15)) = c.
Proof.
  intros Hc. pose proof (every_byte (fun c => is_hex_digit (hex_digit (Z.shiftr c 4)) && is_hex_digit (hex_digit (Z.land c 15)) && (hex_byte (hex_digit (Z.shiftr c 4)) (hex_digit (Z.land c 15)) =? c)) c) as H.
  cbn beta in H. rewrite !andb_true_iff, Z.eqb_eq in H. destruct H as [[H1 H2] H3]; [by vm_compute|done|]. by repeat split.
Qed.

Lemma repr_char_nonzero c x : 0 <= c < 256 -> x ∈ repr_char c -> 0 < x.
Proof.
  intros Hc Hx. pose proof (every_byte (fun c => forallb (fun x => 0 <? x) (repr_char c)) c ltac:(by vm_compute) Hc) as H. cbn beta in H.
  rewrite forallb_forall in H. apply Z.ltb_lt, H. by apply list_elem_of_In.
Qed.

(** The bytes of one character are read back in one step. *)
Lemma quoted_char c tail acc : 0 <= c < 256 -> step QUOTED (repr_char c ++ tail) acc = STEP_GO QUOTED (acc ++ [c]) tail.
Proof.
  intros Hc. unfold repr_char.
  destruct (c =? 92) eqn:E1; [|destruct (c =? 34) eqn:E2; [|destruct (c =? 10) eqn:E3; [|destruct (c =? 13) eqn:E4; [|destruct (c =? 9) eqn:E5; [|destruct (c =? 7) eqn:E6; [|destruct (c =? 8) eqn:E7]]]]]];
    cbn [orb]; try (apply Z.eqb_eq in E1 || apply Z.eqb_eq in E2 || apply Z.eqb_eq in E3 || apply Z.eqb_eq in E4 || apply Z.eqb_eq in E5 || apply Z.eqb_eq in E6 || apply Z.eqb_eq in E7; subst c);
    try (by destruct tail as [|? [|? ?]]).
  destruct (isprint c).
  - cbn [app step]. rewrite E1, E2. by destruct tail.
  - destruct (hex_digits c Hc) as (H1 & H2 & H3). cbn [app step]. cbn [Z.eqb Pos.eqb andb]. by rewrite H1, H2, H3.
Qed.

Lemma token_quoted bs : forall tail acc, bytes_ok bs -> match tail with c :: _ => isspace c = true | [] => True end ->
  token QUOTED (concat (repr_char <$> bs) ++ [34] ++ tail) acc = Some (acc ++ bs, tail).
Proof.
  induction bs as [|c bs IH]; intros tail acc Hbs Ht.
  - rewrite token_eq, (app_nil_r acc). cbn [fmap list_fmap concat app step]. destruct tail as [|c1 tail]; [done|]. by rewrite Ht.
  - apply Forall_cons_1 in Hbs as [Hc Hbs]. rewrite fmap_cons, concat_cons, <- (assoc_L (++)), token_eq, quoted_char by exact Hc. rewrite IH by done. by rewrite <- (assoc_L (++)).
Qed.

Lemma token_repr bs tail : bytes_ok bs -> match tail with c :: _ => isspace c = true | [] => True end ->
  token PLAIN (repr_bytes bs ++ tail) [] = Some (bs, tail).
Proof. intros Hbs Ht. unfold repr_bytes. rewrite token_eq. cbn [app step]. rewrite <- (assoc_L (++)). by apply token_quoted. Qed.

Lemma plain_char_ne c : plain_char c = true -> isspace c = false /\ blank c = false /\ (c =? 34) = false /\ (c =? 39) = false /\ c <> 0.
Proof. unfold plain_char, isspace, blank. intros H. repeat split; lia. Qed.

Lemma token_plain bs : forall tail acc, Forall (fun c => plain_char c = true) bs -> match tail with c :: _ => blank c = true | [] => True end ->
  token PLAIN (bs ++ tail) acc = Some (acc ++ bs, List.tl tail).
Proof.
  induction bs as [|c bs IH]; intros tail acc Hbs Ht; rewrite token_eq.
  - rewrite app_nil_r. destruct tail as [|c tail]; [done|]. cbn [app step List.tl]. by rewrite Ht.
  - apply Forall_cons_1 in Hbs as [Hc Hbs]. apply plain_char_ne in Hc as (_ & Hb & H34 & H39 & _). cbn [app step]. rewrite Hb, H34, H39, IH by done. by rewrite <- (assoc_L (++)).
Qed.

(** How an argument is written: as it is or quoted. *)
Definition spelled (quoted : bool) (t : list Z) : list Z := if quoted then repr_bytes t else t.
Definition spelling_ok (quoted : bool) (t : list Z) : Prop :=
  bytes_ok t /\ (quoted = false -> t <> [] /\ Forall (fun c => plain_char c = true) t).

Lemma spelled_nonzero q t : spelling_ok q t -> 0 ∉ spelled q t.
Proof.
  intros [Hb Hp]. unfold spelled. destruct q.
  - unfold repr_bytes. rewrite !elem_of_app. intros [H|[H|H]]; [by apply list_elem_of_singleton in H| |by apply list_elem_of_singleton in H].
    apply list_elem_of_In, in_concat in H as (l & H & Hl). apply list_elem_of_In, list_elem_of_fmap in H as (c & -> & Hc). apply list_elem_of_In in Hl.
    unfold bytes_ok in Hb. rewrite Forall_forall in Hb. specialize (Hb c (proj1 (list_elem_of_In _ _) Hc)). apply repr_char_nonzero in Hl; lia.
  - destruct (Hp eq_refl) as [_ Hf]. intros H%list_elem_of_In. rewrite Forall_forall in Hf. apply Hf, plain_char_ne in H. tauto.
Qed.

(** The line of the arguments, with single spaces in between. *)
Fixpoint line_of (ts : list (bool * list Z)) : list Z :=
  match ts with
  | [] => []
  | [(q, t)] => spelled q t
  | (q, t) :: ts => spelled q t ++ [32] ++ line_of ts
  end.

Lemma line_cons q t x ts : line_of ((q, t) :: x :: ts) = spelled q t ++ 32 :: line_of (x :: ts).
Proof. done. Qed.

Definition spellings_ok (ts : list (bool * list Z)) : Prop := Forall (fun '(q, t) => spelling_ok q t) ts.

Lemma spelled_head q t : spelling_ok q t -> exists c w, spelled q t = c :: w /\ isspace c = false.
Proof.
  intros [_ Hp]. unfold spelled. destruct q; [by eexists _, _|]. destruct (Hp eq_refl) as [Hne Hf]. destruct t as [|c w]; [done|]. exists c, w. split; [done|].
  apply Forall_cons_1 in Hf as [Hc _]. by apply plain_char_ne.
Qed.

(** The token at the front, where the line ends or a space follows. *)
Lemma token_spelled q t tail : spelling_ok q t -> (tail = [] \/ exists tail', tail = 32 :: tail') ->
  exists tail', token PLAIN (spelled q t ++ tail) [] = Some (t, tail') /\ (tail' = tail \/ tail = 32 :: tail').
Proof.
  intros [Hb Hp] Ht. unfold spelled. destruct q.
  - exists tail. split; [|by left]. apply token_repr; [done|]. by destruct Ht as [-> | (tail' & ->)].
  - destruct (Hp eq_refl) as [_ Hf]. exists (List.tl tail). split; [|destruct Ht as [-> | (tail' & ->)]; [by left|by right]]. apply token_plain; [done|]. by destruct Ht as [-> | (tail' & ->)].
Qed.

Lemma args_space n r : args n (32 :: r) = args n r.
Proof. by destruct n. Qed.

Lemma args_spelled n q t tail : spelling_ok q t -> (tail = [] \/ exists tail', tail = 32 :: tail') ->
  args (S n) (spelled q t ++ tail) = (fun ts => t :: ts) <$> args n tail.
Proof.
  intros Hs Ht. destruct (token_spelled q t tail Hs Ht) as (tail' & Htok & Htail). destruct (spelled_head q t Hs) as (c & w & E & Hc).
  cbn [args]. rewrite E in *. cbn [app drop_while] in *. rewrite Hc, Htok. f_equal. destruct Htail as [-> | ->]; [done|]. apply eq_sym, args_space.
Qed.

Lemma args_line ts : forall n, spellings_ok ts -> (length ts <= n)%nat -> args (S n) (line_of ts) = Some (snd <$> ts).
Proof.
  induction ts as [|[q t] ts IH]; intros n Hok Hn; [done|]. apply Forall_cons_1 in Hok as [Hs Hok]. destruct n as [|n]; [simpl in Hn; lia|].
  destruct ts as [|x ts].
  - cbn [line_of]. rewrite <- (app_nil_r (spelled q t)). by rewrite args_spelled by (done || by left).
  - rewrite line_cons, args_spelled by (done || (right; by eexists)). rewrite args_space. by rewrite (IH n) by (done || (simpl in *; lia)).
Qed.

Lemma line_long ts : spellings_ok ts -> (length ts <= length (line_of ts))%nat.
Proof.
  induction ts as [|[q t] ts IH]; intros Hok; [simpl; lia|]. apply Forall_cons_1 in Hok as [Hs Hok]. specialize (IH Hok). destruct (spelled_head q t Hs) as (c & w & E & _).
  destruct ts as [|x ts]; [cbn [line_of]; rewrite E; simpl; lia|]. rewrite line_cons, length_app, E. cbn [length] in *. lia.
Qed.

Lemma line_args_line ts : spellings_ok ts -> line_args (line_of ts) = Some (snd <$> ts).
Proof.
  intros Hok. apply args_line; [done|]. by apply line_long.
Qed.

Lemma line_nonzero ts : spellings_ok ts -> 0 ∉ line_of ts.
Proof.
  induction ts as [|[q t] ts IH]; intros Hok; [apply not_elem_of_nil|]. apply Forall_cons_1 in Hok as [Hs Hok]. specialize (IH Hok). apply spelled_nonzero in Hs as Hz.
  destruct ts as [|x ts]; [done|]. rewrite line_cons, elem_of_app, elem_of_cons. by intros [H|[H|H]].
Qed.

(** * The function follows the grammar *)

Section Spec.
Context (junk : Z) (usable : Z -> Z) (nallocx : option (Z -> Z)) (malloc_ok : Z -> bool) `{Halloc : !AllocOk usable nallocx}.

Notation catlen := (sdscatlen junk usable).

Lemma cat_spec s bs t : rep s bs -> zlength bs + zlength t < 2 ^ 60 -> exists s', catlen s t (zlength t) = Ok s' /\ rep s' (bs ++ t).
Proof. intros H Hl. destruct (catlen_spec junk usable nallocx s bs t (zlength t) H) as (s' & Hs' & Hr); [lia|done|]. exists s'. split; [done|]. by rewrite Nat2Z.id, firstn_all in Hr. Qed.

Lemma cat1_spec s bs c : rep s bs -> zlength bs < 2 ^ 59 -> exists s', catlen s [c] 1 = Ok s' /\ rep s' (bs ++ [c]).
Proof. intros H Hl. apply (cat_spec s bs [c] H). change (zlength [c]) with 1. pow_const. lia. Qed.

(** The bytes behind [pre]. *)
Lemma line_get (pre r : list Z) (k : nat) (c : Z) : r !! k = Some c -> get1 (zlength pre + Z.of_nat k) (pre ++ r) = Ok c.
Proof. intros Hc. rewrite get1_shift by lia. by apply get1_lookup. Qed.

Lemma line_get0 (pre : list Z) (c : Z) r : get1 (zlength pre) (pre ++ c :: r) = Ok c.
Proof. by apply get1_app. Qed.

Lemma line_get1 (pre : list Z) (c c1 : Z) r : get1 (zlength pre + 1) (pre ++ c :: c1 :: r) = Ok c1.
Proof. by apply (line_get pre _ 1). Qed.

Lemma line_get2 (pre : list Z) (c c1 c2 : Z) r : get1 (zlength pre + 2) (pre ++ c :: c1 :: c2 :: r) = Ok c2.
Proof. by apply (line_get pre _ 2). Qed.

Lemma line_get3 (pre : list Z) (c c1 c2 c3 : Z) r : get1 (zlength pre + 3) (pre ++ c :: c1 :: c2 :: c3 :: r) = Ok c3.
Proof. by apply (line_get pre _ 3). Qed.

Lemma line_load (pre : list Z) (c : Z) r : load (zlength pre) 1 (pre ++ c :: r) = Ok [c].
Proof. by apply (load_app pre [c] r). Qed.

Lemma hex_escape_spec pre r : 0 ∉ r -> hex_escape (pre ++ r ++ [0]) (zlength pre) =
  Ok (match r with c :: x :: h1 :: h2 :: _ => if (c =? 92) && ((x =? 120) && is_hex_digit h1 && is_hex_digit h2) then Some (hex_byte h1 h2) else None | _ => None end).
Proof.
  intros H0. unfold hex_escape. destruct r as [|c r]; cbn [app]; rewrite line_get0; [done|]. destruct (c =? 92); cbn [negb andb]; [|by destruct r as [|? [|? [|? ?]]]].
  destruct r as [|x r]; cbn [app]; rewrite line_get1; [done|]. destruct (x =? 120); cbn [negb andb]; [|by destruct r as [|? [|? ?]]].
  destruct r as [|h1 r]; cbn [app]; rewrite line_get2; [done|]. destruct (is_hex_digit h1); cbn [negb andb]; [|by destruct r].
  destruct r as [|h2 r]; cbn [app]; rewrite line_get3; [done|]. by destruct (is_hex_digit h2).
Qed.

Lemma closed_spec pre c r : closed (pre ++ c :: r ++ [0]) (zlength pre) = Ok (match r with [] => true | c1 :: _ => (c1 =? 0) || isspace c1 end).
Proof. unfold closed. by destruct r as [|c1 r]; cbn [app]; rewrite line_get1. Qed.


(** What the code returns for a step, from the character at the end of [pre] on. *)
Definition stepped (line pre r : list Z) (res : res (option (sds * Z * bool * quote_mode))) (st : step_result) : Prop :=
  match st with
  | STEP_ERR => res = Ok None
  | STEP_DONE acc r' => exists cur p mode, res = Ok (Some (cur, p, true, mode)) /\ rep cur acc /\ (exists c, get1 p line = Ok c /\ (if negb (c =? 0) then p + 1 else p) = zlength line - zlength r' - 1)
  | STEP_GO mode acc r' => exists cur p, res = Ok (Some (cur, p, false, mode)) /\ rep cur acc /\ exists c, get1 p line = Ok c /\ c <> 0 /\ p + 1 = zlength line - zlength r' - 1
  end.

Lemma stepped_go line pre r cur acc mode p m c x r' : line = pre ++ r ++ [0] -> r = x ++ r' -> rep cur acc -> p = zlength pre + zlength x - 1 -> x !! (length x - 1)%nat = Some c -> c <> 0 ->
  m = mode -> stepped line pre r (Ok (Some (cur, p, false, m))) (STEP_GO mode acc r').
Proof.
  intros -> -> H -> Hc Hne ->. exists cur, (zlength pre + zlength x - 1). split; [done|]. split; [done|]. exists c. apply lookup_lt_Some in Hc as Hx.
  split; [|split; [done|rewrite !length_app; simpl; lia]]. replace (zlength pre + zlength x - 1) with (zlength pre + Z.of_nat (length x - 1)) by lia.
  apply line_get. rewrite <- (assoc_L (++)). by rewrite lookup_app_l.
Qed.

Lemma stepped_done line pre c r' cur acc m p : line = pre ++ (c :: r') ++ [0] -> rep cur acc -> c <> 0 -> p = zlength pre -> stepped line pre (c :: r') (Ok (Some (cur, p, true, m))) (STEP_DONE acc r').
Proof.
  intros -> H Hc ->. exists cur, (zlength pre), m. split; [done|]. split; [done|]. exists c. split; [apply line_get0|]. rewrite (proj2 (Z.eqb_neq c 0)) by done. cbn [negb]. rewrite !length_app. simpl. lia.
Qed.

(** The step read [x], whose last character is [c]. *)
Ltac go_step c x := apply (stepped_go _ _ _ _ _ _ _ _ c x); try done; simpl; lia.

Section Step.
Context (pre r acc : list Z) (cur : sds) (Hcur : rep cur acc) (H0 : 0 ∉ r) (Hacc : zlength acc < 2 ^ 59).
Notation line := (pre ++ r ++ [0]).

Lemma plain_step_spec : stepped line pre r (token_step junk usable line PLAIN cur (zlength pre)) (step PLAIN r acc).
Proof.
  cbn [token_step]. unfold plain_step. destruct r as [|c r1]; cbn [app]; rewrite line_get0.
  - exists cur, (zlength pre), PLAIN. split; [done|]. split; [done|]. exists 0. split; [by rewrite line_get0|]. cbn. rewrite length_app. simpl. lia.
  - apply not_elem_of_cons in H0 as [Hc _]. rewrite (proj2 (Z.eqb_neq c 0)), orb_false_r by done. cbn [step]. fold (blank c). destruct (blank c); [by apply stepped_done|].
    destruct (c =? 34); [go_step c [c]|]. destruct (c =? 39); [go_step c [c]|].
    rewrite line_load. destruct (cat1_spec cur acc c Hcur Hacc) as (cur' & -> & Hc'). go_step c [c].
Qed.

Lemma single_step_spec : stepped line pre r (token_step junk usable line SINGLE cur (zlength pre)) (step SINGLE r acc).
Proof.
  cbn [token_step]. unfold single_step. destruct r as [|c r1]; cbn [app]; rewrite line_get0; [done|]. apply not_elem_of_cons in H0 as [Hc H1].
  assert (Hesc : (if c =? 92 then let! c1 := get1 (zlength pre + 1) (pre ++ c :: r1 ++ [0]) in Ok (c1 =? 39) else Ok false) = Ok ((c =? 92) && match r1 with c1 :: _ => c1 =? 39 | [] => false end)).
  { destruct (c =? 92); [|done]. by destruct r1; cbn [app]; rewrite line_get1. }
  rewrite Hesc. cbn iota beta. rewrite closed_spec, line_load, (proj2 (Z.eqb_neq c 0)) by done. destruct (cat1_spec cur acc c Hcur Hacc) as (cur' & Ec & Hc'). destruct (cat1_spec cur acc 39 Hcur Hacc) as (curq & Eq & Hq).
  rewrite Ec, Eq. destruct r1 as [|c1 r2]; cbn [step]; rewrite ?andb_false_r.
  - destruct (c =? 39); cbn [negb]; [by apply stepped_done|go_step c [c]].
  - apply not_elem_of_cons in H1 as [Hc1 H2]. destruct ((c =? 92) && (c1 =? 39)).
    + go_step c1 [c; c1].
    + rewrite (proj2 (Z.eqb_neq c1 0)) by done. cbn [orb]. destruct (c =? 39); [|go_step c [c]]. destruct (isspace c1); cbn [negb]; [by apply stepped_done|done].
Qed.

Lemma quoted_step_spec : stepped line pre r (token_step junk usable line QUOTED cur (zlength pre)) (step QUOTED r acc).
Proof.
  cbn [token_step]. unfold quoted_step. rewrite hex_escape_spec by done.
  destruct r as [|c r1]; [cbn [app]; by rewrite line_get0|]. apply not_elem_of_cons in H0 as [Hc H1].
  assert (Hesc : (if c =? 92 then let! c1 := get1 (zlength pre + 1) (pre ++ c :: r1 ++ [0]) in Ok (negb (c1 =? 0)) else Ok false) = Ok ((c =? 92) && match r1 with _ :: _ => true | [] => false end)).
  { destruct (c =? 92); [|done]. destruct r1 as [|c1 r2]; cbn [app]; rewrite line_get1; [done|]. apply not_elem_of_cons in H1 as [Hc1 _]. by rewrite (proj2 (Z.eqb_neq c1 0)). }
  cbn [app]. rewrite line_get0, Hesc. cbn iota beta. rewrite closed_spec, line_load, (proj2 (Z.eqb_neq c 0)) by done. destruct (cat1_spec cur acc c Hcur Hacc) as (cur' & Ec & Hc'). rewrite Ec.
  destruct r1 as [|c1 r2].
  { rewrite andb_false_r. cbn [step]. destruct (c =? 34); cbn [negb]; [by apply stepped_done|go_step c [c]]. }
  apply not_elem_of_cons in H1 as [Hc1 H2]. rewrite andb_true_r, (proj2 (Z.eqb_neq c1 0)) by done. cbn [orb app]. rewrite line_get1. cbn [step].
  destruct (cat1_spec cur acc (unescape c1) Hcur Hacc) as (cure & Ee & He). rewrite Ee.
  assert (Hgo : stepped (pre ++ c :: c1 :: r2 ++ [0]) pre (c :: c1 :: r2) (Ok (Some (cure, zlength pre + 1, false, QUOTED))) (STEP_GO QUOTED (acc ++ [unescape c1]) r2)).
  { go_step c1 [c; c1]. }
  destruct (c =? 92) eqn:E92; cbn [andb].
  - destruct r2 as [|h1 [|h2 r4]]; [exact Hgo..|]. destruct ((c1 =? 120) && is_hex_digit h1 && is_hex_digit h2); [|exact Hgo].
    destruct (cat1_spec cur acc (hex_byte h1 h2) Hcur Hacc) as (curh & -> & Hh). apply not_elem_of_cons in H2 as [Hh1 H2]. apply not_elem_of_cons in H2 as [Hh2 _].
    go_step h2 [c; c1; h1; h2].
  - destruct r2 as [|? [|? ?]]; (destruct (c =? 34); [destruct (isspace c1); cbn [negb]; [by apply stepped_done|done]|go_step c [c]]).
Qed.

Lemma token_step_spec mode : stepped line pre r (token_step junk usable line mode cur (zlength pre)) (step mode r acc).
Proof. destruct mode; [apply plain_step_spec|apply quoted_step_spec|apply single_step_spec]. Qed.
End Step.

Lemma token_loop_spec fuel : forall mode pre r acc cur, rep cur acc -> 0 ∉ r -> zlength acc + zlength r < 2 ^ 58 -> (length r < fuel)%nat ->
  match token mode r acc with
  | Some (t, r') => exists cur', token_loop junk usable fuel (pre ++ r ++ [0]) mode cur (zlength pre) = Ok (Some (cur', zlength (pre ++ r) - zlength r')) /\ rep cur' t
  | None => token_loop junk usable fuel (pre ++ r ++ [0]) mode cur (zlength pre) = Ok None
  end.
Proof.
  induction fuel as [|fuel IH]; intros mode pre r acc cur Hcur H0 Hmax Hf; [lia|]. rewrite token_eq. cbn [token_loop].
  pose proof (token_step_spec pre r acc cur Hcur H0 ltac:(change (2 ^ 59) with (2 * 2 ^ 58); lia) mode) as Hstep. destruct (step mode r acc) as [|t r'|m acc' r'] eqn:Est; cbn [stepped] in Hstep.
  - by rewrite Hstep.
  - destruct Hstep as (cur' & p & m & -> & Hr & c & -> & Hp). exists cur'. split; [|done]. rewrite Hp. do 3 f_equal. rewrite !length_app. simpl. lia.
  - destruct Hstep as (cur' & p & -> & Hr & c & -> & Hc & Hp). rewrite (proj2 (Z.eqb_neq c 0)) by done. cbn [negb]. apply step_shorter in Est as (Hs & Ha & x & ->).
    specialize (IH m (pre ++ x) r' acc' cur' Hr). rewrite !length_app in *. replace (p + 1) with (Z.of_nat (length pre + length x)) by (rewrite Hp; simpl; lia).
    rewrite <- !(assoc_L (++)) in IH. rewrite <- (assoc_L (++) x), Nat.add_assoc. apply IH; [|lia|lia]. intros Hin. apply H0. apply elem_of_app. by right.
Qed.

Lemma skip_blanks_spec fuel : forall pre r, 0 ∉ r -> (length r < fuel)%nat ->
  skip_blanks fuel (pre ++ r ++ [0]) (zlength pre) = Ok (zlength (pre ++ r) - zlength (drop_while isspace r)).
Proof.
  induction fuel as [|fuel IH]; intros pre r H0 Hf; [lia|]. cbn [skip_blanks]. destruct r as [|c r]; cbn [app]; rewrite line_get0.
  - cbn [Z.eqb negb andb drop_while length]. rewrite app_nil_r. f_equal. lia.
  - apply not_elem_of_cons in H0 as [Hc H0]. rewrite (proj2 (Z.eqb_neq c 0)) by done. cbn [negb andb drop_while]. destruct (isspace c).
    + specialize (IH (pre ++ [c]) r H0 ltac:(simpl in Hf; lia)). rewrite <- !(assoc_L (++)) in IH. cbn [app] in IH.
      replace (zlength (pre ++ [c])) with (zlength pre + 1) in IH by (rewrite length_app; simpl; lia). exact IH.
    + f_equal. rewrite length_app. lia.
Qed.

Lemma empty_spec : exists s, sdsempty junk usable malloc_ok = Ok s /\ rep s [].
Proof. by apply (newlen_spec junk usable nallocx malloc_ok (INIT_BYTES []) 0). Qed.

(** The vector holds the arguments. *)
Definition holds_args (vector : list sds) (ts : list (list Z)) : Prop := Forall2 rep vector ts.

Lemma args_loop_spec fuel : forall n pre r vector ts, holds_args vector ts -> 0 ∉ r -> zlength r < 2 ^ 58 -> (length r < fuel)%nat -> (length r < n)%nat ->
  match args n r with
  | Some ts' => exists vector', args_loop junk usable malloc_ok fuel (pre ++ r ++ [0]) vector (zlength pre) = Ok (Some vector') /\ holds_args vector' (ts ++ ts')
  | None => args_loop junk usable malloc_ok fuel (pre ++ r ++ [0]) vector (zlength pre) = Ok None
  end.
Proof.
  induction fuel as [|fuel IH]; intros n pre r vector ts Hv H0 Hmax Hf Hn; [lia|]. destruct n as [|n]; [lia|]. cbn [args_loop args].
  rewrite skip_blanks_spec by (done || (rewrite !length_app; simpl; lia)). destruct (drop_while_suffix isspace r) as (x & Ex). set (r1 := drop_while isspace r) in *. clearbody r1. subst r.
  replace (pre ++ (x ++ r1) ++ [0]) with ((pre ++ x) ++ r1 ++ [0]) by (by rewrite <- !(assoc_L (++))). replace (zlength (pre ++ x ++ r1) - zlength r1) with (zlength (pre ++ x)) by (rewrite !length_app; lia).
  assert (H01 : 0 ∉ r1) by (intros Hin; apply H0, elem_of_app; by right). rewrite length_app in Hmax, Hf, Hn. destruct r1 as [|c r2].
  - cbn [app]. rewrite line_get0. cbn [Z.eqb negb]. exists vector. split; [done|]. by rewrite app_nil_r.
  - cbn [app]. rewrite line_get0. pose proof H01 as [Hc _]%not_elem_of_cons. rewrite (proj2 (Z.eqb_neq c 0)) by done. cbn [negb].
    destruct empty_spec as (cur & -> & Hcur). change (c :: r2 ++ [0]) with ((c :: r2) ++ [0]).
    pose proof (token_loop_spec (S (length ((pre ++ x) ++ (c :: r2) ++ [0]))) PLAIN (pre ++ x) (c :: r2) [] cur Hcur H01 ltac:(simpl in *; lia) ltac:(rewrite !length_app; simpl; lia)) as Htok.
    destruct (token PLAIN (c :: r2) []) as [[t r']|] eqn:Et; [|by rewrite Htok]. destruct Htok as (cur' & -> & Hcur').
    apply (token_shorter (length (c :: r2))) in Et as (_ & Hs & y & Ey); [|done]. specialize (Hs ltac:(done)). rewrite Ey in *. rewrite length_app in Hs, Hmax, Hf, Hn.
    assert (Hy : (0 < length y)%nat) by lia. specialize (IH n ((pre ++ x) ++ y) r' (vector ++ [cur']) (ts ++ [t])).
    replace (zlength ((pre ++ x) ++ y ++ r') - zlength r') with (zlength ((pre ++ x) ++ y)) by (rewrite !length_app; lia).
    replace ((pre ++ x) ++ (y ++ r') ++ [0]) with (((pre ++ x) ++ y) ++ r' ++ [0]) by (by rewrite <- !(assoc_L (++))). destruct (args n r') as [ts'|]; cbn [fmap option_fmap option_map].
    + destruct IH as (vector' & Hv' & Hr'); [by apply Forall2_app; [|constructor]|by intros Hin; apply H01, elem_of_app; right|lia|lia|lia|].
      exists vector'. split; [exact Hv'|]. by rewrite <- (assoc_L (++)) in Hr'.
    + apply IH; [by apply Forall2_app; [|constructor]|by intros Hin; apply H01, elem_of_app; right|lia|lia|lia].
Qed.

(** On every line the function returns what the grammar says. *)
Lemma splitargs_spec r : 0 ∉ r -> zlength r < 2 ^ 58 ->
  match line_args r with
  | Some ts => exists vector, sdssplitargs junk usable malloc_ok (r ++ [0]) = Ok (Some vector) /\ Forall2 rep vector ts
  | None => sdssplitargs junk usable malloc_ok (r ++ [0]) = Ok None
  end.
Proof.
  intros H0 Hmax. apply (args_loop_spec (S (length (r ++ [0]))) (S (length r)) [] r [] []); [constructor|done|done|rewrite length_app; simpl; lia|lia].
Qed.
(** * Printing *)

Lemma catprintf_spec s bs fmtlen text : rep s bs -> zlength text < 2 ^ 31 -> zlength bs + zlength text < 2 ^ 60 ->
  exists s', sdscatprintf junk usable s fmtlen text = Ok s' /\ rep s' (bs ++ text).
Proof.
  intros H Ht Hl. unfold sdscatprintf, sdscatvprintf. rewrite (proj2 (Z.ltb_lt _ _)) by done. set (b := if u64 (fmtlen * 2) >? 1024 then u64 (fmtlen * 2) else 1024).
  assert (Hb : exists b', vprintf_loop 2 b text = Ok b' /\ zlength text < b').
  { cbn [vprintf_loop]. destruct (Z.geb_spec (zlength text) b); [|by exists b]. rewrite (u_id 64) by (pow_const; lia).
    destruct (Z.geb_spec (zlength text) (zlength text + 1)); [lia|]. exists (zlength text + 1). split; [done|lia]. }
  destruct Hb as (b' & -> & Hb). replace (replicate (Z.to_nat b') junk) with ([] ++ replicate (length (text ++ [0])) junk ++ replicate (Z.to_nat b' - length (text ++ [0])) junk).
  2: { cbn [app]. rewrite <- replicate_add. f_equal. rewrite length_app. simpl. lia. }
  rewrite (store_app [] _ (text ++ [0])) by (done || by rewrite length_replicate). cbn [app].
  destruct (catlen_spec junk usable nallocx s bs ((text ++ [0]) ++ replicate (Z.to_nat b' - length (text ++ [0])) junk) (zlength text) H) as (s' & -> & Hr); [rewrite !length_app; lia|done|].
  exists s'. split; [done|]. rewrite Nat2Z.id, <- (assoc_L (++)), take_app_length in Hr. done.
Qed.

Lemma cat_repr_char_spec s bs p off c : rep s bs -> get1 off p = Ok c -> zlength bs < 2 ^ 59 ->
  exists s', cat_repr_char junk usable s p off = Ok s' /\ rep s' (bs ++ repr_char c).
Proof.
  intros H Hc Hl. unfold cat_repr_char, repr_char. rewrite Hc. assert (Hl' : forall n, 0 <= n < 9 -> zlength bs + n < 2 ^ 60) by (intros n ?; pow_const; lia).
  destruct ((c =? 92) || (c =? 34)); [apply catprintf_spec; [done|done|by apply Hl']|]. destruct (c =? 10); [apply (cat_spec s bs [92; 110] H); by apply Hl'|].
  destruct (c =? 13); [apply (cat_spec s bs [92; 114] H); by apply Hl'|]. destruct (c =? 9); [apply (cat_spec s bs [92; 116] H); by apply Hl'|].
  destruct (c =? 7); [apply (cat_spec s bs [92; 97] H); by apply Hl'|]. destruct (c =? 8); [apply (cat_spec s bs [92; 98] H); by apply Hl'|].
  destruct (isprint c); [apply (cat_spec s bs [c] H); by apply Hl'|]. apply catprintf_spec; [done|done|by apply Hl'].
Qed.

Lemma repr_loop_spec t : forall s bs pre post, rep s bs -> zlength bs + zlength (concat (repr_char <$> t)) < 2 ^ 59 ->
  exists s', repr_loop junk usable (length t) s (pre ++ t ++ post) (zlength pre) = Ok s' /\ rep s' (bs ++ concat (repr_char <$> t)).
Proof.
  induction t as [|c t IH]; intros s bs pre post H Hl; [exists s; split; [done|by rewrite app_nil_r]|].
  rewrite fmap_cons, concat_cons, length_app in Hl. cbn [length repr_loop app]. destruct (cat_repr_char_spec s bs (pre ++ c :: t ++ post) (zlength pre) c H) as (s1 & -> & H1); [by apply get1_app|lia|].
  destruct (IH s1 (bs ++ repr_char c) (pre ++ [c]) post H1) as (s' & Hs' & Hr); [rewrite length_app; lia|].
  exists s'. rewrite <- (assoc_L (++)) in Hs'. replace (zlength (pre ++ [c])) with (zlength pre + 1) in Hs' by (rewrite length_app; simpl; lia). split; [exact Hs'|].
  by rewrite fmap_cons, concat_cons, (assoc_L (++)).
Qed.

Lemma repr_length t : zlength t <= zlength (concat (repr_char <$> t)).
Proof.
  induction t as [|c t IH]; [done|]. rewrite fmap_cons, concat_cons, length_app. assert (1 <= zlength (repr_char c)) by (unfold repr_char; repeat case_match; simpl; lia). cbn [length]. lia.
Qed.

(** sdscatrepr appends the printed form of the first [len] bytes at [p]. *)
Lemma catrepr_spec s bs t post : rep s bs -> zlength bs + zlength (repr_bytes t) < 2 ^ 58 ->
  exists s', sdscatrepr junk usable s (t ++ post) (zlength t) = Ok s' /\ rep s' (bs ++ repr_bytes t).
Proof.
  intros (ty & rest & H & Hf) Hl. unfold repr_bytes in *. rewrite !length_app in Hl. pose proof (repr_length t) as Ht. cbn [length] in Hl. unfold sdscatrepr. rewrite (u_id 64) by (pow_const; lia).
  destruct (makeRoom_spec junk usable nallocx s ty bs 0 rest (zlength t + 2) true H Hf) as (s1 & t1 & rest1 & Hroom & H1 & _ & Hf1 & _); [lia|pow_const; lia|]. unfold sdsMakeRoomFor. rewrite Hroom.
  destruct (cat1_spec s1 bs 34) as (s2 & -> & H2); [by exists t1, rest1|pow_const; lia|]. rewrite Nat2Z.id.
  destruct (repr_loop_spec t s2 (bs ++ [34]) [] post H2) as (s3 & Hs3 & H3); [rewrite length_app; cbn [length]; pow_const; lia|]. cbn [app length] in Hs3. change (Z.of_nat 0) with 0 in Hs3. rewrite Hs3.
  destruct (cat1_spec s3 ((bs ++ [34]) ++ concat (repr_char <$> t)) 34 H3) as (s4 & Hs4 & H4); [rewrite !length_app; cbn [length]; pow_const; lia|].
  exists s4. split; [done|]. by rewrite <- !(assoc_L (++)) in H4.
Qed.

Lemma needsrepr_loop_spec s t : forall pre, rep s (pre ++ t) -> needsrepr_loop (length t) s (zlength pre) = Ok (existsb needs_repr t).
Proof.
  induction t as [|c t IH]; intros pre H; [done|]. cbn [length needsrepr_loop existsb]. destruct (rep_char s _ (zlength pre) H) as (c' & -> & Hc); [rewrite length_app; simpl; lia|].
  rewrite Nat2Z.id, list_lookup_middle in Hc by done. injection Hc as <-. destruct (needs_repr c); [done|]. cbn [orb].
  replace (zlength pre + 1) with (zlength (pre ++ [c])) by (rewrite length_app; simpl; lia). apply IH. by rewrite <- (assoc_L (++)).
Qed.

Lemma needsrepr_spec s t : rep s t -> sdsneedsrepr s = Ok (existsb needs_repr t).
Proof. intros H. unfold sdsneedsrepr. rewrite (rep_len s t H), Nat2Z.id. by apply (needsrepr_loop_spec s t []). Qed.

(** An argument as config.c writes it, always quoted, or as aof.c does, only where sdsneedsrepr
    says so. *)
Definition print_arg (always : bool) (s arg : sds) : res sds :=
  let! quoted := (if always then Ok true else sdsneedsrepr arg) in
  if (quoted : bool) then let! len := sdslen arg in sdscatrepr junk usable s (chars arg) len else sdscatsds junk usable s arg.

Fixpoint print_args (argv : list (bool * sds)) (s : sds) : res sds :=
  match argv with
  | [] => Ok s
  | [(always, arg)] => print_arg always s arg
  | (always, arg) :: argv => let! s := print_arg always s arg in let! s := sdscatlen junk usable s [32] 1 in print_args argv s
  end.

Definition spelling (x : bool * list Z) : bool * list Z := (x.1 || existsb needs_repr x.2, x.2).

Lemma print_arg_spec always s arg bs t : rep s bs -> rep arg t -> zlength bs + zlength (spelled (always || existsb needs_repr t) t) < 2 ^ 58 ->
  exists s', print_arg always s arg = Ok s' /\ rep s' (bs ++ spelled (always || existsb needs_repr t) t).
Proof.
  intros H Ha Hl. unfold print_arg. replace (if always then Ok true else sdsneedsrepr arg) with (Ok (always || existsb needs_repr t)).
  2: { rewrite (needsrepr_spec arg t Ha). by destruct always. }
  destruct (rep_chars arg t Ha) as (rest & Hc). unfold spelled in *. destruct (always || existsb needs_repr t).
  - rewrite (rep_len arg t Ha), Hc. by apply catrepr_spec.
  - unfold sdscatsds. rewrite (rep_len arg t Ha), Hc.
    destruct (catlen_spec junk usable nallocx s bs (t ++ 0 :: rest) (zlength t) H) as (s' & Hs' & Hr); [rewrite length_app; lia|pow_const; lia|]. exists s'. by rewrite Nat2Z.id, take_app_length in Hr.
Qed.

Lemma print_args_spec argv : forall ts s bs, Forall2 (fun a x => a.1 = x.1 /\ rep a.2 x.2) argv ts -> rep s bs -> zlength bs + zlength (line_of (spelling <$> ts)) < 2 ^ 58 ->
  exists s', print_args argv s = Ok s' /\ rep s' (bs ++ line_of (spelling <$> ts)).
Proof.
  induction argv as [|[a arg] argv IH]; intros ts s bs Hts H Hl.
  { apply Forall2_nil_inv_l in Hts as ->. exists s. split; [done|]. by rewrite app_nil_r. }
  apply Forall2_cons_inv_l in Hts as ([a' t] & ts' & [Ha Hr] & Hts & ->). cbn [fst snd] in Ha, Hr. subst a'. destruct argv as [|b argv].
  - apply Forall2_nil_inv_l in Hts as ->. by apply print_arg_spec.
  - pose proof Hts as (x & ts & _ & _ & ->)%Forall2_cons_inv_l. change (line_of (spelling <$> (a, t) :: x :: ts)) with (spelled (a || existsb needs_repr t) t ++ 32 :: line_of (spelling <$> x :: ts)) in *.
    rewrite length_app in Hl. cbn [length] in Hl. change (print_args ((a, arg) :: b :: argv) s) with (let! s := print_arg a s arg in let! s := sdscatlen junk usable s [32] 1 in print_args (b :: argv) s).
    destruct (print_arg_spec a s arg bs t H Hr) as (s1 & -> & H1); [lia|]. destruct (cat1_spec s1 _ 32 H1) as (s2 & -> & H2); [rewrite length_app; pow_const; lia|].
    destruct (IH (x :: ts) s2 _ Hts H2) as (s3 & Hs3 & H3); [rewrite !length_app; cbn [length]; lia|]. exists s3. split; [exact Hs3|]. by rewrite <- !(assoc_L (++)) in H3.
Qed.

(** The empty string and a single quote need the quotes that sdsneedsrepr does not ask for. *)
Definition arg_ok (x : bool * list Z) : Prop :=
  bytes_ok x.2 /\ (x.1 = false -> existsb needs_repr x.2 = false -> x.2 <> [] /\ 39 ∉ x.2).

Lemma spelling_arg_ok x : arg_ok x -> let '(q, t) := spelling x in spelling_ok q t.
Proof.
  destruct x as [a t]. cbn. intros [Hb Hp]. split; [done|]. intros [-> Hn]%orb_false_iff. destruct (Hp eq_refl Hn) as [Hne Hq]. split; [done|].
  apply Forall_forall. intros c Hc. apply needs_repr_plain; [|intros ->; by apply Hq, list_elem_of_In]. destruct (needs_repr c) eqn:E; [|done]. exfalso.
  rewrite (proj2 (existsb_exists needs_repr t)) in Hn; [done|]. by exists c.
Qed.

(** ** What is not read back *)

Lemma token_prefix x : forall r acc, Forall (fun c => plain_char c = true) x -> token PLAIN (x ++ r) acc = token PLAIN r (acc ++ x).
Proof.
  induction x as [|c x IH]; intros r acc Hx; [by rewrite app_nil_r|]. apply Forall_cons_1 in Hx as [Hc Hx]. apply plain_char_ne in Hc as (_ & Hb & H34 & H39 & _).
  rewrite token_eq. cbn [app step]. rewrite Hb, H34, H39, IH by done. by rewrite <- (assoc_L (++)).
Qed.

Lemma plain_or_quote t c : existsb needs_repr t = false -> c ∈ t -> c <> 39 -> plain_char c = true.
Proof.
  intros Hn Hc H39. apply needs_repr_plain; [|done]. destruct (needs_repr c) eqn:E; [|done]. rewrite (proj2 (existsb_exists needs_repr t)) in Hn; [done|].
  exists c. split; [by apply list_elem_of_In|done].
Qed.

(** A single quote is lost, or there is no closing one. *)
Lemma quote_lost t : existsb needs_repr t = false -> 39 ∈ t -> line_args t <> Some [t].
Proof.
  intros Hn Hq. destruct (list_elem_of_split_l t 39 Hq) as (x & y & Ht & Hx).
  assert (Hplain : Forall (fun c => plain_char c = true) x).
  { apply Forall_forall. intros c Hc%list_elem_of_In. apply (plain_or_quote t); [done|rewrite Ht; apply elem_of_app; by left|intros ->; done]. }
  assert (Hhead : exists c r, t = c :: r /\ isspace c = false).
  { destruct x as [|c x]; [by exists 39, y|]. exists c, (x ++ 39 :: y). split; [done|]. apply Forall_cons_1 in Hplain as [Hc _]. by apply plain_char_ne. }
  destruct Hhead as (c & r & E & Hc). unfold line_args. cbn [args]. subst t. assert (Ed : drop_while isspace (c :: r) = c :: r) by (cbn [drop_while]; by rewrite Hc).
  rewrite <- E in *. rewrite Ed, E. cbv iota. rewrite <- E, token_prefix, token_eq by done. cbn [app step].
  change (blank 39) with false. change (39 =? 34) with false. change (39 =? 39) with true. cbv iota. destruct (token SINGLE y x) as [[t' r']|] eqn:Etok; [|done].
  apply (token_shorter (length y)) in Etok as (Hl & _); [|done]. destruct (args _ r') as [ts|]; [|done]. intros [= Et _]. apply (f_equal length) in Et. rewrite length_app in Et. cbn [length] in Et. lia.
Qed.

Lemma unreadable x : bytes_ok x.2 -> ~ arg_ok x -> line_args (line_of [spelling x]) <> Some [x.2] /\ 0 ∉ line_of [spelling x].
Proof.
  destruct x as [a t]. unfold arg_ok. cbn [fst snd]. intros Hb Hno. cbn [spelling line_of fst snd]. destruct a; [exfalso; apply Hno; by split|]. cbn [orb]. destruct (existsb needs_repr t) eqn:En; [exfalso; apply Hno; by split|].
  cbn [spelled]. split.
  - destruct (decide (39 ∈ t)) as [Hq|Hq]; [by apply quote_lost|]. destruct t as [|c t]; [done|]. exfalso. apply Hno. by split.
  - intros Hz. pose proof (plain_or_quote t 0 En Hz ltac:(done)) as H. done.
Qed.

Lemma rep_inj s bs bs' : rep s bs -> rep s bs' -> bs = bs'.
Proof.
  intros H H'. destruct (rep_chars s bs H) as (r & E), (rep_chars s bs' H') as (r' & E'). pose proof (rep_len s bs H) as L. pose proof (rep_len s bs' H') as L'.
  rewrite E in E'. rewrite L in L'. injection L' as L'. apply (app_inj_1 bs bs' (0 :: r) (0 :: r')); [lia|done].
Qed.

Lemma reps_inj v : forall ts ts', Forall2 rep v ts -> Forall2 rep v ts' -> ts = ts'.
Proof.
  induction v as [|s v IH]; intros ts ts' H H'; [apply Forall2_nil_inv_l in H as ->; by apply Forall2_nil_inv_l in H' as ->|].
  apply Forall2_cons_inv_l in H as (t & ts1 & Ht & H & ->). apply Forall2_cons_inv_l in H' as (t' & ts1' & Ht' & H' & ->). f_equal; [by eapply rep_inj|by apply IH].
Qed.

(** Printing the arguments to a new string and splitting its bytes. *)
Definition print_split (argv : list (bool * sds)) : res (option (list sds)) :=
  let! s0 := sdsempty junk usable malloc_ok in
  let! line := print_args argv s0 in
  let! len := sdslen line in
  let! text := load (pos line) (len + 1) (block line) in
  sdssplitargs junk usable malloc_ok text.

Lemma print_split_spec argv ts : Forall2 (fun a x => a.1 = x.1 /\ rep a.2 x.2) argv ts -> 0 ∉ line_of (spelling <$> ts) -> zlength (line_of (spelling <$> ts)) < 2 ^ 58 ->
  match line_args (line_of (spelling <$> ts)) with
  | Some ts' => exists vector, print_split argv = Ok (Some vector) /\ Forall2 rep vector ts'
  | None => print_split argv = Ok None
  end.
Proof.
  intros Hts H0 Hl. unfold print_split. destruct empty_spec as (s0 & -> & Hs0). destruct (print_args_spec argv ts s0 [] Hts Hs0) as (line & -> & Hr); [exact Hl|]. cbn [app] in Hr.
  rewrite (rep_len line _ Hr), (rep_load line _ Hr). exact (splitargs_spec (line_of (spelling <$> ts)) H0 Hl).
Qed.

(** C19: what is printed is read back, with two exceptions.  Arguments are appended to an empty
    string with spaces in between, each one in quotes by sdscatrepr, as config.c rewrites a value,
    or only where sdsneedsrepr asks for it, as aof.c writes a file name.  Arguments in quotes may be
    any bytes, and none at all.  An argument that sdsneedsrepr leaves without quotes must not be
    empty and must not contain a single quote ([arg_ok]).  Then sdssplitargs splits the line into
    exactly these arguments, and neither printing nor splitting leaves a buffer.  The exceptions
    are real: one argument alone, of any bytes, is read back if and only if it satisfies
    [arg_ok]; otherwise splitting fails or yields something else. *)
Theorem sdssplitargs_roundtrip argv ts :
  Forall2 (fun a x => a.1 = x.1 /\ rep a.2 x.2) argv ts -> zlength (line_of (spelling <$> ts)) < 2 ^ 58 ->
  (Forall arg_ok ts -> exists vector, print_split argv = Ok (Some vector) /\ Forall2 rep vector (snd <$> ts)) /\
  (forall x, ts = [x] -> bytes_ok x.2 -> exists r, print_split argv = Ok r /\ ((exists vector, r = Some vector /\ Forall2 rep vector [x.2]) <-> arg_ok x)).
Proof.
  intros Hts Hl. assert (Hgood : Forall arg_ok ts -> exists vector, print_split argv = Ok (Some vector) /\ Forall2 rep vector (snd <$> ts)).
  { intros Hok. assert (Hsp : spellings_ok (spelling <$> ts)).
    { unfold spellings_ok. apply Forall_fmap. revert Hok. apply Forall_impl. intros x Hx. apply spelling_arg_ok in Hx. by cbn. }
    pose proof (print_split_spec argv ts Hts (line_nonzero _ Hsp) Hl) as Hsplit. rewrite line_args_line in Hsplit by done. by rewrite <- list_fmap_compose in Hsplit. }
  split; [exact Hgood|]. intros x -> Hb. destruct (decide (x.1 = false /\ existsb needs_repr x.2 = false /\ (x.2 = [] \/ 39 ∈ x.2))) as [Hbad|Hok].
  - assert (Hno : ~ arg_ok x) by (intros [_ H]; destruct Hbad as (H1 & H2 & H3); destruct (H H1 H2) as [? ?]; by destruct H3).
    destruct (unreadable x Hb Hno) as [Hne H0]. pose proof (print_split_spec argv [x] Hts H0 Hl) as Hsplit. change (spelling <$> [x]) with [spelling x] in Hsplit.
    destruct (line_args (line_of [spelling x])) as [ts'|].
    + destruct Hsplit as (vector & -> & Hv). eexists. split; [done|]. split; [|done]. intros (v & [= <-] & Hv'). exfalso. apply Hne. f_equal. by apply (reps_inj vector).
    + eexists. split; [exact Hsplit|]. split; [|done]. by intros (v & Hv & _).
  - assert (Ha : arg_ok x) by (split; [done|]; intros H1 H2; split; [intros E; apply Hok; auto|intros Hin; apply Hok; auto]).
    destruct Hgood as (vector & -> & Hv); [by constructor|]. eexists. split; [done|]. split; [done|]. intros _. by exists vector.
Qed.

(** * Cutting at a separator *)

Section Split.
Context (sep : list Z) (Hsep : sep <> []).

Definition free_of_sep (t : list Z) : Prop := forall a b, t <> a ++ sep ++ b.

(** No occurrence of the separator starts in [cur]. *)
Definition no_start (cur rest : list Z) : Prop := forall a b, cur = a ++ b -> b <> [] -> ~ sep `prefix_of` b ++ rest.

Lemma sep_long : (0 < length sep)%nat.
Proof using Hsep. destruct sep; [done|simpl; lia]. Qed.

Lemma no_start_token cur rest : no_start cur (sep ++ rest) -> free_of_sep cur.
Proof using Hsep.
  intros H a b E. apply (H a (sep ++ b) E).
  - intros E2. apply app_eq_nil in E2 as [? _]. done.
  - exists (b ++ sep ++ rest). by rewrite <- (assoc_L (++)).
Qed.

Lemma no_start_step cur c rest : no_start cur (c :: rest) -> ~ sep `prefix_of` c :: rest -> no_start (cur ++ [c]) rest.
Proof using Type.
  intros H Hc a b E Hb. destruct b as [|d b _] using rev_ind; [done|]. rewrite (assoc_L (++)) in E. apply app_inj_tail in E as [E ->]. rewrite <- (assoc_L (++)). cbn [app].
  destruct b as [|e b]; [done|]. by apply (H a (e :: b)).
Qed.

Lemma no_start_last cur rest : no_start cur rest -> (length rest < length sep)%nat -> free_of_sep (cur ++ rest).
Proof using Type.
  intros H Hl a b E. assert (Ha : (length a < length cur)%nat).
  { apply (f_equal length) in E. rewrite !length_app in E. lia. }
  assert (Ecur : cur = a ++ drop (length a) cur).
  { rewrite <- (take_drop (length a) cur) at 1. f_equal. apply (f_equal (take (length a))) in E. by rewrite take_app_le, take_app_length in E by lia. }
  apply (H a (drop (length a) cur) Ecur); [intros E2; apply (f_equal length) in E2; rewrite length_drop in E2; simpl in E2; lia|].
  exists b. apply (app_inv_head a). rewrite (assoc_L (++)), <- Ecur. exact E.
Qed.

Definition cut (ts : list (list Z)) : list Z := concat ((fun t => t ++ sep) <$> ts).

Lemma cut_snoc ts t : cut (ts ++ [t]) = cut ts ++ t ++ sep.
Proof using Type. unfold cut. rewrite fmap_app, concat_app. cbn [fmap list_fmap concat]. by rewrite app_nil_r. Qed.

Lemma cut_long ts : (length ts <= length (cut ts))%nat.
Proof using Hsep. pose proof sep_long. induction ts as [|t ts IH]; [simpl; lia|]. unfold cut in *. rewrite fmap_cons, concat_cons, !length_app. cbn [length]. lia. Qed.

(** The comparison at the position behind [pre]. *)
Lemma found_spec pre rest post sp : (length sep <= length rest)%nat ->
  (let! c := get1 (zlength pre) (pre ++ rest ++ post) in let! c0 := get1 0 (sep ++ sp) in
   if (zlength sep =? 1) && (c =? c0) then Ok true
   else let! a := load (zlength pre) (zlength sep) (pre ++ rest ++ post) in let! b := load 0 (zlength sep) (sep ++ sp) in Ok (bool_decide (a = b)))
  = Ok (bool_decide (sep `prefix_of` rest)).
Proof using Hsep.
  intros Hl. assert (exists c0 sep', sep = c0 :: sep') as (c0 & sep' & Es) by (destruct sep; [done|by eexists _, _]).
  assert (get1 0 (sep ++ sp) = Ok c0) as -> by (by rewrite Es). destruct rest as [|c rest']; [rewrite Es in Hl; simpl in Hl; lia|]. cbn [app]. rewrite get1_app by done.
  assert (exists m k, m ++ k = c :: rest' /\ length m = length sep) as (m & k & E & Hm).
  { exists (take (length sep) (c :: rest')), (drop (length sep) (c :: rest')). rewrite take_drop, length_take. split; [done|lia]. }
  assert (Hload : load (zlength pre) (zlength sep) (pre ++ c :: rest' ++ post) = Ok m).
  { change (c :: rest' ++ post) with ((c :: rest') ++ post). rewrite <- E, <- (assoc_L (++)). apply load_app; [done|lia]. }
  rewrite Hload. rewrite (load_app [] sep sp) by done. cbn match.
  assert (Hpre : bool_decide (m = sep) = bool_decide (sep `prefix_of` c :: rest')).
  { apply bool_decide_ext. split; [intros <-; by exists k|]. intros [k' Ek]. rewrite Ek in E. by apply app_inj_1 in E as [-> _]. }
  rewrite Hpre. destruct ((zlength sep =? 1) && (c =? c0)) eqn:Ec; [|done]. apply andb_true_iff in Ec as [E1%Z.eqb_eq ->%Z.eqb_eq]. f_equal. symmetry. apply bool_decide_eq_true.
  rewrite Es in E1 |- *. destruct sep' as [|? ?]; [by exists rest'|]. cbn [length] in E1. lia.
Qed.

Notation newlen := (sdsnewlen junk usable malloc_ok).

Lemma token_spec pre cur rest (n : Z) : n = zlength cur -> n < 2 ^ 60 ->
  exists bs token, load (zlength pre) n (pre ++ cur ++ rest) = Ok bs /\ newlen (INIT_BYTES bs) n = Ok token /\ rep token cur.
Proof using Halloc.
  intros -> Hl. exists cur. destruct (newlen_spec junk usable nallocx malloc_ok (INIT_BYTES cur) (zlength cur)) as (token & Ht & Hr); [lia|simpl; lia|].
  exists token. split; [by apply load_app|]. split; [done|]. cbn [init_bytes] in Hr. by rewrite Nat2Z.id, firstn_all in Hr.
Qed.

(** The array keeps room for another token and the last one. *)
Lemma slots_spec elements slots : 0 <= elements < 2 ^ 29 -> elements + 1 <= slots -> slots <= 2 * (2 ^ 29 + 1) ->
  elements + 2 <= (if slots <? elements + 2 then s32 (slots * 2) else slots) <= 2 * (2 ^ 29 + 1).
Proof using Type.
  intros He Hs Hmax. destruct (Z.ltb_spec slots (elements + 2)); [|lia]. rewrite (s_id 32); [pow_const; lia|lia|]. unfold in_s. change (2 ^ (32 - 1)) with (4 * 2 ^ 29). pow_const. lia.
Qed.

Lemma split_loop_spec post sp fuel : forall tokens ts cur rest slots, Forall2 rep tokens ts -> Forall free_of_sep ts -> no_start cur rest ->
  zlength (cut ts ++ cur ++ rest) < 2 ^ 29 -> zlength ts + 1 <= slots <= 2 * (2 ^ 29 + 1) -> (length rest <= fuel)%nat ->
  let len := zlength (cut ts ++ cur ++ rest) in
  exists tokens' ts' last slots', split_loop junk usable malloc_ok fuel (cut ts ++ cur ++ rest ++ post) len (sep ++ sp) (zlength sep) tokens (zlength ts) slots (zlength (cut ts)) (zlength (cut ts ++ cur))
      = Ok (tokens', zlength ts', slots', zlength (cut ts')) /\
    Forall2 rep tokens' ts' /\ Forall free_of_sep ts' /\ free_of_sep last /\ cut ts ++ cur ++ rest = cut ts' ++ last /\ zlength ts' < slots'.
Proof using Halloc Hsep.
  pose proof sep_long as Hsl. induction fuel as [|fuel IH]; intros tokens ts cur rest slots Hrep Hfree Hno Hmax Hslots Hfuel len; unfold len; cbn [split_loop]; rewrite !length_app;
    destruct (Z.ltb_spec (Z.of_nat (length (cut ts) + length cur)) (Z.of_nat (length (cut ts) + (length cur + length rest)) - (zlength sep - 1))) as [Hlt|Hge].
  1: lia.
  1, 3: exists tokens, ts, (cur ++ rest), slots; split; [done|]; split; [done|]; split; [done|]; split; [apply no_start_last; [done|lia]|split; [done|lia]].
  pose proof (cut_long ts) as Hcl. rewrite !length_app in Hmax. destruct (slots_spec (zlength ts) slots) as [Hs2 Hs3]; [lia..|]. set (slots2 := if slots <? zlength ts + 2 then s32 (slots * 2) else slots) in *.
  pose proof (found_spec (cut ts ++ cur) rest post sp ltac:(lia)) as Hfound. rewrite <- (assoc_L (++)), length_app in Hfound. rewrite Hfound. cbn match.
  destruct (bool_decide_reflect (sep `prefix_of` rest)) as [[rest' ->]|Hnp].
  - rewrite (proj2 (Z.ltb_lt (zlength ts) slots2)) by lia. destruct (token_spec (cut ts) cur ((sep ++ rest') ++ post) (Z.of_nat (length (cut ts) + length cur) - zlength (cut ts))) as (bs & token & -> & -> & Htok); [lia|pow_const; lia|].
    rewrite length_app in Hmax, Hfuel. specialize (IH (tokens ++ [token]) (ts ++ [cur]) [] rest' slots2). rewrite cut_snoc in IH. cbn [app] in IH. rewrite app_nil_r in IH.
    replace ((cut ts ++ cur ++ sep) ++ rest' ++ post) with (cut ts ++ cur ++ (sep ++ rest') ++ post) in IH by (by rewrite <- !(assoc_L (++))).
    replace ((cut ts ++ cur ++ sep) ++ rest') with (cut ts ++ cur ++ sep ++ rest') in IH by (by rewrite <- !(assoc_L (++))). rewrite !length_app in IH. cbn [length] in IH.
    rewrite (s_id 32) by (lia || (unfold in_s; pow_const; lia)). replace (zlength ts + 1) with (Z.of_nat (length ts + 1)) by lia.
    replace (Z.of_nat (length (cut ts) + length cur) + zlength sep - 1 + 1) with (Z.of_nat (length (cut ts) + (length cur + length sep))) by lia.
    replace (Z.of_nat (length (cut ts) + length cur) + zlength sep) with (Z.of_nat (length (cut ts) + (length cur + length sep))) by lia. rewrite length_app.
    apply IH; [by apply Forall2_app; [|constructor]|by apply Forall_app; split; [|constructor; [by apply (no_start_token cur rest')|]]| |lia|lia|lia].
    intros a b E Hb. apply eq_sym, app_eq_nil in E as [_ ->]. done.
  - destruct rest as [|c rest]; [simpl in Hlt; lia|]. specialize (IH tokens ts (cur ++ [c]) rest slots2). cbn [length] in Hmax, Hfuel. rewrite <- !(assoc_L (++)) in IH. cbn [app] in IH. rewrite !length_app in IH. cbn [length] in IH.
    replace (Z.of_nat (length (cut ts) + length cur) + 1) with (Z.of_nat (length (cut ts) + (length cur + 1))) by lia.
    apply IH; [done|done|by apply no_start_step|lia|lia|lia].
Qed.

(** sdssplitlen on [bs]: the tokens, in the order of the string. *)
Lemma splitlen_spec bs post sp : bs <> [] -> zlength bs < 2 ^ 29 ->
  exists tokens ts last, sdssplitlen junk usable malloc_ok (bs ++ post) (zlength bs) (sep ++ sp) (zlength sep) = Ok (Some tokens, zlength tokens) /\
    Forall2 rep tokens (ts ++ [last]) /\ Forall free_of_sep (ts ++ [last]) /\ bs = cut ts ++ last.
Proof using Halloc Hsep.
  intros Hne Hl. pose proof sep_long as Hsl. unfold sdssplitlen. assert (0 < zlength bs) by (destruct bs; [done|simpl; lia]).
  rewrite (proj2 (Z.ltb_ge (zlength sep) 1)), (proj2 (Z.leb_gt (zlength bs) 0)) by lia. cbn [orb]. rewrite Nat2Z.id.
  destruct (split_loop_spec post sp (length bs) [] [] [] bs 5) as (tokens & ts & last & slots & E & Hrep & Hfree & Hlast & Hbs & Hslots); [constructor|constructor| |done|pow_const; simpl; lia|lia|].
  { intros a b E Hb. by apply eq_sym, app_eq_nil in E as [_ ->]. }
  change (cut []) with (@nil Z) in *. cbn [app] in *. rewrite Hbs in E at 2. rewrite <- Hbs in E. cbn [length] in E. change (Z.of_nat 0) with 0 in E. rewrite E.
  rewrite (proj2 (Z.ltb_lt (zlength ts) slots)) by lia. cbn match. assert (Hl' := Hl). rewrite Hbs, length_app in Hl'.
  destruct (token_spec (cut ts) last post (zlength bs - zlength (cut ts))) as (x & token & Hx & Hy & Htok); [rewrite Hbs, length_app; lia|pow_const; lia|].
  rewrite (assoc_L (++)), <- Hbs in Hx. rewrite Hx, Hy. exists (tokens ++ [token]), ts, last. pose proof (cut_long ts) as Hcl. apply Forall2_length in Hrep as Hlen.
  rewrite (s_id 32) by (lia || (unfold in_s; pow_const; lia)). split; [rewrite length_app; cbn [length]; do 2 f_equal; lia|]. split; [by apply Forall2_app; [|constructor]|].
  split; [apply Forall_app; by split; [|constructor]|done].
Qed.

Lemma joinsds_spec argv : forall ts last join bs sp, Forall2 rep argv (ts ++ [last]) -> rep join bs -> zlength bs + zlength (cut ts ++ last) < 2 ^ 60 ->
  exists s', joinsds_loop junk usable argv (sep ++ sp) (zlength sep) join = Ok s' /\ rep s' (bs ++ cut ts ++ last).
Proof using Halloc.
  induction argv as [|arg argv IH]; intros ts last join bs sp Hrep H Hl; [by apply Forall2_nil_inv_l, app_eq_nil in Hrep as [_ ?]|]. cbn [joinsds_loop]. unfold sdscatsds.
  destruct ts as [|t ts]; cbn [app] in Hrep; apply Forall2_cons_inv_l in Hrep as (? & ? & Ha & Hrep & [= <- <-]); destruct (rep_chars _ _ Ha) as (rest & Hc); rewrite (rep_len _ _ Ha), Hc.
  - apply Forall2_nil_inv_r in Hrep as ->. change (cut []) with (@nil Z) in *. cbn [app] in *.
    destruct (catlen_spec junk usable nallocx join bs (last ++ 0 :: rest) (zlength last) H) as (s' & -> & Hr); [rewrite length_app; lia|done|]. exists s'. split; [done|]. by rewrite Nat2Z.id, take_app_length in Hr.
  - assert (Ecut : cut (t :: ts) = (t ++ sep) ++ cut ts) by done. rewrite Ecut, !length_app in Hl.
    destruct (catlen_spec junk usable nallocx join bs (t ++ 0 :: rest) (zlength t) H) as (s1 & -> & H1); [rewrite length_app; lia|lia|]. rewrite Nat2Z.id, take_app_length in H1.
    destruct argv as [|arg2 argv]; [by apply Forall2_nil_inv_l, app_eq_nil in Hrep as [_ ?]|].
    destruct (catlen_spec junk usable nallocx s1 (bs ++ t) (sep ++ sp) (zlength sep) H1) as (s2 & -> & H2); [rewrite length_app; lia|rewrite length_app; lia|]. rewrite Nat2Z.id, take_app_length in H2.
    destruct (IH ts last s2 ((bs ++ t) ++ sep) sp Hrep H2) as (s' & Hs' & Hr); [rewrite !length_app; lia|]. exists s'. split; [exact Hs'|]. rewrite Ecut. by rewrite <- !(assoc_L (++)) in *.
Qed.
End Split.
(** C20: cutting and joining.  sdssplitlen cuts a string that is not empty at every occurrence
    of a separator that is not empty: no token contains the separator, the count is the number
    of tokens, and sdsjoinsds puts the tokens together to the string again.  No token is lost
    when the array grows, nothing is read beyond the two strings and the loop ends, for
    strings below the 2^29 bytes that keep the counters in an int. *)
Theorem sdssplitlen_roundtrip bs post sep sp : bs <> [] -> sep <> [] -> zlength bs < 2 ^ 29 ->
  exists tokens ts s', sdssplitlen junk usable malloc_ok (bs ++ post) (zlength bs) (sep ++ sp) (zlength sep) = Ok (Some tokens, zlength ts) /\
    Forall2 rep tokens ts /\ Forall (free_of_sep sep) ts /\
    sdsjoinsds junk usable malloc_ok tokens (sep ++ sp) (zlength sep) = Ok s' /\ rep s' bs.
Proof.
  intros Hne Hsep Hl. destruct (splitlen_spec sep Hsep bs post sp Hne Hl) as (tokens & ts & last & E & Hrep & Hfree & Hbs).
  destruct empty_spec as (s0 & Hs0 & H0). destruct (joinsds_spec sep tokens ts last s0 [] sp Hrep H0) as (s' & Hs' & Hr); [rewrite <- Hbs; cbn [length]; pow_const; lia|].
  exists tokens, (ts ++ [last]), s'. apply Forall2_length in Hrep as Hlen. rewrite <- Hlen. split; [done|]. split; [done|]. split; [done|]. unfold sdsjoinsds. rewrite Hs0. split; [done|]. by rewrite Hbs.
Qed.
End Spec.

(** An empty argument in quotes, one with a quote, a control character and a byte above 127, and
    a plain one. *)
Definition demo_args : list (bool * list Z) := [(true, []); (false, [97; 34; 10; 1; 200; 32]); (false, [102; 111; 111])].

#[local] Instance demo_alloc : AllocOk (fun n => n + 5) (Some (fun n => n)).
Proof. split; [intros n Hn; pow_const; lia|intros f n [= <-]; lia]. Qed.

Definition demo_sds (bs : list Z) : sds := match sdsnewlen 165 (fun n => n + 5) (fun _ => true) (INIT_BYTES bs) (zlength bs) with Ok s => s | Fault _ => {| block := []; pos := 0 |} end.

Lemma demo_sds_rep bs : zlength bs < 2 ^ 60 -> rep (demo_sds bs) bs.
Proof.
  intros H. unfold demo_sds. destruct (newlen_spec 165 (fun n => n + 5) (Some (fun n => n)) (fun _ => true) (INIT_BYTES bs) (zlength bs)) as (s & -> & Hs); [lia|simpl; lia|].
  cbn [init_bytes] in Hs. by rewrite Nat2Z.id, firstn_all in Hs.
Qed.

(** The three arguments of [demo_args] are read back; the unquoted name it's is not. *)
Lemma sdssplitargs_roundtrip_witness :
  (exists vector, print_split 165 (fun n => n + 5) (fun _ => true) ((fun x => (x.1, demo_sds x.2)) <$> demo_args) = Ok (Some vector) /\
    Forall2 rep vector [[]; [97; 34; 10; 1; 200; 32]; [102; 111; 111]]) /\
  (exists r, print_split 165 (fun n => n + 5) (fun _ => true) [(false, demo_sds [105; 116; 39; 115])] = Ok r /\
    ((exists vector, r = Some vector /\ Forall2 rep vector [[105; 116; 39; 115]]) <-> arg_ok (false, [105; 116; 39; 115]))).
Proof.
  split.
  - refine (proj1 (sdssplitargs_roundtrip 165 (fun n => n + 5) (Some (fun n => n)) (fun _ => true) ((fun x => (x.1, demo_sds x.2)) <$> demo_args) demo_args _ _) _).
    + repeat constructor; apply demo_sds_rep; simpl; pow_const; lia.
    + vm_compute. done.
    + constructor; [|constructor; [|constructor; [|constructor]]]; (split; [cbn; repeat (constructor; [lia|]); constructor|]); cbn; try done.
      intros _ _. split; [done|]. intros H. repeat (apply elem_of_cons in H as [H|H]; [discriminate H|]). by apply elem_of_nil in H.
  - refine (proj2 (sdssplitargs_roundtrip 165 (fun n => n + 5) (Some (fun n => n)) (fun _ => true) [(false, demo_sds [105; 116; 39; 115])] [(false, [105; 116; 39; 115])] _ _) _ eq_refl _).
    + repeat constructor; apply demo_sds_rep; simpl; pow_const; lia.
    + vm_compute. done.
    + cbn. repeat (constructor; [lia|]). constructor.
Defined.

Lemma sdssplitlen_roundtrip_witness :
  exists tokens ts s', sdssplitlen 165 (fun n => n + 5) (fun _ => true) [97; 44; 44; 44; 98; 44; 0] 6 [44; 44; 0] 2 = Ok (Some tokens, zlength ts) /\
    Forall2 rep tokens ts /\ Forall (free_of_sep [44; 44]) ts /\
    sdsjoinsds 165 (fun n => n + 5) (fun _ => true) tokens [44; 44; 0] 2 = Ok s' /\ rep s' [97; 44; 44; 44; 98; 44].
Proof.
  apply (sdssplitlen_roundtrip 165 (fun n => n + 5) (Some (fun n => n)) (fun _ => true) [97; 44; 44; 44; 98; 44] [0] [44; 44] [0]); [done|done|]. vm_compute. done.
Defined.
