(* ===== verification/SdsFmt.v ===== *)
(** Dynamic strings from formats, the model: sdscatfmt and sdstemplate of
    src/redis-stable/src/sds.c.

    The variable arguments of sdscatfmt are a list of strings, sds and numbers; an argument of
    another kind than the format asks for is undefined behaviour and a fault here, and so is a
    missing one.  The callback of sdstemplate is a parameter. *)

From stdpp Require Import list.
From S2P Require Import Prelude Machine UtilNum Glob Sds.

Section Fmt.
Context (junk : Z) (usable : Z -> Z) (malloc_ok : Z -> bool).

Notation makeRoom := (sdsMakeRoomFor junk usable).
Notation catlen := (sdscatlen junk usable).
Notation newlen := (sdsnewlen junk usable malloc_ok).

(** * sdscatfmt *)

(** A char pointer to a C string, an sds, or an integer of any of the four types. *)
Inductive fmt_arg := ARG_STR (str : list Z) | ARG_SDS (str : sds) | ARG_NUM (num : Z).

(** Room for [l] bytes, memcpy(s+i, str, l), the new length and position. *)
Definition fmt_append (s : sds) (i : Z) (str : list Z) (l : Z) : res (sds * Z) :=
  let! avail := sdsavail s in
  let! s := (if avail <? l then makeRoom s l else Ok s) in
  let! bs := load 0 l str in
  let! s := copy_in i bs s in
  let! s := sdsinclen s l in
  Ok (s, i + l).

(** s[i++] = c *)
Definition fmt_put (s : sds) (i c : Z) : res (sds * Z) :=
  let! s := set_char i c s in
  let! s := sdsinclen s 1 in
  Ok (s, i + 1).

(** The cases of a specifier: the string, the position and the arguments that are left. *)
Definition fmt_specifier (next : Z) (args : list fmt_arg) (s : sds) (i : Z) : res (sds * Z * list fmt_arg) :=
  let buf := replicate (Z.to_nat LONG_STR_SIZE) junk in
  if (next =? 115) || (next =? 83) then
    match args with
    | ARG_STR str :: args =>
        if next =? 115 then let! l := strlen str in let! '(s, i) := fmt_append s i str l in Ok (s, i, args) else Fault AssertFailed
    | ARG_SDS str :: args =>
        if next =? 115 then let! l := strlen (chars str) in let! '(s, i) := fmt_append s i (chars str) l in Ok (s, i, args)
        else let! l := sdslen str in let! '(s, i) := fmt_append s i (chars str) l in Ok (s, i, args)
    | _ => Fault AssertFailed
    end
  else if (next =? 105) || (next =? 73) then
    match args with
    | ARG_NUM num :: args =>
        let num := if next =? 105 then s32 num else s64 num in
        let! '(l, buf) := ll2string buf LONG_STR_SIZE num in
        let! '(s, i) := fmt_append s i buf l in
        Ok (s, i, args)
    | _ => Fault AssertFailed
    end
  else if (next =? 117) || (next =? 85) then
    match args with
    | ARG_NUM num :: args =>
        let unum := if next =? 117 then u32 num else u64 num in
        let! '(l, buf) := ull2string buf LONG_STR_SIZE unum in
        let! '(s, i) := fmt_append s i buf l in
        Ok (s, i, args)
    | _ => Fault AssertFailed
    end
  else let! '(s, i) := fmt_put s i next in Ok (s, i, args).

(** The loop over the format: the string and the position of its end *)
Fixpoint fmt_loop (fuel : nat) (fmt : list Z) (f : Z) (args : list fmt_arg) (s : sds) (i : Z) : res (sds * Z) :=
  let! c := get1 f fmt in
  if c =? 0 then Ok (s, i)
  else
    match fuel with
    | O => Fault OutOfFuel
    | S fuel =>
        let! avail := sdsavail s in
        let! s := (if avail =? 0 then makeRoom s 1 else Ok s) in
        if c =? 37 then
          let! next := get1 (f + 1) fmt in
          if next =? 0 then fmt_loop fuel fmt (f + 1) args s i
          else
            let! '(s, i, args) := fmt_specifier next args s i in
            fmt_loop fuel fmt (f + 1 + 1) args s i
        else
          let! '(s, i) := fmt_put s i c in
          fmt_loop fuel fmt (f + 1) args s i
    end.

Definition sdscatfmt (s : sds) (fmt : list Z) (args : list fmt_arg) : res sds :=
  let! initlen := sdslen s in
  let! n := strlen fmt in
  let! s := makeRoom s (u64 (n * 2)) in
  let! '(s, i) := fmt_loop (length fmt) fmt 0 args s initlen in
  set_char i 0 s.

(** * sdstemplate *)

(** strchr: the offset of the first [c] from [p] on, before the terminator *)
Fixpoint strchr (fuel : nat) (str : list Z) (p c : Z) : res (option Z) :=
  let! x := get1 p str in
  if x =? c then Ok (Some p)
  else if x =? 0 then Ok None
  else match fuel with O => Fault OutOfFuel | S fuel => strchr fuel str (p + 1) c end.

Section Template.
Context (cb_func : sds -> option sds).

(** The loop over the template; [None] is the NULL of the error label. *)
Fixpoint template_loop (fuel : nat) (template : list Z) (p : Z) (r : sds) : res (option sds) :=
  let! c := get1 p template in
  if c =? 0 then Ok (Some r)
  else
    match fuel with
    | O => Fault OutOfFuel
    | S fuel =>
        let! sv := strchr (length template) template p 123 in
        match sv with
        | None => let! r := sdscat junk usable r (drop (Z.to_nat p) template) in Ok (Some r)
        | Some sv =>
            let! r := (if sv >? p then catlen r (drop (Z.to_nat p) template) (sv - p) else Ok r) in
            let sv := sv + 1 in
            let! c := get1 sv template in
            if c =? 0 then Ok None
            else if c =? 123 then
              let! r := sdscat junk usable r [123; 0] in
              template_loop fuel template (sv + 1) r
            else
              let! ev := strchr (length template) template sv 125 in
              match ev with
              | None => Ok None
              | Some ev =>
                  let! varname := newlen (INIT_BYTES (drop (Z.to_nat sv) template)) (ev - sv) in
                  match cb_func varname with
                  | None => Ok None
                  | Some value =>
                      let! r := sdscat junk usable r (chars value) in
                      template_loop fuel template (ev + 1) r
                  end
              end
        end
    end.

Definition sdstemplate (template : list Z) : res (option sds) :=
  let! r := sdsempty junk usable malloc_ok in template_loop (length template) template 0 r.
End Template.
End Fmt.

(** "%s=%i%%" with "ab" and -7 *)
Example catfmt_demo :
  (let! s := sdsempty 165 (fun n => n + 7) (fun _ => true) in
   let! s := sdscatfmt 165 (fun n => n + 7) s [37; 115; 61; 37; 105; 37; 37; 0] [ARG_STR [97; 98; 0]; ARG_NUM (-7)] in
   let! len := sdslen s in load (pos s) (len + 1) (block s)) = Ok [97; 98; 61; 45; 55; 37; 0].
Proof. vm_compute. reflexivity. Qed.
