(* ===== verification/SdsFmtSpec.v ===== *)
(** Dynamic strings from formats: sdscatfmt appends what the format and the arguments denote,
    and sdstemplate replaces the variables of a template.

    [formats] says what a format denotes, specifier by specifier, and [template_bytes] what a
    template denotes. *)

From stdpp Require Import list.
From S2P Require Import Prelude Machine UtilNum Glob Sds SdsSpec SdsText SdsTextSpec SdsFmt.

(** * What a format denotes *)

(** Every specifier takes an argument, %c for any other c stands for c, and a percent sign at
    the end for nothing. *)
Inductive formats : list Z -> list fmt_arg -> list Z -> Prop :=
| formats_end args : formats [] args []
| formats_last args : formats [37] args []
| formats_char c f args t : c <> 37 -> formats f args t -> formats (c :: f) args (c :: t)
| formats_str str rest f args t : 0 ∉ str -> formats f args t -> formats (37 :: 115 :: f) (ARG_STR (str ++ 0 :: rest) :: args) (str ++ t)
| formats_sds_str s bs f args t : rep s bs -> formats f args t -> formats (37 :: 115 :: f) (ARG_SDS s :: args) (c_string bs ++ t)
| formats_sds s bs f args t : rep s bs -> formats f args t -> formats (37 :: 83 :: f) (ARG_SDS s :: args) (bs ++ t)
| formats_int v txt f args t : sdecimal (s32 v) txt -> formats f args t -> formats (37 :: 105 :: f) (ARG_NUM v :: args) (txt ++ t)
| formats_longlong v txt f args t : sdecimal (s64 v) txt -> formats f args t -> formats (37 :: 73 :: f) (ARG_NUM v :: args) (txt ++ t)
| formats_uint v txt f args t : decimal (u32 v) txt -> formats f args t -> formats (37 :: 117 :: f) (ARG_NUM v :: args) (txt ++ t)
| formats_ulonglong v txt f args t : decimal (u64 v) txt -> formats f args t -> formats (37 :: 85 :: f) (ARG_NUM v :: args) (txt ++ t)
| formats_other c f args t : c ∉ [115; 83; 105; 73; 117; 85] -> formats f args t -> formats (37 :: c :: f) args (c :: t).

(** * What a template denotes *)

(** The part before the first [c] and the part from it on. *)
Fixpoint break (c : Z) (l : list Z) : list Z * list Z :=
  match l with
  | [] => ([], [])
  | x :: l' => if x =? c then ([], l) else let '(a, b) := break c l' in (x :: a, b)
  end.

(** [vals]: the values of the variables; the value ends at its first NUL.  [None] for a bracket
    that is not closed, at the end of the template, or around an unknown variable.  [n] is
    more than the length of the template. *)
Fixpoint template_bytes (vals : list Z -> option (list Z)) (n : nat) (t : list Z) : option (list Z) :=
  match n with
  | O => None
  | S n =>
      let '(lit, rest) := break 123 t in
      match rest with
      | [] => Some lit
      | _ :: [] => None
      | _ :: c :: r =>
          if c =? 123 then (fun x => lit ++ [123] ++ x) <$> template_bytes vals n r
          else
            let '(name, rest) := break 125 (c :: r) in
            match rest with
            | [] => None
            | _ :: r => match vals name with None => None | Some v => (fun x => lit ++ c_string v ++ x) <$> template_bytes vals n r end
            end
      end
  end.

Lemma break_app c l : l = (break c l).1 ++ (break c l).2.
Proof. induction l as [|x l IH]; [done|]. cbn [break]. destruct (x =? c); [done|]. destruct (break c l) as [a b]. cbn in *. by f_equal. Qed.

Lemma break_rest c l x r : (break c l).2 = x :: r -> x = c.
Proof. induction l as [|y l IH]; [done|]. cbn [break]. destruct (Z.eqb_spec y c); [by intros [= -> _]|]. by destruct (break c l) as [a b]. Qed.

Section Spec.
Context (junk : Z) (usable : Z -> Z) (nallocx : option (Z -> Z)) (malloc_ok : Z -> bool) `{Halloc : !AllocOk usable nallocx}.

(** * sdscatfmt *)

(** A string in the making: the byte behind it is not a NUL. *)
Definition making (s : sds) (bs : list Z) (free : Z) : Prop :=
  exists t z rest, wide t /\ holds s t bs z rest /\ zlength bs + zlength rest < 2 ^ 63 /\ free <= zlength rest.

Lemma inclen_spec s t len alloc body inc : mid s t len alloc body -> wide t -> 0 <= inc -> len + inc <= alloc -> exists s', sdsinclen s inc = Ok s' /\ mid s' t (len + inc) alloc body.
Proof using Type.
  intros H Ht Hi Hl. unfold sdsinclen. rewrite (mid_type _ _ _ _ _ H), switch_wide by done. destruct H as [(-> & _)|[Hr [Hl0 Ha]]]; [unfold wide, SDS_TYPE_5 in Ht; lia|].
  rewrite (raw_len _ _ _ _ _ _ Hr), dec_enc by (done || lia). destruct (raw_set_len _ _ _ _ _ _ (len + inc) Hr) as (s' & -> & Hr'). exists s'. split; [done|]. right. split; [done|lia].
Qed.

Lemma making_weaken s bs free free' : making s bs free -> free' <= free -> making s bs free'.
Proof using Type. intros (t & z & rest & Ht & H & Hm & Hf) Hle. exists t, z, rest. do 3 (split; [done|]); lia. Qed.

(** Room for [n] bytes. *)
Lemma making_room s bs n (b : bool) : making s bs 0 -> 0 < n -> zlength bs + n < 2 ^ 60 -> (forall free, sdsavail s = Ok free -> b = false -> n <= free) ->
  exists s', (if b then sdsMakeRoomFor junk usable s n else Ok s) = Ok s' /\ making s' bs n.
Proof using Halloc.
  intros (t & z & rest & Ht & H & Hm & _) Hn Hmax Hb. destruct b.
  - destruct (makeRoom_spec junk usable nallocx s t bs z rest n true H Hm) as (s' & t' & rest' & Hs' & H' & Hr' & Hm' & H5); [lia|done|]. exists s'. split; [done|].
    pose proof (mid_bounds _ _ _ _ _ H') as (Ht' & _). assert (t' <> 0) by (intros E; specialize (H5 E); lia). exists t', z, rest'. split; [unfold wide; lia|done].
  - exists s. split; [done|]. exists t, z, rest. split; [done|]. split; [done|]. split; [done|]. apply Hb; [|done]. rewrite (holds_avail s t bs z rest H Hm).
    by rewrite (proj2 (Z.eqb_neq t 0)) by (unfold wide in Ht; lia).
Qed.

Lemma making_copy s bs str l free : making s bs free -> 0 <= l <= zlength str -> l <= free ->
  exists bs' s1 s2, load 0 l str = Ok bs' /\ copy_in (zlength bs) bs' s = Ok s1 /\ sdsinclen s1 l = Ok s2 /\ making s2 (bs ++ take (Z.to_nat l) str) 0.
Proof using Type.
  intros (t & z & rest & Ht & H & Hm & Hf) Hl Hfree. set (x := take (Z.to_nat l) str). assert (Hx : zlength x = l) by (unfold x; rewrite length_take; lia). exists x.
  assert (Hld : load 0 l str = Ok x) by (unfold load; rewrite (proj2 (Z.leb_le 0 l)), (proj2 (Z.leb_le (0 + l) _)) by lia; reflexivity).
  destruct (body_split [] z rest l ltac:(simpl; lia)) as (m & y & r & E & Hml & Hr). cbn [app length] in E, Hr. unfold holds in H. rewrite E in H.
  assert (Hst : store (zlength bs) x (bs ++ m ++ y :: r) = Ok ((bs ++ x) ++ y :: r)) by (rewrite <- (assoc_L (++)); apply store_app; [done|lia]).
  destruct (mid_copy _ _ _ _ _ H (zlength bs) x _ ltac:(lia) Hst) as (s1 & Hs1 & H1). destruct (inclen_spec s1 t _ _ _ l H1 Ht) as (s2 & Hs2 & H2); [lia|lia|].
  exists s1, s2. split; [done|]. split; [done|]. split; [done|]. exists t, y, r. split; [done|]. split; [|rewrite length_app; simpl in Hr; lia].
  unfold holds. replace (zlength (bs ++ x)) with (zlength bs + l) by (rewrite length_app; lia). replace (zlength bs + l + zlength r) with (zlength bs + zlength rest) by (simpl in Hr; lia). done.
Qed.

Lemma append_spec s bs str l : making s bs 0 -> 0 <= l <= zlength str -> zlength bs + l < 2 ^ 60 ->
  exists s', fmt_append junk usable s (zlength bs) str l = Ok (s', zlength (bs ++ take (Z.to_nat l) str)) /\ making s' (bs ++ take (Z.to_nat l) str) 0.
Proof using Halloc.
  intros H Hl Hmax. unfold fmt_append. assert (Hav : exists free, sdsavail s = Ok free /\ 0 <= free) .
  { destruct H as (t & z & rest & Ht & H & Hm & Hf). rewrite (holds_avail s t bs z rest H Hm). eexists. split; [done|]. destruct (t =? 0); lia. }
  destruct Hav as (free & Hav & Hfree). rewrite Hav. replace (zlength bs + l) with (zlength (bs ++ take (Z.to_nat l) str)) by (rewrite length_app, length_take; lia).
  destruct (Z.eq_dec l 0) as [->|Hne].
  - rewrite (proj2 (Z.ltb_ge free 0)) by done. destruct (making_copy s bs str 0 0 H) as (bs' & s1 & s2 & -> & -> & -> & H2); [lia|lia|]. by exists s2.
  - destruct (making_room s bs l (free <? l) H) as (s0 & -> & H0); [lia|lia|intros f Hf Hb; rewrite Hav in Hf; injection Hf as <-; lia|].
    destruct (making_copy s0 bs str l l H0) as (bs' & s1 & s2 & -> & -> & -> & H2); [lia|lia|]. by exists s2.
Qed.

Lemma put_spec s bs c : making s bs 1 -> exists s', fmt_put s (zlength bs) c = Ok (s', zlength (bs ++ [c])) /\ making s' (bs ++ [c]) 0.
Proof using Type.
  intros (t & z & rest & Ht & H & Hm & Hf). unfold fmt_put. destruct rest as [|y r]; [simpl in Hf; lia|].
  destruct (mid_set_char _ _ _ _ _ H (zlength bs) c _ ltac:(lia) (setchar_app bs z (y :: r) c)) as (s1 & -> & H1).
  destruct (inclen_spec s1 t _ _ _ 1 H1 Ht) as (s2 & -> & H2); [lia|simpl; lia|]. exists s2. split; [by rewrite length_app, Nat2Z.inj_add|].
  exists t, y, r. split; [done|]. split; [|rewrite length_app; simpl in *; lia]. unfold holds. rewrite length_app. cbn [length] in *.
  replace (Z.of_nat (length bs + 1)) with (zlength bs + 1) by lia. rewrite <- (assoc_L (++)). cbn [app]. by replace (zlength bs + 1 + zlength r) with (zlength bs + Z.of_nat (S (length r))) by lia.
Qed.

Notation numbuf := (replicate (Z.to_nat LONG_STR_SIZE) junk).

Lemma signed_buf v txt : in_s 64 v -> sdecimal v txt -> exists rest, ll2string numbuf LONG_STR_SIZE v = Ok (zlength txt, txt ++ rest).
Proof using Type.
  intros Hv Hd. pose proof (sdecimal_length v txt Hv Hd). eexists. apply ll2string_fits; [done|done|rewrite length_replicate|]; unfold LONG_STR_SIZE; lia.
Qed.

Lemma unsigned_buf v txt : 0 <= v < 2 ^ 64 -> decimal v txt -> exists rest, ull2string numbuf LONG_STR_SIZE v = Ok (zlength txt, txt ++ rest).
Proof using Type.
  intros Hv [d Hd]. destruct (digits10_ok v Hv) as (d' & _ & Hn & H20). rewrite (ndigits_unique _ _ _ Hd Hn) in *. pose proof (proj1 Hn) as H1. eexists.
  rewrite length_digs, Z2Nat.id by lia. apply ull2string_fits; [done|done|rewrite length_replicate|]; unfold LONG_STR_SIZE; lia.
Qed.

(** The state that a specifier leaves. *)
Definition specified (r : res (sds * Z * list fmt_arg)) (bs : list Z) (args : list fmt_arg) : Prop :=
  exists s', r = Ok (s', zlength bs, args) /\ making s' bs 0.

Lemma specified_append s bs txt rest args : making s bs 0 -> zlength bs + zlength txt < 2 ^ 60 ->
  specified (let! '(s, i) := fmt_append junk usable s (zlength bs) (txt ++ rest) (zlength txt) in Ok (s, i, args)) (bs ++ txt) args.
Proof using Halloc.
  intros H Hl. destruct (append_spec s bs (txt ++ rest) (zlength txt) H) as (s' & -> & H'); [rewrite length_app; lia|done|]. rewrite Nat2Z.id, take_app_length in *. by exists s'.
Qed.

Lemma specifier_int next v txt args s bs : next = 105 \/ next = 73 -> sdecimal (if next =? 105 then s32 v else s64 v) txt -> making s bs 0 -> zlength bs + zlength txt < 2 ^ 60 ->
  specified (fmt_specifier junk usable next (ARG_NUM v :: args) s (zlength bs)) (bs ++ txt) args.
Proof using Halloc.
  intros Hn Hd H Hl. assert (Hin : in_s 64 (if next =? 105 then s32 v else s64 v)).
  { destruct (next =? 105); [|apply s_range; lia]. pose proof (s_range 32 v ltac:(lia)) as Hr. unfold in_s in *. pow_const. lia. }
  destruct (signed_buf _ _ Hin Hd) as (rest & Hbuf). unfold fmt_specifier. destruct Hn as [-> | ->]; cbn [Z.eqb Pos.eqb orb] in *; rewrite Hbuf; by apply specified_append.
Qed.

Lemma specifier_uint next v txt args s bs : next = 117 \/ next = 85 -> decimal (if next =? 117 then u32 v else u64 v) txt -> making s bs 0 -> zlength bs + zlength txt < 2 ^ 60 ->
  specified (fmt_specifier junk usable next (ARG_NUM v :: args) s (zlength bs)) (bs ++ txt) args.
Proof using Halloc.
  intros Hn Hd H Hl. assert (Hin : 0 <= (if next =? 117 then u32 v else u64 v) < 2 ^ 64).
  { destruct (next =? 117); [|apply u_range; lia]. pose proof (u_range 32 v ltac:(lia)). pow_const. lia. }
  destruct (unsigned_buf _ _ Hin Hd) as (rest & Hbuf). unfold fmt_specifier. destruct Hn as [-> | ->]; cbn [Z.eqb Pos.eqb orb] in *; rewrite Hbuf; by apply specified_append.
Qed.

Lemma specifier_str str rest args s bs : 0 ∉ str -> making s bs 0 -> zlength bs + zlength str < 2 ^ 60 ->
  specified (fmt_specifier junk usable 115 (ARG_STR (str ++ 0 :: rest) :: args) s (zlength bs)) (bs ++ str) args.
Proof using Halloc. intros H0 H Hl. unfold fmt_specifier. cbn [Z.eqb Pos.eqb orb]. rewrite strlen_cstr by done. by apply specified_append. Qed.

Lemma specifier_sds_str s0 bs0 args s bs : rep s0 bs0 -> making s bs 0 -> zlength bs + zlength (c_string bs0) < 2 ^ 60 ->
  specified (fmt_specifier junk usable 115 (ARG_SDS s0 :: args) s (zlength bs)) (bs ++ c_string bs0) args.
Proof using Halloc.
  intros H0 H Hl. unfold fmt_specifier. cbn [Z.eqb Pos.eqb orb]. destruct (rep_chars s0 bs0 H0) as (rest & ->). destruct (c_string_split bs0 rest) as (tl & -> & -> & _). by apply specified_append.
Qed.

Lemma specifier_sds s0 bs0 args s bs : rep s0 bs0 -> making s bs 0 -> zlength bs + zlength bs0 < 2 ^ 60 ->
  specified (fmt_specifier junk usable 83 (ARG_SDS s0 :: args) s (zlength bs)) (bs ++ bs0) args.
Proof using Halloc.
  intros H0 H Hl. unfold fmt_specifier. cbn [Z.eqb Pos.eqb orb]. destruct (rep_chars s0 bs0 H0) as (rest & ->). rewrite (rep_len s0 bs0 H0). by apply specified_append.
Qed.

Lemma specifier_other c args s bs : c ∉ [115; 83; 105; 73; 117; 85] -> making s bs 1 -> specified (fmt_specifier junk usable c args s (zlength bs)) (bs ++ [c]) args.
Proof using Type.
  intros Hc H. rewrite !not_elem_of_cons in Hc. unfold fmt_specifier. rewrite !(proj2 (Z.eqb_neq c _)) by (destruct Hc as (? & ? & ? & ? & ? & ? & _); done). cbn [orb].
  destruct (put_spec s bs c H) as (s' & -> & H'). by exists s'.
Qed.

(** The loop on the rest [f] of a format. *)
Definition loops (fuel : nat) (f : list Z) (args : list fmt_arg) (t : list Z) : Prop :=
  forall pre post s bs, making s bs 0 -> zlength bs + zlength t < 2 ^ 59 ->
  exists s', fmt_loop junk usable fuel (pre ++ f ++ 0 :: post) (zlength pre) args s (zlength bs) = Ok (s', zlength (bs ++ t)) /\ making s' (bs ++ t) 0.

Lemma loop_avail s bs : making s bs 0 -> zlength bs + 1 < 2 ^ 60 ->
  exists free s0, sdsavail s = Ok free /\ (if free =? 0 then sdsMakeRoomFor junk usable s 1 else Ok s) = Ok s0 /\ making s0 bs 1.
Proof using Halloc.
  intros H Hl. assert (Hav : exists free, sdsavail s = Ok free /\ 0 <= free).
  { destruct H as (t & z & rest & Ht & H & Hm & Hf). rewrite (holds_avail s t bs z rest H Hm). eexists. split; [done|]. destruct (t =? 0); lia. }
  destruct Hav as (free & Hav & Hfree). destruct (making_room s bs 1 (free =? 0) H) as (s0 & Hs0 & H0); [lia|lia|intros f Hf Hb; rewrite Hav in Hf; injection Hf as <-; lia|].
  by exists free, s0.
Qed.

Lemma loops_end fuel args : loops fuel [] args [].
Proof using Type. intros pre post s bs H Hl. exists s. rewrite app_nil_r. destruct fuel; cbn [fmt_loop app]; rewrite line_get0; cbn [Z.eqb]; by split. Qed.

Lemma loops_last fuel args : loops (S fuel) [37] args [].
Proof using Halloc.
  intros pre post s bs H Hl. cbn [fmt_loop app]. rewrite line_get0. cbn [Z.eqb Pos.eqb]. destruct (loop_avail s bs H) as (free & s0 & -> & -> & H0); [pow_const; lia|]. rewrite line_get1. cbn [Z.eqb].
  apply (making_weaken _ _ _ 0) in H0; [|lia]. destruct (loops_end fuel args (pre ++ [37]) post s0 bs H0 Hl) as (s' & Hs' & H'). exists s'. rewrite <- (assoc_L (++)) in Hs'.
  replace (zlength (pre ++ [37])) with (zlength pre + 1) in Hs' by (rewrite length_app; simpl; lia). split; [exact Hs'|exact H'].
Qed.

Lemma loops_char fuel c f args t : c <> 37 -> c <> 0 -> loops fuel f args t -> loops (S fuel) (c :: f) args (c :: t).
Proof using Halloc.
  intros H37 Hc IH pre post s bs H Hl. cbn [length] in Hl. cbn [fmt_loop app]. rewrite line_get0, (proj2 (Z.eqb_neq c 0)), (proj2 (Z.eqb_neq c 37)) by done.
  destruct (loop_avail s bs H) as (free & s0 & -> & -> & H0); [pow_const; lia|]. destruct (put_spec s0 bs c H0) as (s1 & -> & H1).
  destruct (IH (pre ++ [c]) post s1 (bs ++ [c]) H1) as (s' & Hs' & H'); [rewrite length_app; simpl; lia|]. exists s'. rewrite <- (assoc_L (++) pre), <- (assoc_L (++) bs) in Hs'. rewrite <- (assoc_L (++) bs) in H'.
  replace (zlength (pre ++ [c])) with (zlength pre + 1) in Hs' by (rewrite length_app; simpl; lia). split; [exact Hs'|exact H'].
Qed.

Lemma loops_specifier fuel next f args args' txt t : next <> 0 ->
  (forall s bs, making s bs 1 -> making s bs 0 -> zlength bs + zlength txt < 2 ^ 60 -> specified (fmt_specifier junk usable next args s (zlength bs)) (bs ++ txt) args') ->
  loops fuel f args' t -> loops (S fuel) (37 :: next :: f) args (txt ++ t).
Proof using Halloc.
  intros Hnext Hspec IH pre post s bs H Hl. rewrite length_app in Hl. cbn [fmt_loop app]. rewrite line_get0, line_get1, (proj2 (Z.eqb_neq next 0)) by done. cbn [Z.eqb Pos.eqb].
  destruct (loop_avail s bs H) as (free & s0 & -> & -> & H0); [pow_const; lia|]. destruct (Hspec s0 bs H0) as (s1 & -> & H1); [by apply (making_weaken _ _ 1)|pow_const; lia|].
  destruct (IH (pre ++ [37; next]) post s1 (bs ++ txt) H1) as (s' & Hs' & H'); [rewrite length_app; lia|]. exists s'. rewrite <- (assoc_L (++) pre), <- (assoc_L (++) bs) in Hs'. rewrite <- (assoc_L (++) bs) in H'.
  replace (zlength (pre ++ [37; next])) with (zlength pre + 1 + 1) in Hs' by (rewrite length_app; simpl; lia). split; [exact Hs'|exact H'].
Qed.

Lemma formats_loops f args t : formats f args t -> forall fuel, 0 ∉ f -> (length f <= fuel)%nat -> loops fuel f args t.
Proof using Halloc.
  clear malloc_ok. induction 1 as [args|args|c f args t Hc H IH|str rest f args t H0 H IH|s0 bs0 f args t H0 H IH|s0 bs0 f args t H0 H IH|v txt f args t Hd H IH|v txt f args t Hd H IH|v txt f args t Hd H IH|v txt f args t Hd H IH|c f args t Hc H IH];
    intros fuel Hz Hf; [apply loops_end|..]; (destruct fuel as [|fuel]; [simpl in Hf; lia|]); cbn [length] in Hf; [apply loops_last|..]; rewrite ?not_elem_of_cons in Hz;
    assert (IH' : loops fuel f args t) by (apply IH; [tauto|lia]).
  1: apply loops_char; [done|intros ->; tauto|done].
  1: eapply loops_specifier; [done|intros s bs _ Hm Hl; by apply specifier_str|done].
  1: eapply loops_specifier; [done|intros s bs _ Hm Hl; by apply specifier_sds_str|done].
  1: eapply loops_specifier; [done|intros s bs _ Hm Hl; by apply specifier_sds|done].
  1, 2: eapply loops_specifier; [done|intros s bs _ Hm Hl; apply specifier_int; auto|done].
  1, 2: eapply loops_specifier; [done|intros s bs _ Hm Hl; apply specifier_uint; auto|done].
  eapply (loops_specifier _ _ _ _ _ [c]); [intros ->; tauto|intros s bs Hm _ Hl; by apply specifier_other|done].
Qed.

(** The first allocation makes a header with a length of its own. *)
Lemma start_spec s bs n : rep s bs -> 0 < n -> zlength bs + n < 2 ^ 60 -> exists s', sdsMakeRoomFor junk usable s n = Ok s' /\ making s' bs 0.
Proof using Halloc.
  intros (t & rest & H & Hf) Hn Hl. destruct (makeRoom_spec junk usable nallocx s t bs 0 rest n true H Hf) as (s' & t' & rest' & Hs' & H' & Hr & Hm & H5); [lia|done|].
  exists s'. split; [done|]. pose proof (mid_bounds _ _ _ _ _ H') as (Ht' & _). assert (t' <> 0) by (intros E; specialize (H5 E); lia).
  exists t', 0, rest'. split; [unfold wide; lia|]. split; [done|]. split; [done|lia].
Qed.

Lemma terminate_spec s bs : making s bs 0 -> exists s', set_char (zlength bs) 0 s = Ok s' /\ rep s' bs.
Proof using Type.
  intros (t & z & rest & Ht & H & Hm & _). destruct (mid_set_char _ _ _ _ _ H (zlength bs) 0 _ ltac:(lia) (setchar_app bs z rest 0)) as (s' & Hs' & H'). exists s'. split; [done|]. by exists t, rest.
Qed.

(** C21: sdscatfmt appends the text that the format denotes, each specifier replaced by
    its argument: strings up to their NUL, sds with all their bytes, and integers in decimal at
    the width and signedness of the specifier.  The room is always made before a byte is
    written, so that nothing is written behind the block although there is no terminator
    while the text is put together. *)
Theorem sdscatfmt_correct s bs fmt post args t :
  rep s bs -> formats fmt args t -> 0 ∉ fmt -> zlength bs + zlength t < 2 ^ 58 -> zlength fmt < 2 ^ 58 ->
  exists s', sdscatfmt junk usable s (fmt ++ 0 :: post) args = Ok s' /\ rep s' (bs ++ t).
Proof.
  intros H Hfmt H0 Hl Hf. unfold sdscatfmt. rewrite (rep_len s bs H), strlen_cstr by done. rewrite (u_id 64) by (pow_const; lia). destruct fmt as [|c fmt].
  - inversion Hfmt; subst. rewrite app_nil_r. pose proof H as (ty & rest & Hh & Hfree).
    destruct (makeRoom_spec junk usable nallocx s ty bs 0 rest 0 true Hh Hfree) as (s1 & t1 & rest1 & Hroom & H1 & _ & Hf1 & _); [lia|pow_const; lia|]. unfold sdsMakeRoomFor. change (zlength (@nil Z) * 2) with 0. rewrite Hroom.
    cbn [app length fmt_loop]. rewrite get1_0. cbn [Z.eqb]. destruct (mid_set_char _ _ _ _ _ H1 (zlength bs) 0 _ ltac:(lia) (setchar_app bs 0 rest1 0)) as (s' & -> & H'). exists s'. split; [done|]. by exists t1, rest1.
  - destruct (start_spec s bs (zlength (c :: fmt) * 2) H) as (s1 & -> & H1); [simpl; lia|pow_const; lia|].
    destruct (formats_loops _ _ _ Hfmt (length ((c :: fmt) ++ 0 :: post)) H0 ltac:(rewrite length_app; lia) [] post s1 bs H1) as (s2 & Hs2 & H2); [pow_const; lia|].
    cbn [app] in Hs2. change (zlength []) with 0 in Hs2. cbn [app]. rewrite Hs2. by apply terminate_spec.
Qed.

(** * sdstemplate *)

Lemma strchr_spec c l : forall fuel pre post, c <> 0 -> 0 ∉ l -> (length l <= fuel)%nat ->
  strchr fuel (pre ++ l ++ 0 :: post) (zlength pre) c = Ok (match (break c l).2 with [] => None | _ => Some (zlength pre + zlength (break c l).1) end).
Proof using Type.
  induction l as [|x l IH]; intros fuel pre post Hc H0 Hf.
  - destruct fuel; cbn [strchr app]; rewrite line_get0; by rewrite (proj2 (Z.eqb_neq 0 c)) by done.
  - apply not_elem_of_cons in H0 as [Hx H0]. destruct fuel as [|fuel]; [simpl in Hf; lia|]. cbn [strchr app break]. rewrite line_get0. destruct (x =? c); [cbn; f_equal; f_equal; lia|].
    rewrite (proj2 (Z.eqb_neq x 0)) by done. specialize (IH fuel (pre ++ [x]) post Hc H0 ltac:(simpl in Hf; lia)). rewrite <- (assoc_L (++)) in IH.
    replace (zlength (pre ++ [x])) with (zlength pre + 1) in IH by (rewrite length_app; simpl; lia). cbn [app] in IH. rewrite IH.
    destruct (break c l) as [a b]. cbn [fst snd length]. destruct b; [done|]. do 2 f_equal. lia.
Qed.

Lemma cat_prefix_spec r bs x rest : rep r bs -> 0 ∉ x -> zlength bs + zlength x < 2 ^ 60 -> exists r', sdscat junk usable r (x ++ 0 :: rest) = Ok r' /\ rep r' (bs ++ x).
Proof using Halloc.
  intros H H0 Hl. unfold sdscat. rewrite strlen_cstr by done. destruct (catlen_spec junk usable nallocx r bs (x ++ 0 :: rest) (zlength x) H) as (r' & Hr' & H'); [rewrite length_app; lia|done|].
  exists r'. by rewrite Nat2Z.id, take_app_length in H'.
Qed.

(** The text before the bracket, which may be empty. *)
Lemma literal_spec r bs lit rest (p : Z) : rep r bs -> zlength bs + zlength lit < 2 ^ 60 ->
  exists r', (if p + zlength lit >? p then sdscatlen junk usable r (lit ++ rest) (p + zlength lit - p) else Ok r) = Ok r' /\ rep r' (bs ++ lit).
Proof using Halloc.
  intros H Hl. replace (p + zlength lit - p) with (zlength lit) by lia. destruct lit as [|c lit].
  - exists r. rewrite app_nil_r. split; [|done]. destruct (Z.gtb_spec (p + zlength (@nil Z)) p); [simpl in *; lia|done].
  - destruct (Z.gtb_spec (p + zlength (c :: lit)) p); [|simpl in *; lia]. destruct (catlen_spec junk usable nallocx r bs ((c :: lit) ++ rest) (zlength (c :: lit)) H) as (r' & Hr' & H'); [rewrite length_app; lia|done|].
    exists r'. by rewrite Nat2Z.id, take_app_length in H'.
Qed.

Lemma drop_pre (pre l : list Z) : drop (Z.to_nat (zlength pre)) (pre ++ l) = l.
Proof using Type. by rewrite Nat2Z.id, drop_app_length. Qed.

Lemma c_string_short v : zlength (c_string v) <= zlength v.
Proof using Type. induction v as [|b v IH]; [done|]. cbn [c_string]. destruct (b =? 0); simpl in *; lia. Qed.

Section Template.
Context (cb_func : sds -> option sds) (vals : list Z -> option (list Z)) (m : Z).

(** The callback gives the value of a name, and the values have at most [m] bytes. *)
Class CallbackOk : Prop := {
  callback_value s name : rep s name -> match vals name with Some v => exists s', cb_func s = Some s' /\ rep s' v | None => cb_func s = None end;
  value_short name v : vals name = Some v -> zlength v <= m;
}.

Context `{Hcb : !CallbackOk} (Hm : 0 <= m).

Notation loop := (template_loop junk usable malloc_ok cb_func).

(** What the loop returns for the rest [l] of the template. *)
Definition expands (fuel : nat) (l : list Z) (res : option (list Z)) : Prop :=
  forall pre post r bs, rep r bs -> zlength bs + zlength l * (m + 1) < 2 ^ 60 ->
  match res with
  | Some t => exists r', loop fuel (pre ++ l ++ 0 :: post) (zlength pre) r = Ok (Some r') /\ rep r' (bs ++ t)
  | None => loop fuel (pre ++ l ++ 0 :: post) (zlength pre) r = Ok None
  end.

(** An iteration that goes on behind [x] after it appended [y]. *)
Lemma expands_step fuel pre x l post r1 bs y res : expands fuel l res -> rep r1 (bs ++ y) -> zlength y <= zlength x * (m + 1) -> zlength bs + zlength (x ++ l) * (m + 1) < 2 ^ 60 ->
  match (fun t => y ++ t) <$> res with
  | Some t => exists r', loop fuel (pre ++ (x ++ l) ++ 0 :: post) (zlength (pre ++ x)) r1 = Ok (Some r') /\ rep r' (bs ++ t)
  | None => loop fuel (pre ++ (x ++ l) ++ 0 :: post) (zlength (pre ++ x)) r1 = Ok None
  end.
Proof using Type.
  intros H Hr Hy Hl. rewrite length_app in Hl. specialize (H (pre ++ x) post r1 (bs ++ y) Hr). rewrite length_app in H. specialize (H ltac:(nia)).
  replace (pre ++ (x ++ l) ++ 0 :: post) with ((pre ++ x) ++ l ++ 0 :: post) by (by rewrite <- !(assoc_L (++))). destruct res as [t|]; cbn [fmap option_fmap option_map]; [|exact H].
  destruct H as (r' & H1 & H2). exists r'. split; [exact H1|]. by rewrite (assoc_L (++)).
Qed.
Lemma variable_spec pre name rest r bs lit : rep r (bs ++ lit) -> zlength name < 2 ^ 60 -> zlength bs + zlength lit + m < 2 ^ 60 ->
  exists varname, sdsnewlen junk usable malloc_ok (INIT_BYTES (drop (Z.to_nat (zlength pre)) (pre ++ name ++ rest))) (zlength name) = Ok varname /\
  match vals name with
  | Some v => exists value r', cb_func varname = Some value /\ sdscat junk usable r (chars value) = Ok r' /\ rep r' (bs ++ lit ++ c_string v)
  | None => cb_func varname = None
  end.
Proof using Halloc Hcb.
  intros Hr Hn Hl. rewrite drop_pre. destruct (newlen_spec junk usable nallocx malloc_ok (INIT_BYTES (name ++ rest)) (zlength name)) as (varname & Hv & Hrv); [lia|cbn [init_ok]; rewrite length_app; lia|].
  cbn [init_bytes] in Hrv. rewrite Nat2Z.id, take_app_length in Hrv. exists varname. split; [done|]. pose proof (callback_value varname name Hrv) as Hc. destruct (vals name) as [v|] eqn:Ev; [|done].
  destruct Hc as (value & Hval & Hrep). apply value_short in Ev. pose proof (c_string_short v) as Hs. destruct (rep_chars value v Hrep) as (tl & Htl). destruct (c_string_split v tl) as (tl' & E & Hlen & _).
  rewrite E in Htl, Hlen. destruct (catlen_spec junk usable nallocx r (bs ++ lit) (c_string v ++ 0 :: tl') (zlength (c_string v)) Hr) as (r' & Hr' & H'); [rewrite length_app; lia|rewrite length_app; lia|].
  rewrite Nat2Z.id, take_app_length, <- (assoc_L (++)) in H'. exists value, r'. split; [done|]. unfold sdscat. rewrite Htl, Hlen. by split.
Qed.

(** A variable: the name ends at the closing bracket in [l]. *)
Lemma template_variable fuel n pre lit l post r1 bs : 0 ∉ l -> (forall l', 0 ∉ l' -> (length l' < length l)%nat -> expands fuel l' (template_bytes vals n l')) ->
  rep r1 (bs ++ lit) -> zlength bs + (zlength lit + zlength l + 1) * (m + 1) < 2 ^ 60 ->
  let template := (pre ++ lit ++ [123]) ++ l ++ 0 :: post in let sv := zlength (pre ++ lit ++ [123]) in
  let run :=
    (let! ev := strchr (length template) template sv 125 in
     match ev with
     | None => Ok None
     | Some ev =>
         let! varname := sdsnewlen junk usable malloc_ok (INIT_BYTES (drop (Z.to_nat sv) template)) (ev - sv) in
         match cb_func varname with None => Ok None | Some value => let! r := sdscat junk usable r1 (chars value) in loop fuel template (ev + 1) r end
     end) in
  match (let '(name, rest) := break 125 l in match rest with [] => None | _ :: r => match vals name with None => None | Some v => (fun x => lit ++ c_string v ++ x) <$> template_bytes vals n r end end) with
  | Some t => exists r', run = Ok (Some r') /\ rep r' (bs ++ t)
  | None => run = Ok None
  end.
Proof using Halloc Hcb Hm.
  intros H0 IH Hr1 Hl template sv run. unfold run, template, sv. clear run template sv. rewrite (strchr_spec 125 l _ (pre ++ lit ++ [123]) post) by (done || (rewrite !length_app; lia)).
  pose proof (break_app 125 l) as En. pose proof (break_rest 125 l) as Ed. destruct (break 125 l) as [name rest2]. cbn [fst snd] in *. destruct rest2 as [|d rest2]; [done|]. specialize (Ed d rest2 eq_refl). subst d l.
  rewrite length_app in Hl, IH. cbn [length] in Hl, IH. apply not_elem_of_app in H0 as [H0n [_ H0r2]%not_elem_of_cons].
  replace (zlength (pre ++ lit ++ [123]) + zlength name - zlength (pre ++ lit ++ [123])) with (zlength name) by lia. rewrite <- (assoc_L (++) name).
  destruct (variable_spec (pre ++ lit ++ [123]) name ((125 :: rest2) ++ 0 :: post) r1 bs lit Hr1) as (varname & -> & Hvar); [nia|nia|].
  destruct (vals name) as [v|] eqn:Ev; [|by rewrite Hvar]. destruct Hvar as (value & r' & -> & -> & Hr'). apply value_short in Ev as Hshort. pose proof (c_string_short v) as Hcs.
  pose proof (expands_step fuel pre (lit ++ [123] ++ name ++ [125]) rest2 post r' bs (lit ++ c_string v) _ (IH rest2 H0r2 ltac:(lia)) Hr') as Hst.
  rewrite !length_app in Hst. cbn [length] in Hst. specialize (Hst ltac:(nia) ltac:(nia)).
  replace ((pre ++ lit ++ [123]) ++ name ++ (125 :: rest2) ++ 0 :: post) with (pre ++ ((lit ++ [123] ++ name ++ [125]) ++ rest2) ++ 0 :: post) by (by rewrite <- !(assoc_L (++))).
  replace (zlength (pre ++ lit ++ [123]) + zlength name + 1) with (Z.of_nat (length pre + (length lit + (1 + (length name + 1))))) by (rewrite !length_app; simpl; lia).
  destruct (template_bytes vals n rest2) as [t|]; cbn [fmap option_fmap option_map] in *; [|exact Hst]. destruct Hst as (r2 & H1 & H2). exists r2. split; [exact H1|]. by rewrite <- !(assoc_L (++)) in *.
Qed.

Lemma template_loop_spec n : forall fuel l, 0 ∉ l -> (length l <= fuel)%nat -> (length l < n)%nat -> expands fuel l (template_bytes vals n l).
Proof using Halloc Hcb Hm.
  induction n as [|n IH]; intros fuel l H0 Hf Hn pre post r bs Hr Hl; [lia|]. cbn [template_bytes]. destruct l as [|c0 l0].
  { exists r. cbn [app]. destruct fuel; cbn [template_loop]; rewrite line_get0; cbn [Z.eqb]; (split; [done|by rewrite app_nil_r]). }
  destruct fuel as [|fuel]; [simpl in Hf; lia|]. cbn [template_loop]. set (l := c0 :: l0) in *. assert (Hc0 : get1 (zlength pre) (pre ++ l ++ 0 :: post) = Ok c0) by apply line_get0.
  rewrite Hc0, (proj2 (Z.eqb_neq c0 0)) by (intros ->; apply H0; by left). rewrite strchr_spec by (done || (rewrite !length_app; lia)).
  pose proof (break_app 123 l) as El. pose proof (break_rest 123 l) as Er. clearbody l. destruct (break 123 l) as [lit rest]. cbn [fst snd] in *. destruct rest as [|b rest].
  { rewrite app_nil_r in El. subst lit. rewrite drop_pre. destruct (cat_prefix_spec r bs l post Hr H0) as (r' & -> & Hr'); [nia|]. by exists r'. }
  specialize (Er b rest eq_refl). subst b l. rewrite !not_elem_of_app, !not_elem_of_cons in H0. destruct H0 as (H0l & _ & H0r). rewrite <- (assoc_L (++) lit), drop_pre. rewrite length_app in Hf, Hn, Hl. cbn [length] in Hf, Hn, Hl.
  destruct (literal_spec r bs lit ((123 :: rest) ++ 0 :: post) (zlength pre) Hr) as (r1 & -> & Hr1); [nia|].
  replace (pre ++ lit ++ (123 :: rest) ++ 0 :: post) with ((pre ++ lit ++ [123]) ++ rest ++ 0 :: post) by (by rewrite <- !(assoc_L (++))).
  replace (zlength pre + zlength lit + 1) with (zlength (pre ++ lit ++ [123])) by (rewrite !length_app; simpl; lia). destruct rest as [|c rest]; [cbn [app]; by rewrite line_get0|].
  cbn [app]. rewrite line_get0. apply not_elem_of_cons in H0r as [Hc H0r]. rewrite (proj2 (Z.eqb_neq c 0)) by done. cbn [length] in Hf, Hn, Hl. destruct (Z.eqb_spec c 123) as [->|_].
  - destruct (cat_prefix_spec r1 (bs ++ lit) [123] [] Hr1) as (r2 & E2 & Hr2); [rewrite not_elem_of_cons; split; [done|apply not_elem_of_nil]|rewrite length_app; simpl; nia|]. cbn [app] in E2. rewrite E2.
    rewrite <- (assoc_L (++)) in Hr2. pose proof (expands_step fuel pre (lit ++ [123; 123]) rest post r2 bs (lit ++ [123]) _ (IH fuel rest H0r ltac:(lia) ltac:(lia)) Hr2) as Hst.
    rewrite !length_app in Hst. cbn [length] in Hst. specialize (Hst ltac:(nia) ltac:(nia)).
    replace ((pre ++ lit ++ [123]) ++ 123 :: rest ++ 0 :: post) with (pre ++ ((lit ++ [123; 123]) ++ rest) ++ 0 :: post) by (by rewrite <- !(assoc_L (++))).
    replace (zlength (pre ++ lit ++ [123]) + 1) with (Z.of_nat (length pre + (length lit + 2))) by (rewrite !length_app; simpl; lia).
    destruct (template_bytes vals n rest) as [t|]; cbn [fmap option_fmap option_map] in *; [|exact Hst]. destruct Hst as (r' & H1 & H2). exists r'. split; [exact H1|]. by rewrite <- !(assoc_L (++)) in *.
  - assert (H0c : 0 ∉ c :: rest) by (by apply not_elem_of_cons). change (c :: rest ++ 0 :: post) with ((c :: rest) ++ 0 :: post).
    pose proof (template_variable fuel n pre lit (c :: rest) post r1 bs H0c ltac:(intros l' Hl' Hlen; apply IH; [done|simpl in Hlen; lia|simpl in Hlen; lia]) Hr1 ltac:(simpl; nia)) as H.
    by destruct (break 125 (c :: rest)) as [name rest2].
Qed.

(** sdstemplate expands a template: the text with each {name} replaced by the value
    that the callback gives for the name, as a C string, and {{ by a single bracket; and it returns
    NULL exactly when a bracket is not closed, nothing follows it, or the callback
    knows no value.  The loop ends, and nothing is read beyond the template. *)
Theorem sdstemplate_correct template post : 0 ∉ template -> zlength template * (m + 1) < 2 ^ 60 ->
  match template_bytes vals (S (length template)) template with
  | Some t => exists r, sdstemplate junk usable malloc_ok cb_func (template ++ 0 :: post) = Ok (Some r) /\ rep r t
  | None => sdstemplate junk usable malloc_ok cb_func (template ++ 0 :: post) = Ok None
  end.
Proof using Halloc Hcb Hm.
  intros H0 Hl. unfold sdstemplate. destruct (empty_spec junk usable nallocx malloc_ok) as (s0 & -> & Hs0).
  apply (template_loop_spec (S (length template)) (length (template ++ 0 :: post)) template H0 ltac:(rewrite length_app; lia) ltac:(lia) [] post s0 [] Hs0 Hl).
Qed.
End Template.
End Spec.

#[local] Instance demo_alloc : AllocOk (fun n => n + 5) (Some (fun n => n)).
Proof. split; [intros n Hn; pow_const; lia|intros f n [= <-]; lia]. Qed.

(** "%s: %i of %U%%" *)
Definition demo_fmt : list Z := [37; 115; 58; 32; 37; 105; 32; 111; 102; 32; 37; 85; 37; 37].

Lemma sdscatfmt_correct_witness :
  exists s', sdscatfmt 165 (fun n => n + 5) (demo_sds [62]) (demo_fmt ++ [0]) [ARG_STR [107; 0]; ARG_NUM (-12); ARG_NUM (-1)] = Ok s' /\
    rep s' [62; 107; 58; 32; 45; 49; 50; 32; 111; 102; 32; 49; 56; 52; 52; 54; 55; 52; 52; 48; 55; 51; 55; 48; 57; 53; 53; 49; 54; 49; 53; 37].
Proof.
  apply (sdscatfmt_correct 165 (fun n => n + 5) (Some (fun n => n)) (demo_sds [62]) [62] demo_fmt [] [ARG_STR [107; 0]; ARG_NUM (-12); ARG_NUM (-1)]
    [107; 58; 32; 45; 49; 50; 32; 111; 102; 32; 49; 56; 52; 52; 54; 55; 52; 52; 48; 55; 51; 55; 48; 57; 53; 53; 49; 54; 49; 53; 37]).
  - apply demo_sds_rep. vm_compute. done.
  - apply (formats_str [107] []); [by rewrite list_elem_of_singleton|]. do 2 (apply formats_char; [done|]).
    apply (formats_int (-12) [45; 49; 50]); [apply (sdecimal_neg _ [49; 50]); [done|]; refine (decimal_intro 12 2 _); vm_compute; intuition congruence|]. do 4 (apply formats_char; [done|]).
    apply (formats_ulonglong (-1) [49; 56; 52; 52; 54; 55; 52; 52; 48; 55; 51; 55; 48; 57; 53; 53; 49; 54; 49; 53]); [refine (decimal_intro 18446744073709551615 20 _); vm_compute; intuition congruence|].
    apply formats_other; [|constructor]. rewrite !not_elem_of_cons. repeat split; try done. apply not_elem_of_nil.
  - unfold demo_fmt. rewrite !not_elem_of_cons. repeat split; try done. apply not_elem_of_nil.
  - vm_compute. done.
  - vm_compute. done.
Defined.

(** The variable x, whose value has a NUL in it. *)
Definition demo_vals (name : list Z) : option (list Z) := if decide (name = [120]) then Some [49; 50; 0; 51] else None.
Definition demo_cb (s : sds) : option sds :=
  match sdslen s, load (pos s) 1 (block s) with
  | Ok n, Ok bs => if decide (n = 1) then if decide (bs = [120]) then Some (demo_sds [49; 50; 0; 51]) else None else None
  | _, _ => None
  end.

Lemma demo_callback : CallbackOk demo_cb demo_vals 4.
Proof.
  split.
  - intros s name H. unfold demo_vals, demo_cb. rewrite (rep_len s name H). pose proof (rep_load s name H) as Hld.
    destruct (decide (name = [120])) as [->|Hne].
    + rewrite (rep_load_prefix s [120] 1 H) by (simpl; lia). cbn. eexists. split; [done|]. apply demo_sds_rep. vm_compute. done.
    + destruct (load (pos s) 1 (block s)) as [bs|] eqn:El; [|done]. destruct (decide (zlength name = 1)) as [H1|]; [|done]. rewrite (rep_load_prefix s name 1 H) in El by lia.
      injection El as <-. rewrite take_ge by lia. by rewrite decide_False.
  - intros name v. unfold demo_vals. destruct (decide (name = [120])); [|done]. intros [= <-]. simpl. lia.
Qed.

(** "{{{x}!" *)
Lemma sdstemplate_correct_witness :
  (exists r, sdstemplate 165 (fun n => n + 5) (fun _ => true) demo_cb [123; 123; 123; 120; 125; 33; 0] = Ok (Some r) /\ rep r [123; 49; 50; 33]) /\
  sdstemplate 165 (fun n => n + 5) (fun _ => true) demo_cb [97; 123; 120; 0] = Ok None.
Proof.
  split.
  - apply (sdstemplate_correct 165 (fun n => n + 5) (Some (fun n => n)) (fun _ => true) demo_cb demo_vals 4 (Hcb := demo_callback) ltac:(lia) [123; 123; 123; 120; 125; 33] []).
    + rewrite !not_elem_of_cons. repeat split; try done. apply not_elem_of_nil.
    + vm_compute. done.
  - apply (sdstemplate_correct 165 (fun n => n + 5) (Some (fun n => n)) (fun _ => true) demo_cb demo_vals 4 (Hcb := demo_callback) ltac:(lia) [97; 123; 120] []).
    + rewrite !not_elem_of_cons. repeat split; try done. apply not_elem_of_nil.
    + vm_compute. done.
Defined.
