(* ===== verification/Gf2.v ===== *)
(** Words as vectors of bits: functions that are linear with respect to exclusive or, and
    what the checksums need of them. *)

From stdpp Require Import list.
From S2P Require Import Prelude Machine.

Lemma land_lxor_distr x y m : Z.land (Z.lxor x y) m = Z.lxor (Z.land x m) (Z.land y m).
Proof.
  apply Z.bits_inj'. intros n Hn. rewrite !Z.lxor_spec, !Z.land_spec, Z.lxor_spec.
  by destruct (Z.testbit x n), (Z.testbit y n), (Z.testbit m n).
Qed.

Lemma lxor_range k a b : 0 <= k -> 0 <= a < 2 ^ k -> 0 <= b < 2 ^ k -> 0 <= Z.lxor a b < 2 ^ k.
Proof.
  intros Hk Ha Hb. rewrite <-(Z.mod_small a (2 ^ k)), <-(Z.mod_small b (2 ^ k)) by done.
  rewrite <-!Z.land_ones, <-land_lxor_distr, Z.land_ones by done.
  apply Z.mod_pos_bound. lia.
Qed.

(** Four words, of which the middle two change places. *)
Lemma lxor_swap a b c d : Z.lxor (Z.lxor a b) (Z.lxor c d) = Z.lxor (Z.lxor a c) (Z.lxor b d).
Proof. rewrite !Z.lxor_assoc. f_equal. rewrite <- !Z.lxor_assoc. f_equal. apply Z.lxor_comm. Qed.

Class Linear (f : Z -> Z) : Prop := linear x y : f (Z.lxor x y) = Z.lxor (f x) (f y).
#[global] Hint Mode Linear ! : typeclass_instances.

#[export] Instance linear_id : Linear (fun x => x).
Proof. done. Qed.

#[export] Instance linear_land f m : Linear f -> Linear (fun x => Z.land (f x) m).
Proof. intros Hf x y. by rewrite Hf, land_lxor_distr. Qed.

#[export] Instance linear_shiftr f n : Linear f -> Linear (fun x => Z.shiftr (f x) n).
Proof. intros Hf x y. by rewrite Hf, Z.shiftr_lxor. Qed.

#[export] Instance linear_shiftl f n : Linear f -> Linear (fun x => Z.shiftl (f x) n).
Proof. intros Hf x y. by rewrite Hf, Z.shiftl_lxor. Qed.

#[export] Instance linear_lxor f g : Linear f -> Linear g -> Linear (fun x => Z.lxor (f x) (g x)).
Proof. intros Hf Hg x y. rewrite Hf, Hg. apply lxor_swap. Qed.

(** A word that is added when a bit is set. *)
#[export] Instance linear_if f i c : Linear f -> Linear (fun x => if Z.testbit (f x) i then c else 0).
Proof.
  intros Hf x y. rewrite Hf, Z.lxor_spec. destruct (Z.testbit (f x) i), (Z.testbit (f y) i); cbn [xorb];
    rewrite ?Z.lxor_0_r, ?Z.lxor_0_l, ?Z.lxor_nilpotent; done.
Qed.

Lemma u_land w x : 0 <= w -> u w x = Z.land x (Z.ones w).
Proof. intros Hw. unfold u. by rewrite Z.land_ones. Qed.

Lemma linear_u f w : 0 <= w -> Linear f -> Linear (fun x => u w (f x)).
Proof. intros Hw Hf x y. rewrite Hf, !u_land by done. apply land_lxor_distr. Qed.

Lemma linear_iter f n : Linear f -> Linear (Nat.iter n f).
Proof. intros Hf x y. induction n as [|n IH]; [done|]. simpl. by rewrite IH, Hf. Qed.

Lemma linear_compose f g : Linear f -> Linear g -> Linear (fun x => f (g x)).
Proof. intros Hf Hg x y. by rewrite Hg, Hf. Qed.

Lemma linear_0 f : Linear f -> f 0 = 0.
Proof. intros Hf. pose proof (Hf 0 0) as H. rewrite !Z.lxor_nilpotent in H. exact H. Qed.

(** A word is its low part and its high part. *)
Lemma split_low x n : 0 <= n -> Z.lxor (Z.land x (Z.ones n)) (Z.shiftl (Z.shiftr x n) n) = x.
Proof.
  intros Hn. apply Z.bits_inj'. intros i Hi. rewrite Z.lxor_spec, Z.land_spec. destruct (Z.lt_ge_cases i n).
  - rewrite Z.shiftl_spec_low, Z.ones_spec_low by lia. by destruct (Z.testbit x i).
  - rewrite Z.shiftl_spec, Z.shiftr_spec, Z.ones_spec_high by lia. rewrite andb_false_r, Z.sub_add. by destruct (Z.testbit x i).
Qed.

(** Two linear functions that agree on the single bits agree. *)
Lemma linear_ext n f g : Linear f -> Linear g -> (forall i, (i < n)%nat -> f (2 ^ Z.of_nat i) = g (2 ^ Z.of_nat i)) ->
  forall x, 0 <= x < 2 ^ Z.of_nat n -> f x = g x.
Proof.
  intros Hf Hg. induction n as [|n IH]; intros Hb x Hx.
  { assert (x = 0) as -> by lia. by rewrite !linear_0. }
  pose proof (Z.pow_pos_nonneg 2 (Z.of_nat n)) as Hp. rewrite Nat2Z.inj_succ, Z.pow_succ_r in Hx by lia.
  rewrite <- (split_low x (Z.of_nat n)), Hf, Hg by lia. f_equal.
  - rewrite Z.land_ones by lia. apply IH; [intros i Hi; apply Hb; lia|apply Z.mod_pos_bound; lia].
  - rewrite Z.shiftr_div_pow2, Z.shiftl_mul_pow2 by lia.
    assert (x / 2 ^ Z.of_nat n = 0 \/ x / 2 ^ Z.of_nat n = 1) as [->| ->].
    { assert (0 <= x / 2 ^ Z.of_nat n < 2) by (split; [apply Z.div_pos; lia|apply Z.div_lt_upper_bound; lia]). lia. }
    + by rewrite Z.mul_0_l, !linear_0.
    + rewrite Z.mul_1_l. apply Hb. lia.
Qed.

(** ** Bytes *)

Lemma le_enc_lxor n : forall x y, le_enc n (Z.lxor x y) = zip_with Z.lxor (le_enc n x) (le_enc n y).
Proof.
  induction n as [|n IH]; intros x y; [done|]. cbn [le_enc zip_with]. f_equal.
  - change 256 with (2 ^ 8). rewrite <- !Z.land_ones by lia. apply land_lxor_distr.
  - change 256 with (2 ^ 8). rewrite <- !Z.shiftr_div_pow2, Z.shiftr_lxor by lia. apply IH.
Qed.

(** The bytes above the first one. *)
Lemma le_dec_cons b bs : 0 <= b < 256 -> le_dec (b :: bs) = Z.lxor b (Z.shiftl (le_dec bs) 8).
Proof.
  intros Hb. cbn [le_dec]. rewrite <- Z.add_nocarry_lxor.
  - rewrite Z.shiftl_mul_pow2 by lia. change (2 ^ 8) with 256. lia.
  - apply Z.bits_inj'. intros i Hi. rewrite Z.land_spec, Z.bits_0. destruct (Z.lt_ge_cases i 8); [rewrite Z.shiftl_spec_low by lia; apply andb_false_r|].
    rewrite <- (Z.mod_small b (2 ^ 8)), Z.mod_pow2_bits_high by lia. done.
Qed.

Lemma le_dec_lxor a : forall b, bytes_ok a -> bytes_ok b -> length a = length b -> le_dec (zip_with Z.lxor a b) = Z.lxor (le_dec a) (le_dec b).
Proof.
  induction a as [|x a IH]; intros [|y b] Ha Hb Hl; try done. apply Forall_cons_1 in Ha as [Hx Ha]. apply Forall_cons_1 in Hb as [Hy Hb].
  cbn [zip_with]. pose proof (lxor_range 8 x y ltac:(lia) Hx Hy). rewrite !le_dec_cons by done. rewrite IH by (done || by injection Hl).
  rewrite Z.shiftl_lxor. apply lxor_swap.
Qed.
