(* ===== verification/Slot.v ===== *)
(** Hash slots: the checksum of src/redis-stable/src/crc16.c, keyHashSlot of
    src/redis-stable/src/cluster.h and patternHashSlot of src/redis-stable/src/cluster.c.

    In a cluster a key belongs to one of 16384 slots, the checksum of the key or of its
    hash tag, the part between the first braces.  A pattern all of whose matches are in
    one slot is searched there only. *)

From S2P Require Import Prelude Machine Glob GlobSpec Gf2.

(** * The model *)

Definition crc16tab : list Z :=
  [0x0000; 0x1021; 0x2042; 0x3063; 0x4084; 0x50a5; 0x60c6; 0x70e7;
   0x8108; 0x9129; 0xa14a; 0xb16b; 0xc18c; 0xd1ad; 0xe1ce; 0xf1ef;
   0x1231; 0x0210; 0x3273; 0x2252; 0x52b5; 0x4294; 0x72f7; 0x62d6;
   0x9339; 0x8318; 0xb37b; 0xa35a; 0xd3bd; 0xc39c; 0xf3ff; 0xe3de;
   0x2462; 0x3443; 0x0420; 0x1401; 0x64e6; 0x74c7; 0x44a4; 0x5485;
   0xa56a; 0xb54b; 0x8528; 0x9509; 0xe5ee; 0xf5cf; 0xc5ac; 0xd58d;
   0x3653; 0x2672; 0x1611; 0x0630; 0x76d7; 0x66f6; 0x5695; 0x46b4;
   0xb75b; 0xa77a; 0x9719; 0x8738; 0xf7df; 0xe7fe; 0xd79d; 0xc7bc;
   0x48c4; 0x58e5; 0x6886; 0x78a7; 0x0840; 0x1861; 0x2802; 0x3823;
   0xc9cc; 0xd9ed; 0xe98e; 0xf9af; 0x8948; 0x9969; 0xa90a; 0xb92b;
   0x5af5; 0x4ad4; 0x7ab7; 0x6a96; 0x1a71; 0x0a50; 0x3a33; 0x2a12;
   0xdbfd; 0xcbdc; 0xfbbf; 0xeb9e; 0x9b79; 0x8b58; 0xbb3b; 0xab1a;
   0x6ca6; 0x7c87; 0x4ce4; 0x5cc5; 0x2c22; 0x3c03; 0x0c60; 0x1c41;
   0xedae; 0xfd8f; 0xcdec; 0xddcd; 0xad2a; 0xbd0b; 0x8d68; 0x9d49;
   0x7e97; 0x6eb6; 0x5ed5; 0x4ef4; 0x3e13; 0x2e32; 0x1e51; 0x0e70;
   0xff9f; 0xefbe; 0xdfdd; 0xcffc; 0xbf1b; 0xaf3a; 0x9f59; 0x8f78;
   0x9188; 0x81a9; 0xb1ca; 0xa1eb; 0xd10c; 0xc12d; 0xf14e; 0xe16f;
   0x1080; 0x00a1; 0x30c2; 0x20e3; 0x5004; 0x4025; 0x7046; 0x6067;
   0x83b9; 0x9398; 0xa3fb; 0xb3da; 0xc33d; 0xd31c; 0xe37f; 0xf35e;
   0x02b1; 0x1290; 0x22f3; 0x32d2; 0x4235; 0x5214; 0x6277; 0x7256;
   0xb5ea; 0xa5cb; 0x95a8; 0x8589; 0xf56e; 0xe54f; 0xd52c; 0xc50d;
   0x34e2; 0x24c3; 0x14a0; 0x0481; 0x7466; 0x6447; 0x5424; 0x4405;
   0xa7db; 0xb7fa; 0x8799; 0x97b8; 0xe75f; 0xf77e; 0xc71d; 0xd73c;
   0x26d3; 0x36f2; 0x0691; 0x16b0; 0x6657; 0x7676; 0x4615; 0x5634;
   0xd94c; 0xc96d; 0xf90e; 0xe92f; 0x99c8; 0x89e9; 0xb98a; 0xa9ab;
   0x5844; 0x4865; 0x7806; 0x6827; 0x18c0; 0x08e1; 0x3882; 0x28a3;
   0xcb7d; 0xdb5c; 0xeb3f; 0xfb1e; 0x8bf9; 0x9bd8; 0xabbb; 0xbb9a;
   0x4a75; 0x5a54; 0x6a37; 0x7a16; 0x0af1; 0x1ad0; 0x2ab3; 0x3a92;
   0xfd2e; 0xed0f; 0xdd6c; 0xcd4d; 0xbdaa; 0xad8b; 0x9de8; 0x8dc9;
   0x7c26; 0x6c07; 0x5c64; 0x4c45; 0x3ca2; 0x2c83; 0x1ce0; 0x0cc1;
   0xef1f; 0xff3e; 0xcf5d; 0xdf7c; 0xaf9b; 0xbfba; 0x8fd9; 0x9ff8;
   0x6e17; 0x7e36; 0x4e55; 0x5e74; 0x2e93; 0x3eb2; 0x0ed1; 0x1ef0].

(** One iteration of the loop of crc16; [b] is a [char]. *)
Definition crc16_step (crc b : Z) : res Z :=
  let! t := get1 (Z.land (Z.lxor (Z.shiftr crc 8) (char_int b)) 0x00FF) crc16tab in
  Ok (u16 (Z.lxor (Z.shiftl crc 8) t)).

Fixpoint crc16_loop (n : nat) (buf : list Z) (counter crc : Z) : res Z :=
  match n with
  | O => Ok crc
  | S n =>
      let! b := get1 counter buf in
      let! crc := crc16_step crc b in
      crc16_loop n buf (counter + 1) crc
  end.

(** [off] is the offset of the bytes in [buf]. *)
Definition crc16 (buf : list Z) (off len : Z) : res Z := crc16_loop (Z.to_nat len) buf off 0.

Definition LBRACE : Z := 123.
Definition RBRACE : Z := 125.

(** for (; i < len; i++) if (key[i] == c) break; *)
Fixpoint find_byte (fuel : nat) (key : list Z) (i len c : Z) : res Z :=
  if i <? len then
    let! b := get1 i key in
    if b =? c then Ok i
    else match fuel with O => Fault OutOfFuel | S fuel => find_byte fuel key (i + 1) len c end
  else Ok i.

Definition keyHashSlot (key : list Z) (keylen : Z) : res Z :=
  let whole := let! crc := crc16 key 0 keylen in Ok (Z.land crc 0x3FFF) in
  let! s := find_byte (Z.to_nat keylen) key 0 keylen LBRACE in
  if s =? keylen then whole
  else
    let! e := find_byte (Z.to_nat keylen) key (s + 1) keylen RBRACE in
    if (e =? keylen) || (e =? s + 1) then whole
    else let! crc := crc16 key (s + 1) (e - s - 1) in Ok (Z.land crc 0x3FFF).

(** The loop of patternHashSlot: [inl] is a return from the loop. *)
Fixpoint pattern_loop (n : nat) (pattern : list Z) (i s : Z) : res (Z + unit) :=
  match n with
  | O => Ok (inr tt)
  | S n =>
      let! c := get1 i pattern in
      if (c =? STAR) || (c =? QUESTION) || (c =? LBRACKET) then Ok (inl (-1))
      else if c =? BACKSLASH then Ok (inl (-1))
      else if (s =? -1) && (c =? LBRACE) then pattern_loop n pattern (i + 1) i
      else if (s >=? 0) && (c =? RBRACE) && (i =? s + 1) then pattern_loop n pattern (i + 1) (-2)
      else if (s >=? 0) && (c =? RBRACE) then
        let! crc := crc16 pattern (s + 1) (i - s - 1) in Ok (inl (Z.land crc 0x3FFF))
      else pattern_loop n pattern (i + 1) s
  end.

Definition patternHashSlot (pattern : list Z) (length : Z) : res Z :=
  let! r := pattern_loop (Z.to_nat length) pattern 0 (-1) in
  match r with
  | inl slot => Ok slot
  | inr _ => let! crc := crc16 pattern 0 length in Ok (Z.land crc 0x3FFF)
  end.

(** * The checksum as the remainder of a polynomial division, bit by bit *)

(** XMODEM: width 16, polynomial 1021, initial value 0, nothing reflected. *)
Definition crc_bit (crc : Z) : Z :=
  Z.lxor (u16 (Z.shiftl crc 1)) (if Z.testbit crc 15 then 0x1021 else 0).
(** eight bits at once *)
Definition crc_shift (crc : Z) : Z := Nat.iter 8 crc_bit crc.
Definition crc_byte (crc b : Z) : Z := crc_shift (Z.lxor crc (Z.shiftl b 8)).
Definition crc_bytes (bs : list Z) : Z := fold_left crc_byte bs 0.

(** The part of a key that decides its slot. *)
Fixpoint before (c : Z) (l : list Z) : option (list Z * list Z) :=
  match l with
  | [] => None
  | x :: l =>
      if x =? c then Some ([], l)
      else match before c l with Some (a, b) => Some (x :: a, b) | None => None end
  end.

Definition hash_tag (key : list Z) : list Z :=
  match before LBRACE key with
  | Some (_, l) => match before RBRACE l with Some (x :: t, _) => x :: t | _ => key end
  | None => key
  end.

Definition slot_of (key : list Z) : Z := crc_bytes (hash_tag key) mod 16384.

(** * The table *)

Lemma crc_bit_lxor a b :
  crc_bit (Z.lxor a b) = Z.lxor (crc_bit a) (crc_bit b).
Proof.
  unfold crc_bit, u. rewrite Z.lxor_spec, Z.shiftl_lxor, <-!Z.land_ones by lia.
  assert (forall x y, Z.land (Z.lxor x y) (Z.ones 16) = Z.lxor (Z.land x (Z.ones 16)) (Z.land y (Z.ones 16)))
    as ->.
  { intros x y. apply Z.bits_inj'. intros n Hn. rewrite !Z.lxor_spec, !Z.land_spec, Z.lxor_spec.
    by destruct (Z.testbit x n), (Z.testbit y n), (Z.testbit (Z.ones 16) n). }
  generalize (Z.land (Z.shiftl a 1) (Z.ones 16)) (Z.land (Z.shiftl b 1) (Z.ones 16)). intros x y.
  apply Z.bits_inj'. intros n Hn. rewrite !Z.lxor_spec.
  destruct (Z.testbit a 15), (Z.testbit b 15); cbn [xorb]; rewrite ?Z.bits_0;
    destruct (Z.testbit x n), (Z.testbit y n), (Z.testbit 4129 n); done.
Qed.

Lemma crc_shift_lxor a b : crc_shift (Z.lxor a b) = Z.lxor (crc_shift a) (crc_shift b).
Proof.
  unfold crc_shift. generalize 8%nat as n. induction n as [|n IH]; simpl; [done|].
  by rewrite IH, crc_bit_lxor.
Qed.

(** Checked for the 256 bytes: the table holds the checksums of the bytes, and a low byte
    only moves up. *)
Definition table_ok (i : nat) : bool :=
  let z := Z.of_nat i in
  bool_decide (get1 z crc16tab = Ok (crc_shift (Z.shiftl z 8))) &&
  (crc_shift z =? Z.shiftl z 8) && (Z.shiftl z 8 <? 65536) &&
  (crc_shift (Z.shiftl z 8) <? 65536) && (0 <=? crc_shift (Z.shiftl z 8)).

Lemma table_checked : forallb table_ok (seq 0 256) = true.
Proof. vm_compute. reflexivity. Qed.

Lemma table_spec z :
  0 <= z < 256 ->
  get1 z crc16tab = Ok (crc_shift (Z.shiftl z 8)) /\
  crc_shift z = Z.shiftl z 8 /\
  0 <= crc_shift (Z.shiftl z 8) < 65536.
Proof.
  intros Hz. pose proof table_checked as Ht. rewrite forallb_forall in Ht.
  specialize (Ht (Z.to_nat z) ltac:(apply in_seq; lia)). unfold table_ok in Ht.
  rewrite Z2Nat.id in Ht by lia.
  repeat (apply andb_true_iff in Ht as [Ht ?]). apply bool_decide_eq_true in Ht.
  split_and!; try done; lia.
Qed.

(** The signed char of the buffer selects the same entry as the byte. *)
Lemma crc16_index crc b :
  0 <= crc < 65536 -> 0 <= b < 256 ->
  Z.land (Z.lxor (Z.shiftr crc 8) (char_int b)) 0x00FF = Z.lxor (crc / 256) b.
Proof.
  intros Hc Hb. rewrite land_lxor_distr, Z.shiftr_div_pow2 by lia.
  change 255 with (Z.ones 8). rewrite !Z.land_ones by lia. change (2 ^ 8) with 256.
  rewrite (Z.mod_small (crc / 256)) by (split; [apply Z.div_pos|apply Z.div_lt_upper_bound]; lia).
  f_equal. unfold char_int, s. change (2 ^ (8 - 1)) with 128. change (2 ^ 8) with 256.
  Z.to_euclidean_division_equations. lia.
Qed.

Lemma split_crc crc : 0 <= crc -> crc = Z.lxor (Z.shiftl (crc / 256) 8) (crc mod 256).
Proof.
  intros Hc. rewrite <-Z.add_nocarry_lxor.
  - rewrite Z.shiftl_mul_pow2 by lia. change (2 ^ 8) with 256.
    pose proof (Z.div_mod crc 256). lia.
  - apply Z.bits_inj'. intros n Hn. rewrite Z.land_spec, Z.bits_0.
    destruct (Z.lt_ge_cases n 8); [by rewrite Z.shiftl_spec_low|].
    change 256 with (2 ^ 8). rewrite (Z.mod_pow2_bits_high crc 8 n) by lia. apply andb_false_r.
Qed.

(** The checksum of a byte, by its high and low parts. *)
Lemma crc_byte_split crc b :
  0 <= crc < 65536 ->
  crc_byte crc b = Z.lxor (Z.shiftl (crc mod 256) 8) (crc_shift (Z.shiftl (Z.lxor (crc / 256) b) 8)).
Proof.
  intros Hc. unfold crc_byte. rewrite (split_crc crc) at 1 by lia.
  rewrite (Z.lxor_comm _ (crc mod 256)), Z.lxor_assoc, <-Z.shiftl_lxor, crc_shift_lxor.
  f_equal. apply table_spec, Z.mod_pos_bound. lia.
Qed.

Lemma shift_byte crc : u16 (Z.shiftl crc 8) = Z.shiftl (crc mod 256) 8.
Proof.
  unfold u. rewrite !Z.shiftl_mul_pow2 by lia. change (2 ^ 16) with (256 * 2 ^ 8).
  by rewrite Z.mul_mod_distr_r by lia.
Qed.

Lemma crc16_step_spec crc b :
  0 <= crc < 65536 -> 0 <= b < 256 ->
  crc16_step crc b = Ok (crc_byte crc b) /\ 0 <= crc_byte crc b < 65536.
Proof.
  intros Hc Hb. rewrite crc_byte_split by done. unfold crc16_step. rewrite crc16_index by done.
  assert (Hhi : 0 <= crc / 256 < 2 ^ 8) by (split; [apply Z.div_pos|apply Z.div_lt_upper_bound]; lia).
  destruct (table_spec (Z.lxor (crc / 256) b) (lxor_range 8 (crc / 256) b ltac:(lia) Hhi Hb))
    as (Hget & _ & Hrange).
  revert Hget Hrange. generalize (crc_shift (Z.shiftl (Z.lxor (crc / 256) b) 8)) as t.
  intros t Hget Hrange. rewrite Hget, <-shift_byte. split.
  - f_equal. unfold u. rewrite <-!Z.land_ones, land_lxor_distr by lia. f_equal.
    rewrite Z.land_ones by lia. by apply Z.mod_small.
  - change 65536 with (2 ^ 16). apply lxor_range; [lia| |done]. by apply u_range.
Qed.

Lemma fold_left_step {A B} (f : A -> B -> A) b l a : fold_left f (b :: l) a = fold_left f l (f a b).
Proof. done. Qed.

Lemma crc16_loop_spec bs : forall pre post off crc,
  bytes_ok bs -> 0 <= crc < 65536 -> off = zlength pre ->
  crc16_loop (length bs) (pre ++ bs ++ post) off crc = Ok (fold_left crc_byte bs crc) /\
  0 <= fold_left crc_byte bs crc < 65536.
Proof.
  induction bs as [|b bs IH]; intros pre post off crc Hb Hc ->; [done|].
  rewrite fold_left_step. cbn [crc16_loop length app].
  inversion_clear Hb as [|? ? Hb1 Hb2]. rewrite get1_app by done.
  destruct (crc16_step_spec crc b Hc Hb1) as [-> Hr].
  replace (pre ++ b :: bs ++ post) with ((pre ++ [b]) ++ bs ++ post) by by rewrite <-app_assoc.
  apply IH; [done..|len].
Qed.

Lemma crc16_spec pre bs post off len :
  bytes_ok bs -> off = zlength pre -> len = zlength bs ->
  crc16 (pre ++ bs ++ post) off len = Ok (crc_bytes bs).
Proof. intros Hb Ho ->. unfold crc16. rewrite Nat2Z.id. by apply crc16_loop_spec. Qed.

Lemma slot_mask bs : Z.land (crc_bytes bs) 0x3FFF = crc_bytes bs mod 16384.
Proof. change 16383 with (Z.ones 14). by rewrite Z.land_ones. Qed.

(** * Hash tags *)

Lemma before_app c a b : c ∉ a -> before c (a ++ c :: b) = Some (a, b).
Proof.
  induction a as [|x a IH]; simpl; [by rewrite Z.eqb_refl|]. intros [Hx Ha]%not_elem_of_cons.
  destruct (Z.eqb_spec x c); [by destruct Hx|]. by rewrite IH.
Qed.

Lemma before_none c l : c ∉ l -> before c l = None.
Proof.
  induction l as [|x l IH]; simpl; [done|]. intros [Hx Hl]%not_elem_of_cons.
  destruct (Z.eqb_spec x c); [by destruct Hx|]. by rewrite IH.
Qed.

Lemma before_cases c l :
  match before c l with Some (a, b) => l = a ++ c :: b /\ c ∉ a | None => c ∉ l end.
Proof.
  induction l as [|x l IH]; simpl; [apply not_elem_of_nil|].
  destruct (Z.eqb_spec x c) as [->|Hx]; [split; [done|apply not_elem_of_nil]|].
  destruct (before c l) as [[a b]|].
  - destruct IH as [-> Ha]. split; [done|]. by apply not_elem_of_cons.
  - by apply not_elem_of_cons.
Qed.

Lemma find_byte_spec c post l : forall fuel pre i len,
  (length l <= fuel)%nat -> i = zlength pre -> len = i + zlength l ->
  find_byte fuel (pre ++ l ++ post) i len c =
  Ok (match before c l with Some (a, _) => i + zlength a | None => len end).
Proof.
  induction l as [|x l IH]; intros fuel pre i len Hf -> ->.
  { destruct fuel; simpl; zif; do 2 f_equal; lia. }
  destruct fuel as [|fuel]; [simpl in Hf; lia|]. simpl. zif. rewrite get1_app by done.
  destruct (x =? c); [simpl; f_equal; lia|].
  replace (pre ++ x :: l ++ post) with ((pre ++ [x]) ++ l ++ post) by by rewrite <-app_assoc.
  rewrite IH; [|simpl in Hf; lia|len|lia].
  destruct (before c l) as [[a b]|]; simpl; f_equal; lia.
Qed.

Lemma keyHashSlot_spec key post :
  bytes_ok key -> keyHashSlot (key ++ post) (zlength key) = Ok (slot_of key).
Proof.
  intros Hk. unfold keyHashSlot, slot_of, hash_tag.
  pose proof (crc16_spec [] key post 0 (zlength key) Hk eq_refl eq_refl) as Hw.
  rewrite app_nil_l in Hw. rewrite Hw, slot_mask. clear Hw.
  pose proof (find_byte_spec LBRACE post key (Z.to_nat (zlength key)) [] 0 (zlength key)
    ltac:(lia) eq_refl ltac:(lia)) as Hf.
  rewrite app_nil_l in Hf. rewrite Hf. clear Hf.
  pose proof (before_cases LBRACE key) as Hb.
  destruct (before LBRACE key) as [[a l]|]; [|by rewrite Z.eqb_refl].
  destruct Hb as [-> _]. rewrite length_app. cbn [length]. zif.
  replace ((a ++ LBRACE :: l) ++ post) with ((a ++ [LBRACE]) ++ l ++ post)
    by by rewrite <-!app_assoc.
  rewrite find_byte_spec by len. pose proof (before_cases RBRACE l) as Hl.
  destruct (before RBRACE l) as [[[|x t] r]|].
  - replace (0 + zlength a + 1 + zlength []) with (0 + zlength a + 1) by (simpl; lia).
    by rewrite Z.eqb_refl, orb_true_r.
  - destruct Hl as [-> _]. rewrite length_app. cbn [length]. do 2 zif. cbn [orb].
    replace ((a ++ [LBRACE]) ++ ((x :: t) ++ RBRACE :: r) ++ post)
      with ((a ++ [LBRACE]) ++ (x :: t) ++ (RBRACE :: r ++ post)) by by rewrite <-!app_assoc.
    apply bytes_ok_app in Hk as [_ Hk]. apply Forall_cons_1 in Hk as [_ Hk].
    apply bytes_ok_app in Hk as [Hk _].
    rewrite crc16_spec; [by rewrite slot_mask|done|len|len].
  - replace (Z.of_nat (length a + S (length l))) with (0 + zlength a + 1 + zlength l) by lia.
    by rewrite Z.eqb_refl.
Qed.

(** * Patterns of one slot *)

(** A byte that stands for itself. *)
Definition literal (c : Z) : bool :=
  negb ((c =? STAR) || (c =? QUESTION) || (c =? LBRACKET) || (c =? BACKSLASH)).

Lemma literal_parse c l : literal c = true -> parse (c :: l) = Lit c :: parse l.
Proof.
  unfold literal. intros Hc. rewrite parse_cons; unfold parse_one.
  - destruct (c =? QUESTION), (c =? LBRACKET), (c =? BACKSLASH), (c =? STAR); done.
  - intros ->. done.
Qed.

Lemma literal_prefix lit l key :
  Forall (fun c => literal c = true) lit -> glob false (parse (lit ++ l)) key ->
  exists k, key = lit ++ k /\ glob false (parse l) k.
Proof.
  intros Hlit. revert key. induction Hlit as [|c lit Hc _ IH]; intros key Hg; [by exists key|].
  simpl in Hg. rewrite literal_parse in Hg by done.
  destruct key as [|x key]; [by apply glob_one_empty in Hg|].
  apply glob_one_iff in Hg as [Hx Hg]; [|done]. simpl in Hx. apply Z.eqb_eq in Hx as ->.
  destruct (IH key Hg) as (k & -> & Hk). by exists k.
Qed.

(** The variable [s] after the bytes [seen]: no brace, an open tag, an empty tag. *)
Definition tag_state (s : Z) (seen : list Z) : Prop :=
  (s = -1 /\ LBRACE ∉ seen) \/
  (exists a t, seen = a ++ LBRACE :: t /\ s = zlength a /\ LBRACE ∉ a /\ RBRACE ∉ t) \/
  (exists a t, seen = a ++ LBRACE :: RBRACE :: t /\ s = -2 /\ LBRACE ∉ a).

Lemma tag_state_whole s seen : tag_state s seen -> hash_tag seen = seen.
Proof.
  unfold hash_tag. intros [[_ H]|[(a & t & -> & _ & Ha & Ht)|(a & t & -> & _ & Ha)]].
  - by rewrite before_none.
  - by rewrite before_app, before_none.
  - by rewrite before_app.
Qed.

Lemma tag_state_step s seen c :
  tag_state s seen ->
  tag_state (if (s =? -1) && (c =? LBRACE) then zlength seen
             else if (s >=? 0) && (c =? RBRACE) && (zlength seen =? s + 1) then -2 else s)
            (seen ++ [c]) \/ ((s >=? 0) && (c =? RBRACE) = true /\ zlength seen <> s + 1).
Proof.
  intros [[-> H]|[(a & t & -> & -> & Ha & Ht)|(a & t & -> & -> & Ha)]].
  - left. destruct (Z.eqb_spec c LBRACE) as [->|Hc]; simpl.
    + right; left. exists seen, []. split_and!; try done. apply not_elem_of_nil.
    + left. split; [done|]. rewrite elem_of_app, list_elem_of_singleton. naive_solver.
  - rewrite (proj2 (Z.eqb_neq (zlength a) (-1))) by lia. cbn [andb].
    rewrite Z.geb_leb, (proj2 (Z.leb_le 0 (zlength a))) by lia. cbn [andb].
    destruct (Z.eqb_spec c RBRACE) as [->|Hc]; cbn [andb].
    + rewrite length_app. cbn [length]. destruct t as [|x t].
      * left. right; right. exists a, []. rewrite <-app_assoc, (proj2 (Z.eqb_eq _ _)) by (simpl; lia).
        done.
      * right. split; [done|]. simpl. lia.
    + left. right; left. exists a, (t ++ [c]). rewrite <-app_assoc. split_and!; try done.
      rewrite elem_of_app, list_elem_of_singleton. naive_solver.
  - left. simpl. right; right. exists a, (t ++ [c]). by rewrite <-app_assoc.
Qed.

(** A tag that is closed after one byte or more decides the slot, whatever follows. *)
Lemma tag_state_close s seen k :
  tag_state s seen -> 0 <= s -> zlength seen <> s + 1 ->
  exists a x t, seen = a ++ LBRACE :: x :: t /\ s = zlength a /\
                hash_tag ((seen ++ [RBRACE]) ++ k) = x :: t.
Proof.
  intros [[-> H]|[(a & t & -> & -> & Ha & Ht)|(a & t & -> & -> & Ha)]] Hs Hn; [lia| |lia].
  destruct t as [|x t]; [rewrite length_app in Hn; simpl in Hn; lia|]. exists a, x, t.
  split_and!; [done..|]. unfold hash_tag. rewrite <-!app_assoc. cbn [app].
  rewrite before_app by done. change (x :: t ++ RBRACE :: k) with ((x :: t) ++ RBRACE :: k).
  by rewrite before_app.
Qed.

(** What the loop over the pattern finds: a special character, a tag, or none of them. *)
Definition loop_result (l : list Z) (r : Z + unit) : Prop :=
  match r with
  | inr _ => Forall (fun c => literal c = true) l /\ hash_tag l = l
  | inl slot =>
      slot = -1 \/
      exists lit rest tag, l = lit ++ rest /\ Forall (fun c => literal c = true) lit /\
        (forall k, hash_tag (lit ++ k) = tag) /\ slot = crc_bytes tag mod 16384
  end.

Lemma pattern_loop_spec post l : forall seen i s,
  bytes_ok (seen ++ l) -> Forall (fun c => literal c = true) seen -> tag_state s seen ->
  i = zlength seen ->
  exists r, pattern_loop (length l) (seen ++ l ++ post) i s = Ok r /\ loop_result (seen ++ l) r.
Proof.
  induction l as [|c l IH]; intros seen i s Hb Hlit Hs ->.
  { exists (inr tt). split; [done|]. rewrite app_nil_r. split; [done|]. by eapply tag_state_whole. }
  cbn [pattern_loop length app]. rewrite get1_app by done.
  destruct (literal c) eqn:Hc.
  2: { exists (inl (-1)). split; [|by left]. unfold literal in Hc.
       destruct (c =? STAR), (c =? QUESTION), (c =? LBRACKET), (c =? BACKSLASH); done. }
  assert (((c =? STAR) || (c =? QUESTION) || (c =? LBRACKET) = false) /\ (c =? BACKSLASH) = false)
    as [-> ->].
  { unfold literal in Hc. by destruct (c =? STAR), (c =? QUESTION), (c =? LBRACKET), (c =? BACKSLASH). }
  assert (Hlit1 : Forall (fun c => literal c = true) (seen ++ [c])) by by apply Forall_app_2; [|constructor].
  pose proof (tag_state_step s seen c Hs) as Hstep.
  assert (Hnext : forall s', tag_state s' (seen ++ [c]) ->
    exists r, pattern_loop (length l) (seen ++ c :: l ++ post) (zlength seen + 1) s' = Ok r /\
              loop_result (seen ++ c :: l) r).
  { intros s' Hs'. specialize (IH (seen ++ [c]) (zlength seen + 1) s').
    rewrite <-!app_assoc in IH. by apply IH; [..|len]. }
  destruct ((s =? -1) && (c =? LBRACE)) eqn:E1.
  { apply Hnext. destruct Hstep as [?|[H _]]; [done|]. lia. }
  destruct ((s >=? 0) && (c =? RBRACE)) eqn:E2; cbn [andb] in Hstep |- *.
  - destruct (Z.eqb_spec (zlength seen) (s + 1)) as [E3|E3].
    { apply Hnext. destruct Hstep as [?|[_ H]]; done. }
    apply andb_true_iff in E2 as [E2 ->%Z.eqb_eq].
    destruct (tag_state_close s seen [] Hs ltac:(lia) E3) as (a & x & t & -> & -> & _).
    assert (Ht : forall k, hash_tag (((a ++ LBRACE :: x :: t) ++ [RBRACE]) ++ k) = x :: t).
    { intros k. destruct (tag_state_close _ _ k Hs ltac:(lia) E3) as (a' & x' & t' & He & Hl & ->).
      apply app_inj_1 in He as [_ He]; [congruence|lia]. }
    replace ((a ++ LBRACE :: x :: t) ++ RBRACE :: l ++ post)
      with ((a ++ [LBRACE]) ++ (x :: t) ++ (RBRACE :: l ++ post)) by by rewrite <-!app_assoc.
    assert (bytes_ok (x :: t)) as Hbt.
    { apply bytes_ok_app in Hb as [Hb _]. apply bytes_ok_app in Hb as [_ Hb]. by apply Forall_cons_1 in Hb as [_ Hb]. }
    rewrite crc16_spec by first [done|len]. eexists. split; [done|]. right.
    exists ((a ++ LBRACE :: x :: t) ++ [RBRACE]), l, (x :: t). rewrite slot_mask.
    split_and!; [by rewrite <-!app_assoc|done..].
  - apply Hnext. destruct Hstep as [?|[H _]]; [done|]. congruence.
Qed.

(** C33: keyHashSlot returns the CRC16 (XMODEM, computed bit by bit) of the hash tag of the
    key, or of the whole key if it has none, modulo the number of slots. *)
Theorem keyHashSlot_correct key post :
  bytes_ok key ->
  keyHashSlot (key ++ post) (zlength key) = Ok (slot_of key) /\ 0 <= slot_of key < 16384.
Proof. intros Hk. split; [by apply keyHashSlot_spec|]. by apply Z.mod_pos_bound. Qed.

Lemma keyHashSlot_correct_witness :
  keyHashSlot ([117; 123; 52; 50; 125; 58; 97] ++ [0]) 7 = keyHashSlot [52; 50] 2.
Proof.
  destruct (keyHashSlot_correct [117; 123; 52; 50; 125; 58; 97] [0] ltac:(repeat constructor; lia)) as [H1 _].
  destruct (keyHashSlot_correct [52; 50] [] ltac:(repeat constructor; lia)) as [H2 _].
  etrans; [exact H1|]. symmetry. exact H2.
Defined.

(** C22: when patternHashSlot returns a slot, every key that the pattern matches belongs to
    that slot, so that a scan with the pattern may visit that slot only. *)
Theorem patternHashSlot_sound l post :
  bytes_ok l ->
  exists slot, patternHashSlot (l ++ post) (zlength l) = Ok slot /\
    (slot <> -1 -> forall key, bytes_ok key -> glob false (parse l) key ->
     keyHashSlot key (zlength key) = Ok slot).
Proof.
  intros Hl. unfold patternHashSlot. rewrite Nat2Z.id.
  destruct (pattern_loop_spec post l [] 0 (-1)) as (r & Hr & Hres);
    [done|constructor|left; split; [done|apply not_elem_of_nil]|done|].
  rewrite app_nil_l in Hr. rewrite Hr.
  assert (Hkey : forall key, bytes_ok key -> keyHashSlot key (zlength key) = Ok (slot_of key)).
  { intros key Hk. rewrite <-(app_nil_r key) at 1. by apply keyHashSlot_spec. }
  destruct r as [slot|[]]; simpl in Hres.
  - exists slot. split; [done|]. intros Hslot key Hk Hg. rewrite Hkey by done.
    destruct Hres as [|(lit & rest & tag & -> & Hlit & Htag & ->)]; [done|].
    destruct (literal_prefix lit rest key Hlit Hg) as (k & -> & _). unfold slot_of. by rewrite Htag.
  - destruct Hres as [Hlit Htag].
    pose proof (crc16_spec [] l post 0 (zlength l) Hl eq_refl eq_refl) as Hw.
    rewrite app_nil_l in Hw. rewrite Hw, slot_mask. eexists. split; [done|].
    intros _ key Hk Hg. rewrite Hkey by done. rewrite <-(app_nil_r l) in Hg.
    destruct (literal_prefix l [] key Hlit Hg) as (k & -> & Hg'). inversion Hg'; subst.
    unfold slot_of. by rewrite app_nil_r, Htag.
Qed.

(** The pattern {a}* and the key "{a}b". *)
Lemma patternHashSlot_sound_witness :
  patternHashSlot [123; 97; 125; 42; 0] 4 = Ok 15495 /\
  keyHashSlot [123; 97; 125; 98] 4 = Ok 15495.
Proof.
  destruct (patternHashSlot_sound [123; 97; 125; 42] [0] ltac:(repeat constructor; lia))
    as (slot & Hs & Hk).
  vm_compute in Hs. assert (slot = 15495) as -> by congruence. split; [vm_compute; reflexivity|].
  apply (Hk ltac:(lia) [123; 97; 125; 98]); [repeat constructor; lia|].
  change (parse [123; 97; 125; 42]) with [Lit 123; Lit 97; Lit 125; Star].
  repeat (constructor; [done|]). apply (glob_star false [] [98] []). constructor.
Defined.
