(* ===== verification/Crc64.v ===== *)
(** Checksums of saved values, the model: src/redis-stable/src/crc64.c, crcspeed.c (the
    64-bit part for little-endian machines) and crccombine.c.

    crc64 computes the checksum eight bytes at a time with eight tables; long inputs are
    cut into two or three parts that are processed together, and the checksums of the parts
    are combined with matrices of bits.  The compiler is one that defines __GNUC__ and does not
    define __X86_64__, which selects the builtin byte swap and the portable product of a
    matrix and a vector.  [addr] is the address of the buffer, and the two cutoffs, which
    set_crc64_cutoffs can change, are parameters.  The matrices are computed at the first use and
    kept, as USE_STATIC_COMBINE_CACHE is not defined. *)

From stdpp Require Import list.
From S2P Require Import Prelude Machine.

Definition POLY : Z := 0xad93d23594c935a9.
Definition CRC64_REVERSED_POLY : Z := 0x95ac9329ac4bc9b5.
Definition CRC64_LEN_MASK : Z := 0x7ffffffffffffff8.

(** * crc64.c: bit by bit *)

(** __builtin_bswap64 *)
Definition bswap64 (x : Z) : Z := le_dec (reverse (le_enc 8 x)).

(** ((data >> n) & mask) | ((data & mask) << n) *)
Definition swap_bits (data n mask : Z) : Z := Z.lor (Z.land (Z.shiftr data n) mask) (u64 (Z.shiftl (Z.land data mask) n)).

Definition crc_reflect (data data_len : Z) : res Z :=
  assert! data_len <=? 64 in
  let data := swap_bits data 1 0x5555555555555555 in
  let data := swap_bits data 2 0x3333333333333333 in
  let data := swap_bits data 4 0x0F0F0F0F0F0F0F0F in
  let data := bswap64 data in
  Ok (Z.shiftr data (64 - data_len)).

(** for (uint_fast8_t i = 0x01; i & 0xff; i <<= 1) *)
Fixpoint crc_bits (fuel : nat) (i c crc : Z) : res Z :=
  if Z.land i 0xff =? 0 then Ok crc
  else
    match fuel with
    | O => Fault OutOfFuel
    | S fuel =>
        let bit := negb (Z.land crc 0x8000000000000000 =? 0) in
        let bit := if negb (Z.land c i =? 0) then negb bit else bit in
        let crc := u64 (Z.shiftl crc 1) in
        let crc := if bit then Z.lxor crc POLY else crc in
        crc_bits fuel (u8 (Z.shiftl i 1)) c crc
    end.

(** [n] iterations of the loop over the data, from [offset]. *)
Fixpoint crc_data (n : nat) (crc : Z) (data : list Z) (offset : Z) : res Z :=
  match n with
  | O => Ok crc
  | S n =>
      let! c := get1 offset data in
      let! crc := crc_bits 8 1 c crc in
      crc_data n (Z.land crc 0xffffffffffffffff) data (offset + 1)
  end.

Definition _crc64 (crc : Z) (data : list Z) (len : Z) : res Z :=
  let! crc := crc_data (Z.to_nat len) crc data 0 in
  let crc := Z.land crc 0xffffffffffffffff in
  let! crc := crc_reflect crc 64 in
  Ok (Z.lxor crc 0).

(** * crcspeed.c: the tables *)

(** for (int i = 0; i < n; i++) row[i] = f(i) *)
Fixpoint fill_row (n : nat) (f : Z -> res Z) : res (list Z) :=
  match n with
  | O => Ok []
  | S n => let! row := fill_row n f in let! x := f (Z.of_nat n) in Ok (row ++ [x])
  end.

(** The rows after [prev]: each cell is computed from the cell before it in its column. *)
Fixpoint nested_rows (k : nat) (row0 prev : list Z) : res (list (list Z)) :=
  match k with
  | O => Ok []
  | S k =>
      let! row := fill_row 256 (fun n =>
        let! crc := get1 n prev in
        let! t := get1 (Z.land crc 0xff) row0 in
        Ok (Z.lxor t (Z.shiftr crc 8))) in
      let! rows := nested_rows k row0 row in
      Ok (row :: rows)
  end.

Definition crcspeed64little_init (crcfn : Z -> list Z -> Z -> res Z) : res (list (list Z)) :=
  let! row0 := fill_row 256 (fun n => crcfn 0 [u8 n] 1) in
  let! rows := nested_rows 7 row0 row0 in
  Ok (row0 :: rows).

Definition crc64_init : res (list (list Z)) := crcspeed64little_init _crc64.

(** * crccombine.c *)

(** The offsets of the words that a case of the switch adds. *)
Definition switch_case (v : Z) : list Z :=
  if v =? 15 then [0; 1; 2; 3] else if v =? 14 then [1; 2; 3] else if v =? 13 then [0; 2; 3] else if v =? 12 then [2; 3]
  else if v =? 11 then [0; 1; 3] else if v =? 10 then [1; 3] else if v =? 9 then [0; 3] else if v =? 8 then [3]
  else if v =? 7 then [0; 1; 2] else if v =? 6 then [1; 2] else if v =? 5 then [0; 2] else if v =? 4 then [2]
  else if v =? 3 then [0; 1] else if v =? 2 then [1] else if v =? 1 then [0] else [].

(** sum ^= *(mat+i) ^ ... *)
Fixpoint xor_words (mat : list Z) (off : Z) (idx : list Z) (sum : Z) : res Z :=
  match idx with
  | [] => Ok sum
  | i :: idx => let! w := get1 (off + i) mat in xor_words mat off idx (Z.lxor sum w)
  end.

Fixpoint times_loop (fuel : nat) (mat : list Z) (off vec sum : Z) : res Z :=
  if vec =? 0 then Ok sum
  else
    match fuel with
    | O => Fault OutOfFuel
    | S fuel =>
        let! sum := xor_words mat off (switch_case (Z.land vec 15)) sum in
        times_loop fuel mat (off + 4) (Z.shiftr vec 4) sum
    end.

Definition gf2_matrix_times_switch (mat : list Z) (vec : Z) : res Z := times_loop 16 mat 0 vec 0.

Definition gf2_matrix_square (mat : list Z) (dim : Z) : res (list Z) :=
  fill_row (Z.to_nat dim) (fun n => let! v := get1 n mat in gf2_matrix_times_switch mat v).

(** The cache before its first use. *)
Definition combine_cache_zero : list (list Z) := replicate 64 (replicate 64 0).

(** do { ... prev = -1; } while (++cache_num < 64) *)
Fixpoint cache_loop (n : nat) (cache : list (list Z)) (cache_num prev dim : Z) : res (list (list Z)) :=
  match n with
  | O => Fault OutOfFuel
  | S n =>
      let! mat := get1 (cache_num + prev) cache in
      let! square := gf2_matrix_square mat dim in
      let! cache := set1 cache_num square cache in
      let cache_num := cache_num + 1 in
      if cache_num <? 64 then cache_loop n cache cache_num (-1) dim else Ok cache
  end.

Definition init_combine_cache (cache : list (list Z)) (poly dim : Z) : res (list (list Z)) :=
  let! one := fill_row (Z.to_nat dim) (fun n => Ok (if n =? 0 then poly else u64 (Z.shiftl 1 (n - 1)))) in
  let! cache := set1 1 one cache in
  let! c0 := gf2_matrix_square one dim in
  let! cache := set1 0 c0 cache in
  let! c1 := gf2_matrix_square c0 dim in
  let! cache := set1 1 c1 cache in
  cache_loop 64 cache 0 1 dim.

(** do { ... } while (len2 != 0) *)
Fixpoint combine_loop (fuel : nat) (cache : list (list Z)) (cache_num len2 crc1 : Z) : res Z :=
  match fuel with
  | O => Fault OutOfFuel
  | S fuel =>
      let! crc1 := (if negb (Z.land len2 1 =? 0) then let! mat := get1 cache_num cache in gf2_matrix_times_switch mat crc1 else Ok crc1) in
      let len2 := Z.shiftr len2 1 in
      let cache_num := Z.land (cache_num + 1) 63 in
      if negb (len2 =? 0) then combine_loop fuel cache cache_num len2 crc1 else Ok crc1
  end.

(** The combined checksum, and the cache. *)
Definition crc64_combine (cache : list (list Z)) (crc1 crc2 len2 poly dim : Z) : res (Z * list (list Z)) :=
  if len2 =? 0 then Ok (crc1, cache)
  else
    let! c0 := get1 0 cache in
    let! c00 := get1 0 c0 in
    let! cache := (if c00 =? 0 then init_combine_cache cache poly dim else Ok cache) in
    let! crc1 := combine_loop 64 cache 0 len2 crc1 in
    Ok (Z.lxor crc1 crc2, cache).

(** * crcspeed.c: the checksum *)

Section Speed.
Context (little_table : list (list Z)) (buf : list Z).

Definition table_at (k i : Z) : res Z := let! row := get1 k little_table in get1 i row.

(** crc1 = little_table[0][(crc1 ^ *next1++) & 0xff] ^ (crc1 >> 8) *)
Definition crc_byte (crc next : Z) : res Z :=
  let! b := get1 next buf in
  let! t := table_at 0 (Z.land (Z.lxor crc b) 0xff) in
  Ok (Z.lxor t (Z.shiftr crc 8)).

Definition DO_8_1 (crc next : Z) : res Z := let! w := load next 8 buf in Ok (Z.lxor crc (le_dec w)).

Definition DO_8_2 (crc : Z) : res Z :=
  let! t7 := table_at 7 (u8 crc) in
  let! t6 := table_at 6 (u8 (Z.shiftr crc 8)) in
  let! t5 := table_at 5 (u8 (Z.shiftr crc 16)) in
  let! t4 := table_at 4 (u8 (Z.shiftr crc 24)) in
  let! t3 := table_at 3 (u8 (Z.shiftr crc 32)) in
  let! t2 := table_at 2 (u8 (Z.shiftr crc 40)) in
  let! t1 := table_at 1 (u8 (Z.shiftr crc 48)) in
  let! t0 := table_at 0 (Z.shiftr crc 56) in
  Ok (Z.lxor (Z.lxor (Z.lxor (Z.lxor (Z.lxor (Z.lxor (Z.lxor t7 t6) t5) t4) t3) t2) t1) t0).

(** Up to an address that is a multiple of 8: the new next1, len and crc1. *)
Fixpoint align_loop (fuel : nat) (addr crc1 next1 len : Z) : res (Z * Z * Z) :=
  if negb (len =? 0) && negb (Z.land (addr + next1) 7 =? 0) then
    match fuel with
    | O => Fault OutOfFuel
    | S fuel => let! crc1 := crc_byte crc1 next1 in align_loop fuel addr crc1 (next1 + 1) (len - 1)
    end
  else Ok (next1, len, crc1).

(** while (len) *)
Fixpoint byte_loop (fuel : nat) (crc1 next1 len : Z) : res Z :=
  if negb (len =? 0) then
    match fuel with
    | O => Fault OutOfFuel
    | S fuel => let! crc1 := crc_byte crc1 next1 in byte_loop fuel crc1 (next1 + 1) (len - 1)
    end
  else Ok crc1.

(** while (len >= 8), on one, two and three parts *)
Fixpoint loop8 (fuel : nat) (crc1 next1 len : Z) : res (Z * Z * Z) :=
  if len >=? 8 then
    match fuel with
    | O => Fault OutOfFuel
    | S fuel =>
        let len := len - 8 in
        let! crc1 := DO_8_1 crc1 next1 in
        let! crc1 := DO_8_2 crc1 in
        loop8 fuel crc1 (next1 + 8) len
    end
  else Ok (next1, len, crc1).

Fixpoint loop16 (fuel : nat) (crc1 crc2 next1 next2 len : Z) : res (Z * Z * Z * Z) :=
  if len >=? 8 then
    match fuel with
    | O => Fault OutOfFuel
    | S fuel =>
        let len := len - 8 in
        let! crc1 := DO_8_1 crc1 next1 in
        let! crc2 := DO_8_1 crc2 next2 in
        let! crc1 := DO_8_2 crc1 in
        let! crc2 := DO_8_2 crc2 in
        loop16 fuel crc1 crc2 (next1 + 8) (next2 + 8) len
    end
  else Ok (next1, next2, crc1, crc2).

Fixpoint loop24 (fuel : nat) (crc1 crc2 crc3 next1 next2 next3 len : Z) : res (Z * Z * Z * Z * Z * Z) :=
  if len >=? 8 then
    match fuel with
    | O => Fault OutOfFuel
    | S fuel =>
        let len := len - 8 in
        let! crc1 := DO_8_1 crc1 next1 in
        let! crc2 := DO_8_1 crc2 next2 in
        let! crc3 := DO_8_1 crc3 next3 in
        let! crc1 := DO_8_2 crc1 in
        let! crc2 := DO_8_2 crc2 in
        let! crc3 := DO_8_2 crc3 in
        loop24 fuel crc1 crc2 crc3 (next1 + 8) (next2 + 8) (next3 + 8) len
    end
  else Ok (next1, next2, next3, crc1, crc2, crc3).

(** The first part, in three or two pieces: the new next1, len and crc1, and the cache. *)
Definition split3 (cache : list (list Z)) (crc1 next1 len : Z) : res (Z * Z * Z * list (list Z)) :=
  let olen := len in
  let next2 := next1 + Z.land (len / 3) CRC64_LEN_MASK in
  let len := next2 - next1 in
  let next3 := next2 + len in
  let! '(next1, next2, next3, crc1, crc2, crc3) := loop24 (Z.to_nat len) crc1 0 0 next1 next2 next3 len in
  let! '(crc1, cache) := crc64_combine cache crc1 crc2 (next2 - next1) CRC64_REVERSED_POLY 64 in
  let! '(crc1, cache) := crc64_combine cache crc1 crc3 (next2 - next1) CRC64_REVERSED_POLY 64 in
  Ok (next3, olen - (next2 - next1) * 3, crc1, cache).

Definition split2 (cache : list (list Z)) (crc1 next1 len : Z) : res (Z * Z * Z * list (list Z)) :=
  let olen := len in
  let next2 := next1 + Z.land (len / 2) CRC64_LEN_MASK in
  let len := next2 - next1 in
  let! '(next1, next2, crc1, crc2) := loop16 (Z.to_nat len) crc1 0 next1 next2 len in
  let! '(crc1, cache) := crc64_combine cache crc1 crc2 (next2 - next1) CRC64_REVERSED_POLY 64 in
  Ok (next2, olen - (next2 - next1) * 2, crc1, cache).

Definition crcspeed64little (cache : list (list Z)) (dual_cutoff tri_cutoff addr crc1 len : Z) : res (Z * list (list Z)) :=
  if dual_cutoff <? 1 then let! crc1 := byte_loop (Z.to_nat len) crc1 0 len in Ok (crc1, cache)
  else
    let! '(next1, len, crc1) := align_loop (Z.to_nat len) addr crc1 0 len in
    let! '(next1, len, crc1, cache) :=
      (if len >? tri_cutoff then split3 cache crc1 next1 len
       else if len >? dual_cutoff then split2 cache crc1 next1 len
       else Ok (next1, len, crc1, cache)) in
    let! '(next1, len, crc1) := loop8 (Z.to_nat len) crc1 next1 len in
    let! crc1 := byte_loop (Z.to_nat len) crc1 next1 len in
    Ok (crc1, cache).
End Speed.

(** The static variables of the three files. *)
Record crc64_state := mkCrc64 { crc64_table : list (list Z); combine_cache : list (list Z); CRC64_DUAL_CUTOFF : Z; CRC64_TRI_CUTOFF : Z }.

Definition crc64 (st : crc64_state) (addr crc : Z) (s : list Z) (l : Z) : res (Z * crc64_state) :=
  let! '(crc, cache) := crcspeed64little (crc64_table st) s (combine_cache st) (CRC64_DUAL_CUTOFF st) (CRC64_TRI_CUTOFF st) addr crc l in
  Ok (crc, mkCrc64 (crc64_table st) cache (CRC64_DUAL_CUTOFF st) (CRC64_TRI_CUTOFF st)).

Definition set_crc64_cutoffs (st : crc64_state) (dual_cutoff tri_cutoff : Z) : crc64_state :=
  mkCrc64 (crc64_table st) (combine_cache st) dual_cutoff tri_cutoff.

(** The cutoffs of machines other than 32-bit Intel ones. *)
Definition DUAL_CUTOFF : Z := 1024.
Definition TRI_CUTOFF : Z := 16 * 1024.

(** "123456789", the test vector of crc64Test *)
Definition check_input : list Z := [49; 50; 51; 52; 53; 54; 55; 56; 57].

Example crc64_check : _crc64 0 check_input 9 = Ok 0xe9c6d914c4b8d9ca.
Proof. vm_compute. reflexivity. Qed.

Example crc64_speed_check :
  (let! table := crc64_init in let! '(crc, _) := crc64 (mkCrc64 table combine_cache_zero 1 1) 0 0 check_input 9 in Ok crc) = Ok 0xe9c6d914c4b8d9ca.
Proof. vm_compute. reflexivity. Qed.

Example crc64_three_parts : let data := concat (replicate 11 check_input) in
  (let! table := crc64_init in let! '(crc, _) := crc64 (mkCrc64 table combine_cache_zero 1 16) 5 0 data 99 in Ok crc) = _crc64 0 data 99.
Proof. vm_compute. reflexivity. Qed.
