(* ===== verification/Crc64Inv.v ===== *)
(** Checksums of saved values: the bit-by-bit checksum, the tables and the matrices.

    The checksum is a linear feedback shift register: [lfsr] shifts a word by one bit.  The
    tables hold powers of [lfsr] applied to bytes, the matrices of the cache are powers of
    [lfsr] as linear functions, and the generated function _crc64 is the register seen in
    a mirror. *)

From stdpp Require Import list.
From S2P Require Import Prelude Machine Gf2 Crc64.

(** * The register *)

Definition lfsr (x : Z) : Z := Z.lxor (Z.shiftr x 1) (if Z.testbit x 0 then CRC64_REVERSED_POLY else 0).

(** [n] shifts. *)
Definition lfsr_n (n : Z) (x : Z) : Z := Nat.iter (Z.to_nat n) lfsr x.

(** The checksum of bytes, from the checksum [c] of what comes before them. *)
Definition crc_ref (c : Z) (bs : list Z) : Z := foldl (fun c b => lfsr_n 8 (Z.lxor c b)) c bs.

Definition word (x : Z) : Prop := 0 <= x < 2 ^ 64.

#[export] Instance lfsr_linear : Linear lfsr.
Proof. unfold lfsr. apply linear_lxor; [apply linear_shiftr, linear_id|apply (linear_if (fun x => x)), linear_id]. Qed.

#[export] Instance lfsr_n_linear n : Linear (lfsr_n n).
Proof. apply linear_iter, lfsr_linear. Qed.

Lemma lfsr_n_add n m x : 0 <= n -> 0 <= m -> lfsr_n (n + m) x = lfsr_n n (lfsr_n m x).
Proof. intros Hn Hm. unfold lfsr_n. rewrite Z2Nat.inj_add by lia. apply Nat.iter_add. Qed.

Lemma lfsr_n_0 n : lfsr_n n 0 = 0.
Proof. apply linear_0, _. Qed.

Lemma lfsr_shift y : lfsr (Z.shiftl y 1) = y.
Proof. unfold lfsr. rewrite Z.shiftl_spec_low, Z.lxor_0_r by lia. rewrite Z.shiftr_shiftl_l by lia. apply Z.shiftl_0_r. Qed.

(** Low zeros are only shifted out. *)
Lemma lfsr_n_shift n y : 0 <= n -> lfsr_n n (Z.shiftl y n) = y.
Proof.
  intros Hn. pattern n. apply natlike_ind; [apply Z.shiftl_0_r| |done]. intros k Hk IH. rewrite <- Z.add_1_r, lfsr_n_add by lia.
  rewrite <- Z.shiftl_shiftl by lia. change (lfsr_n 1 ?z) with (lfsr z). by rewrite lfsr_shift.
Qed.

Lemma lfsr_word x : word x -> word (lfsr x).
Proof.
  intros Hx. apply lxor_range; [lia| |destruct (Z.testbit x 0); [unfold CRC64_REVERSED_POLY|]; pow_const; lia].
  rewrite Z.shiftr_div_pow2 by lia. destruct Hx. split; [apply Z.div_pos; lia|]. apply Z.div_lt_upper_bound; pow_const; lia.
Qed.

Lemma lfsr_n_word n x : word x -> word (lfsr_n n x).
Proof. intros Hx. unfold lfsr_n. induction (Z.to_nat n) as [|k IH]; [done|]. simpl. by apply lfsr_word. Qed.

(** Eight shifts, by the low byte. *)
Lemma lfsr_8 x : lfsr_n 8 x = Z.lxor (lfsr_n 8 (Z.land x 255)) (Z.shiftr x 8).
Proof. rewrite <- (split_low x 8) at 1 by lia. rewrite (linear (f := lfsr_n 8)), lfsr_n_shift by lia. done. Qed.

(** All the bytes at once: the checksum of a string is a power of [lfsr]. *)
Lemma crc_ref_power bs : forall c, bytes_ok bs -> crc_ref c bs = lfsr_n (8 * zlength bs) (Z.lxor c (le_dec bs)).
Proof.
  induction bs as [|b bs IH]; intros c Hb; [by rewrite Z.lxor_0_r|]. apply Forall_cons_1 in Hb as [H0 Hb]. cbn [crc_ref foldl]. fold (crc_ref (lfsr_n 8 (Z.lxor c b)) bs).
  rewrite IH, le_dec_cons by done. cbn [length]. replace (8 * Z.of_nat (S (length bs))) with (8 * zlength bs + 8) by lia. rewrite lfsr_n_add by lia. f_equal.
  rewrite <- Z.lxor_assoc, (linear (f := lfsr_n 8) (Z.lxor c b)). by rewrite lfsr_n_shift.
Qed.

Lemma crc_ref_app c a b : crc_ref c (a ++ b) = crc_ref (crc_ref c a) b.
Proof. apply foldl_app. Qed.

Lemma byte_word b : 0 <= b < 256 -> word b.
Proof. unfold word. pow_const. lia. Qed.

Lemma crc_ref_word bs : forall c, word c -> bytes_ok bs -> word (crc_ref c bs).
Proof.
  induction bs as [|b bs IH]; intros c Hc Hb; [done|]. apply Forall_cons_1 in Hb as [H0 Hb]. apply IH; [|done]. apply lfsr_n_word.
  apply lxor_range; [lia|done|by apply byte_word].
Qed.

(** The checksum of what follows can be computed apart. *)
Lemma crc_ref_combine c b : bytes_ok b -> crc_ref c b = Z.lxor (lfsr_n (8 * zlength b) c) (crc_ref 0 b).
Proof. intros Hb. rewrite !crc_ref_power by done. rewrite Z.lxor_0_l. apply lfsr_n_linear. Qed.

(** * crc64.c *)

(** The value of crc_reflect for 64 bits. *)
Definition reflect (x : Z) : Z := bswap64 (swap_bits (swap_bits (swap_bits x 1 0x5555555555555555) 2 0x3333333333333333) 4 0x0F0F0F0F0F0F0F0F).

Lemma reflect_64 x : crc_reflect x 64 = Ok (reflect x).
Proof. unfold crc_reflect, reflect. cbn [Z.leb Z.compare Pos.compare Pos.compare_cont]. by rewrite Z.sub_diag, Z.shiftr_0_r. Qed.

Lemma swap_linear n mask : 0 <= n -> Z.land mask (u64 (Z.shiftl mask n)) = 0 -> Linear (fun x => swap_bits x n mask).
Proof.
  intros Hn Hm. assert (E : forall x, swap_bits x n mask = Z.lxor (Z.land (Z.shiftr x n) mask) (u64 (Z.shiftl (Z.land x mask) n))).
  { intros x. unfold swap_bits. symmetry. apply Z.lxor_lor. apply Z.bits_inj'. intros i Hi. apply (f_equal (fun z => Z.testbit z i)) in Hm.
    rewrite !u_land, !Z.land_spec, !Z.shiftl_spec, Z.land_spec, Z.bits_0 in * by lia.
    destruct (Z.testbit mask i), (Z.testbit mask (i - n)), (Z.testbit (Z.ones 64) i); cbn [andb] in *; rewrite ?andb_false_r, ?andb_true_r in *; done. }
  intros x y. rewrite !E. apply (linear_lxor (fun x => Z.land (Z.shiftr x n) mask) (fun x => u64 (Z.shiftl (Z.land x mask) n))).
  - apply linear_land, linear_shiftr, linear_id.
  - apply linear_u; [lia|]. apply linear_shiftl, linear_land, linear_id.
Qed.

Lemma bswap_linear : Linear bswap64.
Proof.
  intros x y. unfold bswap64. rewrite le_enc_lxor. rewrite <- le_dec_lxor; [|by apply Forall_reverse, le_enc_bytes..|by rewrite !length_reverse, !length_le_enc].
  f_equal.
Qed.

#[export] Instance reflect_linear : Linear reflect.
Proof.
  unfold reflect. apply (linear_compose bswap64), (linear_compose (fun x => swap_bits x 4 _)), (linear_compose (fun x => swap_bits x 2 _));
    first [apply bswap_linear | apply swap_linear; [lia|by vm_compute]].
Qed.

(** One step of the generated function, on a bit [c] of the data. *)
Definition crc_shift (x : Z) (c : bool) : Z := Z.lxor (u64 (Z.shiftl x 1)) (if xorb (Z.testbit x 63) c then POLY else 0).

Lemma shift_split x c : crc_shift x c = Z.lxor (crc_shift x false) (if c then POLY else 0).
Proof. unfold crc_shift. destruct (Z.testbit x 63), c; cbn [xorb]; rewrite ?Z.lxor_0_r, ?Z.lxor_assoc, ?Z.lxor_nilpotent, ?Z.lxor_0_r; done. Qed.

Lemma shift_linear : Linear (fun x => crc_shift x false).
Proof.
  intros x y. unfold crc_shift. rewrite !xorb_false_r. apply (linear_lxor (fun x => u64 (Z.shiftl x 1)) (fun x => if Z.testbit x 63 then POLY else 0)).
  - apply linear_u; [lia|]. apply linear_shiftl, linear_id.
  - apply (linear_if (fun x => x)), linear_id.
Qed.

Lemma shift_word x c : word (crc_shift x c).
Proof. apply lxor_range; [lia|by apply u_range|]. destruct (xorb _ _); [unfold POLY|]; pow_const; lia. Qed.

(** The mirror, checked on the single bits. *)
Lemma reflect_shift x c : word x -> reflect (crc_shift x c) = lfsr (Z.lxor (reflect x) (b2z c)).
Proof.
  intros Hx. rewrite shift_split, (linear (f := reflect)), (linear (f := lfsr)). f_equal; [|by destruct c; vm_compute].
  apply (linear_ext 64 (fun x => reflect (crc_shift x false)) (fun x => lfsr (reflect x))); [apply linear_compose; [apply _|apply shift_linear]|apply linear_compose; apply _| |exact Hx].
  assert (Hc : forallb (fun i => reflect (crc_shift (2 ^ Z.of_nat i) false) =? lfsr (reflect (2 ^ Z.of_nat i))) (seq 0 64) = true) by (by vm_compute).
  intros i Hi. rewrite forallb_forall in Hc. apply Z.eqb_eq, Hc, in_seq. lia.
Qed.

Lemma land_pow2_bit x i : 0 <= i -> negb (Z.land x (2 ^ i) =? 0) = Z.testbit x i.
Proof.
  intros Hi. destruct (Z.testbit x i) eqn:E.
  - apply negb_true_iff, Z.eqb_neq. intros H. apply (f_equal (fun z => Z.testbit z i)) in H. rewrite Z.land_spec, E, Z.pow2_bits_true, Z.bits_0 in H by lia. done.
  - apply negb_false_iff, Z.eqb_eq, Z.bits_inj'. intros j Hj. rewrite Z.land_spec, Z.bits_0, Z.pow2_bits_eqb by lia.
    destruct (Z.eqb_spec i j) as [->|]; [by rewrite E|apply andb_false_r].
Qed.

(** The bits of a byte, from the lowest. *)
Lemma crc_bits_spec fuel : forall k c x, Z.of_nat fuel + k = 8 -> 0 <= k -> 0 <= c < 256 -> word x ->
  exists y, crc_bits fuel (u8 (2 ^ k)) c x = Ok y /\ word y /\ reflect y = lfsr_n (8 - k) (Z.lxor (reflect x) (Z.shiftr c k)).
Proof.
  induction fuel as [|fuel IH]; intros k c x Hf Hk Hc Hx.
  { assert (k = 8) as -> by lia. exists x. split; [done|]. split; [done|]. rewrite Z.shiftr_div_pow2, Z.div_small by (pow_const; lia). by rewrite Z.lxor_0_r. }
  assert (Hp : u8 (2 ^ k) = 2 ^ k) by (apply u_id; split; [lia|]; apply Z.pow_lt_mono_r; lia). rewrite Hp. cbn [crc_bits].
  assert (Hi : Z.land (2 ^ k) 255 =? 0 = false).
  { change 255 with (Z.ones 8). rewrite Z.land_ones, Z.mod_small by (try split; try lia; apply Z.pow_lt_mono_r; lia). apply Z.eqb_neq. lia. }
  rewrite Hi. change 0x8000000000000000 with (2 ^ 63). rewrite !land_pow2_bit by lia.
  assert (Hs : (let bit := if Z.testbit c k then negb (Z.testbit x 63) else Z.testbit x 63 in if bit then Z.lxor (u64 (Z.shiftl x 1)) POLY else u64 (Z.shiftl x 1)) = crc_shift x (Z.testbit c k)).
  { unfold crc_shift. destruct (Z.testbit c k), (Z.testbit x 63); cbn [xorb negb]; rewrite ?Z.lxor_0_r; done. }
  cbv zeta in Hs |- *. rewrite Hs. rewrite Z.shiftl_mul_pow2 by lia. change (2 ^ k * 2 ^ 1) with (2 ^ k * 2). rewrite <- (Z.mul_comm 2), <- Z.pow_succ_r by lia.
  destruct (IH (Z.succ k) c (crc_shift x (Z.testbit c k))) as (y & Hy & Hw & Hr); [lia|lia|done|apply shift_word|].
  exists y. split; [exact Hy|]. split; [done|]. rewrite Hr, reflect_shift by done. replace (8 - k) with ((8 - Z.succ k) + 1) by lia. rewrite lfsr_n_add by lia. f_equal.
  assert (Hb : Z.land (Z.shiftr c k) (Z.ones 1) = b2z (Z.testbit c k)).
  { rewrite Z.land_ones by lia. change (2 ^ 1) with 2. rewrite <- Z.bit0_mod, Z.shiftr_spec, Z.add_0_l by lia. by destruct (Z.testbit c k). }
  change (lfsr_n 1 ?z) with (lfsr z). rewrite <- (split_low (Z.shiftr c k) 1) by lia. rewrite <- Z.lxor_assoc, (linear (f := lfsr) (Z.lxor _ _)), lfsr_shift, Z.shiftr_shiftr by lia.
  by rewrite Hb.
Qed.

Lemma land_word x : word x -> Z.land x 0xffffffffffffffff = x.
Proof. intros Hx. change 0xffffffffffffffff with (Z.ones 64). rewrite Z.land_ones by lia. by apply Z.mod_small. Qed.

Lemma crc_data_spec data : forall pre post x, bytes_ok data -> word x ->
  exists y, crc_data (length data) x (pre ++ data ++ post) (zlength pre) = Ok y /\ word y /\ reflect y = crc_ref (reflect x) data.
Proof.
  induction data as [|c data IH]; intros pre post x Hb Hx; [by exists x|]. apply Forall_cons_1 in Hb as [Hc Hb]. cbn [length crc_data app]. rewrite get1_app by done.
  destruct (crc_bits_spec 8 0 c x ltac:(lia) ltac:(lia) Hc Hx) as (y & Hy & Hw & Hr). change (u8 (2 ^ 0)) with 1 in Hy. rewrite Hy, land_word by done.
  destruct (IH (pre ++ [c]) post y Hb Hw) as (z & Hz & Hwz & Hrz). rewrite <- (assoc_L (++)), length_app, Nat2Z.inj_add in Hz. exists z. split; [exact Hz|]. split; [done|].
  rewrite Hrz, Hr, Z.shiftr_0_r. done.
Qed.

(** The generated function computes the checksum. *)
Lemma crc64_bits data post : bytes_ok data -> _crc64 0 (data ++ post) (zlength data) = Ok (crc_ref 0 data).
Proof.
  intros Hb. unfold _crc64. rewrite Nat2Z.id. destruct (crc_data_spec data [] post 0 Hb) as (y & Hy & Hw & Hr); [unfold word; pow_const; lia|].
  rewrite (Hy : crc_data (length data) 0 (data ++ post) 0 = Ok y), land_word, reflect_64, Z.lxor_0_r by done. by rewrite Hr.
Qed.

(** * The tables *)

Lemma fill_row_spec n f g : (forall i, 0 <= i < Z.of_nat n -> f i = Ok (g i)) -> fill_row n f = Ok (g <$> (Z.of_nat <$> seq 0 n)).
Proof.
  induction n as [|n IH]; intros Hf; [done|]. cbn [fill_row]. rewrite IH by (intros i Hi; apply Hf; lia). rewrite Hf by lia. by rewrite seq_S, !fmap_app.
Qed.

Lemma row_get (n : nat) (g : Z -> Z) i : 0 <= i < Z.of_nat n -> get1 i (g <$> (Z.of_nat <$> seq 0 n)) = Ok (g i).
Proof.
  intros Hi. apply get1_Ok. split; [lia|]. rewrite !list_lookup_fmap, lookup_seq_lt by lia. simpl. f_equal. f_equal. lia.
Qed.

(** The row of the table that shifts a byte by [n] bits. *)
Definition table_row (n : Z) : list Z := lfsr_n n <$> (Z.of_nat <$> seq 0 256).

Definition table_ok (table : list (list Z)) : Prop := forall k i, 0 <= k < 8 -> 0 <= i < 256 -> table_at table k i = Ok (lfsr_n (8 * (k + 1)) i).

Lemma land_255_range x : 0 <= Z.land x 255 < 256.
Proof. change 255 with (Z.ones 8). rewrite Z.land_ones by lia. apply Z.mod_pos_bound. lia. Qed.

Lemma nested_spec k : forall n, 0 <= n -> nested_rows k (table_row 8) (table_row n) = Ok ((fun j => table_row (n + 8 * (Z.of_nat j + 1))) <$> seq 0 k).
Proof.
  induction k as [|k IH]; intros n Hn; [done|]. cbn [nested_rows]. rewrite (fill_row_spec 256 _ (lfsr_n (n + 8))).
  2: { intros i Hi. unfold table_row. rewrite (row_get 256 (lfsr_n n)) by lia. rewrite (row_get 256 (lfsr_n 8)) by (pose proof (land_255_range (lfsr_n n i)); lia).
       by rewrite Z.add_comm, lfsr_n_add, (lfsr_8 (lfsr_n n i)) by lia. }
  fold (table_row (n + 8)). rewrite IH by lia. cbn [seq fmap list_fmap]. f_equal. f_equal. rewrite <- fmap_S_seq, <- list_fmap_compose.
  apply list_fmap_ext. intros i j _. cbn [compose]. f_equal. lia.
Qed.

Lemma crc64_init_spec : exists table, crc64_init = Ok table /\ table_ok table.
Proof.
  unfold crc64_init, crcspeed64little_init. rewrite (fill_row_spec 256 _ (lfsr_n 8)).
  2: { intros i Hi. rewrite u_id by (pow_const; lia). pose proof (crc64_bits [i] [] ltac:(by repeat constructor; lia)) as H. cbn [app] in H. change (zlength [i]) with 1 in H. rewrite H. change (crc_ref 0 [i]) with (lfsr_n 8 (Z.lxor 0 i)). by rewrite Z.lxor_0_l. }
  fold (table_row 8). rewrite nested_spec by lia. eexists. split; [done|]. intros k i Hk Hi. unfold table_at.
  assert (E : table_row 8 :: ((fun j => table_row (8 + 8 * (Z.of_nat j + 1))) <$> seq 0 7) = (fun j => table_row (8 * (Z.of_nat j + 1))) <$> seq 0 8).
  { cbn [seq fmap list_fmap]. done. }
  rewrite E. assert (get1 k ((fun j => table_row (8 * (Z.of_nat j + 1))) <$> seq 0 8) = Ok (table_row (8 * (k + 1)))) as ->.
  { apply get1_Ok. split; [lia|]. rewrite list_lookup_fmap, lookup_seq_lt by lia. simpl. do 2 f_equal. lia. }
  unfold table_row. by rewrite (row_get 256 (lfsr_n _)) by lia.
Qed.

(** * Matrices *)

(** The columns of the matrix are the images of the single bits. *)
Definition matrix (mat : list Z) (f : Z -> Z) : Prop := forall i, 0 <= i < 64 -> get1 i mat = Ok (f (2 ^ i)).

(** What a case of the switch adds. *)
Definition case_sum (idx : list Z) : Z := foldr (fun i a => Z.lxor (2 ^ i) a) 0 idx.

Lemma switch_sum v : 0 <= v < 16 -> case_sum (switch_case v) = v /\ Forall (fun i => 0 <= i < 4) (switch_case v).
Proof.
  intros Hv. assert (Hc : forallb (fun n => let v := Z.of_nat n in (case_sum (switch_case v) =? v) && forallb (fun i => (0 <=? i) && (i <? 4)) (switch_case v)) (seq 0 16) = true) by (by vm_compute).
  rewrite forallb_forall in Hc. specialize (Hc (Z.to_nat v) ltac:(apply in_seq; lia)). cbv zeta in Hc. rewrite Z2Nat.id in Hc by lia.
  apply andb_true_iff in Hc as [Hs%Z.eqb_eq Hf]. split; [done|]. apply list.Forall_forall. intros i Hi. rewrite forallb_forall in Hf. specialize (Hf i (proj1 (list_elem_of_In _ _) Hi)). lia.
Qed.

Lemma xor_words_spec mat f off idx : Linear f -> matrix mat f -> 0 <= off -> off + 4 <= 64 -> Forall (fun i => 0 <= i < 4) idx ->
  forall sum, xor_words mat off idx sum = Ok (Z.lxor sum (f (Z.shiftl (case_sum idx) off))).
Proof.
  intros Hf Hm H0 H64. induction idx as [|i idx IH]; intros Hi sum.
  { cbn [xor_words case_sum foldr]. by rewrite Z.shiftl_0_l, linear_0, Z.lxor_0_r. }
  apply Forall_cons_1 in Hi as [Hi Hidx]. cbn [xor_words case_sum foldr]. fold (case_sum idx). rewrite Hm by lia. rewrite IH by done.
  assert (Z.shiftl (2 ^ i) off = 2 ^ (off + i)) as E by (rewrite Z.shiftl_mul_pow2, <- Z.pow_add_r by lia; f_equal; lia).
  by rewrite Z.shiftl_lxor, Hf, E, Z.lxor_assoc.
Qed.

Lemma times_spec mat f vec : Linear f -> matrix mat f -> word vec -> gf2_matrix_times_switch mat vec = Ok (f vec).
Proof.
  intros Hf Hm Hv. assert (Hgen : forall fuel off v sum, 4 * Z.of_nat fuel + off = 64 -> 0 <= off -> 0 <= v < 2 ^ (4 * Z.of_nat fuel) ->
    times_loop fuel mat off v sum = Ok (Z.lxor sum (f (Z.shiftl v off)))).
  { induction fuel as [|fuel IH]; intros off v sum Hfu H0 Hr.
    { assert (v = 0) as -> by (simpl in Hr; lia). cbn [times_loop Z.eqb]. by rewrite Z.shiftl_0_l, linear_0, Z.lxor_0_r. }
    cbn [times_loop]. destruct (Z.eqb_spec v 0) as [->|Hne]; [by rewrite Z.shiftl_0_l, linear_0, Z.lxor_0_r|].
    assert (Hl : 0 <= Z.land v 15 < 16) by (change 15 with (Z.ones 4); rewrite Z.land_ones by lia; apply Z.mod_pos_bound; lia).
    destruct (switch_sum (Z.land v 15) Hl) as [Hs Hi]. rewrite (xor_words_spec mat f off _ Hf Hm H0 ltac:(lia) Hi), Hs.
    rewrite IH; [|lia|lia|].
    - rewrite Z.lxor_assoc. do 2 f_equal. rewrite <- Hf. f_equal. rewrite (Z.add_comm off), <- Z.shiftl_shiftl by lia. rewrite <- Z.shiftl_lxor. f_equal. by apply (split_low v 4).
    - rewrite Z.shiftr_div_pow2 by lia. replace (4 * Z.of_nat (S fuel)) with (4 + 4 * Z.of_nat fuel) in Hr by lia. rewrite Z.pow_add_r in Hr by lia.
      split; [apply Z.div_pos; lia|apply Z.div_lt_upper_bound; lia]. }
  unfold gf2_matrix_times_switch. rewrite (Hgen 16%nat 0 vec 0); [|lia|lia|exact Hv]. by rewrite Z.lxor_0_l, Z.shiftl_0_r.
Qed.

Lemma bit_word i : 0 <= i < 64 -> word (2 ^ i).
Proof. intros Hi. split; [lia|]. apply Z.pow_lt_mono_r; lia. Qed.

Lemma square_spec mat n : 0 <= n -> matrix mat (lfsr_n n) -> exists sq, gf2_matrix_square mat 64 = Ok sq /\ matrix sq (lfsr_n (2 * n)).
Proof.
  intros Hn Hm. unfold gf2_matrix_square. rewrite (fill_row_spec (Z.to_nat 64) _ (fun i => lfsr_n (2 * n) (2 ^ i))).
  - eexists. split; [done|]. intros i Hi. by rewrite (row_get (Z.to_nat 64) (fun i => lfsr_n (2 * n) (2 ^ i))) by lia.
  - intros i Hi. rewrite Hm by lia. rewrite (times_spec mat (lfsr_n n)); [|apply _|done|apply lfsr_n_word, bit_word; lia].
    replace (2 * n) with (n + n) by lia. by rewrite lfsr_n_add by lia.
Qed.
