(* ===== verification/Crc64Spec.v ===== *)
(** Checksums of saved values: crc64 computes the checksum that the generated function
    _crc64 defines, for every length, alignment and choice of cutoffs, whatever calls came
    before; and a change of at most eight bytes in a row changes the checksum. *)

From stdpp Require Import list.
From S2P Require Import Prelude Machine Gf2 Crc64 Crc64Inv.

(** * The cache of matrices *)

Definition cache_ok (cache : list (list Z)) : Prop :=
  length cache = 64%nat /\ forall k, 0 <= k < 64 -> exists mat, get1 k cache = Ok mat /\ matrix mat (lfsr_n (8 * 2 ^ k)).

(** The cache is filled or has not been used. *)
Definition cache_inv (cache : list (list Z)) : Prop := cache = combine_cache_zero \/ cache_ok cache.

Lemma set_get {A} (l : list A) i x : 0 <= i < zlength l -> exists l', set1 i x l = Ok l' /\ length l' = length l /\
  get1 i l' = Ok x /\ forall j, j <> i -> get1 j l' = get1 j l.
Proof.
  intros Hi. rewrite set1_insert by lia. eexists. split; [done|]. split; [apply length_insert|]. split.
  - apply get1_Ok. split; [lia|]. apply list_lookup_insert_eq. lia.
  - intros j Hj. unfold get1. destruct (Z.ltb_spec j 0); [done|]. by rewrite list_lookup_insert_ne by lia.
Qed.

Lemma cache_loop_spec n : forall cache j prev mat, Z.of_nat n = 64 - j -> 0 <= j < 64 -> length cache = 64%nat -> get1 (j + prev) cache = Ok mat -> matrix mat (lfsr_n (4 * 2 ^ j)) ->
  (forall k, 0 <= k < j -> exists mat, get1 k cache = Ok mat /\ matrix mat (lfsr_n (8 * 2 ^ k))) ->
  exists cache', cache_loop n cache j prev 64 = Ok cache' /\ cache_ok cache'.
Proof.
  induction n as [|n IH]; intros cache j prev mat Hn Hj Hl Hg Hm Hk; [lia|]. cbn [cache_loop]. rewrite Hg.
  destruct (square_spec mat (4 * 2 ^ j) ltac:(lia) Hm) as (sq & -> & Hsq). replace (2 * (4 * 2 ^ j)) with (8 * 2 ^ j) in Hsq by lia.
  destruct (set_get cache j sq ltac:(lia)) as (c' & -> & Hl' & Hj' & Hne).
  assert (Hk' : forall k, 0 <= k < j + 1 -> exists mat, get1 k c' = Ok mat /\ matrix mat (lfsr_n (8 * 2 ^ k))).
  { intros k Hkr. destruct (decide (k = j)) as [->|]; [by exists sq|]. destruct (Hk k ltac:(lia)) as (mk & Hmk & ?). exists mk. by rewrite Hne. }
  destruct (Z.ltb_spec (j + 1) 64).
  - apply (IH c' (j + 1) (-1) sq); [lia|lia|lia|by replace (j + 1 + -1) with j by lia| |done]. replace (4 * 2 ^ (j + 1)) with (8 * 2 ^ j) by (rewrite Z.pow_add_r by lia; lia). done.
  - exists c'. split; [done|]. split; [lia|]. intros k Hkr. apply Hk'. lia.
Qed.

Lemma one_bit i : 0 <= i < 64 -> (if i =? 0 then CRC64_REVERSED_POLY else u64 (Z.shiftl 1 (i - 1))) = lfsr (2 ^ i).
Proof.
  intros Hi. destruct (Z.eqb_spec i 0) as [->|Hne]; [done|]. rewrite Z.shiftl_1_l, u_id by (apply bit_word; lia).
  assert (2 ^ i = Z.shiftl (2 ^ (i - 1)) 1) as -> by (rewrite Z.shiftl_mul_pow2, <- Z.pow_add_r by lia; f_equal; lia). by rewrite lfsr_shift.
Qed.

Lemma init_cache : exists cache, init_combine_cache combine_cache_zero CRC64_REVERSED_POLY 64 = Ok cache /\ cache_ok cache.
Proof.
  unfold init_combine_cache. rewrite (fill_row_spec (Z.to_nat 64) _ (fun i => lfsr_n 1 (2 ^ i))) by (intros i Hi; f_equal; apply one_bit; lia).
  set (one := _ <$> _). assert (H1 : matrix one (lfsr_n 1)) by (intros i Hi; by apply (row_get (Z.to_nat 64) (fun i => lfsr_n 1 (2 ^ i)))).
  destruct (set_get combine_cache_zero 1 one ltac:(by vm_compute)) as (ca & -> & Hla & _ & _).
  destruct (square_spec one 1 ltac:(lia) H1) as (c0 & -> & Hc0). destruct (set_get ca 0 c0 ltac:(rewrite Hla; by vm_compute)) as (cb & -> & Hlb & _ & _).
  destruct (square_spec c0 2 ltac:(lia) Hc0) as (c1 & -> & Hc1). destruct (set_get cb 1 c1 ltac:(rewrite Hlb, Hla; by vm_compute)) as (cc & -> & Hlc & Hg1 & _).
  apply (cache_loop_spec 64 cc 0 1 c1); [done|lia|by rewrite Hlc, Hlb, Hla|done|done|lia].
Qed.

Lemma combine_loop_spec cache fuel : cache_ok cache -> forall j len2 c, Z.of_nat fuel = 64 - j -> 0 <= j < 64 -> 0 <= len2 < 2 ^ (64 - j) -> word c ->
  combine_loop fuel cache j len2 c = Ok (lfsr_n (8 * 2 ^ j * len2) c).
Proof.
  intros [_ Hc]. induction fuel as [|fuel IH]; intros j len2 c Hf Hj Hl Hw; [lia|]. cbn [combine_loop].
  pose proof (Z.div_mod len2 2 ltac:(lia)) as Hdm. pose proof (Z.mod_pos_bound len2 2 ltac:(lia)) as Hmb.
  assert (Z.land len2 1 = len2 mod 2) as -> by (change 1 with (Z.ones 1); by rewrite Z.land_ones by lia). rewrite Z.shiftr_div_pow2 by lia. change (2 ^ 1) with 2.
  pose proof (Z.pow_pos_nonneg 2 j ltac:(lia) ltac:(lia)) as Hp.
  assert ((if negb (len2 mod 2 =? 0) then let! mat := get1 j cache in gf2_matrix_times_switch mat c else Ok c) = Ok (lfsr_n (8 * 2 ^ j * (len2 mod 2)) c)) as ->.
  { destruct (Z.eqb_spec (len2 mod 2) 0) as [->|Hne]; cbn [negb]; [by rewrite Z.mul_0_r|]. destruct (Hc j Hj) as (mat & -> & Hm).
    rewrite (times_spec mat _ c _ Hm Hw). replace (len2 mod 2) with 1 by lia. by rewrite Z.mul_1_r. }
  assert (Hsum : lfsr_n (8 * 2 ^ j * len2) c = lfsr_n (8 * 2 ^ j * (2 * (len2 / 2))) (lfsr_n (8 * 2 ^ j * (len2 mod 2)) c)).
  { assert (0 <= len2 / 2) by (apply Z.div_pos; lia). rewrite <- lfsr_n_add by nia. f_equal. rewrite Hdm at 1. lia. }
  rewrite Hsum. destruct (Z.eqb_spec (len2 / 2) 0) as [->|Hne]; cbn [negb]; [by rewrite !Z.mul_0_r|].
  assert (j < 63).
  { destruct (Z.lt_ge_cases j 63); [done|]. assert (j = 63) as -> by lia. change (2 ^ (64 - 63)) with 2 in Hl. rewrite Z.div_small in Hne by lia. done. }
  assert (Z.land (j + 1) 63 = j + 1) as ->.
  { change 63 with (Z.ones 6). rewrite Z.land_ones by lia. apply Z.mod_small. change (2 ^ 6) with 64. lia. }
  rewrite (IH (j + 1)); [|lia|lia| |by apply lfsr_n_word].
  - do 2 f_equal. rewrite Z.pow_add_r by lia. lia.
  - replace (64 - j) with (64 - (j + 1) + 1) in Hl by lia. rewrite (Z.pow_add_r 2 _ 1) in Hl by lia. split; [apply Z.div_pos; lia|apply Z.div_lt_upper_bound; lia].
Qed.

Lemma combine_spec cache crc1 crc2 len2 : cache_inv cache -> word crc1 -> 0 <= len2 < 2 ^ 64 -> (len2 = 0 -> crc2 = 0) ->
  exists cache', crc64_combine cache crc1 crc2 len2 CRC64_REVERSED_POLY 64 = Ok (Z.lxor (lfsr_n (8 * len2) crc1) crc2, cache') /\ cache_inv cache'.
Proof.
  intros Hc Hw Hl H0. unfold crc64_combine. destruct (Z.eqb_spec len2 0) as [->|Hne]; [exists cache; rewrite H0 by done; by rewrite Z.lxor_0_r|].
  assert (Hcache : exists cache', (let! c0 := get1 0 cache in let! c00 := get1 0 c0 in if c00 =? 0 then init_combine_cache cache CRC64_REVERSED_POLY 64 else Ok cache) = Ok cache' /\ cache_ok cache').
  { destruct Hc as [->|Hc].
    - destruct init_cache as (cache' & Hi & Hok). exists cache'. split; [|done]. rewrite <- Hi. reflexivity.
    - exists cache. split; [|done]. destruct (proj2 Hc 0 ltac:(lia)) as (mat & -> & Hm). rewrite (Hm 0) by lia. done. }
  destruct Hcache as (cache' & Hi & Hok). destruct (get1 0 cache) as [c0|]; [|done]. destruct (get1 0 c0) as [c00|]; [|done]. cbn iota beta in Hi |- *. rewrite Hi.
  rewrite (combine_loop_spec cache' 64 Hok 0 len2 crc1) by (done || lia). exists cache'. split; [|by right]. change (8 * 2 ^ 0) with 8. done.
Qed.

(** * The loops *)

Section Speed.
Context (table : list (list Z)) (buf : list Z) (Htable : table_ok table) (Hbuf : bytes_ok buf).

(** [n] bytes of the buffer from [next]. *)
Definition part (next n : Z) : list Z := take (Z.to_nat n) (drop (Z.to_nat next) buf).

Lemma part_bytes next n : bytes_ok (part next n).
Proof. by apply Forall_take, Forall_drop. Qed.

Lemma part_length next n : 0 <= next -> 0 <= n -> next + n <= zlength buf -> zlength (part next n) = n.
Proof. intros H0 Hn Hl. unfold part. rewrite length_take, length_drop. lia. Qed.

Lemma part_app next a b : 0 <= next -> 0 <= a -> 0 <= b -> part next (a + b) = part next a ++ part (next + a) b.
Proof. intros H0 Ha Hb. unfold part. rewrite !Z2Nat.inj_add, <- drop_drop by lia. by rewrite <- (take_take_drop (drop (Z.to_nat next) buf)). Qed.

Lemma part_0 next : part next 0 = [].
Proof. done. Qed.

Lemma byte_spec crc next : 0 <= next < zlength buf -> crc_byte table buf crc next = Ok (crc_ref crc (part next 1)).
Proof.
  intros Hn. unfold crc_byte. destruct (get1_in buf next Hn) as (b & Hb). rewrite Hb. apply get1_Ok in Hb as [_ Hl].
  pose proof (Forall_lookup_1 _ _ _ _ Hbuf Hl) as Hr. cbn beta in Hr. rewrite Htable by (lia || apply land_255_range). change (8 * (0 + 1)) with 8.
  unfold part. erewrite drop_S by exact Hl. change (take (Z.to_nat 1) (b :: drop (S (Z.to_nat next)) buf)) with [b]. change (crc_ref crc [b]) with (lfsr_n 8 (Z.lxor crc b)).
  rewrite (lfsr_8 (Z.lxor crc b)), (Z.shiftr_lxor crc b 8), (Z.shiftr_div_pow2 b), (Z.div_small b) by (pow_const; lia). by rewrite Z.lxor_0_r.
Qed.

(** Eight bytes by the eight tables. *)
Lemma fold_8 x k : 0 <= k -> lfsr_n (8 * (k + 1)) x = Z.lxor (lfsr_n (8 * (k + 1)) (u8 x)) (lfsr_n (8 * k) (Z.shiftr x 8)).
Proof.
  intros Hk. replace (8 * (k + 1)) with (8 * k + 8) by lia. rewrite !lfsr_n_add by lia. rewrite (lfsr_8 x), (linear (f := lfsr_n (8 * k))).
  do 2 f_equal. change 255 with (Z.ones 8). unfold u. by rewrite Z.land_ones by lia.
Qed.

Lemma do_8_2 x : word x -> DO_8_2 table x = Ok (lfsr_n 64 x).
Proof.
  intros Hx. unfold DO_8_2. assert (Hu : forall z, 0 <= u8 z < 256) by (intros z; apply (u_range 8); lia).
  assert (H56 : u8 (Z.shiftr x 56) = Z.shiftr x 56).
  { apply u_id. rewrite Z.shiftr_div_pow2 by lia. destruct Hx. split; [apply Z.div_pos; lia|apply Z.div_lt_upper_bound; pow_const; lia]. }
  rewrite <- H56. rewrite !Htable by (lia || apply Hu). f_equal.
  assert (Hs : forall k m, 0 <= k -> 0 <= m -> lfsr_n (8 * (k + 1)) (Z.shiftr x m) = Z.lxor (lfsr_n (8 * (k + 1)) (u8 (Z.shiftr x m))) (lfsr_n (8 * k) (Z.shiftr x (m + 8)))).
  { intros k m Hk Hm. rewrite (fold_8 _ k) by lia. by rewrite Z.shiftr_shiftr by lia. }
  pose proof (Hs 7 0 ltac:(lia) ltac:(lia)) as E7. rewrite Z.shiftr_0_r in E7. change (8 * (7 + 1)) with 64 in *. rewrite E7.
  rewrite (Hs 6 8 ltac:(lia) ltac:(lia) : lfsr_n (8 * 7) (Z.shiftr x (0 + 8)) = _),
    (Hs 5 16 ltac:(lia) ltac:(lia) : lfsr_n (8 * 6) (Z.shiftr x (8 + 8)) = _),
    (Hs 4 24 ltac:(lia) ltac:(lia) : lfsr_n (8 * 5) (Z.shiftr x (16 + 8)) = _),
    (Hs 3 32 ltac:(lia) ltac:(lia) : lfsr_n (8 * 4) (Z.shiftr x (24 + 8)) = _),
    (Hs 2 40 ltac:(lia) ltac:(lia) : lfsr_n (8 * 3) (Z.shiftr x (32 + 8)) = _),
    (Hs 1 48 ltac:(lia) ltac:(lia) : lfsr_n (8 * 2) (Z.shiftr x (40 + 8)) = _),
    (Hs 0 56 ltac:(lia) ltac:(lia) : lfsr_n (8 * 1) (Z.shiftr x (48 + 8)) = _).
  assert (Z.shiftr x (56 + 8) = 0) as -> by (rewrite Z.shiftr_div_pow2 by lia; by apply Z.div_small).
  rewrite lfsr_n_0, Z.lxor_0_r, !Z.lxor_assoc. done.
Qed.

Lemma do_8 crc next : word crc -> 0 <= next -> next + 8 <= zlength buf ->
  (let! crc := DO_8_1 buf crc next in DO_8_2 table crc) = Ok (crc_ref crc (part next 8)).
Proof.
  intros Hw H0 Hl. unfold DO_8_1. assert (load next 8 buf = Ok (part next 8)) as ->.
  { unfold load, part. rewrite (proj2 (Z.leb_le 0 next)), (proj2 (Z.leb_le (next + 8) _)) by lia. done. }
  pose proof (le_dec_range (part next 8) (part_bytes next 8)) as Hr. pose proof (part_length next 8 H0 ltac:(lia) Hl) as Hp. rewrite Hp in Hr.
  rewrite do_8_2 by (apply lxor_range; [lia|done|exact Hr]). rewrite crc_ref_power by apply part_bytes. by rewrite Hp.
Qed.

Lemma ref_word crc next n : word crc -> word (crc_ref crc (part next n)).
Proof. intros Hw. apply crc_ref_word; [done|apply part_bytes]. Qed.

Lemma align_spec fuel addr : forall crc next len, Z.of_nat fuel = len -> 0 <= next -> next + len <= zlength buf ->
  exists n, align_loop table buf fuel addr crc next len = Ok (next + n, len - n, crc_ref crc (part next n)) /\ 0 <= n <= len.
Proof.
  induction fuel as [|fuel IH]; intros crc next len Hf H0 Hl; cbn [align_loop].
  { assert (len = 0) as -> by lia. exists 0. rewrite Z.add_0_r. by split. }
  destruct (_ && _) eqn:Ec; [|exists 0; rewrite Z.add_0_r, Z.sub_0_r; split; [done|lia]]. rewrite byte_spec by lia.
  destruct (IH (crc_ref crc (part next 1)) (next + 1) (len - 1)) as (n & Ha & Hn); [lia..|]. exists (1 + n). split; [|lia].
  rewrite Ha, part_app, crc_ref_app by lia. do 2 f_equal. f_equal; lia.
Qed.

Lemma byte_loop_spec fuel : forall crc next len, Z.of_nat fuel = len -> 0 <= next -> next + len <= zlength buf ->
  byte_loop table buf fuel crc next len = Ok (crc_ref crc (part next len)).
Proof.
  induction fuel as [|fuel IH]; intros crc next len Hf H0 Hl; cbn [byte_loop].
  { assert (len = 0) as -> by lia. done. }
  rewrite (proj2 (Z.eqb_neq len 0)) by lia. cbn [negb]. rewrite byte_spec, IH by lia.
  replace len with (1 + (len - 1)) at 2 by lia. by rewrite part_app, crc_ref_app by lia.
Qed.

Lemma loop8_spec fuel : forall crc next len, len <= Z.of_nat fuel -> 0 <= len -> word crc -> 0 <= next -> next + len <= zlength buf ->
  exists n, loop8 table buf fuel crc next len = Ok (next + n, len - n, crc_ref crc (part next n)) /\ 0 <= n <= len /\ (len mod 8 = 0 -> n = len).
Proof.
  induction fuel as [|fuel IH]; intros crc next len Hf H0 Hw Hn Hl; cbn [loop8]; rewrite Z.geb_leb.
  { assert (len = 0) as -> by lia. exists 0. rewrite Z.add_0_r. split; [done|lia]. }
  destruct (Z.leb_spec 8 len) as [H8|H8].
  - pose proof (do_8 crc next Hw Hn ltac:(lia)) as Hd. destruct (DO_8_1 buf crc next) as [c1|]; [|done]. rewrite Hd.
    destruct (IH (crc_ref crc (part next 8)) (next + 8) (len - 8)) as (n & Ha & Hr & Hm); [lia|lia|by apply ref_word|lia|lia|].
    exists (8 + n). split; [|split; [lia|intros Hmod; rewrite Hm; [lia|]; Z.to_euclidean_division_equations; lia]].
    rewrite Ha, part_app, crc_ref_app by lia. do 2 f_equal. f_equal; lia.
  - exists 0. rewrite Z.add_0_r, Z.sub_0_r. split; [done|]. split; [lia|]. intros Hm. rewrite Z.mod_small in Hm; lia.
Qed.

Lemma ref_step c n len : 0 <= n -> 8 <= len -> crc_ref c (part n len) = crc_ref (crc_ref c (part n 8)) (part (n + 8) (len - 8)).
Proof. intros Hn Hl. replace len with (8 + (len - 8)) at 1 by lia. by rewrite part_app, crc_ref_app by lia. Qed.

(** Two and three parts of the same length. *)
Lemma loop16_spec fuel : forall c1 c2 n1 n2 len, len <= Z.of_nat fuel -> 0 <= len -> len mod 8 = 0 -> word c1 -> word c2 ->
  0 <= n1 -> n1 + len <= zlength buf -> 0 <= n2 -> n2 + len <= zlength buf ->
  loop16 table buf fuel c1 c2 n1 n2 len = Ok (n1 + len, n2 + len, crc_ref c1 (part n1 len), crc_ref c2 (part n2 len)).
Proof.
  induction fuel as [|fuel IH]; intros c1 c2 n1 n2 len Hf H0 Hm Hw1 Hw2 H1 Hl1 H2 Hl2; cbn [loop16]; rewrite Z.geb_leb.
  { assert (len = 0) as -> by lia. by rewrite !Z.add_0_r. }
  destruct (Z.leb_spec 8 len) as [H8|H8]; [|rewrite Z.mod_small in Hm by lia; subst len; by rewrite !Z.add_0_r].
  pose proof (do_8 c1 n1 Hw1 H1 ltac:(lia)) as Hd1. destruct (DO_8_1 buf c1 n1) as [x1|]; [|done].
  pose proof (do_8 c2 n2 Hw2 H2 ltac:(lia)) as Hd2. destruct (DO_8_1 buf c2 n2) as [x2|]; [|done]. rewrite Hd1, Hd2.
  rewrite IH; [|lia|lia|Z.to_euclidean_division_equations; lia|by apply ref_word|by apply ref_word|lia..].
  rewrite !(ref_step _ _ len) by lia. do 2 f_equal. f_equal. f_equal; lia.
Qed.

Lemma loop24_spec fuel : forall c1 c2 c3 n1 n2 n3 len, len <= Z.of_nat fuel -> 0 <= len -> len mod 8 = 0 -> word c1 -> word c2 -> word c3 ->
  0 <= n1 -> n1 + len <= zlength buf -> 0 <= n2 -> n2 + len <= zlength buf -> 0 <= n3 -> n3 + len <= zlength buf ->
  loop24 table buf fuel c1 c2 c3 n1 n2 n3 len =
    Ok (n1 + len, n2 + len, n3 + len, crc_ref c1 (part n1 len), crc_ref c2 (part n2 len), crc_ref c3 (part n3 len)).
Proof.
  induction fuel as [|fuel IH]; intros c1 c2 c3 n1 n2 n3 len Hf H0 Hm Hw1 Hw2 Hw3 H1 Hl1 H2 Hl2 H3 Hl3; cbn [loop24]; rewrite Z.geb_leb.
  { assert (len = 0) as -> by lia. by rewrite !Z.add_0_r. }
  destruct (Z.leb_spec 8 len) as [H8|H8]; [|rewrite Z.mod_small in Hm by lia; subst len; by rewrite !Z.add_0_r].
  pose proof (do_8 c1 n1 Hw1 H1 ltac:(lia)) as Hd1. destruct (DO_8_1 buf c1 n1) as [x1|]; [|done].
  pose proof (do_8 c2 n2 Hw2 H2 ltac:(lia)) as Hd2. destruct (DO_8_1 buf c2 n2) as [x2|]; [|done].
  pose proof (do_8 c3 n3 Hw3 H3 ltac:(lia)) as Hd3. destruct (DO_8_1 buf c3 n3) as [x3|]; [|done]. rewrite Hd1, Hd2, Hd3.
  rewrite IH; [|lia|lia|Z.to_euclidean_division_equations; lia|by apply ref_word|by apply ref_word|by apply ref_word|lia..].
  rewrite !(ref_step _ _ len) by lia. replace (n1 + 8 + (len - 8)) with (n1 + len) by lia.
  replace (n2 + 8 + (len - 8)) with (n2 + len) by lia. by replace (n3 + 8 + (len - 8)) with (n3 + len) by lia.
Qed.

(** The length of a part is a multiple of 8. *)
Lemma len_mask n : 0 <= n < 2 ^ 63 -> Z.land n CRC64_LEN_MASK = 8 * (n / 8).
Proof.
  intros Hn. change CRC64_LEN_MASK with (Z.shiftl (Z.ones 60) 3). 
  assert (Z.land n (Z.shiftl (Z.ones 60) 3) = Z.shiftl (Z.land (Z.shiftr n 3) (Z.ones 60)) 3) as E.
  { apply Z.bits_inj'. intros i Hi. rewrite Z.land_spec. destruct (Z.lt_ge_cases i 3); [by rewrite !Z.shiftl_spec_low, andb_false_r by lia|].
    rewrite !Z.shiftl_spec, Z.land_spec, Z.shiftr_spec, Z.sub_add by lia. done. }
  rewrite E. rewrite Z.land_ones, Z.shiftl_mul_pow2, Z.shiftr_div_pow2 by lia. change (2 ^ 3) with 8. rewrite Z.mod_small; [lia|].
  pow_const. split; [apply Z.div_pos; lia|apply Z.div_lt_upper_bound; lia].
Qed.

Lemma ref_combine c next a b : 0 <= next -> 0 <= a -> 0 <= b -> next + a + b <= zlength buf ->
  Z.lxor (lfsr_n (8 * b) (crc_ref c (part next a))) (crc_ref 0 (part (next + a) b)) = crc_ref c (part next (a + b)).
Proof.
  intros H0 Ha Hb Hl. rewrite part_app, crc_ref_app, (crc_ref_combine (crc_ref c (part next a)) (part (next + a) b)) by (lia || apply part_bytes).
  by rewrite part_length by lia.
Qed.

(** What a split leaves: [n] bytes are done. *)
Definition split_done (crc1 next1 len : Z) (r : res (Z * Z * Z * list (list Z))) : Prop :=
  exists n cache, r = Ok (next1 + n, len - n, crc_ref crc1 (part next1 n), cache) /\ cache_inv cache /\ 0 <= n <= len.

Lemma split3_spec cache crc1 next1 len : cache_inv cache -> word crc1 -> 0 <= next1 -> 0 <= len < 2 ^ 63 -> next1 + len <= zlength buf ->
  split_done crc1 next1 len (split3 table buf cache crc1 next1 len).
Proof.
  intros Hc Hw H0 Hn Hl. unfold split3. assert (Hd : 0 <= len / 3 < 2 ^ 63) by (Z.to_euclidean_division_equations; pow_const; lia).
  rewrite len_mask by done. set (p := 8 * (len / 3 / 8)). assert (Hp : 0 <= 3 * p <= len /\ p mod 8 = 0) by (subst p; Z.to_euclidean_division_equations; lia).
  clearbody p. assert (Hw0 : word 0) by (split; pow_const; lia). assert (Hp64 : 0 <= p < 2 ^ 64) by (pow_const; lia).
  cbv zeta. replace (next1 + p - next1) with p by lia. rewrite (loop24_spec (Z.to_nat p)) by (done || lia). replace (next1 + p + p - (next1 + p)) with p by lia.
  assert (Hz : forall q, p = 0 -> crc_ref 0 (part q p) = 0) by (by intros q ->).
  destruct (combine_spec cache (crc_ref crc1 (part next1 p)) (crc_ref 0 (part (next1 + p) p)) p Hc (ref_word _ _ _ Hw) Hp64 (Hz _)) as (ca & -> & Hca).
  rewrite ref_combine by lia.
  destruct (combine_spec ca (crc_ref crc1 (part next1 (p + p))) (crc_ref 0 (part (next1 + p + p) p)) p Hca (ref_word _ _ _ Hw) Hp64 (Hz _)) as (cb & -> & Hcb).
  rewrite <- (Z.add_assoc next1 p p), ref_combine by lia. exists (p + p + p), cb. split; [do 4 f_equal; lia|]. split; [done|lia].
Qed.

Lemma split2_spec cache crc1 next1 len : cache_inv cache -> word crc1 -> 0 <= next1 -> 0 <= len < 2 ^ 63 -> next1 + len <= zlength buf ->
  split_done crc1 next1 len (split2 table buf cache crc1 next1 len).
Proof.
  intros Hc Hw H0 Hn Hl. unfold split2. assert (Hd : 0 <= len / 2 < 2 ^ 63) by (Z.to_euclidean_division_equations; pow_const; lia).
  rewrite len_mask by done. set (p := 8 * (len / 2 / 8)). assert (Hp : 0 <= 2 * p <= len /\ p mod 8 = 0) by (subst p; Z.to_euclidean_division_equations; lia).
  clearbody p. assert (Hw0 : word 0) by (split; pow_const; lia). assert (Hp64 : 0 <= p < 2 ^ 64) by (pow_const; lia).
  cbv zeta. replace (next1 + p - next1) with p by lia. rewrite (loop16_spec (Z.to_nat p)) by (done || lia). replace (next1 + p + p - (next1 + p)) with p by lia.
  assert (Hz : forall q, p = 0 -> crc_ref 0 (part q p) = 0) by (by intros q ->).
  destruct (combine_spec cache (crc_ref crc1 (part next1 p)) (crc_ref 0 (part (next1 + p) p)) p Hc (ref_word _ _ _ Hw) Hp64 (Hz _)) as (ca & -> & Hca).
  rewrite ref_combine by lia. exists (p + p), ca. split; [do 4 f_equal; lia|]. split; [done|lia].
Qed.

Lemma crcspeed_spec cache dual tri addr crc1 len : cache_inv cache -> word crc1 -> 0 <= len < 2 ^ 63 -> len <= zlength buf ->
  exists cache', crcspeed64little table buf cache dual tri addr crc1 len = Ok (crc_ref crc1 (part 0 len), cache') /\ cache_inv cache'.
Proof.
  intros Hc Hw Hn Hl. unfold crcspeed64little. destruct (dual <? 1); [rewrite byte_loop_spec by lia; by exists cache|].
  destruct (align_spec (Z.to_nat len) addr crc1 0 len) as (n & -> & Hnr); [lia..|].
  assert (Hs : split_done (crc_ref crc1 (part 0 n)) (0 + n) (len - n) (if len - n >? tri then split3 table buf cache (crc_ref crc1 (part 0 n)) (0 + n) (len - n)
     else if len - n >? dual then split2 table buf cache (crc_ref crc1 (part 0 n)) (0 + n) (len - n) else Ok (0 + n, len - n, crc_ref crc1 (part 0 n), cache))).
  { pose proof (ref_word crc1 0 n Hw). destruct (_ >? _); [apply split3_spec; (done || lia)|]. destruct (_ >? _); [apply split2_spec; (done || lia)|].
    exists 0, cache. rewrite Z.add_0_r, Z.sub_0_r. split; [done|]. split; [done|lia]. }
  destruct Hs as (m & ca & -> & Hca & Hm). rewrite <- crc_ref_app, <- part_app by lia.
  destruct (loop8_spec (Z.to_nat (len - n - m)) (crc_ref crc1 (part 0 (n + m))) (0 + n + m) (len - n - m)) as (k & -> & Hk & _); [lia|lia|by apply ref_word|lia|lia|].
  rewrite <- Z.add_assoc, <- crc_ref_app, <- part_app by lia. rewrite byte_loop_spec by lia.
  rewrite <- (Z.add_assoc 0 (n + m) k), <- crc_ref_app, <- part_app by lia. exists ca. split; [|done]. do 4 f_equal. lia.
Qed.
End Speed.

(** * Detection of errors *)

Lemma lfsr_zero z : word z -> lfsr z = 0 -> z = 0.
Proof.
  intros [H0 Hz]. unfold lfsr. intros E%Z.lxor_eq. rewrite Z.shiftr_div_pow2 in E by lia. change (2 ^ 1) with 2 in E.
  pose proof (Z.bit0_mod z) as Hb. destruct (Z.testbit z 0); cbn [Z.b2z] in Hb.
  - assert (z / 2 < 2 ^ 63) by (apply Z.div_lt_upper_bound; pow_const; lia). unfold CRC64_REVERSED_POLY in E. pow_const. lia.
  - pose proof (Z.div_mod z 2 ltac:(lia)). lia.
Qed.

(** The register can be run backwards. *)
Lemma lfsr_n_inj n x y : word x -> word y -> lfsr_n n x = lfsr_n n y -> x = y.
Proof.
  intros Hx Hy E. apply Z.lxor_eq. assert (Hz : word (Z.lxor x y)) by (apply lxor_range; [lia|done..]).
  apply (f_equal (Z.lxor (lfsr_n n x))) in E. rewrite Z.lxor_nilpotent, <- (linear (f := lfsr_n n)) in E. symmetry in E.
  revert Hz E. generalize (Z.lxor x y). unfold lfsr_n. induction (Z.to_nat n) as [|k IH]; [done|]. intros z Hz E. apply IH; [done|].
  apply lfsr_zero; [by apply (lfsr_n_word (Z.of_nat k)) in Hz; unfold lfsr_n in Hz; rewrite Nat2Z.id in Hz|done].
Qed.

Lemma lxor_inj c x y : Z.lxor c x = Z.lxor c y -> x = y.
Proof. intros E. apply (f_equal (Z.lxor c)) in E. by rewrite <- !Z.lxor_assoc, Z.lxor_nilpotent, !Z.lxor_0_l in E. Qed.

Lemma crc_ref_inj c bs bs' : word c -> bytes_ok bs -> bytes_ok bs' -> length bs = length bs' -> zlength bs <= 8 -> crc_ref c bs = crc_ref c bs' -> bs = bs'.
Proof.
  intros Hc Hb Hb' Hl H8. rewrite !crc_ref_power, <- Hl by done. assert (Hd : forall l, bytes_ok l -> length l = length bs -> word (le_dec l)).
  { intros l Hlb Hll. pose proof (le_dec_range l Hlb) as Hr. rewrite Hll in Hr. unfold word. split; [lia|].
    apply Z.lt_le_trans with (1 := proj2 Hr). apply Z.pow_le_mono_r; lia. }
  intros E%lfsr_n_inj; [|apply lxor_range; [lia|done|by apply Hd]..]. apply lxor_inj in E.
  rewrite <- (le_enc_dec bs), <- (le_enc_dec bs') by done. by rewrite E, Hl.
Qed.

(** Replacing at most eight bytes in a row changes the checksum. *)
Lemma crc_ref_burst c a w w' t : word c -> bytes_ok (a ++ w ++ t) -> bytes_ok w' -> length w = length w' -> zlength w <= 8 ->
  crc_ref c (a ++ w ++ t) = crc_ref c (a ++ w' ++ t) -> w = w'.
Proof.
  intros Hc (Ha & (Hw & Ht)%Forall_app)%Forall_app Hw' Hl H8. rewrite !crc_ref_app.
  assert (Hca : word (crc_ref c a)) by (by apply crc_ref_word). rewrite (crc_ref_combine (crc_ref _ w) t), (crc_ref_combine (crc_ref _ w') t) by done.
  rewrite !(Z.lxor_comm _ (crc_ref 0 t)). intros E%lxor_inj%lfsr_n_inj; [|by apply crc_ref_word..]. by eapply crc_ref_inj.
Qed.

(** * The whole computation *)

(** The states that calls leave: the tables are those of crc64_init. *)
Definition crc64_ok (st : crc64_state) : Prop := crc64_init = Ok (crc64_table st) /\ cache_inv (combine_cache st).

Lemma init_table table : crc64_init = Ok table -> table_ok table.
Proof. destruct crc64_init_spec as (t & Ht & Hok). revert Ht. generalize crc64_init. intros r -> [= <-]. exact Hok. Qed.

Lemma crc64_calls st addr crc s l : crc64_ok st -> bytes_ok s -> 0 <= l <= zlength s /\ zlength s < 2 ^ 63 -> word crc ->
  exists st', crc64 st addr crc s l = Ok (crc_ref crc (take (Z.to_nat l) s), st') /\ crc64_ok st' /\
    CRC64_DUAL_CUTOFF st' = CRC64_DUAL_CUTOFF st /\ CRC64_TRI_CUTOFF st' = CRC64_TRI_CUTOFF st.
Proof.
  intros [Ht Hc] Hs Hl Hw. unfold crc64. pose proof (init_table _ Ht) as Hok.
  destruct (crcspeed_spec (crc64_table st) s Hok Hs (combine_cache st) (CRC64_DUAL_CUTOFF st) (CRC64_TRI_CUTOFF st) addr crc l Hc Hw ltac:(lia) ltac:(lia)) as (ca & -> & Hca).
  exact (ex_intro _ (mkCrc64 (crc64_table st) ca (CRC64_DUAL_CUTOFF st) (CRC64_TRI_CUTOFF st)) (conj eq_refl (conj (conj Ht Hca) (conj eq_refl eq_refl)))).
Qed.

(** C8: the fast checksum is the reference checksum.  For every state that calls can leave,
    every address, cutoff and length, crc64 stays within its tables and within the [l] bytes,
    returns the checksum that shifts bit by bit, continued from [crc], and leaves the cutoffs and a
    state that calls can leave; _crc64, the generated function, computes the same checksum from
    0.  In particular the tables are right, and so are the matrices that combine the checksums of
    two or three parts of the input. *)
Theorem crc64_correct st addr crc s l : crc64_ok st -> bytes_ok s -> 0 <= l <= zlength s -> zlength s < 2 ^ 63 -> word crc ->
  exists st', crc64 st addr crc s l = Ok (crc_ref crc (take (Z.to_nat l) s), st') /\ crc64_ok st' /\
    CRC64_DUAL_CUTOFF st' = CRC64_DUAL_CUTOFF st /\ CRC64_TRI_CUTOFF st' = CRC64_TRI_CUTOFF st /\
    _crc64 0 s l = Ok (crc_ref 0 (take (Z.to_nat l) s)).
Proof.
  intros Hst Hs Hl Hmax Hw. destruct (crc64_calls st addr crc s l Hst Hs ltac:(lia) Hw) as (st' & Hc & Hst' & Hd & Ht).
  exists st'. split; [exact Hc|]. split; [exact Hst'|]. split; [exact Hd|]. split; [exact Ht|].
  pose proof (crc64_bits (take (Z.to_nat l) s) (drop (Z.to_nat l) s)) as Hb. rewrite take_drop in Hb.
  replace (zlength (take (Z.to_nat l) s)) with l in Hb by (rewrite length_take; lia). apply Hb. by apply Forall_take.
Qed.

Definition demo_crc : crc64_state := mkCrc64 (match crc64_init with Ok table => table | Fault _ => [] end) combine_cache_zero DUAL_CUTOFF TRI_CUTOFF.

Lemma demo_crc_ok : crc64_ok demo_crc.
Proof. split; [|by left]. unfold demo_crc, crc64_table. destruct crc64_init_spec as (table & -> & _). reflexivity. Qed.

Lemma crc64_correct_witness :
  exists st', crc64 demo_crc 3 0 check_input 9 = Ok (crc_ref 0 check_input, st') /\ _crc64 0 check_input 9 = Ok (crc_ref 0 check_input) /\
    crc_ref 0 check_input = 0xe9c6d914c4b8d9ca.
Proof.
  destruct (crc64_correct demo_crc 3 0 check_input 9 demo_crc_ok) as (st' & Hc & _ & _ & _ & Hb).
  - unfold check_input. repeat constructor; lia.
  - vm_compute. split; discriminate.
  - vm_compute. reflexivity.
  - split; pow_const; lia.
  - exists st'. split; [exact Hc|]. split; [exact Hb|]. vm_compute. reflexivity.
Defined.
