(* ===== verification/Listpack.v ===== *)
(** Listpacks, the model: src/redis-stable/src/listpack.c.

    A listpack is one allocation: a 6-byte header (total bytes, number of
    elements), the entries, and an 0xFF terminator.  Every entry is its encoding
    followed by the length of that encoding written backwards, so that it can be
    parsed from either side.  Here the allocation is a list of bytes, whose length
    is the usable size of the block; a pointer into it is an offset, NULL is [None]. *)

From Stdlib Require Import String.
From S2P Require Import Prelude Machine UtilNum.

(** * Constants and encoding tests *)

Definition LP_HDR_SIZE : Z := 6.
Definition LP_HDR_NUMELE_UNKNOWN : Z := 65535.
Definition LP_INTBUF_SIZE : Z := 21.
Definition LP_EOF : Z := 255.
Definition LISTPACK_MAX_SAFETY_SIZE : Z := 1073741824.

Definition LP_ENCODING_IS_7BIT_UINT (b : Z) : bool := Z.land b 0x80 =? 0.
Definition LP_ENCODING_IS_6BIT_STR (b : Z) : bool := Z.land b 0xC0 =? 0x80.
Definition LP_ENCODING_IS_13BIT_INT (b : Z) : bool := Z.land b 0xE0 =? 0xC0.
Definition LP_ENCODING_IS_12BIT_STR (b : Z) : bool := Z.land b 0xF0 =? 0xE0.
Definition LP_ENCODING_IS_16BIT_INT (b : Z) : bool := Z.land b 0xFF =? 0xF1.
Definition LP_ENCODING_IS_24BIT_INT (b : Z) : bool := Z.land b 0xFF =? 0xF2.
Definition LP_ENCODING_IS_32BIT_INT (b : Z) : bool := Z.land b 0xFF =? 0xF3.
Definition LP_ENCODING_IS_64BIT_INT (b : Z) : bool := Z.land b 0xFF =? 0xF4.
Definition LP_ENCODING_IS_32BIT_STR (b : Z) : bool := Z.land b 0xFF =? 0xF0.

(** p[0] | p[1]<<8 | ... for the [n] bytes at [p] *)
Fixpoint get_le (n : nat) (lp : list Z) (p : Z) : res Z :=
  match n with
  | O => Ok 0
  | S n =>
      let! b := get1 p lp in
      let! hi := get_le n lp (p + 1) in
      Ok (Z.lor b (Z.shiftl hi 8))
  end.

Definition LP_ENCODING_6BIT_STR_LEN (lp : list Z) (p : Z) : res Z :=
  let! b := get1 p lp in Ok (Z.land b 0x3F).
Definition LP_ENCODING_12BIT_STR_LEN (lp : list Z) (p : Z) : res Z :=
  let! b0 := get1 p lp in
  let! b1 := get1 (p + 1) lp in
  Ok (Z.lor (Z.shiftl (Z.land b0 0xF) 8) b1).
Definition LP_ENCODING_32BIT_STR_LEN (lp : list Z) (p : Z) : res Z := get_le 4 lp (p + 1).

Definition lpGetTotalBytes (lp : list Z) : res Z := get_le 4 lp 0.
Definition lpGetNumElements (lp : list Z) : res Z := get_le 2 lp 4.

Definition lpSetTotalBytes (lp : list Z) (v : Z) : res (list Z) :=
  let! lp := set1 0 (Z.land v 0xff) lp in
  let! lp := set1 1 (Z.land (Z.shiftr v 8) 0xff) lp in
  let! lp := set1 2 (Z.land (Z.shiftr v 16) 0xff) lp in
  set1 3 (Z.land (Z.shiftr v 24) 0xff) lp.

Definition lpSetNumElements (lp : list Z) (v : Z) : res (list Z) :=
  let! lp := set1 4 (Z.land v 0xff) lp in
  set1 5 (Z.land (Z.shiftr v 8) 0xff) lp.

(** the conditions of ASSERT_INTEGRITY and ASSERT_INTEGRITY_LEN *)
Definition ASSERT_INTEGRITY (lp : list Z) (p : Z) : res unit :=
  let! total := lpGetTotalBytes lp in
  assert! (LP_HDR_SIZE <=? p) && (p <? total) in Ok tt.
Definition ASSERT_INTEGRITY_LEN (lp : list Z) (p len : Z) : res unit :=
  let! total := lpGetTotalBytes lp in
  assert! (LP_HDR_SIZE <=? p) && (p + len <? total) in Ok tt.

Definition lpSafeToAdd (lp : option (list Z)) (add : Z) : res bool :=
  let! len := (match lp with Some lp => lpGetTotalBytes lp | None => Ok 0 end) in
  if u64 (len + add) >? LISTPACK_MAX_SAFETY_SIZE then Ok false else Ok true.

(** * Integers and strings *)

(** The digit loop: [None] on overflow, otherwise the index reached and the value. *)
Fixpoint lpStringToInt64_loop (fuel : nat) (str : list Z) (slen plen v : Z) : res (option (Z * Z)) :=
  if plen <? slen then
    let! c := get1 plen str in
    if (48 <=? c) && (c <=? 57) then
      match fuel with
      | O => Fault OutOfFuel
      | S fuel =>
          if v >? ULLONG_MAX / 10 then Ok None
          else
            let v := u64 (v * 10) in
            if v >? ULLONG_MAX - (c - 48) then Ok None
            else lpStringToInt64_loop fuel str slen (plen + 1) (u64 (v + (c - 48)))
      end
    else Ok (Some (plen, v))
  else Ok (Some (plen, v)).

Definition lpStringToInt64 (str : list Z) (slen : Z) : res (option Z) :=
  if (slen =? 0) || (slen >=? LONG_STR_SIZE) then Ok None
  else
    let! c0 := get1 0 str in
    if (slen =? 1) && (c0 =? 48) then Ok (Some 0)
    else
      let negative := c0 =? 45 in
      let plen := if negative then 1 else 0 in
      if negative && (plen =? slen) then Ok None
      else
        let! c := get1 plen str in
        if (49 <=? c) && (c <=? 57) then
          let! r := lpStringToInt64_loop (Z.to_nat slen) str slen (plen + 1) (c - 48) in
          match r with
          | None => Ok None
          | Some (plen, v) =>
              if plen <? slen then Ok None
              else if negative then
                if v >? u64 (- (LLONG_MIN + 1)) + 1 then Ok None
                else Ok (Some (s64 (- v)))
              else if v >? LLONG_MAX then Ok None
              else Ok (Some v)
          end
        else Ok None.

(** The bytes written to [intenc]; [*enclen] is their number. *)
Definition lpEncodeIntegerGetType (v : Z) : list Z :=
  if (v >=? 0) && (v <=? 127) then [v]
  else if (v >=? -4096) && (v <=? 4095) then
    let v := if v <? 0 then Z.shiftl 1 13 + v else v in
    [u8 (Z.lor (Z.shiftr v 8) 0xC0); Z.land v 0xff]
  else if (v >=? -32768) && (v <=? 32767) then
    let v := if v <? 0 then Z.shiftl 1 16 + v else v in
    [0xF1; Z.land v 0xff; u8 (Z.shiftr v 8)]
  else if (v >=? -8388608) && (v <=? 8388607) then
    let v := if v <? 0 then Z.shiftl 1 24 + v else v in
    [0xF2; Z.land v 0xff; Z.land (Z.shiftr v 8) 0xff; u8 (Z.shiftr v 16)]
  else if (v >=? -2147483648) && (v <=? 2147483647) then
    let v := if v <? 0 then Z.shiftl 1 32 + v else v in
    [0xF3; Z.land v 0xff; Z.land (Z.shiftr v 8) 0xff; Z.land (Z.shiftr v 16) 0xff; u8 (Z.shiftr v 24)]
  else
    let uv := u64 v in
    [0xF4; Z.land uv 0xff; Z.land (Z.shiftr uv 8) 0xff; Z.land (Z.shiftr uv 16) 0xff;
     Z.land (Z.shiftr uv 24) 0xff; Z.land (Z.shiftr uv 32) 0xff; Z.land (Z.shiftr uv 40) 0xff;
     Z.land (Z.shiftr uv 48) 0xff; u8 (Z.shiftr uv 56)].

(** LP_ENCODING_INT with the encoded integer, or LP_ENCODING_STRING; and [*enclen] *)
Definition lpEncodeGetType (ele : list Z) (size : Z) : res (option (list Z) * Z) :=
  let! r := lpStringToInt64 ele size in
  match r with
  | Some v => let intenc := lpEncodeIntegerGetType v in Ok (Some intenc, zlength intenc)
  | None =>
      if size <? 64 then Ok (None, 1 + size)
      else if size <? 4096 then Ok (None, 2 + size)
      else Ok (None, 5 + size)
  end.

(** The bytes stored in [buf]; the return value is their number. *)
Definition lpEncodeBacklen (l : Z) : list Z :=
  if l <=? 127 then [l]
  else if l <? 16383 then [u8 (Z.shiftr l 7); Z.lor (Z.land l 127) 128]
  else if l <? 2097151 then
    [u8 (Z.shiftr l 14); Z.lor (Z.land (Z.shiftr l 7) 127) 128; Z.lor (Z.land l 127) 128]
  else if l <? 268435455 then
    [u8 (Z.shiftr l 21); Z.lor (Z.land (Z.shiftr l 14) 127) 128;
     Z.lor (Z.land (Z.shiftr l 7) 127) 128; Z.lor (Z.land l 127) 128]
  else
    [u8 (Z.shiftr l 28); Z.lor (Z.land (Z.shiftr l 21) 127) 128; Z.lor (Z.land (Z.shiftr l 14) 127) 128;
     Z.lor (Z.land (Z.shiftr l 7) 127) 128; Z.lor (Z.land l 127) 128].

Definition lpEncodeBacklenBytes (l : Z) : Z :=
  if l <=? 127 then 1
  else if l <? 16383 then 2
  else if l <? 2097151 then 3
  else if l <? 268435455 then 4
  else 5.

(** do { ... } while(1): [shift] grows by 7 and the loop stops above 28 *)
Fixpoint lpDecodeBacklen_loop (fuel : nat) (lp : list Z) (p val shift : Z) : res Z :=
  match fuel with
  | O => Fault OutOfFuel
  | S fuel =>
      let! b := get1 p lp in
      let val := Z.lor val (u64 (Z.shiftl (Z.land b 127) shift)) in
      if Z.land b 128 =? 0 then Ok val
      else
        let shift := shift + 7 in
        let p := p - 1 in
        if shift >? 28 then Ok ULLONG_MAX else lpDecodeBacklen_loop fuel lp p val shift
  end.
Definition lpDecodeBacklen (lp : list Z) (p : Z) : res Z := lpDecodeBacklen_loop 5 lp p 0 0.

(** writes at offset [dst] of [lp] *)
Definition lpEncodeString (lp : list Z) (dst : Z) (str : list Z) (len : Z) : res (list Z) :=
  if len <? 64 then
    let! lp := set1 dst (Z.lor len 0x80) lp in
    let! bs := load 0 len str in
    store (dst + 1) bs lp
  else if len <? 4096 then
    let! lp := set1 dst (Z.lor (Z.shiftr len 8) 0xE0) lp in
    let! lp := set1 (dst + 1) (Z.land len 0xff) lp in
    let! bs := load 0 len str in
    store (dst + 2) bs lp
  else
    let! lp := set1 dst 0xF0 lp in
    let! lp := set1 (dst + 1) (Z.land len 0xff) lp in
    let! lp := set1 (dst + 2) (Z.land (Z.shiftr len 8) 0xff) lp in
    let! lp := set1 (dst + 3) (Z.land (Z.shiftr len 16) 0xff) lp in
    let! lp := set1 (dst + 4) (Z.land (Z.shiftr len 24) 0xff) lp in
    let! bs := load 0 len str in
    store (dst + 5) bs lp.

Definition lpCurrentEncodedSizeUnsafe (lp : list Z) (p : Z) : res Z :=
  let! b := get1 p lp in
  if LP_ENCODING_IS_7BIT_UINT b then Ok 1
  else if LP_ENCODING_IS_6BIT_STR b then let! n := LP_ENCODING_6BIT_STR_LEN lp p in Ok (1 + n)
  else if LP_ENCODING_IS_13BIT_INT b then Ok 2
  else if LP_ENCODING_IS_16BIT_INT b then Ok 3
  else if LP_ENCODING_IS_24BIT_INT b then Ok 4
  else if LP_ENCODING_IS_32BIT_INT b then Ok 5
  else if LP_ENCODING_IS_64BIT_INT b then Ok 9
  else if LP_ENCODING_IS_12BIT_STR b then let! n := LP_ENCODING_12BIT_STR_LEN lp p in Ok (2 + n)
  else if LP_ENCODING_IS_32BIT_STR b then let! n := LP_ENCODING_32BIT_STR_LEN lp p in Ok (u32 (5 + n))
  else if b =? LP_EOF then Ok 1
  else Ok 0.

Definition lpCurrentEncodedSizeBytes (encoding : Z) : Z :=
  if LP_ENCODING_IS_7BIT_UINT encoding then 1
  else if LP_ENCODING_IS_6BIT_STR encoding then 1
  else if LP_ENCODING_IS_13BIT_INT encoding then 1
  else if LP_ENCODING_IS_16BIT_INT encoding then 1
  else if LP_ENCODING_IS_24BIT_INT encoding then 1
  else if LP_ENCODING_IS_32BIT_INT encoding then 1
  else if LP_ENCODING_IS_64BIT_INT encoding then 1
  else if LP_ENCODING_IS_12BIT_STR encoding then 2
  else if LP_ENCODING_IS_32BIT_STR encoding then 5
  else if encoding =? LP_EOF then 1
  else 0.

(** * Traversal *)

Definition lpBytes (lp : list Z) : res Z := lpGetTotalBytes lp.

Definition lpSkip (lp : list Z) (p : Z) : res Z :=
  let! entrylen := lpCurrentEncodedSizeUnsafe lp p in
  let entrylen := entrylen + lpEncodeBacklenBytes entrylen in
  Ok (p + entrylen).

Definition lpValidateFirst (lp : list Z) : res (option Z) :=
  let p := LP_HDR_SIZE in
  let! b := get1 p lp in
  if b =? LP_EOF then Ok None else Ok (Some p).

(** [None] is the return value 0; [Some pp] is 1 with the new [*pp]. *)
Definition lpValidateNext (lp : list Z) (pp : option Z) (lpbytes : Z) : res (option (option Z)) :=
  let OUT_OF_RANGE p := (p <? LP_HDR_SIZE) || (p >? lpbytes - 1) in
  match pp with
  | None => Ok None
  | Some p =>
      if OUT_OF_RANGE p then Ok None
      else
        let! b := get1 p lp in
        if b =? LP_EOF then Ok (Some None)
        else
          let lenbytes := lpCurrentEncodedSizeBytes b in
          if lenbytes =? 0 then Ok None
          else if OUT_OF_RANGE (p + lenbytes) then Ok None
          else
            let! entrylen := lpCurrentEncodedSizeUnsafe lp p in
            let encodedBacklen := lpEncodeBacklenBytes entrylen in
            let entrylen := entrylen + encodedBacklen in
            if OUT_OF_RANGE (p + entrylen) then Ok None
            else
              let p := p + entrylen in
              let! prevlen := lpDecodeBacklen lp (p - 1) in
              if negb (u64 (prevlen + encodedBacklen) =? entrylen) then Ok None
              else Ok (Some (Some p))
  end.

Definition lpAssertValidEntry (lp : list Z) (lpbytes p : Z) : res unit :=
  let! r := lpValidateNext lp (Some p) lpbytes in
  assert! (match r with Some _ => true | None => false end) in Ok tt.

Definition lpNextWithBytes (lp : list Z) (p lpbytes : Z) : res (option Z) :=
  let! p := lpSkip lp p in
  let! b := get1 p lp in
  if b =? LP_EOF then Ok None
  else
    let! _ := lpAssertValidEntry lp lpbytes p in
    Ok (Some p).

Definition lpNext (lp : list Z) (p : Z) : res (option Z) :=
  let! p := lpSkip lp p in
  let! b := get1 p lp in
  if b =? LP_EOF then Ok None
  else
    let! bytes := lpBytes lp in
    let! _ := lpAssertValidEntry lp bytes p in
    Ok (Some p).

Definition lpPrev (lp : list Z) (p : Z) : res (option Z) :=
  if p =? LP_HDR_SIZE then Ok None
  else
    let p := p - 1 in
    let! prevlen := lpDecodeBacklen lp p in
    let prevlen := u64 (prevlen + lpEncodeBacklenBytes prevlen) in
    let p := p - (prevlen - 1) in
    let! bytes := lpBytes lp in
    let! _ := lpAssertValidEntry lp bytes p in
    Ok (Some p).

Definition lpFirst (lp : list Z) : res (option Z) :=
  let p := LP_HDR_SIZE in
  let! b := get1 p lp in
  if b =? LP_EOF then Ok None
  else
    let! bytes := lpBytes lp in
    let! _ := lpAssertValidEntry lp bytes p in
    Ok (Some p).

Definition lpLast (lp : list Z) : res (option Z) :=
  let! total := lpGetTotalBytes lp in
  lpPrev lp (total - 1).

(** while(p) { count++; p = lpNext(lp,p); } *)
Fixpoint lpLength_loop (fuel : nat) (lp : list Z) (p : option Z) (count : Z) : res Z :=
  match p with
  | None => Ok count
  | Some p =>
      match fuel with
      | O => Fault OutOfFuel
      | S fuel => let! p := lpNext lp p in lpLength_loop fuel lp p (u32 (count + 1))
      end
  end.

(** the length and the listpack, whose header may have been updated *)
Definition lpLength (lp : list Z) : res (Z * list Z) :=
  let! numele := lpGetNumElements lp in
  if negb (numele =? LP_HDR_NUMELE_UNKNOWN) then Ok (numele, lp)
  else
    let! p := lpFirst lp in
    let! count := lpLength_loop (length lp) lp p 0 in
    if count <? LP_HDR_NUMELE_UNKNOWN then
      let! lp := lpSetNumElements lp count in Ok (count, lp)
    else Ok (count, lp).

(** while (index > 0 && ele) ..., with [fuel] iterations at most *)
Fixpoint lpSeek_fwd (fuel : nat) (lp : list Z) (ele : option Z) (index : Z) : res (option Z) :=
  match ele with
  | Some p =>
      if index >? 0 then
        match fuel with
        | O => Fault OutOfFuel
        | S fuel => let! ele := lpNext lp p in lpSeek_fwd fuel lp ele (index - 1)
        end
      else Ok ele
  | None => Ok ele
  end.

Fixpoint lpSeek_bwd (fuel : nat) (lp : list Z) (ele : option Z) (index : Z) : res (option Z) :=
  match ele with
  | Some p =>
      if index <? -1 then
        match fuel with
        | O => Fault OutOfFuel
        | S fuel => let! ele := lpPrev lp p in lpSeek_bwd fuel lp ele (index + 1)
        end
      else Ok ele
  | None => Ok ele
  end.

Definition lpSeek (lp : list Z) (index : Z) : res (option Z) :=
  let fwd index := let! ele := lpFirst lp in lpSeek_fwd (length lp) lp ele index in
  let bwd index := let! ele := lpLast lp in lpSeek_bwd (length lp) lp ele index in
  let! numele := lpGetNumElements lp in
  if negb (numele =? LP_HDR_NUMELE_UNKNOWN) then
    let index := if index <? 0 then numele + index else index in
    if index <? 0 then Ok None
    else if index >=? numele then Ok None
    else if index >? numele / 2 then bwd (index - numele)
    else fwd index
  else if index <? 0 then bwd index
  else fwd index.

(** * Reading elements *)

(** What lpGet returns: a pointer into the listpack with a length, a pointer to the
    caller's buffer with a length, or NULL with an integer. *)
Inductive lpval :=
| LpStr (off len : Z)
| LpBuf (buf : list Z) (len : Z)
| LpInt (v : Z).

(** The conversion of the unsigned value common to the integer encodings. *)
Definition lp_int_result (uval negstart negmax : Z) (intbuf : option (list Z)) : res lpval :=
  let val := if uval >=? negstart
             then let uval := u64 (negmax - uval) in s64 (- s64 uval - 1)
             else s64 uval in
  match intbuf with
  | Some buf => let! '(n, buf) := ll2string buf LP_INTBUF_SIZE val in Ok (LpBuf buf n)
  | None => Ok (LpInt val)
  end.

(** [entry_size] is the incoming value of [*entry_size], kept for an unrecognized byte *)
Definition lpGetWithSize (lp : list Z) (p : Z) (intbuf : option (list Z)) (entry_size : Z)
    : res (lpval * Z) :=
  let int uval negstart negmax entry_size :=
    let! r := lp_int_result uval negstart negmax intbuf in Ok (r, entry_size) in
  let! b := get1 p lp in
  if LP_ENCODING_IS_7BIT_UINT b then int (Z.land b 0x7f) ULLONG_MAX 0 2
  else if LP_ENCODING_IS_6BIT_STR b then
    let! count := LP_ENCODING_6BIT_STR_LEN lp p in
    Ok (LpStr (p + 1) count, 1 + count + lpEncodeBacklenBytes (count + 1))
  else if LP_ENCODING_IS_13BIT_INT b then
    let! b1 := get1 (p + 1) lp in
    int (Z.lor (Z.shiftl (Z.land b 0x1f) 8) b1) (Z.shiftl 1 12) 8191 3
  else if LP_ENCODING_IS_16BIT_INT b then
    let! uval := get_le 2 lp (p + 1) in int uval (Z.shiftl 1 15) 65535 4
  else if LP_ENCODING_IS_24BIT_INT b then
    let! uval := get_le 3 lp (p + 1) in int uval (Z.shiftl 1 23) (Z.shiftr UINT32_MAX 8) 5
  else if LP_ENCODING_IS_32BIT_INT b then
    let! uval := get_le 4 lp (p + 1) in int uval (Z.shiftl 1 31) UINT32_MAX 6
  else if LP_ENCODING_IS_64BIT_INT b then
    let! uval := get_le 8 lp (p + 1) in int uval (Z.shiftl 1 63) ULLONG_MAX 10
  else if LP_ENCODING_IS_12BIT_STR b then
    let! count := LP_ENCODING_12BIT_STR_LEN lp p in
    Ok (LpStr (p + 2) count, 2 + count + lpEncodeBacklenBytes (count + 2))
  else if LP_ENCODING_IS_32BIT_STR b then
    let! count := LP_ENCODING_32BIT_STR_LEN lp p in
    Ok (LpStr (p + 5) count, 5 + count + lpEncodeBacklenBytes (count + 5))
  else int (12345678900000000 + b) ULLONG_MAX 0 entry_size.

Definition lpGetWithBuf (lp : list Z) (p : Z) (intbuf : option (list Z)) : res lpval :=
  let! encoding := get1 p lp in
  if LP_ENCODING_IS_6BIT_STR encoding then
    let! count := LP_ENCODING_6BIT_STR_LEN lp p in Ok (LpStr (p + 1) count)
  else if LP_ENCODING_IS_12BIT_STR encoding then
    let! count := LP_ENCODING_12BIT_STR_LEN lp p in Ok (LpStr (p + 2) count)
  else if LP_ENCODING_IS_32BIT_STR encoding then
    let! count := LP_ENCODING_32BIT_STR_LEN lp p in Ok (LpStr (p + 5) count)
  else if LP_ENCODING_IS_7BIT_UINT encoding then
    lp_int_result (Z.land encoding 0x7f) ULLONG_MAX 0 intbuf
  else if LP_ENCODING_IS_13BIT_INT encoding then
    let! b1 := get1 (p + 1) lp in
    lp_int_result (Z.lor (Z.shiftl (Z.land encoding 0x1f) 8) b1) (Z.shiftl 1 12) 8191 intbuf
  else if LP_ENCODING_IS_16BIT_INT encoding then
    let! uval := get_le 2 lp (p + 1) in lp_int_result uval (Z.shiftl 1 15) 65535 intbuf
  else if LP_ENCODING_IS_24BIT_INT encoding then
    let! uval := get_le 3 lp (p + 1) in lp_int_result uval (Z.shiftl 1 23) (Z.shiftr UINT32_MAX 8) intbuf
  else if LP_ENCODING_IS_32BIT_INT encoding then
    let! uval := get_le 4 lp (p + 1) in lp_int_result uval (Z.shiftl 1 31) UINT32_MAX intbuf
  else if LP_ENCODING_IS_64BIT_INT encoding then
    let! uval := get_le 8 lp (p + 1) in lp_int_result uval (Z.shiftl 1 63) ULLONG_MAX intbuf
  else lp_int_result (12345678900000000 + encoding) ULLONG_MAX 0 intbuf.

Definition lpGet (lp : list Z) (p : Z) (intbuf : option (list Z)) : res lpval :=
  lpGetWithBuf lp p intbuf.

(** [inl (off, len)]: a string pointer and [*slen]; [inr v]: NULL and [*lval] *)
Definition lpGetValue (lp : list Z) (p : Z) : res ((Z * Z) + Z) :=
  let! v := lpGet lp p None in
  match v with
  | LpStr off ele_len => Ok (inl (off, u32 ele_len))
  | LpBuf _ ele_len => Ok (inr ele_len) (* not returned without a buffer *)
  | LpInt ele_len => Ok (inr ele_len)
  end.

Definition lpGetIntegerValue (lp : list Z) (p : Z) : res (option Z) :=
  let! v := lpGet lp p None in
  match v with LpInt ele_len => Ok (Some ele_len) | _ => Ok None end.

(** memcmp(s, lp+off, len) == 0 *)
Definition lp_memeq (lp : list Z) (off len : Z) (str : list Z) : res bool :=
  let! a := load off len lp in
  let! b := load 0 len str in
  Ok (bool_decide (a = b)).

(** [cached] is [cached_longval]/[cached_valid] when the caller passes them: [None]
    for a NULL [cached_valid], else (longval, valid). *)
Definition lpCompare (lp : list Z) (p : Z) (str : list Z) (slen : Z) (cached : option (Z * Z))
    : res (bool * option (Z * Z)) :=
  let! b := get1 p lp in
  if b =? LP_EOF then Ok (false, cached)
  else
    let! v := lpGet lp p None in
    match v with
    | LpStr off sz =>
        if slen =? sz then let! e := lp_memeq lp off slen str in Ok (e, cached)
        else Ok (false, cached)
    | LpBuf _ sz | LpInt sz =>
        match cached with
        | Some (cached_longval, cached_valid) =>
            let! '(cached_longval, cached_valid) :=
              (if cached_valid =? 0 then
                 let! r := lpStringToInt64 str slen in
                 match r with
                 | Some v => Ok (v, 1)
                 | None => Ok (cached_longval, -1)
                 end
               else Ok (cached_longval, cached_valid)) in
            Ok ((cached_valid =? 1) && (sz =? cached_longval), Some (cached_longval, cached_valid))
        | None =>
            let! r := lpStringToInt64 str slen in
            match r with
            | Some sval => Ok (sz =? sval, None)
            | None => Ok (false, None)
            end
        end
    end.

(** * Searching *)

Section FindCb.
(** the callback's [user] state; the callback gets the value lpGetWithSize returned *)
Context {U : Type} (cmp : list Z -> Z -> U -> lpval -> res (Z * U)).

Fixpoint lpFindCb_loop (fuel : nat) (lp : list Z) (p : Z) (user : U) (skip skipcnt entry_size lp_bytes : Z)
    : res (option Z) :=
  match fuel with
  | O => Fault OutOfFuel
  | S fuel =>
      let! step :=
        (if skipcnt =? 0 then
           let! '(value, entry_size) := lpGetWithSize lp p None entry_size in
           let! _ := (match value with
                      | LpInt _ => Ok tt
                      | _ => assert! (LP_HDR_SIZE <=? p) && (p + entry_size <? lp_bytes) in Ok tt
                      end) in
           let! '(c, user) := cmp lp p user value in
           if c =? 0 then Ok (inl p)
           else Ok (inr (p + entry_size, user, skip, entry_size))
         else
           let! p := lpSkip lp p in
           Ok (inr (p, user, skipcnt - 1, entry_size))) in
      match step with
      | inl p => Ok (Some p)
      | inr (p, user, skipcnt, entry_size) =>
          let! _ := (if p + 8 >=? lp_bytes then lpAssertValidEntry lp lp_bytes p
                     else assert! (LP_HDR_SIZE <=? p) && (p <? lp_bytes) in Ok tt) in
          let! b := get1 p lp in
          if b =? LP_EOF then Ok None
          else lpFindCb_loop fuel lp p user skip skipcnt entry_size lp_bytes
      end
  end.

Definition lpFindCbInternal (lp : list Z) (p : option Z) (user : U) (skip : Z) : res (option Z) :=
  let! lp_bytes := lpBytes lp in
  let! p := (match p with Some p => Ok (Some p) | None => lpFirst lp end) in
  match p with
  | None => Ok None
  | Some p => lpFindCb_loop (length lp) lp p user skip 0 123456789 lp_bytes
  end.

Definition lpFindCb (lp : list Z) (p : option Z) (user : U) (skip : Z) : res (option Z) :=
  lpFindCbInternal lp p user skip.
End FindCb.

(** struct lpFindArg *)
Record lpFindArg := mk_lpFindArg {
  fa_s : list Z;
  fa_slen : Z;
  fa_vencoding : Z;
  fa_vll : Z
}.

Definition UCHAR_MAX : Z := 255.

Definition lpFindCmp (lp : list Z) (p : Z) (arg : lpFindArg) (value : lpval) : res (Z * lpFindArg) :=
  match value with
  | LpStr off slen =>
      if slen =? fa_slen arg then
        let! e := lp_memeq lp off slen (fa_s arg) in
        Ok (if (e : bool) then 0 else 1, arg)
      else Ok (1, arg)
  | LpBuf _ slen | LpInt slen =>
      let! arg :=
        (if fa_vencoding arg =? 0 then
           let! r := (if (fa_slen arg >=? 32) || (fa_slen arg =? 0) then Ok None
                      else lpStringToInt64 (fa_s arg) (fa_slen arg)) in
           match r with
           | None => Ok (mk_lpFindArg (fa_s arg) (fa_slen arg) UCHAR_MAX (fa_vll arg))
           | Some v => Ok (mk_lpFindArg (fa_s arg) (fa_slen arg) 1 v)
           end
         else Ok arg) in
      if negb (fa_vencoding arg =? UCHAR_MAX) && (slen =? fa_vll arg) then Ok (0, arg)
      else Ok (1, arg)
  end.

Definition lpFind (lp : list Z) (p : option Z) (str : list Z) (slen skip : Z) : res (option Z) :=
  lpFindCbInternal lpFindCmp lp p (mk_lpFindArg str slen 0 0) skip.

(** * Updates *)

Inductive lp_where := LP_BEFORE | LP_AFTER | LP_REPLACE.
#[global] Instance lp_where_eq_dec : EqDecision lp_where.
Proof. solve_decision. Defined.

Section Updates.
(** the contents of freshly allocated bytes *)
Context (junk : Z).

Definition lpNew (capacity : Z) : res (list Z) :=
  let size := if capacity >? LP_HDR_SIZE + 1 then capacity else LP_HDR_SIZE + 1 in
  let lp := replicate (Z.to_nat size) junk in
  let! lp := lpSetTotalBytes lp (LP_HDR_SIZE + 1) in
  let! lp := lpSetNumElements lp 0 in
  set1 LP_HDR_SIZE LP_EOF lp.

Definition lpShrinkToFit (lp : list Z) : res (list Z) :=
  let! size := lpGetTotalBytes lp in
  if size <? zlength lp then Ok (realloc junk size lp) else Ok lp.

(** [None]: NULL is returned, the listpack would be too large; lp_realloc does not
    fail.  [Some (lp, newp)]: the new listpack and the value of [*newp]. *)
Definition lpInsert (lp : list Z) (elestr eleint : option (list Z)) (size p : Z) (where_ : lp_where)
    : res (option (list Z * option Z)) :=
  let delete := match elestr, eleint with None, None => true | _, _ => false end in
  let where_ := if (delete : bool) then LP_REPLACE else where_ in
  let! '(p, where_) :=
    (match where_ with
     | LP_AFTER =>
         let! p := lpSkip lp p in
         let! _ := ASSERT_INTEGRITY lp p in
         Ok (p, LP_BEFORE)
     | _ => Ok (p, where_)
     end) in
  let poff := p in
  (* the encoded integer, if any, and enclen *)
  let! '(eleint, enclen) :=
    (match elestr, eleint with
     | Some ele, _ =>
         let! '(intenc, enclen) := lpEncodeGetType ele size in
         Ok (intenc, enclen)
     | None, Some e => Ok (Some e, size)
     | None, None => Ok (None, 0)
     end) in
  let backlen := if (delete : bool) then [] else lpEncodeBacklen enclen in
  let backlen_size := zlength backlen in
  let! old_listpack_bytes := lpGetTotalBytes lp in
  let! replaced_len :=
    (match where_ with
     | LP_REPLACE =>
         let! n := lpCurrentEncodedSizeUnsafe lp p in
         let replaced_len := u32 (n + lpEncodeBacklenBytes n) in
         let! _ := ASSERT_INTEGRITY_LEN lp p replaced_len in
         Ok replaced_len
     | _ => Ok 0
     end) in
  let new_listpack_bytes := u64 (old_listpack_bytes + enclen + backlen_size - replaced_len) in
  if new_listpack_bytes >? UINT32_MAX then Ok None
  else
    let dst := poff in
    let lp := if (new_listpack_bytes >? old_listpack_bytes) && (new_listpack_bytes >? zlength lp)
              then realloc junk new_listpack_bytes lp else lp in
    let! lp :=
      (match where_ with
       | LP_REPLACE => memmove (dst + enclen + backlen_size) (dst + replaced_len)
                         (old_listpack_bytes - poff - replaced_len) lp
       | _ => memmove (dst + enclen + backlen_size) dst (old_listpack_bytes - poff) lp
       end) in
    let lp := if new_listpack_bytes <? old_listpack_bytes
              then realloc junk new_listpack_bytes lp else lp in
    let! newp :=
      (if (delete : bool) then
         let! b := get1 dst lp in
         Ok (if b =? LP_EOF then None else Some dst)
       else Ok (Some dst)) in
    let! lp :=
      (if (delete : bool) then Ok lp
       else
         let! lp := (match eleint, elestr with
                     | Some e, _ => let! bs := load 0 enclen e in store dst bs lp
                     | None, Some ele => lpEncodeString lp dst ele size
                     | None, None => Fault AssertFailed
                     end) in
         store (dst + enclen) backlen lp) in
    let! lp :=
      (if negb (bool_decide (where_ = LP_REPLACE)) || (delete : bool) then
         let! num_elements := lpGetNumElements lp in
         if negb (num_elements =? LP_HDR_NUMELE_UNKNOWN) then
           if negb delete then lpSetNumElements lp (num_elements + 1)
           else lpSetNumElements lp (u32 (num_elements - 1))
         else Ok lp
       else Ok lp) in
    let! lp := lpSetTotalBytes lp new_listpack_bytes in
    Ok (Some (lp, newp)).

Definition lpInsertString (lp str : list Z) (slen p : Z) (where_ : lp_where) :=
  lpInsert lp (Some str) None slen p where_.

Definition lpInsertInteger (lp : list Z) (lval p : Z) (where_ : lp_where) :=
  let intenc := lpEncodeIntegerGetType lval in
  lpInsert lp None (Some intenc) (zlength intenc) p where_.

(** the functions that pass a NULL [newp] return the listpack only *)
Definition drop_newp (r : res (option (list Z * option Z))) : res (option (list Z)) :=
  let! r := r in Ok (fst <$> r).

Definition lpAppend (lp ele : list Z) (size : Z) : res (option (list Z)) :=
  let! listpack_bytes := lpGetTotalBytes lp in
  let eofptr := listpack_bytes - 1 in
  drop_newp (lpInsert lp (Some ele) None size eofptr LP_BEFORE).

Definition lpAppendInteger (lp : list Z) (lval : Z) : res (option (list Z)) :=
  let! listpack_bytes := lpGetTotalBytes lp in
  let eofptr := listpack_bytes - 1 in
  drop_newp (lpInsertInteger lp lval eofptr LP_BEFORE).

Definition lpPrepend (lp str : list Z) (slen : Z) : res (option (list Z)) :=
  let! p := lpFirst lp in
  match p with
  | None => lpAppend lp str slen
  | Some p => drop_newp (lpInsert lp (Some str) None slen p LP_BEFORE)
  end.

Definition lpPrependInteger (lp : list Z) (lval : Z) : res (option (list Z)) :=
  let! p := lpFirst lp in
  match p with
  | None => lpAppendInteger lp lval
  | Some p => drop_newp (lpInsertInteger lp lval p LP_BEFORE)
  end.

Definition lpReplace (lp : list Z) (p : Z) (str : list Z) (slen : Z) :=
  lpInsert lp (Some str) None slen p LP_REPLACE.

Definition lpReplaceInteger (lp : list Z) (p lval : Z) := lpInsertInteger lp lval p LP_REPLACE.

Definition lpDelete (lp : list Z) (p : Z) := lpInsert lp None None 0 p LP_REPLACE.

(** while (num--) ...: the number deleted and [tail] *)
Fixpoint lpDeleteRange_loop (fuel : nat) (lp : list Z) (bytes tail num deleted : Z) : res (Z * Z) :=
  if num =? 0 then Ok (deleted, tail)
  else
    match fuel with
    | O => Fault OutOfFuel
    | S fuel =>
        let! tail := lpSkip lp tail in
        let! b := get1 tail lp in
        if b =? LP_EOF then Ok (deleted + 1, tail)
        else
          let! _ := lpAssertValidEntry lp bytes tail in
          lpDeleteRange_loop fuel lp bytes tail (num - 1) (deleted + 1)
    end.

Definition lpDeleteRangeWithEntry (lp : list Z) (p num : Z) : res (list Z * option Z) :=
  let! bytes := lpBytes lp in
  let eofptr := bytes - 1 in
  if num =? 0 then Ok (lp, Some p)
  else
    let first := p in
    let! '(deleted, tail) := lpDeleteRange_loop (length lp) lp bytes p num 0 in
    let poff := first in
    let! lp := memmove first tail (eofptr - tail + 1) lp in
    let! lp := lpSetTotalBytes lp (bytes - (tail - first)) in
    let! numele := lpGetNumElements lp in
    let! lp := (if negb (numele =? LP_HDR_NUMELE_UNKNOWN)
                then lpSetNumElements lp (u64 (numele - deleted)) else Ok lp) in
    let! lp := lpShrinkToFit lp in
    let! b := get1 poff lp in
    Ok (lp, if b =? LP_EOF then None else Some poff).

Definition lpDeleteRange (lp : list Z) (index num : Z) : res (list Z) :=
  let! numele := lpGetNumElements lp in
  if num =? 0 then Ok lp
  else
    let! p := lpSeek lp index in
    match p with
    | None => Ok lp
    | Some p =>
        let index := if negb (numele =? LP_HDR_NUMELE_UNKNOWN) && (index <? 0)
                     then numele + index else index in
        if negb (numele =? LP_HDR_NUMELE_UNKNOWN) && (u64 (numele - u64 index) <=? num) then
          let! lp := set1 p LP_EOF lp in
          let! lp := lpSetTotalBytes lp (p + 1) in
          let! lp := lpSetNumElements lp index in
          lpShrinkToFit lp
        else
          let! '(lp, _) := lpDeleteRangeWithEntry lp p num in Ok lp
    end.
End Updates.

Definition lpDup (lp : list Z) : res (list Z) :=
  let! lpbytes := lpBytes lp in load 0 lpbytes lp.

Definition lpEntrySizeInteger (lval : Z) : Z :=
  let enclen := zlength (lpEncodeIntegerGetType lval) in
  let backlen := lpEncodeBacklenBytes enclen in
  enclen + backlen.

Definition lpEstimateBytesRepeatedInteger (lval rep : Z) : Z :=
  u64 (LP_HDR_SIZE + lpEntrySizeInteger lval * rep + 1).

(** * Integrity *)

Section Validate.
(** The optional callback sees the entry's offset and the header's count, and threads its
    userdata. *)
Context {A : Type} (entry_cb : option (list Z -> Z -> Z -> A -> res (bool * A))).

Definition validate_entry (lp : list Z) (p numele : Z) (cb_userdata : A) : res (bool * A) :=
  match entry_cb with Some cb => cb lp p numele cb_userdata | None => Ok (true, cb_userdata) end.

(** while(p && p[0] != LP_EOF) ...: [None] for return 0, else the final [p] and count *)
Fixpoint lpValidateIntegrity_loop (fuel : nat) (lp : list Z) (bytes numele : Z) (p : option Z) (count : Z) (cb_userdata : A)
    : res (option (option Z * Z) * A) :=
  match p with
  | None => Ok (Some (p, count), cb_userdata)
  | Some q =>
      let! b := get1 q lp in
      if b =? LP_EOF then Ok (Some (p, count), cb_userdata)
      else
        match fuel with
        | O => Fault OutOfFuel
        | S fuel =>
            let! r := lpValidateNext lp p bytes in
            match r with
            | None => Ok (None, cb_userdata)
            | Some p' =>
                let! '(ok, cb_userdata) := validate_entry lp q numele cb_userdata in
                if negb ok then Ok (None, cb_userdata)
                else lpValidateIntegrity_loop fuel lp bytes numele p' (u32 (count + 1)) cb_userdata
            end
        end
  end.

Definition lpValidateIntegrity (lp : list Z) (size : Z) (deep : bool) (cb_userdata : A) : res (bool * A) :=
  if size <? LP_HDR_SIZE + 1 then Ok (false, cb_userdata)
  else
    let! bytes := lpGetTotalBytes lp in
    if negb (bytes =? size) then Ok (false, cb_userdata)
    else
      let! last := get1 (size - 1) lp in
      if negb (last =? LP_EOF) then Ok (false, cb_userdata)
      else if negb deep then Ok (true, cb_userdata)
      else
        let! numele := lpGetNumElements lp in
        let! '(r, cb_userdata) := lpValidateIntegrity_loop (length lp) lp bytes numele (Some LP_HDR_SIZE) 0 cb_userdata in
        match r with
        | None => Ok (false, cb_userdata)
        | Some (p, count) =>
            if negb (bool_decide (p = Some (size - 1))) then Ok (false, cb_userdata)
            else if negb (numele =? LP_HDR_NUMELE_UNKNOWN) && negb (numele =? count) then Ok (false, cb_userdata)
            else Ok (true, cb_userdata)
        end.
End Validate.

(** ** Examples *)

Definition lp_demo : res (option (list Z)) :=
  let! lp := lpNew 170 0 in
  let! r := lpAppend 170 lp (bytes_of "hello"%string) 5 in
  match r with
  | Some lp => let! r := lpAppend 170 lp (bytes_of "-300"%string) 4 in
               match r with Some lp => lpPrependInteger 170 lp 100 | None => Ok None end
  | None => Ok None
  end.

Example lp_demo_bytes :
  lp_demo = Ok (Some ([19; 0; 0; 0; 3; 0] ++ [100; 1] ++ [133; 104; 101; 108; 108; 111; 6] ++
                      [222; 212; 2] ++ [255])).
Proof. vm_compute. reflexivity. Qed.
