(* ===== verification/ListpackEnc.v ===== *)
(** Listpack entries: the abstract elements, the shape of their encodings, and the
    correctness of the encoders and decoders of src/redis-stable/src/listpack.c. *)

From S2P Require Import Prelude Machine UtilNum Listpack.

(** * Bytes as little-endian numbers *)

Lemma land_255 v : Z.land v 255 = v mod 256.
Proof. apply (Z.land_ones v 8). lia. Qed.

Lemma land_127 v : Z.land v 127 = v mod 128.
Proof. apply (Z.land_ones v 7). lia. Qed.

Lemma get_le_app n : forall pre bs post p,
  length bs = n -> bytes_ok bs -> p = zlength pre ->
  get_le n (pre ++ bs ++ post) p = Ok (le_dec bs).
Proof.
  induction n as [|n IH]; intros pre [|b bs] post p Hl Hb ->; try done; simpl in Hl; try lia.
  apply Forall_cons_1 in Hb as [Hb Hbs]. cbn [get_le]. rewrite <- app_comm_cons, get1_app by done.
  specialize (IH (pre ++ [b]) bs post (zlength pre + 1)). rewrite <- app_assoc in IH. simpl in IH.
  rewrite IH by (auto; len). rewrite lor_shl_add by lia. cbn [le_dec]. f_equal. lia.
Qed.

Lemma le_enc_step n v : le_enc (S n) v = Z.land v 255 :: le_enc n (Z.shiftr v 8).
Proof. cbn [le_enc]. rewrite land_255. rewrite Z.shiftr_div_pow2 by lia. done. Qed.

Lemma le_enc_2 v : le_enc 2 v = [Z.land v 255; Z.land (Z.shiftr v 8) 255].
Proof. by rewrite !le_enc_step. Qed.
Lemma le_enc_3 v :
  le_enc 3 v = [Z.land v 255; Z.land (Z.shiftr v 8) 255; Z.land (Z.shiftr v 16) 255].
Proof. by rewrite !le_enc_step, !Z.shiftr_shiftr by lia. Qed.
Lemma le_enc_4 v :
  le_enc 4 v = [Z.land v 255; Z.land (Z.shiftr v 8) 255; Z.land (Z.shiftr v 16) 255;
                Z.land (Z.shiftr v 24) 255].
Proof. by rewrite !le_enc_step, !Z.shiftr_shiftr by lia. Qed.
Lemma le_enc_8 v :
  le_enc 8 v = [Z.land v 255; Z.land (Z.shiftr v 8) 255; Z.land (Z.shiftr v 16) 255;
                Z.land (Z.shiftr v 24) 255; Z.land (Z.shiftr v 32) 255; Z.land (Z.shiftr v 40) 255;
                Z.land (Z.shiftr v 48) 255; Z.land (Z.shiftr v 56) 255].
Proof. by rewrite !le_enc_step, !Z.shiftr_shiftr by lia. Qed.

(** Stores at constant offsets of a list whose first cells are explicit. *)
Ltac set1_all := repeat (rewrite set1_insert by len).

Lemma set_total_spec h rest v :
  length h = 4%nat -> lpSetTotalBytes (h ++ rest) v = Ok (le_enc 4 v ++ rest).
Proof.
  intros Hh. destruct h as [|h0 [|h1 [|h2 [|h3 []]]]]; try done.
  rewrite le_enc_4. unfold lpSetTotalBytes. simpl app. set1_all. done.
Qed.

Lemma set_numele_spec t h rest v :
  length t = 4%nat -> length h = 2%nat ->
  lpSetNumElements (t ++ h ++ rest) v = Ok (t ++ le_enc 2 v ++ rest).
Proof.
  intros Ht Hh. destruct t as [|t0 [|t1 [|t2 [|t3 []]]]]; try done.
  destruct h as [|h0 [|h1 []]]; try done.
  rewrite le_enc_2. unfold lpSetNumElements. simpl app. set1_all. done.
Qed.

(** * The encoding byte *)

(** Every property of a byte that holds for all 256 values by evaluation. *)
Lemma byte_check (P : Z -> bool) b :
  forallb P (seqZ 0 256) = true -> 0 <= b < 256 -> P b = true.
Proof.
  intros H Hb. rewrite List.forallb_forall in H. apply H, list_elem_of_In, elem_of_seqZ. lia.
Qed.

(** The encoding tests are a partition of the byte range into intervals. *)
Lemma encoding_tests b : 0 <= b < 256 ->
  LP_ENCODING_IS_7BIT_UINT b = (b <? 128) /\
  LP_ENCODING_IS_6BIT_STR b = (128 <=? b) && (b <? 192) /\
  LP_ENCODING_IS_13BIT_INT b = (192 <=? b) && (b <? 224) /\
  LP_ENCODING_IS_12BIT_STR b = (224 <=? b) && (b <? 240) /\
  LP_ENCODING_IS_32BIT_STR b = (b =? 240) /\
  LP_ENCODING_IS_16BIT_INT b = (b =? 241) /\
  LP_ENCODING_IS_24BIT_INT b = (b =? 242) /\
  LP_ENCODING_IS_32BIT_INT b = (b =? 243) /\
  LP_ENCODING_IS_64BIT_INT b = (b =? 244).
Proof.
  intros Hb. set (P b :=
    Bool.eqb (LP_ENCODING_IS_7BIT_UINT b) (b <? 128) &&
    Bool.eqb (LP_ENCODING_IS_6BIT_STR b) ((128 <=? b) && (b <? 192)) &&
    Bool.eqb (LP_ENCODING_IS_13BIT_INT b) ((192 <=? b) && (b <? 224)) &&
    Bool.eqb (LP_ENCODING_IS_12BIT_STR b) ((224 <=? b) && (b <? 240)) &&
    Bool.eqb (LP_ENCODING_IS_32BIT_STR b) (b =? 240) &&
    Bool.eqb (LP_ENCODING_IS_16BIT_INT b) (b =? 241) &&
    Bool.eqb (LP_ENCODING_IS_24BIT_INT b) (b =? 242) &&
    Bool.eqb (LP_ENCODING_IS_32BIT_INT b) (b =? 243) &&
    Bool.eqb (LP_ENCODING_IS_64BIT_INT b) (b =? 244)).
  assert (P b = true) as H by (apply byte_check; [vm_compute; reflexivity|done]).
  unfold P in H. rewrite !andb_true_iff, !Bool.eqb_true_iff in H. tauto.
Qed.

Ltac enc_tests b :=
  let H := fresh in
  pose proof (encoding_tests b) as H;
  destruct H as (-> & -> & -> & -> & -> & -> & -> & -> & ->); [lia|].

(** The low bits that carry data. *)
Lemma byte_masks b : 0 <= b < 256 ->
  (b < 128 -> Z.land b 0x7f = b) /\ (128 <= b < 192 -> Z.land b 0x3F = b - 128) /\
  (192 <= b < 224 -> Z.land b 0x1f = b - 192) /\ (224 <= b < 240 -> Z.land b 0xF = b - 224).
Proof.
  intros Hb. set (P b := implb (b <? 128) (Z.land b 0x7f =? b) &&
    implb ((128 <=? b) && (b <? 192)) (Z.land b 0x3F =? b - 128) &&
    implb ((192 <=? b) && (b <? 224)) (Z.land b 0x1f =? b - 192) &&
    implb ((224 <=? b) && (b <? 240)) (Z.land b 0xF =? b - 224)).
  assert (P b = true) as H by (apply byte_check; [vm_compute; reflexivity|done]).
  unfold P in H. lia.
Qed.

(** * Elements and the shape of their encodings *)

Inductive elem :=
| EInt (v : Z)
| EStr (str : list Z).
#[global] Instance elem_eq_dec : EqDecision elem.
Proof. solve_decision. Defined.

(** The encoding byte of the integers stored on [n] bytes. *)
Inductive int_tag : Z -> nat -> Prop :=
| tag16 : int_tag 241 2
| tag24 : int_tag 242 3
| tag32 : int_tag 243 4
| tag64 : int_tag 244 8.

Inductive shape : elem -> list Z -> Prop :=
| Sh7 v : 0 <= v < 128 -> shape (EInt v) [v]
| Sh13 v b0 b1 : in_s 13 v -> 192 <= b0 < 224 -> 0 <= b1 < 256 ->
    (b0 - 192) * 256 + b1 = v mod 2 ^ 13 -> shape (EInt v) [b0; b1]
| ShInt tag n v : int_tag tag n ->
    in_s (8 * Z.of_nat n) v -> shape (EInt v) (tag :: le_enc n v)
| Sh6 str : bytes_ok str -> zlength str < 64 -> shape (EStr str) ((128 + zlength str) :: str)
| Sh12 str b0 b1 : bytes_ok str -> 224 <= b0 < 240 -> 0 <= b1 < 256 ->
    (b0 - 224) * 256 + b1 = zlength str -> shape (EStr str) (b0 :: b1 :: str)
| Sh32 str : bytes_ok str -> zlength str < 2 ^ 32 - 5 ->
    shape (EStr str) (240 :: le_enc 4 (zlength str) ++ str).

Lemma signed_repr w v : 0 < w -> in_s w v -> v mod 2 ^ w = if v <? 0 then 2 ^ w + v else v.
Proof.
  intros Hw [H1 H2]. pose proof (pow2_split w Hw). zbool.
  - rewrite <- (Z.mod_add v 1), Z.mul_1_l by lia. rewrite Z.mod_small; lia.
  - apply Z.mod_small; lia.
Qed.

Lemma le_enc_trunc n v w :
  w = 8 * Z.of_nat n -> 0 < w -> in_s w v -> le_enc n (if v <? 0 then 2 ^ w + v else v) = le_enc n v.
Proof. intros -> Hw Hv. rewrite <- signed_repr by done. apply le_enc_mod. Qed.

Lemma u8_land v : u8 v = Z.land v 255.
Proof. by rewrite land_255. Qed.

Lemma lor_192 v : 0 <= v < 32 -> Z.lor v 192 = 192 + v.
Proof.
  intros Hv. set (P v := (Z.lor v 192 =? 192 + v) || (32 <=? v)).
  assert (P v = true) as H by (apply byte_check; [vm_compute; reflexivity|lia]). unfold P in H. lia.
Qed.

(** lpEncodeIntegerGetType produces a well-shaped encoding of its argument. *)
Lemma shape_int v : in_s 64 v -> shape (EInt v) (lpEncodeIntegerGetType v).
Proof.
  intros Hv. unfold lpEncodeIntegerGetType. rewrite !Z.geb_leb.
  destruct ((0 <=? v) && (v <=? 127)) eqn:E1; [constructor; lia|].
  destruct ((-4096 <=? v) && (v <=? 4095)) eqn:E2.
  { set (w := if v <? 0 then Z.shiftl 1 13 + v else v).
    assert (in_s 13 v) as Hs by (unfold in_s; pow_const; lia).
    assert (w = v mod 2 ^ 13) as Hw by (rewrite signed_repr by (done || lia); done).
    pose proof (Z.mod_pos_bound v (2 ^ 13)) as Hb. rewrite <- Hw in Hb. pow_const.
    rewrite land_255, Z.shiftr_div_pow2 by lia. pow_const.
    assert (0 <= w / 256 < 32) by (Z.to_euclidean_division_equations; lia).
    rewrite lor_192, u_id by (pow_const; lia).
    constructor; [done|lia|apply Z.mod_pos_bound; lia|]. pow_const. rewrite <- Hw. Z.to_euclidean_division_equations; lia. }
  assert (forall n w, w = 8 * Z.of_nat n -> 0 < w -> in_s w v ->
            le_enc n (if v <? 0 then Z.shiftl 1 w + v else v) = le_enc n v) as Haux.
  { intros n w Hw Hw0 Hin. rewrite Z.shiftl_1_l. by apply le_enc_trunc. }
  rewrite !u8_land.
  destruct ((-32768 <=? v) && (v <=? 32767)) eqn:E3.
  { rewrite <- le_enc_2, (Haux 2%nat 16) by (done || (unfold in_s; pow_const; lia)).
    constructor; [constructor|unfold in_s; pow_const; lia]. }
  destruct ((-8388608 <=? v) && (v <=? 8388607)) eqn:E4.
  { rewrite <- le_enc_3, (Haux 3%nat 24) by (done || (unfold in_s; pow_const; lia)).
    constructor; [constructor|unfold in_s; pow_const; lia]. }
  destruct ((-2147483648 <=? v) && (v <=? 2147483647)) eqn:E5.
  { rewrite <- le_enc_4, (Haux 4%nat 32) by (done || (unfold in_s; pow_const; lia)).
    constructor; [constructor|unfold in_s; pow_const; lia]. }
  rewrite <- le_enc_8. unfold u. rewrite (le_enc_mod 8). constructor; [constructor|done].
Qed.

(** Stores into the cells [hd] that follow [pre], and right after them. *)
Lemma set1_in {A} i (pre hd rest : list A) y off :
  off = zlength pre + Z.of_nat i -> (i < length hd)%nat ->
  set1 off y (pre ++ hd ++ rest) = Ok (pre ++ <[i := y]> hd ++ rest).
Proof.
  intros -> Hi. rewrite set1_insert by len. f_equal.
  replace (Z.to_nat (zlength pre + Z.of_nat i)) with (length pre + i)%nat by lia.
  rewrite insert_app_r. by rewrite insert_app_l.
Qed.

Lemma store_after {A} (pre hd old new post : list A) off :
  off = zlength pre + zlength hd -> length old = length new ->
  store off new (pre ++ hd ++ old ++ post) = Ok (pre ++ hd ++ new ++ post).
Proof. intros -> Hl. rewrite !(app_assoc pre). apply store_app; [len|done]. Qed.

(** ** Strings *)

(** What lpEncodeString writes. *)
Definition enc_str (str : list Z) : list Z :=
  let len := zlength str in
  if len <? 64 then Z.lor len 0x80 :: str
  else if len <? 4096 then Z.lor (Z.shiftr len 8) 0xE0 :: Z.land len 0xff :: str
  else 0xF0 :: le_enc 4 len ++ str.

Lemma lor_consts v :
  (0 <= v < 64 -> Z.lor v 0x80 = 128 + v) /\ (0 <= v < 16 -> Z.lor v 0xE0 = 224 + v).
Proof.
  set (P v := ((Z.lor v 0x80 =? 128 + v) || (64 <=? v)) && ((Z.lor v 0xE0 =? 224 + v) || (16 <=? v))).
  destruct (decide (0 <= v < 256)) as [Hv|]; [|lia].
  assert (P v = true) as H by (apply byte_check; [vm_compute; reflexivity|done]). unfold P in H. lia.
Qed.

Lemma shape_str str : bytes_ok str -> zlength str < 2 ^ 32 - 5 -> shape (EStr str) (enc_str str).
Proof.
  intros Hb Hl. unfold enc_str. destruct (Z.ltb_spec (zlength str) 64).
  { rewrite (proj1 (lor_consts _)) by lia. by constructor. }
  destruct (Z.ltb_spec (zlength str) 4096); [|by constructor].
  rewrite Z.shiftr_div_pow2, land_255 by lia. pow_const.
  assert (0 <= zlength str / 256 < 16) by (Z.to_euclidean_division_equations; lia).
  rewrite (proj2 (lor_consts _)) by lia.
  constructor; [done|lia|apply Z.mod_pos_bound; lia|]. Z.to_euclidean_division_equations; lia.
Qed.

Lemma encodeString_spec pre mid post str dst :
  bytes_ok str -> zlength str < 2 ^ 32 -> dst = zlength pre -> length mid = length (enc_str str) ->
  lpEncodeString (pre ++ mid ++ post) dst str (zlength str) = Ok (pre ++ enc_str str ++ post).
Proof.
  intros Hb Hl -> Hm. unfold lpEncodeString, enc_str in *.
  assert (load 0 (zlength str) str = Ok str) as Hld.
  { pose proof (load_app [] str [] 0 (zlength str) eq_refl eq_refl) as H. by rewrite app_nil_r in H. }
  rewrite Hld. destruct (Z.ltb_spec (zlength str) 64); [|destruct (Z.ltb_spec (zlength str) 4096)].
  - destruct mid as [|m0 mid]; [done|]. cbn [length] in Hm.
    change ((m0 :: mid) ++ post) with ([m0] ++ mid ++ post).
    rewrite (set1_in 0) by len. rewrite store_after by len. done.
  - destruct mid as [|m0 [|m1 mid]]; try done. cbn [length] in Hm.
    change ((m0 :: m1 :: mid) ++ post) with ([m0; m1] ++ mid ++ post).
    rewrite (set1_in 0) by len. rewrite (set1_in 1) by len. rewrite store_after by len. done.
  - destruct mid as [|m0 [|m1 [|m2 [|m3 [|m4 mid]]]]]; try (rewrite le_enc_4 in Hm; done).
    rewrite le_enc_4 in *. cbn [length app] in Hm.
    change ((m0 :: m1 :: m2 :: m3 :: m4 :: mid) ++ post) with ([m0; m1; m2; m3; m4] ++ mid ++ post).
    rewrite (set1_in 0) by len. rewrite (set1_in 1) by len. rewrite (set1_in 2) by len.
    rewrite (set1_in 3) by len. rewrite (set1_in 4) by len. rewrite store_after by len. done.
Qed.

(** * Decoding *)

Lemma shape_head e enc : shape e enc ->
  exists b rest, enc = b :: rest /\ 0 <= b < 245 /\ bytes_ok enc /\ zlength enc < 2 ^ 32.
Proof.
  intros Hs. destruct Hs as [v|v b0 b1|tag n v Ht ?|str Hb ?|str b0 b1 Hb|str Hb ?].
  1,2: do 2 eexists; (split; [done|]); split_and!; [lia..|repeat constructor; lia|by vm_compute].
  - do 2 eexists; split; [done|]. split; [destruct Ht; lia|]. split.
    + constructor; [destruct Ht; lia|apply le_enc_bytes].
    + cbn [length]. rewrite length_le_enc. destruct Ht; by vm_compute.
  - do 2 eexists; split; [done|]. pow_const. split_and!; [lia..|constructor; [lia|done]|cbn [length]; lia].
  - do 2 eexists; split; [done|]. pow_const.
    split_and!; [lia..|repeat (constructor; [lia|]); done|cbn [length]; lia].
  - do 2 eexists; split; [done|]. pow_const. split_and!; [lia..| |len].
    constructor; [lia|]. apply Forall_app; split; [apply le_enc_bytes|done].
Qed.

Lemma get1_second {A} (pre : list A) x y post : get1 (zlength pre + 1) (pre ++ x :: y :: post) = Ok y.
Proof.
  replace (pre ++ x :: y :: post) with ((pre ++ [x]) ++ y :: post) by by rewrite <- app_assoc.
  apply get1_app. len.
Qed.

Lemma get_le_second n pre x bs post :
  length bs = n -> bytes_ok bs ->
  get_le n (pre ++ x :: bs ++ post) (zlength pre + 1) = Ok (le_dec bs).
Proof.
  intros Hl Hb. replace (pre ++ x :: bs ++ post) with ((pre ++ [x]) ++ bs ++ post) by by rewrite <- app_assoc.
  apply get_le_app; [done..|len].
Qed.

Lemma str12_len b0 b1 : 224 <= b0 < 240 -> 0 <= b1 < 256 ->
  Z.lor (Z.shiftl (Z.land b0 0xF) 8) b1 = (b0 - 224) * 256 + b1.
Proof.
  intros H0 H1. rewrite (proj2 (proj2 (proj2 (byte_masks b0 ltac:(lia))))) by lia.
  rewrite Z.lor_comm, lor_shl_add by lia. lia.
Qed.

Ltac enc_head := rewrite <- ?app_comm_cons, get1_app by done.
(** Decide the encoding tests of the byte [b]. *)
Ltac enc_decide b := enc_tests b; rewrite ?Z.eqb_refl; repeat zif; cbn [andb].

Lemma size_unsafe e enc pre post :
  shape e enc -> lpCurrentEncodedSizeUnsafe (pre ++ enc ++ post) (zlength pre) = Ok (zlength enc).
Proof.
  intros Hs. unfold lpCurrentEncodedSizeUnsafe.
  destruct Hs as [v|v b0 b1|tag n v Ht ?|str Hb ?|str b0 b1 Hb|str Hb ?]; enc_head.
  - by enc_decide v.
  - by enc_decide b0.
  - by destruct Ht.
  - unfold LP_ENCODING_6BIT_STR_LEN. set (b := 128 + zlength str). enc_decide b. enc_head.
    rewrite (proj1 (proj2 (byte_masks b ltac:(lia)))) by lia. f_equal. cbn [length]. lia.
  - unfold LP_ENCODING_12BIT_STR_LEN. enc_decide b0. rewrite get1_second. enc_head.
    rewrite str12_len by done. f_equal. cbn [length]. lia.
  - unfold LP_ENCODING_32BIT_STR_LEN. rewrite <- app_assoc.
    rewrite get_le_second by (done || apply le_enc_bytes). rewrite le_dec_enc. pow_const.
    rewrite Z.mod_small by lia. enc_decide 240. rewrite u_id by (pow_const; lia). f_equal. len.
Qed.

(** The bytes needed to read the length are inside the encoding. *)
Lemma size_bytes e b rest :
  shape e (b :: rest) -> 1 <= lpCurrentEncodedSizeBytes b <= zlength (b :: rest).
Proof.
  intros Hs. unfold lpCurrentEncodedSizeBytes.
  inversion Hs as [v|v b0 b1|tag n v Ht ? |str Hb ?|str b0 b1 Hb|str Hb ?]; subst.
  - enc_decide b. len.
  - enc_decide b. len.
  - destruct Ht; vm_compute; split; congruence.
  - set (c := 128 + zlength rest). enc_decide c. len.
  - enc_decide b. len.
  - enc_decide 240. len.
Qed.

(** ** Integers *)

Lemma int_result_spec w v :
  0 < w <= 64 -> in_s w v -> lp_int_result (v mod 2 ^ w) (2 ^ (w - 1)) (2 ^ w - 1) None = Ok (LpInt v).
Proof.
  intros Hw Hv. unfold lp_int_result. do 2 f_equal. rewrite signed_repr by (done || lia).
  destruct Hv as [H1 H2]. pose proof (pow2_split w ltac:(lia)) as Hp.
  pose proof (Z.pow_le_mono_r 2 w 64 ltac:(lia) ltac:(lia)) as Hle.
  pose proof (Z.pow_le_mono_r 2 (w - 1) 63 ltac:(lia) ltac:(lia)) as Hle'.
  rewrite Z.geb_leb. destruct (Z.ltb_spec v 0).
  - zif. rewrite u_id by (pow_const; lia). rewrite (s_id 64 (2 ^ w - 1 - (2 ^ w + v))) by (unfold in_s; pow_const; lia).
    rewrite s_id by (unfold in_s; pow_const; lia). lia.
  - zif. by rewrite s_id by (unfold in_s; pow_const; lia).
Qed.

Lemma sh13_uval b0 b1 : 192 <= b0 < 224 -> 0 <= b1 < 256 ->
  Z.lor (Z.shiftl (Z.land b0 0x1f) 8) b1 = (b0 - 192) * 256 + b1.
Proof.
  intros H0 H1. rewrite (proj1 (proj2 (proj2 (byte_masks b0 ltac:(lia))))) by lia.
  rewrite Z.lor_comm, lor_shl_add by lia. lia.
Qed.

(** The value lpGet finds in the encoding of [e] at offset [p]. *)
Definition get_result (p : Z) (e : elem) (enc : list Z) : lpval :=
  match e with
  | EInt v => LpInt v
  | EStr str => LpStr (p + (zlength enc - zlength str)) (zlength str)
  end.

Lemma getWithBuf_spec e enc pre post :
  shape e enc ->
  lpGetWithBuf (pre ++ enc ++ post) (zlength pre) None = Ok (get_result (zlength pre) e enc).
Proof.
  intros Hs. unfold lpGetWithBuf, get_result.
  destruct Hs as [v|v b0 b1 Hv|tag n v Ht Hv|str Hb ?|str b0 b1 Hb|str Hb ?]; enc_head.
  - enc_decide v. rewrite (proj1 (byte_masks v ltac:(lia))) by lia. unfold lp_int_result, ULLONG_MAX.
    zif. do 2 f_equal. apply s_id; unfold in_s; pow_const; lia.
  - rewrite get1_second. enc_decide b0. rewrite sh13_uval by done.
    replace ((b0 - 192) * 256 + b1) with (v mod 2 ^ 13) by lia. by apply (int_result_spec 13).
  - destruct Ht; [enc_decide 241|enc_decide 242|enc_decide 243|enc_decide 244];
      rewrite get_le_second by (done || apply le_enc_bytes); rewrite le_dec_enc.
    + by apply (int_result_spec 16).
    + by apply (int_result_spec 24).
    + by apply (int_result_spec 32).
    + by apply (int_result_spec 64).
  - unfold LP_ENCODING_6BIT_STR_LEN. set (b := 128 + zlength str). enc_decide b. enc_head.
    rewrite (proj1 (proj2 (byte_masks b ltac:(lia)))) by lia. do 2 f_equal; len.
  - unfold LP_ENCODING_12BIT_STR_LEN. enc_decide b0. rewrite get1_second. enc_head.
    rewrite str12_len by done. do 2 f_equal; len.
  - unfold LP_ENCODING_32BIT_STR_LEN. rewrite <- app_assoc. enc_decide 240.
    rewrite get_le_second by (done || apply le_enc_bytes). rewrite le_dec_enc. pow_const.
    rewrite Z.mod_small by lia. do 2 f_equal; len.
Qed.

Lemma getWithSize_spec e enc pre post es0 :
  shape e enc ->
  lpGetWithSize (pre ++ enc ++ post) (zlength pre) None es0 =
  Ok (get_result (zlength pre) e enc, zlength enc + lpEncodeBacklenBytes (zlength enc)).
Proof.
  intros Hs. unfold lpGetWithSize, get_result.
  destruct Hs as [v|v b0 b1 Hv|tag n v Ht Hv|str Hb ?|str b0 b1 Hb|str Hb ?]; enc_head.
  - enc_decide v. rewrite (proj1 (byte_masks v ltac:(lia))) by lia. unfold lp_int_result, ULLONG_MAX.
    zif. do 3 f_equal. apply s_id; unfold in_s; pow_const; lia.
  - rewrite get1_second. enc_decide b0. rewrite sh13_uval by done.
    replace ((b0 - 192) * 256 + b1) with (v mod 2 ^ 13) by lia. by rewrite (int_result_spec 13).
  - destruct Ht; [enc_decide 241|enc_decide 242|enc_decide 243|enc_decide 244];
      rewrite get_le_second by (done || apply le_enc_bytes); rewrite le_dec_enc.
    + by rewrite (int_result_spec 16).
    + by rewrite (int_result_spec 24).
    + by rewrite (int_result_spec 32).
    + by rewrite (int_result_spec 64).
  - unfold LP_ENCODING_6BIT_STR_LEN. set (b := 128 + zlength str). enc_decide b. enc_head.
    rewrite (proj1 (proj2 (byte_masks b ltac:(lia)))) by lia.
    replace (b - 128) with (zlength str) by lia. cbn [length]. do 2 f_equal; [f_equal; lia|].
    replace (Z.of_nat (S (length str))) with (zlength str + 1) by lia. lia.
  - unfold LP_ENCODING_12BIT_STR_LEN. enc_decide b0. rewrite get1_second. enc_head.
    rewrite str12_len by done. replace ((b0 - 224) * 256 + b1) with (zlength str) by lia. cbn [length].
    replace (Z.of_nat (S (S (length str)))) with (zlength str + 2) by lia. do 2 f_equal; [f_equal; lia|lia].
  - unfold LP_ENCODING_32BIT_STR_LEN. rewrite <- app_assoc. enc_decide 240.
    rewrite get_le_second by (done || apply le_enc_bytes). rewrite le_dec_enc. pow_const.
    rewrite Z.mod_small by lia. cbn [length]. rewrite length_app, length_le_enc.
    replace (Z.of_nat (S (4 + length str))) with (zlength str + 5) by lia. do 2 f_equal; [f_equal; lia|lia].
Qed.

(** * The length written backwards *)

Lemma encodeBacklen_bytes l : lpEncodeBacklenBytes l = zlength (lpEncodeBacklen l).
Proof. unfold lpEncodeBacklenBytes, lpEncodeBacklen. by repeat case_match. Qed.

Lemma backlen_byte g : 0 <= g < 128 ->
  Z.lor g 128 = 128 + g /\ Z.land (128 + g) 127 = g /\ Z.land (128 + g) 128 = 128 /\
  Z.land g 127 = g /\ Z.land g 128 = 0.
Proof.
  intros Hg. set (P g := (128 <=? g) || (Z.lor g 128 =? 128 + g) && (Z.land (128 + g) 127 =? g) &&
    (Z.land (128 + g) 128 =? 128) && (Z.land g 127 =? g) && (Z.land g 128 =? 0)).
  assert (P g = true) as H by (apply byte_check; [vm_compute; reflexivity|lia]). unfold P in H. lia.
Qed.

Lemma decode_val val g shift :
  0 <= shift <= 28 -> 0 <= val < 2 ^ shift -> 0 <= g < 128 ->
  Z.lor val (u64 (Z.shiftl g shift)) = val + g * 2 ^ shift /\ 0 <= val + g * 2 ^ shift < 2 ^ (shift + 7).
Proof.
  intros Hs Hv Hg. pose proof (Z.pow_le_mono_r 2 shift 28 ltac:(lia) ltac:(lia)).
  rewrite u_id by (rewrite Z.shiftl_mul_pow2 by lia; pow_const; nia).
  rewrite lor_shl_add by lia. rewrite Z.pow_add_r by lia. split; [done|]. pow_const. nia.
Qed.

Lemma decode_more fuel lp p g val shift :
  get1 p lp = Ok (128 + g) -> 0 <= g < 128 -> 0 <= shift <= 21 -> 0 <= val < 2 ^ shift ->
  lpDecodeBacklen_loop (S fuel) lp p val shift =
  lpDecodeBacklen_loop fuel lp (p - 1) (val + g * 2 ^ shift) (shift + 7).
Proof.
  intros Hp Hg Hs Hv. cbn [lpDecodeBacklen_loop]. rewrite Hp.
  destruct (backlen_byte g Hg) as (_ & -> & -> & _). rewrite (proj1 (decode_val val g shift ltac:(lia) Hv Hg)).
  simpl. by zif.
Qed.

Lemma decode_stop fuel lp p g val shift :
  get1 p lp = Ok g -> 0 <= g < 128 -> 0 <= shift <= 28 -> 0 <= val < 2 ^ shift ->
  lpDecodeBacklen_loop (S fuel) lp p val shift = Ok (val + g * 2 ^ shift).
Proof.
  intros Hp Hg Hs Hv. cbn [lpDecodeBacklen_loop]. rewrite Hp.
  destruct (backlen_byte g Hg) as (_ & _ & _ & -> & ->). by rewrite (proj1 (decode_val val g shift ltac:(lia) Hv Hg)).
Qed.

(** A continuation byte of the backward length. *)
Lemma backlen_cont l : Z.lor (Z.land l 127) 128 = 128 + l mod 128.
Proof. rewrite land_127. apply backlen_byte, Z.mod_pos_bound. lia. Qed.

Lemma get1_nth {A} (pre l post : list A) i x off :
  l !! i = Some x -> off = zlength pre + Z.of_nat i -> get1 off (pre ++ l ++ post) = Ok x.
Proof.
  intros Hl ->. apply get1_Ok. split; [lia|].
  replace (Z.to_nat (zlength pre + Z.of_nat i)) with (length pre + i)%nat by lia.
  rewrite lookup_app_r, Nat.add_sub' by lia. by apply lookup_app_l_Some.
Qed.

(** The number whose 7-bit groups are [gs], low first, and then [hi]. *)
Fixpoint ungroup (gs : list Z) (hi : Z) : Z :=
  match gs with [] => hi | g :: gs => g + 128 * ungroup gs hi end.

Lemma decode_groups gs : forall fuel hi val shift pre post,
  Forall (fun g => 0 <= g < 128) gs -> 0 <= hi < 128 -> 0 <= shift -> 0 <= val < 2 ^ shift ->
  shift + 7 * zlength gs <= 28 -> (length gs < fuel)%nat ->
  lpDecodeBacklen_loop fuel (pre ++ (hi :: map (Z.add 128) (rev gs)) ++ post) (zlength pre + zlength gs) val shift
  = Ok (val + ungroup gs hi * 2 ^ shift).
Proof.
  induction gs as [|g gs IH]; intros [|fuel] hi val shift pre post Hg Hhi Hs Hv Hsh Hf; cbn [length] in *; try lia.
  - apply decode_stop; [|done|lia|done]. eapply (get1_nth _ _ _ 0); [done|lia].
  - apply Forall_cons_1 in Hg as [Hg Hgs]. rewrite decode_more with (g := g); [|cbn [rev]|done|lia|done].
    2: { eapply (get1_nth _ _ _ (S (length gs))); [|lia].
         change (map (Z.add 128) (rev gs ++ [g]) !! length gs = Some (128 + g)).
         rewrite map_app, lookup_app_r; rewrite length_map, length_rev; [|lia]. by rewrite Nat.sub_diag. }
    simpl rev. rewrite map_app. cbn [map]. rewrite app_comm_cons, <- app_assoc. simpl app.
    replace (zlength pre + Z.of_nat (S (length gs)) - 1) with (zlength pre + zlength gs) by lia.
    destruct (decode_val val g shift) as [_ Hr]; [lia|done|done|].
    pose proof (IH fuel hi (val + g * 2 ^ shift) (shift + 7) pre ((128 + g) :: post)) as IH'.
    simpl app in IH'. rewrite IH' by (done || lia). f_equal. cbn [ungroup]. rewrite Z.pow_add_r by lia. lia.
Qed.

Lemma group_step l k : 0 <= k -> l / 2 ^ k mod 128 + 128 * (l / 2 ^ (k + 7)) = l / 2 ^ k.
Proof.
  intros Hk. rewrite Z.pow_add_r, <- Z.div_div by lia. change (2 ^ 7) with 128.
  pose proof (Z.div_mod (l / 2 ^ k) 128 ltac:(lia)). lia.
Qed.

(** lpDecodeBacklen, started on the last byte, recovers the encoded length. *)
Lemma decodeBacklen_spec l pre post :
  0 <= l < 2 ^ 35 ->
  lpDecodeBacklen (pre ++ lpEncodeBacklen l ++ post) (zlength pre + zlength (lpEncodeBacklen l) - 1) = Ok l.
Proof.
  intros Hl. unfold lpDecodeBacklen.
  assert (exists gs hi, lpEncodeBacklen l = hi :: map (Z.add 128) (rev gs) /\
            Forall (fun g => 0 <= g < 128) gs /\ 0 <= hi < 128 /\ (length gs <= 4)%nat /\ ungroup gs hi = l)
    as (gs & hi & -> & Hgs & Hhi & Hlen & Hu).
  { assert (forall k, 0 <= l / 2 ^ k mod 128 < 128) as Hm by (intros; apply Z.mod_pos_bound; lia).
    pose proof (group_step l 0 ltac:(lia)) as G0. pose proof (group_step l 7 ltac:(lia)) as G1.
    pose proof (group_step l 14 ltac:(lia)) as G2. pose proof (group_step l 21 ltac:(lia)) as G3.
    rewrite Z.pow_0_r, Z.div_1_r in G0.
    change (0 + 7) with 7 in G0. change (7 + 7) with 14 in G1. change (14 + 7) with 21 in G2. change (21 + 7) with 28 in G3.
    assert (0 <= l mod 128 < 128) as Hm0 by (apply Z.mod_pos_bound; lia).
    unfold lpEncodeBacklen. rewrite !backlen_cont, !Z.shiftr_div_pow2 by lia.
    destruct (Z.leb_spec l 127).
    { exists [], l. split_and!; [done|done|lia|lia|cbn [length]; lia|done]. }
    destruct (Z.ltb_spec l 16383).
    { exists [l mod 128], (l / 2 ^ 7). assert (0 <= l / 2 ^ 7 < 128) by (pow_const; Z.to_euclidean_division_equations; lia).
      rewrite u_id by (pow_const; lia). split_and!; [done|repeat constructor; lia|lia..|cbn [length]; lia|simpl; lia]. }
    destruct (Z.ltb_spec l 2097151).
    { exists [l mod 128; l / 2 ^ 7 mod 128], (l / 2 ^ 14).
      assert (0 <= l / 2 ^ 14 < 128) by (pow_const; Z.to_euclidean_division_equations; lia).
      rewrite u_id by (pow_const; lia).
      split_and!; [done|repeat constructor; (lia || apply Hm)|lia..|cbn [length]; lia|cbn [ungroup]; lia]. }
    destruct (Z.ltb_spec l 268435455).
    { exists [l mod 128; l / 2 ^ 7 mod 128; l / 2 ^ 14 mod 128], (l / 2 ^ 21).
      assert (0 <= l / 2 ^ 21 < 128) by (pow_const; Z.to_euclidean_division_equations; lia).
      rewrite u_id by (pow_const; lia).
      split_and!; [done|repeat constructor; (lia || apply Hm)|lia..|cbn [length]; lia|cbn [ungroup]; lia]. }
    exists [l mod 128; l / 2 ^ 7 mod 128; l / 2 ^ 14 mod 128; l / 2 ^ 21 mod 128], (l / 2 ^ 28).
    assert (0 <= l / 2 ^ 28 < 128) by (pow_const; Z.to_euclidean_division_equations; lia).
    rewrite u_id by (pow_const; lia).
    split_and!; [done|repeat constructor; (lia || apply Hm)|lia..|cbn [length]; lia|cbn [ungroup]; lia]. }
  cbn [length]. rewrite length_map, length_rev.
  replace (zlength pre + Z.of_nat (S (length gs)) - 1) with (zlength pre + zlength gs) by lia.
  rewrite decode_groups; auto; [f_equal; lia|lia..].
Qed.
