(* ===== verification/ListpackSeq.v ===== *)
(** Listpacks as sequences: the representation invariant and the traversal and
    reading operations of src/redis-stable/src/listpack.c on a well-formed listpack. *)

From S2P Require Import Prelude Machine UtilNum Listpack ListpackEnc.

(** * Representation *)

(** The encoding the API gives to an element. *)
Definition enc_elem (e : elem) : list Z :=
  match e with EInt v => lpEncodeIntegerGetType v | EStr str => enc_str str end.

Definition elem_ok (e : elem) : Prop :=
  match e with
  | EInt v => in_s 64 v
  | EStr str => bytes_ok str /\ zlength str < 2 ^ 32 - 5
  end.

Definition entry (e : elem) : list Z := enc_elem e ++ lpEncodeBacklen (zlength (enc_elem e)).
Definition entries (es : list elem) : list Z := concat (map entry es).
Definition total (es : list elem) : Z := 7 + zlength (entries es).

(** A listpack with [n] in its count field, the elements [es], and [slack] bytes of
    the allocation after the terminator. *)
Definition lp_of (n : Z) (es : list elem) (slack : list Z) : list Z :=
  (le_enc 4 (total es) ++ le_enc 2 n) ++ entries es ++ LP_EOF :: slack.

(** The count field: the number of elements, or "unknown". *)
Definition count_ok (n : Z) (es : list elem) : Prop :=
  n = LP_HDR_NUMELE_UNKNOWN \/ (n = zlength es /\ n < LP_HDR_NUMELE_UNKNOWN).

Record lp_wf (n : Z) (es : list elem) : Prop := {
  wf_count : count_ok n es;
  wf_total : total es <= UINT32_MAX;
  wf_elems : Forall elem_ok es
}.

Definition is_listpack (lp : list Z) (es : list elem) : Prop :=
  exists n slack, lp = lp_of n es slack /\ lp_wf n es.

(** The offset just after the elements [es]. *)
Definition pos (es : list elem) : Z := LP_HDR_SIZE + zlength (entries es).
(** The offset of element [i]; for the number of elements, that of the terminator. *)
Definition ptr (es : list elem) (i : nat) : Z := pos (take i es).
(** A pointer to element [i], NULL past the end. *)
Definition ptr_opt (es : list elem) (i : nat) : option Z :=
  if decide (i < length es)%nat then Some (ptr es i) else None.

(** * Entries *)

Lemma shape_elem e : elem_ok e -> shape e (enc_elem e).
Proof. destruct e; simpl; [apply shape_int|intros [? ?]; by apply shape_str]. Qed.

Lemma entries_app es1 es2 : entries (es1 ++ es2) = entries es1 ++ entries es2.
Proof. unfold entries. by rewrite map_app, concat_app. Qed.

Lemma entries_cons e es : entries (e :: es) = entry e ++ entries es.
Proof. done. Qed.

Lemma entry_size e : zlength (entry e) = zlength (enc_elem e) + lpEncodeBacklenBytes (zlength (enc_elem e)).
Proof. unfold entry. rewrite length_app, Nat2Z.inj_add, encodeBacklen_bytes. done. Qed.

Lemma backlenBytes_range l : 1 <= lpEncodeBacklenBytes l <= 5.
Proof. unfold lpEncodeBacklenBytes. repeat case_match; lia. Qed.

Lemma enc_elem_pos e : elem_ok e -> 1 <= zlength (enc_elem e) < 2 ^ 32.
Proof.
  intros He. destruct (shape_head _ _ (shape_elem e He)) as (b & rest & Heq & _ & _ & ?).
  rewrite Heq in *. cbn [length] in *. lia.
Qed.

Lemma entry_pos e : elem_ok e -> 2 <= zlength (entry e).
Proof. intros He. rewrite entry_size. pose proof (enc_elem_pos e He). pose proof (backlenBytes_range (zlength (enc_elem e))). lia. Qed.

Lemma entry_head e : elem_ok e -> exists b rest, entry e = b :: rest /\ 0 <= b < 245.
Proof.
  intros He. destruct (shape_head _ _ (shape_elem e He)) as (b & rest & Heq & Hb & _).
  unfold entry. rewrite Heq. by do 2 eexists.
Qed.

Lemma skip_entry pre e post :
  elem_ok e -> lpSkip (pre ++ entry e ++ post) (zlength pre) = Ok (zlength pre + zlength (entry e)).
Proof.
  intros He. unfold lpSkip. rewrite entry_size. unfold entry. rewrite <- app_assoc.
  by rewrite (size_unsafe e) by by apply shape_elem.
Qed.

(** Reading the entry that ends right before [post]. *)
Lemma backlen_entry pre e post :
  elem_ok e ->
  lpDecodeBacklen (pre ++ entry e ++ post) (zlength pre + zlength (entry e) - 1) = Ok (zlength (enc_elem e)).
Proof.
  intros He. pose proof (enc_elem_pos e He). unfold entry at 1. rewrite <- app_assoc, app_assoc.
  replace (zlength pre + zlength (entry e) - 1) with
    (zlength (pre ++ enc_elem e) + zlength (lpEncodeBacklen (zlength (enc_elem e))) - 1)
    by (rewrite entry_size, encodeBacklen_bytes; len).
  apply decodeBacklen_spec. pow_const. lia.
Qed.

(** * Header and position lemmas *)

Lemma length_hdr es n : length (le_enc 4 (total es) ++ le_enc 2 n) = 6%nat.
Proof. by rewrite length_app, !length_le_enc. Qed.

Lemma total_nonneg es : 7 <= total es.
Proof. unfold total. lia. Qed.

Lemma get_le_front n bs post :
  length bs = n -> bytes_ok bs -> get_le n (bs ++ post) 0 = Ok (le_dec bs).
Proof. intros. by apply (get_le_app n []). Qed.

Lemma getTotal n es slack :
  total es <= UINT32_MAX -> lpGetTotalBytes (lp_of n es slack) = Ok (total es).
Proof.
  intros Ht. unfold lpGetTotalBytes, lp_of, UINT32_MAX in *. pose proof (total_nonneg es).
  rewrite <- app_assoc, get_le_front by (by rewrite ?length_le_enc || apply le_enc_bytes).
  rewrite le_dec_enc, Z.mod_small by (simpl; pow_const; lia). done.
Qed.

Lemma getNumele n es slack :
  0 <= n < 65536 -> lpGetNumElements (lp_of n es slack) = Ok n.
Proof.
  intros Hn. unfold lpGetNumElements, lp_of. rewrite <- !app_assoc.
  rewrite (get_le_app 2) by (by rewrite ?length_le_enc || apply le_enc_bytes).
  rewrite le_dec_enc, Z.mod_small by (simpl; pow_const; lia). done.
Qed.

Lemma count_range n es : count_ok n es -> 0 <= n < 65536.
Proof. unfold count_ok, LP_HDR_NUMELE_UNKNOWN. lia. Qed.

(** The listpack seen from the element that follows [es1]. *)
Lemma lp_split n es1 es2 slack :
  lp_of n (es1 ++ es2) slack =
  ((le_enc 4 (total (es1 ++ es2)) ++ le_enc 2 n) ++ entries es1) ++ entries es2 ++ LP_EOF :: slack.
Proof. unfold lp_of. by rewrite entries_app, <- !app_assoc. Qed.

Lemma length_upto n es1 es2 :
  zlength ((le_enc 4 (total (es1 ++ es2)) ++ le_enc 2 n) ++ entries es1) = pos es1.
Proof. rewrite length_app, length_hdr. unfold pos, LP_HDR_SIZE. lia. Qed.

Lemma pos_snoc es e : pos (es ++ [e]) = pos es + zlength (entry e).
Proof. unfold pos. rewrite entries_app, length_app. unfold entries at 2. simpl. rewrite app_nil_r. lia. Qed.

Lemma pos_ge es : 6 <= pos es.
Proof. unfold pos, LP_HDR_SIZE. lia. Qed.

Lemma total_split es1 es2 : total (es1 ++ es2) = pos es1 + zlength (entries es2) + 1.
Proof. unfold total, pos, LP_HDR_SIZE. rewrite entries_app, length_app. lia. Qed.

Lemma total_at es1 e es2 : total (es1 ++ e :: es2) = pos es1 + zlength (entry e) + zlength (entries es2) + 1.
Proof. rewrite total_split, entries_cons, length_app. lia. Qed.

Lemma ptr_mid es1 es2 : ptr (es1 ++ es2) (length es1) = pos es1.
Proof. unfold ptr. by rewrite take_app_length. Qed.

Lemma cons_middle {A} (l1 : list A) x l2 : l1 ++ x :: l2 = (l1 ++ [x]) ++ l2.
Proof. by rewrite <- app_assoc. Qed.

Lemma ptr_opt_mid es1 e es2 : ptr_opt (es1 ++ e :: es2) (length es1) = Some (pos es1).
Proof. unfold ptr_opt. rewrite decide_True by len. by rewrite ptr_mid. Qed.

Lemma ptr_opt_end es : ptr_opt es (length es) = None.
Proof. unfold ptr_opt. by rewrite decide_False by lia. Qed.

(** A pointer to an element splits the sequence there. *)
Lemma elem_split (es : list elem) (i : nat) e :
  es !! i = Some e -> exists es1 es2, es = es1 ++ e :: es2 /\ i = length es1.
Proof.
  intros H. exists (take i es), (drop (S i) es). split; [by rewrite take_drop_middle|].
  apply lookup_lt_Some in H. len.
Qed.

(** The byte at a position is an encoding byte, or the terminator at the end. *)
Lemma byte_at n es1 es2 slack :
  Forall elem_ok es2 ->
  exists b, get1 (pos es1) (lp_of n (es1 ++ es2) slack) = Ok b /\ 0 <= b < 256 /\
    (b =? LP_EOF) = (match es2 with [] => true | _ => false end).
Proof.
  intros Hf. rewrite lp_split, <- (length_upto n es1 es2). destruct es2 as [|e es2].
  - exists LP_EOF. rewrite app_nil_l, get1_app by done. by unfold LP_EOF.
  - apply Forall_cons_1 in Hf as [He _]. destruct (entry_head e He) as (b & rest & Hb & Hr).
    exists b. rewrite entries_cons, Hb, <- !app_comm_cons, get1_app by done. unfold LP_EOF.
    split_and!; [done|lia|lia|]. lia.
Qed.

Lemma skip_at n es1 e es2 slack :
  elem_ok e -> lpSkip (lp_of n (es1 ++ e :: es2) slack) (pos es1) = Ok (pos (es1 ++ [e])).
Proof.
  intros He. rewrite lp_split, <- (length_upto n es1 (e :: es2)), entries_cons, <- (app_assoc (entry e)).
  rewrite skip_entry by done. by rewrite length_upto, pos_snoc.
Qed.

Lemma size_at n es1 e es2 slack :
  elem_ok e -> lpCurrentEncodedSizeUnsafe (lp_of n (es1 ++ e :: es2) slack) (pos es1) = Ok (zlength (enc_elem e)).
Proof.
  intros He. rewrite lp_split, <- (length_upto n es1 (e :: es2)), entries_cons.
  unfold entry. rewrite <- !(app_assoc (enc_elem e)). apply (size_unsafe e). by apply shape_elem.
Qed.

Lemma backlen_at n es1 e es2 slack :
  elem_ok e -> lpDecodeBacklen (lp_of n (es1 ++ e :: es2) slack) (pos (es1 ++ [e]) - 1) = Ok (zlength (enc_elem e)).
Proof.
  intros He. rewrite lp_split, pos_snoc, <- (length_upto n es1 (e :: es2)), entries_cons, <- (app_assoc (entry e)).
  by apply backlen_entry.
Qed.

(** * Traversal *)

Lemma validateNext_at n es1 e es2 slack :
  elem_ok e ->
  lpValidateNext (lp_of n (es1 ++ e :: es2) slack) (Some (pos es1)) (total (es1 ++ e :: es2)) =
  Ok (Some (Some (pos (es1 ++ [e])))).
Proof.
  intros He. unfold lpValidateNext. pose proof (total_at es1 e es2) as Ht. pose proof (pos_ge es1).
  pose proof (entry_pos e He). pose proof (entry_size e) as Hsz. pose proof (enc_elem_pos e He).
  pose proof (backlenBytes_range (zlength (enc_elem e))).
  destruct (shape_head _ _ (shape_elem e He)) as (b & rest & Heq & Hb & _).
  assert (get1 (pos es1) (lp_of n (es1 ++ e :: es2) slack) = Ok b) as ->.
  { rewrite lp_split, <- (length_upto n es1 (e :: es2)), entries_cons. unfold entry. rewrite Heq.
    by rewrite <- !app_comm_cons, get1_app. }
  pose proof (size_bytes e b rest) as Hlb. rewrite <- Heq in Hlb. specialize (Hlb (shape_elem e He)).
  rewrite size_at by done. unfold LP_HDR_SIZE, LP_EOF. repeat (zif; cbn [orb]).
  replace (pos es1 + _) with (pos (es1 ++ [e])) by (rewrite pos_snoc; lia).
  rewrite backlen_at by done. rewrite u_id by (pow_const; lia). rewrite Z.eqb_refl. cbn [negb].
  done.
Qed.

Lemma validateNext_eof n es slack :
  lpValidateNext (lp_of n es slack) (Some (pos es)) (total es) = Ok (Some None).
Proof.
  destruct (byte_at n es [] slack) as (b & Hb & _ & Heof); [done|]. rewrite app_nil_r in Hb.
  pose proof (total_split es []) as Ht. rewrite app_nil_r in Ht. cbn [entries length map concat] in Ht.
  pose proof (pos_ge es). unfold lpValidateNext. rewrite Hb, Heof. unfold LP_HDR_SIZE. by repeat (zif; cbn [orb]).
Qed.

Lemma assertValid_at n es1 es2 slack :
  Forall elem_ok es2 ->
  lpAssertValidEntry (lp_of n (es1 ++ es2) slack) (total (es1 ++ es2)) (pos es1) = Ok tt.
Proof.
  intros Hf. unfold lpAssertValidEntry. destruct es2 as [|e es2].
  - by rewrite app_nil_r, validateNext_eof.
  - rewrite validateNext_at; [done|]. by apply Forall_cons_1 in Hf as [? _].
Qed.

Section Traversal.
Context (n : Z) (slack : list Z).

Lemma numele_at es : lp_wf n es -> lpGetNumElements (lp_of n es slack) = Ok n.
Proof. intros [Hc _ _]. by eapply getNumele, count_range. Qed.

Lemma first_spec es : lp_wf n es -> lpFirst (lp_of n es slack) = Ok (ptr_opt es 0).
Proof.
  intros [_ Ht Hf]. unfold lpFirst, lpBytes. change LP_HDR_SIZE with (pos []).
  destruct (byte_at n [] es slack Hf) as (b & Hb & _ & Heof). simpl app in Hb. rewrite Hb, Heof.
  destruct es as [|e es]; [done|]. rewrite getTotal by done.
  pose proof (assertValid_at n [] (e :: es) slack Hf) as Hv. simpl app in Hv. by rewrite Hv.
Qed.

Lemma next_mid es1 e es2 :
  lp_wf n (es1 ++ e :: es2) ->
  lpNext (lp_of n (es1 ++ e :: es2) slack) (pos es1) = Ok (ptr_opt (es1 ++ e :: es2) (S (length es1))) /\
  lpNextWithBytes (lp_of n (es1 ++ e :: es2) slack) (pos es1) (total (es1 ++ e :: es2)) =
    Ok (ptr_opt (es1 ++ e :: es2) (S (length es1))).
Proof.
  intros [_ Ht Hf]. unfold lpNext, lpNextWithBytes, lpBytes. apply Forall_app in Hf as [_ [He Hf]%Forall_cons_1].
  rewrite skip_at by done. rewrite getTotal by done. rewrite (cons_middle es1 e es2).
  replace (S (length es1)) with (length (es1 ++ [e])) by len.
  destruct (byte_at n (es1 ++ [e]) es2 slack Hf) as (b & Hb & _ & Heof). rewrite Hb, Heof.
  destruct es2 as [|e' es2]; [by rewrite app_nil_r, ptr_opt_end|].
  rewrite assertValid_at by done. by rewrite ptr_opt_mid.
Qed.

Lemma prev_snoc es1 e es2 :
  lp_wf n (es1 ++ e :: es2) ->
  lpPrev (lp_of n (es1 ++ e :: es2) slack) (pos (es1 ++ [e])) = Ok (Some (pos es1)).
Proof.
  intros [_ Ht Hf]. unfold lpPrev, lpBytes. pose proof Hf as Hf'. apply Forall_app in Hf as [_ Hf].
  pose proof Hf as [He _]%Forall_cons_1.
  pose proof (pos_ge es1). pose proof (entry_pos e He). pose proof (pos_snoc es1 e).
  pose proof (entry_size e). pose proof (enc_elem_pos e He). pose proof (backlenBytes_range (zlength (enc_elem e))).
  unfold LP_HDR_SIZE. zif. rewrite backlen_at by done.
  rewrite u_id by (pow_const; lia). rewrite getTotal by done.
  replace (pos (es1 ++ [e]) - 1 - _) with (pos es1) by lia. by rewrite assertValid_at by done.
Qed.

Lemma prev_mid es1 es2 :
  lp_wf n (es1 ++ es2) ->
  lpPrev (lp_of n (es1 ++ es2) slack) (pos es1) =
  Ok (match length es1 with O => None | S i => ptr_opt (es1 ++ es2) i end).
Proof.
  intros Hwf. destruct es1 as [|e es0 _] using rev_ind; [done|].
  rewrite <- cons_middle in *. rewrite prev_snoc by done. rewrite length_app, Nat.add_comm. simpl.
  by rewrite ptr_opt_mid.
Qed.

Lemma last_spec es :
  lp_wf n es ->
  lpLast (lp_of n es slack) = Ok (match length es with O => None | S i => ptr_opt es i end).
Proof.
  intros Hwf. unfold lpLast. rewrite getTotal by apply Hwf. pose proof (total_split es []) as Ht.
  rewrite app_nil_r in Ht. cbn [entries length map concat] in Ht.
  replace (total es - 1) with (pos es) by lia. pose proof (prev_mid es []) as Hp.
  rewrite app_nil_r in Hp. by apply Hp.
Qed.

(** ** Loops *)

Lemma entries_length es : Forall elem_ok es -> 2 * zlength es <= zlength (entries es).
Proof.
  induction 1 as [|e es He Hf IH]; [done|]. rewrite entries_cons, length_app. pose proof (entry_pos e He).
  cbn [length]. lia.
Qed.

Lemma length_lp es : zlength (lp_of n es slack) = total es + zlength slack.
Proof. unfold lp_of, total. rewrite !length_app, !length_le_enc. cbn [length]. lia. Qed.

(** The allocation is long enough for a loop that visits every element. *)
Lemma fuel_enough es : lp_wf n es -> (length es < length (lp_of n es slack))%nat.
Proof.
  intros [_ _ Hf]. pose proof (entries_length es Hf). pose proof (length_lp es). unfold total in *. lia.
Qed.

Lemma length_bound es : lp_wf n es -> zlength es < 2 ^ 31.
Proof.
  intros [_ Ht Hf]. pose proof (entries_length es Hf). unfold total, UINT32_MAX in *. pow_const. lia.
Qed.

Lemma next_at es i :
  lp_wf n es -> (i < length es)%nat -> lpNext (lp_of n es slack) (ptr es i) = Ok (ptr_opt es (S i)).
Proof.
  intros Hwf Hi. destruct (lookup_lt_is_Some_2 es i Hi) as [e He].
  destruct (elem_split es i e He) as (es1 & es2 & -> & ->). rewrite ptr_mid. by apply next_mid.
Qed.

Lemma prev_at es i :
  lp_wf n es -> (i <= length es)%nat ->
  lpPrev (lp_of n es slack) (ptr es i) = Ok (match i with O => None | S i => ptr_opt es i end).
Proof.
  intros Hwf Hi. rewrite <- (take_drop i es) in Hwf |- * at 1. unfold ptr. rewrite prev_mid by done.
  rewrite length_take, Nat.min_l, take_drop by lia. done.
Qed.

Lemma ptr_opt_lt es i : (i < length es)%nat -> ptr_opt es i = Some (ptr es i).
Proof. intros. unfold ptr_opt. by rewrite decide_True. Qed.
Lemma ptr_opt_ge es i : (length es <= i)%nat -> ptr_opt es i = None.
Proof. intros. unfold ptr_opt. rewrite decide_False by lia. done. Qed.

Lemma length_loop_spec es fuel : forall i count,
  lp_wf n es -> (i <= length es)%nat -> (length es - i <= fuel)%nat ->
  0 <= count -> count + (zlength es - Z.of_nat i) < 2 ^ 32 ->
  lpLength_loop fuel (lp_of n es slack) (ptr_opt es i) count = Ok (count + (zlength es - Z.of_nat i)).
Proof.
  induction fuel as [|fuel IH]; intros i count Hwf Hi Hfu Hc Hb;
    (destruct (decide (i = length es)) as [->|]; [rewrite ptr_opt_end; simpl; f_equal; lia|]); [lia|].
  rewrite ptr_opt_lt by lia. cbn [lpLength_loop]. rewrite next_at by (done || lia).
  rewrite u_id by lia. rewrite IH by (done || lia). f_equal. lia.
Qed.

Lemma seek_fwd_spec es fuel : forall i index,
  lp_wf n es -> (length es - i <= fuel)%nat -> 0 <= index ->
  lpSeek_fwd fuel (lp_of n es slack) (ptr_opt es i) index = Ok (ptr_opt es (i + Z.to_nat index)).
Proof.
  induction fuel as [|fuel IH]; intros i index Hwf Hfu Hi;
    (destruct (decide (length es <= i)%nat);
      [rewrite !ptr_opt_ge by lia; by destruct index|]); [lia|].
  rewrite (ptr_opt_lt es i) by lia. cbn [lpSeek_fwd]. rewrite Z.gtb_ltb. destruct (Z.ltb_spec 0 index).
  - rewrite next_at by (done || lia). rewrite IH by (done || lia). do 2 f_equal. lia.
  - rewrite <- (ptr_opt_lt es i) by lia. do 2 f_equal. lia.
Qed.

(** From element [i], [index] = -1 means element [i] itself. *)
Lemma seek_bwd_spec es fuel : forall i index,
  lp_wf n es -> (i < length es)%nat -> (i < fuel)%nat -> index < 0 ->
  lpSeek_bwd fuel (lp_of n es slack) (Some (ptr es i)) index =
  Ok (if Z.of_nat i + 1 + index <? 0 then None else Some (ptr es (Z.to_nat (Z.of_nat i + 1 + index)))).
Proof.
  induction fuel as [|fuel IH]; intros i index Hwf Hil Hfu Hi; [lia|]. cbn [lpSeek_bwd].
  destruct (Z.ltb_spec index (-1)).
  - rewrite prev_at by (done || lia). destruct i as [|i].
    + zif. by destruct fuel.
    + rewrite ptr_opt_lt by lia. rewrite IH by (done || lia).
      replace (Z.of_nat (S i) + 1 + index) with (Z.of_nat i + 1 + (index + 1)) by lia. done.
  - zif. replace (Z.to_nat _) with i by lia. done.
Qed.

(** The element an lpSeek index names: negative ones count from the end. *)
Definition seek_index (len index : Z) : option nat :=
  let i := if index <? 0 then len + index else index in
  if (0 <=? i) && (i <? len) then Some (Z.to_nat i) else None.

Lemma seek_fwd_index es index :
  lp_wf n es -> 0 <= index ->
  (let! ele := lpFirst (lp_of n es slack) in lpSeek_fwd (length (lp_of n es slack)) (lp_of n es slack) ele index) =
  Ok (ptr es <$> seek_index (zlength es) index).
Proof.
  intros Hwf Hi. rewrite first_spec by done. pose proof (fuel_enough es Hwf).
  rewrite seek_fwd_spec by (done || lia). unfold seek_index. zif. simpl. f_equal. zif. cbn [andb].
  destruct (Z.ltb_spec index (zlength es)); [apply ptr_opt_lt|apply ptr_opt_ge]; lia.
Qed.

Lemma seek_bwd_index es index :
  lp_wf n es -> index < 0 ->
  (let! ele := lpLast (lp_of n es slack) in lpSeek_bwd (length (lp_of n es slack)) (lp_of n es slack) ele index) =
  Ok (ptr es <$> seek_index (zlength es) index).
Proof.
  intros Hwf Hi. rewrite last_spec by done. pose proof (fuel_enough es Hwf). unfold seek_index. zif.
  destruct (length es) as [|i] eqn:El.
  - rewrite (proj2 (Z.leb_gt 0 _)) by lia. by destruct (length (lp_of n es slack)).
  - rewrite ptr_opt_lt by lia. rewrite seek_bwd_spec by (done || lia). f_equal.
    replace (Z.of_nat i + 1 + index) with (Z.of_nat (S i) + index) by lia. destruct (Z.ltb_spec (Z.of_nat (S i) + index) 0).
    + by rewrite (proj2 (Z.leb_gt 0 _)) by lia.
    + by repeat (zif; cbn [andb]).
Qed.

Lemma seek_spec es index :
  lp_wf n es -> lpSeek (lp_of n es slack) index = Ok (ptr es <$> seek_index (zlength es) index).
Proof.
  intros Hwf. unfold lpSeek. rewrite numele_at by done.
  destruct (Z.eqb_spec n LP_HDR_NUMELE_UNKNOWN) as [Hn|Hn]; cbn [negb].
  - destruct (Z.ltb_spec index 0); [by apply seek_bwd_index|by apply seek_fwd_index].
  - assert (n = zlength es) as Hn' by (destruct (wf_count _ _ Hwf) as [|[]]; done).
    set (index' := if index <? 0 then n + index else index).
    assert (seek_index (zlength es) index = if (index' <? 0) || (index' >=? n) then None else Some (Z.to_nat index')) as ->.
    { unfold seek_index. rewrite <- Hn'. fold index'. clearbody index'. rewrite Z.geb_leb. zbool; simpl; (done || lia). }
    destruct (Z.ltb_spec index' 0); cbn [orb]; [done|]. destruct (index' >=? n) eqn:E; [done|].
    assert (ptr es <$> Some (Z.to_nat index') = ptr es <$> seek_index (zlength es) index') as ->.
    { unfold seek_index. clearbody index'. repeat (zif; cbn [andb]). done. }
    destruct (index' >? n / 2).
    + rewrite seek_bwd_index by (done || lia). do 2 f_equal. unfold seek_index. clearbody index'.
      repeat (zif; cbn [andb]). f_equal. lia.
    + by rewrite seek_fwd_index.
Qed.

Lemma length_spec es :
  lp_wf n es ->
  exists lp', lpLength (lp_of n es slack) = Ok (zlength es, lp') /\
    lp' = lp_of (if zlength es <? LP_HDR_NUMELE_UNKNOWN then zlength es else n) es slack.
Proof.
  intros Hwf. unfold lpLength. rewrite numele_at by done. pose proof (length_bound es Hwf).
  destruct (Z.eqb_spec n LP_HDR_NUMELE_UNKNOWN) as [Hn|Hn]; cbn [negb].
  - rewrite first_spec by done. pose proof (fuel_enough es Hwf).
    rewrite length_loop_spec by (done || pow_const; lia). rewrite Z.add_0_l, Z.sub_0_r.
    eexists; split; [|done]. destruct (zlength es <? LP_HDR_NUMELE_UNKNOWN); [|done].
    unfold lp_of. rewrite <- !app_assoc. by rewrite set_numele_spec by apply length_le_enc.
  - destruct (wf_count _ _ Hwf) as [|[-> ?]]; [done|]. eexists. split; [done|]. by zif.
Qed.
End Traversal.
