(* ===== verification/ListpackRead.v ===== *)
(** Reading listpacks: the values the getters of src/redis-stable/src/listpack.c
    return, comparison of an entry with a string, and the searches. *)

From S2P Require Import Prelude Machine UtilNum Listpack ListpackEnc ListpackSeq.

(** * Elements as the user sees them *)

(** The bytes an element stands for: integers are their canonical decimal text. *)
Definition elem_text (e : elem) (txt : list Z) : Prop :=
  match e with EInt v => sdecimal v txt | EStr str => txt = str end.

(** The element a byte string is stored as. *)
Definition elem_of (txt : list Z) : elem :=
  match lpStringToInt64 txt (zlength txt) with Ok (Some v) => EInt v | _ => EStr txt end.

Definition elem_eqb (e : elem) (txt : list Z) : bool :=
  match e with
  | EInt v => bool_decide (string2ll txt (zlength txt) = Ok (Some v))
  | EStr str => bool_decide (txt = str)
  end.

Lemma lpStringToInt64_loop_string2ll fuel : forall str slen plen v,
  lpStringToInt64_loop fuel str slen plen v = string2ll_loop fuel str slen plen v.
Proof.
  induction fuel as [|fuel IH]; intros; simpl; [done|]. unfold isdig.
  destruct (_ <? _); [|done]. destruct (get1 _ _) as [c|]; [|done]. destruct (_ && _); [|done].
  destruct (_ >? _); [done|]. destruct (_ >? _); [done|]. apply IH.
Qed.

(** The copy of the integer parser in listpack.c agrees with the one of util.c. *)
Lemma lpStringToInt64_string2ll str slen : lpStringToInt64 str slen = string2ll str slen.
Proof.
  unfold lpStringToInt64, string2ll. rewrite (Z.eqb_sym slen 0).
  destruct (_ || _); [done|]. destruct (get1 0 str) as [c0|]; [|done]. destruct (_ && _); [done|].
  destruct (_ && _); [done|]. destruct (get1 _ _) as [c|]; [|done]. by rewrite lpStringToInt64_loop_string2ll.
Qed.

(** What the parser does on a whole string. *)
Lemma string2ll_whole txt :
  exists r, string2ll txt (zlength txt) = Ok r /\ forall v, r = Some v <-> in_s 64 v /\ sdecimal v txt.
Proof. destruct (string2ll_spec txt []) as (r & Hr & Hs). rewrite app_nil_r in Hr. by exists r. Qed.

Lemma elem_of_text txt : elem_text (elem_of txt) txt.
Proof.
  unfold elem_of. rewrite lpStringToInt64_string2ll. destruct (string2ll_whole txt) as ([v|] & -> & Hs); [|done].
  by apply Hs.
Qed.

Lemma elem_of_ok txt : bytes_ok txt -> zlength txt < 2 ^ 32 - 5 -> elem_ok (elem_of txt).
Proof.
  intros Hb Hl. unfold elem_of. rewrite lpStringToInt64_string2ll.
  destruct (string2ll_whole txt) as ([v|] & -> & Hs); [|done]. by apply (Hs v).
Qed.

Lemma elem_eqb_text e txt : elem_ok e -> elem_eqb e txt = true <-> elem_text e txt.
Proof.
  intros He. destruct e as [v|str]; simpl; rewrite bool_decide_eq_true; [|done].
  destruct (string2ll_whole txt) as (r & -> & Hs). split.
  - intros [= ->]. by apply Hs.
  - intros Hd. f_equal. by apply Hs.
Qed.

(** Two elements with the same text that the API could have stored are equal. *)
Lemma elem_text_of e txt : elem_text e txt -> elem_ok e -> (exists v, e = EInt v) -> elem_of txt = e.
Proof.
  intros Ht He [v ->]. unfold elem_of. rewrite lpStringToInt64_string2ll.
  destruct (string2ll_whole txt) as (r & -> & Hs). by rewrite (proj2 (Hs v) (conj He Ht)).
Qed.

(** * Getters *)

Section Getters.
Context (n : Z) (slack : list Z).
Implicit Types es : list elem.

Lemma get_at es1 e es2 :
  elem_ok e ->
  lpGet (lp_of n (es1 ++ e :: es2) slack) (pos es1) None = Ok (get_result (pos es1) e (enc_elem e)).
Proof.
  intros He. unfold lpGet. rewrite lp_split, <- (length_upto n es1 (e :: es2)), entries_cons.
  unfold entry. rewrite <- !(app_assoc (enc_elem e)). apply getWithBuf_spec. by apply shape_elem.
Qed.

Lemma getWithSize_at es1 e es2 sz :
  elem_ok e ->
  lpGetWithSize (lp_of n (es1 ++ e :: es2) slack) (pos es1) None sz =
  Ok (get_result (pos es1) e (enc_elem e), zlength (entry e)).
Proof.
  intros He. rewrite lp_split, <- (length_upto n es1 (e :: es2)), entries_cons, entry_size.
  unfold entry. rewrite <- !(app_assoc (enc_elem e)). apply getWithSize_spec. by apply shape_elem.
Qed.

(** The encoding of a string ends with its bytes. *)
Lemma enc_str_suffix str : exists hdr, enc_str str = hdr ++ str.
Proof.
  unfold enc_str. destruct (_ <? _); [by exists [Z.lor (zlength str) 0x80]|]. destruct (_ <? _).
  - by eexists [_; _].
  - by exists (0xF0 :: le_enc 4 (zlength str)).
Qed.

Lemma str_bytes_at es1 str es2 :
  elem_ok (EStr str) ->
  load (pos es1 + (zlength (enc_str str) - zlength str)) (zlength str) (lp_of n (es1 ++ EStr str :: es2) slack) = Ok str.
Proof.
  intros He. pose proof (length_upto n es1 (EStr str :: es2)) as Hl. rewrite lp_split.
  set (P := _ ++ entries es1) in *. clearbody P. rewrite entries_cons. unfold entry. simpl enc_elem.
  destruct (enc_str_suffix str) as [hdr ->]. rewrite <- !app_assoc, (app_assoc P hdr). apply load_app; [|done]. len.
Qed.

Lemma getValue_at es1 e es2 :
  elem_ok e ->
  lpGetValue (lp_of n (es1 ++ e :: es2) slack) (pos es1) =
  Ok (match e with
      | EInt v => inr v
      | EStr str => inl (pos es1 + (zlength (enc_str str) - zlength str), zlength str)
      end).
Proof.
  intros He. unfold lpGetValue. rewrite get_at by done. destruct e as [v|str]; [done|]. simpl.
  destruct He as [_ He]. rewrite u_id by (pow_const; lia). done.
Qed.

(** With a buffer, an integer is printed to it instead of being returned. *)
Lemma getWithBuf_buf lp p buf :
  lpGetWithBuf lp p (Some buf) =
  let! r := lpGetWithBuf lp p None in
  match r with
  | LpInt v => let! '(k, buf) := ll2string buf LP_INTBUF_SIZE v in Ok (LpBuf buf k)
  | r => Ok r
  end.
Proof.
  unfold lpGetWithBuf, lp_int_result. destruct (get1 p lp) as [b|]; [|done].
  repeat match goal with
  | |- (if ?t then _ else _) = _ => destruct t
  | |- (let! x := ?e in _) = _ => destruct e; [|done]
  end; done.
Qed.

(** The text lpGet gives for an element: a pointer to it in the listpack, or the
    decimal text in the caller's buffer. *)
Lemma get_text_at es1 e es2 buf :
  elem_ok e -> LP_INTBUF_SIZE <= zlength buf ->
  exists txt, elem_text e txt /\
  (match e with
   | EStr _ => exists off, lpGet (lp_of n (es1 ++ e :: es2) slack) (pos es1) (Some buf) = Ok (LpStr off (zlength txt)) /\
                 load off (zlength txt) (lp_of n (es1 ++ e :: es2) slack) = Ok txt
   | EInt v => exists buf', lpGet (lp_of n (es1 ++ e :: es2) slack) (pos es1) (Some buf) = Ok (LpBuf buf' (zlength txt)) /\
                 take (length txt) buf' = txt
   end).
Proof.
  intros He Hb. unfold lpGet. rewrite getWithBuf_buf. pose proof (get_at es1 e es2 He) as Hg. unfold lpGet in Hg.
  rewrite Hg. destruct e as [v|str]; simpl.
  - destruct (sdecimal_exists v He) as (txt & Ht & _). exists txt. split; [done|].
    pose proof (sdecimal_length v txt He Ht). unfold LP_INTBUF_SIZE in *.
    rewrite (ll2string_fits _ _ _ txt) by (done || lia). eexists; split; [done|]. apply take_app_length.
  - exists str. split; [done|]. eexists. split; [done|]. by apply str_bytes_at.
Qed.
End Getters.

(** * Comparison and search *)

(** The state of the caller's cache of the parsed string. *)
Definition cache_ok (txt : list Z) (cached : option (Z * Z)) : Prop :=
  match cached with
  | None => True
  | Some (v, valid) =>
      valid = 0 \/ (valid = 1 /\ string2ll txt (zlength txt) = Ok (Some v)) \/
      (valid = -1 /\ string2ll txt (zlength txt) = Ok None)
  end.

Lemma memeq_at n slack es1 str es2 txt :
  elem_ok (EStr str) -> zlength txt = zlength str ->
  lp_memeq (lp_of n (es1 ++ EStr str :: es2) slack) (pos es1 + (zlength (enc_str str) - zlength str)) (zlength str) txt =
  Ok (elem_eqb (EStr str) txt).
Proof.
  intros He Hl. unfold lp_memeq. rewrite str_bytes_at by done.
  assert (load 0 (zlength str) txt = Ok txt) as ->.
  { pose proof (load_app [] txt [] 0 (zlength str) eq_refl ltac:(lia)) as H. by rewrite app_nil_r in H. }
  simpl. f_equal. apply bool_decide_ext. by split.
Qed.

Lemma eqb_length str txt : zlength txt <> zlength str -> elem_eqb (EStr str) txt = false.
Proof. intros H. simpl. apply bool_decide_eq_false. by intros ->. Qed.

Lemma eqb_int v txt w : string2ll txt (zlength txt) = Ok (Some w) -> elem_eqb (EInt v) txt = (v =? w).
Proof. intros H. simpl. rewrite H. destruct (Z.eqb_spec v w) as [->|]; [by apply bool_decide_eq_true|apply bool_decide_eq_false; congruence]. Qed.

Lemma eqb_nonint v txt : string2ll txt (zlength txt) = Ok None -> elem_eqb (EInt v) txt = false.
Proof. intros H. simpl. rewrite H. by apply bool_decide_eq_false. Qed.

Lemma compare_at n slack es1 e es2 txt cached :
  elem_ok e -> cache_ok txt cached ->
  exists cached', lpCompare (lp_of n (es1 ++ e :: es2) slack) (pos es1) txt (zlength txt) cached =
    Ok (elem_eqb e txt, cached') /\ cache_ok txt cached'.
Proof.
  intros He Hc. unfold lpCompare.
  assert (exists b, get1 (pos es1) (lp_of n (es1 ++ e :: es2) slack) = Ok b /\ (b =? LP_EOF) = false) as (b & -> & ->).
  { rewrite lp_split, <- (length_upto n es1 (e :: es2)), entries_cons. destruct (entry_head e He) as (b & rest & -> & Hb).
    exists b. rewrite <- !app_comm_cons, get1_app by done. split; [done|]. unfold LP_EOF. lia. }
  rewrite get_at by done. destruct e as [v|str]; cbn [get_result].
  - destruct (string2ll_whole txt) as (r & Hr & _). rewrite lpStringToInt64_string2ll, Hr.
    destruct cached as [[w valid]|].
    + destruct Hc as [->|[[-> Hs]|[-> Hs]]]; cbn [Z.eqb].
      * destruct r as [w'|]; (eexists; split; [f_equal; f_equal|]).
        -- by rewrite (eqb_int v txt w').
        -- right; left. done.
        -- by rewrite eqb_nonint.
        -- by do 2 right.
      * eexists; split; [by rewrite (eqb_int v txt w)|by right; left].
      * eexists; split; [by rewrite eqb_nonint|by do 2 right].
    + exists None. split; [|done]. destruct r as [w'|]; [by rewrite (eqb_int v txt w')|by rewrite eqb_nonint].
  - exists cached. split; [|done]. destruct (Z.eqb_spec (zlength txt) (zlength str)) as [Hl|Hl].
    + by rewrite Hl, memeq_at.
    + by rewrite eqb_length.
Qed.

(** ** The search loop, for any callback that decides a predicate on elements *)

(** The first match in [es], the first [skipcnt] elements and then [skip] between two
    tests being passed over. *)
Fixpoint find_idx (m : elem -> bool) (skip skipcnt : nat) (es : list elem) : option nat :=
  match es with
  | [] => None
  | e :: es =>
      match skipcnt with
      | O => if m e then Some O else S <$> find_idx m skip skip es
      | S k => S <$> find_idx m skip k es
      end
  end.

(** The answer is the first position that is examined and matches. *)
Lemma find_idx_spec m skip : forall es skipcnt,
  match find_idx m skip skipcnt es with
  | Some i => exists k e, i = (skipcnt + k * S skip)%nat /\ es !! i = Some e /\ m e = true /\
                forall k' e', (k' < k)%nat -> es !! (skipcnt + k' * S skip)%nat = Some e' -> m e' = false
  | None => forall k e, es !! (skipcnt + k * S skip)%nat = Some e -> m e = false
  end.
Proof.
  induction es as [|e es IH]; intros skipcnt; [by intros|]. destruct skipcnt as [|k0]; simpl find_idx.
  - destruct (m e) eqn:Em; [exists O, e; split_and!; [done..|lia]|].
    specialize (IH skip). destruct (find_idx m skip skip es) as [i|]; simpl.
    + destruct IH as (k & e' & -> & Hl & Hm & Hf). exists (S k), e'. split_and!; [done..|].
      intros [|k'] e'' Hk Hl'; [simpl in Hl'; congruence|]. by apply (Hf k'); [lia|].
    + intros [|k] e' Hl; simpl in Hl; [congruence|]. by eapply IH.
  - specialize (IH k0). destruct (find_idx m skip k0 es) as [i|]; simpl.
    + destruct IH as (k & e' & -> & Hl & Hm & Hf). by exists k, e'.
    + intros k e' Hl. by eapply IH.
Qed.

Section Find.
Context {U : Type} (cmp : list Z -> Z -> U -> lpval -> res (Z * U)) (Inv : U -> Prop) (m : elem -> bool).
Context (n : Z) (slack : list Z).
Context (Hcmp : forall es1 e es2 user, Inv user -> elem_ok e ->
  exists user', cmp (lp_of n (es1 ++ e :: es2) slack) (pos es1) user (get_result (pos es1) e (enc_elem e)) =
    Ok (if m e then 0 else 1, user') /\ Inv user').

(** The bound checks of the loop at the position that follows [es1]. *)
Lemma find_check es1 es2 :
  Forall elem_ok es2 ->
  (if pos es1 + 8 >=? total (es1 ++ es2)
   then lpAssertValidEntry (lp_of n (es1 ++ es2) slack) (total (es1 ++ es2)) (pos es1)
   else assert! (LP_HDR_SIZE <=? pos es1) && (pos es1 <? total (es1 ++ es2)) in Ok tt) = Ok tt.
Proof.
  intros Hf. rewrite assertValid_at by done. destruct (_ >=? _); [done|].
  pose proof (pos_ge es1). rewrite total_split. unfold LP_HDR_SIZE. by repeat (zif; cbn [andb]).
Qed.

(** What follows the step over [e]: stop at the terminator, or go on. *)
Lemma find_advance es1 e es2 (K : res (option Z)) :
  Forall elem_ok es2 ->
  (let! _ := (if pos (es1 ++ [e]) + 8 >=? total (es1 ++ e :: es2)
              then lpAssertValidEntry (lp_of n (es1 ++ e :: es2) slack) (total (es1 ++ e :: es2)) (pos (es1 ++ [e]))
              else assert! (LP_HDR_SIZE <=? pos (es1 ++ [e])) && (pos (es1 ++ [e]) <? total (es1 ++ e :: es2)) in Ok tt) in
   let! b := get1 (pos (es1 ++ [e])) (lp_of n (es1 ++ e :: es2) slack) in
   if b =? LP_EOF then Ok None else K) = match es2 with [] => Ok None | _ => K end.
Proof.
  intros Hf. rewrite (cons_middle es1 e es2), find_check by done.
  destruct (byte_at n (es1 ++ [e]) es2 slack Hf) as (b & -> & _ & ->). by destruct es2.
Qed.

(** One iteration. *)
Lemma findCb_step skip es1 e es2 fuel user skipcnt sz :
  Forall elem_ok (e :: es2) -> Inv user ->
  let lp := lp_of n (es1 ++ e :: es2) slack in
  let bytes := total (es1 ++ e :: es2) in
  exists user' sz', Inv user' /\
  lpFindCb_loop cmp (S fuel) lp (pos es1) user (Z.of_nat skip) (Z.of_nat skipcnt) sz bytes =
  if (skipcnt =? 0)%nat && m e then Ok (Some (pos es1))
  else match es2 with
       | [] => Ok None
       | _ => lpFindCb_loop cmp fuel lp (pos (es1 ++ [e])) user' (Z.of_nat skip)
                (Z.of_nat (match skipcnt with O => skip | S k => k end)) sz' bytes
       end.
Proof.
  intros [He Hf]%Forall_cons_1 Hinv. cbn zeta. cbn [lpFindCb_loop]. destruct skipcnt as [|k].
  - cbn [Z.of_nat Z.eqb Nat.eqb andb]. rewrite getWithSize_at by done.
    destruct (Hcmp es1 e es2 user Hinv He) as (user' & -> & Hinv'). exists user', (zlength (entry e)). split; [done|].
    assert ((LP_HDR_SIZE <=? pos es1) && (pos es1 + zlength (entry e) <? total (es1 ++ e :: es2)) = true) as ->.
    { pose proof (pos_ge es1). rewrite total_at. unfold LP_HDR_SIZE. lia. }
    rewrite <- (pos_snoc es1 e). destruct e as [v|str]; cbn [get_result].
    all: destruct (m _); cbn [Z.eqb]; [done|]; by apply find_advance.
  - cbn [Nat.eqb andb]. rewrite (proj2 (Z.eqb_neq _ 0)) by lia. exists user, sz. split; [done|].
    rewrite skip_at, find_advance by done. by replace (Z.of_nat (S k) - 1) with (Z.of_nat k) by lia.
Qed.

Lemma findCb_loop_spec skip : forall es2 es1 e fuel user skipcnt sz,
  Forall elem_ok (e :: es2) -> Inv user -> (length es2 < fuel)%nat ->
  lpFindCb_loop cmp fuel (lp_of n (es1 ++ e :: es2) slack) (pos es1) user (Z.of_nat skip) (Z.of_nat skipcnt) sz
    (total (es1 ++ e :: es2)) =
  Ok ((fun i => ptr (es1 ++ e :: es2) (length es1 + i)) <$> find_idx m skip skipcnt (e :: es2)).
Proof.
  induction es2 as [|e2 es2 IH]; intros es1 e [|fuel] user skipcnt sz Hf Hinv Hfu; try (cbn [length] in *; lia);
    destruct (findCb_step skip es1 e _ fuel user skipcnt sz Hf Hinv) as (user' & sz' & Hinv' & ->).
  - destruct skipcnt; simpl; [destruct (m e); simpl; [|done]|done]. by rewrite Nat.add_0_r, ptr_mid.
  - rewrite (cons_middle es1 e (e2 :: es2)) at 1 2. rewrite IH; [|by apply Forall_cons_1 in Hf as [_ ?]|done|cbn [length] in *; lia].
    rewrite <- (cons_middle es1 e (e2 :: es2)). rewrite length_app. cbn [length].
    assert (forall o : option nat,
      (fun i => ptr (es1 ++ e :: e2 :: es2) (length es1 + 1 + i)) <$> o =
      (fun i => ptr (es1 ++ e :: e2 :: es2) (length es1 + i)) <$> (S <$> o)) as Hshift.
    { intros [i|]; simpl; [|done]. do 2 f_equal. lia. }
    rewrite Hshift. cbn [find_idx]. destruct skipcnt as [|k]; cbn [Nat.eqb andb]; [|done].
    destruct (m e); [|done]. simpl. by rewrite Nat.add_0_r, ptr_mid.
Qed.

(** lpFindCb from element [i] (or from the start, for a NULL pointer). *)
Lemma findCb_spec es start user skip :
  lp_wf n es -> Inv user ->
  (match start with Some i => (i < length es)%nat | None => True end) ->
  lpFindCb cmp (lp_of n es slack) (ptr es <$> start) user (Z.of_nat skip) =
  Ok ((fun i => ptr es (default O start + i)) <$> find_idx m skip 0 (drop (default O start) es)).
Proof.
  intros Hwf Hinv Hs. unfold lpFindCb, lpFindCbInternal, lpBytes. rewrite getTotal by apply Hwf.
  assert ((match ptr es <$> start with Some p => Ok (Some p) | None => lpFirst (lp_of n es slack) end) =
          Ok (ptr_opt es (default O start))) as ->.
  { destruct start as [i|]; simpl; [by rewrite ptr_opt_lt|by apply first_spec]. }
  set (i := default O start). assert (i <= length es)%nat as Hi by (unfold i; destruct start; simpl; lia).
  clearbody i. unfold ptr_opt. destruct (decide (i < length es)%nat) as [Hlt|Hge]; [|by rewrite drop_ge by lia].
  destruct (lookup_lt_is_Some_2 es i Hlt) as [e He]. destruct (elem_split es i e He) as (es1 & es2 & -> & ->).
  rewrite ptr_mid, drop_app_length. apply (findCb_loop_spec skip es2 es1 e _ user 0); [|done|].
  - destruct Hwf as [_ _ Hf]. by apply Forall_app in Hf as [_ ?].
  - pose proof (fuel_enough n slack _ Hwf). len.
Qed.
End Find.

(** The cached conversion in the argument of lpFindCmp. *)
Definition find_arg_ok (txt : list Z) (arg : lpFindArg) : Prop :=
  fa_s arg = txt /\ fa_slen arg = zlength txt /\
  (fa_vencoding arg = 0 \/ (fa_vencoding arg = 1 /\ string2ll txt (zlength txt) = Ok (Some (fa_vll arg))) \/
   (fa_vencoding arg = 255 /\ string2ll txt (zlength txt) = Ok None)).

Lemma findCmp_spec txt n slack es1 e es2 arg :
  find_arg_ok txt arg -> elem_ok e ->
  exists arg', lpFindCmp (lp_of n (es1 ++ e :: es2) slack) (pos es1) arg (get_result (pos es1) e (enc_elem e)) =
    Ok (if elem_eqb e txt then 0 else 1, arg') /\ find_arg_ok txt arg'.
Proof.
  intros (Hs & Hl & Hc) He. destruct e as [v|str]; cbn [get_result lpFindCmp].
  - destruct (string2ll_whole txt) as (r & Hr & Hsp). destruct Hc as [Hz|Hc].
    + rewrite Hz, Hs, Hl. change (0 =? 0) with true. cbv iota.
      assert ((if (zlength txt >=? 32) || (zlength txt =? 0) then Ok None else lpStringToInt64 txt (zlength txt)) = Ok r) as ->.
      { destruct (_ || _) eqn:E; [|by rewrite lpStringToInt64_string2ll]. f_equal. destruct r as [w|]; [|done].
        destruct (proj1 (Hsp w) eq_refl) as [Hw Hd]. pose proof (sdecimal_length w txt Hw Hd).
        apply sdecimal_inv in Hd as (? & ? & -> & _). cbn [length] in *. lia. }
      destruct r as [w|]; cbn [fa_vencoding fa_vll].
      * rewrite (eqb_int v txt w) by done. cbn [Z.eqb negb andb UCHAR_MAX].
        eexists. split; [by destruct (v =? w)|]. split_and!; [done..|]. by right; left.
      * rewrite eqb_nonint by done. eexists. split; [done|]. split_and!; [done..|]. by do 2 right.
    + exists arg. split; [|split_and!; [done..|by right]]. destruct Hc as [[Hz Hw]|[Hz Hw]]; rewrite Hz; cbn [Z.eqb].
      * rewrite Hz, (eqb_int v txt (fa_vll arg)) by done. simpl. by destruct (v =? _).
      * by rewrite Hz, eqb_nonint.
  - exists arg. split; [|done]. rewrite Hs, Hl. destruct (Z.eqb_spec (zlength str) (zlength txt)) as [E|E].
    + rewrite memeq_at by done. by destruct (elem_eqb _ _).
    + by rewrite eqb_length.
Qed.

Lemma find_spec n slack es start txt skip :
  lp_wf n es -> (match start with Some i => (i < length es)%nat | None => True end) ->
  lpFind (lp_of n es slack) (ptr es <$> start) txt (zlength txt) (Z.of_nat skip) =
  Ok ((fun i => ptr es (default O start + i)) <$>
      find_idx (fun e => elem_eqb e txt) skip 0 (drop (default O start) es)).
Proof.
  intros Hwf Hs. apply (findCb_spec lpFindCmp (find_arg_ok txt)); [|done|split_and!; [done..|by left]|done].
  intros. by apply findCmp_spec.
Qed.
