(* ===== verification/ListpackUpd.v ===== *)
(** Updating listpacks: lpInsert of src/redis-stable/src/listpack.c and the operations
    built on it refine insertion, replacement and deletion in a sequence. *)

From S2P Require Import Prelude Machine UtilNum Listpack ListpackEnc ListpackSeq ListpackRead.

(** * Buffers *)

(** Moving a tail so that it starts [k] cells after [P]. *)
Lemma memmove_gap {A} (P old tail rest : list A) (k : nat) dst src len :
  (k + length tail <= length old + length tail + length rest)%nat ->
  dst = zlength P + Z.of_nat k -> src = zlength P + zlength old -> len = zlength tail ->
  exists mid rest', memmove dst src len (P ++ old ++ tail ++ rest) = Ok (P ++ mid ++ tail ++ rest') /\
    length mid = k /\ (k + length rest' = length old + length rest)%nat.
Proof.
  intros Hk -> -> ->. set (all := old ++ tail ++ rest).
  exists (take k all), (drop (length tail) (drop k all)).
  assert (length all = (length old + length tail + length rest)%nat) as Ha by (unfold all; len).
  split_and!; [|len|unfold all in *; len].
  unfold all at 1. rewrite (app_assoc P old), (app_assoc P (take k all)).
  apply (memmove_app (P ++ old) tail rest _ _ _ (take (length tail) (drop k all))).
  - rewrite <- !app_assoc. f_equal. fold all. by rewrite !take_drop.
  - len.
  - done.
  - len.
  - len.
Qed.

(** * lpInsert in phases *)

Section Insert.
Context (junk : Z).

(** The end of lpInsert: header update after the entry has been written. *)
Definition insert_finish (lp : list Z) (delete : bool) (where_ : lp_where) (new_listpack_bytes : Z)
    (newp : option Z) : res (option (list Z * option Z)) :=
  let! lp :=
    (if negb (bool_decide (where_ = LP_REPLACE)) || (delete : bool) then
       let! num_elements := lpGetNumElements lp in
       if negb (num_elements =? LP_HDR_NUMELE_UNKNOWN) then
         if negb delete then lpSetNumElements lp (num_elements + 1)
         else lpSetNumElements lp (u32 (num_elements - 1))
       else Ok lp
     else Ok lp) in
  let! lp := lpSetTotalBytes lp new_listpack_bytes in
  Ok (Some (lp, newp)).

(** Writing the entry over the gap at [dst]. *)
Definition insert_write (lp : list Z) (eleint elestr : option (list Z)) (size enclen dst : Z) (backlen : list Z)
    : res (list Z) :=
  let! lp := (match eleint, elestr with
              | Some e, _ => let! bs := load 0 enclen e in store dst bs lp
              | None, Some ele => lpEncodeString lp dst ele size
              | None, None => Fault AssertFailed
              end) in
  store (dst + enclen) backlen lp.

(** Everything after the new size is known. *)
Definition insert_body (lp : list Z) (eleint elestr : option (list Z)) (size enclen : Z) (delete : bool)
    (where_ : lp_where) (dst old_listpack_bytes replaced_len : Z) (backlen : list Z)
    : res (option (list Z * option Z)) :=
  let backlen_size := zlength backlen in
  let new_listpack_bytes := u64 (old_listpack_bytes + enclen + backlen_size - replaced_len) in
  if new_listpack_bytes >? UINT32_MAX then Ok None
  else
    let lp := if (new_listpack_bytes >? old_listpack_bytes) && (new_listpack_bytes >? zlength lp)
              then realloc junk new_listpack_bytes lp else lp in
    let! lp :=
      (match where_ with
       | LP_REPLACE => memmove (dst + enclen + backlen_size) (dst + replaced_len)
                         (old_listpack_bytes - dst - replaced_len) lp
       | _ => memmove (dst + enclen + backlen_size) dst (old_listpack_bytes - dst) lp
       end) in
    let lp := if new_listpack_bytes <? old_listpack_bytes
              then realloc junk new_listpack_bytes lp else lp in
    let! newp :=
      (if (delete : bool) then
         let! b := get1 dst lp in
         Ok (if b =? LP_EOF then None else Some dst)
       else Ok (Some dst)) in
    let! lp := (if (delete : bool) then Ok lp else insert_write lp eleint elestr size enclen dst backlen) in
    insert_finish lp delete where_ new_listpack_bytes newp.

Lemma lpInsert_phases lp elestr eleint size p where_ :
  lpInsert junk lp elestr eleint size p where_ =
  let delete := match elestr, eleint with None, None => true | _, _ => false end in
  let where_ := if (delete : bool) then LP_REPLACE else where_ in
  let! '(p, where_) :=
    (match where_ with
     | LP_AFTER =>
         let! p := lpSkip lp p in
         let! _ := ASSERT_INTEGRITY lp p in
         Ok (p, LP_BEFORE)
     | _ => Ok (p, where_)
     end) in
  let! '(eleint, enclen) :=
    (match elestr, eleint with
     | Some ele, _ =>
         let! '(intenc, enclen) := lpEncodeGetType ele size in
         Ok (intenc, enclen)
     | None, Some e => Ok (Some e, size)
     | None, None => Ok (None, 0)
     end) in
  let backlen := if (delete : bool) then [] else lpEncodeBacklen enclen in
  let! old_listpack_bytes := lpGetTotalBytes lp in
  let! replaced_len :=
    (match where_ with
     | LP_REPLACE =>
         let! n := lpCurrentEncodedSizeUnsafe lp p in
         let replaced_len := u32 (n + lpEncodeBacklenBytes n) in
         let! _ := ASSERT_INTEGRITY_LEN lp p replaced_len in
         Ok replaced_len
     | _ => Ok 0
     end) in
  insert_body lp eleint elestr size enclen delete where_ p old_listpack_bytes replaced_len backlen.
Proof. reflexivity. Qed.

(** The gap phase: after growing, moving the tail and shrinking. *)
Lemma gap_spec P old tail rest (k : nat) where_ oldb newb :
  oldb = zlength P + zlength old + zlength tail -> newb = zlength P + Z.of_nat k + zlength tail ->
  (where_ <> LP_REPLACE -> old = []) ->
  let lp := P ++ old ++ tail ++ rest in
  let lp := if (newb >? oldb) && (newb >? zlength lp) then realloc junk newb lp else lp in
  exists lp1 mid rest',
  (match where_ with
   | LP_REPLACE => memmove (zlength P + Z.of_nat k) (zlength P + zlength old) (oldb - zlength P - zlength old) lp
   | _ => memmove (zlength P + Z.of_nat k) (zlength P) (oldb - zlength P) lp
   end) = Ok lp1 /\
  (if newb <? oldb then realloc junk newb lp1 else lp1) = P ++ mid ++ tail ++ rest' /\ length mid = k.
Proof.
  intros Ho Hn Hw. cbn zeta.
  assert (exists rest1, (if (newb >? oldb) && (newb >? zlength (P ++ old ++ tail ++ rest))
             then realloc junk newb (P ++ old ++ tail ++ rest) else P ++ old ++ tail ++ rest) =
             P ++ old ++ tail ++ rest1 /\ (k <= length old + length rest1)%nat) as (rest1 & -> & Hr1).
  { destruct (_ && _) eqn:E.
    - rewrite realloc_grow by len. eexists. split; [by rewrite <- !app_assoc|]. len.
    - exists rest. split; [done|]. len. }
  destruct (memmove_gap P old tail rest1 k (zlength P + Z.of_nat k) (zlength P + zlength old) (zlength tail))
    as (mid & rest2 & Hm & Hmid & Hr2); [lia|done..|].
  assert ((match where_ with
      | LP_REPLACE => memmove (zlength P + Z.of_nat k) (zlength P + zlength old) (oldb - zlength P - zlength old) (P ++ old ++ tail ++ rest1)
      | _ => memmove (zlength P + Z.of_nat k) (zlength P) (oldb - zlength P) (P ++ old ++ tail ++ rest1)
      end) = Ok (P ++ mid ++ tail ++ rest2)) as ->.
  { destruct (decide (where_ = LP_REPLACE)) as [->|Hne]; [rewrite <- Hm; f_equal; lia|].
    rewrite (Hw Hne) in *. cbn [length] in *. rewrite Z.add_0_r in Hm.
    replace (oldb - zlength P) with (zlength tail) by lia. by destruct where_. }
  destruct (newb <? oldb).
  - do 2 eexists. exists []. split_and!; [done| |exact Hmid]. rewrite app_nil_r, (app_assoc mid), (app_assoc P).
    apply realloc_shrink. len.
  - by exists (P ++ mid ++ tail ++ rest2), mid, rest2.
Qed.

Definition new_count (n : Z) (old new : list elem) : Z :=
  if n =? LP_HDR_NUMELE_UNKNOWN then n else n + zlength new - zlength old.

Lemma new_count_ok n es1 old new es2 :
  count_ok n (es1 ++ old ++ es2) -> (length new <= S (length old))%nat ->
  count_ok (new_count n old new) (es1 ++ new ++ es2).
Proof.
  unfold count_ok, new_count, LP_HDR_NUMELE_UNKNOWN. intros Hc Hl. rewrite !length_app in *.
  destruct (Z.eqb_spec n 65535); lia.
Qed.

Lemma finish_spec n t rest (delete : bool) where_ newb newp (old new : list elem) :
  0 <= n < 65536 -> length t = 4%nat ->
  (length old = if bool_decide (where_ = LP_REPLACE) then 1 else 0)%nat ->
  (length new = if delete then 0 else 1)%nat -> (delete = true -> where_ = LP_REPLACE) ->
  zlength old <= n ->
  insert_finish (t ++ le_enc 2 n ++ rest) delete where_ newb newp =
  Ok (Some ((le_enc 4 newb ++ le_enc 2 (new_count n old new)) ++ rest, newp)).
Proof.
  intros Hn Ht Ho Hw Hd Hle. unfold insert_finish, new_count, lpGetNumElements.
  rewrite (get_le_app 2 t (le_enc 2 n)) by (by rewrite ?length_le_enc, ?Ht || apply le_enc_bytes).
  rewrite le_dec_enc, Z.mod_small by (simpl; pow_const; lia).
  assert (forall n', lpSetTotalBytes (t ++ le_enc 2 n' ++ rest) newb = Ok ((le_enc 4 newb ++ le_enc 2 n') ++ rest)) as Hst.
  { intros. rewrite set_total_spec by done. by rewrite <- app_assoc. }
  destruct (Z.eqb_spec n LP_HDR_NUMELE_UNKNOWN) as [E|E]; cbn [negb].
  { destruct (negb _ || _); by rewrite Hst. }
  rewrite !set_numele_spec by (done || apply length_le_enc).
  destruct delete.
  - rewrite (Hd eq_refl) in *. simpl in Ho. cbn [orb negb]. rewrite orb_true_r, u_id by (pow_const; lia).
    rewrite Hst. by replace (n + zlength new - zlength old) with (n - 1) by lia.
  - cbn [negb]. rewrite orb_false_r. destruct (bool_decide (where_ = LP_REPLACE)); cbn [negb]; rewrite Hst.
    + by replace (n + zlength new - zlength old) with n by lia.
    + by replace (n + zlength new - zlength old) with (n + 1) by lia.
Qed.

(** The outcome of an update that turns [es1 ++ old ++ es2] into [es1 ++ new ++ es2]. *)
Definition upd_result (n : Z) (es1 old new es2 : list elem) (newp : option Z)
    (r : option (list Z * option Z)) : Prop :=
  if total (es1 ++ new ++ es2) <=? UINT32_MAX
  then exists slack', r = Some (lp_of (new_count n old new) (es1 ++ new ++ es2) slack', newp)
  else r = None.

Definition upd_newp (delete : bool) (es1 es2 : list elem) : option Z :=
  if delete then ptr_opt (es1 ++ es2) (length es1) else Some (pos es1).

Lemma newp_spec (delete : bool) P mid es1 es2 rest' :
  zlength P = pos es1 -> (delete = true -> mid = []) -> Forall elem_ok es2 ->
  (if delete then
     let! b := get1 (zlength P) (P ++ mid ++ (entries es2 ++ [LP_EOF]) ++ rest') in
     Ok (if b =? LP_EOF then None else Some (zlength P))
   else Ok (Some (zlength P))) = Ok (upd_newp delete es1 es2).
Proof.
  intros HP Hmid Hf. unfold upd_newp. destruct delete; [|by rewrite HP]. rewrite Hmid by done. destruct es2 as [|e es2].
  - simpl app. rewrite get1_app by done. by rewrite app_nil_r, ptr_opt_end.
  - apply Forall_cons_1 in Hf as [He _]. destruct (entry_head e He) as (b & rest & Hb & ?).
    rewrite entries_cons, Hb, ptr_opt_mid, HP. rewrite app_nil_l, <- !app_assoc, <- app_comm_cons, get1_app by done.
    unfold LP_EOF. by zif.
Qed.

Lemma count_old n es1 (old es2 : list elem) : count_ok n (es1 ++ old ++ es2) -> (length old <= 1)%nat -> zlength old <= n.
Proof. unfold count_ok, LP_HDR_NUMELE_UNKNOWN. rewrite !length_app. lia. Qed.

Lemma body_spec n es1 old new es2 slack eleint elestr size enclen (delete : bool) where_ backlen :
  lp_wf n (es1 ++ old ++ es2) ->
  (length old = if bool_decide (where_ = LP_REPLACE) then 1 else 0)%nat ->
  (length new = if delete then 0 else 1)%nat -> (delete = true -> where_ = LP_REPLACE) ->
  enclen + zlength backlen = zlength (entries new) -> total (es1 ++ new ++ es2) < 2 ^ 64 ->
  (delete = false -> total (es1 ++ new ++ es2) <= UINT32_MAX -> forall P mid rest, length mid = length (entries new) ->
     insert_write (P ++ mid ++ rest) eleint elestr size enclen (zlength P) backlen = Ok (P ++ entries new ++ rest)) ->
  exists r,
  insert_body (lp_of n (es1 ++ old ++ es2) slack) eleint elestr size enclen delete where_ (pos es1)
    (total (es1 ++ old ++ es2)) (zlength (entries old)) backlen = Ok r /\
  upd_result n es1 old new es2 (upd_newp delete es1 es2) r.
Proof.
  intros Hwf Ho Hn Hd Hsz Hb Hwr. unfold insert_body, upd_result.
  pose proof (total_nonneg (es1 ++ old ++ es2)).
  assert (total (es1 ++ old ++ es2) + enclen + zlength backlen - zlength (entries old) = total (es1 ++ new ++ es2)) as ->.
  { rewrite !total_split, !entries_app, !length_app. lia. }
  pose proof (total_nonneg (es1 ++ new ++ es2)). rewrite u_id by lia. rewrite (Z.gtb_ltb _ UINT32_MAX), Z.ltb_antisym.
  destruct (Z.leb_spec (total (es1 ++ new ++ es2)) UINT32_MAX) as [Ht|Ht]; cbn [negb]; [|by eexists].
  set (P := (le_enc 4 (total (es1 ++ old ++ es2)) ++ le_enc 2 n) ++ entries es1).
  assert (zlength P = pos es1) as HP by apply length_upto.
  assert (lp_of n (es1 ++ old ++ es2) slack = P ++ entries old ++ (entries es2 ++ [LP_EOF]) ++ slack) as ->.
  { rewrite lp_split, entries_app. unfold P. by rewrite <- !app_assoc. }
  destruct (gap_spec P (entries old) (entries es2 ++ [LP_EOF]) slack (length (entries new)) where_
    (total (es1 ++ old ++ es2)) (total (es1 ++ new ++ es2))) as (lp1 & mid & rest' & Hgap & Hgap' & Hmid).
  { rewrite HP, total_split, entries_app, !length_app. cbn [length]. lia. }
  { rewrite HP, total_split, entries_app, !length_app. cbn [length]. lia. }
  { intros Hne. rewrite bool_decide_eq_false_2 in Ho by done. by destruct old. }
  cbn zeta in Hgap. rewrite <- HP. replace (zlength P + enclen + zlength backlen) with (zlength P + zlength (entries new)) by lia.
  rewrite Hgap. clear Hgap. rewrite Hgap'. clear Hgap'.
  assert (delete = true -> mid = []) as Hnil.
  { intros ->. destruct new; [|done]. by destruct mid. }
  assert (Forall elem_ok es2) as Hf by (destruct Hwf as [_ _ Hf]; by apply Forall_app in Hf as [_ [_ ?]%Forall_app]).
  rewrite (newp_spec delete P mid es1 es2 rest' HP Hnil Hf).
  assert ((if delete then Ok (P ++ mid ++ (entries es2 ++ [LP_EOF]) ++ rest')
           else insert_write (P ++ mid ++ (entries es2 ++ [LP_EOF]) ++ rest') eleint elestr size enclen (zlength P) backlen) =
          Ok (P ++ entries new ++ (entries es2 ++ [LP_EOF]) ++ rest')) as ->.
  { destruct delete; [|by apply Hwr]. destruct new; [|done]. by destruct mid. }
  eexists. split; [|exists rest'; reflexivity]. unfold P. rewrite <- !app_assoc.
  rewrite (finish_spec n _ _ _ _ _ _ old new); [|eapply count_range, Hwf|apply length_le_enc|done..|].
  2: { eapply (count_old n es1 old es2); [apply Hwf|]. rewrite Ho. by case_bool_decide; lia. }
  do 3 f_equal. unfold lp_of. by rewrite !entries_app, <- !app_assoc.
Qed.


(** ** The element to insert *)

(** The arguments [elestr], [eleint] and [size] that stand for the element [e]: a
    string (no C object has 2^63 bytes or more) or an already encoded integer. *)
Inductive ins_arg : option (list Z) -> option (list Z) -> Z -> elem -> Prop :=
| ArgStr txt : bytes_ok txt -> zlength txt < 2 ^ 63 -> ins_arg (Some txt) None (zlength txt) (elem_of txt)
| ArgInt v : in_s 64 v ->
    ins_arg None (Some (lpEncodeIntegerGetType v)) (zlength (lpEncodeIntegerGetType v)) (EInt v).

Definition int_enc (e : elem) : option (list Z) :=
  match e with EInt v => Some (lpEncodeIntegerGetType v) | EStr _ => None end.

Lemma enc_str_length str :
  zlength (enc_str str) = (if zlength str <? 64 then 1 else if zlength str <? 4096 then 2 else 5) + zlength str.
Proof. unfold enc_str. repeat case_match; len. Qed.

Lemma elem_of_cases txt :
  (exists v, lpStringToInt64 txt (zlength txt) = Ok (Some v) /\ elem_of txt = EInt v /\ in_s 64 v) \/
  (lpStringToInt64 txt (zlength txt) = Ok None /\ elem_of txt = EStr txt).
Proof.
  unfold elem_of. rewrite lpStringToInt64_string2ll. destruct (string2ll_whole txt) as ([v|] & -> & Hs).
  - left. exists v. split_and!; [done..|]. by apply Hs.
  - by right.
Qed.

Lemma encode_phase elestr eleint size e :
  ins_arg elestr eleint size e ->
  (match elestr, eleint with
   | Some ele, _ =>
       let! '(intenc, enclen) := lpEncodeGetType ele size in
       Ok (intenc, enclen)
   | None, Some e => Ok (Some e, size)
   | None, None => Ok (None, 0)
   end) = Ok (int_enc e, zlength (enc_elem e)).
Proof.
  intros [txt Hb Hl|v Hv]; [|done]. unfold lpEncodeGetType.
  destruct (elem_of_cases txt) as [(v & -> & -> & _)|(-> & ->)]; [done|]. simpl. rewrite enc_str_length.
  by repeat case_match.
Qed.

Lemma entries_one e : entries [e] = enc_elem e ++ lpEncodeBacklen (zlength (enc_elem e)).
Proof. unfold entries. simpl. by rewrite app_nil_r. Qed.

Lemma load_all {A} (l : list A) : load 0 (zlength l) l = Ok l.
Proof. pose proof (load_app [] l [] 0 (zlength l) eq_refl eq_refl) as H. by rewrite app_nil_r in H. Qed.

Lemma write_phase elestr eleint size e P mid rest :
  ins_arg elestr eleint size e -> zlength (enc_elem e) < 2 ^ 32 -> length mid = length (entries [e]) ->
  insert_write (P ++ mid ++ rest) (int_enc e) elestr size (zlength (enc_elem e)) (zlength P)
    (lpEncodeBacklen (zlength (enc_elem e))) = Ok (P ++ entries [e] ++ rest).
Proof.
  intros Ha Hl Hm. rewrite entries_one in *. unfold insert_write.
  set (bl := lpEncodeBacklen (zlength (enc_elem e))) in *.
  assert (exists m1 m2, mid = m1 ++ m2 /\ length m1 = length (enc_elem e) /\ length m2 = length bl) as (m1 & m2 & -> & H1 & H2).
  { exists (take (length (enc_elem e)) mid), (drop (length (enc_elem e)) mid). rewrite take_drop. split_and!; [done|len..]. }
  rewrite <- !app_assoc.
  assert ((match int_enc e, elestr with
    | Some e0, _ => let! bs := load 0 (zlength (enc_elem e)) e0 in store (zlength P) bs (P ++ m1 ++ m2 ++ rest)
    | None, Some ele => lpEncodeString (P ++ m1 ++ m2 ++ rest) (zlength P) ele size
    | None, None => Fault AssertFailed
    end) = Ok (P ++ enc_elem e ++ m2 ++ rest)) as ->.
  { destruct e as [v|str]; simpl in *.
    - rewrite load_all. by apply store_app.
    - inversion Ha as [txt Hb Hlt|]; subst. destruct (elem_of_cases txt) as [(v & _ & E & _)|(_ & E)]; [congruence|].
      assert (txt = str) as -> by congruence. rewrite enc_str_length in Hl.
      rewrite encodeString_spec; first [done|repeat case_match; lia]. }
  by rewrite store_after by len.
Qed.

Lemma arg_size elestr eleint size e :
  ins_arg elestr eleint size e -> 0 < zlength (enc_elem e) < 2 ^ 63 + 6 /\
  (zlength (enc_elem e) <= UINT32_MAX -> elem_ok e).
Proof.
  unfold UINT32_MAX. pow_const. intros [txt Hb Hl|v Hv].
  - pow_const. destruct (elem_of_cases txt) as [(v & _ & -> & Hv)|(_ & ->)].
    + split; [|done]. pose proof (enc_elem_pos (EInt v) Hv). pow_const. lia.
    + simpl. rewrite enc_str_length. split; [repeat case_match; lia|]. pow_const. split; [done|]. repeat case_match; lia.
  - split; [|done]. pose proof (enc_elem_pos (EInt v) Hv). pow_const. lia.
Qed.

Lemma total_new n es1 old es2 elestr eleint size e :
  lp_wf n (es1 ++ old ++ es2) -> ins_arg elestr eleint size e ->
  zlength (enc_elem e) < total (es1 ++ [e] ++ es2) < 2 ^ 64.
Proof.
  intros [_ Ht _] Ha. destruct (arg_size _ _ _ _ Ha) as [? _]. unfold UINT32_MAX in *. pow_const.
  rewrite !total_split, !entries_app, !length_app in *. rewrite entries_one, length_app.
  pose proof (backlenBytes_range (zlength (enc_elem e))) as Hr. rewrite encodeBacklen_bytes in Hr.
  pose proof (pos_ge es1). lia.
Qed.

(** * lpInsert *)

Lemma replaced_phase n slack es1 old es2 :
  lp_wf n (es1 ++ old :: es2) ->
  (let! n0 := lpCurrentEncodedSizeUnsafe (lp_of n (es1 ++ old :: es2) slack) (pos es1) in
   let! _ := ASSERT_INTEGRITY_LEN (lp_of n (es1 ++ old :: es2) slack) (pos es1) (u32 (n0 + lpEncodeBacklenBytes n0)) in
   Ok (u32 (n0 + lpEncodeBacklenBytes n0))) = Ok (zlength (entries [old])).
Proof.
  intros [_ Ht Hf]. apply Forall_app in Hf as [_ [Ho _]%Forall_cons_1]. rewrite size_at by done.
  rewrite <- entry_size. pose proof (pos_ge es1). pose proof (total_at es1 old es2).
  rewrite u_id by (unfold UINT32_MAX in *; pow_const; lia). unfold ASSERT_INTEGRITY_LEN.
  rewrite getTotal by done. unfold LP_HDR_SIZE. repeat (zif; cbn [andb]). by rewrite entries_one.
Qed.

Section Ops.
Context (n : Z) (slack : list Z) (es1 es2 : list elem).
Context (elestr eleint : option (list Z)) (size : Z) (e : elem).
Hypothesis Harg : ins_arg elestr eleint size e.

Lemma not_delete : (match elestr, eleint with None, None => true | _, _ => false end) = false.
Proof. by destruct Harg. Qed.

Lemma insert_before :
  lp_wf n (es1 ++ es2) ->
  exists r, lpInsert junk (lp_of n (es1 ++ es2) slack) elestr eleint size (pos es1) LP_BEFORE = Ok r /\
    upd_result n es1 [] [e] es2 (Some (pos es1)) r.
Proof.
  intros Hwf. rewrite lpInsert_phases, not_delete. cbv beta zeta iota. rewrite (encode_phase _ _ _ e Harg).
  rewrite getTotal by apply Hwf. pose proof (total_new n es1 [] es2 _ _ _ _ Hwf Harg).
  apply (body_spec n es1 [] [e] es2 slack); [done..| |lia|].
  - rewrite entries_one. len.
  - intros _ Ht P mid rest Hm. eapply write_phase; [exact Harg| |done]. unfold UINT32_MAX in *. pow_const. lia.
Qed.

Lemma insert_replace old :
  lp_wf n (es1 ++ old :: es2) ->
  exists r, lpInsert junk (lp_of n (es1 ++ old :: es2) slack) elestr eleint size (pos es1) LP_REPLACE = Ok r /\
    upd_result n es1 [old] [e] es2 (Some (pos es1)) r.
Proof.
  intros Hwf. rewrite lpInsert_phases, not_delete. cbv beta zeta iota. rewrite (encode_phase _ _ _ e Harg).
  rewrite getTotal by apply Hwf. pose proof (total_new n es1 [old] es2 _ _ _ _ Hwf Harg).
  rewrite replaced_phase by done. apply (body_spec n es1 [old] [e] es2 slack); [done..| |lia|].
  - rewrite entries_one. len.
  - intros _ Ht P mid rest Hm. eapply write_phase; [exact Harg| |done]. unfold UINT32_MAX in *. pow_const. lia.
Qed.
End Ops.

Lemma insert_after n slack es1 e0 es2 elestr eleint size e :
  ins_arg elestr eleint size e -> lp_wf n (es1 ++ e0 :: es2) ->
  exists r, lpInsert junk (lp_of n (es1 ++ e0 :: es2) slack) elestr eleint size (pos es1) LP_AFTER = Ok r /\
    upd_result n (es1 ++ [e0]) [] [e] es2 (Some (pos (es1 ++ [e0]))) r.
Proof.
  intros Harg Hwf. pose proof Hwf as [_ Ht Hf]. apply Forall_app in Hf as [_ [He0 _]%Forall_cons_1].
  assert (lpInsert junk (lp_of n (es1 ++ e0 :: es2) slack) elestr eleint size (pos es1) LP_AFTER =
          lpInsert junk (lp_of n (es1 ++ e0 :: es2) slack) elestr eleint size (pos (es1 ++ [e0])) LP_BEFORE) as ->.
  { rewrite !lpInsert_phases, !(not_delete _ _ _ _ Harg). cbv beta zeta iota. rewrite skip_at by done.
    unfold ASSERT_INTEGRITY. rewrite getTotal by done. pose proof (pos_ge (es1 ++ [e0])).
    rewrite total_at, pos_snoc in *. unfold LP_HDR_SIZE. by repeat (zif; cbn [andb]). }
  rewrite cons_middle in *. by apply (insert_before n slack (es1 ++ [e0]) es2).
Qed.

Lemma delete_spec n slack es1 e es2 :
  lp_wf n (es1 ++ e :: es2) ->
  exists r, lpDelete junk (lp_of n (es1 ++ e :: es2) slack) (pos es1) = Ok r /\
    upd_result n es1 [e] [] es2 (ptr_opt (es1 ++ es2) (length es1)) r.
Proof.
  intros Hwf. unfold lpDelete. rewrite lpInsert_phases. cbv beta zeta iota. rewrite getTotal by apply Hwf.
  rewrite replaced_phase by done. apply (body_spec n es1 [e] [] es2 slack _ _ _ _ true LP_REPLACE); try done.
  destruct Hwf as [_ Ht _]. rewrite !total_split, entries_cons, length_app in *. unfold UINT32_MAX in *. simpl. pow_const. lia.
Qed.
End Insert.

(** * Deleting ranges *)

Section DeleteRange.
Context (junk n : Z) (slack : list Z).

Lemma deleteRange_loop_spec : forall es2 es1 fuel num deleted,
  es2 <> [] -> Forall elem_ok es2 -> (length es2 <= fuel)%nat -> 0 < num ->
  lpDeleteRange_loop fuel (lp_of n (es1 ++ es2) slack) (total (es1 ++ es2)) (pos es1) num deleted =
  Ok (deleted + Z.min num (zlength es2), pos (es1 ++ take (Z.to_nat num) es2)).
Proof.
  induction es2 as [|e es2 IH]; intros es1 [|fuel] num deleted Hne Hf Hfu Hnum; try done; cbn [length] in *; [lia|].
  apply Forall_cons_1 in Hf as [He Hf]. cbn [lpDeleteRange_loop]. zif. rewrite skip_at by done.
  rewrite (cons_middle es1 e es2). destruct (byte_at n (es1 ++ [e]) es2 slack Hf) as (b & -> & _ & ->).
  replace (Z.to_nat num) with (S (Z.to_nat (num - 1))) by lia. cbn [take].
  destruct es2 as [|e' es2].
  { rewrite take_nil. do 2 f_equal. cbn [length]. lia. }
  rewrite assertValid_at by done. destruct (Z.eqb_spec (num - 1) 0) as [E|E].
  - destruct fuel; cbn [lpDeleteRange_loop]; rewrite E, Z.eqb_refl; cbn [take Z.to_nat length];
      do 2 f_equal; lia.
  - rewrite IH by (done || lia). rewrite <- app_assoc. simpl app. do 2 f_equal. cbn [length]. lia.
Qed.

Lemma shrink_spec es sl :
  total es <= UINT32_MAX ->
  exists sl', lpShrinkToFit junk (lp_of n es sl) = Ok (lp_of n es sl').
Proof.
  intros Ht. unfold lpShrinkToFit. rewrite getTotal by done. destruct (_ <? _); [|by exists sl].
  exists []. f_equal. unfold lp_of. set (h := le_enc 4 (total es) ++ le_enc 2 n).
  replace (h ++ entries es ++ LP_EOF :: sl) with ((h ++ entries es ++ [LP_EOF]) ++ sl) by by rewrite <- !app_assoc.
  apply realloc_shrink. unfold h, total. len.
Qed.

End DeleteRange.

(** Dropping [mid] elements from the middle. *)
Definition range_count (n : Z) (k : Z) : Z := if n =? LP_HDR_NUMELE_UNKNOWN then n else n - k.

Lemma deleteRangeWithEntry_spec junk n slack es1 es2 num :
  lp_wf n (es1 ++ es2) -> es2 <> [] -> 0 < num ->
  let es' := es1 ++ drop (Z.to_nat num) es2 in
  exists slack', lpDeleteRangeWithEntry junk (lp_of n (es1 ++ es2) slack) (pos es1) num =
    Ok (lp_of (range_count n (Z.min num (zlength es2))) es' slack', ptr_opt es' (length es1)).
Proof.
  intros Hwf Hne Hnum es'. pose proof Hwf as [Hc Ht Hf]. apply Forall_app in Hf as [_ Hf].
  unfold lpDeleteRangeWithEntry, lpBytes. rewrite getTotal by done. zif.
  pose proof (fuel_enough n slack _ Hwf) as Hfu. rewrite length_app in Hfu.
  rewrite deleteRange_loop_spec by (done || lia). rewrite Z.add_0_l.
  set (gone := take (Z.to_nat num) es2). set (left_ := drop (Z.to_nat num) es2) in *.
  assert (es2 = gone ++ left_) as Hsp by (symmetry; apply take_drop).
  set (P := (le_enc 4 (total (es1 ++ es2)) ++ le_enc 2 n) ++ entries es1).
  assert (zlength P = pos es1) as HP by apply length_upto.
  assert (lp_of n (es1 ++ es2) slack = P ++ entries gone ++ (entries left_ ++ [LP_EOF]) ++ slack) as ->.
  { rewrite lp_split, Hsp, entries_app. unfold P. by rewrite Hsp, <- !app_assoc. }
  assert (pos (es1 ++ gone) = zlength P + zlength (entries gone)) as Hpg
    by (rewrite HP; unfold pos; rewrite entries_app; len).
  assert (total (es1 ++ es2) = pos (es1 ++ gone) + zlength (entries left_ ++ [LP_EOF])) as Htot.
  { rewrite Hsp, app_assoc, total_split. len. }
  destruct (memmove_gap P (entries gone) (entries left_ ++ [LP_EOF]) slack 0 (pos es1) (pos (es1 ++ gone))
    (total (es1 ++ es2) - 1 - pos (es1 ++ gone) + 1)) as (mid & rest & -> & Hmid & _); [lia..|].
  destruct mid; [|done]. rewrite app_nil_l. 
  assert (total (es1 ++ es2) - (pos (es1 ++ gone) - pos es1) = total es') as ->.
  { unfold es'. rewrite (total_split es1 left_), Htot. len. }
  assert (total es' <= UINT32_MAX) as Ht' by (unfold es'; rewrite (total_split es1 left_); len).
  unfold P. rewrite <- !app_assoc, set_total_spec by apply length_le_enc.
  unfold lpGetNumElements.
  rewrite (get_le_app 2 (le_enc 4 (total es'))) by (by rewrite ?length_le_enc || apply le_enc_bytes).
  pose proof (count_range _ _ Hc). rewrite le_dec_enc, Z.mod_small by (simpl; pow_const; lia).
  assert (zlength gone = Z.min num (zlength es2)) as Hg by (unfold gone; len).
  assert (forall n', le_enc 4 (total es') ++ le_enc 2 n' ++ entries es1 ++ entries left_ ++ [LP_EOF] ++ rest = lp_of n' es' rest) as Hlp.
  { intros n'. unfold lp_of, es'. by rewrite entries_app, <- !app_assoc. }
  assert ((if negb (n =? LP_HDR_NUMELE_UNKNOWN)
           then lpSetNumElements (le_enc 4 (total es') ++ le_enc 2 n ++ entries es1 ++ entries left_ ++ [LP_EOF] ++ rest)
                  (u64 (n - Z.min num (zlength es2)))
           else Ok (le_enc 4 (total es') ++ le_enc 2 n ++ entries es1 ++ entries left_ ++ [LP_EOF] ++ rest)) =
          Ok (lp_of (range_count n (Z.min num (zlength es2))) es' rest)) as ->.
  { unfold range_count. destruct (Z.eqb_spec n LP_HDR_NUMELE_UNKNOWN) as [E|E]; cbn [negb]; [by rewrite Hlp|].
    destruct Hc as [|[Hc ?]]; [done|]. unfold LP_HDR_NUMELE_UNKNOWN in *.
    rewrite set_numele_spec by apply length_le_enc. rewrite u_id by (rewrite length_app in Hc; pow_const; lia).
    by rewrite Hlp. }
  destruct (shrink_spec junk (range_count n (Z.min num (zlength es2))) es' rest Ht') as [sl' ->].
  assert (Forall elem_ok left_) as Hf' by by apply Forall_drop.
  destruct (byte_at (range_count n (Z.min num (zlength es2))) es1 left_ sl' Hf') as (b & Hb & _ & Heof).
  fold es' in Hb. rewrite Hb, Heof. exists sl'. do 2 f_equal. unfold es'.
  destruct left_; [by rewrite app_nil_r, ptr_opt_end|by rewrite ptr_opt_mid].
Qed.

(** Cutting the listpack short at [pos es1]. *)
Lemma truncate_spec junk n slack es1 es2 m :
  lp_wf n (es1 ++ es2) -> es2 <> [] ->
  exists slack',
  (let! lp := set1 (pos es1) LP_EOF (lp_of n (es1 ++ es2) slack) in
   let! lp := lpSetTotalBytes lp (pos es1 + 1) in
   let! lp := lpSetNumElements lp m in
   lpShrinkToFit junk lp) = Ok (lp_of m es1 slack').
Proof.
  intros [_ Ht Hf] Hne. apply Forall_app in Hf as [_ Hf]. destruct es2 as [|e es2]; [done|].
  apply Forall_cons_1 in Hf as [He _]. destruct (entry_head e He) as (b & rest & Hb & _).
  assert (pos es1 + 1 = total es1) as Htot by (unfold pos, total, LP_HDR_SIZE; lia). rewrite Htot.
  rewrite lp_split, entries_cons, Hb, <- !app_comm_cons. set (tl := (rest ++ _) ++ _).
  rewrite <- (length_upto n es1 (e :: es2)), set1_app by done.
  rewrite <- !app_assoc, set_total_spec by apply length_le_enc.
  rewrite set_numele_spec by apply length_le_enc. rewrite app_assoc.
  apply (shrink_spec junk m es1 tl). rewrite total_split in Ht. lia.
Qed.

Lemma seek_index_Some len index i :
  seek_index len index = Some i -> Z.of_nat i = (if index <? 0 then len + index else index) /\ Z.of_nat i < len.
Proof. unfold seek_index. destruct (_ && _) eqn:E; [|done]. intros [= <-]. repeat case_match; lia. Qed.

Lemma deleteRange_spec junk n slack es index num :
  lp_wf n es -> 0 <= num < 2 ^ 64 ->
  exists n' slack', lpDeleteRange junk (lp_of n es slack) index num = Ok (lp_of n'
      (match seek_index (zlength es) index with
       | Some i => take i es ++ drop (Z.to_nat num) (drop i es)
       | None => es
       end) slack') /\
    count_ok n' (match seek_index (zlength es) index with
       | Some i => take i es ++ drop (Z.to_nat num) (drop i es)
       | None => es
       end).
Proof.
  intros Hwf Hnum. pose proof Hwf as [Hc Ht Hf]. pose proof (length_bound n es Hwf) as Hlb.
  unfold lpDeleteRange. rewrite numele_at by done.
  destruct (Z.eqb_spec num 0) as [->|Hn0].
  { exists n, slack. destruct (seek_index _ _) as [i|]; [|done]. change (Z.to_nat 0) with O. rewrite drop_0.
    by rewrite !take_drop. }
  rewrite seek_spec by done. destruct (seek_index (zlength es) index) as [i|] eqn:Ei; simpl fmap; [|by exists n, slack].
  destruct (seek_index_Some _ _ _ Ei) as [Hi Hil].
  assert (drop i es <> []) as Hne by (intros E; apply (f_equal length) in E; len).
  pose proof Hwf as Hwf'. rewrite <- (take_drop i es) in Hwf'. unfold ptr.
  destruct (negb (n =? LP_HDR_NUMELE_UNKNOWN) && (u64 (n - u64 _) <=? num)) eqn:E.
  - apply andb_prop in E as [Hk E]. rewrite Hk in *. cbn [andb] in *.
    apply negb_true_iff, Z.eqb_neq in Hk. destruct Hc as [|[Hc Hcl]]; [done|]. rewrite Hc, <- Hi in *.
    rewrite (u_id 64 (Z.of_nat i)) in E by (pow_const; lia). rewrite u_id in E by (pow_const; lia).
    destruct (truncate_spec junk (zlength es) slack (take i es) (drop i es) (Z.of_nat i) Hwf' Hne) as [sl' Htr].
    rewrite take_drop in Htr. exists (Z.of_nat i), sl'.
    rewrite (drop_ge (drop i es)), app_nil_r by len. split; [done|]. right. len.
  - destruct (deleteRangeWithEntry_spec junk n slack (take i es) (drop i es) num Hwf' Hne) as [sl' Hd]; [lia|].
    rewrite take_drop in Hd. rewrite Hd. do 2 eexists. split; [done|]. unfold range_count.
    destruct (Z.eqb_spec n LP_HDR_NUMELE_UNKNOWN); [by left|]. destruct Hc as [|[Hc Hcl]]; [done|]. right. len.
Qed.
