(* ===== verification/ListpackValid.v ===== *)
(** Validating listpacks that come from outside: lpValidateIntegrity of
    src/redis-stable/src/listpack.c is memory-safe on arbitrary bytes, accepts every
    well-formed listpack, and what it accepts can be walked without a fault. *)

From S2P Require Import Prelude Machine UtilNum Listpack ListpackEnc ListpackSeq ListpackRead ListpackUpd.

(** * Arbitrary bytes *)

Lemma get1_byte off bs : bytes_ok bs -> 0 <= off < zlength bs -> exists b, get1 off bs = Ok b /\ 0 <= b < 256.
Proof.
  intros Hb Ho. destruct (get1_in bs off Ho) as [b Hg]. exists b. split; [done|].
  apply get1_Ok in Hg as [_ Hl]. by eapply (Forall_lookup_1 _ _ _ _ Hb).
Qed.

Lemma get_le_safe k : forall bs p,
  bytes_ok bs -> 0 <= p -> p + Z.of_nat k <= zlength bs ->
  exists v, get_le k bs p = Ok v /\ 0 <= v < 2 ^ (8 * Z.of_nat k).
Proof.
  intros bs p Hb Hp Hk. destruct (split_at bs p (Z.of_nat k)) as (pre & mid & post & -> & -> & Hm); [lia..|].
  apply bytes_ok_app in Hb as [_ [Hb _]%bytes_ok_app]. exists (le_dec mid).
  rewrite get_le_app by (done || lia). split; [done|]. pose proof (le_dec_range mid Hb). by rewrite <- Hm in *.
Qed.


(** The fields of the string headers, whatever the bytes. *)
Lemma strlen12_range b0 b1 : 0 <= b0 < 256 -> 0 <= b1 < 256 ->
  0 <= Z.lor (Z.shiftl (Z.land b0 0xF) 8) b1 < 4096.
Proof.
  intros H0 H1. change 0xF with (Z.ones 4). rewrite land_ones_mod by lia.
  pose proof (Z.mod_pos_bound b0 (2 ^ 4)). rewrite Z.lor_comm, lor_shl_add by lia. pow_const. lia.
Qed.

Lemma strlen6_range b : 0 <= Z.land b 0x3F < 64.
Proof. change 0x3F with (Z.ones 6). rewrite land_ones_mod by lia. apply Z.mod_pos_bound. lia. Qed.

Section Bytes.
Context (lp : list Z) (Hb : bytes_ok lp).

(** When the header of the entry is in range, its size can be computed. *)
Lemma size_safe p b :
  0 <= p -> get1 p lp = Ok b -> lpCurrentEncodedSizeBytes b <> 0 ->
  p + lpCurrentEncodedSizeBytes b <= zlength lp ->
  exists sz, lpCurrentEncodedSizeUnsafe lp p = Ok sz /\ 0 <= sz < 2 ^ 32.
Proof.
  intros Hp Hg H0 Hr. unfold lpCurrentEncodedSizeUnsafe, lpCurrentEncodedSizeBytes in *. rewrite Hg.
  assert (0 <= b < 256) as Hbb.
  { apply get1_Ok in Hg as [_ Hl]. by eapply (Forall_lookup_1 _ _ _ _ Hb). }
  destruct (LP_ENCODING_IS_7BIT_UINT b); [by eexists|].
  destruct (LP_ENCODING_IS_6BIT_STR b).
  { unfold LP_ENCODING_6BIT_STR_LEN. rewrite Hg. pose proof (strlen6_range b). eexists; split; [done|]. pow_const. lia. }
  destruct (LP_ENCODING_IS_13BIT_INT b); [by eexists|]. destruct (LP_ENCODING_IS_16BIT_INT b); [by eexists|].
  destruct (LP_ENCODING_IS_24BIT_INT b); [by eexists|]. destruct (LP_ENCODING_IS_32BIT_INT b); [by eexists|].
  destruct (LP_ENCODING_IS_64BIT_INT b); [by eexists|].
  destruct (LP_ENCODING_IS_12BIT_STR b).
  { unfold LP_ENCODING_12BIT_STR_LEN. rewrite Hg. destruct (get1_byte (p + 1) lp Hb) as (b1 & -> & Hb1); [lia|].
    pose proof (strlen12_range b b1 Hbb Hb1). eexists; split; [done|]. pow_const. lia. }
  destruct (LP_ENCODING_IS_32BIT_STR b).
  { unfold LP_ENCODING_32BIT_STR_LEN. destruct (get_le_safe 4 lp (p + 1) Hb) as (v & -> & Hv); [lia..|].
    eexists; split; [done|]. apply u_range. lia. }
  destruct (b =? LP_EOF); [by eexists|done].
Qed.

(** The backward length: five bytes at most are read; the low seven bits come from
    the byte it starts on. *)
Lemma decodeBacklen_loop_safe fuel : forall p val shift,
  shift = 35 - 7 * Z.of_nat fuel -> 0 <= shift -> (0 < fuel)%nat ->
  Z.of_nat fuel - 1 <= p < zlength lp ->
  0 <= val < 2 ^ shift ->
  exists r, lpDecodeBacklen_loop fuel lp p val shift = Ok r /\
    (r = ULLONG_MAX \/ (0 <= r < 2 ^ 35 /\ r mod 2 ^ shift = val)).
Proof.
  induction fuel as [|fuel IH]; intros p val shift Hs Hs0 Hf Hp Hv; [lia|]. cbn [lpDecodeBacklen_loop].
  destruct (get1_byte p lp Hb) as (b & -> & Hbb); [lia|].
  assert (0 <= Z.land b 127 < 128) as Hg by (rewrite land_127; apply Z.mod_pos_bound; lia).
  destruct (decode_val val (Z.land b 127) shift ltac:(lia) Hv Hg) as [-> Hr].
  assert ((val + Z.land b 127 * 2 ^ shift) mod 2 ^ shift = val) as Hm.
  { rewrite Z.mod_add by lia. by apply Z.mod_small. }
  destruct (Z.land b 128 =? 0).
  { eexists. split; [done|]. right. split; [|done].
    pose proof (Z.pow_le_mono_r 2 (shift + 7) 35 ltac:(lia) ltac:(lia)). lia. }
  rewrite Z.gtb_ltb. destruct (Z.ltb_spec 28 (shift + 7)); [eexists; split; [done|by left]|].
  destruct (IH (p - 1) (val + Z.land b 127 * 2 ^ shift) (shift + 7)) as (r & -> & Hr'); [lia..|].
  eexists. split; [done|]. destruct Hr' as [|[? Hr']]; [by left|right]. split; [done|].
  rewrite <- Hm, <- Hr'. rewrite Z.pow_add_r by lia. symmetry. by rewrite Z.rem_mul_r, Z.mul_comm, Z.mod_add, Z.mod_mod by lia.
Qed.

Lemma decodeBacklen_safe p b :
  4 <= p -> get1 p lp = Ok b ->
  exists r, lpDecodeBacklen lp p = Ok r /\ (r = ULLONG_MAX \/ (0 <= r < 2 ^ 35 /\ r mod 128 = b mod 128)).
Proof.
  intros Hp Hg. assert (p < zlength lp) as Hl.
  { apply get1_Ok in Hg as [_ Hl]. apply lookup_lt_Some in Hl. lia. }
  unfold lpDecodeBacklen. change 5%nat with (S 4). remember 4%nat as k eqn:Hk.
  cbn [lpDecodeBacklen_loop]. rewrite Hg.
  assert (0 <= Z.land b 127 < 128) as Hgr by (rewrite land_127; apply Z.mod_pos_bound; lia).
  destruct (decode_val 0 (Z.land b 127) 0 ltac:(lia) ltac:(pow_const; lia) Hgr) as [-> Hr].
  rewrite land_127 in *. rewrite Z.pow_0_r, Z.mul_1_r, Z.add_0_l in *.
  destruct (Z.land b 128 =? 0).
  { eexists; split; [done|]. right. split; [pow_const; lia|]. apply Z.mod_mod. lia. }
  change (0 + 7 >? 28) with false. change (0 + 7) with 7. cbv iota.
  destruct (decodeBacklen_loop_safe k (p - 1) (b mod 128) 7) as (r & -> & Hr'); [lia..|].
  eexists; split; [done|]. destruct Hr' as [|[? Hr']]; [by left|right]. done.
Qed.

(** An entry that passed the checks of lpValidateNext: [sz] is the size of its encoding. *)
Record entry_at (p sz : Z) : Prop := {
  ea_pos : LP_HDR_SIZE <= p;
  ea_byte : exists b, get1 p lp = Ok b /\ b <> LP_EOF /\ 0 <= b < 256 /\
              lpCurrentEncodedSizeBytes b <> 0 /\ p + lpCurrentEncodedSizeBytes b < zlength lp;
  ea_size : lpCurrentEncodedSizeUnsafe lp p = Ok sz;
  ea_range : 0 <= sz < 2 ^ 32;
  ea_end : p + sz + lpEncodeBacklenBytes sz < zlength lp;
  ea_back : lpDecodeBacklen lp (p + sz + lpEncodeBacklenBytes sz - 1) = Ok sz
}.

Lemma validateNext_safe p :
  exists r, lpValidateNext lp (Some p) (zlength lp) = Ok r /\
  match r with
  | None => True
  | Some None => LP_HDR_SIZE <= p /\ get1 p lp = Ok LP_EOF
  | Some (Some p') => exists sz, entry_at p sz /\ p' = p + sz + lpEncodeBacklenBytes sz
  end.
Proof.
  unfold lpValidateNext, LP_HDR_SIZE. cbv beta zeta.
  destruct ((p <? 6) || (p >? zlength lp - 1)) eqn:E1; [by eexists|].
  destruct (get1_byte p lp Hb) as (b & Hg & Hbb); [lia|]. rewrite Hg.
  destruct (Z.eqb_spec b LP_EOF) as [->|Hne]; [eexists; split; [done|split; [lia|done]]|].
  destruct (Z.eqb_spec (lpCurrentEncodedSizeBytes b) 0) as [|H0]; [by eexists|].
  destruct ((p + lpCurrentEncodedSizeBytes b <? 6) || _) eqn:E2; [by eexists|].
  destruct (size_safe p b) as (sz & Hsz & Hr); [lia|done|done|lia|]. rewrite Hsz.
  destruct ((p + (sz + _) <? 6) || _) eqn:E3; [by eexists|]. pose proof (backlenBytes_range sz).
  replace (p + (sz + lpEncodeBacklenBytes sz)) with (p + sz + lpEncodeBacklenBytes sz) in * by lia.
  destruct (get1_byte (p + sz + lpEncodeBacklenBytes sz - 1) lp Hb) as (b' & Hg' & _); [lia|].
  destruct (decodeBacklen_safe (p + sz + lpEncodeBacklenBytes sz - 1) b') as (prev & Hprev & Hpr); [lia|done|].
  rewrite Hprev.
  destruct (negb _) eqn:E4; [by eexists|]. eexists; split; [done|]. exists sz. split; [|done].
  apply negb_false_iff, Z.eqb_eq in E4. assert (prev = sz) as ->.
  { unfold ULLONG_MAX in *. destruct Hpr as [->|[Hpr _]]; pow_const.
    - unfold u in E4. pow_const. Z.to_euclidean_division_equations; lia.
    - rewrite u_id in E4 by (pow_const; lia). lia. }
  split; unfold LP_HDR_SIZE; try done; [lia| |lia]. exists b. split_and!; (done || lia).
Qed.

(** The length field of a 32-bit string is at most the room left. *)
Lemma get_le4_bytes p v :
  0 <= p -> get_le 4 lp p = Ok v ->
  exists m0 m1 m2 m3, get1 p lp = Ok m0 /\ get1 (p + 1) lp = Ok m1 /\ get1 (p + 2) lp = Ok m2 /\ get1 (p + 3) lp = Ok m3 /\
    bytes_ok [m0; m1; m2; m3] /\ v = le_dec [m0; m1; m2; m3].
Proof.
  intros Hp Hv. assert (p + 4 <= zlength lp) as Hp4.
  { cbn [get_le] in Hv. res_inv. apply get1_Ok in E5 as [_ Hl]. apply lookup_lt_Some in Hl. lia. }
  destruct (split_at lp p 4 Hp ltac:(lia) Hp4) as (pre & m & post & Heq & Hpre & Hm).
  assert (bytes_ok m) as Hbm by (rewrite Heq in Hb; apply bytes_ok_app in Hb as [_ [? _]%bytes_ok_app]; done).
  rewrite Heq, get_le_app in Hv by (done || lia). injection Hv as Hv.
  destruct m as [|m0 [|m1 [|m2 [|m3 []]]]]; cbn [length] in Hm; try lia.
  exists m0, m1, m2, m3. rewrite Heq. split_and!; [..|done|done].
  - eapply (get1_nth _ _ _ 0); [done|lia].
  - eapply (get1_nth _ _ _ 1); [done|lia].
  - eapply (get1_nth _ _ _ 2); [done|lia].
  - eapply (get1_nth _ _ _ 3); [done|lia].
Qed.

(** The size of an accepted entry with a 32-bit string header has not wrapped: for the
    lengths that make [5 + len] wrap, the byte in the place of the backward length is
    one of the header's, and does not decode to the wrapped size. *)
Lemma entry_nowrap p sz v :
  entry_at p sz -> get1 p lp = Ok 240 -> get_le 4 lp (p + 1) = Ok v -> sz = 5 + v.
Proof.
  intros [Hp _ Hs Hr He Hback] Hg Hv. unfold lpCurrentEncodedSizeUnsafe, LP_ENCODING_32BIT_STR_LEN in Hs.
  rewrite Hg, Hv in Hs. change (Ok (u32 (5 + v)) = Ok sz) in Hs. injection Hs as Hs. unfold LP_HDR_SIZE in Hp.
  destruct (get_le4_bytes (p + 1) v ltac:(lia) Hv) as (m0 & m1 & m2 & m3 & G0 & G1 & G2 & G3 & Hbm & Hdec).
  pose proof (le_dec_range _ Hbm) as Hvr. cbn [length] in Hvr. rewrite <- Hdec in Hvr. pow_const.
  destruct (Z.lt_ge_cases (5 + v) 4294967296); [by rewrite u_id in Hs by (pow_const; lia)|exfalso].
  assert (sz = v - 4294967291) as Hsz.
  { rewrite <- Hs. unfold u. pow_const. Z.to_euclidean_division_equations; lia. }
  apply Forall_cons_1 in Hbm as [? [? [? [? _]%Forall_cons_1]%Forall_cons_1]%Forall_cons_1]. cbn [le_dec] in Hdec.
  assert (lpEncodeBacklenBytes sz = 1) as Hbl by (unfold lpEncodeBacklenBytes; by rewrite (proj2 (Z.leb_le sz 127)) by lia). rewrite Hbl in *.
  replace (p + sz + 1 - 1) with (p + sz) in Hback by lia.
  assert (exists b, get1 (p + sz) lp = Ok b /\ b mod 128 <> sz) as (b & Hgb & Hne).
  { assert (sz = 0 \/ sz = 1 \/ sz = 2 \/ sz = 3 \/ sz = 4) as [->|[->|[->|[->| ->]]]] by lia.
    - exists 240. by rewrite Z.add_0_r.
    - exists m0. split; [done|]. assert (m0 = 252) as -> by lia. done.
    - exists m1. rewrite <- G1. split; [f_equal; lia|]. assert (m1 = 255) as -> by lia. done.
    - exists m2. rewrite <- G2. split; [f_equal; lia|]. assert (m2 = 255) as -> by lia. done.
    - exists m3. rewrite <- G3. split; [f_equal; lia|]. assert (m3 = 255) as -> by lia. done. }
  destruct (decodeBacklen_safe (p + sz) b ltac:(lia) Hgb) as (r & Hr' & Hmod). rewrite Hback in Hr'. injection Hr' as <-.
  unfold ULLONG_MAX in Hmod. rewrite (Z.mod_small sz 128) in Hmod by lia. lia.
Qed.

(** What lpGet returns for an accepted entry lies inside the listpack. *)
Lemma get_safe p sz :
  entry_at p sz ->
  exists v, lpGet lp p None = Ok v /\
    match v with LpStr off len => 0 <= off /\ 0 <= len /\ off + len < zlength lp | LpInt _ => True | LpBuf _ _ => False end.
Proof.
  intros He. pose proof He as [Hp (b & Hg & Hne & Hbb & H0 & Hlb) Hs Hr Hend Hback]. pose proof (backlenBytes_range sz).
  unfold LP_HDR_SIZE, LP_EOF in *. unfold lpGet, lpGetWithBuf, lp_int_result. rewrite Hg.
  assert (forall k, p + Z.of_nat k < zlength lp -> exists v, get_le k lp (p + 1) = Ok v /\ 0 <= v < 2 ^ (8 * Z.of_nat k)) as Hle
    by (intros k Hk; apply get_le_safe; [done|lia..]).
  unfold lpCurrentEncodedSizeUnsafe, lpCurrentEncodedSizeBytes in *. rewrite Hg in Hs. revert Hs H0 Hlb. 
  assert (b < 128 \/ 128 <= b < 192 \/ 192 <= b < 224 \/ 224 <= b < 240 \/ b = 240 \/ b = 241 \/ b = 242 \/ b = 243 \/
    b = 244 \/ 245 <= b) as [H1|[H1|[H1|[H1|[->|[->|[->|[->|[->|H1]]]]]]]]] by lia.
  - enc_decide b. intros. by eexists.
  - enc_decide b. unfold LP_ENCODING_6BIT_STR_LEN. rewrite Hg. intros [= <-] _ _. pose proof (strlen6_range b).
    eexists; split; [done|]. simpl. lia.
  - enc_decide b. intros [= <-] _ _. destruct (get1_byte (p + 1) lp Hb) as (b1 & -> & _); [lia|]. by eexists.
  - enc_decide b. unfold LP_ENCODING_12BIT_STR_LEN. rewrite Hg. intros Hs _ Hlb.
    destruct (get1_byte (p + 1) lp Hb) as (b1 & Hg1 & Hb1); [lia|]. rewrite Hg1 in *. injection Hs as <-.
    pose proof (strlen12_range b b1 Hbb Hb1). eexists; split; [done|]. simpl. lia.
  - intros _ _ Hlb. change (p + 5 < zlength lp) in Hlb. destruct (Hle 4%nat ltac:(lia)) as (v & Hv & Hvr).
    pose proof (entry_nowrap p sz v He Hg Hv). change (exists r, (let! count := LP_ENCODING_32BIT_STR_LEN lp p in Ok (LpStr (p + 5) count)) = Ok r /\
      match r with LpStr off len => 0 <= off /\ 0 <= len /\ off + len < zlength lp | LpInt _ => True | LpBuf _ _ => False end).
    unfold LP_ENCODING_32BIT_STR_LEN. rewrite Hv. eexists; split; [done|]. simpl. lia.
  - intros Hs _ _. change (Ok 3 = Ok sz) in Hs. injection Hs as <-. enc_decide 241. 
    destruct (Hle 2%nat ltac:(lia)) as (v & -> & _). by eexists.
  - intros Hs _ _. change (Ok 4 = Ok sz) in Hs. injection Hs as <-. enc_decide 242. 
    destruct (Hle 3%nat ltac:(lia)) as (v & -> & _). by eexists.
  - intros Hs _ _. change (Ok 5 = Ok sz) in Hs. injection Hs as <-. enc_decide 243. 
    destruct (Hle 4%nat ltac:(lia)) as (v & -> & _). by eexists.
  - intros Hs _ _. change (Ok 9 = Ok sz) in Hs. injection Hs as <-. enc_decide 244. 
    destruct (Hle 8%nat ltac:(lia)) as (v & -> & _). by eexists.
  - enc_decide b. unfold LP_EOF. repeat zif. by intros.
Qed.

Lemma entry_next p sz : entry_at p sz -> lpSkip lp p = Ok (p + sz + lpEncodeBacklenBytes sz).
Proof. intros [_ _ Hs _ _ _]. unfold lpSkip. rewrite Hs. f_equal. lia. Qed.

Lemma entry_assert p sz : entry_at p sz -> lpAssertValidEntry lp (zlength lp) p = Ok tt.
Proof.
  intros He. pose proof He as [Hp (b & Hg & Hne & Hbb & H0 & Hlb) Hs Hr Hend Hback]. pose proof (backlenBytes_range sz).
  unfold lpAssertValidEntry, lpValidateNext. cbv beta zeta. rewrite Hg, Hs. unfold LP_HDR_SIZE, LP_EOF in *.
  assert (0 < lpCurrentEncodedSizeBytes b) by (unfold lpCurrentEncodedSizeBytes in *; repeat case_match; lia).
  repeat (zif; cbn [orb]). rewrite Z.add_assoc, Hback, u_id, Z.eqb_refl by (pow_const; lia). done.
Qed.

(** The entries from [p] to the terminator at [q]. *)
Inductive walk : Z -> list Z -> Z -> Prop :=
| walk_eof p : get1 p lp = Ok LP_EOF -> walk p [] p
| walk_step p sz ps q :
    entry_at p sz -> walk (p + sz + lpEncodeBacklenBytes sz) ps q -> walk p (p :: ps) q.

Lemma walk_length p ps q : walk p ps q -> zlength ps <= zlength lp - p.
Proof.
  induction 1 as [p Hg|p sz ps q [Hp _ Hs Hr Hend _] Hw IH].
  - apply get1_Ok in Hg as [? Hl]. apply lookup_lt_Some in Hl. cbn [length]. lia.
  - pose proof (backlenBytes_range sz). cbn [length]. lia.
Qed.

(** Where the walk starts decides what lpFirst and lpNext see. *)
Lemma walk_head p ps q :
  walk p ps q -> lpGetTotalBytes lp = Ok (zlength lp) ->
  (let! b := get1 p lp in
   if b =? LP_EOF then Ok None
   else
     let! bytes := lpBytes lp in
     let! _ := lpAssertValidEntry lp bytes p in
     Ok (Some p)) = Ok (head ps).
Proof.
  intros Hw Ht. destruct Hw as [p Hg|p sz ps q He Hw]; [by rewrite Hg|]. pose proof He as [_ (b & -> & Hne & _) _ _ _ _].
  rewrite (proj2 (Z.eqb_neq b LP_EOF)) by done. unfold lpBytes. rewrite Ht. by rewrite (entry_assert p sz).
Qed.

Lemma walk_next p ps q :
  walk p ps q -> lpGetTotalBytes lp = Ok (zlength lp) ->
  forall i pi, ps !! i = Some pi ->
    lpNext lp pi = Ok (ps !! S i) /\
    exists v, lpGet lp pi None = Ok v /\
      match v with LpStr off len => 0 <= off /\ 0 <= len /\ off + len < zlength lp | LpInt _ => True | LpBuf _ _ => False end.
Proof.
  intros Hw Ht. induction Hw as [p Hg|p sz ps q He Hw IH]; intros i pi Hi; [done|].
  destruct i as [|i]; simpl in Hi; [injection Hi as <-|by apply IH].
  split; [|by eapply get_safe]. unfold lpNext. rewrite (entry_next p sz He).
  rewrite (walk_head _ ps q Hw Ht). by destruct ps.
Qed.

(** An integer that lpGet returns has 64 bits. *)
Lemma get_int_range p v : lpGet lp p None = Ok (LpInt v) -> in_s 64 v.
Proof.
  unfold lpGet, lpGetWithBuf, lp_int_result. destruct (get1 p lp) as [b|]; [|done]. intros Hg.
  repeat match type of Hg with
  | (if ?t then _ else _) = _ => destruct t
  | (let! x := ?e in _) = _ => destruct e; [|done]
  end; try done; injection Hg as <-; case_match; apply s_range; lia.
Qed.

(** What lpGet returns lies inside the listpack. *)
Definition in_bounds (v : lpval) : Prop :=
  match v with LpStr off len => 0 <= off /\ 0 <= len /\ off + len < zlength lp | LpInt _ => True | LpBuf _ _ => False end.

(** A callback that keeps [P] of its userdata when it accepts an entry that can be read;
    [ps] are the entries it has accepted. *)
Definition callback_ok {A} (cb : option (list Z -> Z -> Z -> A -> res (bool * A))) (P : list Z -> A -> Prop) : Prop :=
  forall p numele ps a, (exists v, lpGet lp p None = Ok v /\ in_bounds v) -> zlength ps <= zlength lp -> P ps a ->
    exists ok a', validate_entry cb lp p numele a = Ok (ok, a') /\ (ok = true -> P (ps ++ [p]) a').

Lemma validate_loop_safe {A} (cb : option (list Z -> Z -> Z -> A -> res (bool * A))) (P : list Z -> A -> Prop) numele fuel : callback_ok cb P ->
  forall p count ps0 a, P ps0 a -> zlength ps0 <= p -> LP_HDR_SIZE <= p < zlength lp -> zlength lp - p <= Z.of_nat fuel ->
  exists r a', lpValidateIntegrity_loop cb fuel lp (zlength lp) numele (Some p) count a = Ok (r, a') /\
    match r with
    | None => True
    | Some (q, c) => exists ps q', q = Some q' /\ walk p ps q' /\ P (ps0 ++ ps) a' /\ (0 <= count < 2 ^ 32 -> c = u32 (count + zlength ps))
    end.
Proof.
  intros Hcb. induction fuel as [|fuel IH]; intros p count ps0 a HP Hps Hp Hf; [lia|]. cbn [lpValidateIntegrity_loop]. unfold LP_HDR_SIZE in *.
  destruct (get1_byte p lp Hb) as (b & Hg & Hbb); [lia|]. rewrite Hg.
  destruct (Z.eqb_spec b LP_EOF) as [->|Hne].
  { eexists _, _; split; [done|]. exists [], p. split_and!; [done|by constructor|by rewrite app_nil_r|]. intros Hc. cbn [length].
    by rewrite Z.add_0_r, u_id. }
  destruct (validateNext_safe p) as (r & -> & Hr). destruct r as [[p'|]|]; [|destruct Hr as [_ Hr]; congruence|by eexists _, _].
  destruct Hr as (sz & He & ->). destruct (Hcb p numele ps0 a (get_safe p sz He) ltac:(lia) HP) as (ok & a' & -> & Hok).
  destruct ok; cbn [negb]; [|by eexists _, _]. pose proof He as [_ _ _ Hsr Hend _]. pose proof (backlenBytes_range sz).
  destruct (IH (p + sz + lpEncodeBacklenBytes sz) (u32 (count + 1)) (ps0 ++ [p]) a' (Hok eq_refl)) as (r & a2 & -> & Hr); [len|lia..|].
  eexists _, _; split; [done|]. destruct r as [[q c]|]; [|done]. destruct Hr as (ps & q' & -> & Hw & HP' & Hc).
  exists (p :: ps), q'. split_and!; [done|by econstructor|by rewrite cons_middle|]. intros _.
  rewrite Hc by (apply u_range; lia). unfold u. rewrite Zplus_mod_idemp_l. cbn [length]. f_equal. lia.
Qed.

(** What a deep validation has established when it accepts. *)
Lemma validate_deep {A} (cb : option (list Z -> Z -> Z -> A -> res (bool * A))) (P : list Z -> A -> Prop) deep a :
  callback_ok cb P -> P [] a ->
  exists r a', lpValidateIntegrity cb lp (zlength lp) deep a = Ok (r, a') /\
    (r = true -> deep = true -> exists ps q n, walk LP_HDR_SIZE ps q /\ P ps a' /\ lpGetTotalBytes lp = Ok (zlength lp) /\
       lpGetNumElements lp = Ok n /\ (n = LP_HDR_NUMELE_UNKNOWN \/ n = zlength ps)).
Proof.
  intros Hcb HP. unfold lpValidateIntegrity, LP_HDR_SIZE. destruct (Z.ltb_spec (zlength lp) (6 + 1)); [by eexists _, _|].
  unfold lpGetTotalBytes. destruct (get_le_safe 4 lp 0 Hb) as (tot & Ht & Htr); [lia..|]. rewrite Ht.
  destruct (Z.eqb_spec tot (zlength lp)) as [->|]; [|by eexists _, _]. cbn [negb].
  destruct (get1_byte (zlength lp - 1) lp Hb) as (b & -> & _); [lia|].
  destruct (negb (b =? LP_EOF)); [by eexists _, _|]. destruct deep; cbn [negb]; [|by eexists _, _].
  unfold lpGetNumElements. destruct (get_le_safe 2 lp 4 Hb) as (ne & Hne & _); [lia..|]. rewrite Hne.
  destruct (validate_loop_safe cb P ne (length lp) Hcb 6 0 [] a HP) as (r & a' & Hr & Hw); [simpl; lia|unfold LP_HDR_SIZE; lia|lia|].
  rewrite Hr. destruct r as [[q c]|]; [|by eexists _, _]. destruct Hw as (ps & q' & -> & Hw & HP' & Hc).
  destruct (negb (bool_decide _)); [by eexists _, _|]. destruct (_ && _) eqn:E; [by eexists _, _|].
  eexists _, _; split; [done|]. intros _ _. exists ps, q', ne. pose proof (walk_length _ _ _ Hw) as Hl.
  change (8 * Z.of_nat 4) with 32 in Htr. rewrite Hc, Z.add_0_l, u_id in E by lia. split_and!; try done. lia.
Qed.
End Bytes.

(** * Well-formed listpacks *)

(** A callback that accepts the elements one by one. *)
Definition callback_accepts {A} (cb : option (list Z -> Z -> Z -> A -> res (bool * A))) (P : list elem -> A -> Prop) n slack es : Prop :=
  forall es1 e es2 numele a, es = es1 ++ e :: es2 -> P es1 a ->
    exists a', validate_entry cb (lp_of n es slack) (pos es1) numele a = Ok (true, a') /\ P (es1 ++ [e]) a'.

Lemma validate_loop_complete {A} (cb : option (list Z -> Z -> Z -> A -> res (bool * A))) (P : list elem -> A -> Prop) n slack numele es :
  callback_accepts cb P n slack es -> forall es2 es1 fuel count a, es = es1 ++ es2 ->
  Forall elem_ok es2 -> (length es2 <= fuel)%nat -> 0 <= count -> count + zlength es2 < 2 ^ 32 -> P es1 a ->
  exists a', lpValidateIntegrity_loop cb fuel (lp_of n es slack) (total es) numele (Some (pos es1)) count a =
    Ok (Some (Some (pos es), count + zlength es2), a') /\ P es a'.
Proof.
  intros Hcb. induction es2 as [|e es2 IH]; intros es1 fuel count a Hes Hf Hfu Hc Hb HP;
    destruct (byte_at n es1 _ slack Hf) as (b & Hg & _ & Heof); rewrite <- Hes in Hg.
  - rewrite app_nil_r in Hes. subst es1. exists a. split; [|done]. destruct fuel; cbn [lpValidateIntegrity_loop]; rewrite Hg, Heof, Z.add_0_r; done.
  - destruct fuel as [|fuel]; cbn [length] in *; [lia|]. cbn [lpValidateIntegrity_loop]. rewrite Hg, Heof.
    apply Forall_cons_1 in Hf as [He Hf]. destruct (Hcb es1 e es2 numele a Hes HP) as (a' & Ha & HP').
    pose proof (validateNext_at n es1 e es2 slack He) as Hn. rewrite <- Hes in Hn. rewrite Hn by done. rewrite Ha. cbn [negb].
    destruct (IH (es1 ++ [e]) fuel (u32 (count + 1)) a') as (a2 & -> & HP2);
      [by rewrite <- (assoc_L (++))|done|lia|rewrite u_id; lia|rewrite u_id; lia|done|].
    exists a2. split; [|done]. rewrite u_id by lia. do 4 f_equal. lia.
Qed.

Lemma lp_last n es slack : get1 (total es - 1) (lp_of n es slack) = Ok LP_EOF.
Proof. unfold lp_of. rewrite app_assoc. apply get1_app. unfold total. len. Qed.

Lemma validate_complete_with {A} (cb : option (list Z -> Z -> Z -> A -> res (bool * A))) (P : list elem -> A -> Prop) n es slack deep a :
  lp_wf n es -> callback_accepts cb P n slack es -> P [] a ->
  exists a', lpValidateIntegrity cb (lp_of n es slack) (total es) deep a = Ok (true, a') /\ (if deep then P es a' else a' = a).
Proof.
  intros Hwf Hcb HP. pose proof Hwf as [Hc Ht Hf]. unfold lpValidateIntegrity. pose proof (total_nonneg es).
  rewrite getTotal, Z.eqb_refl by done. unfold LP_HDR_SIZE at 1. zif. cbn [negb]. rewrite lp_last. cbn [negb Z.eqb LP_EOF].
  change (negb (255 =? 255)) with false. cbv iota. destruct deep; cbn [negb]; [|by exists a]. rewrite numele_at by done.
  change (Some LP_HDR_SIZE) with (Some (pos [])). pose proof (length_bound n es Hwf). pose proof (fuel_enough n slack es Hwf).
  destruct (validate_loop_complete cb P n slack n es Hcb es [] (length (lp_of n es slack)) 0 a eq_refl Hf) as (a' & Hl & HP'); [lia|lia|pow_const; lia|done|].
  rewrite Hl. exists a'. split; [|done]. pose proof (total_split es []) as Hts. rewrite app_nil_r in Hts.
  change (zlength (entries [])) with 0 in Hts.
  rewrite bool_decide_eq_true_2 by (f_equal; lia). cbn [negb]. rewrite Z.add_0_l.
  destruct Hc as [->|[-> ?]]; [done|]. by rewrite Z.eqb_refl, andb_false_r.
Qed.

Lemma validate_complete n es slack deep :
  lp_wf n es -> lpValidateIntegrity None (lp_of n es slack) (total es) deep tt = Ok (true, tt).
Proof.
  intros Hwf. destruct (validate_complete_with (A := unit) None (fun _ _ => True) n es slack deep tt Hwf) as ([] & -> & _); [|done|done].
  intros es1 e es2 numele [] _ _. by exists tt.
Qed.

(** A shallow validation checks the header and the last byte only. *)
Definition header_ok (lp : list Z) : bool :=
  (7 <=? zlength lp) && bool_decide (lpGetTotalBytes lp = Ok (zlength lp)) && bool_decide (get1 (zlength lp - 1) lp = Ok LP_EOF).

Lemma validate_header {A} (cb : option (list Z -> Z -> Z -> A -> res (bool * A))) lp deep a r a' :
  lpValidateIntegrity cb lp (zlength lp) deep a = Ok (r, a') ->
  (deep = false -> r = header_ok lp /\ a' = a) /\ (r = true -> header_ok lp = true).
Proof.
  unfold lpValidateIntegrity, header_ok, LP_HDR_SIZE. change (6 + 1) with 7. rewrite Z.leb_antisym. destruct (zlength lp <? 7) eqn:E7; cbn [negb andb]; [intros [= <- <-]; by split|].
  destruct (lpGetTotalBytes lp) as [bytes|] eqn:Et; [|done]. destruct (Z.eqb_spec bytes (zlength lp)) as [->|Hne]; cbn [negb].
  2: { rewrite bool_decide_eq_false_2 by congruence. intros [= <- <-]. by split. }
  rewrite bool_decide_eq_true_2 by done. destruct (get1 (zlength lp - 1) lp) as [last|]; [|done]. destruct (Z.eqb_spec last LP_EOF) as [->|Hne]; cbn [negb andb].
  2: { rewrite bool_decide_eq_false_2 by congruence. intros [= <- <-]. by split. }
  rewrite bool_decide_eq_true_2 by done. destruct deep; cbn [negb]; [by intros _|]. intros [= <- <-]. by split.
Qed.

(** * Claims *)

(** C24: lpValidateIntegrity, run on any byte buffer of the given size with a callback that
    copes with every entry that can be read, never reads outside it and terminates.  A shallow
    validation accepts exactly when the size in the header is that of the buffer and the last
    byte is the terminator.  When a deep one accepts, the listpack can be walked: lpFirst
    and lpNext visit exactly the positions [ps] without a failed assertion, as many
    as the header counts (when it counts), and every value lpGet returns lies inside
    the buffer.  Conversely every listpack with the encodings that lpInsert writes ([lp_wf]) is
    accepted, shallow or deep, unless the
    callback refuses one of its elements, and a deep validation calls the callback for all the
    elements in order. *)
Theorem lpValidateIntegrity_sound {A} (cb : option (list Z -> Z -> Z -> A -> res (bool * A))) lp deep a :
  bytes_ok lp ->
  (forall p numele a, (exists v, lpGet lp p None = Ok v /\ in_bounds lp v) -> exists r, validate_entry cb lp p numele a = Ok r) ->
  (exists r a', lpValidateIntegrity cb lp (zlength lp) deep a = Ok (r, a') /\
    (deep = false -> r = header_ok lp /\ a' = a) /\ (r = true -> header_ok lp = true) /\
    (r = true -> deep = true ->
     exists ps n, lpFirst lp = Ok (head ps) /\ lpGetNumElements lp = Ok n /\
       (n = LP_HDR_NUMELE_UNKNOWN \/ n = zlength ps) /\
       forall i p, ps !! i = Some p ->
         lpNext lp p = Ok (ps !! S i) /\ exists v, lpGet lp p None = Ok v /\ in_bounds lp v)) /\
  (forall n es (P : list elem -> A -> Prop), lp = lp_of n es [] -> lp_wf n es -> callback_accepts cb P n [] es -> P [] a ->
    exists a', lpValidateIntegrity cb lp (zlength lp) deep a = Ok (true, a') /\ (if deep then P es a' else a' = a)).
Proof.
  intros Hb Hcb. split.
  - destruct (validate_deep lp Hb cb (fun _ _ => True) deep a) as (r & a' & Hr & Hd); [|done|].
    { intros p numele ps a0 Hv _ _. destruct (Hcb p numele a0 Hv) as ([ok a1] & Hr). by exists ok, a1. }
    exists r, a'. split; [done|]. destruct (validate_header cb lp deep a r a' Hr) as [H1 H2]. split; [done|]. split; [done|].
    intros Hrt Hdt. destruct (Hd Hrt Hdt) as (ps & q & n & Hw & _ & Ht & Hn & Hnn). exists ps, n.
    split_and!; [by apply (walk_head lp 6 ps q Hw)|done|done|]. intros i p. by apply (walk_next lp Hb 6 ps q Hw).
  - intros n es P -> Hwf Hacc HP. replace (zlength (lp_of n es [])) with (total es) by (rewrite length_lp; simpl; lia). by apply (validate_complete_with cb P).
Qed.

(** The callback that counts the entries and accepts no integers above 100. *)
Definition demo_callback (lp : list Z) (p _ : Z) (n : Z) : res (bool * Z) :=
  let! v := lpGet lp p None in Ok (match v with LpInt i => i <? 101 | _ => true end, n + 1).

(** The listpack of 100 and the string a: it is accepted, and the callback has counted two entries. *)
Definition demo_lp : list Z := [12; 0; 0; 0; 2; 0; 100; 1; 129; 97; 2; 255].
Definition demo_elems : list elem := [EInt 100; EStr [97]].

Lemma lpValidateIntegrity_sound_witness :
  (exists r n, lpValidateIntegrity (Some demo_callback) demo_lp 12 true 0 = Ok (r, n) /\ r = true /\ n = 2) /\
  (exists n, lpValidateIntegrity (Some demo_callback) demo_lp 12 true 0 = Ok (true, n) /\ n = zlength demo_elems).
Proof.
  destruct (lpValidateIntegrity_sound (Some demo_callback) demo_lp true 0) as [(r & n & Hr & _) Hacc].
  - repeat constructor; lia.
  - intros p numele a (v & Hv & _). unfold validate_entry, demo_callback. rewrite Hv. eexists. reflexivity.
  - split.
    + exists r, n. split; [exact Hr|]. vm_compute in Hr. injection Hr as <- <-. split; reflexivity.
    + destruct (Hacc 2 demo_elems (fun es n => n = zlength es)) as (n' & Hv & Hn); [reflexivity| | |reflexivity|by exists n'].
      * split; [by right|by vm_compute|]. repeat constructor; vm_compute; try done; intuition discriminate.
      * intros es1 e es2 numele a Hes ->. destruct es1 as [|e1 [|e2 es1]]; cbn [app] in Hes; [injection Hes as <- <-|injection Hes as <- <- <-|exfalso; by destruct es1].
        all: eexists; split; [vm_compute; reflexivity|reflexivity].
Defined.
