(* ===== verification/ListpackSpec.v ===== *)
(** The contract of src/redis-stable/src/listpack.c: a listpack is a sequence of byte
    strings, and every operation of the API does to the bytes what its name says on the
    sequence. *)

From Stdlib Require Import String.
From S2P Require Import Prelude Machine UtilNum Listpack ListpackEnc ListpackSeq ListpackRead ListpackUpd ListpackValid.

(** * From phases to the contract *)

Definition elems_ok_if_small (new : list elem) (es : list elem) : Prop :=
  total es <= UINT32_MAX -> Forall elem_ok new.

(** What an update promises: NULL exactly when the result would exceed the 32-bit size
    field, otherwise a well-formed listpack of the new sequence. *)
Definition updates_to (es' : list elem) (newp : option Z) (r : option (list Z * option Z)) : Prop :=
  match r with
  | None => UINT32_MAX < total es'
  | Some (lp', newp') => is_listpack lp' es' /\ newp' = newp
  end.

Lemma upd_listpack n es1 old new es2 newp r :
  lp_wf n (es1 ++ old ++ es2) -> (length new <= S (length old))%nat ->
  elems_ok_if_small new (es1 ++ new ++ es2) -> upd_result n es1 old new es2 newp r ->
  updates_to (es1 ++ new ++ es2) newp r.
Proof.
  intros [Hc Ht Hf] Hl Hn Hr. unfold upd_result in Hr. unfold updates_to.
  destruct (Z.leb_spec (total (es1 ++ new ++ es2)) UINT32_MAX) as [Hs|Hs]; [|by rewrite Hr].
  destruct Hr as [sl ->]. split; [|done]. do 2 eexists. split; [done|].
  split; [by eapply new_count_ok|done|]. rewrite !Forall_app in *. split_and!; [apply Hf|by apply Hn|apply Hf].
Qed.

Lemma arg_small n es1 old es2 elestr eleint size e :
  lp_wf n (es1 ++ old ++ es2) -> ins_arg elestr eleint size e -> elems_ok_if_small [e] (es1 ++ [e] ++ es2).
Proof.
  intros Hwf Ha Ht. pose proof (total_new n es1 old es2 _ _ _ _ Hwf Ha). destruct (arg_size _ _ _ _ Ha) as [_ Hok].
  constructor; [|done]. apply Hok. lia.
Qed.

(** The sequence after lpInsert of [e] at element [i], and the index of [e] in it. *)
Definition inserted (w : lp_where) (es : list elem) (i : nat) (e : elem) : list elem :=
  match w with
  | LP_BEFORE => take i es ++ e :: drop i es
  | LP_AFTER => take (S i) es ++ e :: drop (S i) es
  | LP_REPLACE => take i es ++ e :: drop (S i) es
  end.
Definition inserted_at (w : lp_where) (i : nat) : nat := match w with LP_AFTER => S i | _ => i end.

Lemma inserted_before n es es1 es2 slack junk elestr eleint size e :
  es = es1 ++ es2 -> ins_arg elestr eleint size e -> lp_wf n es ->
  exists r, lpInsert junk (lp_of n es slack) elestr eleint size (pos es1) LP_BEFORE = Ok r /\
    updates_to (es1 ++ e :: es2) (Some (pos es1)) r.
Proof.
  intros -> Ha Hwf. destruct (insert_before junk n slack es1 es2 _ _ _ _ Ha Hwf) as (r & -> & Hr).
  exists r. split; [done|]. eapply (upd_listpack n es1 [] [e] es2); [done|simpl; lia| |done].
  by eapply (arg_small n es1 [] es2).
Qed.

Lemma insert_contract junk n slack es i e elestr eleint size w :
  lp_wf n es -> (i < length es)%nat -> ins_arg elestr eleint size e ->
  exists r, lpInsert junk (lp_of n es slack) elestr eleint size (ptr es i) w = Ok r /\
    updates_to (inserted w es i e) (Some (ptr (inserted w es i e) (inserted_at w i))) r.
Proof.
  intros Hwf Hi Ha. destruct (lookup_lt_is_Some_2 es i Hi) as [o Ho].
  destruct (elem_split es i o Ho) as (es1 & es2 & -> & ->). rewrite ptr_mid.
  assert (drop (S (length es1)) (es1 ++ o :: es2) = es2) as Hd1
    by (rewrite cons_middle; replace (S (length es1)) with (length (es1 ++ [o])) by len; apply drop_app_length).
  assert (take (S (length es1)) (es1 ++ o :: es2) = es1 ++ [o]) as Ht1
    by (rewrite cons_middle; replace (S (length es1)) with (length (es1 ++ [o])) by len; apply take_app_length).
  unfold inserted, inserted_at. rewrite ?Hd1, ?Ht1, ?take_app_length, ?drop_app_length. destruct w.
  - rewrite ptr_mid. by apply (inserted_before n _ es1 (o :: es2)).
  - destruct (insert_after junk n slack es1 o es2 _ _ _ _ Ha Hwf) as (r & -> & Hr). exists r. split; [done|].
    replace (S (length es1)) with (length (es1 ++ [o])) by len. rewrite ptr_mid. rewrite (cons_middle es1 o es2) in Hwf.
    eapply (upd_listpack n (es1 ++ [o]) [] [e] es2); [done|simpl; lia| |done]. by eapply (arg_small n (es1 ++ [o]) [] es2).
  - destruct (insert_replace junk n slack es1 es2 _ _ _ _ Ha o Hwf) as (r & -> & Hr). exists r. split; [done|].
    rewrite ptr_mid. eapply (upd_listpack n es1 [o] [e] es2); [done|simpl; lia| |done]. by eapply (arg_small n es1 [o] es2).
Qed.

Lemma append_contract junk n slack es e elestr eleint size :
  lp_wf n es -> ins_arg elestr eleint size e ->
  exists r, lpInsert junk (lp_of n es slack) elestr eleint size (total es - 1) LP_BEFORE = Ok r /\
    updates_to (es ++ [e]) (Some (pos es)) r.
Proof.
  intros Hwf Ha. replace (total es - 1) with (pos es) by (unfold pos, total, LP_HDR_SIZE; lia).
  apply (inserted_before n es es []); [by rewrite app_nil_r|done..].
Qed.

Lemma delete_contract junk n slack es i :
  lp_wf n es -> (i < length es)%nat ->
  exists lp', lpDelete junk (lp_of n es slack) (ptr es i) =
    Ok (Some (lp', ptr_opt (take i es ++ drop (S i) es) i)) /\ is_listpack lp' (take i es ++ drop (S i) es).
Proof.
  intros Hwf Hi. destruct (lookup_lt_is_Some_2 es i Hi) as [o Ho].
  destruct (elem_split es i o Ho) as (es1 & es2 & -> & ->). rewrite ptr_mid, take_app_length.
  rewrite (cons_middle es1 o es2). replace (S (length es1)) with (length (es1 ++ [o])) by len. rewrite drop_app_length.
  rewrite <- (cons_middle es1 o es2). destruct (delete_spec junk n slack es1 o es2 Hwf) as (r & Hr & Hu).
  eapply (upd_listpack n es1 [o] [] es2) in Hu; [|done|simpl; lia|by intros _; constructor].
  simpl app in Hu. destruct r as [[lp' newp]|]; simpl in Hu.
  - destruct Hu as [Hu ->]. by exists lp'.
  - destruct Hwf as [_ Ht _]. rewrite total_split in Hu. rewrite total_at in Ht. lia.
Qed.

Lemma deleteRange_contract junk n slack es index num :
  lp_wf n es -> 0 <= num < 2 ^ 64 ->
  exists lp', lpDeleteRange junk (lp_of n es slack) index num = Ok lp' /\
    is_listpack lp' (match seek_index (zlength es) index with
                     | Some i => take i es ++ drop (Z.to_nat num) (drop i es)
                     | None => es
                     end).
Proof.
  intros Hwf Hn. destruct (deleteRange_spec junk n slack es index num Hwf Hn) as (n' & sl & -> & Hc).
  eexists; split; [done|]. do 2 eexists. split; [done|]. destruct Hwf as [_ Ht Hf]. split; [done|..].
  - destruct (seek_index _ _) as [i|]; [|done].
    rewrite <- (take_drop i es) in Ht. rewrite <- (take_drop (Z.to_nat num) (drop i es)) in Ht.
    rewrite total_split in *. rewrite entries_app, length_app in Ht. lia.
  - destruct (seek_index _ _) as [i|]; [|done]. apply Forall_app. split; [by apply Forall_take|by do 2 apply Forall_drop].
Qed.

Lemma length_contract n slack es :
  lp_wf n es ->
  exists lp', lpLength (lp_of n es slack) = Ok (zlength es, lp') /\ is_listpack lp' es /\
    (zlength es < LP_HDR_NUMELE_UNKNOWN -> lpGetNumElements lp' = Ok (zlength es)).
Proof.
  intros Hwf. destruct (length_spec n slack es Hwf) as (lp' & -> & ->).
  eexists; split; [done|]. pose proof Hwf as [Hc Ht Hf]. split.
  - do 2 eexists. split; [done|]. split; [|done|done]. destruct (Z.ltb_spec (zlength es) LP_HDR_NUMELE_UNKNOWN); [by right|done].
  - intros Hl. rewrite (proj2 (Z.ltb_lt _ _) Hl). apply getNumele. unfold LP_HDR_NUMELE_UNKNOWN in Hl. lia.
Qed.

Lemma new_contract junk capacity :
  exists lp, lpNew junk capacity = Ok lp /\ is_listpack lp [] /\ Z.max capacity 7 = zlength lp.
Proof.
  unfold lpNew, LP_HDR_SIZE.
  assert (exists rest, replicate (Z.to_nat (if capacity >? 6 + 1 then capacity else 6 + 1)) junk =
    [junk; junk; junk; junk] ++ [junk; junk] ++ junk :: rest /\ zlength rest = Z.max capacity 7 - 7) as (rest & -> & Hl).
  { exists (replicate (Z.to_nat (Z.max capacity 7 - 7)) junk). split; [|len].
    replace (Z.to_nat _) with (7 + Z.to_nat (Z.max capacity 7 - 7))%nat by (rewrite Z.gtb_ltb; zbool; lia). done. }
  rewrite set_total_spec by done. rewrite set_numele_spec by done. rewrite app_assoc, set1_app by done.
  eexists. split; [done|]. split; [|len]. exists 0, rest. split; [done|]. split; [|done|done]. by right.
Qed.

Lemma dup_contract n es slack : lp_wf n es -> lpDup (lp_of n es slack) = Ok (lp_of n es []).
Proof.
  intros [_ Ht _]. unfold lpDup, lpBytes. rewrite getTotal by done. unfold lp_of.
  set (h := le_enc 4 (total es) ++ le_enc 2 n).
  replace (h ++ entries es ++ LP_EOF :: slack) with ([] ++ (h ++ entries es ++ [LP_EOF]) ++ slack)
    by (simpl; by rewrite <- !app_assoc).
  apply load_app; [done|]. unfold h, total. len.
Qed.

(** * Claims *)

(** The cursor operations visit the elements of a well-formed listpack in order,
    from either end: lpFirst and lpLast give the ends (NULL when empty), lpNext and
    lpPrev the neighbours (NULL past the ends), and lpSeek the element an index names,
    negative indexes counting from the end, NULL when out of range, whether or not the
    header knows the number of elements. *)
Theorem lp_traversal_correct lp es :
  is_listpack lp es ->
  lpFirst lp = Ok (ptr_opt es 0) /\
  lpLast lp = Ok (match length es with O => None | S i => ptr_opt es i end) /\
  (forall i, (i < length es)%nat ->
     lpNext lp (ptr es i) = Ok (ptr_opt es (S i)) /\
     lpPrev lp (ptr es i) = Ok (match i with O => None | S j => ptr_opt es j end)) /\
  forall index, lpSeek lp index = Ok (ptr es <$> seek_index (zlength es) index).
Proof.
  intros (n & slack & -> & Hwf). split_and!.
  - by apply first_spec.
  - by apply last_spec.
  - intros i Hi. split; [by apply next_at|apply prev_at; [done|lia]].
  - intros index. by apply seek_spec.
Qed.

(** The listpack the examples use: 100, "hello", -300. *)
Definition demo_lp : list Z :=
  [19; 0; 0; 0; 3; 0] ++ [100; 1] ++ [133; 104; 101; 108; 108; 111; 6] ++ [222; 212; 2] ++ [255].
Definition demo_es : list elem := [EInt 100; EStr (bytes_of "hello"%string); EInt (-300)].

Lemma demo_listpack : is_listpack demo_lp demo_es.
Proof.
  exists 3, []. split; [vm_compute; reflexivity|]. split.
  - right. by vm_compute.
  - by vm_compute.
  - repeat constructor; by vm_compute.
Qed.

Lemma lp_traversal_correct_witness : is_listpack demo_lp demo_es /\ lpSeek demo_lp (-1) = Ok (Some 15).
Proof.
  split; [exact demo_listpack|].
  exact (eq_trans (proj2 (proj2 (proj2 (lp_traversal_correct demo_lp demo_es demo_listpack))) (-1)) eq_refl).
Defined.

(** lpLength returns the number of elements, walking the listpack when the header
    does not know it, and leaves the same sequence with the count repaired whenever it
    fits the header. *)
Theorem lpLength_correct lp es :
  is_listpack lp es ->
  exists lp', lpLength lp = Ok (zlength es, lp') /\ is_listpack lp' es /\
    (zlength es < LP_HDR_NUMELE_UNKNOWN -> lpGetNumElements lp' = Ok (zlength es)).
Proof. intros (n & slack & -> & Hwf). by apply length_contract. Qed.

Lemma lpLength_correct_witness : is_listpack demo_lp demo_es /\ exists lp', lpLength demo_lp = Ok (3, lp').
Proof.
  split; [exact demo_listpack|]. destruct (lpLength_correct demo_lp demo_es demo_listpack) as (lp' & H & _).
  exists lp'. exact H.
Defined.

(** Reading an element back gives the text it stands for: lpGet with a buffer of
    LP_INTBUF_SIZE bytes returns a pointer to the bytes of a string element and prints
    an integer element, in canonical decimal notation, to the buffer; lpGetValue and
    lpGetIntegerValue give the integer itself. *)
Theorem lpGet_correct lp es i e buf :
  is_listpack lp es -> es !! i = Some e -> LP_INTBUF_SIZE <= zlength buf ->
  exists txt, elem_text e txt /\
  match e with
  | EStr _ => exists off, lpGet lp (ptr es i) (Some buf) = Ok (LpStr off (zlength txt)) /\
                load off (zlength txt) lp = Ok txt /\
                lpGetValue lp (ptr es i) = Ok (inl (off, zlength txt)) /\ lpGetIntegerValue lp (ptr es i) = Ok None
  | EInt v => exists buf', lpGet lp (ptr es i) (Some buf) = Ok (LpBuf buf' (zlength txt)) /\
                take (length txt) buf' = txt /\
                lpGetValue lp (ptr es i) = Ok (inr v) /\ lpGetIntegerValue lp (ptr es i) = Ok (Some v)
  end.
Proof.
  intros (n & slack & -> & Hwf) Hi Hb. destruct (elem_split es i e Hi) as (es1 & es2 & -> & ->). rewrite ptr_mid.
  assert (elem_ok e) as He by (destruct Hwf as [_ _ Hf]; by apply Forall_app in Hf as [_ [? _]%Forall_cons_1]).
  destruct (get_text_at n slack es1 e es2 buf He Hb) as (txt & Ht & Hg). exists txt. split; [done|].
  rewrite getValue_at by done. unfold lpGetIntegerValue. rewrite get_at by done. destruct e as [v|str]; simpl in *.
  - destruct Hg as (buf' & ? & ?). by exists buf'.
  - subst txt. destruct Hg as (off & Hg & ?). exists off. split_and!; [done..| |done].
    unfold lpGet in Hg. rewrite getWithBuf_buf in Hg. pose proof (get_at n slack es1 (EStr str) es2 He) as Hg'.
    unfold lpGet in Hg'. rewrite Hg' in Hg. simpl in Hg. injection Hg as <-. done.
Qed.

Lemma lpGet_correct_witness :
  is_listpack demo_lp demo_es /\
  exists txt, sdecimal (-300) txt /\ exists buf', lpGet demo_lp (ptr demo_es 2) (Some (replicate 21 0)) = Ok (LpBuf buf' (zlength txt)).
Proof.
  split; [exact demo_listpack|].
  destruct (lpGet_correct demo_lp demo_es 2 (EInt (-300)) (replicate 21 0) demo_listpack eq_refl) as (txt & Ht & buf' & Hg & _);
    [by vm_compute|].
  exists txt. split; [exact Ht|]. exists buf'. exact Hg.
Defined.

(** lpCompare tells whether an element stands for the given string, whatever the
    (consistent) state of the caller's cache of the parsed string; lpFind returns the
    first examined element, starting at the given one (or at the first, for NULL) and
    passing over [skip] elements between two tests, that stands for the string, and
    NULL when there is none. *)
Theorem lpFind_correct lp es txt start skip :
  is_listpack lp es -> (match start with Some i => (i < length es)%nat | None => True end) ->
  (forall i e cached, es !! i = Some e -> cache_ok txt cached ->
     exists cached' r, lpCompare lp (ptr es i) txt (zlength txt) cached = Ok (r, cached') /\
       cache_ok txt cached' /\ (r = true <-> elem_text e txt)) /\
  exists r, lpFind lp (ptr es <$> start) txt (zlength txt) (Z.of_nat skip) = Ok (ptr es <$> r) /\
    let examined k := (default O start + k * S skip)%nat in
    match r with
    | Some i => exists k e, i = examined k /\ es !! i = Some e /\ elem_text e txt /\
                  forall k' e', (k' < k)%nat -> es !! examined k' = Some e' -> ~ elem_text e' txt
    | None => forall k e, es !! examined k = Some e -> ~ elem_text e txt
    end.
Proof.
  intros (n & slack & -> & Hwf) Hs. pose proof Hwf as [_ _ Hf]. split.
  - intros i e cached Hi Hc. pose proof (Forall_lookup_1 _ _ _ _ Hf Hi) as He.
    destruct (elem_split es i e Hi) as (es1 & es2 & -> & ->). rewrite ptr_mid.
    destruct (compare_at n slack es1 e es2 txt cached He Hc) as (cached' & -> & Hc'). do 2 eexists. split; [done|].
    split; [done|]. by apply elem_eqb_text.
  - rewrite find_spec by done. set (st := default O start).
    pose proof (find_idx_spec (fun e => elem_eqb e txt) skip (drop st es) 0) as Hfi.
    destruct (find_idx _ skip 0 (drop st es)) as [i|]; simpl fmap.
    + exists (Some (st + i)%nat). split; [done|]. destruct Hfi as (k & e & -> & Hl & Hm & Hbefore).
      rewrite lookup_drop in Hl. exists k, e. split_and!; [done..| |].
      * by apply elem_eqb_text; [eapply (Forall_lookup_1 _ _ _ _ Hf)|].
      * intros k' e' Hk Hl'. rewrite <- elem_eqb_text by exact (Forall_lookup_1 _ _ _ _ Hf Hl').
        rewrite (Hbefore k' e' Hk); [done|]. by rewrite lookup_drop.
    + exists None. split; [done|]. intros examined k e Hl. rewrite <- elem_eqb_text by exact (Forall_lookup_1 _ _ _ _ Hf Hl).
      rewrite (Hfi k e); [done|]. by rewrite lookup_drop.
Qed.

Lemma lpFind_correct_witness :
  is_listpack demo_lp demo_es /\ exists r, lpFind demo_lp None (bytes_of "-300"%string) 4 1 = Ok (ptr demo_es <$> r).
Proof.
  split; [exact demo_listpack|].
  destruct (lpFind_correct demo_lp demo_es (bytes_of "-300"%string) None 1 demo_listpack I) as [_ (r & Hr & _)].
  exists r. exact Hr.
Defined.

(** C4: Inserting at an element: lpInsertString and lpInsertInteger return NULL exactly
    when the listpack would outgrow the 32-bit size field, and otherwise a well-formed
    listpack in which the new element, stored as an integer when the text is one, stands
    before, after or instead of the old one, with the returned pointer on it; lpReplace
    and lpReplaceInteger are the replacing case. *)
Theorem lpInsert_correct junk lp es i w :
  is_listpack lp es -> (i < length es)%nat ->
  (forall txt, bytes_ok txt -> zlength txt < 2 ^ 63 ->
     let es' := inserted w es i (elem_of txt) in
     exists r, lpInsertString junk lp txt (zlength txt) (ptr es i) w = Ok r /\
       updates_to es' (Some (ptr es' (inserted_at w i))) r /\
       (w = LP_REPLACE -> lpReplace junk lp (ptr es i) txt (zlength txt) = Ok r)) /\
  (forall v, in_s 64 v ->
     let es' := inserted w es i (EInt v) in
     exists r, lpInsertInteger junk lp v (ptr es i) w = Ok r /\
       updates_to es' (Some (ptr es' (inserted_at w i))) r /\
       (w = LP_REPLACE -> lpReplaceInteger junk lp (ptr es i) v = Ok r)).
Proof.
  intros (n & slack & -> & Hwf) Hi. split.
  - intros txt Hb Hl. destruct (insert_contract junk n slack es i _ _ _ _ w Hwf Hi (ArgStr txt Hb Hl)) as (r & Hr & Hu).
    exists r. split_and!; [done..|]. by intros ->.
  - intros v Hv. destruct (insert_contract junk n slack es i _ _ _ _ w Hwf Hi (ArgInt v Hv)) as (r & Hr & Hu).
    exists r. split_and!; [done..|]. by intros ->.
Qed.

Lemma lpInsert_correct_witness :
  is_listpack demo_lp demo_es /\
  exists r, lpInsertString 0 demo_lp (bytes_of "x"%string) 1 (ptr demo_es 1) LP_AFTER = Ok r /\
    updates_to [EInt 100; EStr (bytes_of "hello"%string); EStr (bytes_of "x"%string); EInt (-300)] (Some 15) r.
Proof.
  split; [exact demo_listpack|].
  destruct (lpInsert_correct 0 demo_lp demo_es 1 LP_AFTER demo_listpack) as [H _]; [vm_compute; lia|].
  destruct (H (bytes_of "x"%string)) as (r & Hr & Hu & _); [repeat constructor; vm_compute; congruence|vm_compute; congruence|].
  exists r. split; [exact Hr|exact Hu].
Defined.

(** A pushed element: NULL or the new listpack. *)
Definition pushes_to (es' : list elem) (r : option (list Z)) : Prop :=
  match r with None => UINT32_MAX < total es' | Some lp' => is_listpack lp' es' end.

Lemma drop_newp_spec r es' newp :
  updates_to es' newp r -> exists r', drop_newp (Ok r) = Ok r' /\ pushes_to es' r'.
Proof. intros H. eexists. split; [done|]. destruct r as [[lp' np]|]; simpl in *; [by destruct H|done]. Qed.

Lemma append_any junk n slack es e elestr eleint size :
  lp_wf n es -> ins_arg elestr eleint size e ->
  exists r, (let! listpack_bytes := lpGetTotalBytes (lp_of n es slack) in
             let eofptr := listpack_bytes - 1 in
             drop_newp (lpInsert junk (lp_of n es slack) elestr eleint size eofptr LP_BEFORE)) = Ok r /\
    pushes_to (es ++ [e]) r.
Proof.
  intros Hwf Ha. rewrite getTotal by apply Hwf. cbv zeta.
  destruct (append_contract junk n slack es e _ _ _ Hwf Ha) as (r & -> & Hu). by eapply drop_newp_spec.
Qed.

Lemma prepend_any junk n slack es e elestr eleint size :
  lp_wf n es -> ins_arg elestr eleint size e ->
  exists r, (let! p := lpFirst (lp_of n es slack) in
             match p with
             | None => let! listpack_bytes := lpGetTotalBytes (lp_of n es slack) in
                       drop_newp (lpInsert junk (lp_of n es slack) elestr eleint size (listpack_bytes - 1) LP_BEFORE)
             | Some p => drop_newp (lpInsert junk (lp_of n es slack) elestr eleint size p LP_BEFORE)
             end) = Ok r /\ pushes_to (e :: es) r.
Proof.
  intros Hwf Ha. rewrite first_spec by done. destruct es as [|e0 es]; simpl ptr_opt.
  - by apply (append_any junk n slack [] e).
  - rewrite ptr_opt_lt by (simpl; lia). change (ptr (e0 :: es) 0) with (pos []).
    destruct (inserted_before n (e0 :: es) [] (e0 :: es) slack junk _ _ _ e eq_refl Ha Hwf) as (r & -> & Hu).
    by eapply drop_newp_spec.
Qed.

(** Pushing: lpAppend and lpPrepend (and the integer variants) add an element that
    stands for exactly the given bytes (or integer) at the end or the front, or return
    NULL exactly when the size field would overflow. *)
Theorem lpPush_correct junk lp es :
  is_listpack lp es ->
  (forall txt, bytes_ok txt -> zlength txt < 2 ^ 63 ->
     exists e r1 r2, elem_text e txt /\
       lpAppend junk lp txt (zlength txt) = Ok r1 /\ pushes_to (es ++ [e]) r1 /\
       lpPrepend junk lp txt (zlength txt) = Ok r2 /\ pushes_to (e :: es) r2) /\
  (forall v, in_s 64 v ->
     exists r1 r2,
       lpAppendInteger junk lp v = Ok r1 /\ pushes_to (es ++ [EInt v]) r1 /\
       lpPrependInteger junk lp v = Ok r2 /\ pushes_to (EInt v :: es) r2).
Proof.
  intros (n & slack & -> & Hwf). split.
  - intros txt Hb Hl. pose proof (ArgStr txt Hb Hl) as Ha.
    destruct (append_any junk n slack es _ _ _ _ Hwf Ha) as (r1 & H1 & P1).
    destruct (prepend_any junk n slack es _ _ _ _ Hwf Ha) as (r2 & H2 & P2).
    exists (elem_of txt), r1, r2. split_and!; [apply elem_of_text|done..].
  - intros v Hv. pose proof (ArgInt v Hv) as Ha.
    destruct (append_any junk n slack es _ _ _ _ Hwf Ha) as (r1 & H1 & P1).
    destruct (prepend_any junk n slack es _ _ _ _ Hwf Ha) as (r2 & H2 & P2).
    exists r1, r2. split_and!; done.
Qed.

Lemma lpPush_correct_witness :
  is_listpack demo_lp demo_es /\
  exists r1, lpAppendInteger 0 demo_lp 70000 = Ok r1 /\ pushes_to (demo_es ++ [EInt 70000]) r1.
Proof.
  split; [exact demo_listpack|]. destruct (lpPush_correct 0 demo_lp demo_es demo_listpack) as [_ H].
  destruct (H 70000) as (r1 & r2 & H1 & P1 & _); [vm_compute; split; congruence|].
  exists r1. split; [exact H1|exact P1].
Defined.

(** Deleting: lpDelete removes the element and returns a pointer to the one that
    follows (NULL at the end); lpDeleteRange removes [num] elements from the indexed
    one, or as many as there are, and leaves the listpack alone when the index is out
    of range.  Neither fails. *)
Theorem lpDelete_correct junk lp es :
  is_listpack lp es ->
  (forall i, (i < length es)%nat ->
     let es' := take i es ++ drop (S i) es in
     exists lp', lpDelete junk lp (ptr es i) = Ok (Some (lp', ptr_opt es' i)) /\ is_listpack lp' es') /\
  (forall index num, 0 <= num < 2 ^ 64 ->
     exists lp', lpDeleteRange junk lp index num = Ok lp' /\
       is_listpack lp' (match seek_index (zlength es) index with
                        | Some i => take i es ++ drop (Z.to_nat num) (drop i es)
                        | None => es
                        end)).
Proof.
  intros (n & slack & -> & Hwf). split; [intros i Hi; by apply delete_contract|].
  intros index num Hn. by apply deleteRange_contract.
Qed.

Lemma lpDelete_correct_witness :
  is_listpack demo_lp demo_es /\
  exists lp', lpDeleteRange 0 demo_lp (-2) 1 = Ok lp' /\ is_listpack lp' [EInt 100; EInt (-300)].
Proof.
  split; [exact demo_listpack|]. destruct (lpDelete_correct 0 demo_lp demo_es demo_listpack) as [_ H].
  exact (H (-2) 1 ltac:(split; [lia|by vm_compute])).
Defined.

(** the size functions are exact: lpEntrySizeInteger is the size of the entry that
    encodes the integer, lpEstimateBytesRepeatedInteger the size of the listpack that
    holds it [rep] times, and lpSafeToAdd accepts an addition exactly when the listpack
    stays within 1 GB. *)
Theorem lpSize_correct lp es v rep add :
  is_listpack lp es -> 0 <= add < 2 ^ 63 -> total (replicate rep (EInt v)) < 2 ^ 64 ->
  lpEntrySizeInteger v = zlength (entry (EInt v)) /\
  lpEstimateBytesRepeatedInteger v (Z.of_nat rep) = total (replicate rep (EInt v)) /\
  lpSafeToAdd (Some lp) add = Ok (total es + add <=? LISTPACK_MAX_SAFETY_SIZE).
Proof.
  intros (n & slack & -> & Hwf) Hadd Hrep.
  assert (lpEntrySizeInteger v = zlength (entry (EInt v))) as He.
  { unfold lpEntrySizeInteger, entry. cbn [enc_elem]. rewrite encodeBacklen_bytes. len. }
  assert (total (replicate rep (EInt v)) = 7 + zlength (entry (EInt v)) * Z.of_nat rep) as Ht.
  { unfold total, entries. f_equal. clear Hrep. induction rep as [|k IH]; [simpl; lia|]. cbn [replicate map concat].
    rewrite length_app, Nat2Z.inj_add, IH. lia. }
  split_and!; [done| |].
  - unfold lpEstimateBytesRepeatedInteger, LP_HDR_SIZE. rewrite He, Ht in *. rewrite u_id by lia. lia.
  - destruct Hwf as [? Htot ?]. unfold lpSafeToAdd. rewrite getTotal by done. unfold LISTPACK_MAX_SAFETY_SIZE, UINT32_MAX in *.
    assert (0 <= total es) by (unfold total; lia). rewrite u_id by lia. rewrite Z.gtb_ltb. by zbool; try lia.
Qed.

Lemma lpSize_correct_witness :
  lpEstimateBytesRepeatedInteger 70000 100 = total (replicate 100 (EInt 70000)) /\
  lpSafeToAdd (Some demo_lp) 1000 = Ok true.
Proof.
  destruct (lpSize_correct demo_lp demo_es 70000 100 1000 demo_listpack) as (_ & H1 & H2);
    [lia|vm_compute; reflexivity|]. split; [exact H1|exact H2].
Defined.

(** * Histories *)

(** One successful call of the updating API, with cursors obtained from lpSeek. *)
Inductive lp_step (junk : Z) : list Z -> list Z -> Prop :=
| step_append lp txt lp' : bytes_ok txt -> zlength txt < 2 ^ 63 ->
    lpAppend junk lp txt (zlength txt) = Ok (Some lp') -> lp_step junk lp lp'
| step_appendInt lp v lp' : in_s 64 v -> lpAppendInteger junk lp v = Ok (Some lp') -> lp_step junk lp lp'
| step_prepend lp txt lp' : bytes_ok txt -> zlength txt < 2 ^ 63 ->
    lpPrepend junk lp txt (zlength txt) = Ok (Some lp') -> lp_step junk lp lp'
| step_prependInt lp v lp' : in_s 64 v -> lpPrependInteger junk lp v = Ok (Some lp') -> lp_step junk lp lp'
| step_insert lp index p txt w lp' newp : bytes_ok txt -> zlength txt < 2 ^ 63 ->
    lpSeek lp index = Ok (Some p) ->
    lpInsertString junk lp txt (zlength txt) p w = Ok (Some (lp', newp)) -> lp_step junk lp lp'
| step_insertInt lp index p v w lp' newp : in_s 64 v ->
    lpSeek lp index = Ok (Some p) ->
    lpInsertInteger junk lp v p w = Ok (Some (lp', newp)) -> lp_step junk lp lp'
| step_delete lp index p lp' newp :
    lpSeek lp index = Ok (Some p) -> lpDelete junk lp p = Ok (Some (lp', newp)) -> lp_step junk lp lp'
| step_deleteRange lp index num lp' : 0 <= num < 2 ^ 64 ->
    lpDeleteRange junk lp index num = Ok lp' -> lp_step junk lp lp'
| step_length lp count lp' : lpLength lp = Ok (count, lp') -> lp_step junk lp lp'
| step_shrink lp lp' : lpShrinkToFit junk lp = Ok lp' -> lp_step junk lp lp'
| step_dup lp lp' : lpDup lp = Ok lp' -> lp_step junk lp lp'.

Inductive lp_reachable (junk : Z) : list Z -> Prop :=
| reach_new capacity lp : lpNew junk capacity = Ok lp -> lp_reachable junk lp
| reach_step lp lp' : lp_reachable junk lp -> lp_step junk lp lp' -> lp_reachable junk lp'.

Lemma seek_cursor n slack es index p :
  lp_wf n es -> lpSeek (lp_of n es slack) index = Ok (Some p) -> exists i, (i < length es)%nat /\ p = ptr es i.
Proof.
  intros Hwf. rewrite seek_spec by done. destruct (seek_index _ _) as [i|] eqn:E; [|done]. intros [= <-].
  exists i. apply seek_index_Some in E. split; [lia|done].
Qed.

Lemma pushed es' r lp' : (exists r', r = Ok r' /\ pushes_to es' r') -> r = Ok (Some lp') -> exists es, is_listpack lp' es.
Proof. intros (r' & -> & Hp) [= ->]. by exists es'. Qed.

Lemma updated es' np r lp' newp :
  (exists r', r = Ok r' /\ updates_to es' np r') -> r = Ok (Some (lp', newp)) -> exists es, is_listpack lp' es.
Proof. intros (r' & -> & Hp) [= ->]. exists es'. by destruct Hp. Qed.

Lemma lp_step_listpack junk lp lp' :
  lp_step junk lp lp' -> (exists es, is_listpack lp es) -> exists es, is_listpack lp' es.
Proof.
  intros Hs (es & n & slack & -> & Hwf).
  inversion Hs as [lp txt lp0 Hb Hl Hop|lp v lp0 Hv Hop|lp txt lp0 Hb Hl Hop|lp v lp0 Hv Hop
    |lp index p txt w lp0 newp Hb Hl Hsk Hop|lp index p v w lp0 newp Hv Hsk Hop|lp index p lp0 newp Hsk Hop
    |lp index num lp0 Hn Hop|lp count lp0 Hop|lp lp0 Hop|lp lp0 Hop]; subst.
  - eapply pushed, Hop. by apply append_any, ArgStr.
  - eapply pushed, Hop. by apply append_any, ArgInt.
  - eapply pushed, Hop. by apply prepend_any, ArgStr.
  - eapply pushed, Hop. by apply prepend_any, ArgInt.
  - destruct (seek_cursor _ _ _ _ _ Hwf Hsk) as (i & Hi & ->). eapply updated, Hop. by apply insert_contract, ArgStr.
  - destruct (seek_cursor _ _ _ _ _ Hwf Hsk) as (i & Hi & ->). eapply updated, Hop. by apply insert_contract, ArgInt.
  - destruct (seek_cursor _ _ _ _ _ Hwf Hsk) as (i & Hi & ->).
    destruct (delete_contract junk n slack es i Hwf Hi) as (lp1 & Hd & Hl). rewrite Hd in Hop. injection Hop as -> _. by eexists.
  - destruct (deleteRange_contract junk n slack es index num Hwf Hn) as (lp1 & Hd & Hl).
    rewrite Hd in Hop. injection Hop as ->. by eexists.
  - destruct (length_contract n slack es Hwf) as (lp1 & Hd & Hl & _). rewrite Hd in Hop. injection Hop as _ ->. by eexists.
  - destruct (shrink_spec junk n es slack (wf_total _ _ Hwf)) as (sl & Hd). rewrite Hd in Hop. injection Hop as <-.
    exists es. by exists n, sl.
  - rewrite dup_contract in Hop by done. injection Hop as <-. exists es. by exists n, [].
Qed.

Lemma lp_reachable_listpack junk lp : lp_reachable junk lp -> exists es, is_listpack lp es.
Proof.
  induction 1 as [capacity lp Hn|lp lp' _ IH Hs].
  - destruct (new_contract junk capacity) as (lp1 & Hl & Hlp & _). rewrite Hl in Hn. injection Hn as <-. by exists [].
  - by eapply lp_step_listpack.
Qed.

(** C30: Every listpack built by lpNew and any sequence of successful API calls (appends,
    prepends, inserts, replacements, deletions, range deletions, length queries that
    update the header, shrinking, duplication) represents a sequence, and
    lpValidateIntegrity, shallow or deep, accepts it. *)
Theorem lp_reachable_valid junk lp deep :
  lp_reachable junk lp ->
  exists es, is_listpack lp es /\ lpBytes lp = Ok (total es) /\
    lpValidateIntegrity None lp (total es) deep tt = Ok (true, tt).
Proof.
  intros Hr. destruct (lp_reachable_listpack junk lp Hr) as (es & Hlp). exists es. split; [done|].
  destruct Hlp as (n & slack & -> & Hwf). split; [apply getTotal, Hwf|by apply validate_complete].
Qed.

Lemma lp_reachable_valid_witness :
  lp_reachable 0 [9; 0; 0; 0; 1; 0; 42; 1; 255] /\
  exists es, is_listpack [9; 0; 0; 0; 1; 0; 42; 1; 255] es /\
    lpValidateIntegrity None [9; 0; 0; 0; 1; 0; 42; 1; 255] (total es) true tt = Ok (true, tt).
Proof.
  assert (lp_reachable 0 [9; 0; 0; 0; 1; 0; 42; 1; 255]) as Hr.
  { eapply reach_step; [apply (reach_new 0 0); reflexivity|].
    apply (step_appendInt 0 _ 42); [split; vm_compute; congruence|reflexivity]. }
  split; [exact Hr|]. destruct (lp_reachable_valid 0 _ true Hr) as (es & H1 & _ & H2).
  exists es. split; [exact H1|exact H2].
Defined.
