(* ===== verification/ListpackBatch.v ===== *)
(** Batches on listpacks: lpBatchInsert, lpBatchAppend, lpBatchDelete and lpMerge of
    src/redis-stable/src/listpack.c.

    Several entries are inserted or deleted with one reallocation, and two listpacks are
    merged into the allocation of the larger one. *)

From Stdlib Require Import Sorted.
From S2P Require Import Prelude Machine UtilNum Listpack ListpackEnc ListpackSeq ListpackRead ListpackUpd ListpackSpec.

(** * The model *)

(** The struct of an entry to insert: a string, or an integer if [sval] is NULL. *)
Record listpackEntry : Set := {
  sval : option (list Z);
  slen : Z;
  lval : Z
}.

(** The local struct listpackInsertEntry: [intenc] is [None] for LP_ENCODING_STR; the
    length of [backlen] is [backlen_size]. *)
Record listpackInsertEntry : Set := {
  intenc : option (list Z);
  enclen : Z;
  backlen : list Z
}.

Definition encode_entry (e : listpackEntry) : res listpackInsertEntry :=
  let! '(intenc, enclen) :=
    (match sval e with
     | Some str => lpEncodeGetType str (slen e)
     | None => let bs := lpEncodeIntegerGetType (lval e) in Ok (Some bs, zlength bs)
     end) in
  Ok {| intenc := intenc; enclen := enclen; backlen := lpEncodeBacklen enclen |}.

(** The first loop: the encodings and [addedlen]. *)
Fixpoint encode_loop (entries : list listpackEntry) (addedlen : Z) : res (list listpackInsertEntry * Z) :=
  match entries with
  | [] => Ok ([], addedlen)
  | e :: entries =>
      let! enc := encode_entry e in
      let! '(encs, addedlen) :=
        encode_loop entries (u64 (u64 (addedlen + enclen enc) + zlength (backlen enc))) in
      Ok (enc :: encs, addedlen)
  end.

(** The second loop writes the entries; [newp] is the address of the last one. *)
Fixpoint write_loop (lp : list Z) (dst : Z) (entries : list listpackEntry)
    (encs : list listpackInsertEntry) (newp : option Z) : res (list Z * option Z) :=
  match entries, encs with
  | ent :: entries, enc :: encs =>
      let newp := Some dst in
      let! lp := (match intenc enc, sval ent with
                  | Some bs, _ => let! bs := load 0 (enclen enc) bs in store dst bs lp
                  | None, Some str => lpEncodeString lp dst str (slen ent)
                  | None, None => Fault AssertFailed
                  end) in
      let dst := dst + enclen enc in
      let! lp := store dst (backlen enc) lp in
      let dst := dst + zlength (backlen enc) in
      write_loop lp dst entries encs newp
  | _, _ => Ok (lp, newp)
  end.

Section Batch.
(** the contents of freshly allocated bytes *)
Context (junk : Z).

(** [None]: the listpack would be too large. *)
Definition lpBatchInsert (lp : list Z) (p : Z) (where_ : lp_where) (entries : list listpackEntry)
    : res (option (list Z * option Z)) :=
  assert! negb (bool_decide (where_ = LP_REPLACE)) in
  assert! 0 <? zlength entries in
  let len := zlength entries in
  let! p :=
    (match where_ with
     | LP_AFTER =>
         let! p := lpSkip lp p in
         let! _ := ASSERT_INTEGRITY lp p in
         Ok p
     | _ => Ok p
     end) in
  let! '(enc, addedlen) := encode_loop entries 0 in
  let! old_listpack_bytes := lpGetTotalBytes lp in
  let new_listpack_bytes := u64 (old_listpack_bytes + addedlen) in
  if new_listpack_bytes >? UINT32_MAX then Ok None
  else
    let poff := p in
    let dst := poff in
    let lp := if (new_listpack_bytes >? old_listpack_bytes) && (new_listpack_bytes >? zlength lp)
              then realloc junk new_listpack_bytes lp else lp in
    let! lp := memmove (dst + addedlen) dst (old_listpack_bytes - poff) lp in
    let! '(lp, newp) := write_loop lp dst entries enc None in
    let! num_elements := lpGetNumElements lp in
    let! lp :=
      (if negb (num_elements =? LP_HDR_NUMELE_UNKNOWN) then
         if len >? LP_HDR_NUMELE_UNKNOWN - num_elements
         then lpSetNumElements lp LP_HDR_NUMELE_UNKNOWN
         else lpSetNumElements lp (num_elements + len)
       else Ok lp) in
    let! lp := lpSetTotalBytes lp new_listpack_bytes in
    Ok (Some (lp, newp)).

(** [len] is an unsigned long here and an unsigned int in lpBatchInsert. *)
Definition lpBatchAppend (lp : list Z) (entries : list listpackEntry) : res (option (list Z)) :=
  let! listpack_bytes := lpGetTotalBytes lp in
  let eofptr := listpack_bytes - 1 in
  let len := u32 (zlength entries) in
  drop_newp (lpBatchInsert lp eofptr LP_BEFORE (take (Z.to_nat len) entries)).

(** The loop of lpBatchDelete over the remaining pointers; a NULL pointer is [None]. *)
Fixpoint batch_delete_loop (lp : list Z) (lp_end dst : Z) (ps : list (option Z)) : res (list Z * Z) :=
  match ps with
  | [] => Ok (lp, dst)
  | None :: _ => Fault AssertFailed
  | Some skip :: ps =>
      let! b := get1 skip lp in
      assert! negb (b =? LP_EOF) in
      let! keep_start := lpSkip lp skip in
      match ps with
      | None :: _ => Fault AssertFailed   (* keep_end > keep_start *)
      | _ =>
          let keep_end := match ps with Some next :: _ => next | _ => lp_end end in
          if (match ps with [] => false | _ => keep_start =? keep_end end)
          then batch_delete_loop lp lp_end dst ps
          else
            assert! keep_end >? keep_start in
            let bytes_to_keep := keep_end - keep_start in
            let! lp := memmove dst keep_start bytes_to_keep lp in
            batch_delete_loop lp lp_end (dst + bytes_to_keep) ps
      end
  end.

Definition lpBatchDelete (lp : list Z) (ps : list (option Z)) : res (list Z) :=
  match ps with
  | [] => Ok lp
  | None :: _ =>
      let! total_bytes := lpGetTotalBytes lp in
      let! b := get1 (total_bytes - 1) lp in
      Fault AssertFailed
  | Some dst :: _ =>
      let count := zlength ps in
      let! total_bytes := lpGetTotalBytes lp in
      let lp_end := total_bytes in
      let! b := get1 (lp_end - 1) lp in
      assert! b =? LP_EOF in
      let! '(lp, dst) := batch_delete_loop lp lp_end dst ps in
      let deleted_bytes := lp_end - dst in
      let total_bytes := u64 (total_bytes - deleted_bytes) in
      let! b := get1 (total_bytes - 1) lp in
      assert! b =? LP_EOF in
      let! lp := lpSetTotalBytes lp total_bytes in
      let! numele := lpGetNumElements lp in
      let! lp := (if negb (numele =? LP_HDR_NUMELE_UNKNOWN)
                  then lpSetNumElements lp (u64 (numele - count)) else Ok lp) in
      lpShrinkToFit junk lp
  end.

(** [None]: nothing is merged.  Otherwise the merged listpack and whether it replaces
    [*first], in which case [*second] is freed and NULL, or the other way round. *)
Definition lpMerge (first second : option (list Z)) (same : bool) : res (option (list Z * bool)) :=
  match first, second with
  | Some first, Some second =>
      if same then Ok None
      else
        let! first_bytes := lpBytes first in
        let! '(first_len, first) := lpLength first in
        let! second_bytes := lpBytes second in
        let! '(second_len, second) := lpLength second in
        let append := first_bytes >=? second_bytes in
        let '(target, target_bytes, source, source_bytes) :=
          if append then (first, first_bytes, second, second_bytes)
          else (second, second_bytes, first, first_bytes) in
        let lpbytes := u64 (first_bytes + second_bytes - LP_HDR_SIZE - 1) in
        assert! lpbytes <? UINT32_MAX in
        let lplength := u64 (first_len + second_len) in
        let lplength := if lplength <? 65535 then lplength else 65535 in
        let target := realloc junk lpbytes target in
        let! target :=
          (if append then
             let! bs := load LP_HDR_SIZE (source_bytes - LP_HDR_SIZE) source in
             store (target_bytes - 1) bs target
           else
             let! target := memmove (source_bytes - 1) LP_HDR_SIZE (target_bytes - LP_HDR_SIZE) target in
             let! bs := load 0 (source_bytes - 1) source in
             store 0 bs target) in
        let! target := lpSetNumElements target lplength in
        let! target := lpSetTotalBytes target lpbytes in
        Ok (Some (target, append))
  | _, _ => Ok None
  end.

End Batch.

(** * Encoding the entries *)

(** The element that an argument stands for. *)
Definition entry_elem (e : listpackEntry) : elem :=
  match sval e with Some str => elem_of str | None => EInt (lval e) end.

Definition entry_ok (e : listpackEntry) : Prop :=
  match sval e with
  | Some str => bytes_ok str /\ slen e = zlength str /\ zlength str < 2 ^ 32
  | None => in_s 64 (lval e)
  end.

(** The same argument, for lpInsert. *)
Definition entry_int (e : listpackEntry) : option (list Z) :=
  match sval e with Some _ => None | None => Some (lpEncodeIntegerGetType (lval e)) end.
Definition entry_len (e : listpackEntry) : Z :=
  match sval e with Some _ => slen e | None => zlength (lpEncodeIntegerGetType (lval e)) end.

Lemma entry_arg e : entry_ok e -> ins_arg (sval e) (entry_int e) (entry_len e) (entry_elem e).
Proof.
  unfold entry_ok, entry_int, entry_len, entry_elem. destruct (sval e) as [str|].
  - intros (Hb & -> & Hl). constructor; [done|]. pow_const. lia.
  - by constructor.
Qed.

Definition enc_of (e : elem) : listpackInsertEntry :=
  {| intenc := int_enc e; enclen := zlength (enc_elem e); backlen := lpEncodeBacklen (zlength (enc_elem e)) |}.

Lemma encode_entry_spec e : entry_ok e -> encode_entry e = Ok (enc_of (entry_elem e)).
Proof.
  intros He. pose proof (encode_phase _ _ _ _ (entry_arg e He)) as Hp. unfold encode_entry, enc_of.
  unfold entry_ok in He. unfold entry_int, entry_len in Hp. destruct (sval e) as [str|] eqn:Es.
  - destruct (lpEncodeGetType str (slen e)) as [[i l]|]; [|done]. res_inv. by simplify_eq.
  - res_inv. simplify_eq. unfold entry_elem. by rewrite Es.
Qed.

Lemma encode_loop_spec args : forall added,
  Forall entry_ok args -> 0 <= added ->
  added + zlength (entries (map entry_elem args)) < 2 ^ 64 ->
  encode_loop args added =
  Ok (map (fun e => enc_of (entry_elem e)) args, added + zlength (entries (map entry_elem args))).
Proof.
  induction args as [|e args IH]; intros added Hok Ha Hb; [simpl; do 2 f_equal; lia|].
  apply Forall_cons_1 in Hok as [He Hok]. cbn [encode_loop map] in *.
  rewrite encode_entry_spec by done. rewrite entries_cons, length_app in *.
  pose proof (entry_size (entry_elem e)) as Hsz. rewrite encodeBacklen_bytes in Hsz.
  unfold enc_of at 1 2. cbn [enclen backlen].
  rewrite (u_id 64 (added + _)) by lia. rewrite u_id by lia. rewrite IH by (done || lia).
  do 2 f_equal. lia.
Qed.

(** The position of the last entry of those that start at [at_]. *)
Definition last_pos (at_ : Z) (new : list elem) (default : option Z) : option Z :=
  match new with [] => default | _ => Some (at_ + zlength (entries (removelast new))) end.

(** The bytes of one entry. *)
Definition write_entry (lp : list Z) (dst : Z) (ent : listpackEntry) (enc : listpackInsertEntry) : res (list Z) :=
  let! lp := (match intenc enc, sval ent with
              | Some bs, _ => let! bs := load 0 (enclen enc) bs in store dst bs lp
              | None, Some str => lpEncodeString lp dst str (slen ent)
              | None, None => Fault AssertFailed
              end) in
  store (dst + enclen enc) (backlen enc) lp.

Lemma write_loop_cons lp dst ent args enc encs newp :
  write_loop lp dst (ent :: args) (enc :: encs) newp =
  let! lp := write_entry lp dst ent enc in
  write_loop lp (dst + enclen enc + zlength (backlen enc)) args encs (Some dst).
Proof. unfold write_entry. cbn [write_loop]. by destruct (match intenc enc with Some _ => _ | None => _ end). Qed.

Lemma write_entry_spec e P mid rest :
  entry_ok e -> zlength (enc_elem (entry_elem e)) < 2 ^ 32 -> length mid = length (entry (entry_elem e)) ->
  write_entry (P ++ mid ++ rest) (zlength P) e (enc_of (entry_elem e)) = Ok (P ++ entry (entry_elem e) ++ rest).
Proof.
  intros He Hs Hm. pose proof (write_phase _ _ _ _ P mid rest (entry_arg e He) Hs) as Hw.
  rewrite entries_one in Hw. specialize (Hw Hm). fold (entry (entry_elem e)) in Hw. rewrite <-Hw.
  unfold write_entry, insert_write, entry_len, enc_of. cbn [intenc enclen backlen].
  destruct (int_enc _); [done|]. by destruct (sval e).
Qed.

Lemma write_loop_spec args : forall P mid rest newp,
  Forall entry_ok args -> Forall (fun e => zlength (enc_elem (entry_elem e)) < 2 ^ 32) args ->
  length mid = length (entries (map entry_elem args)) ->
  write_loop (P ++ mid ++ rest) (zlength P) args (map (fun e => enc_of (entry_elem e)) args) newp =
  Ok (P ++ entries (map entry_elem args) ++ rest, last_pos (zlength P) (map entry_elem args) newp).
Proof.
  induction args as [|e args IH]; intros P mid rest newp Hok Hsz Hm; [by destruct mid|].
  apply Forall_cons_1 in Hok as [He Hok]. apply Forall_cons_1 in Hsz as [Hs Hsz].
  cbn [map] in *. rewrite entries_cons in *.
  assert (exists m1 m2, mid = m1 ++ m2 /\ length m1 = length (entry (entry_elem e)) /\
            length m2 = length (entries (map entry_elem args))) as (m1 & m2 & -> & H1 & H2).
  { exists (take (length (entry (entry_elem e))) mid), (drop (length (entry (entry_elem e))) mid).
    rewrite take_drop. split_and!; [done|len..]. }
  rewrite write_loop_cons, <-app_assoc, write_entry_spec by done.
  rewrite (app_assoc P). unfold enc_of at 1 2. cbn [enclen backlen].
  replace (zlength P + _ + _) with (zlength (P ++ entry (entry_elem e))) by (unfold entry; len).
  rewrite IH by done. rewrite <-!app_assoc. do 2 f_equal. unfold last_pos.
  destruct args as [|e' args]; [simpl; f_equal; lia|].
  change (removelast (entry_elem e :: map entry_elem (e' :: args)))
    with (entry_elem e :: removelast (map entry_elem (e' :: args))).
  cbn [map]. rewrite entries_cons. f_equal. len.
Qed.

(** * lpBatchInsert *)

Definition batch_count (n k : Z) : Z :=
  if n =? LP_HDR_NUMELE_UNKNOWN then n
  else if k >? LP_HDR_NUMELE_UNKNOWN - n then LP_HDR_NUMELE_UNKNOWN else n + k.

Lemma batch_count_ok n es1 new es2 :
  count_ok n (es1 ++ es2) -> count_ok (batch_count n (zlength new)) (es1 ++ new ++ es2).
Proof.
  unfold count_ok, batch_count, LP_HDR_NUMELE_UNKNOWN. rewrite !length_app. intros Hc.
  zbool; lia.
Qed.

(** The header after a batch insertion. *)
Lemma batch_finish n t rest k newb :
  0 <= n < 65536 -> length t = 4%nat ->
  (let! num_elements := lpGetNumElements (t ++ le_enc 2 n ++ rest) in
   let! lp :=
     (if negb (num_elements =? LP_HDR_NUMELE_UNKNOWN) then
        if k >? LP_HDR_NUMELE_UNKNOWN - num_elements
        then lpSetNumElements (t ++ le_enc 2 n ++ rest) LP_HDR_NUMELE_UNKNOWN
        else lpSetNumElements (t ++ le_enc 2 n ++ rest) (num_elements + k)
      else Ok (t ++ le_enc 2 n ++ rest)) in
   lpSetTotalBytes lp newb) = Ok ((le_enc 4 newb ++ le_enc 2 (batch_count n k)) ++ rest).
Proof.
  intros Hn Ht. unfold lpGetNumElements, batch_count.
  rewrite (get_le_app 2 t (le_enc 2 n)) by (by rewrite ?length_le_enc, ?Ht || apply le_enc_bytes).
  rewrite le_dec_enc, Z.mod_small by (simpl; pow_const; lia).
  rewrite !set_numele_spec by (done || apply length_le_enc).
  destruct (n =? LP_HDR_NUMELE_UNKNOWN); cbn [negb]; [|destruct (k >? _)];
    by rewrite set_total_spec, <-app_assoc.
Qed.

Section BatchInsert.
Context (junk n : Z) (slack : list Z) (args : list listpackEntry).
Hypothesis Hargs : Forall entry_ok args.
Hypothesis Hne : args <> [].
Let new := map entry_elem args.

(** The outcome of inserting [new] between [es1] and [es2]. *)
Definition batch_result (es1 es2 : list elem) (r : option (list Z * option Z)) : Prop :=
  if total (es1 ++ new ++ es2) <=? UINT32_MAX
  then exists slack', r = Some (lp_of (batch_count n (zlength new)) (es1 ++ new ++ es2) slack',
                               Some (pos (es1 ++ removelast new)))
  else r = None.

Lemma args_small es1 es2 :
  total (es1 ++ new ++ es2) <= UINT32_MAX ->
  Forall (fun e => zlength (enc_elem (entry_elem e)) < 2 ^ 32) args.
Proof.
  intros Ht. apply list.Forall_forall. intros e [i He]%list_elem_of_lookup.
  assert (new !! i = Some (entry_elem e)) as Hn by (unfold new; by rewrite list_lookup_fmap, He).
  destruct (elem_split _ _ _ Hn) as (n1 & n2 & Hs & _). rewrite Hs in Ht.
  rewrite total_split, entries_app, entries_app, entries_cons, !length_app in Ht.
  pose proof (pos_ge es1). unfold entry in Ht. rewrite length_app in Ht. unfold UINT32_MAX in Ht.
  pow_const. lia.
Qed.

Lemma batch_before es1 es2 :
  lp_wf n (es1 ++ es2) -> total (es1 ++ new ++ es2) < 2 ^ 64 ->
  exists r, lpBatchInsert junk (lp_of n (es1 ++ es2) slack) (pos es1) LP_BEFORE args = Ok r /\
    batch_result es1 es2 r.
Proof.
  intros Hwf Hb. unfold lpBatchInsert. cbn [negb bool_decide]. rewrite bool_decide_false by done.
  assert (0 < length args)%nat as Hlen by (destruct args; [done|simpl; lia]). cbn [negb]. zif.
  assert (total (es1 ++ es2) + zlength (entries new) = total (es1 ++ new ++ es2)) as Htot
    by (rewrite !total_split, entries_app; len).
  pose proof (total_nonneg (es1 ++ es2)).
  rewrite encode_loop_spec by (done || (fold new; lia)). fold new. rewrite Z.add_0_l.
  rewrite getTotal by apply Hwf. rewrite Htot, u_id by lia. unfold batch_result.
  rewrite (Z.gtb_ltb _ UINT32_MAX), Z.ltb_antisym.
  destruct (Z.leb_spec (total (es1 ++ new ++ es2)) UINT32_MAX) as [Ht|Ht]; cbn [negb]; [|by eexists].
  set (P := (le_enc 4 (total (es1 ++ es2)) ++ le_enc 2 n) ++ entries es1).
  assert (zlength P = pos es1) as HP by apply length_upto.
  assert (lp_of n (es1 ++ es2) slack = P ++ [] ++ (entries es2 ++ [LP_EOF]) ++ slack) as ->
    by (rewrite lp_split; unfold P; by rewrite <- !app_assoc).
  destruct (gap_spec junk P [] (entries es2 ++ [LP_EOF]) slack (length (entries new)) LP_BEFORE
    (total (es1 ++ es2)) (total (es1 ++ new ++ es2))) as (lp1 & mid & rest' & Hgap & Hgap' & Hmid).
  { rewrite HP, total_split. len. }
  { rewrite HP, total_split, entries_app. len. }
  { done. }
  cbn zeta in Hgap. rewrite <-HP, Hgap. rewrite (proj2 (Z.ltb_ge _ _)) in Hgap' by lia.
  rewrite Hgap'. rewrite write_loop_spec by (done || by eapply args_small). fold new. unfold P at 1 2 3.
  rewrite <-!app_assoc.
  replace (zlength args) with (zlength new) by (unfold new; len).
  pose proof (batch_finish n (le_enc 4 (total (es1 ++ es2)))
    (entries es1 ++ entries new ++ entries es2 ++ [LP_EOF] ++ rest') (zlength new)
    (total (es1 ++ new ++ es2)) (count_range _ _ (wf_count _ _ Hwf)) (length_le_enc _ _)) as Hf.
  destruct (lpGetNumElements _) as [num|]; [|done].
  destruct (if negb (num =? _) then _ else _) as [lp2|]; [|done]. rewrite Hf.
  eexists. split; [done|]. exists rest'. do 2 f_equal.
  - unfold lp_of. by rewrite !entries_app, <-!app_assoc.
  - unfold last_pos. destruct new as [|e l] eqn:E; [unfold new in E; by destruct args|].
    f_equal. rewrite HP. unfold pos. rewrite entries_app. len.
Qed.

Lemma batch_after es1 e es2 :
  lp_wf n (es1 ++ e :: es2) -> total (es1 ++ [e] ++ new ++ es2) < 2 ^ 64 ->
  exists r, lpBatchInsert junk (lp_of n (es1 ++ e :: es2) slack) (pos es1) LP_AFTER args = Ok r /\
    batch_result (es1 ++ [e]) es2 r.
Proof.
  intros Hwf Hb. pose proof Hwf as [_ Ht Hf]. apply Forall_app in Hf as [_ [He _]%Forall_cons_1].
  assert (lpBatchInsert junk (lp_of n (es1 ++ e :: es2) slack) (pos es1) LP_AFTER args =
          lpBatchInsert junk (lp_of n (es1 ++ e :: es2) slack) (pos (es1 ++ [e])) LP_BEFORE args) as ->.
  { unfold lpBatchInsert. rewrite !bool_decide_false by done. cbn [negb]. rewrite skip_at by done.
    unfold ASSERT_INTEGRITY. rewrite getTotal by done. pose proof (pos_ge (es1 ++ [e])).
    assert ((LP_HDR_SIZE <=? pos (es1 ++ [e])) && (pos (es1 ++ [e]) <? total (es1 ++ e :: es2)) = true) as ->;
      [|done].
    rewrite total_at, pos_snoc in *. unfold LP_HDR_SIZE. lia. }
  rewrite cons_middle in *. apply batch_before; [done|]. by rewrite <-app_assoc.
Qed.
End BatchInsert.

(** * lpBatchDelete *)

(** The elements from the first deleted one on: each with those kept after it. *)
Definition flat (segs : list (elem * list elem)) : list elem := concat (map (fun s => s.1 :: s.2) segs).
Definition kept (segs : list (elem * list elem)) : list elem := concat (map snd segs).

(** The pointers to the deleted elements, the first one at [at_]. *)
Fixpoint seg_ptrs (at_ : Z) (segs : list (elem * list elem)) : list (option Z) :=
  match segs with
  | [] => []
  | (d, k) :: segs => Some at_ :: seg_ptrs (at_ + zlength (entry d) + zlength (entries k)) segs
  end.

(** Moving a block to the left leaves the memory after it alone. *)
Lemma memmove_left {A} (P old tail rest : list A) dst src len :
  dst = zlength P -> src = zlength P + zlength old -> len = zlength tail ->
  exists gap, memmove dst src len (P ++ old ++ tail ++ rest) = Ok (P ++ tail ++ gap ++ rest) /\
              length gap = length old.
Proof.
  intros -> -> ->. exists (drop (length tail) (old ++ tail)). split; [|len].
  rewrite (app_assoc P old).
  apply (memmove_app (P ++ old) tail rest _ _ _ (take (length tail) (old ++ tail)) P); [|len|done..|len].
  rewrite (app_assoc (take _ _)), take_drop, <-!app_assoc. done.
Qed.

Lemma entry_not_eof e pre post :
  elem_ok e -> exists b, get1 (zlength pre) (pre ++ entry e ++ post) = Ok b /\ (b =? LP_EOF) = false.
Proof.
  intros He. destruct (entry_head e He) as (b & rest & -> & Hb). exists b.
  split; [by apply get1_app|]. unfold LP_EOF. lia.
Qed.

Lemma entries_nonempty k : Forall elem_ok k -> k <> [] -> 0 < zlength (entries k).
Proof. intros Hk Hne. pose proof (entries_length k Hk). destruct k; [done|]. simpl length in *. lia. Qed.

Lemma batch_delete_loop_spec segs : forall P G sl lp_end,
  segs <> [] -> Forall elem_ok (flat segs) ->
  lp_end = zlength P + zlength G + zlength (entries (flat segs)) + 1 ->
  exists sl', batch_delete_loop (P ++ G ++ entries (flat segs) ++ LP_EOF :: sl) lp_end (zlength P)
                (seg_ptrs (zlength P + zlength G) segs) =
              Ok (P ++ entries (kept segs) ++ LP_EOF :: sl', zlength P + zlength (entries (kept segs)) + 1).
Proof.
  induction segs as [|[d k] segs IH]; intros P G sl lp_end Hne Hok Hend; [done|].
  change (flat ((d, k) :: segs)) with (d :: k ++ flat segs) in *.
  change (kept ((d, k) :: segs)) with (k ++ kept segs).
  apply Forall_cons_1 in Hok as [Hd Hok]. apply Forall_app in Hok as [Hk Hok].
  rewrite entries_cons, entries_app, !length_app in Hend. rewrite entries_cons, !entries_app.
  cbn [seg_ptrs batch_delete_loop].
  replace (P ++ G ++ (entry d ++ entries k ++ entries (flat segs)) ++ LP_EOF :: sl)
    with ((P ++ G) ++ entry d ++ entries k ++ entries (flat segs) ++ LP_EOF :: sl)
    by by rewrite <-!app_assoc.
  replace (zlength P + zlength G) with (zlength (P ++ G)) by len.
  destruct (entry_not_eof d (P ++ G) (entries k ++ entries (flat segs) ++ LP_EOF :: sl) Hd) as (b & -> & ->).
  cbn [negb]. rewrite skip_entry by done.
  destruct segs as [|[d' k'] segs].
  - cbn [seg_ptrs flat kept map concat entries app] in *. rewrite !app_nil_r in *. rewrite (proj2 (Z.gtb_lt _ _)) by len.
    destruct (memmove_left P (G ++ entry d) (entries k ++ [LP_EOF]) sl (zlength P)
      (zlength (P ++ G) + zlength (entry d)) (lp_end - (zlength (P ++ G) + zlength (entry d))))
      as (gap & Hm & Hgap); [done|len|len|].
    rewrite <-!app_assoc in Hm. rewrite <-!app_assoc. cbn [app] in Hm |- *. rewrite Hm.
    exists (gap ++ sl). cbn [batch_delete_loop]. do 2 f_equal. len.
  - set (rest := (d', k') :: segs) in *. specialize (IH (P ++ entries k)).
    assert (seg_ptrs (zlength (P ++ G) + zlength (entry d) + zlength (entries k)) rest =
      Some (zlength (P ++ G) + zlength (entry d) + zlength (entries k)) ::
      seg_ptrs (zlength (P ++ G) + zlength (entry d) + zlength (entries k) + zlength (entry d') +
                zlength (entries k')) segs) as Hps by done.
    rewrite Hps. cbn iota. rewrite <-Hps. clear Hps.
    destruct (decide (k = [])) as [->|Hkne].
    + rewrite (proj2 (Z.eqb_eq _ _)) by (simpl; lia).
      assert (He : lp_end = zlength (P ++ entries []) + zlength (G ++ entry d) +
        zlength (entries (flat rest)) + 1) by (simpl in Hend; rewrite app_nil_r; len).
      destruct (IH (G ++ entry d) sl lp_end ltac:(done) Hok He) as [sl' Hl].
      exists sl'. cbn [entries map concat app] in *. rewrite app_nil_r in Hl. rewrite <-!app_assoc in Hl |- *.
      rewrite <-Hl. f_equal. f_equal. len.
    + pose proof (entries_nonempty k Hk Hkne). rewrite (proj2 (Z.eqb_neq _ _)), (proj2 (Z.gtb_lt _ _)) by lia.
      destruct (memmove_left P (G ++ entry d) (entries k) (entries (flat rest) ++ LP_EOF :: sl) (zlength P)
        (zlength (P ++ G) + zlength (entry d))
        (zlength (P ++ G) + zlength (entry d) + zlength (entries k) - (zlength (P ++ G) + zlength (entry d))))
        as (gap & Hm & Hgap); [done|len|lia|].
      rewrite <-!app_assoc in Hm |- *. rewrite Hm.
      destruct (IH gap sl lp_end ltac:(done) Hok) as [sl' Hl]; [len|].
      exists sl'. rewrite <-!app_assoc in Hl. rewrite length_app in Hl.
      replace (zlength P + (zlength (P ++ G) + zlength (entry d) + zlength (entries k) -
        (zlength (P ++ G) + zlength (entry d)))) with (Z.of_nat (length P + length (entries k))) by lia.
      replace (zlength (P ++ G) + zlength (entry d) + zlength (entries k))
        with (Z.of_nat (length P + length (entries k)) + zlength gap) by len.
      rewrite Hl. do 2 f_equal; [by rewrite <-!app_assoc|len].
Qed.

Lemma length_seg_ptrs segs : forall a, length (seg_ptrs a segs) = length segs.
Proof. induction segs as [|[d k] segs IH]; intros a; [done|]. simpl. by rewrite IH. Qed.

Lemma kept_le segs : (length (entries (kept segs)) <= length (entries (flat segs)))%nat.
Proof.
  induction segs as [|[d k] segs IH]; [done|].
  change (flat ((d, k) :: segs)) with (d :: k ++ flat segs). change (kept ((d, k) :: segs)) with (k ++ kept segs).
  rewrite entries_cons, !entries_app, !length_app. lia.
Qed.

Lemma segs_le segs : (length segs <= length (flat segs))%nat.
Proof.
  induction segs as [|[d k] segs IH]; [done|].
  change (flat ((d, k) :: segs)) with (d :: k ++ flat segs). len.
Qed.

(** The header after [k] elements have been removed and [es] are left. *)
Lemma delete_finish junk n t es sl k :
  length t = 4%nat -> 0 <= n < 65536 -> total es <= UINT32_MAX ->
  (n <> LP_HDR_NUMELE_UNKNOWN -> 0 <= k <= n) ->
  exists sl',
  (let! lp := lpSetTotalBytes (t ++ le_enc 2 n ++ entries es ++ LP_EOF :: sl) (total es) in
   let! numele := lpGetNumElements lp in
   let! lp := (if negb (numele =? LP_HDR_NUMELE_UNKNOWN)
               then lpSetNumElements lp (u64 (numele - k)) else Ok lp) in
   lpShrinkToFit junk lp) = Ok (lp_of (range_count n k) es sl').
Proof.
  intros Hlen Hn Ht Hk. rewrite set_total_spec by done. unfold lpGetNumElements.
  rewrite (get_le_app 2 (le_enc 4 _)) by (by rewrite ?length_le_enc || apply le_enc_bytes).
  rewrite le_dec_enc, Z.mod_small by (simpl; pow_const; lia).
  assert (forall n', le_enc 4 (total es) ++ le_enc 2 n' ++ entries es ++ LP_EOF :: sl = lp_of n' es sl) as Hof
    by (intros n'; unfold lp_of; by rewrite <-!app_assoc).
  assert ((if negb (n =? LP_HDR_NUMELE_UNKNOWN)
           then lpSetNumElements (le_enc 4 (total es) ++ le_enc 2 n ++ entries es ++ LP_EOF :: sl) (u64 (n - k))
           else Ok (le_enc 4 (total es) ++ le_enc 2 n ++ entries es ++ LP_EOF :: sl)) =
          Ok (lp_of (range_count n k) es sl)) as ->.
  { unfold range_count. destruct (Z.eqb_spec n LP_HDR_NUMELE_UNKNOWN) as [E|E]; cbn [negb]; [by rewrite Hof|].
    rewrite set_numele_spec by apply length_le_enc. rewrite u_id by (pow_const; lia). by rewrite Hof. }
  by apply shrink_spec.
Qed.

Lemma batch_delete_segs junk n slack es0 segs :
  lp_wf n (es0 ++ flat segs) -> segs <> [] ->
  exists slack', lpBatchDelete junk (lp_of n (es0 ++ flat segs) slack) (seg_ptrs (pos es0) segs) =
    Ok (lp_of (range_count n (zlength segs)) (es0 ++ kept segs) slack').
Proof.
  intros Hwf Hne. pose proof Hwf as [Hc Ht Hf]. apply Forall_app in Hf as [_ Hf].
  set (P := (le_enc 4 (total (es0 ++ flat segs)) ++ le_enc 2 n) ++ entries es0).
  assert (zlength P = pos es0) as HP by apply length_upto.
  assert (Hend : total (es0 ++ flat segs) = zlength P + zlength (@nil Z) + zlength (entries (flat segs)) + 1)
    by (rewrite total_split, HP; cbn [length]; lia).
  destruct (batch_delete_loop_spec segs P [] slack (total (es0 ++ flat segs)) Hne Hf Hend) as [sl' Hl].
  replace (zlength P + zlength (@nil Z)) with (pos es0) in Hl by (cbn [length]; lia).
  unfold lpBatchDelete. rewrite getTotal by done.
  assert (exists more, seg_ptrs (pos es0) segs = Some (pos es0) :: more) as [more Hps]
    by (destruct segs as [|[d k] ?]; [done|]; by eexists).
  rewrite length_seg_ptrs. rewrite Hps in Hl |- *.
  assert (lp_of n (es0 ++ flat segs) slack = P ++ [] ++ entries (flat segs) ++ LP_EOF :: slack) as ->
    by apply lp_split.
  assert (get1 (total (es0 ++ flat segs) - 1) (P ++ [] ++ entries (flat segs) ++ LP_EOF :: slack) = Ok LP_EOF) as ->.
  { rewrite app_nil_l, (app_assoc P). apply get1_app. rewrite Hend. len. }
  rewrite Z.eqb_refl, <-HP. rewrite <-HP in Hl. rewrite Hl.
  assert (total (es0 ++ flat segs) - (total (es0 ++ flat segs) - (zlength P + zlength (entries (kept segs)) + 1))
          = total (es0 ++ kept segs)) as -> by (rewrite (total_split es0 (kept segs)); lia).
  pose proof (kept_le segs). pose proof (segs_le segs). pose proof (total_nonneg (es0 ++ kept segs)).
  assert (total (es0 ++ kept segs) <= UINT32_MAX) as Ht' by (rewrite (total_split es0 (kept segs)); len).
  rewrite u_id by (unfold UINT32_MAX in *; pow_const; lia).
  assert (get1 (total (es0 ++ kept segs) - 1) (P ++ entries (kept segs) ++ LP_EOF :: sl') = Ok LP_EOF) as ->.
  { rewrite (app_assoc P). apply get1_app. rewrite total_split. len. }
  rewrite Z.eqb_refl. unfold P. rewrite <-!app_assoc, (app_assoc (entries es0)), <-entries_app.
  apply delete_finish; [apply length_le_enc|by eapply count_range|done|].
  intros Hn. destruct Hc as [|[-> _]]; [done|]. len.
Qed.

(** The listpack without the elements whose index, counted from [base], is in [idxs]. *)
Fixpoint del_at (base : nat) (es : list elem) (idxs : list nat) : list elem :=
  match es with
  | [] => []
  | e :: es => if decide (base ∈ idxs) then del_at (S base) es idxs else e :: del_at (S base) es idxs
  end.

Lemma del_at_ext idxs idxs' es : forall base,
  (forall i, (base <= i)%nat -> i ∈ idxs <-> i ∈ idxs') -> del_at base es idxs = del_at base es idxs'.
Proof.
  induction es as [|e es IH]; intros base Hi; [done|]. simpl.
  rewrite (IH (S base)) by (intros i Hb; apply Hi; lia).
  specialize (Hi base (le_n base)). repeat case_decide; tauto.
Qed.

(** Increasing indices cut the sequence into segments. *)
Lemma segs_of es : forall base idxs,
  StronglySorted lt idxs -> Forall (fun i => base <= i < base + length es)%nat idxs ->
  exists es0 segs, es = es0 ++ flat segs /\ length segs = length idxs /\
    es0 ++ kept segs = del_at base es idxs /\
    (forall pre, seg_ptrs (pos (pre ++ es0)) segs =
                 map (fun i => Some (ptr (pre ++ es) (i - base + length pre))) idxs).
Proof.
  induction es as [|e es IH]; intros base idxs Hs Hr.
  { exists [], []. destruct idxs as [|i idxs]; [done|]. apply Forall_cons_1 in Hr as [Hr _]. simpl in Hr. lia. }
  destruct (decide (base ∈ idxs)) as [Hin|Hin]; simpl del_at.
  - destruct idxs as [|i idxs]; [by apply elem_of_nil in Hin|].
    apply StronglySorted_inv in Hs as [Hs Hlt]. apply Forall_cons_1 in Hr as [Hi Hr].
    rewrite list.Forall_forall in Hlt.
    assert (i = base) as ->.
    { apply elem_of_cons in Hin as [->|Hin]; [done|]. specialize (Hlt _ Hin). lia. }
    destruct (IH (S base) idxs Hs) as (es0 & segs & -> & Hlen & Hk & Hp).
    { rewrite list.Forall_forall in Hr |- *. intros j Hj. specialize (Hlt j Hj). specialize (Hr j Hj). simpl in Hr. lia. }
    exists [], ((e, es0) :: segs). split_and!; [done|simpl; lia| |].
    + rewrite decide_True by constructor. change (kept ((e, es0) :: segs)) with (es0 ++ kept segs).
      rewrite app_nil_l, Hk. apply del_at_ext. intros j Hj. rewrite elem_of_cons. naive_solver lia.
    + intros pre. cbn [seg_ptrs map]. rewrite app_nil_r, Nat.sub_diag, Nat.add_0_l, ptr_mid. f_equal.
      specialize (Hp (pre ++ [e])). rewrite <-!app_assoc in Hp. simpl in Hp.
      replace (pos pre + zlength (entry e) + zlength (entries es0)) with (pos (pre ++ e :: es0))
        by (unfold pos; rewrite entries_app, entries_cons; len).
      rewrite Hp. apply map_ext_in. intros j Hj%list_elem_of_In. specialize (Hlt j Hj). do 2 f_equal. len.
  - rewrite decide_False by done. destruct (IH (S base) idxs Hs) as (es0 & segs & -> & Hlen & Hk & Hp).
    { rewrite list.Forall_forall in Hr |- *. intros j Hj. specialize (Hr j Hj). simpl in Hr.
      assert (j <> base) by congruence. lia. }
    exists (e :: es0), segs. split_and!; [done|done|simpl; by rewrite Hk|].
    intros pre. specialize (Hp (pre ++ [e])). rewrite <-!app_assoc in Hp. simpl in Hp. rewrite Hp.
    apply map_ext_in. intros j Hj%list_elem_of_In. rewrite list.Forall_forall in Hr.
    specialize (Hr j Hj). assert (j <> base) by congruence. do 2 f_equal. len.
Qed.

(** * lpMerge *)

Lemma realloc_prefix {A} (junk : A) m b1 b2 :
  zlength b1 <= m -> exists x, realloc junk m (b1 ++ b2) = b1 ++ x /\ zlength b1 + zlength x = m.
Proof.
  intros Hm. exists (take (Z.to_nat m - length b1) b2 ++ replicate (Z.to_nat m - length (b1 ++ b2)) junk).
  split; [|len]. unfold realloc. rewrite take_app, take_ge by lia. by rewrite <-app_assoc.
Qed.

Lemma header_spec t c body m b :
  length t = 4%nat -> length c = 2%nat ->
  (let! lp := lpSetNumElements ((t ++ c) ++ body) m in lpSetTotalBytes lp b) =
  Ok ((le_enc 4 b ++ le_enc 2 m) ++ body).
Proof.
  intros Ht Hc. rewrite <-app_assoc, set_numele_spec, set_total_spec by done. by rewrite <-app_assoc.
Qed.

Lemma total_merge es1 es2 : total (es1 ++ es2) = total es1 + total es2 - 7.
Proof. unfold total. rewrite entries_app. len. Qed.

(** Appending the source to the target, and prepending it. *)
Lemma merge_append junk n1 n2 es1 es2 sl1 sl2 :
  exists t c, length t = 4%nat /\ length c = 2%nat /\
  (let! bs := load LP_HDR_SIZE (total es2 - LP_HDR_SIZE) (lp_of n2 es2 sl2) in
   store (total es1 - 1) bs (realloc junk (total (es1 ++ es2)) (lp_of n1 es1 sl1))) =
  Ok ((t ++ c) ++ entries (es1 ++ es2) ++ [LP_EOF]).
Proof.
  exists (le_enc 4 (total es1)), (le_enc 2 n1). rewrite !length_le_enc. split_and!; [done..|].
  set (h := le_enc 4 (total es1) ++ le_enc 2 n1).
  assert (Hh : length h = 6%nat) by apply length_hdr.
  unfold lp_of at 1. replace (entries es2 ++ LP_EOF :: sl2) with ((entries es2 ++ [LP_EOF]) ++ sl2)
    by by rewrite <-app_assoc.
  rewrite load_app by (rewrite ?length_hdr; unfold total, LP_HDR_SIZE; len).
  unfold lp_of. fold h. rewrite (app_assoc h).
  destruct (realloc_prefix junk (total (es1 ++ es2)) (h ++ entries es1) (LP_EOF :: sl1)) as (x & -> & Hx).
  { rewrite total_merge. unfold total. len. }
  rewrite total_merge in Hx. rewrite <-(app_nil_r x).
  rewrite (store_app (h ++ entries es1) x (entries es2 ++ [LP_EOF])) by (unfold total in *; len).
  f_equal. by rewrite app_nil_r, entries_app, <-!app_assoc.
Qed.

Lemma merge_prepend junk n1 n2 es1 es2 sl1 sl2 :
  exists t c, length t = 4%nat /\ length c = 2%nat /\
  (let! target := memmove (total es1 - 1) LP_HDR_SIZE (total es2 - LP_HDR_SIZE)
                    (realloc junk (total (es1 ++ es2)) (lp_of n2 es2 sl2)) in
   let! bs := load 0 (total es1 - 1) (lp_of n1 es1 sl1) in
   store 0 bs target) =
  Ok ((t ++ c) ++ entries (es1 ++ es2) ++ [LP_EOF]).
Proof.
  exists (le_enc 4 (total es1)), (le_enc 2 n1). rewrite !length_le_enc. split_and!; [done..|].
  set (h2 := le_enc 4 (total es2) ++ le_enc 2 n2). set (h1 := le_enc 4 (total es1) ++ le_enc 2 n1).
  assert (length h2 = 6%nat) as Hh2 by apply length_hdr. assert (length h1 = 6%nat) as Hh1 by apply length_hdr.
  assert (lp_of n2 es2 sl2 = (h2 ++ entries es2 ++ [LP_EOF]) ++ sl2) as ->
    by (unfold lp_of; fold h2; by rewrite <-!app_assoc).
  destruct (realloc_prefix junk (total (es1 ++ es2)) (h2 ++ entries es2 ++ [LP_EOF]) sl2) as (x & -> & Hx).
  { rewrite total_merge. unfold total. len. }
  rewrite total_merge in Hx. rewrite <-app_assoc.
  destruct (memmove_gap h2 [] (entries es2 ++ [LP_EOF]) x (length (entries es1)) (total es1 - 1) LP_HDR_SIZE
    (total es2 - LP_HDR_SIZE)) as (mid & rest & Hm & Hmid & Hrest);
    [unfold total, LP_HDR_SIZE in *; len..|].
  rewrite app_nil_l in Hm. rewrite Hm.
  assert (length rest = 0)%nat as ->%nil_length_inv by (unfold total in *; len).
  assert (lp_of n1 es1 sl1 = [] ++ (h1 ++ entries es1) ++ LP_EOF :: sl1) as ->
    by (unfold lp_of; fold h1; by rewrite <-!app_assoc).
  rewrite load_app by (unfold total; len).
  rewrite (app_assoc h2).
  etrans; [apply (store_app [] (h2 ++ mid) (h1 ++ entries es1) ((entries es2 ++ [LP_EOF]) ++ [])); len|].
  f_equal. by rewrite entries_app, app_nil_r, app_nil_l, <-!app_assoc.
Qed.

Lemma merge_spec junk n1 n2 es1 es2 sl1 sl2 :
  lp_wf n1 es1 -> lp_wf n2 es2 -> total (es1 ++ es2) < UINT32_MAX ->
  lpMerge junk (Some (lp_of n1 es1 sl1)) (Some (lp_of n2 es2 sl2)) false =
  Ok (Some (lp_of (Z.min (zlength (es1 ++ es2)) LP_HDR_NUMELE_UNKNOWN) (es1 ++ es2) [],
            total es1 >=? total es2)).
Proof.
  intros Hw1 Hw2 Ht. unfold lpMerge, lpBytes. rewrite !getTotal by (apply Hw1 || apply Hw2).
  destruct (length_spec n1 sl1 es1 Hw1) as (l1 & -> & ->). destruct (length_spec n2 sl2 es2 Hw2) as (l2 & -> & ->).
  pose proof (length_bound n1 es1 Hw1). pose proof (length_bound n2 es2 Hw2).
  pose proof (total_nonneg es1). pose proof (total_nonneg es2). pose proof (total_merge es1 es2) as Htm.
  set (m1 := if zlength es1 <? _ then _ else n1). set (m2 := if zlength es2 <? _ then _ else n2).
  replace (total es1 + total es2 - LP_HDR_SIZE - 1) with (total (es1 ++ es2)) by (unfold LP_HDR_SIZE; lia).
  pose proof (total_nonneg (es1 ++ es2)). rewrite !u_id by (unfold UINT32_MAX in *; pow_const; lia).
  replace (if zlength es1 + zlength es2 <? 65535 then zlength es1 + zlength es2 else 65535)
    with (Z.min (zlength (es1 ++ es2)) LP_HDR_NUMELE_UNKNOWN)
    by (unfold LP_HDR_NUMELE_UNKNOWN; rewrite length_app; zbool; lia).
  destruct (total es1 >=? total es2); zif.
  - destruct (merge_append junk m1 m2 es1 es2 sl1 sl2) as (t & c & Hlt & Hlc & Hm).
    destruct (load _ _ _); [|done]. rewrite Hm.
    pose proof (header_spec t c (entries (es1 ++ es2) ++ [LP_EOF])
      (Z.min (zlength (es1 ++ es2)) LP_HDR_NUMELE_UNKNOWN) (total (es1 ++ es2)) Hlt Hlc) as Hh.
    destruct (lpSetNumElements _ _); [|done]. by rewrite Hh.
  - destruct (merge_prepend junk m1 m2 es1 es2 sl1 sl2) as (t & c & Hlt & Hlc & Hm).
    rewrite Hm.
    pose proof (header_spec t c (entries (es1 ++ es2) ++ [LP_EOF])
      (Z.min (zlength (es1 ++ es2)) LP_HDR_NUMELE_UNKNOWN) (total (es1 ++ es2)) Hlt Hlc) as Hh.
    destruct (lpSetNumElements _ _); [|done]. by rewrite Hh.
Qed.

(** * The contract *)

Lemma entry_elem_ok e : entry_ok e -> zlength (enc_elem (entry_elem e)) <= UINT32_MAX -> elem_ok (entry_elem e).
Proof. intros He. by destruct (arg_size _ _ _ _ (entry_arg e He)). Qed.

Lemma batch_listpack n args es1 es2 r :
  Forall entry_ok args -> args <> [] -> lp_wf n (es1 ++ es2) -> batch_result n args es1 es2 r ->
  updates_to (es1 ++ map entry_elem args ++ es2)
    (Some (ptr (es1 ++ map entry_elem args ++ es2) (length es1 + length args - 1))) r.
Proof.
  intros Hargs Hne [Hc _ Hf] Hr. unfold batch_result in Hr. set (new := map entry_elem args) in *.
  destruct (Z.leb_spec (total (es1 ++ new ++ es2)) UINT32_MAX) as [Ht|Ht]; [|by subst r].
  destruct Hr as (slack' & ->). split.
  - exists (batch_count n (zlength new)), slack'. split; [done|]. split; [by apply batch_count_ok|done|].
    pose proof (args_small args es1 es2 Ht) as Hs. apply Forall_app in Hf as [Hf1 Hf2].
    rewrite !Forall_app. split_and!; [done| |done]. unfold new. apply Forall_fmap.
    rewrite list.Forall_forall in Hargs, Hs |- *. intros e He. apply entry_elem_ok; [by apply Hargs|].
    specialize (Hs e He). unfold UINT32_MAX. simpl in Hs. pow_const. lia.
  - f_equal. assert (new <> []) as Hn by (unfold new; by destruct args).
    destruct (exists_last Hn) as (l & x & Hl). rewrite Hl, removelast_last.
    assert (length args = length l + 1)%nat as Hlen
      by (rewrite <-(length_map entry_elem args); fold new; rewrite Hl; len).
    rewrite <-app_assoc. replace (length es1 + length args - 1)%nat with (length (es1 ++ l)) by len.
    rewrite app_assoc, ptr_mid. done.
Qed.

Section Contract.
Context (junk : Z) (lp : list Z) (es : list elem) (args : list listpackEntry).
Hypothesis Hlp : is_listpack lp es.
Hypothesis Hargs : Forall entry_ok args.
Hypothesis Hne : args <> [].
Let new := map entry_elem args.
Hypothesis Hsize : total (es ++ new) < 2 ^ 64.

Lemma size_at_any es1 es2 : es = es1 ++ es2 -> total (es1 ++ new ++ es2) < 2 ^ 64.
Proof.
  intros He. pose proof Hsize as Hs. rewrite total_merge, He, total_merge in Hs. rewrite !total_merge. lia.
Qed.

Lemma batch_before_contract i :
  (i <= length es)%nat ->
  exists r, lpBatchInsert junk lp (ptr es i) LP_BEFORE args = Ok r /\
    updates_to (take i es ++ new ++ drop i es)
      (Some (ptr (take i es ++ new ++ drop i es) (i + length args - 1))) r.
Proof.
  intros Hi. destruct Hlp as (n & slack & -> & Hwf). unfold ptr at 1.
  pose proof (size_at_any (take i es) (drop i es) (eq_sym (take_drop i es))) as Hs.
  rewrite <-(take_drop i es) in Hwf.
  destruct (batch_before junk n slack args Hargs Hne (take i es) (drop i es) Hwf Hs) as (r & Hr & Hres).
  rewrite take_drop in Hr. exists r. split; [done|].
  pose proof (batch_listpack n args _ _ r Hargs Hne Hwf Hres) as Hu. by rewrite length_take_le in Hu by done.
Qed.

Lemma batch_after_contract i :
  (i < length es)%nat ->
  exists r, lpBatchInsert junk lp (ptr es i) LP_AFTER args = Ok r /\
    updates_to (take (S i) es ++ new ++ drop (S i) es)
      (Some (ptr (take (S i) es ++ new ++ drop (S i) es) (S i + length args - 1))) r.
Proof.
  intros Hi. destruct Hlp as (n & slack & -> & Hwf).
  destruct (lookup_lt_is_Some_2 es i Hi) as [e He].
  destruct (elem_split es i e He) as (es1 & es2 & Hes & ->).
  pose proof (size_at_any (es1 ++ [e]) es2 ltac:(by rewrite <-app_assoc)) as Hs. rewrite <-app_assoc in Hs.
  rewrite Hes in Hwf |- *. rewrite ptr_mid.
  destruct (batch_after junk n slack args Hargs Hne es1 e es2 Hwf Hs) as (r & Hr & Hres).
  exists r. split; [done|]. rewrite cons_middle in Hwf |- *.
  replace (S (length es1)) with (length (es1 ++ [e])) by len. rewrite take_app_length, drop_app_length.
  by eapply batch_listpack.
Qed.

(** lpBatchInsert inserts all entries, in order, before or after the given element in one
    pass and points to the last of them; lpBatchAppend adds them at the end.  They return
    NULL exactly when the 32-bit size field would overflow. *)
Theorem lpBatchInsert_correct :
  (forall i, (i <= length es)%nat ->
     exists r, lpBatchInsert junk lp (ptr es i) LP_BEFORE args = Ok r /\
       updates_to (take i es ++ map entry_elem args ++ drop i es)
         (Some (ptr (take i es ++ map entry_elem args ++ drop i es) (i + length args - 1))) r) /\
  (forall i, (i < length es)%nat ->
     exists r, lpBatchInsert junk lp (ptr es i) LP_AFTER args = Ok r /\
       updates_to (take (S i) es ++ map entry_elem args ++ drop (S i) es)
         (Some (ptr (take (S i) es ++ map entry_elem args ++ drop (S i) es) (S i + length args - 1))) r) /\
  (zlength args < 2 ^ 32 ->
     exists r, lpBatchAppend junk lp args = Ok r /\ pushes_to (es ++ map entry_elem args) r).
Proof.
  split_and!; [exact batch_before_contract|exact batch_after_contract|]. intros Hl.
  unfold lpBatchAppend. rewrite u_id by lia. rewrite take_ge by lia.
  destruct (batch_before_contract (length es) (le_n _)) as (r & Hr & Hu).
  rewrite firstn_all, drop_all, app_nil_r in Hu.
  destruct Hlp as (n & slack & -> & Hwf). rewrite getTotal by apply Hwf.
  replace (total es - 1) with (ptr es (length es))
    by (unfold ptr; rewrite firstn_all; unfold total, pos, LP_HDR_SIZE; lia).
  rewrite Hr. by eapply drop_newp_spec.
Qed.
End Contract.

Lemma lpBatchInsert_correct_witness :
  is_listpack demo_lp demo_es /\
  exists r, lpBatchInsert 0 demo_lp (ptr demo_es 1) LP_AFTER
    [{| sval := Some [97; 98]; slen := 2; lval := 0 |}; {| sval := None; slen := 0; lval := -5 |}] = Ok r /\
  updates_to (take 2 demo_es ++ [elem_of [97; 98]; EInt (-5)] ++ drop 2 demo_es)
    (Some (ptr (take 2 demo_es ++ [elem_of [97; 98]; EInt (-5)] ++ drop 2 demo_es) 3)) r.
Proof.
  split; [exact demo_listpack|].
  destruct (lpBatchInsert_correct 0 demo_lp demo_es
    [{| sval := Some [97; 98]; slen := 2; lval := 0 |}; {| sval := None; slen := 0; lval := -5 |}]
    demo_listpack) as (_ & H & _).
  - repeat constructor; simpl; try lia; vm_compute; congruence.
  - done.
  - vm_compute. reflexivity.
  - apply (H 1%nat). simpl. lia.
Defined.

Lemma range_count_ok n es0 segs :
  count_ok n (es0 ++ flat segs) ->
  zlength (es0 ++ flat segs) = zlength (es0 ++ kept segs) + zlength segs ->
  count_ok (range_count n (zlength segs)) (es0 ++ kept segs).
Proof. unfold count_ok, range_count. intros Hc Hl. zbool; lia. Qed.

Lemma flat_length segs : (length (flat segs) = length (kept segs) + length segs)%nat.
Proof.
  induction segs as [|[d k] segs IH]; [done|].
  change (flat ((d, k) :: segs)) with (d :: k ++ flat segs). change (kept ((d, k) :: segs)) with (k ++ kept segs).
  len.
Qed.

(** lpBatchDelete, given pointers to elements in the order of the listpack, removes
    exactly these elements in one pass and keeps the others in order. *)
Theorem lpBatchDelete_correct junk lp es idxs :
  is_listpack lp es -> StronglySorted lt idxs -> Forall (fun i => i < length es)%nat idxs ->
  exists lp', lpBatchDelete junk lp (map (fun i => Some (ptr es i)) idxs) = Ok lp' /\
              is_listpack lp' (del_at 0 es idxs).
Proof.
  intros (n & slack & -> & Hwf) Hs Hr.
  destruct (segs_of es 0 idxs Hs) as (es0 & segs & Hes & Hlen & Hk & Hp).
  { rewrite list.Forall_forall in Hr |- *. intros i Hi. specialize (Hr i Hi). simpl in *. lia. }
  specialize (Hp []). simpl in Hp. rewrite <-Hk.
  assert (map (fun i => Some (ptr es i)) idxs = seg_ptrs (pos es0) segs) as ->.
  { rewrite Hp. apply map_ext. intros i. do 2 f_equal. lia. }
  subst es. destruct segs as [|s segs].
  { exists (lp_of n (es0 ++ flat []) slack). split; [done|].
    exists n, slack. split; [done|exact Hwf]. }
  destruct (batch_delete_segs junk n slack es0 (s :: segs) Hwf ltac:(done)) as [slack' ->].
  eexists. split; [done|]. do 2 eexists. split; [done|]. destruct Hwf as [Hc Ht Hf]. split.
  - apply range_count_ok; [done|]. pose proof (flat_length (s :: segs)). len.
  - pose proof (kept_le (s :: segs)). rewrite !total_split in *. lia.
  - apply Forall_app in Hf as [Hf1 Hf2]. apply Forall_app. split; [done|].
    clear -Hf2. induction (s :: segs) as [|[d k] l IH]; [done|].
    change (flat ((d, k) :: l)) with (d :: k ++ flat l) in Hf2. change (kept ((d, k) :: l)) with (k ++ kept l).
    apply Forall_cons_1 in Hf2 as [_ Hf2]. apply Forall_app in Hf2 as [? ?]. apply Forall_app. auto.
Qed.

Lemma lpBatchDelete_correct_witness :
  is_listpack demo_lp demo_es /\
  exists lp', lpBatchDelete 0 demo_lp [Some (ptr demo_es 0); Some (ptr demo_es 2)] = Ok lp' /\
              is_listpack lp' (del_at 0 demo_es [0; 2]%nat).
Proof.
  split; [exact demo_listpack|].
  apply (lpBatchDelete_correct 0 demo_lp demo_es [0; 2]%nat demo_listpack).
  - repeat constructor.
  - repeat constructor; simpl; lia.
Defined.

(** lpMerge concatenates two listpacks, whichever of the two allocations it extends; it
    does nothing for a NULL argument or for a listpack with itself. *)
Theorem lpMerge_correct junk lp1 lp2 es1 es2 :
  is_listpack lp1 es1 -> is_listpack lp2 es2 -> total (es1 ++ es2) < UINT32_MAX ->
  (exists lp, lpMerge junk (Some lp1) (Some lp2) false = Ok (Some (lp, total es1 >=? total es2)) /\
              is_listpack lp (es1 ++ es2)) /\
  lpMerge junk (Some lp1) (Some lp1) true = Ok None /\
  lpMerge junk None (Some lp2) false = Ok None /\ lpMerge junk (Some lp1) None false = Ok None.
Proof.
  intros (n1 & sl1 & -> & Hw1) (n2 & sl2 & -> & Hw2) Ht. split; [|done].
  eexists. split; [by apply merge_spec|]. do 2 eexists. split; [done|].
  destruct Hw1 as [_ _ Hf1], Hw2 as [_ _ Hf2]. split; [|lia|by apply Forall_app].
  unfold count_ok, LP_HDR_NUMELE_UNKNOWN. lia.
Qed.

Lemma lpMerge_correct_witness :
  is_listpack demo_lp demo_es /\
  exists lp, lpMerge 0 (Some demo_lp) (Some demo_lp) false = Ok (Some (lp, true)) /\
             is_listpack lp (demo_es ++ demo_es).
Proof.
  split; [exact demo_listpack|].
  exact (proj1 (lpMerge_correct 0 demo_lp demo_lp demo_es demo_es demo_listpack demo_listpack eq_refl)).
Defined.
