(* ===== verification/Dict.v ===== *)
(** Hash tables with incremental rehashing, the model: src/redis-stable/src/dict.c.

    A dict holds two tables of chains; while it is being rehashed, the buckets of the
    first table below [rehashidx] have been moved to the second.  A table is a list of
    buckets, a bucket the list of its entries from the head of the chain on; a NULL
    table is the empty list.  Pointers to entries are a table number, a bucket index
    and a position in the chain.  The hash function, the key comparison and the
    callbacks of dictType are parameters; calls to the notification callbacks are
    recorded in [events].  How a chain of a [no_value] dict is packed into tagged
    pointers is not visible at this level. *)

From S2P Require Import Prelude Machine.

(** * Types *)

Inductive dictResizeEnable := DICT_RESIZE_ENABLE | DICT_RESIZE_AVOID | DICT_RESIZE_FORBID.
#[global] Instance dictResizeEnable_eq_dec : EqDecision dictResizeEnable.
Proof. solve_decision. Defined.

(** A call of a notification callback; the rehashing callbacks read the size of the first
    table with dictRehashingInfo. *)
Inductive dictEvent :=
| RehashingStarted (from : Z)
| RehashingCompleted (from : Z)
| BucketChanged (delta : Z).

Definition DICT_HT_INITIAL_EXP : Z := 2.
Definition DICT_HT_INITIAL_SIZE : Z := 4.
Definition HASHTABLE_MIN_FILL : Z := 8.
Definition dict_force_resize_ratio : Z := 4.

Definition DICTHT_SIZE (exp : Z) : Z := if exp =? -1 then 0 else u64 (Z.shiftl 1 exp).
Definition DICTHT_SIZE_MASK (exp : Z) : Z := if exp =? -1 then 0 else u64 (DICTHT_SIZE exp - 1).

(** __builtin_clzl, defined for a positive 64-bit argument *)
Definition builtin_clzl (x : Z) : Z := 63 - Z.log2 x.

Definition _dictNextExp (size : Z) : Z :=
  if size <=? DICT_HT_INITIAL_SIZE then DICT_HT_INITIAL_EXP
  else if size >=? LLONG_MAX (* LONG_MAX *) then 63
  else 64 - builtin_clzl (size - 1).

(** DICT_OK and DICT_ERR *)
Inductive dictStatus := DICT_OK | DICT_ERR.
#[global] Instance dictStatus_eq_dec : EqDecision dictStatus.
Proof. solve_decision. Defined.

Record ht (K V : Type) := mkHt {
  table : list (list (K * V));
  used : Z;
  size_exp : Z
}.
Arguments mkHt {K V} _ _ _.
Arguments table {K V} _.
Arguments used {K V} _.
Arguments size_exp {K V} _.

Record dict (K V : Type) := mkDict {
  ht0 : ht K V;
  ht1 : ht K V;
  rehashidx : Z;
  pauserehash : Z;
  pauseAutoResize : Z;
  events : list dictEvent
}.
Arguments mkDict {K V} _ _ _ _ _ _.
Arguments ht0 {K V} _.
Arguments ht1 {K V} _.
Arguments rehashidx {K V} _.
Arguments pauserehash {K V} _.
Arguments pauseAutoResize {K V} _.
Arguments events {K V} _.

(** A dictEntryLink: the entry at [l_pos] in the chain of bucket [l_idx]. *)
Record link := mkLink { l_table : Z; l_idx : Z; l_pos : nat }.

Section Dict.
Context {K V : Type}.
Context (hashFunction : K -> Z) (keyCompare : K -> K -> bool).
(** resizeAllowed gets the bytes needed and the ratio used/size; NULL allows all. *)
Context (resizeAllowed : option (Z -> Z * Z -> bool)).
Context (force_full_rehash : bool).
(** the global switch set by dictSetResizeEnabled *)
Context (dict_can_resize : dictResizeEnable).
Implicit Types d : dict K V.

Definition dictIsRehashing d : bool := negb (rehashidx d =? -1).
Definition dictSize d : Z := u64 (used (ht0 d) + used (ht1 d)).
Definition dictBuckets d : Z := u64 (DICTHT_SIZE (size_exp (ht0 d)) + DICTHT_SIZE (size_exp (ht1 d))).

(** from_size and to_size; the assertion that the dict is rehashing holds wherever the
    callbacks are called *)
Definition dictRehashingInfo d : Z * Z := (DICTHT_SIZE (size_exp (ht0 d)), DICTHT_SIZE (size_exp (ht1 d))).

Definition get_ht d (i : Z) : ht K V := if i =? 0 then ht0 d else ht1 d.
Definition set_ht d (i : Z) (h : ht K V) : dict K V :=
  if i =? 0 then mkDict h (ht1 d) (rehashidx d) (pauserehash d) (pauseAutoResize d) (events d)
  else mkDict (ht0 d) h (rehashidx d) (pauserehash d) (pauseAutoResize d) (events d).
Definition set_rehashidx d i := mkDict (ht0 d) (ht1 d) i (pauserehash d) (pauseAutoResize d) (events d).
Definition set_pauserehash d p := mkDict (ht0 d) (ht1 d) (rehashidx d) p (pauseAutoResize d) (events d).
Definition notify d e := mkDict (ht0 d) (ht1 d) (rehashidx d) (pauserehash d) (pauseAutoResize d) (events d ++ [e]).

Definition ht_reset : ht K V := mkHt [] 0 (-1).
Definition _dictReset d (htidx : Z) : dict K V := set_ht d htidx ht_reset.

Definition dictCreate : dict K V := mkDict ht_reset ht_reset (-1) 0 0 [].

Definition dictHashKey (key : K) : Z := hashFunction key.

(** * Rehashing *)

(** while (de) ...: the entries [chain] of bucket [idx] go to the heads of their new
    buckets *)
Fixpoint rehash_chain (chain : list (K * V)) (idx : Z) d : res (dict K V) :=
  match chain with
  | [] => Ok d
  | (key, val) :: nextde =>
      let h := if size_exp (ht1 d) >? size_exp (ht0 d)
               then Z.land (dictHashKey key) (DICTHT_SIZE_MASK (size_exp (ht1 d)))
               else Z.land idx (DICTHT_SIZE_MASK (size_exp (ht1 d))) in
      let! bucket := get1 h (table (ht1 d)) in
      let! table1 := set1 h ((key, val) :: bucket) (table (ht1 d)) in
      let h0 := ht0 d in
      let h1 := ht1 d in
      let d := set_ht d 1 (mkHt table1 (u64 (used h1 + 1)) (size_exp h1)) in
      let d := set_ht d 0 (mkHt (table h0) (u64 (used h0 - 1)) (size_exp h0)) in
      rehash_chain nextde idx d
  end.

Definition rehashEntriesInBucketAtIndex d (idx : Z) : res (dict K V) :=
  let! de := get1 idx (table (ht0 d)) in
  let! d := rehash_chain de idx d in
  let! table0 := set1 idx [] (table (ht0 d)) in
  Ok (set_ht d 0 (mkHt table0 (used (ht0 d)) (size_exp (ht0 d)))).

Definition dictCheckRehashingCompleted d : bool * dict K V :=
  if negb (used (ht0 d) =? 0) then (false, d)
  else
    let d := notify d (RehashingCompleted (fst (dictRehashingInfo d))) in
    let d := notify d (BucketChanged (- DICTHT_SIZE (size_exp (ht0 d)))) in
    let d := set_ht d 0 (ht1 d) in
    let d := _dictReset d 1 in
    (true, set_rehashidx d (-1)).

(** the throttling of DICT_RESIZE_AVOID *)
Definition rehash_avoided d : bool :=
  let s0 := DICTHT_SIZE (size_exp (ht0 d)) in
  let s1 := DICTHT_SIZE (size_exp (ht1 d)) in
  bool_decide (dict_can_resize = DICT_RESIZE_AVOID) &&
  (((s1 >? s0) && (s1 <? u64 (dict_force_resize_ratio * s0))) ||
   ((s1 <? s0) && (s0 <? u64 (HASHTABLE_MIN_FILL * dict_force_resize_ratio * s1)))).

(** while(d->ht_table[0][d->rehashidx] == NULL): [None] when the budget of empty
    visits is exhausted *)
Fixpoint skip_empty (fuel : nat) d (empty_visits : Z) : res (bool * dict K V * Z) :=
  let! bucket := get1 (rehashidx d) (table (ht0 d)) in
  match bucket with
  | _ :: _ => Ok (true, d, empty_visits)
  | [] =>
      match fuel with
      | O => Fault OutOfFuel
      | S fuel =>
          let d := set_rehashidx d (rehashidx d + 1) in
          let empty_visits := empty_visits - 1 in
          if empty_visits =? 0 then Ok (false, d, empty_visits)
          else skip_empty fuel d empty_visits
      end
  end.

(** while(n-- && d->ht_used[0] != 0): [false] for the early return of 1 *)
Fixpoint dictRehash_loop (n : nat) d (empty_visits : Z) : res (bool * dict K V) :=
  match n with
  | O => Ok (true, d)
  | S n =>
      if used (ht0 d) =? 0 then Ok (true, d)
      else
        assert! DICTHT_SIZE (size_exp (ht0 d)) >? u64 (rehashidx d) in
        let! '(go, d, empty_visits) := skip_empty (length (table (ht0 d))) d empty_visits in
        if negb go then Ok (false, d)
        else
          let! d := rehashEntriesInBucketAtIndex d (rehashidx d) in
          dictRehash_loop n (set_rehashidx d (rehashidx d + 1)) empty_visits
  end.

(** the returned flag: there are still keys to move *)
Definition dictRehash d (n : Z) : res (bool * dict K V) :=
  let empty_visits := n * 10 in
  if bool_decide (dict_can_resize = DICT_RESIZE_FORBID) || negb (dictIsRehashing d) then Ok (false, d)
  else if rehash_avoided d then Ok (false, d)
  else
    let! '(go, d) := dictRehash_loop (Z.to_nat n) d empty_visits in
    if negb go then Ok (true, d)
    else
      let '(completed, d) := dictCheckRehashingCompleted d in
      Ok (negb completed, d).

(** while (dictRehash(d, 1000)) *)
Fixpoint dictRehash_all (fuel : nat) d : res (dict K V) :=
  match fuel with
  | O => Fault OutOfFuel
  | S fuel =>
      let! '(more, d) := dictRehash d 1000 in
      if (more : bool) then dictRehash_all fuel d else Ok d
  end.

Definition _dictRehashStep d : res (dict K V) :=
  if pauserehash d =? 0 then let! '(_, d) := dictRehash d 1 in Ok d else Ok d.

Definition _dictBucketRehash d (idx : Z) : res (Z * dict K V) :=
  if negb (pauserehash d =? 0) then Ok (0, d)
  else if bool_decide (dict_can_resize = DICT_RESIZE_FORBID) || negb (dictIsRehashing d) then Ok (0, d)
  else if rehash_avoided d then Ok (0, d)
  else
    let! d := rehashEntriesInBucketAtIndex d idx in
    let '(_, d) := dictCheckRehashingCompleted d in
    Ok (1, d).

Definition _dictRehashStepIfNeeded d (visitedIdx : Z) : res (dict K V) :=
  if negb (dictIsRehashing d) || negb (pauserehash d =? 0) then Ok d
  else
    let! go := (if s64 visitedIdx >=? rehashidx d
                then let! b := get1 visitedIdx (table (ht0 d)) in Ok (match b with [] => false | _ => true end)
                else Ok false) in
    if (go : bool) then let! '(_, d) := _dictBucketRehash d visitedIdx in Ok d
    else let! '(_, d) := dictRehash d 1 in Ok d.

(** * Resizing *)

(** [malloc_failed] is [None] for a NULL pointer, else [Some ok] with the outcome of
    ztrycalloc; the third component of the result is the final [*malloc_failed]. *)
Definition _dictResize d (size : Z) (malloc : option bool) : res (dictStatus * dict K V * bool) :=
  assert! negb (dictIsRehashing d) in
  let new_ht_size_exp := _dictNextExp size in
  let newsize := DICTHT_SIZE new_ht_size_exp in
  if (newsize <? size) || (u64 (newsize * 8) <? newsize) then Ok (DICT_ERR, d, false)
  else if new_ht_size_exp =? size_exp (ht0 d) then Ok (DICT_ERR, d, false)
  else if (match malloc with Some ok => negb ok | None => false end) then Ok (DICT_ERR, d, true)
  else
    let new := mkHt (replicate (Z.to_nat newsize) []) 0 new_ht_size_exp in
    let d := set_ht d 1 new in
    let d := set_rehashidx d 0 in
    let d := notify d (RehashingStarted (fst (dictRehashingInfo d))) in
    let d := notify d (BucketChanged (DICTHT_SIZE (size_exp (ht1 d)))) in
    if (size_exp (ht0 d) =? -1) || (used (ht0 d) =? 0) then
      let d := notify d (RehashingCompleted (fst (dictRehashingInfo d))) in
      let d := notify d (BucketChanged (- DICTHT_SIZE (size_exp (ht0 d)))) in
      let d := set_ht d 0 new in
      let d := _dictReset d 1 in
      Ok (DICT_OK, set_rehashidx d (-1), false)
    else if force_full_rehash then
      let! d := dictRehash_all (S (length (table (ht0 d)))) d in
      Ok (DICT_OK, d, false)
    else Ok (DICT_OK, d, false).

Definition _dictExpand d (size : Z) (malloc : option bool) : res (dictStatus * dict K V * bool) :=
  if dictIsRehashing d || (used (ht0 d) >? size) || (DICTHT_SIZE (size_exp (ht0 d)) >=? size)
  then Ok (DICT_ERR, d, false)
  else _dictResize d size malloc.

Definition dictExpand d (size : Z) : res (dictStatus * dict K V) :=
  let! '(r, d, _) := _dictExpand d size None in Ok (r, d).

Definition dictTryExpand d (size : Z) (alloc_ok : bool) : res (dictStatus * dict K V) :=
  let! '(_, d, malloc_failed) := _dictExpand d size (Some alloc_ok) in
  Ok (if (malloc_failed : bool) then DICT_ERR else DICT_OK, d).

Definition dictShrink d (size : Z) : res (dictStatus * dict K V) :=
  if dictIsRehashing d || (used (ht0 d) >? size) || (DICTHT_SIZE (size_exp (ht0 d)) <=? size)
  then Ok (DICT_ERR, d)
  else let! '(r, d, _) := _dictResize d size None in Ok (r, d).

Definition dictTypeResizeAllowed d (size : Z) : bool :=
  match resizeAllowed with
  | None => true
  | Some f => f (u64 (DICTHT_SIZE (_dictNextExp size) * 8)) (used (ht0 d), DICTHT_SIZE (size_exp (ht0 d)))
  end.

Definition dictExpandIfNeeded d : res (dictStatus * dict K V) :=
  if dictIsRehashing d then Ok (DICT_OK, d)
  else if DICTHT_SIZE (size_exp (ht0 d)) =? 0 then
    let! '(_, d) := dictExpand d DICT_HT_INITIAL_SIZE in Ok (DICT_OK, d)
  else if (bool_decide (dict_can_resize = DICT_RESIZE_ENABLE) &&
           (used (ht0 d) >=? DICTHT_SIZE (size_exp (ht0 d)))) ||
          (negb (bool_decide (dict_can_resize = DICT_RESIZE_FORBID)) &&
           (used (ht0 d) >=? u64 (dict_force_resize_ratio * DICTHT_SIZE (size_exp (ht0 d))))) then
    if dictTypeResizeAllowed d (u64 (used (ht0 d) + 1)) then
      let! '(_, d) := dictExpand d (u64 (used (ht0 d) + 1)) in Ok (DICT_OK, d)
    else Ok (DICT_OK, d)
  else Ok (DICT_ERR, d).

Definition _dictExpandIfNeeded d : res (dictStatus * dict K V) :=
  if pauseAutoResize d >? 0 then Ok (DICT_ERR, d) else dictExpandIfNeeded d.

Definition dictShrinkIfNeeded d : res (dictStatus * dict K V) :=
  if dictIsRehashing d then Ok (DICT_OK, d)
  else if DICTHT_SIZE (size_exp (ht0 d)) <=? DICT_HT_INITIAL_SIZE then Ok (DICT_OK, d)
  else if (bool_decide (dict_can_resize = DICT_RESIZE_ENABLE) &&
           (u64 (used (ht0 d) * HASHTABLE_MIN_FILL) <=? DICTHT_SIZE (size_exp (ht0 d)))) ||
          (negb (bool_decide (dict_can_resize = DICT_RESIZE_FORBID)) &&
           (u64 (used (ht0 d) * HASHTABLE_MIN_FILL * dict_force_resize_ratio) <=? DICTHT_SIZE (size_exp (ht0 d)))) then
    if dictTypeResizeAllowed d (used (ht0 d)) then
      let! '(_, d) := dictShrink d (used (ht0 d)) in Ok (DICT_OK, d)
    else Ok (DICT_OK, d)
  else Ok (DICT_ERR, d).

Definition _dictShrinkIfNeeded d : res (dict K V) :=
  if pauseAutoResize d >? 0 then Ok d else let! '(_, d) := dictShrinkIfNeeded d in Ok d.

(** * Searching *)

(** The position of [key] in a chain. *)
Fixpoint find_chain (key : K) (chain : list (K * V)) : option nat :=
  match chain with
  | [] => None
  | (k, _) :: chain => if keyCompare key k then Some O else S <$> find_chain key chain
  end.

(** One turn of the loop over the tables: the chain of bucket [idx] is searched. *)
Definition search_table d (key : K) (tbl idx : Z) : res (option link) :=
  let! chain := get1 idx (table (get_ht d tbl)) in
  Ok ((fun pos => mkLink tbl idx pos) <$> find_chain key chain).

Definition ht_index d (hash : Z) (tbl : Z) : Z := Z.land hash (DICTHT_SIZE_MASK (size_exp (get_ht d tbl))).

(** The loop of dictFindLinkInternal, dictGenericDelete and dictFindLinkForInsert, which
    differ in the place of the test that ends it: table 0 is passed over when the
    bucket has been rehashed, table 1 is searched while rehashing.  The index that the
    last turn computed is returned as well. *)
Definition search_tables d (hash : Z) (key : K) (idx : Z) : res (option link * Z) :=
  let! '(r, idx) :=
    (if s64 idx <? rehashidx d then Ok (None, idx)
     else
       let idx := ht_index d hash 0 in
       let! r := search_table d key 0 idx in Ok (r, idx)) in
  match r with
  | Some l => Ok (Some l, idx)
  | None =>
      if dictIsRehashing d then
        let idx := ht_index d hash 1 in
        let! r := search_table d key 1 idx in Ok (r, idx)
      else Ok (None, idx)
  end.

(** [bucket] tells whether the caller asks for the bucket; the second component of the
    result is the bucket's table and index. *)
Definition dictFindLinkInternal d (key : K) (bucket : bool) : res (option link * option (Z * Z) * dict K V) :=
  if negb bucket && (dictSize d =? 0) then Ok (None, None, d)
  else
    let hash := dictHashKey key in
    let idx := ht_index d hash 0 in
    let! d := _dictRehashStepIfNeeded d idx in
    let! '(r, idx) := search_tables d hash key idx in
    let last := match r with Some l => l_table l | None => if dictIsRehashing d then 1 else 0 end in
    Ok (r, if bucket then Some (last, idx) else None, d).

Definition dictFindLink d (key : K) (bucket : bool) : res (option link * option (Z * Z) * dict K V) :=
  if dictSize d =? 0 then Ok (None, None, d) else dictFindLinkInternal d key bucket.

(** The entry a link points to. *)
Definition entry_at d (l : link) : res (K * V) :=
  let! chain := get1 (l_idx l) (table (get_ht d (l_table l))) in
  get1 (Z.of_nat (l_pos l)) chain.

Definition dictFind d (key : K) : res (option (K * V) * dict K V) :=
  let! '(r, _, d) := dictFindLink d key false in
  match r with
  | Some l => let! e := entry_at d l in Ok (Some e, d)
  | None => Ok (None, d)
  end.

Definition dictFetchValue d (key : K) : res (option V * dict K V) :=
  let! '(he, d) := dictFind d key in Ok (snd <$> he, d).

(** * Insertion *)

(** [inl existing]: the key is there; [inr (table, idx)]: the bucket to insert in *)
Definition dictFindLinkForInsert d (key : K) : res ((link + (Z * Z)) * dict K V) :=
  let hash := dictHashKey key in
  let idx := ht_index d hash 0 in
  let! d := _dictRehashStepIfNeeded d idx in
  let! '(_, d) := _dictExpandIfNeeded d in
  let! '(r, idx) := search_tables d hash key idx in
  match r with
  | Some l => Ok (inl l, d)
  | None => Ok (inr (if dictIsRehashing d then 1 else 0, idx), d)
  end.

(** The new entry's value is indeterminate until the caller sets it: [junk]. *)
Definition dictInsertKeyAtLink d (junk : V) (key : K) (bucket : Z * Z) : res (link * dict K V) :=
  let htidx := if dictIsRehashing d then 1 else 0 in
  assert! (fst bucket =? htidx) && (0 <=? snd bucket) &&
          (snd bucket <=? DICTHT_SIZE_MASK (size_exp (get_ht d htidx))) in
  let h := get_ht d htidx in
  let! chain := get1 (snd bucket) (table h) in
  let! tbl := set1 (snd bucket) ((key, junk) :: chain) (table h) in
  Ok (mkLink htidx (snd bucket) 0, set_ht d htidx (mkHt tbl (u64 (used h + 1)) (size_exp h))).

(** [inl existing] is NULL with [*existing] set; [inr l] is the new entry *)
Definition dictAddRaw d (junk : V) (key : K) : res ((link + link) * dict K V) :=
  let! '(position, d) := dictFindLinkForInsert d key in
  match position with
  | inl existing => Ok (inl existing, d)
  | inr bucket => let! '(l, d) := dictInsertKeyAtLink d junk key bucket in Ok (inr l, d)
  end.

(** Replace the chain of a bucket. *)
Definition set_chain d (tbl idx : Z) (chain : list (K * V)) : res (dict K V) :=
  let h := get_ht d tbl in
  let! t := set1 idx chain (table h) in
  Ok (set_ht d tbl (mkHt t (used h) (size_exp h))).

Definition dictSetVal d (l : link) (val : V) : res (dict K V) :=
  let! chain := get1 (l_idx l) (table (get_ht d (l_table l))) in
  let! '(key, _) := get1 (Z.of_nat (l_pos l)) chain in
  let! chain := set1 (Z.of_nat (l_pos l)) (key, val) chain in
  set_chain d (l_table l) (l_idx l) chain.

Definition dictAdd d (junk : V) (key : K) (val : V) : res (dictStatus * dict K V) :=
  let! '(entry, d) := dictAddRaw d junk key in
  match entry with
  | inl _ => Ok (DICT_ERR, d)
  | inr l => let! d := dictSetVal d l val in Ok (DICT_OK, d)
  end.

(** 1 when the key was added, 0 when its value was replaced *)
Definition dictReplace d (junk : V) (key : K) (val : V) : res (Z * dict K V) :=
  let! '(entry, d) := dictAddRaw d junk key in
  match entry with
  | inr l => let! d := dictSetVal d l val in Ok (1, d)
  | inl existing =>
      let! _ := entry_at d existing in
      let! d := dictSetVal d existing val in Ok (0, d)
  end.

Definition dictAddOrFind d (junk : V) (key : K) : res (link * dict K V) :=
  let! '(entry, d) := dictAddRaw d junk key in
  match entry with inl existing => Ok (existing, d) | inr l => Ok (l, d) end.

(** * Deletion *)

(** Take the entry of a link out of its chain. *)
Definition unlink_at d (l : link) : res ((K * V) * dict K V) :=
  let! chain := get1 (l_idx l) (table (get_ht d (l_table l))) in
  let! he := get1 (Z.of_nat (l_pos l)) chain in
  let! d := set_chain d (l_table l) (l_idx l) (take (l_pos l) chain ++ drop (S (l_pos l)) chain) in
  let h := get_ht d (l_table l) in
  Ok (he, set_ht d (l_table l) (mkHt (table h) (u64 (used h - 1)) (size_exp h))).

Definition dictGenericDelete d (key : K) : res (option (K * V) * dict K V) :=
  if dictSize d =? 0 then Ok (None, d)
  else
    let h := dictHashKey key in
    let idx := ht_index d h 0 in
    let! d := _dictRehashStepIfNeeded d idx in
    let! '(r, _) := search_tables d h key idx in
    match r with
    | Some l =>
        let! '(he, d) := unlink_at d l in
        let! d := _dictShrinkIfNeeded d in
        Ok (Some he, d)
    | None => Ok (None, d)
    end.

Definition dictDelete d (key : K) : res (dictStatus * dict K V) :=
  let! '(he, d) := dictGenericDelete d key in
  Ok (match he with Some _ => DICT_OK | None => DICT_ERR end, d).

Definition dictUnlink d (key : K) : res (option (K * V) * dict K V) := dictGenericDelete d key.

(** pauses rehashing when it finds the key *)
Definition dictTwoPhaseUnlinkFind d (key : K) : res (option link * dict K V) :=
  if dictSize d =? 0 then Ok (None, d)
  else
    let! d := (if dictIsRehashing d then _dictRehashStep d else Ok d) in
    let h := dictHashKey key in
    let! '(r, _) := search_tables d h key (ht_index d h 0) in
    match r with
    | Some l => Ok (Some l, set_pauserehash d (u32 (pauserehash d + 1)))
    | None => Ok (None, d)
    end.

Definition dictTwoPhaseUnlinkFree d (plink : option link) : res (dict K V) :=
  match plink with
  | None => Ok d
  | Some l =>
      let! '(_, d) := unlink_at d l in
      let! d := _dictShrinkIfNeeded d in
      Ok (set_pauserehash d (u32 (pauserehash d - 1)))
  end.

(** freeing every chain, until [used] reaches 0 or the table ends *)
Fixpoint dictClear_loop (buckets : list (list (K * V))) (n : Z) : Z :=
  match buckets with
  | [] => n
  | b :: buckets => if n >? 0 then dictClear_loop buckets (u64 (n - zlength b)) else n
  end.

(** what is freed is not observable; [_dictClear] never fails *)
Definition _dictClear d (htidx : Z) : dict K V :=
  let h := get_ht d htidx in
  let d := set_ht d htidx (mkHt (table h) (dictClear_loop (table h) (used h)) (size_exp h)) in
  _dictReset d htidx.

Definition dictEmpty d : dict K V :=
  let d := if dictIsRehashing d then notify d (RehashingCompleted (fst (dictRehashingInfo d))) else d in
  let d := notify d (BucketChanged (- dictBuckets d)) in
  let d := _dictClear d 0 in
  let d := _dictClear d 1 in
  mkDict (ht0 d) (ht1 d) (-1) 0 0 (events d).

(** The notifications of a dict that is freed. *)
Definition dictRelease d : list dictEvent :=
  let d := if dictIsRehashing d then notify d (RehashingCompleted (fst (dictRehashingInfo d))) else d in
  events (notify d (BucketChanged (- dictBuckets d))).
End Dict.
