(* ===== verification/DictInv.v ===== *)
(** Hash tables, the invariant: what a dict of src/redis-stable/src/dict.c must satisfy
    between two calls, and its preservation by rehashing and resizing, which never
    change the set of entries. *)

From stdpp Require Import gmap.
From S2P Require Import Prelude Machine Dict.

(** * Tables *)

Lemma size_exp_pow e : 0 <= e <= 60 -> DICTHT_SIZE e = 2 ^ e.
Proof.
  intros He. unfold DICTHT_SIZE. zif. rewrite Z.shiftl_1_l, u_id; [done|].
  split; [lia|]. apply Z.pow_lt_mono_r; lia.
Qed.

Lemma size_mask_pow e : 0 <= e <= 60 -> DICTHT_SIZE_MASK e = Z.ones e.
Proof.
  intros He. unfold DICTHT_SIZE_MASK. rewrite size_exp_pow, Z.ones_equiv by done. zif.
  rewrite u_id; [lia|]. pose proof (Z.pow_lt_mono_r 2 e 64 ltac:(lia) ltac:(lia) ltac:(lia)). lia.
Qed.

Lemma mask_mod h e : 0 <= e <= 60 -> Z.land h (DICTHT_SIZE_MASK e) = h mod 2 ^ e.
Proof. intros He. rewrite size_mask_pow by done. apply Z.land_ones. lia. Qed.

Lemma pow_range e : 2 <= e <= 60 -> 4 <= 2 ^ e <= 2 ^ 60.
Proof.
  intros He. pose proof (Z.pow_le_mono_r 2 2 e ltac:(lia) ltac:(lia)).
  pose proof (Z.pow_le_mono_r 2 e 60 ltac:(lia) ltac:(lia)). lia.
Qed.

Lemma concat_split {A} (t : list (list A)) i c :
  t !! i = Some c ->
  exists rest, concat t ≡ₚ c ++ rest /\ forall c', concat (<[i := c']> t) ≡ₚ c' ++ rest.
Proof.
  intros Hi. exists (concat (take i t) ++ concat (drop (S i) t)). pose proof (lookup_lt_Some _ _ _ Hi). split.
  - rewrite <- (take_drop_middle t i c Hi) at 1. rewrite concat_app. simpl. by rewrite !(assoc_L (++)), (comm (++) c).
  - intros c'. rewrite insert_take_drop by done. rewrite concat_app. simpl.
    by rewrite !(assoc_L (++)), (comm (++) c').
Qed.

Lemma concat_In {A} (t : list (list A)) x : x ∈ concat t <-> exists i c, t !! i = Some c /\ x ∈ c.
Proof.
  rewrite list_elem_of_In, in_concat. split.
  - intros (c & Hc & Hx). apply list_elem_of_In in Hc, Hx. apply list_elem_of_lookup in Hc as [i Hi]. by exists i, c.
  - intros (i & c & Hi & Hx). exists c. rewrite <- !list_elem_of_In. split; [by eapply list_elem_of_lookup_2|done].
Qed.

Section Inv.
Context {K V : Type} `{Countable K}.
Context (hashFunction : K -> Z).
Implicit Types (d : dict K V) (h : ht K V).

(** An allocated table: a power of two of buckets, its entries counted, every key in
    the bucket its hash selects. *)
Record ht_alloc h : Prop := {
  ha_exp : 2 <= size_exp h <= 60;
  ha_len : zlength (table h) = 2 ^ size_exp h;
  ha_used : used h = zlength (concat (table h));
  ha_placed : forall i c k v, table h !! i = Some c -> (k, v) ∈ c -> Z.of_nat i = hashFunction k mod 2 ^ size_exp h
}.

Definition ht_ok h : Prop := h = ht_reset \/ ht_alloc h.

Definition entries d : list (K * V) := concat (table (ht0 d)) ++ concat (table (ht1 d)).

(** The bucketChanged notifications received so far. *)
Definition bucket_sum (evs : list dictEvent) : Z :=
  foldr (fun e n => match e with BucketChanged delta => delta + n | _ => n end) 0 evs.

(** The rehashing notifications alternate, and the second of a pair names the table size
    that the first did: the state between two calls is that of a rehash in progress with
    the size of its first table, or none. *)
Definition rehash_event (st : option (option Z)) (e : dictEvent) : option (option Z) :=
  match st, e with
  | Some None, RehashingStarted from => Some (Some from)
  | Some (Some from), RehashingCompleted from' => if from =? from' then Some None else None
  | Some st, BucketChanged _ => Some st
  | _, _ => None
  end.
Definition rehash_log (evs : list dictEvent) : option (option Z) := foldl rehash_event (Some None) evs.

Definition rehash_state d : option Z :=
  if dictIsRehashing d then Some (DICTHT_SIZE (size_exp (ht0 d))) else None.

Record dict_ok d : Prop := {
  ok_ht0 : ht_ok (ht0 d);
  ok_ht1 : ht_ok (ht1 d);
  ok_nodup : NoDup (entries d).*1;
  ok_idle : rehashidx d = -1 -> ht1 d = ht_reset;
  ok_rehash : rehashidx d <> -1 ->
    ht_alloc (ht0 d) /\ ht_alloc (ht1 d) /\ 0 <= rehashidx d <= 2 ^ size_exp (ht0 d) /\
    forall i, Z.of_nat i < rehashidx d -> table (ht0 d) !! i = Some [];
  ok_small : zlength (entries d) < 2 ^ 58;
  ok_events : bucket_sum (events d) = DICTHT_SIZE (size_exp (ht0 d)) + DICTHT_SIZE (size_exp (ht1 d)) /\
    rehash_log (events d) = Some (rehash_state d)
}.

(** What an operation that only moves entries keeps. *)
Record moved d d' : Prop := {
  mv_ok : dict_ok d';
  mv_entries : entries d' ≡ₚ entries d;
  mv_pause : pauserehash d' = pauserehash d;
  mv_auto : pauseAutoResize d' = pauseAutoResize d;
  mv_alloc : ht_alloc (ht0 d) -> ht_alloc (ht0 d')
}.

Lemma bucket_sum_app e1 e2 : bucket_sum (e1 ++ e2) = bucket_sum e1 + bucket_sum e2.
Proof. induction e1 as [|[x|x|x] e1 IH]; simpl; lia. Qed.

Lemma rehash_log_snoc evs e : rehash_log (evs ++ [e]) = rehash_event (rehash_log evs) e.
Proof. unfold rehash_log. by rewrite foldl_app. Qed.

Lemma ht_ok_used h : ht_ok h -> used h = zlength (concat (table h)).
Proof. intros [->|Ha]; [done|apply Ha]. Qed.

Lemma ht_ok_size h : ht_ok h -> DICTHT_SIZE (size_exp h) = zlength (table h) /\ 0 <= DICTHT_SIZE (size_exp h) <= 2 ^ 60.
Proof.
  intros [->|[He Hl _ _]]; [done|]. rewrite size_exp_pow by lia. split; [done|]. pose proof (pow_range _ He). lia.
Qed.

Lemma dict_entries_length d : dict_ok d -> zlength (entries d) = used (ht0 d) + used (ht1 d).
Proof.
  intros [H0 H1 _ _ _ _ _]. unfold entries. rewrite length_app, (ht_ok_used _ H0), (ht_ok_used _ H1). lia.
Qed.

Lemma used_range d : dict_ok d -> 0 <= used (ht0 d) < 2 ^ 58 /\ 0 <= used (ht1 d) < 2 ^ 58 /\ used (ht0 d) + used (ht1 d) < 2 ^ 58.
Proof.
  intros Hd. pose proof (dict_entries_length d Hd). pose proof (ok_small d Hd).
  pose proof (ht_ok_used _ (ok_ht0 d Hd)). pose proof (ht_ok_used _ (ok_ht1 d Hd)). lia.
Qed.

(** Putting an entry at the head of its bucket. *)
Lemma alloc_push h k v i c :
  ht_alloc h -> i = hashFunction k mod 2 ^ size_exp h -> used h < 2 ^ 60 ->
  get1 i (table h) = Ok c ->
  exists t, set1 i ((k, v) :: c) (table h) = Ok t /\
    ht_alloc (mkHt t (u64 (used h + 1)) (size_exp h)) /\ concat t ≡ₚ (k, v) :: concat (table h).
Proof.
  intros [He Hl Hu Hp] Hi Hsm Hg. apply get1_Ok in Hg as [Hi0 Hg]. pose proof (lookup_lt_Some _ _ _ Hg) as Hlt.
  rewrite set1_insert by lia. eexists. split; [done|].
  destruct (concat_split _ _ _ Hg) as (rest & Hr & Hins).
  assert (concat (<[Z.to_nat i:=(k, v) :: c]> (table h)) ≡ₚ (k, v) :: concat (table h)) as Hperm
    by (rewrite (Hins ((k, v) :: c)), Hr; done).
  split; [|done]. split; simpl; [done|by rewrite length_insert|rewrite Hperm|].
  - cbn [length]. rewrite u_id by lia. lia.
  - intros j c' k' v' Hj Hin. apply list_lookup_insert_Some in Hj as [(<- & <- & _)|[_ Hj]]; [|by eapply Hp].
    rewrite Z2Nat.id by lia. apply elem_of_cons in Hin as [[= -> ->]|Hin]; [done|].
    rewrite <- (Hp _ _ _ _ Hg Hin). lia.
Qed.

(** ** Moving a chain *)

Lemma hash_index d k idx :
  2 <= size_exp (ht0 d) <= 60 -> 2 <= size_exp (ht1 d) <= 60 -> idx = hashFunction k mod 2 ^ size_exp (ht0 d) ->
  (if size_exp (ht1 d) >? size_exp (ht0 d)
   then Z.land (dictHashKey hashFunction k) (DICTHT_SIZE_MASK (size_exp (ht1 d)))
   else Z.land idx (DICTHT_SIZE_MASK (size_exp (ht1 d)))) = hashFunction k mod 2 ^ size_exp (ht1 d).
Proof.
  intros He0 He1 ->. rewrite !mask_mod by lia. unfold dictHashKey. rewrite Z.gtb_ltb. zbool; [done|].
  replace (size_exp (ht0 d)) with (size_exp (ht1 d) + (size_exp (ht0 d) - size_exp (ht1 d))) by lia.
  rewrite Z.pow_add_r by lia. rewrite Z.rem_mul_r by lia. rewrite Z.mul_comm, Z.mod_add by lia.
  apply Z.mod_mod. lia.
Qed.

Lemma alloc_get h i : ht_alloc h -> 0 <= i < 2 ^ size_exp h -> exists c, get1 i (table h) = Ok c.
Proof. intros [_ Hl _ _] Hi. apply get1_in. lia. Qed.

Lemma rehash_chain_spec idx : forall chain d,
  2 <= size_exp (ht0 d) <= 60 -> ht_alloc (ht1 d) -> used (ht1 d) + zlength chain < 2 ^ 60 ->
  zlength chain <= used (ht0 d) < 2 ^ 60 ->
  (forall k v, (k, v) ∈ chain -> idx = hashFunction k mod 2 ^ size_exp (ht0 d)) ->
  exists t1, let h1 := mkHt t1 (used (ht1 d) + zlength chain) (size_exp (ht1 d)) in
    let h0 := mkHt (table (ht0 d)) (used (ht0 d) - zlength chain) (size_exp (ht0 d)) in
    rehash_chain hashFunction chain idx d =
      Ok (mkDict h0 h1 (rehashidx d) (pauserehash d) (pauseAutoResize d) (events d)) /\
    ht_alloc h1 /\ concat t1 ≡ₚ chain ++ concat (table (ht1 d)).
Proof.
  induction chain as [|[k v] chain IH]; intros d He0 Ha1 Hs1 Hs0 Hidx.
  - exists (table (ht1 d)). cbn [length]. rewrite !Z.add_0_r, !Z.sub_0_r. destruct d as [[] [] ? ? ? ?]; simpl in *.
    split_and!; [done|done|done].
  - cbn [length] in *. cbn [rehash_chain]. pose proof (ha_exp _ Ha1) as He1.
    rewrite hash_index by (done || (eapply Hidx, elem_of_cons; by left)).
    destruct (alloc_get (ht1 d) (hashFunction k mod 2 ^ size_exp (ht1 d)) Ha1) as [c Hc];
      [apply Z.mod_pos_bound; lia|]. rewrite Hc.
    destruct (alloc_push (ht1 d) k v _ c Ha1 eq_refl ltac:(lia) Hc) as (t & -> & Ha & Hp).
    pose proof (ha_used _ Ha1). rewrite u_id in Ha by lia. rewrite !u_id by lia.
    set (d2 := set_ht _ 0 _). specialize (IH d2).
    destruct IH as (t1 & Hr & Ha' & Hp'); [done|done|unfold d2; simpl; lia..| |].
    { intros k' v' Hin. apply (Hidx k' v'), elem_of_cons. by right. }
    exists t1. unfold d2 in *. simpl in *. split_and!.
    + rewrite Hr. do 3 f_equal; lia.
    + replace (used (ht1 d) + Z.of_nat (S (length chain))) with (used (ht1 d) + 1 + zlength chain) by lia. done.
    + rewrite Hp', Hp. symmetry. apply Permutation_middle.
Qed.

Lemma entries_perm t0 t0' t1 t1' (c : list (K * V)) rest :
  concat t0 ≡ₚ c ++ rest -> concat t0' ≡ₚ rest -> concat t1' ≡ₚ c ++ concat t1 ->
  concat t0' ++ concat t1' ≡ₚ concat t0 ++ concat t1.
Proof. intros -> -> ->. rewrite !(assoc_L (++)). by rewrite (comm (++) rest c). Qed.

Lemma rehash_bucket_spec d idx :
  dict_ok d -> rehashidx d <> -1 -> 0 <= idx < 2 ^ size_exp (ht0 d) ->
  exists d', rehashEntriesInBucketAtIndex hashFunction d idx = Ok d' /\ moved d d' /\
    rehashidx d' = rehashidx d /\ table (ht0 d') = <[Z.to_nat idx := []]> (table (ht0 d)) /\
    size_exp (ht0 d') = size_exp (ht0 d) /\ size_exp (ht1 d') = size_exp (ht1 d).
Proof.
  intros Hd Hre Hidx. pose proof Hd as [H0 H1 Hnd _ Hr Hsm Hev]. destruct (Hr Hre) as (Ha0 & Ha1 & Hri & Hempty).
  pose proof Ha0 as [He0 Hl0 Hu0 Hp0]. unfold rehashEntriesInBucketAtIndex.
  destruct (alloc_get (ht0 d) idx Ha0 Hidx) as [c Hc]. rewrite Hc. apply get1_Ok in Hc as [_ Hc].
  destruct (concat_split _ _ _ Hc) as (rest & Hrest & Hins).
  assert (zlength c <= used (ht0 d)) as Hcl by (rewrite Hu0, Hrest, length_app; lia).
  pose proof (used_range d Hd) as (Hur0 & Hur1 & Hur).
  destruct (rehash_chain_spec idx c d He0 Ha1) as (t1 & Hch & Ha1' & Hp1); [lia..| |].
  { intros k v Hin. rewrite <- (Hp0 _ _ _ _ Hc Hin). lia. }
  cbn zeta in *. rewrite Hch. cbn [ht0 table]. rewrite set1_insert by lia. eexists. split; [done|].
  assert (concat (<[Z.to_nat idx:=[]]> (table (ht0 d))) ≡ₚ rest) as Hp0' by apply (Hins []).
  assert (ht_alloc (mkHt (<[Z.to_nat idx:=[]]> (table (ht0 d))) (used (ht0 d) - zlength c) (size_exp (ht0 d)))) as Ha0'.
  { split; simpl; [done|by rewrite length_insert| |].
    - rewrite Hp0', Hu0, Hrest, length_app. lia.
    - intros j c' k v Hj Hin. apply list_lookup_insert_Some in Hj as [(<- & <- & _)|[_ Hj]];
        [by apply elem_of_nil in Hin|by eapply Hp0]. }
  assert (concat (<[Z.to_nat idx:=[]]> (table (ht0 d))) ++ concat t1 ≡ₚ entries d) as Hperm
    by (eapply entries_perm; [exact Hrest|exact Hp0'|exact Hp1]).
  split_and!; try done. split; [|done..]. split; simpl.
  - by right.
  - by right.
  - unfold entries. simpl. by rewrite Hperm.
  - done.
  - intros _. split_and!; [done..|lia|lia|]. intros i Hi. destruct (decide (i = Z.to_nat idx)) as [->|Hne].
    + apply list_lookup_insert_eq. lia.
    + rewrite list_lookup_insert_ne by done. by apply Hempty.
  - unfold entries. simpl. by rewrite Hperm.
  - done.
Qed.

Lemma moved_refl d : dict_ok d -> moved d d.
Proof. by split. Qed.

Lemma moved_trans d1 d2 d3 : moved d1 d2 -> moved d2 d3 -> moved d1 d3.
Proof. intros [_ He Hp Ha Hal] [Ho He' Hp' Ha' Hal']. split; [done|by rewrite He', He|congruence|congruence|auto]. Qed.

(** ** Completion *)

Lemma check_completed_spec d :
  dict_ok d -> rehashidx d <> -1 ->
  exists b d', dictCheckRehashingCompleted d = (b, d') /\ moved d d' /\
    (b = true <-> used (ht0 d) = 0) /\ (b = true -> rehashidx d' = -1) /\ (b = false -> d' = d).
Proof.
  intros Hd Hre. unfold dictCheckRehashingCompleted. destruct (Z.eqb_spec (used (ht0 d)) 0) as [Hz|Hz]; cbn [negb].
  2: { exists false, d. split_and!; [done|by apply moved_refl|split; [done|lia]|done..]. }
  pose proof Hd as [H0 H1 Hnd _ Hr Hsm Hev]. destruct (Hr Hre) as (Ha0 & Ha1 & _).
  assert (concat (table (ht0 d)) = []) as Hnil by (apply length_zero_iff_nil; pose proof (ha_used _ Ha0); lia).
  assert (forall d', ht0 d' = ht1 d -> ht1 d' = ht_reset -> entries d' = entries d) as Hent.
  { intros d' E0 E1. unfold entries. rewrite E0, E1, Hnil. simpl. by rewrite app_nil_r. }
  eexists true, _. split; [done|]. split_and!; [|done..]. split; [|by rewrite Hent|done..].
  split; simpl; [by right|by left|by rewrite Hent|done|done|by rewrite Hent|].
  destruct Hev as [Hev Hlog]. rewrite !bucket_sum_app, !rehash_log_snoc, Hev, Hlog. unfold rehash_state, dictIsRehashing.
  rewrite (proj2 (Z.eqb_neq _ _) Hre). simpl. rewrite Z.eqb_refl. change (DICTHT_SIZE (-1)) with 0. split; [lia|done].
Qed.

(** ** Rehash steps *)

Lemma set_rehashidx_ok d r :
  dict_ok d -> rehashidx d <> -1 -> 0 <= r <= 2 ^ size_exp (ht0 d) ->
  (forall i, Z.of_nat i < r -> table (ht0 d) !! i = Some []) -> moved d (set_rehashidx d r).
Proof.
  intros [H0 H1 Hnd _ Hr Hsm Hev] Hre Hrr Hemp. destruct (Hr Hre) as (Ha0 & Ha1 & _).
  split; [|done..]. split; simpl; try done; [lia|]. destruct Hev as [Hev ->]. split; [done|].
  unfold rehash_state, dictIsRehashing. simpl. by rewrite !(proj2 (Z.eqb_neq _ _)) by lia.
Qed.

Lemma set_rehashidx_id d : set_rehashidx d (rehashidx d) = d.
Proof. by destruct d. Qed.

(** The scan for a non-empty bucket ends before the known one at [i]. *)
Lemma skip_empty_spec fuel : forall d ev i c,
  dict_ok d -> rehashidx d <> -1 -> table (ht0 d) !! i = Some c -> c <> [] ->
  rehashidx d <= Z.of_nat i -> Z.of_nat i - rehashidx d <= Z.of_nat fuel ->
  exists go r ev', skip_empty fuel d ev = Ok (go, set_rehashidx d r, ev') /\ moved d (set_rehashidx d r) /\
    rehashidx d <= r <= Z.of_nat i /\ (go = false -> rehashidx d < r).
Proof.
  induction fuel as [|fuel IH]; intros d ev i c Hd Hre Hi Hc Hle Hf;
    pose proof (ok_rehash d Hd Hre) as (Ha0 & Ha1 & Hr & Hemp); pose proof (lookup_lt_Some _ _ _ Hi) as Hlt;
    pose proof (ha_len _ Ha0) as Hl;
    destruct (alloc_get (ht0 d) (rehashidx d) Ha0) as [b Hb]; [lia| |lia|]; cbn [skip_empty]; rewrite Hb;
    apply get1_Ok in Hb as [_ Hb];
    (destruct b as [|x b]; [|exists true, (rehashidx d), ev; rewrite set_rehashidx_id; split_and!;
       [done|by apply moved_refl|lia|lia|done]]).
  - replace (Z.to_nat (rehashidx d)) with i in Hb by lia. congruence.
  - assert (rehashidx d <> Z.of_nat i) as Hne by (intros E; rewrite E, Nat2Z.id in Hb; congruence).
    assert (moved d (set_rehashidx d (rehashidx d + 1))) as Hm.
    { apply set_rehashidx_ok; [done..|lia|]. intros j Hj. destruct (decide (Z.of_nat j = rehashidx d)) as [E|E].
      - by rewrite <- E, Nat2Z.id in Hb.
      - apply Hemp. lia. }
    destruct (ev - 1 =? 0).
    { exists false, (rehashidx d + 1), (ev - 1). split_and!; [done..|lia|lia|lia]. }
    destruct (IH (set_rehashidx d (rehashidx d + 1)) (ev - 1) i c) as (go & r & ev' & Hs & Hm' & Hr' & Hgo);
      [apply Hm|simpl; lia|done|done|simpl; lia..|].
    exists go, r, ev'. simpl in *. split_and!; [done|by eapply moved_trans|lia|lia|lia].
Qed.

Lemma used_nonempty h : ht_alloc h -> used h <> 0 -> exists i c, table h !! i = Some c /\ c <> [].
Proof.
  intros [_ _ Hu _] Hn. destruct (concat (table h)) as [|x l] eqn:E; [simpl in Hu; lia|].
  assert (x ∈ concat (table h)) as Hx by (rewrite E; apply elem_of_cons; by left).
  apply concat_In in Hx as (i & c & Hi & Hx). exists i, c. split; [done|]. intros ->. by apply elem_of_nil in Hx.
Qed.

Lemma rehash_loop_spec n : forall d ev,
  dict_ok d -> rehashidx d <> -1 ->
  exists go d', dictRehash_loop hashFunction n d ev = Ok (go, d') /\ moved d d' /\
    rehashidx d <= rehashidx d' /\ size_exp (ht0 d') = size_exp (ht0 d) /\ size_exp (ht1 d') = size_exp (ht1 d) /\
    (rehashidx d < rehashidx d' \/ n = O \/ used (ht0 d') = 0 /\ go = true).
Proof.
  induction n as [|n IH]; intros d ev Hd Hre; cbn [dictRehash_loop].
  { exists true, d. split_and!; [done|by apply moved_refl|lia|done|done|by right; left]. }
  destruct (Z.eqb_spec (used (ht0 d)) 0).
  { exists true, d. split_and!; [done|by apply moved_refl|lia|done|done|by right; right]. }
  pose proof (ok_rehash d Hd Hre) as (Ha0 & Ha1 & Hr & Hemp). pose proof (ha_len _ Ha0) as Hl.
  destruct (used_nonempty (ht0 d) Ha0) as (i & c & Hi & Hc); [done|]. pose proof (lookup_lt_Some _ _ _ Hi) as Hlt.
  assert (rehashidx d <= Z.of_nat i) as Hle.
  { destruct (Z.le_gt_cases (rehashidx d) (Z.of_nat i)); [done|]. rewrite Hemp in Hi by lia. congruence. }
  pose proof (ha_exp _ Ha0) as He. pose proof (pow_range _ He). rewrite size_exp_pow by lia.
  rewrite u_id, Z.gtb_ltb by lia. zif.
  destruct (skip_empty_spec (length (table (ht0 d))) d ev i c) as (go & r & ev' & -> & Hm & Hr' & Hgo); [done..|lia|].
  destruct go; cbn [negb]; [|exists false, (set_rehashidx d r); split_and!; [done|done|simpl; lia|done|done|left; simpl; auto]].
  destruct (rehash_bucket_spec (set_rehashidx d r) r) as (d2 & Hrb & Hm2 & Hri2 & Ht2 & He2 & He21); [apply Hm|simpl; lia|simpl; lia|].
  cbn [rehashidx set_rehashidx] in *. rewrite Hrb.
  assert (moved d2 (set_rehashidx d2 (rehashidx d2 + 1))) as Hm3.
  { apply set_rehashidx_ok; [apply Hm2|lia|rewrite He2; simpl; lia|]. intros j Hj. rewrite Ht2. simpl.
    destruct (decide (j = Z.to_nat r)) as [->|Hne]; [apply list_lookup_insert_eq; lia|].
    rewrite list_lookup_insert_ne by done. destruct (ok_rehash _ (mv_ok _ _ Hm)) as (_ & _ & _ & Hemp2); [simpl; lia|].
    apply Hemp2. simpl in *. lia. }
  destruct (IH (set_rehashidx d2 (rehashidx d2 + 1)) ev') as (go & d' & -> & Hm' & Hn' & He' & He1' & _);
    [apply Hm3|simpl; lia|].
  exists go, d'. simpl in *. split_and!; [done| |lia|congruence|congruence|left; lia]. eapply moved_trans; [|done]. eapply moved_trans; [|done]. by eapply moved_trans.
Qed.

Section Steps.
Context (dict_can_resize : dictResizeEnable).

(** The settings make dictRehash do nothing. *)
Definition stuck d : bool := bool_decide (dict_can_resize = DICT_RESIZE_FORBID) || rehash_avoided dict_can_resize d.

Lemma dictRehash_spec d n :
  dict_ok d -> 0 <= n ->
  exists more d', dictRehash hashFunction dict_can_resize d n = Ok (more, d') /\ moved d d' /\
    (rehashidx d = -1 -> d' = d) /\
    (more = true -> 0 < n -> rehashidx d' <> -1 /\ rehashidx d < rehashidx d' /\ size_exp (ht0 d') = size_exp (ht0 d) /\
       stuck d = false /\ stuck d' = false) /\
    (more = false -> rehashidx d' = -1 \/ (d' = d /\ stuck d = true)) /\
    (rehashidx d' <> -1 -> size_exp (ht0 d') = size_exp (ht0 d)).
Proof.
  intros Hd Hn. unfold dictRehash, dictIsRehashing, stuck.
  destruct (Z.eqb_spec (rehashidx d) (-1)) as [E|E]; cbn [negb];
    (destruct (bool_decide _); cbn [orb]; [exists false, d; split_and!; [done|by apply moved_refl|done|done|auto|done]|]);
    [exists false, d; split_and!; [done|by apply moved_refl|done|done|auto|done]|].
  destruct (rehash_avoided dict_can_resize d) eqn:Eav; [exists false, d; split_and!; [done|by apply moved_refl|done|done|auto|done]|].
  destruct (rehash_loop_spec (Z.to_nat n) d (n * 10) Hd E) as (go & d' & -> & Hm & Hle & Hexp & Hexp1 & Hprog).
  pose proof (ok_rehash d Hd E) as (_ & _ & Hr & _). assert (rehashidx d' <> -1) as E' by lia.
  assert (rehash_avoided dict_can_resize d' = false) as Eav' by (unfold rehash_avoided in *; by rewrite Hexp, Hexp1).
  destruct go; cbn [negb].
  - destruct (check_completed_spec d' (mv_ok _ _ Hm) E') as (b & d2 & -> & Hm2 & Hb & Hbt & Hbf).
    exists (negb b), d2. split_and!; [done|by eapply moved_trans|done| | |].
    + destruct b; [done|]. rewrite Hbf by done. intros _ Hn'. split_and!; [done| |done..].
      destruct Hprog as [|[|[Hz _]]]; [done|lia|]. apply Hb in Hz. done.
    + destruct b; [|done]. intros _. left. by apply Hbt.
    + destruct b; [by rewrite Hbt|]. by rewrite Hbf.
  - exists true, d'. split_and!; [done..| |done|done]. intros _ Hn'. split_and!; [done| |done..].
    destruct Hprog as [|[|[_ ?]]]; [done|lia|done].
Qed.

(** A forced full rehash terminates: every round moves [rehashidx] on. *)
Lemma rehash_all_spec fuel : forall d,
  dict_ok d -> 2 ^ size_exp (ht0 d) - rehashidx d < Z.of_nat fuel ->
  exists d', dictRehash_all hashFunction dict_can_resize fuel d = Ok d' /\ moved d d' /\
    (rehashidx d' = -1 \/ (d' = d /\ stuck d = true)).
Proof.
  induction fuel as [|fuel IH]; intros d Hd Hf.
  { destruct (Z.eq_dec (rehashidx d) (-1)) as [E|E].
    - pose proof (Z.pow_nonneg 2 (size_exp (ht0 d)) ltac:(lia)). lia.
    - destruct (ok_rehash d Hd E) as (_ & _ & ? & _). lia. }
  cbn [dictRehash_all]. destruct (dictRehash_spec d 1000 Hd ltac:(lia)) as (more & d' & -> & Hm & _ & Hmore & Hstop & _).
  destruct more; [|exists d'; split_and!; [done..|by apply Hstop]].
  destruct (Hmore eq_refl ltac:(lia)) as (Hr & Hlt & Hexp & Hs & Hs').
  destruct (IH d') as (d2 & -> & Hm2 & Hx2); [apply Hm|rewrite Hexp; lia|]. exists d2.
  split_and!; [done|by eapply moved_trans|]. destruct Hx2 as [|[_ ?]]; [by left|congruence].
Qed.

Lemma rehashStep_spec d :
  dict_ok d -> exists d', _dictRehashStep hashFunction dict_can_resize d = Ok d' /\ moved d d' /\
    (rehashidx d' <> -1 -> size_exp (ht0 d') = size_exp (ht0 d)).
Proof.
  intros Hd. unfold _dictRehashStep. destruct (_ =? _); [|exists d; split_and!; [done|by apply moved_refl|done]].
  destruct (dictRehash_spec d 1 Hd ltac:(lia)) as (more & d' & -> & Hm & _ & _ & _ & Hx). by exists d'.
Qed.

Lemma bucketRehash_spec d idx :
  dict_ok d -> (rehashidx d <> -1 -> 0 <= idx < 2 ^ size_exp (ht0 d)) ->
  exists r d', _dictBucketRehash hashFunction dict_can_resize d idx = Ok (r, d') /\ moved d d' /\
    (rehashidx d' <> -1 -> size_exp (ht0 d') = size_exp (ht0 d)).
Proof.
  intros Hd Hi. unfold _dictBucketRehash, dictIsRehashing.
  destruct (negb _); [exists 0, d; split_and!; [done|by apply moved_refl|done]|].
  destruct (Z.eqb_spec (rehashidx d) (-1)) as [E|E]; cbn [negb];
    (destruct (bool_decide _); cbn [orb]; [exists 0, d; split_and!; [done|by apply moved_refl|done..]|]);
    [exists 0, d; split_and!; [done|by apply moved_refl|done..]|].
  destruct (rehash_avoided _ _); [exists 0, d; split_and!; [done|by apply moved_refl|done..]|].
  destruct (rehash_bucket_spec d idx Hd E (Hi E)) as (d1 & -> & Hm & Hri & _ & He & _).
  destruct (check_completed_spec d1) as (b & d2 & -> & Hm2 & _ & Hbt & Hbf); [apply Hm|congruence|].
  exists 1, d2. split_and!; [done|by eapply moved_trans|]. destruct b; [by rewrite Hbt|]. by rewrite Hbf.
Qed.

Lemma rehashStepIfNeeded_spec d idx :
  dict_ok d -> (rehashidx d <> -1 -> 0 <= idx < 2 ^ size_exp (ht0 d)) ->
  exists d', _dictRehashStepIfNeeded hashFunction dict_can_resize d idx = Ok d' /\ moved d d' /\
    (rehashidx d = -1 -> d' = d) /\ (rehashidx d' <> -1 -> size_exp (ht0 d') = size_exp (ht0 d)).
Proof.
  intros Hd Hi. unfold _dictRehashStepIfNeeded, dictIsRehashing.
  destruct (Z.eqb_spec (rehashidx d) (-1)) as [E|E]; cbn [negb orb]; [exists d; split_and!; [done|by apply moved_refl|done..]|].
  destruct (negb _); [exists d; split_and!; [done|by apply moved_refl|done..]|].
  destruct (dictRehash_spec d 1 Hd ltac:(lia)) as (more & d1 & H1 & Hm1 & _ & _ & _ & Hx1).
  destruct (bucketRehash_spec d idx Hd Hi) as (r & d2 & H2 & Hm2 & Hx2).
  rewrite H1, H2. destruct (ok_rehash d Hd E) as (Ha0 & _).
  destruct (alloc_get (ht0 d) idx Ha0 (Hi E)) as [b ->].
  destruct (_ >=? _); [|by exists d1]. destruct b; [by exists d1|by exists d2].
Qed.

(** ** Resizing *)

Lemma nextExp_range size : 0 <= size -> 2 <= _dictNextExp size <= 63.
Proof.
  intros Hs. unfold _dictNextExp, DICT_HT_INITIAL_SIZE, DICT_HT_INITIAL_EXP, builtin_clzl, LLONG_MAX.
  destruct (Z.leb_spec size 4); [lia|]. rewrite Z.geb_leb. destruct (Z.leb_spec 9223372036854775807 size); [lia|].
  assert (1 <= Z.log2 (size - 1) < 63); [|lia]. split; [by apply Z.log2_le_pow2; pow_const; lia|].
  apply Z.log2_lt_pow2; pow_const; lia.
Qed.

(** The smallest power of two that is large enough. *)
Lemma nextExp_spec size :
  0 <= size <= 2 ^ 62 -> size <= 2 ^ _dictNextExp size /\ (_dictNextExp size = 2 \/ 2 ^ (_dictNextExp size - 1) < size).
Proof.
  intros Hs. unfold _dictNextExp, DICT_HT_INITIAL_SIZE, DICT_HT_INITIAL_EXP, builtin_clzl, LLONG_MAX.
  destruct (Z.leb_spec size 4); [split; [pow_const; lia|by left]|]. rewrite Z.geb_leb. pow_const. zif.
  destruct (Z.log2_spec (size - 1) ltac:(lia)) as [H1 H2].
  replace (64 - (63 - Z.log2 (size - 1))) with (Z.succ (Z.log2 (size - 1))) by lia. split; [lia|]. right.
  replace (Z.succ (Z.log2 (size - 1)) - 1) with (Z.log2 (size - 1)) by lia. lia.
Qed.

(** The overflow checks leave the sizes up to 2^60. *)
Lemma resize_checks size :
  0 <= size ->
  (DICTHT_SIZE (_dictNextExp size) <? size) || (u64 (DICTHT_SIZE (_dictNextExp size) * 8) <? DICTHT_SIZE (_dictNextExp size)) = false ->
  2 <= _dictNextExp size <= 60.
Proof.
  intros Hs Hc. pose proof (nextExp_range size Hs) as Hr. split; [lia|].
  assert (_dictNextExp size = 61 \/ _dictNextExp size = 62 \/ _dictNextExp size = 63 \/ _dictNextExp size <= 60) as
    [E|[E|[E|E]]] by lia; try done; rewrite E in Hc; apply orb_false_elim in Hc as [_ Hc]; vm_compute in Hc; done.
Qed.

Lemma alloc_empty e : 2 <= e <= 60 -> ht_alloc (mkHt (replicate (Z.to_nat (2 ^ e)) []) 0 e).
Proof.
  intros He. split; simpl; [done|rewrite length_replicate; pose proof (pow_range e He); lia| |].
  - assert (concat (replicate (Z.to_nat (2 ^ e)) ([] : list (K * V))) = []) as ->; [|done].
    induction (Z.to_nat (2 ^ e)); simpl; auto.
  - intros i c k v Hi Hin. apply lookup_replicate in Hi as [-> _]. by apply elem_of_nil in Hin.
Qed.

Lemma concat_replicate_nil n : concat (replicate n ([] : list (K * V))) = [].
Proof. induction n; simpl; auto. Qed.

Context (force_full_rehash : bool).

(** The dict right after the second table has been installed. *)
Lemma resize_started d e evs :
  dict_ok d -> rehashidx d = -1 -> ht_alloc (ht0 d) -> 2 <= e <= 60 ->
  bucket_sum evs = bucket_sum (events d) + 2 ^ e ->
  rehash_log evs = rehash_event (rehash_log (events d)) (RehashingStarted (DICTHT_SIZE (size_exp (ht0 d)))) ->
  moved d (mkDict (ht0 d) (mkHt (replicate (Z.to_nat (2 ^ e)) []) 0 e) 0 (pauserehash d) (pauseAutoResize d) evs).
Proof.
  intros [H0 H1 Hnd Hid _ Hsm [Hev Hlog]] E Ha He Hevs Hlogs. pose proof (Hid E) as Hr1.
  assert (forall x, concat (table (ht0 d)) ++ concat (replicate x []) = entries d) as Hent.
  { intros x. unfold entries. by rewrite concat_replicate_nil, Hr1. }
  split; [|unfold entries at 1; simpl; by rewrite Hent|done..].
  split; simpl; [done|right; by apply alloc_empty|unfold entries; simpl; by rewrite Hent|done| |unfold entries; simpl; by rewrite Hent|].
  - intros _. pose proof (pow_range _ (ha_exp _ Ha)). split_and!; [done|by apply alloc_empty|lia|lia|lia].
  - rewrite Hevs, Hev, Hlogs, Hlog, Hr1, (size_exp_pow e) by lia. simpl size_exp. change (DICTHT_SIZE (-1)) with 0.
    unfold rehash_state, dictIsRehashing. rewrite E. split; [lia|done].
Qed.

(** An empty first table is simply replaced. *)
Lemma resize_replaced d e evs :
  dict_ok d -> rehashidx d = -1 -> used (ht0 d) = 0 -> 2 <= e <= 60 -> bucket_sum evs = 2 ^ e ->
  rehash_log evs = Some None ->
  moved d (mkDict (mkHt (replicate (Z.to_nat (2 ^ e)) []) 0 e) ht_reset (-1) (pauserehash d) (pauseAutoResize d) evs).
Proof.
  intros [H0 H1 Hnd Hid _ Hsm Hev] E Hz He Hevs Hlog. pose proof (Hid E) as Hr1.
  assert (entries d = []) as Hent.
  { unfold entries. rewrite Hr1. simpl. rewrite app_nil_r. apply length_zero_iff_nil. pose proof (ht_ok_used _ H0). lia. }
  split; [|unfold entries at 1; simpl; by rewrite concat_replicate_nil, Hent|done..|intros _; by apply alloc_empty].
  split; simpl; [right; by apply alloc_empty|by left|unfold entries; simpl; rewrite concat_replicate_nil; constructor|done|done| |].
  - unfold entries. simpl. rewrite concat_replicate_nil. done.
  - rewrite Hevs, Hlog, (size_exp_pow e) by lia. change (DICTHT_SIZE (-1)) with 0. split; [lia|done].
Qed.

(** The effect of an operation that may move entries and resize. *)
Record resized d d' : Prop := {
  rz_moved : moved d d';
  rz_exp : rehashidx d' <> -1 -> size_exp (ht0 d') = size_exp (ht0 d);
  rz_idx : rehashidx d = -1 -> rehashidx d' <= 0;
  rz_alloc : ht_alloc (ht0 d) -> ht_alloc (ht0 d')
}.

Lemma resized_refl d : dict_ok d -> resized d d.
Proof. intros. split; [by apply moved_refl|done|lia|done]. Qed.

Lemma alloc_of_ok h : ht_ok h -> size_exp h <> -1 -> ht_alloc h.
Proof. by intros [->|]. Qed.

Lemma dictResize_spec d size malloc :
  dict_ok d -> rehashidx d = -1 -> 0 <= size ->
  exists st d' mf, _dictResize hashFunction force_full_rehash dict_can_resize d size malloc = Ok (st, d', mf) /\
    resized d d' /\ (st = DICT_OK -> ht_alloc (ht0 d')) /\
    (malloc = None -> size <= 2 ^ 60 -> size_exp (ht0 d) <> _dictNextExp size -> st = DICT_OK).
Proof.
  intros Hd E Hs. unfold _dictResize, dictIsRehashing. rewrite E. cbn [negb Z.eqb Pos.eqb].
  destruct (_ || _) eqn:Ec.
  { exists DICT_ERR, d, false. split_and!; [done|by apply resized_refl|done|]. intros _ Hs60 _. exfalso.
    destruct (nextExp_spec size) as [Hle Hmin]; [pow_const; lia|]. pose proof (nextExp_range size Hs) as Hr.
    assert (_dictNextExp size <= 60) as He.
    { destruct Hmin as [->|Hlt]; [lia|]. destruct (Z.le_gt_cases (_dictNextExp size) 60); [done|].
      pose proof (Z.pow_le_mono_r 2 60 (_dictNextExp size - 1) ltac:(lia) ltac:(lia)). lia. }
    rewrite size_exp_pow in Ec by lia. pose proof (pow_range (_dictNextExp size) ltac:(lia)).
    assert (2 ^ 60 * 8 < 2 ^ 64) by done. rewrite u_id in Ec by lia. lia. }
  pose proof (resize_checks size Hs Ec) as He. clear Ec. rewrite (size_exp_pow (_dictNextExp size)) by lia.
  set (e := _dictNextExp size) in *.
  destruct (Z.eqb_spec e (size_exp (ht0 d))) as [Ee|Ee]; [exists DICT_ERR, d, false; split_and!; [done|by apply resized_refl|done|congruence]|].
  destruct (match malloc with Some ok => negb ok | None => false end) eqn:Em.
  { exists DICT_ERR, d, true. split_and!; [done|by apply resized_refl|done|]. intros ->. done. }
  cbn [ht0 ht1 set_ht set_rehashidx notify Z.eqb size_exp used table events rehashidx pauserehash pauseAutoResize].
  pose proof (ok_events d Hd) as [Hev Hlog]. pose proof (ok_idle d Hd E) as Hidle.
  assert (rehash_state d = None) as Hst by (unfold rehash_state, dictIsRehashing; by rewrite E).
  rewrite Hst in Hlog.
  assert (DICTHT_SIZE (size_exp (ht1 d)) = 0) as Hz1 by by rewrite Hidle.
  destruct (_ || _) eqn:Eu.
  - assert (used (ht0 d) = 0) as Hu0.
    { apply orb_prop in Eu as [Eu|Eu]; [|lia]. destruct (ok_ht0 d Hd) as [->|Ha]; [done|]. pose proof (ha_exp _ Ha). lia. }
    eexists DICT_OK, _, false. split; [done|]. split_and!; [split|by intros _; apply alloc_empty|done].
    + apply (resize_replaced d e); [done..| |]; cbn [_dictReset events notify set_ht set_rehashidx Z.eqb].
      * rewrite !bucket_sum_app, Hev, Hz1, (size_exp_pow e) by lia. simpl. lia.
      * rewrite !rehash_log_snoc, Hlog. simpl. by rewrite Z.eqb_refl.
    + done.
    + done.
    + intros _. by apply alloc_empty.
  - assert (ht_alloc (ht0 d)) as Ha by (apply alloc_of_ok; [apply Hd|lia]).
    match goal with |- context [dictRehash_all _ _ _ ?x] => set (d1 := x) end.
    assert (moved d d1) as Hm1.
    { apply (resize_started d e); [done..| |]; cbn [events notify set_ht set_rehashidx Z.eqb].
      - rewrite !bucket_sum_app, (size_exp_pow e) by lia. simpl. lia.
      - by rewrite !rehash_log_snoc, Hlog. }
    destruct force_full_rehash.
    + destruct (rehash_all_spec (S (length (table (ht0 d)))) d1) as (d2 & -> & Hm2 & Hx2); [apply Hm1| |].
      { simpl. pose proof (ha_len _ Ha). lia. }
      exists DICT_OK, d2, false. assert (ht_alloc (ht0 d2)) as Ha2.
      { destruct (Z.eq_dec (rehashidx d2) (-1)) as [E2|E2]; [|by apply (ok_rehash d2 (mv_ok _ _ Hm2))].
        destruct (ok_ht0 d2 (mv_ok _ _ Hm2)) as [Er|]; [|done]. exfalso.
        pose proof (mv_entries _ _ Hm2) as Hp2. unfold entries at 1 in Hp2.
        rewrite Er, (ok_idle _ (mv_ok _ _ Hm2) E2) in Hp2. simpl in Hp2.
        apply Permutation_nil_l in Hp2. pose proof (dict_entries_length d1 (mv_ok _ _ Hm1)) as Hlen.
        rewrite <- Hp2 in Hlen. simpl in Hlen. lia. }
      split_and!; [done|split; [by eapply moved_trans|destruct Hx2 as [|[-> _]]; done|destruct Hx2 as [->|[-> _]]; done|done]|done|done].
    + exists DICT_OK, d1, false. split_and!; [done|split; done|done|done].
Qed.

Lemma expand_gen_spec d size malloc :
  dict_ok d -> 0 <= size ->
  exists st d' mf, _dictExpand hashFunction force_full_rehash dict_can_resize d size malloc = Ok (st, d', mf) /\
    resized d d' /\
    (malloc = None -> ht0 d = ht_reset -> rehashidx d = -1 -> 1 <= size <= 2 ^ 60 -> ht_alloc (ht0 d')).
Proof.
  intros Hd Hs. unfold _dictExpand, dictIsRehashing. destruct (Z.eqb_spec (rehashidx d) (-1)) as [E|E]; cbn [negb orb].
  2: { exists DICT_ERR, d, false. split_and!; [done|by apply resized_refl|done]. }
  destruct (_ || _) eqn:Ec.
  { exists DICT_ERR, d, false. split_and!; [done|by apply resized_refl|]. intros _ H0 _ Hs1. rewrite H0 in Ec.
    cbn [used size_exp ht_reset] in Ec. change (DICTHT_SIZE (-1)) with 0 in Ec. lia. }
  destruct (dictResize_spec d size malloc Hd E Hs) as (st & d' & mf & -> & Hrz & Hok & Hdone).
  exists st, d', mf. split_and!; [done..|]. intros -> H0 _ Hs1. apply Hok, Hdone; [done|lia|].
  rewrite H0. simpl. pose proof (nextExp_range size Hs). lia.
Qed.

Lemma expand_spec d size :
  dict_ok d -> 0 <= size ->
  exists st d', dictExpand hashFunction force_full_rehash dict_can_resize d size = Ok (st, d') /\ resized d d' /\
    (ht0 d = ht_reset -> rehashidx d = -1 -> 1 <= size <= 2 ^ 60 -> ht_alloc (ht0 d')).
Proof.
  intros Hd Hs. unfold dictExpand. destruct (expand_gen_spec d size None Hd Hs) as (st & d' & mf & -> & Hrz & Ha).
  exists st, d'. split_and!; [done..|]. intros. by apply Ha.
Qed.

Lemma tryExpand_spec d size alloc_ok :
  dict_ok d -> 0 <= size ->
  exists st d', dictTryExpand hashFunction force_full_rehash dict_can_resize d size alloc_ok = Ok (st, d') /\ resized d d'.
Proof.
  intros Hd Hs. unfold dictTryExpand.
  destruct (expand_gen_spec d size (Some alloc_ok) Hd Hs) as (st & d' & mf & -> & Hrz & _). by do 2 eexists.
Qed.

Lemma dictShrink_spec d size :
  dict_ok d -> 0 <= size ->
  exists st d', dictShrink hashFunction force_full_rehash dict_can_resize d size = Ok (st, d') /\ resized d d'.
Proof.
  intros Hd Hs. unfold dictShrink, dictIsRehashing. destruct (Z.eqb_spec (rehashidx d) (-1)) as [E|E]; cbn [negb orb].
  2: { exists DICT_ERR, d. split; [done|by apply resized_refl]. }
  destruct (_ || _). { exists DICT_ERR, d. split; [done|by apply resized_refl]. }
  destruct (dictResize_spec d size None Hd E Hs) as (st & d' & mf & -> & Hrz & _). by exists st, d'.
Qed.

Context (resizeAllowed : option (Z -> Z * Z -> bool)).

Lemma expandIfNeeded_spec d :
  dict_ok d ->
  exists st d', dictExpandIfNeeded hashFunction resizeAllowed force_full_rehash dict_can_resize d = Ok (st, d') /\
    resized d d' /\ ht_alloc (ht0 d').
Proof.
  intros Hd. unfold dictExpandIfNeeded, dictIsRehashing. pose proof (used_range d Hd) as (Hu & _ & _).
  destruct (Z.eqb_spec (rehashidx d) (-1)) as [E|E]; cbn [negb].
  2: { exists DICT_OK, d. split_and!; [done|by apply resized_refl|by apply (ok_rehash d Hd)]. }
  destruct (Z.eqb_spec (DICTHT_SIZE (size_exp (ht0 d))) 0) as [Ez|Ez].
  { destruct (expand_spec d DICT_HT_INITIAL_SIZE Hd) as (st & d' & -> & Hrz & Ha); [done|].
    exists DICT_OK, d'. split_and!; [done..|]. apply Ha; [|done|done].
    destruct (ok_ht0 d Hd) as [|Ha0]; [done|]. pose proof (pow_range _ (ha_exp _ Ha0)).
    rewrite size_exp_pow in Ez by (pose proof (ha_exp _ Ha0); lia). lia. }
  assert (ht_alloc (ht0 d)) as Ha0 by (destruct (ok_ht0 d Hd) as [Er|]; [by rewrite Er in Ez|done]).
  destruct (_ || _); [|exists DICT_ERR, d; split_and!; [done|by apply resized_refl|done]].
  destruct (dictTypeResizeAllowed _ _ _); [|exists DICT_OK, d; split_and!; [done|by apply resized_refl|done]].
  destruct (expand_spec d (u64 (used (ht0 d) + 1)) Hd) as (st & d' & -> & Hrz & _); [apply u_range; lia|].
  exists DICT_OK, d'. split_and!; [done..|exact (rz_alloc _ _ Hrz Ha0)].
Qed.

Lemma autoExpand_spec d :
  dict_ok d ->
  exists st d', _dictExpandIfNeeded hashFunction resizeAllowed force_full_rehash dict_can_resize d = Ok (st, d') /\
    resized d d' /\ (ht_alloc (ht0 d) \/ pauseAutoResize d <= 0 -> ht_alloc (ht0 d')).
Proof.
  intros Hd. unfold _dictExpandIfNeeded. rewrite Z.gtb_ltb. destruct (Z.ltb_spec 0 (pauseAutoResize d)).
  { exists DICT_ERR, d. split_and!; [done|by apply resized_refl|]. intros [?|?]; [done|lia]. }
  destruct (expandIfNeeded_spec d Hd) as (st & d' & -> & ? & ?). by exists st, d'.
Qed.

Lemma shrinkIfNeeded_spec d :
  dict_ok d ->
  exists st d', dictShrinkIfNeeded hashFunction resizeAllowed force_full_rehash dict_can_resize d = Ok (st, d') /\ resized d d'.
Proof.
  intros Hd. unfold dictShrinkIfNeeded, dictIsRehashing. pose proof (used_range d Hd) as (Hu & _ & _).
  assert (resized d d) by by apply resized_refl. destruct (rehashidx d =? -1); cbn [negb]; [|by do 2 eexists].
  destruct (DICTHT_SIZE (size_exp (ht0 d)) <=? DICT_HT_INITIAL_SIZE); [by do 2 eexists|].
  destruct (_ || _); [|by do 2 eexists]. destruct (dictTypeResizeAllowed _ _ _); [|by do 2 eexists].
  destruct (dictShrink_spec d (used (ht0 d)) Hd ltac:(lia)) as (st & d' & -> & ?). by do 2 eexists.
Qed.

Lemma autoShrink_spec d :
  dict_ok d ->
  exists d', _dictShrinkIfNeeded hashFunction resizeAllowed force_full_rehash dict_can_resize d = Ok d' /\ resized d d'.
Proof.
  intros Hd. unfold _dictShrinkIfNeeded. destruct (_ >? 0); [exists d; by split; [|apply resized_refl]|].
  destruct (shrinkIfNeeded_spec d Hd) as (st & d' & -> & ?). by exists d'.
Qed.
End Steps.
End Inv.
