(* ===== verification/DictOps.v ===== *)
(** Hash tables, the contract: the operations of src/redis-stable/src/dict.c refine a
    finite map, whatever rehashing and resizing they do on the way. *)

From stdpp Require Import gmap.
From S2P Require Import Prelude Machine Dict DictInv.

Section Ops.
Context {K V : Type} `{Countable K}.
Context (hashFunction : K -> Z) (keyCompare : K -> K -> bool).
(** keyCompare is an equality test. *)
Hypothesis Hcmp : forall a b, keyCompare a b = true <-> a = b.
Implicit Types (d : dict K V) (m : gmap K V).

Notation dict_ok := (dict_ok hashFunction).
Notation ht_alloc := (ht_alloc hashFunction).
Notation moved := (moved hashFunction).
Notation resized := (resized hashFunction).

(** The map a dict represents. *)
Definition dict_rep d m : Prop := dict_ok d /\ m = list_to_map (entries d).

Lemma rep_lookup d m k v : dict_rep d m -> m !! k = Some v <-> (k, v) ∈ entries d.
Proof. intros [Hd ->]. symmetry. apply elem_of_list_to_map, Hd. Qed.

Lemma rep_none d m k : dict_rep d m -> m !! k = None <-> forall v, (k, v) ∉ entries d.
Proof.
  intros Hr. rewrite eq_None_not_Some. split.
  - intros Hn v Hin. apply Hn. exists v. by apply (rep_lookup d m).
  - intros Hn [v Hv]. by apply (rep_lookup d m) in Hv; [eapply Hn|].
Qed.

Lemma rep_moved d d' m : dict_rep d m -> moved d d' -> dict_rep d' m.
Proof.
  intros [Hd ->] Hm. split; [apply Hm|]. apply list_to_map_proper; [apply Hd|]. symmetry. apply Hm.
Qed.

Lemma rep_size d m : dict_rep d m -> zlength (entries d) = Z.of_nat (size m).
Proof.
  intros [Hd ->]. f_equal. rewrite <- (length_map_to_list (list_to_map (entries d))).
  by rewrite (map_to_list_to_map (entries d) (ok_nodup _ _ Hd)).
Qed.

Lemma rep_dictSize d m : dict_rep d m -> dictSize d = Z.of_nat (size m).
Proof.
  intros Hr. rewrite <- (rep_size d m Hr). destruct Hr as [Hd _]. unfold dictSize.
  rewrite (dict_entries_length _ d Hd). pose proof (used_range _ d Hd). apply u_id. pow_const. lia.
Qed.

(** * Searching *)

Definition link_at d (l : link) (k : K) (v : V) : Prop :=
  (l_table l = 0 \/ l_table l = 1) /\
  exists c, get1 (l_idx l) (table (get_ht d (l_table l))) = Ok c /\ c !! l_pos l = Some (k, v).

Lemma find_chain_spec k (c : list (K * V)) :
  match find_chain keyCompare k c with
  | Some pos => exists v, c !! pos = Some (k, v)
  | None => forall v, (k, v) ∉ c
  end.
Proof.
  induction c as [|[k' v'] c IH]; simpl; [intros v; apply not_elem_of_nil|].
  destruct (keyCompare k k') eqn:E.
  - apply Hcmp in E as ->. by exists v'.
  - destruct (find_chain keyCompare k c); simpl; [done|].
    intros v [Heq|Hin]%elem_of_cons; [|by eapply IH]. injection Heq as <- <-.
    assert (keyCompare k k = true) by by apply Hcmp. congruence.
Qed.

Lemma search_table_spec d k tbl idx c :
  tbl = 0 \/ tbl = 1 -> get1 idx (table (get_ht d tbl)) = Ok c ->
  exists r, search_table keyCompare d k tbl idx = Ok r /\
    match r with
    | Some l => l_table l = tbl /\ exists v, link_at d l k v
    | None => forall v, (k, v) ∉ c
    end.
Proof.
  intros Ht Hg. unfold search_table. rewrite Hg. eexists. split; [done|]. pose proof (find_chain_spec k c) as Hf.
  destruct (find_chain keyCompare k c) as [pos|]; simpl; [|done]. split; [done|]. destruct Hf as [v Hv]. exists v.
  split; [done|]. by exists c.
Qed.

Lemma link_entries d l k v : link_at d l k v -> (k, v) ∈ entries d.
Proof.
  intros [Ht (c & Hg & Hc)]. apply get1_Ok in Hg as [_ Hg]. apply list_elem_of_lookup_2 in Hc.
  unfold entries. apply elem_of_app. destruct Ht as [E|E]; rewrite E in Hg; [left|right]; apply concat_In; by do 2 eexists.
Qed.

Lemma ht_index_mod d k tbl :
  ht_alloc (get_ht d tbl) ->
  ht_index d (dictHashKey hashFunction k) tbl = hashFunction k mod 2 ^ size_exp (get_ht d tbl) /\
  0 <= ht_index d (dictHashKey hashFunction k) tbl < 2 ^ size_exp (get_ht d tbl).
Proof.
  intros Ha. pose proof (ha_exp _ _ Ha). unfold ht_index, dictHashKey. rewrite mask_mod by lia.
  split; [done|]. apply Z.mod_pos_bound, Z.pow_pos_nonneg; lia.
Qed.

(** A key is nowhere else in a table than in the bucket its hash selects. *)
Lemma bucket_of d tbl k v c :
  ht_alloc (get_ht d tbl) -> get1 (ht_index d (dictHashKey hashFunction k) tbl) (table (get_ht d tbl)) = Ok c ->
  (k, v) ∈ concat (table (get_ht d tbl)) -> (k, v) ∈ c.
Proof.
  intros Ha Hg Hin. destruct (ht_index_mod d k tbl Ha) as [Hi _]. apply concat_In in Hin as (i & c' & Hc' & Hin).
  pose proof (ha_placed _ _ Ha _ _ _ _ Hc' Hin) as Hp. apply get1_Ok in Hg as [_ Hg].
  rewrite Hi, <- Hp, Nat2Z.id in Hg. congruence.
Qed.

Lemma search_tables_spec d k idx :
  dict_ok d -> ht_alloc (ht0 d) -> 0 <= idx < 2 ^ 60 ->
  (0 < rehashidx d -> idx = ht_index d (dictHashKey hashFunction k) 0) ->
  exists r idx', search_tables keyCompare d (dictHashKey hashFunction k) k idx = Ok (r, idx') /\
    match r with
    | Some l => exists v, link_at d l k v
    | None => (forall v, (k, v) ∉ entries d) /\
        idx' = ht_index d (dictHashKey hashFunction k) (if dictIsRehashing d then 1 else 0)
    end.
Proof.
  intros Hd Ha0 Hidx Hri. unfold search_tables. rewrite s_id by (lia || (unfold in_s; pow_const; lia)).
  assert (exists r0 i0, (if idx <? rehashidx d then Ok (None, idx)
      else let! r := search_table keyCompare d k 0 (ht_index d (dictHashKey hashFunction k) 0) in
           Ok (r, ht_index d (dictHashKey hashFunction k) 0)) = Ok (r0, i0) /\
      match r0 with
      | Some l => exists v, link_at d l k v
      | None => (forall v, (k, v) ∉ concat (table (ht0 d))) /\
                (rehashidx d = -1 -> i0 = ht_index d (dictHashKey hashFunction k) 0)
      end) as (r0 & i0 & -> & H0).
  { destruct (ht_index_mod d k 0 Ha0) as [Hm Hr]. destruct (alloc_get _ (ht0 d) _ Ha0 Hr) as [c Hc].
    destruct (Z.ltb_spec idx (rehashidx d)) as [Hlt|Hge].
    - assert (rehashidx d <> -1) as E by lia. do 2 eexists. split; [done|]. split; [|lia]. intros v Hin.
      destruct (ok_rehash _ d Hd E) as (_ & _ & _ & Hemp). pose proof (bucket_of d 0 k v c Ha0 Hc Hin) as Hin'.
      apply get1_Ok in Hc as [_ Hc]. rewrite <- (Hri ltac:(lia)) in Hc.
      rewrite (Hemp (Z.to_nat idx)) in Hc by lia. injection Hc as <-. by apply not_elem_of_nil in Hin'.
    - destruct (search_table_spec d k 0 _ c (or_introl eq_refl) Hc) as (r & -> & Hr'). do 2 eexists. split; [done|].
      destruct r as [l|]; [by destruct Hr' as [_ ?]|]. split; [|done]. intros v Hin. apply (Hr' v).
      by apply (bucket_of d 0). }
  destruct r0 as [l|]; [by exists (Some l), i0|]. destruct H0 as [Hn0 Hi0]. unfold dictIsRehashing.
  destruct (Z.eqb_spec (rehashidx d) (-1)) as [E|E]; cbn [negb].
  - exists None, i0. split; [done|]. split; [|by apply Hi0]. intros v Hin. unfold entries in Hin.
    rewrite (ok_idle _ d Hd E) in Hin. simpl in Hin. rewrite app_nil_r in Hin. by eapply Hn0.
  - destruct (ok_rehash _ d Hd E) as (_ & Ha1 & _ & _). destruct (ht_index_mod d k 1 Ha1) as [Hm Hr].
    destruct (alloc_get _ (ht1 d) _ Ha1 Hr) as [c Hc].
    destruct (search_table_spec d k 1 _ c (or_intror eq_refl) Hc) as (r & -> & Hr'). do 2 eexists. split; [done|].
    destruct r as [l|]; [by destruct Hr' as [_ ?]|]. split; [|done]. intros v [Hin|Hin]%elem_of_app; [by eapply Hn0|].
    apply (Hr' v). by apply (bucket_of d 1).
Qed.

Lemma nonempty_alloc d : dict_ok d -> entries d <> [] -> ht_alloc (ht0 d).
Proof.
  intros Hd Hne. destruct (Z.eq_dec (rehashidx d) (-1)) as [E|E]; [|by apply (ok_rehash _ d Hd)].
  destruct (ok_ht0 _ d Hd) as [Er|]; [|done]. exfalso. apply Hne. unfold entries.
  by rewrite Er, (ok_idle _ d Hd E).
Qed.

(** The index computed before a step is still good after it. *)
Lemma index_kept d d' k :
  dict_ok d -> (rehashidx d' <> -1 -> size_exp (ht0 d') = size_exp (ht0 d)) ->
  rehashidx d' <> -1 ->
  ht_index d (dictHashKey hashFunction k) 0 = ht_index d' (dictHashKey hashFunction k) 0.
Proof. intros Hd Hx E. unfold ht_index, get_ht. cbn [Z.eqb]. by rewrite Hx. Qed.

Lemma index_range d k : dict_ok d -> 0 <= ht_index d (dictHashKey hashFunction k) 0 < 2 ^ 60.
Proof.
  intros Hd. destruct (ok_ht0 _ d Hd) as [E|Ha].
  - unfold ht_index, get_ht. cbn [Z.eqb]. rewrite E. cbn [size_exp ht_reset]. change (DICTHT_SIZE_MASK (-1)) with 0. rewrite Z.land_0_r. done.
  - destruct (ht_index_mod d k 0 Ha) as [_ Hr]. change (get_ht d 0) with (ht0 d) in Hr. pose proof (pow_range _ (ha_exp _ _ Ha)). lia.
Qed.

Section Settings.
Context (resizeAllowed : option (Z -> Z * Z -> bool)) (force_full_rehash : bool) (dict_can_resize : dictResizeEnable).

(** What an operation leaves alone. *)
Definition same_pause d d' : Prop := pauserehash d' = pauserehash d /\ pauseAutoResize d' = pauseAutoResize d.

Lemma moved_pause d d' : moved d d' -> same_pause d d'.
Proof. by intros [_ _ ? ?]. Qed.

Lemma step_for_key d k :
  dict_ok d ->
  exists d', _dictRehashStepIfNeeded hashFunction dict_can_resize d (ht_index d (dictHashKey hashFunction k) 0) = Ok d' /\
    moved d d' /\ (rehashidx d' <> -1 -> size_exp (ht0 d') = size_exp (ht0 d)).
Proof.
  intros Hd. destruct (rehashStepIfNeeded_spec hashFunction dict_can_resize d (ht_index d (dictHashKey hashFunction k) 0) Hd)
    as (d' & ? & ? & _ & ?); [|by exists d'].
  intros E. apply (ht_index_mod d k 0). by apply (ok_rehash _ d Hd).
Qed.

Lemma findLinkInternal_spec d m k bucket :
  dict_rep d m -> dictSize d <> 0 ->
  exists r b d', dictFindLinkInternal hashFunction keyCompare dict_can_resize d k bucket = Ok (r, b, d') /\
    dict_rep d' m /\ same_pause d d' /\
    match r with
    | Some l => exists v, link_at d' l k v /\ m !! k = Some v
    | None => m !! k = None
    end.
Proof.
  intros Hr Hsz. pose proof Hr as [Hd _]. unfold dictFindLinkInternal. rewrite (proj2 (Z.eqb_neq _ _) Hsz), andb_false_r.
  destruct (step_for_key d k Hd) as (d' & -> & Hm & Hx). pose proof (rep_moved d d' m Hr Hm) as Hr'.
  destruct (search_tables_spec d' k (ht_index d (dictHashKey hashFunction k) 0)) as (r & idx' & -> & Hs).
  - apply Hm.
  - apply nonempty_alloc; [apply Hm|]. intros Hnil. apply Hsz. rewrite (rep_dictSize d m Hr), <- (rep_size d' m Hr'), Hnil. done.
  - by apply index_range.
  - intros E. apply index_kept; [done..|lia].
  - do 3 eexists. split; [done|]. split_and!; [done|by apply moved_pause..|].
    destruct r as [l|].
    + destruct Hs as [v Hl]. exists v. split; [done|]. apply (rep_lookup d' m); [done|by eapply link_entries].
    + apply (rep_none d' m); [done|apply Hs].
Qed.

Lemma size_zero d m k : dict_rep d m -> dictSize d = 0 -> m !! k = None.
Proof.
  intros Hr Hz. rewrite (rep_dictSize d m Hr) in Hz. assert (m = ∅) as -> by (apply map_size_empty_inv; lia). done.
Qed.

Lemma findLink_spec d m k bucket :
  dict_rep d m ->
  exists r b d', dictFindLink hashFunction keyCompare dict_can_resize d k bucket = Ok (r, b, d') /\
    dict_rep d' m /\ same_pause d d' /\
    match r with
    | Some l => exists v, link_at d' l k v /\ m !! k = Some v
    | None => m !! k = None
    end.
Proof.
  intros Hr. unfold dictFindLink. destruct (Z.eqb_spec (dictSize d) 0) as [Hz|Hz]; [|by apply findLinkInternal_spec].
  do 3 eexists. split; [done|]. split_and!; [done..|]. by eapply size_zero.
Qed.

Lemma link_entry_at d l k v : link_at d l k v -> entry_at d l = Ok (k, v).
Proof. intros [_ (c & Hg & Hc)]. unfold entry_at. rewrite Hg. by apply get1_lookup. Qed.

Lemma find_contract d m k :
  dict_rep d m ->
  exists d', dictFind hashFunction keyCompare dict_can_resize d k = Ok (pair k <$> m !! k, d') /\
    dict_rep d' m /\ same_pause d d'.
Proof.
  intros Hr. unfold dictFind. destruct (findLink_spec d m k false Hr) as (r & b & d' & -> & Hr' & Hp & Hs).
  destruct r as [l|].
  - destruct Hs as (v & Hl & ->). rewrite (link_entry_at _ _ _ _ Hl). by exists d'.
  - rewrite Hs. by exists d'.
Qed.

(** * Updating a bucket *)

Definition with_chain d (tbl idx : Z) (c' : list (K * V)) (n : Z) : dict K V :=
  let h := get_ht d tbl in
  set_ht d tbl (mkHt (<[Z.to_nat idx := c']> (table h)) n (size_exp h)).

Lemma chain_split d tbl idx c :
  tbl = 0 \/ tbl = 1 -> get1 idx (table (get_ht d tbl)) = Ok c ->
  exists rest, entries d ≡ₚ c ++ rest /\ forall c' n, entries (with_chain d tbl idx c' n) ≡ₚ c' ++ rest.
Proof.
  intros Ht Hg. apply get1_Ok in Hg as [_ Hg]. destruct (concat_split _ _ _ Hg) as (rest & Hr & Hins).
  destruct Ht as [->| ->]; simpl in *; unfold entries.
  - exists (rest ++ concat (table (ht1 d))). split; [by rewrite Hr, (assoc_L (++))|].
    intros c' n. simpl. by rewrite (Hins c'), (assoc_L (++)).
  - exists (concat (table (ht0 d)) ++ rest). split; [rewrite Hr|intros c' n; simpl; rewrite (Hins c')];
      rewrite !(assoc_L (++)); f_equiv; apply (comm (++)).
Qed.

Lemma chain_alloc d tbl idx c : dict_ok d -> get1 idx (table (get_ht d tbl)) = Ok c -> ht_alloc (get_ht d tbl).
Proof.
  intros Hd Hg. apply get1_Ok in Hg as [_ Hg].
  assert (ht_ok hashFunction (get_ht d tbl)) as [E|] by (unfold get_ht; destruct (_ =? _); apply Hd); [|done].
  rewrite E in Hg. simpl in Hg. done.
Qed.

Lemma with_chain_ok d tbl idx c c' rest :
  dict_ok d -> tbl = 0 \/ tbl = 1 -> get1 idx (table (get_ht d tbl)) = Ok c ->
  entries d ≡ₚ c ++ rest ->
  (forall k v, (k, v) ∈ c' -> idx = hashFunction k mod 2 ^ size_exp (get_ht d tbl)) ->
  NoDup (c' ++ rest).*1 -> zlength (c' ++ rest) < 2 ^ 58 ->
  (tbl = 0 -> rehashidx d <> -1 -> c = [] -> c' = []) ->
  dict_ok (with_chain d tbl idx c' (used (get_ht d tbl) - zlength c + zlength c')).
Proof.
  intros Hd Ht Hg Hent Hplaced Hnd Hsm Hreh. pose proof (chain_alloc d tbl idx c Hd Hg) as Ha.
  destruct (chain_split d tbl idx c Ht Hg) as (rest' & Hr1 & Hr2).
  assert (rest' ≡ₚ rest) as Hrr by (eapply Permutation_app_inv_l; by rewrite <- Hr1).
  set (n := _ - _ + _). assert (entries (with_chain d tbl idx c' n) ≡ₚ c' ++ rest) as Hent' by by rewrite Hr2, Hrr.
  pose proof Hg as Hg'. apply get1_Ok in Hg' as [Hi0 Hg'].
  assert (ht_alloc (mkHt (<[Z.to_nat idx := c']> (table (get_ht d tbl))) n (size_exp (get_ht d tbl)))) as Ha'.
  { destruct (concat_split _ _ _ Hg') as (r & Hra & Hrb). split; simpl; [apply Ha|rewrite length_insert; apply Ha| |].
    - unfold n. rewrite (Hrb c'), (ha_used _ _ Ha), Hra, !length_app. lia.
    - intros i c2 k v Hi Hin. apply list_lookup_insert_Some in Hi as [(<- & <- & _)|[_ Hi]].
      + rewrite Z2Nat.id by lia. by eapply Hplaced.
      + by eapply (ha_placed _ _ Ha). }
  destruct Hd as [H0 H1 Hnd0 Hid Hre Hsm0 Hev]. split.
  - destruct Ht as [->| ->]; simpl; [by right|done].
  - destruct Ht as [->| ->]; simpl; [done|by right].
  - by rewrite Hent'.
  - intros E. destruct Ht as [->| ->]; simpl in *; [by apply Hid|]. change (get_ht d 1) with (ht1 d) in Hg'. by rewrite (Hid E) in Hg'.
  - intros E. assert (rehashidx d <> -1) as E' by (by destruct Ht as [->| ->]).
    destruct (Hre E') as (A0 & A1 & Hr & Hemp). destruct Ht as [->| ->]; [|split_and!; [done|exact Ha'|apply Hr..|done]].
    split_and!; [exact Ha'|done|apply Hr..|]. intros i Hi. pose proof (Hemp i Hi) as Hi'.
    change (get_ht d 0) with (ht0 d) in *. simpl. destruct (decide (i = Z.to_nat idx)) as [->|Hne].
    + rewrite Hg' in Hi'. injection Hi' as ->. rewrite (Hreh eq_refl E' eq_refl). apply list_lookup_insert_eq.
      by eapply lookup_lt_Some.
    + by rewrite list_lookup_insert_ne.
  - by rewrite Hent'.
  - destruct Ht as [->| ->]; done.
Qed.

(** ** The map after an update *)

Lemma list_to_map_perm (l1 l2 : list (K * V)) : NoDup l1.*1 -> l1 ≡ₚ l2 -> (list_to_map l1 : gmap K V) = list_to_map l2.
Proof. intros. by apply list_to_map_proper. Qed.

Lemma rep_insert d d' m k v :
  dict_rep d m -> dict_ok d' -> entries d' ≡ₚ (k, v) :: entries d -> dict_rep d' (<[k := v]> m).
Proof.
  intros [Hd ->] Hd' Hp. split; [done|]. rewrite (list_to_map_perm (entries d') ((k, v) :: entries d)); [done|apply Hd'|done].
Qed.

Lemma rep_replace d d' m k v v' R :
  dict_rep d m -> dict_ok d' -> entries d ≡ₚ (k, v) :: R -> entries d' ≡ₚ (k, v') :: R -> dict_rep d' (<[k := v']> m).
Proof.
  intros [Hd ->] Hd' Hp Hp'. split; [done|].
  rewrite (list_to_map_perm (entries d') ((k, v') :: R)), (list_to_map_perm (entries d) ((k, v) :: R));
    [|apply Hd|done|apply Hd'|done]. simpl. by rewrite insert_insert_eq.
Qed.

Lemma rep_delete d d' m k v R :
  dict_rep d m -> dict_ok d' -> entries d ≡ₚ (k, v) :: R -> entries d' ≡ₚ R -> dict_rep d' (delete k m).
Proof.
  intros [Hd ->] Hd' Hp Hp'. split; [done|].
  rewrite (list_to_map_perm (entries d') R), (list_to_map_perm (entries d) ((k, v) :: R)); [|apply Hd|done|apply Hd'|done].
  simpl. rewrite delete_insert_id; [done|]. apply not_elem_of_list_to_map. pose proof (ok_nodup _ _ Hd) as Hnd.
  rewrite Hp in Hnd. simpl in Hnd. by apply list.NoDup_cons in Hnd as [? _].
Qed.

(** ** Values, insertion, removal *)

Lemma setVal_contract d m l k v val :
  dict_rep d m -> link_at d l k v ->
  exists d', dictSetVal d l val = Ok d' /\ dict_rep d' (<[k := val]> m) /\ same_pause d d'.
Proof.
  intros Hr [Ht (c & Hg & Hc)]. unfold dictSetVal. rewrite Hg, (get1_lookup _ _ _ Hc).
  pose proof (lookup_lt_Some _ _ _ Hc) as Hlt. rewrite set1_insert by lia. rewrite Nat2Z.id. unfold set_chain.
  pose proof Hg as Hgr. apply get1_Ok in Hgr as [Hi0 Hgr]. apply lookup_lt_Some in Hgr.
  rewrite set1_insert by lia. eexists. split; [done|].
  destruct (chain_split d (l_table l) (l_idx l) c Ht Hg) as (rest & Hr1 & Hr2). pose proof Hr as [Hd _].
  set (c' := <[l_pos l := (k, val)]> c). specialize (Hr2 c' (used (get_ht d (l_table l)))).
  assert (c'.*1 = c.*1) as Hkeys.
  { unfold c'. rewrite list_fmap_insert. simpl. apply list_insert_id. by rewrite list_lookup_fmap, Hc. }
  assert (c ≡ₚ (k, v) :: delete (l_pos l) c) as Hpc by by apply delete_Permutation.
  assert (c' ≡ₚ (k, val) :: delete (l_pos l) c) as Hpc'.
  { unfold c'. rewrite insert_take_drop, delete_take_drop by done. symmetry. apply Permutation_middle. }
  assert (dict_ok (with_chain d (l_table l) (l_idx l) c' (used (get_ht d (l_table l)))) ) as Hok.
  { replace (used (get_ht d (l_table l))) with (used (get_ht d (l_table l)) - zlength c + zlength c')
      by (unfold c'; rewrite length_insert; lia).
    apply (with_chain_ok d _ _ c c' rest); [done..| | | |].
    - intros k' v' Hin. pose proof (chain_alloc d _ _ _ Hd Hg) as Ha.
      assert (k' ∈ c.*1) as Hk by (rewrite <- Hkeys; apply list_elem_of_fmap; by exists (k', v')).
      apply list_elem_of_fmap in Hk as ([k2 v2] & -> & Hin2). apply get1_Ok in Hg as [_ Hg].
      simpl. rewrite <- (ha_placed _ _ Ha _ _ _ _ Hg Hin2). lia.
    - rewrite fmap_app, Hkeys, <- fmap_app, <- Hr1. apply Hd.
    - pose proof (ok_small _ _ Hd) as Hs. rewrite Hr1, length_app in Hs. rewrite length_app. unfold c'. by rewrite length_insert.
    - intros _ _ ->. done. }
  split; [|by destruct Ht as [E|E]; rewrite E].
  set (cr := delete (l_pos l) c) in *. clearbody cr.
  eapply (rep_replace d _ m k v val (cr ++ rest)); [done|exact Hok|by rewrite Hr1, Hpc|]. by rewrite Hr2, Hpc'.
Qed.

Lemma dictInsert_contract d m junk k :
  dict_rep d m -> ht_alloc (ht0 d) -> m !! k = None -> Z.of_nat (size m) + 1 < 2 ^ 58 ->
  exists l d', dictInsertKeyAtLink d junk k
      (if dictIsRehashing d then 1 else 0, ht_index d (dictHashKey hashFunction k) (if dictIsRehashing d then 1 else 0)) = Ok (l, d') /\
    dict_rep d' (<[k := junk]> m) /\ link_at d' l k junk /\ same_pause d d'.
Proof.
  intros Hr Ha0 Hn Hsm. pose proof Hr as [Hd _]. set (t := if dictIsRehashing d then 1 else 0).
  assert (t = 0 \/ t = 1) as Ht by (unfold t; destruct (dictIsRehashing d); auto).
  assert (ht_alloc (get_ht d t)) as Ha.
  { unfold t, dictIsRehashing. destruct (Z.eqb_spec (rehashidx d) (-1)); cbn [negb]; [done|by apply (ok_rehash _ d Hd)]. }
  destruct (ht_index_mod d k t Ha) as [Hm Hrng]. set (i := ht_index d _ t) in *.
  destruct (alloc_get _ (get_ht d t) i Ha Hrng) as [c Hc]. unfold dictInsertKeyAtLink. fold t. cbn [fst snd].
  pose proof (ha_exp _ _ Ha) as He. rewrite size_mask_pow, Z.ones_equiv by lia. rewrite Z.eqb_refl.
  repeat (zif; cbn [andb]). rewrite Hc. rewrite set1_insert by (pose proof (ha_len _ _ Ha); lia).
  do 2 eexists. split; [done|].
  destruct (chain_split d t i c Ht Hc) as (rest & Hr1 & Hr2). set (c' := (k, junk) :: c).
  pose proof (used_range _ d Hd) as Hur. pose proof (rep_size d m Hr) as Hsz.
  assert (u64 (used (get_ht d t) + 1) = used (get_ht d t) - zlength c + zlength c') as Hu.
  { unfold c'. cbn [length]. assert (0 <= used (get_ht d t) < 2 ^ 58)
      by (destruct Ht as [E|E]; rewrite E; unfold get_ht; cbn [Z.eqb]; lia).
    rewrite u_id; [lia|]. pow_const. lia. }
  rewrite Hu. specialize (Hr2 c' (used (get_ht d t) - zlength c + zlength c')).
  assert (dict_ok (with_chain d t i c' (used (get_ht d t) - zlength c + zlength c'))) as Hok.
  { apply (with_chain_ok d t i c c' rest); [done..| | | |].
    - intros k' v' [[= -> ->]|Hin]%elem_of_cons; [done|]. pose proof Hc as Hg. apply get1_Ok in Hg as [_ Hg].
      rewrite <- (ha_placed _ _ Ha _ _ _ _ Hg Hin). lia.
    - unfold c'. simpl. apply list.NoDup_cons. split.
      + rewrite <- Hr1. intros ([k2 v2] & -> & Hin)%list_elem_of_fmap. by eapply (rep_none d m k2).
      + rewrite <- Hr1. apply Hd.
    - unfold c'. simpl. rewrite <- Hr1. lia.
    - intros E E'. unfold t in E. unfold dictIsRehashing in E. rewrite (proj2 (Z.eqb_neq _ _) E') in E. done. }
  split_and!.
  - eapply (rep_insert d); [done|exact Hok|]. rewrite Hr2, Hr1. done.
  - split; [done|]. exists c'. simpl. split; [|done].
    destruct Ht as [E|E]; rewrite E in *; simpl; apply get1_Ok; (split; [lia|]); apply list_lookup_insert_eq;
      apply get1_Ok in Hc as [_ Hc]; by eapply lookup_lt_Some.
  - destruct Ht as [E|E]; by rewrite E.
Qed.

(** A table can be found for a new key: it exists, or it may be created. *)
Definition can_insert d m : Prop := m <> ∅ \/ pauseAutoResize d <= 0.

Lemma can_insert_alloc d m : dict_rep d m -> m <> ∅ -> ht_alloc (ht0 d).
Proof.
  intros Hr Hne. pose proof Hr as [Hd Hm]. apply nonempty_alloc; [done|]. intros E. rewrite E in Hm. done.
Qed.

Lemma findForInsert_spec d m k :
  dict_rep d m -> can_insert d m ->
  exists r d', dictFindLinkForInsert hashFunction keyCompare resizeAllowed force_full_rehash dict_can_resize d k = Ok (r, d') /\
    dict_rep d' m /\ same_pause d d' /\ ht_alloc (ht0 d') /\
    match r with
    | inl l => exists v, link_at d' l k v /\ m !! k = Some v
    | inr b => m !! k = None /\
        b = (if dictIsRehashing d' then 1 else 0, ht_index d' (dictHashKey hashFunction k) (if dictIsRehashing d' then 1 else 0))
    end.
Proof.
  intros Hr Hci. pose proof Hr as [Hd _]. unfold dictFindLinkForInsert.
  destruct (step_for_key d k Hd) as (d1 & -> & Hm1 & Hx1). pose proof (rep_moved d d1 m Hr Hm1) as Hr1.
  destruct (autoExpand_spec hashFunction dict_can_resize force_full_rehash resizeAllowed d1 (mv_ok _ _ _ Hm1))
    as (st & d2 & -> & [Hm2 Hx2 Hi2 Ha2] & Hal).
  pose proof (rep_moved d1 d2 m Hr1 Hm2) as Hr2.
  assert (ht_alloc (ht0 d2)) as Ha.
  { apply Hal. destruct Hci as [Hne|Hp]; [left; by apply (can_insert_alloc d1 m)|right]. by rewrite (mv_auto _ _ _ Hm1). }
  destruct (search_tables_spec d2 k (ht_index d (dictHashKey hashFunction k) 0)) as (r & idx' & -> & Hs);
    [apply Hm2|done|by apply index_range| |].
  { intros E. destruct (Z.eq_dec (rehashidx d1) (-1)) as [E1|E1]; [pose proof (Hi2 E1); lia|].
    rewrite (index_kept d d1 k) by done. apply index_kept; [apply Hm1|done|lia]. }
  assert (same_pause d d2) as Hp.
  { destruct (moved_pause _ _ Hm1) as [P1 P2]. destruct (moved_pause _ _ Hm2) as [P3 P4]. split; congruence. }
  destruct r as [l|].
  - exists (inl l), d2. split_and!; [done|done|apply Hp..|done|]. destruct Hs as [v Hl]. exists v. split; [done|].
    apply (rep_lookup d2 m); [done|by eapply link_entries].
  - destruct Hs as [Hn ->]. do 2 eexists. split; [done|]. split_and!; [done|apply Hp..|done|by apply (rep_none d2 m)|done].
Qed.

Lemma addRaw_contract d m junk k :
  dict_rep d m -> can_insert d m -> Z.of_nat (size m) + 1 < 2 ^ 58 ->
  exists r d', dictAddRaw hashFunction keyCompare resizeAllowed force_full_rehash dict_can_resize d junk k = Ok (r, d') /\
    same_pause d d' /\
    match r with
    | inl l => dict_rep d' m /\ exists v, link_at d' l k v /\ m !! k = Some v
    | inr l => dict_rep d' (<[k := junk]> m) /\ m !! k = None /\ link_at d' l k junk
    end.
Proof.
  intros Hr Hci Hsm. unfold dictAddRaw. destruct (findForInsert_spec d m k Hr Hci) as (r & d1 & -> & Hr1 & Hp1 & Ha & Hs).
  destruct r as [l|b]; [by exists (inl l), d1|]. destruct Hs as [Hn ->].
  destruct (dictInsert_contract d1 m junk k Hr1 Ha Hn Hsm) as (l & d2 & -> & Hr2 & Hl & Hp2). exists (inr l), d2.
  split; [done|]. split; [|done]. destruct Hp1, Hp2. split; congruence.
Qed.

Lemma add_contract d m junk k v :
  dict_rep d m -> can_insert d m -> Z.of_nat (size m) + 1 < 2 ^ 58 ->
  exists d', dictAdd hashFunction keyCompare resizeAllowed force_full_rehash dict_can_resize d junk k v =
      Ok (match m !! k with Some _ => DICT_ERR | None => DICT_OK end, d') /\ same_pause d d' /\
    dict_rep d' (match m !! k with Some _ => m | None => <[k := v]> m end).
Proof.
  intros Hr Hci Hsm. unfold dictAdd. destruct (addRaw_contract d m junk k Hr Hci Hsm) as (r & d1 & -> & Hp & Hs).
  destruct r as [l|l].
  - destruct Hs as (Hr1 & v' & _ & ->). by exists d1.
  - destruct Hs as (Hr1 & -> & Hl). destruct (setVal_contract d1 _ l k junk v Hr1 Hl) as (d2 & -> & Hr2 & Hp2).
    exists d2. split; [done|]. rewrite insert_insert_eq in Hr2. split; [|done]. destruct Hp, Hp2. split; congruence.
Qed.

Lemma replace_contract d m junk k v :
  dict_rep d m -> can_insert d m -> Z.of_nat (size m) + 1 < 2 ^ 58 ->
  exists d', dictReplace hashFunction keyCompare resizeAllowed force_full_rehash dict_can_resize d junk k v =
      Ok (match m !! k with Some _ => 0 | None => 1 end, d') /\ same_pause d d' /\ dict_rep d' (<[k := v]> m).
Proof.
  intros Hr Hci Hsm. unfold dictReplace. destruct (addRaw_contract d m junk k Hr Hci Hsm) as (r & d1 & -> & Hp & Hs).
  destruct r as [l|l].
  - destruct Hs as (Hr1 & v' & Hl & ->). rewrite (link_entry_at _ _ _ _ Hl).
    destruct (setVal_contract d1 _ l k v' v Hr1 Hl) as (d2 & -> & Hr2 & Hp2).
    exists d2. split; [done|]. split; [|done]. destruct Hp, Hp2. split; congruence.
  - destruct Hs as (Hr1 & -> & Hl). destruct (setVal_contract d1 _ l k junk v Hr1 Hl) as (d2 & -> & Hr2 & Hp2).
    exists d2. split; [done|]. rewrite insert_insert_eq in Hr2. split; [|done]. destruct Hp, Hp2. split; congruence.
Qed.

(** ** Removal *)

Lemma unlink_contract d m l k v :
  dict_rep d m -> link_at d l k v ->
  exists d', unlink_at d l = Ok ((k, v), d') /\ dict_rep d' (delete k m) /\ same_pause d d'.
Proof.
  intros Hr [Ht (c & Hg & Hc)]. unfold unlink_at. rewrite Hg, (get1_lookup _ _ _ Hc).
  pose proof Hg as Hgr. apply get1_Ok in Hgr as [Hi0 Hgr]. pose proof (lookup_lt_Some _ _ _ Hgr) as Hil.
  unfold set_chain. rewrite set1_insert by lia. pose proof Hr as [Hd _].
  set (c' := take (l_pos l) c ++ drop (S (l_pos l)) c).
  destruct (chain_split d (l_table l) (l_idx l) c Ht Hg) as (rest & Hr1 & Hr2).
  assert (c ≡ₚ (k, v) :: c') as Hpc.
  { rewrite (delete_Permutation _ _ _ Hc). unfold c'. by rewrite delete_take_drop. }
  assert (u64 (used (get_ht d (l_table l)) - 1) = used (get_ht d (l_table l)) - zlength c + zlength c') as Hu.
  { pose proof (used_range _ d Hd) as Hur. pose proof (chain_alloc d _ _ _ Hd Hg) as Ha.
    assert (zlength c <= used (get_ht d (l_table l))) as Hle.
    { rewrite (ha_used _ _ Ha). destruct (concat_split _ _ _ Hgr) as (rr & -> & _). rewrite length_app. lia. }
    rewrite Hpc in *. cbn [length] in *. rewrite u_id; [lia|].
    destruct Ht as [E|E]; rewrite E in *; unfold get_ht in *; cbn [Z.eqb] in *; pow_const; lia. }
  eexists. split; [done|]. set (d' := set_ht _ _ _).
  assert (d' = with_chain d (l_table l) (l_idx l) c' (used (get_ht d (l_table l)) - zlength c + zlength c')) as Hd'.
  { unfold d', with_chain. rewrite <- Hu. destruct Ht as [E|E]; by rewrite E. }
  assert (dict_ok d') as Hok.
  { rewrite Hd'. apply (with_chain_ok d _ _ c c' rest); [done..| | | |].
    - intros k' v' Hin. pose proof (chain_alloc d _ _ _ Hd Hg) as Ha.
      rewrite <- (ha_placed _ _ Ha _ _ k' v' Hgr); [lia|]. rewrite Hpc. apply elem_of_cons. by right.
    - pose proof (ok_nodup _ _ Hd) as Hnd. rewrite Hr1, Hpc in Hnd. simpl in Hnd. by apply list.NoDup_cons in Hnd as [_ ?].
    - pose proof (ok_small _ _ Hd) as Hs. rewrite Hr1, Hpc in Hs. cbn [length app] in Hs. lia.
    - intros _ _ ->. by destruct (l_pos l). }
  split; [|rewrite Hd'; by destruct Ht as [E|E]; rewrite E].
  eapply (rep_delete d d' m k v (c' ++ rest)); [done|done|by rewrite Hr1, Hpc|]. rewrite Hd'. apply Hr2.
Qed.

Lemma genericDelete_contract d m k :
  dict_rep d m ->
  exists d', dictGenericDelete hashFunction keyCompare resizeAllowed force_full_rehash dict_can_resize d k =
      Ok (pair k <$> m !! k, d') /\ dict_rep d' (delete k m) /\ same_pause d d'.
Proof.
  intros Hr. pose proof Hr as [Hd _]. unfold dictGenericDelete. destruct (Z.eqb_spec (dictSize d) 0) as [Hz|Hz].
  { rewrite (size_zero d m k Hr Hz). exists d. split; [done|]. split; [|done].
    by rewrite delete_id by by eapply size_zero. }
  destruct (step_for_key d k Hd) as (d1 & -> & Hm1 & Hx1). pose proof (rep_moved d d1 m Hr Hm1) as Hr1.
  destruct (search_tables_spec d1 k (ht_index d (dictHashKey hashFunction k) 0)) as (r & idx' & -> & Hs).
  - apply Hm1.
  - apply nonempty_alloc; [apply Hm1|]. intros Hnil. apply Hz. rewrite (rep_dictSize d m Hr), <- (rep_size d1 m Hr1), Hnil. done.
  - by apply index_range.
  - intros E. apply index_kept; [done..|lia].
  - destruct r as [l|].
    + destruct Hs as [v Hl]. destruct (unlink_contract d1 m l k v Hr1 Hl) as (d2 & -> & Hr2 & Hp2).
      destruct (autoShrink_spec hashFunction dict_can_resize force_full_rehash resizeAllowed d2 (proj1 Hr2)) as (d3 & -> & [Hm3 _ _ _]).
      exists d3. apply link_entries in Hl. apply (rep_lookup d1 m) in Hl as ->; [|done]. split; [done|].
      split; [by eapply rep_moved|]. destruct (moved_pause _ _ Hm1), Hp2, (moved_pause _ _ Hm3). split; congruence.
    + destruct Hs as [Hn _]. apply (rep_none d1 m) in Hn; [|done]. rewrite Hn. exists d1. split; [done|].
      split; [by rewrite delete_id|by apply moved_pause].
Qed.

Lemma pause_rep d m p : dict_rep d m -> dict_rep (set_pauserehash d p) m.
Proof. intros [[H0 H1 Hnd Hid Hre Hsm Hev] ->]. split; [|done]. by split. Qed.

(** Removal in two phases: rehashing is paused in between. *)
Lemma twoPhase_contract d m k :
  dict_rep d m -> in_u 32 (pauserehash d) -> pauserehash d < UINT32_MAX ->
  exists l d1 d2, dictTwoPhaseUnlinkFind hashFunction keyCompare dict_can_resize d k = Ok (l, d1) /\
    (l = None <-> m !! k = None) /\ dict_rep d1 m /\ (l <> None -> pauserehash d1 = pauserehash d + 1) /\
    dictTwoPhaseUnlinkFree hashFunction resizeAllowed force_full_rehash dict_can_resize d1 l = Ok d2 /\
    dict_rep d2 (delete k m) /\ same_pause d d2.
Proof.
  intros Hr Hpr Hpm. unfold in_u, UINT32_MAX in *. pose proof Hr as [Hd _]. unfold dictTwoPhaseUnlinkFind.
  destruct (Z.eqb_spec (dictSize d) 0) as [Hz|Hz].
  { exists None, d, d. pose proof (size_zero d m k Hr Hz) as Hn. split_and!; try done. by rewrite delete_id. }
  assert (exists d1, (if dictIsRehashing d then _dictRehashStep hashFunction dict_can_resize d else Ok d) = Ok d1 /\ moved d d1)
    as (d1 & -> & Hm1).
  { destruct (dictIsRehashing d); [|exists d; split; [done|by apply moved_refl]].
    destruct (rehashStep_spec hashFunction dict_can_resize d Hd) as (d1 & ? & ? & _). by exists d1. }
  pose proof (rep_moved d d1 m Hr Hm1) as Hr1. destruct (moved_pause _ _ Hm1) as [Hp1 Hp1'].
  destruct (search_tables_spec d1 k (ht_index d1 (dictHashKey hashFunction k) 0)) as (r & idx' & -> & Hs);
    [apply Hr1| |apply index_range, Hr1|done|].
  { apply nonempty_alloc; [apply Hm1|]. intros Hnil. apply Hz. rewrite (rep_dictSize d m Hr), <- (rep_size d1 m Hr1), Hnil. done. }
  destruct r as [l|].
  - destruct Hs as [v Hl]. pose proof (link_entries _ _ _ _ Hl) as Hin. apply (rep_lookup d1 m) in Hin; [|done].
    set (d1p := set_pauserehash d1 (u32 (pauserehash d1 + 1))).
    assert (link_at d1p l k v) as Hl' by done. pose proof (pause_rep d1 m (u32 (pauserehash d1 + 1)) Hr1) as Hr1'. fold d1p in Hr1'.
    destruct (unlink_contract d1p m l k v Hr1' Hl') as (d2 & Hu & Hr2 & Hp2 & Hp2').
    destruct (autoShrink_spec hashFunction dict_can_resize force_full_rehash resizeAllowed d2 (proj1 Hr2)) as (d3 & Hsh & [Hm3 _ _ _]).
    destruct (moved_pause _ _ Hm3) as [Hp3 Hp3']. simpl in Hp2. rewrite u_id in Hp2 by lia.
    exists (Some l), d1p, (set_pauserehash d3 (u32 (pauserehash d3 - 1))).
    split; [done|]. split; [by rewrite Hin|]. split_and!; [done| | | |].
    + intros _. simpl. rewrite u_id by lia. lia.
    + unfold dictTwoPhaseUnlinkFree. rewrite Hu. by rewrite Hsh.
    + apply pause_rep. by eapply rep_moved.
    + split; simpl in *; [rewrite u_id by lia; lia|congruence].
  - destruct Hs as [Hn _]. apply (rep_none d1 m) in Hn; [|done]. exists None, d1, d1. rewrite Hn. split_and!; try done.
    by rewrite delete_id.
Qed.

Lemma twoPhaseFind_pause d m k l d1 :
  dict_rep d m -> dictTwoPhaseUnlinkFind hashFunction keyCompare dict_can_resize d k = Ok (l, d1) -> pauseAutoResize d1 = pauseAutoResize d.
Proof.
  intros [Hd _]. unfold dictTwoPhaseUnlinkFind. destruct (dictSize d =? 0); [by intros [= _ <-]|].
  assert (exists d0, (if dictIsRehashing d then _dictRehashStep hashFunction dict_can_resize d else Ok d) = Ok d0 /\ pauseAutoResize d0 = pauseAutoResize d) as (d0 & -> & <-).
  { destruct (dictIsRehashing d); [|by exists d]. destruct (rehashStep_spec hashFunction dict_can_resize d Hd) as (d0 & -> & Hm & _). exists d0. split; [done|apply Hm]. }
  destruct (search_tables _ _ _ _ _) as [[[r|] ?]|]; intros; res_inv; by simplify_eq.
Qed.

(** A released dict has taken back all it reported. *)
Lemma release_log d : dict_ok d -> bucket_sum (dictRelease d) = 0 /\ rehash_log (dictRelease d) = Some None.
Proof.
  intros Hd. pose proof (ok_events _ d Hd) as [Hev Hlog].
  destruct (ht_ok_size _ _ (ok_ht0 _ d Hd)) as [_ Hs0]. destruct (ht_ok_size _ _ (ok_ht1 _ d Hd)) as [_ Hs1].
  unfold dictRelease, dictBuckets, rehash_state in *.
  destruct (dictIsRehashing d); cbn [events notify ht0 ht1]; rewrite !bucket_sum_app, !rehash_log_snoc, Hev, Hlog;
    cbn [bucket_sum foldr dictRehashingInfo fst rehash_event]; rewrite ?Z.eqb_refl; (split; [|done]); rewrite u_id by (pow_const; lia); lia.
Qed.

Lemma empty_contract d : dict_ok d -> dict_rep (dictEmpty d) ∅ /\ rehashidx (dictEmpty d) = -1.
Proof.
  intros Hd. split; [|done]. split; [|done]. split; try done; try (by left); try (by constructor).
  change (events (dictEmpty d)) with (dictRelease d). by destruct (release_log d Hd) as [-> ->].
Qed.

Lemma create_contract : dict_rep dictCreate ∅.
Proof. split; [|done]. split; try done; try (by left); by constructor. Qed.
End Settings.
End Ops.
