(* ===== verification/Iterable.v ===== *)
(** What an iterator promises to a loop over it.

    The containers hand out their elements through a [next] function that returns NULL
    at the end; the code that consumes them is a loop over that function, after which
    the iterator is released.  The class states the contract between the two sides once:
    the iterator knows which elements are [to_come], and a loop over it is a fold over
    them.  Integer sets, listpacks, hash tables and the set objects built from them are
    its instances. *)

From S2P Require Import Prelude Machine.

Class Iterator (C I E : Type) := {
  next_element : C -> I -> res (option E * I);
  release_iterator : C -> I -> res unit
}.

Class IteratorSpec (C I E : Type) `{Iterator C I E} := {
  to_come : C -> I -> list E -> Prop;
  next_element_spec (c : C) (i : I) (es : list E) :
    to_come c i es ->
    exists i', next_element c i = Ok (head es, i') /\
      match es with [] => release_iterator c i' = Ok tt | _ :: es => to_come c i' es end
}.

Section Loop.
Context {C I E A : Type} `{Iterator C I E}.

(** while ((e = next(it)) != NULL) a = f(a, e); release(it) *)
Fixpoint each (fuel : nat) (c : C) (i : I) (f : A -> E -> res A) (a : A) : res A :=
  match fuel with
  | O => Fault OutOfFuel
  | S fuel =>
      let! '(e, i) := next_element c i in
      match e with
      | None => let! _ := release_iterator c i in Ok a
      | Some e => let! a := f a e in each fuel c i f a
      end
  end.

(** A loop whose body keeps an invariant of the elements seen so far reaches the end,
    and the iterator can be released. *)
Lemma each_spec `{!IteratorSpec C I E} (P : list E -> A -> Prop) (f : A -> E -> res A) (c : C) : forall es i fuel seen a,
  to_come c i es -> (length es < fuel)%nat -> P seen a ->
  (forall pre e post b, seen ++ es = pre ++ e :: post -> P pre b -> exists b', f b e = Ok b' /\ P (pre ++ [e]) b') ->
  exists a', each fuel c i f a = Ok a' /\ P (seen ++ es) a'.
Proof.
  induction es as [|e es IH]; intros i fuel seen a Ht Hf HP Hstep; (destruct fuel as [|fuel]; [simpl in Hf; lia|]);
    destruct (next_element_spec c i _ Ht) as (i' & Hn & Hc); cbn [each]; rewrite Hn; cbn [head].
  - exists a. by rewrite Hc, app_nil_r.
  - destruct (Hstep seen e es a eq_refl HP) as (b & -> & Hb).
    replace (seen ++ e :: es) with ((seen ++ [e]) ++ es) by by rewrite <- (assoc_L (++)).
    apply (IH i'); [done|simpl in Hf; lia|done|].
    intros pre e' post b' E'. apply (Hstep pre e' post). by rewrite <- E', <- (assoc_L (++)).
Qed.
End Loop.
