(* ===== verification/DictIter.v ===== *)
(** Iterators over a hash table and insertion at a found bucket:
    dictNext and dictSetKeyAtLink of src/redis-stable/src/dict.c.

    A pointer to an entry is the key of the entry, which is in one place only; reading
    through the pointer of an entry that has left its chain is out of bounds.  The
    address of a table, which enters the fingerprint, is a parameter. *)

From stdpp Require Import gmap.
From S2P Require Import Prelude Machine Iterable Dict DictInv DictOps.

Record dictIterator (K : Type) := mkIter {
  it_index : Z;
  it_table : Z;
  it_safe : bool;
  it_entry : option K;
  it_nextEntry : option K;
  it_fingerprint : Z
}.
Arguments mkIter {K} _ _ _ _ _ _.
Arguments it_index {K} _.
Arguments it_table {K} _.
Arguments it_safe {K} _.
Arguments it_entry {K} _.
Arguments it_nextEntry {K} _.
Arguments it_fingerprint {K} _.

Section Iter.
Context {K V : Type} `{EqDecision K}.
Context (table_address : list (list (K * V)) -> Z).
Implicit Types (d : dict K V) (it : dictIterator K).

(** Thomas Wang's integer hash, one round of the loop of dictFingerprint *)
Definition fingerprint_round (hash integer : Z) : Z :=
  let hash := u64 (hash + integer) in
  let hash := u64 (u64 (Z.lnot hash) + Z.shiftl hash 21) in
  let hash := Z.lxor hash (Z.shiftr hash 24) in
  let hash := u64 (hash + Z.shiftl hash 3 + Z.shiftl hash 8) in
  let hash := Z.lxor hash (Z.shiftr hash 14) in
  let hash := u64 (hash + Z.shiftl hash 2 + Z.shiftl hash 4) in
  let hash := Z.lxor hash (Z.shiftr hash 28) in
  u64 (hash + Z.shiftl hash 31).

Definition dictFingerprint d : Z :=
  foldl fingerprint_round 0
    [table_address (table (ht0 d)); u64 (size_exp (ht0 d)); used (ht0 d);
     table_address (table (ht1 d)); u64 (size_exp (ht1 d)); used (ht1 d)].

Definition dictInitIterator : dictIterator K := mkIter (-1) 0 false None None 0.
Definition dictInitSafeIterator : dictIterator K := mkIter (-1) 0 true None None 0.

Definition dictPauseRehashing d : dict K V := set_pauserehash d (u32 (pauserehash d + 1)).
Definition dictResumeRehashing d : dict K V := set_pauserehash d (u32 (pauserehash d - 1)).

Definition dictResetIterator d it : res (dict K V) :=
  if negb ((it_index it =? -1) && (it_table it =? 0)) then
    if it_safe it then Ok (dictResumeRehashing d)
    else assert! it_fingerprint it =? dictFingerprint d in Ok d
  else Ok d.

(** The part of a chain after the entry with the given key; the entry must be there. *)
Fixpoint chain_after (key : K) (chain : list (K * V)) : res ((K * V) * list (K * V)) :=
  match chain with
  | [] => Fault OutOfBounds
  | (k, v) :: chain => if decide (k = key) then Ok ((k, v), chain) else chain_after key chain
  end.

(** The first branch of the loop, up to the test of the index: the iteration starts. *)
Definition iter_start d it : dict K V * dictIterator K :=
  if (it_index it =? -1) && (it_table it =? 0) then
    let '(d, it) :=
      if it_safe it then (dictPauseRehashing d, it)
      else (d, mkIter (it_index it) (it_table it) (it_safe it) (it_entry it) (it_nextEntry it) (dictFingerprint d)) in
    (d, if dictIsRehashing d
        then mkIter (rehashidx d - 1) (it_table it) (it_safe it) (it_entry it) (it_nextEntry it) (it_fingerprint it)
        else it)
  else (d, it).

(** iter->index++ with the change of table; [false] for the break *)
Definition iter_advance d it : bool * dictIterator K :=
  let index := it_index it + 1 in
  let moved := mkIter index (it_table it) (it_safe it) (it_entry it) (it_nextEntry it) (it_fingerprint it) in
  if index >=? s64 (DICTHT_SIZE (size_exp (get_ht d (it_table it)))) then
    if dictIsRehashing d && (it_table it =? 0)
    then (true, mkIter 0 (it_table it + 1) (it_safe it) (it_entry it) (it_nextEntry it) (it_fingerprint it))
    else (false, moved)
  else (true, moved).

Definition set_entry it (e : option K) : dictIterator K :=
  mkIter (it_index it) (it_table it) (it_safe it) e (it_nextEntry it) (it_fingerprint it).
Definition set_next it (e : option K) : dictIterator K :=
  mkIter (it_index it) (it_table it) (it_safe it) (it_entry it) e (it_fingerprint it).

(** iter->entry = iter->d->ht_table[iter->table][iter->index] at the next index *)
Definition iter_bucket d it : res (bool * dictIterator K) :=
  let '(go, it) := iter_advance d it in
  if (go : bool) then
    let! chain := get1 (it_index it) (table (get_ht d (it_table it))) in
    Ok (true, set_entry it (fst <$> head chain))
  else Ok (false, it).

(** The end of a turn: break, return of an entry, or another turn. *)
Definition iter_return (again : dict K V -> dictIterator K -> res (option (K * V) * dict K V * dictIterator K))
    d (r : res (bool * dictIterator K)) : res (option (K * V) * dict K V * dictIterator K) :=
  let! '(go, it) := r in
  if negb go then Ok (None, d, it)
  else
    match it_entry it with
    | Some key =>
        let! chain := get1 (it_index it) (table (get_ht d (it_table it))) in
        let! '(entry, chain) := chain_after key chain in
        Ok (Some entry, d, set_next it (fst <$> head chain))
    | None => again d it
    end.

Fixpoint dictNext_loop (fuel : nat) d it : res (option (K * V) * dict K V * dictIterator K) :=
  match fuel with
  | O => Fault OutOfFuel
  | S fuel =>
      match it_entry it with
      | None => let '(d, it) := iter_start d it in iter_return (dictNext_loop fuel) d (iter_bucket d it)
      | Some _ => iter_return (dictNext_loop fuel) d (Ok (true, set_entry it (it_nextEntry it)))
      end
  end.

(** Every turn that does not return moves on to another bucket. *)
Definition dictNext d it : res (option (K * V) * dict K V * dictIterator K) :=
  dictNext_loop (length (table (ht0 d)) + length (table (ht1 d)) + 2) d it.
End Iter.

(** * What is still to come *)

Section IterSpec.
Context {K V : Type} `{Countable K}.
Context (hashFunction : K -> Z) (table_address : list (list (K * V)) -> Z).
Implicit Types (d : dict K V) (it : dictIterator K).

Notation dict_ok := (dict_ok hashFunction).

(** The entries of the second table follow those of the first. *)
Definition second_table d (t : Z) : list (K * V) :=
  if dictIsRehashing d && (t =? 0) then concat (table (ht1 d)) else [].

(** The entries in the buckets from [index] on. *)
Definition from_bucket d (t index : Z) : list (K * V) :=
  concat (drop (Z.to_nat index) (table (get_ht d t))) ++ second_table d t.

Definition valid_table d (t : Z) : Prop := t = 0 \/ (t = 1 /\ dictIsRehashing d = true).

(** The iterator has not started; or the rest [post] of the current chain and the buckets
    after it are to come, whether or not the entry returned last is still in the chain; or
    the dict has been emptied, possibly with a new table. *)
Definition iter_todo d it (rest : list (K * V)) : Prop :=
  (it_entry it = None /\ it_index it = -1 /\ it_table it = 0 /\ rest = entries d) \/
  (exists pre post, it_entry it <> None /\ valid_table d (it_table it) /\
     get1 (it_index it) (table (get_ht d (it_table it))) = Ok (pre ++ post) /\
     it_nextEntry it = fst <$> head post /\ rest = post ++ from_bucket d (it_table it) (it_index it + 1)) \/
  (it_entry it <> None /\ it_nextEntry it = None /\ it_table it = 0 /\ 0 <= it_index it /\
     dictIsRehashing d = false /\ entries d = [] /\ rest = []).

Lemma chain_after_spec (pre post : list (K * V)) k v :
  k ∉ pre.*1 -> chain_after k (pre ++ (k, v) :: post) = Ok ((k, v), post).
Proof.
  induction pre as [|[k' v'] pre IH]; simpl; intros Hn; [by rewrite decide_True|].
  apply not_elem_of_cons in Hn as [Hk Hn]. rewrite decide_False by done. by apply IH.
Qed.

(** In the chain of a bucket every key is there once. *)
Lemma chain_nodup d t i c : dict_ok d -> valid_table d t -> get1 i (table (get_ht d t)) = Ok c -> NoDup c.*1.
Proof.
  intros Hd Ht Hc. destruct (chain_split d t i c) as (rest & Hp & _); [destruct Ht as [->|[-> _]]; auto|done|].
  pose proof (ok_nodup _ d Hd) as Hn. rewrite Hp, fmap_app in Hn. by apply list.NoDup_app in Hn as [? _].
Qed.

Lemma chain_at d t i pre k v post :
  dict_ok d -> valid_table d t -> get1 i (table (get_ht d t)) = Ok (pre ++ (k, v) :: post) ->
  chain_after k (pre ++ (k, v) :: post) = Ok ((k, v), post).
Proof.
  intros Hd Ht Hc. apply chain_after_spec. pose proof (chain_nodup d t i _ Hd Ht Hc) as Hn.
  rewrite fmap_app in Hn. apply list.NoDup_app in Hn as (_ & Hn & _). intros Hin. apply (Hn k Hin). simpl. left.
Qed.

Lemma table_size d t : dict_ok d -> valid_table d t ->
  s64 (DICTHT_SIZE (size_exp (get_ht d t))) = zlength (table (get_ht d t)).
Proof.
  intros Hd Ht. assert (ht_ok hashFunction (get_ht d t)) as Ho.
  { destruct Ht as [->|[-> _]]; [apply (ok_ht0 _ d Hd)|apply (ok_ht1 _ d Hd)]. }
  destruct (ht_ok_size _ _ Ho) as [E Hr]. rewrite <- E. apply s_id; unfold in_s; pow_const; lia.
Qed.

Lemma from_bucket_get d t i c :
  get1 i (table (get_ht d t)) = Ok c -> from_bucket d t i = c ++ from_bucket d t (i + 1).
Proof.
  intros Hg. apply get1_Ok in Hg as [Hi Hl]. unfold from_bucket. rewrite (drop_S _ c) by done.
  replace (Z.to_nat (i + 1)) with (S (Z.to_nat i)) by lia. cbn [concat]. by rewrite <- (assoc_L (++)).
Qed.

Lemma from_bucket_end d t i : zlength (table (get_ht d t)) <= i -> from_bucket d t i = second_table d t.
Proof. intros Hi. unfold from_bucket. by rewrite drop_ge by lia. Qed.

(** The answer of dictNext: the first entry to come, and the rest is to come after it. *)
Definition iter_answer d it (r : res (option (K * V) * dict K V * dictIterator K)) (todo : list (K * V)) : Prop :=
  exists it', r = Ok (head todo, d, it') /\ it_safe it' = it_safe it /\ it_fingerprint it' = it_fingerprint it /\
    (it_index it' <> -1 \/ it_table it' <> 0) /\ (todo <> [] -> iter_todo d it' (tail todo)).

(** The entry at the front of the rest [post] of a chain is returned. *)
Lemma return_entry again d it pre e post :
  dict_ok d -> valid_table d (it_table it) ->
  get1 (it_index it) (table (get_ht d (it_table it))) = Ok (pre ++ e :: post) ->
  iter_answer d it (iter_return again d (Ok (true, set_entry it (Some (fst e)))))
    (e :: post ++ from_bucket d (it_table it) (it_index it + 1)).
Proof.
  intros Hd Ht Hc. destruct e as [k v]. unfold iter_return. cbn [negb it_entry it_index it_table set_entry fst].
  rewrite Hc. rewrite (chain_at d (it_table it) (it_index it) pre k v post) by done.
  eexists. split; [done|]. pose proof Hc as Hg. apply get1_Ok in Hg as [? _]. cbn [it_index set_next set_entry]. split_and!; [done..|left; lia|].
  intros _. right; left. exists (pre ++ [(k, v)]), post.
  cbn [it_entry it_table it_index it_nextEntry set_next set_entry].
  split_and!; try done. by rewrite <- (assoc_L (++)).
Qed.

(** From a position with no entry at hand: the next entry of the buckets that follow, or
    the end. *)
Lemma scan_buckets d : dict_ok d -> forall fuel it,
  valid_table d (it_table it) -> it_entry it = None -> -1 <= it_index it < zlength (table (get_ht d (it_table it))) ->
  zlength (table (get_ht d (it_table it))) - it_index it +
    (if it_table it =? 0 then zlength (table (ht1 d)) else 0) <= Z.of_nat fuel ->
  iter_answer d it (iter_return (dictNext_loop table_address fuel) d (iter_bucket d it))
    (from_bucket d (it_table it) (it_index it + 1)).
Proof.
  intros Hd. induction fuel as [|fuel IH]; intros it Ht He Hi Hf; [destruct (it_table it =? 0); lia|].
  assert (forall it2, valid_table d (it_table it2) -> it_entry it2 = None ->
    0 <= it_index it2 < zlength (table (get_ht d (it_table it2))) ->
    it_safe it2 = it_safe it -> it_fingerprint it2 = it_fingerprint it ->
    zlength (table (get_ht d (it_table it2))) - it_index it2 + (if it_table it2 =? 0 then zlength (table (ht1 d)) else 0) <= Z.of_nat fuel ->
    iter_answer d it (iter_return (dictNext_loop table_address (S fuel)) d
        (let! chain := get1 (it_index it2) (table (get_ht d (it_table it2))) in Ok (true, set_entry it2 (fst <$> head chain))))
      (from_bucket d (it_table it2) (it_index it2))) as Hload.
  { intros it2 Ht2 He2 Hi2 Hs2 Hfp2 Hf2.
    destruct (get1_in (table (get_ht d (it_table it2))) (it_index it2)) as [c Hc]; [lia|].
    rewrite (from_bucket_get d _ _ c Hc), Hc. destruct c as [|e post]; cbn [head fmap option_fmap option_map].
    - cbn [iter_return negb it_entry set_entry dictNext_loop]. unfold iter_start. cbn [it_index it_table set_entry].
      rewrite (proj2 (Z.eqb_neq (it_index it2) (-1))) by lia. cbn [andb].
      destruct (IH (set_entry it2 None)) as (it' & Hit & Hs' & Hfp' & Hi' & Hto); [done|done|simpl; lia|simpl; lia|].
      exists it'. rewrite Hit. cbn [it_safe it_fingerprint set_entry] in *. split_and!; [done|congruence..|done|done].
    - destruct (return_entry (dictNext_loop table_address (S fuel)) d it2 [] e post Hd Ht2 Hc) as (it' & Hit & Hs' & Hfp' & Hi' & Hto).
      exists it'. split_and!; [done|congruence..|done|done]. }
  unfold iter_bucket, iter_advance. rewrite (table_size d _ Hd Ht), Z.geb_leb.
  destruct (Z.leb_spec (zlength (table (get_ht d (it_table it)))) (it_index it + 1)) as [Hend|Hin].
  - rewrite (from_bucket_end d _ _ Hend) in *. unfold second_table in *.
    destruct (dictIsRehashing d && (it_table it =? 0)) eqn:Er.
    + apply andb_true_iff in Er as [Er Et%Z.eqb_eq]. rewrite Et in *.
      assert (concat (table (ht1 d)) = from_bucket d 1 0) as ->
        by (unfold from_bucket, second_table; cbn [Z.eqb]; by rewrite andb_false_r, app_nil_r).
      pose proof Er as Er'. unfold dictIsRehashing in Er'. apply negb_true_iff, Z.eqb_neq in Er'.
      destruct (ok_rehash _ d Hd Er') as (_ & Ha & _). pose proof (ha_len _ _ Ha). pose proof (pow_range _ (ha_exp _ _ Ha)).
      refine (Hload (mkIter 0 1 _ _ _ _) _ _ _ _ _ _); cbn [it_table it_index it_entry it_safe it_fingerprint]; try done.
      * right. by split.
      * unfold get_ht. cbn [Z.eqb]. lia.
      * unfold get_ht in *. cbn [Z.eqb] in *. lia.
    + eexists. split; [done|]. cbn [it_safe it_fingerprint it_index it_table]. split_and!; [done..|left; lia|done].
  - refine (Hload (mkIter _ _ _ _ _ _) _ _ _ _ _ _); cbn [it_table it_index it_entry it_safe it_fingerprint]; try done; lia.
Qed.

Lemma concat_nils {A} (t : list (list A)) r :
  (forall i, (i < r)%nat -> t !! i = Some []) -> concat (drop r t) = concat t.
Proof.
  intros Hn. rewrite <- (take_drop r t) at 2. rewrite concat_app.
  replace (concat (take r t)) with (@nil A); [done|]. symmetry. apply concat_nil_Forall, Forall_forall.
  intros c Hc%list_elem_of_In%list_elem_of_lookup. destruct Hc as [i Hi]. apply lookup_take_Some in Hi as [Hi Hr].
  specialize (Hn i Hr). congruence.
Qed.

(** The rehashed buckets of the first table, which the iterator passes over, are empty. *)
Lemma from_start d : dict_ok d -> from_bucket d 0 (if dictIsRehashing d then rehashidx d else 0) = entries d.
Proof.
  intros Hd. unfold from_bucket, second_table, entries, dictIsRehashing. cbn [Z.eqb]. rewrite andb_true_r.
  change (get_ht d 0) with (ht0 d). destruct (Z.eqb_spec (rehashidx d) (-1)) as [E|E]; cbn [negb].
  - by rewrite (ok_idle _ d Hd E).
  - f_equal. apply concat_nils. intros i Hi. apply (ok_rehash _ d Hd E). lia.
Qed.

(** A safe iterator pauses rehashing when it starts. *)
Definition iter_dict d it : dict K V :=
  if bool_decide (it_entry it = None) && it_safe it then dictPauseRehashing d else d.

Lemma iter_dict_ok d it : dict_ok d -> dict_ok (iter_dict d it).
Proof. intros Hd. unfold iter_dict. destruct (_ && _); [|done]. destruct Hd. by split. Qed.

Lemma iter_dict_ht d it t : get_ht (iter_dict d it) t = get_ht d t.
Proof. unfold iter_dict. by destruct (_ && _). Qed.

Lemma iter_dict_todo d it it' rest : iter_todo (iter_dict d it) it' rest <-> iter_todo d it' rest.
Proof. unfold iter_dict. by destruct (_ && _). Qed.

(** The entry at hand is the last of its chain. *)
Lemma resume_scan d : dict_ok d -> forall it,
  valid_table d (it_table it) -> 0 <= it_index it < zlength (table (get_ht d (it_table it))) ->
  iter_answer d it
    (iter_return (dictNext_loop table_address (S (length (table (ht0 d)) + length (table (ht1 d))))) d
       (Ok (true, set_entry it None)))
    (from_bucket d (it_table it) (it_index it + 1)).
Proof.
  intros Hd it Ht Hi. cbn [iter_return negb it_entry set_entry dictNext_loop]. unfold iter_start.
  cbn [it_index it_table set_entry]. rewrite (proj2 (Z.eqb_neq (it_index it) (-1))) by lia. cbn [andb].
  destruct (scan_buckets d Hd (length (table (ht0 d)) + length (table (ht1 d))) (set_entry it None))
    as (it' & Hit & Hs' & Hfp & Hx & Hto); [done|done|simpl; lia| |].
  { cbn [it_index it_table set_entry]. unfold get_ht in *. destruct Ht as [E|[E _]]; rewrite E in *; cbn [Z.eqb] in *; lia. }
  by exists it'.
Qed.

(** Nothing is in the buckets of an empty dict. *)
Lemma from_bucket_nil d t i : t = 0 -> entries d = [] -> from_bucket d t i = [].
Proof.
  intros -> He. unfold entries in He. apply app_eq_nil in He as [H0 H1].
  unfold from_bucket, second_table. change (get_ht d 0) with (ht0 d). rewrite H1.
  assert (concat (drop (Z.to_nat i) (table (ht0 d))) = []) as ->; [|by destruct (_ && _)].
  rewrite <- (take_drop (Z.to_nat i) (table (ht0 d))), concat_app in H0. by apply app_eq_nil in H0 as [_ ?].
Qed.

Lemma dictNext_spec d it rest :
  dict_ok d -> iter_todo d it rest ->
  exists it', dictNext table_address d it = Ok (head rest, iter_dict d it, it') /\ it_safe it' = it_safe it /\
    (it_safe it = false -> it_fingerprint it' = if decide (it_entry it = None) then dictFingerprint table_address d else it_fingerprint it) /\
    (it_index it' <> -1 \/ it_table it' <> 0) /\ (rest <> [] -> iter_todo d it' (tail rest)).
Proof.
  intros Hd [(He & Hi & Ht & ->)|[(pre & post & He & Ht & Hc & Hn & ->)|(He & Hn & Ht & Hi & Hre & Hem & ->)]];
    unfold dictNext.
  - replace (length _ + length _ + 2)%nat with (S (length (table (ht0 d)) + length (table (ht1 d)) + 1)) by lia.
    pose proof (from_start d Hd) as Hs. pose proof (iter_dict_ok d it Hd) as Hd'.
    destruct it as [ix tb sf en nx fp]. cbn [it_entry it_index it_table it_safe] in *. subst ix tb en.
    set (d1 := iter_dict d (mkIter (-1) 0 sf None nx fp)) in *.
    set (fp1 := if sf then fp else dictFingerprint table_address d).
    set (it2 := mkIter ((if dictIsRehashing d then rehashidx d else 0) - 1) 0 sf (@None K) nx fp1).
    assert (iter_start table_address d (mkIter (-1) 0 sf None nx fp) = (d1, it2)) as Hst.
    { unfold iter_start, it2, fp1, d1. by destruct sf, d; cbn; unfold dictIsRehashing; cbn; destruct (_ =? _). }
    cbn [dictNext_loop it_entry]. rewrite Hst.
    destruct (scan_buckets d1 Hd' (length (table (ht0 d)) + length (table (ht1 d)) + 1) it2) as (it' & Hit & Hs' & Hfp & Hx & Hto).
    + by left.
    + done.
    + unfold d1. rewrite iter_dict_ht. unfold it2. cbn [it_index it_table]. change (get_ht d 0) with (ht0 d).
      unfold dictIsRehashing. destruct (Z.eqb_spec (rehashidx d) (-1)) as [E|E]; cbn [negb]; [lia|].
      destruct (ok_rehash _ d Hd E) as (Ha & _ & Hr & _). pose proof (ha_len _ _ Ha). lia.
    + unfold d1. rewrite iter_dict_ht, (iter_dict_ht d _ 1 : ht1 _ = ht1 d). unfold it2. cbn [it_index it_table Z.eqb].
      change (get_ht d 0) with (ht0 d). unfold dictIsRehashing.
      destruct (Z.eqb_spec (rehashidx d) (-1)) as [E|E]; cbn [negb]; [lia|].
      destruct (ok_rehash _ d Hd E) as (Ha & _ & Hr & _). lia.
    + assert (from_bucket d1 (it_table it2) (it_index it2 + 1) = entries d) as Hfb.
      { unfold it2. cbn [it_index it_table]. replace (_ - 1 + 1) with (if dictIsRehashing d then rehashidx d else 0) by lia.
        rewrite <- Hs. unfold d1, iter_dict. by destruct (_ && _). }
      rewrite Hfb in *. exists it'. split; [exact Hit|]. split; [done|]. split.
      { intros Esf. rewrite decide_True by done. rewrite Hfp. unfold it2, fp1. rewrite Esf. reflexivity. }
      split; [done|]. intros Hne. apply (iter_dict_todo d (mkIter (-1) 0 sf None nx fp)). by apply Hto.
  - replace (length _ + length _ + 2)%nat with (S (S (length (table (ht0 d)) + length (table (ht1 d))))) by lia.
    destruct (it_entry it) as [k|] eqn:Hk; [|done].
    assert (iter_dict d it = d) as -> by (unfold iter_dict; by rewrite Hk). cbn [dictNext_loop]. rewrite Hk, Hn.
    pose proof Hc as Hg. apply get1_Ok in Hg as [Hi Hl]. apply lookup_lt_Some in Hl.
    destruct post as [|e post]; cbn [head fmap option_fmap option_map].
    + destruct (resume_scan d Hd it) as (it' & Hit & Hs' & Hfp & Hx & Hto); [done|lia|].
      exists it'. split; [exact Hit|]. split; [done|]. split; [|done]. intros _. by rewrite decide_False.
    + destruct (return_entry (dictNext_loop table_address (S (length (table (ht0 d)) + length (table (ht1 d))))) d it pre e post Hd Ht Hc)
        as (it' & Hit & Hs' & Hfp & Hx & Hto).
      exists it'. cbn [head tail app]. split; [exact Hit|]. split; [done|]. split; [|done]. intros _. by rewrite decide_False.
  - replace (length _ + length _ + 2)%nat with (S (S (length (table (ht0 d)) + length (table (ht1 d))))) by lia.
    destruct (it_entry it) as [k|] eqn:Hk; [|done].
    assert (iter_dict d it = d) as -> by (unfold iter_dict; by rewrite Hk). cbn [dictNext_loop]. rewrite Hk, Hn.
    destruct (Z.lt_ge_cases (it_index it) (zlength (table (ht0 d)))) as [Hlt|Hge].
    + destruct (resume_scan d Hd it) as (it' & Hit & Hs' & Hfp & Hx & Hto); [by left|rewrite Ht; done|].
      rewrite (from_bucket_nil d (it_table it)) in Hit, Hto by done. cbn [head] in *.
      exists it'. split; [exact Hit|]. split; [done|]. split; [|done]. intros _. by rewrite decide_False.
    + cbn [iter_return negb it_entry set_entry dictNext_loop]. unfold iter_start. cbn [it_index it_table set_entry].
      rewrite (proj2 (Z.eqb_neq (it_index it) (-1))) by lia. cbn [andb]. unfold iter_bucket, iter_advance.
      cbn [it_index it_table set_entry]. rewrite Ht, (table_size d 0 Hd) by by left. change (get_ht d 0) with (ht0 d).
      rewrite Z.geb_leb, (proj2 (Z.leb_le _ _)) by lia. rewrite Hre. cbn [andb iter_return negb].
      eexists. split; [done|]. cbn [it_safe it_fingerprint it_index it_table set_entry].
      split; [done|]. split; [intros _; by rewrite decide_False|]. split; [left; lia|done].
Qed.

(** * Iteration without changes to the dict *)

#[export] Instance dict_iterator : Iterator (dict K V) (dictIterator K) (K * V) := {
  next_element d it := let! '(e, _, it) := dictNext table_address d it in Ok (e, it);
  release_iterator d it := let! _ := dictResetIterator table_address d it in Ok tt
}.

(** An unsafe iterator returns every entry once, and when it is released the
    fingerprint is the one of the start. *)
#[export] Program Instance dict_iterator_spec : IteratorSpec (dict K V) (dictIterator K) (K * V) := {
  to_come d it es := dict_ok d /\ it_safe it = false /\ iter_todo d it es /\
    (it_entry it <> None -> it_fingerprint it = dictFingerprint table_address d)
}.
Next Obligation.
  intros d it es (Hd & Hs & Ht & Hfp). cbn [next_element dict_iterator].
  destruct (dictNext_spec d it es Hd Ht) as (it' & Hn & Hs' & Hf & Hst & Hto). rewrite Hn.
  assert (it_fingerprint it' = dictFingerprint table_address d) as Hfp'.
  { rewrite (Hf Hs). destruct (decide _); [done|by apply Hfp]. }
  exists it'. split; [done|]. destruct es as [|e es].
  - cbn [release_iterator dict_iterator]. unfold dictResetIterator. rewrite Hs', Hs, Hfp', Z.eqb_refl.
    by destruct (negb _).
  - split_and!; [done|congruence|by apply Hto|done].
Qed.

Lemma dict_to_come d : dict_ok d -> to_come d dictInitIterator (entries d).
Proof. intros Hd. split_and!; [done..| |done]. left. done. Qed.
End IterSpec.

(** * Insertion at a bucket found before *)

Section SetKey.
Context {K V : Type} `{Countable K}.
Context (hashFunction : K -> Z) (keyCompare : K -> K -> bool).
Context (resizeAllowed : option (Z -> Z * Z -> bool)) (dict_can_resize : dictResizeEnable).
Implicit Types (d : dict K V) (m : gmap K V).

(** dictSetKeyAtLink with [newItem] set, for a type without keyDup and without
    force_full_rehash: [bucket] is what dictFindLink stored, or NULL. *)
Definition dictSetKeyAtLink d (junk : V) (key : K) (bucket : option (Z * Z)) : res (dict K V) :=
  let snap0 := size_exp (ht0 d) in
  let snap1 := size_exp (ht1 d) in
  let! '(_, d) := dictExpandIfNeeded hashFunction resizeAllowed false dict_can_resize d in
  let! '(bucket, d) :=
    (match bucket with
     | Some b =>
         if negb (snap0 =? size_exp (ht0 d)) || negb (snap1 =? size_exp (ht1 d))
         then let! '(link, bucket, d) := dictFindLinkInternal hashFunction keyCompare dict_can_resize d key true in
              assert! bool_decide (bucket <> None) && bool_decide (link = None) in Ok (bucket, d)
         else Ok (Some b, d)
     | None =>
         let! '(link, bucket, d) := dictFindLinkInternal hashFunction keyCompare dict_can_resize d key true in
         assert! bool_decide (bucket <> None) && bool_decide (link = None) in Ok (bucket, d)
     end) in
  match bucket with
  | Some b => let! '(_, d) := dictInsertKeyAtLink d junk key b in Ok d
  | None => Fault OutOfBounds
  end.

(** keyCompare is an equality test. *)
Hypothesis Hcmp : forall a b, keyCompare a b = true <-> a = b.
Notation dict_ok := (dict_ok hashFunction).
Notation dict_rep := (dict_rep hashFunction).

(** The bucket a new key belongs to. *)
Definition bucket_for d (key : K) : Z * Z :=
  let t := if dictIsRehashing d then 1 else 0 in (t, ht_index d (dictHashKey hashFunction key) t).

Lemma findLink_bucket d m k :
  dict_rep d m -> ht_alloc hashFunction (ht0 d) ->
  exists r b d', dictFindLinkInternal hashFunction keyCompare dict_can_resize d k true = Ok (r, b, d') /\
    dict_rep d' m /\ same_pause d d' /\ ht_alloc hashFunction (ht0 d') /\ (r = None <-> m !! k = None) /\
    (r = None -> b = Some (bucket_for d' k)).
Proof.
  intros Hr Ha. pose proof Hr as [Hd _]. unfold dictFindLinkInternal. cbn [negb andb].
  destruct (step_for_key hashFunction dict_can_resize d k Hd) as (d' & -> & Hm & Hx).
  pose proof (rep_moved _ d d' m Hr Hm) as Hr'.
  assert (ht_alloc hashFunction (ht0 d')) as Ha'.
  { by apply (mv_alloc _ _ _ Hm). }
  destruct (search_tables_spec hashFunction keyCompare Hcmp d' k (ht_index d (dictHashKey hashFunction k) 0)) as (r & idx' & -> & Hs).
  - apply Hm.
  - done.
  - by apply index_range.
  - intros E. apply index_kept; [done..|lia].
  - do 3 eexists. split; [done|]. split_and!; [done|by apply (moved_pause hashFunction)..|done| |].
    + destruct r as [l|].
      * destruct Hs as [v Hl]. apply link_entries in Hl. apply (rep_lookup hashFunction d' m) in Hl; [|done]. split; [done|congruence].
      * split; [intros _|done]. apply (rep_none hashFunction d' m); [done|apply Hs].
    + intros ->. destruct Hs as [_ ->]. done.
Qed.

(** Without a forced full rehash, a resize shows in the sizes of the tables. *)
Lemma resize_visible d sz st d' b :
  dict_ok d -> 0 <= sz -> _dictExpand hashFunction false dict_can_resize d sz None = Ok (st, d', b) ->
  size_exp (ht0 d') = size_exp (ht0 d) -> size_exp (ht1 d') = size_exp (ht1 d) -> d' = d.
Proof.
  intros Hd Hsz. unfold _dictExpand, _dictResize. destruct (_ || _) eqn:Ei; [congruence|].
  apply orb_false_iff in Ei as [Ei _]. apply orb_false_iff in Ei as [Ei _]. rewrite Ei. cbn [negb].
  destruct (_ || _); [congruence|]. destruct (Z.eqb_spec (_dictNextExp sz) (size_exp (ht0 d))) as [E|E]; [congruence|].
  unfold dictIsRehashing in Ei. apply negb_false_iff, Z.eqb_eq in Ei. pose proof (ok_idle _ d Hd Ei) as Hr1.
  pose proof (nextExp_range sz Hsz). destruct (_ || _); intros [= <- <- <-]; cbn [ht0 ht1 size_exp set_ht set_rehashidx notify Z.eqb]; intros Ex0 Ex1.
  - cbn in Ex0. lia.
  - cbn in Ex1. rewrite Hr1 in Ex1. cbn in Ex1. lia.
Qed.

Lemma expand_visible d st d' :
  dict_ok d -> dictExpandIfNeeded hashFunction resizeAllowed false dict_can_resize d = Ok (st, d') ->
  size_exp (ht0 d') = size_exp (ht0 d) -> size_exp (ht1 d') = size_exp (ht1 d) -> d' = d.
Proof.
  intros Hd. pose proof (used_range _ d Hd) as [Hu _]. unfold dictExpandIfNeeded, dictExpand, DICT_HT_INITIAL_SIZE.
  destruct (dictIsRehashing d); [congruence|].
  destruct (_ =? 0).
  - destruct (_dictExpand _ _ _ d 4 None) as [[[st' d''] b]|] eqn:E; [|done]. intros [= <- <-].
    eapply resize_visible; [done| |exact E]. lia.
  - destruct (_ || _); [|congruence]. destruct (dictTypeResizeAllowed _ _ _); [|congruence].
    destruct (_dictExpand _ _ _ d (u64 (used (ht0 d) + 1)) None) as [[[st' d''] b]|] eqn:E; [|done]. intros [= <- <-].
    eapply resize_visible; [done| |exact E]. apply u_range. lia.
Qed.

Lemma same_pause_trans d1 d2 d3 : same_pause d1 d2 -> same_pause d2 d3 -> same_pause d1 d3.
Proof. intros [] []. split; congruence. Qed.

(** Looking a key up again after the tables may have changed, and inserting it. *)
Lemma search_insert d m junk k :
  dict_rep d m -> ht_alloc hashFunction (ht0 d) -> m !! k = None -> Z.of_nat (size m) + 1 < 2 ^ 58 ->
  exists b d1 l d2, dictFindLinkInternal hashFunction keyCompare dict_can_resize d k true = Ok (None, Some b, d1) /\
    dictInsertKeyAtLink d1 junk k b = Ok (l, d2) /\ dict_rep d2 (<[k := junk]> m) /\ same_pause d d2.
Proof.
  intros Hr Ha Hn Hsm. destruct (findLink_bucket d m k Hr Ha) as (r & b & d1 & Hf & Hr1 & Hp & Ha1 & [_ Hrn] & Hb).
  specialize (Hrn Hn). subst r. rewrite (Hb eq_refl) in Hf.
  destruct (dictInsert_contract hashFunction d1 m junk k Hr1 Ha1 Hn Hsm) as (l & d2 & Hi & Hr2 & _ & Hp2).
  exists (bucket_for d1 k), d1, l, d2. split; [done|]. split; [done|]. split; [done|]. by eapply same_pause_trans.
Qed.

(** The idiom of the callers: dictFindLink for the bucket, then dictSetKeyAtLink. *)
Lemma setKey_contract d m junk k :
  dict_rep d m -> m !! k = None -> Z.of_nat (size m) + 1 < 2 ^ 58 ->
  exists b d1 d2, dictFindLink hashFunction keyCompare dict_can_resize d k true = Ok (None, b, d1) /\
    dictSetKeyAtLink d1 junk k b = Ok d2 /\ dict_rep d2 (<[k := junk]> m) /\ same_pause d d2.
Proof.
  intros Hr Hn Hsm. unfold dictFindLink, dictSetKeyAtLink. destruct (Z.eqb_spec (dictSize d) 0) as [Hz|Hz].
  - exists None, d. destruct (expandIfNeeded_spec hashFunction dict_can_resize false resizeAllowed d (proj1 Hr)) as (st & d1 & -> & Hrz & Ha).
    pose proof (rz_moved _ _ _ Hrz) as Hm. pose proof (rep_moved _ d d1 m Hr Hm) as Hr1.
    destruct (search_insert d1 m junk k Hr1 Ha Hn Hsm) as (b & d2 & l & d3 & Hf & Hi & Hr3 & Hp3).
    rewrite Hf, !bool_decide_eq_true_2 by done. cbn [andb]. rewrite Hi.
    exists d3. split; [done|]. split; [done|]. split; [done|].
    eapply same_pause_trans; [by eapply (moved_pause hashFunction)|done].
  - assert (ht_alloc hashFunction (ht0 d)) as Ha.
    { apply nonempty_alloc; [apply Hr|]. intros E. apply Hz. rewrite (rep_dictSize _ d m Hr), <- (rep_size _ d m Hr), E. done. }
    destruct (findLink_bucket d m k Hr Ha) as (r & b & d1 & -> & Hr1 & Hp1 & Ha1 & [_ Hrn] & Hb).
    specialize (Hrn Hn). subst r. rewrite (Hb eq_refl). exists (Some (bucket_for d1 k)), d1.
    destruct (expandIfNeeded_spec hashFunction dict_can_resize false resizeAllowed d1 (proj1 Hr1)) as (st & d2 & He & Hrz & Ha2).
    rewrite He. pose proof (rz_moved _ _ _ Hrz) as Hm. pose proof (rep_moved _ d1 d2 m Hr1 Hm) as Hr2.
    destruct (negb _ || negb _) eqn:Ec.
    + destruct (search_insert d2 m junk k Hr2 Ha2 Hn Hsm) as (b' & d3 & l & d4 & Hf & Hi & Hr4 & Hp4).
      rewrite Hf, !bool_decide_eq_true_2 by done. cbn [andb]. rewrite Hi.
      exists d4. split; [done|]. split; [done|]. split; [done|].
      eapply same_pause_trans; [done|]. eapply same_pause_trans; [by eapply (moved_pause hashFunction)|done].
    + apply orb_false_iff in Ec as [E0%negb_false_iff%Z.eqb_eq E1%negb_false_iff%Z.eqb_eq].
      rewrite (expand_visible d1 st d2 (proj1 Hr1) He) in * by done.
      destruct (dictInsert_contract hashFunction d1 m junk k Hr1 Ha1 Hn Hsm) as (l & d3 & Hi & Hr3 & _ & Hp3).
      unfold bucket_for. cbn zeta. rewrite Hi. exists d3. split; [done|]. split; [done|]. split; [done|]. by eapply same_pause_trans.
Qed.
End SetKey.
