(* ===== verification/DictSafe.v ===== *)
(** Deleting while iterating: a safe iterator of src/redis-stable/src/dict.c pauses
    rehashing, so that entries that have been returned can be deleted before the next call
    of dictNext; the deletions may start a rehash or replace an emptied table. *)

From stdpp Require Import gmap.
From S2P Require Import Prelude Machine Iterable Dict DictInv DictOps DictIter.

Section Safe.
Context {K V : Type} `{Countable K}.
Context (hashFunction : K -> Z) (keyCompare : K -> K -> bool).
Hypothesis Hcmp : forall a b, keyCompare a b = true <-> a = b.
Context (resizeAllowed : option (Z -> Z * Z -> bool)) (dict_can_resize : dictResizeEnable).
Implicit Types (d : dict K V) (m : gmap K V) (it : dictIterator K).
Local Notation dict_ok := (dict_ok hashFunction).
Local Notation dict_rep := (dict_rep hashFunction).

(** * Shrinking under an iterator *)

(** What shrinking does: nothing; a rehash starts; an empty table is replaced. *)
Definition shrunk d d' : Prop :=
  d' = d \/
  (dictIsRehashing d = false /\ ht0 d' = ht0 d /\ concat (table (ht1 d')) = [] /\
   dictIsRehashing d' = true /\ entries d <> []) \/
  (dictIsRehashing d = false /\ dictIsRehashing d' = false /\ entries d = [] /\ entries d' = []).

Lemma used_zero d : dict_ok d -> used (ht0 d) = 0 -> concat (table (ht0 d)) = [].
Proof.
  intros Hd Hu. destruct (ok_ht0 _ d Hd) as [E|Ha].
  - by rewrite E.
  - pose proof (ha_used _ _ Ha) as Hl. rewrite Hu in Hl. by apply nil_length_inv; lia.
Qed.

Lemma resize_shrunk d size st d' f :
  dict_ok d -> _dictResize hashFunction false dict_can_resize d size None = Ok (st, d', f) -> shrunk d d'.
Proof.
  intros Hd. unfold _dictResize. destruct (dictIsRehashing d) eqn:Hr; [done|]. cbn [negb].
  destruct (_ || _); [intros [= <- <- <-]; by left|].
  destruct (_ =? size_exp (ht0 d)); [intros [= <- <- <-]; by left|].
  destruct ((size_exp _ =? -1) || (used _ =? 0)) eqn:He; intros [= <- <- <-].
  - right; right. split_and!; [done..| |].
    + unfold dictIsRehashing in Hr. apply negb_false_iff, Z.eqb_eq in Hr.
      assert (concat (table (ht0 d)) = []) as H0.
      { apply orb_true_iff in He as [He|He]; apply Z.eqb_eq in He; [|by apply used_zero].
        destruct (ok_ht0 _ d Hd) as [E|Ha]; [by rewrite E|]. cbn in He. pose proof (ha_exp _ _ Ha). lia. }
      unfold entries. by rewrite H0, (ok_idle _ d Hd Hr).
    + unfold entries. cbn. by rewrite concat_replicate_nil.
  - right; left. split_and!; [done..|cbn; apply concat_replicate_nil|done|].
    apply orb_false_iff in He as [He Hu]. apply Z.eqb_neq in He, Hu. cbn in He, Hu.
    destruct (ok_ht0 _ d Hd) as [E|Ha]; [by rewrite E in Hu|]. rewrite (ha_used _ _ Ha) in Hu.
    unfold entries. intros [E _]%app_eq_nil. by rewrite E in Hu.
Qed.

Lemma autoShrink_shrunk d d' :
  dict_ok d -> _dictShrinkIfNeeded hashFunction resizeAllowed false dict_can_resize d = Ok d' -> shrunk d d'.
Proof.
  intros Hd. unfold _dictShrinkIfNeeded, dictShrinkIfNeeded, dictShrink.
  destruct (_ >? 0); [intros [= <-]; by left|].
  destruct (dictIsRehashing d) eqn:Hr; [intros [= <-]; by left|].
  destruct (_ <=? DICT_HT_INITIAL_SIZE); [intros [= <-]; by left|].
  destruct (_ || _); [|intros [= <-]; by left].
  destruct (dictTypeResizeAllowed _ _ _); [|intros [= <-]; by left].
  cbn [orb]. destruct (_ || _); [intros [= <-]; by left|].
  destruct (_dictResize _ _ _ _ _ _) as [[[st d1] f]|] eqn:E; [|done]. intros [= <-].
  by eapply resize_shrunk.
Qed.

Lemma elem_concat_drop {A} (t : list (list A)) i n c x :
  (n <= i)%nat -> t !! i = Some c -> x ∈ c -> x ∈ concat (drop n t).
Proof.
  intros Hi Hc Hx. apply list_elem_of_In, in_concat. exists c. split; [|by apply list_elem_of_In].
  apply list_elem_of_In, list_elem_of_lookup. exists (i - n)%nat. rewrite lookup_drop. rewrite <- Hc. f_equal. lia.
Qed.

Lemma iter_shrunk d d' it rest :
  shrunk d d' -> it_entry it <> None -> iter_todo d it rest -> iter_todo d' it rest.
Proof.
  intros [->|[(Hr & H0 & H1 & Hr' & Hne)|(Hr & Hr' & Hem & Hem')]] Hst Ht; [done|..].
  - destruct Ht as [(He & _)|[(pre & post & _ & [Et|[_ E]] & Hc & Hn & ->)|(_ & _ & _ & _ & _ & E & _)]];
      try congruence.
    right; left. exists pre, post. rewrite Et in *. change (get_ht d' 0) with (ht0 d'). rewrite H0.
    split_and!; [done|by left|done..|]. unfold from_bucket, second_table.
    change (get_ht d' 0) with (ht0 d'). change (get_ht d 0) with (ht0 d). rewrite Hr, Hr', H0, H1. done.
  - right; right. assert (it_table it = 0 /\ 0 <= it_index it /\ it_nextEntry it = None /\ rest = []) as (? & ? & ? & ->);
      [|by split_and!].
    destruct Ht as [(He & _)|[(pre & post & _ & [Et|[_ E]] & Hc & Hn & ->)|(_ & ? & ? & ? & _ & _ & ?)]];
      [done| |congruence|done].
    rewrite from_bucket_nil in * by done. rewrite Et in Hc. change (get_ht d 0) with (ht0 d) in Hc.
    apply get1_Ok in Hc as [Hi Hc]. assert (post = []) as ->.
    { destruct post as [|e post]; [done|]. exfalso. unfold entries in Hem. apply app_eq_nil in Hem as [Hem _].
      assert (e ∈ concat (drop 0 (table (ht0 d)))) as Hin
        by (eapply elem_concat_drop; [|exact Hc|]; [lia|apply elem_of_app; right; left]).
      rewrite drop_0, Hem in Hin. by apply not_elem_of_nil in Hin. }
    by split_and!.
Qed.

(** * Unlinking under an iterator *)

(** The dict after an entry has been taken out of its chain. *)
Lemma unlink_tables d l e d' :
  unlink_at d l = Ok (e, d') -> l_table l = 0 \/ l_table l = 1 ->
  exists c, get1 (l_idx l) (table (get_ht d (l_table l))) = Ok c /\ rehashidx d' = rehashidx d /\
    pauserehash d' = pauserehash d /\
    table (get_ht d' (l_table l)) =
      <[Z.to_nat (l_idx l) := take (l_pos l) c ++ drop (S (l_pos l)) c]> (table (get_ht d (l_table l))) /\
    get_ht d' (1 - l_table l) = get_ht d (1 - l_table l).
Proof.
  unfold unlink_at, set_chain. intros Hu Ht. destruct (get1 (l_idx l) _) as [c|] eqn:Hc; [|done].
  destruct (get1 (Z.of_nat (l_pos l)) c) as [he|] eqn:Hp; [|done].
  pose proof Hc as [Hi Hl]%get1_Ok. apply lookup_lt_Some in Hl. rewrite set1_insert in Hu by lia.
  injection Hu as _ <-. exists c. destruct Ht as [E|E]; rewrite E in *; done.
Qed.

Lemma iter_unlink d l k v e d' it rest :
  dict_ok d -> link_at d l k v -> unlink_at d l = Ok (e, d') -> it_entry it <> None -> entries d <> [] ->
  k ∉ rest.*1 -> iter_todo d it rest -> iter_todo d' it rest.
Proof.
  intros Hd [Hlt (c & Hc & Hk)] Hu Hst Hne Hnot Ht.
  destruct (unlink_tables d l e d' Hu Hlt) as (c' & Hc' & Hr & _ & Htab & Hother).
  assert (c' = c) as -> by congruence.
  destruct Ht as [(He & _)|[(pre & post & _ & Hv & Hch & Hn & ->)|(_ & _ & _ & _ & _ & E & _)]]; try done.
  assert (Hreh : dictIsRehashing d' = dictIsRehashing d) by (unfold dictIsRehashing; by rewrite Hr).
  assert (Hin : (k, v) ∈ c) by (apply list_elem_of_lookup; by exists (l_pos l)).
  assert (Hfrom : (k, v) ∉ from_bucket d (it_table it) (it_index it + 1)).
  { intros Hx. apply Hnot. rewrite fmap_app. apply elem_of_app. right. apply list_elem_of_fmap. by exists (k, v). }
  pose proof Hch as [Hi Hl]%get1_Ok. pose proof Hc as [Hi' Hl']%get1_Ok.
  right; left. destruct (decide (l_table l = it_table it)) as [Et|Et].
  - rewrite Et in *. assert (Hle : l_idx l <= it_index it).
    { destruct (Z.le_gt_cases (l_idx l) (it_index it)); [done|]. destruct Hfrom. unfold from_bucket.
      apply elem_of_app. left. by eapply elem_concat_drop; [|exact Hl'|]; [lia|]. }
    assert (Hfb : from_bucket d' (it_table it) (it_index it + 1) = from_bucket d (it_table it) (it_index it + 1)).
    { unfold from_bucket. rewrite Htab, drop_insert_lt by lia. f_equal. unfold second_table. rewrite Hreh.
      destruct Hlt as [E0|E0]; rewrite E0 in *; [|by rewrite andb_false_r]. change (get_ht d' (1 - 0)) with (ht1 d') in Hother.
      by rewrite Hother. }
    destruct (decide (l_idx l = it_index it)) as [Ei|Ei].
    + assert (c = pre ++ post) as -> by congruence.
      assert (Hpos : (l_pos l < length pre)%nat).
      { destruct (le_lt_dec (length pre) (l_pos l)) as [Hge|]; [|done]. destruct Hnot.
        rewrite lookup_app_r in Hk by done. rewrite fmap_app. apply elem_of_app. left.
        apply list_elem_of_fmap. exists (k, v). split; [done|]. apply list_elem_of_lookup. by eexists. }
      exists (take (l_pos l) pre ++ drop (S (l_pos l)) pre), post. split_and!; [done| | |done|by rewrite Hfb].
      * destruct Hv as [->|[-> ?]]; [by left|right; by rewrite Hreh].
      * apply get1_Ok. split; [done|]. rewrite Htab, Ei, list_lookup_insert_eq by (by eapply lookup_lt_Some).
        rewrite take_app_le, drop_app_le by lia. by rewrite <-app_assoc.
    + exists pre, post. split_and!; [done| | |done|by rewrite Hfb].
      * destruct Hv as [->|[-> ?]]; [by left|right; by rewrite Hreh].
      * apply get1_Ok. split; [done|]. by rewrite Htab, list_lookup_insert_ne by lia.
  - assert (Hsame : get_ht d' (it_table it) = get_ht d (it_table it)).
    { destruct Hlt as [E0|E0], Hv as [E1|[E1 _]]; rewrite E0, E1 in *; done. }
    assert (Hfb : from_bucket d' (it_table it) (it_index it + 1) = from_bucket d (it_table it) (it_index it + 1)).
    { unfold from_bucket in *. rewrite Hsame. f_equal. unfold second_table in *. rewrite Hreh.
      destruct (dictIsRehashing d && (it_table it =? 0)) eqn:Eb; [|done]. exfalso.
      apply andb_true_iff in Eb as [_ Eb%Z.eqb_eq]. destruct Hlt as [E0|E0]; [congruence|]. apply Hfrom.
      apply elem_of_app. right. rewrite <- (drop_0 (table (ht1 d))). rewrite E0 in Hl'.
      by eapply elem_concat_drop; [|exact Hl'|]; [lia|]. }
    exists pre, post. rewrite Hsame, Hfb. split_and!; try done.
    destruct Hv as [->|[-> ?]]; [by left|right; by rewrite Hreh].
Qed.
(** A key that is not to come can be deleted while the iterator is at work. *)
Lemma safe_delete d m it rest k :
  dict_rep d m -> iter_todo d it rest -> it_entry it <> None -> pauserehash d <> 0 -> k ∉ rest.*1 ->
  exists r d', dictGenericDelete hashFunction keyCompare resizeAllowed false dict_can_resize d k = Ok (r, d') /\
    dict_rep d' (delete k m) /\ iter_todo d' it rest /\ same_pause d d' /\ r = (pair k <$> m !! k).
Proof.
  intros Hr Ht Hst Hp Hk. pose proof Hr as [Hd _].
  destruct (genericDelete_contract hashFunction keyCompare Hcmp resizeAllowed false dict_can_resize d m k Hr)
    as (d' & Hdel & Hr' & Hp').
  exists (pair k <$> m !! k), d'. split_and!; try done; [|apply Hp'..]. revert Hdel. unfold dictGenericDelete.
  destruct (Z.eqb_spec (dictSize d) 0) as [Hz|Hz]; [intros [= _ <-]; done|].
  unfold _dictRehashStepIfNeeded. rewrite (proj2 (Z.eqb_neq _ _) Hp). cbn [negb]. rewrite orb_true_r.
  assert (Hne : entries d <> []).
  { intros Hnil. apply Hz. by rewrite (rep_dictSize hashFunction d m Hr), <- (rep_size hashFunction d m Hr), Hnil. }
  destruct (search_tables_spec hashFunction keyCompare Hcmp d k (ht_index d (dictHashKey hashFunction k) 0))
    as (r & idx' & -> & Hs).
  - done.
  - by apply nonempty_alloc.
  - by apply (index_range hashFunction).
  - done.
  - destruct r as [l|]; [|intros [= _ <-]; done]. destruct Hs as [v Hl].
    destruct (unlink_contract hashFunction d m l k v Hr Hl) as (d2 & Hu & Hr2 & _). rewrite Hu.
    destruct (_dictShrinkIfNeeded _ _ _ _ d2) as [d3|] eqn:Es; [|done]. intros [= _ <-].
    apply (iter_shrunk d2); [by apply autoShrink_shrunk; [apply Hr2|]|done|]. by eapply iter_unlink.
Qed.
End Safe.
