(* ===== verification/DictLog.v ===== *)
(** What a dict of src/redis-stable/src/dict.c tells its owner: every operation extends the
    log of notifications, so that an owner that processes the new part after each call
    has processed the whole log. *)

From stdpp Require Import gmap.
From S2P Require Import Prelude Machine Dict DictIter.

Section Log.
Context {K V : Type}.
Implicit Types d : dict K V.

Definition logged d d' : Prop := events d `prefix_of` events d'.

#[export] Instance logged_preorder : PreOrder logged.
Proof. unfold logged. split; [intros ?; done|]. intros d1 d2 d3 H1 H2. by etrans. Qed.

Lemma logged_trans d1 d2 d3 : logged d1 d2 -> logged d2 d3 -> logged d1 d3.
Proof. apply logged_preorder. Qed.

Lemma logged_same d d' : events d' = events d -> logged d d'.
Proof. unfold logged. by intros ->. Qed.

Lemma logged_set_ht d t h : logged d (set_ht d t h).
Proof. apply logged_same. unfold set_ht. by destruct (t =? 0). Qed.

Lemma logged_notify d e : logged d (notify d e).
Proof. by exists [e]. Qed.

Lemma logged_reset d t : logged d (_dictReset d t).
Proof. apply logged_set_ht. Qed.

Lemma logged_rehashidx d i : logged d (set_rehashidx d i).
Proof. by apply logged_same. Qed.

Lemma logged_pause d p : logged d (set_pauserehash d p).
Proof. by apply logged_same. Qed.
End Log.

Create HintDb dict_log discriminated.
#[export] Hint Resolve logged_set_ht logged_notify logged_reset logged_rehashidx logged_pause : dict_log.
#[export] Hint Extern 0 (logged ?d ?d) => reflexivity : dict_log.

(** Chase the dict backwards through the calls that produced it. *)
Ltac log_chain :=
  solve [ repeat first
    [ reflexivity
    | assumption
    | solve [eauto 2 with dict_log]
    | match goal with
      | |- logged _ (set_ht _ _ _) => eapply logged_trans; [|apply logged_set_ht]
      | |- logged _ (_dictReset _ _) => eapply logged_trans; [|apply logged_reset]
      | |- logged _ (notify _ _) => eapply logged_trans; [|apply logged_notify]
      | |- logged _ (set_rehashidx _ _) => eapply logged_trans; [|apply logged_rehashidx]
      | |- logged _ (set_pauserehash _ _) => eapply logged_trans; [|apply logged_pause]
      | |- logged _ ?d' => is_var d'; eapply logged_trans; [|solve [eauto 2 with dict_log]]
      end ] ].

(** Split a successful run of the body into its calls. *)
Ltac log_body H :=
  repeat match type of H with
  | Fault _ = Ok _ => discriminate H
  | Ok _ = Ok _ => injection H as H; subst
  | context [match ?e with _ => _ end] =>
      lazymatch e with
      | context [match _ with _ => _ end] => fail
      | _ => let E := fresh "E" in destruct e eqn:E
      end
  end.

Ltac log_call f := let H := fresh "H" in intros H; unfold f in H; log_body H; simplify_eq; try log_chain.

Section Calls.
Context {K V : Type} `{Countable K}.
Context (hashFunction : K -> Z) (keyCompare : K -> K -> bool).
Context (resizeAllowed : option (Z -> Z * Z -> bool)) (force_full_rehash : bool) (dict_can_resize : dictResizeEnable).
Implicit Types d : dict K V.

Lemma rehash_chain_log idx chain : forall d d', rehash_chain hashFunction chain idx d = Ok d' -> logged d d'.
Proof.
  induction chain as [|[k v] chain IH]; intros d d' H1; cbn [rehash_chain] in H1; [by simplify_eq|].
  log_body H1; try done; log_chain.
Qed.

#[local] Hint Resolve rehash_chain_log : dict_log.

Lemma rehashEntries_log d idx d' : rehashEntriesInBucketAtIndex hashFunction d idx = Ok d' -> logged d d'.
Proof. log_call @rehashEntriesInBucketAtIndex. Qed.
#[local] Hint Resolve rehashEntries_log : dict_log.

Lemma check_completed_log d b d' : dictCheckRehashingCompleted d = (b, d') -> logged d d'.
Proof. unfold dictCheckRehashingCompleted. destruct (negb _); intros [= _ <-]; log_chain. Qed.
#[local] Hint Resolve check_completed_log : dict_log.

Lemma skip_empty_log fuel : forall d ev b d' ev', skip_empty fuel d ev = Ok (b, d', ev') -> logged d d'.
Proof.
  induction fuel as [|fuel IH]; intros d ev b d' ev' H1; cbn [skip_empty] in H1; log_body H1; try done; log_chain.
Qed.
#[local] Hint Resolve skip_empty_log : dict_log.

Lemma rehash_loop_log n : forall d ev b d', dictRehash_loop hashFunction n d ev = Ok (b, d') -> logged d d'.
Proof.
  induction n as [|n IH]; intros d ev b d' H1; cbn [dictRehash_loop] in H1; log_body H1; try done; log_chain.
Qed.
#[local] Hint Resolve rehash_loop_log : dict_log.

Lemma dictRehash_log d n b d' : dictRehash hashFunction dict_can_resize d n = Ok (b, d') -> logged d d'.
Proof. log_call @dictRehash. Qed.
#[local] Hint Resolve dictRehash_log : dict_log.

Lemma rehash_all_log fuel : forall d d', dictRehash_all hashFunction dict_can_resize fuel d = Ok d' -> logged d d'.
Proof.
  induction fuel as [|fuel IH]; intros d d' H1; cbn [dictRehash_all] in H1; log_body H1; try done; log_chain.
Qed.
#[local] Hint Resolve rehash_all_log : dict_log.

Lemma bucketRehash_log d idx r d' : _dictBucketRehash hashFunction dict_can_resize d idx = Ok (r, d') -> logged d d'.
Proof. log_call @_dictBucketRehash. Qed.
#[local] Hint Resolve bucketRehash_log : dict_log.

Lemma rehashStep_log d d' : _dictRehashStep hashFunction dict_can_resize d = Ok d' -> logged d d'.
Proof. log_call @_dictRehashStep. Qed.
#[local] Hint Resolve rehashStep_log : dict_log.

Lemma stepIfNeeded_log d idx d' : _dictRehashStepIfNeeded hashFunction dict_can_resize d idx = Ok d' -> logged d d'.
Proof. log_call @_dictRehashStepIfNeeded. Qed.
#[local] Hint Resolve stepIfNeeded_log : dict_log.

Lemma resize_log d sz malloc st d' mf :
  _dictResize hashFunction force_full_rehash dict_can_resize d sz malloc = Ok (st, d', mf) -> logged d d'.
Proof. log_call @_dictResize. Qed.
#[local] Hint Resolve resize_log : dict_log.

Lemma expand_gen_log d sz malloc st d' mf :
  _dictExpand hashFunction force_full_rehash dict_can_resize d sz malloc = Ok (st, d', mf) -> logged d d'.
Proof. log_call @_dictExpand. Qed.
#[local] Hint Resolve expand_gen_log : dict_log.

Lemma dictExpand_log d sz st d' : dictExpand hashFunction force_full_rehash dict_can_resize d sz = Ok (st, d') -> logged d d'.
Proof. log_call @dictExpand. Qed.
#[local] Hint Resolve dictExpand_log : dict_log.

Lemma dictTryExpand_log d sz ok st d' :
  dictTryExpand hashFunction force_full_rehash dict_can_resize d sz ok = Ok (st, d') -> logged d d'.
Proof. log_call @dictTryExpand. Qed.

Lemma dictShrink_log d sz st d' : dictShrink hashFunction force_full_rehash dict_can_resize d sz = Ok (st, d') -> logged d d'.
Proof. log_call @dictShrink. Qed.
#[local] Hint Resolve dictShrink_log : dict_log.

Lemma expandIfNeeded_log d st d' :
  dictExpandIfNeeded hashFunction resizeAllowed force_full_rehash dict_can_resize d = Ok (st, d') -> logged d d'.
Proof. log_call @dictExpandIfNeeded. Qed.
#[local] Hint Resolve expandIfNeeded_log : dict_log.

Lemma autoExpand_log d st d' :
  _dictExpandIfNeeded hashFunction resizeAllowed force_full_rehash dict_can_resize d = Ok (st, d') -> logged d d'.
Proof. log_call @_dictExpandIfNeeded. Qed.
#[local] Hint Resolve autoExpand_log : dict_log.

Lemma shrinkIfNeeded_log d st d' :
  dictShrinkIfNeeded hashFunction resizeAllowed force_full_rehash dict_can_resize d = Ok (st, d') -> logged d d'.
Proof. log_call @dictShrinkIfNeeded. Qed.
#[local] Hint Resolve shrinkIfNeeded_log : dict_log.

Lemma autoShrink_log d d' :
  _dictShrinkIfNeeded hashFunction resizeAllowed force_full_rehash dict_can_resize d = Ok d' -> logged d d'.
Proof. log_call @_dictShrinkIfNeeded. Qed.
#[local] Hint Resolve autoShrink_log : dict_log.

Lemma findLinkInternal_log d k bkt r b d' :
  dictFindLinkInternal hashFunction keyCompare dict_can_resize d k bkt = Ok (r, b, d') -> logged d d'.
Proof. log_call @dictFindLinkInternal. Qed.
#[local] Hint Resolve findLinkInternal_log : dict_log.

Lemma findLink_log d k bkt r b d' :
  dictFindLink hashFunction keyCompare dict_can_resize d k bkt = Ok (r, b, d') -> logged d d'.
Proof. log_call @dictFindLink. Qed.
#[local] Hint Resolve findLink_log : dict_log.

Lemma dictFind_log d k r d' : dictFind hashFunction keyCompare dict_can_resize d k = Ok (r, d') -> logged d d'.
Proof. log_call @dictFind. Qed.

Lemma findForInsert_log d k r d' :
  dictFindLinkForInsert hashFunction keyCompare resizeAllowed force_full_rehash dict_can_resize d k = Ok (r, d') -> logged d d'.
Proof. log_call @dictFindLinkForInsert. Qed.
#[local] Hint Resolve findForInsert_log : dict_log.

Lemma insertAtLink_log d junk k b l d' : dictInsertKeyAtLink d junk k b = Ok (l, d') -> logged d d'.
Proof. log_call @dictInsertKeyAtLink. Qed.
#[local] Hint Resolve insertAtLink_log : dict_log.

Lemma dictAddRaw_log d junk k r d' :
  dictAddRaw hashFunction keyCompare resizeAllowed force_full_rehash dict_can_resize d junk k = Ok (r, d') -> logged d d'.
Proof. log_call @dictAddRaw. Qed.

Lemma set_chain_log d t i c d' : set_chain d t i c = Ok d' -> logged d d'.
Proof. log_call @set_chain. Qed.
#[local] Hint Resolve set_chain_log : dict_log.

Lemma dictSetVal_log d l v d' : dictSetVal d l v = Ok d' -> logged d d'.
Proof. log_call @dictSetVal. Qed.

Lemma unlink_at_log d l e d' : unlink_at d l = Ok (e, d') -> logged d d'.
Proof. log_call @unlink_at. Qed.
#[local] Hint Resolve unlink_at_log : dict_log.

Lemma genericDelete_log d k r d' :
  dictGenericDelete hashFunction keyCompare resizeAllowed force_full_rehash dict_can_resize d k = Ok (r, d') -> logged d d'.
Proof. log_call @dictGenericDelete. Qed.
#[local] Hint Resolve genericDelete_log : dict_log.

Lemma dictDelete_log d k st d' :
  dictDelete hashFunction keyCompare resizeAllowed force_full_rehash dict_can_resize d k = Ok (st, d') -> logged d d'.
Proof. log_call @dictDelete. Qed.

Lemma twoPhaseFind_log d k l d' :
  dictTwoPhaseUnlinkFind hashFunction keyCompare dict_can_resize d k = Ok (l, d') -> logged d d'.
Proof. log_call @dictTwoPhaseUnlinkFind. Qed.

Lemma twoPhaseFree_log d l d' :
  dictTwoPhaseUnlinkFree hashFunction resizeAllowed force_full_rehash dict_can_resize d l = Ok d' -> logged d d'.
Proof. log_call @dictTwoPhaseUnlinkFree. Qed.

Lemma release_extends d : events d `prefix_of` dictRelease d.
Proof.
  unfold dictRelease. destruct (dictIsRehashing d); [|by exists [BucketChanged (- dictBuckets d)]].
  eexists. cbn [events notify]. by rewrite <- (assoc_L (++)).
Qed.

Lemma dictEmpty_log d : logged d (dictEmpty d).
Proof. apply release_extends. Qed.
End Calls.

Lemma setKeyAtLink_log {K V} `{Countable K} (hashFunction : K -> Z) keyCompare resizeAllowed dict_can_resize (d : dict K V) junk k b d' :
  dictSetKeyAtLink hashFunction keyCompare resizeAllowed dict_can_resize d junk k b = Ok d' -> logged d d'.
Proof.
  intros H1. unfold dictSetKeyAtLink in H1.
  destruct (dictExpandIfNeeded _ _ _ _ _) as [[st d1]|] eqn:E1; [|done]. apply expandIfNeeded_log in E1.
  destruct (match b with Some _ => _ | None => _ end) as [[bkt d2]|] eqn:E2; [|done].
  assert (logged d1 d2) as Hl2.
  { log_body E2; try done; try reflexivity; by eapply findLinkInternal_log. }
  log_body H1; try done. etrans; [done|]. etrans; [done|]. by eapply insertAtLink_log.
Qed.
