(* ===== verification/DictScan.v ===== *)
(** Scanning hash tables: dictScan of src/redis-stable/src/dict.c.  The cursor is
    incremented in bit-reversed order; a key that stays in the dict from the first call
    to the last is returned, even when the table is resized or rehashed between calls. *)

From stdpp Require Import gmap.
From S2P Require Import Prelude Machine Dict DictInv DictOps.

(** * The model *)

(** while ((s >>= 1) > 0): [s] takes the values 32, 16, 8, 4, 2, 1 *)
Fixpoint rev_loop (fuel : nat) (s mask v : Z) : Z :=
  match fuel with
  | O => v
  | S fuel =>
      let s := Z.shiftr s 1 in
      if s >? 0 then
        let mask := Z.lxor mask (u64 (Z.shiftl mask s)) in
        let v := Z.lor (Z.land (Z.shiftr v s) mask) (Z.land (u64 (Z.shiftl v s)) (u64 (Z.lnot mask))) in
        rev_loop fuel s mask v
      else v
  end.
Definition rev (v : Z) : Z := rev_loop 7 64 (u64 (-1)) v.

(** v |= ~m; v = rev(v); v++; v = rev(v) *)
Definition next_cursor (v m : Z) : Z := rev (u64 (rev (Z.lor v (u64 (Z.lnot m))) + 1)).

Section Scan.
Context {K V : Type}.
Implicit Types d : dict K V.

(** The entries the callback sees in a bucket; the callback does not change the dict. *)
Definition dictScanDefragBucket d (tbl idx : Z) : res (list (K * V)) := get1 idx (table (get_ht d tbl)).

(** do ... while (v & (m0 ^ m1)) *)
Fixpoint scan_expansions (fuel : nat) d (htidx1 m0 m1 v : Z) (acc : list (K * V)) : res (Z * list (K * V)) :=
  match fuel with
  | O => Fault OutOfFuel
  | S fuel =>
      let! es := dictScanDefragBucket d htidx1 (Z.land v m1) in
      let v := next_cursor v m1 in
      if Z.land v (Z.lxor m0 m1) =? 0 then Ok (v, acc ++ es)
      else scan_expansions fuel d htidx1 m0 m1 v (acc ++ es)
  end.

(** The new cursor and the entries passed to the callback, in order; pausing and
    resuming rehashing cancel out. *)
Definition dictScan d (v : Z) : res (Z * list (K * V)) :=
  if dictSize d =? 0 then Ok (0, [])
  else if negb (dictIsRehashing d) then
    let m0 := DICTHT_SIZE_MASK (size_exp (ht0 d)) in
    let! es := dictScanDefragBucket d 0 (Z.land v m0) in
    Ok (next_cursor v m0, es)
  else
    let '(htidx0, htidx1) := if DICTHT_SIZE (size_exp (ht0 d)) >? DICTHT_SIZE (size_exp (ht1 d)) then (1, 0) else (0, 1) in
    let m0 := DICTHT_SIZE_MASK (size_exp (get_ht d htidx0)) in
    let m1 := DICTHT_SIZE_MASK (size_exp (get_ht d htidx1)) in
    let! es := dictScanDefragBucket d htidx0 (Z.land v m0) in
    scan_expansions (length (table (get_ht d htidx1))) d htidx1 m0 m1 v es.
End Scan.

(** * Bit reversal *)

Lemma bits_bound x n : 0 <= n -> 0 <= x -> (forall i, n <= i -> Z.testbit x i = false) -> x < 2 ^ n.
Proof.
  intros Hn Hx Hb. assert (x mod 2 ^ n = x) as <-; [|apply Z.mod_pos_bound; lia].
  apply Z.bits_inj'. intros i Hi. destruct (Z.lt_ge_cases i n).
  - by apply Z.mod_pow2_bits_low.
  - rewrite Z.mod_pow2_bits_high by lia. by rewrite Hb.
Qed.

Lemma bits_high x n i : 0 <= n -> 0 <= x < 2 ^ n -> n <= i -> Z.testbit x i = false.
Proof. intros Hn Hx Hi. rewrite <- (Z.mod_small x (2 ^ n)) by done. by apply Z.mod_pow2_bits_high. Qed.

(** Two 64-bit words are equal when their bits are. *)
Lemma bits_eq x y n : 0 <= n -> 0 <= x < 2 ^ n -> 0 <= y < 2 ^ n ->
  (forall i, 0 <= i < n -> Z.testbit x i = Z.testbit y i) -> x = y.
Proof.
  intros Hn Hx Hy Hb. apply Z.bits_inj'. intros i Hi. destruct (Z.lt_ge_cases i n); [by apply Hb|].
  by rewrite !(bits_high _ n) by done.
Qed.

Definition swap (s mask v : Z) : Z :=
  Z.lor (Z.land (Z.shiftr v s) mask) (Z.land (u64 (Z.shiftl v s)) (u64 (Z.lnot mask))).

(** One round of the parallel swap, bit by bit. *)
Lemma swap_bits v s mask i :
  0 < s -> 0 <= i < 64 ->
  Z.testbit (swap s mask v) i = if Z.testbit mask i then Z.testbit v (i + s) else Z.testbit v (i - s).
Proof.
  intros Hs Hi. unfold swap. rewrite Z.lor_spec, !Z.land_spec. unfold u. rewrite !Z.mod_pow2_bits_low by lia.
  rewrite Z.lnot_spec, Z.shiftl_spec, Z.shiftr_spec by lia.
  destruct (Z.testbit mask i); simpl; by rewrite ?andb_true_r, ?andb_false_r, ?orb_false_r.
Qed.

Lemma swap_range v s mask : 0 <= mask < 2 ^ 64 -> 0 <= v -> 0 <= swap s mask v < 2 ^ 64.
Proof.
  intros Hm Hv. assert (0 <= u64 (Z.lnot mask)) by (apply u_range; lia).
  assert (0 <= swap s mask v) as H0 by (apply Z.lor_nonneg; split; apply Z.land_nonneg; by right; lia).
  split; [done|]. apply bits_bound; [lia|done|]. intros i Hi. unfold swap. rewrite Z.lor_spec, !Z.land_spec.
  rewrite (bits_high mask 64), (bits_high (u64 (Z.lnot mask)) 64) by (done || lia || (apply u_range; lia)).
  by rewrite !andb_false_r.
Qed.

Lemma rev_unroll v :
  rev v = swap 1 0x5555555555555555 (swap 2 0x3333333333333333 (swap 4 0x0f0f0f0f0f0f0f0f
            (swap 8 0x00ff00ff00ff00ff (swap 16 0x0000ffff0000ffff (swap 32 0x00000000ffffffff v))))).
Proof. reflexivity. Qed.

Lemma rev_range v : 0 <= v -> 0 <= rev v < 2 ^ 64.
Proof. intros Hv. rewrite rev_unroll. repeat (apply swap_range; [done|]). done. Qed.

(** The bit of the argument that a round puts at position [i]. *)
Definition bit_from (s mask i : Z) : Z := if Z.testbit mask i then i + s else i - s.

Lemma swap_bit_from v s mask i : 0 < s -> 0 <= i < 64 -> Z.testbit (swap s mask v) i = Z.testbit v (bit_from s mask i).
Proof. intros Hs Hi. rewrite swap_bits by done. unfold bit_from. by destruct (Z.testbit mask i). Qed.

Lemma rev_bits v i : 0 <= i < 64 -> Z.testbit (rev v) i = Z.testbit v (63 - i).
Proof.
  intros Hi. set (ok i := (0 <=? i) && (i <? 64)).
  set (P i := let i1 := bit_from 1 0x5555555555555555 i in let i2 := bit_from 2 0x3333333333333333 i1 in
     let i3 := bit_from 4 0x0f0f0f0f0f0f0f0f i2 in let i4 := bit_from 8 0x00ff00ff00ff00ff i3 in
     let i5 := bit_from 16 0x0000ffff0000ffff i4 in let i6 := bit_from 32 0x00000000ffffffff i5 in
     ok i1 && ok i2 && ok i3 && ok i4 && ok i5 && (i6 =? 63 - i)).
  assert (forallb P (seqZ 0 64) = true) as HP by (vm_compute; reflexivity).
  rewrite List.forallb_forall in HP. specialize (HP i). rewrite <- list_elem_of_In, elem_of_seqZ in HP.
  specialize (HP ltac:(lia)). unfold P, ok in HP. rewrite rev_unroll.
  rewrite !andb_true_iff, !Z.leb_le, !Z.ltb_lt, Z.eqb_eq in HP. destruct HP as (((((H1 & H2) & H3) & H4) & H5) & H6).
  rewrite !swap_bit_from by lia. by rewrite H6.
Qed.

Lemma rev_involutive v : 0 <= v < 2 ^ 64 -> rev (rev v) = v.
Proof.
  intros Hv. pose proof (rev_range v ltac:(lia)). apply (bits_eq _ _ 64); [lia|apply rev_range; lia|done|].
  intros i Hi. rewrite !rev_bits by lia. f_equal. lia.
Qed.

(** * The cursor in reversed order *)

(** Reversed, the low [e] bits of a word are its position among 2^e intervals. *)
Lemma rev_low v e : 0 <= v < 2 ^ 64 -> 0 <= e <= 64 -> rev v / 2 ^ (64 - e) = rev (v mod 2 ^ e) / 2 ^ (64 - e).
Proof.
  intros Hv He. rewrite <- !Z.shiftr_div_pow2 by lia. apply Z.bits_inj'. intros i Hi. rewrite !Z.shiftr_spec by lia.
  destruct (Z.lt_ge_cases (i + (64 - e)) 64) as [Hlt|Hge].
  - rewrite !rev_bits, Z.mod_pow2_bits_low by lia. done.
  - assert (0 <= v mod 2 ^ e) by (apply Z.mod_pos_bound; lia).
    by rewrite !(bits_high _ 64) by (lia || apply rev_range; lia).
Qed.

(** Two hashes fall in the same bucket exactly when their reversals are in the same interval. *)
Lemma same_bucket v h e :
  0 <= v < 2 ^ 64 -> 0 <= h < 2 ^ 64 -> 0 <= e <= 64 ->
  v mod 2 ^ e = h mod 2 ^ e <-> rev v / 2 ^ (64 - e) = rev h / 2 ^ (64 - e).
Proof.
  intros Hv Hh He. split; [intros E; by rewrite (rev_low v), (rev_low h), E by done|]. intros E.
  apply (bits_eq _ _ e); [lia|apply Z.mod_pos_bound; lia..|]. intros i Hi. rewrite !Z.mod_pow2_bits_low by lia.
  assert (Z.testbit (rev v / 2 ^ (64 - e)) (e - 1 - i) = Z.testbit (rev h / 2 ^ (64 - e)) (e - 1 - i)) as Hb by by rewrite E.
  rewrite <- !Z.shiftr_div_pow2, !Z.shiftr_spec, !rev_bits in Hb by lia.
  by replace (63 - (e - 1 - i + (64 - e))) with i in Hb by lia.
Qed.

Lemma lor_ones w k : 0 <= k -> Z.lor w (Z.ones k) = w / 2 ^ k * 2 ^ k + (2 ^ k - 1).
Proof.
  intros Hk. assert (Z.lor w (Z.ones k) = Z.lor (Z.ones k) (Z.shiftl (Z.shiftr w k) k)) as ->.
  { apply Z.bits_inj'. intros i Hi. rewrite !Z.lor_spec, Z.shiftl_spec by lia. destruct (Z.lt_ge_cases i k).
    - by rewrite Z.ones_spec_low, orb_true_r by lia.
    - rewrite Z.ones_spec_high, Z.shiftr_spec, orb_false_r by lia. simpl. f_equal. lia. }
  rewrite lor_shl_add, Z.ones_equiv, Z.shiftr_div_pow2 by (rewrite ?Z.ones_equiv; lia). lia.
Qed.

(** The next cursor starts the next interval; after the last one it is 0. *)
Lemma next_cursor_rev v e :
  0 <= v < 2 ^ 64 -> 2 <= e <= 60 ->
  0 <= next_cursor v (Z.ones e) < 2 ^ 64 /\
  rev (next_cursor v (Z.ones e)) = ((rev v / 2 ^ (64 - e) + 1) * 2 ^ (64 - e)) mod 2 ^ 64.
Proof.
  intros Hv He. unfold next_cursor. set (w := u64 (rev _ + 1)). assert (0 <= w < 2 ^ 64) as Hw by (apply u_range; lia).
  split; [apply rev_range; lia|]. rewrite rev_involutive by done. unfold w, u. f_equal.
  assert (rev (Z.lor v ((Z.lnot (Z.ones e)) mod 2 ^ 64)) = rev v / 2 ^ (64 - e) * 2 ^ (64 - e) + (2 ^ (64 - e) - 1)) as ->; [|lia].
  pose proof (rev_range v ltac:(lia)) as Hr. pose proof (Z.pow_pos_nonneg 2 (64 - e) ltac:(lia) ltac:(lia)) as Hp.
  assert (0 <= Z.lnot (Z.ones e) mod 2 ^ 64 < 2 ^ 64) as Hn by (apply Z.mod_pos_bound; lia).
  assert (0 <= rev (Z.lor v (Z.lnot (Z.ones e) mod 2 ^ 64)) < 2 ^ 64) as Hrr by (apply rev_range, Z.lor_nonneg; lia).
  replace (rev v / 2 ^ (64 - e) * 2 ^ (64 - e) + (2 ^ (64 - e) - 1)) with (Z.lor (rev v) (Z.ones (64 - e))).
  - apply (bits_eq _ _ 64); [lia|done| |].
    + split; [apply Z.lor_nonneg; rewrite Z.ones_equiv; lia|]. apply bits_bound; [lia|apply Z.lor_nonneg; rewrite Z.ones_equiv; lia|].
      intros i Hi. rewrite Z.lor_spec, Z.ones_spec_high, (bits_high (rev v) 64) by lia. done.
    + intros i Hi. rewrite rev_bits, !Z.lor_spec, rev_bits, Z.mod_pow2_bits_low, Z.lnot_spec by lia. f_equal.
      destruct (Z.lt_ge_cases i (64 - e)).
      * rewrite Z.ones_spec_high, Z.ones_spec_low by lia. done.
      * rewrite Z.ones_spec_low, Z.ones_spec_high by lia. done.
  - apply lor_ones. lia.
Qed.

(** The bits between two masks, in reversed order. *)
Lemma mask_diff v e0 e1 :
  0 <= v < 2 ^ 64 -> 0 <= e0 <= e1 -> e1 <= 64 ->
  Z.land v (Z.lxor (Z.ones e0) (Z.ones e1)) = 0 <-> (rev v / 2 ^ (64 - e1)) mod 2 ^ (e1 - e0) = 0.
Proof.
  intros Hv He0 He1.
  assert (forall x, x = 0 <-> forall i, 0 <= i -> Z.testbit x i = false) as Hz.
  { intros x. split; [intros -> i _; apply Z.bits_0|]. intros H. apply Z.bits_inj'. intros i Hi. by rewrite H, Z.bits_0. }
  rewrite !Hz. rewrite <- Z.shiftr_div_pow2 by lia. split; intros H i Hi.
  - destruct (Z.lt_ge_cases i (e1 - e0)); [|by apply Z.mod_pow2_bits_high; lia].
    rewrite Z.mod_pow2_bits_low, Z.shiftr_spec, rev_bits by lia. specialize (H (63 - (i + (64 - e1))) ltac:(lia)).
    rewrite Z.land_spec, Z.lxor_spec, (Z.ones_spec_high e0), (Z.ones_spec_low e1), andb_true_r in H by lia. done.
  - rewrite Z.land_spec, Z.lxor_spec. destruct (Z.lt_ge_cases i e0).
    { rewrite !Z.ones_spec_low by lia. apply andb_false_r. }
    destruct (Z.lt_ge_cases i e1).
    + specialize (H (e1 - 1 - i) ltac:(lia)). rewrite Z.mod_pow2_bits_low, Z.shiftr_spec, rev_bits in H by lia.
      replace (63 - (e1 - 1 - i + (64 - e1))) with i in H by lia. by rewrite H.
    + rewrite !Z.ones_spec_high by lia. apply andb_false_r.
Qed.

(** * What a step covers *)

Section Cover.
Context {K V : Type} `{Countable K}.
Context (hashFunction : K -> Z).
Implicit Types (d : dict K V) (m : gmap K V).

(** The place of a key in the order of the scan. *)
Definition scan_pos (k : K) : Z := rev (hashFunction k mod 2 ^ 64).

Lemma scan_pos_range k : 0 <= scan_pos k < 2 ^ 64.
Proof. apply rev_range, Z.mod_pos_bound. lia. Qed.

Lemma mod_mod_64 h e : 0 <= e <= 64 -> (h mod 2 ^ 64) mod 2 ^ e = h mod 2 ^ e.
Proof.
  intros He. replace 64 with (e + (64 - e)) by lia. rewrite Z.pow_add_r, Z.rem_mul_r by lia.
  rewrite Z.mul_comm, Z.mod_add, Z.mod_mod by lia. done.
Qed.

(** The entries of a table whose keys are in the interval of the cursor are in the
    bucket of the cursor. *)
Lemma bucket_covers (h : ht K V) v c k x :
  ht_alloc hashFunction h -> 0 <= v < 2 ^ 64 ->
  get1 (Z.land v (DICTHT_SIZE_MASK (size_exp h))) (table h) = Ok c ->
  (k, x) ∈ concat (table h) -> scan_pos k / 2 ^ (64 - size_exp h) = rev v / 2 ^ (64 - size_exp h) -> (k, x) ∈ c.
Proof.
  intros Ha Hv Hg Hin Hpos. pose proof (ha_exp _ _ Ha) as He. rewrite mask_mod in Hg by lia.
  apply concat_In in Hin as (i & c' & Hc' & Hin). pose proof (ha_placed _ _ Ha _ _ _ _ Hc' Hin) as Hp.
  unfold scan_pos in Hpos. symmetry in Hpos.
  apply (same_bucket v _ (size_exp h)) in Hpos; [|done|apply Z.mod_pos_bound; lia|lia].
  rewrite mod_mod_64 in Hpos by lia. apply get1_Ok in Hg as [_ Hg]. rewrite Hpos, <- Hp, Nat2Z.id in Hg. congruence.
Qed.

Lemma bucket_get (h : ht K V) v :
  ht_alloc hashFunction h -> exists c, get1 (Z.land v (DICTHT_SIZE_MASK (size_exp h))) (table h) = Ok c /\ forall y, y ∈ c -> y ∈ concat (table h).
Proof.
  intros Ha. pose proof (ha_exp _ _ Ha) as He. rewrite mask_mod by lia.
  destruct (alloc_get _ h (v mod 2 ^ size_exp h) Ha) as [c Hc]; [apply Z.mod_pos_bound; lia|].
  exists c. split; [done|]. intros y Hy. apply get1_Ok in Hc as [_ Hc]. apply concat_In. by do 2 eexists.
Qed.

(** The loop over the expansions: from interval [q] to the end [hq] of the interval of
    the smaller table. *)
Lemma scan_expansions_spec d t e0 hq : forall fuel v acc,
  let h := get_ht d t in let e1 := size_exp h in let q := rev v / 2 ^ (64 - e1) in
  ht_alloc hashFunction h -> 2 <= e0 <= e1 -> 0 <= v < 2 ^ 64 ->
  q < hq <= 2 ^ e1 -> hq - q <= 2 ^ (e1 - e0) -> hq mod 2 ^ (e1 - e0) = 0 -> hq - q <= Z.of_nat fuel ->
  exists v' es, scan_expansions fuel d t (Z.ones e0) (Z.ones e1) v acc = Ok (v', acc ++ es) /\
    0 <= v' < 2 ^ 64 /\ rev v' = (hq * 2 ^ (64 - e1)) mod 2 ^ 64 /\
    (forall y, y ∈ es -> y ∈ concat (table h)) /\
    (forall k x, (k, x) ∈ concat (table h) -> q <= scan_pos k / 2 ^ (64 - e1) < hq -> (k, x) ∈ es).
Proof.
  induction fuel as [|fuel IH]; intros v acc h e1 q Ha He Hv Hq Hd Hm Hf; [lia|]. cbn [scan_expansions].
  pose proof (ha_exp _ _ Ha) as He1. fold h e1 in He1. unfold dictScanDefragBucket. fold h.
  destruct (bucket_get h v Ha) as (c & Hc & Hsub). pose proof Hc as Hc'. rewrite size_mask_pow in Hc by lia.
  fold e1 in Hc. rewrite Hc. destruct (next_cursor_rev v e1 Hv ltac:(lia)) as [Hv' Hrv']. fold q in Hrv'.
  set (v' := next_cursor v (Z.ones e1)) in *. set (st := 2 ^ (64 - e1)) in *.
  assert (2 ^ 64 = 2 ^ e1 * st) as Hst by (unfold st; rewrite <- Z.pow_add_r by lia; f_equal; lia).
  assert (0 < st) by (apply Z.pow_pos_nonneg; lia). assert (0 < 2 ^ (e1 - e0)) by (apply Z.pow_pos_nonneg; lia).
  assert (0 <= q) as Hq0 by (apply Z.div_pos; [apply rev_range|]; lia).
  pose proof (mask_diff v' e0 e1 Hv' ltac:(lia) ltac:(lia)) as Hmd. fold st in Hmd.
  assert (forall k x, (k, x) ∈ concat (table h) -> scan_pos k / st = q -> (k, x) ∈ c) as Hcov.
  { intros k x Hin Hp. by apply (bucket_covers h v c k x). }
  destruct (Z.eq_dec (q + 1) hq) as [E|E].
  - assert (Z.land v' (Z.lxor (Z.ones e0) (Z.ones e1)) = 0) as ->.
    { apply Hmd. rewrite Hrv', E, Hst. rewrite Z.mul_mod_distr_r, Z.div_mul by lia.
      destruct (Z.eq_dec hq (2 ^ e1)) as [->|]; [by rewrite Z.mod_same, Z.mod_0_l by lia|].
      by rewrite (Z.mod_small hq) by lia. }
    exists v', c. split_and!; [done|lia|lia|by rewrite Hrv', E|done|]. intros k x Hin Hp. apply Hcov; [done|lia].
  - assert (rev v' / st = q + 1) as Hq' by (rewrite Hrv', Z.mod_small, Z.div_mul by nia; done).
    assert (Z.land v' (Z.lxor (Z.ones e0) (Z.ones e1)) <> 0) as Hnz.
    { rewrite Hmd, Hq'. intros Hz. apply Z.mod_divide in Hm as [a Ha']; [|lia]. apply Z.mod_divide in Hz as [b Hb]; [|lia].
      assert (0 < a - b < 1); [|lia]. split; nia. }
    rewrite (proj2 (Z.eqb_neq _ _) Hnz).
    destruct (IH v' (acc ++ c)) as (v2 & es & Hs & Hv2 & Hr2 & Hsub2 & Hcov2); [done..|fold h e1 st; rewrite Hq'; lia|fold h e1 st; rewrite Hq'; lia|done|fold h e1 st; rewrite Hq'; lia|].
    exists v2, (c ++ es). fold h e1 in Hs, Hr2, Hsub2, Hcov2. fold st in Hr2, Hcov2. rewrite (assoc_L (++)). split_and!; [done|lia|lia|done| |].
    + intros y [Hy|Hy]%elem_of_app; auto.
    + intros k x Hin Hp. apply elem_of_app. rewrite Hq' in Hcov2.
      destruct (Z.eq_dec (scan_pos k / st) q); [left; by apply Hcov|right; apply Hcov2; [done|lia]].
Qed.

(** A call covers an interval of positions that starts at or before the cursor, and
    leaves the cursor at its end; [e] is the exponent of the smaller table. *)
Record scan_step d (v v' : Z) (es : list (K * V)) (e : Z) : Prop := {
  sc_exp : 2 <= e <= 60;
  sc_idle : rehashidx d = -1 -> e = size_exp (ht0 d);
  sc_reh : rehashidx d <> -1 -> e = Z.min (size_exp (ht0 d)) (size_exp (ht1 d));
  sc_range : 0 <= v' < 2 ^ 64;
  sc_next : rev v' = ((rev v / 2 ^ (64 - e) + 1) * 2 ^ (64 - e)) mod 2 ^ 64;
  sc_sub : forall y, y ∈ es -> y ∈ entries d;
  sc_cover : forall k x, (k, x) ∈ entries d ->
    rev v <= scan_pos k < (rev v / 2 ^ (64 - e) + 1) * 2 ^ (64 - e) -> (k, x) ∈ es
}.

Lemma interval_end w e :
  0 <= w < 2 ^ 64 -> 2 <= e <= 60 -> w < (w / 2 ^ (64 - e) + 1) * 2 ^ (64 - e) <= 2 ^ 64.
Proof.
  intros Hw He. assert (0 < 2 ^ (64 - e)) by (apply Z.pow_pos_nonneg; lia).
  assert (2 ^ 64 = 2 ^ e * 2 ^ (64 - e)) as H64 by (rewrite <- Z.pow_add_r by lia; f_equal; lia).
  pose proof (Z.mul_succ_div_gt w (2 ^ (64 - e)) ltac:(lia)).
  assert (w / 2 ^ (64 - e) < 2 ^ e) by (apply Z.div_lt_upper_bound; lia). split; [lia|nia].
Qed.

Lemma interval_div v e k :
  0 <= v -> 2 <= e <= 60 -> rev v <= scan_pos k < (rev v / 2 ^ (64 - e) + 1) * 2 ^ (64 - e) ->
  scan_pos k / 2 ^ (64 - e) = rev v / 2 ^ (64 - e).
Proof.
  intros Hv He Hp. assert (0 < 2 ^ (64 - e)) by (apply Z.pow_pos_nonneg; lia).
  symmetry. apply (Z.div_unique _ _ _ (scan_pos k - rev v / 2 ^ (64 - e) * 2 ^ (64 - e))); [left|lia].
  pose proof (Z.mul_div_le (rev v) (2 ^ (64 - e)) ltac:(lia)). lia.
Qed.

Lemma scan_idle d m v :
  dict_rep hashFunction d m -> dictSize d <> 0 -> rehashidx d = -1 -> 0 <= v < 2 ^ 64 ->
  exists v' es e, dictScan d v = Ok (v', es) /\ scan_step d v v' es e.
Proof.
  intros Hr Hz E Hv. pose proof Hr as [Hd _]. unfold dictScan, dictIsRehashing.
  rewrite (proj2 (Z.eqb_neq _ _) Hz), E. cbn [Z.eqb Pos.eqb negb].
  assert (ht_alloc hashFunction (ht0 d)) as Ha.
  { eapply (nonempty_alloc hashFunction); [done|]. intros Hnil. apply Hz. rewrite (rep_dictSize _ d m Hr), <- (rep_size _ d m Hr), Hnil. done. }
  pose proof (ha_exp _ _ Ha) as He. destruct (bucket_get (ht0 d) v Ha) as (c & Hc & Hsub). unfold dictScanDefragBucket, get_ht.
  cbn [Z.eqb]. rewrite Hc. destruct (next_cursor_rev v (size_exp (ht0 d)) Hv He) as [Hv' Hrv'].
  rewrite <- size_mask_pow in Hv', Hrv' by lia. do 2 eexists. exists (size_exp (ht0 d)).
  assert (entries d = concat (table (ht0 d))) as Hent by (unfold entries; rewrite (ok_idle _ d Hd E); apply app_nil_r).
  split; [done|]. split; try rewrite Hent; try done; try lia. intros k x Hin Hp. apply (bucket_covers (ht0 d) v c k x); [done..|].
  apply interval_div; (done || lia).
Qed.

(** The two tables by size. *)
Lemma order_tables d :
  ht_alloc hashFunction (ht0 d) -> ht_alloc hashFunction (ht1 d) ->
  exists t0 t1, (if DICTHT_SIZE (size_exp (ht0 d)) >? DICTHT_SIZE (size_exp (ht1 d)) then (1, 0) else (0, 1)) = (t0, t1) /\
    ht_alloc hashFunction (get_ht d t0) /\ ht_alloc hashFunction (get_ht d t1) /\
    size_exp (get_ht d t0) = Z.min (size_exp (ht0 d)) (size_exp (ht1 d)) /\
    size_exp (get_ht d t0) <= size_exp (get_ht d t1) /\
    (forall y, y ∈ entries d <-> y ∈ concat (table (get_ht d t0)) \/ y ∈ concat (table (get_ht d t1))).
Proof.
  intros Ha0 Ha1. pose proof (ha_exp _ _ Ha0). pose proof (ha_exp _ _ Ha1). unfold entries.
  rewrite !size_exp_pow, Z.gtb_ltb by lia. destruct (Z.ltb_spec (2 ^ size_exp (ht1 d)) (2 ^ size_exp (ht0 d))) as [Hlt|Hge].
  - apply Z.pow_lt_mono_r_iff in Hlt; [|lia..]. exists 1, 0. unfold get_ht. cbn [Z.eqb].
    split_and!; [done..|lia|lia|]. intros y. rewrite elem_of_app. tauto.
  - apply Z.pow_le_mono_r_iff in Hge; [|lia..]. exists 0, 1. unfold get_ht. cbn [Z.eqb].
    split_and!; [done..|lia|lia|]. intros y. rewrite elem_of_app. tauto.
Qed.

Lemma scan_rehashing d v :
  dict_ok hashFunction d -> dictSize d <> 0 -> rehashidx d <> -1 -> 0 <= v < 2 ^ 64 ->
  exists v' es e, dictScan d v = Ok (v', es) /\ scan_step d v v' es e.
Proof.
  intros Hd Hz E Hv. unfold dictScan, dictIsRehashing.
  rewrite (proj2 (Z.eqb_neq _ _) Hz), (proj2 (Z.eqb_neq _ _) E). cbn [negb]. pose proof (rev_range v ltac:(lia)) as Hrv.
  destruct (ok_rehash _ d Hd E) as (Ha0 & Ha1 & _).
  destruct (order_tables d Ha0 Ha1) as (t0 & t1 & -> & At0 & At1 & Hmin & Hle & Hent).
  set (e0 := size_exp (get_ht d t0)) in *. set (e1 := size_exp (get_ht d t1)) in *.
  pose proof (ha_exp _ _ At0) as He0. pose proof (ha_exp _ _ At1) as He1. fold e0 in He0. fold e1 in He1.
  destruct (bucket_get (get_ht d t0) v At0) as (c & Hc & Hsub). unfold dictScanDefragBucket. fold e0 in Hc. rewrite Hc.
  rewrite !size_mask_pow by lia. set (w := 2 ^ (64 - e0)). set (hq := (rev v / w + 1) * 2 ^ (e1 - e0)).
  assert (0 < w) as Hw by (apply Z.pow_pos_nonneg; lia).
  assert (w = 2 ^ (64 - e1) * 2 ^ (e1 - e0)) as Hww by (unfold w; rewrite <- Z.pow_add_r by lia; f_equal; lia).
  assert (0 < 2 ^ (64 - e1)) as Hs1 by (apply Z.pow_pos_nonneg; lia).
  assert (0 < 2 ^ (e1 - e0)) as Hs2 by (apply Z.pow_pos_nonneg; lia).
  assert (2 ^ e0 * 2 ^ (e1 - e0) = 2 ^ e1) as Hee by (rewrite <- Z.pow_add_r by lia; f_equal; lia).
  assert (2 ^ 64 = 2 ^ e0 * w) as H64 by (unfold w; rewrite <- Z.pow_add_r by lia; f_equal; lia).
  assert (rev v / 2 ^ (64 - e1) / 2 ^ (e1 - e0) = rev v / w) as Hdd by (rewrite Z.div_div, Hww by lia; done).
  set (q := rev v / 2 ^ (64 - e1)) in *.
  pose proof (Z.div_mod q (2 ^ (e1 - e0)) ltac:(lia)) as Hqm. rewrite Hdd in Hqm.
  pose proof (Z.mod_pos_bound q (2 ^ (e1 - e0)) ltac:(lia)) as Hqb.
  assert (rev v / w < 2 ^ e0) as Hqw by (apply Z.div_lt_upper_bound; lia).
  destruct (scan_expansions_spec d t1 e0 hq (length (table (get_ht d t1))) v c) as (v' & es & Hs & Hv' & Hr' & Hsub' & Hcov);
    [done|lia|done|fold e1 q; unfold hq; nia|fold e1 q; unfold hq; lia|
     fold e1; unfold hq; apply Z.mod_mul; lia|fold e1 q; rewrite (ha_len _ _ At1); fold e1; unfold hq; nia|].
  fold e1 in Hs, Hr', Hcov. fold q in Hcov. rewrite Hs. exists v', (c ++ es), e0. fold w.
  assert (hq * 2 ^ (64 - e1) = (rev v / w + 1) * w) as Hhi by (unfold hq; rewrite Hww; lia).
  split; [done|]. split; fold w; try done; try lia.
  + by rewrite Hr', Hhi.
  + intros y [Hy|Hy]%elem_of_app; apply Hent; auto.
  + intros k x Hin Hp. apply elem_of_app. apply Hent in Hin as [Hin|Hin].
    * left. apply (bucket_covers (get_ht d t0) v c k x); [done..|]. fold e0. apply interval_div; (done || lia).
    * right. apply Hcov; [done|]. split; [apply Z.div_le_mono; lia|]. apply Z.div_lt_upper_bound; lia.
Qed.

Lemma scan_step_spec d m v :
  dict_rep hashFunction d m -> dictSize d <> 0 -> 0 <= v < 2 ^ 64 ->
  exists v' es e, dictScan d v = Ok (v', es) /\ scan_step d v v' es e.
Proof.
  intros Hr Hz Hv. destruct (Z.eq_dec (rehashidx d) (-1)) as [E|E]; [by eapply scan_idle|].
  apply scan_rehashing; [apply Hr|done..].
Qed.
End Cover.
