(* ===== verification/DictSpec.v ===== *)
(** The contract of src/redis-stable/src/dict.c: a dict is a finite map, for every
    resize policy and at every stage of an incremental rehash, and a scan that runs to
    completion returns every key that was there all along. *)

From stdpp Require Import gmap.
From S2P Require Import Prelude Machine Dict DictInv DictOps DictScan.

(** The dict of the examples: integer keys, hashed to themselves. *)
Definition zhash (k : Z) : Z := k mod 2 ^ 64.
Lemma zcmp a b : Z.eqb a b = true <-> a = b.
Proof. apply Z.eqb_eq. Qed.

Section Claims.
Context {K V : Type} `{Countable K}.
Context (hashFunction : K -> Z) (keyCompare : K -> K -> bool).
Context (resizeAllowed : option (Z -> Z * Z -> bool)) (force_full_rehash : bool).
Implicit Types (d : dict K V) (m : gmap K V).

Notation dict_rep := (dict_rep hashFunction).

(** dictFind and dictFetchValue return exactly what the map holds for the key, and
    the rehash step they may perform on the way does not change the map. *)
Theorem dictFind_correct can_resize d m k :
  (forall a b, keyCompare a b = true <-> a = b) -> dict_rep d m ->
  exists d', dictFind hashFunction keyCompare can_resize d k = Ok (pair k <$> m !! k, d') /\
    dictFetchValue hashFunction keyCompare can_resize d k = Ok (m !! k, d') /\ dict_rep d' m.
Proof.
  intros Hcmp Hr. destruct (find_contract hashFunction keyCompare Hcmp can_resize d m k Hr) as (d' & Hf & Hr' & _).
  exists d'. unfold dictFetchValue. rewrite Hf. split_and!; [done| |done]. do 2 f_equal. by destruct (m !! k).
Qed.

(** dictAdd adds a new key with its value and refuses an existing one; dictReplace
    adds or overwrites, telling which; both keep every other key, whatever expansion
    and rehashing they trigger.  A table must exist or be allowed to be created, and
    the map must stay below 2^58 keys. *)
Theorem dictAdd_correct can_resize d m junk k v :
  (forall a b, keyCompare a b = true <-> a = b) -> dict_rep d m -> can_insert d m -> Z.of_nat (size m) + 1 < 2 ^ 58 ->
  (exists d', dictAdd hashFunction keyCompare resizeAllowed force_full_rehash can_resize d junk k v =
      Ok (match m !! k with Some _ => DICT_ERR | None => DICT_OK end, d') /\
    dict_rep d' (match m !! k with Some _ => m | None => <[k := v]> m end)) /\
  (exists d', dictReplace hashFunction keyCompare resizeAllowed force_full_rehash can_resize d junk k v =
      Ok (match m !! k with Some _ => 0 | None => 1 end, d') /\ dict_rep d' (<[k := v]> m)).
Proof.
  intros Hcmp Hr Hc Hs. split.
  - destruct (add_contract hashFunction keyCompare Hcmp resizeAllowed force_full_rehash can_resize d m junk k v Hr Hc Hs)
      as (d' & ? & _ & ?). by exists d'.
  - destruct (replace_contract hashFunction keyCompare Hcmp resizeAllowed force_full_rehash can_resize d m junk k v Hr Hc Hs)
      as (d' & ? & _ & ?). by exists d'.
Qed.

(** dictDelete and dictUnlink remove the key, and report or return the entry that
    was there; dictTwoPhaseUnlinkFind followed by dictTwoPhaseUnlinkFree does the same
    with rehashing paused in between and resumed afterwards; dictEmpty leaves the empty
    map. *)
Theorem dictDelete_correct can_resize d m k :
  (forall a b, keyCompare a b = true <-> a = b) -> dict_rep d m -> 0 <= pauserehash d < UINT32_MAX ->
  (exists d', dictDelete hashFunction keyCompare resizeAllowed force_full_rehash can_resize d k =
       Ok (match m !! k with Some _ => DICT_OK | None => DICT_ERR end, d') /\
     dictUnlink hashFunction keyCompare resizeAllowed force_full_rehash can_resize d k = Ok (pair k <$> m !! k, d') /\
     dict_rep d' (delete k m)) /\
  (exists l d1 d2, dictTwoPhaseUnlinkFind hashFunction keyCompare can_resize d k = Ok (l, d1) /\ (l = None <-> m !! k = None) /\
     (l <> None -> 0 < pauserehash d1) /\
     dictTwoPhaseUnlinkFree hashFunction resizeAllowed force_full_rehash can_resize d1 l = Ok d2 /\
     dict_rep d2 (delete k m) /\ pauserehash d2 = pauserehash d) /\
  dict_rep (dictEmpty d) ∅.
Proof.
  intros Hcmp Hr Hp. split_and!.
  - destruct (genericDelete_contract hashFunction keyCompare Hcmp resizeAllowed force_full_rehash can_resize d m k Hr)
      as (d' & Hd & ? & _). exists d'. unfold dictDelete, dictUnlink. rewrite Hd. split_and!; [|done..]. by destruct (m !! k).
  - destruct (twoPhase_contract hashFunction keyCompare Hcmp resizeAllowed force_full_rehash can_resize d m k Hr)
      as (l & d1 & d2 & ? & ? & _ & Hpause & ? & ? & [? _]); [unfold in_u, UINT32_MAX in *; pow_const; lia|lia|].
    exists l, d1, d2. split; [done|]. split; [done|]. split; [|done]. intros Hl. rewrite (Hpause Hl). lia.
  - apply (empty_contract hashFunction), Hr.
Qed.

(** Rehashing and resizing are invisible: dictRehash with any budget, one rehash
    step, dictExpand, dictTryExpand (with or without memory) and dictShrink to any size
    return normally and keep the map, under every resize policy. *)
Theorem dictRehash_preserves can_resize d m n sz alloc_ok :
  dict_rep d m -> 0 <= n -> 0 <= sz ->
  (exists more d', dictRehash hashFunction can_resize d n = Ok (more, d') /\ dict_rep d' m) /\
  (exists d', _dictRehashStep hashFunction can_resize d = Ok d' /\ dict_rep d' m) /\
  (exists st d', dictExpand hashFunction force_full_rehash can_resize d sz = Ok (st, d') /\ dict_rep d' m) /\
  (exists st d', dictTryExpand hashFunction force_full_rehash can_resize d sz alloc_ok = Ok (st, d') /\ dict_rep d' m) /\
  (exists st d', dictShrink hashFunction force_full_rehash can_resize d sz = Ok (st, d') /\ dict_rep d' m).
Proof.
  intros Hr Hn Hs. pose proof Hr as [Hd _]. split_and!.
  - destruct (dictRehash_spec hashFunction can_resize d n Hd Hn) as (b & d' & ? & ? & _). exists b, d'. split; [done|by eapply rep_moved].
  - destruct (rehashStep_spec hashFunction can_resize d Hd) as (d' & ? & ? & _). exists d'. split; [done|by eapply rep_moved].
  - destruct (expand_spec hashFunction can_resize force_full_rehash d sz Hd Hs) as (st & d' & ? & [? _ _ _] & _).
    exists st, d'. split; [done|by eapply rep_moved].
  - destruct (tryExpand_spec hashFunction can_resize force_full_rehash d sz alloc_ok Hd Hs) as (st & d' & ? & [? _ _ _]).
    exists st, d'. split; [done|by eapply rep_moved].
  - destruct (dictShrink_spec hashFunction can_resize force_full_rehash d sz Hd Hs) as (st & d' & ? & [? _ _ _]).
    exists st, d'. split; [done|by eapply rep_moved].
Qed.

(** * Scans *)

(** Successive calls of dictScan, each with the cursor the previous one returned, on
    the states [ds] the dict is in at the time of the calls. *)
Fixpoint scan_calls (ds : list (dict K V)) (v : Z) : res (Z * list (K * V)) :=
  match ds with
  | [] => Ok (v, [])
  | d :: ds =>
      let! '(v, es) := dictScan d v in
      let! '(v, es') := scan_calls ds v in
      Ok (v, es ++ es')
  end.

Lemma scan_calls_cover k : forall ds v es,
  (forall d, d ∈ ds -> exists m, dict_rep d m /\ is_Some (m !! k)) -> ds <> [] -> 0 <= v < 2 ^ 64 ->
  rev v <= scan_pos hashFunction k -> scan_calls ds v = Ok (0, es) -> exists x, (k, x) ∈ es.
Proof.
  induction ds as [|d ds IH]; intros v es Hin Hne Hv Hpos Hs; [done|]. cbn [scan_calls] in Hs.
  destruct (Hin d) as (m & Hr & x & Hx); [apply elem_of_cons; by left|].
  assert (dictSize d <> 0) as Hz.
  { rewrite (rep_dictSize _ d m Hr). intros E. assert (m = ∅) as -> by (apply map_size_empty_inv; lia). done. }
  destruct (scan_step_spec hashFunction d m v Hr Hz Hv) as (v' & es1 & e & Hd & [He _ _ Hv' Hr' _ Hcov]). rewrite Hd in Hs.
  destruct (scan_calls ds v') as [[v2 es2]|] eqn:Hc; [|done]. injection Hs as -> <-.
  pose proof (interval_end (rev v) e (rev_range v ltac:(lia)) He) as Hhi.
  set (hi := (rev v / 2 ^ (64 - e) + 1) * 2 ^ (64 - e)) in *. pose proof (scan_pos_range hashFunction k).
  pose proof (rev_range v ltac:(lia)) as Hrv.
  destruct (Z.lt_ge_cases (scan_pos hashFunction k) hi) as [Hlt|Hge].
  - exists x. apply elem_of_app. left. apply Hcov; [by apply (rep_lookup hashFunction d m)|lia].
  - assert (rev v' = hi) as Hr'' by (rewrite Hr'; apply Z.mod_small; lia).
    destruct ds as [|d2 ds].
    { cbn [scan_calls] in Hc. injection Hc as -> _. change (rev 0) with 0 in Hr''. lia. }
    destruct (IH v' es2) as [y Hy]; [|done|done|lia|done|exists y; apply elem_of_app; by right].
    intros d' Hd'. apply Hin, elem_of_cons. by right.
Qed.

(** C1: The guarantee of dictScan: start with cursor 0 and call it until the cursor comes
    back to 0, with any changes to the dict between two calls (insertions, deletions,
    resizing, rehashing steps); every key that is in the dict at each of the calls has
    been returned.  Between two calls the dict only has to stay well-formed. *)
Theorem dictScan_complete ds es k :
  ds <> [] -> (forall d, d ∈ ds -> exists m, dict_rep d m /\ is_Some (m !! k)) ->
  scan_calls ds 0 = Ok (0, es) -> exists x, (k, x) ∈ es.
Proof.
  intros Hne Hin Hs. eapply (scan_calls_cover k ds 0); [done..| |done].
  change (rev 0) with 0. apply scan_pos_range.
Qed.

Lemma scan_calls_app ds1 ds2 v v1 es1 :
  scan_calls ds1 v = Ok (v1, es1) ->
  scan_calls (ds1 ++ ds2) v = (let! '(v2, es2) := scan_calls ds2 v1 in Ok (v2, es1 ++ es2)).
Proof.
  revert v es1. induction ds1 as [|d ds1 IH]; intros v es1 Hs; simpl in *.
  - injection Hs as -> <-. by destruct (scan_calls ds2 v1) as [[]|].
  - destruct (dictScan d v) as [[v' es]|]; [|done]. destruct (scan_calls ds1 v') as [[v2 es2]|] eqn:E; [|done].
    injection Hs as -> <-. rewrite (IH v' es2 E). destruct (scan_calls ds2 v1) as [[]|]; [|done]. by rewrite (assoc_L (++)).
Qed.

(** After [n] calls on the same dict the cursor is at interval [n]. *)
Lemma scan_calls_same d m e :
  dict_rep d m -> dictSize d <> 0 ->
  e = (if rehashidx d =? -1 then size_exp (ht0 d) else Z.min (size_exp (ht0 d)) (size_exp (ht1 d))) ->
  forall n, Z.of_nat n <= 2 ^ e ->
  exists v es, scan_calls (replicate n d) 0 = Ok (v, es) /\ 0 <= v < 2 ^ 64 /\
    rev v = (Z.of_nat n * 2 ^ (64 - e)) mod 2 ^ 64 /\ (forall y, y ∈ es -> y ∈ entries d) /\ 2 <= e <= 60.
Proof.
  intros Hr Hz He. induction n as [|n IH]; intros Hn.
  - exists 0, []. split_and!; try done; try (intros y Hy; by apply elem_of_nil in Hy).
    all: destruct (scan_step_spec hashFunction d m 0 Hr Hz) as (v' & es & e' & _ & [He' Hi Hre _ _ _ _]); [done|];
      destruct (Z.eqb_spec (rehashidx d) (-1)) as [E|E]; rewrite He; [rewrite <- Hi by done|rewrite <- Hre by done]; lia.
  - destruct IH as (v & es & Hs & Hv & Hrv & Hsub & Hee); [lia|].
    destruct (scan_step_spec hashFunction d m v Hr Hz Hv) as (v' & es' & e' & Hd & [He' Hi Hre Hv' Hr' Hsub' _]).
    assert (e' = e) as -> by (rewrite He; destruct (Z.eqb_spec (rehashidx d) (-1)); auto).
    replace (S n) with (n + 1)%nat by lia. rewrite replicate_add. rewrite (scan_calls_app _ _ _ _ _ Hs). simpl. rewrite Hd.
    do 2 eexists. split; [done|]. split_and!; [lia|lia| | |lia|lia].
    + assert (0 < 2 ^ (64 - e)) by (apply Z.pow_pos_nonneg; lia).
      assert (2 ^ 64 = 2 ^ e * 2 ^ (64 - e)) as H64 by (rewrite <- Z.pow_add_r by lia; f_equal; lia).
      rewrite Hr', Hrv, (Z.mod_small (Z.of_nat n * _)), Z.div_mul by nia. f_equal. lia.
    + intros y Hy. rewrite app_nil_r in Hy. apply elem_of_app in Hy as [Hy|Hy]; auto.
Qed.

(** C36: A scan of a dict that does not change ends: after as many calls as the smaller
    table has buckets the cursor is back at 0, and the entries returned are exactly
    those of the dict. *)
Theorem dictScan_terminates d m :
  dict_rep d m -> m <> ∅ ->
  let buckets := if rehashidx d =? -1 then 2 ^ size_exp (ht0 d)
                 else Z.min (2 ^ size_exp (ht0 d)) (2 ^ size_exp (ht1 d)) in
  exists es, scan_calls (replicate (Z.to_nat buckets) d) 0 = Ok (0, es) /\
    forall k, (exists x, (k, x) ∈ es) <-> is_Some (m !! k).
Proof.
  intros Hr Hne buckets.
  assert (dictSize d <> 0) as Hz.
  { rewrite (rep_dictSize _ d m Hr). intros E. apply Hne, map_size_empty_inv. lia. }
  set (e := if rehashidx d =? -1 then size_exp (ht0 d) else Z.min (size_exp (ht0 d)) (size_exp (ht1 d))).
  assert (2 <= e <= 60) as Hee by (destruct (scan_calls_same d m e Hr Hz eq_refl 0) as (? & ? & _ & _ & _ & _ & ?); [simpl; lia|done]).
  assert (buckets = 2 ^ e) as Hb.
  { unfold buckets, e in *. destruct (Z.eqb_spec (rehashidx d) (-1)) as [E|E]; [done|].
    destruct (ok_rehash _ d (proj1 Hr) E) as (Ha0 & Ha1 & _). pose proof (ha_exp _ _ Ha0). pose proof (ha_exp _ _ Ha1).
    destruct (Z.le_ge_cases (size_exp (ht0 d)) (size_exp (ht1 d))) as [Hl|Hl].
    - pose proof (Z.pow_le_mono_r 2 _ _ ltac:(lia) Hl). rewrite !Z.min_l by lia. done.
    - pose proof (Z.pow_le_mono_r 2 _ _ ltac:(lia) Hl). rewrite !Z.min_r by lia. done. }
  assert (0 < 2 ^ e) by (apply Z.pow_pos_nonneg; lia).
  destruct (scan_calls_same d m e Hr Hz eq_refl (Z.to_nat buckets)) as (v & es & Hs & Hv & Hrv & Hsub & _); [lia|].
  assert (v = 0) as ->.
  { rewrite <- (rev_involutive v) by done. rewrite Hrv, Z2Nat.id, Hb by lia. rewrite <- Z.pow_add_r by lia.
    replace (e + (64 - e)) with 64 by lia. by rewrite Z.mod_same by lia. }
  exists es. split; [done|]. intros k. split.
  - intros [x Hx]. exists x. apply (rep_lookup hashFunction d m); auto.
  - intros Hk. eapply (scan_calls_cover k _ 0); [| |done| |exact Hs].
    + intros d' ->%elem_of_replicate_inv. by exists m.
    + destruct (Z.to_nat buckets) eqn:E; [lia|done].
    + change (rev 0) with 0. apply scan_pos_range.
Qed.
End Claims.

(** * Examples *)

(** Adding five keys to a new dict starts a rehash from 4 to 8 buckets. *)
Definition demo_add (d : res (dict Z Z)) (k : Z) : res (dict Z Z) :=
  let! d := d in
  let! '(_, d) := dictAdd zhash Z.eqb None false DICT_RESIZE_ENABLE d 0 k (100 + k) in Ok d.
Definition demo_dict : dict Z Z :=
  match foldl demo_add (Ok dictCreate) [1; 2; 5; 9; 12] with Ok d => d | Fault _ => dictCreate end.
Definition demo_map : gmap Z Z := list_to_map (map (fun k => (k, 100 + k)) [1; 2; 5; 9; 12]).

Example demo_dict_rehashing : rehashidx demo_dict = 0 /\ dictSize demo_dict = 5 /\ size_exp (ht1 demo_dict) = 3.
Proof. vm_compute. done. Qed.

Lemma demo_rep : dict_rep zhash demo_dict demo_map.
Proof.
  assert (forall d m k, dict_rep zhash d m -> pauseAutoResize d = 0 -> Z.of_nat (size m) + 1 < 2 ^ 58 -> m !! k = None ->
    exists d', demo_add (Ok d) k = Ok d' /\ dict_rep zhash d' (<[k := 100 + k]> m) /\ pauseAutoResize d' = 0) as Hstep.
  { intros d m k Hr Hp Hs Hn. unfold demo_add.
    destruct (add_contract zhash Z.eqb zcmp None false DICT_RESIZE_ENABLE d m 0 k (100 + k) Hr) as (d' & -> & [_ Ha] & Hr');
      [by right; lia|done|]. rewrite Hn in *. exists d'. split_and!; [done|done|congruence]. }
  unfold demo_dict. cbn [foldl].
  destruct (Hstep dictCreate ∅ 1 (create_contract zhash) eq_refl eq_refl eq_refl) as (d1 & -> & R1 & P1).
  destruct (Hstep d1 _ 2 R1 P1 eq_refl eq_refl) as (d2 & -> & R2 & P2).
  destruct (Hstep d2 _ 5 R2 P2 eq_refl eq_refl) as (d3 & -> & R3 & P3).
  destruct (Hstep d3 _ 9 R3 P3 eq_refl eq_refl) as (d4 & -> & R4 & P4).
  destruct (Hstep d4 _ 12 R4 P4 eq_refl eq_refl) as (d5 & -> & R5 & P5).
  eassert (demo_map = _) as ->; [|exact R5]. vm_compute. reflexivity.
Qed.

Lemma dictFind_correct_witness :
  dict_rep zhash demo_dict demo_map /\ exists d', dictFind zhash Z.eqb DICT_RESIZE_ENABLE demo_dict 9 = Ok (Some (9, 109), d').
Proof.
  split; [exact demo_rep|].
  destruct (dictFind_correct zhash Z.eqb DICT_RESIZE_ENABLE demo_dict demo_map 9 zcmp demo_rep) as (d' & Hf & _).
  exists d'. exact Hf.
Defined.

Lemma dictAdd_correct_witness :
  dict_rep zhash demo_dict demo_map /\
  exists d', dictAdd zhash Z.eqb None false DICT_RESIZE_FORBID demo_dict 0 7 1 = Ok (DICT_OK, d') /\
    dict_rep zhash d' (<[7 := 1]> demo_map).
Proof.
  split; [exact demo_rep|].
  destruct (dictAdd_correct zhash Z.eqb None false DICT_RESIZE_FORBID demo_dict demo_map 0 7 1 zcmp demo_rep) as [H _];
    [by right; vm_compute|by vm_compute|exact H].
Defined.

Lemma dictDelete_correct_witness :
  dict_rep zhash demo_dict demo_map /\
  exists d', dictDelete zhash Z.eqb None false DICT_RESIZE_AVOID demo_dict 5 = Ok (DICT_OK, d').
Proof.
  split; [exact demo_rep|].
  destruct (dictDelete_correct zhash Z.eqb None false DICT_RESIZE_AVOID demo_dict demo_map 5 zcmp demo_rep)
    as [(d' & H & _) _]; [by vm_compute|]. exists d'. exact H.
Defined.

Lemma dictRehash_preserves_witness :
  dict_rep zhash demo_dict demo_map /\
  exists more d', dictRehash zhash DICT_RESIZE_ENABLE demo_dict 2 = Ok (more, d') /\ dict_rep zhash d' demo_map.
Proof.
  split; [exact demo_rep|].
  destruct (dictRehash_preserves zhash false DICT_RESIZE_ENABLE demo_dict demo_map 2 64 true demo_rep) as [H _];
    [lia|lia|exact H].
Defined.

(** Four calls complete a scan that starts while the dict is rehashed and goes on after
    the rehash has finished. *)
Definition demo_dict_done : dict Z Z :=
  match dictRehash zhash DICT_RESIZE_ENABLE demo_dict 100 with Ok (_, d) => d | Fault _ => dictCreate end.

Lemma demo_done_rep : dict_rep zhash demo_dict_done demo_map.
Proof.
  unfold demo_dict_done.
  destruct (dictRehash_spec zhash DICT_RESIZE_ENABLE demo_dict 100 (proj1 demo_rep) ltac:(lia)) as (b & d & -> & Hm & _).
  eapply rep_moved; [exact demo_rep|exact Hm].
Qed.

Definition demo_scan : list (dict Z Z) := replicate 2 demo_dict ++ replicate 4 demo_dict_done.

Lemma dictScan_complete_witness :
  exists es, scan_calls demo_scan 0 = Ok (0, es) /\ exists x, (9, x) ∈ es.
Proof.
  eexists. split; [vm_compute; reflexivity|].
  apply (dictScan_complete zhash demo_scan _ 9); [done| |vm_compute; reflexivity].
  intros d Hd. exists demo_map. split; [|exists 109; vm_compute; reflexivity].
  unfold demo_scan in Hd. apply elem_of_app in Hd as [->%elem_of_replicate_inv| ->%elem_of_replicate_inv];
    [exact demo_rep|exact demo_done_rep].
Defined.

Lemma dictScan_terminates_witness :
  demo_map <> ∅ /\ exists es, scan_calls (replicate 4 demo_dict) 0 = Ok (0, es).
Proof.
  split; [by vm_compute|].
  destruct (dictScan_terminates zhash demo_dict demo_map demo_rep) as (es & H & _); [by vm_compute|].
  exists es. exact H.
Defined.

(** With automatic resizing paused, adding the first key to a dict that has never had a
    table reads the NULL table: _dictExpandIfNeeded returns before the table is created. *)
Lemma add_paused_null_table k v :
  dictAdd zhash Z.eqb None false DICT_RESIZE_ENABLE (mkDict ht_reset ht_reset (-1) 0 1 []) 0 k v = Fault OutOfBounds.
Proof.
  unfold dictAdd, dictAddRaw, dictFindLinkForInsert, _dictRehashStepIfNeeded, _dictExpandIfNeeded, search_tables, search_table, ht_index.
  cbn [dictIsRehashing rehashidx Z.eqb Pos.eqb negb orb pauseAutoResize Z.gtb Z.compare get_ht ht0 ht1 size_exp table ht_reset].
  change (DICTHT_SIZE_MASK (-1)) with 0. rewrite Z.land_0_r. reflexivity.
Qed.
