(* ===== verification/DictRun.v ===== *)
(** Histories of a dict: any sequence of calls of the interface of src/redis-stable/src/dict.h from
    dictCreate on, run beside a finite map and the two pause counters.

    A history inserts (dictAdd, dictAddRaw, dictAddOrFind, dictReplace, and dictFindLink with
    dictSetKeyAtLink), sets values (dictFindLink with dictSetVal), deletes (dictDelete, dictUnlink, the
    two phases of dictTwoPhaseUnlinkFind and dictTwoPhaseUnlinkFree), looks up, which rehashes on the
    way, calls dictRehash, the resizing functions and dictEmpty, pauses and resumes rehashing and
    automatic resizing, and changes the policy with dictSetResizeEnabled.  Scans and iterators, which
    leave the contents alone, have theorems of their own in [DictSpec], [DictIter] and [DictSafe]; the
    random choice of entries, dictRehashMicroseconds, the metadata of a dict and dictSetKey are not
    modelled. *)

From stdpp Require Import gmap.
From S2P Require Import Prelude Machine Dict DictInv DictOps DictIter DictSpec.

(** * The calls *)

Section Calls.
Context {K V : Type} `{Countable K}.
Context (hashFunction : K -> Z) (keyCompare : K -> K -> bool) (resizeAllowed : option (Z -> Z * Z -> bool)) (force_full_rehash : bool).
Implicit Types (d : dict K V) (m : gmap K V).

(** pauseAutoResize is a signed field of 15 bits. *)
Definition dictPauseAutoResize d : dict K V := mkDict (ht0 d) (ht1 d) (rehashidx d) (pauserehash d) (s 15 (pauseAutoResize d + 1)) (events d).
Definition dictResumeAutoResize d : dict K V := mkDict (ht0 d) (ht1 d) (rehashidx d) (pauserehash d) (s 15 (pauseAutoResize d - 1)) (events d).

(** [junk] is the value of an entry before it is set. *)
Inductive dict_op :=
| DAdd (junk : V) (k : K) (v : V)
| DAddRaw (junk : V) (k : K)
| DAddOrFind (junk : V) (k : K)
| DReplace (junk : V) (k : K) (v : V)
| DSetKeyAtLink (junk : V) (k : K)   (* dictFindLink, and dictSetKeyAtLink if the key is not there *)
| DSetVal (k : K) (v : V)            (* dictFindLink, and dictSetVal if the key is there *)
| DFind (k : K)
| DFetchValue (k : K)
| DDelete (k : K)
| DUnlink (k : K)
| DTwoPhaseUnlink (k : K)            (* dictTwoPhaseUnlinkFind and dictTwoPhaseUnlinkFree *)
| DRehash (n : Z)
| DExpand (size : Z)
| DTryExpand (size : Z) (alloc_ok : bool)
| DShrink (size : Z)
| DExpandIfNeeded
| DShrinkIfNeeded
| DEmpty
| DPauseRehashing
| DResumeRehashing
| DPauseAutoResize
| DResumeAutoResize
| DSetResizeEnabled (enable : dictResizeEnable).

Inductive dict_reply := RStatus (st : dictStatus) | RNum (n : Z) | REntry (e : option (K * V)) | RVal (v : option V) | RNone.

(** A call: the reply, the dict and dict_can_resize after it.  The results of the resizing functions,
    which depend on the tables, are dropped. *)
Definition dict_call (can : dictResizeEnable) d (op : dict_op) : res (dict_reply * dict K V * dictResizeEnable) :=
  match op with
  | DAdd junk k v => let! '(st, d) := dictAdd hashFunction keyCompare resizeAllowed force_full_rehash can d junk k v in Ok (RStatus st, d, can)
  | DAddRaw junk k =>
      let! '(r, d) := dictAddRaw hashFunction keyCompare resizeAllowed force_full_rehash can d junk k in
      match r with
      | inl existing => let! e := entry_at d existing in Ok (REntry (Some e), d, can)
      | inr _ => Ok (REntry None, d, can)
      end
  | DAddOrFind junk k =>
      let! '(l, d) := dictAddOrFind hashFunction keyCompare resizeAllowed force_full_rehash can d junk k in
      let! e := entry_at d l in Ok (REntry (Some e), d, can)
  | DReplace junk k v => let! '(r, d) := dictReplace hashFunction keyCompare resizeAllowed force_full_rehash can d junk k v in Ok (RNum r, d, can)
  | DSetKeyAtLink junk k =>
      let! '(r, bucket, d) := dictFindLink hashFunction keyCompare can d k true in
      match r with
      | Some l => let! e := entry_at d l in Ok (REntry (Some e), d, can)
      | None => let! d := dictSetKeyAtLink hashFunction keyCompare resizeAllowed can d junk k bucket in Ok (REntry None, d, can)
      end
  | DSetVal k v =>
      let! '(r, _, d) := dictFindLink hashFunction keyCompare can d k false in
      match r with
      | Some l => let! d := dictSetVal d l v in Ok (RStatus DICT_OK, d, can)
      | None => Ok (RStatus DICT_ERR, d, can)
      end
  | DFind k => let! '(e, d) := dictFind hashFunction keyCompare can d k in Ok (REntry e, d, can)
  | DFetchValue k => let! '(v, d) := dictFetchValue hashFunction keyCompare can d k in Ok (RVal v, d, can)
  | DDelete k => let! '(st, d) := dictDelete hashFunction keyCompare resizeAllowed force_full_rehash can d k in Ok (RStatus st, d, can)
  | DUnlink k => let! '(e, d) := dictUnlink hashFunction keyCompare resizeAllowed force_full_rehash can d k in Ok (REntry e, d, can)
  | DTwoPhaseUnlink k =>
      let! '(l, d) := dictTwoPhaseUnlinkFind hashFunction keyCompare can d k in
      let! d := dictTwoPhaseUnlinkFree hashFunction resizeAllowed force_full_rehash can d l in
      Ok (RStatus (if l then DICT_OK else DICT_ERR), d, can)
  | DRehash n => let! '(_, d) := dictRehash hashFunction can d n in Ok (RNone, d, can)
  | DExpand size => let! '(_, d) := dictExpand hashFunction force_full_rehash can d size in Ok (RNone, d, can)
  | DTryExpand size alloc_ok => let! '(_, d) := dictTryExpand hashFunction force_full_rehash can d size alloc_ok in Ok (RNone, d, can)
  | DShrink size => let! '(_, d) := dictShrink hashFunction force_full_rehash can d size in Ok (RNone, d, can)
  | DExpandIfNeeded => let! '(_, d) := dictExpandIfNeeded hashFunction resizeAllowed force_full_rehash can d in Ok (RNone, d, can)
  | DShrinkIfNeeded => let! '(_, d) := dictShrinkIfNeeded hashFunction resizeAllowed force_full_rehash can d in Ok (RNone, d, can)
  | DEmpty => Ok (RNone, dictEmpty d, can)
  | DPauseRehashing => Ok (RNone, dictPauseRehashing d, can)
  | DResumeRehashing => Ok (RNone, dictResumeRehashing d, can)
  | DPauseAutoResize => Ok (RNone, dictPauseAutoResize d, can)
  | DResumeAutoResize => Ok (RNone, dictResumeAutoResize d, can)
  | DSetResizeEnabled enable => Ok (RNone, d, enable)
  end.

Fixpoint dict_calls (can : dictResizeEnable) d (ops : list dict_op) : res (list dict_reply * dict K V * dictResizeEnable) :=
  match ops with
  | [] => Ok ([], d, can)
  | op :: ops =>
      let! '(r, d, can) := dict_call can d op in
      let! '(rs, d, can) := dict_calls can d ops in
      Ok (r :: rs, d, can)
  end.

(** * The specification *)

(** A map, and how often rehashing and automatic resizing are paused. *)
Record spec := mkSpec { sp_map : gmap K V; sp_rehash : Z; sp_resize : Z }.
Definition with_map (f : gmap K V -> gmap K V) (sp : spec) : spec := mkSpec (f (sp_map sp)) (sp_rehash sp) (sp_resize sp).

(** A key that is not there is added. *)
Definition add_new (k : K) (v : V) m : gmap K V := match m !! k with Some _ => m | None => <[k := v]> m end.

Definition spec_call (op : dict_op) (sp : spec) : dict_reply * spec :=
  let m := sp_map sp in
  match op with
  | DAdd _ k v => (RStatus (match m !! k with Some _ => DICT_ERR | None => DICT_OK end), with_map (add_new k v) sp)
  | DAddRaw junk k | DSetKeyAtLink junk k => (REntry (pair k <$> m !! k), with_map (add_new k junk) sp)
  | DAddOrFind junk k => (REntry (Some (k, default junk (m !! k))), with_map (add_new k junk) sp)
  | DReplace _ k v => (RNum (match m !! k with Some _ => 0 | None => 1 end), with_map (insert k v) sp)
  | DSetVal k v => (RStatus (match m !! k with Some _ => DICT_OK | None => DICT_ERR end), with_map (fun m => match m !! k with Some _ => <[k := v]> m | None => m end) sp)
  | DFind k => (REntry (pair k <$> m !! k), sp)
  | DFetchValue k => (RVal (m !! k), sp)
  | DDelete k | DTwoPhaseUnlink k => (RStatus (match m !! k with Some _ => DICT_OK | None => DICT_ERR end), with_map (delete k) sp)
  | DUnlink k => (REntry (pair k <$> m !! k), with_map (delete k) sp)
  | DEmpty => (RNone, mkSpec ∅ 0 0)
  | DPauseRehashing => (RNone, mkSpec m (sp_rehash sp + 1) (sp_resize sp))
  | DResumeRehashing => (RNone, mkSpec m (sp_rehash sp - 1) (sp_resize sp))
  | DPauseAutoResize => (RNone, mkSpec m (sp_rehash sp) (sp_resize sp + 1))
  | DResumeAutoResize => (RNone, mkSpec m (sp_rehash sp) (sp_resize sp - 1))
  | _ => (RNone, sp)
  end.

Fixpoint spec_calls (ops : list dict_op) (sp : spec) : list dict_reply * spec :=
  match ops with
  | [] => ([], sp)
  | op :: ops => let '(r, sp) := spec_call op sp in let '(rs, sp) := spec_calls ops sp in (r :: rs, sp)
  end.

(** What the caller of an operation must see to.  There is room for a key; dictFindLinkForInsert,
    which creates no table while automatic resizing is paused, is not called for an empty dict then;
    a resume has its pause, and the counters, of 32 and 15 bits, do not overflow.  dictSetKeyAtLink is
    modelled for types without force_full_rehash. *)
Definition room (sp : spec) : bool := Z.of_nat (size (sp_map sp)) + 1 <? 2 ^ 58.
Definition has_table (sp : spec) : bool := (sp_resize sp <=? 0) || negb (bool_decide (sp_map sp = ∅)).
Definition call_ok (op : dict_op) (sp : spec) : bool :=
  match op with
  | DAdd _ _ _ | DAddRaw _ _ | DAddOrFind _ _ | DReplace _ _ _ => room sp && has_table sp
  | DSetKeyAtLink _ _ => room sp && negb force_full_rehash
  | DTwoPhaseUnlink _ | DPauseRehashing => sp_rehash sp <? UINT32_MAX
  | DResumeRehashing => 0 <? sp_rehash sp
  | DPauseAutoResize => sp_resize sp <? 2 ^ 14 - 1
  | DResumeAutoResize => 0 <? sp_resize sp
  | DRehash n => (0 <=? n) && (n * 10 <? 2 ^ 31)
  | DExpand size | DTryExpand size _ | DShrink size => (0 <=? size) && (size <? 2 ^ 64)
  | _ => true
  end.

Fixpoint calls_ok (ops : list dict_op) (sp : spec) : bool :=
  match ops with [] => true | op :: ops => call_ok op sp && calls_ok ops (spec_call op sp).2 end.
End Calls.

Arguments dict_op : clear implicits.
Arguments dict_reply : clear implicits.

(** * The dict follows the specification *)

Section Follow.
Context {K V : Type} `{Countable K}.
Context (hashFunction : K -> Z) (keyCompare : K -> K -> bool) (Hcmp : forall a b, keyCompare a b = true <-> a = b).
Context (resizeAllowed : option (Z -> Z * Z -> bool)) (force_full_rehash : bool).
Implicit Types (d : dict K V) (m : gmap K V) (sp : @spec K V _ _).
Notation dict_rep := (dict_rep hashFunction).
Notation call := (dict_call hashFunction keyCompare resizeAllowed force_full_rehash).

Record tracks d sp : Prop := {
  tr_rep : dict_rep d (sp_map sp);
  tr_rehash : pauserehash d = sp_rehash sp;
  tr_resize : pauseAutoResize d = sp_resize sp;
  tr_rehash_range : 0 <= sp_rehash sp <= UINT32_MAX;
  tr_resize_range : 0 <= sp_resize sp < 2 ^ 14
}.

Lemma tracks_pause d sp d' f : tracks d sp -> dict_rep d' (f (sp_map sp)) -> same_pause d d' -> tracks d' (with_map f sp).
Proof using Type. intros [H1 H2 H3 H4 H5] Hr [Hp Ha]. split; simpl; [done|congruence|congruence|done..]. Qed.

Lemma tracks_same d sp d' : tracks d sp -> dict_rep d' (sp_map sp) -> same_pause d d' -> tracks d' sp.
Proof using Type. intros Ht Hr Hp. pose proof (tracks_pause d sp d' id Ht Hr Hp). by destruct sp. Qed.

(** A call follows when it returns what the specification says. *)
Definition follows can d sp (op : dict_op K V) : Prop :=
  exists r d' can', call can d op = Ok (r, d', can') /\ r = (spec_call op sp).1 /\ tracks d' (spec_call op sp).2.

Lemma follows_moved can d sp op d' : tracks d sp -> spec_call op sp = (RNone, sp) -> call can d op = Ok (RNone, d', can) -> moved hashFunction d d' -> follows can d sp op.
Proof using Type.
  intros Ht Hs Hc Hm. exists RNone, d', can. rewrite Hs. split; [done|]. split; [done|]. apply (tracks_same d); [done| |by apply (moved_pause hashFunction)].
  eapply rep_moved; [apply Ht|done].
Qed.

Lemma entry_link d l k v : link_at d l k v -> entry_at d l = Ok (k, v).
Proof using Type. intros [_ (c & Hg & Hc)]. unfold entry_at. rewrite Hg. by apply get1_lookup. Qed.

Lemma insertable d sp : tracks d sp -> room sp && has_table sp = true -> can_insert d (sp_map sp) /\ Z.of_nat (size (sp_map sp)) + 1 < 2 ^ 58.
Proof using Type.
  intros Ht [Hroom%Z.ltb_lt Htab]%andb_true_iff. split; [|done]. unfold can_insert. apply orb_true_iff in Htab as [Hle%Z.leb_le|Hne%negb_true_iff].
  - right. by rewrite (tr_resize _ _ Ht).
  - left. by apply bool_decide_eq_false_1 in Hne.
Qed.

Lemma add_follows can d sp junk k v : tracks d sp -> call_ok force_full_rehash (DAdd junk k v) sp = true -> follows can d sp (DAdd junk k v).
Proof using Hcmp.
  intros Ht Hok. destruct (insertable d sp Ht Hok) as [Hc Hs]. pose proof (tr_rep _ _ Ht) as Hr. unfold follows. cbn [dict_call spec_call fst snd].
  destruct (add_contract hashFunction keyCompare Hcmp resizeAllowed force_full_rehash can d _ junk k v Hr Hc Hs) as (d' & -> & Hp & Hr'). do 3 eexists. split; [done|]. split; [done|].
  by apply (tracks_pause d).
Qed.

Lemma replace_follows can d sp junk k v : tracks d sp -> call_ok force_full_rehash (DReplace junk k v) sp = true -> follows can d sp (DReplace junk k v).
Proof using Hcmp.
  intros Ht Hok. destruct (insertable d sp Ht Hok) as [Hc Hs]. pose proof (tr_rep _ _ Ht) as Hr. unfold follows. cbn [dict_call spec_call fst snd].
  destruct (replace_contract hashFunction keyCompare Hcmp resizeAllowed force_full_rehash can d _ junk k v Hr Hc Hs) as (d' & -> & Hp & Hr'). do 3 eexists. split; [done|]. split; [done|].
  by apply (tracks_pause d).
Qed.

Lemma addRaw_follows can d sp junk k : tracks d sp -> call_ok force_full_rehash (DAddRaw junk k) sp = true ->
  follows can d sp (DAddRaw junk k) /\ follows can d sp (DAddOrFind junk k).
Proof using Hcmp.
  intros Ht Hok. destruct (insertable d sp Ht Hok) as [Hc Hs]. pose proof (tr_rep _ _ Ht) as Hr. unfold follows. cbn [dict_call spec_call fst snd]. unfold dictAddOrFind.
  destruct (addRaw_contract hashFunction keyCompare Hcmp resizeAllowed force_full_rehash can d _ junk k Hr Hc Hs) as (r & d' & -> & Hp & Hres).
  destruct r as [l|l]; [destruct Hres as (Hr' & v & Hl & Hv)|destruct Hres as (Hr' & Hv & Hl)]; rewrite (entry_link _ _ _ _ Hl), Hv.
  all: split; do 3 eexists; (split; [done|]); (split; [done|]); (apply (tracks_pause d); [done| |done]); unfold add_new; by rewrite Hv.
Qed.

Lemma setKey_follows can d sp junk k : tracks d sp -> call_ok force_full_rehash (DSetKeyAtLink junk k) sp = true -> follows can d sp (DSetKeyAtLink junk k).
Proof using Hcmp.
  intros Ht [Hroom%Z.ltb_lt _]%andb_true_iff. pose proof (tr_rep _ _ Ht) as Hr. unfold follows. cbn [dict_call spec_call fst snd]. destruct (sp_map sp !! k) as [v|] eqn:Hv.
  - destruct (findLink_spec hashFunction keyCompare Hcmp can d _ k true Hr) as (r & b & d' & -> & Hr' & Hp & Hres). destruct r as [l|]; [|congruence].
    destruct Hres as (v' & Hl & Hv'). rewrite (entry_link _ _ _ _ Hl). assert (v' = v) as -> by congruence. do 3 eexists. split; [done|]. split; [done|].
    apply (tracks_pause d); [done| |done]. unfold add_new. by rewrite Hv.
  - destruct (setKey_contract hashFunction keyCompare resizeAllowed can Hcmp d _ junk k Hr Hv Hroom) as (b & d1 & d2 & -> & -> & Hr' & Hp). do 3 eexists. split; [done|]. split; [done|].
    apply (tracks_pause d); [done| |done]. unfold add_new. by rewrite Hv.
Qed.

Lemma setVal_follows can d sp k v : tracks d sp -> follows can d sp (DSetVal k v).
Proof using Hcmp.
  intros Ht. unfold follows. cbn [dict_call spec_call fst snd].
  destruct (findLink_spec hashFunction keyCompare Hcmp can d _ k false (tr_rep _ _ Ht)) as (r & b & d1 & -> & Hr1 & Hp1 & Hres). destruct r as [l|].
  - destruct Hres as (w & Hl & Hw). destruct (setVal_contract hashFunction d1 _ l k w v Hr1 Hl) as (d2 & -> & Hr2 & Hp2). do 3 eexists. split; [done|]. rewrite Hw. split; [done|].
    apply (tracks_pause d); [done|by rewrite Hw|by eapply same_pause_trans].
  - do 3 eexists. split; [done|]. rewrite Hres. split; [done|]. apply (tracks_pause d); [done|by rewrite Hres|done].
Qed.

Lemma find_follows can d sp k : tracks d sp -> follows can d sp (DFind k) /\ follows can d sp (DFetchValue k).
Proof using Hcmp.
  intros Ht. unfold follows. cbn [dict_call spec_call fst snd]. unfold dictFetchValue.
  destruct (find_contract hashFunction keyCompare Hcmp can d _ k (tr_rep _ _ Ht)) as (d' & -> & Hr' & Hp). split; do 3 eexists; (split; [done|]); (split; [|by apply (tracks_same d)]); [done|].
  by destruct (sp_map sp !! k).
Qed.

Lemma delete_follows can d sp k : tracks d sp -> follows can d sp (DDelete k) /\ follows can d sp (DUnlink k).
Proof using Hcmp.
  intros Ht. unfold follows. cbn [dict_call spec_call fst snd]. unfold dictDelete, dictUnlink.
  destruct (genericDelete_contract hashFunction keyCompare Hcmp resizeAllowed force_full_rehash can d _ k (tr_rep _ _ Ht)) as (d' & -> & Hr' & Hp).
  split; do 3 eexists; (split; [done|]); (split; [|by apply (tracks_pause d)]); [|done]. by destruct (sp_map sp !! k).
Qed.

Lemma twoPhase_follows can d sp k : tracks d sp -> sp_rehash sp < UINT32_MAX -> follows can d sp (DTwoPhaseUnlink k).
Proof using Hcmp.
  intros Ht Hp. unfold follows. cbn [dict_call spec_call fst snd]. pose proof (tr_rehash_range _ _ Ht). pose proof (tr_rehash _ _ Ht).
  destruct (twoPhase_contract hashFunction keyCompare Hcmp resizeAllowed force_full_rehash can d _ k (tr_rep _ _ Ht)) as (l & d1 & d2 & -> & Hl & _ & _ & -> & Hr2 & Hp2).
  { unfold in_u, UINT32_MAX in *. pow_const. lia. }
  { lia. }
  do 3 eexists. split; [done|]. split; [|by apply (tracks_pause d)]. destruct l, (sp_map sp !! k); try done; exfalso; [by destruct Hl as [_ Hl]; discriminate Hl|by destruct Hl as [Hl _]; discriminate Hl].
Qed.

Lemma resize_follows can d sp op : tracks d sp -> call_ok force_full_rehash op sp = true ->
  match op with DRehash _ | DExpand _ | DTryExpand _ _ | DShrink _ | DExpandIfNeeded | DShrinkIfNeeded => follows can d sp op | _ => True end.
Proof using Type.
  intros Ht Hok. pose proof (proj1 (tr_rep _ _ Ht)) as Hd. destruct op as [| | | | | | | | | | |n|sz|sz alloc_ok|sz| | | | | | | |]; try exact I; cbn [call_ok] in Hok; try apply andb_true_iff in Hok as [H0%Z.leb_le H1].
  - destruct (dictRehash_spec hashFunction can d n Hd H0) as (b & d' & E & Hm & _). apply (follows_moved can d sp _ d'); [done..| |done]. cbn [dict_call]. by rewrite E.
  - destruct (expand_spec hashFunction can force_full_rehash d sz Hd H0) as (st & d' & E & [Hm _ _ _] & _). apply (follows_moved can d sp _ d'); [done..| |done]. cbn [dict_call]. by rewrite E.
  - destruct (tryExpand_spec hashFunction can force_full_rehash d sz alloc_ok Hd H0) as (st & d' & E & [Hm _ _ _]). apply (follows_moved can d sp _ d'); [done..| |done]. cbn [dict_call]. by rewrite E.
  - destruct (dictShrink_spec hashFunction can force_full_rehash d sz Hd H0) as (st & d' & E & [Hm _ _ _]). apply (follows_moved can d sp _ d'); [done..| |done]. cbn [dict_call]. by rewrite E.
  - destruct (expandIfNeeded_spec hashFunction can force_full_rehash resizeAllowed d Hd) as (st & d' & E & [Hm _ _ _] & _). apply (follows_moved can d sp _ d'); [done..| |done]. cbn [dict_call]. by rewrite E.
  - destruct (shrinkIfNeeded_spec hashFunction can force_full_rehash resizeAllowed d Hd) as (st & d' & E & [Hm _ _ _]). apply (follows_moved can d sp _ d'); [done..| |done]. cbn [dict_call]. by rewrite E.
Qed.

(** The pauses are no part of the map. *)
Lemma rep_pause d m p a : dict_rep d m -> dict_rep (mkDict (ht0 d) (ht1 d) (rehashidx d) p a (events d)) m.
Proof using Type. intros [[H0 H1 Hnd Hid Hre Hsm Hev] ->]. split; [|done]. by split. Qed.

Lemma pause_follows can d sp op : tracks d sp -> call_ok force_full_rehash op sp = true ->
  match op with DEmpty | DPauseRehashing | DResumeRehashing | DPauseAutoResize | DResumeAutoResize | DSetResizeEnabled _ => follows can d sp op | _ => True end.
Proof using Type.
  intros Ht Hok. pose proof Ht as [Hr H1 H2 H3 H4]. unfold UINT32_MAX in *. destruct op; try exact I; cbn [call_ok] in Hok; try apply Z.ltb_lt in Hok; unfold follows; do 3 eexists; (split; [reflexivity|]); (split; [reflexivity|]);
    cbn [spec_call snd].
  - split; simpl; [by apply empty_contract, Hr|done|done|unfold UINT32_MAX; lia|lia].
  - split; cbn [sp_map sp_rehash sp_resize]; [by apply rep_pause|cbn; rewrite H1; apply u_id; unfold UINT32_MAX in *; lia|done|unfold UINT32_MAX in *; lia|done].
  - split; cbn [sp_map sp_rehash sp_resize]; [by apply rep_pause|cbn; rewrite H1; apply u_id; unfold UINT32_MAX in *; lia|done|unfold UINT32_MAX in *; lia|done].
  - split; cbn [sp_map sp_rehash sp_resize]; [by apply rep_pause|done|cbn; rewrite H2; apply s_id; [lia|unfold in_s; pow_const; lia]|done|lia].
  - split; cbn [sp_map sp_rehash sp_resize]; [by apply rep_pause|done|cbn; rewrite H2; apply s_id; [lia|unfold in_s; pow_const; lia]|done|lia].
  - done.
Qed.

Lemma call_follows can d sp op : tracks d sp -> call_ok force_full_rehash op sp = true -> follows can d sp op.
Proof using Hcmp.
  intros Ht Hok. pose proof (resize_follows can d sp op Ht Hok) as H1. pose proof (pause_follows can d sp op Ht Hok) as H2. destruct op; try exact H1; try exact H2.
  - by apply add_follows.
  - by apply addRaw_follows.
  - by apply addRaw_follows.
  - by apply replace_follows.
  - by apply setKey_follows.
  - by apply setVal_follows.
  - by apply find_follows.
  - by apply find_follows.
  - by apply delete_follows.
  - by apply delete_follows.
  - apply twoPhase_follows; [done|]. by apply Z.ltb_lt.
Qed.

Lemma calls_follow ops : forall can d sp, tracks d sp -> calls_ok force_full_rehash ops sp = true ->
  exists d' can', dict_calls hashFunction keyCompare resizeAllowed force_full_rehash can d ops = Ok ((spec_calls ops sp).1, d', can') /\ tracks d' (spec_calls ops sp).2.
Proof using Hcmp.
  induction ops as [|op ops IH]; intros can d sp Ht Hok; [by exists d, can|]. apply andb_true_iff in Hok as [Hop Hok]. cbn [dict_calls spec_calls].
  destruct (call_follows can d sp op Ht Hop) as (r & d1 & can1 & -> & -> & Ht1). destruct (spec_call op sp) as [r sp1]. cbn [fst snd] in *.
  destruct (IH can1 d1 sp1 Ht1 Hok) as (d2 & can2 & -> & Ht2). destruct (spec_calls ops sp1) as [rs sp2]. by exists d2, can2.
Qed.
End Follow.

(** * Claim *)

(** C23: a dict is a finite map, whatever is called in whatever order.  Any sequence of calls from
    dictCreate on runs without a fault: insertion by dictAdd, dictAddRaw, dictAddOrFind, dictReplace or
    dictFindLink and dictSetKeyAtLink, changes of values, deletion by dictDelete, dictUnlink or the two phases, lookups,
    dictRehash, every resizing function, dictEmpty, pauses and changes of the resize policy.  The
    replies are those of the map, and so are the final contents; no key is in two places, dictSize
    counts the keys, the bucketChanged notifications add up to the number of buckets, and the
    rehashingStarted and rehashingCompleted ones alternate, the last being the former exactly when
    the dict is rehashing.  The caller sees to the conditions of [call_ok]: fewer than 2^58 keys,
    no insertion through dictFindLinkForInsert into an empty dict while automatic resizing is
    paused, resumes that match pauses, dictSetKeyAtLink only for types without
    force_full_rehash, arguments within their C types. *)
Theorem dict_refines_maps {K V : Type} `{Countable K} (hashFunction : K -> Z) (keyCompare : K -> K -> bool)
    (resizeAllowed : option (Z -> Z * Z -> bool)) (force_full_rehash : bool) (can : dictResizeEnable) (ops : list (dict_op K V)) :
  (forall a b, keyCompare a b = true <-> a = b) -> calls_ok force_full_rehash ops (mkSpec ∅ 0 0) = true ->
  let '(replies, sp) := spec_calls ops (mkSpec ∅ 0 0) in
  exists d can', dict_calls hashFunction keyCompare resizeAllowed force_full_rehash can dictCreate ops = Ok (replies, d, can') /\
    dict_rep hashFunction d (sp_map sp) /\ pauserehash d = sp_rehash sp /\ pauseAutoResize d = sp_resize sp /\
    dictSize d = Z.of_nat (size (sp_map sp)) /\ NoDup (entries d).*1 /\
    bucket_sum (events d) = dictBuckets d /\ rehash_log (events d) = Some (rehash_state d).
Proof.
  intros Hcmp Hok. destruct (calls_follow hashFunction keyCompare Hcmp resizeAllowed force_full_rehash ops can dictCreate (mkSpec ∅ 0 0)) as (d & can' & Hc & [Hr H1 H2 _ _]); [|done|].
  { split; simpl; [apply create_contract|done|done|unfold UINT32_MAX; lia|lia]. }
  destruct (spec_calls ops (mkSpec ∅ 0 0)) as [replies sp]. cbn [fst snd] in *. exists d, can'. pose proof Hr as [Hd _]. split_and!; [done..|by apply (rep_dictSize hashFunction)|apply Hd| |apply Hd].
  destruct (ht_ok_size _ _ (ok_ht0 _ d Hd)) as [_ ?]. destruct (ht_ok_size _ _ (ok_ht1 _ d Hd)) as [_ ?].
  destruct (ok_events _ d Hd) as [-> _]. unfold dictBuckets. rewrite u_id by (pow_const; lia). done.
Qed.

(** Insertions of every kind, a rehash under way, deletions of every kind, pauses and a change of policy. *)
Definition demo_ops : list (dict_op Z Z) :=
  [DAdd 0 1 101; DAddRaw 7 2; DAddOrFind 8 5; DReplace 0 9 109; DSetKeyAtLink 6 12; DAdd 0 1 102; DRehash 1; DPauseRehashing; DFind 5; DSetVal 5 18; DTwoPhaseUnlink 2;
   DResumeRehashing; DSetResizeEnabled DICT_RESIZE_AVOID; DDelete 9; DUnlink 77; DTryExpand 64 false; DExpand 64; DFetchValue 12; DShrinkIfNeeded].

Lemma dict_refines_maps_witness : exists d,
  dict_calls zhash Z.eqb None false DICT_RESIZE_ENABLE dictCreate demo_ops =
    Ok ([RStatus DICT_OK; REntry None; REntry (Some (5, 8)); RNum 1; REntry None; RStatus DICT_ERR; RNone; RNone; REntry (Some (5, 8)); RStatus DICT_OK; RStatus DICT_OK;
         RNone; RNone; RStatus DICT_OK; REntry None; RNone; RNone; RVal (Some 6); RNone], d, DICT_RESIZE_AVOID) /\
  dict_rep zhash d {[1 := 101; 5 := 18; 12 := 6]} /\ dictSize d = 3.
Proof.
  assert (Hok : calls_ok false demo_ops (mkSpec ∅ 0 0) = true) by (vm_compute; reflexivity).
  pose proof (dict_refines_maps zhash Z.eqb None false DICT_RESIZE_ENABLE demo_ops zcmp Hok) as Hw.
  assert (Hs : spec_calls demo_ops (mkSpec ∅ 0 0) =
    ([RStatus DICT_OK; REntry None; REntry (Some (5, 8)); RNum 1; REntry None; RStatus DICT_ERR; RNone; RNone; REntry (Some (5, 8)); RStatus DICT_OK; RStatus DICT_OK;
      RNone; RNone; RStatus DICT_OK; REntry None; RNone; RNone; RVal (Some 6); RNone], mkSpec {[1 := 101; 5 := 18; 12 := 6]} 0 0)) by (vm_compute; reflexivity).
  rewrite Hs in Hw. destruct Hw as (d & can' & Hc & Hr & _ & _ & Hsz & _). exists d. split; [|split; [exact Hr|rewrite Hsz; vm_compute; reflexivity]].
  assert (can' = DICT_RESIZE_AVOID) as E.
  { vm_compute in Hc. by injection Hc. }
  rewrite <- E. exact Hc.
Defined.
