(* ===== verification/Adlist.v ===== *)
(** Doubly linked lists: src/redis-stable/src/adlist.c.

    Nodes live in a heap, a finite map from addresses to nodes; a pointer is an
    address or NULL ([None]).  Reading, writing or freeing an address that holds no
    node is a fault, so a theorem that promises [Ok] also promises that no freed node
    is touched.  The list header is passed by value and the updated header returned.
    The allocator is a parameter: zmalloc returns an address for a heap, or NULL.  The
    calls of the list's [free] method are recorded in [log]. *)

From stdpp Require Import gmap.
From S2P Require Import Prelude Machine.

(** * Model *)

Inductive direction := AL_START_HEAD | AL_START_TAIL.

Record listNode (V : Type) := mk_node { prev : option Z; next : option Z; value : V }.
Arguments mk_node {V} _ _ _.
Arguments prev {V} _.
Arguments next {V} _.
Arguments value {V} _.

Record heap (V : Type) := mk_heap { mem : gmap Z (listNode V); log : list V }.
Arguments mk_heap {V} _ _.
Arguments mem {V} _.
Arguments log {V} _.

(** struct list; of the method [free] only its presence matters here *)
Record adlist (V : Type) := mk_adlist {
  l_head : option Z;
  l_tail : option Z;
  dup : option (V -> option V);
  free : bool;
  match_ : option (V -> V -> bool);
  l_len : Z  (* unsigned long *)
}.
Arguments mk_adlist {V} _ _ _ _ _ _.
Arguments l_head {V} _.
Arguments l_tail {V} _.
Arguments dup {V} _.
Arguments free {V} _.
Arguments match_ {V} _.
Arguments l_len {V} _.

Record listIter := mk_iter { it_next : option Z; it_direction : direction }.

Section Adlist.
Context {V : Type} `{EqDecision V}.
Implicit Types (h : heap V) (l : adlist V).

(** ** Memory *)

Definition put h (a : Z) (nd : listNode V) : heap V := mk_heap (<[a := nd]> (mem h)) (log h).

(** *p *)
Definition deref h (p : option Z) : res (listNode V) :=
  match p with
  | Some a => match mem h !! a with Some nd => Ok nd | None => Fault OutOfBounds end
  | None => Fault OutOfBounds
  end.
(** p->prev = q *)
Definition set_prev h (p q : option Z) : res (heap V) :=
  let! nd := deref h p in
  match p with Some a => Ok (put h a (mk_node q (next nd) (value nd))) | None => Fault OutOfBounds end.
(** p->next = q *)
Definition set_next h (p q : option Z) : res (heap V) :=
  let! nd := deref h p in
  match p with Some a => Ok (put h a (mk_node (prev nd) q (value nd))) | None => Fault OutOfBounds end.
(** zfree(p) *)
Definition zfree h (p : option Z) : res (heap V) :=
  match p with
  | None => Ok h
  | Some a => match mem h !! a with Some _ => Ok (mk_heap (delete a (mem h)) (log h)) | None => Fault OutOfBounds end
  end.
(** if (list->free) list->free(v) *)
Definition free_value l h (v : V) : heap V :=
  if free l then mk_heap (mem h) (log h ++ [v]) else h.

Definition with_ends l (hd tl : option Z) (n : Z) : adlist V :=
  mk_adlist hd tl (dup l) (free l) (match_ l) n.
Definition set_head l hd := with_ends l hd (l_tail l) (l_len l).
Definition set_tail l tl := with_ends l (l_head l) tl (l_len l).
Definition set_len l n := with_ends l (l_head l) (l_tail l) n.

Definition listLength l : Z := l_len l.

(** ** Creation and destruction *)

(** [alloc_ok]: zmalloc of the header succeeds *)
Definition listCreate (alloc_ok : bool) : option (adlist V) :=
  if alloc_ok then Some (mk_adlist None None None false None 0) else None.

Fixpoint listEmpty_loop (n : nat) l h (current : option Z) : res (heap V) :=
  match n with
  | O => Ok h
  | S n =>
      let! nd := deref h current in
      let h := free_value l h (value nd) in
      let! h := zfree h current in
      listEmpty_loop n l h (next nd)
  end.
Definition listEmpty l h : res (adlist V * heap V) :=
  let! h := listEmpty_loop (Z.to_nat (l_len l)) l h (l_head l) in
  Ok (with_ends l None None 0, h).

(** The header is gone afterwards. *)
Definition listRelease (ol : option (adlist V)) h : res (heap V) :=
  match ol with
  | None => Ok h
  | Some l => let! '(_, h) := listEmpty l h in Ok h
  end.

(** ** Insertion *)

Definition listInitNode h (node : option Z) (v : V) : res (heap V) :=
  let! _ := deref h node in
  match node with Some a => Ok (put h a (mk_node None None v)) | None => Fault OutOfBounds end.

Definition listLinkNodeHead l h (node : option Z) : res (adlist V * heap V) :=
  if l_len l =? 0 then
    let l := set_tail (set_head l node) node in
    let! h := set_prev h node None in
    let! h := set_next h node None in
    Ok (set_len l (u64 (l_len l + 1)), h)
  else
    let! h := set_prev h node None in
    let! h := set_next h node (l_head l) in
    let! h := set_prev h (l_head l) node in
    let l := set_head l node in
    Ok (set_len l (u64 (l_len l + 1)), h).

Definition listLinkNodeTail l h (node : option Z) : res (adlist V * heap V) :=
  if l_len l =? 0 then
    let l := set_tail (set_head l node) node in
    let! h := set_prev h node None in
    let! h := set_next h node None in
    Ok (set_len l (u64 (l_len l + 1)), h)
  else
    let! h := set_prev h node (l_tail l) in
    let! h := set_next h node None in
    let! h := set_next h (l_tail l) node in
    let l := set_tail l node in
    Ok (set_len l (u64 (l_len l + 1)), h).

(** zmalloc(sizeof(listNode)); the fields are indeterminate until they are assigned,
    which the callers do before reading them. *)
Context (zmalloc : gmap Z (listNode V) -> option Z).

Definition listAddNodeHead l h (v : V) : res (option (adlist V * heap V)) :=
  match zmalloc (mem h) with
  | None => Ok None
  | Some a => let! r := listLinkNodeHead l (put h a (mk_node None None v)) (Some a) in Ok (Some r)
  end.
Definition listAddNodeTail l h (v : V) : res (option (adlist V * heap V)) :=
  match zmalloc (mem h) with
  | None => Ok None
  | Some a => let! r := listLinkNodeTail l (put h a (mk_node None None v)) (Some a) in Ok (Some r)
  end.

Definition listInsertNode l h (old_node : option Z) (v : V) (after : bool)
  : res (option (adlist V * heap V)) :=
  match zmalloc (mem h) with
  | None => Ok None
  | Some a =>
      let h := put h a (mk_node None None v) in
      let node := Some a in
      let! '(l, h) :=
        (if after then
           let! h := set_prev h node old_node in
           let! old := deref h old_node in
           let! h := set_next h node (next old) in
           Ok (if bool_decide (l_tail l = old_node) then set_tail l node else l, h)
         else
           let! h := set_next h node old_node in
           let! old := deref h old_node in
           let! h := set_prev h node (prev old) in
           Ok (if bool_decide (l_head l = old_node) then set_head l node else l, h)) in
      let! nd := deref h node in
      let! h := (if bool_decide (prev nd = None) then Ok h else set_next h (prev nd) node) in
      let! nd := deref h node in
      let! h := (if bool_decide (next nd = None) then Ok h else set_prev h (next nd) node) in
      Ok (Some (set_len l (u64 (l_len l + 1)), h))
  end.

(** ** Removal *)

Definition listUnlinkNode l h (node : option Z) : res (adlist V * heap V) :=
  let! nd := deref h node in
  let! '(l, h) :=
    (match prev nd with
     | Some _ => let! h := set_next h (prev nd) (next nd) in Ok (l, h)
     | None => Ok (set_head l (next nd), h)
     end) in
  let! nd := deref h node in
  let! '(l, h) :=
    (match next nd with
     | Some _ => let! h := set_prev h (next nd) (prev nd) in Ok (l, h)
     | None => Ok (set_tail l (prev nd), h)
     end) in
  let! h := set_next h node None in
  let! h := set_prev h node None in
  Ok (set_len l (u64 (l_len l - 1)), h).

Definition listDelNode l h (node : option Z) : res (adlist V * heap V) :=
  let! '(l, h) := listUnlinkNode l h node in
  let! nd := deref h node in
  let h := free_value l h (value nd) in
  let! h := zfree h node in
  Ok (l, h).

(** ** Iteration *)

Definition listGetIterator l (d : direction) (alloc_ok : bool) : option listIter :=
  if alloc_ok then Some (mk_iter (match d with AL_START_HEAD => l_head l | AL_START_TAIL => l_tail l end) d)
  else None.
Definition listRewind l : listIter := mk_iter (l_head l) AL_START_HEAD.
Definition listRewindTail l : listIter := mk_iter (l_tail l) AL_START_TAIL.

Definition listNext h (it : listIter) : res (option Z * listIter) :=
  let current := it_next it in
  match current with
  | None => Ok (None, it)
  | Some _ =>
      let! nd := deref h current in
      Ok (current, mk_iter (match it_direction it with AL_START_HEAD => next nd | AL_START_TAIL => prev nd end)
                           (it_direction it))
  end.

(** ** Copy, search, index *)

(** [fuel] bounds the number of nodes still to visit: the length of the list is enough *)
Fixpoint listDup_loop (fuel : nat) (copy : adlist V) h (it : listIter) : res (option (adlist V) * heap V) :=
  match fuel with
  | O => Fault OutOfFuel
  | S fuel =>
      let! '(node, it) := listNext h it in
      match node with
      | None => Ok (Some copy, h)
      | Some _ =>
          let! nd := deref h node in
          match (match dup copy with Some f => f (value nd) | None => Some (value nd) end) with
          | None => let! h := listRelease (Some copy) h in Ok (None, h)
          | Some v =>
              let! r := listAddNodeTail copy h v in
              match r with
              | None =>
                  let h := free_value copy h v in
                  let! h := listRelease (Some copy) h in Ok (None, h)
              | Some (copy, h) => listDup_loop fuel copy h it
              end
          end
      end
  end.
Definition listDup (alloc_ok : bool) (orig : adlist V) h : res (option (adlist V) * heap V) :=
  match listCreate alloc_ok with
  | None => Ok (None, h)
  | Some copy =>
      let copy := mk_adlist (l_head copy) (l_tail copy) (dup orig) (free orig) (match_ orig) (l_len copy) in
      listDup_loop (S (Z.to_nat (l_len orig))) copy h (listRewind orig)
  end.

Fixpoint listSearchKey_loop (fuel : nat) l h (key : V) (it : listIter) : res (option Z) :=
  match fuel with
  | O => Fault OutOfFuel
  | S fuel =>
      let! '(node, it) := listNext h it in
      match node with
      | None => Ok None
      | Some _ =>
          let! nd := deref h node in
          if (match match_ l with Some f => f (value nd) key | None => bool_decide (key = value nd) end)
          then Ok node else listSearchKey_loop fuel l h key it
      end
  end.
Definition listSearchKey l h (key : V) : res (option Z) :=
  listSearchKey_loop (S (Z.to_nat (l_len l))) l h key (listRewind l).

(** while(index-- && n) n = n->prev (or n->next) *)
Fixpoint listIndex_loop (fuel : nat) h (d : direction) (index : Z) (n : option Z) : res (option Z) :=
  match fuel with
  | O => Fault OutOfFuel
  | S fuel =>
      if index =? 0 then Ok n
      else match n with
           | None => Ok None
           | Some _ =>
               let! nd := deref h n in
               listIndex_loop fuel h d (index - 1) (match d with AL_START_HEAD => next nd | AL_START_TAIL => prev nd end)
           end
  end.
Definition listIndex l h (index : Z) : res (option Z) :=
  let fuel := S (S (Z.to_nat (l_len l))) in
  if index <? 0 then listIndex_loop fuel h AL_START_TAIL (- index - 1) (l_tail l)
  else listIndex_loop fuel h AL_START_HEAD index (l_head l).

(** ** Rotation and concatenation *)

Definition listRotateTailToHead l h : res (adlist V * heap V) :=
  if listLength l <=? 1 then Ok (l, h)
  else
    let tail := l_tail l in
    let! nd := deref h tail in
    let l := set_tail l (prev nd) in
    let! h := set_next h (l_tail l) None in
    let! h := set_prev h (l_head l) tail in
    let! h := set_prev h tail None in
    let! h := set_next h tail (l_head l) in
    Ok (set_head l tail, h).

Definition listRotateHeadToTail l h : res (adlist V * heap V) :=
  if listLength l <=? 1 then Ok (l, h)
  else
    let head := l_head l in
    let! nd := deref h head in
    let l := set_head l (next nd) in
    let! h := set_prev h (l_head l) None in
    let! h := set_next h (l_tail l) head in
    let! h := set_next h head None in
    let! h := set_prev h head (l_tail l) in
    Ok (set_tail l head, h).

Definition listJoin l (o : adlist V) h : res (adlist V * adlist V * heap V) :=
  if l_len o =? 0 then Ok (l, o, h)
  else
    let! h := set_prev h (l_head o) (l_tail l) in
    let! '(l, h) :=
      (match l_tail l with
       | Some _ => let! h := set_next h (l_tail l) (l_head o) in Ok (l, h)
       | None => Ok (set_head l (l_head o), h)
       end) in
    let l := set_tail l (l_tail o) in
    let l := set_len l (u64 (l_len l + l_len o)) in
    Ok (l, with_ends o None None 0, h).
End Adlist.
