(* ===== verification/AdlistSpec.v ===== *)
(** The contract of src/redis-stable/src/adlist.c: a list header and its nodes in the
    heap represent a sequence of nodes, and each operation does to the sequence what its
    name says, touching no other memory. *)

From stdpp Require Import gmap.
From S2P Require Import Prelude Machine Adlist.

Section Segments.
Context {V : Type}.
Implicit Types (h : heap V) (ns L R : list (Z * V)).

(** * Representation *)

(** The first (last) node of a sequence, or a default when there is none. *)
Definition hd_of ns (d : option Z) : option Z := match ns with [] => d | (a, _) :: _ => Some a end.
Fixpoint lt_of ns (d : option Z) : option Z := match ns with [] => d | (a, _) :: ns => lt_of ns (Some a) end.

(** The nodes [ns] are chained in both directions, between [p] and [n]. *)
Fixpoint lseg (p : option Z) ns (n : option Z) h : Prop :=
  match ns with
  | [] => True
  | (a, v) :: ns => mem h !! a = Some (mk_node p (hd_of ns n) v) /\ lseg (Some a) ns n h
  end.

(** Outside [A] the memory is unchanged. *)
Definition only (A : list Z) h h' : Prop := log h' = log h /\ forall b, b ∉ A -> mem h' !! b = mem h !! b.

Record is_list (l : adlist V) ns h : Prop := {
  il_nodup : NoDup ns.*1;
  il_head : l_head l = hd_of ns None;
  il_tail : l_tail l = lt_of ns None;
  il_len : l_len l = zlength ns;
  il_small : zlength ns < 2 ^ 64;
  il_seg : lseg None ns None h
}.

Lemma hd_of_app L R n : hd_of (L ++ R) n = hd_of L (hd_of R n).
Proof. by destruct L as [|[]]. Qed.
Lemma lt_of_app L R p : lt_of (L ++ R) p = lt_of R (lt_of L p).
Proof. revert p. induction L as [|[a v] L IH]; intros p; [done|apply IH]. Qed.

Lemma lseg_app p L R n h : lseg p (L ++ R) n h <-> lseg p L (hd_of R n) h /\ lseg (lt_of L p) R n h.
Proof.
  revert p. induction L as [|[a v] L IH]; intros p; [simpl; tauto|].
  simpl. rewrite IH, hd_of_app. tauto.
Qed.

Lemma lseg_frame p ns n h h' :
  (forall a, a ∈ ns.*1 -> mem h' !! a = mem h !! a) -> lseg p ns n h -> lseg p ns n h'.
Proof.
  revert p. induction ns as [|[a v] ns IH]; intros p Hf; [done|]. simpl. intros [H1 H2]. split.
  - rewrite Hf; [done|]. left.
  - apply IH; [|done]. intros b Hb. apply Hf. by right.
Qed.

Lemma lseg_only A p ns n h h' : only A h h' -> ns.*1 ## A -> lseg p ns n h -> lseg p ns n h'.
Proof. intros [_ Ho] Hd. apply lseg_frame. intros a Ha. apply Ho. intros Hb. by eapply Hd. Qed.

Lemma only_refl A h : only A h h.
Proof. done. Qed.
Lemma only_trans A h1 h2 h3 : only A h1 h2 -> only A h2 h3 -> only A h1 h3.
Proof. intros [H1 H2] [H3 H4]. split; [congruence|]. intros b Hb. by rewrite H4, H2. Qed.
Lemma only_weak A B h1 h2 : only A h1 h2 -> A ⊆ B -> only B h1 h2.
Proof. intros [H1 H2] Hs. split; [done|]. intros b Hb. apply H2. set_solver. Qed.
Lemma only_put h a nd : only [a] h (put h a nd).
Proof. split; [done|]. intros b Hb. simpl. apply lookup_insert_ne. set_solver. Qed.

(** * Writing one link *)

Lemma deref_at p L a v R n h : lseg p (L ++ (a, v) :: R) n h ->
  deref h (Some a) = Ok (mk_node (lt_of L p) (hd_of R n) v).
Proof. intros [_ [H _]]%lseg_app. simpl. by rewrite H. Qed.

Lemma set_prev_put h a q nd : mem h !! a = Some nd -> set_prev h (Some a) q = Ok (put h a (mk_node q (next nd) (value nd))).
Proof. intros H. unfold set_prev. simpl. by rewrite H. Qed.
Lemma set_next_put h a q nd : mem h !! a = Some nd -> set_next h (Some a) q = Ok (put h a (mk_node (prev nd) q (value nd))).
Proof. intros H. unfold set_next. simpl. by rewrite H. Qed.

Lemma put_frame h a nd p ns n : a ∉ ns.*1 -> lseg p ns n h -> lseg p ns n (put h a nd).
Proof. intros Ha. apply (lseg_only [a]); [apply only_put|set_solver]. Qed.

(** Setting the back link of the first node of a segment. *)
Lemma seg_set_prev p q a v R n h : NoDup (a :: R.*1) -> lseg p ((a, v) :: R) n h ->
  exists h', set_prev h (Some a) q = Ok h' /\ lseg q ((a, v) :: R) n h' /\ only [a] h h'.
Proof.
  intros [Ha _]%list.NoDup_cons [H1 H2]. eexists. split; [by apply set_prev_put|]. split; [|apply only_put].
  split; [apply lookup_insert_eq|by apply put_frame].
Qed.

(** Setting the forward link of the last node of a segment. *)
Lemma seg_set_next p q L a v n h : NoDup (L ++ [(a, v)]).*1 -> lseg p (L ++ [(a, v)]) n h ->
  exists h', set_next h (Some a) q = Ok h' /\ lseg p (L ++ [(a, v)]) q h' /\ only [a] h h'.
Proof.
  rewrite fmap_app. intros (_ & Hd & _)%list.NoDup_app [H1 [H2 _]]%lseg_app.
  eexists. split; [by apply set_next_put|]. split; [|apply only_put].
  apply lseg_app. split; [apply put_frame; [set_solver|done]|].
  split; [apply lookup_insert_eq|done].
Qed.

Lemma close_prev p q R n h : NoDup R.*1 -> R <> [] -> lseg p R n h ->
  exists h', set_prev h (hd_of R None) q = Ok h' /\ lseg q R n h' /\ only R.*1 h h'.
Proof.
  intros Hn HR Hs. destruct R as [|[a v] R]; [done|].
  destruct (seg_set_prev p q a v R n h Hn Hs) as (h' & H1 & H2 & H3).
  exists h'. split_and!; [done..|]. eapply only_weak; [done|]. set_solver.
Qed.

Lemma close_next p q L n h : NoDup L.*1 -> L <> [] -> lseg p L n h ->
  exists h', set_next h (lt_of L None) q = Ok h' /\ lseg p L q h' /\ only L.*1 h h'.
Proof.
  intros Hn HL Hs. destruct L as [|[a v] L] using rev_ind; [done|].
  destruct (seg_set_next p q L a v n h Hn Hs) as (h' & H1 & H2 & H3).
  exists h'. rewrite lt_of_app. split_and!; [done..|]. eapply only_weak; [done|]. rewrite fmap_app. set_solver.
Qed.

(** The methods of a list, which no operation changes. *)
Definition same_methods (l l' : adlist V) : Prop := dup l' = dup l /\ free l' = free l /\ match_ l' = match_ l.

(** [l'] and [h'] represent [ns'], and only the nodes in [A] were written. *)
Definition list_upd (l : adlist V) h (A : list Z) ns' (l' : adlist V) h' : Prop :=
  is_list l' ns' h' /\ only A h h' /\ same_methods l l'.

Lemma hd_of_none ns : hd_of ns None = None <-> ns = [].
Proof. by destruct ns as [|[]]. Qed.
Lemma lt_of_some ns a : lt_of ns (Some a) <> None.
Proof. revert a. induction ns as [|[b v] ns IH]; intros a; [done|apply IH]. Qed.
Lemma lt_of_none ns : lt_of ns None = None <-> ns = [].
Proof. destruct ns as [|[a v] ns]; [done|]. simpl. split; [|done]. intros H. by apply lt_of_some in H. Qed.
Lemma lt_of_snoc L a (v : V) d : lt_of (L ++ [(a, v)]) d = Some a.
Proof. by rewrite lt_of_app. Qed.

(** * Linking a node *)

Lemma put_put h a n1 n2 : put (put h a n1) a n2 = put h a n2.
Proof. unfold put. simpl. by rewrite insert_insert_eq. Qed.
Lemma put_at h a nd : mem (put h a nd) !! a = Some nd.
Proof. apply lookup_insert_eq. Qed.

(** Assigning both links of a node, in either order. *)
Lemma set_prev_next h a nd p n : mem h !! a = Some nd ->
  (let! h1 := set_prev h (Some a) p in set_next h1 (Some a) n) = Ok (put h a (mk_node p n (value nd))).
Proof. intros H. rewrite (set_prev_put _ _ _ _ H), (set_next_put _ _ _ _ (put_at _ _ _)). simpl. by rewrite put_put. Qed.
Lemma set_next_prev h a nd p n : mem h !! a = Some nd ->
  (let! h1 := set_next h (Some a) n in set_prev h1 (Some a) p) = Ok (put h a (mk_node p n (value nd))).
Proof. intros H. rewrite (set_next_put _ _ _ _ H), (set_prev_put _ _ _ _ (put_at _ _ _)). simpl. by rewrite put_put. Qed.

Lemma bind_assoc {A B C} (m : res A) (f : A -> res B) (g : B -> res C) :
  (let! x := m in let! y := f x in g y) = (let! y := (let! x := m in f x) in g y).
Proof. by destruct m. Qed.

Lemma linkHead_contract l ns h a nd :
  is_list l ns h -> a ∉ ns.*1 -> mem h !! a = Some nd -> zlength ns + 1 < 2 ^ 64 ->
  exists l' h', listLinkNodeHead l h (Some a) = Ok (l', h') /\
    list_upd l h (a :: ns.*1) ((a, value nd) :: ns) l' h'.
Proof.
  intros [Hn Hh Ht Hl _ Hs] Ha Hm Hb. unfold listLinkNodeHead. rewrite Hl.
  assert (u64 (zlength ns + 1) = zlength ((a, value nd) :: ns)) as Hu by (rewrite u_id by lia; len).
  rewrite !bind_assoc, !(set_prev_next _ _ _ _ _ Hm). rewrite Hh. unfold with_ends.
  destruct (Z.eqb_spec (zlength ns) 0) as [H0|H0].
  - destruct ns; [|done]. do 2 eexists. split; [done|]. split_and!.
    + split; simpl; try done; [apply list.NoDup_singleton|by rewrite Hl|]. split; [apply put_at|done].
    + eapply only_weak; [apply only_put|]. set_solver.
    + done.
  - destruct (close_prev None (Some a) ns None (put h a (mk_node None (hd_of ns None) (value nd)))) as (h' & -> & H1 & H2);
      [done|by destruct ns|by apply put_frame|].
    do 2 eexists. split; [done|]. split_and!.
    + split; simpl; [by apply list.NoDup_cons|done| |by rewrite Hl|lia|].
      { rewrite Ht. by destruct ns as [|[]]. }
      split; [|done]. rewrite (proj2 H2) by done. apply put_at.
    + eapply only_trans; [eapply only_weak; [apply only_put|]|eapply only_weak; [done|]]; set_solver.
    + done.
Qed.

Lemma linkTail_contract l ns h a nd :
  is_list l ns h -> a ∉ ns.*1 -> mem h !! a = Some nd -> zlength ns + 1 < 2 ^ 64 ->
  exists l' h', listLinkNodeTail l h (Some a) = Ok (l', h') /\
    list_upd l h (a :: ns.*1) (ns ++ [(a, value nd)]) l' h'.
Proof.
  intros [Hn Hh Ht Hl _ Hs] Ha Hm Hb. unfold listLinkNodeTail. rewrite Hl.
  assert (u64 (zlength ns + 1) = zlength (ns ++ [(a, value nd)])) as Hu by (rewrite u_id by lia; len).
  rewrite !bind_assoc, !(set_prev_next _ _ _ _ _ Hm). rewrite Ht. unfold with_ends.
  destruct (Z.eqb_spec (zlength ns) 0) as [H0|H0].
  - destruct ns; [|done]. do 2 eexists. split; [done|]. split_and!.
    + split; simpl; try done; [apply list.NoDup_singleton|by rewrite Hl|]. split; [apply put_at|done].
    + eapply only_weak; [apply only_put|]. set_solver.
    + done.
  - destruct (close_next None (Some a) ns None (put h a (mk_node (lt_of ns None) None (value nd)))) as (h' & -> & H1 & H2);
      [done|by destruct ns|by apply put_frame|].
    do 2 eexists. split; [done|]. split_and!.
    + split; simpl; [|rewrite Hh; by destruct ns as [|[]]|by rewrite lt_of_app|by rewrite Hl|len|].
      { rewrite fmap_app. apply list.NoDup_app. split_and!; [done|set_solver|apply list.NoDup_singleton]. }
      apply lseg_app. split; [done|]. split; [|done]. rewrite (proj2 H2) by done. apply put_at.
    + eapply only_trans; [eapply only_weak; [apply only_put|]|eapply only_weak; [done|]]; set_solver.
    + done.
Qed.

(** Redirecting the forward link of what precedes a node, if anything does. *)
Lemma opt_next p q L n h : NoDup L.*1 -> lseg p L n h ->
  exists h', (if bool_decide (lt_of L None = None) then Ok h else set_next h (lt_of L None) q) = Ok h' /\
    lseg p L q h' /\ only L.*1 h h'.
Proof.
  intros Hn Hs. case_bool_decide as Hb.
  - apply lt_of_none in Hb as ->. by exists h.
  - apply close_next with n; [done| |done]. intros ->. done.
Qed.
Lemma opt_prev p q R n h : NoDup R.*1 -> lseg p R n h ->
  exists h', (if bool_decide (hd_of R None = None) then Ok h else set_prev h (hd_of R None) q) = Ok h' /\
    lseg q R n h' /\ only R.*1 h h'.
Proof.
  intros Hn Hs. case_bool_decide as Hb.
  - apply hd_of_none in Hb as ->. by exists h.
  - apply close_prev with p; [done| |done]. intros ->. done.
Qed.

Lemma nodup_split (L R : list (Z * V)) :
  NoDup (L ++ R).*1 <-> NoDup L.*1 /\ L.*1 ## R.*1 /\ NoDup R.*1.
Proof. rewrite fmap_app, list.NoDup_app. set_solver. Qed.

Lemma fmap_fst_app (L R : list (Z * V)) : (L ++ R).*1 = L.*1 ++ R.*1.
Proof. apply fmap_app. Qed.

(** A node that already points to both sides is linked in from both sides. *)
Lemma splice_in L R h a v :
  NoDup (L ++ R).*1 -> a ∉ (L ++ R).*1 -> lseg None (L ++ R) None h ->
  let nd := mk_node (lt_of L None) (hd_of R None) v in
  exists h1 h2,
    (if bool_decide (prev nd = None) then Ok (put h a nd) else set_next (put h a nd) (prev nd) (Some a)) = Ok h1 /\
    deref h1 (Some a) = Ok nd /\
    (if bool_decide (next nd = None) then Ok h1 else set_prev h1 (next nd) (Some a)) = Ok h2 /\
    lseg None (L ++ (a, v) :: R) None h2 /\ only (a :: (L ++ R).*1) h h2.
Proof.
  intros (HL & HD & HR)%nodup_split. rewrite fmap_fst_app. intros Ha [H1 H2]%lseg_app nd.
  destruct (opt_next None (Some a) L (hd_of R None) (put h a nd)) as (h1 & E1 & S1 & O1); [done|apply put_frame; set_solver|].
  assert (mem h1 !! a = Some nd) as Hm by (rewrite (proj2 O1) by set_solver; apply put_at).
  destruct (opt_prev (lt_of L None) (Some a) R None h1) as (h2 & E2 & S2 & O2);
    [done|apply (lseg_only _ _ _ _ _ _ O1); [set_solver|apply put_frame; set_solver]|].
  exists h1, h2. split_and!; [done|simpl; by rewrite Hm|done| |].
  - apply lseg_app. split; [apply (lseg_only _ _ _ _ _ _ O2); [set_solver|done]|].
    split; [|done]. rewrite (proj2 O2) by set_solver. done.
  - eapply only_trans; [eapply only_weak; [apply only_put|]|eapply only_trans; eapply only_weak; [done| |done|]]; set_solver.
Qed.

Lemma lt_of_in R d : R <> [] -> exists b, lt_of R d = Some b /\ b ∈ R.*1.
Proof.
  destruct R as [|[b v] R _] using rev_ind; [done|]. intros _. exists b.
  rewrite lt_of_app, fmap_fst_app. set_solver.
Qed.
Lemma hd_of_in R d : R <> [] -> exists b, hd_of R d = Some b /\ b ∈ R.*1.
Proof. destruct R as [|[b v] R]; [done|]. intros _. exists b. set_solver. Qed.

Lemma deref_put_ne h a b nd : a <> b -> deref (put h a nd) (Some b) = deref h (Some b).
Proof. intros Hn. simpl. by rewrite lookup_insert_ne. Qed.

Lemma nodup_mid L R a (v : V) : NoDup (L ++ (a, v) :: R).*1 <-> a ∉ (L ++ R).*1 /\ NoDup (L ++ R).*1.
Proof. rewrite !fmap_fst_app. simpl. rewrite <- Permutation_middle. apply list.NoDup_cons. Qed.

(** listInsertNode with a node at [a]. *)
Definition insert_result L (o : Z) (w : V) R (a : Z) (v : V) (after : bool) : list (Z * V) :=
  if after then L ++ (o, w) :: (a, v) :: R else L ++ (a, v) :: (o, w) :: R.

Lemma insertNode_contract zmalloc l L o w R h a v after :
  let ns := L ++ (o, w) :: R in
  is_list l ns h -> a ∉ ns.*1 -> zmalloc (mem h) = Some a -> zlength ns + 1 < 2 ^ 64 ->
  exists l' h', listInsertNode zmalloc l h (Some o) v after = Ok (Some (l', h')) /\
    list_upd l h (a :: ns.*1) (insert_result L o w R a v after) l' h'.
Proof.
  intros ns [Hn Hh Ht Hl _ Hs] Ha Hz Hb. unfold listInsertNode. rewrite Hz.
  assert (a <> o) as Hao by (intros ->; apply Ha; unfold ns; rewrite fmap_fst_app; set_solver).
  assert (mem h !! o = Some (mk_node (lt_of L None) (hd_of R None) w)) as Ho.
  { pose proof (deref_at None L o w R None h Hs) as Hd. simpl in Hd. destruct (mem h !! o); congruence. }
  pose proof (proj1 (proj1 (nodup_mid L R o w) Hn)) as Hon. rewrite fmap_fst_app in Hon.
  assert (u64 (l_len l + 1) = zlength ns + 1) as Hu by (rewrite Hl; apply u_id; lia).
  destruct after; cbn [insert_result].
  - rewrite (set_prev_put _ _ _ _ (put_at _ _ _)), put_put. rewrite deref_put_ne by done. unfold deref at 1. rewrite Ho.
    rewrite (set_next_put _ _ _ _ (put_at _ _ _)), put_put. cbn [prev next value].
    assert (ns = (L ++ [(o, w)]) ++ R) as Hns by (unfold ns; by rewrite <- app_assoc). rewrite Hns in *.
    destruct (splice_in _ _ h a v Hn Ha Hs) as (h1 & h2 & E1 & D1 & E2 & S2 & O2). rewrite lt_of_snoc in *.
    unfold deref at 1. rewrite put_at. rewrite E1, D1, E2. clear E1 D1 E2. do 2 eexists. split; [done|].
    split_and!; [|done|unfold same_methods; by case_bool_decide].
    assert (NoDup ((L ++ [(o, w)]) ++ (a, v) :: R).*1) as Hn' by by apply nodup_mid.
    rewrite <- app_assoc in S2, Hn'. split; [done| | |simpl|simpl in *; len|done].
    + case_bool_decide; simpl; rewrite Hh, !hd_of_app; by destruct L as [|[]].
    + rewrite Ht, !lt_of_app. destruct R as [|[b x] R]; simpl; [by rewrite bool_decide_true|].
      destruct (lt_of_in ((b, x) :: R) (Some o)) as (c & Hc & Hin); [done|]. simpl in Hc. rewrite Hc.
      case_bool_decide as He; [|simpl; rewrite Ht, !lt_of_app; simpl; congruence]. exfalso. simplify_eq. set_solver.
    + case_bool_decide; simpl; rewrite Hu; len.
  - rewrite (set_next_put _ _ _ _ (put_at _ _ _)), put_put. rewrite deref_put_ne by done. unfold deref at 1. rewrite Ho.
    rewrite (set_prev_put _ _ _ _ (put_at _ _ _)), put_put. cbn [prev next value].
    destruct (splice_in _ _ h a v Hn Ha Hs) as (h1 & h2 & E1 & D1 & E2 & S2 & O2). cbn [hd_of] in *.
    unfold deref at 1. rewrite put_at. rewrite E1, D1, E2. clear E1 D1 E2. do 2 eexists. split; [done|].
    split_and!; [|done|unfold same_methods; by case_bool_decide].
    assert (NoDup (L ++ (a, v) :: (o, w) :: R).*1) as Hn' by by apply nodup_mid.
    split; [done| | |simpl|unfold ns in *; len|done].
    + rewrite Hh, !hd_of_app. destruct L as [|[b x] L]; simpl; [by rewrite bool_decide_true|].
      case_bool_decide as He; [|done]. exfalso. simplify_eq. set_solver.
    + case_bool_decide; simpl; rewrite Ht; unfold ns; by rewrite !lt_of_app.
    + case_bool_decide; simpl; rewrite Hu; unfold ns; len.
Qed.

(** * Unlinking a node *)

(** The node's memory after listUnlinkNode: detached, with its value. *)
Lemma listUnlink_contract l L a v R h :
  is_list l (L ++ (a, v) :: R) h ->
  exists l' h', listUnlinkNode l h (Some a) = Ok (l', h') /\
    list_upd l h (L ++ (a, v) :: R).*1 (L ++ R) l' h' /\ mem h' !! a = Some (mk_node None None v).
Proof.
  intros [Hn Hh Ht Hl Hb Hs]. pose proof (deref_at None L a v R None h Hs) as Hd.
  apply nodup_mid in Hn as [Ha (HL & HD & HR)%nodup_split]. rewrite fmap_fst_app in Ha.
  apply lseg_app in Hs as [S1 [S2 S3]]. rewrite fmap_fst_app.
  unfold listUnlinkNode. rewrite Hd. cbn [prev next].
  destruct (opt_next None (hd_of R None) L (Some a) h) as (h1 & E1 & T1 & O1); [done..|].
  assert (mem h1 !! a = Some (mk_node (lt_of L None) (hd_of R None) v)) as Hm1.
  { rewrite (proj2 O1) by set_solver. done. }
  destruct (opt_prev (Some a) (lt_of L None) R None h1) as (h2 & E2 & T2 & O2);
    [done|by apply (lseg_only _ _ _ _ _ _ O1); [set_solver|]|].
  assert (mem h2 !! a = Some (mk_node (lt_of L None) (hd_of R None) v)) as Hm2.
  { rewrite (proj2 O2) by set_solver. done. }
  set (nd := mk_node (V := V) None None v).
  assert (is_list (with_ends l (hd_of (L ++ R) None) (lt_of (L ++ R) None) (zlength (L ++ R))) (L ++ R) (put h2 a nd)) as Hil.
  { split; try done; [by apply nodup_split|len|]. apply lseg_app.
    split; apply put_frame; [set_solver| |set_solver|done]. by apply (lseg_only _ _ _ _ _ _ O2); [set_solver|]. }
  exists (with_ends l (hd_of (L ++ R) None) (lt_of (L ++ R) None) (zlength (L ++ R))), (put h2 a nd).
  split; [|split; [split_and!; [done| |done]|apply put_at]].
  2: { eapply only_trans; [eapply only_trans; eapply only_weak; [done| |done|]|eapply only_weak; [apply only_put|]]; set_solver. }
  assert (u64 (l_len l - 1) = zlength (L ++ R)) as Hu by (rewrite Hl in *; rewrite u_id; len).
  assert (forall l0 : adlist V, (let! h3 := set_next h2 (Some a) None in let! h4 := set_prev h3 (Some a) None in
                      Ok (set_len l0 (u64 (l_len l0 - 1)), h4)) = Ok (set_len l0 (u64 (l_len l0 - 1)), put h2 a nd)) as Hfin.
  { intros l0. by rewrite (set_next_put _ _ _ _ Hm2), (set_prev_put _ _ _ _ (put_at _ _ _)), put_put. }
  set (l1 := match lt_of L None with Some _ => l | None => set_head l (hd_of R None) end).
  set (l2 := match hd_of R None with Some _ => l1 | None => set_tail l1 (lt_of L None) end).
  assert (set_len l2 (u64 (l_len l2 - 1)) = with_ends l (hd_of (L ++ R) None) (lt_of (L ++ R) None) (zlength (L ++ R))) as <-.
  { assert (l_len l2 = l_len l) as -> by (unfold l2, l1; by destruct (hd_of R None), (lt_of L None)).
    rewrite Hu. unfold l2, l1. rewrite hd_of_app in Hh |- *. rewrite lt_of_app in Ht |- *. clear -Hh Ht.
    destruct l as [hd tl ? ? ? ?]. simpl in Hh, Ht.
    destruct (lt_of L None) as [b|] eqn:EL.
    - assert (hd_of L None <> None) as HL' by (destruct L as [|[]]; done).
      destruct L as [|[b' w] L]; [done|]. simpl in Hh. subst. destruct R as [|[c x] R]; unfold set_len, with_ends; simpl; done.
    - apply lt_of_none in EL as ->. simpl in *. subst. by destruct R as [|[c x] R]. }
  destruct (lt_of L None) as [b|]; [rewrite bool_decide_false in E1 by done|rewrite bool_decide_true in E1 by done];
    [rewrite E1|injection E1 as <-]; unfold deref; rewrite Hm1; cbn [prev next];
    (destruct (hd_of R None) as [c|]; [rewrite bool_decide_false in E2 by done|rewrite bool_decide_true in E2 by done];
      [rewrite E2|injection E2 as <-]; apply Hfin).
Qed.

Lemma mem_free_value l h v : mem (free_value l h v) = mem h.
Proof. unfold free_value. by destruct (free l). Qed.
Lemma log_free_value l h v : log (free_value l h v) = if free l then log h ++ [v] else log h.
Proof. unfold free_value. by destruct (free l). Qed.

(** listDelNode also frees the value and the node. *)
Lemma delNode_contract l L a v R h :
  is_list l (L ++ (a, v) :: R) h ->
  exists l' h', listDelNode l h (Some a) = Ok (l', h') /\ is_list l' (L ++ R) h' /\ same_methods l l' /\
    mem h' !! a = None /\ (forall b, b ∉ (L ++ (a, v) :: R).*1 -> mem h' !! b = mem h !! b) /\
    log h' = if free l then log h ++ [v] else log h.
Proof.
  intros Hil. unfold listDelNode.
  destruct (listUnlink_contract l L a v R h Hil) as (l' & h1 & -> & (H1 & [H2 H3] & H4) & Hm).
  unfold deref. rewrite Hm. cbn [value]. unfold zfree. rewrite mem_free_value, Hm.
  pose proof H4 as (_ & Hf & _). do 2 eexists. split; [done|]. split_and!; [|done|..].
  - destruct H1 as [Hn ? ? ? ? Hs]. split; try done. eapply lseg_frame; [|done]. intros b Hb. simpl.
    apply lookup_delete_ne. intros <-. destruct Hil as [[Ha _]%nodup_mid _ _ _ _ _]. done.
  - apply lookup_delete_eq.
  - intros b Hb. simpl. rewrite lookup_delete_ne; [by apply H3|]. rewrite fmap_fst_app in Hb. set_solver.
  - simpl. rewrite log_free_value, Hf, H2. done.
Qed.

(** * Emptying *)

Definition freed_values (l : adlist V) ns : list V := if free l then ns.*2 else [].

Lemma empty_loop_contract l ns : forall p h, NoDup ns.*1 -> lseg p ns None h ->
  exists h', listEmpty_loop (length ns) l h (hd_of ns None) = Ok h' /\
    (forall b, mem h' !! b = if decide (b ∈ ns.*1) then None else mem h !! b) /\
    log h' = log h ++ freed_values l ns.
Proof.
  unfold freed_values. induction ns as [|[a v] ns IH]; intros p h Hn Hs.
  - exists h. split; [done|]. split; [done|]. simpl. destruct (free l); by rewrite app_nil_r.
  - apply list.NoDup_cons in Hn as [Ha Hn]. destruct Hs as [Hm Hs]. simpl. rewrite Hm. cbn [value next].
    rewrite mem_free_value, Hm.
    destruct (IH (Some a) (mk_heap (delete a (mem h)) (log (free_value l h v))) Hn) as (h' & -> & H1 & H2).
    { eapply lseg_frame; [|done]. intros b Hb. simpl. apply lookup_delete_ne. set_solver. }
    exists h'. split; [done|]. split.
    + intros b. rewrite H1. simpl. destruct (decide (b ∈ ns.*1)); [rewrite decide_True by set_solver; done|].
      destruct (decide (b = a)) as [->|]; [rewrite decide_True by set_solver; apply lookup_delete_eq|].
      rewrite decide_False by set_solver. by rewrite lookup_delete_ne.
    + rewrite H2. simpl. rewrite log_free_value. destruct (free l); [by rewrite <- app_assoc|done].
Qed.

Lemma listEmpty_contract l ns h : is_list l ns h ->
  exists l' h', listEmpty l h = Ok (l', h') /\ is_list l' [] h' /\ same_methods l l' /\
    (forall b, mem h' !! b = if decide (b ∈ ns.*1) then None else mem h !! b) /\ log h' = log h ++ freed_values l ns.
Proof.
  intros [Hn Hh _ Hl _ Hs]. unfold listEmpty. rewrite Hl, Hh, Nat2Z.id.
  destruct (empty_loop_contract l ns None h Hn Hs) as (h' & -> & H1 & H2).
  do 2 eexists. split; [done|]. split_and!; [|done..]. split; try done. apply list.NoDup_nil. done.
Qed.

(** * Index and search *)

Lemma index_fwd h R : forall p fuel i, lseg p R None h -> (length R < fuel)%nat -> 0 <= i ->
  listIndex_loop fuel h AL_START_HEAD i (hd_of R None) = Ok (fst <$> R !! Z.to_nat i).
Proof.
  induction R as [|[a v] R IH]; intros p fuel i Hs Hf Hi; (destruct fuel as [|fuel]; [simpl in Hf; lia|]); cbn [listIndex_loop hd_of].
  - by destruct (i =? 0).
  - destruct Hs as [Hm Hs]. zbool; [by subst|]. cbn [deref]. rewrite Hm. cbn [next].
    rewrite (IH (Some a)) by (done || simpl in Hf; lia). f_equal.
    replace (Z.to_nat i) with (S (Z.to_nat (i - 1))) by lia. done.
Qed.

Lemma index_bwd h L : forall n fuel i, lseg None L n h -> (length L < fuel)%nat -> 0 <= i ->
  listIndex_loop fuel h AL_START_TAIL i (lt_of L None) = Ok (fst <$> reverse L !! Z.to_nat i).
Proof.
  induction L as [|[a v] L IH] using rev_ind; intros n fuel i Hs Hf Hi;
    (destruct fuel as [|fuel]; [len|]); cbn [listIndex_loop].
  - by destruct (i =? 0).
  - rewrite lt_of_snoc, reverse_snoc. apply lseg_app in Hs as [Hs [Hm _]]. zbool; [by subst|]. cbn [deref]. rewrite Hm.
    cbn [prev]. rewrite (IH (Some a)) by (done || len). f_equal.
    replace (Z.to_nat i) with (S (Z.to_nat (i - 1))) by lia. done.
Qed.

Definition node_matches `{EqDecision V} (l : adlist V) (key : V) (nd : Z * V) : bool :=
  match match_ l with Some f => f nd.2 key | None => bool_decide (key = nd.2) end.

Lemma search_loop `{EqDecision V} l key h R : forall p fuel, lseg p R None h -> (length R < fuel)%nat ->
  listSearchKey_loop fuel l h key (mk_iter (hd_of R None) AL_START_HEAD) = Ok (fst <$> List.find (node_matches l key) R).
Proof.
  induction R as [|[a v] R IH]; intros p fuel Hs Hf; (destruct fuel as [|fuel]; [simpl in Hf; lia|]); cbn [listSearchKey_loop hd_of].
  - done.
  - destruct Hs as [Hm Hs]. unfold listNext. cbn [it_next deref]. rewrite Hm. cbn [next it_direction deref]. rewrite Hm. cbn [value].
    cbn [List.find]. destruct (node_matches l key (a, v)) eqn:E; unfold node_matches in E; cbn [snd] in E; rewrite E; [done|].
    apply (IH (Some a)); [done|simpl in Hf; lia].
Qed.

(** * Rotation and concatenation *)

Lemma rotateTail_contract l L a v h : is_list l (L ++ [(a, v)]) h ->
  exists l' h', listRotateTailToHead l h = Ok (l', h') /\ list_upd l h (L ++ [(a, v)]).*1 ((a, v) :: L) l' h'.
Proof.
  intros Hil. unfold listRotateTailToHead, listLength. pose proof Hil as [Hn Hh Ht Hl Hb Hs].
  destruct (Z.leb_spec (l_len l) 1) as [H1|H1].
  { destruct L; [|rewrite Hl in H1; len]. do 2 eexists. split; [done|]. split_and!; [done|apply only_refl|done]. }
  rewrite Ht, lt_of_snoc. pose proof (deref_at None L a v [] None h Hs) as Hd. rewrite Hd. cbn [prev].
  apply nodup_split in Hn as (HL & HD & _). apply lseg_app in Hs as [S1 [Hm _]].
  assert (L <> []) as Hne by (intros ->; rewrite Hl in H1; len).
  destruct (close_next None None L (Some a) h) as (h1 & E1 & T1 & O1); [done..|].
  destruct (close_prev None (Some a) L None h1) as (h2 & E2 & T2 & O2); [done..|].
  assert (mem h2 !! a = mem h !! a) as Hma by (rewrite (proj2 O2), (proj2 O1) by set_solver; done).
  rewrite Hm in Hma. cbn [set_tail with_ends l_tail]. rewrite E1.
  assert (hd_of (L ++ [(a, v)]) None = hd_of L None) as Hhd by (rewrite hd_of_app; by destruct L as [|[]]).
  cbn [set_tail with_ends l_head]. rewrite Hh, Hhd, E2.
  rewrite (set_prev_put _ _ _ _ Hma), (set_next_put _ _ _ _ (put_at _ _ _)), put_put. cbn [prev next value].
  do 2 eexists. split; [done|]. split_and!; [|clear -O1 O2; rewrite fmap_fst_app|done].
  - split; simpl; [apply list.NoDup_cons; split; [set_solver|done]|done|by destruct L as [|[]]|rewrite Hl; len|len|].
    split; [apply put_at|]. apply put_frame; [set_solver|done].
  - eapply only_trans; [eapply only_trans; eapply only_weak; [done| |done|]|eapply only_weak; [apply only_put|]]; set_solver.
Qed.

Lemma rotateHead_contract l R a v h : is_list l ((a, v) :: R) h ->
  exists l' h', listRotateHeadToTail l h = Ok (l', h') /\ list_upd l h ((a, v) :: R).*1 (R ++ [(a, v)]) l' h'.
Proof.
  intros Hil. unfold listRotateHeadToTail, listLength. pose proof Hil as [Hn Hh Ht Hl Hb Hs].
  destruct (Z.leb_spec (l_len l) 1) as [H1|H1].
  { destruct R; [|rewrite Hl in H1; len]. do 2 eexists. split; [done|]. split_and!; [done|apply only_refl|done]. }
  pose proof (deref_at None [] a v R None h Hs) as Hd. rewrite Hh. cbn [hd_of]. rewrite Hd. cbn [next].
  apply list.NoDup_cons in Hn as (Ha & HR). destruct Hs as [Hm S1].
  assert (R <> []) as Hne by (intros ->; rewrite Hl in H1; len).
  destruct (close_prev (Some a) None R None h) as (h1 & E1 & T1 & O1); [done..|].
  destruct (close_next None (Some a) R None h1) as (h2 & E2 & T2 & O2); [done..|].
  assert (mem h2 !! a = mem h !! a) as Hma by (rewrite (proj2 O2), (proj2 O1) by done; done).
  rewrite Hm in Hma. cbn [set_head with_ends l_head l_tail]. rewrite E1, Ht.
  assert (lt_of ((a, v) :: R) None = lt_of R None) as -> by by destruct R as [|[]].
  rewrite E2, (set_next_put _ _ _ _ Hma), (set_prev_put _ _ _ _ (put_at _ _ _)), put_put. cbn [prev next value].
  do 2 eexists. split; [done|]. split_and!; [|clear -O1 O2|done].
  - split; simpl; [|rewrite hd_of_app; by destruct R as [|[]]|by rewrite lt_of_app|rewrite Hl; len|len|].
    { rewrite fmap_fst_app. apply list.NoDup_app. split_and!; [done|set_solver|apply list.NoDup_singleton]. }
    apply lseg_app. split; [by apply put_frame|]. split; [apply put_at|done].
  - eapply only_trans; [eapply only_trans; eapply only_weak; [done| |done|]|eapply only_weak; [apply only_put|]]; set_solver.
Qed.

Lemma join_contract l o L O h : is_list l L h -> is_list o O h -> L.*1 ## O.*1 -> zlength L + zlength O < 2 ^ 64 ->
  exists l' o' h', listJoin l o h = Ok (l', o', h') /\ list_upd l h (L.*1 ++ O.*1) (L ++ O) l' h' /\
    is_list o' [] h' /\ same_methods o o'.
Proof.
  intros Hl Ho Hd Hb. pose proof Hl as [Hn1 Hh1 Ht1 Hl1 _ Hs1]. pose proof Ho as [Hn2 Hh2 Ht2 Hl2 _ Hs2].
  unfold listJoin. rewrite Hl2. destruct (Z.eqb_spec (zlength O) 0) as [H0|H0].
  { destruct O; [|done]. rewrite !app_nil_r. exists l, o, h. split; [done|]. split; [split_and!; [done|apply only_refl|done]|done]. }
  assert (O <> []) as Hne by by intros ->.
  rewrite Hh2. destruct (close_prev None (l_tail l) O None h) as (h1 & -> & T1 & O1); [done..|].
  destruct (opt_next None (hd_of O None) L None h1) as (h2 & E2 & T2 & O2); [done|by apply (lseg_only _ _ _ _ _ _ O1)|].
  assert (is_list (with_ends l (hd_of (L ++ O) None) (lt_of (L ++ O) None) (zlength (L ++ O))) (L ++ O) h2) as Hil.
  { split; try done; [by apply nodup_split|len|]. apply lseg_app. split; [done|]. rewrite <- Ht1.
    apply (lseg_only _ _ _ _ _ _ O2); [set_solver|done]. }
  exists (with_ends l (hd_of (L ++ O) None) (lt_of (L ++ O) None) (zlength (L ++ O))), (with_ends o None None 0), h2.
  split; [|split; [split_and!; [done| |done]|split; [|done]]].
  - rewrite hd_of_app, lt_of_app, Ht1. destruct (lt_of L None) as [b|] eqn:EL.
    + rewrite bool_decide_false in E2 by done. rewrite E2. unfold set_tail, set_len, with_ends. simpl. rewrite Hl1, Ht2, u_id by lia.
      destruct L as [|[c x] L]; [done|]. rewrite Hh1. simpl. do 4 f_equal; [|len]. destruct O as [|[]]; done.
    + apply lt_of_none in EL as ->. injection E2 as <-. unfold set_tail, set_len, with_ends. simpl. rewrite Hl1, Ht2, u_id by (simpl; lia). done.
  - eapply only_trans; eapply only_weak; [done| |done|]; set_solver.
  - split; try done. apply list.NoDup_nil. done.
Qed.

(** * Iteration *)

(** The loop of the listNext documentation: visit every node, and remove with
    listDelNode the visited ones that [keep] rejects.  Returns the visited values. *)
Fixpoint sweep (fuel : nat) (keep : V -> bool) (l : adlist V) h (it : listIter) : res (list V * adlist V * heap V) :=
  match fuel with
  | O => Fault OutOfFuel
  | S fuel =>
      let! '(node, it) := listNext h it in
      match node with
      | None => Ok ([], l, h)
      | Some _ =>
          let! nd := deref h node in
          let! '(l, h) := (if keep (value nd) then Ok (l, h) else listDelNode l h node) in
          let! '(vs, l, h) := sweep fuel keep l h it in
          Ok (value nd :: vs, l, h)
      end
  end.

Definition kept (keep : V -> bool) ns : list (Z * V) := List.filter (fun nd => keep nd.2) ns.

Lemma kept_app keep L R : kept keep (L ++ R) = kept keep L ++ kept keep R.
Proof. apply filter_app. Qed.
Lemma kept_one keep a v : kept keep [(a, v)] = if keep v then [(a, v)] else [].
Proof. done. Qed.

Lemma sweep_fwd keep R : forall fuel l K h, is_list l (K ++ R) h -> (length R < fuel)%nat ->
  exists l' h', sweep fuel keep l h (mk_iter (hd_of R None) AL_START_HEAD) = Ok (R.*2, l', h') /\
    is_list l' (K ++ kept keep R) h' /\ same_methods l l' /\ (forall b, b ∉ (K ++ R).*1 -> mem h' !! b = mem h !! b).
Proof.
  induction R as [|[a v] R IH]; intros fuel l K h Hil Hf; (destruct fuel as [|fuel]; [simpl in Hf; lia|]); cbn [sweep hd_of].
  { by exists l, h. }
  pose proof (deref_at None K a v R None h (il_seg _ _ _ Hil)) as Hd. unfold listNext. cbn [it_next]. rewrite Hd.
  cbn [next it_direction]. rewrite Hd. cbn [value fmap list_fmap].
  change ((a, v) :: R) with ([(a, v)] ++ R). rewrite kept_app, kept_one. destruct (keep v).
  - destruct (IH fuel l (K ++ [(a, v)]) h) as (l' & h' & -> & H1 & H2 & H3); [by rewrite <- app_assoc|simpl in Hf; lia|].
    rewrite <- app_assoc in *. by exists l', h'.
  - destruct (delNode_contract l K a v R h Hil) as (l1 & h1 & -> & D1 & D2 & D3 & D4 & _).
    destruct (IH fuel l1 K h1 D1) as (l' & h' & -> & H1 & (H2a & H2b & H2c) & H3); [simpl in Hf; lia|].
    destruct D2 as (? & ? & ?). exists l', h'. split_and!; [done|done|split_and!; congruence|].
    intros b Hb. rewrite H3, D4; [done|done|]. rewrite !fmap_fst_app in *. set_solver.
Qed.

Lemma sweep_bwd keep L : forall fuel l K h, is_list l (L ++ K) h -> (length L < fuel)%nat ->
  exists l' h', sweep fuel keep l h (mk_iter (lt_of L None) AL_START_TAIL) = Ok (reverse L.*2, l', h') /\
    is_list l' (kept keep L ++ K) h' /\ same_methods l l' /\ (forall b, b ∉ (L ++ K).*1 -> mem h' !! b = mem h !! b).
Proof.
  induction L as [|[a v] L IH] using rev_ind; intros fuel l K h Hil Hf; (destruct fuel as [|fuel]; [len|]); cbn [sweep].
  { by exists l, h. }
  rewrite lt_of_snoc. rewrite <- app_assoc in *. simpl in Hil.
  pose proof (deref_at None L a v K None h (il_seg _ _ _ Hil)) as Hd. unfold listNext. cbn [it_next]. rewrite Hd.
  cbn [prev it_direction]. rewrite Hd. cbn [value]. rewrite fmap_app, reverse_app, kept_app, kept_one, <- app_assoc.
  assert (length L < fuel)%nat as Hf' by len. destruct (keep v).
  - destruct (IH fuel l ((a, v) :: K) h) as (l' & h' & -> & H1 & H2 & H3); [done..|]. by exists l', h'.
  - destruct (delNode_contract l L a v K h Hil) as (l1 & h1 & -> & D1 & D2 & D3 & D4 & _).
    destruct (IH fuel l1 K h1 D1) as (l' & h' & -> & H1 & (H2a & H2b & H2c) & H3); [done|].
    destruct D2 as (? & ? & ?). exists l', h'. split_and!; [done|done|split_and!; congruence|].
    intros b Hb. simpl in Hb. rewrite H3, D4; [done|done|]. rewrite !fmap_fst_app in *. set_solver.
Qed.

(** * Duplication *)

Lemma fresh_not_in p ns n h a : lseg p ns n h -> mem h !! a = None -> a ∉ ns.*1.
Proof.
  revert p. induction ns as [|[b v] ns IH]; intros p; [set_solver|]. intros [Hm Hs] Ha. simpl.
  apply not_elem_of_cons. split; [congruence|by eapply IH].
Qed.

Lemma put_is_list l ns h a nd : a ∉ ns.*1 -> is_list l ns h -> is_list l ns (put h a nd).
Proof. intros Ha []. split; try done. by apply put_frame. Qed.

Section Alloc.
Context (zmalloc : gmap Z (listNode V) -> option Z).
Hypothesis zmalloc_fresh : forall m a, zmalloc m = Some a -> m !! a = None.

Lemma addNodeTail_contract l ns h v :
  is_list l ns h -> zlength ns + 1 < 2 ^ 64 ->
  match zmalloc (mem h) with
  | None => listAddNodeTail zmalloc l h v = Ok None
  | Some a => mem h !! a = None /\ exists l' h', listAddNodeTail zmalloc l h v = Ok (Some (l', h')) /\
      list_upd l h (a :: ns.*1) (ns ++ [(a, v)]) l' h'
  end.
Proof.
  intros Hil Hb. unfold listAddNodeTail. destruct (zmalloc (mem h)) as [a|] eqn:Hz; [|done].
  apply zmalloc_fresh in Hz. split; [done|].
  assert (a ∉ ns.*1) as Ha by (eapply fresh_not_in; [apply Hil|done]).
  destruct (linkTail_contract l ns (put h a (mk_node None None v)) a (mk_node None None v)) as (l' & h' & -> & H1 & H2 & H3);
    [by apply put_is_list|done|apply put_at|done|].
  do 2 eexists. split; [done|]. split_and!; [done| |done].
  eapply only_trans; [eapply only_weak; [apply only_put|]|done]. set_solver.
Qed.
Lemma addNodeHead_contract l ns h v :
  is_list l ns h -> zlength ns + 1 < 2 ^ 64 ->
  match zmalloc (mem h) with
  | None => listAddNodeHead zmalloc l h v = Ok None
  | Some a => mem h !! a = None /\ exists l' h', listAddNodeHead zmalloc l h v = Ok (Some (l', h')) /\
      list_upd l h (a :: ns.*1) ((a, v) :: ns) l' h'
  end.
Proof.
  intros Hil Hb. unfold listAddNodeHead. destruct (zmalloc (mem h)) as [a|] eqn:Hz; [|done].
  apply zmalloc_fresh in Hz. split; [done|].
  assert (a ∉ ns.*1) as Ha by (eapply fresh_not_in; [apply Hil|done]).
  destruct (linkHead_contract l ns (put h a (mk_node None None v)) a (mk_node None None v)) as (l' & h' & -> & H1 & H2 & H3);
    [by apply put_is_list|done|apply put_at|done|].
  do 2 eexists. split; [done|]. split_and!; [done| |done].
  eapply only_trans; [eapply only_weak; [apply only_put|]|done]. set_solver.
Qed.

(** The value a copied node gets. *)
Definition dup_value (l : adlist V) (v : V) : option V := match dup l with Some f => f v | None => Some v end.

(** During the copy: [h] is the initial heap [h0] plus the nodes [cs] of the copy. *)
Definition extends (cs : list (Z * V)) h0 h : Prop :=
  (forall b, b ∈ cs.*1 -> mem h0 !! b = None) /\ (forall b, b ∉ cs.*1 -> mem h !! b = mem h0 !! b).

Lemma extends_seg cs h0 h p ns n : extends cs h0 h -> lseg p ns n h0 -> lseg p ns n h.
Proof.
  intros [H1 H2] Hs. eapply lseg_frame; [|done]. intros a Ha. apply H2. intros Hc. apply H1 in Hc.
  by eapply fresh_not_in.
Qed.

Lemma extends_release copy cs h0 h : is_list copy cs h -> extends cs h0 h ->
  exists h', listRelease (Some copy) h = Ok h' /\ mem h' = mem h0 /\ log h' = log h ++ freed_values copy cs.
Proof.
  intros Hil [H1 H2]. simpl. destruct (listEmpty_contract copy cs h Hil) as (l' & h' & -> & _ & _ & Hm & Hl).
  exists h'. split; [done|]. split; [|done]. apply map_eq. intros b. rewrite Hm. destruct (decide (b ∈ cs.*1)); [by rewrite H1|by apply H2].
Qed.

(** Why a copy of the values [vs] stops, and the values it has to free: the copies made so far, after
    the one that got no node.  [m] is the memory when zmalloc fails. *)
Definition dup_stops (orig : adlist V) h0 (vs freed : list V) : Prop :=
  exists copied v rest ws, vs = copied ++ v :: rest /\ mapM (dup_value orig) copied = Some ws /\
    ((dup_value orig v = None /\ freed = ws) \/
     (exists w m, dup_value orig v = Some w /\ freed = w :: ws /\ mem h0 ⊆ m /\ zmalloc m = None)).

Lemma extends_sub cs h0 h : extends cs h0 h -> mem h0 ⊆ mem h.
Proof.
  intros [H1 H2]. apply map_subseteq_spec. intros b nd Hb. rewrite H2; [done|]. intros Hin. apply H1 in Hin. congruence.
Qed.

(** A node that cannot be allocated: the copied value and the partial copy are freed. *)
Lemma dup_no_node copy cs h0 h w : is_list copy cs h -> extends cs h0 h ->
  exists h', listRelease (Some copy) (free_value copy h w) = Ok h' /\ mem h' = mem h0 /\ log h' = log h ++ (if free copy then w :: cs.*2 else []).
Proof.
  intros Hil [E1 E2]. destruct (extends_release copy cs h0 (free_value copy h w)) as (h' & -> & Hm & Hl).
  - destruct Hil as [? ? ? ? ? Hs']. split; try done. eapply lseg_frame; [|done]. intros b _. by rewrite mem_free_value.
  - split; [done|]. intros b Hb'. rewrite mem_free_value. auto.
  - exists h'. split; [done|]. split; [done|]. rewrite Hl, log_free_value. unfold freed_values. destruct (free copy); [by rewrite <- app_assoc|done].
Qed.

Lemma dup_loop_contract orig h0 R : forall p fuel copy cs h P,
  lseg p R None h0 -> (length R < fuel)%nat -> zlength cs + zlength R < 2 ^ 64 ->
  is_list copy cs h -> same_methods orig copy -> extends cs h0 h -> log h = log h0 -> mapM (dup_value orig) P = Some cs.*2 ->
  (exists copy' cs' h', listDup_loop zmalloc fuel copy h (mk_iter (hd_of R None) AL_START_HEAD) = Ok (Some copy', h') /\
     is_list copy' cs' h' /\ same_methods orig copy' /\ extends cs' h0 h' /\ log h' = log h0 /\
     mapM (dup_value orig) (P ++ R.*2) = Some cs'.*2) \/
  (exists h' freed, listDup_loop zmalloc fuel copy h (mk_iter (hd_of R None) AL_START_HEAD) = Ok (None, h') /\
     mem h' = mem h0 /\ log h' = log h0 ++ (if free orig then freed else []) /\ dup_stops orig h0 (P ++ R.*2) freed).
Proof.
  induction R as [|[a v] R IH]; intros p fuel copy cs h P Hs Hf Hb Hil Hsm He Hlog HP;
    (destruct fuel as [|fuel]; [simpl in Hf; lia|]); cbn [listDup_loop hd_of].
  { left. exists copy, cs, h. rewrite app_nil_r. done. }
  pose proof (extends_seg _ _ _ _ _ _ He Hs) as [Hm _]. destruct Hs as [_ Hs]. pose proof Hsm as (Hdup & Hfree & _).
  unfold listNext. cbn [it_next deref]. rewrite Hm. cbn [next it_direction deref]. rewrite Hm. cbn [value].
  assert (match dup copy with Some f => f v | None => Some v end = dup_value orig v) as ->.
  { unfold dup_value. by rewrite Hdup. }
  rewrite fmap_cons. cbn [snd]. destruct (dup_value orig v) as [w|] eqn:Ew.
  2: { right. destruct (extends_release copy cs h0 h Hil He) as (h' & -> & Hh & Hl). exists h', cs.*2. split_and!; [done..| |].
       - rewrite Hl, Hlog. unfold freed_values. by rewrite Hfree.
       - exists P, v, R.*2, cs.*2. split_and!; [done..|]. by left. }
  pose proof (addNodeTail_contract copy cs h w Hil ltac:(simpl in Hb; lia)) as Hadd.
  destruct (zmalloc (mem h)) as [c|] eqn:Hz.
  2: { right. rewrite Hadd. destruct (dup_no_node copy cs h0 h w Hil He) as (h' & -> & Hh & Hl). exists h', (w :: cs.*2). split_and!; [done..| |].
       - by rewrite Hl, Hlog, Hfree.
       - exists P, v, R.*2, cs.*2. split_and!; [done..|]. right. exists w, (mem h). split_and!; [done..| |done]. by eapply extends_sub. }
  destruct Hadd as (Hc & copy1 & h1 & -> & H1 & [H2l H2] & (H3a & H3b & H3c)).
  assert (c ∉ cs.*1) as Hcc by (eapply fresh_not_in; [apply Hil|done]).
  replace (P ++ v :: R.*2) with ((P ++ [v]) ++ R.*2) by (by rewrite <- app_assoc).
  apply (IH (Some a) fuel copy1 (cs ++ [(c, w)]) h1 (P ++ [v])); [done|simpl in Hf; lia|len|done|by destruct Hsm as (? & ? & ?); split_and!; congruence| |congruence|].
  - destruct He as [E1 E2]. split; intros b; rewrite fmap_fst_app.
    + intros [Hin|Hin%list_elem_of_singleton]%elem_of_app; [by apply E1|]. simpl in Hin. subst b. by rewrite <- E2.
    + intros Hin. rewrite H2 by set_solver. apply E2. set_solver.
  - rewrite fmap_app. apply mapM_Some. apply mapM_Some in HP. apply Forall2_app; [done|]. constructor; [done|constructor].
Qed.
End Alloc.
End Segments.

(** * Theorems *)

Section Claims.
Context {V : Type}.
Context (zmalloc : gmap Z (listNode V) -> option Z).
Implicit Types (h : heap V) (ns L R : list (Z * V)) (l : adlist V).

(** listAddNodeHead, listAddNodeTail and listInsertNode put a new node at the head,
    at the tail, before or after the given node; when zmalloc fails they return NULL.
    Only the new node and nodes of the list are written, and the list stays well
    formed: forward and backward links, ends and length agree. *)
Theorem listAdd_correct l L o w R h v :
  let ns := L ++ (o, w) :: R in
  (forall m a, zmalloc m = Some a -> m !! a = None) -> is_list l ns h -> zlength ns + 1 < 2 ^ 64 ->
  match zmalloc (mem h) with
  | None => listAddNodeHead zmalloc l h v = Ok None /\ listAddNodeTail zmalloc l h v = Ok None /\
      forall after, listInsertNode zmalloc l h (Some o) v after = Ok None
  | Some a => mem h !! a = None /\
      (exists l' h', listAddNodeHead zmalloc l h v = Ok (Some (l', h')) /\ list_upd l h (a :: ns.*1) ((a, v) :: ns) l' h') /\
      (exists l' h', listAddNodeTail zmalloc l h v = Ok (Some (l', h')) /\ list_upd l h (a :: ns.*1) (ns ++ [(a, v)]) l' h') /\
      (exists l' h', listInsertNode zmalloc l h (Some o) v true = Ok (Some (l', h')) /\
         list_upd l h (a :: ns.*1) (L ++ (o, w) :: (a, v) :: R) l' h') /\
      (exists l' h', listInsertNode zmalloc l h (Some o) v false = Ok (Some (l', h')) /\
         list_upd l h (a :: ns.*1) (L ++ (a, v) :: (o, w) :: R) l' h')
  end.
Proof.
  intros ns Hz Hil Hb. pose proof (addNodeHead_contract zmalloc Hz l ns h v Hil Hb) as H1.
  pose proof (addNodeTail_contract zmalloc Hz l ns h v Hil Hb) as H2.
  destruct (zmalloc (mem h)) as [a|] eqn:E.
  - destruct H1 as [Ha H1], H2 as [_ H2].
    assert (a ∉ ns.*1) by (eapply fresh_not_in; [apply Hil|done]).
    split_and!; [done..| |].
    + by apply (insertNode_contract zmalloc l L o w R h a v true).
    + by apply (insertNode_contract zmalloc l L o w R h a v false).
  - split_and!; [done..|]. intros after. unfold listInsertNode. by rewrite E.
Qed.

(** listUnlinkNode takes a node out of the list and leaves it in memory with NULL
    links; listDelNode also calls the free method on its value and frees it.  listEmpty
    frees exactly the nodes of the list, and calls the free method on every value in
    order. *)
Theorem listDel_correct l L a v R h :
  let ns := L ++ (a, v) :: R in
  is_list l ns h ->
  (exists l' h', listUnlinkNode l h (Some a) = Ok (l', h') /\ list_upd l h ns.*1 (L ++ R) l' h' /\
     mem h' !! a = Some (mk_node None None v)) /\
  (exists l' h', listDelNode l h (Some a) = Ok (l', h') /\ is_list l' (L ++ R) h' /\ same_methods l l' /\
     mem h' !! a = None /\ (forall b, b ∉ ns.*1 -> mem h' !! b = mem h !! b) /\
     log h' = if free l then log h ++ [v] else log h) /\
  (exists l' h', listEmpty l h = Ok (l', h') /\ is_list l' [] h' /\ same_methods l l' /\
     (forall b, mem h' !! b = if decide (b ∈ ns.*1) then None else mem h !! b) /\
     log h' = log h ++ if free l then ns.*2 else []).
Proof.
  intros ns Hil. split_and!; [by apply listUnlink_contract|by apply delNode_contract|by apply listEmpty_contract].
Qed.

(** an iteration from either end visits every node exactly once and in order, also
    when the loop body removes the node it was just given, as the documentation of
    listNext allows: no freed node is read, and what remains is the list of the nodes
    that were kept. *)
Theorem listNext_iteration_correct l ns h keep :
  is_list l ns h ->
  let fuel := S (length ns) in
  (exists l' h', sweep fuel keep l h (listRewind l) = Ok (ns.*2, l', h') /\ is_list l' (kept keep ns) h' /\ same_methods l l') /\
  (exists l' h', sweep fuel keep l h (listRewindTail l) = Ok (reverse ns.*2, l', h') /\ is_list l' (kept keep ns) h' /\ same_methods l l').
Proof.
  intros Hil fuel. pose proof Hil as [_ Hh Ht _ _ _]. unfold listRewind, listRewindTail. rewrite Hh, Ht. split.
  - destruct (sweep_fwd keep ns fuel l [] h) as (l' & h' & H1 & H2 & H3 & _); [done|unfold fuel; lia|]. by exists l', h'.
  - destruct (sweep_bwd keep ns fuel l [] h) as (l' & h' & H1 & H2 & H3 & _); [by rewrite app_nil_r|unfold fuel; lia|].
    rewrite app_nil_r in H2. by exists l', h'.
Qed.

(** listIndex returns the node at a zero-based index, negative ones counting from
    the tail, and NULL out of range; listSearchKey returns the first node that the
    match method (or equality) accepts, NULL if there is none. *)
Theorem listLookup_correct `{EqDecision V} l ns h key index :
  is_list l ns h ->
  listIndex l h index = Ok (fst <$> (if index <? 0 then reverse ns !! Z.to_nat (- index - 1) else ns !! Z.to_nat index)) /\
  listSearchKey l h key = Ok (fst <$> List.find (node_matches l key) ns).
Proof.
  intros [_ Hh Ht Hl _ Hs]. unfold listIndex, listSearchKey, listRewind. rewrite Hl, Hh, Ht, Nat2Z.id. split.
  - destruct (Z.ltb_spec index 0); [by apply (index_bwd h ns None); [|lia|lia]|by apply (index_fwd h ns None); [|lia|lia]].
  - apply (search_loop l key h ns None); [done|lia].
Qed.

(** listRotateTailToHead moves the last node to the front, listRotateHeadToTail the
    first to the end, and listJoin appends the nodes of the second list to the first,
    leaving the second empty; no node is allocated or freed. *)
Theorem listMove_correct l L a v o O h :
  (is_list l (L ++ [(a, v)]) h -> exists l' h', listRotateTailToHead l h = Ok (l', h') /\
     list_upd l h (L ++ [(a, v)]).*1 ((a, v) :: L) l' h') /\
  (is_list l ((a, v) :: L) h -> exists l' h', listRotateHeadToTail l h = Ok (l', h') /\
     list_upd l h ((a, v) :: L).*1 (L ++ [(a, v)]) l' h') /\
  (is_list l L h -> is_list o O h -> L.*1 ## O.*1 -> zlength L + zlength O < 2 ^ 64 ->
     exists l' o' h', listJoin l o h = Ok (l', o', h') /\ list_upd l h (L.*1 ++ O.*1) (L ++ O) l' h' /\
       is_list o' [] h' /\ same_methods o o').
Proof. split_and!; [apply rotateTail_contract|apply rotateHead_contract|apply join_contract]. Qed.

(** C39: listDup returns a list of fresh nodes that hold the values of the dup method, or the
    same values without one, frees nothing and leaves the original as it was.  It returns NULL
    only if the header, a node or a value cannot be allocated; then the heap of nodes is as before,
    and with a free method exactly these values have been freed: the one that got no node, if
    there is one, and those of the partial copy, so that with a dup method no duplicate is left
    over and none is freed twice.  Without a dup method the copy shares its values with the
    original, and those are the ones that are freed, although the comment in adlist.c says that
    the original is never modified. *)
Theorem listDup_correct orig ns h :
  (forall m a, zmalloc m = Some a -> m !! a = None) -> is_list orig ns h ->
  listDup zmalloc false orig h = Ok (None, h) /\
  ((exists copy cs h', listDup zmalloc true orig h = Ok (Some copy, h') /\ is_list copy cs h' /\ is_list orig ns h' /\
     same_methods orig copy /\ extends cs h h' /\ log h' = log h /\ mapM (dup_value orig) ns.*2 = Some cs.*2) \/
   (exists h' freed, listDup zmalloc true orig h = Ok (None, h') /\ mem h' = mem h /\
     log h' = log h ++ (if free orig then freed else []) /\ dup_stops zmalloc orig h ns.*2 freed)).
Proof.
  intros Hz Hil. split; [done|]. pose proof Hil as [Hn Hh Ht Hl Hb Hs].
  unfold listDup, listCreate, listRewind. cbn [l_head l_tail l_len]. rewrite Hl, Hh, Nat2Z.id.
  destruct (dup_loop_contract zmalloc Hz orig h ns None (S (length ns)) (mk_adlist None None (dup orig) (free orig) (match_ orig) 0) [] h [])
    as [(copy & cs & h' & H1 & H2 & H3 & H4 & H5 & H6)|(h' & freed & H1 & H2 & H3 & H4)]; [done|lia|simpl; lia| |done|split; [set_solver|done]|done|done| |].
  - split; try done. apply list.NoDup_nil. done.
  - left. exists copy, cs, h'. split_and!; [done..| |done|done|done|done]. split; try done. by eapply extends_seg.
  - right. by exists h', freed.
Qed.
End Claims.

(** * Witnesses *)

Section Demo.
(** An allocator: the smallest address above those in use, never NULL. *)
Definition bump (m : gmap Z (listNode Z)) : option Z := Some (1 + foldr Z.max 0 (elements (dom m))).

Lemma bump_fresh m a : bump m = Some a -> m !! a = None.
Proof.
  intros [= <-]. apply not_elem_of_dom. rewrite <- elem_of_elements. intros Hin.
  assert (forall xs x, x ∈ xs -> x <= foldr Z.max 0 xs) as Hmax.
  { induction xs as [|y xs IH]; intros x Hx; [by apply not_elem_of_nil in Hx|]. simpl.
    apply elem_of_cons in Hx as [->|Hx]; [lia|]. pose proof (IH x Hx). lia. }
  apply Hmax in Hin. lia.
Qed.

(** The list 10, 20, 30, with a free and a dup method. *)
Definition demo_nodes : list (Z * Z) := [(1, 10); (2, 20); (3, 30)].
Definition demo_heap : heap Z :=
  mk_heap {[1 := mk_node None (Some 2) 10; 2 := mk_node (Some 1) (Some 3) 20; 3 := mk_node (Some 2) None 30]} [].
Definition demo_list : adlist Z := mk_adlist (Some 1) (Some 3) (Some (fun x => Some (x + 1))) true None 3.
Lemma demo_is_list : is_list demo_list demo_nodes demo_heap.
Proof. split; try done. simpl. repeat (constructor; [set_solver|]). constructor. Qed.
End Demo.

Lemma listAdd_correct_witness :
  exists l' h', listAddNodeTail bump demo_list demo_heap 40 = Ok (Some (l', h')) /\
    is_list l' (demo_nodes ++ [(4, 40)]) h'.
Proof.
  destruct (listAdd_correct bump demo_list [(1, 10)] 2 20 [(3, 30)] demo_heap 40 bump_fresh demo_is_list eq_refl)
    as (_ & _ & (l' & h' & H1 & H2 & _) & _). by exists l', h'.
Defined.

Lemma listDel_correct_witness :
  exists l' h', listDelNode demo_list demo_heap (Some 2) = Ok (l', h') /\ is_list l' [(1, 10); (3, 30)] h' /\ log h' = [20].
Proof.
  destruct (listDel_correct demo_list [(1, 10)] 2 20 [(3, 30)] demo_heap demo_is_list)
    as (_ & (l' & h' & H1 & H2 & _ & _ & _ & H3) & _). by exists l', h'.
Defined.

Lemma listNext_iteration_correct_witness :
  exists l' h', sweep 4 (fun v => negb (v =? 20)) demo_list demo_heap (listRewindTail demo_list) = Ok ([30; 20; 10], l', h') /\
    is_list l' [(1, 10); (3, 30)] h'.
Proof.
  destruct (listNext_iteration_correct demo_list demo_nodes demo_heap (fun v => negb (v =? 20)) demo_is_list)
    as (_ & l' & h' & H1 & H2 & _). by exists l', h'.
Defined.

Lemma listLookup_correct_witness :
  listIndex demo_list demo_heap (-1) = Ok (Some 3) /\ listSearchKey demo_list demo_heap 20 = Ok (Some 2).
Proof. destruct (listLookup_correct demo_list demo_nodes demo_heap 20 (-1) demo_is_list) as [-> ->]. split; vm_compute; reflexivity. Defined.

Lemma listMove_correct_witness :
  exists l' h', listRotateTailToHead demo_list demo_heap = Ok (l', h') /\ is_list l' [(3, 30); (1, 10); (2, 20)] h'.
Proof.
  destruct (listMove_correct demo_list [(1, 10); (2, 20)] 3 30 demo_list [] demo_heap) as (H & _).
  destruct (H demo_is_list) as (l' & h' & H1 & H2 & _). by exists l', h'.
Defined.

(** An allocator without room for a sixth node, and the list without its dup method. *)
Definition bump5 (m : gmap Z (listNode Z)) : option Z := if decide (size m < 5)%nat then bump m else None.
Lemma bump5_fresh m a : bump5 m = Some a -> m !! a = None.
Proof. unfold bump5. case_decide; [apply bump_fresh|done]. Qed.
Definition demo_shared : adlist Z := mk_adlist (Some 1) (Some 3) None true None 3.
Lemma demo_shared_is_list : is_list demo_shared demo_nodes demo_heap.
Proof. split; try done. simpl. repeat (constructor; [set_solver|]). constructor. Qed.

(** The copy succeeds; it fails at the third node and frees the three duplicates; without a dup method
    it frees the three values of the original. *)
Lemma listDup_correct_witness :
  (exists copy cs h', listDup bump true demo_list demo_heap = Ok (Some copy, h') /\ is_list copy cs h' /\ cs.*2 = [11; 21; 31] /\ log h' = []) /\
  (exists h', listDup bump5 true demo_list demo_heap = Ok (None, h') /\ mem h' = mem demo_heap /\ log h' = [31; 11; 21]) /\
  (exists h', listDup bump5 true demo_shared demo_heap = Ok (None, h') /\ mem h' = mem demo_heap /\ log h' = [30; 10; 20]).
Proof.
  split; [|split].
  - destruct (listDup_correct bump demo_list demo_nodes demo_heap bump_fresh demo_is_list)
      as [_ [(copy & cs & h' & H1 & H2 & _ & _ & _ & H4 & H3)|(h' & freed & H1 & _)]]; [|vm_compute in H1; discriminate H1].
    exists copy, cs, h'. split; [exact H1|]. split; [exact H2|]. split; [by injection H3|exact H4].
  - destruct (listDup_correct bump5 demo_list demo_nodes demo_heap bump5_fresh demo_is_list)
      as [_ [(copy & cs & h' & H1 & _)|(h' & freed & H1 & H2 & _)]]; [vm_compute in H1; discriminate H1|].
    exists h'. split; [exact H1|]. split; [exact H2|]. vm_compute in H1. injection H1 as <-. reflexivity.
  - destruct (listDup_correct bump5 demo_shared demo_nodes demo_heap bump5_fresh demo_shared_is_list)
      as [_ [(copy & cs & h' & H1 & _)|(h' & freed & H1 & H2 & _)]]; [vm_compute in H1; discriminate H1|].
    exists h'. split; [exact H1|]. split; [exact H2|]. vm_compute in H1. injection H1 as <-. reflexivity.
Defined.
