(* ===== verification/Fwtree.v ===== *)
(** Fenwick trees: src/redis-stable/src/fwtree.c.

    The tree keeps the cumulative key counts of the dicts of a kvstore: a prefix sum,
    an update and the search for the dict that holds the n-th key take a number of steps
    logarithmic in the number of dicts.  The array is 1-based; node [i] holds the sum of
    the [i & -i] values that end at [i]. *)

From S2P Require Import Prelude Machine.

(** * Model *)

Record fenwickTree := mk_fwtree {
  tree : list Z;     (* unsigned long long[size + 1] *)
  size_bits : Z;     (* int *)
  size : Z;          (* int *)
  total : Z          (* uint64_t *)
}.

Definition fwTreeCreate (sizeBits : Z) : fenwickTree :=
  let size := s32 (Z.shiftl 1 sizeBits) in
  mk_fwtree (replicate (Z.to_nat (size + 1)) 0) sizeBits size 0.

(** idx & -idx *)
Definition lowbit (idx : Z) : Z := Z.land idx (- idx).

(** One bit of the index is cleared in each round: 32 rounds are enough for an int. *)
Fixpoint prefix_loop (fuel : nat) (t : list Z) (idx sum : Z) : res Z :=
  match fuel with
  | O => Fault OutOfFuel
  | S fuel =>
      if idx >? 0 then
        let! v := get1 idx t in
        prefix_loop fuel t (s32 (idx - lowbit idx)) (u64 (sum + v))
      else Ok sum
  end.

Definition fwTreePrefixSum (ft : option fenwickTree) (idx : Z) : res Z :=
  match ft with
  | None => Ok 0
  | Some ft =>
      if idx <? 0 then Ok 0
      else
        let idx := if idx >=? size ft then size ft - 1 else idx in
        prefix_loop 33 (tree ft) (idx + 1) 0
  end.

(** The lowest set bit of the index grows in each round. *)
Fixpoint update_loop (fuel : nat) (t : list Z) (sz idx delta : Z) : res (list Z) :=
  match fuel with
  | O => Fault OutOfFuel
  | S fuel =>
      if idx <=? sz then
        let! v := get1 idx t in
        assert! (if delta <? 0 then v >=? u64 (- delta) else true) in
        let! t := set1 idx (u64 (v + delta)) t in
        update_loop fuel t sz (s32 (idx + lowbit idx)) delta
      else Ok t
  end.

Definition fwTreeUpdate (ft : option fenwickTree) (idx delta : Z) : res (option fenwickTree) :=
  match ft with
  | None => Ok None
  | Some t =>
      if (idx <? 0) || (idx >=? size t) then Ok ft
      else
        let! tr := update_loop 33 (tree t) (size t) (idx + 1) delta in
        Ok (Some (mk_fwtree tr (size_bits t) (size t) (u64 (total t + delta))))
  end.

Fixpoint find_loop (fuel : nat) (t : list Z) (i result target : Z) : res Z :=
  match fuel with
  | O => Fault OutOfFuel
  | S fuel =>
      if i =? 0 then Ok result
      else
        let current := result + i in
        let! v := get1 current t in
        if target >? v then find_loop fuel t (Z.shiftr i 1) current (u64 (target - v))
        else find_loop fuel t (Z.shiftr i 1) result target
  end.

Definition fwTreeFindIndex (ft : fenwickTree) (target : Z) : res Z :=
  if target <=? 0 then Ok 0
  else find_loop 33 (tree ft) (s32 (Z.shiftl 1 (size_bits ft))) 0 target.

Definition fwTreeFindFirstNonEmpty (ft : fenwickTree) : res Z := fwTreeFindIndex ft 1.

Definition fwTreeFindNextNonEmpty (ft : option fenwickTree) (idx : Z) : res Z :=
  match ft with
  | None => Ok (-1)
  | Some t =>
      if (idx <? 0) || (idx >=? size t) then Ok (-1)
      else
        let! p := fwTreePrefixSum ft idx in
        let next_sum := u64 (p + 1) in
        if next_sum <=? total t then fwTreeFindIndex t next_sum else Ok (-1)
  end.

Definition fwTreeClear (ft : fenwickTree) : fenwickTree :=
  mk_fwtree (replicate (Z.to_nat (size ft + 1)) 0) (size_bits ft) (size ft) 0.

(** * The lowest set bit *)

(** [i] is an odd multiple of [2 ^ k]. *)
Definition low (i k a : Z) : Prop := 0 <= k /\ 0 <= a /\ i = 2 ^ k * (2 * a + 1).

Lemma lowbit_even i : lowbit (2 * i) = 2 * lowbit i.
Proof.
  unfold lowbit. apply Z.bits_inj'. intros n Hn. rewrite Z.land_spec.
  replace (- (2 * i)) with (2 * - i) by lia. destruct (Z.eq_dec n 0) as [->|Hne].
  - by rewrite !Z.testbit_even_0.
  - replace n with (Z.succ (n - 1)) by lia. rewrite !Z.testbit_even_succ by lia. by rewrite Z.land_spec.
Qed.

Lemma lowbit_odd a : lowbit (2 * a + 1) = 1.
Proof.
  unfold lowbit. apply Z.bits_inj'. intros n Hn. rewrite Z.land_spec.
  replace (- (2 * a + 1)) with (2 * Z.lnot a + 1) by (unfold Z.lnot; lia). destruct (Z.eq_dec n 0) as [->|Hne].
  - by rewrite !Z.testbit_odd_0.
  - replace n with (Z.succ (n - 1)) by lia. rewrite !Z.testbit_odd_succ by lia.
    assert (Z.testbit 1 (Z.succ (n - 1)) = false) as -> by (rewrite (Z.testbit_odd_succ 0) by lia; apply Z.bits_0).
    rewrite Z.lnot_spec by lia. apply andb_negb_r.
Qed.

Lemma low_lowbit i k a : low i k a -> lowbit i = 2 ^ k.
Proof.
  intros (Hk & Ha & ->). revert k Hk. apply natlike_ind.
  - change (2 ^ 0) with 1. rewrite Z.mul_1_l. apply lowbit_odd.
  - intros k Hk IH. rewrite Z.pow_succ_r by done. rewrite <- Z.mul_assoc, lowbit_even, IH. done.
Qed.

Lemma low_exists i : 0 < i -> exists k a, low i k a.
Proof.
  intros Hi. destruct i as [|p|p]; try lia. clear Hi. induction p as [p IH|p IH|].
  - exists 0, (Zpos p). split_and!; lia.
  - destruct IH as (k & a & Hk & Ha & E). exists (k + 1), a. split_and!; [lia..|].
    rewrite Z.pow_add_r by lia. lia.
  - exists 0, 0. split_and!; lia.
Qed.

(** Node [j] covers value [i] (both 1-based). *)
Definition covers (j i : Z) : Prop := j - lowbit j < i <= j.
#[global] Instance covers_dec j i : Decision (covers j i) := _.

(** A multiple of [d] in the half-open interval (m, m + d] of length [d] is its end. *)
Lemma mult_in_interval d x m : 0 < d -> m * d < x * d <= (m + 1) * d -> x = m + 1.
Proof. nia. Qed.

(** The nodes above [i] that cover it are those that cover [i + lowbit i]. *)
Lemma covers_next i j : 0 < i -> 0 < j -> j <> i -> covers j i <-> covers j (i + lowbit i).
Proof.
  intros Hi Hj Hne. destruct (low_exists i Hi) as (k & a & Hl), (low_exists j Hj) as (m & b & Hm).
  unfold covers. rewrite (low_lowbit _ _ _ Hl), (low_lowbit _ _ _ Hm).
  destruct Hl as (Hk & Ha & ->), Hm as (Hm & Hb & ->).
  destruct (Z.lt_ge_cases k m) as [Hkm|Hkm].
  - replace m with (k + 1 + (m - k - 1)) in * by lia. rewrite !Z.pow_add_r in * by lia.
    assert (0 < 2 ^ k) by (apply Z.pow_pos_nonneg; lia). assert (0 < 2 ^ (m - k - 1)) by (apply Z.pow_pos_nonneg; lia).
    set (P := 2 ^ k) in *. set (Q := 2 ^ (m - k - 1)) in *. change (2 ^ 1) with 2 in *.
    assert (forall x y, P * x < P * y <-> x < y) as Hlt by (intros; nia).
    assert (forall x y, P * x <= P * y <-> x <= y) as Hle by (intros; nia).
    replace (P * 2 * Q * (2 * b + 1) - P * 2 * Q) with (P * (4 * Q * b)) by lia.
    replace (P * 2 * Q * (2 * b + 1)) with (P * (2 * Q * (2 * b + 1))) by lia.
    replace (P * (2 * a + 1) + P) with (P * (2 * a + 2)) by lia. rewrite !Hlt, !Hle. clear Hlt Hle.
    assert (exists x, 4 * Q * b = 2 * x) as [x Hx] by (exists (2 * Q * b); lia).
    assert (exists y, 2 * Q * (2 * b + 1) = 2 * y) as [y Hy] by (exists (Q * (2 * b + 1)); lia). lia.
  - replace k with (m + (k - m)) in * by lia. rewrite !Z.pow_add_r in * by lia.
    assert (0 < 2 ^ m) by (apply Z.pow_pos_nonneg; lia). assert (0 < 2 ^ (k - m)) by (apply Z.pow_pos_nonneg; lia).
    set (P := 2 ^ m) in *. set (Q := 2 ^ (k - m)) in *.
    replace (P * (2 * b + 1) - P) with ((2 * b) * P) by lia. replace (P * (2 * b + 1)) with ((2 * b + 1) * P) in * by lia.
    replace (P * Q * (2 * a + 1)) with ((Q * (2 * a + 1)) * P) in * by lia.
    replace (Q * (2 * a + 1) * P + P * Q) with ((2 * (Q * (a + 1))) * P) by lia.
    split; intros Hc; apply (mult_in_interval P _ (2 * b)) in Hc; [|done|lia|done].
    + exfalso. apply Hne. by rewrite Hc.
Qed.

Lemma lowbit_range i : 0 < i -> 0 < lowbit i <= i.
Proof.
  intros Hi. destruct (low_exists i Hi) as (k & a & Hl). rewrite (low_lowbit _ _ _ Hl). destruct Hl as (Hk & Ha & ->).
  assert (0 < 2 ^ k) by (apply Z.pow_pos_nonneg; lia). nia.
Qed.

(** Both loops at least double the lowest set bit of the index. *)
Lemma lowbit_up i : 0 < i -> 2 * lowbit i <= lowbit (i + lowbit i).
Proof.
  intros Hi. destruct (low_exists i Hi) as (k & a & Hl). rewrite (low_lowbit _ _ _ Hl). destruct Hl as (Hk & Ha & ->).
  replace (2 ^ k * (2 * a + 1) + 2 ^ k) with (2 ^ (k + 1) * (a + 1)) by (rewrite Z.pow_add_r by lia; lia).
  destruct (low_exists (a + 1)) as (m & b & Hm & Hb & ->); [lia|].
  rewrite (low_lowbit _ (k + 1 + m) b) by (split_and!; [lia..|rewrite (Z.pow_add_r 2 (k + 1)) by lia; lia]).
  rewrite (Z.pow_add_r 2 (k + 1)), (Z.pow_add_r 2 k) by lia. assert (0 < 2 ^ k) by (apply Z.pow_pos_nonneg; lia).
  assert (0 < 2 ^ m) by (apply Z.pow_pos_nonneg; lia). nia.
Qed.
Lemma lowbit_down i : 0 < i -> i - lowbit i = 0 \/ 2 * lowbit i <= lowbit (i - lowbit i).
Proof.
  intros Hi. destruct (low_exists i Hi) as (k & a & Hl). rewrite (low_lowbit _ _ _ Hl). destruct Hl as (Hk & Ha & ->).
  replace (2 ^ k * (2 * a + 1) - 2 ^ k) with (2 ^ (k + 1) * a) by (rewrite Z.pow_add_r by lia; lia).
  destruct (Z.eq_dec a 0) as [->|Hne]; [left; lia|right].
  destruct (low_exists a) as (m & b & Hm & Hb & ->); [lia|].
  rewrite (low_lowbit _ (k + 1 + m) b) by (split_and!; [lia..|rewrite (Z.pow_add_r 2 (k + 1)) by lia; lia]).
  rewrite (Z.pow_add_r 2 (k + 1)), (Z.pow_add_r 2 k) by lia. assert (0 < 2 ^ k) by (apply Z.pow_pos_nonneg; lia).
  assert (0 < 2 ^ m) by (apply Z.pow_pos_nonneg; lia). nia.
Qed.

(** * Representation *)

(** The sum of the first [n] values. *)
Definition psum (xs : list Z) (n : Z) : Z := foldr Z.add 0 (take (Z.to_nat n) xs).

Record fw_repr (ft : fenwickTree) (xs : list Z) : Prop := {
  fr_bits : 0 <= size_bits ft <= 29;
  fr_size : size ft = 2 ^ size_bits ft;
  fr_len : zlength xs = size ft;
  fr_tlen : zlength (tree ft) = size ft + 1;
  fr_pos : Forall (fun x => 0 <= x) xs;
  fr_total : total ft = psum xs (size ft);
  fr_bound : psum xs (size ft) < 2 ^ 64;
  fr_node : forall i, 1 <= i <= size ft -> tree ft !! Z.to_nat i = Some (psum xs i - psum xs (i - lowbit i))
}.

Lemma foldr_add_app (a b : list Z) : foldr Z.add 0 (a ++ b) = foldr Z.add 0 a + foldr Z.add 0 b.
Proof. induction a as [|x a IH]; simpl; lia. Qed.
Lemma foldr_add_nonneg (a : list Z) : Forall (fun x => 0 <= x) a -> 0 <= foldr Z.add 0 a.
Proof. induction 1; simpl; lia. Qed.

Lemma psum_split xs i j : 0 <= i <= j -> psum xs j = psum xs i + foldr Z.add 0 (take (Z.to_nat (j - i)) (drop (Z.to_nat i) xs)).
Proof.
  intros H. unfold psum. rewrite <- foldr_add_app. f_equal.
  replace (Z.to_nat j) with (Z.to_nat i + Z.to_nat (j - i))%nat by lia. by rewrite take_take_drop.
Qed.
Lemma psum_mono xs i j : Forall (fun x => 0 <= x) xs -> 0 <= i <= j -> psum xs i <= psum xs j.
Proof.
  intros Hp H. rewrite (psum_split xs i j H). pose proof (foldr_add_nonneg (take (Z.to_nat (j - i)) (drop (Z.to_nat i) xs))) as Hn.
  specialize (Hn ltac:(by apply Forall_take, Forall_drop)). lia.
Qed.
Lemma psum_0 xs : psum xs 0 = 0.
Proof. done. Qed.
Lemma psum_succ xs i x : 0 <= i -> xs !! Z.to_nat i = Some x -> psum xs (i + 1) = psum xs i + x.
Proof.
  intros Hi Hx. unfold psum. replace (Z.to_nat (i + 1)) with (S (Z.to_nat i)) by lia.
  rewrite (take_S_r _ _ _ Hx), foldr_add_app. simpl. lia.
Qed.
Lemma psum_insert xs i x d j : 0 <= i -> xs !! Z.to_nat i = Some x -> 0 <= j ->
  psum (<[Z.to_nat i := x + d]> xs) j = psum xs j + (if decide (i < j) then d else 0).
Proof.
  intros Hi Hx Hj. pose proof (lookup_lt_Some _ _ _ Hx) as Hlt. case_decide as Hd.
  - rewrite (psum_split _ (i + 1) j), (psum_split xs (i + 1) j) by lia.
    rewrite (psum_succ _ i (x + d)), (psum_succ xs i x) by (done || by rewrite list_lookup_insert_eq).
    rewrite drop_insert_lt by lia. unfold psum. rewrite take_insert_ge by lia. lia.
  - unfold psum. rewrite take_insert_ge by lia. lia.
Qed.

Lemma s32_id z : - 2 ^ 31 <= z < 2 ^ 31 -> s32 z = z.
Proof. intros H. apply s_id; [lia|exact H]. Qed.

(** * Prefix sums *)

Lemma prefix_loop_correct ft xs : fw_repr ft xs -> forall fuel idx sum,
  0 <= idx <= size ft -> (idx = 0 /\ (0 < fuel)%nat \/ 2 ^ (33 - Z.of_nat fuel) <= lowbit idx /\ (fuel <= 33)%nat) -> 0 <= sum ->
  sum + psum xs idx < 2 ^ 64 -> prefix_loop fuel (tree ft) idx sum = Ok (sum + psum xs idx).
Proof.
  intros Hr. pose proof Hr as [Hb Hsz Hl Htl Hp _ _ Hn].
  assert (size ft <= 2 ^ 29) as Hs29 by (rewrite Hsz; apply Z.pow_le_mono_r; lia).
  induction fuel as [|fuel IH]; intros idx sum Hi Hf Hs0 Hs.
  { exfalso. destruct Hf as [[_ ?]|[Hf _]]; [lia|]. destruct (Z.eq_dec idx 0) as [->|]; [done|].
    pose proof (lowbit_range idx ltac:(lia)). simpl in Hf. lia. }
  cbn [prefix_loop]. destruct (Z.eq_dec idx 0) as [->|Hne]; [simpl; by rewrite psum_0, Z.add_0_r|].
  rewrite Z.gtb_ltb. zif. pose proof (lowbit_range idx ltac:(lia)) as Hlb.
  unfold get1. rewrite (proj2 (Z.ltb_ge _ _)) by lia. rewrite Hn by lia.
  pose proof (psum_mono xs (idx - lowbit idx) idx Hp ltac:(lia)). pose proof (psum_mono xs 0 (idx - lowbit idx) Hp ltac:(lia)).
  rewrite psum_0 in *. rewrite u_id by lia. rewrite s32_id by lia. rewrite IH; [f_equal; lia|lia| |lia|lia].
  destruct Hf as [[? _]|[Hf Hf33]]; [lia|]. destruct (lowbit_down idx ltac:(lia)) as [Hz|H2]; [left|right; split; [|lia]].
  - split; [done|]. destruct fuel; [|lia]. simpl in Hf. change (Z.pow_pos 2 32) with (2 ^ 32) in Hf. lia.
  - replace (33 - Z.of_nat fuel) with (1 + (33 - Z.of_nat (S fuel))) by lia. rewrite Z.pow_add_r by lia. lia.
Qed.

(** * Updates *)

Lemma update_loop_correct sz d : 0 < sz <= 2 ^ 29 -> forall fuel t cur,
  0 < cur <= 2 ^ 30 -> zlength t = sz + 1 -> 2 ^ (33 - Z.of_nat fuel) <= lowbit cur -> (fuel <= 33)%nat ->
  in_s 64 d -> LLONG_MIN < d ->
  (forall j v, 1 <= j <= sz -> covers j cur -> t !! Z.to_nat j = Some v -> 0 <= v < 2 ^ 64 /\ 0 <= v + d < 2 ^ 64) ->
  exists t', update_loop fuel t sz cur d = Ok t' /\ length t' = length t /\
    forall j, 1 <= j <= sz -> t' !! Z.to_nat j = (fun v => v + (if decide (covers j cur) then d else 0)) <$> t !! Z.to_nat j.
Proof.
  intros Hsz. induction fuel as [|fuel IH]; intros t cur Hc Hl Hf Hf33 Hd Hmin Hv.
  { exfalso. pose proof (lowbit_range cur ltac:(lia)). simpl in Hf. change (Z.pow_pos 2 33) with (2 ^ 33) in Hf. lia. }
  cbn [update_loop]. pose proof (lowbit_range cur ltac:(lia)) as Hlb.
  destruct (Z.leb_spec cur sz) as [Hle|Hgt].
  2: { exists t. split_and!; [done..|]. intros j Hj. rewrite decide_False by (unfold covers; lia).
       destruct (t !! Z.to_nat j); simpl; [f_equal; lia|done]. }
  destruct (get1_in t cur ltac:(lia)) as [v Hg]. rewrite Hg. apply get1_Ok in Hg as [_ Hg].
  destruct (Hv cur v ltac:(lia) ltac:(unfold covers; lia) Hg) as [Hv1 Hv2]. unfold in_s, LLONG_MIN in *.
  assert ((if d <? 0 then v >=? u64 (- d) else true) = true) as ->.
  { destruct (Z.ltb_spec d 0); [|done]. rewrite u_id by lia. rewrite Z.geb_leb. apply Z.leb_le. lia. }
  rewrite set1_insert by lia. rewrite u_id by lia. rewrite s32_id by lia.
  destruct (IH (<[Z.to_nat cur := v + d]> t) (cur + lowbit cur)) as (t' & -> & Hlen & Ht'); [lia|by rewrite length_insert| |lia|done|done| |].
  - pose proof (lowbit_up cur ltac:(lia)). replace (33 - Z.of_nat fuel) with (1 + (33 - Z.of_nat (S fuel))) by lia.
    rewrite Z.pow_add_r by lia. lia.
  - intros j w Hj Hcv Hw. assert (j <> cur) as Hne by (unfold covers in Hcv; lia).
    rewrite list_lookup_insert_ne in Hw by lia. apply (Hv j w); [done| |done]. by apply covers_next; [lia..|].
  - exists t'. split_and!; [done|by rewrite Hlen, length_insert|]. intros j Hj. rewrite Ht' by done.
    destruct (Z.eq_dec j cur) as [->|Hne].
    + rewrite list_lookup_insert_eq by lia. rewrite Hg. simpl. f_equal.
      rewrite decide_False by (unfold covers; lia). rewrite decide_True by (unfold covers; lia). lia.
    + rewrite list_lookup_insert_ne by lia. destruct (t !! Z.to_nat j) as [w|]; [|done]. simpl. do 2 f_equal.
      apply decide_ext. symmetry. apply covers_next; lia.
Qed.

(** * Search *)

(** [w] is the width of the interval still searched; the next step is half of it. *)
Lemma find_loop_correct ft xs T : fw_repr ft xs -> T < 2 ^ 64 -> forall (k : nat) fuel a,
  let w := 2 ^ Z.of_nat k in let result := w * a in
  (k < fuel)%nat -> 0 <= a -> result + w <= size ft -> psum xs result < T <= psum xs (result + w) ->
  exists r, find_loop fuel (tree ft) (Z.shiftr w 1) result (T - psum xs result) = Ok r /\
    0 <= r < size ft /\ psum xs r < T <= psum xs (r + 1).
Proof.
  intros Hr HT. pose proof Hr as [Hb Hsz Hl Htl Hp _ _ Hn].
  induction k as [|k IH]; intros fuel a w result Hf Ha Hle HTr; (destruct fuel as [|fuel]; [lia|]); cbn [find_loop].
  { exists result. unfold w, result in *. change (2 ^ Z.of_nat 0) with 1 in *. split_and!; [done|lia..]. }
  assert (w = 2 * 2 ^ Z.of_nat k) as Hw by (unfold w; rewrite Nat2Z.inj_succ, Z.pow_succ_r by lia; done).
  set (hw := 2 ^ Z.of_nat k) in *. assert (0 < hw) as Hhw by (apply Z.pow_pos_nonneg; lia).
  assert (Z.shiftr w 1 = hw) as -> by (rewrite Z.shiftr_div_pow2 by lia; rewrite Hw, Z.mul_comm; by apply Z.div_mul).
  rewrite (proj2 (Z.eqb_neq hw 0)) by lia. unfold result in *. rewrite Hw in *.
  assert (lowbit (2 * hw * a + hw) = hw) as Hlow.
  { unfold hw. apply (low_lowbit _ _ a). split_and!; [lia..|]. lia. }
  unfold get1. rewrite (proj2 (Z.ltb_ge _ _)) by lia. rewrite Hn by lia. rewrite Hlow, Z.add_simpl_r.
  pose proof (psum_mono xs 0 (2 * hw * a) Hp ltac:(lia)) as H1. rewrite psum_0 in H1.
  pose proof (psum_mono xs (2 * hw * a) (2 * hw * a + hw) Hp ltac:(lia)) as H2.
  rewrite Z.gtb_ltb. destruct (Z.ltb_spec (psum xs (2 * hw * a + hw) - psum xs (2 * hw * a)) (T - psum xs (2 * hw * a))) as [Hlt|Hge].
  - rewrite u_id by lia. destruct (IH fuel (2 * a + 1)) as (r & Hfl & Hrr); [lia..| |].
    { replace (hw * (2 * a + 1)) with (2 * hw * a + hw) by lia. replace (2 * hw * a + hw + hw) with (2 * hw * a + 2 * hw) by lia. lia. }
    exists r. rewrite <- Hfl. split; [|done]. replace (hw * (2 * a + 1)) with (2 * hw * a + hw) by lia. f_equal. lia.
  - destruct (IH fuel (2 * a)) as (r & Hfl & Hrr); [lia..| |].
    { replace (hw * (2 * a)) with (2 * hw * a) by lia. lia. }
    exists r. rewrite <- Hfl. split; [|done]. by replace (hw * (2 * a)) with (2 * hw * a) by lia.
Qed.

Lemma find_loop_S fuel t i result target :
  find_loop (S fuel) t i result target =
  if i =? 0 then Ok result
  else let! v := get1 (result + i) t in
       if target >? v then find_loop fuel t (Z.shiftr i 1) (result + i) (u64 (target - v))
       else find_loop fuel t (Z.shiftr i 1) result target.
Proof. done. Qed.

Lemma findIndex_contract ft xs T : fw_repr ft xs -> 1 <= T <= total ft ->
  exists r, fwTreeFindIndex ft T = Ok r /\ 0 <= r < size ft /\ psum xs r < T <= psum xs (r + 1).
Proof.
  intros Hr HT. pose proof Hr as [Hb Hsz Hl Htl Hp Htot Hbd Hn].
  assert (1 <= size ft <= 2 ^ 29) as Hs29 by (rewrite Hsz; split; [apply (Z.pow_le_mono_r 2 0); lia|apply Z.pow_le_mono_r; lia]).
  unfold fwTreeFindIndex. zif. rewrite Z.shiftl_1_l, <- Hsz, s32_id by lia.
  rewrite (find_loop_S 32), (proj2 (Z.eqb_neq _ _)), Z.add_0_l by lia. unfold get1. rewrite (proj2 (Z.ltb_ge _ _)) by lia. rewrite Hn by lia.
  assert (lowbit (size ft) = size ft) as ->.
  { rewrite Hsz at 1. rewrite (low_lowbit _ (size_bits ft) 0); [done|]. split_and!; lia. }
  rewrite Z.sub_diag, psum_0, Z.sub_0_r, Z.gtb_ltb, (proj2 (Z.ltb_ge _ _)) by lia.
  destruct (find_loop_correct ft xs T Hr ltac:(lia) (Z.to_nat (size_bits ft)) 32 0) as (r & Hfl & H);
    rewrite ?Z2Nat.id, <- ?Hsz, ?Z.mul_0_r, ?Z.add_0_l, ?psum_0 in * by lia; try lia.
  exists r. rewrite Z.sub_0_r in Hfl. done.
Qed.

Lemma prefixSum_contract ft xs idx : fw_repr ft xs ->
  fwTreePrefixSum (Some ft) idx = Ok (psum xs (Z.max 0 (Z.min (idx + 1) (size ft)))).
Proof.
  intros Hr. pose proof Hr as [Hb Hsz Hl Htl Hp Htot Hbd Hn].
  assert (1 <= size ft) as Hs1 by (rewrite Hsz; apply (Z.pow_le_mono_r 2 0); lia).
  unfold fwTreePrefixSum. destruct (Z.ltb_spec idx 0); [by replace (Z.max _ _) with 0 by lia|].
  rewrite Z.geb_leb. set (i := if size ft <=? idx then size ft - 1 else idx).
  assert (Z.max 0 (Z.min (idx + 1) (size ft)) = i + 1 /\ 0 <= i < size ft) as [-> Hi] by (unfold i; zbool; lia).
  pose proof (psum_mono xs (i + 1) (size ft) Hp ltac:(lia)). rewrite (prefix_loop_correct ft xs Hr); [done|lia| |lia|lia].
  right. split; [|lia]. pose proof (lowbit_range (i + 1) ltac:(lia)). change (2 ^ (33 - Z.of_nat 33)) with 1. lia.
Qed.

Lemma update_contract ft xs idx delta x :
  fw_repr ft xs -> 0 <= idx -> xs !! Z.to_nat idx = Some x -> LLONG_MIN < delta <= LLONG_MAX ->
  0 <= x + delta -> psum xs (size ft) + delta < 2 ^ 64 ->
  exists ft', fwTreeUpdate (Some ft) idx delta = Ok (Some ft') /\ size ft' = size ft /\
    fw_repr ft' (<[Z.to_nat idx := x + delta]> xs).
Proof.
  intros Hr Hidx Hx Hd Hxd Hub.
  pose proof Hr as [Hb Hsz Hl Htl Hp Htot Hbd Hn]. pose proof (lookup_lt_Some _ _ _ Hx) as Hlt.
  assert (1 <= size ft <= 2 ^ 29) as Hs29 by (rewrite Hsz; split; [apply (Z.pow_le_mono_r 2 0); lia|apply Z.pow_le_mono_r; lia]).
  assert (Forall (fun x => 0 <= x) (<[Z.to_nat idx:=x + delta]> xs)) as Hp' by by apply Forall_insert.
  assert (forall j, 1 <= j <= size ft -> psum (<[Z.to_nat idx:=x + delta]> xs) j - psum (<[Z.to_nat idx:=x + delta]> xs) (j - lowbit j) =
    psum xs j - psum xs (j - lowbit j) + (if decide (covers j (idx + 1)) then delta else 0)) as Hnode.
  { intros j Hj. pose proof (lowbit_range j ltac:(lia)). rewrite !psum_insert by (done || lia).
    unfold covers. repeat case_decide; lia. }
  unfold fwTreeUpdate. rewrite Z.geb_leb, (proj2 (Z.ltb_ge _ _)), (proj2 (Z.leb_gt _ _)) by lia. cbn [orb].
  unfold LLONG_MIN, LLONG_MAX in Hd.
  destruct (update_loop_correct (size ft) delta ltac:(lia) 33 (tree ft) (idx + 1)) as (t' & -> & Hlen & Ht').
  - lia.
  - done.
  - pose proof (lowbit_range (idx + 1) ltac:(lia)). change (2 ^ (33 - Z.of_nat 33)) with 1. lia.
  - lia.
  - unfold in_s. lia.
  - unfold LLONG_MIN; lia.
  - intros j v Hj Hc Hv. rewrite Hn in Hv by done. injection Hv as <-. pose proof (lowbit_range j ltac:(lia)).
    pose proof (psum_mono xs (j - lowbit j) j Hp ltac:(lia)). pose proof (psum_mono xs 0 (j - lowbit j) Hp ltac:(lia)).
    pose proof (psum_mono xs j (size ft) Hp ltac:(lia)). rewrite psum_0 in *.
    pose proof (Hnode j Hj) as Hj'. rewrite decide_True in Hj' by done.
    pose proof (psum_mono _ (j - lowbit j) j Hp' ltac:(lia)). lia.
  - eexists. split; [done|]. split; [done|]. assert (0 <= psum xs (size ft) + delta) as Hge.
    { pose proof (psum_mono _ 0 (size ft) Hp' ltac:(lia)) as H0. rewrite psum_0, psum_insert, decide_True in H0 by (done || lia). lia. }
    split; cbn [size_bits size tree total]; try done.
    + by rewrite length_insert.
    + by rewrite Hlen.
    + rewrite psum_insert, decide_True, Htot by (done || lia). apply u_id. lia.
    + rewrite psum_insert, decide_True by (done || lia). lia.
    + intros i Hi. rewrite Ht', Hn by done. simpl. by rewrite Hnode.
Qed.

Lemma findNext_contract ft xs idx :
  fw_repr ft xs -> total ft < ULLONG_MAX -> 0 <= idx < size ft ->
  exists r, fwTreeFindNextNonEmpty (Some ft) idx = Ok r /\
    ((r = -1 /\ forall j y, idx < j -> xs !! Z.to_nat j = Some y -> y = 0) \/
     (idx < r /\ (exists y, xs !! Z.to_nat r = Some y /\ 0 < y) /\
      forall j y, idx < j < r -> xs !! Z.to_nat j = Some y -> y = 0)).
Proof.
  intros Hr HM Hidx.
  pose proof Hr as [Hb Hsz Hl Htl Hp Htot Hbd Hn]. unfold fwTreeFindNextNonEmpty. unfold ULLONG_MAX in *.
  rewrite Z.geb_leb, (proj2 (Z.ltb_ge _ _)), (proj2 (Z.leb_gt _ _)) by lia. cbn [orb].
  rewrite (prefixSum_contract ft xs) by done. replace (Z.max 0 (Z.min (idx + 1) (size ft))) with (idx + 1) by lia.
  pose proof (psum_mono xs 0 (idx + 1) Hp ltac:(lia)) as H0. rewrite psum_0 in H0.
  pose proof (psum_mono xs (idx + 1) (size ft) Hp ltac:(lia)). rewrite u_id by lia.
  assert (forall j y, 0 <= j -> xs !! Z.to_nat j = Some y -> psum xs (j + 1) = psum xs j + y /\ 0 <= y) as Hstep.
  { intros j y Hj Hy. split; [by apply psum_succ|]. by eapply (Forall_lookup_1 _ _ _ _ Hp). }
  destruct (Z.leb_spec (psum xs (idx + 1) + 1) (total ft)) as [Hle|Hgt].
  - destruct (findIndex_contract ft xs (psum xs (idx + 1) + 1) Hr ltac:(lia)) as (r & -> & Hrr & H1).
    exists r. split; [done|right]. assert (idx < r) as Hir.
    { destruct (Z.lt_ge_cases idx r); [done|]. pose proof (psum_mono xs (r + 1) (idx + 1) Hp ltac:(lia)). lia. }
    split; [done|]. split.
    + destruct (lookup_lt_is_Some_2 xs (Z.to_nat r)) as [y Hy]; [lia|]. exists y. split; [done|].
      destruct (Hstep r y ltac:(lia) Hy). lia.
    + intros j y Hj Hy. destruct (Hstep j y ltac:(lia) Hy). pose proof (psum_mono xs (idx + 1) j Hp ltac:(lia)).
      pose proof (psum_mono xs (j + 1) r Hp ltac:(lia)). lia.
  - exists (-1). split; [done|left]. split; [done|]. intros j y Hj Hy. pose proof (lookup_lt_Some _ _ _ Hy).
    destruct (Hstep j y ltac:(lia) Hy). pose proof (psum_mono xs (idx + 1) j Hp ltac:(lia)).
    pose proof (psum_mono xs (j + 1) (size ft) Hp ltac:(lia)). lia.
Qed.

Lemma create_repr b : 0 <= b <= 29 -> fw_repr (fwTreeCreate b) (replicate (Z.to_nat (2 ^ b)) 0).
Proof.
  intros Hb. assert (1 <= 2 ^ b <= 2 ^ 29) as Hs by (split; [apply (Z.pow_le_mono_r 2 0); lia|apply Z.pow_le_mono_r; lia]).
  assert (forall n i, psum (replicate n 0) i = 0) as H0.
  { intros n i. unfold psum. rewrite take_replicate. induction (_ `min` n)%nat as [|m IH]; [done|]. simpl. lia. }
  unfold fwTreeCreate. rewrite Z.shiftl_1_l, s32_id by lia. split; cbn [size_bits size tree total]; rewrite ?H0; try done.
  - len.
  - len.
  - by apply Forall_replicate.
  - intros i Hi. rewrite !H0. apply lookup_replicate_2. lia.
Qed.

Lemma clear_create ft xs : fw_repr ft xs -> fwTreeClear ft = fwTreeCreate (size_bits ft).
Proof.
  intros [Hb Hsz _ _ _ _ _ _]. unfold fwTreeClear, fwTreeCreate. rewrite Z.shiftl_1_l, Hsz.
  assert (1 <= 2 ^ size_bits ft <= 2 ^ 29) by (split; [apply (Z.pow_le_mono_r 2 0); lia|apply Z.pow_le_mono_r; lia]).
  by rewrite s32_id by lia.
Qed.

(** * Theorems *)

(** a tree that represents the values [xs] answers every prefix-sum query with
    their sum, out-of-range indices clamped, and fwTreeUpdate adds [delta] to one value:
    the tree represents the updated values and its total is their sum.  The assertion
    in the loop never fails when no value becomes negative. *)
Theorem fwTreeUpdate_correct ft xs idx delta x :
  fw_repr ft xs -> 0 <= idx -> xs !! Z.to_nat idx = Some x -> LLONG_MIN < delta <= LLONG_MAX ->
  0 <= x + delta -> psum xs (size ft) + delta < 2 ^ 64 ->
  (forall i, fwTreePrefixSum (Some ft) i = Ok (psum xs (Z.max 0 (Z.min (i + 1) (size ft))))) /\
  exists ft', fwTreeUpdate (Some ft) idx delta = Ok (Some ft') /\ size ft' = size ft /\
    fw_repr ft' (<[Z.to_nat idx := x + delta]> xs).
Proof.
  intros. split; [intros; by apply prefixSum_contract|by eapply update_contract].
Qed.

(** for a rank from 1 to the total, fwTreeFindIndex returns the index of the value
    that contains it: the values before sum to less, the values up to it to at least the
    rank.  fwTreeFindNextNonEmpty returns the first index after [idx] whose value is not
    zero, and -1 if there is none. *)
Theorem fwTreeFind_correct ft xs :
  fw_repr ft xs -> total ft < ULLONG_MAX ->
  (forall target, 1 <= target <= total ft ->
     exists r, fwTreeFindIndex ft target = Ok r /\ 0 <= r < size ft /\ psum xs r < target <= psum xs (r + 1)) /\
  (forall idx, 0 <= idx < size ft ->
     exists r, fwTreeFindNextNonEmpty (Some ft) idx = Ok r /\
       ((r = -1 /\ forall j y, idx < j -> xs !! Z.to_nat j = Some y -> y = 0) \/
        (idx < r /\ (exists y, xs !! Z.to_nat r = Some y /\ 0 < y) /\
         forall j y, idx < j < r -> xs !! Z.to_nat j = Some y -> y = 0))).
Proof.
  intros. split; intros; [by apply findIndex_contract|by apply findNext_contract].
Qed.

(** * Witnesses *)

Definition demo_fw : fenwickTree :=
  match fwTreeUpdate (Some (fwTreeCreate 2)) 2 7 with Ok (Some t) => t | _ => fwTreeCreate 2 end.

Lemma fwTreeUpdate_correct_witness :
  fwTreePrefixSum (Some (fwTreeCreate 2)) 3 = Ok 0 /\
  exists ft', fwTreeUpdate (Some (fwTreeCreate 2)) 2 7 = Ok (Some ft') /\ fw_repr ft' [0; 0; 7; 0].
Proof.
  destruct (fwTreeUpdate_correct (fwTreeCreate 2) [0; 0; 0; 0] 2 7 0) as [H1 (ft' & H2 & _ & H3)].
  - apply (create_repr 2). lia.
  - lia.
  - reflexivity.
  - unfold LLONG_MIN, LLONG_MAX. lia.
  - lia.
  - vm_compute. reflexivity.
  - split; [apply H1|]. exists ft'. split; [exact H2|exact H3].
Defined.

Lemma demo_fw_repr : fw_repr demo_fw [0; 0; 7; 0].
Proof.
  split; try done; [repeat constructor; lia|]. intros i Hi.
  change (size demo_fw) with 4 in Hi. assert (i = 1 \/ i = 2 \/ i = 3 \/ i = 4) as [ -> | [ -> | [ -> | -> ]]] by lia; reflexivity.
Qed.

Lemma fwTreeFind_correct_witness :
  exists r, fwTreeFindIndex demo_fw 3 = Ok r /\ psum [0; 0; 7; 0] r < 3 <= psum [0; 0; 7; 0] (r + 1).
Proof.
  destruct (fwTreeFind_correct demo_fw [0; 0; 7; 0] demo_fw_repr) as [H _]; [reflexivity|].
  destruct (H 3) as (r & H1 & _ & H2); [vm_compute; split; discriminate|]. exists r. split; assumption.
Defined.
