(* ===== verification/Bitops.v ===== *)
(** Bitmaps: the bit primitives of src/redis-stable/src/bitops.c.

    Counting set bits and finding the first set or clear bit process whole words when
    the address is aligned; the address of the buffer is therefore a parameter.  Bitfields are integers of 1 to
    64 bits at any bit offset.  Bit 0 of a bitmap is the most significant bit of its
    first byte.  Words are loaded little-endian, as on the supported hosts. *)

From S2P Require Import Prelude Machine.

(** * Model *)

(** The lookup table, built by the macros B2, B4 and B6. *)
Definition B2 (n : Z) : list Z := [n; n + 1; n + 1; n + 2].
Definition B4 (n : Z) : list Z := B2 n ++ B2 (n + 1) ++ B2 (n + 1) ++ B2 (n + 2).
Definition B6 (n : Z) : list Z := B4 n ++ B4 (n + 1) ++ B4 (n + 1) ++ B4 (n + 2).
Definition bitsinbyte : list Z := B6 0 ++ B6 1 ++ B6 1 ++ B6 2.

(** ** redisPopcount *)

(** __builtin_popcountll: the number of one bits of a 64-bit word *)
Fixpoint popcount_pos (p : positive) : Z :=
  match p with xH => 1 | xO p => popcount_pos p | xI p => 1 + popcount_pos p end.
Definition popcount (x : Z) : Z := match x with Zpos p => popcount_pos p | _ => 0 end.

(** while ((unsigned long)p & align && count) *)
Fixpoint popcount_align (fuel : nat) (addr align : Z) (s : list Z) (p count bits : Z) : res (Z * Z * Z) :=
  match fuel with
  | O => Fault OutOfFuel
  | S fuel =>
      if negb (Z.land (addr + p) align =? 0) && negb (count =? 0) then
        let! c := get1 p s in
        let! n := get1 c bitsinbyte in
        popcount_align fuel addr align s (p + 1) (count - 1) (s64 (bits + n))
      else Ok (p, count, bits)
  end.

(** 32 bytes at a time, with the POPCNT instruction *)
Fixpoint popcount_words (fuel : nat) (s : list Z) (p count : Z) (cnt : Z * Z * Z * Z) : res (Z * Z * (Z * Z * Z * Z)) :=
  match fuel with
  | O => Fault OutOfFuel
  | S fuel =>
      if count >=? 32 then
        let '(c0, c1, c2, c3) := cnt in
        let! w0 := load p 8 s in
        let! w1 := load (p + 8) 8 s in
        let! w2 := load (p + 16) 8 s in
        let! w3 := load (p + 24) 8 s in
        popcount_words fuel s (p + 32) (count - 32)
          (u64 (c0 + popcount (le_dec w0)), u64 (c1 + popcount (le_dec w1)),
           u64 (c2 + popcount (le_dec w2)), u64 (c3 + popcount (le_dec w3)))
      else Ok (p, count, cnt)
  end.

(** aux = aux - ((aux >> 1) & 0x55555555);
    aux = (aux & 0x33333333) + ((aux >> 2) & 0x33333333); *)
Definition swar_nibbles (aux : Z) : Z :=
  let aux := u32 (aux - Z.land (Z.shiftr aux 1) 0x55555555) in
  u32 (Z.land aux 0x33333333 + Z.land (Z.shiftr aux 2) 0x33333333).
(** (aux + (aux >> 4)) & 0x0F0F0F0F *)
Definition swar_bytes (aux : Z) : Z := Z.land (u32 (aux + Z.shiftr aux 4)) 0x0F0F0F0F.

(** Seven 32-bit words at a time *)
Fixpoint popcount_swar (fuel : nat) (s : list Z) (p count bits : Z) : res (Z * Z * Z) :=
  match fuel with
  | O => Fault OutOfFuel
  | S fuel =>
      if count >=? 28 then
        let! a1 := load p 4 s in
        let! a2 := load (p + 4) 4 s in
        let! a3 := load (p + 8) 4 s in
        let! a4 := load (p + 12) 4 s in
        let! a5 := load (p + 16) 4 s in
        let! a6 := load (p + 20) 4 s in
        let! a7 := load (p + 24) 4 s in
        let f a := swar_bytes (swar_nibbles (le_dec a)) in
        let sum := u32 (f a1 + f a2 + f a3 + f a4 + f a5 + f a6 + f a7) in
        popcount_swar fuel s (p + 28) (count - 28) (s64 (bits + Z.shiftr (u32 (sum * 0x01010101)) 24))
      else Ok (p, count, bits)
  end.

(** while(count--) bits += bitsinbyte[*p++]; *)
Fixpoint popcount_rest (count : nat) (s : list Z) (p bits : Z) : res Z :=
  match count with
  | O => Ok bits
  | S count =>
      let! c := get1 p s in
      let! n := get1 c bitsinbyte in
      popcount_rest count s (p + 1) (s64 (bits + n))
  end.

(** [use_popcnt]: __builtin_cpu_supports("popcnt"); [addr]: the address of [s] *)
Definition redisPopcount (use_popcnt : bool) (addr : Z) (s : list Z) (count : Z) : res Z :=
  let align := if use_popcnt then 7 else 3 in
  let! '(p, count, bits) := popcount_align 9 addr align s 0 count 0 in
  if use_popcnt then
    let! '(p, count, cnt) := popcount_words (S (Z.to_nat count)) s p count (0, 0, 0, 0) in
    let '(c0, c1, c2, c3) := cnt in
    popcount_rest (Z.to_nat count) s p (s64 (bits + u64 (c0 + c1 + c2 + c3)))
  else
    let! '(p, count, bits) := popcount_swar (S (Z.to_nat count)) s p count bits in
    popcount_rest (Z.to_nat count) s p bits.

(** ** redisBitpos *)

Definition sizeof_long : Z := 8.

(** Skip bytes up to the first aligned address; the flag is [found]. *)
Fixpoint bitpos_align (fuel : nat) (addr : Z) (s : list Z) (skipval c count pos : Z) : res (bool * Z * Z * Z) :=
  match fuel with
  | O => Fault OutOfFuel
  | S fuel =>
      if negb (Z.land (addr + c) (sizeof_long - 1) =? 0) && negb (count =? 0) then
        let! b := get1 c s in
        if negb (b =? skipval) then Ok (true, c, count, pos)
        else bitpos_align fuel addr s skipval (c + 1) (count - 1) (s64 (pos + 8))
      else Ok (false, c, count, pos)
  end.

(** Skip whole words. *)
Fixpoint bitpos_words (fuel : nat) (s : list Z) (skipval l count pos : Z) : res (Z * Z * Z) :=
  match fuel with
  | O => Fault OutOfFuel
  | S fuel =>
      if count >=? sizeof_long then
        let! w := load l sizeof_long s in
        if negb (le_dec w =? skipval) then Ok (l, count, pos)
        else bitpos_words fuel s skipval (l + 8) (count - sizeof_long) (s64 (pos + sizeof_long * 8))
      else Ok (l, count, pos)
  end.

(** Load up to eight bytes, the first one as the most significant. *)
Fixpoint bitpos_load (j : nat) (s : list Z) (c count word : Z) : res Z :=
  match j with
  | O => Ok word
  | S j =>
      let word := u64 (Z.shiftl word 8) in
      if negb (count =? 0) then
        let! b := get1 c s in
        bitpos_load j s (c + 1) (count - 1) (Z.lor word b)
      else bitpos_load j s c count word
  end.

(** while(one): 64 bits *)
Fixpoint bitpos_scan (fuel : nat) (one word : Z) (bit : bool) (pos : Z) : res Z :=
  match fuel with
  | O => Fault OutOfFuel
  | S fuel =>
      if one =? 0 then Fault AssertFailed
      else if eqb (negb (Z.land one word =? 0)) bit then Ok pos
      else bitpos_scan fuel (Z.shiftr one 1) word bit (s64 (pos + 1))
  end.

Definition redisBitpos (addr : Z) (s : list Z) (count : Z) (bit : bool) : res Z :=
  let! '(found, c, count, pos) := bitpos_align 9 addr s (if bit then 0 else 255) 0 count 0 in
  let! '(l, count, pos) :=
    (if found then Ok (c, count, pos)
     else bitpos_words (S (Z.to_nat count)) s (if bit then 0 else ULLONG_MAX) c count pos) in
  let! word := bitpos_load 8 s l count 0 in
  if bit && (word =? 0) then Ok (-1)
  else
    let one := u64 (Z.lnot (Z.shiftr ULLONG_MAX 1)) in
    bitpos_scan 65 one word bit pos.

(** ** Bitfields *)

(** for (j = 0; j < bits; j++): [n] rounds left, j = bits - n *)
Fixpoint setUnsigned_loop (n : nat) (p : list Z) (offset value : Z) : res (list Z) :=
  match n with
  | O => Ok p
  | S n =>
      let bitval := b2z (negb (Z.land value (u64 (Z.shiftl 1 (Z.of_nat n))) =? 0)) in
      let byte := Z.shiftr offset 3 in
      let bit := 7 - Z.land offset 7 in
      let! byteval := get1 byte p in
      let byteval := Z.land byteval (u64 (Z.lnot (Z.shiftl 1 bit))) in
      let byteval := Z.lor byteval (Z.shiftl bitval bit) in
      let! p := set1 byte (Z.land byteval 255) p in
      setUnsigned_loop n p (u64 (offset + 1)) value
  end.
Definition setUnsignedBitfield (p : list Z) (offset bits value : Z) : res (list Z) :=
  setUnsigned_loop (Z.to_nat bits) p offset value.
Definition setSignedBitfield (p : list Z) (offset bits value : Z) : res (list Z) :=
  setUnsignedBitfield p offset bits (u64 value).

Fixpoint getUnsigned_loop (n : nat) (p : list Z) (offset value : Z) : res Z :=
  match n with
  | O => Ok value
  | S n =>
      let byte := Z.shiftr offset 3 in
      let bit := 7 - Z.land offset 7 in
      let! byteval := get1 byte p in
      let bitval := Z.land (Z.shiftr byteval bit) 1 in
      getUnsigned_loop n p (u64 (offset + 1)) (Z.lor (u64 (Z.shiftl value 1)) bitval)
  end.
Definition getUnsignedBitfield (p : list Z) (offset bits : Z) : res Z :=
  getUnsigned_loop (Z.to_nat bits) p offset 0.
Definition getSignedBitfield (p : list Z) (offset bits : Z) : res Z :=
  let! uv := getUnsignedBitfield p offset bits in
  Ok (if (bits <? 64) && negb (Z.land uv (u64 (Z.shiftl 1 (bits - 1))) =? 0)
      then s64 (Z.lor uv (u64 (Z.shiftl (-1) bits)))
      else s64 uv).

(** ** Overflow checks *)

Inductive bfoverflow := BFOVERFLOW_WRAP | BFOVERFLOW_SAT | BFOVERFLOW_FAIL.

(** [None] in the second component: *limit is not assigned *)
Definition checkUnsignedBitfieldOverflow (value incr bits : Z) (owtype : bfoverflow) : Z * option Z :=
  let max := if bits =? 64 then ULLONG_MAX else u64 (u64 (Z.shiftl 1 bits) - 1) in
  let maxincr := s64 (max - value) in
  let minincr := s64 (- value) in
  let handle_wrap :=
    let mask := u64 (Z.shiftl (-1) bits) in
    (1, Some (Z.land (u64 (value + incr)) (u64 (Z.lnot mask)))) in
  if (value >? max) || ((incr >? 0) && (incr >? maxincr)) then
    match owtype with BFOVERFLOW_WRAP => handle_wrap | BFOVERFLOW_SAT => (1, Some max) | BFOVERFLOW_FAIL => (1, None) end
  else if (incr <? 0) && (incr <? minincr) then
    match owtype with BFOVERFLOW_WRAP => handle_wrap | BFOVERFLOW_SAT => (-1, Some 0) | BFOVERFLOW_FAIL => (-1, None) end
  else (0, None).

Definition checkSignedBitfieldOverflow (value incr bits : Z) (owtype : bfoverflow) : Z * option Z :=
  let max := if bits =? 64 then LLONG_MAX else Z.shiftl 1 (bits - 1) - 1 in
  let min := - max - 1 in
  let maxincr := s64 (u64 (max - value)) in
  let minincr := s64 (min - value) in
  let handle_wrap :=
    let msb := u64 (Z.shiftl 1 (bits - 1)) in
    let c := u64 (u64 value + u64 incr) in
    let c := if bits <? 64 then
               let mask := u64 (Z.shiftl (-1) bits) in
               if negb (Z.land c msb =? 0) then Z.lor c mask else Z.land c (u64 (Z.lnot mask))
             else c in
    (1, Some (s64 c)) in
  if (value >? max) || (negb (bits =? 64) && (incr >? maxincr)) || ((value >=? 0) && (incr >? 0) && (incr >? maxincr)) then
    match owtype with BFOVERFLOW_WRAP => handle_wrap | BFOVERFLOW_SAT => (1, Some max) | BFOVERFLOW_FAIL => (1, None) end
  else if (value <? min) || (negb (bits =? 64) && (incr <? minincr)) || ((value <? 0) && (incr <? 0) && (incr <? minincr)) then
    match owtype with BFOVERFLOW_WRAP => handle_wrap | BFOVERFLOW_SAT => (-1, Some min) | BFOVERFLOW_FAIL => (-1, None) end
  else (0, None).
