(* ===== verification/BitopsSpec.v ===== *)
(** The contract of the bit primitives of src/redis-stable/src/bitops.c: population
    count and bit search agree with the list of bits of the bitmap, bitfields can be
    read back after they are written, and overflow is detected as documented. *)

From S2P Require Import Prelude Machine Bitops.

(** * Exhaustive checks *)

Definition zall (n : Z) (f : Z -> bool) : bool := forallb f (seqZ 0 n).
Lemma zall_spec n f x : zall n f = true -> 0 <= x < n -> f x = true.
Proof.
  unfold zall. rewrite forallb_forall. intros H Hx. apply H. apply list_elem_of_In, elem_of_seqZ. lia.
Qed.

(** * The bits of a bitmap *)

Definition byte_bits (b : Z) : list bool :=
  [Z.testbit b 7; Z.testbit b 6; Z.testbit b 5; Z.testbit b 4; Z.testbit b 3; Z.testbit b 2; Z.testbit b 1; Z.testbit b 0].
Definition bits_of (bs : list Z) : list bool := concat (map byte_bits bs).

Lemma length_bits_of bs : length (bits_of bs) = (8 * length bs)%nat.
Proof. unfold bits_of. induction bs as [|b bs IH]; [done|]. cbn [map concat]. rewrite length_app, IH. cbn [length byte_bits]. lia. Qed.
#[local] Hint Rewrite length_bits_of : redis_len.

Lemma bits_of_app a b : bits_of (a ++ b) = bits_of a ++ bits_of b.
Proof. unfold bits_of. by rewrite map_app, concat_app. Qed.

Lemma byte_bits_lookup b k : 0 <= k < 8 -> byte_bits b !! Z.to_nat k = Some (Z.testbit b (7 - k)).
Proof. intros Hk. assert (k = 0 \/ k = 1 \/ k = 2 \/ k = 3 \/ k = 4 \/ k = 5 \/ k = 6 \/ k = 7) as H by lia.
  by repeat (destruct H as [H|H]; [subst; reflexivity|]); subst. Qed.

(** Bit [8 * q + r] is bit [7 - r] of byte [q]. *)
Lemma bits_of_lookup bs q r : 0 <= q -> 0 <= r < 8 ->
  bits_of bs !! Z.to_nat (8 * q + r) = (fun b => Z.testbit b (7 - r)) <$> bs !! Z.to_nat q.
Proof.
  intros Hq Hr. revert bs. pattern q. apply natlike_ind; [| |done]; clear q Hq.
  - intros [|b bs]; [done|]. unfold bits_of. cbn [map concat].
    rewrite lookup_app_l by (cbn [length byte_bits]; lia). by rewrite Z.add_0_l, byte_bits_lookup.
  - intros q Hq IH [|b bs]; [done|]. unfold bits_of. cbn [map concat].
    rewrite lookup_app_r by (cbn [length byte_bits]; lia).
    replace (Z.to_nat (8 * Z.succ q + r) - length (byte_bits b))%nat with (Z.to_nat (8 * q + r)) by (cbn [length byte_bits]; lia).
    replace (Z.to_nat (Z.succ q)) with (S (Z.to_nat q)) by lia. apply IH.
Qed.

Lemma bit_index i : 0 <= i -> i = 8 * Z.shiftr i 3 + Z.land i 7 /\ 0 <= Z.shiftr i 3 /\ 0 <= Z.land i 7 < 8.
Proof.
  intros Hi. rewrite Z.shiftr_div_pow2 by lia. change 7 with (Z.ones 3). rewrite Z.land_ones by lia.
  change (2 ^ 3) with 8. pose proof (Z.div_mod i 8). pose proof (Z.mod_pos_bound i 8). pose proof (Z.div_pos i 8). lia.
Qed.

(** * Bitfields *)

(** Writing one bit of a byte. *)
Definition put_bit (b k : Z) (v : bool) : Z :=
  Z.land (Z.lor (Z.land b (u64 (Z.lnot (Z.shiftl 1 k)))) (Z.shiftl (b2z v) k)) 255.

Lemma put_bit_spec b k v : 0 <= b < 256 -> 0 <= k < 8 ->
  0 <= put_bit b k v < 256 /\ forall m, 0 <= m < 8 -> Z.testbit (put_bit b k v) m = if m =? k then v else Z.testbit b m.
Proof.
  intros Hb Hk.
  assert (zall 256 (fun b => zall 8 (fun k => forallb (fun v => (0 <=? put_bit b k v) && (put_bit b k v <? 256) &&
    zall 8 (fun m => eqb (Z.testbit (put_bit b k v) m) (if m =? k then v else Z.testbit b m))) [true; false])) = true) as H
    by (vm_compute; reflexivity).
  apply (zall_spec _ _ b) in H; [|done]. apply (zall_spec _ _ k) in H; [|done].
  rewrite forallb_forall in H. specialize (H v ltac:(destruct v; simpl; auto)).
  apply andb_true_iff in H as [H1 H2]. split; [lia|]. intros m Hm. apply (zall_spec _ _ m) in H2; [|done].
  by apply eqb_prop.
Qed.

Lemma insert_bit p q r b v i : 0 <= q -> 0 <= r < 8 -> p !! Z.to_nat q = Some b -> 0 <= b < 256 -> 0 <= i ->
  bits_of (<[Z.to_nat q := put_bit b (7 - r) v]> p) !! Z.to_nat i =
  if i =? 8 * q + r then Some v else bits_of p !! Z.to_nat i.
Proof.
  intros Hq Hr Hb Hbr Hi. destruct (bit_index i Hi) as (Ei & Hiq & Hir). pose proof (lookup_lt_Some _ _ _ Hb).
  destruct (put_bit_spec b (7 - r) v Hbr ltac:(lia)) as [_ Hput]. rewrite Ei at 1 3. rewrite !bits_of_lookup by done.
  destruct (Z.eq_dec (Z.shiftr i 3) q) as [E|E].
  - rewrite E, list_lookup_insert_eq, Hb by done. simpl. rewrite Hput by lia.
    destruct (Z.eqb_spec i (8 * q + r)), (Z.eqb_spec (7 - Z.land i 7) (7 - r)); try done; lia.
  - rewrite list_lookup_insert_ne by lia. destruct (Z.eqb_spec i (8 * q + r)); [lia|done].
Qed.

Lemma land_bit v n : 0 <= n -> negb (Z.land v (2 ^ n) =? 0) = Z.testbit v n.
Proof.
  intros Hn. assert (Z.land v (2 ^ n) = if Z.testbit v n then 2 ^ n else 0) as ->.
  { apply Z.bits_inj'. intros m Hm. rewrite Z.land_spec, Z.pow2_bits_eqb by done.
    destruct (Z.eqb_spec n m) as [->|Hne]; [|rewrite andb_false_r].
    - destruct (Z.testbit v m); [by rewrite Z.pow2_bits_true|by rewrite Z.bits_0].
    - destruct (Z.testbit v n); [by rewrite Z.pow2_bits_false|by rewrite Z.bits_0]. }
  assert (0 < 2 ^ n) by (apply Z.pow_pos_nonneg; lia). destruct (Z.testbit v n); zbool; done || lia.
Qed.

Lemma pow2_u64 n : 0 <= n < 64 -> u64 (Z.shiftl 1 n) = 2 ^ n.
Proof.
  intros Hn. rewrite Z.shiftl_1_l. apply u_id. split; [lia|]. apply Z.pow_lt_mono_r; lia.
Qed.

(** The bits of [p'] are those of [p], with [n] bits of [value] written at [off]. *)
Definition written (p p' : list Z) (off : Z) (n : nat) (value : Z) : Prop :=
  bytes_ok p' /\ length p' = length p /\
  forall i, 0 <= i -> bits_of p' !! Z.to_nat i =
    if (off <=? i) && (i <? off + Z.of_nat n) then Some (Z.testbit value (off + Z.of_nat n - 1 - i)) else bits_of p !! Z.to_nat i.

Lemma setUnsigned_loop_correct n : forall p off value,
  bytes_ok p -> (n <= 64)%nat -> 0 <= off -> off + Z.of_nat n <= 8 * zlength p -> off + Z.of_nat n < 2 ^ 64 ->
  exists p', setUnsigned_loop n p off value = Ok p' /\ written p p' off n value.
Proof.
  induction n as [|n IH]; intros p off value Hp Hn Ho Hb H64; cbn [setUnsigned_loop].
  { exists p. split; [done|]. split_and!; [done..|]. intros i Hi. by replace (_ && _) with false by lia. }
  rewrite pow2_u64, land_bit by lia. destruct (bit_index off Ho) as (Eo & Hq & Hr).
  set (q := Z.shiftr off 3) in *. set (r := Z.land off 7) in *.
  destruct (get1_in p q ltac:(lia)) as [b Hg]. rewrite Hg. apply get1_Ok in Hg as [_ Hg].
  assert (0 <= b < 256) as Hbr by by eapply (Forall_lookup_1 _ _ _ _ Hp). set (v := Z.testbit value (Z.of_nat n)).
  fold (put_bit b (7 - r) v). destruct (put_bit_spec b (7 - r) v Hbr ltac:(lia)) as [Hput _].
  rewrite set1_insert by lia. rewrite u_id by lia.
  destruct (IH (<[Z.to_nat q := put_bit b (7 - r) v]> p) (off + 1) value) as (p' & -> & H1 & H2 & H3);
    [by apply Forall_insert|lia|lia|rewrite length_insert; lia|lia|].
  exists p'. split; [done|]. split_and!; [done|by rewrite H2, length_insert|]. intros i Hi. rewrite H3 by done.
  rewrite (insert_bit p q r b v i) by done. rewrite <- Eo.
  destruct (Z.eqb_spec i off) as [->|Hne].
  - replace (_ && _) with false by lia. replace (_ && _) with true by lia. unfold v. do 2 f_equal. lia.
  - replace ((off + 1 <=? i) && (i <? off + 1 + Z.of_nat n)) with ((off <=? i) && (i <? off + Z.of_nat (S n))) by lia.
    destruct (_ && _); [do 2 f_equal; lia|done].
Qed.

(** The number whose binary digits, most significant first, are [bs]. *)
Definition unbits (bs : list bool) : Z := foldl (fun a b => 2 * a + b2z b) 0 bs.

Lemma unbits_acc bs a : foldl (fun a b => 2 * a + b2z b) a bs = a * 2 ^ zlength bs + unbits bs.
Proof.
  unfold unbits. revert a. induction bs as [|b bs IH]; intros a; [simpl; lia|]. cbn [foldl length].
  rewrite IH, (IH (2 * 0 + b2z b)), Nat2Z.inj_succ, Z.pow_succ_r by lia. lia.
Qed.
Lemma unbits_range bs : 0 <= unbits bs < 2 ^ zlength bs.
Proof.
  induction bs as [|b bs IH]; [done|]. unfold unbits. cbn [foldl length]. rewrite unbits_acc, Nat2Z.inj_succ, Z.pow_succ_r by lia.
  destruct b; simpl; lia.
Qed.

Lemma getUnsigned_loop_correct n : forall p off a,
  bytes_ok p -> 0 <= off -> off + Z.of_nat n <= 8 * zlength p -> off + Z.of_nat n < 2 ^ 64 ->
  0 <= a -> a * 2 ^ Z.of_nat n + 2 ^ Z.of_nat n <= 2 ^ 64 ->
  getUnsigned_loop n p off a = Ok (a * 2 ^ Z.of_nat n + unbits (take n (drop (Z.to_nat off) (bits_of p)))).
Proof.
  induction n as [|n IH]; intros p off a Hp Ho Hb H64 Ha Hmax; cbn [getUnsigned_loop].
  { unfold unbits. simpl. f_equal. lia. }
  destruct (bit_index off Ho) as (Eo & Hq & Hr). set (q := Z.shiftr off 3) in *. set (r := Z.land off 7) in *.
  destruct (get1_in p q ltac:(lia)) as [b Hg]. rewrite Hg. apply get1_Ok in Hg as [_ Hg].
  assert (bits_of p !! Z.to_nat off = Some (Z.testbit b (7 - r))) as Hbit.
  { rewrite Eo, bits_of_lookup, Hg by lia. done. }
  set (v := Z.testbit b (7 - r)) in *.
  assert (Z.land (Z.shiftr b (7 - r)) 1 = b2z v) as ->.
  { unfold v. assert (Z.testbit (Z.shiftr b (7 - r)) 0 = Z.testbit b (7 - r)) as <- by by rewrite Z.shiftr_spec by lia.
    rewrite Z.bit0_odd. change 1 with (Z.ones 1) at 1. rewrite Z.land_ones by lia.
    change (2 ^ 1) with 2. by rewrite Zmod_odd. }
  rewrite Nat2Z.inj_succ, Z.pow_succ_r in * by lia. assert (0 < 2 ^ Z.of_nat n) by (apply Z.pow_pos_nonneg; lia).
  rewrite (Z.shiftl_mul_pow2 a 1) by lia. change (2 ^ 1) with 2. rewrite (u_id 64 (a * 2)) by nia.
  assert (Z.lor (a * 2) (b2z v) = 2 * a + b2z v) as ->.
  { replace (a * 2) with (Z.shiftl a 1) by (rewrite Z.shiftl_mul_pow2; lia). rewrite Z.lor_comm, lor_shl_add by (destruct v; simpl; lia). lia. }
  assert (0 <= b2z v <= 1) as Hv by (destruct v; simpl; lia).
  rewrite u_id by lia. rewrite IH by (done || lia || nia).
  rewrite (drop_S _ _ _ Hbit). replace (S (Z.to_nat off)) with (Z.to_nat (off + 1)) by lia. cbn [take].
  unfold unbits at 2. cbn [foldl]. rewrite unbits_acc. f_equal.
  replace (zlength (take n (drop (Z.to_nat (off + 1)) (bits_of p)))) with (Z.of_nat n) by len. nia.
Qed.

Lemma mod_top_bit v n : 0 <= n -> v mod 2 ^ (n + 1) = b2z (Z.testbit v n) * 2 ^ n + v mod 2 ^ n.
Proof.
  intros Hn. rewrite Z.pow_add_r by lia. change (2 ^ 1) with 2. assert (0 < 2 ^ n) by (apply Z.pow_pos_nonneg; lia).
  rewrite Z.rem_mul_r by lia. rewrite <- Z.shiftr_div_pow2 by done.
  assert (Z.shiftr v n mod 2 = b2z (Z.testbit v n)) as ->; [|lia].
  assert (Z.testbit (Z.shiftr v n) 0 = Z.testbit v n) as <- by by rewrite Z.shiftr_spec by lia.
  rewrite Z.bit0_odd. by rewrite Zmod_odd.
Qed.

Lemma unbits_testbits value l :
  (forall j : nat, (j < length l)%nat -> l !! j = Some (Z.testbit value (zlength l - 1 - Z.of_nat j))) ->
  unbits l = value mod 2 ^ zlength l.
Proof.
  induction l as [|b l IH]; intros H; [by rewrite Z.mod_1_r|]. unfold unbits. cbn [foldl length].
  rewrite unbits_acc, IH.
  - replace (Z.of_nat (S (length l))) with (zlength l + 1) by lia. rewrite mod_top_bit by lia.
    pose proof (H 0%nat ltac:(simpl; lia)) as H0.
    replace (zlength (b :: l) - 1 - Z.of_nat 0) with (zlength l) in H0 by (cbn [length]; lia). injection H0 as ->. lia.
  - intros j Hj. pose proof (H (S j) ltac:(simpl; lia)) as Hj'. change (l !! j = Some (Z.testbit value (zlength (b :: l) - 1 - Z.of_nat (S j)))) in Hj'.
    rewrite Hj'. do 2 f_equal. cbn [length]. lia.
Qed.

Lemma written_read p p' off n value : 0 <= off -> off + Z.of_nat n <= 8 * zlength p -> written p p' off n value ->
  unbits (take n (drop (Z.to_nat off) (bits_of p'))) = value mod 2 ^ Z.of_nat n.
Proof.
  intros Ho Hb (_ & Hl & Hw). set (l := take n _). assert (length l = n) as Hll by (unfold l; len).
  transitivity (value mod 2 ^ zlength l); [|by rewrite Hll]. apply unbits_testbits. rewrite Hll. intros j Hj. unfold l.
  rewrite lookup_take_lt, lookup_drop by lia. replace (Z.to_nat off + j)%nat with (Z.to_nat (off + Z.of_nat j)) by lia.
  rewrite Hw by lia. replace (_ && _) with true by lia. do 2 f_equal. lia.
Qed.

Lemma testbit_top x w : 0 < w -> 0 <= x < 2 ^ w -> Z.testbit x (w - 1) = (2 ^ (w - 1) <=? x).
Proof.
  intros Hw Hx. pose proof (mod_top_bit x (w - 1) ltac:(lia)) as H. replace (w - 1 + 1) with w in H by lia.
  rewrite Z.mod_small in H by done. pose proof (Z.mod_pos_bound x (2 ^ (w - 1)) ltac:(apply Z.pow_pos_nonneg; lia)).
  destruct (Z.testbit x (w - 1)); simpl in H; lia.
Qed.

(** Two's complement from the residue. *)
Lemma s_of_mod w v : 0 < w -> s w v = if Z.testbit (v mod 2 ^ w) (w - 1) then v mod 2 ^ w - 2 ^ w else v mod 2 ^ w.
Proof.
  intros Hw. assert (0 < 2 ^ (w - 1)) as Hp by (apply Z.pow_pos_nonneg; lia).
  assert (2 ^ w = 2 * 2 ^ (w - 1)) as Hpw by (rewrite <- Z.pow_succ_r by lia; f_equal; lia).
  pose proof (Z.mod_pos_bound v (2 ^ w) ltac:(lia)) as Hm. rewrite testbit_top by done. unfold s.
  rewrite <- Zplus_mod_idemp_l. set (x := v mod 2 ^ w) in *. zbool.
  - replace (x + 2 ^ (w - 1)) with (x - 2 ^ (w - 1) + 1 * 2 ^ w) by lia. rewrite Z.mod_add by lia. rewrite Z.mod_small; lia.
  - rewrite Z.mod_small; lia.
Qed.

Lemma sign_extend x bits : 1 <= bits < 64 -> 0 <= x < 2 ^ bits -> 2 ^ (bits - 1) <= x ->
  s64 (Z.lor x (u64 (Z.shiftl (-1) bits))) = x - 2 ^ bits.
Proof.
  intros Hb Hx Hhi. assert (2 ^ bits < 2 ^ 64) as Hlt by (apply Z.pow_lt_mono_r; lia).
  assert (2 ^ bits <= 2 ^ 63) as Hle by (apply Z.pow_le_mono_r; lia). assert (0 < 2 ^ bits) by lia.
  assert (2 ^ 64 = 2 ^ (64 - bits) * 2 ^ bits) as Hsp by (rewrite <- Z.pow_add_r by lia; f_equal; lia).
  assert (u64 (Z.shiftl (-1) bits) = Z.shiftl (2 ^ (64 - bits) - 1) bits) as ->.
  { rewrite !Z.shiftl_mul_pow2 by lia. unfold u. replace (-1 * 2 ^ bits) with ((2 ^ (64 - bits) - 1) * 2 ^ bits + (-1) * 2 ^ 64) by lia.
    rewrite Z.mod_add by lia. apply Z.mod_small. lia. }
  rewrite lor_shl_add by lia. replace (x + (2 ^ (64 - bits) - 1) * 2 ^ bits) with (x - 2 ^ bits + 1 * 2 ^ 64) by lia.
  rewrite <- s_mod by lia. rewrite Z.mod_add, s_mod by lia. apply s_id; [lia|]. unfold in_s. change (2 ^ (64 - 1)) with (2 ^ 63). lia.
Qed.

(** a bitfield written at any bit offset is read back as the value modulo its width
    (sign-extended for signed fields), every other bit of the bitmap keeps its value,
    and no byte outside the bitmap is touched. *)
Theorem bitfield_roundtrip p off bits :
  bytes_ok p -> 1 <= bits <= 64 -> 0 <= off -> off + bits <= 8 * zlength p -> off + bits < 2 ^ 64 ->
  (forall value, 0 <= value < 2 ^ 64 ->
     exists p', setUnsignedBitfield p off bits value = Ok p' /\ length p' = length p /\
       getUnsignedBitfield p' off bits = Ok (u bits value) /\
       forall i, 0 <= i -> i < off \/ off + bits <= i -> bits_of p' !! Z.to_nat i = bits_of p !! Z.to_nat i) /\
  (forall value, in_s 64 value ->
     exists p', setSignedBitfield p off bits value = Ok p' /\ getSignedBitfield p' off bits = Ok (s bits value)).
Proof.
  intros Hp Hbits Ho Hb H64.
  assert (2 ^ bits <= 2 ^ 64) as Hp64 by (apply Z.pow_le_mono_r; lia).
  assert (forall value, exists p', setUnsignedBitfield p off bits value = Ok p' /\ written p p' off (Z.to_nat bits) value /\
            getUnsignedBitfield p' off bits = Ok (value mod 2 ^ bits)) as Hset.
  { intros value. destruct (setUnsigned_loop_correct (Z.to_nat bits) p off value) as (p' & Hs & Hw); [done|lia..|].
    exists p'. split_and!; [done..|]. pose proof Hw as (Hbo & Hl & _). unfold getUnsignedBitfield.
    rewrite getUnsigned_loop_correct by (rewrite ?Z2Nat.id by lia; done || lia).
    rewrite (written_read p p' off _ value) by (done || lia). rewrite Z2Nat.id by lia. done. }
  split.
  - intros value Hv. destruct (Hset value) as (p' & H1 & (_ & Hl & Hw) & H3). exists p'. split_and!; [done..|].
    intros i Hi Hout. rewrite Hw by done. by replace (_ && _) with false by lia.
  - intros value Hv. unfold setSignedBitfield. destruct (Hset (u64 value)) as (p' & H1 & _ & H3). exists p'. split; [done|].
    unfold getSignedBitfield. rewrite H3. f_equal. rewrite pow2_u64, land_bit by lia.
    assert (u64 value mod 2 ^ bits = value mod 2 ^ bits) as ->.
    { unfold u. replace (2 ^ 64) with (2 ^ bits * 2 ^ (64 - bits)) by (rewrite <- Z.pow_add_r by lia; f_equal; lia).
      assert (0 < 2 ^ (64 - bits)) by (apply Z.pow_pos_nonneg; lia). rewrite Z.rem_mul_r by lia.
      rewrite (Z.mul_comm (2 ^ bits) (_ mod _)), Z.mod_add by lia. by rewrite Z.mod_mod by lia. }
    rewrite (s_of_mod bits) by lia. pose proof (Z.mod_pos_bound value (2 ^ bits) ltac:(lia)) as Hm.
    destruct (Z.ltb_spec bits 64) as [Hlt|Hge]; cbn [andb].
    + destruct (Z.testbit (value mod 2 ^ bits) (bits - 1)) eqn:Et.
      * rewrite testbit_top in Et by (done || lia). apply sign_extend; lia.
      * rewrite testbit_top in Et by (done || lia). apply s_id; [lia|]. unfold in_s.
        assert (2 ^ (bits - 1) <= 2 ^ (64 - 1)) by (apply Z.pow_le_mono_r; lia). lia.
    + replace bits with 64 in * by lia. rewrite <- s_of_mod by lia. apply s_mod. lia.
Qed.

Lemma bitfield_roundtrip_witness :
  exists p', setSignedBitfield [0; 0; 0] 7 5 (-9) = Ok p' /\ getSignedBitfield p' 7 5 = Ok (-9).
Proof.
  destruct (bitfield_roundtrip [0; 0; 0] 7 5) as [_ H]; [repeat constructor; lia|lia|lia|simpl; lia|lia|].
  destruct (H (-9)) as (p' & H1 & H2); [unfold in_s; lia|]. exists p'. split; [exact H1|exact H2].
Defined.

(** * Overflow *)

Lemma low_mask bits : 0 <= bits < 64 -> u64 (Z.lnot (u64 (Z.shiftl (-1) bits))) = Z.ones bits.
Proof.
  intros Hb. rewrite Z.ones_equiv, Z.shiftl_mul_pow2 by lia. unfold Z.lnot, u.
  assert (0 < 2 ^ bits) by (apply Z.pow_pos_nonneg; lia). assert (2 ^ bits < 2 ^ 64) by (apply Z.pow_lt_mono_r; lia).
  replace (-1 * 2 ^ bits) with (2 ^ 64 - 2 ^ bits + (-1) * 2 ^ 64) by lia. rewrite Z.mod_add, (Z.mod_small (2 ^ 64 - 2 ^ bits)) by lia.
  replace (Z.pred (- (2 ^ 64 - 2 ^ bits))) with (Z.pred (2 ^ bits) + (-1) * 2 ^ 64) by lia. rewrite Z.mod_add by lia.
  apply Z.mod_small. lia.
Qed.

Lemma mod_mod_pow v a b : 0 <= a <= b -> (v mod 2 ^ b) mod 2 ^ a = v mod 2 ^ a.
Proof.
  intros H. replace (2 ^ b) with (2 ^ a * 2 ^ (b - a)) by (rewrite <- Z.pow_add_r by lia; f_equal; lia).
  assert (0 < 2 ^ a) by (apply Z.pow_pos_nonneg; lia). assert (0 < 2 ^ (b - a)) by (apply Z.pow_pos_nonneg; lia).
  rewrite Z.rem_mul_r by lia. rewrite (Z.mul_comm (2 ^ a) (_ mod _)), Z.mod_add by lia. by rewrite Z.mod_mod by lia.
Qed.

(** Setting the bits from [bits] up only depends on the bits below. *)
Lemma lor_high_mask c bits : 0 <= bits < 64 -> 0 <= c < 2 ^ 64 ->
  Z.lor c (u64 (Z.shiftl (-1) bits)) = Z.lor (c mod 2 ^ bits) (u64 (Z.shiftl (-1) bits)).
Proof.
  intros Hb Hc. apply Z.bits_inj'. intros n Hn. rewrite !Z.lor_spec. unfold u.
  destruct (Z.lt_ge_cases n bits) as [Hlt|Hge]; [by rewrite (Z.mod_pow2_bits_low c) by lia|].
  rewrite (Z.mod_pow2_bits_high c) by lia. destruct (Z.lt_ge_cases n 64) as [H64|H64].
  - rewrite Z.mod_pow2_bits_low, Z.shiftl_spec by lia. rewrite Z.bits_m1 by lia. by rewrite !orb_true_r.
  - rewrite Z.mod_pow2_bits_high by lia. rewrite <- (Z.mod_small c (2 ^ 64)) by done. by rewrite Z.mod_pow2_bits_high by lia.
Qed.

(** What the overflow checks promise for the result [v] of an operation on a field
    with the bounds [lo] and [hi]. *)
Definition overflow_spec (v lo hi wrapped : Z) (owtype : bfoverflow) (r : Z * option Z) : Prop :=
  (lo <= v <= hi -> r = (0, None)) /\
  (hi < v -> r = (1, match owtype with BFOVERFLOW_WRAP => Some wrapped | BFOVERFLOW_SAT => Some hi | BFOVERFLOW_FAIL => None end)) /\
  (v < lo -> r = match owtype with
                 | BFOVERFLOW_WRAP => (1, Some wrapped)
                 | BFOVERFLOW_SAT => (-1, Some lo)
                 | BFOVERFLOW_FAIL => (-1, None)
                 end).

(** The decision of both checks. *)
Lemma overflow_decide v lo hi wrapped owtype (over under : bool) w : lo <= hi + 1 ->
  (over = true <-> hi < v) -> (over = false -> under = true <-> v < lo) -> w = (1, Some wrapped) ->
  overflow_spec v lo hi wrapped owtype
    (if over then match owtype with BFOVERFLOW_WRAP => w | BFOVERFLOW_SAT => (1, Some hi) | BFOVERFLOW_FAIL => (1, None) end
     else if under then match owtype with BFOVERFLOW_WRAP => w | BFOVERFLOW_SAT => (-1, Some lo) | BFOVERFLOW_FAIL => (-1, None) end
     else (0, None)).
Proof.
  intros Hlh Ho Hu ->. unfold overflow_spec. destruct over; [|destruct under].
  - assert (hi < v) by by apply Ho. split_and!; intros; try lia. by destruct owtype.
  - assert (v < lo) by by apply Hu. split_and!; intros; try lia. by destruct owtype.
  - assert (~ hi < v) by (intros ?%Ho; done). assert (~ v < lo) by (intros ?%Hu; done). split_and!; intros; lia || done.
Qed.

Lemma u64_ones bits : 0 <= bits < 64 -> u64 (u64 (Z.shiftl 1 bits) - 1) = 2 ^ bits - 1.
Proof.
  intros Hb. rewrite pow2_u64 by lia. assert (0 < 2 ^ bits) by (apply Z.pow_pos_nonneg; lia).
  assert (2 ^ bits < 2 ^ 64) by (apply Z.pow_lt_mono_r; lia). apply u_id. lia.
Qed.

Lemma s64_id z : - 2 ^ 63 <= z < 2 ^ 63 -> s64 z = z.
Proof. intros H. apply s_id; [lia|exact H]. Qed.

Lemma unsigned_overflow value incr bits owtype :
  1 <= bits <= 63 -> 0 <= value < 2 ^ bits -> in_s 64 incr ->
  overflow_spec (value + incr) 0 (2 ^ bits - 1) (u bits (value + incr)) owtype (checkUnsignedBitfieldOverflow value incr bits owtype).
Proof.
  intros Hb Hv Hi. unfold in_s in Hi. change (2 ^ (64 - 1)) with (2 ^ 63) in Hi.
  assert (2 ^ bits <= 2 ^ 63) as H63 by (apply Z.pow_le_mono_r; lia).
  unfold checkUnsignedBitfieldOverflow. rewrite (proj2 (Z.eqb_neq bits 64)) by lia. rewrite u64_ones by lia.
  rewrite !s64_id by lia. apply overflow_decide; [lia|lia|lia|].
  do 2 f_equal. rewrite low_mask, Z.land_ones by lia. apply mod_mod_pow. lia.
Qed.

Lemma signed_wrap c bits : 1 <= bits <= 64 ->
  s64 (if bits <? 64 then if negb (Z.land (c mod 2 ^ 64) (u64 (Z.shiftl 1 (bits - 1))) =? 0)
                          then Z.lor (c mod 2 ^ 64) (u64 (Z.shiftl (-1) bits))
                          else Z.land (c mod 2 ^ 64) (u64 (Z.lnot (u64 (Z.shiftl (-1) bits))))
       else c mod 2 ^ 64) = s bits c.
Proof.
  intros Hb. destruct (Z.ltb_spec bits 64) as [Hlt|Hge].
  2: { replace bits with 64 by lia. apply s_mod. lia. }
  assert (0 < 2 ^ bits) by (apply Z.pow_pos_nonneg; lia). pose proof (Z.mod_pos_bound c (2 ^ bits) ltac:(lia)) as Hm.
  rewrite pow2_u64, land_bit by lia. rewrite (s_of_mod bits) by lia.
  assert (Z.testbit (c mod 2 ^ 64) (bits - 1) = Z.testbit (c mod 2 ^ bits) (bits - 1)) as ->.
  { by rewrite !Z.mod_pow2_bits_low by lia. }
  destruct (Z.testbit (c mod 2 ^ bits) (bits - 1)) eqn:Et; rewrite testbit_top in Et by (done || lia).
  - rewrite lor_high_mask, mod_mod_pow by (lia || apply Z.mod_pos_bound; lia). apply sign_extend; lia.
  - rewrite low_mask, Z.land_ones, mod_mod_pow by lia. apply s64_id.
    assert (2 ^ (bits - 1) <= 2 ^ 63) by (apply Z.pow_le_mono_r; lia). lia.
Qed.

Lemma signed_overflow value incr bits owtype :
  let hi := 2 ^ (bits - 1) - 1 in
  1 <= bits <= 64 -> in_s 64 value -> in_s 64 incr ->
  (- hi - 1 <= value <= hi) \/ (incr = 0 /\ LLONG_MIN + hi < value) ->
  overflow_spec (value + incr) (- hi - 1) hi (s bits (value + incr)) owtype (checkSignedBitfieldOverflow value incr bits owtype).
Proof.
  intros hi Hb Hv Hi Hr. unfold in_s, LLONG_MIN in *. change (2 ^ (64 - 1)) with (2 ^ 63) in *.
  assert (0 < 2 ^ (bits - 1) <= 2 ^ 63) as H63 by (split; [apply Z.pow_pos_nonneg; lia|apply Z.pow_le_mono_r; lia]).
  unfold checkSignedBitfieldOverflow.
  assert ((if bits =? 64 then LLONG_MAX else Z.shiftl 1 (bits - 1) - 1) = hi) as ->.
  { unfold hi. destruct (Z.eqb_spec bits 64) as [->|]; [done|]. by rewrite Z.shiftl_1_l. }
  assert (bits = 64 -> hi = 2 ^ 63 - 1) as H64 by by intros ->. fold hi in Hr. assert (0 <= hi < 2 ^ 63) as Hhi by (unfold hi; lia).
  assert (bits <> 64 -> hi < 2 ^ 62) as H62.
  { intros Hne. assert (2 ^ (bits - 1) <= 2 ^ 62) by (apply Z.pow_le_mono_r; lia). unfold hi. lia. }
  assert (forall z, s64 (u64 z) = s64 z) as Hsu by (intros; apply s_mod; lia). rewrite Hsu.
  assert (bits <> 64 \/ 0 <= value -> s64 (hi - value) = hi - value) as Hmax by (intros; apply s64_id; lia).
  assert (bits <> 64 /\ - hi - 1 <= value <= hi \/ value < 0 -> s64 (- hi - 1 - value) = - hi - 1 - value) as Hmin by (intros; apply s64_id; lia).
  generalize dependent (s64 (hi - value)). generalize dependent (s64 (- hi - 1 - value)). intros minincr Hmin maxincr Hmax.
  apply overflow_decide; [lia| | |].
  - destruct (Z.eqb_spec bits 64); cbn [negb andb]; lia.
  - destruct (Z.eqb_spec bits 64); cbn [negb andb]; lia.
  - do 2 f_equal. rewrite <- (signed_wrap (value + incr) bits Hb).
    assert (u64 (u64 value + u64 incr) = (value + incr) mod 2 ^ 64) as ->; [|done]. unfold u. by rewrite <- Zplus_mod.
Qed.

(** C40: for an in-range field and any 64-bit increment, checkUnsignedBitfieldOverflow
    and checkSignedBitfieldOverflow return 0 exactly when the result fits, otherwise the
    wrapped value, the saturated bound, or only the failure code, as the overflow type
    asks (wrapping always reports 1); for signed fields the same holds for a value to be
    stored with increment 0, unless it is within 2^(bits-1) of LLONG_MIN. *)
Theorem bitfield_overflow_correct value incr bits owtype :
  in_s 64 incr ->
  (1 <= bits <= 63 -> 0 <= value < 2 ^ bits ->
     overflow_spec (value + incr) 0 (2 ^ bits - 1) (u bits (value + incr)) owtype
       (checkUnsignedBitfieldOverflow value incr bits owtype)) /\
  (1 <= bits <= 64 -> in_s 64 value ->
     in_s bits value \/ incr = 0 /\ LLONG_MIN + 2 ^ (bits - 1) <= value ->
     overflow_spec (value + incr) (- 2 ^ (bits - 1)) (2 ^ (bits - 1) - 1) (s bits (value + incr)) owtype
       (checkSignedBitfieldOverflow value incr bits owtype)).
Proof.
  intros Hi. split; [intros; by apply unsigned_overflow|]. intros Hb Hv Hr.
  replace (- 2 ^ (bits - 1)) with (- (2 ^ (bits - 1) - 1) - 1) by lia. apply signed_overflow; try done.
  unfold in_s in Hr. lia.
Qed.

Lemma bitfield_overflow_correct_witness :
  checkSignedBitfieldOverflow 100 100 8 BFOVERFLOW_SAT = (1, Some 127) /\
  checkSignedBitfieldOverflow (-100) (-100) 8 BFOVERFLOW_WRAP = (1, Some 56).
Proof.
  destruct (bitfield_overflow_correct 100 100 8 BFOVERFLOW_SAT) as [_ H1]; [unfold in_s; lia|].
  destruct H1 as (_ & H1 & _); [lia|unfold in_s; lia|unfold in_s; lia|].
  destruct (bitfield_overflow_correct (-100) (-100) 8 BFOVERFLOW_WRAP) as [_ H2]; [unfold in_s; lia|].
  destruct H2 as (_ & _ & H2); [lia|unfold in_s; lia|unfold in_s; lia|].
  split; [apply H1; reflexivity|apply H2; reflexivity].
Defined.

(** The exception of the theorem is real: max - value wraps around when the value is
    close to LLONG_MIN, and a value far below the range is saturated to its upper bound. *)
Lemma signed_set_saturates_up value bits :
  1 <= bits < 64 -> LLONG_MIN <= value < LLONG_MIN + 2 ^ (bits - 1) ->
  checkSignedBitfieldOverflow value 0 bits BFOVERFLOW_SAT = (1, Some (2 ^ (bits - 1) - 1)).
Proof.
  intros Hb Hv. unfold LLONG_MIN, checkSignedBitfieldOverflow in *. rewrite (proj2 (Z.eqb_neq bits 64)) by lia.
  rewrite Z.shiftl_1_l. assert (2 ^ (bits - 1) <= 2 ^ 62) as H62 by (apply Z.pow_le_mono_r; lia).
  assert (0 < 2 ^ (bits - 1)) by (apply Z.pow_pos_nonneg; lia). unfold u. rewrite s_mod by lia.
  assert (s64 (2 ^ (bits - 1) - 1 - value) = 2 ^ (bits - 1) - 1 - value - 2 ^ 64) as ->.
  { rewrite <- s_mod by lia. replace (2 ^ (bits - 1) - 1 - value) with (2 ^ (bits - 1) - 1 - value - 2 ^ 64 + 1 * 2 ^ 64) at 1 by lia.
    rewrite Z.mod_add, s_mod by lia. apply s64_id. lia. }
  cbn [negb andb]. replace (_ || _ || _) with true by lia. done.
Qed.

(** * Population count *)

Lemma popcount_double x b : 0 <= x -> popcount (2 * x + b2z b) = popcount x + b2z b.
Proof.
  intros Hx. destruct x as [|p|p]; [by destruct b| |lia]. destruct b; [change (2 * Zpos p + b2z true) with (Zpos p~1)|change (2 * Zpos p + b2z false) with (Zpos p~0)];
    cbn [popcount popcount_pos b2z]; lia.
Qed.

Lemma popcount_app k : 0 <= k -> forall b y, 0 <= b < 2 ^ k -> 0 <= y -> popcount (b + 2 ^ k * y) = popcount b + popcount y.
Proof.
  revert k. apply (natlike_ind (fun k => forall b y, 0 <= b < 2 ^ k -> 0 <= y -> popcount (b + 2 ^ k * y) = popcount b + popcount y)).
  - intros b y Hb Hy. change (2 ^ 0) with 1 in *. replace b with 0 by lia. rewrite Z.mul_1_l, Z.add_0_l. done.
  - intros k Hk IH b y Hb Hy. rewrite Z.pow_succ_r in * by done. pose proof (Z.div_mod b 2 ltac:(lia)) as E.
    rewrite Zmod_odd in E. assert ((if Z.odd b then 1 else 0) = b2z (Z.odd b)) as Eb by done. rewrite Eb in E.
    assert (0 <= b2z (Z.odd b) <= 1) by (destruct (Z.odd b); simpl; lia).
    rewrite E at 1. replace (2 * (b / 2) + b2z (Z.odd b) + 2 * 2 ^ k * y) with (2 * (b / 2 + 2 ^ k * y) + b2z (Z.odd b)) by lia.
    assert (0 < 2 ^ k) by (apply Z.pow_pos_nonneg; lia).
    rewrite popcount_double by nia. rewrite IH by (done || lia). rewrite E at 3. rewrite popcount_double by lia. lia.
Qed.

Definition bitcount (bs : list Z) : Z := foldr (fun b n => popcount b + n) 0 bs.

Lemma bitcount_app a b : bitcount (a ++ b) = bitcount a + bitcount b.
Proof. induction a as [|x a IH]; simpl; lia. Qed.

Lemma popcount_le_dec bs : bytes_ok bs -> popcount (le_dec bs) = bitcount bs.
Proof.
  induction 1 as [|b bs Hb Hbs IH]; [done|]. simpl. rewrite <- IH. rewrite <- (popcount_app 8); [done|lia|done|].
  apply le_dec_range. done.
Qed.

Lemma bitsinbyte_spec c : 0 <= c < 256 -> get1 c bitsinbyte = Ok (popcount c) /\ 0 <= popcount c <= 8.
Proof.
  intros Hc. assert (zall 256 (fun c => bool_decide (get1 c bitsinbyte = Ok (popcount c)) && (0 <=? popcount c) && (popcount c <=? 8)) = true)
    as H by (vm_compute; reflexivity).
  apply (zall_spec _ _ c) in H; [|done]. apply andb_true_iff in H as [[H ?]%andb_true_iff ?]. apply bool_decide_eq_true in H. split; [done|lia].
Qed.

Lemma bitcount_range bs : bytes_ok bs -> 0 <= bitcount bs <= 8 * zlength bs.
Proof. induction 1 as [|b bs Hb Hbs IH]; [done|]. cbn [bitcount foldr length]. fold (bitcount bs). pose proof (proj2 (bitsinbyte_spec b Hb)). lia. Qed.

(** ** Parallel counting in a 32-bit word *)

Lemma byte_land b c y m : 0 <= b < 256 -> 0 <= c < 256 ->
  Z.land (b + 256 * y) (c + 256 * m) = Z.land b c + 256 * Z.land y m.
Proof.
  intros Hb Hc. assert (forall x z, 0 <= x < 256 -> x + 256 * z = Z.lor x (Z.shiftl z 8)) as Hs.
  { intros x z Hx. rewrite lor_shl_add by lia. change (2 ^ 8) with 256. lia. }
  assert (0 <= Z.land b c < 256) as Hl.
  { split; [apply Z.land_nonneg; lia|]. rewrite <- (Z.mod_small b 256), <- (Z.mod_small c 256) by done.
    change 256 with (2 ^ 8) at 1 2. rewrite <- !Z.land_ones by lia. rewrite Z.land_assoc.
    rewrite Z.land_ones by lia. apply Z.mod_pos_bound. done. }
  rewrite !Hs by done. apply Z.bits_inj'. intros n Hn. rewrite !Z.land_spec, !Z.lor_spec, !Z.shiftl_spec, !Z.land_spec by done.
  destruct (Z.lt_ge_cases n 8).
  - rewrite !(Z.testbit_neg_r _ (n - 8)) by lia. by rewrite !orb_false_r.
  - rewrite <- (Z.mod_small b (2 ^ 8)), <- (Z.mod_small c (2 ^ 8)) by done. by rewrite !Z.mod_pow2_bits_high by lia.
Qed.

Lemma land_low v c j : 0 <= j -> 0 <= c < 2 ^ j -> Z.land v c = Z.land (v mod 2 ^ j) c.
Proof.
  intros Hj Hc. rewrite <- Z.land_ones by done. rewrite <- Z.land_assoc. f_equal. rewrite Z.land_comm, Z.land_ones by done.
  by rewrite Z.mod_small.
Qed.

(** A right shift by [k] followed by a mask without the top [k] bits of a byte acts on
    each byte separately. *)
Lemma byte_shr_land b y c m k : 0 <= k <= 8 -> 0 <= b < 256 -> 0 <= y -> 0 <= c < 2 ^ (8 - k) ->
  Z.land (Z.shiftr (b + 256 * y) k) (c + 256 * m) = Z.land (Z.shiftr b k) c + 256 * Z.land (Z.shiftr y k) m.
Proof.
  intros Hk Hb Hy Hc. assert (0 < 2 ^ k) by (apply Z.pow_pos_nonneg; lia). assert (0 < 2 ^ (8 - k)) by (apply Z.pow_pos_nonneg; lia).
  assert (256 = 2 ^ k * 2 ^ (8 - k)) as H256 by (rewrite <- Z.pow_add_r by lia; change 256 with (2 ^ 8); f_equal; lia).
  assert (0 <= b / 2 ^ k < 2 ^ (8 - k)) as Hbk.
  { split; [apply Z.div_pos; lia|]. apply Z.div_lt_upper_bound; lia. }
  rewrite !Z.shiftr_div_pow2 by lia.
  pose proof (Z.div_mod y (2 ^ k) ltac:(lia)) as Ey. pose proof (Z.mod_pos_bound y (2 ^ k) ltac:(lia)) as Hym.
  set (yq := y / 2 ^ k) in *. set (yr := y mod 2 ^ k) in *.
  assert ((b + 256 * y) / 2 ^ k = (b / 2 ^ k + 2 ^ (8 - k) * yr) + 256 * yq) as ->.
  { rewrite Ey, H256. replace (b + 2 ^ k * 2 ^ (8 - k) * (2 ^ k * yq + yr)) with (b + (2 ^ (8 - k) * (2 ^ k * yq + yr)) * 2 ^ k) by ring.
    rewrite Z.div_add by lia. ring. }
  rewrite byte_land by nia. f_equal. rewrite (land_low _ c (8 - k)), (land_low (b / 2 ^ k) c (8 - k)) by lia. f_equal.
  rewrite (Z.mul_comm (2 ^ (8 - k)) yr), Z.mod_add by lia. done.
Qed.

Definition mask (n : nat) (c : Z) : Z := le_dec (replicate n c).

Lemma le_land c bs : bytes_ok bs -> 0 <= c < 256 ->
  Z.land (le_dec bs) (mask (length bs) c) = le_dec (map (fun b => Z.land b c) bs).
Proof. intros Hb Hc. unfold mask. induction Hb as [|b bs Hb Hbs IH]; [done|]. simpl. by rewrite byte_land, IH. Qed.

Lemma le_shr_land k c bs : bytes_ok bs -> 0 <= k <= 8 -> 0 <= c < 2 ^ (8 - k) ->
  Z.land (Z.shiftr (le_dec bs) k) (mask (length bs) c) = le_dec (map (fun b => Z.land (Z.shiftr b k) c) bs).
Proof.
  intros Hb Hk Hc. unfold mask. induction Hb as [|b bs Hb Hbs IH]; [simpl; by rewrite Z.shiftr_0_l|]. simpl.
  rewrite byte_shr_land, IH; try done. apply le_dec_range. done.
Qed.

Lemma le_map_add (f g : Z -> Z) bs : le_dec (map f bs) + le_dec (map g bs) = le_dec (map (fun b => f b + g b) bs).
Proof. induction bs as [|b bs IH]; [done|]. simpl. lia. Qed.
Lemma le_map_sub (g : Z -> Z) bs : le_dec bs - le_dec (map g bs) = le_dec (map (fun b => b - g b) bs).
Proof. induction bs as [|b bs IH]; [done|]. simpl. lia. Qed.

(** The three steps on one byte. *)
Definition pairs (b : Z) : Z := b - Z.land (Z.shiftr b 1) 0x55.
Definition nibbles (b : Z) : Z := Z.land (pairs b) 0x33 + Z.land (Z.shiftr (pairs b) 2) 0x33.
Definition nibbles_ok (t : Z) : Prop := 0 <= t mod 16 <= 4 /\ 0 <= t / 16 <= 4.

Lemma swar_byte b : 0 <= b < 256 ->
  0 <= pairs b < 256 /\ 0 <= nibbles b < 256 /\ nibbles_ok (nibbles b) /\
  Z.land (nibbles b + Z.shiftr (nibbles b) 4) 15 = popcount b.
Proof.
  intros Hb. unfold nibbles_ok.
  assert (zall 256 (fun b => (0 <=? pairs b) && (pairs b <? 256) && ((0 <=? nibbles b) && (nibbles b <? 256)) &&
    ((0 <=? nibbles b mod 16) && (nibbles b mod 16 <=? 4) && ((0 <=? nibbles b / 16) && (nibbles b / 16 <=? 4))) &&
    (Z.land (nibbles b + Z.shiftr (nibbles b) 4) 15 =? popcount b)) = true) as H by (vm_compute; reflexivity).
  apply (zall_spec _ _ b) in H; [|done]. lia.
Qed.

Lemma le_map_bytes (f : Z -> Z) bs : bytes_ok bs -> (forall b, 0 <= b < 256 -> 0 <= f b < 256) -> bytes_ok (map f bs).
Proof. intros Hb Hf. induction Hb; constructor; auto. Qed.

Lemma swar_nibbles_spec bs : bytes_ok bs -> length bs = 4%nat -> swar_nibbles (le_dec bs) = le_dec (map nibbles bs).
Proof.
  intros Hb Hl. unfold swar_nibbles.
  change 0x55555555 with (mask 4 0x55). change 0x33333333 with (mask 4 0x33). rewrite <- Hl.
  rewrite le_shr_land, le_map_sub by (done || lia). change (fun b => b - Z.land (Z.shiftr b 1) 0x55) with pairs.
  assert (bytes_ok (map pairs bs)) as Hp by (apply le_map_bytes; [done|]; intros; by apply swar_byte).
  assert (bytes_ok (map nibbles bs)) as Hn by (apply le_map_bytes; [done|]; intros; by apply swar_byte).
  pose proof (le_dec_range _ Hp) as R1. pose proof (le_dec_range _ Hn) as R2. rewrite !length_map, Hl in *.
  rewrite (u_id 32 (le_dec (map pairs bs))) by exact R1.
  replace 4%nat with (length (map pairs bs)) by (by rewrite length_map).
  rewrite le_land, le_shr_land by (done || lia). rewrite le_map_add, !map_map.
  change (fun x => Z.land (pairs x) 51 + Z.land (Z.shiftr (pairs x) 2) 51) with nibbles.
  apply u_id. exact R2.
Qed.

Lemma swar_sum ts : Forall nibbles_ok ts -> Forall (fun t => 0 <= t < 256) ts ->
  0 <= le_dec ts + Z.shiftr (le_dec ts) 4 < 2 ^ (8 * zlength ts) /\
  Z.land (le_dec ts + Z.shiftr (le_dec ts) 4) (mask (length ts) 15) = le_dec (map (fun t => Z.land (t + Z.shiftr t 4) 15) ts).
Proof.
  intros Ht Hb. unfold mask. induction Ht as [|t ts Ht Hts IH]; [done|]. apply Forall_cons_1 in Hb as [Hb Hbs].
  specialize (IH Hbs) as [IHr IH]. simpl le_dec. set (y := le_dec ts) in *.
  assert (0 <= y) as Hy by by apply le_dec_range. unfold nibbles_ok in Ht.
  assert (0 <= y mod 16 <= 4) as Hy16.
  { destruct ts as [|t1 ts1]; [done|]. apply Forall_cons_1 in Hts as [Ht1 _]. unfold nibbles_ok in Ht1. unfold y. simpl.
    replace (t1 + 256 * le_dec ts1) with (t1 + (16 * le_dec ts1) * 16) by lia. rewrite Z.mod_add by lia. lia. }
  rewrite !Z.shiftr_div_pow2 in * by lia. change (2 ^ 4) with 16 in *.
  assert ((t + 256 * y) / 16 = t / 16 + 16 * (y mod 16) + 256 * (y / 16)) as E.
  { replace (t + 256 * y) with (t + (16 * y) * 16) by lia. rewrite Z.div_add by lia. pose proof (Z.div_mod y 16). lia. }
  rewrite E. pose proof (Z.div_mod t 16). pose proof (Z.mod_pos_bound t 16).
  replace (t + 256 * y + (t / 16 + 16 * (y mod 16) + 256 * (y / 16))) with ((t + t / 16 + 16 * (y mod 16)) + 256 * (y + y / 16)) by lia.
  split.
  - cbn [length]. replace (8 * Z.of_nat (S (length ts))) with (8 + 8 * zlength ts) by lia. rewrite Z.pow_add_r by lia. change (2 ^ 8) with 256. lia.
  - rewrite byte_land by lia. rewrite IH. cbn [map le_dec]. f_equal.
    rewrite (land_low (t + t / 16 + 16 * (y mod 16)) 15 4), (land_low (t + t / 16) 15 4) by lia. f_equal. change (2 ^ 4) with 16.
    rewrite (Z.mul_comm 16), Z.mod_add by lia. done.
Qed.

Lemma swar_bytes_spec bs : bytes_ok bs -> length bs = 4%nat ->
  swar_bytes (swar_nibbles (le_dec bs)) = le_dec (map popcount bs).
Proof.
  intros Hb Hl. rewrite swar_nibbles_spec by done. unfold swar_bytes. change 0x0F0F0F0F with (mask 4 15).
  destruct (swar_sum (map nibbles bs)) as [R E].
  - clear Hl. induction Hb; constructor; auto. by apply swar_byte.
  - apply le_map_bytes; [done|]. intros. by apply swar_byte.
  - rewrite length_map, Hl in *. rewrite u_id by exact R. rewrite E, map_map. f_equal. apply map_ext_in. intros b Hin.
    apply swar_byte. apply (proj1 (list.Forall_forall _ _) Hb). by apply list_elem_of_In.
Qed.

Lemma horizontal_sum x0 x1 x2 x3 : 0 <= x0 <= 56 -> 0 <= x1 <= 56 -> 0 <= x2 <= 56 -> 0 <= x3 <= 56 ->
  Z.shiftr (u32 (u32 (x0 + 256 * (x1 + 256 * (x2 + 256 * x3))) * 0x01010101)) 24 = x0 + x1 + x2 + x3.
Proof.
  intros. rewrite (u_id 32 (x0 + _)) by lia. rewrite Z.shiftr_div_pow2 by lia. unfold u.
  replace ((x0 + 256 * (x1 + 256 * (x2 + 256 * x3))) * 0x01010101) with
    ((x0 + x1 + x2 + x3) * 2 ^ 24 + ((x0 + x1 + x2) * 2 ^ 16 + (x0 + x1) * 2 ^ 8 + x0) +
     (x1 + x2 + x3 + 256 * (x2 + x3) + 65536 * x3) * 2 ^ 32) by lia.
  rewrite Z.mod_add, Z.mod_small by lia. rewrite Z.add_comm, Z.div_add by lia. rewrite Z.div_small by lia. lia.
Qed.

(** Four bytes in memory. *)
Lemma load4 p s : bytes_ok s -> 0 <= p -> p + 4 <= zlength s ->
  exists b0 b1 b2 b3, load p 4 s = Ok [b0; b1; b2; b3] /\ bytes_ok [b0; b1; b2; b3] /\
    take 4 (drop (Z.to_nat p) s) = [b0; b1; b2; b3].
Proof.
  intros Hs Hp Hl. destruct (split_at s p 4) as (pre & m & post & -> & -> & Hm); [lia..|].
  rewrite load_app by done. apply bytes_ok_app in Hs as [_ [Hm' _]%bytes_ok_app].
  rewrite Nat2Z.id, drop_app_length. do 5 (destruct m as [|? m]; [simpl in Hm; try lia|]); [|simpl in Hm; lia]. by do 4 eexists.
Qed.

Definition bc (s : list Z) (p n : Z) : Z := bitcount (take (Z.to_nat n) (drop (Z.to_nat p) s)).

Lemma bc_split s p a b : 0 <= p -> 0 <= a -> 0 <= b -> bc s p (a + b) = bc s p a + bc s (p + a) b.
Proof.
  intros. unfold bc. rewrite <- bitcount_app. f_equal.
  replace (Z.to_nat (a + b)) with (Z.to_nat a + Z.to_nat b)%nat by lia. rewrite <- take_take_drop. f_equal.
  rewrite drop_drop. do 2 f_equal. lia.
Qed.
Lemma bc_range s p n : bytes_ok s -> 0 <= n -> 0 <= bc s p n <= 8 * n.
Proof.
  intros Hs Hn. unfold bc. pose proof (bitcount_range (take (Z.to_nat n) (drop (Z.to_nat p) s)) ltac:(by apply Forall_take, Forall_drop)) as H.
  rewrite length_take in H. lia.
Qed.
Lemma bc_byte s p : bytes_ok s -> 0 <= p < zlength s -> exists c, get1 p s = Ok c /\ get1 c bitsinbyte = Ok (bc s p 1) /\ 0 <= bc s p 1 <= 8.
Proof.
  intros Hs Hp. destruct (get1_in s p Hp) as [c Hg]. exists c. split; [done|]. apply get1_Ok in Hg as [_ Hg].
  assert (0 <= c < 256) as Hc by by eapply (Forall_lookup_1 _ _ _ _ Hs).
  unfold bc. rewrite (drop_S _ _ _ Hg). simpl. rewrite Z.add_0_r. by apply bitsinbyte_spec.
Qed.

(** [bits] holds the count up to [p]; what is left fits a long long. *)
Lemma rest_correct s n : forall p bits, bytes_ok s -> 0 <= p -> p + Z.of_nat n <= zlength s -> 0 <= bits -> bits + 8 * Z.of_nat n < 2 ^ 63 ->
  popcount_rest n s p bits = Ok (bits + bc s p (Z.of_nat n)).
Proof.
  induction n as [|n IH]; intros p bits Hs Hp Hl Hb Hm; cbn [popcount_rest]; [f_equal; unfold bc; simpl; lia|].
  destruct (bc_byte s p Hs ltac:(lia)) as (c & -> & -> & Hr). rewrite s64_id by lia. rewrite IH by (done || lia).
  replace (Z.of_nat (S n)) with (1 + Z.of_nat n) by lia. rewrite bc_split by lia. f_equal. lia.
Qed.

Lemma swar_correct s : bytes_ok s -> forall fuel p count bits,
  0 <= p -> 0 <= count -> p + count <= zlength s -> 0 <= bits -> bits + 8 * count < 2 ^ 63 -> (Z.to_nat count < fuel)%nat ->
  exists d, popcount_swar fuel s p count bits = Ok (p + d, count - d, bits + bc s p d) /\ 0 <= d <= count.
Proof.
  intros Hs. induction fuel as [|fuel IH]; intros p count bits Hp Hc Hl Hb Hm Hf; [lia|]. cbn [popcount_swar].
  rewrite Z.geb_leb. destruct (Z.leb_spec 28 count) as [H28|H28].
  2: { exists 0. split; [|lia]. unfold bc. simpl. do 2 f_equal; [f_equal|]; lia. }
  destruct (load4 p s Hs ltac:(lia) ltac:(lia)) as (a0 & a1 & a2 & a3 & -> & Ba & Ea).
  destruct (load4 (p + 4) s Hs ltac:(lia) ltac:(lia)) as (b0 & b1 & b2 & b3 & -> & Bb & Eb).
  destruct (load4 (p + 8) s Hs ltac:(lia) ltac:(lia)) as (c0 & c1 & c2 & c3 & -> & Bc & Ec).
  destruct (load4 (p + 12) s Hs ltac:(lia) ltac:(lia)) as (d0 & d1 & d2 & d3 & -> & Bd & Ed).
  destruct (load4 (p + 16) s Hs ltac:(lia) ltac:(lia)) as (e0 & e1 & e2 & e3 & -> & Be & Ee).
  destruct (load4 (p + 20) s Hs ltac:(lia) ltac:(lia)) as (f0 & f1 & f2 & f3 & -> & Bf & Ef).
  destruct (load4 (p + 24) s Hs ltac:(lia) ltac:(lia)) as (g0 & g1 & g2 & g3 & -> & Bg & Eg).
  cbv zeta. rewrite !swar_bytes_spec by done.
  assert (bc s p 28 = bitcount ([a0; a1; a2; a3] ++ [b0; b1; b2; b3] ++ [c0; c1; c2; c3] ++ [d0; d1; d2; d3] ++ [e0; e1; e2; e3] ++
            [f0; f1; f2; f3] ++ [g0; g1; g2; g3])) as E28.
  { change 28 with (4 + (4 + (4 + (4 + (4 + (4 + 4)))))). rewrite !bc_split by lia. rewrite !bitcount_app. unfold bc.
    replace (p + 4 + 4) with (p + 8) by lia. replace (p + 8 + 4) with (p + 12) by lia. replace (p + 12 + 4) with (p + 16) by lia.
    replace (p + 16 + 4) with (p + 20) by lia. replace (p + 20 + 4) with (p + 24) by lia. change (Z.to_nat 4) with 4%nat. by rewrite Ea, Eb, Ec, Ed, Ee, Ef, Eg. }
  assert (forall x0 x1 x2 x3, bytes_ok [x0; x1; x2; x3] -> 0 <= popcount x0 <= 8 /\ 0 <= popcount x1 <= 8 /\ 0 <= popcount x2 <= 8 /\ 0 <= popcount x3 <= 8) as Hpc.
  { intros x0 x1 x2 x3 Hx. repeat (apply Forall_cons_1 in Hx as [? Hx]). split_and!; by apply bitsinbyte_spec. }
  apply Hpc in Ba, Bb, Bc, Bd, Be, Bf, Bg. clear Hpc Ea Eb Ec Ed Ee Ef Eg. cbn [map le_dec].
  match goal with |- context [Z.shiftr (u32 (u32 ?x * _)) 24] => assert (Z.shiftr (u32 (u32 x * 0x01010101)) 24 = bc s p 28) as -> end.
  { rewrite E28. cbn [app bitcount foldr].
    etransitivity; [|etransitivity; [apply (horizontal_sum
      (popcount a0 + popcount b0 + popcount c0 + popcount d0 + popcount e0 + popcount f0 + popcount g0)
      (popcount a1 + popcount b1 + popcount c1 + popcount d1 + popcount e1 + popcount f1 + popcount g1)
      (popcount a2 + popcount b2 + popcount c2 + popcount d2 + popcount e2 + popcount f2 + popcount g2)
      (popcount a3 + popcount b3 + popcount c3 + popcount d3 + popcount e3 + popcount f3 + popcount g3)); lia|lia]].
    do 4 f_equal. lia. }
  pose proof (bc_range s p 28 Hs ltac:(lia)). rewrite s64_id by lia.
  destruct (IH (p + 28) (count - 28) (bits + bc s p 28)) as (d & -> & Hd); [lia..|].
  exists (28 + d). split; [|lia]. rewrite bc_split by lia. do 2 f_equal; [f_equal|]; lia.
Qed.

Lemma load8 p s : bytes_ok s -> 0 <= p -> p + 8 <= zlength s ->
  exists w, load p 8 s = Ok w /\ popcount (le_dec w) = bc s p 8 /\ 0 <= bc s p 8 <= 64.
Proof.
  intros Hs Hp Hl. destruct (split_at s p 8) as (pre & m & post & E & Hpre & Hm); [lia..|]. exists m.
  assert (bc s p 8 = bitcount m) as Hb.
  { unfold bc. rewrite E, Hpre, Hm, !Nat2Z.id, drop_app_length, take_app_length. done. }
  pose proof (bc_range s p 8 Hs ltac:(lia)). rewrite Hb in *. subst s. split_and!; [by apply load_app| |lia..].
  apply popcount_le_dec. by apply bytes_ok_app in Hs as [_ [? _]%bytes_ok_app].
Qed.

Lemma words_correct s : bytes_ok s -> forall fuel p count c0 c1 c2 c3,
  0 <= p -> 0 <= count -> p + count <= zlength s -> 0 <= c0 -> 0 <= c1 -> 0 <= c2 -> 0 <= c3 ->
  c0 + c1 + c2 + c3 + 8 * count < 2 ^ 63 -> (Z.to_nat count < fuel)%nat ->
  exists d e0 e1 e2 e3, popcount_words fuel s p count (c0, c1, c2, c3) = Ok (p + d, count - d, (e0, e1, e2, e3)) /\
    0 <= d <= count /\ e0 + e1 + e2 + e3 = c0 + c1 + c2 + c3 + bc s p d.
Proof.
  intros Hs. induction fuel as [|fuel IH]; intros p count c0 c1 c2 c3 Hp Hc Hl H0 H1 H2 H3 Hm Hf; [lia|]. cbn [popcount_words].
  rewrite Z.geb_leb. destruct (Z.leb_spec 32 count) as [H32|H32].
  2: { exists 0, c0, c1, c2, c3. split_and!; [|lia|lia|]; [do 3 f_equal; lia|]. unfold bc. simpl. lia. }
  destruct (load8 p s Hs ltac:(lia) ltac:(lia)) as (w0 & -> & -> & R0).
  destruct (load8 (p + 8) s Hs ltac:(lia) ltac:(lia)) as (w1 & -> & -> & R1).
  destruct (load8 (p + 16) s Hs ltac:(lia) ltac:(lia)) as (w2 & -> & -> & R2).
  destruct (load8 (p + 24) s Hs ltac:(lia) ltac:(lia)) as (w3 & -> & -> & R3).
  rewrite !u_id by lia.
  destruct (IH (p + 32) (count - 32) (c0 + bc s p 8) (c1 + bc s (p + 8) 8) (c2 + bc s (p + 16) 8) (c3 + bc s (p + 24) 8))
    as (d & e0 & e1 & e2 & e3 & -> & Hd & He); [lia..|].
  assert (bc s p 32 = bc s p 8 + bc s (p + 8) 8 + bc s (p + 16) 8 + bc s (p + 24) 8) as E32.
  { change 32 with (8 + (8 + (8 + 8))). rewrite !bc_split by lia. replace (p + 8 + 8) with (p + 16) by lia.
    replace (p + 16 + 8) with (p + 24) by lia. lia. }
  exists (32 + d), e0, e1, e2, e3. split_and!; [|lia|lia|].
  - do 3 f_equal; lia.
  - rewrite bc_split by lia. lia.
Qed.

(** The number of bytes to the next multiple of [2 ^ k] drops by one at each step. *)
Lemma align_step x k : 0 <= k -> x mod 2 ^ k <> 0 -> (- (x + 1)) mod 2 ^ k = (- x) mod 2 ^ k - 1.
Proof.
  intros Hk Hx. assert (0 < 2 ^ k) by (apply Z.pow_pos_nonneg; lia). pose proof (Z.mod_pos_bound x (2 ^ k) ltac:(lia)).
  rewrite (Z.mod_opp_l_nz x) by lia. pose proof (Z.div_mod x (2 ^ k) ltac:(lia)) as E. symmetry.
  apply (Z.mod_unique_pos _ _ (- (x / 2 ^ k) - 1)); lia.
Qed.

Lemma align_correct s addr k : bytes_ok s -> 0 <= k -> forall fuel p count bits,
  0 <= p -> 0 <= count -> p + count <= zlength s -> 0 <= bits -> bits + 8 * count < 2 ^ 63 ->
  (- (addr + p)) mod 2 ^ k < Z.of_nat fuel ->
  exists d, popcount_align fuel addr (Z.ones k) s p count bits = Ok (p + d, count - d, bits + bc s p d) /\ 0 <= d <= count.
Proof.
  intros Hs Hk. assert (0 < 2 ^ k) as Hpk by (apply Z.pow_pos_nonneg; lia).
  induction fuel as [|fuel IH]; intros p count bits Hp Hc Hl Hb Hm Hf.
  { pose proof (Z.mod_pos_bound (- (addr + p)) (2 ^ k) ltac:(lia)). lia. }
  cbn [popcount_align]. rewrite Z.land_ones by lia.
  destruct (Z.eqb_spec ((addr + p) mod 2 ^ k) 0) as [Ha|Ha]; cbn [negb andb].
  { exists 0. split; [|lia]. unfold bc. simpl. do 2 f_equal; [f_equal|]; lia. }
  destruct (Z.eqb_spec count 0) as [H0|H0]; cbn [negb andb].
  { exists 0. split; [|lia]. unfold bc. simpl. do 2 f_equal; [f_equal|]; lia. }
  destruct (bc_byte s p Hs ltac:(lia)) as (c & -> & -> & Hr). rewrite s64_id by lia.
  destruct (IH (p + 1) (count - 1) (bits + bc s p 1)) as (d & -> & Hd); [lia..| |].
  { rewrite Z.add_assoc, align_step by done. lia. }
  exists (1 + d). split; [|lia]. rewrite bc_split by lia. do 2 f_equal; [f_equal|]; lia.
Qed.

(** C32: redisPopcount returns the number of one bits of the first [count] bytes, for
    every address, with the POPCNT instruction and with the portable word-parallel
    code. *)
Theorem redisPopcount_correct use_popcnt addr s count :
  bytes_ok s -> 0 <= count <= zlength s -> 8 * count < 2 ^ 63 ->
  redisPopcount use_popcnt addr s count = Ok (bitcount (take (Z.to_nat count) s)).
Proof.
  intros Hs Hc Hm. change (bitcount (take (Z.to_nat count) s)) with (bc s 0 count). unfold redisPopcount.
  assert ((if use_popcnt then 7 else 3) = Z.ones (if use_popcnt then 3 else 2)) as -> by by destruct use_popcnt.
  destruct (align_correct s addr (if use_popcnt then 3 else 2) Hs ltac:(by destruct use_popcnt) 9 0 count 0)
    as (d & -> & Hd); [lia..| |].
  { destruct use_popcnt; [pose proof (Z.mod_pos_bound (- (addr + 0)) (2 ^ 3))|pose proof (Z.mod_pos_bound (- (addr + 0)) (2 ^ 2))]; lia. }
  pose proof (bc_range s 0 d Hs ltac:(lia)). rewrite !Z.add_0_l. destruct use_popcnt.
  - destruct (words_correct s Hs (S (Z.to_nat (count - d))) d (count - d) 0 0 0 0) as (e & e0 & e1 & e2 & e3 & -> & He & Hs'); [lia..|].
    pose proof (bc_range s d e Hs ltac:(lia)). rewrite (u_id 64 (e0 + e1 + e2 + e3)), s64_id by lia.
    rewrite rest_correct by (done || lia). rewrite Z2Nat.id by lia. f_equal.
    replace count with (d + (e + (count - d - e))) at 2 by lia. rewrite !bc_split by lia. rewrite !Z.add_0_l. lia.
  - destruct (swar_correct s Hs (S (Z.to_nat (count - d))) d (count - d) (bc s 0 d)) as (e & -> & He); [lia..|].
    pose proof (bc_range s d e Hs ltac:(lia)).
    rewrite rest_correct by (done || lia). rewrite Z2Nat.id by lia. f_equal.
    replace count with (d + (e + (count - d - e))) at 2 by lia. rewrite !bc_split by lia. rewrite !Z.add_0_l. lia.
Qed.

Lemma redisPopcount_correct_witness : redisPopcount false 1 (replicate 40 170) 40 = Ok 160.
Proof.
  rewrite (redisPopcount_correct false 1 (replicate 40 170) 40); [reflexivity| |vm_compute; split; discriminate|lia].
  apply Forall_replicate. lia.
Defined.

(** * Bit search *)

(** The position of the first [b] in a list of bits. *)
Fixpoint index_of (b : bool) (l : list bool) : option nat :=
  match l with [] => None | x :: l => if eqb x b then Some 0%nat else S <$> index_of b l end.

Lemma index_of_app b l1 l2 : index_of b (l1 ++ l2) =
  match index_of b l1 with Some i => Some i | None => (fun i => length l1 + i)%nat <$> index_of b l2 end.
Proof.
  induction l1 as [|x l1 IH]; simpl; [by destruct (index_of b l2)|]. destruct (eqb x b); [done|]. rewrite IH.
  destruct (index_of b l1); [done|]. by destruct (index_of b l2).
Qed.
Lemma index_of_replicate b n : index_of b (replicate n (negb b)) = None.
Proof. induction n as [|n IH]; [done|]. simpl. rewrite IH. by destruct b. Qed.
Lemma index_of_none b l : index_of b l = None -> l = replicate (length l) (negb b).
Proof.
  induction l as [|x l IH]; [done|]. simpl. destruct (eqb x b) eqn:E; [done|]. intros H. f_equal.
  - by destruct x, b.
  - apply IH. by destruct (index_of b l).
Qed.
Lemma index_of_bound b l i : index_of b l = Some i -> (i < length l)%nat.
Proof.
  revert i. induction l as [|x l IH]; intros i; [done|]. simpl. destruct (eqb x b); [intros [= <-]; lia|].
  destruct (index_of b l); [|done]. intros [= <-]. specialize (IH _ eq_refl). lia.
Qed.

(** The byte whose bits are all the opposite of [bit]. *)
Definition skip_byte (bit : bool) : Z := if bit then 0 else 255.
Lemma bits_of_skip bit n : bits_of (replicate n (skip_byte bit)) = replicate (8 * n) (negb bit).
Proof.
  induction n as [|n IH]; [done|]. replace (8 * S n)%nat with (8 + 8 * n)%nat by lia. rewrite replicate_add.
  cbn [replicate]. unfold bits_of in *. cbn [map concat]. rewrite IH. by destruct bit.
Qed.

(** The [n] low bits of a word, the most significant first. *)
Fixpoint down (n : nat) (word : Z) : list bool :=
  match n with O => [] | S m => Z.testbit word (Z.of_nat m) :: down m word end.

Lemma down_ext n w1 w2 : (forall i, 0 <= i < Z.of_nat n -> Z.testbit w1 i = Z.testbit w2 i) -> down n w1 = down n w2.
Proof. induction n as [|n IH]; intros H; [done|]. simpl. f_equal; [apply H; lia|]. apply IH. intros i Hi. apply H. lia. Qed.

Lemma down_unbits l : down (length l) (unbits l) = l.
Proof.
  induction l as [|b l IH]; [done|]. cbn [length down]. unfold unbits. cbn [foldl]. rewrite unbits_acc.
  pose proof (unbits_range l) as Hr. replace (2 * 0 + b2z b) with (b2z b) by lia.
  replace (b2z b * 2 ^ zlength l + unbits l) with (Z.lor (unbits l) (Z.shiftl (b2z b) (zlength l))) by (rewrite lor_shl_add by lia; lia).
  assert (forall i, zlength l <= i -> Z.testbit (unbits l) i = false) as Hhi.
  { intros i Hi. rewrite <- (Z.mod_small (unbits l) (2 ^ zlength l)) by done. apply Z.mod_pow2_bits_high. lia. }
  f_equal.
  - rewrite Z.lor_spec, Z.shiftl_spec, Hhi, Z.sub_diag by lia. by destruct b.
  - etransitivity; [|exact IH]. apply down_ext. intros i Hi. rewrite Z.lor_spec, Z.shiftl_spec_low by lia. apply orb_false_r.
Qed.

Lemma scan_correct word bit n : forall fuel pos i, (n < fuel)%nat -> 0 <= pos -> pos + Z.of_nat n < 2 ^ 63 ->
  index_of bit (down n word) = Some i ->
  bitpos_scan fuel (Z.shiftr (2 ^ Z.of_nat n) 1) word bit pos = Ok (pos + Z.of_nat i).
Proof.
  induction n as [|n IH]; intros fuel pos i Hf Hp Hm Hi; [done|]. destruct fuel as [|fuel]; [lia|]. cbn [bitpos_scan].
  assert (0 < 2 ^ Z.of_nat n) by (apply Z.pow_pos_nonneg; lia).
  assert (Z.shiftr (2 ^ Z.of_nat (S n)) 1 = 2 ^ Z.of_nat n) as ->.
  { rewrite Z.shiftr_div_pow2, Nat2Z.inj_succ, Z.pow_succ_r by lia. change (2 ^ 1) with 2. rewrite Z.mul_comm. by apply Z.div_mul. }
  rewrite (proj2 (Z.eqb_neq _ 0)) by lia. rewrite Z.land_comm, land_bit by lia. simpl in Hi.
  destruct (eqb (Z.testbit word (Z.of_nat n)) bit); [injection Hi as <-; f_equal; lia|].
  destruct (index_of bit (down n word)) as [j|] eqn:E; [|done]. injection Hi as <-. rewrite s64_id by lia.
  rewrite (IH fuel (pos + 1) j) by (done || lia). f_equal. lia.
Qed.

(** The word built from the bytes at [c], zero padded. *)
Lemma unbits_byte b : 0 <= b < 256 -> unbits (byte_bits b) = b.
Proof.
  intros Hb. assert (zall 256 (fun b => unbits (byte_bits b) =? b) = true) as H by (vm_compute; reflexivity).
  apply (zall_spec _ _ b) in H; [lia|done].
Qed.
Lemma unbits_app l1 l2 : unbits (l1 ++ l2) = unbits l1 * 2 ^ zlength l2 + unbits l2.
Proof. unfold unbits at 1. rewrite foldl_app. apply unbits_acc. Qed.

Lemma bitpos_load_correct s j : forall c rem post word done_,
  bytes_ok s -> s = c ++ rem ++ post -> (length done_ + j <= 8)%nat -> bytes_ok done_ -> word = unbits (bits_of done_) ->
  bitpos_load j s (zlength c) (zlength rem) word = Ok (unbits (bits_of (done_ ++ take j (rem ++ replicate j 0)))).
Proof.
  induction j as [|j IH]; intros c rem post word dn Hs -> Hl Hd ->; cbn [bitpos_load].
  { by rewrite app_nil_r. }
  pose proof (unbits_range (bits_of dn)) as Hr. rewrite length_bits_of in Hr.
  assert (unbits (bits_of dn) * 2 ^ 8 < 2 ^ 64) as Hlt.
  { assert (2 ^ Z.of_nat (8 * length dn) <= 2 ^ 56) by (apply Z.pow_le_mono_r; lia). lia. }
  rewrite (Z.shiftl_mul_pow2 _ 8), u_id by lia. destruct rem as [|b rem].
  - cbn [length]. change (Z.of_nat 0 =? 0) with true. cbn [negb].
    rewrite (IH c [] post _ (dn ++ [0])); [|done|done|len|apply Forall_app; split; [done|constructor; [lia|constructor]]|].
    + by rewrite <- app_assoc.
    + by rewrite bits_of_app, unbits_app, Z.add_0_r.
  - rewrite (proj2 (Z.eqb_neq _ 0)) by (cbn [length]; lia). cbn [negb]. rewrite <- app_comm_cons, get1_app by done.
    apply bytes_ok_app in Hs as Hs'. destruct Hs' as [_ Hbr]. apply Forall_cons_1 in Hbr as [Hb _].
    replace (zlength c + 1) with (zlength (c ++ [b])) by len. replace (zlength (b :: rem) - 1) with (zlength rem) by (cbn [length]; lia).
    rewrite (IH (c ++ [b]) rem post _ (dn ++ [b])); [|done|by rewrite <- app_assoc|len|apply Forall_app; split; [done|by constructor]|].
    + rewrite <- app_assoc. do 4 f_equal. cbn [take app]. f_equal. cbn [replicate].
      rewrite <- (take_app_le (rem ++ replicate j 0) [0]) by len. rewrite <- app_assoc. do 2 f_equal.
      change [0] with (replicate 1 0). rewrite <- replicate_add. by replace (j + 1)%nat with (S j) by lia.
    + rewrite bits_of_app, unbits_app. unfold bits_of at 3 4. cbn [map concat]. rewrite app_nil_r, unbits_byte by done.
      change (zlength (byte_bits b)) with 8. replace (unbits (bits_of dn) * 2 ^ 8) with (Z.shiftl (unbits (bits_of dn)) 8) by (rewrite Z.shiftl_mul_pow2; lia).
      rewrite Z.lor_comm, lor_shl_add by lia. rewrite Z.shiftl_mul_pow2 by lia. lia.
Qed.

Lemma no_index_skip bit bs : bytes_ok bs -> index_of bit (bits_of bs) = None -> bs = replicate (length bs) (skip_byte bit).
Proof.
  induction 1 as [|b bs Hb Hbs IH]; [done|]. unfold bits_of. cbn [map concat]. fold (bits_of bs). rewrite index_of_app.
  destruct (index_of bit (byte_bits b)) eqn:E; [done|]. intros H. cbn [length replicate]. f_equal.
  - rewrite <- (unbits_byte b Hb). apply index_of_none in E. rewrite E. by destruct bit.
  - apply IH. by destruct (index_of bit (bits_of bs)).
Qed.

Lemma bitpos_align_correct bit addr : forall fuel pre rem post pos,
  0 <= pos -> pos + 8 * zlength rem < 2 ^ 63 -> (- (addr + zlength pre)) mod 2 ^ 3 < Z.of_nat fuel ->
  exists d rem' found, rem = replicate d (skip_byte bit) ++ rem' /\
    bitpos_align fuel addr (pre ++ rem ++ post) (skip_byte bit) (zlength pre) (zlength rem) pos =
      Ok (found, zlength pre + Z.of_nat d, zlength rem', pos + 8 * Z.of_nat d) /\
    (found = true -> exists b r, rem' = b :: r /\ b <> skip_byte bit).
Proof.
  induction fuel as [|fuel IH]; intros pre rem post pos Hp Hm Hf.
  { pose proof (Z.mod_pos_bound (- (addr + zlength pre)) (2 ^ 3) ltac:(lia)). lia. }
  cbn [bitpos_align]. change (sizeof_long - 1) with (Z.ones 3). rewrite Z.land_ones by lia.
  assert (zlength pre + Z.of_nat 0 = zlength pre /\ pos + 8 * Z.of_nat 0 = pos) as [E1 E2] by lia.
  destruct (Z.eqb_spec ((addr + zlength pre) mod 2 ^ 3) 0) as [Ha|Ha]; cbn [negb andb].
  { exists 0%nat, rem, false. by rewrite E1, E2. }
  destruct rem as [|b rem].
  { exists 0%nat, [], false. by rewrite E1, E2. }
  rewrite (proj2 (Z.eqb_neq _ 0)) by (cbn [length]; lia). cbn [negb]. rewrite <- app_comm_cons, get1_app by done.
  destruct (Z.eqb_spec b (skip_byte bit)) as [->|Hne]; cbn [negb].
  2: { exists 0%nat, (b :: rem), true. rewrite E1, E2. split_and!; [done..|]. intros _. by exists b, rem. }
  cbn [length] in Hm. rewrite s64_id by lia.
  destruct (IH (pre ++ [skip_byte bit]) rem post (pos + 8)) as (d & rem' & found & -> & H2 & H3); [lia..| |].
  { rewrite length_app, Nat2Z.inj_add, Z.add_assoc. cbn [length]. rewrite align_step by done. lia. }
  exists (S d), rem', found. split_and!; [done| |done].
  rewrite <- app_assoc in H2. cbn [app] in H2. rewrite length_app in H2. cbn [length] in *.
  replace (zlength pre + 1) with (Z.of_nat (length pre + 1)) by lia.
  replace (Z.of_nat (S (length (replicate d (skip_byte bit) ++ rem'))) - 1) with (zlength (replicate d (skip_byte bit) ++ rem')) by lia.
  rewrite H2. f_equal. f_equal; [|lia]. f_equal. f_equal. lia.
Qed.

Definition skip_word (bit : bool) : Z := if bit then 0 else ULLONG_MAX.
Lemma skip_word_spec bit w : bytes_ok w -> length w = 8%nat -> le_dec w = skip_word bit <-> w = replicate 8 (skip_byte bit).
Proof.
  intros Hw Hl. split; [|intros ->; by destruct bit]. intros E. rewrite <- (le_enc_dec w Hw), Hl, E. by destruct bit.
Qed.

Lemma bitpos_words_correct bit : forall fuel pre rem post pos,
  bytes_ok rem -> 0 <= pos -> pos + 8 * zlength rem < 2 ^ 63 -> (length rem < fuel)%nat ->
  exists d rem', rem = replicate d (skip_byte bit) ++ rem' /\
    bitpos_words fuel (pre ++ rem ++ post) (skip_word bit) (zlength pre) (zlength rem) pos =
      Ok (zlength pre + Z.of_nat d, zlength rem', pos + 8 * Z.of_nat d) /\
    ((length rem' < 8)%nat \/ take 8 rem' <> replicate 8 (skip_byte bit)).
Proof.
  induction fuel as [|fuel IH]; intros pre rem post pos Hb Hp Hm Hf; [lia|]. cbn [bitpos_words]. unfold sizeof_long in *.
  rewrite Z.geb_leb. destruct (Z.leb_spec 8 (zlength rem)) as [H8|H8].
  2: { exists 0%nat, rem. split_and!; [done| |left; lia]. do 2 f_equal; [f_equal|]; lia. }
  rewrite <- (take_drop 8 rem), <- app_assoc. rewrite (load_app pre (take 8 rem)) by (done || len).
  assert (length (take 8 rem) = 8%nat) as Hl8 by len.
  assert (bytes_ok (take 8 rem) /\ bytes_ok (drop 8 rem)) as [Hb1 Hb2] by (apply bytes_ok_app; by rewrite take_drop).
  destruct (Z.eqb_spec (le_dec (take 8 rem)) (skip_word bit)) as [E|E]; cbn [negb].
  - apply skip_word_spec in E; [|done..]. rewrite s64_id by lia.
    destruct (IH (pre ++ take 8 rem) (drop 8 rem) post (pos + 8 * 8)) as (d & rem' & E2 & H2 & H3); [done|lia|len|len|].
    exists (8 + d)%nat, rem'. split_and!; [by rewrite replicate_add, <- app_assoc, <- E2, <- E, take_drop| |done].
    rewrite length_app in H2. rewrite <- app_assoc in H2. replace (zlength pre + 8) with (Z.of_nat (length pre + length (take 8 rem))) by lia.
    replace (zlength (take 8 rem ++ drop 8 rem) - 8) with (zlength (drop 8 rem)) by len.
    change (8 * 8) with 64 in *. rewrite H2. do 2 f_equal; [f_equal|]; lia.
  - exists 0%nat, rem. rewrite take_drop. split_and!; [done| |].
    + do 2 f_equal; [f_equal|]; lia.
    + right. intros Hs. by apply E, skip_word_spec.
Qed.

(** What a search returns for a list of bits starting at position [pos]. *)
Definition bitpos_result (bit : bool) (pos : Z) (l : list bool) : Z :=
  match index_of bit l with
  | Some i => pos + Z.of_nat i
  | None => if bit then -1 else pos + zlength l
  end.

Lemma one_top : u64 (Z.lnot (Z.shiftr ULLONG_MAX 1)) = Z.shiftr (2 ^ Z.of_nat 64) 1.
Proof. reflexivity. Qed.

(** The last phase: at most eight bytes are left, or the first eight are not all skipped. *)
Lemma bitpos_tail bit pre rem post pos :
  bytes_ok rem -> 0 <= pos -> pos + 64 < 2 ^ 63 -> bytes_ok (pre ++ rem ++ post) ->
  (length rem < 8)%nat \/ take 8 rem <> replicate 8 (skip_byte bit) ->
  (let! word := bitpos_load 8 (pre ++ rem ++ post) (zlength pre) (zlength rem) 0 in
   if bit && (word =? 0) then Ok (-1)
   else bitpos_scan 65 (u64 (Z.lnot (Z.shiftr ULLONG_MAX 1))) word bit pos) = Ok (bitpos_result bit pos (bits_of rem)).
Proof.
  intros Hb Hp Hm Hs Hq. rewrite (bitpos_load_correct _ 8 pre rem post 0 []); [|done|done|simpl; lia|constructor|done]. cbn [app].
  set (W := take 8 (rem ++ replicate 8 0)). assert (length W = 8%nat) as HW by (unfold W; len).
  assert (down 64 (unbits (bits_of W)) = bits_of W) as Hdown.
  { replace 64%nat with (length (bits_of W)) by (rewrite length_bits_of; lia). apply down_unbits. }
  assert (bytes_ok W) as HbW by (apply Forall_take, Forall_app; split; [done|apply Forall_replicate; lia]).
  assert (forall i, index_of bit (bits_of W) = Some i -> i = match index_of bit (bits_of rem) with Some j => j | None => length (bits_of rem) end ->
    (bit = true -> index_of bit (bits_of rem) <> None) ->
    (if bit && (unbits (bits_of W) =? 0) then Ok (-1)
     else bitpos_scan 65 (u64 (Z.lnot (Z.shiftr ULLONG_MAX 1))) (unbits (bits_of W)) bit pos) = Ok (bitpos_result bit pos (bits_of rem))) as Hmain.
  { intros i Hi Hij Hnn. assert (bit && (unbits (bits_of W) =? 0) = false) as ->.
    { destruct bit; [|done]. cbn [andb]. apply Z.eqb_neq. intros E. rewrite <- Hdown, E in Hi. done. }
    rewrite one_top. rewrite (scan_correct _ bit 64 65 pos i); [|lia|lia|lia|by rewrite Hdown].
    unfold bitpos_result. destruct (index_of bit (bits_of rem)) as [j|]; subst; [done|]. destruct bit; [by destruct Hnn|done]. }
  destruct (Nat.lt_ge_cases (length rem) 8) as [Hlt|Hge].
  - assert (W = rem ++ replicate (8 - length rem) 0) as EW.
    { unfold W. rewrite take_app_ge by lia. f_equal. rewrite take_replicate. f_equal. lia. }
    assert (bits_of W = bits_of rem ++ replicate (8 * (8 - length rem)) false) as EWb.
    { rewrite EW, bits_of_app. f_equal. apply (bits_of_skip true). }
    destruct (index_of bit (bits_of rem)) as [i|] eqn:Ei.
    + apply (Hmain i); [by rewrite EWb, index_of_app, Ei|done|done].
    + destruct bit.
      * unfold bitpos_result. rewrite Ei. assert (index_of true (bits_of W) = None) as EN.
        { by rewrite EWb, index_of_app, Ei, (index_of_replicate true). }
        apply no_index_skip in EN; [|done]. rewrite EN, HW. done.
      * apply (Hmain (length (bits_of rem))); [|done|done]. rewrite EWb, index_of_app, Ei.
        replace (8 * (8 - length rem))%nat with (S (8 * (8 - length rem) - 1)) by lia. simpl. by rewrite Nat.add_0_r.
  - assert (W = take 8 rem) as EW by (unfold W; by rewrite take_app_le by lia).
    destruct Hq as [Hq|Hq]; [lia|]. destruct (index_of bit (bits_of W)) as [i|] eqn:Ei.
    2: { apply no_index_skip in Ei; [|done]. rewrite HW in Ei. congruence. }
    assert (index_of bit (bits_of rem) = Some i) as Er.
    { rewrite <- (take_drop 8 rem), <- EW, bits_of_app, index_of_app, Ei. done. }
    apply (Hmain i); [done|by rewrite Er|by rewrite Er].
Qed.

(** C31: redisBitpos returns the position of the first bit equal to [bit] in the first
    [count] bytes, for every address; without such a bit, -1 when looking for a one and
    the position after the last bit when looking for a zero.  The final panic is
    unreachable. *)
Theorem redisBitpos_correct addr s count bit :
  bytes_ok s -> 0 <= count <= zlength s -> 8 * count + 64 < 2 ^ 63 ->
  redisBitpos addr s count bit = Ok (bitpos_result bit 0 (bits_of (take (Z.to_nat count) s))).
Proof.
  intros Hs Hc Hm.
  assert (exists rem post, s = rem ++ post /\ take (Z.to_nat count) s = rem /\ count = zlength rem) as (rem & post & -> & -> & ->).
  { exists (take (Z.to_nat count) s), (drop (Z.to_nat count) s). split_and!; [by rewrite take_drop|done|len]. }
  clear Hc. apply bytes_ok_app in Hs as Hs'. destruct Hs' as [Hr _]. unfold redisBitpos.
  destruct (bitpos_align_correct bit addr 9 [] rem post 0) as (d & rem1 & found & E1 & H1 & Hfound); [lia|lia| |].
  { pose proof (Z.mod_pos_bound (- (addr + zlength (@nil Z))) (2 ^ 3) ltac:(lia)). lia. }
  change (if bit then 0 else 255) with (skip_byte bit). change (zlength (@nil Z)) with 0 in H1. cbn [app] in H1. rewrite H1. rewrite !Z.add_0_l.
  rewrite E1 in Hr, Hs, Hm. apply bytes_ok_app in Hr as [_ Hr1]. rewrite E1. set (sk := replicate d (skip_byte bit)) in *.
  assert (Z.of_nat d = zlength sk) as Hd by (unfold sk; len). rewrite length_app in Hm.
  assert (exists d2 rem2, rem1 = replicate d2 (skip_byte bit) ++ rem2 /\
    (if found then Ok (Z.of_nat d, zlength rem1, 8 * Z.of_nat d)
     else bitpos_words (S (Z.to_nat (zlength rem1))) ((sk ++ rem1) ++ post) (if bit then 0 else ULLONG_MAX) (Z.of_nat d) (zlength rem1) (8 * Z.of_nat d)) =
      Ok (Z.of_nat d + Z.of_nat d2, zlength rem2, 8 * Z.of_nat d + 8 * Z.of_nat d2) /\
    ((length rem2 < 8)%nat \/ take 8 rem2 <> replicate 8 (skip_byte bit))) as (d2 & rem2 & E2 & H2 & Hq).
  { destruct found.
    - destruct (Hfound eq_refl) as (b & r & -> & Hne). exists 0%nat, (b :: r). split_and!; [done| |].
      + f_equal. f_equal; [|lia]. f_equal. lia.
      + right. simpl. congruence.
    - destruct (bitpos_words_correct bit (S (length rem1)) sk rem1 post (8 * Z.of_nat d)) as (d2 & rem2 & H3 & H4 & H5); [done|lia|lia|lia|].
      exists d2, rem2. split_and!; [done| |done]. rewrite Nat2Z.id, <- app_assoc, Hd. change (if bit then 0 else ULLONG_MAX) with (skip_word bit). by rewrite Hd in H4; rewrite H4. }
  rewrite H2. subst rem1. set (sk2 := replicate d2 (skip_byte bit)) in *. apply bytes_ok_app in Hr1 as [_ Hr2].
  assert (Z.of_nat d + Z.of_nat d2 = zlength (sk ++ sk2)) as -> by (unfold sk, sk2; len).
  replace ((sk ++ sk2 ++ rem2) ++ post) with ((sk ++ sk2) ++ rem2 ++ post) in * by by rewrite !app_assoc.
  rewrite bitpos_tail; [|done|lia|unfold sk, sk2 in *; len|done|done]. f_equal.
  unfold bitpos_result. rewrite !bits_of_app. unfold sk, sk2. rewrite !bits_of_skip, !index_of_app, !index_of_replicate.
  destruct (index_of bit (bits_of rem2)); cbn [fmap option_fmap option_map]; [len|]. destruct bit; [done|]. len.
Qed.

Lemma redisBitpos_correct_witness : redisBitpos 3 [255; 255; 255; 127; 0] 5 false = Ok 24 /\ redisBitpos 0 [0; 0] 2 true = Ok (-1).
Proof.
  rewrite (redisBitpos_correct 3 [255; 255; 255; 127; 0] 5 false);
    [|repeat (constructor; [lia|]); constructor|vm_compute; split; discriminate|lia].
  rewrite (redisBitpos_correct 0 [0; 0] 2 true);
    [|repeat (constructor; [lia|]); constructor|vm_compute; split; discriminate|lia]. split; reflexivity.
Defined.
