(* ===== verification/Lzf.v ===== *)
(** LZF compression, the model: src/redis-stable/src/lzf_c.c and lzf_d.c, with the
    configuration of lzfP.h (HLOG 16, VERY_FAST, no INIT_HTAB, CHECK_INPUT).

    Pointers are offsets into the input or output buffer.  The hash table is not
    initialised: its entries are arbitrary addresses, and [base] is the address of the
    input, so that an entry [a] designates the offset [a - base]. *)

From S2P Require Import Prelude Machine.

Definition HLOG : Z := 16.
Definition HSIZE : Z := Z.shiftl 1 HLOG.
Definition MAX_LIT : Z := 32.
Definition MAX_OFF : Z := 8192.
Definition MAX_REF : Z := 264.

(** * lzf_compress *)

(** FRST(p): (p[0] << 8) | p[1] *)
Definition FRST (inp : list Z) (p : Z) : res Z :=
  let! a := get1 p inp in
  let! b := get1 (p + 1) inp in
  Ok (Z.lor (Z.shiftl a 8) b).
(** NEXT(v,p): (v << 8) | p[2] *)
Definition NEXT (v : Z) (inp : list Z) (p : Z) : res Z :=
  let! c := get1 (p + 2) inp in
  Ok (Z.lor (u32 (Z.shiftl v 8)) c).
Definition IDX (h : Z) : Z := Z.land (u32 (Z.shiftr h (3 * 8 - HLOG) - h * 5)) (HSIZE - 1).

Definition htable := Z -> Z.
Definition set_slot (t : htable) (i a : Z) : htable := fun j => if j =? i then a else t j.

(** The unrolled comparisons: [n] of them, stopping at a mismatch.  Returns the length
    and whether a mismatch was found. *)
Fixpoint match_unrolled (n : nat) (inp : list Z) (ref ip len : Z) : res (Z * bool) :=
  match n with
  | O => Ok (len, false)
  | S n =>
      let len := len + 1 in
      let! a := get1 (ref + len) inp in
      let! b := get1 (ip + len) inp in
      if negb (a =? b) then Ok (len, true) else match_unrolled n inp ref ip len
  end.
(** do len++; while (len < maxlen && ref[len] == ip[len]) *)
Fixpoint match_rest (fuel : nat) (inp : list Z) (ref ip maxlen len : Z) : res Z :=
  match fuel with
  | O => Fault OutOfFuel
  | S fuel =>
      let len := len + 1 in
      if len <? maxlen then
        let! a := get1 (ref + len) inp in
        let! b := get1 (ip + len) inp in
        if a =? b then match_rest fuel inp ref ip maxlen len else Ok len
      else Ok len
  end.
Definition match_len (inp : list Z) (ref ip maxlen : Z) : res Z :=
  let! '(len, stop) := (if maxlen >? 16 then match_unrolled 16 inp ref ip 2 else Ok (2, false)) in
  if stop then Ok len else match_rest 265 inp ref ip maxlen len.

(** Do three octets at [ref] and [ip] agree, with [ref] in the window?  The value is
    the offset. *)
Definition find_match (inp : list Z) (ref ip : Z) : res (option Z) :=
  let off := u64 (ip - ref - 1) in
  if (off <? MAX_OFF) && (ref >? 0) then
    let! r2 := get1 (ref + 2) inp in
    let! i2 := get1 (ip + 2) inp in
    if r2 =? i2 then
      let! r := load ref 2 inp in
      let! i := load ip 2 inp in
      if le_dec r =? le_dec i then Ok (Some off) else Ok None
    else Ok None
  else Ok None.

(** *op++ = ... for a back reference; [len] is the number of octets minus 2 *)
Definition emit_ref (out : list Z) (op off len : Z) : res (list Z * Z) :=
  if len <? 7 then
    let! out := set1 op (u8 (Z.shiftr off 8 + Z.shiftl len 5)) out in
    let! out := set1 (op + 1) (u8 off) out in
    Ok (out, op + 2)
  else
    let! out := set1 op (u8 (Z.shiftr off 8 + Z.shiftl 7 5)) out in
    let! out := set1 (op + 1) (u8 (len - 7)) out in
    let! out := set1 (op + 2) (u8 off) out in
    Ok (out, op + 3).

(** lit++; *op++ = *ip++; flush the run when it is full *)
Definition put_literal (inp out : list Z) (ip op lit : Z) : res (list Z * Z * Z * Z) :=
  let! c := get1 ip inp in
  let! out := set1 op c out in
  let lit := lit + 1 in
  let op := op + 1 in
  let ip := ip + 1 in
  if lit =? MAX_LIT then
    let! out := set1 (op - lit - 1) (u8 (lit - 1)) out in
    Ok (out, ip, op + 1, 0)
  else Ok (out, ip, op, lit).

(** while (ip < in_end): the remaining octets are literals *)
Fixpoint compress_tail (fuel : nat) (inp : list Z) (in_len : Z) (out : list Z) (ip op lit : Z) : res (list Z * Z * Z) :=
  match fuel with
  | O => Fault OutOfFuel
  | S fuel =>
      if ip <? in_len then
        let! '(out, ip, op, lit) := put_literal inp out ip op lit in
        compress_tail fuel inp in_len out ip op lit
      else Ok (out, op, lit)
  end.
Definition compress_finish (inp : list Z) (in_len : Z) (out : list Z) (out_len ip op lit : Z) : res (Z * list Z) :=
  if op + 3 >? out_len then Ok (0, out)
  else
    let! '(out, op, lit) := compress_tail (S (Z.to_nat (in_len - ip))) inp in_len out ip op lit in
    let! out := set1 (op - lit - 1) (u8 (lit - 1)) out in
    let op := op - b2z (lit =? 0) in
    Ok (op, out).

(** The main loop; each round moves [ip] forward. *)
Fixpoint compress_loop (fuel : nat) (inp : list Z) (in_len base out_len : Z) (htab : htable) (out : list Z)
    (ip op lit hval : Z) : res (Z * list Z) :=
  match fuel with
  | O => Fault OutOfFuel
  | S fuel =>
      if ip <? in_len - 2 then
        let! hval := NEXT hval inp ip in
        let slot := IDX hval in
        let ref := htab slot - base in
        let htab := set_slot htab slot (base + ip) in
        let! m := find_match inp ref ip in
        match m with
        | Some off =>
            let maxlen := in_len - ip - 2 in
            let maxlen := if maxlen >? MAX_REF then MAX_REF else maxlen in
            if (op + 3 + 1 >=? out_len) && (op - b2z (lit =? 0) + 3 + 1 >=? out_len) then Ok (0, out)
            else
              let! out := set1 (op - lit - 1) (u8 (lit - 1)) out in
              let op := op - b2z (lit =? 0) in
              let! len := match_len inp ref ip maxlen in
              let len := len - 2 in
              let ip := ip + 1 in
              let! '(out, op) := emit_ref out op off len in
              let op := op + 1 in
              let ip := ip + (len + 1) in
              if ip >=? in_len - 2 then compress_finish inp in_len out out_len ip op 0
              else
                let ip := ip - 2 in
                let! hval := FRST inp ip in
                let! hval := NEXT hval inp ip in
                let htab := set_slot htab (IDX hval) (base + ip) in
                let ip := ip + 1 in
                let! hval := NEXT hval inp ip in
                let htab := set_slot htab (IDX hval) (base + ip) in
                let ip := ip + 1 in
                compress_loop fuel inp in_len base out_len htab out ip op 0 hval
        | None =>
            if op >=? out_len then Ok (0, out)
            else
              let! '(out, ip, op, lit) := put_literal inp out ip op lit in
              compress_loop fuel inp in_len base out_len htab out ip op lit hval
        end
      else compress_finish inp in_len out out_len ip op lit
  end.

Definition lzf_compress (htab : htable) (base : Z) (inp : list Z) (in_len : Z) (out : list Z) (out_len : Z) : res (Z * list Z) :=
  if (in_len =? 0) || (out_len =? 0) then Ok (0, out)
  else
    let! hval := FRST inp 0 in
    compress_loop (S (Z.to_nat in_len)) inp in_len base out_len htab out 0 1 0 hval.

(** * lzf_decompress *)

Inductive errno := E2BIG | EINVAL.

(** *op++ = *ip++, [n] times *)
Fixpoint copy_in (n : nat) (inp : list Z) (ip : Z) (out : list Z) (op : Z) : res (list Z) :=
  match n with
  | O => Ok out
  | S n => let! c := get1 ip inp in let! out := set1 op c out in copy_in n inp (ip + 1) out (op + 1)
  end.
(** *op++ = *ref++, [n] times, within the output *)
Fixpoint copy_back (n : nat) (out : list Z) (ref op : Z) : res (list Z) :=
  match n with
  | O => Ok out
  | S n => let! c := get1 ref out in let! out := set1 op c out in copy_back n out (ref + 1) (op + 1)
  end.

Fixpoint decompress_loop (fuel : nat) (inp : list Z) (in_len : Z) (out : list Z) (out_len ip op : Z)
  : res (Z * option errno * list Z) :=
  match fuel with
  | O => Fault OutOfFuel
  | S fuel =>
      if ip <? in_len then
        let! ctrl := get1 ip inp in
        let ip := ip + 1 in
        if ctrl <? 32 then
          let ctrl := ctrl + 1 in
          if op + ctrl >? out_len then Ok (0, Some E2BIG, out)
          else if ip + ctrl >? in_len then Ok (0, Some EINVAL, out)
          else
            let! out := copy_in (Z.to_nat ctrl) inp ip out op in
            decompress_loop fuel inp in_len out out_len (ip + ctrl) (op + ctrl)
        else
          let len := Z.shiftr ctrl 5 in
          let ref := op - Z.shiftl (Z.land ctrl 0x1f) 8 - 1 in
          if ip >=? in_len then Ok (0, Some EINVAL, out)
          else
            let! '(len, ip) :=
              (if len =? 7 then let! x := get1 ip inp in Ok (len + x, ip + 1) else Ok (len, ip)) in
            if (Z.shiftr ctrl 5 =? 7) && (ip >=? in_len) then Ok (0, Some EINVAL, out)
            else
              let! x := get1 ip inp in
              let ref := ref - x in
              let ip := ip + 1 in
              if op + len + 2 >? out_len then Ok (0, Some E2BIG, out)
              else if ref <? 0 then Ok (0, Some EINVAL, out)
              else
                let! out :=
                  (if len <=? 9 then copy_back (Z.to_nat (len + 2)) out ref op
                   else if op >=? ref + (len + 2) then
                     let! bs := load ref (len + 2) out in store op bs out
                   else copy_back (Z.to_nat (len + 2)) out ref op) in
                decompress_loop fuel inp in_len out out_len ip (op + len + 2)
      else Ok (op, None, out)
  end.

Definition lzf_decompress (inp : list Z) (in_len : Z) (out : list Z) (out_len : Z) : res (Z * option errno * list Z) :=
  decompress_loop (S (Z.to_nat in_len)) inp in_len out out_len 0 0.
