(* ===== verification/LzfSpec.v ===== *)
(** The contract of src/redis-stable/src/lzf_c.c and lzf_d.c: decompression is
    memory-safe on arbitrary input, and what the compressor produces, whatever its hash
    table contained, decompresses to the original. *)

From S2P Require Import Prelude Machine Lzf.

(** * Decompression of arbitrary input *)

Lemma copy_in_safe n : forall inp ip out op, 0 <= ip -> ip + Z.of_nat n <= zlength inp -> 0 <= op -> op + Z.of_nat n <= zlength out ->
  exists out', copy_in n inp ip out op = Ok out' /\ length out' = length out.
Proof.
  induction n as [|n IH]; intros inp ip out op Hi Hin Ho Hon; cbn [copy_in]; [by exists out|].
  destruct (get1_in inp ip ltac:(lia)) as [c ->]. rewrite set1_insert by lia.
  destruct (IH inp (ip + 1) (<[Z.to_nat op := c]> out) (op + 1)) as (out' & -> & Hl); [lia..|rewrite length_insert; lia|].
  exists out'. by rewrite length_insert in Hl.
Qed.

Lemma copy_back_safe n : forall out ref op, 0 <= ref < op -> op + Z.of_nat n <= zlength out ->
  exists out', copy_back n out ref op = Ok out' /\ length out' = length out.
Proof.
  induction n as [|n IH]; intros out ref op Hr Ho; cbn [copy_back]; [by exists out|].
  destruct (get1_in out ref ltac:(lia)) as [c ->]. rewrite set1_insert by lia.
  destruct (IH (<[Z.to_nat op := c]> out) (ref + 1) (op + 1)) as (out' & -> & Hl); [lia|rewrite length_insert; lia|].
  exists out'. by rewrite length_insert in Hl.
Qed.

Lemma memcpy_safe (out : list Z) ref op n : 0 <= ref -> 0 <= n -> ref + n <= op -> op + n <= zlength out ->
  exists out', (let! bs := load ref n out in store op bs out) = Ok out' /\ length out' = length out.
Proof.
  intros. destruct (load_ok ref n out) as (bs & -> & Hbs); [lia..|]. unfold store. repeat zif. eexists. split; [done|]. len.
Qed.

Definition in_bounds (out_len : Z) (out : list Z) (r : Z * option errno * list Z) : Prop :=
  let '(n, err, out') := r in 0 <= n <= out_len /\ length out' = length out /\ (err = None \/ n = 0).

Lemma decompress_loop_safe inp in_len out_len : bytes_ok inp -> in_len <= zlength inp -> forall fuel out ip op,
  0 <= ip <= in_len -> 0 <= op <= out_len -> out_len <= zlength out -> in_len - ip < Z.of_nat fuel ->
  exists r, decompress_loop fuel inp in_len out out_len ip op = Ok r /\ in_bounds out_len out r.
Proof.
  intros Hb Hin. induction fuel as [|fuel IH]; intros out ip op Hip Hop Hol Hf; [lia|]. cbn [decompress_loop].
  assert (forall e, in_bounds out_len out (0, e, out)) as Herr by (intros e; split_and!; [lia..|done|by right]).
  destruct (Z.ltb_spec ip in_len) as [Hlt|Hge]; [|eexists; split; [done|]; split_and!; [lia..|done|by left]].
  destruct (get1_in inp ip ltac:(lia)) as [ctrl Hg]. rewrite Hg. apply get1_Ok in Hg as [_ Hg].
  assert (0 <= ctrl < 256) as Hc by by eapply (Forall_lookup_1 _ _ _ _ Hb).
  assert (forall out' n k, length out' = length out -> 0 <= k -> 0 <= n -> ip + 1 + n <= in_len -> op + k <= out_len ->
    exists r, decompress_loop fuel inp in_len out' out_len (ip + 1 + n) (op + k) = Ok r /\ in_bounds out_len out r) as Hnext.
  { intros out' n k Hl Hk Hn Hi Ho. destruct (IH out' (ip + 1 + n) (op + k)) as (r & Hr & Hr'); [lia..|].
    exists r. split; [done|]. destruct r as [[? ?] ?]. unfold in_bounds in *. by rewrite <- Hl. }
  destruct (Z.ltb_spec ctrl 32) as [H32|H32].
  - rewrite !Z.gtb_ltb. destruct (Z.ltb_spec out_len (op + (ctrl + 1))); [by eexists|].
    destruct (Z.ltb_spec in_len (ip + 1 + (ctrl + 1))); [by eexists|].
    destruct (copy_in_safe (Z.to_nat (ctrl + 1)) inp (ip + 1) out op) as (out' & -> & Hl); [lia..|]. apply Hnext; [done|lia..].
  - assert (1 <= Z.shiftr ctrl 5 <= 7) as Hl5.
    { rewrite Z.shiftr_div_pow2 by lia. change (2 ^ 5) with 32. pose proof (Z.div_lt_upper_bound ctrl 32 8). pose proof (Z.div_le_lower_bound ctrl 32 1). lia. }
    assert (0 <= Z.shiftl (Z.land ctrl 31) 8) as Hr0 by (apply Z.shiftl_nonneg, Z.land_nonneg; lia).
    rewrite (Z.geb_leb (ip + 1)). destruct (Z.leb_spec in_len (ip + 1)) as [?|Hi1]; [by eexists|].
    destruct (get1_in inp (ip + 1) ltac:(lia)) as [x Hx]. rewrite Hx. pose proof Hx as [_ Hx']%get1_Ok.
    assert (0 <= x < 256) as Hxr by by eapply (Forall_lookup_1 _ _ _ _ Hb).
    assert (forall n len y, 1 <= n <= 2 -> 0 <= len -> ip + 1 + n <= in_len -> 0 <= y ->
      exists r, (if op + len + 2 >? out_len then Ok (0, Some E2BIG, out)
        else if op - Z.shiftl (Z.land ctrl 31) 8 - 1 - y <? 0 then Ok (0, Some EINVAL, out)
        else let! out0 := (if len <=? 9 then copy_back (Z.to_nat (len + 2)) out (op - Z.shiftl (Z.land ctrl 31) 8 - 1 - y) op
                           else if op >=? op - Z.shiftl (Z.land ctrl 31) 8 - 1 - y + (len + 2)
                                then let! bs := load (op - Z.shiftl (Z.land ctrl 31) 8 - 1 - y) (len + 2) out in store op bs out
                                else copy_back (Z.to_nat (len + 2)) out (op - Z.shiftl (Z.land ctrl 31) 8 - 1 - y) op) in
             decompress_loop fuel inp in_len out0 out_len (ip + 1 + n) (op + len + 2)) = Ok r /\ in_bounds out_len out r) as Hcopy.
    { intros n len y Hn Hlen Hi Hy. rewrite Z.gtb_ltb. destruct (Z.ltb_spec out_len (op + len + 2)); [by eexists|].
      set (ref := op - Z.shiftl (Z.land ctrl 31) 8 - 1 - y). destruct (Z.ltb_spec ref 0); [by eexists|].
      assert (exists out', (if len <=? 9 then copy_back (Z.to_nat (len + 2)) out ref op
          else if op >=? ref + (len + 2) then let! bs := load ref (len + 2) out in store op bs out
          else copy_back (Z.to_nat (len + 2)) out ref op) = Ok out' /\ length out' = length out) as (out' & -> & Hl).
      { rewrite Z.geb_leb. destruct (len <=? 9); [apply copy_back_safe; unfold ref in *; lia|].
        destruct (Z.leb_spec (ref + (len + 2)) op); [apply memcpy_safe; lia|apply copy_back_safe; unfold ref in *; lia]. }
      replace (op + len + 2) with (op + (len + 2)) by lia. apply Hnext; [done|lia..]. }
    destruct (Z.eqb_spec (Z.shiftr ctrl 5) 7) as [H7|H7]; cbn [andb]; cbv beta iota zeta.
    + rewrite (Z.geb_leb (ip + 1 + 1)). destruct (Z.leb_spec in_len (ip + 1 + 1)) as [?|Hi2]; [by eexists|].
      destruct (get1_in inp (ip + 1 + 1) ltac:(lia)) as [y Hy]. rewrite Hy. pose proof Hy as [_ Hy']%get1_Ok.
      assert (0 <= y < 256) as Hyr by by eapply (Forall_lookup_1 _ _ _ _ Hb).
      replace (ip + 1 + 1 + 1) with (ip + 1 + 2) by lia. apply Hcopy; lia.
    + rewrite Hx. apply Hcopy; lia.
Qed.

(** It returns on every input. *)
Lemma decompress_total inp out : bytes_ok inp -> exists n err out', lzf_decompress inp (zlength inp) out (zlength out) = Ok (n, err, out').
Proof.
  intros Hb. destruct (decompress_loop_safe inp (zlength inp) (zlength out) Hb ltac:(lia) (S (length inp)) out 0 0)
    as ([[n err] out'] & H1 & _); [lia..|]. exists n, err, out'. unfold lzf_decompress. by rewrite Nat2Z.id.
Qed.

(** on arbitrary input lzf_decompress reads only the input, writes only within the
    output length, terminates, and returns either the number of octets written or 0 with
    an error. *)
Theorem lzf_decompress_safe inp out :
  bytes_ok inp ->
  exists n err out', lzf_decompress inp (zlength inp) out (zlength out) = Ok (n, err, out') /\
    0 <= n <= zlength out /\ length out' = length out /\ (err = None \/ n = 0).
Proof.
  intros Hb. destruct (decompress_loop_safe inp (zlength inp) (zlength out) Hb ltac:(lia) (S (length inp)) out 0 0)
    as ([[n err] out'] & H1 & H2); [lia..|]. exists n, err, out'. unfold lzf_decompress. by rewrite Nat2Z.id.
Qed.

Lemma lzf_decompress_safe_witness :
  exists n err out', lzf_decompress [255; 255; 255; 7] 4 [0; 0; 0] 3 = Ok (n, err, out') /\ 0 <= n <= 3.
Proof.
  destruct (lzf_decompress_safe [255; 255; 255; 7] [0; 0; 0]) as (n & err & out' & H1 & H2 & _);
    [repeat (constructor; [lia|]); constructor|]. exists n, err, out'. split; assumption.
Defined.

(** * What a compressed stream stands for *)

(** A back reference to [len] octets, [off + 1] octets back. *)
Definition enc_ref (off len : Z) : list Z :=
  if len - 2 <? 7 then [off / 256 + 32 * (len - 2); off mod 256]
  else [off / 256 + 224; len - 9; off mod 256].

(** Each octet of [X] repeats the one [d] octets before it in [O ++ X]. *)
Definition repeats (O X : list Z) (d : nat) : Prop :=
  (1 <= d <= length O)%nat /\
  forall i, (i < length X)%nat -> (O ++ X) !! (length O + i)%nat = (O ++ X) !! (length O + i - d)%nat.

(** [decodes e O]: the stream [e] of literal runs and back references stands for [O]. *)
Inductive decodes : list Z -> list Z -> Prop :=
| decodes_nil : decodes [] []
| decodes_lit e O L : decodes e O -> bytes_ok L -> (1 <= length L <= 32)%nat ->
    decodes (e ++ (zlength L - 1) :: L) (O ++ L)
| decodes_ref e O X off : decodes e O -> 0 <= off < 8192 -> 3 <= zlength X <= 264 -> repeats O X (Z.to_nat (off + 1)) ->
    decodes (e ++ enc_ref off (zlength X)) (O ++ X).

(** A stream consists of bytes. *)
Lemma decodes_bytes e O : decodes e O -> bytes_ok e.
Proof.
  induction 1 as [|e O L _ IH HL Hl|e O X off _ IH Hoff HX _]; [constructor|..]; apply Forall_app; (split; [done|]).
  - constructor; [lia|done].
  - unfold enc_ref. pose proof (Z.div_pos off 256 ltac:(lia) ltac:(lia)). pose proof (Z.div_lt_upper_bound off 256 32 ltac:(lia) ltac:(lia)).
    pose proof (Z.mod_pos_bound off 256 ltac:(lia)). case_match; repeat constructor; lia.
Qed.

Lemma copy_in_lit L : forall A B O R, (length L <= length R)%nat ->
  copy_in (length L) (A ++ L ++ B) (zlength A) (O ++ R) (zlength O) = Ok (O ++ L ++ drop (length L) R).
Proof.
  induction L as [|x L IH]; intros A B O R Hl; cbn [copy_in length]; [by rewrite drop_0|].
  destruct R as [|r R]; [simpl in Hl; lia|]. rewrite <- app_comm_cons, get1_app by done.
  unfold set1. rewrite (store_app O [r] [x] R) by done.
  specialize (IH (A ++ [x]) B (O ++ [x]) R ltac:(simpl in Hl; lia)). rewrite !length_app in IH. cbn [length] in IH.
  rewrite <- !app_assoc in IH. cbn [app] in *. rewrite !Nat2Z.inj_add in IH. change (Z.of_nat 1) with 1 in IH. rewrite IH. done.
Qed.

Lemma copy_back_ref X d : forall O R, repeats O X d -> (length X <= length R)%nat ->
  copy_back (length X) (O ++ R) (zlength O - Z.of_nat d) (zlength O) = Ok (O ++ X ++ drop (length X) R).
Proof.
  induction X as [|x X IH]; intros O R [Hd Hr] Hl; cbn [copy_back length]; [by rewrite drop_0|].
  destruct R as [|r R]; [simpl in Hl; lia|].
  assert (O !! (length O - d)%nat = Some x) as Hx.
  { pose proof (Hr 0%nat ltac:(simpl; lia)) as H0. rewrite Nat.add_0_r, (lookup_app_r O) in H0 by lia. rewrite Nat.sub_diag in H0.
    rewrite lookup_app_l in H0 by lia. done. }
  replace (zlength O - Z.of_nat d) with (Z.of_nat (length O - d)) by lia.
  rewrite (get1_lookup _ _ x) by (rewrite lookup_app_l by lia; done).
  unfold set1. rewrite (store_app O [r] [x] R) by done.
  assert (repeats (O ++ [x]) X d) as Hr'.
  { split; [len|]. intros i Hi. rewrite <- app_assoc. cbn [app]. replace (length (O ++ [x]) + i)%nat with (length O + S i)%nat by len.
    apply Hr. simpl. lia. }
  specialize (IH (O ++ [x]) R Hr' ltac:(simpl in Hl; lia)). rewrite <- !app_assoc in IH. cbn [app] in IH.
  replace (Z.of_nat (length O - d) + 1) with (zlength (O ++ [x]) - Z.of_nat d) by len.
  replace (zlength O + 1) with (zlength (O ++ [x])) by len. cbn [app]. rewrite IH. done.
Qed.

Lemma memcpy_ref X d O R : repeats O X d -> (length X <= length R)%nat -> (length X <= d)%nat ->
  (let! bs := load (zlength O - Z.of_nat d) (zlength X) (O ++ R) in store (zlength O) bs (O ++ R)) = Ok (O ++ X ++ drop (length X) R).
Proof.
  intros [Hd Hr] Hl Hdis.
  assert (take (length X) (drop (length O - d) O) = X) as HX.
  { apply list_eq. intros i. destruct (Nat.lt_ge_cases i (length X)) as [Hi|Hi].
    - rewrite lookup_take_lt, lookup_drop by lia. specialize (Hr i Hi). rewrite lookup_app_r in Hr by lia.
      replace (length O + i - length O)%nat with i in Hr by lia. rewrite Hr, lookup_app_l by lia. f_equal. lia.
    - rewrite !lookup_ge_None_2; [done|done|len]. }
  assert (load (zlength O - Z.of_nat d) (zlength X) (O ++ R) = Ok X) as ->.
  { unfold load. rewrite length_app. replace (_ && _ && _) with true by lia.
    replace (Z.to_nat (zlength O - Z.of_nat d)) with (length O - d)%nat by lia.
    rewrite Nat2Z.id, drop_app_le, take_app_le by len. by rewrite HX. }
  rewrite <- (take_drop (length X) R) at 1. rewrite (store_app O (take (length X) R) X) by len. done.
Qed.

(** * Decoding *)

Lemma run_lit fuel in_len A L B O R : bytes_ok L -> (1 <= length L <= 32)%nat -> (length L <= length R)%nat ->
  let e := (zlength L - 1) :: L in
  zlength (A ++ e) <= in_len ->
  decompress_loop (S fuel) (A ++ e ++ B) in_len (O ++ R) (zlength (O ++ R)) (zlength A) (zlength O) =
  decompress_loop fuel (A ++ e ++ B) in_len ((O ++ L) ++ drop (length L) R) (zlength (O ++ R)) (zlength (A ++ e)) (zlength (O ++ L)).
Proof.
  intros Hb Hl HR e Hin. unfold e in *. clear e. cbn [decompress_loop app]. rewrite (proj2 (Z.ltb_lt _ _)) by len. rewrite get1_app by done.
  rewrite (proj2 (Z.ltb_lt _ 32)) by lia. replace (zlength L - 1 + 1) with (zlength L) by lia.
  rewrite !Z.gtb_ltb, (proj2 (Z.ltb_ge _ _)), (proj2 (Z.ltb_ge _ _)) by len. rewrite Nat2Z.id.
  pose proof (copy_in_lit L (A ++ [zlength L - 1]) B O R HR) as Hc. rewrite <- app_assoc in Hc. cbn [app] in *.
  replace (zlength A + 1) with (zlength (A ++ [zlength L - 1])) by len. rewrite Hc, <- app_assoc. f_equal; len.
Qed.

(** The two forms of a back reference, as the decoder splits the control byte. *)
Lemma ctrl_split h l : 0 <= h < 32 -> 0 <= l < 8 -> Z.shiftr (h + 32 * l) 5 = l /\ Z.land (h + 32 * l) 31 = h.
Proof.
  intros Hh Hl. rewrite Z.shiftr_div_pow2 by lia. change 31 with (Z.ones 5). rewrite Z.land_ones by lia. change (2 ^ 5) with 32.
  rewrite (Z.mul_comm 32), Z.div_add, Z.mod_add, Z.div_small, Z.mod_small by lia. lia.
Qed.

Lemma get1_app2 {T} (A : list T) x y B off : off = zlength A -> get1 (off + 1) (A ++ x :: y :: B) = Ok y.
Proof. intros ->. rewrite <- (get1_app (A ++ [x]) y B (zlength A + 1)) by len. by rewrite <- app_assoc. Qed.
Lemma get1_app3 {T} (A : list T) x y z B off : off = zlength A -> get1 (off + 1 + 1) (A ++ x :: y :: z :: B) = Ok z.
Proof. intros ->. rewrite <- (get1_app (A ++ [x; y]) z B (zlength A + 1 + 1)) by len. by rewrite <- app_assoc. Qed.

Lemma run_ref fuel in_len A X off B O R : 0 <= off < 8192 -> 3 <= zlength X <= 264 -> repeats O X (Z.to_nat (off + 1)) -> (length X <= length R)%nat ->
  let e := enc_ref off (zlength X) in
  zlength (A ++ e) <= in_len ->
  decompress_loop (S fuel) (A ++ e ++ B) in_len (O ++ R) (zlength (O ++ R)) (zlength A) (zlength O) =
  decompress_loop fuel (A ++ e ++ B) in_len ((O ++ X) ++ drop (length X) R) (zlength (O ++ R)) (zlength (A ++ e)) (zlength (O ++ X)).
Proof.
  intros Hoff HX Hr HR e Hin. cbn [decompress_loop].
  assert (0 <= off / 256 < 32) as Hhi by (split; [apply Z.div_pos; lia|apply Z.div_lt_upper_bound; lia]).
  pose proof (Z.mod_pos_bound off 256 ltac:(lia)) as Hlo. pose proof (Z.div_mod off 256 ltac:(lia)) as Hdm.
  assert ((if zlength X - 2 <=? 9 then copy_back (Z.to_nat (zlength X - 2 + 2)) (O ++ R) (zlength O - (off + 1)) (zlength O)
           else if zlength O >=? zlength O - (off + 1) + (zlength X - 2 + 2)
                then let! bs := load (zlength O - (off + 1)) (zlength X - 2 + 2) (O ++ R) in store (zlength O) bs (O ++ R)
                else copy_back (Z.to_nat (zlength X - 2 + 2)) (O ++ R) (zlength O - (off + 1)) (zlength O)) =
          Ok ((O ++ X) ++ drop (length X) R)) as Hcopy.
  { replace (zlength X - 2 + 2) with (zlength X) by lia. replace (off + 1) with (Z.of_nat (Z.to_nat (off + 1))) by lia.
    rewrite Nat2Z.id, <- app_assoc, copy_back_ref by done. destruct (zlength X - 2 <=? 9); [done|].
    rewrite Z.geb_leb. destruct (Z.leb_spec (zlength O - Z.of_nat (Z.to_nat (off + 1)) + zlength X) (zlength O)); [|done].
    apply memcpy_ref; [done..|lia]. }
  assert (forall h, Z.shiftl h 8 = 256 * h) as Hsh by (intros; rewrite Z.shiftl_mul_pow2 by lia; lia).
  assert (zlength O - 256 * (off / 256) - 1 - off mod 256 = zlength O - (off + 1)) as Href by lia.
  destruct Hr as [Hd _]. unfold e, enc_ref in *. clear e.
  destruct (Z.ltb_spec (zlength X - 2) 7) as [H7|H7]; cbn [app].
  - destruct (ctrl_split (off / 256) (zlength X - 2)) as [Hs Hm]; [lia..|].
    rewrite (proj2 (Z.ltb_lt _ _)) by len. rewrite get1_app by done. rewrite (proj2 (Z.ltb_ge _ 32)) by lia. rewrite Hs, Hm, Hsh.
    rewrite (Z.geb_leb (zlength A + 1)), (proj2 (Z.leb_gt _ _)) by len. rewrite (proj2 (Z.eqb_neq _ 7)) by lia. cbn [andb]; cbv beta iota zeta.
    rewrite (get1_app2 A) by done. rewrite Z.gtb_ltb, (proj2 (Z.ltb_ge _ _)), Href, (proj2 (Z.ltb_ge _ _)) by len.
    rewrite Hcopy. f_equal; len.
  - destruct (ctrl_split (off / 256) 7) as [Hs Hm]; [lia..|]. change (32 * 7) with 224 in *.
    rewrite (proj2 (Z.ltb_lt _ _)) by len. rewrite get1_app by done. rewrite (proj2 (Z.ltb_ge _ 32)) by lia. rewrite Hs, Hm, Hsh.
    rewrite (Z.geb_leb (zlength A + 1)), (proj2 (Z.leb_gt _ _)) by len. cbn [Z.eqb Pos.eqb andb].
    rewrite (get1_app2 A) by done. cbv beta iota zeta.
    rewrite (Z.geb_leb (zlength A + 1 + 1)), (proj2 (Z.leb_gt _ _)) by len. rewrite (get1_app3 A) by done.
    replace (7 + (zlength X - 9)) with (zlength X - 2) by lia.
    rewrite Z.gtb_ltb, (proj2 (Z.ltb_ge _ _)), Href, (proj2 (Z.ltb_ge _ _)) by len. rewrite Hcopy. f_equal; len.
Qed.

Lemma decodes_run e O : decodes e O -> forall B in_len dst, (length O <= length dst)%nat -> zlength e <= in_len ->
  exists k, (k <= length e)%nat /\ forall fuel,
    decompress_loop (k + fuel) (e ++ B) in_len dst (zlength dst) 0 0 =
    decompress_loop fuel (e ++ B) in_len (O ++ drop (length O) dst) (zlength dst) (zlength e) (zlength O).
Proof.
  induction 1 as [|e O L He IH Hb Hl|e O X off He IH Hoff HX Hr]; intros B in_len dst Hd Hin.
  - exists 0%nat. split; [lia|]. intros fuel. cbn [app length Nat.add]. by rewrite drop_0.
  - rewrite length_app in Hd. destruct (IH ((zlength L - 1 :: L) ++ B) in_len dst) as (k & Hk & E); [lia|len|].
    exists (S k). split; [len|]. intros fuel. rewrite <- app_assoc. replace (S k + fuel)%nat with (k + S fuel)%nat by lia. rewrite E.
    assert (zlength dst = zlength (O ++ drop (length O) dst)) as -> by len. rewrite run_lit by (done || len).
    by rewrite drop_drop, <- (length_app O L).
  - rewrite length_app in Hd. destruct (IH (enc_ref off (zlength X) ++ B) in_len dst) as (k & Hk & E); [lia|len|].
    assert (1 <= length (enc_ref off (zlength X)))%nat as Hr1 by (unfold enc_ref; destruct (_ <? 7); simpl; lia).
    exists (S k). split; [len|]. intros fuel. rewrite <- app_assoc. replace (S k + fuel)%nat with (k + S fuel)%nat by lia. rewrite E.
    assert (zlength dst = zlength (O ++ drop (length O) dst)) as -> by len. rewrite run_ref by (done || len).
    by rewrite drop_drop, <- (length_app O X).
Qed.

Lemma decodes_decompress e O B dst : decodes e O -> (length O <= length dst)%nat ->
  lzf_decompress (e ++ B) (zlength e) dst (zlength dst) = Ok (zlength O, None, O ++ drop (length O) dst).
Proof.
  intros Hd Hl. unfold lzf_decompress. rewrite Nat2Z.id.
  destruct (decodes_run e O Hd B (zlength e) dst Hl ltac:(lia)) as (k & Hk & E).
  replace (S (length e)) with (k + S (length e - k))%nat by lia. rewrite E. cbn [decompress_loop]. by rewrite Z.ltb_irrefl.
Qed.

(** * Matching *)

Definition agree (inp : list Z) (ref ip n : Z) : Prop :=
  forall i, 0 <= i < n -> inp !! Z.to_nat (ref + i) = inp !! Z.to_nat (ip + i).

Lemma agree_step inp ref ip n c : 0 <= n -> 0 <= ref -> 0 <= ip ->
  agree inp ref ip n -> get1 (ref + n) inp = Ok c -> get1 (ip + n) inp = Ok c -> agree inp ref ip (n + 1).
Proof.
  intros Hn Hr Hi Ha [_ H1]%get1_Ok [_ H2]%get1_Ok i Hi'. destruct (Z.eq_dec i n) as [->|]; [congruence|]. apply Ha. lia.
Qed.

Lemma match_unrolled_correct inp ref ip n : forall len,
  0 <= ref < ip -> ip + len + Z.of_nat n < zlength inp -> 0 <= len -> agree inp ref ip (len + 1) ->
  exists len' stop, match_unrolled n inp ref ip len = Ok (len', stop) /\ len <= len' <= len + Z.of_nat n /\ (stop = true -> len < len') /\
    agree inp ref ip len' /\ (stop = false -> len' = len + Z.of_nat n /\ agree inp ref ip (len' + 1)).
Proof.
  induction n as [|n IH]; intros len Hr Hl H0 Ha; cbn [match_unrolled].
  { exists len, false. split_and!; [done|lia|lia|done| |]; [intros i Hi; apply Ha; lia|]. intros _. split; [lia|done]. }
  destruct (get1_in inp (ref + (len + 1))) as [a Ea]; [lia|]. destruct (get1_in inp (ip + (len + 1))) as [b Eb]; [lia|].
  rewrite Ea, Eb. destruct (Z.eqb_spec a b) as [->|Hne]; cbn [negb].
  - destruct (IH (len + 1)) as (len' & stop & -> & H1 & H2 & H3 & H4); [lia..| |].
    { eapply agree_step; [lia..|done|done|done]. }
    exists len', stop. split_and!; [done|lia..|done|]. intros Hs. destruct (H4 Hs). split; [lia|done].
  - exists (len + 1), true. split_and!; [done|lia|lia|lia|done|done].
Qed.

Lemma match_rest_correct inp ref ip maxlen : forall fuel len,
  0 <= ref < ip -> ip + maxlen <= zlength inp -> 0 <= len -> agree inp ref ip (len + 1) -> Z.max 0 (maxlen - len) < Z.of_nat fuel ->
  exists len', match_rest fuel inp ref ip maxlen len = Ok len' /\ len + 1 <= len' <= Z.max (len + 1) maxlen /\ agree inp ref ip len'.
Proof.
  induction fuel as [|fuel IH]; intros len Hr Hl H0 Ha Hf; [lia|]. cbn [match_rest].
  destruct (Z.ltb_spec (len + 1) maxlen) as [Hlt|Hge]; [|exists (len + 1); split_and!; [done|lia..|done]].
  destruct (get1_in inp (ref + (len + 1))) as [a Ea]; [lia|]. destruct (get1_in inp (ip + (len + 1))) as [b Eb]; [lia|].
  rewrite Ea, Eb. destruct (Z.eqb_spec a b) as [->|Hne]; [|exists (len + 1); split_and!; [done|lia..|done]].
  destruct (IH (len + 1)) as (len' & -> & H1 & H2); [lia..| |lia|].
  { eapply agree_step; [lia..|done|done|done]. }
  exists len'. split_and!; [done|lia..|done].
Qed.

Lemma match_len_correct inp ref ip : 0 <= ref < ip -> ip + 3 <= zlength inp -> agree inp ref ip 3 ->
  let maxlen := if zlength inp - ip - 2 >? MAX_REF then MAX_REF else zlength inp - ip - 2 in
  exists len, match_len inp ref ip maxlen = Ok len /\ 3 <= len <= 264 /\ ip + len <= zlength inp /\ agree inp ref ip len.
Proof.
  intros Hr Hl Ha maxlen. assert (1 <= maxlen <= 264 /\ ip + maxlen + 2 <= zlength inp) as Hm.
  { unfold maxlen, MAX_REF. rewrite Z.gtb_ltb. destruct (Z.ltb_spec 264 (zlength inp - ip - 2)); lia. }
  clearbody maxlen. unfold match_len. rewrite Z.gtb_ltb. destruct (Z.ltb_spec 16 maxlen).
  - destruct (match_unrolled_correct inp ref ip 16 2) as (len & stop & -> & H1 & H2 & H3 & H4); [lia..|done|]. destruct stop.
    + exists len. specialize (H2 eq_refl). split_and!; [done|lia..|done].
    + destruct (H4 eq_refl) as [-> H5]. destruct (match_rest_correct inp ref ip maxlen 265 (2 + Z.of_nat 16)) as (len' & -> & H6 & H7); [lia..|done|lia|].
      exists len'. split_and!; [done|lia..|done].
  - destruct (match_rest_correct inp ref ip maxlen 265 2) as (len' & -> & H6 & H7); [lia..|done|lia|].
    exists len'. split_and!; [done|lia..|done].
Qed.

Lemma find_match_correct inp base a ip : bytes_ok inp -> 0 <= ip -> ip + 3 <= zlength inp -> 8192 <= base -> base + zlength inp < 2 ^ 64 -> 0 <= a < 2 ^ 64 ->
  exists m, find_match inp (a - base) ip = Ok m /\
    match m with
    | None => True
    | Some off => 0 <= off < 8192 /\ a - base = ip - off - 1 /\ 0 <= a - base /\ agree inp (a - base) ip 3
    end.
Proof.
  intros Hb Hi Hl Hbase Hend Ha. unfold find_match, MAX_OFF. set (ref := a - base). set (off := u64 (ip - ref - 1)).
  destruct ((off <? 8192) && (ref >? 0)) eqn:E; [|by exists None].
  assert (off = ip - ref - 1 /\ 0 <= off < 8192 /\ 0 < ref) as (Eo & Ho & Hr).
  { pose proof (u_range 64 (ip - ref - 1) ltac:(lia)) as Hu. fold off in Hu. split; [|lia].
    unfold off, u in *. destruct (Z.lt_ge_cases (ip - ref - 1) 0); [|apply Z.mod_small; unfold ref in *; lia].
    exfalso. assert ((ip - ref - 1) mod 2 ^ 64 = ip - ref - 1 + 2 ^ 64) as Hm; [|unfold ref in *; lia].
    symmetry. apply Z.mod_unique_pos with (-1); unfold ref in *; lia. }
  clearbody ref off. destruct (get1_in inp (ref + 2)) as [r2 Er2]; [lia|]. destruct (get1_in inp (ip + 2)) as [i2 Ei2]; [lia|].
  rewrite Er2, Ei2. destruct (Z.eqb_spec r2 i2) as [->|]; [|by exists None].
  destruct (load_ok ref 2 inp) as (r & Er & Hlr); [lia..|]. destruct (load_ok ip 2 inp) as (i & Ei & Hli); [lia..|]. rewrite Er, Ei.
  destruct (Z.eqb_spec (le_dec r) (le_dec i)) as [Ed|]; [|by exists None]. exists (Some off). split; [done|]. split_and!; [lia..|].
  apply load_Ok in Er as (p1 & q1 & E1 & -> & _), Ei as (p2 & q2 & E2 & -> & _).
  assert (r = i) as <-.
  { assert (bytes_ok r) by (rewrite E1 in Hb; by apply bytes_ok_app in Hb as [_ [? _]%bytes_ok_app]).
    assert (bytes_ok i) by (rewrite E2 in Hb; by apply bytes_ok_app in Hb as [_ [? _]%bytes_ok_app]).
    rewrite <- (le_enc_dec r), <- (le_enc_dec i) by done. rewrite Ed. f_equal. lia. }
  intros k Hk. destruct (Z.eq_dec k 2) as [->|].
  - apply get1_Ok in Er2 as [_ ?], Ei2 as [_ ?]. congruence.
  - rewrite E1 at 1. rewrite E2. replace (Z.to_nat (zlength p1 + k)) with (length p1 + Z.to_nat k)%nat by lia.
    replace (Z.to_nat (zlength p2 + k)) with (length p2 + Z.to_nat k)%nat by lia.
    rewrite (lookup_app_r p1), (lookup_app_r p2), !Nat.add_sub' by lia. rewrite !lookup_app_l by lia. done.
Qed.

(** * Compression *)

(** The compressor has read [ip] octets, of which the last [lit] are in the open literal
    run; [E] is the finished part of the stream.  The run's header is still to be
    written, at offset [length E], which may be just past the buffer.  The last field
    bounds the expansion. *)
Record cinv (inp out : list Z) (ip op lit : Z) (E : list Z) : Prop := {
  ci_lit : 0 <= lit < MAX_LIT;
  ci_ip : lit <= ip <= zlength inp;
  ci_dec : decodes E (take (Z.to_nat (ip - lit)) inp);
  ci_op : op = zlength E + 1 + lit;
  ci_out : exists X, out = E ++ X /\
    ((X = [] /\ lit = 0) \/ exists h R, X = h :: take (Z.to_nat lit) (drop (Z.to_nat (ip - lit)) inp) ++ R);
  ci_bound : 32 * (op - 1 - ip) <= ip - lit
}.

Lemma take_take_plus {T} (l : list T) a b : 0 <= a -> 0 <= b ->
  take (Z.to_nat (a + b)) l = take (Z.to_nat a) l ++ take (Z.to_nat b) (drop (Z.to_nat a) l).
Proof. intros. rewrite take_take_drop. f_equal. lia. Qed.

(** Closing the run: afterwards the stream [E'] covers everything that was read. *)
Lemma flush_run inp out ip op lit E : bytes_ok inp -> cinv inp out ip op lit E -> op <= zlength out ->
  exists out' E' R, set1 (op - lit - 1) (u8 (lit - 1)) out = Ok out' /\ length out' = length out /\
    out' = E' ++ R /\ decodes E' (take (Z.to_nat ip) inp) /\ zlength E' = op - b2z (lit =? 0).
Proof.
  intros Hb [Hl Hi Hd Hop (X & -> & HX) _] Ho. unfold MAX_LIT in *. rewrite length_app in Ho.
  destruct HX as [[-> ->]|(h & R & ->)]; [simpl in Ho; lia|].
  set (L := take (Z.to_nat lit) (drop (Z.to_nat (ip - lit)) inp)) in *. assert (zlength L = lit) as HL by (unfold L; len).
  unfold set1. cbn [app]. rewrite (store_app E [h] [u8 (lit - 1)] (L ++ R)) by (done || lia). cbn [app].
  destruct (Z.eqb_spec lit 0) as [H0|H0]; cbn [b2z].
  - eexists _, E, (u8 (lit - 1) :: L ++ R). split; [done|]. split_and!; [len|done| |lia]. by rewrite H0, Z.sub_0_r in Hd.
  - rewrite u_id by lia. eexists _, (E ++ (lit - 1) :: L), R. split; [done|]. split_and!; [len|by rewrite <- app_assoc| |len].
    replace ip with (ip - lit + lit) at 1 by lia. rewrite take_take_plus by lia. fold L. assert (lit - 1 = zlength L - 1) as -> by lia.
    apply decodes_lit; [done|by apply Forall_take, Forall_drop|lia].
Qed.

Lemma put_literal_correct inp out ip op lit E : bytes_ok inp -> cinv inp out ip op lit E -> ip < zlength inp -> op < zlength out ->
  exists out' op' lit' E', put_literal inp out ip op lit = Ok (out', ip + 1, op', lit') /\ length out' = length out /\
    cinv inp out' (ip + 1) op' lit' E' /\
    if lit + 1 =? MAX_LIT then op' = op + 2 /\ lit' = 0 else op' = op + 1 /\ lit' = lit + 1.
Proof.
  intros Hb [Hl Hi Hd Hop (X & -> & HX) Hbd] Hip Ho. unfold MAX_LIT in *. rewrite length_app in Ho.
  destruct HX as [[-> ->]|(h & R & ->)]; [simpl in Ho; lia|]. unfold put_literal, MAX_LIT.
  destruct (get1_in inp ip ltac:(lia)) as [c Hc]. rewrite Hc. apply get1_Ok in Hc as [_ Hc].
  set (L := take (Z.to_nat lit) (drop (Z.to_nat (ip - lit)) inp)) in *. assert (zlength L = lit) as HL by (unfold L; len).
  assert (take (Z.to_nat (lit + 1)) (drop (Z.to_nat (ip - lit)) inp) = L ++ [c]) as HL1.
  { unfold L. rewrite take_take_plus by lia. f_equal. rewrite drop_drop. replace (Z.to_nat (ip - lit) + Z.to_nat lit)%nat with (Z.to_nat ip) by lia.
    by rewrite (drop_S _ _ _ Hc). }
  destruct R as [|r R]; [len|]. unfold set1 at 1.
  replace (E ++ h :: L ++ r :: R) with ((E ++ h :: L) ++ [r] ++ R) by by rewrite <- app_assoc.
  rewrite (store_app (E ++ h :: L) [r] [c]) by (done || len). rewrite <- app_assoc. cbn [app].
  destruct (Z.eqb_spec (lit + 1) 32) as [H32|H32].
  - unfold set1. rewrite (store_app E [h] [u8 (lit + 1 - 1)] (L ++ c :: R)) by (done || lia). rewrite u_id by lia. cbn [app].
    eexists _, _, _, (E ++ (lit + 1 - 1) :: L ++ [c]). split; [done|]. split_and!; [len; len| |lia|lia].
    assert (zlength (L ++ [c]) = lit + 1) as HLc by len. split; unfold MAX_LIT; try lia.
    + rewrite Z.sub_0_r. replace (ip + 1) with (ip - lit + (lit + 1)) by lia. rewrite take_take_plus, HL1 by lia. rewrite <- HLc.
      apply decodes_lit; [done| |lia]. rewrite <- HL1. by apply Forall_take, Forall_drop.
    + len; len.
    + exists R. rewrite <- !app_assoc. cbn [app]. rewrite <- app_assoc. split; [done|]. destruct R as [|h' R]; [by left|right]. by exists h', R.
  - eexists _, _, _, E. split; [done|]. split_and!; [len; len| |lia|lia]. split; unfold MAX_LIT; try lia.
    + replace (ip + 1 - (lit + 1)) with (ip - lit) by lia. done.
    + replace (ip + 1 - (lit + 1)) with (ip - lit) by lia. rewrite HL1. eexists. split; [done|]. right. exists h, R. by rewrite <- app_assoc.
Qed.

Lemma emit_ref_correct E R off n : 0 <= off < 8192 -> 3 <= n <= 264 -> 3 <= zlength R ->
  exists R', emit_ref (E ++ R) (zlength E) off (n - 2) = Ok (E ++ enc_ref off n ++ R', zlength E + zlength (enc_ref off n)) /\
    (length (enc_ref off n) + length R' = length R)%nat.
Proof.
  intros Ho Hn HR. assert (0 <= off / 256 < 32) as Hhi by (split; [apply Z.div_pos; lia|apply Z.div_lt_upper_bound; lia]).
  destruct R as [|r0 [|r1 [|r2 R]]]; [simpl in HR; lia..|]. unfold emit_ref, enc_ref. rewrite Z.shiftr_div_pow2, !Z.shiftl_mul_pow2 by lia.
  change (2 ^ 8) with 256. change (2 ^ 5) with 32. change (u8 off) with (off mod 256).
  destruct (Z.ltb_spec (n - 2) 7) as [H7|H7].
  - rewrite (u_id 8) by lia. unfold set1. rewrite (store_app E [r0] [_] (r1 :: r2 :: R)) by done. cbn [app].
    set (c := off / 256 + (n - 2) * 32). exists (r2 :: R).
    replace (E ++ c :: r1 :: r2 :: R) with ((E ++ [c]) ++ [r1] ++ r2 :: R) by by rewrite <- app_assoc.
    rewrite (store_app (E ++ [c]) [r1] [off mod 256] (r2 :: R)) by (done || len).
    split; [|done]. f_equal. f_equal. rewrite <- app_assoc. cbn [app]. do 2 f_equal. unfold c. lia.
  - rewrite (u_id 8 (off / 256 + _)), (u_id 8 (n - 2 - 7)) by lia. unfold set1. rewrite (store_app E [r0] [_] (r1 :: r2 :: R)) by done. cbn [app].
    replace (n - 2 - 7) with (n - 9) by lia. exists R.
    replace (E ++ off / 256 + 7 * 32 :: r1 :: r2 :: R) with ((E ++ [off / 256 + 224]) ++ [r1] ++ r2 :: R) by by rewrite <- app_assoc.
    rewrite (store_app (E ++ [_]) [r1] [n - 9] (r2 :: R)) by (done || len). cbn [app].
    replace ((E ++ [off / 256 + 224]) ++ n - 9 :: r2 :: R) with ((E ++ [off / 256 + 224; n - 9]) ++ [r2] ++ R) by by rewrite <- !app_assoc.
    rewrite (store_app (E ++ [_; _]) [r2] [off mod 256] R) by (done || len). split; [|done]. by rewrite <- app_assoc.
Qed.

(** Writing a back reference for [n] octets that agree with earlier ones. *)
Lemma decodes_match inp ip E off n : 0 <= off < 8192 -> 3 <= n <= 264 -> 0 <= ip - off - 1 -> ip + n <= zlength inp ->
  agree inp (ip - off - 1) ip n -> decodes E (take (Z.to_nat ip) inp) ->
  decodes (E ++ enc_ref off n) (take (Z.to_nat (ip + n)) inp).
Proof.
  intros Ho Hn Hr Hl Ha Hd. rewrite take_take_plus by lia. set (X := take (Z.to_nat n) (drop (Z.to_nat ip) inp)).
  assert (zlength X = n) as HX by (unfold X; len). rewrite <- HX at 1. apply decodes_ref; [done..|lia|].
  split; [len|]. intros i Hi. rewrite !length_take, !(Nat.min_l (Z.to_nat ip)) by lia. unfold X. rewrite <- take_take_plus by lia.
  rewrite !lookup_take_lt by lia. specialize (Ha (Z.of_nat i) ltac:(lia)).
  replace (Z.to_nat ip + i)%nat with (Z.to_nat (ip + Z.of_nat i)) by lia. rewrite <- Ha. f_equal. lia.
Qed.

(** The result of a compression: failure, only for lack of space, or a decodable stream. *)
Definition compressed (inp : list Z) (out_len n : Z) (out' : list Z) : Prop :=
  (n = 0 /\ out_len < zlength inp + zlength inp / 32 + 4) \/
  (exists E R, out' = E ++ R /\ n = zlength E /\ decodes E inp).

Lemma compress_tail_correct inp : bytes_ok inp -> forall fuel out ip op lit E,
  cinv inp out ip op lit E -> zlength inp - ip <= 2 ->
  op + (zlength inp - ip) + (if lit + (zlength inp - ip) >=? 32 then 1 else 0) <= zlength out -> zlength inp - ip < Z.of_nat fuel ->
  exists out' op' lit' E', compress_tail fuel inp (zlength inp) out ip op lit = Ok (out', op', lit') /\ length out' = length out /\
    cinv inp out' (zlength inp) op' lit' E' /\ op' <= zlength out'.
Proof.
  intros Hb. induction fuel as [|fuel IH]; intros out ip op lit E Hc Hrem Hphi Hf; pose proof Hc as [Hl Hi _ _ _ _]; [lia|].
  unfold MAX_LIT in *. cbn [compress_tail]. rewrite Z.geb_leb in Hphi. destruct (Z.ltb_spec ip (zlength inp)) as [Hlt|Hge].
  - destruct (put_literal_correct inp out ip op lit E Hb Hc Hlt) as (out1 & op1 & lit1 & E1 & -> & Hl1 & Hc1 & Hop1).
    { destruct (Z.leb_spec 32 (lit + (zlength inp - ip))); lia. }
    destruct (IH out1 (ip + 1) op1 lit1 E1 Hc1) as (out' & op' & lit' & E' & -> & Hl' & Hc' & Ho'); [lia| |lia|].
    { rewrite Z.geb_leb. unfold MAX_LIT in Hop1. destruct (Z.eqb_spec (lit + 1) 32) as [H32|H32], Hop1 as [-> ->];
        destruct (Z.leb_spec 32 (lit + (zlength inp - ip))), (Z.leb_spec 32 (0 + (zlength inp - (ip + 1)))),
          (Z.leb_spec 32 (lit + 1 + (zlength inp - (ip + 1)))); lia. }
    exists out', op', lit', E'. split_and!; [done|lia|done|done].
  - assert (ip = zlength inp) as -> by lia. exists out, op, lit, E. split_and!; [done..|].
    destruct (Z.leb_spec 32 (lit + (zlength inp - zlength inp))); lia.
Qed.

Lemma compress_finish_correct inp out ip op lit E : bytes_ok inp -> cinv inp out ip op lit E -> zlength inp - ip <= 2 ->
  exists n out', compress_finish inp (zlength inp) out (zlength out) ip op lit = Ok (n, out') /\ length out' = length out /\
    compressed inp (zlength out) n out'.
Proof.
  intros Hb Hc Hrem. unfold compress_finish. pose proof Hc as [Hl Hi _ Hop _ Hbd]. unfold MAX_LIT in *.
  rewrite Z.gtb_ltb. destruct (Z.ltb_spec (zlength out) (op + 3)) as [Hfull|Hroom].
  { exists 0, out. split_and!; [done..|]. left. split; [done|]. pose proof (Z.div_mod (zlength inp) 32). pose proof (Z.mod_pos_bound (zlength inp) 32). lia. }
  destruct (compress_tail_correct inp Hb (S (Z.to_nat (zlength inp - ip))) out ip op lit E Hc Hrem) as (out1 & op1 & lit1 & E1 & -> & Hl1 & Hc1 & Ho1).
  { rewrite Z.geb_leb. destruct (Z.leb_spec 32 (lit + (zlength inp - ip))); lia. }
  { lia. }
  destruct (flush_run inp out1 (zlength inp) op1 lit1 E1 Hb Hc1 Ho1) as (out2 & E2 & R & -> & Hl2 & EO & Hd2 & HE2).
  eexists _, out2. split; [done|]. split; [lia|]. right. exists E2, R. split_and!; [done|lia|].
  rewrite Nat2Z.id, take_ge in Hd2 by lia. done.
Qed.

Lemma next_ok inp v p : 0 <= p -> p + 2 < zlength inp -> exists h, NEXT v inp p = Ok h.
Proof. intros H1 H2. unfold NEXT. destruct (get1_in inp (p + 2) ltac:(lia)) as [c ->]. by eexists. Qed.
Lemma frst_ok inp p : 0 <= p -> p + 1 < zlength inp -> exists h, FRST inp p = Ok h.
Proof.
  intros H1 H2. unfold FRST. destruct (get1_in inp p ltac:(lia)) as [a ->]. destruct (get1_in inp (p + 1) ltac:(lia)) as [b ->]. by eexists.
Qed.

Definition htab_ok (t : htable) : Prop := forall i, 0 <= t i < 2 ^ 64.
Lemma set_slot_ok t i a : htab_ok t -> 0 <= a < 2 ^ 64 -> htab_ok (set_slot t i a).
Proof. intros Ht Ha j. unfold set_slot. destruct (j =? i); auto. Qed.

(** One back reference: close the run, write the reference, open a new run. *)
Lemma compress_ref inp out ip op lit E ref off len : bytes_ok inp -> cinv inp out ip op lit E ->
  op - b2z (lit =? 0) + 3 + 1 < zlength out -> 0 <= off < 8192 -> ref = ip - off - 1 -> 0 <= ref ->
  3 <= len <= 264 -> ip + len <= zlength inp -> agree inp ref ip len ->
  exists out1 out2 op2 E', set1 (op - lit - 1) (u8 (lit - 1)) out = Ok out1 /\
    emit_ref out1 (op - b2z (lit =? 0)) off (len - 2) = Ok (out2, op2) /\ length out2 = length out /\
    cinv inp out2 (ip + len) (op2 + 1) 0 E'.
Proof.
  intros Hb Hc Hroom Hoff -> Hr Hlen Hl Ha. pose proof Hc as [Hlit Hi _ Hop _ Hbd]. unfold MAX_LIT in *.
  assert (0 <= b2z (lit =? 0) <= 1) as Hb01 by (destruct (lit =? 0); simpl; lia).
  destruct (flush_run inp out ip op lit E Hb Hc ltac:(lia)) as (out1 & E1 & R & -> & Hl1 & -> & Hd1 & HE1).
  rewrite length_app in Hl1.
  destruct (emit_ref_correct E1 R off len Hoff Hlen ltac:(lia)) as (R' & He & HR'). rewrite HE1 in He.
  eexists _, _, _, (E1 ++ enc_ref off len). split; [done|]. split; [exact He|]. split; [rewrite !length_app; lia|].
  assert (zlength (enc_ref off len) <= 3 /\ (len < 9 -> zlength (enc_ref off len) = 2)) as [He3 He2].
  { unfold enc_ref. destruct (Z.ltb_spec (len - 2) 7); simpl; lia. }
  split; unfold MAX_LIT; try lia.
  - rewrite Z.sub_0_r. by apply decodes_match.
  - rewrite length_app. lia.
  - exists R'. rewrite <- app_assoc. split; [done|]. destruct R' as [|h R']; [by left|right]. by exists h, R'.
Qed.

Lemma compress_loop_correct inp base : bytes_ok inp -> 2 <= zlength inp -> 8192 <= base -> base + zlength inp < 2 ^ 64 ->
  forall fuel htab out ip op lit hval E, htab_ok htab -> cinv inp out ip op lit E -> zlength inp - ip < Z.of_nat fuel ->
  exists n out', compress_loop fuel inp (zlength inp) base (zlength out) htab out ip op lit hval = Ok (n, out') /\ length out' = length out /\
    compressed inp (zlength out) n out'.
Proof.
  intros Hb H2 Hbase Hend. induction fuel as [|fuel IH]; intros htab out ip op lit hval E Ht Hc Hf;
    pose proof Hc as [Hl Hi Hd Hop Hout Hbd]; [lia|]. unfold MAX_LIT in *. cbn [compress_loop].
  assert (forall k, 32 * k <= 33 * zlength inp + 96 -> k < zlength inp + zlength inp / 32 + 4) as Hspace.
  { intros k Hk. pose proof (Z.div_mod (zlength inp) 32). pose proof (Z.mod_pos_bound (zlength inp) 32). lia. }
  destruct (Z.ltb_spec ip (zlength inp - 2)) as [Hlt|Hge]; [|apply (compress_finish_correct inp out ip op lit E Hb Hc); lia].
  destruct (next_ok inp hval ip ltac:(lia) ltac:(lia)) as [h1 ->].
  assert (htab_ok (set_slot htab (IDX h1) (base + ip))) as Ht1 by (apply set_slot_ok; [done|lia]).
  destruct (find_match_correct inp base (htab (IDX h1)) ip Hb ltac:(lia) ltac:(lia) Hbase Hend (Ht _)) as (m & -> & Hm).
  destruct m as [off|].
  - destruct Hm as (Hoff & Href & Hr0 & Ha). rewrite !Z.geb_leb.
    destruct ((zlength out <=? op + 3 + 1) && (zlength out <=? op - b2z (lit =? 0) + 3 + 1)) eqn:Efull.
    { exists 0, out. split_and!; [done..|]. left. split; [done|]. apply Hspace. lia. }
    assert (op - b2z (lit =? 0) + 3 + 1 < zlength out) as Hroom by (destruct (lit =? 0); simpl in *; lia).
    destruct (match_len_correct inp (htab (IDX h1) - base) ip) as (len & Hml & Hlen & Hlin & Hag); [lia|lia|done|].
    destruct (compress_ref inp out ip op lit E (htab (IDX h1) - base) off len) as (out1 & out2 & op2 & E' & -> & He & Hlo & Hc'); try done.
    cbv zeta in Hml. rewrite Hml, He. replace (ip + 1 + (len - 2 + 1)) with (ip + len) by lia.
    rewrite <- Hlo, Z.geb_leb. destruct (Z.leb_spec (zlength inp - 2) (ip + len)) as [Hstop|Hgo].
    + apply (compress_finish_correct inp out2 (ip + len) (op2 + 1) 0 E' Hb Hc'). lia.
    + destruct (frst_ok inp (ip + len - 2) ltac:(lia) ltac:(lia)) as [h2 ->].
      destruct (next_ok inp h2 (ip + len - 2) ltac:(lia) ltac:(lia)) as [h3 ->].
      destruct (next_ok inp h3 (ip + len - 2 + 1) ltac:(lia) ltac:(lia)) as [h4 ->].
      replace (ip + len - 2 + 1 + 1) with (ip + len) by lia.
      apply (IH _ out2 (ip + len) (op2 + 1) 0 h4 E'); [|done|lia]. apply set_slot_ok; [apply set_slot_ok; [done|lia]|lia].
  - rewrite Z.geb_leb. destruct (Z.leb_spec (zlength out) op) as [Hfull|Hroom].
    { exists 0, out. split_and!; [done..|]. left. split; [done|]. apply Hspace. lia. }
    destruct (put_literal_correct inp out ip op lit E Hb Hc ltac:(lia) Hroom) as (out1 & op1 & lit1 & E1 & -> & Hl1 & Hc1 & _).
    rewrite <- Hl1. apply (IH _ out1 (ip + 1) op1 lit1 h1 E1); [done..|lia].
Qed.

(** The compressor gives up, or its output starts with a stream for the input. *)
Lemma compress_decodes htab base inp out :
  bytes_ok inp -> 2 <= zlength inp -> 1 <= zlength out -> 8192 <= base -> base + zlength inp < 2 ^ 64 ->
  (forall i, 0 <= htab i < 2 ^ 64) ->
  exists n out', lzf_compress htab base inp (zlength inp) out (zlength out) = Ok (n, out') /\ length out' = length out /\
    ((n = 0 /\ zlength out < zlength inp + zlength inp / 32 + 4) \/
     (0 < n <= zlength out /\ exists E R, out' = E ++ R /\ n = zlength E /\ decodes E inp)).
Proof.
  intros Hb H2 H1 Hbase Hend Ht. unfold lzf_compress. rewrite (proj2 (Z.eqb_neq _ 0)), (proj2 (Z.eqb_neq _ 0)) by lia. cbn [orb].
  destruct (frst_ok inp 0 ltac:(lia) ltac:(lia)) as [h0 ->]. rewrite Nat2Z.id.
  destruct (compress_loop_correct inp base Hb H2 Hbase Hend (S (length inp)) htab out 0 1 0 h0 []) as (n & out' & Hrun & Hl & Hres).
  - done.
  - split; unfold MAX_LIT; try lia; [constructor|done|]. exists out. split; [done|]. destruct out as [|h R]; [by left|right]. by exists h, R.
  - lia.
  - exists n, out'. split_and!; [done..|]. destruct Hres as [Hfail|(E & R & -> & -> & Hd)]; [by left|right]. rewrite length_app in Hl. split; [|by exists E, R].
    assert (E <> []) as HE; [|destruct E; [done|cbn [length] in *; lia]]. intros ->. remember ([] : list Z) as e0 eqn:Ee. destruct Hd.
    + simpl in H2. lia.
    + by destruct e.
    + unfold enc_ref in Ee. destruct e; [destruct (_ <? 7)|]; done.
Qed.

(** C11: whatever the uninitialised hash table contains, lzf_compress stays inside its
    buffers, and either returns 0, which it does only when the output is smaller than
    the input plus one octet in 32 plus 4, or the length of a stream that lzf_decompress
    turns back into exactly the input. *)
Theorem lzf_roundtrip htab base inp out :
  bytes_ok inp -> 2 <= zlength inp -> 1 <= zlength out -> 8192 <= base -> base + zlength inp < 2 ^ 64 ->
  (forall i, 0 <= htab i < 2 ^ 64) ->
  exists n out', lzf_compress htab base inp (zlength inp) out (zlength out) = Ok (n, out') /\ length out' = length out /\
    ((n = 0 /\ zlength out < zlength inp + zlength inp / 32 + 4) \/
     (0 < n <= zlength out /\ forall dst, (length inp <= length dst)%nat ->
        lzf_decompress out' n dst (zlength dst) = Ok (zlength inp, None, inp ++ drop (length inp) dst))).
Proof.
  intros Hb H2 H1 Hbase Hend Ht. destruct (compress_decodes htab base inp out Hb H2 H1 Hbase Hend Ht) as (n & out' & Hc & Hl & Hres).
  exists n, out'. split_and!; [done..|]. destruct Hres as [Hfail|[Hn (E & R & -> & -> & Hd)]]; [by left|right]. split; [done|].
  intros dst Hdst. by apply decodes_decompress.
Qed.

Lemma lzf_roundtrip_witness :
  exists n out', lzf_compress (fun _ => 77) 65536 (replicate 40 97) 40 (replicate 50 0) 50 = Ok (n, out') /\ 0 < n /\
    lzf_decompress out' n (replicate 40 0) 40 = Ok (40, None, replicate 40 97).
Proof.
  destruct (lzf_roundtrip (fun _ => 77) 65536 (replicate 40 97) (replicate 50 0)) as (n & out' & H1 & _ & [[_ H2]|[[H2 _] H3]]);
    [apply Forall_replicate; lia|vm_compute; discriminate|vm_compute; discriminate|lia|vm_compute; reflexivity|intros; lia|vm_compute in H2; discriminate H2|].
  exists n, out'. split; [exact H1|]. split; [exact H2|]. exact (H3 (replicate 40 0) (le_n 40)).
Defined.
