(* ===== verification/SetType.v ===== *)
(** Set objects, the model: the type layer of src/redis-stable/src/t_set.c.

    A set object is stored as an integer set, as a listpack or as a hash table whose keys
    are strings, and changes its encoding as it grows.  The operations take a member as a
    string or, with a NULL string, as an integer.  A string is the list of its bytes;
    sdsnewlen and sdsdup are the identity on them, freeing is not observable.  The hash
    function (SipHash with a secret key), the address of a table, and the allocation size
    of a string, which is only added up for the memory statistics, are parameters. *)

From stdpp Require Import gmap.
From S2P Require Import Prelude Machine Iterable Intset UtilNum Listpack Dict DictInv DictOps DictIter.

(** * Strings as keys of a hash table *)

(** dictSdsKeyCompare keeps lengths in an int; the server accepts no string of 2^31 bytes
    or more, and making one is a fault of the model. *)
Definition sds_fits (bs : list Z) : Prop := zlength bs < 2147483648.
Definition sds : Type := dsig sds_fits.
#[global] Instance sds_eq_dec : EqDecision sds.
Proof. unfold sds. apply _. Defined.
#[global] Instance sds_countable : Countable sds.
Proof. apply (inj_countable' (proj1_sig : sds -> list Z) (fun bs => match decide (sds_fits bs) with left H => dexist bs H | right _ => dexist [] eq_refl end)). intros x. destruct (decide _) as [Hx|Hx]; [by apply dsig_eq|]. destruct Hx. apply (proj2_dsig x). Defined.

(** The bytes of a string. *)
Definition sds_bytes (k : sds) : list Z := proj1_sig k.

Definition sdsnewlen (bs : list Z) : res sds :=
  match decide (sds_fits bs) with left H => Ok (dexist bs H) | right _ => Fault AssertFailed end.

(** memcmp(s1, s2, n) == 0 *)
Fixpoint memcmp_eq (n : nat) (s1 s2 : list Z) : bool :=
  match n, s1, s2 with
  | O, _, _ => true
  | S n, c1 :: s1, c2 :: s2 => (c1 =? c2) && memcmp_eq n s1 s2
  | S _, _, _ => false
  end.

Definition dictSdsKeyCompare (key1 key2 : sds) : bool :=
  let l1 := s32 (zlength (sds_bytes key1)) in
  let l2 := s32 (zlength (sds_bytes key2)) in
  if negb (l1 =? l2) then false else memcmp_eq (Z.to_nat l1) (sds_bytes key1) (sds_bytes key2).

(** * Set objects *)

Record set_config := mkSetConfig {
  set_max_intset_entries : Z;
  set_max_listpack_entries : Z;
  set_max_listpack_value : Z
}.

(** The encoding and the pointer; with a hash table the [alloc_size] of its metadata. *)
Inductive setobj :=
| SetIntset (iset : intset)
| SetListpack (lp : list Z)
| SetHT (d : dict sds unit) (alloc_size : Z).

Inductive set_encoding := OBJ_ENCODING_INTSET | OBJ_ENCODING_LISTPACK | OBJ_ENCODING_HT.
#[global] Instance set_encoding_eq_dec : EqDecision set_encoding.
Proof. solve_decision. Defined.

Definition encoding_of (o : setobj) : set_encoding :=
  match o with
  | SetIntset _ => OBJ_ENCODING_INTSET
  | SetListpack _ => OBJ_ENCODING_LISTPACK
  | SetHT _ _ => OBJ_ENCODING_HT
  end.

(** An element as the iterator delivers it: a string, or an integer with a NULL string. *)
Inductive set_elem := ElStr (bs : list Z) | ElInt (llele : Z).

(** dictGetKey of an entry *)
Definition ht_elem (de : sds * unit) : set_elem := ElStr (sds_bytes (fst de)).

Inductive setTypeIterator :=
| SiIntset (ii : Z)
| SiListpack (lpi : option Z)
| SiHT (di : dictIterator sds).

Section SetType.
Context (junk : Z) (hashFunction : sds -> Z) (table_address : list (list (sds * unit)) -> Z) (sdsAllocSize : list Z -> Z).
Context (dict_can_resize : dictResizeEnable) (server : set_config).

Definition setTypeCreate (value : list Z) (size_hint : Z) : res setobj :=
  let! llval := string2ll value (zlength value) in
  if bool_decide (llval <> None) && (size_hint <=? set_max_intset_entries server) then Ok (SetIntset intsetNew)
  else if size_hint <=? set_max_listpack_entries server then let! lp := lpNew junk 0 in Ok (SetListpack lp)
  else
    let! '(_, d) := dictExpand hashFunction false dict_can_resize dictCreate size_hint in
    Ok (SetHT d 0).

(** lpLength repairs the count of a listpack in place: the object is returned as well. *)
Definition setTypeSize (subject : setobj) : res (Z * setobj) :=
  match subject with
  | SetHT d _ => Ok (dictSize d, subject)
  | SetIntset iset => Ok (intsetLen iset, subject)
  | SetListpack lp => let! '(n, lp) := lpLength lp in Ok (n, SetListpack lp)
  end.

(** ** Iteration *)

Definition setTypeInitIterator (subject : setobj) : setTypeIterator :=
  match subject with
  | SetHT _ _ => SiHT dictInitIterator
  | SetIntset _ => SiIntset 0
  | SetListpack _ => SiListpack None
  end.

Definition setTypeReleaseIterator (subject : setobj) (si : setTypeIterator) : res unit :=
  match subject, si with
  | SetHT d _, SiHT di => let! _ := dictResetIterator table_address d di in Ok tt
  | _, _ => Ok tt
  end.

(** [None] is the result -1 *)
Definition setTypeNext (subject : setobj) (si : setTypeIterator) : res (option set_elem * setTypeIterator) :=
  match si, subject with
  | SiHT di, SetHT d _ =>
      let! '(de, _, di) := dictNext table_address d di in
      Ok (option_map ht_elem de, SiHT di)
  | SiIntset ii, SetIntset iset =>
      let! llele := intsetGet iset (u32 ii) in
      Ok (option_map ElInt llele, SiIntset (s32 (ii + 1)))
  | SiListpack lpi, SetListpack lp =>
      let! lpi := (match lpi with None => lpFirst lp | Some p => lpNext lp p end) in
      match lpi with
      | None => Ok (None, si)
      | Some p =>
          let! v := lpGetValue lp p in
          match v with
          | inl (off, l) => let! str := load off l lp in Ok (Some (ElStr str), SiListpack (Some p))
          | inr llele => Ok (Some (ElInt llele), SiListpack (Some p))
          end
      end
  | _, _ => Fault AssertFailed
  end.

Definition sdsfromlonglong (value : Z) : res sds :=
  let! '(len, buf) := ll2string (replicate 21 junk) LONG_STR_SIZE value in
  sdsnewlen (take (Z.to_nat len) buf).

(** the new string of setTypeNextObject *)
Definition elem_object (e : set_elem) : res sds :=
  match e with ElStr str => sdsnewlen str | ElInt intele => sdsfromlonglong intele end.

#[export] Instance set_iterator : Iterator setobj setTypeIterator set_elem := {
  next_element := setTypeNext;
  release_iterator := setTypeReleaseIterator
}.

(** More turns than any loop over the elements needs. *)
Definition set_fuel (o : setobj) : nat :=
  match o with
  | SetIntset iset => S (Z.to_nat (intsetLen iset))
  | SetListpack lp => S (length lp)
  | SetHT d _ => S (Z.to_nat (dictSize d))
  end.

(** while (setTypeNext(si, ...) != -1) ... between setTypeInitIterator and
    setTypeReleaseIterator *)
Definition set_each {A} (o : setobj) (f : A -> set_elem -> res A) (a : A) : res A :=
  each (set_fuel o) o (setTypeInitIterator o) f a.

(** ** Conversion *)

(** A NULL result of a listpack update is dereferenced by the next use. *)
Definition not_null {A} (r : res (option A)) : res A :=
  let! r := r in match r with Some a => Ok a | None => Fault OutOfBounds end.

Definition setDictAdd (d : dict sds unit) (key : sds) : res (dictStatus * dict sds unit) :=
  dictAdd hashFunction dictSdsKeyCompare None false dict_can_resize d tt key tt.

(** serverAssert(dictAdd(d,element,NULL) == DICT_OK); *alloc_size += sdsAllocSize(element) *)
Definition ht_add_new (ht : dict sds unit * Z) (element : sds) : res (dict sds unit * Z) :=
  let! '(st, d) := setDictAdd (fst ht) element in
  assert! bool_decide (st = DICT_OK) in
  Ok (d, u64 (snd ht + sdsAllocSize (sds_bytes element))).

(** the element of a set, appended to a listpack *)
Definition lp_add_elem (lp : list Z) (e : set_elem) : res (list Z) :=
  match e with
  | ElStr str => not_null (lpAppend junk lp str (zlength str))
  | ElInt llele => not_null (lpAppendInteger junk lp llele)
  end.

(** [malloc_ok] is the outcome of the allocation when [panic] is not set; the flag of the
    result is C_OK. *)
Definition setTypeConvertAndExpand (o : setobj) (enc : set_encoding) (cap : Z) (panic malloc_ok : bool) : res (bool * setobj) :=
  assert! negb (bool_decide (encoding_of o = enc)) in
  match enc with
  | OBJ_ENCODING_HT =>
      let! '(ok, d) :=
        (if panic then let! '(_, d) := dictExpand hashFunction false dict_can_resize dictCreate cap in Ok (true, d)
         else let! '(st, d) := dictTryExpand hashFunction false dict_can_resize dictCreate cap malloc_ok in
              Ok (bool_decide (st = DICT_OK), d)) in
      if negb ok then Ok (false, o)
      else
        let! '(d, alloc_size) := set_each o (fun ht e => let! element := elem_object e in ht_add_new ht element) (d, 0) in
        Ok (true, SetHT d alloc_size)
  | OBJ_ENCODING_LISTPACK =>
      let! '(n, o) := setTypeSize o in
      let! estcap :=
        (match o with
         | SetIntset iset =>
             if n >? 0 then
               let! lo := intsetMin iset in
               let! hi := intsetMax iset in
               Ok (Z.max (lpEstimateBytesRepeatedInteger lo cap) (lpEstimateBytesRepeatedInteger hi cap))
             else Ok (u64 (cap * 2))
         | _ => Ok (u64 (cap * 2))
         end) in
      let! lp := lpNew junk estcap in
      let! lp := set_each o lp_add_elem lp in
      Ok (true, SetListpack lp)
  | OBJ_ENCODING_INTSET => Fault AssertFailed
  end.

Definition setTypeConvert (o : setobj) (enc : set_encoding) : res setobj :=
  let! '(n, o) := setTypeSize o in
  let! '(_, o) := setTypeConvertAndExpand o enc n true true in Ok o.

Definition setTypeMaybeConvert (o : setobj) (size_hint : Z) : res setobj :=
  match o with
  | SetListpack _ =>
      if size_hint >? set_max_listpack_entries server
      then let! '(_, o) := setTypeConvertAndExpand o OBJ_ENCODING_HT size_hint true true in Ok o else Ok o
  | SetIntset _ =>
      if size_hint >? set_max_intset_entries server
      then let! '(_, o) := setTypeConvertAndExpand o OBJ_ENCODING_HT size_hint true true in Ok o else Ok o
  | SetHT _ _ => Ok o
  end.

Definition intsetMaxEntries : Z :=
  let max_entries := set_max_intset_entries server in
  if max_entries >=? 1073741824 then 1073741824 else max_entries.

Definition maybeConvertIntset (subject : setobj) : res setobj :=
  match subject with
  | SetIntset iset =>
      if intsetLen iset >? intsetMaxEntries then setTypeConvert subject OBJ_ENCODING_HT else Ok subject
  | _ => Fault AssertFailed
  end.

(** the body of the loop of maybeConvertToIntset *)
Definition intset_add_elem (iset : intset) (e : set_elem) : res intset :=
  let! llval := (match e with
                 | ElStr str => let! r := string2ll str (zlength str) in
                                match r with Some v => Ok v | None => Fault AssertFailed end
                 | ElInt v => Ok v
                 end) in
  let! '(iset, success) := intsetAdd junk iset llval in
  assert! success in Ok iset.

Definition maybeConvertToIntset (o : setobj) : res setobj :=
  match o with
  | SetIntset _ => Ok o
  | _ =>
      let! '(n, o) := setTypeSize o in
      if n >? intsetMaxEntries then Ok o
      else let! iset := set_each o intset_add_elem intsetNew in Ok (SetIntset iset)
  end.

(** ** Adding *)

(** the conversion of an integer argument to a string in tmpbuf *)
Definition int_to_str (llval : Z) : res (list Z) :=
  let! '(len, tmpbuf) := ll2string (replicate 21 junk) LONG_STR_SIZE llval in
  Ok (take (Z.to_nat len) tmpbuf).

(** set->ptr = intsetAdd(set->ptr, value, &success) *)
Definition intset_add (iset : intset) (value : Z) : res (bool * setobj) :=
  let! '(iset, success) := intsetAdd junk iset value in
  if (success : bool) then let! o := maybeConvertIntset (SetIntset iset) in Ok (true, o)
  else Ok (false, SetIntset iset).

(** the hash table branch *)
Definition ht_add (d : dict sds unit) (alloc_size : Z) (str : list Z) : res (bool * setobj) :=
  let! sdsval := sdsnewlen str in
  let! '(link, bucket, d) := dictFindLink hashFunction dictSdsKeyCompare dict_can_resize d sdsval true in
  match link with
  | None =>
      let! d := dictSetKeyAtLink hashFunction dictSdsKeyCompare None dict_can_resize d tt sdsval bucket in
      Ok (true, SetHT d (u64 (alloc_size + sdsAllocSize (sds_bytes sdsval))))
  | Some _ => Ok (false, SetHT d alloc_size)
  end.

(** Conversion to a hash table that has room for one more, and the new member. *)
Definition convert_and_add (o : setobj) (cap : Z) (str : list Z) : res (bool * setobj) :=
  let! '(_, o) := setTypeConvertAndExpand o OBJ_ENCODING_HT cap true true in
  match o with
  | SetHT d alloc_size =>
      let! newval := sdsnewlen str in
      let! '(d, alloc_size) := ht_add_new (d, alloc_size) newval in
      Ok (true, SetHT d alloc_size)
  | _ => Fault AssertFailed
  end.

(** the listpack branch; [from_int] tells that the string was made from [llval] *)
Definition lp_add (lp str : list Z) (llval : Z) (from_int : bool) : res (bool * setobj) :=
  let! p := lpFirst lp in
  let! p := (match p with Some _ => lpFind lp p str (zlength str) 0 | None => Ok None end) in
  match p with
  | Some _ => Ok (false, SetListpack lp)
  | None =>
      let! '(n, lp) := lpLength lp in
      let! safe := lpSafeToAdd (Some lp) (zlength str) in
      if (n <? set_max_listpack_entries server) && (zlength str <=? set_max_listpack_value server) && safe then
        let! lp := not_null (if (from_int : bool) then lpAppendInteger junk lp llval
                             else lpAppend junk lp str (zlength str)) in
        Ok (true, SetListpack lp)
      else convert_and_add (SetListpack lp) (u64 (n + 1)) str
  end.

(** the intset branch *)
Definition intset_add_str (iset : intset) (str : list Z) : res (bool * setobj) :=
  let! value := string2ll str (zlength str) in
  match value with
  | Some value => intset_add iset value
  | None =>
      let n := intsetLen iset in
      let! '(maxelelen, totsize) :=
        (if negb (n =? 0) then
           let! hi := intsetMax iset in
           let! lo := intsetMin iset in
           let! elelen1 := sdigits10 hi in
           let! elelen2 := sdigits10 lo in
           Ok (Z.max elelen1 elelen2,
               Z.max (lpEstimateBytesRepeatedInteger hi n) (lpEstimateBytesRepeatedInteger lo n))
         else Ok (0, 0)) in
      let! safe := lpSafeToAdd None (u64 (totsize + zlength str)) in
      if (intsetLen iset <? set_max_listpack_entries server) && (zlength str <=? set_max_listpack_value server) &&
         (maxelelen <=? set_max_listpack_value server) && safe then
        let! '(_, o) := setTypeConvertAndExpand (SetIntset iset) OBJ_ENCODING_LISTPACK (n + 1) true true in
        match o with
        | SetListpack lp =>
            let! lp := not_null (lpAppend junk lp str (zlength str)) in
            let! lp := lpShrinkToFit junk lp in
            Ok (true, SetListpack lp)
        | _ => Fault AssertFailed
        end
      else convert_and_add (SetIntset iset) (n + 1) str
  end.

(** [str] is NULL for a member given as the integer [llval]. *)
Definition setTypeAddAux (o : setobj) (str : option (list Z)) (llval : Z) : res (bool * setobj) :=
  match str, o with
  | None, SetIntset iset => intset_add iset llval
  | _, _ =>
      let! '(s, from_int) := (match str with
                              | Some s => Ok (s, false)
                              | None => let! s := int_to_str llval in Ok (s, true)
                              end) in
      match o with
      | SetHT d alloc_size => ht_add d alloc_size s
      | SetListpack lp => lp_add lp s llval from_int
      | SetIntset iset => intset_add_str iset s
      end
  end.

Definition setTypeAdd (o : setobj) (value : list Z) : res (bool * setobj) := setTypeAddAux o (Some value) 0.

(** ** Removing and testing *)

Definition ht_remove (d : dict sds unit) (alloc_size : Z) (str : list Z) : res (bool * setobj) :=
  let! sdsval := sdsnewlen str in
  let! '(st, d) := dictDelete hashFunction dictSdsKeyCompare None false dict_can_resize d sdsval in
  let deleted := bool_decide (st = DICT_OK) in
  (* the key destructor setSdsDestructor *)
  Ok (deleted, SetHT d (if deleted then u64 (alloc_size - sdsAllocSize (sds_bytes sdsval)) else alloc_size)).

Definition setTypeRemoveAux (o : setobj) (str : option (list Z)) (llval : Z) : res (bool * setobj) :=
  match str, o with
  | None, SetIntset iset =>
      let! '(iset, success) := intsetRemove junk iset llval in Ok (success, SetIntset iset)
  | _, _ =>
      let! s := (match str with Some s => Ok s | None => int_to_str llval end) in
      match o with
      | SetHT d alloc_size => ht_remove d alloc_size s
      | SetListpack lp =>
          let! p := lpFirst lp in
          match p with
          | None => Ok (false, o)
          | Some _ =>
              let! p := lpFind lp p s (zlength s) 0 in
              match p with
              | Some p => let! '(lp, _) := not_null (lpDelete junk lp p) in Ok (true, SetListpack lp)
              | None => Ok (false, o)
              end
          end
      | SetIntset iset =>
          let! llval := string2ll s (zlength s) in
          match llval with
          | Some llval => let! '(iset, success) := intsetRemove junk iset llval in Ok (success, SetIntset iset)
          | None => Ok (false, o)
          end
      end
  end.

Definition setTypeRemove (o : setobj) (value : list Z) : res (bool * setobj) := setTypeRemoveAux o (Some value) 0.

(** dictFind may move entries on the way: the object is returned as well. *)
Definition setTypeIsMemberAux (o : setobj) (str : option (list Z)) (llval : Z) : res (bool * setobj) :=
  match str, o with
  | None, SetIntset iset => let! b := intsetFind iset llval in Ok (b, o)
  | _, _ =>
      let! s := (match str with Some s => Ok s | None => int_to_str llval end) in
      match o with
      | SetListpack lp =>
          let! p := lpFirst lp in
          match p with
          | None => Ok (false, o)
          | Some _ => let! p := lpFind lp p s (zlength s) 0 in Ok (bool_decide (p <> None), o)
          end
      | SetIntset iset =>
          let! llval := string2ll s (zlength s) in
          match llval with
          | Some llval => let! b := intsetFind iset llval in Ok (b, o)
          | None => Ok (false, o)
          end
      | SetHT d alloc_size =>
          let! sdsval := sdsnewlen s in
          let! '(de, d) := dictFind hashFunction dictSdsKeyCompare dict_can_resize d sdsval in
          Ok (bool_decide (de <> None), SetHT d alloc_size)
      end
  end.

Definition setTypeIsMember (o : setobj) (value : list Z) : res (bool * setobj) := setTypeIsMemberAux o (Some value) 0.

(** ** Copying *)

Definition setTypeDup (o : setobj) : res setobj :=
  match o with
  | SetIntset iset => Ok (SetIntset iset)
  | SetListpack lp => let! sz := lpBytes lp in let! new_lp := load 0 sz lp in Ok (SetListpack new_lp)
  | SetHT d _ =>
      let! '(_, d') := dictExpand hashFunction false dict_can_resize dictCreate (dictSize d) in
      set_each o (fun set e =>
        let! '(_, set) := (match e with ElStr str => setTypeAdd set str | ElInt _ => Fault AssertFailed end) in
        Ok set) (SetHT d' 0)
  end.
End SetType.
