(* ===== verification/SetTypeSpec.v ===== *)
(** Set objects, the contract: the type layer of src/redis-stable/src/t_set.c keeps a
    finite set of byte strings, whatever encoding holds it and whatever conversions the
    operations trigger.  The proofs use the contracts of the integer set, the listpack
    and the hash table, and the iteration contract of [Iterable]. *)

From Stdlib Require Import String.
From stdpp Require Import gmap.
From S2P Require Import Prelude Machine Iterable Intset UtilNum Listpack ListpackEnc ListpackSeq ListpackRead ListpackUpd ListpackSpec.
From S2P Require Import Dict DictInv DictOps DictIter SetType.

(** * Strings as keys *)

Lemma memcmp_eq_spec : forall (s1 s2 : list Z), length s1 = length s2 -> memcmp_eq (length s1) s1 s2 = true <-> s1 = s2.
Proof.
  induction s1 as [|c1 s1 IH]; intros [|c2 s2]; simpl; try done. intros [= Hl].
  rewrite andb_true_iff, Z.eqb_eq, (IH s2 Hl). split; [by intros [-> ->]|by intros [= -> ->]].
Qed.

Lemma sds_length (k : sds) : 0 <= zlength (sds_bytes k) < 2147483648.
Proof. split; [lia|]. apply (proj2_dsig k). Qed.

Lemma sds_bytes_inj (a b : sds) : sds_bytes a = sds_bytes b <-> a = b.
Proof. symmetry. apply (dsig_eq sds_fits). Qed.

Lemma dictSdsKeyCompare_eq (a b : sds) : dictSdsKeyCompare a b = true <-> a = b.
Proof.
  pose proof (sds_length a). pose proof (sds_length b). unfold dictSdsKeyCompare.
  rewrite !s_id by (unfold in_s; pow_const; lia). rewrite <- sds_bytes_inj.
  destruct (Z.eqb_spec (zlength (sds_bytes a)) (zlength (sds_bytes b))) as [E|E]; cbn [negb].
  - rewrite Nat2Z.id. apply memcmp_eq_spec. by apply Nat2Z.inj.
  - split; [done|]. intros E'. by rewrite E' in E.
Qed.

Lemma sdsnewlen_ok bs : zlength bs < 2147483648 -> exists k : sds, sdsnewlen bs = Ok k /\ sds_bytes k = bs.
Proof. intros Hl. unfold sdsnewlen. destruct (decide (sds_fits bs)) as [H|H]; [|done]. by exists (dexist bs H). Qed.

(** * The text of an element *)

(** The canonical decimal notation. *)
Definition int_text (v : Z) : list Z :=
  match ll2string (replicate 21 0) LONG_STR_SIZE v with Ok (n, buf) => take (Z.to_nat n) buf | Fault _ => [] end.

Lemma int_text_buf junk v txt :
  in_s 64 v -> sdecimal v txt ->
  exists buf, ll2string (replicate 21 junk) LONG_STR_SIZE v = Ok (zlength txt, buf) /\ take (length txt) buf = txt.
Proof.
  intros Hv Hd. pose proof (sdecimal_length v txt Hv Hd). unfold LONG_STR_SIZE.
  rewrite (ll2string_fits _ _ v txt Hv Hd) by (rewrite ?length_replicate; lia).
  eexists. split; [done|]. apply take_app_length.
Qed.

Lemma int_text_eq v txt : in_s 64 v -> sdecimal v txt <-> int_text v = txt.
Proof.
  intros Hv. assert (forall t, sdecimal v t -> int_text v = t) as Ht.
  { intros t Hd. destruct (int_text_buf 0 v t Hv Hd) as (buf & Hb & Hk). unfold int_text. rewrite Hb. by rewrite Nat2Z.id. }
  split; [apply Ht|]. intros <-. destruct (sdecimal_exists v Hv) as (t & Hd & _). by rewrite (Ht t Hd).
Qed.

Lemma int_text_parse v txt : in_s 64 v -> string2ll txt (zlength txt) = Ok (Some v) <-> int_text v = txt.
Proof.
  intros Hv. rewrite <- int_text_eq by done. destruct (string2ll_whole txt) as (r & -> & Hs). split.
  - intros [= ->]. by apply Hs.
  - intros Hd. f_equal. by apply Hs.
Qed.

Lemma int_text_length v : in_s 64 v -> zlength (int_text v) <= 20.
Proof. intros Hv. apply (sdecimal_length v); [done|]. by apply int_text_eq. Qed.

Lemma int_text_inj v w : in_s 64 v -> in_s 64 w -> int_text v = int_text w -> v = w.
Proof.
  intros Hv Hw E. pose proof (proj2 (int_text_parse w _ Hw) eq_refl) as Hp. rewrite <- E in Hp.
  rewrite (proj2 (int_text_parse v _ Hv) eq_refl) in Hp. congruence.
Qed.

Lemma int_to_str_spec junk v : in_s 64 v -> int_to_str junk v = Ok (int_text v).
Proof.
  intros Hv. destruct (int_text_buf junk v (int_text v) Hv) as (buf & Hb & Hk); [by apply int_text_eq|].
  unfold int_to_str. rewrite Hb, Nat2Z.id. by rewrite Hk.
Qed.

Lemma int_text_bytes v : in_s 64 v -> bytes_ok (int_text v).
Proof.
  intros Hv. destruct (proj2 (int_text_eq v _ Hv) eq_refl) as [l _ Hd|l _ Hd]; apply decimal_digits in Hd.
  - eapply list.Forall_impl; [exact Hd|]. intros c Hc. unfold isdig in Hc. lia.
  - constructor; [lia|]. eapply list.Forall_impl; [exact Hd|]. intros c Hc. unfold isdig in Hc. lia.
Qed.

Definition text (e : set_elem) : list Z := match e with ElStr bs => bs | ElInt v => int_text v end.
Definition el_ok (e : set_elem) : Prop :=
  match e with ElStr bs => bytes_ok bs /\ zlength bs < 2147483648 | ElInt v => in_s 64 v end.

Lemma text_ok e : el_ok e -> bytes_ok (text e) /\ zlength (text e) < 2147483648.
Proof.
  destruct e as [bs|v]; simpl; [done|]. intros Hv. split; [by apply int_text_bytes|]. pose proof (int_text_length v Hv). lia.
Qed.

Lemma elem_object_spec junk e : el_ok e -> exists k : sds, elem_object junk e = Ok k /\ sds_bytes k = text e.
Proof.
  intros He. destruct (text_ok e He) as [_ Hl]. destruct e as [bs|v]; simpl in *; [by apply sdsnewlen_ok|].
  unfold sdsfromlonglong. pose proof (int_to_str_spec junk v He) as Hs. unfold int_to_str in Hs.
  destruct (ll2string _ _ _) as [[n buf]|]; [|done]. injection Hs as ->. by apply sdsnewlen_ok.
Qed.

#[global] Instance ElInt_inj : Inj (=) (=) ElInt.
Proof. by intros x y [= ->]. Qed.

(** A listpack element as an element of a set. *)
Definition lp_elem (e : elem) : set_elem := match e with EInt v => ElInt v | EStr bs => ElStr bs end.

Lemma lp_text e txt : elem_ok e -> elem_text e txt <-> text (lp_elem e) = txt.
Proof. destruct e as [v|bs]; simpl; intros He; [by apply int_text_eq|]. split; by intros ->. Qed.

Lemma text_elem_of str : bytes_ok str -> zlength str < 2147483648 ->
  el_ok (lp_elem (elem_of str)) /\ elem_ok (elem_of str) /\ text (lp_elem (elem_of str)) = str.
Proof.
  intros Hb Hl. pose proof (elem_of_ok str Hb ltac:(pow_const; lia)) as Hok.
  split_and!; [|done|by apply lp_text, elem_of_text].
  pose proof (elem_of_text str) as Ht. by destruct (elem_of str); simpl in *; subst.
Qed.

(** * The set an object represents *)

Section Spec.
Context (junk : Z) (hashFunction : sds -> Z) (table_address : list (list (sds * unit)) -> Z) (sdsAllocSize : list Z -> Z).
Context (dict_can_resize : dictResizeEnable) (server : set_config).
Implicit Types (X : gset (list Z)) (m : gmap sds unit) (d : dict sds unit).

Notation dict_rep := (dict_rep hashFunction).

(** The allocations of all members, as the memory statistics count them. *)
Definition alloc_total (ts : list (list Z)) : Z := foldr (fun t n => sdsAllocSize t + n) 0 ts.

(** The elements [els], in some order, are the members of [X], each once. *)
Definition elements_are (els : list set_elem) X : Prop :=
  Forall el_ok els /\ NoDup (text <$> els) /\ X = list_to_set (text <$> els).

(** The elements of an object in the order in which its encoding holds them. *)
Definition holds (o : setobj) (els : list set_elem) : Prop :=
  match o with
  | SetIntset iset => exists xs, repr iset xs /\ small xs /\ els = ElInt <$> xs
  | SetListpack lp => exists es, is_listpack lp es /\ els = lp_elem <$> es
  | SetHT d a => exists m, dict_rep d m /\ pauseAutoResize d <= 0 /\
      els = ht_elem <$> entries d /\ a = u64 (alloc_total (text <$> els))
  end.

Definition set_rep (o : setobj) X : Prop := exists els, holds o els /\ elements_are els X.

Lemma elements_size els X : elements_are els X -> length els = size X.
Proof. intros (_ & Hn & ->). rewrite size_list_to_set by done. by rewrite length_fmap. Qed.

Lemma elements_member els X txt : elements_are els X -> txt ∈ X <-> exists e, e ∈ els /\ text e = txt.
Proof.
  intros (_ & _ & ->). rewrite elem_of_list_to_set, list_elem_of_fmap. split; intros (e & H1 & H2); exists e; auto.
Qed.

(** ** Iteration *)

Notation iter := (set_iterator table_address).

Definition set_to_come (o : setobj) (si : setTypeIterator) (els : list set_elem) : Prop :=
  match o, si with
  | SetIntset iset, SiIntset ii =>
      exists xs, repr iset xs /\ small xs /\ 0 <= ii <= zlength xs /\ els = ElInt <$> drop (Z.to_nat ii) xs
  | SetListpack lp, SiListpack None => exists es, is_listpack lp es /\ els = lp_elem <$> es
  | SetListpack lp, SiListpack (Some p) =>
      exists es i, is_listpack lp es /\ (i < length es)%nat /\ p = ptr es i /\ els = lp_elem <$> drop (S i) es
  | SetHT d a, SiHT di =>
      exists es, to_come (IteratorSpec := dict_iterator_spec hashFunction table_address) d di es /\
        els = ht_elem <$> es
  | _, _ => False
  end.

(** The element at the iterator's position in a listpack. *)
Lemma lp_next_elem lp es i :
  is_listpack lp es ->
  match es !! i with
  | Some e =>
      (let! v := lpGetValue lp (ptr es i) in
       match v with
       | inl (off, l) => let! str := load off l lp in Ok (Some (ElStr str), SiListpack (Some (ptr es i)))
       | inr llele => Ok (Some (ElInt llele), SiListpack (Some (ptr es i)))
       end) = Ok (Some (lp_elem e), SiListpack (Some (ptr es i))) /\ ptr_opt es i = Some (ptr es i)
  | None => ptr_opt es i = None
  end.
Proof.
  intros (n & slack & -> & Hwf). destruct (es !! i) as [e|] eqn:Hi.
  - pose proof (lookup_lt_Some _ _ _ Hi). split; [|by apply ptr_opt_lt].
    pose proof (Forall_lookup_1 _ _ _ _ (wf_elems _ _ Hwf) Hi) as He.
    destruct (elem_split es i e Hi) as (es1 & es2 & -> & ->). rewrite ptr_mid, getValue_at by done.
    destruct e as [v|str]; [done|]. by rewrite str_bytes_at.
  - apply ptr_opt_ge. by apply lookup_ge_None.
Qed.

#[export] Program Instance set_iterator_spec : IteratorSpec setobj setTypeIterator set_elem (H := iter) := {
  to_come := set_to_come
}.
Next Obligation.
  intros o si els Ht. cbn [next_element release_iterator set_iterator].
  destruct o as [iset|lp|d a], si as [ii|[p|]|di]; try done; cbn [set_to_come setTypeNext setTypeReleaseIterator] in *.
  - destruct Ht as (xs & HR & Hsm & Hii & ->). unfold small in Hsm. rewrite u_id by (pow_const; lia).
    unfold intsetGet. rewrite (repr_len _ _ HR). destruct (Z.ltb_spec ii (zlength xs)) as [Hl|Hl].
    + rewrite s_id by (unfold in_s; pow_const; lia). destruct (get_index _ _ ii HR) as (x & -> & Hx); [lia|].
      rewrite (drop_S _ _ _ Hx). eexists. split; [done|]. cbn [fmap list_fmap]. exists xs.
      rewrite s_id by (unfold in_s; pow_const; lia). split_and!; [done..|lia|lia|]. do 2 f_equal. lia.
    + rewrite drop_ge by lia. by eexists.
  - destruct Ht as (es & i & Hlp & Hi & -> & ->). pose proof Hlp as (n & slack & E & Hwf). pose proof (lp_next_elem lp es (S i) Hlp) as Hn.
    rewrite E, next_at, <- E by done. destruct (es !! S i) as [e|] eqn:He.
    + destruct Hn as [Hv ->]. rewrite Hv, (drop_S _ _ _ He). eexists. split; [done|]. exists es, (S i).
      split_and!; [done|by eapply lookup_lt_Some|done|done].
    + rewrite Hn. rewrite drop_ge by (by apply lookup_ge_None). by eexists.
  - destruct Ht as (es & Hlp & ->). pose proof Hlp as (n & slack & E & Hwf). pose proof (lp_next_elem lp es 0 Hlp) as Hn.
    rewrite E, first_spec, <- E by done. destruct es as [|e es]; cbn [lookup list_lookup] in Hn.
    + rewrite Hn. by eexists.
    + destruct Hn as [Hv ->]. rewrite Hv. eexists. split; [done|]. exists (e :: es), O. split_and!; [done|simpl; lia|done|done].
  - destruct Ht as (es & Ht & ->).
    destruct (next_element_spec (IteratorSpec := dict_iterator_spec hashFunction table_address) d di es Ht) as (di' & Hn & Hc).
    cbn [next_element dict_iterator] in Hn. destruct (dictNext table_address d di) as [[[de d'] di2]|]; [|done]. injection Hn as -> ->.
    destruct es as [|e es]; cbn [head option_map fmap list_fmap].
    + eexists. split; [done|]. exact Hc.
    + eexists. split; [done|]. by exists es.
Qed.

Lemma holds_to_come o els :
  holds o els -> to_come (IteratorSpec := set_iterator_spec) o (setTypeInitIterator o) els /\ (length els < set_fuel o)%nat.
Proof.
  destruct o as [iset|lp|d a]; simpl.
  - intros (xs & HR & Hsm & ->). split; [exists xs; split_and!; [done..|lia|lia|done]|].
    unfold intsetLen. rewrite (repr_len _ _ HR), length_fmap. lia.
  - intros (es & Hlp & ->). split; [by exists es|]. destruct Hlp as (n & slack & -> & Hwf). rewrite length_fmap.
    pose proof (fuel_enough n slack es Hwf). lia.
  - intros (m & Hr & _ & -> & _). split; [exists (entries d); split; [by apply dict_to_come, Hr|done]|].
    rewrite length_fmap, (eq_trans (rep_dictSize _ d m Hr) (eq_sym (rep_size _ d m Hr))), Nat2Z.id. apply Nat.lt_succ_diag_r.
Qed.

(** A loop over the elements of an object. *)
Lemma set_each_spec {A} (P : list set_elem -> A -> Prop) (f : A -> set_elem -> res A) o els a :
  holds o els -> P [] a ->
  (forall pre e post b, els = pre ++ e :: post -> P pre b -> exists b', f b e = Ok b' /\ P (pre ++ [e]) b') ->
  exists a', set_each table_address o f a = Ok a' /\ P els a'.
Proof.
  intros Ho HP Hstep. destruct (holds_to_come o els Ho) as [Ht Hf].
  apply (each_spec (H := iter) (IteratorSpec0 := set_iterator_spec) P f o els _ _ [] a Ht Hf HP Hstep).
Qed.

(** ** Hash tables *)

Lemma alloc_total_perm ts ts' : ts ≡ₚ ts' -> alloc_total ts = alloc_total ts'.
Proof. induction 1; simpl; lia. Qed.

Lemma alloc_total_insert X t : t ∉ X -> alloc_total (elements ({[t]} ∪ X)) = sdsAllocSize t + alloc_total (elements X).
Proof. intros Ht. by rewrite (alloc_total_perm _ _ (elements_union_singleton X t Ht)). Qed.

Lemma alloc_total_delete X t :
  t ∈ X -> alloc_total (elements (X ∖ {[t]})) = alloc_total (elements X) - sdsAllocSize t.
Proof.
  intros Ht. rewrite (union_difference_singleton_L t X Ht) at 2. rewrite alloc_total_insert by set_solver. lia.
Qed.

(** A set in a hash table, in terms of the map the table represents. *)
Definition ht_members d a X : Prop :=
  exists m, dict_rep d m /\ pauseAutoResize d <= 0 /\ (forall k, is_Some (m !! k) <-> sds_bytes k ∈ X) /\
    (forall t, t ∈ X -> bytes_ok t /\ zlength t < 2147483648) /\ a = u64 (alloc_total (elements X)).

Lemma ht_rep d a X : set_rep (SetHT d a) X <-> ht_members d a X.
Proof.
  assert (forall m, dict_rep d m ->
    let els := ht_elem <$> entries d in
    NoDup (text <$> els) /\ forall k : sds, is_Some (m !! k) <-> sds_bytes k ∈ text <$> els) as Haux.
  { intros m Hr els. assert (text <$> els = sds_bytes <$> (entries d).*1) as E.
    { unfold els. rewrite <- !list_fmap_compose. done. }
    rewrite E. split.
    - apply (NoDup_fmap_2_strong); [|apply (ok_nodup _ _ (proj1 Hr))]. intros x y _ _ Hxy. by apply sds_bytes_inj.
    - intros k. rewrite list_elem_of_fmap. split.
      + intros [[] Hk]. apply (rep_lookup hashFunction d m) in Hk; [|done]. exists k. split; [done|]. apply list_elem_of_fmap. by exists (k, tt).
      + intros (k' & E' & Hk'). apply sds_bytes_inj in E' as <-. apply list_elem_of_fmap in Hk' as ([k2 v] & -> & Hin).
        exists v. by apply (rep_lookup hashFunction d m). }
  split.
  - intros (els & (m & Hr & Hp & -> & ->) & Hok & Hnd & ->). destruct (Haux m Hr) as [_ Hk]. exists m. split_and!; try done.
    + intros k. rewrite elem_of_list_to_set. apply Hk.
    + intros t Ht. apply elem_of_list_to_set, list_elem_of_fmap in Ht as (e & -> & He). apply text_ok.
      rewrite list.Forall_forall in Hok. by apply Hok.
    + f_equal. apply alloc_total_perm. by rewrite elements_list_to_set.
  - intros (m & Hr & Hp & Hk & Hok & ->). destruct (Haux m Hr) as [Hnd Hk']. set (els := _ <$> entries d) in *.
    assert (X = list_to_set (text <$> els)) as EX.
    { apply set_eq. intros t. rewrite elem_of_list_to_set. split.
      - intros Ht. destruct (sdsnewlen_ok t (proj2 (Hok t Ht))) as (k & _ & <-). by apply Hk', Hk.
      - intros Ht. pose proof Ht as Ht'. apply list_elem_of_fmap in Ht' as (e & -> & He). unfold els in He.
        apply list_elem_of_fmap in He as ([k v] & -> & _). by apply Hk, Hk'. }
    exists els. split.
    + exists m. split_and!; [done..|]. f_equal. apply alloc_total_perm. rewrite EX. by rewrite elements_list_to_set.
    + split_and!; [|done|done]. apply list.Forall_forall. intros e He. specialize (Hok (text e)). rewrite EX, elem_of_list_to_set in Hok.
      assert (text e ∈ text <$> els) as Ht by (apply list_elem_of_fmap; by exists e). specialize (Hok Ht).
      unfold els in He. apply list_elem_of_fmap in He as ([k v] & -> & _). exact Hok.
Qed.

Lemma ht_size d a X m : ht_members d a X -> dict_rep d m -> dictSize d = Z.of_nat (size X) /\ Z.of_nat (size m) = Z.of_nat (size X).
Proof.
  intros Hm Hr. apply ht_rep in Hm as (els & (m' & _ & _ & -> & _) & Hels). pose proof (elements_size _ _ Hels) as Hs.
  rewrite length_fmap in Hs. pose proof (rep_size _ d m Hr) as Hz. rewrite (rep_dictSize _ d m Hr). rewrite <- Hz, Hs. done.
Qed.

(** The table after the insertion or the removal of one key. *)
Lemma ht_members_insert m a X d' k :
  dict_rep d' (<[k := tt]> m) -> pauseAutoResize d' <= 0 -> (forall k, is_Some (m !! k) <-> sds_bytes k ∈ X) ->
  (forall t, t ∈ X -> bytes_ok t /\ zlength t < 2147483648) -> bytes_ok (sds_bytes k) -> sds_bytes k ∉ X ->
  a = u64 (alloc_total (elements X)) -> ht_members d' (u64 (a + sdsAllocSize (sds_bytes k))) ({[sds_bytes k]} ∪ X).
Proof.
  intros Hr Hp Hk Hok Hb Hn ->. exists (<[k := tt]> m). split_and!; [done|done| | |].
  - intros k'. rewrite elem_of_union, elem_of_singleton, <- Hk. destruct (decide (k = k')) as [->|Hne].
    + rewrite lookup_insert_eq. split; [by left|by exists tt].
    + rewrite lookup_insert_ne by done. split; [by right|]. intros [E|]; [|done]. apply sds_bytes_inj in E. congruence.
  - intros t [->%elem_of_singleton|Ht]%elem_of_union; [|by apply Hok]. split; [done|apply (sds_length k)].
  - rewrite alloc_total_insert by done. unfold u. rewrite Zplus_mod_idemp_l. f_equal. lia.
Qed.

Lemma ht_members_delete m a X d' k :
  dict_rep d' (delete k m) -> pauseAutoResize d' <= 0 -> (forall k, is_Some (m !! k) <-> sds_bytes k ∈ X) ->
  (forall t, t ∈ X -> bytes_ok t /\ zlength t < 2147483648) ->
  a = u64 (alloc_total (elements X)) ->
  ht_members d' (if bool_decide (sds_bytes k ∈ X) then u64 (a - sdsAllocSize (sds_bytes k)) else a) (X ∖ {[sds_bytes k]}).
Proof.
  intros Hr Hp Hk Hok ->. exists (delete k m). split_and!; [done|done| | |].
  - intros k'. rewrite elem_of_difference, elem_of_singleton, <- Hk. destruct (decide (k = k')) as [->|Hne].
    + rewrite lookup_delete_eq. split; [by intros [? ?]|by intros [_ ?]].
    + rewrite lookup_delete_ne by done. split; [|by intros [? _]]. intros Hs. split; [done|]. intros E.
      apply sds_bytes_inj in E. congruence.
  - intros t [Ht _]%elem_of_difference. by apply Hok.
  - case_bool_decide as Hin.
    + rewrite alloc_total_delete by done. unfold u. by rewrite Zminus_mod_idemp_l.
    + by replace (X ∖ {[sds_bytes k]}) with X by set_solver.
Qed.

Lemma ht_add_new_contract d a X k :
  ht_members d a X -> sds_bytes k ∉ X -> bytes_ok (sds_bytes k) -> Z.of_nat (size X) + 1 < 2 ^ 58 ->
  exists d' a', ht_add_new hashFunction sdsAllocSize dict_can_resize (d, a) k = Ok (d', a') /\ ht_members d' a' ({[sds_bytes k]} ∪ X).
Proof.
  intros Hm Hn Hb Hsz. pose proof Hm as (m & Hr & Hp & Hk & Hok & Ha). destruct (ht_size _ _ _ _ Hm Hr) as [_ Hs].
  unfold ht_add_new, setDictAdd. cbn [fst snd].
  destruct (add_contract hashFunction dictSdsKeyCompare dictSdsKeyCompare_eq None false dict_can_resize d m tt k tt Hr)
    as (d' & -> & [_ Hp'] & Hr'); [by right|by rewrite <- Hs in Hsz|].
  assert (m !! k = None) as E by (apply eq_None_not_Some; by rewrite Hk). rewrite E in *.
  rewrite bool_decide_eq_true_2 by done. do 2 eexists. split; [done|].
  eapply (ht_members_insert m); try done. by rewrite Hp'.
Qed.

Lemma ht_add_contract d a X str :
  ht_members d a X -> bytes_ok str -> zlength str < 2147483648 -> Z.of_nat (size X) + 1 < 2 ^ 58 ->
  exists d' a', ht_add hashFunction sdsAllocSize dict_can_resize d a str = Ok (bool_decide (str ∉ X), SetHT d' a') /\
    ht_members d' a' ({[str]} ∪ X).
Proof.
  intros Hm Hb Hl Hsz. pose proof Hm as (m & Hr & Hp & Hk & Hok & Ha). destruct (ht_size _ _ _ _ Hm Hr) as [_ Hs].
  unfold ht_add. destruct (sdsnewlen_ok str Hl) as (k & -> & <-). destruct (decide (sds_bytes k ∈ X)) as [Hin|Hin].
  - rewrite bool_decide_eq_false_2 by (intros []; done).
    destruct (findLink_spec hashFunction dictSdsKeyCompare dictSdsKeyCompare_eq dict_can_resize d m k true Hr) as (r & b & d' & -> & Hr' & [_ Hp'] & Hf).
    destruct r as [l|]; [|apply Hk in Hin as [? ?]; congruence]. do 2 eexists. split; [done|]. exists m.
    replace ({[sds_bytes k]} ∪ X) with X by set_solver. split_and!; [done|by rewrite Hp'|done..].
  - rewrite bool_decide_eq_true_2 by done.
    assert (m !! k = None) as E by (apply eq_None_not_Some; by rewrite Hk).
    destruct (setKey_contract hashFunction dictSdsKeyCompare None dict_can_resize dictSdsKeyCompare_eq d m tt k Hr E)
      as (b & d1 & d2 & -> & -> & Hr2 & [_ Hp2]); [by rewrite <- Hs in Hsz|].
    do 2 eexists. split; [done|]. eapply (ht_members_insert m); try done. by rewrite Hp2.
Qed.

Lemma ht_remove_contract d a X str :
  ht_members d a X -> zlength str < 2147483648 ->
  exists d' a', ht_remove hashFunction sdsAllocSize dict_can_resize d a str = Ok (bool_decide (str ∈ X), SetHT d' a') /\
    ht_members d' a' (X ∖ {[str]}).
Proof.
  intros (m & Hr & Hp & Hk & Hok & Ha) Hl. unfold ht_remove, dictDelete. destruct (sdsnewlen_ok str Hl) as (k & -> & <-).
  destruct (genericDelete_contract hashFunction dictSdsKeyCompare dictSdsKeyCompare_eq None false dict_can_resize d m k Hr) as (d' & -> & Hr' & [_ Hp']).
  assert (bool_decide (match pair k <$> m !! k with Some _ => DICT_OK | None => DICT_ERR end = DICT_OK) = bool_decide (sds_bytes k ∈ X)) as E.
  { apply bool_decide_ext. rewrite <- Hk. destruct (m !! k) as [[]|]; simpl; split; try done; by intros []. }
  rewrite E. do 2 eexists. split; [done|]. apply (ht_members_delete m); try done. by rewrite Hp'.
Qed.

(** ** Conversions *)

(** A new table, before and after it has been presized, is empty. *)
Lemma fresh_members d : moved hashFunction dictCreate d -> ht_members d 0 ∅.
Proof.
  intros Hm. exists ∅. split_and!.
  - eapply rep_moved; [|exact Hm]. apply create_contract.
  - by rewrite (mv_auto _ _ _ Hm).
  - intros k. rewrite lookup_empty. split; [by intros []|set_solver].
  - set_solver.
  - done.
Qed.

Lemma create_ok : DictInv.dict_ok hashFunction (dictCreate : dict sds unit).
Proof. apply (create_contract hashFunction). Qed.

Lemma presized cap : 0 <= cap ->
  exists st d, dictExpand hashFunction false dict_can_resize (dictCreate : dict sds unit) cap = Ok (st, d) /\ ht_members d 0 ∅.
Proof.
  intros Hc. destruct (expand_spec hashFunction dict_can_resize false dictCreate cap create_ok Hc) as (st & d & -> & [Hm _ _ _] & _).
  exists st, d. split; [done|by apply fresh_members].
Qed.

Lemma try_presized cap ok : 0 <= cap ->
  exists st d, dictTryExpand hashFunction false dict_can_resize (dictCreate : dict sds unit) cap ok = Ok (st, d) /\ ht_members d 0 ∅.
Proof.
  intros Hc. destruct (tryExpand_spec hashFunction dict_can_resize false dictCreate cap ok create_ok Hc) as (st & d & -> & [Hm _ _ _]).
  exists st, d. split; [done|by apply fresh_members].
Qed.

(** Adding the elements of an object to a new table. *)
Lemma fill_table o els X d :
  holds o els -> elements_are els X -> Z.of_nat (size X) < 2 ^ 58 -> ht_members d 0 ∅ ->
  exists d' a', set_each table_address o
      (fun ht e => let! element := elem_object junk e in ht_add_new hashFunction sdsAllocSize dict_can_resize ht element) (d, 0) = Ok (d', a') /\
    ht_members d' a' X.
Proof.
  intros Ho Hels Hsz Hd. pose proof (elements_size _ _ Hels) as Hlen. destruct Hels as (Hok & Hnd & ->).
  destruct (set_each_spec (fun seen ht => ht_members (fst ht) (snd ht) (list_to_set (text <$> seen)))
    (fun ht e => let! element := elem_object junk e in ht_add_new hashFunction sdsAllocSize dict_can_resize ht element) o els (d, 0) Ho)
    as ([d' a'] & Hr & HP); [done| |by exists d', a'].
  intros pre e post [d1 a1] -> HP. rewrite Forall_app in Hok. destruct Hok as [_ [He _]%Forall_cons_1].
  rewrite fmap_app, fmap_cons in Hnd. apply list.NoDup_app in Hnd as (Hnd & Hnin & _).
  destruct (elem_object_spec junk e He) as (k & -> & Hk). destruct (text_ok e He) as [Hb _].
  destruct (ht_add_new_contract d1 a1 _ k HP) as (d2 & a2 & Hadd & HP2).
  - rewrite Hk, elem_of_list_to_set. intros Hin. apply (Hnin _ Hin). left.
  - by rewrite Hk.
  - rewrite size_list_to_set by done. rewrite length_fmap. rewrite <- Hlen in Hsz. len.
  - exists (d2, a2). split; [exact Hadd|]. cbn [fst snd]. rewrite fmap_app, list_to_set_app_L. cbn [fmap list_fmap list_to_set].
    rewrite union_empty_r_L, (comm_L (∪)), <- Hk. exact HP2.
Qed.

Lemma convert_ht o X cap panic malloc_ok :
  set_rep o X -> encoding_of o <> OBJ_ENCODING_HT -> 0 <= cap -> Z.of_nat (size X) < 2 ^ 58 ->
  exists r o', setTypeConvertAndExpand junk hashFunction table_address sdsAllocSize dict_can_resize o OBJ_ENCODING_HT cap panic malloc_ok = Ok (r, o') /\
    (panic = true -> r = true) /\
    if (r : bool) then exists d a, o' = SetHT d a /\ ht_members d a X else o' = o.
Proof.
  intros (els & Ho & Hels) He Hc Hsz. unfold setTypeConvertAndExpand. rewrite bool_decide_eq_false_2 by done. cbn [negb].
  destruct (presized cap Hc) as (st & d & Hd & Hm). destruct (try_presized cap malloc_ok Hc) as (st' & d2 & Hd2 & Hm2).
  rewrite Hd, Hd2. destruct panic.
  - destruct (fill_table o els X d Ho Hels Hsz Hm) as (d' & a' & -> & Hm'). exists true, (SetHT d' a'). split_and!; eauto.
  - destruct (bool_decide (st' = DICT_OK)); cbn [negb]; [|by exists false, o].
    destruct (fill_table o els X d2 Ho Hels Hsz Hm2) as (d' & a' & -> & Hm'). exists true, (SetHT d' a'). split_and!; eauto.
Qed.

(** ** Listpacks *)

(** The number of bytes of an integer entry is between 2 and 10 and grows with the
    distance from zero. *)
Lemma int_entry_cases x : lpEntrySizeInteger x =
  if (0 <=? x) && (x <=? 127) then 2 else if (-4096 <=? x) && (x <=? 4095) then 3
  else if (-32768 <=? x) && (x <=? 32767) then 4 else if (-8388608 <=? x) && (x <=? 8388607) then 5
  else if (-2147483648 <=? x) && (x <=? 2147483647) then 6 else 10.
Proof.
  unfold lpEntrySizeInteger, lpEncodeIntegerGetType. rewrite !Z.geb_leb.
  repeat (destruct (_ && _); [reflexivity|]). reflexivity.
Qed.

Lemma int_entry_size v : lpEntrySizeInteger v = zlength (entry (EInt v)) /\ 2 <= lpEntrySizeInteger v <= 10.
Proof.
  split; [by rewrite entry_size|]. rewrite int_entry_cases. repeat (destruct (_ && _); [lia|]). lia.
Qed.

Lemma int_entry_mono lo v hi : lo <= v <= hi -> lpEntrySizeInteger v <= Z.max (lpEntrySizeInteger lo) (lpEntrySizeInteger hi).
Proof.
  intros Hv. rewrite !int_entry_cases.
  repeat match goal with |- context [if ?b then _ else _] => destruct b eqn:? end; lia.
Qed.

Lemma entry_elem_of str : bytes_ok str -> zlength str < 2147483648 -> zlength (entry (elem_of str)) <= zlength str + 10.
Proof.
  intros Hb Hl. assert (zlength (entry (EStr str)) <= zlength str + 10) as Hs.
  { rewrite entry_size. cbn [enc_elem]. pose proof (backlenBytes_range (zlength (enc_str str))).
    rewrite enc_str_length in *. repeat case_match; lia. }
  unfold elem_of. destruct (lpStringToInt64 _ _) as [[v|]|]; [|done..]. destruct (int_entry_size v) as [<- ?]. lia.
Qed.

Lemma total_snoc es e : total (es ++ [e]) = total es + zlength (entry e).
Proof. unfold total. rewrite entries_app, length_app. change (ListpackSeq.entries [e]) with (entry e ++ []). rewrite app_nil_r. lia. Qed.

Lemma append_str lp es str :
  is_listpack lp es -> bytes_ok str -> zlength str < 2147483648 -> total es + zlength str + 10 <= UINT32_MAX ->
  exists lp', not_null (lpAppend junk lp str (zlength str)) = Ok lp' /\ is_listpack lp' (es ++ [elem_of str]).
Proof.
  intros (n & slack & -> & Hwf) Hb Hl Ht.
  destruct (append_any junk n slack es (elem_of str) _ _ _ Hwf (ArgStr str Hb ltac:(pow_const; lia))) as (r & Hr & Hp).
  replace (lpAppend _ _ _ _) with (Ok r). destruct r as [lp'|]; [by exists lp'|]. simpl in Hp. rewrite total_snoc in Hp.
  pose proof (entry_elem_of str Hb Hl). lia.
Qed.

Lemma append_int lp es v :
  is_listpack lp es -> in_s 64 v -> total es + lpEntrySizeInteger v <= UINT32_MAX ->
  exists lp', not_null (lpAppendInteger junk lp v) = Ok lp' /\ is_listpack lp' (es ++ [EInt v]).
Proof.
  intros (n & slack & -> & Hwf) Hv Ht.
  destruct (append_any junk n slack es (EInt v) _ _ _ Hwf (ArgInt v Hv)) as (r & Hr & Hp).
  replace (lpAppendInteger _ _ _) with (Ok r). destruct r as [lp'|]; [by exists lp'|]. simpl in Hp. rewrite total_snoc in Hp.
  destruct (int_entry_size v) as [E _]. lia.
Qed.

(** Searching for a member. *)
Lemma lp_find lp es str :
  is_listpack lp es ->
  lpFirst lp = Ok (ptr_opt es 0) /\
  (es <> [] -> exists r, lpFind lp (ptr_opt es 0) str (zlength str) 0 = Ok (ptr es <$> r) /\
     match r with
     | Some i => exists e, es !! i = Some e /\ text (lp_elem e) = str
     | None => str ∉ text <$> (lp_elem <$> es)
     end).
Proof.
  intros (n & slack & -> & Hwf). pose proof (wf_elems _ _ Hwf) as Hf. split; [by apply first_spec|]. intros Hne.
  assert (0 < length es)%nat as Hlen by (destruct es; [done|simpl; lia]). rewrite ptr_opt_lt by done.
  pose proof (find_spec n slack es (Some O) str 0 Hwf Hlen) as Hfind. cbn [fmap option_fmap option_map default] in Hfind.
  change (Z.of_nat 0) with 0 in Hfind. rewrite Hfind. rewrite drop_0.
  pose proof (find_idx_spec (fun e => elem_eqb e str) 0 es 0) as Hi.
  destruct (find_idx _ 0 0 es) as [i|]; cbn [fmap option_fmap option_map].
  - exists (Some i). split; [done|]. destruct Hi as (k & e & -> & He & Hm & _). exists e.
    pose proof (Forall_lookup_1 _ _ _ _ Hf He) as Hok. split; [done|]. apply lp_text; [done|]. by apply elem_eqb_text.
  - exists None. split; [done|]. intros Hin. apply list_elem_of_fmap in Hin as (x & -> & Hx).
    apply list_elem_of_fmap in Hx as (e & -> & Hx). apply list_elem_of_lookup in Hx as [j Hj].
    pose proof (Forall_lookup_1 _ _ _ _ Hf Hj) as Hok. specialize (Hi j e). rewrite Nat.mul_1_r in Hi. specialize (Hi Hj).
    apply not_true_iff_false in Hi. apply Hi, elem_eqb_text; [done|]. by apply lp_text.
Qed.

(** ** Integer sets *)

Lemma intset_in_s iset xs : repr iset xs -> Forall (in_s 64) xs.
Proof.
  intros HR. eapply list.Forall_impl; [apply (repr_fit _ _ HR)|]. intros x [? ?].
  pose proof (valid_enc_bounds _ (repr_enc _ _ HR)).
  pose proof (Z.pow_le_mono_r 2 (8 * encoding iset - 1) 63 ltac:(lia) ltac:(lia)). unfold in_s. lia.
Qed.

Lemma intset_elements iset xs : repr iset xs -> elements_are (ElInt <$> xs) (list_to_set (int_text <$> xs)).
Proof.
  intros HR. pose proof (intset_in_s _ _ HR) as Hf. unfold elements_are. rewrite <- !list_fmap_compose.
  split_and!; [by apply Forall_fmap| |done].
  apply NoDup_fmap_2_strong; [|apply sorted_NoDup, (repr_sorted _ _ HR)].
  rewrite list.Forall_forall in Hf. intros x y Hx Hy E. apply int_text_inj; auto.
Qed.

Lemma intset_rep iset X :
  set_rep (SetIntset iset) X <-> exists xs, repr iset xs /\ small xs /\ X = list_to_set (int_text <$> xs).
Proof.
  split.
  - intros (els & (xs & HR & Hsm & ->) & _ & _ & ->). exists xs. split_and!; [done..|]. by rewrite <- list_fmap_compose.
  - intros (xs & HR & Hsm & ->). exists (ElInt <$> xs). split; [by exists xs|by eapply intset_elements].
Qed.

Lemma int_member xs v : Forall (in_s 64) xs -> in_s 64 v -> int_text v ∈ (list_to_set (int_text <$> xs) : gset (list Z)) <-> v ∈ xs.
Proof.
  intros Hf Hv. rewrite elem_of_list_to_set, list_elem_of_fmap. rewrite list.Forall_forall in Hf. split.
  - intros (x & E & Hx). apply int_text_inj in E as ->; auto.
  - intros Hx. by exists v.
Qed.

Lemma insert_texts xs xs' v :
  (forall x, x ∈ xs' <-> x = v \/ x ∈ xs) ->
  {[int_text v]} ∪ list_to_set (int_text <$> xs) = (list_to_set (int_text <$> xs') : gset (list Z)).
Proof.
  intros Hin. apply set_eq. intros t.
  rewrite elem_of_union, elem_of_singleton, !elem_of_list_to_set, !list_elem_of_fmap. split.
  - intros [->|(x & -> & Hx)]; [exists v|exists x]; (split; [done|]); apply Hin; auto.
  - intros (x & -> & [->|Hx]%Hin); [by left|right; by exists x].
Qed.

Lemma intset_size iset X : set_rep (SetIntset iset) X -> intsetLen iset = Z.of_nat (size X).
Proof.
  intros (els & (xs & HR & Hsm & ->) & Hels). rewrite <- (elements_size _ _ Hels), length_fmap. apply (repr_len _ _ HR).
Qed.

Notation convert := (setTypeConvertAndExpand junk hashFunction table_address sdsAllocSize dict_can_resize).

Lemma maybe_convert_intset iset X :
  set_rep (SetIntset iset) X ->
  exists o', maybeConvertIntset junk hashFunction table_address sdsAllocSize dict_can_resize server (SetIntset iset) = Ok o' /\ set_rep o' X.
Proof.
  intros Hr. unfold maybeConvertIntset. destruct (_ >? _); [|by exists (SetIntset iset)].
  unfold setTypeConvert, setTypeSize. pose proof (intset_size _ _ Hr) as Hs. pose proof Hr as (els & (xs & HR & Hsm & _) & _).
  unfold small in Hsm. unfold intsetLen in *. pose proof (repr_len _ _ HR).
  destruct (convert_ht (SetIntset iset) X (is_length iset) true true Hr) as (r & o' & -> & Hp & Ho); [done|lia|pow_const; lia|].
  rewrite (Hp eq_refl) in Ho. destruct Ho as (d & a & -> & Hm). eexists. split; [done|]. by apply ht_rep.
Qed.

Lemma intset_add_contract iset X v :
  set_rep (SetIntset iset) X -> in_s 64 v -> Z.of_nat (size X) < 536870911 ->
  exists o', intset_add junk hashFunction table_address sdsAllocSize dict_can_resize server iset v = Ok (bool_decide (int_text v ∉ X), o') /\
    set_rep o' ({[int_text v]} ∪ X).
Proof.
  intros Hr Hv Hsz. pose proof (intset_size _ _ Hr) as Hlen. apply intset_rep in Hr as (xs & HR & Hsm & EX).
  pose proof (intset_in_s _ _ HR) as Hf. unfold intsetLen in Hlen. rewrite (repr_len _ _ HR) in Hlen.
  unfold intset_add. destruct (add_list junk iset xs v HR Hsm Hv) as (iset' & xs' & -> & HR' & Hin & Hl).
  assert (set_rep (SetIntset iset') ({[int_text v]} ∪ X)) as Hr'.
  { apply intset_rep. exists xs'. split_and!; [done|unfold small; lia|]. subst X. by apply insert_texts. }
  rewrite (bool_decide_ext (int_text v ∉ X) (v ∉ xs)) by (subst X; by rewrite int_member).
  case_bool_decide as Hn.
  - destruct (maybe_convert_intset iset' _ Hr') as (o' & -> & Ho). by exists o'.
  - by exists (SetIntset iset').
Qed.

Lemma total_ints_mono xs ys : total (EInt <$> xs) <= total (EInt <$> xs ++ ys).
Proof.
  induction ys as [|y ys IH] using rev_ind; [by rewrite app_nil_r|]. rewrite (assoc_L (++)), fmap_app. cbn [fmap list_fmap]. rewrite total_snoc. lia.
Qed.

(** Conversion to a listpack that has room for all the integers. *)
Lemma convert_intset_total iset xs cap :
  repr iset xs -> small xs -> total (EInt <$> xs) <= UINT32_MAX ->
  exists lp, convert (SetIntset iset) OBJ_ENCODING_LISTPACK cap true true = Ok (true, SetListpack lp) /\ is_listpack lp (EInt <$> xs).
Proof.
  intros HR Hsm Hmax. unfold setTypeConvertAndExpand. cbn [encoding_of bool_decide decide_rel set_encoding_eq_dec negb setTypeSize].
  assert (exists c, (if intsetLen iset >? 0
      then let! lo := intsetMin iset in let! hi := intsetMax iset in
           Ok (Z.max (lpEstimateBytesRepeatedInteger lo cap) (lpEstimateBytesRepeatedInteger hi cap))
      else Ok (u64 (cap * 2))) = Ok c) as [c Hc].
  { destruct (Z.gtb_spec (intsetLen iset) 0) as [Hp|Hp]; [|by eexists]. unfold intsetLen in Hp. rewrite (repr_len _ _ HR) in Hp.
    destruct (ends_list iset xs HR Hsm) as (lo & hi & -> & -> & _); [by intros ->|]. by eexists. }
  rewrite bool_decide_eq_false_2 by done. cbn [negb]. rewrite Hc. destruct (new_contract junk c) as (lp & -> & Hlp & _).
  pose proof (intset_in_s _ _ HR) as Hf.
  destruct (set_each_spec (fun seen lp => exists vs, seen = ElInt <$> vs /\ is_listpack lp (EInt <$> vs)) (lp_add_elem junk) (SetIntset iset) (ElInt <$> xs) lp)
    as (lp' & -> & vs & E & Hlp').
  - by exists xs.
  - by exists [].
  - intros pre e post lp1 E (vs & -> & Hlp1). apply fmap_app_inv in E as (vs' & rest & E1 & E2 & ->).
    apply (list_fmap_eq_inj ElInt _) in E1 as ->. destruct rest as [|v rest]; [done|]. injection E2 as -> ->.
    rewrite !Forall_app in *. destruct Hf as [_ [Hv _]%Forall_cons_1].
    destruct (int_entry_size v) as [Hev ?]. pose proof (total_ints_mono (vs' ++ [v]) rest) as Hm. rewrite <- (assoc_L (++)) in Hm. cbn [app] in Hm.
    rewrite (fmap_app EInt vs' [v]) in Hm. cbn [fmap list_fmap] in Hm. rewrite total_snoc in Hm.
    destruct (append_int lp1 (EInt <$> vs') v Hlp1 Hv) as (lp2 & Hlp2 & Hok2); [unfold fmap in *; lia|].
    exists lp2. split; [exact Hlp2|]. exists (vs' ++ [v]). by rewrite !fmap_app.
  - apply (list_fmap_eq_inj ElInt _) in E as <-. by exists lp'.
Qed.

Lemma total_ints xs M : Forall (fun v => lpEntrySizeInteger v <= M) xs -> total (EInt <$> xs) <= 7 + M * zlength xs.
Proof.
  induction xs as [|v xs IH] using rev_ind; [unfold total; simpl; lia|]. rewrite Forall_app. intros [Hf [Hv _]%Forall_cons_1].
  rewrite fmap_app. cbn [fmap list_fmap]. rewrite total_snoc, length_app. destruct (int_entry_size v) as [<- _]. specialize (IH Hf). cbn [length]. unfold fmap in *. nia.
Qed.

Lemma convert_intset_lp iset xs cap M :
  repr iset xs -> small xs -> Forall (fun v => lpEntrySizeInteger v <= M) xs -> 7 + M * zlength xs <= UINT32_MAX ->
  exists lp, convert (SetIntset iset) OBJ_ENCODING_LISTPACK cap true true = Ok (true, SetListpack lp) /\
    is_listpack lp (EInt <$> xs) /\ total (EInt <$> xs) <= 7 + M * zlength xs.
Proof.
  intros HR Hsm HM Hmax. pose proof (total_ints xs M HM) as Ht. destruct (convert_intset_total iset xs cap HR Hsm) as (lp & ? & ?); [lia|]. by exists lp.
Qed.

(** ** Adding a member *)

Lemma elements_snoc els X e :
  elements_are els X -> el_ok e -> text e ∉ X -> elements_are (els ++ [e]) ({[text e]} ∪ X).
Proof.
  intros (Hok & Hnd & ->) He Hn. rewrite elem_of_list_to_set in Hn. unfold elements_are. rewrite fmap_app. cbn [fmap list_fmap].
  split_and!; [by apply Forall_app; split; [|constructor]| |set_solver].
  apply list.NoDup_app. split_and!; [done|set_solver|by apply NoDup_singleton].
Qed.

Lemma convert_and_add_contract o X cap str :
  set_rep o X -> encoding_of o <> OBJ_ENCODING_HT -> 0 <= cap -> bytes_ok str -> zlength str < 2147483648 ->
  str ∉ X -> Z.of_nat (size X) + 1 < 2 ^ 58 ->
  exists o', convert_and_add junk hashFunction table_address sdsAllocSize dict_can_resize o cap str = Ok (true, o') /\ set_rep o' ({[str]} ∪ X).
Proof.
  intros Hr He Hc Hb Hl Hn Hsz. unfold convert_and_add.
  destruct (convert_ht o X cap true true Hr He Hc) as (r & o1 & -> & Hp & Ho); [lia|].
  rewrite (Hp eq_refl) in Ho. destruct Ho as (d & a & -> & Hm). destruct (sdsnewlen_ok str Hl) as (k & -> & <-).
  destruct (ht_add_new_contract d a X k Hm Hn Hb Hsz) as (d' & a' & -> & Hm'). eexists. split; [done|]. by apply ht_rep.
Qed.

(** The search for a member: nothing to look at, or the answer of lpFind. *)
Lemma lp_search lp es X str :
  is_listpack lp es -> elements_are (lp_elem <$> es) X ->
  (lpFirst lp = Ok None /\ str ∉ X) \/
  exists p r, lpFirst lp = Ok (Some p) /\ lpFind lp (Some p) str (zlength str) 0 = Ok (ptr es <$> r) /\
    match r with
    | Some i => (i < length es)%nat /\ (exists e, es !! i = Some e /\ text (lp_elem e) = str) /\ str ∈ X
    | None => str ∉ X
    end.
Proof.
  intros Hlp (_ & _ & ->). destruct (lp_find lp es str Hlp) as [-> Hfind]. rewrite elem_of_list_to_set.
  destruct (decide (es = [])) as [->|Hne]; [left; split; [done|set_solver]|]. right.
  destruct (Hfind Hne) as (r & Hf & Hs). assert (0 < length es)%nat by (destruct es; [done|simpl; lia]).
  rewrite ptr_opt_lt in * by done. exists (ptr es 0), r. split_and!; [done..|]. destruct r as [i|]; [|by rewrite elem_of_list_to_set].
  destruct Hs as (e & He & <-). split_and!; [by eapply lookup_lt_Some|by exists e|]. rewrite elem_of_list_to_set.
  apply list_elem_of_fmap_2, list_elem_of_fmap_2. by eapply list_elem_of_lookup_2.
Qed.

Lemma safeToAdd_some lp es (add : Z) : is_listpack lp es -> 0 <= add < 2 ^ 32 ->
  lpSafeToAdd (Some lp) add = Ok (total es + add <=? LISTPACK_MAX_SAFETY_SIZE).
Proof.
  intros (n & slack & -> & Hwf) Ha. pose proof (wf_total _ _ Hwf) as Ht. unfold lpSafeToAdd.
  rewrite getTotal by done. unfold UINT32_MAX in Ht. assert (0 <= total es) by (unfold total; lia).
  rewrite u_id by (pow_const; lia). rewrite Z.gtb_ltb. by zbool; try lia.
Qed.

Lemma lp_add_contract lp X str llval from_int :
  set_rep (SetListpack lp) X -> bytes_ok str -> zlength str < 2147483648 -> Z.of_nat (size X) + 1 < 2 ^ 58 ->
  ((from_int : bool) = true -> in_s 64 llval /\ str = int_text llval) ->
  exists o', lp_add junk hashFunction table_address sdsAllocSize dict_can_resize server lp str llval from_int = Ok (bool_decide (str ∉ X), o') /\
    set_rep o' ({[str]} ∪ X).
Proof.
  intros Hr Hb Hl Hsz Hint. pose proof Hr as (els & (es & Hlp & ->) & Hels). unfold lp_add.
  assert (exists r, (let! p := lpFirst lp in
      match p with Some _ => lpFind lp p str (zlength str) 0 | None => Ok None end) = Ok (ptr es <$> r) /\
    match r with Some _ => str ∈ X | None => str ∉ X end) as (r & Hf & Hrx).
  { destruct (lp_search lp es X str Hlp Hels) as [[-> ?]|(p & r & -> & -> & Hr')]; [by exists None|].
    exists r. split; [done|]. by destruct r; [apply Hr'|]. }
  destruct (lpFirst lp) as [p|]; [|done]. rewrite Hf. destruct r as [i|]; cbn [fmap option_fmap option_map].
  - rewrite bool_decide_eq_false_2 by (intros []; done). exists (SetListpack lp). split; [done|].
    by replace ({[str]} ∪ X) with X by set_solver.
  - rename Hrx into Hn. rewrite bool_decide_eq_true_2 by done.
    destruct Hlp as (n & slack & -> & Hwf). destruct (length_contract n slack es Hwf) as (lp' & -> & Hlp' & _).
    rewrite (safeToAdd_some lp' es) by (done || lia).
    destruct (_ && _) eqn:Ec.
    + apply andb_true_iff in Ec as [_ Hsafe%Z.leb_le]. unfold LISTPACK_MAX_SAFETY_SIZE in Hsafe.
      destruct from_int.
      * destruct (Hint eq_refl) as [Hv ->]. destruct (int_entry_size llval) as [_ ?].
        destruct (append_int lp' es llval Hlp' Hv) as (lp2 & -> & Hlp2); [unfold UINT32_MAX; lia|].
        eexists. split; [done|]. eexists. split; [by eexists|]. rewrite fmap_app. by apply (elements_snoc _ _ (ElInt llval)).
      * destruct (text_elem_of str Hb Hl) as (Hok & _ & Ht).
        destruct (append_str lp' es str Hlp' Hb Hl) as (lp2 & -> & Hlp2); [unfold UINT32_MAX; lia|].
        eexists. split; [done|]. eexists. split; [by eexists|]. rewrite fmap_app. rewrite <- Ht at 2.
        apply (elements_snoc _ _ (lp_elem (elem_of str))); [done..|by rewrite Ht].
    + apply (convert_and_add_contract (SetListpack lp') X); try done; [by exists (lp_elem <$> es); split; [exists es|]|].
      apply u_range. lia.
Qed.

Lemma intset_add_str_contract iset X str :
  set_rep (SetIntset iset) X -> bytes_ok str -> zlength str < 2147483648 -> Z.of_nat (size X) < 536870911 ->
  exists o', intset_add_str junk hashFunction table_address sdsAllocSize dict_can_resize server iset str = Ok (bool_decide (str ∉ X), o') /\
    set_rep o' ({[str]} ∪ X).
Proof.
  intros Hr Hb Hl Hsz. unfold intset_add_str. destruct (string2ll_whole str) as ([v|] & Hs & Hv); rewrite Hs.
  { destruct (proj1 (Hv v) eq_refl) as [Hv64 _]. apply (int_text_parse v str Hv64) in Hs as <-. by apply intset_add_contract. }
  pose proof Hr as Hr'. apply intset_rep in Hr' as (xs & HR & Hsm & EX). pose proof (intset_in_s _ _ HR) as Hf.
  assert (str ∉ X) as Hn.
  { rewrite EX, elem_of_list_to_set. intros (x & -> & Hx)%list_elem_of_fmap. rewrite list.Forall_forall in Hf.
    rewrite (proj2 (int_text_parse x _ (Hf x Hx)) eq_refl) in Hs. congruence. }
  rewrite bool_decide_eq_true_2 by done.
  assert (exists maxelelen totsize M, (if negb (intsetLen iset =? 0) then
       let! hi := intsetMax iset in let! lo := intsetMin iset in let! elelen1 := sdigits10 hi in let! elelen2 := sdigits10 lo in
       Ok (Z.max elelen1 elelen2, Z.max (lpEstimateBytesRepeatedInteger hi (intsetLen iset)) (lpEstimateBytesRepeatedInteger lo (intsetLen iset)))
     else Ok (0, 0)) = Ok (maxelelen, totsize) /\ Forall (fun v => lpEntrySizeInteger v <= M) xs /\
     0 <= totsize < 2 ^ 33 /\ 7 + M * zlength xs <= totsize + 7) as (maxelelen & totsize & M & Htot & HM & Hts & Hbound).
  { unfold intsetLen. rewrite (repr_len _ _ HR). destruct (Z.eqb_spec (zlength xs) 0) as [E0|E0]; cbn [negb].
    { exists 0, 0, 0. destruct xs; [|simpl in E0; lia]. split_and!; [done..|lia]. }
    destruct (ends_list iset xs HR Hsm) as (lo & hi & -> & -> & Hlo & Hhi & Hends); [by intros ->|].
    rewrite list.Forall_forall in Hf. destruct (sdecimal_exists hi (Hf _ Hhi)) as (t1 & _ & ->).
    destruct (sdecimal_exists lo (Hf _ Hlo)) as (t2 & _ & ->).
    destruct (int_entry_size lo) as [_ ?]. destruct (int_entry_size hi) as [_ ?]. unfold small in Hsm.
    unfold lpEstimateBytesRepeatedInteger, LP_HDR_SIZE. rewrite !u_id by (pow_const; nia).
    do 2 eexists. exists (Z.max (lpEntrySizeInteger lo) (lpEntrySizeInteger hi)). split; [done|]. split_and!.
    - apply list.Forall_forall. intros x Hx. by apply int_entry_mono, Hends.
    - nia.
    - pow_const. nia.
    - nia. }
  rewrite Htot. assert (lpSafeToAdd None (u64 (totsize + zlength str)) = Ok (totsize + zlength str <=? LISTPACK_MAX_SAFETY_SIZE)) as ->.
  { unfold lpSafeToAdd. rewrite Z.add_0_l, !u_id by (rewrite ?u_id; pow_const; lia). rewrite Z.gtb_ltb. by zbool; try lia. }
  destruct (_ && _) eqn:Ec.
  - apply andb_true_iff in Ec as [_ Hsafe%Z.leb_le]. unfold LISTPACK_MAX_SAFETY_SIZE in Hsafe.
    destruct (convert_intset_lp iset xs (intsetLen iset + 1) M HR Hsm HM) as (lp & -> & Hlp & Ht); [unfold UINT32_MAX; lia|].
    destruct (append_str lp (EInt <$> xs) str Hlp Hb Hl) as (lp2 & -> & Hlp2); [unfold UINT32_MAX; lia|].
    destruct Hlp2 as (n & slack & -> & Hwf). destruct (shrink_spec junk n _ slack (wf_total _ _ Hwf)) as [sl ->].
    eexists. split; [done|]. exists ((ElInt <$> xs) ++ [lp_elem (elem_of str)]). split.
    + eexists. split; [by exists n, sl|]. rewrite fmap_app, <- list_fmap_compose. done.
    + destruct (text_elem_of str Hb Hl) as (Hok & _ & Ht2). rewrite <- Ht2 at 2. apply elements_snoc; [|done|by rewrite Ht2].
      rewrite EX. by eapply intset_elements.
  - apply convert_and_add_contract; try done; [|pow_const; lia]. rewrite (intset_size _ _ Hr). lia.
Qed.

(** * The operations *)

(** A member is given as a string, or as an integer with a NULL string. *)
Definition arg_text (str : option (list Z)) (llval : Z) : list Z :=
  match str with Some txt => txt | None => int_text llval end.
Definition arg_ok (str : option (list Z)) (llval : Z) : Prop :=
  match str with Some txt => bytes_ok txt /\ zlength txt < 2147483648 | None => in_s 64 llval end.

Lemma arg_text_ok str llval : arg_ok str llval -> bytes_ok (arg_text str llval) /\ zlength (arg_text str llval) < 2147483648.
Proof. destruct str as [txt|]; simpl; [done|]. intros Hv. apply (text_ok (ElInt llval) Hv). Qed.

Notation add := (setTypeAddAux junk hashFunction table_address sdsAllocSize dict_can_resize server).
Notation remove := (setTypeRemoveAux junk hashFunction sdsAllocSize dict_can_resize).
Notation is_member := (setTypeIsMemberAux junk hashFunction dict_can_resize).

Lemma add_set_contract o X str llval :
  set_rep o X -> arg_ok str llval -> Z.of_nat (size X) < 536870911 ->
  exists o', add o str llval = Ok (bool_decide (arg_text str llval ∉ X), o') /\ set_rep o' ({[arg_text str llval]} ∪ X).
Proof.
  intros Hr Ha Hsz. destruct (arg_text_ok str llval Ha) as [Hb Hl]. unfold setTypeAddAux.
  assert (Z.of_nat (size X) + 1 < 2 ^ 58) as Hsz' by (pow_const; lia).
  destruct o as [iset|lp|d a].
  - destruct str as [txt|]; [by apply intset_add_str_contract|by apply intset_add_contract].
  - destruct str as [txt|]; [by apply lp_add_contract|]. simpl in *. rewrite int_to_str_spec by done. by apply lp_add_contract.
  - apply ht_rep in Hr. destruct str as [txt|]; simpl in *; [|rewrite int_to_str_spec by done];
      (destruct (ht_add_contract d a X _ Hr Hb Hl Hsz') as (d' & a' & Hadd & Hm); exists (SetHT d' a'); split; [exact Hadd|by apply ht_rep]).
Qed.

Lemma intset_remove_contract iset X v :
  set_rep (SetIntset iset) X -> in_s 64 v ->
  exists iset', intsetRemove junk iset v = Ok (iset', bool_decide (int_text v ∈ X)) /\ set_rep (SetIntset iset') (X ∖ {[int_text v]}).
Proof.
  intros (xs & HR & Hsm & ->)%intset_rep Hv. pose proof (intset_in_s _ _ HR) as Hf.
  destruct (remove_list junk iset xs v HR Hsm Hv) as (iset' & xs' & -> & HR' & Hsm' & Hin). exists iset'. split.
  - do 2 f_equal. apply bool_decide_ext. by rewrite int_member.
  - apply intset_rep. exists xs'. split_and!; [done..|]. apply set_eq. intros t.
    rewrite elem_of_difference, elem_of_singleton, !elem_of_list_to_set, !list_elem_of_fmap. rewrite list.Forall_forall in Hf. split.
    + intros [(x & -> & Hx) Hne]. exists x. split; [done|]. apply Hin. split; [by intros ->|done].
    + intros (x & -> & [Hne Hx]%Hin). split; [by exists x|]. intros E. apply Hne, int_text_inj; auto.
Qed.

Lemma elements_delete els X i e :
  els !! i = Some e -> elements_are els X -> elements_are (take i els ++ drop (S i) els) (X ∖ {[text e]}).
Proof.
  intros Hi (Hok & Hnd & ->). unfold elements_are. pose proof (take_drop_middle els i e Hi) as E. clear Hi.
  revert E. generalize (take i els) (drop (S i) els). intros l1 l2 <-.
  rewrite fmap_app, fmap_cons in Hnd. apply list.NoDup_app in Hnd as (Hn1 & Hd & [Hn2 Hn3]%list.NoDup_cons).
  apply Forall_app in Hok as [Hok1 [_ Hok2]%Forall_cons_1].
  split_and!; [by apply Forall_app| |].
  - rewrite fmap_app. apply list.NoDup_app. split_and!; [done| |done]. intros t Ht Ht2. apply (Hd t Ht). by right.
  - rewrite !fmap_app, fmap_cons, !list_to_set_app_L. cbn [list_to_set].
    assert (text e ∉ text <$> l1) by (intros Hin; apply (Hd _ Hin); left). set_solver.
Qed.

Lemma remove_set_contract o X str llval :
  set_rep o X -> arg_ok str llval ->
  exists o', remove o str llval = Ok (bool_decide (arg_text str llval ∈ X), o') /\ set_rep o' (X ∖ {[arg_text str llval]}).
Proof.
  intros Hr Ha. destruct (arg_text_ok str llval Ha) as [Hb Hl]. set (txt := arg_text str llval) in *.
  assert (match str with Some s => Ok s | None => int_to_str junk llval end = Ok txt) as Htxt.
  { unfold txt. destruct str as [s|]; [done|]. by apply int_to_str_spec. }
  assert (txt ∉ X -> set_rep o (X ∖ {[txt]})) as Habs.
  { intros Hn. by replace (X ∖ {[txt]}) with X by set_solver. }
  unfold setTypeRemoveAux. rewrite Htxt. destruct o as [iset|lp|d a].
  - assert (exists o', (let! v := string2ll txt (zlength txt) in
        match v with
        | Some v => let! '(iset, success) := intsetRemove junk iset v in Ok (success, SetIntset iset)
        | None => Ok (false, SetIntset iset)
        end) = Ok (bool_decide (txt ∈ X), o') /\ set_rep o' (X ∖ {[txt]})) as Hstr.
    { destruct (string2ll_whole txt) as ([v|] & Hs & Hv); rewrite Hs.
      - destruct (proj1 (Hv v) eq_refl) as [Hv64 _]. apply (int_text_parse v txt Hv64) in Hs as <-.
        destruct (intset_remove_contract iset X v Hr Hv64) as (iset' & -> & Hr'). by eexists.
      - assert (txt ∉ X) as Hn.
        { pose proof Hr as (xs & HR & _ & ->)%intset_rep. rewrite elem_of_list_to_set. intros (x & E & Hx)%list_elem_of_fmap.
          pose proof (intset_in_s _ _ HR) as Hf. rewrite list.Forall_forall in Hf. symmetry in E.
          apply (int_text_parse x txt (Hf x Hx)) in E. congruence. }
        rewrite bool_decide_eq_false_2 by done. eexists. split; [done|by apply Habs]. }
    destruct str as [s|]; [exact Hstr|].
    destruct (intset_remove_contract iset X llval Hr Ha) as (iset' & -> & Hr'). by eexists.
  - assert (exists o', (let! p := lpFirst lp in
        match p with
        | None => Ok (false, SetListpack lp)
        | Some _ => let! p := lpFind lp p txt (zlength txt) 0 in
            match p with
            | Some p => let! '(lp, _) := not_null (lpDelete junk lp p) in Ok (true, SetListpack lp)
            | None => Ok (false, SetListpack lp)
            end
        end) = Ok (bool_decide (txt ∈ X), o') /\ set_rep o' (X ∖ {[txt]})) as Hlpr; [|by destruct str].
    pose proof Hr as (els & (es & Hlp & ->) & Hels).
    destruct (lp_search lp es X txt Hlp Hels) as [[-> Hn]|(p & r & -> & -> & Hs)].
    + rewrite bool_decide_eq_false_2 by done. eexists. split; [done|by apply Habs].
    + destruct r as [i|]; cbn [fmap option_fmap option_map].
      * destruct Hs as (Hi & (e & He & Et) & Hin). rewrite bool_decide_eq_true_2 by done.
        destruct Hlp as (n & slack & -> & Hwf). destruct (delete_contract junk n slack es i Hwf Hi) as (lp' & -> & Hlp').
        eexists. split; [done|]. eexists. split; [by eexists|]. rewrite fmap_app, fmap_take, fmap_drop, <- Et.
        apply elements_delete; [|done]. by rewrite list_lookup_fmap, He.
      * rewrite bool_decide_eq_false_2 by done. eexists. split; [done|by apply Habs].
  - apply ht_rep in Hr. destruct (ht_remove_contract d a X txt Hr Hl) as (d' & a' & Hrm & Hm).
    exists (SetHT d' a'). split; [by destruct str|by apply ht_rep].
Qed.

Lemma member_set_contract o X str llval :
  set_rep o X -> arg_ok str llval ->
  exists o', is_member o str llval = Ok (bool_decide (arg_text str llval ∈ X), o') /\ set_rep o' X.
Proof.
  intros Hr Ha. destruct (arg_text_ok str llval Ha) as [Hb Hl]. set (txt := arg_text str llval) in *.
  assert (match str with Some s => Ok s | None => int_to_str junk llval end = Ok txt) as Htxt.
  { unfold txt. destruct str as [s|]; [done|]. by apply int_to_str_spec. }
  unfold setTypeIsMemberAux. rewrite Htxt. destruct o as [iset|lp|d a].
  - pose proof Hr as (xs & HR & Hsm & EX)%intset_rep. pose proof (intset_in_s _ _ HR) as Hf.
    assert (forall v, in_s 64 v -> intsetFind iset v = Ok (bool_decide (int_text v ∈ X))) as Hfind.
    { intros v Hv. rewrite (find_list iset xs v HR Hsm Hv). f_equal. apply bool_decide_ext. subst X. by rewrite int_member. }
    destruct str as [s|]; [|by rewrite (Hfind llval Ha); exists (SetIntset iset)].
    destruct (string2ll_whole txt) as ([v|] & Hs & Hv); rewrite Hs.
    + destruct (proj1 (Hv v) eq_refl) as [Hv64 _]. apply (int_text_parse v txt Hv64) in Hs as <-. rewrite Hfind by done. by eexists.
    + rewrite bool_decide_eq_false_2; [by eexists|]. subst X. rewrite elem_of_list_to_set. intros (x & E & Hx)%list_elem_of_fmap.
      rewrite list.Forall_forall in Hf. symmetry in E. apply (int_text_parse x txt (Hf x Hx)) in E. congruence.
  - assert (exists o', (let! p := lpFirst lp in
        match p with
        | None => Ok (false, SetListpack lp)
        | Some _ => let! p := lpFind lp p txt (zlength txt) 0 in Ok (bool_decide (p <> None), SetListpack lp)
        end) = Ok (bool_decide (txt ∈ X), o') /\ set_rep o' X) as Hlpr; [|by destruct str].
    pose proof Hr as (els & (es & Hlp & ->) & Hels). exists (SetListpack lp). split; [|done].
    destruct (lp_search lp es X txt Hlp Hels) as [[-> Hn]|(p & r & -> & -> & Hs)].
    + by rewrite bool_decide_eq_false_2.
    + do 2 f_equal. apply bool_decide_ext. destruct r as [i|]; simpl; [by split; [intros _; apply Hs|]|]. split; [by intros []|done].
  - apply ht_rep in Hr as (m & Hr & Hp & Hk & Hok & Hal). destruct (sdsnewlen_ok txt Hl) as (k & Hnew & E).
    destruct (find_contract hashFunction dictSdsKeyCompare dictSdsKeyCompare_eq dict_can_resize d m k Hr) as (d' & Hf & Hr' & [_ Hp']).
    exists (SetHT d' a). split.
    + assert (bool_decide (pair k <$> m !! k <> None) = bool_decide (txt ∈ X)) as <-; [|destruct str; rewrite Hnew, Hf; done].
      apply bool_decide_ext. rewrite <- E, <- Hk, not_eq_None_Some. by rewrite fmap_is_Some.
    + apply ht_rep. exists m. split_and!; [done|by rewrite Hp'|done..].
Qed.

Lemma size_set_contract o X :
  set_rep o X -> exists o', setTypeSize o = Ok (Z.of_nat (size X), o') /\ set_rep o' X /\ encoding_of o' = encoding_of o.
Proof.
  intros Hr. pose proof Hr as (els & Ho & Hels). pose proof (elements_size _ _ Hels) as Hs. destruct o as [iset|lp|d a].
  - exists (SetIntset iset). simpl. by rewrite (intset_size _ _ Hr).
  - destruct Ho as (es & (n & slack & -> & Hwf) & ->). simpl. destruct (length_contract n slack es Hwf) as (lp' & -> & Hlp' & _).
    exists (SetListpack lp'). rewrite <- Hs, length_fmap. split; [done|]. split; [|done]. exists (lp_elem <$> es). split; [by exists es|done].
  - exists (SetHT d a). simpl. apply ht_rep in Hr as Hm. pose proof Hm as (m & Hr' & _). by destruct (ht_size _ _ _ _ Hm Hr') as [-> _].
Qed.

Lemma create_set_contract value size_hint :
  0 <= size_hint ->
  exists o, setTypeCreate junk hashFunction dict_can_resize server value size_hint = Ok o /\ set_rep o ∅.
Proof.
  intros Hh. unfold setTypeCreate. destruct (string2ll_whole value) as (r & -> & _). destruct (_ && _).
  - eexists. split; [done|]. apply intset_rep. exists []. split_and!; [|done..].
    split; [by left|done..|constructor|constructor].
  - destruct (_ <=? _).
    + destruct (new_contract junk 0) as (lp & -> & Hlp & _). eexists. split; [done|]. exists []. split; [by exists []|].
      split_and!; [done|constructor|done].
    + destruct (presized size_hint Hh) as (st & d & -> & Hm). eexists. split; [done|]. by apply ht_rep.
Qed.

(** A listpack keeps its set when only its first [lpBytes] bytes are copied. *)
Lemma dup_set_contract o X :
  set_rep o X -> Z.of_nat (size X) < 2 ^ 57 ->
  exists o', setTypeDup junk hashFunction table_address sdsAllocSize dict_can_resize server o = Ok o' /\
    set_rep o' X /\ encoding_of o' = encoding_of o.
Proof.
  intros Hr Hsz. pose proof Hr as (els & Ho & Hels). destruct o as [iset|lp|d a]; cbn [setTypeDup].
  - by exists (SetIntset iset).
  - destruct Ho as (es & (n & slack & -> & Hwf) & ->). pose proof (dup_contract n es slack Hwf) as Hd. unfold lpDup in Hd.
    destruct (lpBytes _) as [sz|]; [|done]. rewrite Hd. eexists. split; [done|]. split; [|done].
    eexists. split; [|done]. exists es. split; [by exists n, []|done].
  - pose proof (proj1 (ht_rep _ _ _) Hr) as Hm. destruct (presized (dictSize d)) as (st & d0 & -> & Hm0).
    { pose proof Hm as (m & Hr' & _). destruct (ht_size _ _ _ _ Hm Hr') as [-> _]. lia. }
    pose proof (elements_size _ _ Hels) as Hlen. pose proof Hels as (Hok & Hnd & EX). pose proof Ho as (m & _ & _ & Eels & _).
    destruct (set_each_spec (fun seen set => exists d a, set = SetHT d a /\ ht_members d a (list_to_set (text <$> seen)))
      (fun set e => let! '(_, set) := (match e with
         | ElStr str => setTypeAdd junk hashFunction table_address sdsAllocSize dict_can_resize server set str
         | ElInt _ => Fault AssertFailed end) in Ok set) (SetHT d a) els (SetHT d0 0) Ho)
      as (o' & -> & (d' & a' & -> & Hm')); [by exists d0, 0| |].
    + intros pre e post set E (d1 & a1 & -> & Hm1).
      assert (exists str, e = ElStr str) as [str ->].
      { assert (e ∈ els) as He by (rewrite E; set_solver). rewrite Eels in He. apply list_elem_of_fmap in He as ([k v] & -> & _). by eexists. }
      rewrite E in Hok, Hlen. apply Forall_app in Hok as [_ [[Hb Hl] _]%Forall_cons_1].
      rewrite E, fmap_app in Hnd. apply list.NoDup_app in Hnd as (Hnd & _ & _).
      destruct (ht_add_contract d1 a1 _ str Hm1 Hb Hl) as (d2 & a2 & Hadd & Hm2).
      { rewrite size_list_to_set by done. rewrite length_fmap. rewrite <- Hlen in Hsz. revert Hsz. pow_const. len. }
      exists (SetHT d2 a2). split; [unfold setTypeAdd, setTypeAddAux; by rewrite Hadd|]. exists d2, a2. split; [done|].
      rewrite fmap_app, list_to_set_app_L. cbn [fmap list_fmap list_to_set text]. by rewrite union_empty_r_L, (comm_L (∪)).
    + eexists. split; [done|]. split; [|done]. rewrite EX. by apply ht_rep.
Qed.

(** Adding an integer that is not there yet to an integer set. *)
Lemma intset_add_new iset X v :
  set_rep (SetIntset iset) X -> in_s 64 v -> int_text v ∉ X -> Z.of_nat (size X) < 536870911 ->
  exists iset', intsetAdd junk iset v = Ok (iset', true) /\ set_rep (SetIntset iset') ({[int_text v]} ∪ X).
Proof.
  intros Hr Hv Hn Hsz. pose proof (intset_size _ _ Hr) as Hlen. apply intset_rep in Hr as (xs & HR & Hsm & ->).
  unfold intsetLen in Hlen. rewrite (repr_len _ _ HR) in Hlen. rewrite int_member in Hn by (by eauto using intset_in_s).
  destruct (add_list junk iset xs v HR Hsm Hv) as (iset' & xs' & -> & HR' & Hin & Hl). rewrite bool_decide_eq_true_2 by done.
  exists iset'. split; [done|]. apply intset_rep. exists xs'. split_and!; [done|unfold small; lia|by apply insert_texts].
Qed.

Lemma fill_intset o els X :
  holds o els -> elements_are els X -> Z.of_nat (size X) < 536870911 -> (forall t, t ∈ X -> exists v, in_s 64 v /\ int_text v = t) ->
  exists iset, set_each table_address o (intset_add_elem junk) intsetNew = Ok iset /\ set_rep (SetIntset iset) X.
Proof.
  intros Ho Hels Hsz Hints. pose proof (elements_size _ _ Hels) as Hlen. destruct Hels as (Hok & Hnd & ->).
  apply (set_each_spec (fun seen iset => set_rep (SetIntset iset) (list_to_set (text <$> seen))) (intset_add_elem junk) o els intsetNew Ho).
  { apply intset_rep. exists []. split_and!; [|done..]. split; [by left|done..|constructor|constructor]. }
  intros pre e post iset -> HP. rewrite fmap_app, fmap_cons in Hnd. apply list.NoDup_app in Hnd as (Hnd & Hnin & _).
  destruct (Hints (text e)) as (v & Hv & Ev); [rewrite fmap_app, fmap_cons; set_solver|]. unfold intset_add_elem.
  assert ((match e with
           | ElStr str => let! r := string2ll str (zlength str) in match r with Some v => Ok v | None => Fault AssertFailed end
           | ElInt v => Ok v
           end) = Ok v) as ->.
  { apply Forall_app in Hok as [_ [He _]%Forall_cons_1]. destruct e as [str|w]; simpl in *.
    - by rewrite (proj2 (int_text_parse v str Hv) Ev).
    - f_equal. symmetry. by apply int_text_inj. }
  destruct (intset_add_new iset _ v HP Hv) as (iset' & -> & HP').
  - rewrite Ev, elem_of_list_to_set. intros H'. apply (Hnin _ H'). left.
  - rewrite size_list_to_set by done. rewrite <- Hlen in Hsz. revert Hsz. len.
  - exists iset'. split; [done|]. rewrite fmap_app, list_to_set_app_L. cbn [fmap list_fmap list_to_set].
    by rewrite union_empty_r_L, (comm_L (∪)), <- Ev.
Qed.

Lemma to_intset_contract o X :
  set_rep o X -> Z.of_nat (size X) < 536870911 -> (forall t, t ∈ X -> exists v, in_s 64 v /\ int_text v = t) ->
  exists o', maybeConvertToIntset junk table_address server o = Ok o' /\ set_rep o' X /\
    (Z.of_nat (size X) <= intsetMaxEntries server -> encoding_of o' = OBJ_ENCODING_INTSET).
Proof.
  intros Hr Hsz Hints. unfold maybeConvertToIntset. destruct (size_set_contract o X Hr) as (o1 & -> & Hr1 & _).
  pose proof Hr1 as (els & Ho & Hels). destruct (fill_intset o1 els X Ho Hels Hsz Hints) as (iset & -> & Hr2).
  assert (exists o', (if Z.of_nat (size X) >? intsetMaxEntries server then Ok o1 else Ok (SetIntset iset)) = Ok o' /\ set_rep o' X /\
    (Z.of_nat (size X) <= intsetMaxEntries server -> encoding_of o' = OBJ_ENCODING_INTSET)) as Hgo.
  { destruct (Z.gtb_spec (Z.of_nat (size X)) (intsetMaxEntries server)); eexists; (split_and!; [done|done|by lia + done]). }
  destruct o; [by eexists|exact Hgo..].
Qed.

(** Every conversion keeps the set. *)
Lemma maybe_convert_contract o X hint :
  set_rep o X -> 0 <= hint -> Z.of_nat (size X) < 2 ^ 58 ->
  exists o', setTypeMaybeConvert junk hashFunction table_address sdsAllocSize dict_can_resize server o hint = Ok o' /\ set_rep o' X.
Proof.
  intros Hr Hh Hsz. assert (encoding_of o <> OBJ_ENCODING_HT ->
    exists o', (let! '(_, o) := convert o OBJ_ENCODING_HT hint true true in Ok o) = Ok o' /\ set_rep o' X) as Hc.
  { intros He. destruct (convert_ht o X hint true true Hr He Hh Hsz) as (r & o' & -> & Hp & Ho). rewrite (Hp eq_refl) in Ho.
    destruct Ho as (d & a & -> & Hm). eexists. split; [done|]. by apply ht_rep. }
  unfold setTypeMaybeConvert. destruct o; [destruct (_ >? _); [by apply Hc|by eexists]..|by eexists].
Qed.

(** * Histories *)

Inductive set_op :=
| OpAdd (str : option (list Z)) (llval : Z)
| OpRemove (str : option (list Z)) (llval : Z)
| OpIsMember (str : option (list Z)) (llval : Z)
| OpSize
| OpMaybeConvert (size_hint : Z)
| OpDup.

Definition op_ok (op : set_op) : Prop :=
  match op with
  | OpAdd str llval | OpRemove str llval | OpIsMember str llval => arg_ok str llval
  | OpMaybeConvert size_hint => 0 <= size_hint
  | _ => True
  end.

(** The reply of an operation and the object after it. *)
Definition exec_op (o : setobj) (op : set_op) : res (Z * setobj) :=
  match op with
  | OpAdd str llval => let! '(b, o) := add o str llval in Ok (b2z b, o)
  | OpRemove str llval => let! '(b, o) := remove o str llval in Ok (b2z b, o)
  | OpIsMember str llval => let! '(b, o) := is_member o str llval in Ok (b2z b, o)
  | OpSize => setTypeSize o
  | OpMaybeConvert size_hint =>
      let! o := setTypeMaybeConvert junk hashFunction table_address sdsAllocSize dict_can_resize server o size_hint in Ok (0, o)
  | OpDup => let! o := setTypeDup junk hashFunction table_address sdsAllocSize dict_can_resize server o in Ok (0, o)
  end.

(** The same on a mathematical set. *)
Definition spec_op X (op : set_op) : Z * gset (list Z) :=
  match op with
  | OpAdd str llval => (b2z (bool_decide (arg_text str llval ∉ X)), {[arg_text str llval]} ∪ X)
  | OpRemove str llval => (b2z (bool_decide (arg_text str llval ∈ X)), X ∖ {[arg_text str llval]})
  | OpIsMember str llval => (b2z (bool_decide (arg_text str llval ∈ X)), X)
  | OpSize => (Z.of_nat (size X), X)
  | OpMaybeConvert _ | OpDup => (0, X)
  end.

Fixpoint exec_ops (o : setobj) (ops : list set_op) : res (list Z * setobj) :=
  match ops with
  | [] => Ok ([], o)
  | op :: ops => let! '(r, o) := exec_op o op in let! '(rs, o) := exec_ops o ops in Ok (r :: rs, o)
  end.

Fixpoint spec_ops X (ops : list set_op) : list Z * gset (list Z) :=
  match ops with
  | [] => ([], X)
  | op :: ops => let '(r, X) := spec_op X op in let '(rs, X) := spec_ops X ops in (r :: rs, X)
  end.

Lemma exec_op_spec o X op :
  set_rep o X -> op_ok op -> Z.of_nat (size X) < 536870911 ->
  exists o', exec_op o op = Ok ((spec_op X op).1, o') /\ set_rep o' (spec_op X op).2.
Proof.
  intros Hr Hop Hsz. destruct op as [str v|str v|str v| |hint|]; cbn [exec_op spec_op fst snd].
  - destruct (add_set_contract o X str v Hr Hop Hsz) as (o' & -> & ?). by eexists.
  - destruct (remove_set_contract o X str v Hr Hop) as (o' & -> & ?). by eexists.
  - destruct (member_set_contract o X str v Hr Hop) as (o' & -> & ?). by eexists.
  - destruct (size_set_contract o X Hr) as (o' & -> & ? & _). by eexists.
  - destruct (maybe_convert_contract o X hint Hr Hop) as (o' & -> & ?); [pow_const; lia|by eexists].
  - destruct (dup_set_contract o X Hr) as (o' & -> & ? & _); [pow_const; lia|by eexists].
Qed.

Lemma spec_op_size X op : (size (spec_op X op).2 <= S (size X))%nat.
Proof.
  destruct op as [str v|str v|str v| |hint|]; cbn [spec_op snd]; try lia.
  - rewrite size_union_alt, size_singleton. assert (size (X ∖ {[arg_text str v]}) <= size X)%nat by (apply subseteq_size; set_solver). lia.
  - assert (size (X ∖ {[arg_text str v]}) <= size X)%nat by (apply subseteq_size; set_solver). lia.
Qed.

Lemma exec_ops_spec ops : forall o X,
  set_rep o X -> Forall op_ok ops -> Z.of_nat (size X) + zlength ops < 536870911 ->
  exists o', exec_ops o ops = Ok ((spec_ops X ops).1, o') /\ set_rep o' (spec_ops X ops).2.
Proof.
  induction ops as [|op ops IH]; intros o X Hr Hops Hsz; [by exists o|]. apply Forall_cons_1 in Hops as [Hop Hops].
  cbn [length] in Hsz. destruct (exec_op_spec o X op Hr Hop) as (o1 & H1 & Hr1); [lia|].
  cbn [exec_ops spec_ops]. rewrite H1. pose proof (spec_op_size X op). destruct (spec_op X op) as [r X1]. cbn [fst snd] in *.
  destruct (IH o1 X1 Hr1 Hops) as (o2 & -> & Hr2); [lia|]. destruct (spec_ops X1 ops) as [rs X2]. by exists o2.
Qed.

(** * Claims *)

(** C2: A set object refines a mathematical set of byte strings: for any configuration and
    any sequence of setTypeAdd, setTypeRemove, setTypeIsMember (with members given as
    strings or as integers), setTypeSize, setTypeMaybeConvert and setTypeDup calls on an
    object from setTypeCreate, no call fails and every reply is the one of the set,
    although the object changes between the integer set, listpack and hash table
    encodings on the way; the memory statistic of the hash table is the sum over the
    members. *)
Theorem setType_refines_sets value size_hint ops :
  0 <= size_hint -> Forall op_ok ops -> zlength ops < 536870911 ->
  exists o o', setTypeCreate junk hashFunction dict_can_resize server value size_hint = Ok o /\
    exec_ops o ops = Ok ((spec_ops ∅ ops).1, o') /\ set_rep o' (spec_ops ∅ ops).2.
Proof.
  intros Hh Hops Hlen. destruct (create_set_contract value size_hint Hh) as (o & -> & Hr).
  destruct (exec_ops_spec ops o ∅ Hr Hops) as (o' & Hx & Hr'); [by rewrite size_empty|]. by exists o, o'.
Qed.

(** Conversions and iteration keep the set: setTypeConvertAndExpand to a hash table
    succeeds or, when memory may run out, leaves the object alone; maybeConvertToIntset
    turns a set of integers of any encoding into an integer set when the configuration
    allows the size; a loop over setTypeNext delivers every member exactly once, and the
    iterator can be released (the fingerprint of the hash table has not changed). *)
Theorem setTypeConvert_correct o X cap panic malloc_ok :
  set_rep o X -> 0 <= cap -> Z.of_nat (size X) < 536870911 ->
  (encoding_of o <> OBJ_ENCODING_HT ->
   exists r o', convert o OBJ_ENCODING_HT cap panic malloc_ok = Ok (r, o') /\ (panic = true -> r = true) /\
     set_rep o' X /\ encoding_of o' = if (r : bool) then OBJ_ENCODING_HT else encoding_of o) /\
  ((forall t, t ∈ X -> exists v, in_s 64 v /\ sdecimal v t) ->
   exists o', maybeConvertToIntset junk table_address server o = Ok o' /\ set_rep o' X /\
     (Z.of_nat (size X) <= intsetMaxEntries server -> encoding_of o' = OBJ_ENCODING_INTSET)) /\
  (exists els, set_each table_address o (fun seen e => Ok (seen ++ [e])) [] = Ok els /\
     NoDup (text <$> els) /\ X = list_to_set (text <$> els)).
Proof.
  intros Hr Hc Hsz. split_and!.
  - intros He. destruct (convert_ht o X cap panic malloc_ok Hr He Hc) as (r & o' & -> & Hp & Ho); [pow_const; lia|].
    exists r, o'. split_and!; [done..| |]; (destruct r; [destruct Ho as (d & a & -> & Hm)|subst o']); try done. by apply ht_rep.
  - intros Hints. apply to_intset_contract; [done..|]. intros t Ht. destruct (Hints t Ht) as (v & Hv & Hd). exists v. split; [done|].
    by apply int_text_eq.
  - destruct Hr as (els & Ho & Hok & Hnd & ->).
    destruct (set_each_spec (fun seen l => l = seen) (fun seen e => Ok (seen ++ [e])) o els [] Ho) as (l & Hl & ->); [done| |by exists els].
    intros pre e post b -> ->. by exists (pre ++ [e]).
Qed.
End Spec.

(** * Examples *)

Definition demo_config : set_config := mkSetConfig 3 2 8.
Definition demo_hash (k : sds) : Z := zlength (sds_bytes k).
Definition demo_ops : list set_op :=
  [OpAdd None 5; OpAdd (Some (bytes_of "17"%string)) 0; OpAdd (Some (bytes_of "x"%string)) 0; OpSize;
   OpAdd (Some (bytes_of "5"%string)) 0; OpRemove None 17; OpIsMember (Some (bytes_of "17"%string)) 0; OpDup; OpSize].

Lemma setType_refines_sets_witness :
  (spec_ops ∅ demo_ops).1 = [1; 1; 1; 3; 0; 1; 0; 0; 2] /\
  exists o o', setTypeCreate 0 demo_hash DICT_RESIZE_ENABLE demo_config (bytes_of "5"%string) 1 = Ok o /\
    exec_ops 0 demo_hash (fun _ => 0) (fun t => zlength t) DICT_RESIZE_ENABLE demo_config o demo_ops = Ok ([1; 1; 1; 3; 0; 1; 0; 0; 2], o').
Proof.
  split; [vm_compute; reflexivity|].
  destruct (setType_refines_sets 0 demo_hash (fun _ => 0) (fun t => zlength t) DICT_RESIZE_ENABLE demo_config (bytes_of "5"%string) 1 demo_ops)
    as (o & o' & Hc & Hx & _); [lia|repeat constructor; vm_compute; congruence|vm_compute; reflexivity|].
  exists o, o'. split; [exact Hc|]. rewrite Hx. vm_compute. reflexivity.
Defined.

Definition demo_iset : setobj := SetIntset (mk_intset 2 2 [5; 0; 17; 0]).

Lemma demo_iset_rep : set_rep demo_hash (fun t => zlength t) demo_iset {[bytes_of "5"%string; bytes_of "17"%string]}.
Proof.
  apply intset_rep. exists [5; 17]. split_and!; [|done|apply (bool_decide_unpack _); vm_compute; exact I].
  split; [by left|done|done|repeat constructor|repeat constructor; unfold in_s; vm_compute; congruence].
Qed.

Lemma setTypeConvert_correct_witness :
  exists els, set_each (fun _ => 0) demo_iset (fun seen e => Ok (seen ++ [e])) [] = Ok els /\ NoDup (text <$> els).
Proof.
  destruct (setTypeConvert_correct 0 demo_hash (fun _ => 0) (fun t => zlength t) DICT_RESIZE_ENABLE demo_config demo_iset
    {[bytes_of "5"%string; bytes_of "17"%string]} 2 true true demo_iset_rep) as (_ & _ & els & H1 & H2 & _);
    [lia|vm_compute; reflexivity|].
  exists els. split; [exact H1|exact H2].
Defined.
