(* ===== verification/Double.v ===== *)
(** The scores of sorted sets: double precision floating point numbers of IEEE 754, with
    the standard library's specification of comparison and addition.  The comparison is
    lexicographic on sign, exponent and mantissa, so that the facts below hold for all
    values of the type; NaN is unordered and the two zeros are equal. *)

From Stdlib Require Import SpecFloat.
From S2P Require Import Prelude.

Definition double : Set := spec_float.

Definition isnan (x : double) : bool := match x with S754_nan => true | _ => false end.

(** x < y, x <= y, x == y and x + y *)
Definition dlt (x y : double) : bool := SFltb x y.
Definition dle (x y : double) : bool := SFleb x y.
Definition deq (x y : double) : bool := SFeqb x y.
Definition dadd (x y : double) : double := SFadd 53 1024 x y.

#[global] Instance double_eq_dec : EqDecision double.
Proof. solve_decision. Defined.

(** * A key that orders like the numbers *)

Definition dkey (x : double) : Z * Z * Z :=
  match x with
  | S754_nan => (3, 0, 0)
  | S754_infinity s => (if s then -2 else 2, 0, 0)
  | S754_zero _ => (0, 0, 0)
  | S754_finite s m e => if s then (-1, - e, - Zpos m) else (1, e, Zpos m)
  end.

Definition klt (a b : Z * Z * Z) : Prop :=
  a.1.1 < b.1.1 \/ a.1.1 = b.1.1 /\ (a.1.2 < b.1.2 \/ a.1.2 = b.1.2 /\ a.2 < b.2).

Lemma dkey_compare x y : isnan x = false -> isnan y = false ->
  match SFcompare x y with
  | Some Lt => klt (dkey x) (dkey y)
  | Some Eq => dkey x = dkey y
  | Some Gt => klt (dkey y) (dkey x)
  | None => False
  end.
Proof.
  unfold klt. destruct x as [sx|sx| |sx mx ex], y as [sy|sy| |sy my ey]; try done;
    intros _ _; repeat match goal with s : bool |- _ => destruct s end; simpl; try lia; try done.
  - destruct (Z.compare_spec ex ey); simpl; try lia. change (Pos.compare_cont Eq mx my) with (Pos.compare mx my).
    destruct (Pos.compare_spec mx my); simpl; try lia. by subst.
  - destruct (Z.compare_spec ex ey); simpl; try lia. change (Pos.compare_cont Eq mx my) with (Pos.compare mx my).
    destruct (Pos.compare_spec mx my); simpl; try lia. by subst.
Qed.

Lemma dlt_key x y : isnan x = false -> isnan y = false -> dlt x y = true <-> klt (dkey x) (dkey y).
Proof.
  intros Hx Hy. pose proof (dkey_compare x y Hx Hy) as Hc. unfold dlt, SFltb.
  destruct (SFcompare x y) as [[| |]|]; [|done| |done]; split; try done; unfold klt in *.
  - rewrite Hc. lia.
  - intros Hk. lia.
Qed.

Lemma deq_key x y : isnan x = false -> isnan y = false -> deq x y = true <-> dkey x = dkey y.
Proof.
  intros Hx Hy. pose proof (dkey_compare x y Hx Hy) as Hc. unfold deq, SFeqb.
  destruct (SFcompare x y) as [[| |]|]; [done| | |done]; split; try done; intros Hk; unfold klt in *; rewrite Hk in Hc; lia.
Qed.

Lemma dle_lt x y : isnan x = false -> isnan y = false -> dle x y = negb (dlt y x).
Proof.
  intros Hx Hy. pose proof (dkey_compare x y Hx Hy) as Hc. pose proof (dkey_compare y x Hy Hx) as Hd. unfold dle, SFleb, dlt, SFltb.
  destruct (SFcompare x y) as [[| |]|], (SFcompare y x) as [[| |]|]; try done; exfalso; unfold klt in *;
    repeat match goal with H : dkey _ = dkey _ |- _ => rewrite H in * end; lia.
Qed.
