(* ===== verification/Skiplist.v ===== *)
(** The skip list of sorted sets, the model: the skiplist part of
    src/redis-stable/src/t_zset.c.

    A skip list owns its nodes, a finite map from addresses to nodes; a dereference of an
    address without a node is a fault.  random() is a list of draws.  What an allocation
    leaves uninitialised holds [junk].  The usable size that the allocator reports for a
    node with a given number of levels, and the allocation size of a string, are
    parameters: they are only added up in [alloc_size]. *)

From stdpp Require Import gmap.
From S2P Require Import Prelude Machine Double Dict SetType.

Definition sdscmp (s1 s2 : sds) : Z :=
  let l1 := zlength (sds_bytes s1) in
  let l2 := zlength (sds_bytes s2) in
  let minlen := if l1 <? l2 then l1 else l2 in
  let cmp := memcmp (Z.to_nat minlen) (sds_bytes s1) (sds_bytes s2) in
  if cmp =? 0 then (if l1 >? l2 then 1 else if l1 <? l2 then -1 else 0) else cmp.

Definition ZSKIPLIST_MAXLEVEL : Z := 32.
Definition ZSKIPLIST_MAX_SEARCH : Z := 10.
(** ZSKIPLIST_P*RAND_MAX *)
Definition threshold : Z := 536870911.

(** * Data *)

Record zskiplistLevel := mkLevel {
  forward : option Z;
  span : Z
}.

(** [ele] is NULL in the header. *)
Record zskiplistNode := mkZNode {
  ele : option sds;
  score : double;
  backward : option Z;
  levels : list zskiplistLevel
}.

Record zskiplist := mkZsl {
  header : Z;
  tail : option Z;
  zlen : Z;
  level : Z;
  alloc_size : Z;
  nodes : gmap Z zskiplistNode;
  next_addr : Z
}.

Record zrangespec := mkRange {
  min : double;
  max : double;
  minex : bool;
  maxex : bool
}.

(** A bound of a lexicographic range: shared.minstring, shared.maxstring or a string. *)
Inductive lexbound := MinString | MaxString | LexString (s : sds).

Record zlexrangespec := mkLexRange {
  lexmin : lexbound;
  lexmax : lexbound;
  lexminex : bool;
  lexmaxex : bool
}.

(** Memory *)
Definition deref (zsl : zskiplist) (x : Z) : res zskiplistNode :=
  match nodes zsl !! x with Some n => Ok n | None => Fault OutOfBounds end.
Definition deref_ptr (zsl : zskiplist) (x : option Z) : res zskiplistNode :=
  match x with Some x => deref zsl x | None => Fault OutOfBounds end.
Definition set_nodes (zsl : zskiplist) (m : gmap Z zskiplistNode) : zskiplist :=
  mkZsl (header zsl) (tail zsl) (zlen zsl) (level zsl) (alloc_size zsl) m (next_addr zsl).
Definition set_tail (zsl : zskiplist) (t : option Z) : zskiplist :=
  mkZsl (header zsl) t (zlen zsl) (level zsl) (alloc_size zsl) (nodes zsl) (next_addr zsl).
Definition set_length (zsl : zskiplist) (n : Z) : zskiplist :=
  mkZsl (header zsl) (tail zsl) n (level zsl) (alloc_size zsl) (nodes zsl) (next_addr zsl).
Definition set_zlevel (zsl : zskiplist) (l : Z) : zskiplist :=
  mkZsl (header zsl) (tail zsl) (zlen zsl) l (alloc_size zsl) (nodes zsl) (next_addr zsl).

(** x->level[i] *)
Definition get_level (zsl : zskiplist) (x i : Z) : res zskiplistLevel :=
  let! n := deref zsl x in get1 i (levels n).
Definition set_level (zsl : zskiplist) (x i : Z) (l : zskiplistLevel) : res zskiplist :=
  let! n := deref zsl x in
  let! ls := set1 i l (levels n) in
  Ok (set_nodes zsl (<[x := mkZNode (ele n) (score n) (backward n) ls]> (nodes zsl))).
Definition set_backward (zsl : zskiplist) (x : Z) (b : option Z) : res zskiplist :=
  let! n := deref zsl x in
  Ok (set_nodes zsl (<[x := mkZNode (ele n) (score n) b (levels n)]> (nodes zsl))).
Definition set_score (zsl : zskiplist) (x : Z) (s : double) : res zskiplist :=
  let! n := deref zsl x in
  Ok (set_nodes zsl (<[x := mkZNode (ele n) s (backward n) (levels n)]> (nodes zsl))).

(** n->ele as an argument of sdscmp *)
Definition ele_of (n : zskiplistNode) : res sds :=
  match ele n with Some e => Ok e | None => Fault OutOfBounds end.

(** * Creation *)

Section Model.
Context (usable : Z -> Z) (sdsAllocSize : sds -> Z) (zsl_size : Z).
Context (junk : zskiplistLevel).
Implicit Types (zsl : zskiplist) (x i : Z) (us : list (Z * Z)).

Definition zslCreateNode zsl (lv : Z) (sc : double) (e : option sds) : Z * zskiplist :=
  let x := next_addr zsl in
  let zn := mkZNode e sc (forward junk) (replicate (Z.to_nat lv) junk) in
  let size := u64 (alloc_size zsl + usable lv) in
  let size := match e with Some e => u64 (size + sdsAllocSize e) | None => size end in
  (x, mkZsl (header zsl) (tail zsl) (zlen zsl) (level zsl) size (<[x := zn]> (nodes zsl)) (x + 1)).

Definition zero : double := SpecFloat.S754_zero false.

(** The header is the first node; its levels are set by the loop of zslCreate. *)
Definition zslCreate : zskiplist :=
  let '(h, zsl) := zslCreateNode (mkZsl 0 None 0 1 zsl_size ∅ 1) ZSKIPLIST_MAXLEVEL zero None in
  let hd := mkZNode None zero None (replicate (Z.to_nat ZSKIPLIST_MAXLEVEL) (mkLevel None 0)) in
  mkZsl h None (zlen zsl) (level zsl) (alloc_size zsl) (<[h := hd]> (nodes zsl)) (next_addr zsl).

Definition zslFreeNode zsl x : res zskiplist :=
  let! n := deref zsl x in
  let size := match ele n with Some e => u64 (alloc_size zsl - sdsAllocSize e) | None => alloc_size zsl end in
  let size := u64 (size - usable (zlength (levels n))) in
  Ok (mkZsl (header zsl) (tail zsl) (zlen zsl) (level zsl) size (delete x (nodes zsl)) (next_addr zsl)).

(** The loop of zslFree over the nodes. *)
Fixpoint free_loop (fuel : nat) zsl (node : option Z) : res zskiplist :=
  match node with
  | None => Ok zsl
  | Some x =>
      match fuel with
      | O => Fault OutOfFuel
      | S fuel =>
          let! l := get_level zsl x 0 in
          let! zsl := zslFreeNode zsl x in
          free_loop fuel zsl (forward l)
      end
  end.

(** The state just before the list itself is freed. *)
Definition zslFree zsl : res zskiplist :=
  let! l := get_level zsl (header zsl) 0 in
  let! hd := deref zsl (header zsl) in
  let zsl' := mkZsl (header zsl) (tail zsl) (zlen zsl) (level zsl) (u64 (alloc_size zsl - usable (zlength (levels hd))))
    (delete (header zsl) (nodes zsl)) (next_addr zsl) in
  free_loop (Z.to_nat (zlen zsl)) zsl' (forward l).

Definition zslAllocSize zsl : Z := alloc_size zsl.

(** while (random() < threshold) level += 1; *)
Fixpoint random_loop (draws : list Z) (lv : Z) : res Z :=
  match draws with
  | [] => Fault OutOfFuel
  | d :: draws => if d <? threshold then random_loop draws (lv + 1) else Ok lv
  end.

Definition zslRandomLevel (draws : list Z) : res Z :=
  let! lv := random_loop draws 1 in
  Ok (if lv <? ZSKIPLIST_MAXLEVEL then lv else ZSKIPLIST_MAXLEVEL).

(** * Searching *)

(** The inner loop of a search: forward on level [i] while [go] accepts the next node, given
    the rank it has.  The result is the last node and its rank. *)
Fixpoint walk (fuel : nat) zsl i (go : Z -> zskiplistNode -> res bool) x (rank : Z) : res (Z * Z) :=
  match fuel with
  | O => Fault OutOfFuel
  | S fuel =>
      let! l := get_level zsl x i in
      match forward l with
      | None => Ok (x, rank)
      | Some y =>
          let! n := deref zsl y in
          let! b := go (u64 (rank + span l)) n in
          if b then walk fuel zsl i go y (u64 (rank + span l)) else Ok (x, rank)
      end
  end.

(** The loop over the levels below [n]: the arrays update and rank, level 0 first. *)
Fixpoint descend (n : nat) zsl (go : Z -> zskiplistNode -> res bool) x (rank : Z) us : res (list (Z * Z)) :=
  match n with
  | O => Ok us
  | S i =>
      let! '(x, rank) := walk (S (Z.to_nat (zlen zsl))) zsl (Z.of_nat i) go x rank in
      descend i zsl go x rank ((x, rank) :: us)
  end.

Definition search zsl (go : Z -> zskiplistNode -> res bool) : res (list (Z * Z)) :=
  descend (Z.to_nat (level zsl)) zsl go (header zsl) 0 [].

(** forward->score < score || (forward->score == score && sdscmp(forward->ele, ele) < 0) *)
Definition before (sc : double) (e : sds) (_ : Z) (n : zskiplistNode) : res bool :=
  if dlt (score n) sc then Ok true
  else if deq (score n) sc then let! e' := ele_of n in Ok (sdscmp e' e <? 0)
  else Ok false.

(** * Insertion *)

(** for (i = first; n more rounds; i++) *)
Fixpoint for_levels (n : nat) i (round : zskiplist -> Z -> res zskiplist) zsl : res zskiplist :=
  match n with
  | O => Ok zsl
  | S n => let! zsl := round zsl i in for_levels n (i + 1) round zsl
  end.

(** A level that no node had: update[i]->level[i].span = zsl->length *)
Definition raise_level zsl i : res zskiplist :=
  let! l := get_level zsl (header zsl) i in
  set_level zsl (header zsl) i (mkLevel (forward l) (zlen zsl)).

Definition link_level x us (rank0 : Z) zsl i : res zskiplist :=
  let! '(u, rank) := get1 i us in
  let! l := get_level zsl u i in
  let! zsl := set_level zsl x i (mkLevel (forward l) (u64 (span l - u64 (rank0 - rank)))) in
  set_level zsl u i (mkLevel (Some x) (u64 (u64 (rank0 - rank) + 1))).

Definition extend_span us zsl i : res zskiplist :=
  let! '(u, _) := get1 i us in
  let! l := get_level zsl u i in
  set_level zsl u i (mkLevel (forward l) (u64 (span l + 1))).

Definition zslInsert zsl (sc : double) (e : sds) (draws : list Z) : res (Z * zskiplist) :=
  assert! negb (isnan sc) in
  let! us := search zsl (before sc e) in
  let! lv := zslRandomLevel draws in
  let! '(us, zsl) :=
    (if lv >? level zsl then
       let! zsl := for_levels (Z.to_nat (lv - level zsl)) (level zsl) raise_level zsl in
       Ok (us ++ replicate (Z.to_nat (lv - level zsl)) (header zsl, 0), set_zlevel zsl lv)
     else Ok (us, zsl)) in
  let '(x, zsl) := zslCreateNode zsl lv sc (Some e) in
  let! '(u0, rank0) := get1 0 us in
  let! zsl := for_levels (Z.to_nat lv) 0 (link_level x us rank0) zsl in
  let! zsl := for_levels (Z.to_nat (level zsl - lv)) lv (extend_span us) zsl in
  let! zsl := set_backward zsl x (if u0 =? header zsl then None else Some u0) in
  let! l := get_level zsl x 0 in
  let! zsl :=
    (match forward l with
     | Some y => set_backward zsl y (Some x)
     | None => Ok (set_tail zsl (Some x))
     end) in
  Ok (x, set_length zsl (u64 (zlen zsl + 1))).

(** * Deletion *)

Definition unlink_level x (update : list Z) zsl i : res zskiplist :=
  let! u := get1 i update in
  let! l := get_level zsl u i in
  if bool_decide (forward l = Some x) then
    let! lx := get_level zsl x i in
    set_level zsl u i (mkLevel (forward lx) (u64 (span l + u64 (span lx - 1))))
  else set_level zsl u i (mkLevel (forward l) (u64 (span l - 1))).

Fixpoint lower_level (fuel : nat) zsl : res zskiplist :=
  match fuel with
  | O => Fault OutOfFuel
  | S fuel =>
      if level zsl >? 1 then
        let! l := get_level zsl (header zsl) (level zsl - 1) in
        match forward l with
        | None => lower_level fuel (set_zlevel zsl (level zsl - 1))
        | Some _ => Ok zsl
        end
      else Ok zsl
  end.

Definition zslDeleteNode zsl x (update : list Z) : res zskiplist :=
  let! zsl := for_levels (Z.to_nat (level zsl)) 0 (unlink_level x update) zsl in
  let! n := deref zsl x in
  let! l := get1 0 (levels n) in
  let! zsl :=
    (match forward l with
     | Some y => set_backward zsl y (backward n)
     | None => Ok (set_tail zsl (backward n))
     end) in
  let! zsl := lower_level (Z.to_nat (level zsl)) zsl in
  Ok (set_length zsl (u64 (zlen zsl - 1))).

(** x = x->level[0].forward after the search *)
Definition successor zsl us : res (option Z) :=
  let! '(u0, _) := get1 0 us in
  let! l := get_level zsl u0 0 in
  Ok (forward l).

(** Without [keep] the node is freed; otherwise it is returned. *)
Definition zslDelete zsl (sc : double) (e : sds) (keep : bool) : res (bool * option Z * zskiplist) :=
  let! us := search zsl (before sc e) in
  let! x := successor zsl us in
  match x with
  | None => Ok (false, None, zsl)
  | Some x =>
      let! n := deref zsl x in
      let! found := (if deq sc (score n) then let! e' := ele_of n in Ok (sdscmp e' e =? 0) else Ok false) in
      if found then
        let! zsl := zslDeleteNode zsl x us.*1 in
        if keep then Ok (true, Some x, zsl)
        else let! zsl := zslFreeNode zsl x in Ok (true, None, zsl)
      else Ok (false, None, zsl)
  end.

Definition zslUpdateScore zsl (curscore : double) (e : sds) (newscore : double) (draws : list Z) : res (Z * zskiplist) :=
  let! us := search zsl (before curscore e) in
  let! x := successor zsl us in
  match x with
  | None => Fault AssertFailed
  | Some x =>
      let! n := deref zsl x in
      assert! deq curscore (score n) in
      let! xe := ele_of n in
      assert! sdscmp xe e =? 0 in
      let! after_prev :=
        (match backward n with None => Ok true | Some b => let! b := deref zsl b in Ok (dlt (score b) newscore) end) in
      let! l := get1 0 (levels n) in
      let! before_next :=
        (if after_prev then
           match forward l with None => Ok true | Some f => let! f := deref zsl f in Ok (dlt newscore (score f)) end
         else Ok false) in
      if after_prev && before_next then
        let! zsl := set_score zsl x newscore in Ok (x, zsl)
      else
        let! zsl := zslDeleteNode zsl x us.*1 in
        let! '(newnode, zsl) := zslInsert zsl newscore xe draws in
        (* x->ele = NULL before the node is freed *)
        let! n := deref zsl x in
        let zsl := mkZsl (header zsl) (tail zsl) (zlen zsl) (level zsl) (u64 (alloc_size zsl - sdsAllocSize xe))
          (<[x := mkZNode None (score n) (backward n) (levels n)]> (nodes zsl)) (next_addr zsl) in
        let! zsl := zslFreeNode zsl x in
        Ok (newnode, zsl)
  end.

(** * Ranks *)

(** forward->score < score || (forward->score == score && sdscmp(forward->ele, ele) <= 0) *)
Definition upto (sc : double) (e : sds) (_ : Z) (n : zskiplistNode) : res bool :=
  if dlt (score n) sc then Ok true
  else if deq (score n) sc then let! e' := ele_of n in Ok (sdscmp e' e <=? 0)
  else Ok false.

(** The loop over the levels below [n]. *)
Fixpoint rank_loop (n : nat) zsl (sc : double) (e : sds) x (rank : Z) : res Z :=
  match n with
  | O => Ok 0
  | S i =>
      let! '(x, rank) := walk (S (Z.to_nat (zlen zsl))) zsl (Z.of_nat i) (upto sc e) x rank in
      let! nx := deref zsl x in
      match ele nx with
      | Some e' => if deq (score nx) sc && (sdscmp e' e =? 0) then Ok rank else rank_loop i zsl sc e x rank
      | None => rank_loop i zsl sc e x rank
      end
  end.

Definition zslGetRank zsl (sc : double) (e : sds) : res Z :=
  rank_loop (Z.to_nat (level zsl)) zsl sc e (header zsl) 0.

Fixpoint element_loop (n : nat) zsl x (traversed rank : Z) : res (option Z) :=
  match n with
  | O => Ok None
  | S i =>
      let! '(x, traversed) := walk (S (Z.to_nat (zlen zsl))) zsl (Z.of_nat i) (fun r _ => Ok (r <=? rank)) x traversed in
      if traversed =? rank then Ok (Some x) else element_loop i zsl x traversed rank
  end.

Definition zslGetElementByRankFromNode zsl (start_node start_level rank : Z) : res (option Z) :=
  element_loop (Z.to_nat (start_level + 1)) zsl start_node 0 rank.

Definition zslGetElementByRank zsl (rank : Z) : res (option Z) :=
  zslGetElementByRankFromNode zsl (header zsl) (level zsl - 1) rank.

(** * Ranges *)

Definition zslValueGteMin (value : double) (spec : zrangespec) : bool :=
  if minex spec then dlt (min spec) value else dle (min spec) value.

Definition zslValueLteMax (value : double) (spec : zrangespec) : bool :=
  if maxex spec then dlt value (max spec) else dle value (max spec).

(** The shared strings are told from other strings by their address. *)
Definition sdscmplex (a b : lexbound) : Z :=
  match a, b with
  | MinString, MinString | MaxString, MaxString => 0
  | MinString, _ | _, MaxString => -1
  | MaxString, _ | _, MinString => 1
  | LexString a, LexString b => sdscmp a b
  end.

Definition zslLexValueGteMin (value : sds) (spec : zlexrangespec) : bool :=
  if lexminex spec then sdscmplex (LexString value) (lexmin spec) >? 0 else sdscmplex (LexString value) (lexmin spec) >=? 0.

Definition zslLexValueLteMax (value : sds) (spec : zlexrangespec) : bool :=
  if lexmaxex spec then sdscmplex (LexString value) (lexmax spec) <? 0 else sdscmplex (LexString value) (lexmax spec) <=? 0.

(** The bounds as tests of a node. *)
Definition score_gte (range : zrangespec) (n : zskiplistNode) : res bool := Ok (zslValueGteMin (score n) range).
Definition score_lte (range : zrangespec) (n : zskiplistNode) : res bool := Ok (zslValueLteMax (score n) range).
Definition lex_gte (range : zlexrangespec) (n : zskiplistNode) : res bool :=
  let! e := ele_of n in Ok (zslLexValueGteMin e range).
Definition lex_lte (range : zlexrangespec) (n : zskiplistNode) : res bool :=
  let! e := ele_of n in Ok (zslLexValueLteMax e range).

(** The last and the first node against the bounds. *)
Definition ends_in_range zsl (gte lte : zskiplistNode -> res bool) : res bool :=
  match tail zsl with
  | None => Ok false
  | Some x =>
      let! n := deref zsl x in
      let! b := gte n in
      if negb b then Ok false
      else
        let! l := get_level zsl (header zsl) 0 in
        match forward l with
        | None => Ok false
        | Some x => let! n := deref zsl x in lte n
        end
  end.

Definition zslIsInRange zsl (range : zrangespec) : res bool :=
  if dlt (max range) (min range) || (deq (min range) (max range) && (minex range || maxex range)) then Ok false
  else ends_in_range zsl (score_gte range) (score_lte range).

Definition zslIsInLexRange zsl (range : zlexrangespec) : res bool :=
  let cmp := sdscmplex (lexmin range) (lexmax range) in
  if (cmp >? 0) || ((cmp =? 0) && (lexminex range || lexmaxex range)) then Ok false
  else ends_in_range zsl (lex_gte range) (lex_lte range).

(** x = x->level[0].forward and x = x->backward, n times *)
Fixpoint forward_steps (n : nat) zsl (x : option Z) : res (option Z) :=
  match n with
  | O => Ok x
  | S n =>
      match x with
      | None => Fault OutOfBounds
      | Some x => let! l := get_level zsl x 0 in forward_steps n zsl (forward l)
      end
  end.

Fixpoint backward_steps (n : nat) zsl (x : option Z) : res (option Z) :=
  match n with
  | O => Ok x
  | S n => let! nx := deref_ptr zsl x in backward_steps n zsl (backward nx)
  end.

(** if (x && !test(x)) return NULL; return x; *)
Definition if_in_range zsl (test : zskiplistNode -> res bool) (x : option Z) : res (option Z) :=
  match x with
  | None => Ok None
  | Some y => let! n := deref zsl y in let! b := test n in Ok (if b then Some y else None)
  end.

(** zslNthInRange and zslNthInLexRange after the early return. *)
Definition nth_in_range zsl (gte lte : zskiplistNode -> res bool) (n : Z) : res (option Z) :=
  let out := fun (_ : Z) nx => let! b := gte nx in Ok (negb b) in
  let! '(x, edge_rank) := walk (S (Z.to_nat (zlen zsl))) zsl (level zsl - 1) out (header zsl) 0 in
  let last_highest_level_node := x in
  let last_highest_level_rank := edge_rank in
  if n >=? 0 then
    let! us := descend (Z.to_nat (level zsl - 1)) zsl out x edge_rank [(x, edge_rank)] in
    let! '(x, edge_rank) := get1 0 us in
    if u64 (edge_rank + n) >=? zlen zsl then Ok None
    else
      let! x :=
        (if n <? ZSKIPLIST_MAX_SEARCH then forward_steps (Z.to_nat (n + 1)) zsl (Some x)
         else zslGetElementByRankFromNode zsl last_highest_level_node (level zsl - 1)
                (u64 (edge_rank + 1 + n - last_highest_level_rank))) in
      if_in_range zsl lte x
  else
    let! us := descend (Z.to_nat (level zsl)) zsl (fun _ => lte) x edge_rank [] in
    let! '(x, edge_rank) := get1 0 us in
    if edge_rank <? s64 (- n) then Ok None
    else
      let! x :=
        (if n + 1 >? - ZSKIPLIST_MAX_SEARCH then backward_steps (Z.to_nat (- n - 1)) zsl (Some x)
         else zslGetElementByRankFromNode zsl last_highest_level_node (level zsl - 1)
                (u64 (edge_rank + 1 + n - last_highest_level_rank))) in
      if_in_range zsl gte x.

Definition zslNthInRange zsl (range : zrangespec) (n : Z) : res (option Z) :=
  let! b := zslIsInRange zsl range in
  if negb b then Ok None else nth_in_range zsl (score_gte range) (score_lte range) n.

Definition zslNthInLexRange zsl (range : zlexrangespec) (n : Z) : res (option Z) :=
  let! b := zslIsInLexRange zsl range in
  if negb b then Ok None else nth_in_range zsl (lex_gte range) (lex_lte range) n.

(** * Deleting ranges *)

Context (hashFunction : sds -> Z) (dict_can_resize : dictResizeEnable).
Notation zdict := (dict sds Z).

(** The loop that deletes the nodes from [x] on while [go] accepts them, given the number of
    nodes that have been deleted. *)
Fixpoint delete_while (fuel : nat) zsl (d : zdict) (go : Z -> zskiplistNode -> res bool) (x : option Z) (update : list Z) (removed : Z) :
    res (Z * zskiplist * zdict) :=
  match x with
  | None => Ok (removed, zsl, d)
  | Some x =>
      let! n := deref zsl x in
      let! b := go removed n in
      if negb b then Ok (removed, zsl, d)
      else
        match fuel with
        | O => Fault OutOfFuel
        | S fuel =>
            let! l := get1 0 (levels n) in
            let next := forward l in
            let! zsl := zslDeleteNode zsl x update in
            let! e := ele_of n in
            let! '(_, d) := dictDelete hashFunction dictSdsKeyCompare None false dict_can_resize d e in
            let! zsl := zslFreeNode zsl x in
            delete_while fuel zsl d go next update (u64 (removed + 1))
        end
  end.

(** The search for the first node and the loop. *)
Definition delete_range zsl (d : zdict) (out : Z -> zskiplistNode -> res bool) (go : Z -> Z -> zskiplistNode -> res bool) :
    res (Z * zskiplist * zdict) :=
  let! us := search zsl out in
  let! '(_, traversed) := get1 0 us in
  let! x := successor zsl us in
  delete_while (Z.to_nat (zlen zsl)) zsl d (go traversed) x us.*1 0.

Definition zslDeleteRangeByScore zsl (range : zrangespec) (d : zdict) : res (Z * zskiplist * zdict) :=
  delete_range zsl d (fun _ n => let! b := score_gte range n in Ok (negb b)) (fun _ _ => score_lte range).

Definition zslDeleteRangeByLex zsl (range : zlexrangespec) (d : zdict) : res (Z * zskiplist * zdict) :=
  delete_range zsl d (fun _ n => let! b := lex_gte range n in Ok (negb b)) (fun _ _ => lex_lte range).

(** [start] and [end] are unsigned int; traversed is one more than the nodes passed by the
    search and by the loop. *)
Definition zslDeleteRangeByRank zsl (start end_ : Z) (d : zdict) : res (Z * zskiplist * zdict) :=
  delete_range zsl d (fun r _ => Ok (r <? start)) (fun traversed removed _ => Ok (u64 (traversed + 1 + removed) <=? end_)).

End Model.
