(* ===== verification/ZOrder.v ===== *)
(** The order of the members of a sorted set: by score and then by the bytes of the
    element, as the loops of src/redis-stable/src/t_zset.c compare them. *)

From Stdlib Require Import SpecFloat.
From stdpp Require Import gmap sorting.
From S2P Require Import Prelude Machine Double SetType Skiplist.

(** * Strings *)

(** The lexicographic order as a sign. *)
Fixpoint lexcmp (s1 s2 : list Z) : Z :=
  match s1, s2 with
  | [], [] => 0
  | [], _ :: _ => -1
  | _ :: _, [] => 1
  | c1 :: s1, c2 :: s2 => if c1 =? c2 then lexcmp s1 s2 else if c1 <? c2 then -1 else 1
  end.

Lemma memcmp_lexcmp : forall s1 s2,
  (let cmp := memcmp (Nat.min (length s1) (length s2)) s1 s2 in
   if cmp =? 0 then (if zlength s1 >? zlength s2 then 1 else if zlength s1 <? zlength s2 then -1 else 0) else cmp) = lexcmp s1 s2.
Proof.
  induction s1 as [|c1 s1 IH]; intros [|c2 s2]; try done. cbn [length Nat.min memcmp lexcmp].
  destruct (c1 =? c2); [|by destruct (c1 <? c2)]. rewrite <- IH. cbn zeta. destruct (_ =? 0); [|done].
  destruct (Z.gtb_spec (Z.of_nat (S (length s1))) (Z.of_nat (S (length s2)))), (Z.gtb_spec (zlength s1) (zlength s2)); try lia; try done.
  destruct (Z.ltb_spec (Z.of_nat (S (length s1))) (Z.of_nat (S (length s2)))), (Z.ltb_spec (zlength s1) (zlength s2)); lia.
Qed.

Lemma sdscmp_lexcmp a b : sdscmp a b = lexcmp (sds_bytes a) (sds_bytes b).
Proof.
  unfold sdscmp. rewrite <- memcmp_lexcmp. replace (Z.to_nat _) with (Nat.min (length (sds_bytes a)) (length (sds_bytes b))); [done|].
  destruct (Z.ltb_spec (zlength (sds_bytes a)) (zlength (sds_bytes b))); lia.
Qed.

Lemma lexcmp_anti : forall s1 s2, lexcmp s2 s1 = - lexcmp s1 s2.
Proof.
  induction s1 as [|c1 s1 IH]; intros [|c2 s2]; try done. simpl. rewrite (Z.eqb_sym c2 c1).
  destruct (Z.eqb_spec c1 c2); [done|]. zbool; lia.
Qed.

Lemma lexcmp_zero : forall s1 s2, lexcmp s1 s2 = 0 <-> s1 = s2.
Proof.
  induction s1 as [|c1 s1 IH]; intros [|c2 s2]; try done. simpl. destruct (Z.eqb_spec c1 c2) as [->|Hne].
  - rewrite IH. split; congruence.
  - destruct (c1 <? c2); split; [done|congruence|done|congruence].
Qed.

Lemma lexcmp_trans : forall s1 s2 s3, lexcmp s1 s2 < 0 -> lexcmp s2 s3 < 0 -> lexcmp s1 s3 < 0.
Proof.
  induction s1 as [|c1 s1 IH]; intros [|c2 s2] [|c3 s3]; simpl; try lia.
  destruct (Z.eqb_spec c1 c2), (Z.eqb_spec c2 c3), (Z.eqb_spec c1 c3); subst; try lia; eauto; zbool; lia.
Qed.

Lemma sdscmp_zero a b : sdscmp a b = 0 <-> a = b.
Proof. rewrite sdscmp_lexcmp, lexcmp_zero. split; [|by intros ->]. intros E. by apply dsig_eq. Qed.

(** * Members *)

Definition member : Type := double * sds.

(** score < score' || (score == score' && sdscmp(ele, ele') < 0) *)
Definition mltb (a b : member) : bool := dlt a.1 b.1 || (deq a.1 b.1 && (sdscmp a.2 b.2 <? 0)).
Definition mlt (a b : member) : Prop := mltb a b = true.
Definition num (a : member) : Prop := isnan a.1 = false.
#[global] Instance mlt_dec a b : Decision (mlt a b) := decide (mltb a b = true).

Lemma mlt_key a b : num a -> num b ->
  mlt a b <-> klt (dkey a.1) (dkey b.1) \/ dkey a.1 = dkey b.1 /\ lexcmp (sds_bytes a.2) (sds_bytes b.2) < 0.
Proof.
  intros Ha Hb. unfold mlt, mltb. rewrite orb_true_iff, andb_true_iff, (dlt_key _ _ Ha Hb), (deq_key _ _ Ha Hb), Z.ltb_lt, sdscmp_lexcmp. done.
Qed.

Lemma mlt_trans a b c : num a -> num b -> num c -> mlt a b -> mlt b c -> mlt a c.
Proof.
  intros Ha Hb Hc. rewrite !mlt_key by done. unfold klt. destruct (dkey a.1) as [[a1 a2] a3], (dkey b.1) as [[b1 b2] b3], (dkey c.1) as [[c1 c2] c3].
  simpl. intros [H1|[E1 H1]] [H2|[E2 H2]].
  - left. lia.
  - left. simplify_eq. done.
  - left. simplify_eq. done.
  - right. split; [congruence|]. by eapply lexcmp_trans.
Qed.

Lemma mlt_irrefl a : num a -> ~ mlt a a.
Proof.
  intros Ha. rewrite mlt_key by done. unfold klt. intros [?|[_ Hl]]; [lia|]. rewrite (proj2 (lexcmp_zero _ _) eq_refl) in Hl. lia.
Qed.

Lemma mlt_total a b : num a -> num b -> mlt a b \/ (deq a.1 b.1 = true /\ a.2 = b.2) \/ mlt b a.
Proof.
  intros Ha Hb. rewrite !mlt_key, (deq_key _ _ Ha Hb) by done. rewrite <- (sdscmp_zero a.2 b.2), sdscmp_lexcmp, (lexcmp_anti (sds_bytes a.2)). unfold klt.
  destruct (dkey a.1) as [[a1 a2] a3], (dkey b.1) as [[b1 b2] b3]. simpl.
  destruct (Z.lt_trichotomy a1 b1) as [?|[->|?]]; [lia| |lia]. destruct (Z.lt_trichotomy a2 b2) as [?|[->|?]]; [lia| |lia].
  destruct (Z.lt_trichotomy a3 b3) as [?|[->|?]]; [lia| |lia].
  destruct (Z.lt_trichotomy (lexcmp (sds_bytes a.2) (sds_bytes b.2)) 0) as [?|[->|?]]; [by left; right|by right; left|right; right; right; split; [done|lia]].
Qed.

(** Members with equal scores and elements are interchangeable. *)
Lemma mlt_deq_r a b c : num a -> num b -> num c -> deq b.1 c.1 = true -> b.2 = c.2 -> mlt a b <-> mlt a c.
Proof. intros Ha Hb Hc Hd He. rewrite (deq_key _ _ Hb Hc) in Hd. rewrite !mlt_key by done. by rewrite Hd, He. Qed.

Lemma deq_num a b : deq a b = true -> isnan a = false /\ isnan b = false.
Proof. unfold deq, SFeqb. destruct a, b; done. Qed.

Lemma deq_refl a : isnan a = false -> deq a a = true.
Proof. intros Ha. by apply deq_key. Qed.

Lemma deq_sym a b : deq a b = deq b a.
Proof.
  destruct (deq a b) eqn:E1, (deq b a) eqn:E2; try done.
  - destruct (deq_num _ _ E1) as [H1 H2]. apply deq_key in E1; [|done..]. rewrite (proj2 (deq_key b a H2 H1)) in E2; done.
  - destruct (deq_num _ _ E2) as [H1 H2]. apply deq_key in E2; [|done..]. rewrite (proj2 (deq_key a b H2 H1)) in E1; done.
Qed.

(** * Sorted sequences and cuts *)

Lemma sorted_cut {A} (R : A -> A -> Prop) (P : A -> Prop) `{!forall x, Decision (P x)} xs :
  StronglySorted R xs -> (forall x y, x ∈ xs -> y ∈ xs -> R x y -> P y -> P x) ->
  exists k, (k <= length xs)%nat /\ forall p x, xs !! p = Some x -> P x <-> (p < k)%nat.
Proof.
  intros Hs. induction Hs as [|x xs Hs IH Hx]; intros HP.
  { exists O. split; [done|]. by intros p y Hp. }
  destruct (decide (P x)) as [Px|Px].
  - destruct IH as (k & Hk & Hc); [intros y z Hy Hz; apply HP; by right|]. exists (S k). split; [simpl; lia|].
    intros [|p] y Hp; simpl in Hp; [simplify_eq; split; [lia|done]|]. rewrite (Hc p y Hp). lia.
  - exists O. split; [lia|]. intros p y Hp. split; [|lia]. intros Py. destruct Px. destruct p as [|p]; simpl in Hp; [by simplify_eq|].
    apply (HP x y); [left|right; by eapply list_elem_of_lookup_2| |done]. rewrite list.Forall_forall in Hx. apply Hx.
    by eapply list_elem_of_lookup_2.
Qed.
