(* ===== verification/SkiplistInv.v ===== *)
(** The invariant of skip lists and the search: a skip list stands for the sequence of its
    towers; the links of every level are determined by the heights. *)

From stdpp Require Import gmap sorting.
From S2P Require Import Prelude Machine Double SetType Skiplist ZOrder.

(** * Towers and links *)

Record tower := mkTower {
  t_addr : Z;
  t_score : double;
  t_ele : sds;
  t_height : nat
}.

Implicit Types (t : tower) (ts l r : list tower) (i k q : nat).

(** Whether a tower has a link on level [i]. *)
Definition high i t : Prop := (i < t_height t)%nat.
#[global] Instance high_dec i t : Decision (high i t) := decide (i < t_height t)%nat.

(** The link on level [i] of a tower that is followed by [ts]. *)
Fixpoint link i ts : zskiplistLevel :=
  match ts with
  | [] => mkLevel None 0
  | t :: ts =>
      if decide (high i t) then mkLevel (Some (t_addr t)) 1
      else mkLevel (forward (link i ts)) (span (link i ts) + 1)
  end.

(** The position of the last tower of [l] with a link on level [i]; 0 is the header. *)
Fixpoint upd i l : nat :=
  match l with
  | [] => O
  | t :: l => match upd i l with O => if decide (high i t) then 1%nat else O | S q => S (S q) end
  end.

Lemma link_low i l r : Forall (fun t => ~ high i t) l ->
  link i (l ++ r) = mkLevel (forward (link i r)) (zlength l + span (link i r)).
Proof.
  induction 1 as [|t l Ht _ IH]; simpl; [by destruct (link i r)|]. rewrite decide_False by done. rewrite IH. simpl. f_equal. lia.
Qed.

Lemma link_high i l r r' : Exists (high i) l -> link i (l ++ r) = link i (l ++ r').
Proof.
  induction l as [|t l IH]; [by intros ?%Exists_nil|]. simpl. destruct (decide (high i t)); [done|].
  intros [?|?]%Exists_cons; [done|]. by rewrite IH.
Qed.

Lemma link_first i l t r : Forall (fun t => ~ high i t) l -> high i t ->
  link i (l ++ t :: r) = mkLevel (Some (t_addr t)) (zlength l + 1).
Proof. intros Hl Ht. rewrite link_low by done. simpl. by rewrite decide_True. Qed.

Lemma link_cases i l :
  (Forall (fun t => ~ high i t) l /\ link i l = mkLevel None (zlength l)) \/
  exists s t r, l = s ++ t :: r /\ Forall (fun t => ~ high i t) s /\ high i t /\ link i l = mkLevel (Some (t_addr t)) (zlength s + 1).
Proof.
  destruct (decide (Exists (high i) l)) as [He|He].
  - right. induction l as [|t l IH]; [by apply Exists_nil in He|]. destruct (decide (high i t)) as [Ht|Ht].
    + exists [], t, l. simpl. by rewrite decide_True.
    + apply Exists_cons in He as [?|He]; [done|]. destruct (IH He) as (s & t' & r & -> & Hs & Ht' & El).
      exists (t :: s), t', r. split_and!; [done|by constructor|done|]. simpl. rewrite decide_False, El by done. simpl. f_equal. lia.
  - left. assert (Hl : Forall (fun t => ~ high i t) l) by (apply not_Exists_Forall; [apply _|done]). split; [done|].
    rewrite <- (app_nil_r l) at 1. rewrite link_low by done. simpl. f_equal. lia.
Qed.

Lemma upd_le i l : (upd i l <= length l)%nat.
Proof. induction l as [|t l IH]; simpl; [lia|]. destruct (upd i l); [case_decide; lia|lia]. Qed.

Lemma upd_low i l : Forall (fun t => ~ high i t) (drop (upd i l) l).
Proof.
  induction l as [|t l IH]; simpl; [constructor|]. destruct (upd i l) as [|q]; [|done]. case_decide; simpl in *; [done|].
  by constructor.
Qed.

Lemma upd_high i l q : upd i l = S q -> exists t, l !! q = Some t /\ high i t.
Proof.
  revert q. induction l as [|t l IH]; intros q; simpl; [done|]. destruct (upd i l) as [|q'].
  - case_decide; [|done]. intros [= <-]. by exists t.
  - intros [= <-]. by apply IH.
Qed.

Lemma upd_unique i l q :
  (q <= length l)%nat -> Forall (fun t => ~ high i t) (drop q l) ->
  (match q with O => True | S p => exists t, l !! p = Some t /\ high i t end) -> q = upd i l.
Proof.
  intros Hq Hlow Hh. pose proof (upd_low i l) as Hl. pose proof (upd_high i l) as Hu. pose proof (upd_le i l).
  assert (Hd : forall p p' t, (p' <= p)%nat -> l !! p = Some t -> high i t -> Forall (fun t => ~ high i t) (drop p' l) -> False).
  { intros p p' t Hp Ht Hi Hf. rewrite list.Forall_forall in Hf. apply (Hf t); [|done].
    apply list_elem_of_lookup. exists (p - p')%nat. rewrite lookup_drop. rewrite <- Ht. f_equal. lia. }
  destruct (lt_eq_lt_dec q (upd i l)) as [[Hlt|?]|Hgt]; [|done|]; exfalso.
  - destruct (upd i l) as [|p]; [lia|]. destruct (Hu p eq_refl) as (t & Ht & Hi). apply (Hd p q t); [lia|done..].
  - destruct q as [|p]; [lia|]. destruct Hh as (t & Ht & Hi). apply (Hd p (upd i l) t); [lia|done..].
Qed.

Lemma upd_mono i l : (upd (S i) l <= upd i l)%nat.
Proof.
  induction l as [|t l IH]; simpl; [lia|]. destruct (upd (S i) l), (upd i l); repeat case_decide; unfold high in *; lia.
Qed.

(** ** A tower more or less *)

Lemma drop_low_high i l p :
  (p <= length l)%nat -> (match p with O => True | S q => exists t, l !! q = Some t /\ high i t end) ->
  p = upd i l \/ Exists (high i) (drop p l).
Proof.
  intros Hp Hh. destruct (decide (Exists (high i) (drop p l))) as [|Hn]; [by right|left].
  apply upd_unique; [done| |done]. by apply not_Exists_Forall; [apply _|].
Qed.

(** The link of position [p] before and after the tower [t] between [l] and [r]. *)
Lemma link_insert i l t r p :
  (p <= length l)%nat -> (match p with O => True | S q => exists t, l !! q = Some t /\ high i t end) ->
  let c := link i (drop p (l ++ r)) in let c' := link i (drop p (l ++ t :: r)) in
  (p <> upd i l -> c' = c) /\
  (p = upd i l -> c = mkLevel (forward (link i r)) (Z.of_nat (length l - p) + span (link i r))) /\
  (p = upd i l -> high i t -> c' = mkLevel (Some (t_addr t)) (Z.of_nat (length l - p) + 1)) /\
  (p = upd i l -> ~ high i t -> c' = mkLevel (forward c) (span c + 1)).
Proof.
  intros Hp Hh c c'. unfold c, c'. rewrite !drop_app_le by done.
  assert (Hlen : zlength (drop p l) = Z.of_nat (length l - p)) by (rewrite length_drop; done).
  assert (Hlow : p = upd i l -> Forall (fun t => ~ high i t) (drop p l)) by (intros ->; apply upd_low).
  split_and!.
  - intros Hne. destruct (drop_low_high i l p Hp Hh); [done|]. by apply link_high.
  - intros Hu. rewrite link_low, Hlen by auto. done.
  - intros Hu Ht. rewrite link_first, Hlen by auto. done.
  - intros Hu Ht. rewrite !link_low, Hlen by auto. simpl. rewrite decide_False by done. simpl. f_equal. lia.
Qed.

Lemma upd_zero l : Forall (high 0) l -> upd 0 l = length l.
Proof.
  intros Hl. symmetry. apply upd_unique; [done|by rewrite drop_all|]. destruct (length l) as [|q] eqn:E; [done|].
  destruct (lookup_lt_is_Some_2 l q ltac:(lia)) as [t Ht]. exists t. split; [done|]. by eapply (Forall_lookup_1 _ _ _ _ Hl).
Qed.

Lemma upd_above i l : Forall (fun t => ~ high i t) l -> upd i l = O.
Proof. intros Hl. symmetry. apply upd_unique; [lia|by rewrite drop_0|done]. Qed.

(** * The representation *)

Definition t_key t : member := (t_score t, t_ele t).
Definition tlt t1 t2 : Prop := mlt (t_key t1) (t_key t2).

(** The address of position [p]; the header is at position 0. *)
Definition addr_at (h : Z) ts (p : nat) : Z := match p with O => h | S p => default h (t_addr <$> ts !! p) end.

(** One link and the other parts of a node. *)
Definition cell (m : gmap Z zskiplistNode) (x : Z) i : option zskiplistLevel := m !! x ≫= fun n => levels n !! i.
Definition body (m : gmap Z zskiplistNode) (x : Z) : option (option sds * double * option Z * nat) :=
  (fun n => (ele n, score n, backward n, length (levels n))) <$> m !! x.

(** The node before position [p]. *)
Definition prev_addr ts (p : nat) : option Z := match p with O => None | S p => t_addr <$> ts !! p end.

Section Rep.
Context (usable : Z -> Z) (sdsAllocSize : sds -> Z) (zsl_size : Z).

Definition t_size t : Z := usable (Z.of_nat (t_height t)) + sdsAllocSize (t_ele t).
Definition sizes ts : Z := foldr (fun t z => t_size t + z) 0 ts.

(** [ts] are the towers in order; [loose] are unlinked nodes that have not been freed. *)
Record zsl_rep (zsl : zskiplist) ts (loose : list tower) : Prop := {
  zr_body : forall p t, ts !! p = Some t -> body (nodes zsl) (t_addr t) = Some (Some (t_ele t), t_score t, prev_addr ts p, t_height t);
  zr_cell : forall p t i, ts !! p = Some t -> high i t -> cell (nodes zsl) (t_addr t) i = Some (link i (drop (S p) ts));
  zr_header : body (nodes zsl) (header zsl) = Some (None, zero, None, 32%nat);
  zr_links : forall i, (i < Z.to_nat (level zsl))%nat -> cell (nodes zsl) (header zsl) i = Some (link i ts);
  zr_above : forall i, (Z.to_nat (level zsl) <= i < 32)%nat -> forward <$> cell (nodes zsl) (header zsl) i = Some None;
  zr_level : 1 <= level zsl <= ZSKIPLIST_MAXLEVEL;
  zr_heights : Forall (fun t => 1 <= Z.of_nat (t_height t) <= level zsl) ts;
  zr_tail : tail zsl = t_addr <$> list.last ts;
  zr_len : zlen zsl = zlength ts;
  zr_small : zlength ts < 2 ^ 62;
  zr_addrs : NoDup (header zsl :: (t_addr <$> ts ++ loose));
  zr_next : Forall (fun a => a < next_addr zsl) (header zsl :: (t_addr <$> ts ++ loose));
  zr_dom : forall a, is_Some (nodes zsl !! a) <-> a ∈ header zsl :: (t_addr <$> ts ++ loose);
  zr_loose : forall t, t ∈ loose -> exists b, body (nodes zsl) (t_addr t) = Some (Some (t_ele t), t_score t, b, t_height t);
  zr_nan : Forall (fun t => isnan (t_score t) = false) ts;
  zr_sorted : StronglySorted tlt ts;
  zr_alloc : alloc_size zsl = u64 (zsl_size + usable ZSKIPLIST_MAXLEVEL + sizes (ts ++ loose))
}.

(** The highest level in use is the height of some tower. *)
Definition zsl_top (zsl : zskiplist) ts : Prop :=
  level zsl = 1 \/ Exists (fun t => Z.of_nat (t_height t) = level zsl) ts.

(** ** Reading *)

Lemma cell_get zsl x i c : cell (nodes zsl) x i = Some c -> get_level zsl x (Z.of_nat i) = Ok c.
Proof.
  unfold cell, get_level, deref. destruct (nodes zsl !! x) as [n|]; [|done]. simpl. intros Hc.
  apply get1_Ok. rewrite Nat2Z.id. split; [lia|done].
Qed.

Lemma body_deref zsl x e s b h : body (nodes zsl) x = Some (e, s, b, h) ->
  exists n, deref zsl x = Ok n /\ nodes zsl !! x = Some n /\ ele n = e /\ score n = s /\ backward n = b /\ length (levels n) = h.
Proof.
  unfold body, deref. destruct (nodes zsl !! x) as [n|]; [|done]. intros [= <- <- <- <-]. by exists n.
Qed.

(** Position [p] has a link on level [i]. *)
Definition high_at zsl ts (p i : nat) : Prop :=
  match p with O => (i < Z.to_nat (level zsl))%nat | S p => exists t, ts !! p = Some t /\ high i t end.

Lemma get_link zsl ts loose p i :
  zsl_rep zsl ts loose -> high_at zsl ts p i ->
  get_level zsl (addr_at (header zsl) ts p) (Z.of_nat i) = Ok (link i (drop p ts)).
Proof.
  intros Hr Hh. apply cell_get. destruct p as [|p]; simpl in *; [rewrite drop_0; by apply Hr|].
  destruct Hh as (t & Ht & Hi). rewrite Ht. simpl. by apply (zr_cell _ _ _ Hr).
Qed.

(** From position [o] on, where the ranks start, [go] accepts the nodes up to position [k]. *)
Definition cut zsl ts (go : Z -> zskiplistNode -> res bool) (o : nat) k : Prop :=
  (k <= length ts)%nat /\
  forall p t n, (o <= p)%nat -> ts !! p = Some t -> nodes zsl !! t_addr t = Some n ->
    go (Z.of_nat (S p - o)) n = Ok (bool_decide (p < k)%nat).

Lemma walk_spec fuel zsl ts loose go o k i : forall p,
  zsl_rep zsl ts loose -> cut zsl ts go o k -> high_at zsl ts p i -> (o <= p <= k)%nat -> (k - p < fuel)%nat ->
  walk fuel zsl (Z.of_nat i) go (addr_at (header zsl) ts p) (Z.of_nat (p - o)) =
    Ok (addr_at (header zsl) ts (upd i (take k ts)), Z.of_nat (upd i (take k ts) - o)).
Proof.
  induction fuel as [|fuel IH]; intros p Hr Hcut Hh Hp Hf; [lia|]. pose proof Hcut as [Hk Hgo]. cbn [walk].
  rewrite (get_link zsl ts loose) by done. pose proof (zr_small _ _ _ Hr) as Hsm.
  assert (Hstop : Forall (fun t => ~ high i t) (drop p (take k ts)) -> p = upd i (take k ts)).
  { intros Hl. apply upd_unique; [len|done|]. destruct p as [|p]; [done|]. destruct Hh as (t & Ht & Hi).
    exists t. split; [|done]. rewrite lookup_take_lt by lia. done. }
  destruct (link_cases i (drop p ts)) as [[Hlow ->]|(s & t & r & El & Hlow & Hhi & ->)]; cbn [forward span].
  - rewrite <- Hstop; [done|]. rewrite skipn_firstn_comm. by apply Forall_take.
  - assert (Ht : ts !! (p + length s)%nat = Some t).
    { rewrite <- lookup_drop, El. by rewrite list_lookup_middle by done. }
    pose proof (lookup_lt_Some _ _ _ Ht) as Hlt.
    destruct (body_deref zsl (t_addr t) _ _ _ _ (zr_body _ _ _ Hr _ _ Ht)) as (n & -> & Hn & _).
    rewrite u_id by (pow_const; lia).
    replace (Z.of_nat (p - o) + (zlength s + 1)) with (Z.of_nat (S (p + length s) - o)) by lia.
    rewrite (Hgo (p + length s)%nat t n ltac:(lia) Ht Hn). case_bool_decide as Hlt'.
    + replace (t_addr t) with (addr_at (header zsl) ts (S (p + length s))) by (simpl; by rewrite Ht).
      apply IH; [done|done|by exists t|lia|lia].
    + rewrite <- Hstop; [done|]. rewrite skipn_firstn_comm, El, take_app_le by lia. by apply Forall_take.
Qed.

(** The arrays update and rank of a search that stops after [l]. *)
Definition updates (h : Z) l (n : nat) : list (Z * Z) :=
  (fun i => (addr_at h l (upd i l), Z.of_nat (upd i l))) <$> seq 0 n.

Lemma addr_at_take h ts k q : (q <= k)%nat -> addr_at h (take k ts) q = addr_at h ts q.
Proof. intros Hq. destruct q as [|q]; [done|]. simpl. by rewrite lookup_take_lt by lia. Qed.

Lemma descend_spec zsl ts loose go k n : forall p us,
  zsl_rep zsl ts loose -> cut zsl ts go 0 k -> (n <= Z.to_nat (level zsl))%nat ->
  (p <= upd (n - 1) (take k ts))%nat -> (match p with O => True | S q => exists t, ts !! q = Some t /\ high (n - 1) t end) ->
  descend n zsl go (addr_at (header zsl) ts p) (Z.of_nat p) us = Ok (updates (header zsl) (take k ts) n ++ us).
Proof.
  induction n as [|n IH]; intros p us Hr Hcut Hn Hp Hh; [done|]. cbn [descend]. pose proof Hcut as [Hk _].
  replace (S n - 1)%nat with n in * by lia. pose proof (upd_le n (take k ts)) as Hle. rewrite length_take in Hle.
  assert (high_at zsl ts p n) as Hh' by (destruct p; [simpl; lia|done]).
  pose proof (zr_len _ _ _ Hr) as Hlen.
  pose proof (walk_spec (S (Z.to_nat (zlen zsl))) zsl ts loose go 0 k n p Hr Hcut Hh' ltac:(lia) ltac:(lia)) as Hw.
  rewrite !Nat.sub_0_r in Hw. rewrite Hw.
  rewrite IH; [| done..|lia| |].
  - unfold updates. rewrite seq_S, fmap_app, <- app_assoc. simpl. by rewrite addr_at_take by lia.
  - destruct n as [|n]; [simpl; lia|]. replace (S n - 1)%nat with n by lia. apply upd_mono.
  - destruct (upd n (take k ts)) as [|q] eqn:Eu; [done|]. destruct (upd_high _ _ _ Eu) as (t & Ht & Hi).
    exists t. rewrite lookup_take_lt in Ht by (apply lookup_lt_Some in Ht; rewrite length_take in Ht; lia).
    split; [done|]. unfold high in *. lia.
Qed.

Lemma search_spec zsl ts loose go k :
  zsl_rep zsl ts loose -> cut zsl ts go 0 k ->
  search zsl go = Ok (updates (header zsl) (take k ts) (Z.to_nat (level zsl))).
Proof.
  intros Hr Hcut. unfold search. rewrite (descend_spec zsl ts loose go k _ O []) by (done || lia). by rewrite app_nil_r.
Qed.
End Rep.
