(* ===== verification/SkiplistUpd.v ===== *)
(** Insertion into and deletion from a skip list: what the loops over the levels write, and
    that the links are those of the new sequence of towers. *)

From stdpp Require Import gmap sorting.
From S2P Require Import Prelude Machine Double SetType Skiplist ZOrder SkiplistInv.

Implicit Types (t : tower) (ts l r : list tower) (i k q : nat) (zsl : zskiplist).

(** * Writes *)

Definition same_shell zsl zsl' : Prop :=
  header zsl' = header zsl /\ tail zsl' = tail zsl /\ zlen zsl' = zlen zsl /\ level zsl' = level zsl /\
  alloc_size zsl' = alloc_size zsl /\ next_addr zsl' = next_addr zsl.

(** Only links are changed. *)
Definition relinked zsl zsl' : Prop := same_shell zsl zsl' /\ forall a, body (nodes zsl') a = body (nodes zsl) a.

#[global] Instance relinked_preorder : PreOrder relinked.
Proof.
  split; [by split|]. intros z1 z2 z3 [(? & ? & ? & ? & ? & ?) Hb1] [(? & ? & ? & ? & ? & ?) Hb2].
  split; [unfold same_shell; split_and!; congruence|]. intros a. by rewrite Hb2, Hb1.
Qed.

Lemma body_alive m a : is_Some (body m a) <-> is_Some (m !! a).
Proof. unfold body. by rewrite fmap_is_Some. Qed.

Lemma set_level_spec zsl x i c v : cell (nodes zsl) x i = Some c ->
  exists zsl', set_level zsl x (Z.of_nat i) v = Ok zsl' /\ relinked zsl zsl' /\
    forall a j, cell (nodes zsl') a j = if decide (a = x /\ j = i) then Some v else cell (nodes zsl) a j.
Proof.
  unfold cell, set_level, deref. destruct (nodes zsl !! x) as [n|] eqn:En; [|done]. simpl. intros Hc.
  pose proof (lookup_lt_Some _ _ _ Hc) as Hlt. rewrite set1_insert by lia. rewrite Nat2Z.id.
  eexists. split; [done|]. split.
  - split; [done|]. intros a. unfold body. simpl. destruct (decide (a = x)) as [->|Hne].
    + rewrite lookup_insert_eq, En. simpl. by rewrite length_insert.
    + by rewrite lookup_insert_ne.
  - intros a j. simpl. destruct (decide (a = x)) as [->|Hne].
    + rewrite lookup_insert_eq, En. simpl. destruct (decide (j = i)) as [->|Hj].
      * rewrite list_lookup_insert_eq by done. by rewrite decide_True.
      * rewrite list_lookup_insert_ne by done. by rewrite decide_False by naive_solver.
    + rewrite lookup_insert_ne by done. by rewrite decide_False by naive_solver.
Qed.

Lemma set_backward_spec zsl x b e s b0 h : body (nodes zsl) x = Some (e, s, b0, h) ->
  exists zsl', set_backward zsl x b = Ok zsl' /\ same_shell zsl zsl' /\
    (forall a, body (nodes zsl') a = if decide (a = x) then Some (e, s, b, h) else body (nodes zsl) a) /\
    forall a j, cell (nodes zsl') a j = cell (nodes zsl) a j.
Proof.
  unfold body, cell, set_backward, deref. destruct (nodes zsl !! x) as [n|] eqn:En; [|done]. simpl. intros [= <- <- <- <-].
  eexists. split; [done|]. split_and!; [done|..]; intros a; simpl; destruct (decide (a = x)) as [->|Hne];
    rewrite ?lookup_insert_eq, ?En, ?lookup_insert_ne by done; done.
Qed.

(** A loop over the levels whose round [j] writes [W j a] to level [j] of the node [a]. *)
Lemma for_levels_spec (W : nat -> Z -> option zskiplistLevel) round n : forall i zsl,
  (forall j zsl0, (i <= j < i + n)%nat -> relinked zsl zsl0 -> (forall a, cell (nodes zsl0) a j = cell (nodes zsl) a j) ->
    exists zsl1, round zsl0 (Z.of_nat j) = Ok zsl1 /\ relinked zsl0 zsl1 /\
      forall a j', cell (nodes zsl1) a j' =
        if decide (j' = j) then (match W j a with Some v => Some v | None => cell (nodes zsl0) a j end) else cell (nodes zsl0) a j') ->
  exists zsl', for_levels n (Z.of_nat i) round zsl = Ok zsl' /\ relinked zsl zsl' /\
    forall a j, cell (nodes zsl') a j =
      if decide (i <= j < i + n)%nat then (match W j a with Some v => Some v | None => cell (nodes zsl) a j end)
      else cell (nodes zsl) a j.
Proof.
  induction n as [|n IH]; intros i zsl Hround.
  { exists zsl. split; [done|]. split; [done|]. intros a j. by rewrite decide_False by lia. }
  destruct (Hround i zsl) as (zsl1 & H1 & Hre1 & Hc1); [lia|done|done|]. cbn [for_levels]. rewrite H1.
  replace (Z.of_nat i + 1) with (Z.of_nat (S i)) by lia.
  destruct (IH (S i) zsl1) as (zsl' & H' & Hre' & Hc').
  - intros j zsl0 Hj Hre0 Hc0. destruct (Hround j zsl0) as (zsl2 & H2 & Hre2 & Hc2); [lia|by etrans| |].
    + intros a. rewrite Hc0, Hc1. by rewrite decide_False by lia.
    + exists zsl2. done.
  - exists zsl'. split; [done|]. split; [by etrans|]. intros a j. rewrite Hc'. destruct (decide (j = i)) as [->|Hne].
    + rewrite decide_False by lia. rewrite Hc1. by rewrite !decide_True by lia.
    + rewrite Hc1. rewrite (decide_False (P := j = i)) by done.
      destruct (decide (S i <= j < S i + n)%nat); [by rewrite decide_True by lia|by rewrite decide_False by lia].
Qed.

(** * Insertion *)

Section Upd.
Context (usable : Z -> Z) (sdsAllocSize : sds -> Z) (zsl_size : Z) (junk : zskiplistLevel).
Notation zsl_rep := (zsl_rep usable sdsAllocSize zsl_size).

Lemma addr_at_app h l r p : (p <= length l)%nat -> addr_at h (l ++ r) p = addr_at h l p.
Proof. intros Hp. destruct p as [|p]; [done|]. simpl. by rewrite lookup_app_l by lia. Qed.

Lemma addr_at_elem h l p : addr_at h l p ∈ h :: (t_addr <$> l).
Proof.
  destruct p as [|p]; simpl; [left|]. destruct (l !! p) as [t|] eqn:E; simpl; [right|left].
  apply list_elem_of_fmap. exists t. split; [done|]. by eapply list_elem_of_lookup_2.
Qed.

Lemma addr_at_inj h l p q :
  NoDup (h :: (t_addr <$> l)) -> (p <= length l)%nat -> (q <= length l)%nat -> addr_at h l p = addr_at h l q -> p = q.
Proof.
  intros Hnd Hp Hq He. assert (Hl : forall p, (p <= length l)%nat -> (h :: (t_addr <$> l)) !! p = Some (addr_at h l p)).
  { intros [|x] Hx; [done|]. simpl. rewrite list_lookup_fmap. destruct (l !! x) eqn:E; [done|]. apply lookup_ge_None in E. lia. }
  eapply (list.NoDup_lookup _ p q); [exact Hnd|by apply Hl|]. rewrite He. by apply Hl.
Qed.

Lemma updates_lookup h l n i : (i < n)%nat -> updates h l n !! i = Some (addr_at h l (upd i l), Z.of_nat (upd i l)).
Proof. intros Hi. unfold updates. rewrite list_lookup_fmap, lookup_seq_lt by done. done. Qed.

Lemma updates_get h l n i : (i < n)%nat -> get1 (Z.of_nat i) (updates h l n) = Ok (addr_at h l (upd i l), Z.of_nat (upd i l)).
Proof. intros Hi. apply get1_Ok. rewrite Nat2Z.id. split; [lia|]. by apply updates_lookup. Qed.

(** Reading the link of position [p] in a list that starts with [l]. *)
Lemma rep_cell zsl l r loose p i :
  zsl_rep zsl (l ++ r) loose -> (p <= length l)%nat -> (i < Z.to_nat (level zsl))%nat ->
  (match p with O => True | S q => exists t, l !! q = Some t /\ high i t end) ->
  cell (nodes zsl) (addr_at (header zsl) l p) i = Some (link i (drop p (l ++ r))).
Proof.
  intros Hr Hp Hi Hh. destruct p as [|p]; simpl; [by apply Hr|]. destruct Hh as (t & Ht & Hhi). rewrite Ht. simpl.
  apply (zr_cell _ _ _ _ _ _ Hr); [by rewrite lookup_app_l|done].
Qed.

Lemma upd_ok i l : match upd i l with O => True | S q => exists t, l !! q = Some t /\ high i t end.
Proof. pose proof (upd_high i l) as Hu. destruct (upd i l); [done|]. by apply Hu. Qed.

Lemma rep_upd_cell zsl l r loose i :
  zsl_rep zsl (l ++ r) loose -> (i < Z.to_nat (level zsl))%nat ->
  cell (nodes zsl) (addr_at (header zsl) l (upd i l)) i = Some (link i (drop (upd i l) (l ++ r))).
Proof. intros Hr Hi. eapply rep_cell; [done|apply upd_le|done|apply upd_ok]. Qed.

Lemma rep_nodup zsl l r loose : zsl_rep zsl (l ++ r) loose -> NoDup (header zsl :: (t_addr <$> l)).
Proof.
  intros Hr. pose proof (zr_addrs _ _ _ _ _ _ Hr) as Hnd. rewrite !fmap_app, <- app_assoc in Hnd.
  rewrite app_comm_cons in Hnd. by apply list.NoDup_app in Hnd as [Hnd _].
Qed.

(** ** The levels that no node had *)

Lemma heights_low zsl ts loose i : zsl_rep zsl ts loose -> (Z.to_nat (level zsl) <= i)%nat -> Forall (fun t => ~ high i t) ts.
Proof.
  intros Hr Hi. eapply list.Forall_impl; [apply Hr|]. unfold high. simpl. intros t Ht. lia.
Qed.

Lemma link_all_low i ts : Forall (fun t => ~ high i t) ts -> link i ts = mkLevel None (zlength ts).
Proof. intros Hl. rewrite <- (app_nil_r ts) at 1. rewrite link_low by done. simpl. f_equal. lia. Qed.

Lemma raise_spec zsl ts loose lv :
  zsl_rep zsl ts loose -> level zsl < lv <= ZSKIPLIST_MAXLEVEL ->
  exists zsl', for_levels (Z.to_nat (lv - level zsl)) (level zsl) raise_level zsl = Ok zsl' /\
    same_shell zsl zsl' /\ zsl_rep (set_zlevel zsl' lv) ts loose.
Proof.
  intros Hr Hlv. pose proof (zr_level _ _ _ _ _ _ Hr) as Hl1. unfold ZSKIPLIST_MAXLEVEL in *.
  pose (W := fun (_ : nat) a => if decide (a = header zsl) then Some (mkLevel None (zlength ts)) else None).
  destruct (for_levels_spec W raise_level (Z.to_nat (lv - level zsl)) (Z.to_nat (level zsl)) zsl) as (zsl' & Hf & [Hs Hb] & Hc).
  - intros j zsl0 Hj [(Hh & _ & Hlen & _) _] Hc0. unfold raise_level. rewrite Hh.
    pose proof (zr_above _ _ _ _ _ _ Hr j ltac:(lia)) as Hab. rewrite <- Hc0 in Hab.
    destruct (cell (nodes zsl0) (header zsl) j) as [c|] eqn:Ec; [|done]. injection Hab as Hab.
    rewrite (cell_get _ _ _ _ Ec). destruct (set_level_spec zsl0 (header zsl) j c (mkLevel (forward c) (zlen zsl0)) Ec) as (zsl1 & -> & Hre & Hc1).
    exists zsl1. split; [done|]. split; [done|]. intros a j'. rewrite Hc1. unfold W.
    rewrite Hab, Hlen, (zr_len _ _ _ _ _ _ Hr). repeat case_decide; naive_solver.
  - rewrite Z2Nat.id in Hf by lia. exists zsl'. split; [done|]. split; [done|]. destruct Hs as (Hh & Ht & Hlen & Hlev & Hal & Hna).
    destruct Hr as [R1 R2 R3 R4 R5 R6 R7 R8 R9 R10 R11 R12 R13 R14 R15 R16 R17].
    assert (Hcell : forall a j, a <> header zsl \/ (j < Z.to_nat (level zsl))%nat \/ (Z.to_nat lv <= j)%nat ->
      cell (nodes zsl') a j = cell (nodes zsl) a j).
    { intros a j Ha. rewrite Hc. case_decide as Hj; [|done]. unfold W. by rewrite decide_False by lia. }
    split; cbn [header tail zlen level alloc_size nodes next_addr set_zlevel]; rewrite ?Hh, ?Ht, ?Hlen, ?Hal, ?Hna; try done.
    + intros p t Hp. rewrite Hb. by apply R1.
    + intros p t i Hp Hi. rewrite Hcell; [by apply R2|]. left. intros E. apply list.NoDup_cons in R11 as [R11 _]. apply R11.
      rewrite <- E. apply list_elem_of_fmap. exists t. split; [done|]. apply elem_of_app. left. by eapply list_elem_of_lookup_2.
    + by rewrite Hb.
    + intros i Hi. destruct (decide (i < Z.to_nat (level zsl))%nat) as [Hlt|Hge]; [rewrite Hcell by lia; by apply R4|].
      rewrite Hc. rewrite decide_True by lia. unfold W. rewrite decide_True by done. rewrite link_all_low; [done|].
      eapply list.Forall_impl; [exact R7|]. unfold high. simpl. intros t Ht'. lia.
    + intros i Hi. rewrite Hcell by lia. apply R5. lia.
    + unfold ZSKIPLIST_MAXLEVEL. lia.
    + eapply list.Forall_impl; [exact R7|]. simpl. intros t Ht'. lia.
    + intros a. rewrite <- R13, <- !body_alive. by rewrite Hb.
    + intros t Ht'. rewrite Hb. by apply R14.
Qed.

(** ** The new node *)

Lemma create_spec zsl lv sc e x zsl' :
  zslCreateNode usable sdsAllocSize junk zsl lv sc (Some e) = (x, zsl') -> 0 <= lv ->
  x = next_addr zsl /\ header zsl' = header zsl /\ tail zsl' = tail zsl /\ zlen zsl' = zlen zsl /\ level zsl' = level zsl /\
  alloc_size zsl' = u64 (alloc_size zsl + usable lv + sdsAllocSize e) /\ next_addr zsl' = x + 1 /\
  (forall a, body (nodes zsl') a = if decide (a = x) then Some (Some e, sc, forward junk, Z.to_nat lv) else body (nodes zsl) a) /\
  (forall a j, cell (nodes zsl') a j = if decide (a = x) then (if decide (j < Z.to_nat lv)%nat then Some junk else None) else cell (nodes zsl) a j).
Proof.
  unfold zslCreateNode. intros [= <- <-] Hlv. simpl. split_and!; try done.
  - unfold u64, u. rewrite Zplus_mod_idemp_l. done.
  - intros a. unfold body. case_decide; subst.
    + rewrite lookup_insert_eq. simpl. by rewrite length_replicate.
    + by rewrite lookup_insert_ne.
  - intros a j. unfold cell. case_decide; subst.
    + rewrite lookup_insert_eq. simpl. case_decide; [by apply lookup_replicate_2|]. apply lookup_ge_None. rewrite length_replicate. lia.
    + by rewrite lookup_insert_ne.
Qed.

Lemma link_span i r : 0 <= span (link i r) <= zlength r.
Proof.
  induction r as [|t r IH]; simpl; [lia|]. case_decide; simpl; lia.
Qed.

(** What the two loops of zslInsert write, in a state [zsl1] with the new node [x]. *)
Section Links.
Context (zsl zsl1 : zskiplist) (l r loose : list tower) (x : Z) (sc : double) (e : sds) (lv : Z).
Hypothesis Hr : zsl_rep zsl (l ++ r) loose.
Hypothesis Hlv : 1 <= lv <= level zsl.
Hypothesis Hx : x = next_addr zsl.
Hypothesis Hh : header zsl1 = header zsl.
Hypothesis Hc1 : forall a j, cell (nodes zsl1) a j =
  if decide (a = x) then (if decide (j < Z.to_nat lv)%nat then Some junk else None) else cell (nodes zsl) a j.
Let t := mkTower x sc e (Z.to_nat lv).
Let us := updates (header zsl) l (Z.to_nat (level zsl)).
Let U j := addr_at (header zsl) l (upd j l).

Lemma old_addr a : a ∈ header zsl :: (t_addr <$> (l ++ r) ++ loose) -> a <> x.
Proof. intros Ha ->. pose proof (zr_next _ _ _ _ _ _ Hr) as Hn. rewrite list.Forall_forall in Hn. specialize (Hn _ Ha). simpl in Hn. lia. Qed.

Lemma left_addr p : addr_at (header zsl) l p <> x.
Proof.
  apply old_addr. pose proof (addr_at_elem (header zsl) l p) as Hin. rewrite !fmap_app. rewrite elem_of_cons in *.
  destruct Hin as [?|?]; [by left|right]. apply elem_of_app. left. apply elem_of_app. by left.
Qed.

Lemma upd_link j : (j < Z.to_nat (level zsl))%nat ->
  cell (nodes zsl1) (U j) j = Some (link j (drop (upd j l) (l ++ r))).
Proof. intros Hj. rewrite Hc1, decide_False by apply left_addr. by eapply rep_upd_cell. Qed.

Lemma upd_link_eq j : link j (drop (upd j l) (l ++ r)) = mkLevel (forward (link j r)) (Z.of_nat (length l - upd j l) + span (link j r)).
Proof. by apply (link_insert j l t r); [apply upd_le|apply upd_ok|]. Qed.

Lemma upd_rank j : u64 (zlength l - Z.of_nat (upd j l)) = Z.of_nat (length l - upd j l) /\
  u64 (Z.of_nat (length l - upd j l) + span (link j r) - Z.of_nat (length l - upd j l)) = span (link j r) /\
  u64 (Z.of_nat (length l - upd j l) + 1) = Z.of_nat (length l - upd j l) + 1 /\
  u64 (Z.of_nat (length l - upd j l) + span (link j r) + 1) = Z.of_nat (length l - upd j l) + span (link j r) + 1.
Proof.
  pose proof (upd_le j l). pose proof (link_span j r). pose proof (zr_small _ _ _ _ _ _ Hr) as Hsm. rewrite length_app in Hsm.
  rewrite !u_id by (pow_const; lia). lia.
Qed.

Definition linked (j : nat) (a : Z) : option zskiplistLevel :=
  if decide (a = x) then Some (link j r)
  else if decide (a = U j) then Some (mkLevel (Some x) (Z.of_nat (length l - upd j l) + 1)) else None.

Lemma link_loop : exists zsl2, for_levels (Z.to_nat lv) 0 (link_level x us (zlength l)) zsl1 = Ok zsl2 /\ relinked zsl1 zsl2 /\
  forall a j, cell (nodes zsl2) a j =
    if decide (j < Z.to_nat lv)%nat then (match linked j a with Some v => Some v | None => cell (nodes zsl1) a j end)
    else cell (nodes zsl1) a j.
Proof.
  destruct (for_levels_spec linked (link_level x us (zlength l)) (Z.to_nat lv) 0 zsl1) as (zsl2 & Hf & Hre & Hc).
  - intros j zsl0 Hj _ Hc0. unfold link_level. unfold us at 1. rewrite updates_get by lia. fold (U j).
    pose proof (upd_link j ltac:(lia)) as Hu. rewrite <- Hc0 in Hu. rewrite (cell_get _ _ _ _ Hu), upd_link_eq. cbn [forward span].
    destruct (upd_rank j) as (-> & -> & -> & _).
    assert (cell (nodes zsl0) x j = Some junk) as Hjx by (rewrite Hc0, Hc1; by rewrite !decide_True by (done || lia)).
    destruct (set_level_spec zsl0 x j _ (mkLevel (forward (link j r)) (span (link j r))) Hjx) as (za & -> & Hrea & Hca).
    assert (cell (nodes za) (U j) j = Some (link j (drop (upd j l) (l ++ r)))) as Hu'
      by (rewrite Hca, decide_False; [done|intros [? _]; by destruct (left_addr (upd j l))]).
    destruct (set_level_spec za (U j) j _ (mkLevel (Some x) (Z.of_nat (length l - upd j l) + 1)) Hu') as (zb & -> & Hreb & Hcb).
    exists zb. split; [done|]. split; [by etrans|]. intros a j'. rewrite Hcb, Hca. unfold linked.
    pose proof (left_addr (upd j l) : U j <> x). destruct (link j r). repeat case_decide; naive_solver.
  - exists zsl2. split; [done|]. split; [done|]. intros a j. rewrite Hc. by repeat case_decide; try lia.
Qed.

Lemma extend_loop zsl2 : header zsl2 = header zsl ->
  (forall a j, (Z.to_nat lv <= j)%nat -> cell (nodes zsl2) a j = cell (nodes zsl1) a j) ->
  exists zsl3, for_levels (Z.to_nat (level zsl - lv)) lv (extend_span us) zsl2 = Ok zsl3 /\ relinked zsl2 zsl3 /\
  forall a j, cell (nodes zsl3) a j =
    if decide (Z.to_nat lv <= j < Z.to_nat (level zsl))%nat
    then (if decide (a = U j) then Some (mkLevel (forward (link j r)) (Z.of_nat (length l - upd j l) + span (link j r) + 1)) else cell (nodes zsl1) a j)
    else cell (nodes zsl2) a j.
Proof.
  intros Hh2 Hc2.
  pose (W := fun j a => if decide (a = U j) then Some (mkLevel (forward (link j r)) (Z.of_nat (length l - upd j l) + span (link j r) + 1)) else None).
  destruct (for_levels_spec W (extend_span us) (Z.to_nat (level zsl - lv)) (Z.to_nat lv) zsl2) as (zsl3 & Hf & Hre & Hc).
  - intros j zsl0 Hj _ Hc0. unfold extend_span. unfold us at 1. rewrite updates_get by lia. fold (U j).
    pose proof (upd_link j ltac:(lia)) as Hu. rewrite <- Hc2, <- Hc0 in Hu by lia. rewrite (cell_get _ _ _ _ Hu), upd_link_eq.
    cbn [forward span]. destruct (upd_rank j) as (_ & _ & _ & ->).
    destruct (set_level_spec zsl0 (U j) j _ (mkLevel (forward (link j r)) (Z.of_nat (length l - upd j l) + span (link j r) + 1)) Hu)
      as (za & -> & Hrea & Hca).
    exists za. split; [done|]. split; [done|]. intros a j'. rewrite Hca. unfold W. repeat case_decide; naive_solver.
  - rewrite Z2Nat.id in Hf by lia. exists zsl3. split; [done|]. split; [done|]. intros a j. rewrite Hc. unfold W.
    repeat case_decide; try lia; try done. apply Hc2. lia.
Qed.

(** The links are those of the sequence with the new tower. *)
Lemma insert_links : exists zsl2 zsl3,
  for_levels (Z.to_nat lv) 0 (link_level x us (zlength l)) zsl1 = Ok zsl2 /\
  for_levels (Z.to_nat (level zsl - lv)) lv (extend_span us) zsl2 = Ok zsl3 /\ relinked zsl1 zsl2 /\ relinked zsl1 zsl3 /\
  (forall p i, (p <= length l)%nat -> (i < Z.to_nat (level zsl))%nat ->
    (match p with O => True | S q => exists t, l !! q = Some t /\ high i t end) ->
    cell (nodes zsl3) (addr_at (header zsl) l p) i = Some (link i (drop p (l ++ t :: r)))) /\
  (forall i, (i < Z.to_nat lv)%nat -> cell (nodes zsl3) x i = Some (link i r)) /\
  (forall a i, a <> x -> a ∉ header zsl :: (t_addr <$> l) \/ (Z.to_nat (level zsl) <= i)%nat -> cell (nodes zsl3) a i = cell (nodes zsl) a i).
Proof.
  destruct link_loop as (zsl2 & H2 & Hre2 & Hc2). destruct (extend_loop zsl2) as (zsl3 & H3 & Hre3 & Hc3).
  { destruct Hre2 as [(-> & _) _]. done. }
  { intros a j Hj. rewrite Hc2. by rewrite decide_False by lia. }
  exists zsl2, zsl3. split_and!; [done|done|done|by etrans|..].
  - intros p i Hp Hi Hhp. pose proof (left_addr p) as Hne. set (a := addr_at (header zsl) l p) in *.
    destruct (link_insert i l t r p Hp Hhp) as (L1 & L2 & L3 & L4).
    assert (Ha : a = U i <-> p = upd i l).
    { split; [|by intros ->]. apply addr_at_inj; [by eapply rep_nodup|done|apply upd_le]. }
    assert (Hold : cell (nodes zsl1) a i = Some (link i (drop p (l ++ r)))) by (rewrite Hc1, decide_False by done; by eapply rep_cell).
    rewrite Hc3, Hc2. unfold linked. rewrite (decide_False (P := a = x)) by done. unfold high in L3, L4. simpl in L3, L4.
    destruct (decide (p = upd i l)) as [E|E].
    + rewrite !(decide_True (P := a = U i)) by (by apply Ha). rewrite <- E. case_decide as D1; [|case_decide as D2; [|lia]].
      * rewrite L4 by (done || lia). rewrite L2 by done. done.
      * rewrite L3 by (done || lia). done.
    + rewrite !(decide_False (P := a = U i)) by (by rewrite Ha). rewrite L1 by done. by repeat case_decide.
  - intros i Hi. rewrite Hc3, Hc2. unfold linked. by rewrite decide_False, !decide_True by (done || lia).
  - intros a i Hne Ha. rewrite Hc3, Hc2. unfold linked. rewrite (decide_False (P := a = x)) by done.
    assert (Hu : (i < Z.to_nat (level zsl))%nat -> a <> U i).
    { intros Hi E. destruct Ha as [Ha|Ha]; [|lia]. apply Ha. rewrite E. apply addr_at_elem. }
    rewrite Hc1, (decide_False (P := a = x)) by done.
    repeat case_decide; try done; exfalso; apply Hu; done || lia.
Qed.
End Links.
End Upd.
