(* ===== verification/SkiplistOps.v ===== *)
(** The operations of skip lists refine those of a sorted sequence of members. *)

From stdpp Require Import gmap sorting.
From S2P Require Import Prelude Machine Double SetType Skiplist ZOrder SkiplistInv SkiplistUpd.

Implicit Types (t : tower) (ts l r loose : list tower) (i k q : nat) (zsl : zskiplist).

Section Ops.
Context (usable : Z -> Z) (sdsAllocSize : sds -> Z) (zsl_size : Z) (junk : zskiplistLevel).
Notation zsl_rep := (zsl_rep usable sdsAllocSize zsl_size).
Notation sizes := (sizes usable sdsAllocSize).
Notation zslCreateNode := (zslCreateNode usable sdsAllocSize junk).

(** * Insertion *)

Lemma sizes_app l r : sizes (l ++ r) = sizes l + sizes r.
Proof. induction l as [|t l IH]; simpl; [done|]. rewrite IH. lia. Qed.

Lemma prev_addr_app l r p : (p <= length l)%nat -> prev_addr (l ++ r) p = prev_addr l p.
Proof. intros Hp. destruct p as [|p]; [done|]. simpl. by rewrite lookup_app_l by lia. Qed.

Lemma fmap_addr_elem l t : t ∈ l -> t_addr t ∈ t_addr <$> l.
Proof. intros Ht. apply list_elem_of_fmap. by exists t. Qed.

(** The addresses of different towers are different. *)
Lemma addr_inj zsl ts loose p1 t1 p2 t2 :
  zsl_rep zsl ts loose -> ts !! p1 = Some t1 -> ts !! p2 = Some t2 -> t_addr t1 = t_addr t2 -> p1 = p2.
Proof.
  intros Hr H1 H2 He. apply eq_add_S. apply (addr_at_inj (header zsl) ts).
  - apply (rep_nodup usable sdsAllocSize zsl_size zsl ts [] loose). by rewrite app_nil_r.
  - by apply lookup_lt_Some in H1.
  - by apply lookup_lt_Some in H2.
  - simpl. by rewrite H1, H2.
Qed.

Lemma addr_header zsl ts loose t : zsl_rep zsl ts loose -> t ∈ ts ++ loose -> t_addr t <> header zsl.
Proof.
  intros Hr Ht E. pose proof (zr_addrs _ _ _ _ _ _ Hr) as Hnd. apply list.NoDup_cons in Hnd as [Hnd _].
  apply Hnd. rewrite <- E. by apply fmap_addr_elem.
Qed.

Section Insert.
Context (zsl zsl1 zsl3 : zskiplist) (l r loose : list tower) (x : Z) (sc : double) (e : sds) (lv : Z).
Hypothesis Hr : zsl_rep zsl (l ++ r) loose.
Hypothesis Hlv : 1 <= lv <= level zsl.
Hypothesis Hcreate : zslCreateNode zsl lv sc (Some e) = (x, zsl1).
Hypothesis Hre : relinked zsl1 zsl3.
Let t := mkTower x sc e (Z.to_nat lv).
Hypothesis Hcl : forall p i, (p <= length l)%nat -> (i < Z.to_nat (level zsl))%nat ->
    (match p with O => True | S q => exists t, l !! q = Some t /\ high i t end) ->
    cell (nodes zsl3) (addr_at (header zsl) l p) i = Some (link i (drop p (l ++ t :: r))).
Hypothesis Hcx : forall i, (i < Z.to_nat lv)%nat -> cell (nodes zsl3) x i = Some (link i r).
Hypothesis Hco : forall a i, a <> x -> a ∉ header zsl :: (t_addr <$> l) \/ (Z.to_nat (level zsl) <= i)%nat ->
    cell (nodes zsl3) a i = cell (nodes zsl) a i.
Hypothesis Hsorted : StronglySorted tlt (l ++ t :: r).
Hypothesis Hnan : isnan sc = false.
Hypothesis Hsmall : zlength (l ++ r) + 1 < 2 ^ 62.

(** The state [z] after the last pointers have been set. *)
Context (z : zskiplist).
Hypothesis Hcell : forall a j, cell (nodes z) a j = cell (nodes zsl3) a j.
Hypothesis Hbody : forall a, body (nodes z) a =
    if decide (a = x) then Some (Some e, sc, prev_addr l (length l), Z.to_nat lv)
    else if decide (Some a = t_addr <$> head r) then (fun b => (b.1.1.1, b.1.1.2, Some x, b.2)) <$> body (nodes zsl) a
    else body (nodes zsl) a.

Lemma ins_next : x = next_addr zsl.
Proof. by destruct (create_spec usable sdsAllocSize junk _ _ _ _ _ _ Hcreate ltac:(lia)) as (Hx & _). Qed.

Lemma ins_old a : a ∈ header zsl :: (t_addr <$> (l ++ r) ++ loose) -> a <> x.
Proof. eapply old_addr; [exact Hr|exact ins_next]. Qed.

Lemma ins_elem p t' : (l ++ r) !! p = Some t' -> t' ∈ (l ++ r) ++ loose.
Proof. intros Hp. apply elem_of_app. left. by eapply list_elem_of_lookup_2. Qed.

Lemma ins_ne t' : t' ∈ (l ++ r) ++ loose -> t_addr t' <> x.
Proof. intros Ht'. apply ins_old. right. by apply fmap_addr_elem. Qed.

Lemma ins_head p t' : (l ++ r) !! p = Some t' -> Some (t_addr t') = t_addr <$> head r <-> p = length l.
Proof.
  intros Hp. destruct r as [|t0 r'] eqn:Er; simpl.
  - split; [done|]. intros ->. rewrite app_nil_r in Hp. by apply lookup_lt_Some in Hp; lia.
  - assert ((l ++ t0 :: r') !! length l = Some t0) as H0 by (by rewrite list_lookup_middle).
    split; [intros [= E]; by eapply addr_inj|]. intros ->. by simplify_eq.
Qed.

(** A tower of the new sequence: the new one, or one of the old sequence. *)
Lemma ins_lookup p t' : (l ++ t :: r) !! p = Some t' ->
  (p < length l)%nat /\ l !! p = Some t' /\ (l ++ r) !! p = Some t' \/ p = length l /\ t' = t \/
  exists p', p = S p' /\ (length l <= p')%nat /\ (l ++ r) !! p' = Some t'.
Proof.
  intros Hp. destruct (lt_eq_lt_dec p (length l)) as [[Hlt| ->]|Hgt].
  - left. rewrite lookup_app_l in Hp by done. by rewrite lookup_app_l.
  - right; left. rewrite list_lookup_middle in Hp by done. by simplify_eq.
  - right; right. destruct p as [|p]; [lia|]. exists p. rewrite lookup_app_r in Hp by lia. rewrite lookup_app_r by lia.
    replace (S p - length l)%nat with (S (p - length l)) in Hp by lia. split_and!; [done|lia|done].
Qed.

Lemma insert_body p t' : (l ++ t :: r) !! p = Some t' ->
  body (nodes z) (t_addr t') = Some (Some (t_ele t'), t_score t', prev_addr (l ++ t :: r) p, t_height t').
Proof.
  intros Hp. rewrite Hbody. destruct (ins_lookup p t' Hp) as [(Hlt & _ & Hp')|[[-> ->]|(p' & -> & Hge & Hp')]].
  - rewrite decide_False by (eapply ins_ne, ins_elem; done). rewrite decide_False by (rewrite (ins_head p t' Hp'); lia).
    rewrite (zr_body _ _ _ _ _ _ Hr p t' Hp'). by rewrite !prev_addr_app by lia.
  - simpl. rewrite decide_True by done. by rewrite prev_addr_app.
  - rewrite decide_False by (eapply ins_ne, ins_elem; done). rewrite (zr_body _ _ _ _ _ _ Hr p' t' Hp').
    case_decide as Hd; rewrite (ins_head p' t' Hp') in Hd.
    + subst p'. simpl. by rewrite list_lookup_middle.
    + destruct p' as [|p']; [lia|]. cbn [prev_addr]. rewrite !lookup_app_r by lia.
      by replace (S p' - length l)%nat with (S (p' - length l)) by lia.
Qed.

Lemma insert_cell p t' i : (l ++ t :: r) !! p = Some t' -> high i t' -> cell (nodes z) (t_addr t') i = Some (link i (drop (S p) (l ++ t :: r))).
Proof.
  intros Hp Hi. rewrite Hcell. destruct (ins_lookup p t' Hp) as [(Hlt & Hpl & Hp')|[[-> ->]|(p' & -> & Hge & Hp')]].
  - replace (t_addr t') with (addr_at (header zsl) l (S p)) by (simpl; by rewrite Hpl). apply Hcl; [lia| |by exists t'].
    pose proof (Forall_lookup_1 _ _ _ _ (zr_heights _ _ _ _ _ _ Hr) Hp') as Hh. unfold high in Hi. simpl in Hh. lia.
  - rewrite Hcx by done. replace (S (length l)) with (length l + 1)%nat by lia. by rewrite drop_app_add.
  - rewrite Hco; [|eapply ins_ne, ins_elem; done|].
    + rewrite (zr_cell _ _ _ _ _ _ Hr p' t' i Hp' Hi). replace (S (S p')) with (length l + S (S (p' - length l)))%nat by lia.
      replace (S p') with (length l + S (p' - length l))%nat by lia. by rewrite !drop_app_add.
    + left. intros Hin. rewrite elem_of_cons in Hin. destruct Hin as [E|Hin]; [by eapply addr_header, E; [exact Hr|eapply ins_elem]|].
      apply list_elem_of_fmap in Hin as (t2 & E & [p2 Hp2]%list_elem_of_lookup).
      assert (p' = p2); [|subst; apply lookup_lt_Some in Hp2; lia].
      eapply addr_inj; [exact Hr|exact Hp'| |exact E]. by apply lookup_app_l_Some.
Qed.

Lemma insert_rep :
  header z = header zsl -> tail z = t_addr <$> list.last (l ++ t :: r) -> zlen z = zlen zsl + 1 -> level z = level zsl ->
  alloc_size z = alloc_size zsl3 -> next_addr z = next_addr zsl3 -> zsl_rep z (l ++ t :: r) loose.
Proof.
  intros Hh Ht Hlen Hlev Hal Hna.
  destruct (create_spec usable sdsAllocSize junk _ _ _ _ _ _ Hcreate ltac:(lia)) as (_ & _ & _ & _ & _ & Hal1 & Hna1 & _ & _).
  destruct Hre as [(_ & _ & _ & _ & Hal3 & Hna3) _]. pose proof ins_next as Hx.
  assert (Hnx : x ∉ header zsl :: (t_addr <$> (l ++ r) ++ loose)) by (intros Hin; by apply (ins_old x)).
  assert (Hperm : (header zsl :: (t_addr <$> (l ++ t :: r) ++ loose)) ≡ₚ x :: (header zsl :: (t_addr <$> (l ++ r) ++ loose)))
    by (rewrite !fmap_app; simpl; by rewrite <- Permutation_middle, perm_swap).
  split; rewrite ?Hh, ?Hlev.
  - apply insert_body.
  - apply insert_cell.
  - rewrite Hbody. rewrite decide_False by (apply ins_old; left).
    rewrite decide_False; [by apply (zr_header _ _ _ _ _ _ Hr)|]. destruct r as [|t0 r'] eqn:Er; [done|]. intros [= E].
    symmetry in E. eapply addr_header, E; [exact Hr|]. apply elem_of_app. left. apply elem_of_app. right. left.
  - intros i Hi. rewrite Hcell. specialize (Hcl O i ltac:(lia) Hi I). by rewrite drop_0 in Hcl.
  - intros i Hi. rewrite Hcell, Hco; [by apply (zr_above _ _ _ _ _ _ Hr)|apply ins_old; left|by right; lia].
  - apply Hr.
  - pose proof (zr_heights _ _ _ _ _ _ Hr) as Hhs. apply Forall_app in Hhs as [H1 H2]. apply Forall_app. split; [done|].
    constructor; [simpl; lia|done].
  - done.
  - rewrite Hlen, (zr_len _ _ _ _ _ _ Hr), !length_app. simpl. lia.
  - rewrite !length_app in *. simpl. lia.
  - rewrite Hperm. apply list.NoDup_cons. split; [done|apply Hr].
  - rewrite Hperm, Hna, Hna3, Hna1. constructor; [lia|]. eapply list.Forall_impl; [apply Hr|]. simpl. intros a Ha. lia.
  - intros a. rewrite Hperm, elem_of_cons, <- (zr_dom _ _ _ _ _ _ Hr), <- !body_alive, Hbody.
    case_decide as D1; [subst a; split; [by left|done]|]. case_decide as D2; rewrite ?fmap_is_Some; naive_solver.
  - intros t' Ht'. rewrite Hbody. assert (t' ∈ (l ++ r) ++ loose) as Hin by (apply elem_of_app; by right).
    rewrite decide_False by (by apply ins_ne). destruct (zr_loose _ _ _ _ _ _ Hr t' Ht') as [b Hb]. case_decide; rewrite Hb; by eexists.
  - pose proof (zr_nan _ _ _ _ _ _ Hr) as Hnn. apply Forall_app in Hnn as [H1 H2]. apply Forall_app. split; [done|by constructor].
  - done.
  - rewrite Hal, Hal3, Hal1, (zr_alloc _ _ _ _ _ _ Hr), !sizes_app. simpl. unfold t_size. simpl. rewrite Z2Nat.id by lia.
    unfold u64, u. rewrite <- Z.add_assoc, Zplus_mod_idemp_l. f_equal. lia.
Qed.
End Insert.

(** ** zslInsert *)

Lemma before_node zsl ts loose sc e p t n :
  zsl_rep zsl ts loose -> ts !! p = Some t -> nodes zsl !! t_addr t = Some n ->
  forall rank, before sc e rank n = Ok (mltb (t_key t) (sc, e)).
Proof.
  intros Hr Hp Hn rank. destruct (body_deref zsl _ _ _ _ _ (zr_body _ _ _ _ _ _ Hr p t Hp)) as (n' & _ & Hn' & He & Hs & _).
  assert (n' = n) as -> by congruence. unfold before, mltb, ele_of, t_key. rewrite Hs, He. simpl.
  destruct (dlt _ _); [done|]. by destruct (deq _ _).
Qed.

Lemma before_cut zsl ts loose sc e :
  zsl_rep zsl ts loose -> isnan sc = false ->
  exists k, cut zsl ts (before sc e) 0 k /\ forall p t, ts !! p = Some t -> mlt (t_key t) (sc, e) <-> (p < k)%nat.
Proof.
  intros Hr Hnan. destruct (sorted_cut tlt (fun t => mlt (t_key t) (sc, e)) ts (zr_sorted _ _ _ _ _ _ Hr)) as (k & Hk & Hc).
  { intros t1 t2 H1 H2 H12 Hlt. pose proof (zr_nan _ _ _ _ _ _ Hr) as Hnn. rewrite list.Forall_forall in Hnn.
    apply (mlt_trans _ (t_key t2)); [by apply Hnn|by apply Hnn|done|done|done]. }
  exists k. split; [|done]. split; [done|]. intros p t n _ Hp Hn. rewrite (before_node zsl ts loose sc e p t n Hr Hp Hn). f_equal.
  specialize (Hc p t Hp). unfold mlt in Hc. case_bool_decide as Hd; [by apply Hc|]. apply not_true_is_false. by rewrite Hc.
Qed.

Lemma random_range draws lv : zslRandomLevel draws = Ok lv -> 1 <= lv <= ZSKIPLIST_MAXLEVEL.
Proof.
  unfold zslRandomLevel, ZSKIPLIST_MAXLEVEL. assert (Hl : forall v, 1 <= v -> forall lv, random_loop draws v = Ok lv -> 1 <= lv).
  { induction draws as [|d draws IH]; intros v H0 lv'; simpl; [done|]. destruct (_ <? _); [apply IH; lia|]. intros [= <-]. lia. }
  destruct (random_loop draws 1) as [l1|] eqn:E; [|done]. apply Hl in E; [|lia]. intros [= <-]. zbool; lia.
Qed.

Lemma updates_raise zsl l r loose (lv : nat) :
  zsl_rep zsl (l ++ r) loose -> (Z.to_nat (level zsl) <= lv)%nat ->
  updates (header zsl) l (Z.to_nat (level zsl)) ++ replicate (lv - Z.to_nat (level zsl)) (header zsl, 0) = updates (header zsl) l lv.
Proof.
  intros Hr Hlv. unfold updates. replace lv with (Z.to_nat (level zsl) + (lv - Z.to_nat (level zsl)))%nat at 2 by lia.
  rewrite seq_app, fmap_app. f_equal. symmetry. apply list_eq. intros j. rewrite list_lookup_fmap.
  destruct (decide (j < lv - Z.to_nat (level zsl))%nat) as [Hj|Hj].
  - rewrite lookup_seq_lt by done. simpl. rewrite (proj2 (lookup_replicate _ _ _ _)) by done. rewrite upd_above; [done|].
    apply (heights_low usable sdsAllocSize zsl_size zsl (l ++ r) loose (Z.to_nat (level zsl) + j)) in Hr; [|lia]. by apply Forall_app in Hr as [? _].
  - rewrite lookup_seq_ge by lia. symmetry. apply lookup_ge_None. rewrite length_replicate. lia.
Qed.

Lemma high_zero zsl ts loose : zsl_rep zsl ts loose -> Forall (high 0) ts.
Proof. intros Hr. eapply list.Forall_impl; [apply Hr|]. unfold high. simpl. intros t Ht. lia. Qed.

Lemma prev_last l : prev_addr l (length l) = t_addr <$> list.last l.
Proof. destruct l as [|t l] using rev_ind; [done|]. rewrite length_app, Nat.add_comm, last_snoc. simpl. by rewrite list_lookup_middle. Qed.

(** The part of zslInsert after the levels have been raised. *)
Lemma insert_tail zsl l r loose sc e lv x zsl1 :
  zsl_rep zsl (l ++ r) loose -> 1 <= lv <= level zsl -> zslCreateNode zsl lv sc (Some e) = (x, zsl1) ->
  StronglySorted tlt (l ++ mkTower x sc e (Z.to_nat lv) :: r) -> isnan sc = false -> zlength (l ++ r) + 1 < 2 ^ 62 ->
  exists zsl', (let us := updates (header zsl) l (Z.to_nat (level zsl)) in
    let! '(u0, rank0) := get1 0 us in
    let! z := for_levels (Z.to_nat lv) 0 (link_level x us rank0) zsl1 in
    let! z := for_levels (Z.to_nat (level z - lv)) lv (extend_span us) z in
    let! z := set_backward z x (if u0 =? header z then None else Some u0) in
    let! c := get_level z x 0 in
    let! z := (match forward c with Some y => set_backward z y (Some x) | None => Ok (set_tail z (Some x)) end) in
    Ok (x, set_length z (u64 (zlen z + 1)))) = Ok (x, zsl') /\
    zsl_rep zsl' (l ++ mkTower x sc e (Z.to_nat lv) :: r) loose /\ header zsl' = header zsl /\ level zsl' = level zsl.
Proof.
  intros Hr Hlv Hcreate Hsorted Hnan Hsmall. pose proof (zr_level _ _ _ _ _ _ Hr) as Hl1. set (us := updates _ _ _). cbn zeta.
  destruct (create_spec usable sdsAllocSize junk _ _ _ _ _ _ Hcreate ltac:(lia)) as (Hx & Hh1 & Ht1 & Hn1 & Hv1 & Hal1 & Hna1 & Hb1 & Hc1).
  pose proof (high_zero _ _ _ Hr) as Hh0. apply Forall_app in Hh0 as [Hh0 Hh0r].
  change 0 with (Z.of_nat 0) at 1. unfold us at 1. rewrite updates_get, upd_zero by (done || lia). fold us.
  destruct (insert_links usable sdsAllocSize zsl_size junk zsl zsl1 l r loose x sc e lv Hr Hlv Hx Hh1 Hc1)
    as (zsl2 & zsl3 & H2 & H3 & Hre2 & Hre3 & Hcl & Hcx & Hco). fold us in H2, H3. rewrite H2.
  assert (level zsl2 = level zsl) as -> by (destruct Hre2 as [(_ & _ & _ & -> & _) _]; done). rewrite H3.
  pose proof Hre3 as [(Hh3 & Ht3 & Hn3 & Hv3 & _) Hb3].
  destruct (set_backward_spec zsl3 x (if addr_at (header zsl) l (length l) =? header zsl3 then None else Some (addr_at (header zsl) l (length l))) (Some e) sc (forward junk) (Z.to_nat lv))
    as (zsl4 & -> & (Hh4 & Ht4 & Hn4 & Hv4 & Hal4 & Hna4) & Hb4 & Hc4); [rewrite Hb3, Hb1; by rewrite decide_True|].
  assert (Hprev : (if addr_at (header zsl) l (length l) =? header zsl3 then None else Some (addr_at (header zsl) l (length l))) = prev_addr l (length l)).
  { rewrite Hh3, Hh1. destruct (length l) as [|q] eqn:El; simpl; [by rewrite Z.eqb_refl|].
    destruct (lookup_lt_is_Some_2 l q ltac:(lia)) as [t0 Ht0]. rewrite Ht0. simpl. rewrite (proj2 (Z.eqb_neq _ _)); [done|].
    eapply addr_header; [done|]. apply elem_of_app. left. apply elem_of_app. left. by eapply list_elem_of_lookup_2. }
  rewrite Hprev in Hb4.
  change 0 with (Z.of_nat 0) at 1. rewrite (cell_get zsl4 x 0 (link 0 r)) by (rewrite Hc4; apply Hcx; lia).
  assert (Hzlen : u64 (zlen zsl + 1) = zlen zsl + 1) by (rewrite (zr_len _ _ _ _ _ _ Hr), u_id by (pow_const; lia); done).
  assert (Hfwd : forward (link 0 r) = t_addr <$> head r).
  { destruct r as [|t0 r']; [done|]. simpl. apply Forall_cons_1 in Hh0r as [? _]. by rewrite decide_True. }
  rewrite Hfwd. pose proof (fun z => insert_rep zsl zsl1 zsl3 l r loose x sc e lv Hr Hlv Hcreate Hre3 Hcl Hcx Hco Hsorted Hnan Hsmall z) as Hfin.
  destruct r as [|t0 r'] eqn:Er; cbn [head fmap option_fmap option_map].
  - eexists. split; [done|]. split; [|simpl; split; congruence]. apply Hfin; simpl; try congruence.
    + intros a. rewrite Hb4, Hb3, Hb1. by repeat case_decide.
    + by rewrite last_snoc.
  - assert (t_addr t0 <> x) as Hne0.
    { eapply (old_addr usable sdsAllocSize zsl_size zsl); [exact Hr|done|]. right. apply fmap_addr_elem. apply elem_of_app. left. apply elem_of_app. right. left. }
    pose proof (zr_body _ _ _ _ _ _ Hr (length l) t0 ltac:(by rewrite list_lookup_middle)) as Hb0.
    destruct (set_backward_spec zsl4 (t_addr t0) (Some x) (Some (t_ele t0)) (t_score t0) (prev_addr (l ++ t0 :: r') (length l)) (t_height t0))
      as (zsl5 & -> & (Hh5 & Ht5 & Hn5 & Hv5 & Hal5 & Hna5) & Hb5 & Hc5); [rewrite Hb4, Hb3, Hb1; by rewrite !decide_False by done|].
    eexists. split; [done|]. split; [|simpl; split; congruence]. apply Hfin; simpl; try congruence.
    + intros a. rewrite Hb5, Hb4, Hb3, Hb1. repeat case_decide; simplify_eq; try done. by rewrite Hb0.
    + rewrite Ht5, Ht4, Ht3, Ht1, (zr_tail _ _ _ _ _ _ Hr). by rewrite !last_app_cons.
Qed.

(** No tower holds the member. *)
Definition absent ts sc e : Prop := forall t, t ∈ ts -> ~ (deq (t_score t) sc = true /\ t_ele t = e).

(** [k] towers are before the member. *)
Definition position ts sc e k : Prop :=
  (k <= length ts)%nat /\ forall p t, ts !! p = Some t -> mlt (t_key t) (sc, e) <-> (p < k)%nat.

Lemma towers_insert ts sc e k t :
  StronglySorted tlt ts -> Forall (fun t => isnan (t_score t) = false) ts -> isnan sc = false ->
  absent ts sc e -> position ts sc e k -> t_key t = (sc, e) -> StronglySorted tlt (take k ts ++ t :: drop k ts).
Proof.
  intros Hs Hn Hnan Hab [Hk Hc] Ht. rewrite list.Forall_forall in Hn.
  assert (Hright : forall p t', ts !! p = Some t' -> (k <= p)%nat -> tlt t t').
  { intros p t' Hp Hkp. unfold tlt. rewrite Ht. assert (t' ∈ ts) as Hin by (by eapply list_elem_of_lookup_2).
    destruct (mlt_total (t_key t') (sc, e)) as [Hlt|[Heq|?]]; [by apply Hn|done| |by destruct (Hab t' Hin)|done].
    apply (Hc p t' Hp) in Hlt. lia. }
  assert (Hleft : forall p t', ts !! p = Some t' -> (p < k)%nat -> tlt t' t) by (intros p t' Hp Hpk; unfold tlt; rewrite Ht; by apply (Hc p)).
  rewrite <- (take_drop k ts) in Hs. apply StronglySorted_app in Hs as (Hcross & Hs1 & Hs2).
  apply StronglySorted_app. split_and!; [|done|].
  - intros t1 t2 H1 H2. rewrite elem_of_cons in H2. destruct H2 as [->|H2]; [|by apply Hcross].
    apply list_elem_of_lookup in H1 as [p Hp]. apply lookup_take_Some in Hp as [Hp Hpk]. by eapply Hleft.
  - constructor; [done|]. apply list.Forall_forall. intros t' [p Hp]%list_elem_of_lookup. rewrite lookup_drop in Hp.
    eapply Hright; [done|lia].
Qed.

Lemma zslInsert_spec zsl ts loose sc e draws lv :
  zsl_rep zsl ts loose -> zsl_top zsl ts -> isnan sc = false -> zslRandomLevel draws = Ok lv ->
  absent ts sc e -> zlength ts + 1 < 2 ^ 62 ->
  exists k x zsl', zslInsert usable sdsAllocSize junk zsl sc e draws = Ok (x, zsl') /\
    let ts' := take k ts ++ mkTower x sc e (Z.to_nat lv) :: drop k ts in
    zsl_rep zsl' ts' loose /\ zsl_top zsl' ts' /\ header zsl' = header zsl /\ position ts sc e k.
Proof.
  intros Hr Htop Hnan Hdraw Hab Hsm. pose proof (random_range _ _ Hdraw) as Hlv. pose proof (zr_level _ _ _ _ _ _ Hr) as Hl1.
  destruct (before_cut zsl ts loose sc e Hr Hnan) as (k & Hcut & Hpos).
  assert (position ts sc e k) as Hposn by (split; [apply Hcut|done]).
  unfold zslInsert. rewrite Hnan. cbn [negb]. rewrite (search_spec usable sdsAllocSize zsl_size zsl ts loose _ k Hr Hcut), Hdraw.
  assert (Hraise : exists zsl0, (if lv >? level zsl then
       let! z := for_levels (Z.to_nat (lv - level zsl)) (level zsl) raise_level zsl in
       Ok (updates (header zsl) (take k ts) (Z.to_nat (level zsl)) ++ replicate (Z.to_nat (lv - level z)) (header z, 0), set_zlevel z lv)
     else Ok (updates (header zsl) (take k ts) (Z.to_nat (level zsl)), zsl)) = Ok (updates (header zsl) (take k ts) (Z.to_nat (level zsl0)), zsl0) /\
     zsl_rep zsl0 ts loose /\ header zsl0 = header zsl /\ level zsl0 = Z.max lv (level zsl)).
  { destruct (Z.gtb_spec lv (level zsl)) as [Hgt|Hle].
    - destruct (raise_spec usable sdsAllocSize zsl_size zsl ts loose lv Hr ltac:(lia)) as (z & -> & (Hh & _ & _ & Hv & _) & Hrz).
      exists (set_zlevel z lv). split; [|by simpl; split_and!; [done..|lia]]. cbn [level set_zlevel]. rewrite Hh, Hv.
      rewrite <- (updates_raise zsl (take k ts) (drop k ts) loose (Z.to_nat lv)); [|by rewrite take_drop|lia].
      by replace (Z.to_nat (lv - level zsl)) with (Z.to_nat lv - Z.to_nat (level zsl))%nat by lia.
    - exists zsl. split_and!; [done..|lia]. }
  destruct Hraise as (zsl0 & -> & Hr0 & Hh0 & Hv0). destruct (zslCreateNode zsl0 lv sc (Some e)) as [x zsl1] eqn:Ecr.
  destruct (insert_tail zsl0 (take k ts) (drop k ts) loose sc e lv x zsl1) as (zsl' & Htail & Hr' & Hh' & Hv').
  - by rewrite take_drop.
  - lia.
  - done.
  - apply (towers_insert ts sc e k); [apply Hr|apply Hr|done..].
  - done.
  - by rewrite take_drop.
  - cbn zeta in Htail. rewrite Hh0 in Htail. rewrite Htail. exists k, x, zsl'. split; [done|]. cbn zeta. split_and!; [done| |congruence|done].
    unfold zsl_top in *. rewrite Hv', Hv0. destruct (Z.max_spec lv (level zsl)) as [[Hm ->]|[Hm ->]].
    + destruct Htop as [?|He]; [by left|right]. rewrite <- (take_drop k ts) in He. apply Exists_app in He as [He|He]; apply Exists_app; [by left|right].
      apply Exists_cons. by right.
    + right. apply Exists_app. right. apply Exists_cons. left. simpl. lia.
Qed.
End Ops.
