(* ===== verification/SkiplistDel.v ===== *)
(** Deletion from skip lists: zslDeleteNode, zslFreeNode, zslDelete and zslUpdateScore. *)

From stdpp Require Import gmap sorting.
From S2P Require Import Prelude Machine Double SetType Skiplist ZOrder SkiplistInv SkiplistUpd SkiplistOps.

Implicit Types (t : tower) (ts l r loose : list tower) (i k q : nat) (zsl : zskiplist).

Section Del.
Context (usable : Z -> Z) (sdsAllocSize : sds -> Z) (zsl_size : Z) (junk : zskiplistLevel).
Notation zsl_rep := (zsl_rep usable sdsAllocSize zsl_size).
Notation sizes := (sizes usable sdsAllocSize).

Lemma link_forward i r a : forward (link i r) = Some a -> a ∈ t_addr <$> r.
Proof.
  induction r as [|t r IH]; simpl; [done|]. case_decide; simpl; [intros [= <-]; left|]. intros Ha. right. auto.
Qed.

Lemma addrs_swap l t r loose :
  (t_addr <$> (l ++ t :: r) ++ loose) ≡ₚ t_addr <$> (l ++ r) ++ t :: loose.
Proof. rewrite !fmap_app. simpl. rewrite <- !Permutation_middle. done. Qed.

Lemma middle_out zsl l t r loose : zsl_rep zsl (l ++ t :: r) loose -> t_addr t ∉ header zsl :: (t_addr <$> (l ++ r) ++ loose).
Proof.
  intros Hr. pose proof (zr_addrs _ _ _ _ _ _ Hr) as Hnd. rewrite !fmap_app in *. simpl in Hnd.
  rewrite <- Permutation_middle in Hnd. rewrite <- app_comm_cons, perm_swap in Hnd. by apply list.NoDup_cons in Hnd as [Hnd _].
Qed.

(** The addresses in update, as the caller's search left them. *)
Definition update_ok (h : Z) l (update : list Z) (n : nat) : Prop :=
  forall i, (i < n)%nat -> update !! i = Some (addr_at h l (upd i l)).

Lemma updates_ok h l n : update_ok h l (updates h l n).*1 n.
Proof. intros i Hi. by rewrite list_lookup_fmap, updates_lookup. Qed.

Lemma update_ok_le h l us n m : update_ok h l us n -> (m <= n)%nat -> update_ok h l us m.
Proof. intros Hu Hm i Hi. apply Hu. lia. Qed.

Section Unlink.
Context (zsl : zskiplist) (l r loose : list tower) (t : tower) (update : list Z).
Hypothesis Hr : zsl_rep zsl (l ++ t :: r) loose.
Hypothesis Hu : update_ok (header zsl) l update (Z.to_nat (level zsl)).

Lemma unlink_loop : exists zsl1, for_levels (Z.to_nat (level zsl)) 0 (unlink_level (t_addr t) update) zsl = Ok zsl1 /\ relinked zsl zsl1 /\
  forall a j, cell (nodes zsl1) a j =
    if decide (j < Z.to_nat (level zsl) /\ a = addr_at (header zsl) l (upd j l))%nat then Some (link j (drop (upd j l) (l ++ r)))
    else cell (nodes zsl) a j.
Proof.
  pose (W := fun j a => if decide (a = addr_at (header zsl) l (upd j l)) then Some (link j (drop (upd j l) (l ++ r))) else None).
  destruct (for_levels_spec W (unlink_level (t_addr t) update) (Z.to_nat (level zsl)) 0 zsl) as (zsl1 & Hf & Hre & Hc).
  - intros j zsl0 Hj _ Hc0. unfold unlink_level. rewrite (proj2 (get1_Ok _ _ _)) by (rewrite Nat2Z.id; split; [lia|by apply Hu; lia]).
    pose proof (rep_upd_cell _ _ _ _ _ _ _ j Hr ltac:(lia)) as Hcell. rewrite <- Hc0 in Hcell. rewrite (cell_get _ _ _ _ Hcell).
    destruct (link_insert j l t r (upd j l) (upd_le j l) (upd_ok j l)) as (_ & L2 & L3 & L4). specialize (L2 eq_refl).
    pose proof (link_span j r) as Hs. pose proof (upd_le j l). pose proof (zr_small _ _ _ _ _ _ Hr) as Hsm. rewrite length_app in Hsm. simpl in Hsm.
    assert (Hwrite : exists za, set_level zsl0 (addr_at (header zsl) l (upd j l)) (Z.of_nat j) (link j (drop (upd j l) (l ++ r))) = Ok za /\
      relinked zsl0 za /\ forall a j', cell (nodes za) a j' =
        if decide (j' = j) then match W j a with Some v => Some v | None => cell (nodes zsl0) a j end else cell (nodes zsl0) a j').
    { destruct (set_level_spec zsl0 _ j _ (link j (drop (upd j l) (l ++ r))) Hcell) as (za & -> & Hrea & Hca).
      exists za. split; [done|]. split; [done|]. intros a j'. rewrite Hca. unfold W. repeat case_decide; naive_solver. }
    destruct Hwrite as (za & Hwr & Hza). exists za. split; [|done]. rewrite <- Hwr. destruct (decide (high j t)) as [Hh|Hh].
    + rewrite (L3 eq_refl Hh). cbn [forward span]. rewrite bool_decide_eq_true_2 by done.
      assert (cell (nodes zsl0) (t_addr t) j = Some (link j r)) as Hx.
      { rewrite Hc0, (zr_cell _ _ _ _ _ _ Hr (length l) t j) by (done || by rewrite list_lookup_middle).
        replace (S (length l)) with (length l + 1)%nat by lia. by rewrite drop_app_add. }
      rewrite (cell_get _ _ _ _ Hx). f_equal. rewrite L2. f_equal.
      unfold u64, u. rewrite Zplus_mod_idemp_r. replace (_ + 1 + (span (link j r) - 1)) with (Z.of_nat (length l - upd j l) + span (link j r)) by lia.
      apply (u_id 64). pow_const. lia.
    + rewrite (L4 eq_refl Hh). cbn [forward span]. rewrite bool_decide_eq_false_2.
      * f_equal. destruct (link j (drop (upd j l) (l ++ r))) as [f s]. cbn [forward span] in *. injection L2 as -> ->. f_equal.
        rewrite u_id by (pow_const; lia). lia.
      * rewrite L2. cbn [forward]. intros Ha%link_forward. apply (middle_out _ _ _ _ _ Hr). right. rewrite !fmap_app.
        apply elem_of_app. left. apply elem_of_app. by right.
  - exists zsl1. split; [done|]. split; [done|]. intros a j. rewrite Hc. unfold W. repeat case_decide; naive_solver lia.
Qed.

(** The state [z] after the last pointers have been set. *)
Context (z : zskiplist).
Hypothesis Hcell : forall a j, cell (nodes z) a j =
    if decide (j < Z.to_nat (level zsl) /\ a = addr_at (header zsl) l (upd j l))%nat then Some (link j (drop (upd j l) (l ++ r)))
    else cell (nodes zsl) a j.
Hypothesis Hbody : forall a, body (nodes z) a =
    if decide (Some a = t_addr <$> head r) then (fun b => (b.1.1.1, b.1.1.2, prev_addr l (length l), b.2)) <$> body (nodes zsl) a
    else body (nodes zsl) a.

Lemma del_right p t' : (l ++ r) !! p = Some t' -> (length l <= p)%nat -> (l ++ t :: r) !! (S p) = Some t'.
Proof.
  intros Hp Hle. rewrite lookup_app_r in Hp by lia. rewrite lookup_app_r by lia.
  by replace (S p - length l)%nat with (S (p - length l)) by lia.
Qed.

Lemma del_left p t' : (l ++ r) !! p = Some t' -> (p < length l)%nat -> (l ++ t :: r) !! p = Some t'.
Proof. intros Hp Hlt. rewrite lookup_app_l in Hp by done. by rewrite lookup_app_l. Qed.

Lemma del_head p t' : (l ++ t :: r) !! p = Some t' -> Some (t_addr t') = t_addr <$> head r <-> p = S (length l).
Proof.
  intros Hp. destruct r as [|t0 r'] eqn:Er; simpl.
  - split; [done|]. intros ->. rewrite lookup_app_r in Hp by lia. by replace (S (length l) - length l)%nat with 1%nat in Hp by lia.
  - assert ((l ++ t :: t0 :: r') !! S (length l) = Some t0) as H0
      by (rewrite lookup_app_r by lia; by replace (S (length l) - length l)%nat with 1%nat by lia).
    split; [intros [= E]; by eapply addr_inj|]. intros ->. by simplify_eq.
Qed.

Lemma delete_body p t' : (l ++ r) !! p = Some t' ->
  body (nodes z) (t_addr t') = Some (Some (t_ele t'), t_score t', prev_addr (l ++ r) p, t_height t').
Proof.
  intros Hp. rewrite Hbody. destruct (decide (p < length l)%nat) as [Hlt|Hge].
  - pose proof (del_left p t' Hp Hlt) as Hp'. rewrite decide_False by (rewrite (del_head p t' Hp'); lia).
    rewrite (zr_body _ _ _ _ _ _ Hr p t' Hp'). by rewrite !prev_addr_app by lia.
  - pose proof (del_right p t' Hp ltac:(lia)) as Hp'. rewrite (zr_body _ _ _ _ _ _ Hr _ t' Hp').
    case_decide as Hd; rewrite (del_head _ t' Hp') in Hd.
    + injection Hd as ->. simpl. by rewrite prev_addr_app.
    + destruct p as [|p]; [lia|]. cbn [prev_addr]. rewrite !lookup_app_r by lia.
      by replace (S p - length l)%nat with (S (p - length l)) by lia.
Qed.

(** A position in [l] or the header. *)
Lemma delete_left p i :
  (p <= length l)%nat -> (i < Z.to_nat (level zsl))%nat ->
  (match p with O => True | S q => exists t, l !! q = Some t /\ high i t end) ->
  cell (nodes z) (addr_at (header zsl) l p) i = Some (link i (drop p (l ++ r))).
Proof.
  intros Hp Hi Hh. rewrite Hcell. case_decide as Hd.
  - destruct Hd as [_ Hd]. apply addr_at_inj in Hd as <-; [done|by eapply rep_nodup|done|apply upd_le].
  - rewrite (rep_cell _ _ _ _ _ _ _ p i Hr Hp Hi Hh). destruct (link_insert i l t r p Hp Hh) as (L1 & _).
    rewrite L1; [done|]. intros ->. by apply Hd.
Qed.

Lemma delete_right p t' i : (l ++ r) !! p = Some t' -> (length l <= p)%nat -> high i t' ->
  cell (nodes z) (t_addr t') i = Some (link i (drop (S p) (l ++ r))).
Proof.
  intros Hp Hge Hi. pose proof (del_right p t' Hp Hge) as Hp'. rewrite Hcell, decide_False.
  - rewrite (zr_cell _ _ _ _ _ _ Hr _ t' i Hp' Hi). replace (S (S p)) with (length l + S (S (p - length l)))%nat by lia.
    replace (S p) with (length l + S (p - length l))%nat by lia. by rewrite !drop_app_add.
  - intros [_ E]. pose proof (upd_le i l) as Hle. destruct (upd i l) as [|q] eqn:Eu; simpl in E.
    + eapply addr_header; [exact Hr| |exact E]. apply elem_of_app. left. by eapply list_elem_of_lookup_2.
    + destruct (lookup_lt_is_Some_2 l q ltac:(lia)) as [t0 Ht0]. rewrite Ht0 in E. simpl in E.
      assert (S p = q); [|lia]. eapply addr_inj; [exact Hr|exact Hp'| |exact E]. by apply lookup_app_l_Some.
Qed.

Lemma delete_rep :
  header z = header zsl -> tail z = t_addr <$> list.last (l ++ r) -> zlen z = zlen zsl - 1 -> level z = level zsl ->
  alloc_size z = alloc_size zsl -> next_addr z = next_addr zsl ->
  zsl_rep z (l ++ r) (t :: loose).
Proof.
  intros Hh Ht Hlen Hlev Hal Hna. pose proof (addrs_swap l t r loose) as Hswap.
  split; rewrite ?Hh, ?Hlev, ?Hal, ?Hna; try done.
  - apply delete_body.
  - intros p t' i Hp Hi. destruct (decide (p < length l)%nat) as [Hlt|Hge]; [|apply delete_right; [done|lia|done]].
    pose proof (Forall_lookup_1 _ _ _ _ (zr_heights _ _ _ _ _ _ Hr) (del_left p t' Hp Hlt)) as Hht.
    rewrite lookup_app_l in Hp by done. replace (t_addr t') with (addr_at (header zsl) l (S p)) by (simpl; by rewrite Hp).
    apply delete_left; [lia| |by exists t']. unfold high in Hi. simpl in Hht. lia.
  - rewrite Hbody, decide_False; [apply Hr|]. destruct r as [|t0 r'] eqn:Er; [done|]. intros [= E].
    eapply addr_header; [exact Hr| |symmetry; exact E]. apply elem_of_app. left. apply elem_of_app. right. right. left.
  - intros i Hi. rewrite <- (drop_0 (l ++ r)). apply (delete_left 0); [lia|done|done].
  - intros i Hi. rewrite Hcell, decide_False by lia. by apply Hr.
  - apply Hr.
  - pose proof (zr_heights _ _ _ _ _ _ Hr) as Hf. apply Forall_app in Hf as [H1 H2]. apply Forall_cons_1 in H2 as [_ H2]. by apply Forall_app.
  - rewrite Hlen, (zr_len _ _ _ _ _ _ Hr), !length_app. simpl. lia.
  - pose proof (zr_small _ _ _ _ _ _ Hr) as Hs. rewrite length_app in *. simpl in Hs. lia.
  - rewrite <- Hswap. apply Hr.
  - rewrite <- Hswap. apply Hr.
  - intros a. rewrite <- Hswap, <- (zr_dom _ _ _ _ _ _ Hr), <- !body_alive, Hbody. case_decide; [by rewrite fmap_is_Some|done].
  - intros t' Ht'. rewrite Hbody. assert (exists b, body (nodes zsl) (t_addr t') = Some (Some (t_ele t'), t_score t', b, t_height t')) as [b Hb].
    { rewrite elem_of_cons in Ht'. destruct Ht' as [->|Ht']; [|by apply (zr_loose _ _ _ _ _ _ Hr)]. eexists.
      apply (zr_body _ _ _ _ _ _ Hr (length l)). by rewrite list_lookup_middle. }
    rewrite Hb. case_decide; by eexists.
  - pose proof (zr_nan _ _ _ _ _ _ Hr) as Hf. apply Forall_app in Hf as [H1 H2]. apply Forall_cons_1 in H2 as [_ H2]. by apply Forall_app.
  - pose proof (zr_sorted _ _ _ _ _ _ Hr) as Hf. apply StronglySorted_app in Hf as (Hx & H1 & H2). apply StronglySorted_inv in H2 as [H2 _].
    apply StronglySorted_app. split_and!; [|done|done]. intros t1 t2 Ht1 Ht2. apply Hx; [done|by right].
  - rewrite (zr_alloc _ _ _ _ _ _ Hr), !sizes_app. simpl. f_equal. lia.
Qed.
End Unlink.

(** * zslDeleteNode *)

Lemma lower_length fuel : forall zsl n,
  lower_level fuel (set_length zsl n) = (let! z := lower_level fuel zsl in Ok (set_length z n)).
Proof.
  induction fuel as [|fuel IH]; intros zsl n; [done|]. cbn [lower_level]. change (level (set_length zsl n)) with (level zsl).
  destruct (level zsl >? 1); [|done]. change (get_level (set_length zsl n)) with (get_level zsl).
  change (header (set_length zsl n)) with (header zsl). destruct (get_level zsl _ _) as [c|]; [|done].
  destruct (forward c); [done|]. rewrite <- (IH (set_zlevel zsl (level zsl - 1)) n). done.
Qed.

Lemma set_zlevel_rep zsl ts loose :
  zsl_rep zsl ts loose -> 1 < level zsl -> Forall (fun t => ~ high (Z.to_nat (level zsl - 1)) t) ts ->
  zsl_rep (set_zlevel zsl (level zsl - 1)) ts loose.
Proof.
  intros [R1 R2 R3 R4 R5 R6 R7 R8 R9 R10 R11 R12 R13 R14 R15 R16 R17] Hl Hlow.
  split; cbn [header tail zlen level alloc_size nodes next_addr set_zlevel]; try done.
  - intros i Hi. apply R4. lia.
  - intros i Hi. destruct (decide (Z.to_nat (level zsl) <= i)%nat) as [Hle|Hlt]; [apply R5; lia|].
    rewrite R4 by lia. rewrite link_all_low; [done|]. by replace i with (Z.to_nat (level zsl - 1)) by lia.
  - unfold ZSKIPLIST_MAXLEVEL in *. lia.
  - rewrite list.Forall_forall in *. intros t Ht. specialize (R7 t Ht). specialize (Hlow t Ht). unfold high in Hlow. simpl in *. lia.
Qed.

Lemma lower_spec fuel : forall zsl ts loose,
  zsl_rep zsl ts loose -> (Z.to_nat (level zsl) <= fuel)%nat ->
  exists zsl', lower_level fuel zsl = Ok zsl' /\ zsl_rep zsl' ts loose /\ zsl_top zsl' ts /\ header zsl' = header zsl /\ level zsl' <= level zsl /\
    nodes zsl' = nodes zsl.
Proof.
  induction fuel as [|fuel IH]; intros zsl ts loose Hr Hf; pose proof (zr_level _ _ _ _ _ _ Hr) as Hl1; [lia|].
  cbn [lower_level]. destruct (Z.gtb_spec (level zsl) 1) as [Hgt|Hle].
  - pose proof (cell_get zsl _ _ _ (zr_links _ _ _ _ _ _ Hr (Z.to_nat (level zsl - 1)) ltac:(lia))) as Hg.
    rewrite Z2Nat.id in Hg by lia. rewrite Hg.
    destruct (link_cases (Z.to_nat (level zsl - 1)) ts) as [[Hlow ->]|(s & t & r & -> & _ & Ht & ->)]; cbn [forward].
    + destruct (IH (set_zlevel zsl (level zsl - 1)) ts loose) as (zsl' & -> & Hr' & Ht' & Hh' & Hv' & Hn').
      * apply set_zlevel_rep; [done|lia|done].
      * cbn [level set_zlevel]. lia.
      * exists zsl'. simpl in *. split_and!; try done. lia.
    + exists zsl. split_and!; try done. right. apply Exists_app. right. apply Exists_cons. left.
      pose proof (zr_heights _ _ _ _ _ _ Hr) as Hhs. apply Forall_app in Hhs as [_ Hhs]. apply Forall_cons_1 in Hhs as [Hhs _].
      unfold high in Ht. simpl in Hhs. lia.
  - exists zsl. split_and!; try done. left. lia.
Qed.

(** The backward link of the next node, or the tail. *)
Lemma unlink_backward zsl zsl1 l t r loose :
  zsl_rep zsl (l ++ t :: r) loose -> same_shell zsl zsl1 -> (forall a, body (nodes zsl1) a = body (nodes zsl) a) ->
  exists zsl2, (match t_addr <$> head r with Some y => set_backward zsl1 y (prev_addr l (length l)) | None => Ok (set_tail zsl1 (prev_addr l (length l))) end) = Ok zsl2 /\
    header zsl2 = header zsl /\ tail zsl2 = t_addr <$> list.last (l ++ r) /\ zlen zsl2 = zlen zsl /\ level zsl2 = level zsl /\
    alloc_size zsl2 = alloc_size zsl /\ next_addr zsl2 = next_addr zsl /\ (forall a j, cell (nodes zsl2) a j = cell (nodes zsl1) a j) /\
    forall a, body (nodes zsl2) a =
      if decide (Some a = t_addr <$> head r) then (fun b => (b.1.1.1, b.1.1.2, prev_addr l (length l), b.2)) <$> body (nodes zsl) a else body (nodes zsl) a.
Proof.
  intros Hr (Hh1 & Ht1 & Hn1 & Hv1 & Ha1 & Hx1) Hb1. destruct r as [|t0 r'] eqn:Er; cbn [head fmap option_fmap option_map].
  - eexists. split; [done|]. simpl. split_and!; try done. rewrite app_nil_r. apply prev_last.
  - assert ((l ++ t :: t0 :: r') !! S (length l) = Some t0) as H0
      by (rewrite lookup_app_r by lia; by replace (S (length l) - length l)%nat with 1%nat by lia).
    pose proof (zr_body _ _ _ _ _ _ Hr _ _ H0) as Hb0.
    destruct (set_backward_spec zsl1 (t_addr t0) (prev_addr l (length l)) _ _ _ _ ltac:(by rewrite Hb1)) as (zsl2 & Hs2 & (Hh2 & Ht2 & Hn2 & Hv2 & Ha2 & Hx2) & Hb2 & Hc2).
    exists zsl2. split_and!; try congruence.
    + rewrite Ht2, Ht1, (zr_tail _ _ _ _ _ _ Hr), !last_app_cons. done.
    + intros a. rewrite Hb2, Hb1. repeat case_decide; simplify_eq; try done. by rewrite Hb0.
Qed.

Lemma lower_zlen fuel : forall z0 z, lower_level fuel z0 = Ok z -> zlen z = zlen z0.
Proof.
  induction fuel as [|fuel IH]; intros z0 z; simpl; [done|]. destruct (_ >? 1); [|by intros [= <-]].
  destruct (get_level _ _ _) as [c|]; [|done]. destruct (forward c); [by intros [= <-]|]. intros Hx. by apply IH in Hx.
Qed.

Lemma deleteNode_spec zsl l t r loose update :
  zsl_rep zsl (l ++ t :: r) loose -> update_ok (header zsl) l update (Z.to_nat (level zsl)) ->
  exists zsl', zslDeleteNode zsl (t_addr t) update = Ok zsl' /\ zsl_rep zsl' (l ++ r) (t :: loose) /\ zsl_top zsl' (l ++ r) /\
    header zsl' = header zsl /\ level zsl' <= level zsl.
Proof.
  intros Hr Hu. unfold zslDeleteNode. destruct (unlink_loop zsl l r loose t update Hr Hu) as (zsl1 & -> & [Hsh Hb1] & Hc1).
  pose proof Hsh as (Hh1 & Ht1 & Hn1 & Hv1 & Ha1 & Hx1).
  assert (Htt : (l ++ t :: r) !! length l = Some t) by by rewrite list_lookup_middle.
  destruct (body_deref zsl1 (t_addr t) (Some (t_ele t)) (t_score t) (prev_addr l (length l)) (t_height t)) as (n & Hd & Hnn & _ & _ & Hbk & _).
  { rewrite Hb1, (zr_body _ _ _ _ _ _ Hr _ _ Htt). by rewrite prev_addr_app. }
  rewrite Hd, Hbk.
  assert (Hhi : Forall (high 0) (l ++ t :: r)) by (by eapply high_zero). apply Forall_app in Hhi as [Hhl Hhr]. apply Forall_cons_1 in Hhr as [Hht Hhr].
  assert (cell (nodes zsl1) (t_addr t) 0 = Some (link 0 r)) as Hcx.
  { rewrite Hc1, decide_False.
    - rewrite (zr_cell _ _ _ _ _ _ Hr _ _ 0 Htt Hht). replace (S (length l)) with (length l + 1)%nat by lia. by rewrite drop_app_add.
    - intros [_ E]. apply (middle_out _ _ _ _ _ Hr). rewrite E. pose proof (addr_at_elem (header zsl) l (upd 0 l)) as Hin.
      rewrite !fmap_app. rewrite elem_of_cons in *. destruct Hin as [?|?]; [by left|right]. apply elem_of_app. left. apply elem_of_app. by left. }
  unfold cell in Hcx. rewrite Hnn in Hcx. simpl in Hcx. rewrite (proj2 (get1_Ok _ _ _)) by (split; [lia|exact Hcx]).
  assert (Hfwd : forward (link 0 r) = t_addr <$> head r).
  { destruct r as [|t0 r']; [done|]. simpl. apply Forall_cons_1 in Hhr as [? _]. by rewrite decide_True. }
  rewrite Hfwd.
  destruct (unlink_backward zsl zsl1 l t r loose Hr Hsh Hb1) as (zsl2 & -> & Hh2 & Ht2 & Hn2 & Hv2 & Ha2 & Hx2 & Hc2 & Hb2).
  pose proof (zr_len _ _ _ _ _ _ Hr) as Hlen. pose proof (zr_small _ _ _ _ _ _ Hr) as Hsm. rewrite length_app in Hlen, Hsm. simpl in Hlen, Hsm.
  assert (zsl_rep (set_length zsl2 (zlen zsl - 1)) (l ++ r) (t :: loose)) as Hr2
    by (apply (delete_rep zsl l r loose t Hr); try done; intros a j; simpl; by rewrite Hc2, Hc1).
  destruct (lower_spec (Z.to_nat (level zsl)) _ _ _ Hr2) as (zsl3 & Hlow & Hr3 & Htop & Hh3 & Hv3 & _); [simpl; lia|].
  rewrite lower_length in Hlow. rewrite Hv2. destruct (lower_level (Z.to_nat (level zsl)) zsl2) as [z|] eqn:Ez; [|done]. injection Hlow as <-.
  exists (set_length z (zlen zsl - 1)). split; [|simpl in *; split_and!; try done; lia].
  rewrite (lower_zlen _ _ _ Ez), Hn2. by rewrite u_id by (pow_const; lia).
Qed.

(** * zslFreeNode *)

Lemma freeNode_spec zsl ts t loose :
  zsl_rep zsl ts (t :: loose) ->
  exists zsl', zslFreeNode usable sdsAllocSize zsl (t_addr t) = Ok zsl' /\ zsl_rep zsl' ts loose /\
    header zsl' = header zsl /\ level zsl' = level zsl.
Proof.
  intros [R1 R2 R3 R4 R5 R6 R7 R8 R9 R10 R11 R12 R13 R14 R15 R16 R17]. destruct (R14 t ltac:(left)) as [b Hb].
  destruct (body_deref zsl _ _ _ _ _ Hb) as (n & Hd & Hn & He & _ & _ & Hlv). unfold zslFreeNode. rewrite Hd, He, Hlv.
  eexists. split; [done|]. split; [|done].
  assert (Hperm : (header zsl :: (t_addr <$> ts ++ t :: loose)) ≡ₚ t_addr t :: header zsl :: (t_addr <$> ts ++ loose))
    by (rewrite !fmap_app; simpl; by rewrite <- Permutation_middle, perm_swap).
  rewrite Hperm in R11, R12. apply list.NoDup_cons in R11 as [Hout R11]. apply Forall_cons_1 in R12 as [_ R12].
  assert (Hkeep : forall a, a ∈ header zsl :: (t_addr <$> ts ++ loose) -> delete (t_addr t) (nodes zsl) !! a = nodes zsl !! a)
    by (intros a Ha; apply lookup_delete_ne; intros <-; done).
  assert (Hts : forall t' p, ts !! p = Some t' -> t_addr t' ∈ header zsl :: (t_addr <$> ts ++ loose))
    by (intros t' p Hp; right; apply fmap_addr_elem, elem_of_app; left; by eapply list_elem_of_lookup_2).
  split; cbn [header tail zlen level alloc_size nodes next_addr]; try done.
  - intros p t' Hp. unfold body. rewrite Hkeep by eauto. by apply R1.
  - intros p t' i Hp Hi. unfold cell. rewrite Hkeep by eauto. by apply R2.
  - unfold body. rewrite Hkeep by left. done.
  - intros i Hi. unfold cell. rewrite Hkeep by left. by apply R4.
  - intros i Hi. unfold cell. rewrite Hkeep by left. by apply R5.
  - intros a. destruct (decide (a = t_addr t)) as [->|Hne].
    + rewrite lookup_delete_eq. split; [by intros []|done].
    + rewrite lookup_delete_ne by done. rewrite R13, Hperm, (elem_of_cons _ _ (t_addr t)). naive_solver.
  - intros t' Ht'. unfold body. rewrite Hkeep by (right; apply fmap_addr_elem, elem_of_app; by right). apply R14. by right.
  - rewrite R17, !sizes_app. simpl. unfold t_size, u64, u. rewrite Zminus_mod_idemp_l, <- Z.sub_add_distr, Zminus_mod_idemp_l. f_equal. lia.
Qed.

Lemma free_top zsl zsl' ts : zsl_top zsl ts -> level zsl' = level zsl -> zsl_top zsl' ts.
Proof. unfold zsl_top. by intros ? ->. Qed.

(** Freeing a node whose string has been taken over. *)
Lemma free_without_ele zsl x n xe :
  nodes zsl !! x = Some n -> ele n = Some xe ->
  zslFreeNode usable sdsAllocSize (mkZsl (header zsl) (tail zsl) (zlen zsl) (level zsl) (u64 (alloc_size zsl - sdsAllocSize xe))
    (<[x := mkZNode None (score n) (backward n) (levels n)]> (nodes zsl)) (next_addr zsl)) x =
  zslFreeNode usable sdsAllocSize zsl x.
Proof.
  intros Hn He. unfold zslFreeNode, deref. simpl. rewrite lookup_insert_eq, Hn. simpl. rewrite He. by rewrite delete_insert_eq.
Qed.

(** * zslDelete *)

(** The search for a member that is there ends just before it. *)
Lemma position_here zsl l t r loose sc k :
  zsl_rep zsl (l ++ t :: r) loose -> deq sc (t_score t) = true -> position (l ++ t :: r) sc (t_ele t) k -> k = length l.
Proof.
  intros Hr Hd [Hk Hpos]. pose proof (zr_nan _ _ _ _ _ _ Hr) as Hnn. pose proof (deq_num _ _ Hd) as [Hsc Hst].
  assert (Hiff : forall p t', (l ++ t :: r) !! p = Some t' -> mlt (t_key t') (t_key t) <-> (p < k)%nat).
  { intros p t' Hp. rewrite <- (Hpos p t' Hp). apply mlt_deq_r; try done.
    - by apply (Forall_lookup_1 _ _ _ _ Hnn Hp).
    - by rewrite deq_sym. }
  pose proof (zr_sorted _ _ _ _ _ _ Hr) as Hs. apply StronglySorted_app in Hs as (Hcross & _ & _).
  destruct (lt_eq_lt_dec k (length l)) as [[Hlt|?]|Hgt]; [|done|]; exfalso.
  - destruct (lookup_lt_is_Some_2 l k Hlt) as [t' Ht']. specialize (Hiff k t' ltac:(by apply lookup_app_l_Some)).
    assert (k < k)%nat; [|lia]. apply Hiff. apply Hcross; [by eapply list_elem_of_lookup_2|left].
  - specialize (Hiff (length l) t ltac:(by rewrite list_lookup_middle)). by apply (mlt_irrefl (t_key t)), Hiff.
Qed.

Lemma take_drop_middle_eq l t r : take (length l) (l ++ t :: r) = l /\ drop (length l) (l ++ t :: r) = t :: r.
Proof. by rewrite take_app_length, drop_app_length. Qed.

Lemma search_before zsl ts loose sc e :
  zsl_rep zsl ts loose -> isnan sc = false ->
  exists k, position ts sc e k /\ search zsl (before sc e) = Ok (updates (header zsl) (take k ts) (Z.to_nat (level zsl))) /\
    successor zsl (updates (header zsl) (take k ts) (Z.to_nat (level zsl))) = Ok (t_addr <$> ts !! k).
Proof.
  intros Hr Hnan. destruct (before_cut _ _ _ zsl ts loose sc e Hr Hnan) as (k & Hcut & Hpos). exists k.
  split; [split; [apply Hcut|done]|]. split; [by eapply search_spec|]. unfold successor.
  pose proof (zr_level _ _ _ _ _ _ Hr) as Hl1. pose proof (high_zero _ _ _ _ _ _ Hr) as Hh.
  change 0 with (Z.of_nat 0). rewrite updates_get by lia.
  rewrite (cell_get zsl _ 0 (link 0 (drop (upd 0 (take k ts)) ts))).
  - rewrite upd_zero by by apply Forall_take. destruct Hcut as [Hk _]. rewrite length_take_le by lia.
    destruct (ts !! k) as [t|] eqn:Et.
    + rewrite (drop_S _ _ _ Et). simpl. rewrite decide_True; [done|]. by apply (Forall_lookup_1 _ _ _ _ Hh Et).
    + apply lookup_ge_None in Et. by rewrite drop_ge.
  - assert (zsl_rep zsl (take k ts ++ drop k ts) loose) as Hr' by by rewrite take_drop.
    rewrite (rep_upd_cell _ _ _ _ _ _ _ 0 Hr') by lia. by rewrite take_drop.
Qed.

Lemma zslDelete_found zsl l t r loose sc keep :
  zsl_rep zsl (l ++ t :: r) loose -> deq sc (t_score t) = true ->
  exists zsl', zslDelete usable sdsAllocSize zsl sc (t_ele t) keep = Ok (true, if keep then Some (t_addr t) else None, zsl') /\
    zsl_rep zsl' (l ++ r) (if keep then t :: loose else loose) /\ zsl_top zsl' (l ++ r) /\ header zsl' = header zsl.
Proof.
  intros Hr Hd. destruct (deq_num _ _ Hd) as [Hsc _].
  destruct (search_before zsl _ loose sc (t_ele t) Hr Hsc) as (k & Hpos & Hsearch & Hsucc).
  apply (position_here zsl l t r loose sc k Hr Hd) in Hpos as ->. destruct (take_drop_middle_eq l t r) as [Et _]. rewrite Et in *.
  assert (Htt : (l ++ t :: r) !! length l = Some t) by by rewrite list_lookup_middle.
  unfold zslDelete. rewrite Hsearch, Hsucc, Htt. cbn [fmap option_fmap option_map].
  destruct (body_deref zsl _ _ _ _ _ (zr_body _ _ _ _ _ _ Hr _ _ Htt)) as (n & -> & _ & He & Hs & _). unfold ele_of. rewrite Hs, He, Hd.
  rewrite (proj2 (sdscmp_zero _ _) eq_refl). cbn [Z.eqb].
  destruct (deleteNode_spec zsl l t r loose _ Hr (updates_ok _ _ _)) as (zsl1 & -> & Hr1 & Htop & Hh1 & _). destruct keep.
  - by exists zsl1.
  - destruct (freeNode_spec zsl1 (l ++ r) t loose Hr1) as (zsl2 & -> & Hr2 & Hh2 & Hv2). exists zsl2.
    split_and!; [done|done|by eapply free_top|congruence].
Qed.

Lemma zslDelete_absent zsl ts loose sc e keep :
  zsl_rep zsl ts loose -> isnan sc = false -> absent ts sc e ->
  zslDelete usable sdsAllocSize zsl sc e keep = Ok (false, None, zsl).
Proof.
  intros Hr Hsc Hab. destruct (search_before zsl ts loose sc e Hr Hsc) as (k & _ & Hsearch & Hsucc).
  unfold zslDelete. rewrite Hsearch, Hsucc. destruct (ts !! k) as [t|] eqn:Et; [|done]. cbn [fmap option_fmap option_map].
  destruct (body_deref zsl _ _ _ _ _ (zr_body _ _ _ _ _ _ Hr _ _ Et)) as (n & -> & _ & He & Hs & _). unfold ele_of. rewrite Hs, He, deq_sym.
  destruct (deq (t_score t) sc) eqn:Hd; [|done]. rewrite (proj2 (Z.eqb_neq _ _)); [done|].
  rewrite sdscmp_zero. intros E. apply (Hab t); [by eapply list_elem_of_lookup_2|done].
Qed.

(** * zslUpdateScore *)

Definition shape t : Z * nat := (t_addr t, t_height t).

Lemma link_shape i ts1 : forall ts2, shape <$> ts1 = shape <$> ts2 -> link i ts1 = link i ts2.
Proof.
  induction ts1 as [|t1 ts1 IH]; intros [|t2 ts2]; try done. rewrite !fmap_cons. intros [= Ha Hh Ht]. simpl.
  rewrite Ha, (IH ts2 Ht). repeat case_decide; unfold high in *; done || lia.
Qed.

Lemma dlt_tlt t1 t2 : dlt (t_score t1) (t_score t2) = true -> tlt t1 t2.
Proof. intros Hd. unfold tlt, mlt, mltb, t_key. simpl. by rewrite Hd. Qed.

Lemma sorted_between l t r :
  Forall (fun t => isnan (t_score t) = false) (l ++ t :: r) -> StronglySorted tlt (l ++ r) ->
  (forall t0, list.last l = Some t0 -> dlt (t_score t0) (t_score t) = true) ->
  (forall t0, head r = Some t0 -> dlt (t_score t) (t_score t0) = true) -> StronglySorted tlt (l ++ t :: r).
Proof.
  intros Hn Hs Hl Hrr. apply Forall_app in Hn as [Hnl Hnr]. apply Forall_cons_1 in Hnr as [Hnt Hnr]. rewrite list.Forall_forall in Hnl, Hnr.
  apply StronglySorted_app in Hs as (Hcross & Hsl & Hsr).
  assert (Hright : forall t', t' ∈ r -> tlt t t').
  { intros t' Ht'. destruct r as [|t0 r']; [by apply elem_of_nil in Ht'|]. pose proof (dlt_tlt _ _ (Hrr t0 eq_refl)) as H0.
    rewrite elem_of_cons in Ht'. destruct Ht' as [->|Ht']; [done|]. apply StronglySorted_inv in Hsr as [_ Hf]. rewrite list.Forall_forall in Hf.
    apply (mlt_trans _ (t_key t0)); [done|apply Hnr; left|apply Hnr; by right|done|by apply Hf]. }
  assert (Hleft : forall t', t' ∈ l -> tlt t' t).
  { intros t' Ht'. destruct l as [|t0 l0 _] using rev_ind; [by apply elem_of_nil in Ht'|]. pose proof (dlt_tlt _ _ (Hl t0 ltac:(by rewrite last_snoc))) as H0.
    apply elem_of_app in Ht' as [Ht'|Ht']; [|by apply list_elem_of_singleton in Ht' as ->]. apply StronglySorted_app in Hsl as (Hx & _ & _).
    apply (mlt_trans _ (t_key t0)); [apply Hnl, elem_of_app; by left|apply Hnl, elem_of_app; right; left|done|apply Hx; [done|left]|done]. }
  apply StronglySorted_app. split_and!; [|done|].
  - intros t1 t2 H1 H2. rewrite elem_of_cons in H2. destruct H2 as [->|H2]; [by apply Hleft|by apply Hcross].
  - constructor; [done|]. by apply list.Forall_forall.
Qed.

Lemma set_score_rep zsl l t r loose sc :
  zsl_rep zsl (l ++ t :: r) loose -> isnan sc = false ->
  let t' := mkTower (t_addr t) sc (t_ele t) (t_height t) in
  StronglySorted tlt (l ++ t' :: r) ->
  exists zsl', set_score zsl (t_addr t) sc = Ok zsl' /\ zsl_rep zsl' (l ++ t' :: r) loose /\ header zsl' = header zsl /\ level zsl' = level zsl.
Proof.
  intros Hr Hnan t' Hsorted. assert (Htt : (l ++ t :: r) !! length l = Some t) by by rewrite list_lookup_middle.
  assert (Hshape : shape <$> l ++ t' :: r = shape <$> l ++ t :: r) by by rewrite !fmap_app.
  assert (Haddr : forall lo, t_addr <$> (l ++ t' :: r) ++ lo = t_addr <$> (l ++ t :: r) ++ lo) by (intros lo; by rewrite !fmap_app).
  assert (Hlook : forall p t0, (l ++ t' :: r) !! p = Some t0 -> (p = length l /\ t0 = t') \/ (p <> length l /\ (l ++ t :: r) !! p = Some t0)).
  { intros p t0 Hp. destruct (decide (p = length l)) as [->|Hne]; [left; rewrite list_lookup_middle in Hp by done; by simplify_eq|right].
    split; [done|]. destruct (decide (p < length l)%nat); [by rewrite lookup_app_l in Hp |- * by lia|]. rewrite lookup_app_r in Hp |- * by lia.
    by replace (p - length l)%nat with (S (p - length l - 1)) in Hp |- * by lia. }
  destruct (body_deref zsl _ _ _ _ _ (zr_body _ _ _ _ _ _ Hr _ _ Htt)) as (n & Hd & Hn & He & Hs & Hb & Hlv).
  unfold set_score. rewrite Hd. eexists. split; [done|]. split; [|done].
  assert (Hbody : forall a, a <> t_addr t -> body (<[t_addr t:=mkZNode (ele n) sc (backward n) (levels n)]> (nodes zsl)) a = body (nodes zsl) a)
    by (intros a Ha; unfold body; by rewrite lookup_insert_ne).
  assert (Hcell : forall a i, cell (<[t_addr t:=mkZNode (ele n) sc (backward n) (levels n)]> (nodes zsl)) a i = cell (nodes zsl) a i)
    by (intros a i; unfold cell; destruct (decide (a = t_addr t)) as [->|Ha]; [by rewrite lookup_insert_eq, Hn|by rewrite lookup_insert_ne]).
  assert (Hprev : forall p, prev_addr (l ++ t' :: r) p = prev_addr (l ++ t :: r) p).
  { intros [|p]; [done|]. cbn [prev_addr]. specialize (Haddr []). rewrite !app_nil_r in Haddr. by rewrite <- !list_lookup_fmap, Haddr. }
  assert (Hne : forall a, a ∈ header zsl :: (t_addr <$> (l ++ r) ++ loose) -> a <> t_addr t) by (intros a Ha ->; by apply (middle_out _ _ _ _ _ Hr)).
  destruct Hr as [R1 R2 R3 R4 R5 R6 R7 R8 R9 R10 R11 R12 R13 R14 R15 R16 R17].
  split; cbn [header tail zlen level alloc_size nodes next_addr set_nodes]; rewrite ?Haddr; try done.
  - intros p t0 Hp. rewrite Hprev. destruct (Hlook p t0 Hp) as [[-> ->]|[Hpl Hp']].
    + unfold body. simpl. rewrite lookup_insert_eq. simpl. by rewrite He, Hb, Hlv.
    + rewrite Hbody; [by apply R1|]. intros E. apply Hpl. eapply (addr_inj usable sdsAllocSize zsl_size zsl (l ++ t :: r) loose); [by split|done|done|done].
  - intros p t0 i Hp Hi. rewrite Hcell. rewrite (link_shape i _ (drop (S p) (l ++ t :: r))) by (by rewrite !fmap_drop, Hshape).
    destruct (Hlook p t0 Hp) as [[-> ->]|[Hpl Hp']]; [by apply (R2 (length l) t)|by apply R2].
  - rewrite Hbody; [done|]. apply Hne. left.
  - intros i Hi. rewrite Hcell. rewrite (link_shape i _ (l ++ t :: r)) by done. by apply R4.
  - intros i Hi. rewrite Hcell. by apply R5.
  - apply Forall_app in R7 as [H1 H2]. apply Forall_cons_1 in H2 as [H2 H3]. apply Forall_app. split; [done|by constructor].
  - rewrite R8, <- !fmap_last. specialize (Haddr []). by rewrite !app_nil_r in Haddr; rewrite Haddr.
  - rewrite R9, !length_app. done.
  - rewrite length_app in *. done.
  - intros a. rewrite <- R13. destruct (decide (a = t_addr t)) as [->|Ha]; [by rewrite lookup_insert_eq, Hn|by rewrite lookup_insert_ne].
  - intros t0 Ht0. rewrite Hbody; [by apply R14|]. apply Hne. right. apply fmap_addr_elem, elem_of_app. by right.
  - apply Forall_app in R15 as [H1 H2]. apply Forall_cons_1 in H2 as [H2 H3]. apply Forall_app. split; [done|by constructor].
  - rewrite R17, !sizes_app. done.
Qed.

(** The tests of the neighbours in zslUpdateScore. *)
Lemma neighbours zsl l t r loose sc n :
  zsl_rep zsl (l ++ t :: r) loose -> nodes zsl !! t_addr t = Some n ->
  backward n = prev_addr l (length l) /\ get1 0 (levels n) = Ok (link 0 r) /\ forward (link 0 r) = t_addr <$> head r /\
  (match prev_addr l (length l) with None => Ok true | Some b => let! b := deref zsl b in Ok (dlt (score b) sc) end) =
    Ok (match list.last l with None => true | Some t0 => dlt (t_score t0) sc end) /\
  (match t_addr <$> head r with None => Ok true | Some f => let! f := deref zsl f in Ok (dlt sc (score f)) end) =
    Ok (match head r with None => true | Some t0 => dlt sc (t_score t0) end).
Proof.
  intros Hr Hn. assert (Htt : (l ++ t :: r) !! length l = Some t) by by rewrite list_lookup_middle.
  pose proof (high_zero _ _ _ _ _ _ Hr) as Hh. apply Forall_app in Hh as [_ Hh]. apply Forall_cons_1 in Hh as [Hht Hhr].
  destruct (body_deref zsl _ _ _ _ _ (zr_body _ _ _ _ _ _ Hr _ _ Htt)) as (n' & _ & Hn' & _ & _ & Hb & _). assert (n' = n) as -> by congruence.
  split_and!.
  - rewrite Hb. by rewrite prev_addr_app.
  - pose proof (zr_cell _ _ _ _ _ _ Hr _ _ 0 Htt Hht) as Hc. unfold cell in Hc. rewrite Hn in Hc. simpl in Hc. apply get1_Ok. split; [lia|].
    replace (S (length l)) with (length l + 1)%nat in Hc by lia. by rewrite drop_app_add in Hc.
  - destruct r as [|t0 r']; [done|]. simpl. apply Forall_cons_1 in Hhr as [? _]. by rewrite decide_True.
  - rewrite prev_last. destruct (list.last l) as [t0|] eqn:El; [|done]. simpl.
    assert (exists p, (l ++ t :: r) !! p = Some t0) as [p Hp].
    { apply list_elem_of_lookup. apply elem_of_app. left. rewrite last_lookup in El. by eapply list_elem_of_lookup_2. }
    by destruct (body_deref zsl _ _ _ _ _ (zr_body _ _ _ _ _ _ Hr _ _ Hp)) as (b & -> & _ & _ & -> & _).
  - destruct r as [|t0 r']; [done|]. simpl. assert ((l ++ t :: t0 :: r') !! S (length l) = Some t0) as Hp
      by (rewrite lookup_app_r by lia; by replace (S (length l) - length l)%nat with 1%nat by lia).
    by destruct (body_deref zsl _ _ _ _ _ (zr_body _ _ _ _ _ _ Hr _ _ Hp)) as (b & -> & _ & _ & -> & _).
Qed.

Lemma updateScore_spec zsl l t r loose cur new draws lv :
  zsl_rep zsl (l ++ t :: r) loose -> zsl_top zsl (l ++ t :: r) -> deq cur (t_score t) = true -> isnan new = false ->
  zslRandomLevel draws = Ok lv -> absent (l ++ r) new (t_ele t) ->
  exists zsl' l' t' r', zslUpdateScore usable sdsAllocSize junk zsl cur (t_ele t) new draws = Ok (t_addr t', zsl') /\
    zsl_rep zsl' (l' ++ t' :: r') loose /\ zsl_top zsl' (l' ++ t' :: r') /\ header zsl' = header zsl /\
    l' ++ r' = l ++ r /\ t_key t' = (new, t_ele t).
Proof.
  intros Hr Htop Hd Hnan Hdraw Hab. destruct (deq_num _ _ Hd) as [Hsc _].
  destruct (search_before zsl _ loose cur (t_ele t) Hr Hsc) as (k & Hpos & Hsearch & Hsucc).
  apply (position_here zsl l t r loose cur k Hr Hd) in Hpos as ->. destruct (take_drop_middle_eq l t r) as [Et _]. rewrite Et in *.
  assert (Htt : (l ++ t :: r) !! length l = Some t) by by rewrite list_lookup_middle.
  unfold zslUpdateScore. rewrite Hsearch, Hsucc, Htt. cbn [fmap option_fmap option_map].
  destruct (body_deref zsl _ _ _ _ _ (zr_body _ _ _ _ _ _ Hr _ _ Htt)) as (n & -> & Hn & He & Hs & _). unfold ele_of. rewrite Hs, He, Hd.
  rewrite (proj2 (sdscmp_zero _ _) eq_refl). cbn [Z.eqb].
  destruct (neighbours zsl l t r loose new n Hr Hn) as (-> & -> & -> & -> & Hnext).
  set (a := match list.last l with None => true | Some t0 => dlt (t_score t0) new end). set (b := match head r with None => true | Some t0 => dlt new (t_score t0) end) in *.
  assert ((if a then match t_addr <$> head r with None => Ok true | Some f => let! f := deref zsl f in Ok (dlt new (score f)) end else Ok false) = Ok (a && b)) as ->
    by (destruct a; [exact Hnext|done]).
  replace (a && (a && b)) with (a && b) by (by destruct a). destruct (a && b) eqn:Eab.
  - apply andb_true_iff in Eab as [Ea Eb]. pose (t' := mkTower (t_addr t) new (t_ele t) (t_height t)).
    pose proof (zr_nan _ _ _ _ _ _ Hr) as Hnn. apply Forall_app in Hnn as [Hn1 Hn2]. apply Forall_cons_1 in Hn2 as [_ Hn2].
    pose proof (zr_sorted _ _ _ _ _ _ Hr) as Hso. apply StronglySorted_app in Hso as (Hx & Hs1 & Hs2). apply StronglySorted_inv in Hs2 as [Hs2 _].
    destruct (set_score_rep zsl l t r loose new Hr Hnan) as (zsl' & Hset & Hr' & Hh' & Hv').
    { apply (sorted_between l t' r).
      - apply Forall_app. split; [done|by constructor].
      - apply StronglySorted_app. split_and!; [|done|done]. intros t1 t2 H1 H2. apply Hx; [done|by right].
      - intros t0 Ht0. unfold a in Ea. by rewrite Ht0 in Ea.
      - intros t0 Ht0. unfold b in Eb. by rewrite Ht0 in Eb. }
    rewrite Hset. exists zsl', l, t', r. split_and!; try done. unfold zsl_top in *. rewrite Hv'.
    destruct Htop as [?|Htop]; [by left|right]. apply Exists_app in Htop as [?|Htop]; apply Exists_app; [by left|right].
    apply Exists_cons in Htop as [?|?]; apply Exists_cons; [by left|by right].
  - destruct (deleteNode_spec zsl l t r loose _ Hr (updates_ok _ _ _)) as (zsl1 & -> & Hr1 & Htop1 & Hh1 & _).
    destruct (zslInsert_spec usable sdsAllocSize zsl_size junk zsl1 (l ++ r) (t :: loose) new (t_ele t) draws lv Hr1 Htop1 Hnan Hdraw Hab)
      as (k & x & zsl2 & -> & Hr2 & Htop2 & Hh2 & _).
    { pose proof (zr_small _ _ _ _ _ _ Hr) as Hsm. rewrite length_app in *. simpl in Hsm. lia. }
    cbn zeta in Hr2, Htop2. destruct (zr_loose _ _ _ _ _ _ Hr2 t ltac:(left)) as [bk Hbt].
    destruct (body_deref zsl2 _ _ _ _ _ Hbt) as (n2 & -> & Hn2 & He2 & _).
    rewrite (free_without_ele zsl2 (t_addr t) n2 (t_ele t) Hn2 He2).
    destruct (freeNode_spec zsl2 _ t loose Hr2) as (zsl3 & -> & Hr3 & Hh3 & Hv3).
    exists zsl3, (take k (l ++ r)), (mkTower x new (t_ele t) (Z.to_nat lv)), (drop k (l ++ r)).
    split_and!; [done|done|by eapply free_top|congruence|apply take_drop|done].
Qed.
End Del.
