(* ===== verification/SkiplistRange.v ===== *)
(** Ranks and ranges of skip lists: zslGetRank, zslGetElementByRank, zslNthInRange and the
    deletion of ranges. *)

From stdpp Require Import gmap sorting.
From S2P Require Import Prelude Machine Double Dict DictInv DictOps SetType SetTypeSpec Skiplist ZOrder SkiplistInv SkiplistUpd SkiplistOps SkiplistDel.

Implicit Types (t : tower) (ts l r loose : list tower) (i k q o a b : nat) (zsl : zskiplist).

Section Range.
Context (usable : Z -> Z) (sdsAllocSize : sds -> Z) (zsl_size : Z) (junk : zskiplistLevel).
Notation zsl_rep := (zsl_rep usable sdsAllocSize zsl_size).

(** * Ranks *)

Lemma upto_not x y : num x -> num y ->
  dlt x.1 y.1 || (deq x.1 y.1 && (sdscmp x.2 y.2 <=? 0)) = true <-> ~ mlt y x.
Proof.
  intros Hx Hy. rewrite mlt_key by done. rewrite orb_true_iff, andb_true_iff, (dlt_key _ _ Hx Hy), (deq_key _ _ Hx Hy), Z.leb_le, sdscmp_lexcmp.
  rewrite (lexcmp_anti (sds_bytes x.2) (sds_bytes y.2)). unfold klt.
  destruct (dkey x.1) as [[a1 a2] a3], (dkey y.1) as [[b1 b2] b3]. simpl. split.
  - intros [Hk|[E Hl]] [Hk'|[E' Hl']]; simplify_eq; lia.
  - intros Hn. destruct (Z.lt_trichotomy a1 b1) as [?|[->|?]]; [lia| |lia]. destruct (Z.lt_trichotomy a2 b2) as [?|[->|?]]; [lia| |lia].
    destruct (Z.lt_trichotomy a3 b3) as [?|[->|?]]; [lia| |lia]. right. split; [done|].
    destruct (Z.le_gt_cases (lexcmp (sds_bytes x.2) (sds_bytes y.2)) 0); [done|]. destruct Hn. right. split; [done|lia].
Qed.

Lemma upto_cut zsl ts loose sc e :
  zsl_rep zsl ts loose -> isnan sc = false ->
  exists k, cut zsl ts (upto sc e) 0 k /\ forall p t, ts !! p = Some t -> ~ mlt (sc, e) (t_key t) <-> (p < k)%nat.
Proof.
  intros Hr Hnan. pose proof (zr_nan _ _ _ _ _ _ Hr) as Hnn. rewrite list.Forall_forall in Hnn.
  destruct (sorted_cut tlt (fun t => ~ mlt (sc, e) (t_key t)) ts (zr_sorted _ _ _ _ _ _ Hr)) as (k & Hk & Hc).
  { intros t1 t2 H1 H2 H12 Hlt Hx. apply Hlt. apply (mlt_trans _ (t_key t1)); [done|by apply Hnn|by apply Hnn|done|done]. }
  exists k. split; [|done]. split; [done|]. intros p t n _ Hp Hn.
  destruct (body_deref zsl _ _ _ _ _ (zr_body _ _ _ _ _ _ Hr p t Hp)) as (n' & _ & Hn' & He & Hs & _). assert (n' = n) as -> by congruence.
  assert (upto sc e (Z.of_nat (S p - 0)) n = Ok (dlt (t_score t) sc || (deq (t_score t) sc && (sdscmp (t_ele t) e <=? 0)))) as ->.
  { unfold upto, ele_of. rewrite Hs, He. destruct (dlt _ _); [done|]. by destruct (deq _ _). }
  f_equal. specialize (Hc p t Hp). pose proof (upto_not (t_key t) (sc, e) (Hnn t ltac:(by eapply list_elem_of_lookup_2)) Hnan) as Hu. simpl in Hu.
  case_bool_decide as Hd; [by apply Hu, Hc|]. apply not_true_is_false. rewrite Hu. intros Hx. by apply Hd, Hc.
Qed.

(** The number of nodes passed is at most the length. *)
Lemma walk_fuel zsl ts loose k (p : nat) : zsl_rep zsl ts loose -> (k <= length ts)%nat -> (k - p < S (Z.to_nat (zlen zsl)))%nat.
Proof. intros Hr Hk. rewrite (zr_len _ _ _ _ _ _ Hr). lia. Qed.

(** The next round of a descent. *)
Lemma next_round ts k n : (k <= length ts)%nat -> let q := upd (S n) (take k ts) in
  (q <= upd n (take k ts))%nat /\ (match q with O => True | S p => exists t, ts !! p = Some t /\ high n t end).
Proof.
  intros Hk q. split; [apply upd_mono|]. destruct q as [|p] eqn:E; [done|]. destruct (upd_high _ _ _ E) as (t & Ht & Hi).
  exists t. apply lookup_take_Some in Ht as [Ht _]. split; [done|]. unfold high in *. lia.
Qed.

Definition holds t sc e : Prop := deq (t_score t) sc = true /\ t_ele t = e.
#[global] Instance holds_dec t sc e : Decision (holds t sc e).
Proof. unfold holds. apply _. Defined.

(** The node at position [q] holds the member. *)
Definition hit ts sc e q : bool :=
  match q with O => false | S p => match ts !! p with Some t => bool_decide (holds t sc e) | None => false end end.

Lemma rank_node zsl ts loose sc e q n (x rank : Z) :
  zsl_rep zsl ts loose -> (q <= length ts)%nat ->
  (let! nx := deref zsl (addr_at (header zsl) ts q) in
    match ele nx with
    | Some e' => if deq (score nx) sc && (sdscmp e' e =? 0) then Ok rank else rank_loop n zsl sc e x rank
    | None => rank_loop n zsl sc e x rank
    end) = (if hit ts sc e q then Ok rank else rank_loop n zsl sc e x rank).
Proof.
  intros Hr Hq. destruct q as [|p]; simpl.
  - by destruct (body_deref zsl _ _ _ _ _ (zr_header _ _ _ _ _ _ Hr)) as (nx & -> & _ & -> & _).
  - destruct (lookup_lt_is_Some_2 ts p ltac:(lia)) as [t Ht]. rewrite Ht. simpl.
    destruct (body_deref zsl _ _ _ _ _ (zr_body _ _ _ _ _ _ Hr p t Ht)) as (nx & -> & _ & -> & -> & _).
    case_bool_decide as Hh.
    + destruct Hh as [-> Hh]. by rewrite (proj2 (Z.eqb_eq _ _)) by (by apply sdscmp_zero).
    + destruct (deq (t_score t) sc) eqn:Ed; [|done]. rewrite (proj2 (Z.eqb_neq _ _)); [done|]. rewrite sdscmp_zero. intros E. by apply Hh.
Qed.

(** A descent that stops at the first level on which the search ends at a hit. *)
Lemma rank_loop_spec zsl ts loose sc e k n : forall p,
  zsl_rep zsl ts loose -> cut zsl ts (upto sc e) 0 k -> (forall q, (q < k)%nat -> hit ts sc e q = false) ->
  (n <= Z.to_nat (level zsl))%nat -> (p <= upd (n - 1) (take k ts))%nat ->
  (match p with O => True | S q => exists t, ts !! q = Some t /\ high (n - 1) t end) ->
  rank_loop n zsl sc e (addr_at (header zsl) ts p) (Z.of_nat p) =
    Ok (if bool_decide (n <> O) && hit ts sc e k then Z.of_nat k else 0).
Proof.
  induction n as [|n IH]; intros p Hr Hcut Hhit Hn Hp Hh; [done|]. pose proof Hcut as [Hk _].
  replace (S n - 1)%nat with n in * by lia. pose proof (upd_le n (take k ts)) as Hle. rewrite length_take in Hle.
  assert (high_at zsl ts p n) as Hh' by (destruct p; [simpl; lia|done]).
  pose proof (walk_spec _ _ _ (S (Z.to_nat (zlen zsl))) zsl ts loose _ 0 k n p Hr Hcut Hh' ltac:(lia) ltac:(by eapply walk_fuel)) as Hw.
  rewrite !Nat.sub_0_r in Hw. cbn [rank_loop]. rewrite Hw, (rank_node zsl ts loose) by (done || lia).
  destruct (hit ts sc e (upd n (take k ts))) eqn:Eh.
  - destruct (decide (upd n (take k ts) = k)) as [Eu|Hne]; [|by rewrite Hhit in Eh by lia]. rewrite Eu in *. by rewrite Eh.
  - destruct n as [|n].
    + rewrite upd_zero, length_take_le in Eh by (done || by apply Forall_take, (high_zero _ _ _ _ _ _ Hr)). by rewrite Eh.
    + destruct (next_round ts k n Hk) as [H1 H2]. replace (S n - 1)%nat with n in IH by lia. rewrite IH; try done. lia.
Qed.

Lemma sorted_pos zsl ts loose p1 t1 p2 t2 :
  zsl_rep zsl ts loose -> ts !! p1 = Some t1 -> ts !! p2 = Some t2 -> (p1 < p2)%nat -> tlt t1 t2.
Proof.
  intros Hr H1 H2 Hlt. pose proof (zr_sorted _ _ _ _ _ _ Hr) as Hs. rewrite <- (take_drop p2 ts) in Hs.
  apply StronglySorted_app in Hs as (Hx & _ & _). apply Hx.
  - apply list_elem_of_lookup. exists p1. by rewrite lookup_take_lt.
  - apply list_elem_of_lookup. exists O. by rewrite lookup_drop, Nat.add_0_r.
Qed.

Lemma mlt_deq_l x y z : num x -> num y -> num z -> deq x.1 y.1 = true -> x.2 = y.2 -> mlt x z <-> mlt y z.
Proof. intros Hx Hy Hz Hd He. rewrite (deq_key _ _ Hx Hy) in Hd. rewrite !mlt_key by done. by rewrite Hd, He. Qed.

Lemma getRank_found zsl l t r loose sc :
  zsl_rep zsl (l ++ t :: r) loose -> deq sc (t_score t) = true -> zslGetRank zsl sc (t_ele t) = Ok (zlength l + 1).
Proof.
  intros Hr Hd. destruct (deq_num _ _ Hd) as [Hsc Hst]. destruct (upto_cut zsl _ loose sc (t_ele t) Hr Hsc) as (k & Hcut & Hpos).
  assert (Htt : (l ++ t :: r) !! length l = Some t) by by rewrite list_lookup_middle.
  pose proof (zr_nan _ _ _ _ _ _ Hr) as Hnn.
  assert (Hiff : forall p t', (l ++ t :: r) !! p = Some t' -> ~ mlt (t_key t) (t_key t') <-> (p < k)%nat).
  { intros p t' Hp. rewrite <- (Hpos p t' Hp). rewrite <- (mlt_deq_l (sc, t_ele t) (t_key t) (t_key t')); try done. by apply (Forall_lookup_1 _ _ _ _ Hnn Hp). }
  assert (k = S (length l)) as ->.
  { assert (length l < k)%nat by (apply (proj1 (Hiff _ t Htt)); apply mlt_irrefl; exact Hst). destruct (decide (k = S (length l))) as [|Hne]; [done|exfalso].
    destruct Hcut as [Hk _]. destruct (lookup_lt_is_Some_2 (l ++ t :: r) (S (length l)) ltac:(lia)) as [t' Ht'].
    apply (proj2 (Hiff _ t' Ht')); [lia|]. apply (sorted_pos zsl _ loose _ _ _ _ Hr Htt Ht'). lia. }
  pose proof (zr_level _ _ _ _ _ _ Hr) as Hl1.
  pose proof (rank_loop_spec zsl _ loose sc (t_ele t) (S (length l)) (Z.to_nat (level zsl)) 0 Hr Hcut) as Hloop.
  unfold zslGetRank. change (addr_at (header zsl) (l ++ t :: r) 0) with (header zsl) in Hloop. change (Z.of_nat 0) with 0 in Hloop. rewrite Hloop; try done.
  - rewrite bool_decide_eq_true_2 by lia. unfold hit. rewrite Htt, bool_decide_eq_true_2 by (split; [by rewrite deq_sym|done]). simpl. f_equal. lia.
  - intros [|p] Hp; [done|]. simpl. destruct ((l ++ t :: r) !! p) as [t'|] eqn:Ht'; [|done]. apply bool_decide_eq_false_2. intros [Hh1 Hh2].
    pose proof (sorted_pos zsl _ loose p t' (length l) t Hr Ht' Htt ltac:(lia)) as Hlt.
    apply (mlt_irrefl (t_key t)); [done|]. apply (mlt_deq_l (t_key t') (t_key t)); try done; [by apply (Forall_lookup_1 _ _ _ _ Hnn Ht')|].
    simpl. rewrite deq_key by (done || by apply (Forall_lookup_1 _ _ _ _ Hnn Ht')). rewrite deq_key in Hh1 by (done || by apply (Forall_lookup_1 _ _ _ _ Hnn Ht')).
    rewrite deq_key in Hd by done. congruence.
  - lia.
Qed.

Lemma getRank_absent zsl ts loose sc e :
  zsl_rep zsl ts loose -> isnan sc = false -> absent ts sc e -> zslGetRank zsl sc e = Ok 0.
Proof.
  intros Hr Hsc Hab. destruct (upto_cut zsl _ loose sc e Hr Hsc) as (k & Hcut & _).
  assert (Hhit : forall q, hit ts sc e q = false).
  { intros [|p]; [done|]. simpl. destruct (ts !! p) as [t|] eqn:Et; [|done]. apply bool_decide_eq_false_2. apply Hab. by eapply list_elem_of_lookup_2. }
  unfold zslGetRank. pose proof (rank_loop_spec zsl ts loose sc e k (Z.to_nat (level zsl)) 0 Hr Hcut) as Hloop.
  change (addr_at (header zsl) ts 0) with (header zsl) in Hloop. change (Z.of_nat 0) with 0 in Hloop. rewrite Hloop; try done; [|lia].
  by rewrite Hhit, andb_false_r.
Qed.

(** * Elements by rank *)

Lemma rank_cut zsl ts (rank : Z) o : 0 <= rank -> (o <= length ts)%nat ->
  cut zsl ts (fun (x : Z) _ => Ok (x <=? rank)) o (Nat.min (o + Z.to_nat rank) (length ts)).
Proof.
  intros Hr Ho. split; [lia|]. intros p t n Hp Ht _. apply lookup_lt_Some in Ht. f_equal.
  case_bool_decide; [apply Z.leb_le|apply Z.leb_gt]; lia.
Qed.

(** From position [o], with a link on level [n - 1], to the position [rank] further on. *)
Lemma element_loop_spec zsl ts loose (rank : Z) o n : forall p,
  zsl_rep zsl ts loose -> 0 <= rank -> (o <= p)%nat -> n <> O -> (o <= length ts)%nat ->
  (n <= Z.to_nat (level zsl))%nat -> let k := Nat.min (o + Z.to_nat rank) (length ts) in
  (p <= upd (n - 1) (take k ts))%nat ->
  (match p with O => True | S q => exists t, ts !! q = Some t /\ high (n - 1) t end) ->
  element_loop n zsl (addr_at (header zsl) ts p) (Z.of_nat (p - o)) rank =
    Ok (if decide (o + Z.to_nat rank <= length ts)%nat then Some (addr_at (header zsl) ts (o + Z.to_nat rank)) else None).
Proof.
  induction n as [|n IH]; intros p Hr Hrank Hop Hn0 Ho Hn k Hp Hh; [done|]. pose proof (rank_cut zsl ts rank o Hrank Ho) as Hcut. fold k in Hcut.
  pose proof Hcut as [Hk _]. replace (S n - 1)%nat with n in * by lia. pose proof (upd_le n (take k ts)) as Hle. rewrite length_take in Hle.
  assert (high_at zsl ts p n) as Hh' by (destruct p; [simpl; lia|done]). cbn [element_loop].
  rewrite (walk_spec _ _ _ (S (Z.to_nat (zlen zsl))) zsl ts loose _ o k n p Hr Hcut Hh' ltac:(lia) ltac:(by eapply walk_fuel)).
  destruct (Z.eqb_spec (Z.of_nat (upd n (take k ts) - o)) rank) as [E|Hne].
  - rewrite decide_True by lia. by replace (upd n (take k ts)) with (o + Z.to_nat rank)%nat by lia.
  - destruct n as [|n].
    + rewrite upd_zero, length_take_le in Hne, Hle by (done || by apply Forall_take, (high_zero _ _ _ _ _ _ Hr)).
      simpl. rewrite decide_False; [done|]. unfold k in Hne. lia.
    + destruct (next_round ts k n Hk) as [H1 H2]. replace (S n - 1)%nat with n in IH by lia. apply IH; try done; lia.
Qed.

Lemma getElement_spec zsl ts loose (rank : Z) :
  zsl_rep zsl ts loose -> 1 <= rank -> zslGetElementByRank zsl rank = Ok (t_addr <$> ts !! Z.to_nat (rank - 1)).
Proof.
  intros Hr Hrank. pose proof (zr_level _ _ _ _ _ _ Hr) as Hl1. unfold zslGetElementByRank, zslGetElementByRankFromNode.
  pose proof (element_loop_spec zsl ts loose rank 0 (Z.to_nat (level zsl - 1 + 1)) 0 Hr) as He. cbn zeta in He.
  change (addr_at (header zsl) ts 0) with (header zsl) in He. change (Z.of_nat (0 - 0)) with 0 in He. rewrite He; try done; try lia. clear He.
  rewrite Nat.add_0_l. case_decide as Hd.
  - destruct (lookup_lt_is_Some_2 ts (Z.to_nat (rank - 1)) ltac:(lia)) as [t Ht].
    replace (Z.to_nat rank) with (S (Z.to_nat (rank - 1))) by lia. simpl. by rewrite Ht.
  - rewrite (proj2 (lookup_ge_None _ _)) by lia. done.
Qed.

(** * Steps *)

Lemma forward_steps_spec zsl ts loose n : forall p,
  zsl_rep zsl ts loose -> (p + n <= length ts)%nat ->
  forward_steps n zsl (Some (addr_at (header zsl) ts p)) = Ok (Some (addr_at (header zsl) ts (p + n))).
Proof.
  induction n as [|n IH]; intros p Hr Hp; [by rewrite Nat.add_0_r|]. cbn [forward_steps].
  pose proof (high_zero _ _ _ _ _ _ Hr) as Hz. pose proof (zr_level _ _ _ _ _ _ Hr) as Hl1.
  destruct (lookup_lt_is_Some_2 ts p ltac:(lia)) as [t Ht].
  change 0 with (Z.of_nat 0). rewrite (get_link _ _ _ zsl ts loose p 0 Hr).
  - rewrite (drop_S _ _ _ Ht). simpl. rewrite decide_True by (by apply (Forall_lookup_1 _ _ _ _ Hz Ht)). simpl.
    replace (t_addr t) with (addr_at (header zsl) ts (S p)) by (simpl; by rewrite Ht). rewrite IH by (done || lia).
    by replace (S p + n)%nat with (p + S n)%nat by lia.
  - destruct p as [|p]; [simpl; lia|]. destruct (lookup_lt_is_Some_2 ts p ltac:(lia)) as [t0 Ht0]. exists t0. split; [done|].
    by apply (Forall_lookup_1 _ _ _ _ Hz Ht0).
Qed.

Lemma backward_steps_spec zsl ts loose n : forall p,
  zsl_rep zsl ts loose -> (n < p <= length ts)%nat ->
  backward_steps n zsl (Some (addr_at (header zsl) ts p)) = Ok (Some (addr_at (header zsl) ts (p - n))).
Proof.
  induction n as [|n IH]; intros p Hr Hp; [by rewrite Nat.sub_0_r|]. cbn [backward_steps]. destruct p as [|p]; [lia|].
  destruct (lookup_lt_is_Some_2 ts p ltac:(lia)) as [t Ht]. simpl. rewrite Ht. simpl.
  destruct (body_deref zsl _ _ _ _ _ (zr_body _ _ _ _ _ _ Hr p t Ht)) as (nx & -> & _ & _ & _ & -> & _).
  destruct p as [|p]; [lia|]. cbn [prev_addr]. destruct (lookup_lt_is_Some_2 ts p ltac:(lia)) as [t0 Ht0]. rewrite Ht0. simpl.
  replace (t_addr t0) with (addr_at (header zsl) ts (S p)) by (simpl; by rewrite Ht0). rewrite IH by (done || lia). done.
Qed.

(** * Ranges *)

(** A test of nodes that stands for a test of towers. *)
Definition tests zsl ts (test : zskiplistNode -> res bool) (P : tower -> bool) : Prop :=
  forall p t n, ts !! p = Some t -> nodes zsl !! t_addr t = Some n -> test n = Ok (P t).

(** The towers in range are those from position [a] up to position [b]. *)
Definition interval ts (gte lte : tower -> bool) a b : Prop :=
  (a <= b <= length ts)%nat /\
  forall p t, ts !! p = Some t -> gte t = bool_decide (a <= p)%nat /\ lte t = bool_decide (p < b)%nat.

Lemma upd_take_mono ts i a b : (a <= b)%nat -> (upd i (take a ts) <= upd i (take b ts))%nat.
Proof.
  intros Hab. destruct (upd i (take a ts)) as [|q] eqn:E; [lia|]. destruct (upd_high _ _ _ E) as (t & Ht & Hi).
  apply lookup_take_Some in Ht as [Ht Hq]. destruct (le_lt_dec (S q) (upd i (take b ts))) as [|Hlt]; [done|exfalso].
  pose proof (upd_low i (take b ts)) as Hl. rewrite list.Forall_forall in Hl. apply (Hl t); [|done].
  apply list_elem_of_lookup. exists (q - upd i (take b ts))%nat. rewrite lookup_drop.
  replace (upd i (take b ts) + (q - upd i (take b ts)))%nat with q by lia. by rewrite lookup_take_lt by lia.
Qed.

Lemma if_in_range_spec zsl ts loose test P p t :
  zsl_rep zsl ts loose -> tests zsl ts test P -> ts !! p = Some t ->
  if_in_range zsl test (Some (addr_at (header zsl) ts (S p))) = Ok (if P t then Some (t_addr t) else None).
Proof.
  intros Hr Ht Hp. simpl. rewrite Hp. simpl. destruct (body_deref zsl _ _ _ _ _ (zr_body _ _ _ _ _ _ Hr p t Hp)) as (n & -> & Hn & _).
  rewrite (Ht p t n Hp Hn). by destruct (P t).
Qed.

(** The tower with number [n] of the interval, counted from its end if [n] is negative. *)
Definition nth_tower ts a b (n : Z) : option tower :=
  if 0 <=? n then (if decide (Z.of_nat a + n < Z.of_nat b) then ts !! (a + Z.to_nat n)%nat else None)
  else if decide (Z.of_nat a <= Z.of_nat b + n) then ts !! Z.to_nat (Z.of_nat b + n) else None.

Section Nth.
Context (zsl : zskiplist) (ts loose : list tower) (gte lte : zskiplistNode -> res bool) (G L : tower -> bool) (a b : nat).
Hypothesis Hr : zsl_rep zsl ts loose.
Hypothesis Hg : tests zsl ts gte G.
Hypothesis Hl : tests zsl ts lte L.
Hypothesis Hab : interval ts G L a b.

Definition out_of : Z -> zskiplistNode -> res bool := fun _ nx => let! b := gte nx in Ok (negb b).

Lemma out_cut : cut zsl ts out_of 0 a.
Proof.
  destruct Hab as [Hle Hi]. split; [lia|]. intros p t n _ Hp Hn. unfold out_of. rewrite (Hg p t n Hp Hn). f_equal.
  destruct (Hi p t Hp) as [-> _]. repeat case_bool_decide; simpl; try done; lia.
Qed.

Lemma in_cut : cut zsl ts (fun _ => lte) 0 b.
Proof.
  destruct Hab as [Hle Hi]. split; [lia|]. intros p t n _ Hp Hn. rewrite (Hl p t n Hp Hn). f_equal. by destruct (Hi p t Hp) as [_ ->].
Qed.

(** The node from which zslGetElementByRankFromNode starts. *)
Let top := upd (Z.to_nat (level zsl - 1)) (take a ts).

Lemma top_walk : walk (S (Z.to_nat (zlen zsl))) zsl (level zsl - 1) out_of (header zsl) 0 = Ok (addr_at (header zsl) ts top, Z.of_nat top).
Proof.
  pose proof (zr_level _ _ _ _ _ _ Hr) as Hl1. pose proof out_cut as Hcut. pose proof Hcut as [Ha _].
  pose proof (walk_spec _ _ _ (S (Z.to_nat (zlen zsl))) zsl ts loose out_of 0 a (Z.to_nat (level zsl - 1)) 0 Hr Hcut) as Hw.
  rewrite Z2Nat.id, !Nat.sub_0_r in Hw by lia. apply Hw; [simpl; lia|lia|rewrite (zr_len _ _ _ _ _ _ Hr); lia].
Qed.

Lemma top_le : (top <= a <= length ts)%nat.
Proof. destruct Hab as [Hle _]. pose proof (upd_le (Z.to_nat (level zsl - 1)) (take a ts)) as Ht. rewrite length_take in Ht. unfold top. lia. Qed.

(** The element at position [q], or none. *)
Lemma from_top (rank : Z) : 0 <= rank ->
  zslGetElementByRankFromNode zsl (addr_at (header zsl) ts top) (level zsl - 1) rank =
    Ok (if decide (top + Z.to_nat rank <= length ts)%nat then Some (addr_at (header zsl) ts (top + Z.to_nat rank)) else None).
Proof.
  intros Hrank. pose proof (zr_level _ _ _ _ _ _ Hr) as Hl1. pose proof top_le as Ht. unfold zslGetElementByRankFromNode.
  pose proof (element_loop_spec zsl ts loose rank top (Z.to_nat (level zsl - 1 + 1)) top Hr Hrank) as He. rewrite Nat.sub_diag in He.
  replace (Z.to_nat (level zsl - 1 + 1) - 1)%nat with (Z.to_nat (level zsl - 1)) in He by lia. apply He; try lia.
  - assert (top = upd (Z.to_nat (level zsl - 1)) (take top ts)) as E.
    { apply upd_unique; [len|by rewrite drop_ge by len|]. destruct top as [|q] eqn:Eq; [done|]. unfold top in Eq. destruct (upd_high _ _ _ Eq) as (t & Ht' & Hi).
      exists t. split; [|done]. apply lookup_take_Some in Ht' as [Ht' _]. rewrite lookup_take_lt by lia. done. }
    rewrite E at 1. apply upd_take_mono. lia.
  - destruct top as [|q] eqn:Eq; [done|]. unfold top in Eq. destruct (upd_high _ _ _ Eq) as (t & Ht' & Hi). exists t.
    by apply lookup_take_Some in Ht' as [Ht' _].
Qed.

Lemma top_tower q : top = S q -> exists t, ts !! q = Some t /\ high (Z.to_nat (level zsl - 1)) t.
Proof.
  intros Eq. destruct (upd_high _ _ _ Eq) as (t & Ht & Hi). exists t. by apply lookup_take_Some in Ht as [Ht _].
Qed.

(** Level 0 of a search for position [k] is position [k] itself. *)
Lemma updates_zero k : (k <= length ts)%nat ->
  get1 0 (updates (header zsl) (take k ts) (Z.to_nat (level zsl))) = Ok (addr_at (header zsl) ts k, Z.of_nat k).
Proof.
  intros Hk. pose proof (zr_level _ _ _ _ _ _ Hr) as Hl1. change 0 with (Z.of_nat 0). rewrite updates_get by lia.
  rewrite upd_zero by (apply Forall_take; by eapply high_zero). by rewrite length_take_le, addr_at_take by lia.
Qed.

Lemma low_descend : exists us, descend (Z.to_nat (level zsl - 1)) zsl out_of (addr_at (header zsl) ts top) (Z.of_nat top)
    [(addr_at (header zsl) ts top, Z.of_nat top)] = Ok us /\ get1 0 us = Ok (addr_at (header zsl) ts a, Z.of_nat a).
Proof.
  pose proof (zr_level _ _ _ _ _ _ Hr) as Hl1. pose proof top_le as Ht. pose proof (high_zero _ _ _ _ _ _ Hr) as Hz.
  set (m := Z.to_nat (level zsl - 1)). eexists. split.
  - eapply (descend_spec _ _ _ zsl ts loose out_of a); [exact Hr|apply out_cut|lia| |].
    + destruct m as [|m'] eqn:Em; simpl; [rewrite upd_zero, length_take_le by (lia || by apply Forall_take); lia|].
      rewrite Nat.sub_0_r. unfold top. fold m. rewrite Em. apply upd_mono.
    + destruct top as [|q] eqn:Eq; [done|]. destruct (top_tower q Eq) as (t & Hq & Hi). exists t. split; [done|].
      unfold high in *. pose proof (Forall_lookup_1 _ _ _ _ Hz Hq) as H0. unfold high in H0. fold m in Hi. lia.
  - assert (updates (header zsl) (take a ts) m ++ [(addr_at (header zsl) ts top, Z.of_nat top)] = updates (header zsl) (take a ts) (Z.to_nat (level zsl))) as ->.
    { replace (Z.to_nat (level zsl)) with (S m) by lia. unfold updates. rewrite seq_S, fmap_app. simpl. change (upd m (take a ts)) with top. by rewrite addr_at_take by lia. }
    apply updates_zero. lia.
Qed.

Lemma high_descend : exists us, descend (Z.to_nat (level zsl)) zsl (fun _ => lte) (addr_at (header zsl) ts top) (Z.of_nat top) [] = Ok us /\
    get1 0 us = Ok (addr_at (header zsl) ts b, Z.of_nat b).
Proof.
  pose proof (zr_level _ _ _ _ _ _ Hr) as Hl1. pose proof top_le as Ht. destruct Hab as [Hle _].
  eexists. split.
  - eapply (descend_spec _ _ _ zsl ts loose (fun _ => lte) b); [exact Hr|apply in_cut|lia| |].
    + replace (Z.to_nat (level zsl) - 1)%nat with (Z.to_nat (level zsl - 1)) by lia. apply upd_take_mono. lia.
    + destruct top as [|q] eqn:Eq; [done|]. destruct (top_tower q Eq) as (t & Hq & Hi). exists t. split; [done|].
      by replace (Z.to_nat (level zsl) - 1)%nat with (Z.to_nat (level zsl - 1)) by lia.
  - rewrite app_nil_r. apply updates_zero. lia.
Qed.

(** A negative offset from the start node wraps and finds nothing. *)
Lemma before_top (n : Z) : in_s 64 n -> Z.of_nat b + 1 + n < Z.of_nat top ->
  zslGetElementByRankFromNode zsl (addr_at (header zsl) ts top) (level zsl - 1) (u64 (Z.of_nat b + 1 + n - Z.of_nat top)) = Ok None.
Proof.
  intros Hn Hlt. unfold in_s in Hn. pose proof (zr_small _ _ _ _ _ _ Hr) as Hsm. pose proof top_le as Htop. pose proof Hab as [Hle _]. pow_const.
  assert (u64 (Z.of_nat b + 1 + n - Z.of_nat top) = Z.of_nat b + 1 + n - Z.of_nat top + 18446744073709551616) as ->.
  { symmetry. apply (Z.mod_unique _ _ (-1)); [left; pow_const; lia|pow_const; lia]. }
  rewrite from_top by lia. by rewrite decide_False by lia.
Qed.

Lemma nth_spec (n : Z) : in_s 64 n -> nth_in_range zsl gte lte n = Ok (t_addr <$> nth_tower ts a b n).
Proof.
  intros Hn. unfold in_s in Hn. pose proof (zr_level _ _ _ _ _ _ Hr) as Hl1. pose proof (zr_small _ _ _ _ _ _ Hr) as Hsm.
  pose proof (zr_len _ _ _ _ _ _ Hr) as Hlen. pose proof top_le as Htop. pose proof Hab as [Hle Hi]. pow_const.
  unfold nth_in_range. fold out_of. rewrite top_walk. unfold nth_tower. rewrite Z.geb_leb. destruct (Z.leb_spec 0 n) as [H0|H0].
  - destruct low_descend as (us & -> & ->). rewrite u_id by (pow_const; lia). rewrite Hlen, Z.geb_leb.
    destruct (Z.leb_spec (zlength ts) (Z.of_nat a + n)) as [Hge|Hlt]; [by rewrite decide_False by lia|].
    destruct (lookup_lt_is_Some_2 ts (a + Z.to_nat n) ltac:(lia)) as [t Ht].
    assert ((if n <? ZSKIPLIST_MAX_SEARCH then forward_steps (Z.to_nat (n + 1)) zsl (Some (addr_at (header zsl) ts a))
      else zslGetElementByRankFromNode zsl (addr_at (header zsl) ts top) (level zsl - 1) (u64 (Z.of_nat a + 1 + n - Z.of_nat top))) =
      Ok (Some (addr_at (header zsl) ts (S (a + Z.to_nat n))))) as ->.
    { destruct (n <? ZSKIPLIST_MAX_SEARCH).
      - rewrite (forward_steps_spec zsl ts loose) by (done || lia). do 3 f_equal. lia.
      - rewrite u_id by (pow_const; lia). rewrite from_top by lia. rewrite decide_True by lia. do 3 f_equal. lia. }
    rewrite (if_in_range_spec zsl ts loose lte L (a + Z.to_nat n) t) by done. rewrite Ht. destruct (Hi _ t Ht) as [_ ->].
    case_bool_decide; [by rewrite decide_True by lia|by rewrite decide_False by lia].
  - destruct high_descend as (us & -> & ->).
    destruct (Z.ltb_spec (Z.of_nat b) (s64 (- n))) as [Hlt|Hge].
    { rewrite decide_False; [done|]. intros Hx. destruct (decide (n = - 2 ^ 63)) as [En|Hne]; [pow_const; lia|].
      rewrite s_id in Hlt by (unfold in_s; pow_const; lia). lia. }
    destruct (decide (n = - 2 ^ 63)) as [En|Hne].
    { pow_const. assert ((n + 1 >? - ZSKIPLIST_MAX_SEARCH) = false) as -> by (unfold ZSKIPLIST_MAX_SEARCH; lia).
      rewrite before_top by (unfold in_s; pow_const; lia). by rewrite decide_False by lia. }
    rewrite s_id in Hge by (unfold in_s; pow_const; lia).
    destruct (lookup_lt_is_Some_2 ts (Z.to_nat (Z.of_nat b + n)) ltac:(lia)) as [t Ht]. destruct (Hi _ t Ht) as [Hgt _].
    assert (Hpos : if_in_range zsl gte (Some (addr_at (header zsl) ts (S (Z.to_nat (Z.of_nat b + n))))) =
      Ok (t_addr <$> (if decide (Z.of_nat a <= Z.of_nat b + n) then ts !! Z.to_nat (Z.of_nat b + n) else None))).
    { rewrite (if_in_range_spec zsl ts loose gte G _ t) by done. rewrite Hgt, Ht.
      case_bool_decide; [by rewrite decide_True by lia|by rewrite decide_False by lia]. }
    destruct (n + 1 >? - ZSKIPLIST_MAX_SEARCH).
    + rewrite (backward_steps_spec zsl ts loose) by (done || lia).
      by replace (b - Z.to_nat (- n - 1))%nat with (S (Z.to_nat (Z.of_nat b + n))) by lia.
    + destruct (Z.le_gt_cases (Z.of_nat top) (Z.of_nat b + 1 + n)) as [Htle|Htgt].
      * rewrite u_id by (pow_const; lia). rewrite from_top, decide_True by lia.
        by replace (top + Z.to_nat (Z.of_nat b + 1 + n - Z.of_nat top))%nat with (S (Z.to_nat (Z.of_nat b + n))) by lia.
      * rewrite before_top by (unfold in_s; pow_const; lia). by rewrite decide_False by lia.
Qed.
End Nth.

(** * Deleting ranges *)

Section Delete.
Context (hashFunction : sds -> Z) (dict_can_resize : dictResizeEnable).
Notation dict_rep := (dict_rep hashFunction).
Notation delete_while := (delete_while usable sdsAllocSize hashFunction dict_can_resize).

(** A condition of the loop that accepts [m] nodes of [r], the first of which is tested when
    [c] nodes have been deleted. *)
Definition accepts (go : Z -> zskiplistNode -> res bool) r (c : Z) (m : nat) : Prop :=
  (m <= length r)%nat /\
  forall j t n, r !! j = Some t -> ele n = Some (t_ele t) -> score n = t_score t -> go (c + Z.of_nat j) n = Ok (bool_decide (j < m)%nat).

Lemma delete_while_spec l update go m : forall fuel zsl d dm c r loose,
  zsl_rep zsl (l ++ r) loose -> zsl_top zsl (l ++ r) -> update_ok (header zsl) l update (Z.to_nat (level zsl)) ->
  dict_rep d dm -> accepts go r c m -> (m <= fuel)%nat -> 0 <= c -> c + zlength r < 2 ^ 62 ->
  exists zsl' d', delete_while fuel zsl d go (t_addr <$> head r) update c = Ok (c + Z.of_nat m, zsl', d') /\
    zsl_rep zsl' (l ++ drop m r) loose /\ zsl_top zsl' (l ++ drop m r) /\ header zsl' = header zsl /\
    dict_rep d' (foldl (fun dm e => delete e dm) dm (t_ele <$> take m r)).
Proof.
  induction m as [|m IH]; intros fuel zsl d dm c r loose Hr Htop Hu Hd [Hm Hgo] Hf Hc Hsm.
  - exists zsl, d. rewrite drop_0, Z.add_0_r. split; [|done]. destruct r as [|t r]; [by destruct fuel|]. cbn [head fmap option_fmap option_map].
    destruct (body_deref zsl _ _ _ _ _ (zr_body _ _ _ _ _ _ Hr (length l) t ltac:(by rewrite list_lookup_middle))) as (n & Hdn & _ & He & Hs & _).
    specialize (Hgo 0%nat t n eq_refl He Hs). rewrite Z.add_0_r in Hgo. destruct fuel; cbn [Skiplist.delete_while]; by rewrite Hdn, Hgo.
  - destruct r as [|t r]; [simpl in Hm; lia|]. destruct fuel as [|fuel]; [lia|]. cbn [head fmap option_fmap option_map Skiplist.delete_while].
    destruct (body_deref zsl _ _ _ _ _ (zr_body _ _ _ _ _ _ Hr (length l) t ltac:(by rewrite list_lookup_middle))) as (n & Hdn & Hn & He & Hs & _).
    pose proof (Hgo 0%nat t n eq_refl He Hs) as Hg0. rewrite Z.add_0_r in Hg0. rewrite Hdn, Hg0, bool_decide_eq_true_2 by lia. cbn [negb].
    destruct (neighbours _ _ _ zsl l t r loose zero n Hr Hn) as (_ & -> & -> & _).
    destruct (deleteNode_spec _ _ _ zsl l t r loose update Hr Hu) as (zsl1 & -> & Hr1 & Htop1 & Hh1 & Hv1). unfold ele_of. rewrite He.
    destruct (genericDelete_contract hashFunction dictSdsKeyCompare dictSdsKeyCompare_eq None false dict_can_resize d dm (t_ele t) Hd) as (d1 & Hdel & Hd1 & _).
    unfold dictDelete. rewrite Hdel. destruct (freeNode_spec _ _ _ zsl1 (l ++ r) t loose Hr1) as (zsl2 & -> & Hr2 & Hh2 & Hv2).
    simpl in Hsm. rewrite u_id by (pow_const; lia).
    destruct (IH fuel zsl2 d1 (delete (t_ele t) dm) (c + 1) r loose) as (zsl' & d' & -> & Hr' & Htop' & Hh' & Hd').
    + done.
    + by eapply free_top.
    + rewrite Hh2, Hh1. eapply update_ok_le; [done|]. lia.
    + done.
    + simpl in Hm. split; [lia|]. intros j t' n' Hj He' Hs'. replace (c + 1 + Z.of_nat j) with (c + Z.of_nat (S j)) by lia.
      rewrite (Hgo (S j) t' n' Hj He' Hs'). f_equal. apply bool_decide_ext. lia.
    + lia.
    + lia.
    + lia.
    + exists zsl', d'. split; [do 3 f_equal; lia|]. split_and!; [done|done|congruence|done].
Qed.

(** Deleting [m] nodes after the first [a]. *)
Lemma delete_range_spec zsl ts loose d dm out go a m :
  zsl_rep zsl ts loose -> zsl_top zsl ts -> dict_rep d dm ->
  cut zsl ts out 0 a -> accepts (go (Z.of_nat a)) (drop a ts) 0 m ->
  exists zsl' d', delete_range usable sdsAllocSize hashFunction dict_can_resize zsl d out go = Ok (Z.of_nat m, zsl', d') /\
    zsl_rep zsl' (take a ts ++ drop m (drop a ts)) loose /\ zsl_top zsl' (take a ts ++ drop m (drop a ts)) /\ header zsl' = header zsl /\
    dict_rep d' (foldl (fun dm e => delete e dm) dm (t_ele <$> take m (drop a ts))).
Proof.
  intros Hr Htop Hd Hcut Hacc. pose proof Hcut as [Ha _]. pose proof (zr_level _ _ _ _ _ _ Hr) as Hl1. pose proof (high_zero _ _ _ _ _ _ Hr) as Hz.
  unfold delete_range. rewrite (search_spec _ _ _ zsl ts loose out a Hr Hcut), updates_zero with (loose := loose) by done.
  assert (successor zsl (updates (header zsl) (take a ts) (Z.to_nat (level zsl))) = Ok (t_addr <$> head (drop a ts))) as ->.
  { unfold successor. rewrite updates_zero with (loose := loose) by done. change 0 with (Z.of_nat 0).
    rewrite (get_link _ _ _ zsl ts loose a 0 Hr).
    - destruct (drop a ts) as [|t r] eqn:Ed; [done|]. simpl. rewrite decide_True; [done|].
      rewrite <- (take_drop a ts), Ed in Hz. apply Forall_app in Hz as [_ Hz]. by apply Forall_cons_1 in Hz as [Hz _].
    - destruct a as [|p]; [simpl; lia|]. destruct (lookup_lt_is_Some_2 ts p ltac:(lia)) as [t Ht]. exists t. split; [done|]. by apply (Forall_lookup_1 _ _ _ _ Hz Ht). }
  pose proof (zr_small _ _ _ _ _ _ Hr) as Hsm. pose proof (zr_len _ _ _ _ _ _ Hr) as Hlen. destruct Hacc as [Hm Hgo]. rewrite length_drop in Hm.
  destruct (delete_while_spec (take a ts) (updates (header zsl) (take a ts) (Z.to_nat (level zsl))).*1 (go (Z.of_nat a)) m
    (Z.to_nat (zlen zsl)) zsl d dm 0 (drop a ts) loose) as (zsl' & d' & Hw & Hrest); try done.
  - by rewrite take_drop.
  - by rewrite take_drop.
  - apply updates_ok.
  - split; [rewrite length_drop; lia|done].
  - lia.
  - rewrite length_drop. lia.
  - rewrite Hw. by exists zsl', d'.
Qed.
End Delete.
End Range.
