(* ===== verification/SkiplistSpec.v ===== *)
(** The contract of skip lists: a skip list is a strictly sorted sequence of members with
    exact ranks, whatever levels the random numbers gave its nodes. *)

From Stdlib Require Import SpecFloat.
From stdpp Require Import gmap sorting.
From S2P Require Import Prelude Machine Double Dict DictInv DictOps SetType SetTypeSpec Skiplist ZOrder SkiplistInv SkiplistUpd SkiplistOps SkiplistDel SkiplistRange.

Implicit Types (t : tower) (ts l r loose : list tower) (i k q a b : nat) (zsl : zskiplist).

(** * Ranges of a sorted sequence *)

(** Element number [n], from the end if [n] is negative. *)
Definition nthz {A} (xs : list A) (n : Z) : option A :=
  if 0 <=? n then xs !! Z.to_nat n else if 0 <=? zlength xs + n then xs !! Z.to_nat (zlength xs + n) else None.

Definition in_range (range : zrangespec) t : bool := zslValueGteMin (t_score t) range && zslValueLteMax (t_score t) range.
Definition in_lex_range (range : zlexrangespec) t : bool := zslLexValueGteMin (t_ele t) range && zslLexValueLteMax (t_ele t) range.

Lemma filter_none {A} (P : A -> Prop) `{!forall x, Decision (P x)} (xs : list A) : (forall x, x ∈ xs -> ~ P x) -> filter P xs = [].
Proof.
  induction xs as [|x xs IH]; intros HP; [done|]. rewrite filter_cons_False by (apply HP; left). apply IH. intros y Hy. apply HP. by right.
Qed.

Lemma filter_all {A} (P : A -> Prop) `{!forall x, Decision (P x)} (xs : list A) : (forall x, x ∈ xs -> P x) -> filter P xs = xs.
Proof.
  induction xs as [|x xs IH]; intros HP; [done|]. rewrite filter_cons_True by (apply HP; left). f_equal. apply IH. intros y Hy. apply HP. by right.
Qed.

(** A predicate that holds from position [a] up to position [b]. *)
Lemma filter_slice {A} (P : A -> Prop) `{!forall x, Decision (P x)} (xs : list A) a b :
  (forall p x, xs !! p = Some x -> P x <-> (a <= p < b)%nat) ->
  filter P xs = take (b - a) (drop a xs) /\ filter (fun x => ~ P x) xs = take a xs ++ drop (b - a) (drop a xs).
Proof.
  intros HP. assert (Hsplit : forall (Q : A -> Prop) `{!forall x, Decision (Q x)},
    filter Q xs = filter Q (take a xs) ++ filter Q (take (b - a) (drop a xs)) ++ filter Q (drop (b - a) (drop a xs))).
  { intros Q HQ. by rewrite <- !list.filter_app, !take_drop. }
  assert (H1 : forall x, x ∈ take a xs -> ~ P x).
  { intros x [p Hp]%list_elem_of_lookup. apply lookup_take_Some in Hp as [Hp Hlt]. rewrite (HP p x Hp). lia. }
  assert (H2 : forall x, x ∈ take (b - a) (drop a xs) -> P x).
  { intros x [p Hp]%list_elem_of_lookup. apply lookup_take_Some in Hp as [Hp Hlt]. rewrite lookup_drop in Hp. rewrite (HP _ x Hp). lia. }
  assert (H3 : forall x, x ∈ drop (b - a) (drop a xs) -> ~ P x).
  { intros x [p Hp]%list_elem_of_lookup. rewrite !lookup_drop in Hp. rewrite (HP _ x Hp). lia. }
  rewrite !Hsplit. split.
  - rewrite (filter_none P (take a xs)), (filter_all P (take _ _)), (filter_none P (drop _ _)) by done. by rewrite app_nil_r.
  - rewrite (filter_all _ (take a xs)), (filter_none _ (take (b - a) _)), (filter_all _ (drop (b - a) _)) by (done || intros x Hx Hn; by apply Hn, H2). done.
Qed.

(** The positions at which two monotone tests change. *)
Definition bounds {A} (xs : list A) (G L : A -> bool) a b : Prop :=
  (a <= length xs)%nat /\ (b <= length xs)%nat /\
  forall p x, xs !! p = Some x -> G x = bool_decide (a <= p)%nat /\ L x = bool_decide (p < b)%nat.

Lemma sorted_bounds {A} (R : A -> A -> Prop) (xs : list A) (G L : A -> bool) :
  StronglySorted R xs ->
  (forall x1 x2, x1 ∈ xs -> x2 ∈ xs -> R x1 x2 -> G x1 = true -> G x2 = true) ->
  (forall x1 x2, x1 ∈ xs -> x2 ∈ xs -> R x1 x2 -> L x2 = true -> L x1 = true) ->
  exists a b, bounds xs G L a b.
Proof.
  intros Hs HG HL. destruct (sorted_cut R (fun x => G x = false) xs Hs) as (a & Ha & Hca).
  { intros x1 x2 H1 H2 H12 Hf. apply not_true_is_false. intros Ht. rewrite (HG x1 x2 H1 H2 H12 Ht) in Hf. done. }
  destruct (sorted_cut R (fun x => L x = true) xs Hs) as (b & Hb & Hcb); [intros x1 x2 H1 H2 H12; by apply HL|].
  exists a, b. split_and!; [done|done|]. intros p x Hp. specialize (Hca p x Hp). specialize (Hcb p x Hp). split.
  - case_bool_decide as Hd; [apply not_false_is_true; rewrite Hca; lia|apply Hca; lia].
  - case_bool_decide as Hd; [by apply Hcb|apply not_true_is_false; by rewrite Hcb].
Qed.

Lemma bounds_filter {A} (xs : list A) G L a b : bounds xs G L a b ->
  filter (fun x => G x && L x = true) xs = take (b - a) (drop a xs) /\
  filter (fun x => ~ (G x && L x = true)) xs = take a xs ++ drop (b - a) (drop a xs).
Proof.
  intros (Ha & Hb & Hp). apply filter_slice. intros p x Hx. destruct (Hp p x Hx) as [-> ->]. rewrite andb_true_iff, !bool_decide_eq_true. lia.
Qed.

Lemma nth_slice ts a b (n : Z) : (a <= b <= length ts)%nat -> nth_tower ts a b n = nthz (take (b - a) (drop a ts)) n.
Proof.
  intros Hab. unfold nth_tower, nthz. rewrite length_take, length_drop. destruct (Z.leb_spec 0 n) as [H0|H0].
  - case_decide; [by rewrite lookup_take_lt, lookup_drop by lia|]. symmetry. apply lookup_take_ge. lia.
  - case_decide as Hd.
    + rewrite (proj2 (Z.leb_le _ _)) by lia. rewrite lookup_take_lt, lookup_drop by lia. f_equal. lia.
    + by rewrite (proj2 (Z.leb_gt _ _)) by lia.
Qed.

Lemma tlt_score t1 t2 : num (t_key t1) -> num (t_key t2) -> tlt t1 t2 -> dlt (t_score t2) (t_score t1) = false.
Proof.
  intros H1 H2 Hlt. apply not_true_is_false. unfold tlt in Hlt. rewrite mlt_key in Hlt by done. rewrite dlt_key by done.
  unfold klt in *. simpl in Hlt. destruct (dkey (t_score t1)) as [[a1 a2] a3], (dkey (t_score t2)) as [[b1 b2] b3]. simpl in *.
  destruct Hlt as [?|[[= -> -> ->] _]]; lia.
Qed.

(** Bounds of scores are monotone. *)
Lemma gte_mono range s1 s2 : isnan (min range) = false -> isnan s1 = false -> isnan s2 = false ->
  dlt s2 s1 = false -> zslValueGteMin s1 range = true -> zslValueGteMin s2 range = true.
Proof.
  intros Hm H1 H2 Hle. unfold zslValueGteMin. apply not_true_iff_false in Hle. rewrite dlt_key in Hle by done.
  destruct (minex range).
  - rewrite !dlt_key by done. unfold klt in *. destruct (dkey s1) as [[? ?] ?], (dkey s2) as [[? ?] ?], (dkey (min range)) as [[? ?] ?]. simpl in *. lia.
  - rewrite !dle_lt, !negb_true_iff, <- !not_true_iff_false, !dlt_key by done. unfold klt in *.
    destruct (dkey s1) as [[? ?] ?], (dkey s2) as [[? ?] ?], (dkey (min range)) as [[? ?] ?]. simpl in *. lia.
Qed.

Lemma lte_mono range s1 s2 : isnan (max range) = false -> isnan s1 = false -> isnan s2 = false ->
  dlt s2 s1 = false -> zslValueLteMax s2 range = true -> zslValueLteMax s1 range = true.
Proof.
  intros Hm H1 H2 Hle. unfold zslValueLteMax. apply not_true_iff_false in Hle. rewrite dlt_key in Hle by done.
  destruct (maxex range).
  - rewrite !dlt_key by done. unfold klt in *. destruct (dkey s1) as [[? ?] ?], (dkey s2) as [[? ?] ?], (dkey (max range)) as [[? ?] ?]. simpl in *. lia.
  - rewrite !dle_lt, !negb_true_iff, <- !not_true_iff_false, !dlt_key by done. unfold klt in *.
    destruct (dkey s1) as [[? ?] ?], (dkey s2) as [[? ?] ?], (dkey (max range)) as [[? ?] ?]. simpl in *. lia.
Qed.

(** Between the bounds: what fails the lower bound passes the upper one, unless the range is
    inverted. *)
Lemma bounds_order range s : isnan (min range) = false -> isnan (max range) = false -> isnan s = false ->
  dlt (max range) (min range) || (deq (min range) (max range) && (minex range || maxex range)) = false ->
  zslValueGteMin s range = false -> zslValueLteMax s range = true.
Proof.
  intros Hm HM Hs [Hlt Heq]%orb_false_iff. unfold zslValueGteMin, zslValueLteMax. apply not_true_iff_false in Hlt. rewrite dlt_key in Hlt by done.
  assert (deq (min range) (max range) = true -> minex range = false /\ maxex range = false) as Hex.
  { intros E. rewrite E in Heq. simpl in Heq. by apply orb_false_iff in Heq. }
  rewrite deq_key in Hex by done.
  destruct (minex range), (maxex range); rewrite ?dle_lt, ?negb_true_iff, ?negb_false_iff, <- ?not_true_iff_false, ?dlt_key by done; unfold klt in *;
    destruct (dkey s) as [[s1 s2] s3], (dkey (min range)) as [[m1 m2] m3], (dkey (max range)) as [[M1 M2] M3]; simpl in *; intros Hx;
    try lia; assert ((m1, m2, m3) = (M1, M2, M3) -> False) as Hne by (intros [= -> -> ->]; by destruct (Hex eq_refl));
    assert (~ (m1 = M1 /\ m2 = M2 /\ m3 = M3)) by (intros (-> & -> & ->); by apply Hne); lia.
Qed.

Lemma bounds_inverted range s : isnan (min range) = false -> isnan (max range) = false -> isnan s = false ->
  dlt (max range) (min range) || (deq (min range) (max range) && (minex range || maxex range)) = true ->
  zslValueGteMin s range && zslValueLteMax s range = false.
Proof.
  intros Hm HM Hs Hinv. apply not_true_is_false. rewrite andb_true_iff. unfold zslValueGteMin, zslValueLteMax. intros [H1 H2]. revert Hinv H1 H2.
  rewrite orb_true_iff, andb_true_iff, orb_true_iff, dlt_key, deq_key by done.
  destruct (minex range), (maxex range); rewrite ?dle_lt, ?negb_true_iff, <- ?not_true_iff_false, ?dlt_key by done; unfold klt in *;
    destruct (dkey s) as [[s1 s2] s3], (dkey (min range)) as [[m1 m2] m3], (dkey (max range)) as [[M1 M2] M3]; simpl in *;
    intros [Hx|[[= -> -> ->] ?]]; lia.
Qed.

(** Lexicographic bounds. *)
Lemma lex_gte_mono range e1 e2 : sdscmp e1 e2 < 0 -> zslLexValueGteMin e1 range = true -> zslLexValueGteMin e2 range = true.
Proof.
  unfold zslLexValueGteMin. rewrite !Z.gtb_ltb, !Z.geb_leb. intros Hlt. destruct (lexmin range) as [| |m]; cbn [sdscmplex]; [by destruct (lexminex range)..|].
  rewrite !sdscmp_lexcmp in *. set (x := sds_bytes e1) in *. set (y := sds_bytes e2) in *. set (z := sds_bytes m).
  assert (Htr : 0 <= lexcmp x z -> 0 < lexcmp y z).
  { intros H0. rewrite (lexcmp_anti z y). destruct (Z.eq_dec (lexcmp x z) 0) as [E%lexcmp_zero|Hne].
    - rewrite E in Hlt. lia.
    - assert (lexcmp z y < 0); [|lia]. apply (lexcmp_trans z x y); [rewrite lexcmp_anti; lia|done]. }
  destruct (lexminex range); rewrite ?Z.ltb_lt, ?Z.leb_le; intros Hx; specialize (Htr ltac:(lia)); lia.
Qed.

Lemma lex_lte_mono range e1 e2 : sdscmp e1 e2 < 0 -> zslLexValueLteMax e2 range = true -> zslLexValueLteMax e1 range = true.
Proof.
  unfold zslLexValueLteMax. intros Hlt. destruct (lexmax range) as [| |m]; cbn [sdscmplex]; [by destruct (lexmaxex range)..|].
  rewrite !sdscmp_lexcmp in *. set (x := sds_bytes e1) in *. set (y := sds_bytes e2) in *. set (z := sds_bytes m).
  assert (Htr : lexcmp y z <= 0 -> lexcmp x z < 0).
  { intros H0. destruct (Z.eq_dec (lexcmp y z) 0) as [E%lexcmp_zero|Hne]; [by rewrite <- E|]. apply (lexcmp_trans x y z); [done|lia]. }
  destruct (lexmaxex range); rewrite ?Z.ltb_lt, ?Z.leb_le; intros Hx; specialize (Htr ltac:(lia)); lia.
Qed.

(** A bound as a test of two bounds. *)
Lemma lex_bounds range e :
  let cmp := sdscmplex (lexmin range) (lexmax range) in
  if (cmp >? 0) || ((cmp =? 0) && (lexminex range || lexmaxex range))
  then zslLexValueGteMin e range && zslLexValueLteMax e range = false
  else zslLexValueGteMin e range = false -> zslLexValueLteMax e range = true.
Proof.
  unfold zslLexValueGteMin, zslLexValueLteMax. rewrite !Z.gtb_ltb, !Z.geb_leb. cbn zeta.
  destruct (lexmin range) as [| |m], (lexmax range) as [| |M], (lexminex range), (lexmaxex range); cbn [sdscmplex]; simpl; try done; try by rewrite andb_false_r.
  all: rewrite !sdscmp_lexcmp in *; set (x := sds_bytes e) in *; set (lo := sds_bytes m); set (hi := sds_bytes M);
    pose proof (lexcmp_trans lo x hi) as T1; pose proof (lexcmp_trans x lo hi) as T2; pose proof (lexcmp_trans lo hi x) as T3;
    pose proof (lexcmp_trans hi x lo) as T4; pose proof (lexcmp_anti x lo) as A1; pose proof (lexcmp_anti x hi) as A2; pose proof (lexcmp_anti lo hi) as A3;
    pose proof (lexcmp_zero x lo) as Z1; pose proof (lexcmp_zero x hi) as Z2; pose proof (lexcmp_zero lo hi) as Z3.
  all: destruct (Z.ltb_spec 0 (lexcmp lo hi)), (Z.eqb_spec (lexcmp lo hi) 0); simpl; try lia.
  all: zbool; simpl; try done; exfalso.
  all: try (destruct (Z.eq_dec (lexcmp x lo) 0) as [E1|E1]; [apply Z1 in E1; rewrite <- E1 in *; lia|]).
  all: try (destruct (Z.eq_dec (lexcmp x hi) 0) as [E2|E2]; [apply Z2 in E2; rewrite <- E2 in *; lia|]).
  all: try (apply Z3 in e0; rewrite <- e0 in *; lia).
  all: lia.
Qed.

(** * Ranges of skip lists *)

Section Contract.
Context (usable : Z -> Z) (sdsAllocSize : sds -> Z) (zsl_size : Z) (junk : zskiplistLevel).
Notation zsl_rep := (zsl_rep usable sdsAllocSize zsl_size).

Lemma node_fields zsl ts loose p t n : zsl_rep zsl ts loose -> ts !! p = Some t -> nodes zsl !! t_addr t = Some n ->
  ele n = Some (t_ele t) /\ score n = t_score t.
Proof.
  intros Hr Hp Hn. destruct (body_deref zsl _ _ _ _ _ (zr_body _ _ _ _ _ _ Hr p t Hp)) as (n' & _ & Hn' & He & Hs & _).
  assert (n' = n) as -> by congruence. done.
Qed.

Lemma bounds_interval ts G L a b : bounds ts G L a b -> (forall t, t ∈ ts -> G t = false -> L t = true) -> interval ts G L a b.
Proof.
  intros (Ha & Hb & Hp) Hgl. split; [|done]. split; [|done]. destruct (le_lt_dec a b) as [|Hlt]; [done|exfalso].
  destruct (lookup_lt_is_Some_2 ts b ltac:(lia)) as [t Ht]. destruct (Hp b t Ht) as [HG HL].
  rewrite bool_decide_eq_false_2 in HG, HL by lia. rewrite Hgl in HL; [done|by eapply list_elem_of_lookup_2|done].
Qed.

Lemma ends_spec zsl ts loose gte lte G L a b :
  zsl_rep zsl ts loose -> tests zsl ts gte G -> tests zsl ts lte L -> bounds ts G L a b ->
  exists ok : bool, ends_in_range zsl gte lte = Ok ok /\ (ok = false -> take (b - a) (drop a ts) = []).
Proof.
  intros Hr Hg Hl (Ha & Hb & Hp). unfold ends_in_range. rewrite (zr_tail _ _ _ _ _ _ Hr), last_lookup.
  destruct (ts !! Nat.pred (length ts)) as [tl|] eqn:El; cbn [fmap option_fmap option_map].
  2: { exists false. split; [done|]. apply lookup_ge_None in El. rewrite drop_ge by lia. by rewrite take_nil. }
  destruct (body_deref zsl _ _ _ _ _ (zr_body _ _ _ _ _ _ Hr _ _ El)) as (n & -> & Hn & _). rewrite (Hg _ _ _ El Hn).
  pose proof (lookup_lt_Some _ _ _ El) as Hlt. destruct (Hp _ _ El) as [-> _]. case_bool_decide as Hd; cbn [negb].
  2: { exists false. split; [done|]. rewrite drop_ge by lia. by rewrite take_nil. }
  pose proof (zr_level _ _ _ _ _ _ Hr) as Hl1. change 0 with (Z.of_nat 0).
  rewrite (cell_get zsl _ 0 (link 0 ts)) by (apply (zr_links _ _ _ _ _ _ Hr); lia).
  destruct (lookup_lt_is_Some_2 ts 0 ltac:(lia)) as [th Hh]. pose proof (high_zero _ _ _ _ _ _ Hr) as Hz.
  assert (forward (link 0 ts) = Some (t_addr th)) as ->.
  { destruct ts as [|t1 ts1]; [done|]. injection Hh as ->. simpl. apply Forall_cons_1 in Hz as [? _]. by rewrite decide_True. }
  destruct (body_deref zsl _ _ _ _ _ (zr_body _ _ _ _ _ _ Hr _ _ Hh)) as (n1 & -> & Hn1 & _). rewrite (Hl _ _ _ Hh Hn1).
  destruct (Hp _ _ Hh) as [_ ->]. eexists. split; [done|]. intros Hb0. apply bool_decide_eq_false in Hb0. by replace (b - a)%nat with O by lia.
Qed.

(** The common part of zslNthInRange and zslNthInLexRange. *)
Lemma nth_correct zsl ts loose gte lte G L (inverted : bool) a b (n : Z) :
  zsl_rep zsl ts loose -> tests zsl ts gte G -> tests zsl ts lte L -> bounds ts G L a b -> in_s 64 n ->
  (forall t, t ∈ ts -> if inverted then G t && L t = false else G t = false -> L t = true) ->
  (let! ok := (if inverted then Ok false else ends_in_range zsl gte lte) in
   if negb ok then Ok None else nth_in_range zsl gte lte n) = Ok (t_addr <$> nthz (filter (fun t => G t && L t = true) ts) n).
Proof.
  intros Hr Hg Hl Hb Hn Hinv. destruct (bounds_filter _ _ _ _ _ Hb) as [Hfil _].
  assert (Hnil : nthz (@nil tower) n = None) by (unfold nthz; rewrite !lookup_nil; by repeat case_match).
  destruct inverted.
  - rewrite filter_none; [by rewrite Hnil|]. intros t Ht. by rewrite (Hinv t Ht).
  - destruct (ends_spec zsl ts loose gte lte G L a b Hr Hg Hl Hb) as (ok & -> & Hok). rewrite Hfil. destruct ok; cbn [negb].
    + rewrite (nth_spec _ _ _ zsl ts loose gte lte G L a b Hr Hg Hl (bounds_interval _ _ _ _ _ Hb Hinv) n Hn).
      rewrite nth_slice; [done|]. destruct (bounds_interval _ _ _ _ _ Hb Hinv) as [? _]. lia.
    + by rewrite (Hok eq_refl), Hnil.
Qed.

Lemma score_tests zsl ts loose range : zsl_rep zsl ts loose ->
  tests zsl ts (score_gte range) (fun t => zslValueGteMin (t_score t) range) /\ tests zsl ts (score_lte range) (fun t => zslValueLteMax (t_score t) range).
Proof.
  intros Hr. split; intros p t n Hp Hn; destruct (node_fields _ _ _ _ _ _ Hr Hp Hn) as [_ Hs]; unfold score_gte, score_lte; by rewrite Hs.
Qed.

Lemma score_bounds zsl ts loose range : zsl_rep zsl ts loose -> isnan (min range) = false -> isnan (max range) = false ->
  exists a b, bounds ts (fun t => zslValueGteMin (t_score t) range) (fun t => zslValueLteMax (t_score t) range) a b.
Proof.
  intros Hr Hm HM. pose proof (zr_nan _ _ _ _ _ _ Hr) as Hnn. rewrite list.Forall_forall in Hnn.
  apply (sorted_bounds tlt); [apply Hr|..]; intros t1 t2 H1 H2 H12.
  - apply gte_mono; auto. apply tlt_score; auto; by apply Hnn.
  - apply lte_mono; auto. apply tlt_score; auto; by apply Hnn.
Qed.

Lemma lex_tests zsl ts loose range : zsl_rep zsl ts loose ->
  tests zsl ts (lex_gte range) (fun t => zslLexValueGteMin (t_ele t) range) /\ tests zsl ts (lex_lte range) (fun t => zslLexValueLteMax (t_ele t) range).
Proof.
  intros Hr. split; intros p t n Hp Hn; destruct (node_fields _ _ _ _ _ _ Hr Hp Hn) as [He _]; unfold lex_gte, lex_lte, ele_of; by rewrite He.
Qed.

(** All members have the same score, as lexicographic ranges ask for. *)
Definition same_scores ts : Prop := forall t1 t2, t1 ∈ ts -> t2 ∈ ts -> deq (t_score t1) (t_score t2) = true.

Lemma lex_bounds_exist zsl ts loose range : zsl_rep zsl ts loose -> same_scores ts ->
  exists a b, bounds ts (fun t => zslLexValueGteMin (t_ele t) range) (fun t => zslLexValueLteMax (t_ele t) range) a b.
Proof.
  intros Hr Hsame. assert (Hcmp : forall t1 t2, t1 ∈ ts -> t2 ∈ ts -> tlt t1 t2 -> sdscmp (t_ele t1) (t_ele t2) < 0).
  { intros t1 t2 H1 H2 H12. pose proof (Hsame t1 t2 H1 H2) as Hd. destruct (deq_num _ _ Hd) as [N1 N2]. unfold tlt in H12.
    rewrite mlt_key in H12 by done. rewrite deq_key in Hd by done. simpl in H12. rewrite sdscmp_lexcmp. destruct H12 as [Hk|[_ Hl]]; [|done].
    rewrite Hd in Hk. unfold klt in Hk. lia. }
  apply (sorted_bounds tlt); [apply Hr|..]; intros t1 t2 H1 H2 H12.
  - by apply lex_gte_mono, Hcmp.
  - by apply lex_lte_mono, Hcmp.
Qed.

(** C15: zslNthInRange and zslNthInLexRange return the node with the given number among the
    members in range, counted from the end when the number is negative, and NULL when there
    is none: empty and inverted ranges, infinite bounds and the boundary values of the
    number included.  The lexicographic form asks for members with equal scores. *)
Theorem zslNth_correct zsl ts loose (n : Z) :
  zsl_rep zsl ts loose -> in_s 64 n ->
  (forall range, isnan (min range) = false -> isnan (max range) = false ->
    zslNthInRange zsl range n = Ok (t_addr <$> nthz (filter (fun t => in_range range t = true) ts) n)) /\
  (same_scores ts -> forall range,
    zslNthInLexRange zsl range n = Ok (t_addr <$> nthz (filter (fun t => in_lex_range range t = true) ts) n)).
Proof.
  intros Hr Hn. pose proof (zr_nan _ _ _ _ _ _ Hr) as Hnn. rewrite list.Forall_forall in Hnn. split.
  - intros range Hm HM. destruct (score_tests zsl ts loose range Hr) as [Hg Hl]. destruct (score_bounds zsl ts loose range Hr Hm HM) as (a & b & Hb).
    apply (nth_correct zsl ts loose _ _ _ _ _ a b n Hr Hg Hl Hb Hn). intros t Ht. destruct (_ || _) eqn:E.
    + apply bounds_inverted; auto.
    + apply bounds_order; auto.
  - intros Hsame range. destruct (lex_tests zsl ts loose range Hr) as [Hg Hl]. destruct (lex_bounds_exist zsl ts loose range Hr Hsame) as (a & b & Hb).
    apply (nth_correct zsl ts loose _ _ _ _ _ a b n Hr Hg Hl Hb Hn). intros t Ht. pose proof (lex_bounds range (t_ele t)) as Hlb. cbn zeta in Hlb.
    by destruct (_ || _).
Qed.

(** * Creation and release *)

Lemma zslCreate_rep : 0 <= zsl_size < 2 ^ 64 -> zsl_rep (zslCreate usable sdsAllocSize zsl_size junk) [] [] /\ zsl_top (zslCreate usable sdsAllocSize zsl_size junk) [].
Proof.
  intros Hs. split; [|by left]. unfold zslCreate, zslCreateNode. cbn [next_addr fst snd header tail zlen level alloc_size nodes].
  split; cbn [header tail zlen level alloc_size nodes next_addr]; try done.
  - intros i Hi. unfold cell. rewrite lookup_insert_eq. simpl in Hi. by destruct i; [|lia].
  - intros i Hi. unfold cell. rewrite lookup_insert_eq. cbn [levels mbind option_bind]. rewrite lookup_replicate_2 by (unfold ZSKIPLIST_MAXLEVEL; lia). done.
  - apply list.NoDup_singleton.
  - by apply Forall_singleton.
  - intros a. simpl. rewrite list_elem_of_singleton. destruct (decide (a = 1)) as [->|Hne]; [by rewrite lookup_insert_eq|].
    rewrite !lookup_insert_ne, lookup_empty by done. split; [by intros []|done].
  - by intros t ?%elem_of_nil.
  - constructor.
  - unfold sizes. cbn [app foldr]. by rewrite Z.add_0_r.
Qed.

(** Each node of the list, and nothing else, is freed. *)
Lemma free_loop_spec (size0 : Z) fuel : forall zsl r,
  (forall x : Z, is_Some (nodes zsl !! x) <-> x ∈ t_addr <$> r) -> NoDup (t_addr <$> r) ->
  (forall p t, r !! p = Some t -> exists n, nodes zsl !! t_addr t = Some n /\ ele n = Some (t_ele t) /\ length (levels n) = t_height t /\
     forward <$> levels n !! 0%nat = Some (t_addr <$> r !! S p)) ->
  (length r <= fuel)%nat -> alloc_size zsl = u64 (size0 + sizes usable sdsAllocSize r) ->
  exists zsl', free_loop usable sdsAllocSize fuel zsl (t_addr <$> head r) = Ok zsl' /\ nodes zsl' = ∅ /\ alloc_size zsl' = u64 size0.
Proof.
  induction fuel as [|fuel IH]; intros zsl r Hdom Hnd Hn Hf Ha.
  - destruct r; [|simpl in Hf; lia]. exists zsl. split; [done|]. split; [|rewrite Ha; simpl; by rewrite Z.add_0_r].
    apply map_empty. intros a. destruct (nodes zsl !! a) eqn:E; [|done]. exfalso. assert (a ∈ t_addr <$> []) as Hx by (apply Hdom; by eexists). by apply elem_of_nil in Hx.
  - destruct r as [|t r].
    { exists zsl. split; [done|]. split; [|rewrite Ha; simpl; by rewrite Z.add_0_r].
      apply map_empty. intros a. destruct (nodes zsl !! a) eqn:E; [|done]. exfalso. assert (a ∈ t_addr <$> []) as Hx by (apply Hdom; by eexists). by apply elem_of_nil in Hx. }
    destruct (Hn 0%nat t eq_refl) as (n & Hnn & He & Hl & Hfw). cbn [head fmap option_fmap option_map free_loop]. unfold get_level, deref. rewrite Hnn.
    destruct (levels n !! 0%nat) as [c|] eqn:Ec; [|done]. injection Hfw as Hfw. rewrite (proj2 (get1_Ok _ _ _)) by (split; [lia|exact Ec]).
    unfold zslFreeNode, deref. rewrite Hnn, He, Hl, Hfw. rewrite fmap_cons in Hnd. apply list.NoDup_cons in Hnd as [Hout Hnd].
    rewrite <- head_lookup. apply IH; cbn [nodes alloc_size].
    + intros a. destruct (decide (a = t_addr t)) as [->|Hne].
      * rewrite lookup_delete_eq. split; [by intros []|done].
      * rewrite lookup_delete_ne by done. rewrite Hdom, fmap_cons, elem_of_cons. naive_solver.
    + done.
    + intros p t' Hp. rewrite lookup_delete_ne.
      * apply (Hn (S p) t' Hp).
      * intros E. apply Hout. rewrite E. apply fmap_addr_elem. by eapply list_elem_of_lookup_2.
    + simpl in Hf. lia.
    + rewrite Ha. simpl. unfold t_size, u64, u. rewrite Zminus_mod_idemp_l, <- Z.sub_add_distr, Zminus_mod_idemp_l. f_equal. lia.
Qed.

(** zslFree frees the header and every node, each once, and the memory accounted for
    is then that of the list itself, as it was before the first allocation. *)
Theorem zslFree_correct zsl ts :
  zsl_rep zsl ts [] ->
  exists zsl', zslFree usable sdsAllocSize zsl = Ok zsl' /\ nodes zsl' = ∅ /\ zslAllocSize zsl' = u64 zsl_size.
Proof.
  intros Hr. pose proof (zr_level _ _ _ _ _ _ Hr) as Hl1. unfold zslFree. change 0 with (Z.of_nat 0).
  rewrite (cell_get zsl _ 0 (link 0 ts)) by (apply (zr_links _ _ _ _ _ _ Hr); lia).
  destruct (body_deref zsl _ _ _ _ _ (zr_header _ _ _ _ _ _ Hr)) as (hd & -> & Hhd & _ & _ & _ & Hlh). rewrite Hlh.
  pose proof (high_zero _ _ _ _ _ _ Hr) as Hz. pose proof (zr_addrs _ _ _ _ _ _ Hr) as Hnd. rewrite app_nil_r in Hnd. apply list.NoDup_cons in Hnd as [Hout Hnd].
  assert (Hfw : forward (link 0 ts) = t_addr <$> head ts).
  { destruct ts as [|t1 ts1]; [done|]. simpl. apply Forall_cons_1 in Hz as [? _]. by rewrite decide_True. }
  rewrite Hfw. apply (free_loop_spec zsl_size); cbn [nodes alloc_size].
  - intros a. pose proof (zr_dom _ _ _ _ _ _ Hr a) as Hd. rewrite app_nil_r in Hd. destruct (decide (a = header zsl)) as [->|Hne].
    + rewrite lookup_delete_eq. split; [by intros []|done].
    + rewrite lookup_delete_ne by done. rewrite Hd, elem_of_cons. naive_solver.
  - done.
  - intros p t Hp. destruct (body_deref zsl _ _ _ _ _ (zr_body _ _ _ _ _ _ Hr p t Hp)) as (n & _ & Hn & He & _ & _ & Hl). exists n.
    rewrite lookup_delete_ne by (intros E; eapply addr_header; [exact Hr| |symmetry; exact E]; rewrite app_nil_r; by eapply list_elem_of_lookup_2).
    split_and!; try done. pose proof (Forall_lookup_1 _ _ _ _ Hz Hp) as H0. pose proof (zr_cell _ _ _ _ _ _ Hr p t 0 Hp H0) as Hc.
    unfold cell in Hc. rewrite Hn in Hc. simpl in Hc. rewrite Hc. simpl. f_equal. destruct (ts !! S p) as [t'|] eqn:E.
    + rewrite (drop_S _ _ _ E). simpl. rewrite decide_True; [done|]. apply (Forall_lookup_1 _ _ _ _ Hz E).
    + apply lookup_ge_None in E. by rewrite drop_ge.
  - rewrite (zr_len _ _ _ _ _ _ Hr). lia.
  - rewrite (zr_alloc _ _ _ _ _ _ Hr), app_nil_r. unfold ZSKIPLIST_MAXLEVEL, u64, u. rewrite Zminus_mod_idemp_l. f_equal. change (Z.of_nat 32) with 32. lia.
Qed.

(** * Modifications *)

(** The skip list stands for [ts], with nothing left unlinked. *)
Definition zsl_ok zsl ts : Prop := zsl_rep zsl ts [] /\ zsl_top zsl ts.

(** C14: zslInsert puts a new member at its place in the order; zslDelete removes the member
    and frees its node, or reports that it is not there and changes nothing; zslUpdateScore
    moves a member to its new place, keeping or replacing its node.  The other members keep
    their nodes, and all links, spans, back pointers, the tail, the length, the level and
    the accounted memory are those of the new sequence, whatever the random numbers are. *)
Theorem zsl_modify_correct zsl ts :
  zsl_ok zsl ts ->
  (forall sc e draws lv, isnan sc = false -> zslRandomLevel draws = Ok lv -> absent ts sc e -> zlength ts + 1 < 2 ^ 62 ->
    exists zsl' l t r, zslInsert usable sdsAllocSize junk zsl sc e draws = Ok (t_addr t, zsl') /\
      zsl_ok zsl' (l ++ t :: r) /\ ts = l ++ r /\ t_key t = (sc, e) /\ Z.of_nat (t_height t) = lv) /\
  (forall sc e, isnan sc = false -> absent ts sc e -> zslDelete usable sdsAllocSize zsl sc e false = Ok (false, None, zsl)) /\
  (forall l t r sc, ts = l ++ t :: r -> deq sc (t_score t) = true ->
    exists zsl', zslDelete usable sdsAllocSize zsl sc (t_ele t) false = Ok (true, None, zsl') /\ zsl_ok zsl' (l ++ r)) /\
  (forall l t r cur new draws lv, ts = l ++ t :: r -> deq cur (t_score t) = true -> isnan new = false -> zslRandomLevel draws = Ok lv ->
    absent (l ++ r) new (t_ele t) ->
    exists zsl' l' t' r', zslUpdateScore usable sdsAllocSize junk zsl cur (t_ele t) new draws = Ok (t_addr t', zsl') /\
      zsl_ok zsl' (l' ++ t' :: r') /\ l' ++ r' = l ++ r /\ t_key t' = (new, t_ele t)).
Proof.
  intros [Hr Htop]. split_and!.
  - intros sc e draws lv Hnan Hdraw Hab Hsm. pose proof (random_range _ _ Hdraw).
    destruct (zslInsert_spec usable sdsAllocSize zsl_size junk zsl ts [] sc e draws lv Hr Htop Hnan Hdraw Hab Hsm) as (k & x & zsl' & -> & Hr' & Htop' & _ & _).
    exists zsl', (take k ts), (mkTower x sc e (Z.to_nat lv)), (drop k ts). rewrite take_drop. split_and!; try done. simpl. lia.
  - intros sc e Hnan Hab. by eapply zslDelete_absent.
  - intros l t r sc -> Hd. destruct (zslDelete_found _ _ _ zsl l t r [] sc false Hr Hd) as (zsl' & -> & Hr' & Htop' & _). by exists zsl'.
  - intros l t r cur new draws lv -> Hd Hnan Hdraw Hab.
    destruct (updateScore_spec usable sdsAllocSize zsl_size junk zsl l t r [] cur new draws lv Hr Htop Hd Hnan Hdraw Hab)
      as (zsl' & l' & t' & r' & -> & Hr' & Htop' & _ & Heq & Hk). by exists zsl', l', t', r'.
Qed.

(** the rank of a member is its position in the order, counted from 1, and 0 if it is
    not there; zslGetElementByRank finds the member with a given rank, and NULL if there are
    fewer.  So the spans of all levels are exact. *)
Theorem zsl_rank_correct zsl ts :
  zsl_ok zsl ts ->
  (forall l t r sc, ts = l ++ t :: r -> deq sc (t_score t) = true ->
    zslGetRank zsl sc (t_ele t) = Ok (zlength l + 1) /\ zslGetElementByRank zsl (zlength l + 1) = Ok (Some (t_addr t))) /\
  (forall sc e, isnan sc = false -> absent ts sc e -> zslGetRank zsl sc e = Ok 0) /\
  (forall rank, 1 <= rank -> zslGetElementByRank zsl rank = Ok (t_addr <$> ts !! Z.to_nat (rank - 1))).
Proof.
  intros [Hr _]. split_and!.
  - intros l t r sc -> Hd. split; [by eapply getRank_found|]. rewrite (getElement_spec _ _ _ zsl _ []) by (done || lia).
    replace (Z.to_nat (zlength l + 1 - 1)) with (length l) by lia. by rewrite list_lookup_middle.
  - intros sc e Hnan Hab. by eapply getRank_absent.
  - intros rank Hrank. by eapply getElement_spec.
Qed.

(** * Deleting ranges *)

Section DeleteRange.
Context (hashFunction : sds -> Z) (dict_can_resize : dictResizeEnable).
Notation dict_rep := (dict_rep hashFunction).

(** The dict without the elements of the towers. *)
Definition without (dm : gmap sds Z) ts : gmap sds Z := foldl (fun dm e => delete e dm) dm (t_ele <$> ts).

Lemma bounds_delete zsl ts d dm gte lte G L a b :
  zsl_ok zsl ts -> dict_rep d dm -> tests zsl ts gte G -> bounds ts G L a b ->
  (forall t n, t ∈ ts -> ele n = Some (t_ele t) -> score n = t_score t -> lte n = Ok (L t)) ->
  exists zsl' d', delete_range usable sdsAllocSize hashFunction dict_can_resize zsl d
      (fun _ n => let! ok := gte n in Ok (negb ok)) (fun _ _ => lte) =
      Ok (zlength (filter (fun t => G t && L t = true) ts), zsl', d') /\
    zsl_ok zsl' (filter (fun t => ~ (G t && L t = true)) ts) /\ dict_rep d' (without dm (filter (fun t => G t && L t = true) ts)).
Proof.
  intros [Hr Htop] Hd Hg Hb Hl. destruct (bounds_filter _ _ _ _ _ Hb) as [-> ->]. destruct Hb as (Ha & Hbl & Hp).
  destruct (delete_range_spec usable sdsAllocSize zsl_size hashFunction dict_can_resize zsl ts [] d dm (fun _ n => let! ok := gte n in Ok (negb ok)) (fun _ _ => lte) a (b - a) Hr Htop Hd)
    as (zsl' & d' & -> & Hr' & Htop' & _ & Hd').
  - split; [done|]. intros p t n _ Ht Hn. rewrite (Hg p t n Ht Hn). f_equal. destruct (Hp p t Ht) as [-> _]. repeat case_bool_decide; simpl; try done; lia.
  - split; [rewrite length_drop; lia|]. intros j t n Hj He Hs. rewrite lookup_drop in Hj. rewrite (Hl t n ltac:(by eapply list_elem_of_lookup_2) He Hs). f_equal.
    destruct (Hp _ t Hj) as [_ ->]. apply bool_decide_ext. lia.
  - exists zsl', d'. rewrite length_take, length_drop. replace (Nat.min (b - a) (length ts - a)) with (b - a)%nat by lia. done.
Qed.

(** C16: the deletion of a range of scores, of elements or of ranks removes exactly the
    members in range from the skip list and from the dict, and counts them; ranks are
    counted from 1 and both ends are included. *)
Theorem zslDeleteRange_correct zsl ts d dm :
  zsl_ok zsl ts -> dict_rep d dm ->
  (forall range, isnan (min range) = false -> isnan (max range) = false ->
    exists zsl' d', zslDeleteRangeByScore usable sdsAllocSize hashFunction dict_can_resize zsl range d =
        Ok (zlength (filter (fun t => in_range range t = true) ts), zsl', d') /\
      zsl_ok zsl' (filter (fun t => ~ (in_range range t = true)) ts) /\ dict_rep d' (without dm (filter (fun t => in_range range t = true) ts))) /\
  (same_scores ts -> forall range,
    exists zsl' d', zslDeleteRangeByLex usable sdsAllocSize hashFunction dict_can_resize zsl range d =
        Ok (zlength (filter (fun t => in_lex_range range t = true) ts), zsl', d') /\
      zsl_ok zsl' (filter (fun t => ~ (in_lex_range range t = true)) ts) /\ dict_rep d' (without dm (filter (fun t => in_lex_range range t = true) ts))) /\
  (forall start end_, 1 <= start <= end_ -> end_ < 2 ^ 32 ->
    let mid := take (Z.to_nat (end_ - start + 1)) (drop (Z.to_nat (start - 1)) ts) in
    exists zsl' d', zslDeleteRangeByRank usable sdsAllocSize hashFunction dict_can_resize zsl start end_ d = Ok (zlength mid, zsl', d') /\
      zsl_ok zsl' (take (Z.to_nat (start - 1)) ts ++ drop (Z.to_nat end_) ts) /\ dict_rep d' (without dm mid)).
Proof.
  intros Hok Hd. pose proof Hok as [Hr Htop]. split_and!.
  - intros range Hm HM. destruct (score_tests zsl ts [] range Hr) as [Hg _]. destruct (score_bounds zsl ts [] range Hr Hm HM) as (a & b & Hb).
    apply (bounds_delete zsl ts d dm _ _ _ _ a b Hok Hd Hg Hb). intros t n _ _ Hs. unfold score_lte. by rewrite Hs.
  - intros Hsame range. destruct (lex_tests zsl ts [] range Hr) as [Hg _]. destruct (lex_bounds_exist zsl ts [] range Hr Hsame) as (a & b & Hb).
    apply (bounds_delete zsl ts d dm _ _ _ _ a b Hok Hd Hg Hb). intros t n _ He _. unfold lex_lte, ele_of. by rewrite He.
  - intros start end_ Hse Hend mid. pose proof (zr_small _ _ _ _ _ _ Hr) as Hsm. set (a := Nat.min (Z.to_nat (start - 1)) (length ts)).
    assert (Hmid : mid = take (Nat.min (Z.to_nat end_) (length ts) - a) (drop a ts)).
    { unfold mid, a. destruct (le_lt_dec (Z.to_nat (start - 1)) (length ts)) as [Hle|Hgt].
      - rewrite (Nat.min_l (Z.to_nat (start - 1)) (length ts)) by lia. destruct (le_lt_dec (Z.to_nat end_) (length ts)) as [He|He].
        + rewrite Nat.min_l by lia. f_equal. lia.
        + rewrite !take_ge by (rewrite length_drop; lia). done.
      - rewrite !drop_ge by lia. by rewrite !take_nil. }
    destruct (delete_range_spec usable sdsAllocSize zsl_size hashFunction dict_can_resize zsl ts [] d dm (fun x _ => Ok (x <? start))
      (fun traversed removed _ => Ok (u64 (traversed + 1 + removed) <=? end_)) a (Nat.min (Z.to_nat end_) (length ts) - a) Hr Htop Hd) as (zsl' & d' & Hdel & Hr' & Htop' & _ & Hd').
    + split; [lia|]. intros p t n _ Hp _. apply lookup_lt_Some in Hp. f_equal. case_bool_decide; [apply Z.ltb_lt|apply Z.ltb_ge]; lia.
    + split; [rewrite length_drop; lia|]. intros j t n Hj _ _. rewrite lookup_drop in Hj. apply lookup_lt_Some in Hj. f_equal.
      rewrite Z.add_0_l, u_id by (pow_const; lia). case_bool_decide; [apply Z.leb_le|apply Z.leb_gt]; lia.
    + exists zsl', d'. unfold zslDeleteRangeByRank. rewrite Hdel. rewrite Hmid, length_take, length_drop.
      replace (Nat.min (Nat.min (Z.to_nat end_) (length ts) - a) (length ts - a)) with (Nat.min (Z.to_nat end_) (length ts) - a)%nat by lia.
      assert (Hkeep : take (Z.to_nat (start - 1)) ts ++ drop (Z.to_nat end_) ts = take a ts ++ drop (Nat.min (Z.to_nat end_) (length ts) - a) (drop a ts)).
      { rewrite drop_drop. f_equal.
        - unfold a. destruct (le_lt_dec (Z.to_nat (start - 1)) (length ts)); [by rewrite Nat.min_l by lia|]. rewrite !take_ge by lia. done.
        - destruct (le_lt_dec (Z.to_nat end_) (length ts)); [by replace (a + (Nat.min (Z.to_nat end_) (length ts) - a))%nat with (Z.to_nat end_) by lia|]. rewrite !drop_ge by lia. done. }
      rewrite Hkeep. done.
Qed.
End DeleteRange.
End Contract.

(** * A concrete skip list *)

(** The towers as they are found on level 0. *)
Fixpoint read_towers (fuel : nat) zsl (x : option Z) : list tower :=
  match fuel, x with
  | S fuel, Some a =>
      match nodes zsl !! a with
      | Some n =>
          match ele n with
          | Some e => mkTower a (score n) e (length (levels n)) :: read_towers fuel zsl (head (levels n) ≫= forward)
          | None => []
          end
      | None => []
      end
  | _, _ => []
  end.

Lemma read_towers_rep usable sdsAllocSize zsl_size zsl ts loose :
  zsl_rep usable sdsAllocSize zsl_size zsl ts loose -> forall l r, ts = l ++ r -> read_towers (length r) zsl (t_addr <$> head r) = r.
Proof.
  intros Hr l r. revert l. induction r as [|t r IH]; intros l Hts; [done|]. simpl.
  assert (Htt : ts !! length l = Some t) by (rewrite Hts; by rewrite list_lookup_middle).
  destruct (body_deref zsl _ _ _ _ _ (zr_body _ _ _ _ _ _ Hr _ _ Htt)) as (n & _ & Hn & He & Hs & _ & Hlv). rewrite Hn, He, Hs, Hlv.
  rewrite Hts in Hr. destruct (neighbours _ _ _ zsl l t r loose zero n Hr Hn) as (_ & Hg & Hf & _). apply get1_Ok in Hg as [_ Hg].
  change (Z.to_nat 0) with 0%nat in Hg. rewrite head_lookup, Hg. simpl. rewrite Hf. rewrite (IH (l ++ [t])) by (by rewrite <- app_assoc). by destruct t.
Qed.

Definition str (bs : list Z) : sds := match sdsnewlen bs with Ok s => s | Fault _ => dexist [] eq_refl end.
Definition one : double := S754_finite false 4503599627370496 (-52).
Definition two : double := S754_finite false 4503599627370496 (-51).

Notation zinsert := (zslInsert (fun n => 16 * n) (fun _ => 24) (mkLevel (Some 99) 7)).

(** Three members on levels 1, 3 and 2; two of them have the same score. *)
Definition zsl_demo : zskiplist :=
  match (let zsl := zslCreate (fun n => 16 * n) (fun _ => 24) 48 (mkLevel (Some 99) 7) in
         let! '(_, zsl) := zinsert zsl two (str [98]) [536870911] in
         let! '(_, zsl) := zinsert zsl one (str [99]) [1; 2; 536870911] in
         let! '(_, zsl) := zinsert zsl two (str [97]) [1; 2147483647] in
         Ok zsl) with Ok zsl => zsl | Fault _ => mkZsl 0 None 0 0 0 ∅ 0 end.

Definition demo_towers : list tower := [mkTower 3 one (str [99]) 3; mkTower 4 two (str [97]) 2; mkTower 2 two (str [98]) 1].

Lemma demo_insert zsl ts sc e draws lv : zsl_ok (fun n => 16 * n) (fun _ => 24) 48 zsl ts -> isnan sc = false -> zslRandomLevel draws = Ok lv ->
  absent ts sc e -> zlength ts < 10 ->
  exists x zsl' ts', zinsert zsl sc e draws = Ok (x, zsl') /\ zsl_ok (fun n => 16 * n) (fun _ => 24) 48 zsl' ts' /\ zlength ts' = zlength ts + 1 /\
    forall t, t ∈ ts' -> t ∈ ts \/ t_key t = (sc, e).
Proof.
  intros [Hr Ht] Hn Hd Ha Hs. destruct (zslInsert_spec _ _ _ (mkLevel (Some 99) 7) zsl ts [] sc e draws lv Hr Ht Hn Hd Ha ltac:(lia))
    as (k & x & zsl' & -> & Hr' & Ht' & _ & [Hk _]).
  eexists x, zsl', _. split; [done|]. split; [split; [exact Hr'|exact Ht']|]. split.
  - rewrite length_app. simpl. rewrite length_take, length_drop. lia.
  - intros t [Hin|Hin]%elem_of_app; [left; rewrite <- (take_drop k ts); apply elem_of_app; by left|]. rewrite elem_of_cons in Hin. destruct Hin as [->|Hin]; [by right|left].
    rewrite <- (take_drop k ts). apply elem_of_app. by right.
Qed.

Lemma zsl_demo_ok : zsl_ok (fun n => 16 * n) (fun _ => 24) 48 zsl_demo demo_towers.
Proof.
  assert (exists ts, zsl_ok (fun n => 16 * n) (fun _ => 24) 48 zsl_demo ts /\ zlength ts = 3) as (ts & [Hr Ht] & Hlen).
  { unfold zsl_demo. pose proof (zslCreate_rep (fun n => 16 * n) (fun _ => 24) 48 (mkLevel (Some 99) 7) ltac:(done)) as H0.
    destruct (demo_insert _ [] two (str [98]) [536870911] 1 H0) as (x1 & z1 & ts1 & E1 & H1 & L1 & M1); [done|done|by intros t ?%elem_of_nil|done|].
    rewrite E1. destruct (demo_insert z1 ts1 one (str [99]) [1; 2; 536870911] 3 H1) as (x2 & z2 & ts2 & E2 & H2 & L2 & M2); [done|done| |simpl in L1; lia|].
    { intros t Ht [_ He]. destruct (M1 t Ht) as [?%elem_of_nil|[= _ Hk]]; [done|]. rewrite Hk in He. done. }
    rewrite E2. destruct (demo_insert z2 ts2 two (str [97]) [1; 2147483647] 2 H2) as (x3 & z3 & ts3 & E3 & H3 & L3 & M3); [done|done| |simpl in L1; lia|].
    { intros t Ht [_ He]. destruct (M2 t Ht) as [Ht'|[= _ Hk]]; [|by rewrite Hk in He]. destruct (M1 t Ht') as [?%elem_of_nil|[= _ Hk]]; [done|]. by rewrite Hk in He. }
    rewrite E3. exists ts3. split; [done|]. simpl in L1. lia. }
  assert (ts = demo_towers) as <-; [|done].
  pose proof (read_towers_rep _ _ _ _ _ _ Hr [] ts eq_refl) as Hread. rewrite <- Hread. assert (length ts = 3%nat) as -> by lia.
  pose proof (zr_links _ _ _ _ _ _ Hr 0 ltac:(vm_compute; lia)) as Hc. pose proof (high_zero _ _ _ _ _ _ Hr) as Hz.
  assert (forward (link 0 ts) = t_addr <$> head ts) as Hf.
  { destruct ts as [|t1 ts1]; [done|]. simpl. apply Forall_cons_1 in Hz as [? _]. by rewrite decide_True. }
  assert (forward <$> cell (nodes zsl_demo) (header zsl_demo) 0 = Some (Some 3)) as H3 by by vm_compute.
  rewrite Hc in H3. injection H3 as H3. rewrite <- Hf, H3. by vm_compute.
Qed.

Lemma zsl_rank_correct_witness :
  zslGetRank zsl_demo two (str [97]) = Ok 2 /\ zslGetElementByRank zsl_demo 2 = Ok (Some 4) /\ zslGetElementByRank zsl_demo 4 = Ok None.
Proof.
  destruct (zsl_rank_correct _ _ _ zsl_demo demo_towers zsl_demo_ok) as (Hrank & _ & Hel).
  destruct (Hrank [mkTower 3 one (str [99]) 3] (mkTower 4 two (str [97]) 2) [mkTower 2 two (str [98]) 1] two eq_refl eq_refl) as [H1 H2].
  split; [exact H1|]. split; [exact H2|]. exact (Hel 4 ltac:(lia)).
Defined.

Lemma zslNth_correct_witness :
  zslNthInRange zsl_demo (mkRange one two true false) (-1) = Ok (Some 2) /\ zslNthInRange zsl_demo (mkRange one one true false) 0 = Ok None.
Proof.
  destruct (zslNth_correct _ _ _ zsl_demo demo_towers [] (-1) (proj1 zsl_demo_ok) ltac:(unfold in_s; pow_const; lia)) as [H1 _].
  destruct (zslNth_correct _ _ _ zsl_demo demo_towers [] 0 (proj1 zsl_demo_ok) ltac:(unfold in_s; pow_const; lia)) as [H2 _].
  split; [exact (H1 (mkRange one two true false) eq_refl eq_refl)|exact (H2 (mkRange one one true false) eq_refl eq_refl)].
Defined.

Lemma zslFree_correct_witness : exists zsl', zslFree (fun n => 16 * n) (fun _ => 24) zsl_demo = Ok zsl' /\ nodes zsl' = ∅ /\ zslAllocSize zsl' = 48.
Proof. exact (zslFree_correct _ _ _ zsl_demo demo_towers (proj1 zsl_demo_ok)). Defined.

Lemma zsl_modify_correct_witness :
  exists x zsl' ts, zslUpdateScore (fun n => 16 * n) (fun _ => 24) (mkLevel None 0) zsl_demo one (str [99]) two [2147483647] = Ok (x, zsl') /\
    zsl_ok (fun n => 16 * n) (fun _ => 24) 48 zsl' ts.
Proof.
  destruct (zsl_modify_correct _ _ _ (mkLevel None 0) zsl_demo demo_towers zsl_demo_ok) as (_ & _ & _ & Hupd).
  destruct (Hupd [] (mkTower 3 one (str [99]) 3) [mkTower 4 two (str [97]) 2; mkTower 2 two (str [98]) 1] one two [2147483647] 1 eq_refl eq_refl eq_refl eq_refl)
    as (zsl' & l & t & r & Hu & Hok & _).
  - intros t Ht [_ He]. cbn [app] in Ht. repeat (rewrite elem_of_cons in Ht; destruct Ht as [->|Ht]; [by apply (f_equal sds_bytes) in He|]). by apply elem_of_nil in Ht.
  - exists (t_addr t), zsl', (l ++ t :: r). split; [exact Hu|exact Hok].
Defined.

Lemma zslDeleteRange_correct_witness :
  exists zsl' d', zslDeleteRangeByRank (fun n => 16 * n) (fun _ => 24) (fun _ => 0) DICT_RESIZE_ENABLE zsl_demo 2 3 dictCreate = Ok (2, zsl', d') /\
    zsl_ok (fun n => 16 * n) (fun _ => 24) 48 zsl' [mkTower 3 one (str [99]) 3].
Proof.
  destruct (zslDeleteRange_correct _ _ _ (fun _ => 0) DICT_RESIZE_ENABLE zsl_demo demo_towers dictCreate ∅ zsl_demo_ok (create_contract (fun _ => 0))) as (_ & _ & Hrank).
  destruct (Hrank 2 3 ltac:(lia) ltac:(lia)) as (zsl' & d' & Hd & Hok & _). exists zsl', d'. split; [exact Hd|exact Hok].
Defined.
