(* ===== verification/DoubleConv.v ===== *)
(** Numbers and their texts: double2ll and d2string of src/redis-stable/src/util.c, and
    what the sorted sets need of the arithmetic of scores.

    The shortest decimal text of a number (fpconv_dtoa of deps/fpconv) and its inverse
    (fast_float_strtod of deps/fast_float) are parameters with the documented contract
    [FloatText]. *)

From Stdlib Require Import SpecFloat String.
From S2P Require Import Prelude Machine UtilNum Double.

(** A number in the format: 53 bits of mantissa, exponents below 1024. *)
Definition valid (x : double) : bool := valid_binary 53 1024 x.

(** (double)v and (long long)d; the second is only defined when the value fits. *)
Definition double_of_ll (v : Z) : double := binary_normalize 53 1024 v 0 false.
Definition ll_of_double (d : double) : Z :=
  match d with S754_finite s m e => cond_Zopp s (Z.shiftl (Zpos m) e) | _ => 0 end.

(** * Conversions *)

(** [None] is the result 0. *)
Definition double2ll (d : double) : option Z :=
  if dlt d (double_of_ll (- (LLONG_MAX / 2))) || dlt (double_of_ll (LLONG_MAX / 2)) d then None
  else
    let ll := ll_of_double d in
    if deq (double_of_ll ll) d then Some ll else None.

Definition isinf (x : double) : bool := match x with S754_infinity _ => true | _ => false end.

(** snprintf of a text without conversions *)
Definition snprintf (buf : list Z) (len : Z) (txt : list Z) : res (Z * list Z) :=
  if len =? 0 then Ok (zlength txt, buf)
  else let! buf := store 0 (take (Z.to_nat (len - 1)) txt ++ [0]) buf in Ok (zlength txt, buf).

Definition MAX_D2STRING_CHARS : Z := 128.

Section Text.
Context (fpconv_dtoa : double -> list Z) (fast_float_strtod : list Z -> double).

Definition d2string (buf : list Z) (len : Z) (value : double) : res (Z * list Z) :=
  if isnan value then snprintf buf len (bytes_of "nan"%string)
  else if isinf value then
    if dlt value (S754_zero false) then snprintf buf len (bytes_of "-inf"%string) else snprintf buf len (bytes_of "inf"%string)
  else if deq value (S754_zero false) then
    if dlt (SFdiv 53 1024 (double_of_ll 1) value) (S754_zero false) then snprintf buf len (bytes_of "-0"%string)
    else snprintf buf len (bytes_of "0"%string)
  else
    match double2ll value with
    | Some lvalue => ll2string buf len lvalue
    | None =>
        let txt := fpconv_dtoa value in
        let! buf := store 0 txt buf in
        let! buf := set1 (zlength txt) 0 buf in
        Ok (zlength txt, buf)
    end.

(** The contract of the two functions: a finite number that is not zero is printed to at
    most 24 characters, which read back as the number; integers and infinities are read
    in the notation of the C library. *)
Class FloatText : Prop := {
  dtoa_bytes : forall s m e, valid (S754_finite s m e) = true ->
    Forall (fun c => 0 < c < 256) (fpconv_dtoa (S754_finite s m e)) /\ zlength (fpconv_dtoa (S754_finite s m e)) <= 24;
  strtod_dtoa : forall s m e, valid (S754_finite s m e) = true ->
    fast_float_strtod (fpconv_dtoa (S754_finite s m e)) = S754_finite s m e;
  strtod_int : forall v txt, in_s 64 v -> sdecimal v txt -> fast_float_strtod txt = double_of_ll v;
  strtod_inf : forall s : bool, fast_float_strtod (bytes_of (if s then "-inf" else "inf")%string) = S754_infinity s
}.
End Text.

(** * The format is closed under rounding *)

Lemma digits_log2 m : Zdigits2 (Zpos m) = Z.log2 (Zpos m) + 1.
Proof.
  induction m as [m IH|m IH|]; [| |done]; simpl Zdigits2 in *; rewrite Pos2Z.inj_succ, IH.
  - change (Zpos m~1) with (2 * Zpos m + 1). rewrite Z.log2_succ_double by lia. lia.
  - change (Zpos m~0) with (2 * Zpos m). rewrite Z.log2_double by lia. lia.
Qed.

Lemma digits_pos m : 0 < m -> Zdigits2 m = Z.log2 m + 1.
Proof. destruct m as [|m|m]; [lia|intros _; apply digits_log2|lia]. Qed.

Lemma iter_pos_nat {A} (f : A -> A) p : forall x, SpecFloat.iter_pos f p x = Nat.iter (Pos.to_nat p) f x.
Proof.
  induction p as [p IH|p IH|]; intros x; cbn [SpecFloat.iter_pos]; [| |done]; rewrite !IH, <- ?Nat.iter_succ_r, <- Nat.iter_add.
  - rewrite Pos2Nat.inj_xI. f_equal. lia.
  - rewrite Pos2Nat.inj_xO. f_equal. lia.
Qed.

Lemma shr_1_half r : 0 <= shr_m r -> shr_m (shr_1 r) = Z.div2 (shr_m r).
Proof. destruct r as [[|[p|p|]|p] ? ?]; simpl; done || lia. Qed.

Lemma shr_iter n : forall r, 0 <= shr_m r -> shr_m (Nat.iter n shr_1 r) = Z.shiftr (shr_m r) (Z.of_nat n).
Proof.
  induction n as [|n IH]; intros r Hr; [by rewrite Z.shiftr_0_r|]. rewrite Nat.iter_succ, shr_1_half; rewrite IH by done.
  - rewrite Z.div2_spec, Z.shiftr_shiftr by lia. f_equal. lia.
  - by apply Z.shiftr_nonneg.
Qed.

Lemma record_of_loc_m m l : shr_m (shr_record_of_loc m l) = m.
Proof. by destruct l as [|[]]. Qed.

Notation fexp := (SpecFloat.fexp 53 1024).
Lemma fexp_eq e : fexp e = Z.max (e - 53) (-1074).
Proof. done. Qed.

Lemma shr_fexp_spec m e l : 0 <= m -> let '(r, e') := shr_fexp 53 1024 m e l in
  let d := Z.max 0 (fexp (Zdigits2 m + e) - e) in shr_m r = Z.shiftr m d /\ e' = e + d.
Proof.
  intros Hm. unfold shr_fexp, shr. cbn zeta. destruct (_ - e) as [|p|p]; rewrite ?record_of_loc_m.
  - by rewrite Z.shiftr_0_r, Z.add_0_r.
  - rewrite iter_pos_nat, shr_iter by (by rewrite record_of_loc_m). rewrite record_of_loc_m, positive_nat_Z.
    by replace (Z.max 0 (Zpos p)) with (Zpos p) by lia.
  - replace (Z.max 0 (Zneg p)) with 0 by lia. by rewrite Z.shiftr_0_r, Z.add_0_r.
Qed.

(** A mantissa with digits enough for its exponent is cut to the digits that the exponent
    asks for. *)
Lemma shr_fexp_canonical m e l : 0 < m -> e <= fexp (Zdigits2 m + e) ->
  let '(r, e') := shr_fexp 53 1024 m e l in
  e' = fexp (Zdigits2 m + e) /\ 0 <= shr_m r /\ (0 < shr_m r -> fexp (Zdigits2 (shr_m r) + e') = e') /\ (shr_m r = 0 -> e' = -1074).
Proof.
  intros Hm He. pose proof (shr_fexp_spec m e l ltac:(lia)) as Hs. destruct (shr_fexp 53 1024 m e l) as [r e'].
  cbn zeta in Hs. replace (Z.max 0 _) with (fexp (Zdigits2 m + e) - e) in Hs by lia. destruct Hs as [Hr He'].
  assert (He2 : e' = fexp (Zdigits2 m + e)) by lia. rewrite <- He2 in Hr. rewrite (digits_pos m Hm), fexp_eq in He2.
  pose proof (Z.log2_shiftr m (e' - e) Hm) as Hlog. rewrite <- Hr in Hlog.
  split; [rewrite (digits_pos m Hm), fexp_eq; lia|]. split; [rewrite Hr; apply Z.shiftr_nonneg; lia|]. split.
  - intros Hp. rewrite (digits_pos _ Hp), fexp_eq. pose proof (Z.shiftr_div_pow2 m (e' - e)).
    destruct (Z.max_spec 0 (Z.log2 m - (e' - e))) as [[? E]|[? E]]; rewrite E in Hlog; [lia|].
    assert (Z.log2 m < e' - e \/ Z.log2 m = e' - e) as [Hlt|Heq] by lia; [|lia].
    rewrite Z.shiftr_eq_0 in Hr by (done || lia). lia.
  - intros Hz. rewrite Hz in Hr. symmetry in Hr. apply Z.shiftr_eq_0_iff in Hr. lia.
Qed.

Lemma round_bounds m l : m <= round_nearest_even m l <= m + 1.
Proof. destruct l as [|[]]; simpl; [lia| |lia|lia]. destruct (Z.even m); lia. Qed.

Lemma fexp_mono a b : a <= b -> fexp a <= fexp b.
Proof. rewrite !fexp_eq. lia. Qed.

Lemma round_aux_valid sx m e l : 0 < m -> e <= fexp (Zdigits2 m + e) -> valid (binary_round_aux 53 1024 sx m e l) = true.
Proof.
  intros Hm He. unfold binary_round_aux. pose proof (shr_fexp_canonical m e l Hm He) as H1. destruct (shr_fexp 53 1024 m e l) as [r1 e1].
  destruct H1 as (He1 & Hp1 & Hc1 & Hz1). pose proof (round_bounds (shr_m r1) (loc_of_shr_record r1)) as Hb.
  set (m2 := round_nearest_even _ _) in *. destruct (Z.eq_dec m2 0) as [Hm2|Hm2].
  - rewrite Hm2. pose proof (shr_fexp_spec 0 e1 loc_Exact ltac:(lia)) as H2. destruct (shr_fexp 53 1024 0 e1 loc_Exact) as [r2 e2].
    destruct H2 as [-> _]. by rewrite Z.shiftr_0_l.
  - assert (e1 <= fexp (Zdigits2 m2 + e1)) as Hle.
    { destruct (Z.eq_dec (shr_m r1) 0) as [Hz|Hz]; [rewrite fexp_eq, Hz1 by done; lia|].
      rewrite <- (Hc1 ltac:(lia)) at 1. apply fexp_mono. rewrite !digits_pos by lia. pose proof (Z.log2_le_mono (shr_m r1) m2). lia. }
    pose proof (shr_fexp_canonical m2 e1 loc_Exact ltac:(lia) Hle) as H2. destruct (shr_fexp 53 1024 m2 e1 loc_Exact) as [r2 e2].
    destruct H2 as (_ & Hp2 & Hc2 & _). destruct (shr_m r2) as [|p|p] eqn:Er; [done| |lia].
    destruct (Z.leb_spec e2 (1024 - 53)); [|done]. simpl. unfold bounded, canonical_mantissa. apply andb_true_iff. split; [|by apply Z.leb_le].
    apply Z.eqb_eq. apply (Hc2 ltac:(lia)).
Qed.

Lemma shift_left_pos m d : Zpos (Pos.iter xO m d) = Z.shiftl (Zpos m) (Zpos d).
Proof. unfold Z.shiftl. by apply (Pos.iter_swap_gen _ _ Zpos xO (Z.mul 2)). Qed.

Lemma binary_round_valid sx m e : valid (binary_round 53 1024 sx m e) = true.
Proof.
  unfold binary_round, shl_align. change (Zpos (digits2_pos m)) with (Zdigits2 (Zpos m)).
  destruct (_ - e) as [|d|d] eqn:Ed; [apply round_aux_valid; lia..|].
  apply round_aux_valid; [lia|]. rewrite shift_left_pos, (digits_pos (Z.shiftl _ _)) by (rewrite Z.shiftl_mul_pow2 by lia; lia).
  rewrite Z.log2_shiftl by lia. rewrite digits_log2 in Ed |- *.
  replace (Z.log2 (Zpos m) + Zpos d + 1 + fexp (Z.log2 (Zpos m) + 1 + e)) with (Z.log2 (Zpos m) + 1 + e) by lia. lia.
Qed.

Lemma normalize_valid m e s : valid (binary_normalize 53 1024 m e s) = true.
Proof. destruct m; [done|apply binary_round_valid..]. Qed.

Lemma double_of_ll_valid v : valid (double_of_ll v) = true.
Proof. apply normalize_valid. Qed.

Lemma dadd_valid x y : valid x = true -> valid y = true -> valid (dadd x y) = true.
Proof.
  destruct x as [[]|[]| |], y as [[]|[]| |]; try done. intros _ _. apply normalize_valid.
Qed.

(** * Scores up to the sign of zero *)

Definition norm (x : double) : double := match x with S754_zero _ => S754_zero false | _ => x end.

Lemma deq_norm x y : deq x y = true -> norm x = norm y.
Proof.
  destruct x as [[]|[]| |[] mx ex], y as [[]|[]| |[] my ey]; try done; unfold deq, SFeqb; simpl;
    (destruct (Z.compare_spec ex ey) as [->| |]; [|done..]; change (Pos.compare_cont Eq mx my) with (Pos.compare mx my);
     by destruct (Pos.compare_spec mx my) as [->| |]).
Qed.

Lemma norm_deq x y : isnan x = false -> norm x = norm y -> deq x y = true.
Proof.
  destruct x as [sx|sx| |sx mx ex], y as [sy|sy| |sy my ey]; try done; intros _ [=]; subst; unfold deq, SFeqb; simpl.
  - by destruct sy.
  - rewrite Z.compare_refl. change (Pos.compare_cont Eq my my) with (Pos.compare my my). rewrite Pos.compare_refl. by destruct sy.
Qed.

Lemma norm_nan x : isnan (norm x) = isnan x.
Proof. by destruct x. Qed.
Lemma norm_valid x : valid (norm x) = valid x.
Proof. by destruct x. Qed.
Lemma norm_norm x : norm (norm x) = norm x.
Proof. by destruct x. Qed.
Lemma dlt_norm x y : dlt (norm x) (norm y) = dlt x y.
Proof. by destruct x as [[]|[]| |[]], y as [[]|[]| |[]]. Qed.
Lemma deq_norm_eq x y : deq (norm x) (norm y) = deq x y.
Proof. by destruct x as [[]|[]| |[]], y as [[]|[]| |[]]. Qed.
Lemma dle_norm x y : dle (norm x) (norm y) = dle x y.
Proof. by destruct x as [[]|[]| |[]], y as [[]|[]| |[]]. Qed.
Lemma dadd_norm x y : norm (dadd (norm x) (norm y)) = norm (dadd x y).
Proof. by destruct x as [[]|[]| |[]], y as [[]|[]| |[]]. Qed.

(** * The text of a score *)

Lemma valid_mantissa s m e : valid (S754_finite s m e) = true -> Zpos m < 2 ^ 53.
Proof.
  simpl. unfold bounded, canonical_mantissa. rewrite andb_true_iff, Z.eqb_eq, fexp_eq. change (Zpos (digits2_pos m)) with (Zdigits2 (Zpos m)).
  rewrite digits_log2. intros [Hc _]. apply Z.log2_lt_pow2; lia.
Qed.

Lemma half_max : double_of_ll (LLONG_MAX / 2) = S754_finite false 4503599627370496 10.
Proof. vm_compute. done. Qed.
Lemma half_min : double_of_ll (- (LLONG_MAX / 2)) = S754_finite true 4503599627370496 10.
Proof. vm_compute. done. Qed.

Lemma shifted_bound m e : Zpos m < 2 ^ 53 -> e < 10 \/ e = 10 /\ Zpos m <= 4503599627370496 -> 0 <= Z.shiftl (Zpos m) e <= 2 ^ 62.
Proof.
  intros Hm He. split; [apply Z.shiftl_nonneg; lia|]. destruct (Z.le_gt_cases 0 e) as [Hp|Hn].
  - rewrite Z.shiftl_mul_pow2 by lia. destruct He as [He|[-> He]]; [|pow_const; lia].
    pose proof (Z.pow_le_mono_r 2 e 9 ltac:(lia) ltac:(lia)). pow_const. nia.
  - replace e with (- (- e)) by lia. rewrite Z.shiftl_opp_r, Z.shiftr_div_pow2 by lia. pow_const.
    pose proof (Z.div_le_upper_bound (Zpos m) (2 ^ (- e)) (Zpos m) ltac:(lia)). nia.
Qed.

(** An integer score is stored as an integer that converts back to the score. *)
Lemma double2ll_Some d v : valid d = true -> double2ll d = Some v -> in_s 64 v /\ norm (double_of_ll v) = norm d.
Proof.
  intros Hv. unfold double2ll. rewrite half_max, half_min. destruct (_ || _) eqn:Hr; [done|]. apply orb_false_iff in Hr as [Hr1 Hr2].
  destruct (deq _ _) eqn:He; [|done]. intros [= <-]. split; [|by apply deq_norm]. clear He.
  destruct d as [?|?| |s m e]; [by simpl; unfold in_s; pow_const; lia..|].
  assert (e < 10 \/ e = 10 /\ Zpos m <= 4503599627370496) as Hb.
  { set (M := 4503599627370496%positive) in *. clearbody M. unfold dlt, SFltb, SFcompare in Hr1, Hr2. change (Pos.compare_cont Eq) with Pos.compare in *.
    destruct s; [clear Hr2|clear Hr1].
    - destruct (Z.compare_spec e 10) as [E| |]; [|lia|done]. right. split; [done|]. by destruct (Pos.compare_spec m M); [lia..|].
    - destruct (Z.compare_spec 10 e) as [E| |]; [|done|lia]. right. split; [done|]. by destruct (Pos.compare_spec M m); [lia| |lia]. }
  pose proof (shifted_bound m e (valid_mantissa _ _ _ Hv) Hb). simpl. unfold in_s, cond_Zopp. destruct s; pow_const; lia.
Qed.

(** ** The text of a score that is not an integer *)

Section TextSpec.
Context (fpconv_dtoa : double -> list Z) (fast_float_strtod : list Z -> double) `{!FloatText fpconv_dtoa fast_float_strtod}.

Lemma store_fresh (txt : list Z) (k : nat) junk : (length txt <= k)%nat ->
  store 0 txt (replicate k junk) = Ok (txt ++ replicate (k - length txt) junk).
Proof.
  intros Hl. replace (replicate k junk) with (replicate (length txt) junk ++ replicate (k - length txt) junk) by (rewrite <- replicate_add; f_equal; lia).
  apply (store_app [] (replicate (length txt) junk)); [done|by rewrite length_replicate].
Qed.

Lemma d2string_spec junk d : valid d = true -> isnan d = false -> double2ll d = None ->
  exists txt rest, d2string fpconv_dtoa (replicate (Z.to_nat MAX_D2STRING_CHARS) junk) MAX_D2STRING_CHARS d = Ok (zlength txt, txt ++ rest) /\
    fast_float_strtod txt = d /\ Forall (fun c => 0 < c < 256) txt /\ zlength txt <= 24.
Proof.
  intros Hv Hn Hll. unfold d2string. rewrite Hn. destruct d as [s|s| |s m e]; [by destruct s|..|done|].
  - exists (bytes_of (if s then "-inf" else "inf")%string).
    assert (exists rest, d2string fpconv_dtoa (replicate (Z.to_nat MAX_D2STRING_CHARS) junk) MAX_D2STRING_CHARS (S754_infinity s) =
      Ok (zlength (bytes_of (if s then "-inf" else "inf")%string), bytes_of (if s then "-inf" else "inf")%string ++ rest)) as [rest Hrest]
      by (destruct s; eexists; vm_compute; reflexivity).
    exists rest. split; [exact Hrest|]. split; [exact (strtod_inf fpconv_dtoa fast_float_strtod s)|]. split; [|by destruct s; vm_compute].
    apply (bool_decide_unpack _). by destruct s; vm_compute.
  - cbn [isinf]. replace (deq (S754_finite s m e) (S754_zero false)) with false by (by destruct s). rewrite Hll.
    destruct (dtoa_bytes fpconv_dtoa fast_float_strtod s m e Hv) as [Hb Hl]. set (txt := fpconv_dtoa _) in *. exists txt.
    rewrite store_fresh by (unfold MAX_D2STRING_CHARS; lia). destruct (Z.to_nat MAX_D2STRING_CHARS - length txt)%nat as [|k] eqn:Ek; [unfold MAX_D2STRING_CHARS in Ek; lia|].
    simpl replicate. rewrite set1_app by done. eexists. split; [done|]. split_and!; [exact (strtod_dtoa fpconv_dtoa fast_float_strtod s m e Hv)|done|done].
Qed.
End TextSpec.
