(* ===== verification/Zzl.v ===== *)
(** Sorted sets in a listpack, the model: the zzl functions of src/redis-stable/src/t_zset.c.

    The listpack alternates elements and scores, ordered by score and then by element.  A
    score is stored as an integer if it is one, and as its decimal text otherwise.  A
    pointer into the listpack is an offset; the listpack that an insertion returns is
    [None] for NULL. *)

From S2P Require Import Prelude Machine UtilNum Double DoubleConv Listpack ListpackBatch SetType Skiplist.

(** The C string at the start of a buffer. *)
Fixpoint c_string (bs : list Z) : list Z :=
  match bs with [] => [] | c :: bs => if c =? 0 then [] else c :: c_string bs end.

Section Zzl.
Context (junk : Z) (fpconv_dtoa : double -> list Z) (fast_float_strtod : list Z -> double).
Implicit Types (zl : list Z) (eptr sptr : option Z) (range : zrangespec) (lrange : zlexrangespec).

(** * Reading *)

Definition zzlStrtod (vstr : list Z) (vlen : Z) : res double :=
  let vlen := if vlen >? 127 then 127 else vlen in
  let! buf := load 0 vlen vstr in
  Ok (fast_float_strtod (c_string (buf ++ [0]))).

(** serverAssert(p != NULL) *)
Definition non_null (p : option Z) : res Z := match p with Some p => Ok p | None => Fault AssertFailed end.

Definition zzlGetScore zl sptr : res double :=
  let! sptr := non_null sptr in
  let! v := lpGetValue zl sptr in
  match v with
  | inl (off, vlen) => let! vstr := load off vlen zl in zzlStrtod vstr vlen
  | inr vlong => Ok (double_of_ll vlong)
  end.

Definition lpGetObject zl sptr : res sds :=
  let! sptr := non_null sptr in
  let! v := lpGetValue zl sptr in
  match v with
  | inl (off, vlen) => let! vstr := load off vlen zl in sdsnewlen vstr
  | inr vlong => sdsfromlonglong junk vlong
  end.

Definition zzlCompareElements zl (eptr : Z) (cstr : list Z) (clen : Z) : res Z :=
  let! v := lpGetValue zl eptr in
  let! '(vstr, vlen) :=
    (match v with
     | inl (off, vlen) => let! vstr := load off vlen zl in Ok (vstr, vlen)
     | inr vlong => let! '(vlen, vbuf) := ll2string (replicate 32 junk) 32 vlong in Ok (vbuf, u32 vlen)
     end) in
  let minlen := if vlen <? clen then vlen else clen in
  let cmp := memcmp (Z.to_nat minlen) vstr cstr in
  Ok (if cmp =? 0 then s32 (u32 (vlen - clen)) else cmp).

(** lpLength repairs the count in the header: the listpack is returned as well. *)
Definition zzlLength zl : res (Z * list Z) :=
  let! '(n, zl) := lpLength zl in Ok (u32 (n / 2), zl).

Definition zzlNext zl eptr sptr : res (option Z * option Z) :=
  let! _ := non_null eptr in
  let! sptr := non_null sptr in
  let! _eptr := lpNext zl sptr in
  match _eptr with
  | Some e => let! _sptr := lpNext zl e in let! _ := non_null _sptr in Ok (_eptr, _sptr)
  | None => Ok (None, None)
  end.

Definition zzlPrev zl eptr sptr : res (option Z * option Z) :=
  let! eptr := non_null eptr in
  let! _ := non_null sptr in
  let! _sptr := lpPrev zl eptr in
  match _sptr with
  | Some s => let! _eptr := lpPrev zl s in let! _ := non_null _eptr in Ok (_eptr, _sptr)
  | None => Ok (None, None)
  end.

(** * Ranges *)

Definition zzlIsInRange zl range : res bool :=
  if dlt (max range) (min range) || (deq (min range) (max range) && (minex range || maxex range)) then Ok false
  else
    let! p := lpSeek zl (-1) in
    match p with
    | None => Ok false
    | Some _ =>
        let! score := zzlGetScore zl p in
        if negb (zslValueGteMin score range) then Ok false
        else
          let! p := lpSeek zl 1 in
          let! _ := non_null p in
          let! score := zzlGetScore zl p in
          Ok (zslValueLteMax score range)
    end.

Fixpoint first_loop (fuel : nat) zl range eptr : res (option Z) :=
  match eptr with
  | None => Ok None
  | Some e =>
      match fuel with
      | O => Fault OutOfFuel
      | S fuel =>
          let! sptr := lpNext zl e in
          let! s := non_null sptr in
          let! score := zzlGetScore zl sptr in
          if zslValueGteMin score range then Ok (if zslValueLteMax score range then Some e else None)
          else let! eptr := lpNext zl s in first_loop fuel zl range eptr
      end
  end.

Definition zzlFirstInRange zl range : res (option Z) :=
  let! eptr := lpSeek zl 0 in
  let! b := zzlIsInRange zl range in
  if negb b then Ok None else first_loop (length zl) zl range eptr.

Fixpoint last_loop (fuel : nat) zl range eptr : res (option Z) :=
  match eptr with
  | None => Ok None
  | Some e =>
      match fuel with
      | O => Fault OutOfFuel
      | S fuel =>
          let! sptr := lpNext zl e in
          let! _ := non_null sptr in
          let! score := zzlGetScore zl sptr in
          if zslValueLteMax score range then Ok (if zslValueGteMin score range then Some e else None)
          else
            let! sptr := lpPrev zl e in
            match sptr with
            | Some s => let! eptr := lpPrev zl s in let! _ := non_null eptr in last_loop fuel zl range eptr
            | None => Ok None
            end
      end
  end.

Definition zzlLastInRange zl range : res (option Z) :=
  let! eptr := lpSeek zl (-2) in
  let! b := zzlIsInRange zl range in
  if negb b then Ok None else last_loop (length zl) zl range eptr.

Definition zzlLexValueGteMin zl (p : option Z) lrange : res bool :=
  let! value := lpGetObject zl p in Ok (zslLexValueGteMin value lrange).

Definition zzlLexValueLteMax zl (p : option Z) lrange : res bool :=
  let! value := lpGetObject zl p in Ok (zslLexValueLteMax value lrange).

Definition zzlIsInLexRange zl lrange : res bool :=
  let cmp := sdscmplex (lexmin lrange) (lexmax lrange) in
  if (cmp >? 0) || ((cmp =? 0) && (lexminex lrange || lexmaxex lrange)) then Ok false
  else
    let! p := lpSeek zl (-2) in
    match p with
    | None => Ok false
    | Some _ =>
        let! b := zzlLexValueGteMin zl p lrange in
        if negb b then Ok false
        else
          let! p := lpSeek zl 0 in
          let! _ := non_null p in
          zzlLexValueLteMax zl p lrange
    end.

Fixpoint first_lex_loop (fuel : nat) zl lrange eptr : res (option Z) :=
  match eptr with
  | None => Ok None
  | Some e =>
      match fuel with
      | O => Fault OutOfFuel
      | S fuel =>
          let! gte := zzlLexValueGteMin zl eptr lrange in
          if gte then let! lte := zzlLexValueLteMax zl eptr lrange in Ok (if lte then Some e else None)
          else
            let! sptr := lpNext zl e in
            let! s := non_null sptr in
            let! eptr := lpNext zl s in
            first_lex_loop fuel zl lrange eptr
      end
  end.

Definition zzlFirstInLexRange zl lrange : res (option Z) :=
  let! eptr := lpSeek zl 0 in
  let! b := zzlIsInLexRange zl lrange in
  if negb b then Ok None else first_lex_loop (length zl) zl lrange eptr.

Fixpoint last_lex_loop (fuel : nat) zl lrange eptr : res (option Z) :=
  match eptr with
  | None => Ok None
  | Some e =>
      match fuel with
      | O => Fault OutOfFuel
      | S fuel =>
          let! lte := zzlLexValueLteMax zl eptr lrange in
          if lte then let! gte := zzlLexValueGteMin zl eptr lrange in Ok (if gte then Some e else None)
          else
            let! sptr := lpPrev zl e in
            match sptr with
            | Some s => let! eptr := lpPrev zl s in let! _ := non_null eptr in last_lex_loop fuel zl lrange eptr
            | None => Ok None
            end
      end
  end.

Definition zzlLastInLexRange zl lrange : res (option Z) :=
  let! eptr := lpSeek zl (-2) in
  let! b := zzlIsInLexRange zl lrange in
  if negb b then Ok None else last_lex_loop (length zl) zl lrange eptr.

(** * Modifications *)

(** The element's position and its score. *)
Definition zzlFind zl (ele : sds) : res (option (Z * double)) :=
  let! eptr := lpFirst zl in
  match eptr with
  | None => Ok None
  | Some _ =>
      let! eptr := lpFind zl eptr (sds_bytes ele) (zlength (sds_bytes ele)) 1 in
      match eptr with
      | None => Ok None
      | Some e =>
          let! sptr := lpNext zl e in
          let! _ := non_null sptr in
          let! score := zzlGetScore zl sptr in
          Ok (Some (e, score))
      end
  end.

Definition zzlDelete zl (eptr : Z) : res (list Z) :=
  let! '(zl, _) := lpDeleteRangeWithEntry junk zl eptr 2 in Ok zl.

Definition score_entry (score : double) : res listpackEntry :=
  match double2ll score with
  | Some lscore => Ok {| sval := None; slen := 0; lval := lscore |}
  | None =>
      let! '(scorelen, scorebuf) := d2string fpconv_dtoa (replicate (Z.to_nat MAX_D2STRING_CHARS) junk) MAX_D2STRING_CHARS score in
      let! txt := load 0 scorelen scorebuf in
      Ok {| sval := Some txt; slen := scorelen; lval := 0 |}
  end.

Definition zzlInsertAt zl eptr (ele : sds) (score : double) : res (option (list Z)) :=
  let! e1 := score_entry score in
  let entries := [{| sval := Some (sds_bytes ele); slen := zlength (sds_bytes ele); lval := 0 |}; e1] in
  match eptr with
  | None => lpBatchAppend junk zl entries
  | Some p => let! r := lpBatchInsert junk zl p LP_BEFORE entries in Ok (fst <$> r)
  end.

Fixpoint insert_loop (fuel : nat) zl eptr (ele : sds) (score : double) : res (option (list Z)) :=
  match eptr with
  | None => zzlInsertAt zl None ele score
  | Some e =>
      match fuel with
      | O => Fault OutOfFuel
      | S fuel =>
          let! sptr := lpNext zl e in
          let! sp := non_null sptr in
          let! s := zzlGetScore zl sptr in
          if dlt score s then zzlInsertAt zl eptr ele score
          else
            let! here := (if deq s score then let! cmp := zzlCompareElements zl e (sds_bytes ele) (zlength (sds_bytes ele)) in Ok (cmp >? 0) else Ok false) in
            if here then zzlInsertAt zl eptr ele score
            else let! eptr := lpNext zl sp in insert_loop fuel zl eptr ele score
      end
  end.

Definition zzlInsert zl (ele : sds) (score : double) : res (option (list Z)) :=
  let! eptr := lpSeek zl 0 in
  insert_loop (length zl) zl eptr ele score.

(** The loop of zzlDeleteRangeByScore and zzlDeleteRangeByLex; [in_range] tests the pair at
    the two pointers. *)
Fixpoint delete_loop (fuel : nat) (in_range : list Z -> option Z -> option Z -> res bool) zl eptr (num : Z) : res (list Z * Z) :=
  match eptr with
  | None => Ok (zl, num)
  | Some e =>
      let! sptr := lpNext zl e in
      match sptr with
      | None => Ok (zl, num)
      | Some _ =>
          match fuel with
          | O => Fault OutOfFuel
          | S fuel =>
              let! b := in_range zl eptr sptr in
              if (b : bool) then
                let! '(zl, eptr) := lpDeleteRangeWithEntry junk zl e 2 in
                delete_loop fuel in_range zl eptr (u64 (num + 1))
              else Ok (zl, num)
          end
      end
  end.

Definition zzlDeleteRangeByScore zl range : res (list Z * Z) :=
  let! eptr := zzlFirstInRange zl range in
  match eptr with
  | None => Ok (zl, 0)
  | Some _ =>
      delete_loop (S (length zl)) (fun zl _ sptr => let! score := zzlGetScore zl sptr in Ok (zslValueLteMax score range)) zl eptr 0
  end.

Definition zzlDeleteRangeByLex zl lrange : res (list Z * Z) :=
  let! eptr := zzlFirstInLexRange zl lrange in
  match eptr with
  | None => Ok (zl, 0)
  | Some _ => delete_loop (S (length zl)) (fun zl eptr _ => zzlLexValueLteMax zl eptr lrange) zl eptr 0
  end.

(** [start] and [end] are unsigned int. *)
Definition zzlDeleteRangeByRank zl (start end_ : Z) : res (list Z * Z) :=
  let num := u32 (u32 (end_ - start) + 1) in
  let! zl := lpDeleteRange junk zl (u32 (2 * u32 (start - 1))) (u32 (2 * num)) in
  Ok (zl, num).

End Zzl.
