(* ===== verification/ZzlInv.v ===== *)
(** Sorted sets in a listpack: what the bytes represent, and the contract of the zzl
    functions of src/redis-stable/src/t_zset.c. *)

From Stdlib Require Import SpecFloat String.
From stdpp Require Import gmap sorting.
From S2P Require Import Prelude Machine UtilNum Double DoubleConv Listpack ListpackEnc ListpackSeq ListpackRead ListpackUpd ListpackSpec ListpackBatch SetType SetTypeSpec Skiplist ZOrder Zzl.

(** The elements of the listpack: a pair is the element of the set and the entry that holds
    its score. *)
Definition pairs (zs : list (sds * elem)) : list elem := concat (map (fun p => [elem_of (sds_bytes p.1); p.2]) zs).

Lemma pairs_app zs1 zs2 : pairs (zs1 ++ zs2) = pairs zs1 ++ pairs zs2.
Proof. unfold pairs. by rewrite map_app, concat_app. Qed.

Lemma pairs_cons p zs : pairs (p :: zs) = elem_of (sds_bytes p.1) :: p.2 :: pairs zs.
Proof. done. Qed.

Lemma pairs_length zs : length (pairs zs) = (2 * length zs)%nat.
Proof. induction zs as [|p zs IH]; [done|]. rewrite pairs_cons. simpl. rewrite IH. lia. Qed.

(** * Members *)

Definition nmember (a : member) : member := (norm a.1, a.2).

Lemma mlt_norm a b : mlt (nmember a) (nmember b) <-> mlt a b.
Proof. unfold mlt, mltb. simpl. by rewrite dlt_norm, deq_norm_eq. Qed.

Lemma mlt_nmember a b a' b' : nmember a = nmember a' -> nmember b = nmember b' -> mlt a b <-> mlt a' b'.
Proof. intros Ha Hb. by rewrite <- (mlt_norm a), <- (mlt_norm a'), Ha, Hb. Qed.

(** A new member put before the first greater one. *)
Lemma members_insert (ms : list member) k a :
  StronglySorted mlt ms -> Forall num ms -> num a -> a.2 ∉ ms.*2 ->
  (forall j x, (j < k)%nat -> ms !! j = Some x -> ~ mlt a x) -> (forall x, ms !! k = Some x -> mlt a x) ->
  StronglySorted mlt (take k ms ++ a :: drop k ms).
Proof.
  intros Hs Hn Ha Hout Hb Hk. rewrite list.Forall_forall in Hn.
  assert (Hleft : forall x, x ∈ take k ms -> mlt x a).
  { intros x [j Hj]%list_elem_of_lookup. apply lookup_take_Some in Hj as [Hj Hjk]. assert (x ∈ ms) as Hx by (by eapply list_elem_of_lookup_2).
    destruct (mlt_total x a (Hn x Hx) Ha) as [?|[[_ E]|?]]; [done| |by destruct (Hb j x Hjk Hj)].
    destruct Hout. rewrite <- E. apply list_elem_of_fmap. by exists x. }
  rewrite <- (take_drop k ms) in Hs. apply StronglySorted_app in Hs as (Hcross & Hs1 & Hs2). apply StronglySorted_app. split_and!; [|done|].
  - intros x y Hx Hy. rewrite elem_of_cons in Hy. destruct Hy as [->|Hy]; [by apply Hleft|by apply Hcross].
  - constructor; [done|]. apply list.Forall_forall. intros y Hy. destruct (drop k ms) as [|y0 r] eqn:Ed; [by apply elem_of_nil in Hy|].
    assert (ms !! k = Some y0) as H0 by (rewrite <- (Nat.add_0_r k), <- lookup_drop, Ed; done). pose proof (Hk y0 H0) as Hlt.
    rewrite elem_of_cons in Hy. destruct Hy as [->|Hy]; [done|]. apply StronglySorted_inv in Hs2 as [_ Hf]. rewrite list.Forall_forall in Hf.
    apply (mlt_trans a y0 y); [done|apply Hn; by eapply list_elem_of_lookup_2| |done|by apply Hf].
    apply Hn. rewrite <- (take_drop k ms), Ed. apply elem_of_app. right. by right.
Qed.

Section Zzl.
Context (junk : Z) (fpconv_dtoa : double -> list Z) (fast_float_strtod : list Z -> double).
Notation zzlGetScore := (zzlGetScore fast_float_strtod).
Notation zzlFind := (zzlFind fast_float_strtod).
Notation zzlInsertAt := (zzlInsertAt junk fpconv_dtoa).
Notation zzlInsert := (zzlInsert junk fpconv_dtoa fast_float_strtod).
Implicit Types (zs : list (sds * elem)) (p : sds * elem) (es : list elem).

(** The score that an entry holds. *)
Definition read_score (e : elem) : double :=
  match e with EInt v => double_of_ll v | EStr t => fast_float_strtod (c_string (take 127 t)) end.

Definition member_of p : member := (read_score p.2, p.1).

(** No entry of a score is longer than this. *)
Definition score_max : Z := 48.

Definition score_ok (e : elem) : Prop :=
  elem_ok e /\ zlength (entry e) <= score_max /\ isnan (read_score e) = false /\ valid (read_score e) = true.

Record pair_ok p : Prop := {
  po_bytes : bytes_ok (sds_bytes p.1);
  po_score : score_ok p.2
}.

(** The size that the listpack cannot exceed as long as only scores change. *)
Definition budget zs : Z := foldr (fun p z => zlength (entry (elem_of (sds_bytes p.1))) + score_max + z) 7 zs.

Record zzl_rep (zl : list Z) zs : Prop := {
  zz_lp : is_listpack zl (pairs zs);
  zz_ok : Forall pair_ok zs;
  zz_sorted : StronglySorted mlt (member_of <$> zs);
  zz_nodup : NoDup zs.*1;
  zz_budget : budget zs <= 2 ^ 31
}.

(** * Reading *)

Lemma sds_len (e : sds) : zlength (sds_bytes e) < 2 ^ 31.
Proof. pose proof (proj2_dsig e) as H. exact H. Qed.

Lemma ele_ok (e : sds) : bytes_ok (sds_bytes e) -> elem_ok (elem_of (sds_bytes e)).
Proof. intros Hb. apply elem_of_ok; [done|]. pose proof (sds_len e). pow_const. lia. Qed.

Section At.
Context (n : Z) (slack : list Z).

Lemma getScore_at es1 e es2 : elem_ok e ->
  zzlGetScore (lp_of n (es1 ++ e :: es2) slack) (Some (pos es1)) = Ok (read_score e).
Proof.
  intros He. unfold Zzl.zzlGetScore, non_null. rewrite getValue_at by done. destruct e as [v|t]; [done|].
  rewrite str_bytes_at by done. unfold zzlStrtod.
  replace (if zlength t >? 127 then 127 else zlength t) with (zlength (take 127 t)) by (rewrite length_take; destruct (Z.gtb_spec (zlength t) 127); lia).
  assert (load 0 (zlength (take 127 t)) t = Ok (take 127 t)) as ->.
  { rewrite <- (take_drop 127 t) at 2. by rewrite (load_app [] (take 127 t) (drop 127 t)). }
  simpl. do 2 f_equal. induction (take 127 t) as [|c l IH]; [done|]. simpl. destruct (c =? 0); [done|]. by f_equal.
Qed.

Lemma getObject_at es1 (e : sds) es2 : bytes_ok (sds_bytes e) ->
  lpGetObject junk (lp_of n (es1 ++ elem_of (sds_bytes e) :: es2) slack) (Some (pos es1)) = Ok e.
Proof.
  intros Hb. destruct (text_elem_of _ Hb (sds_len e)) as (Hel & Hok & Ht). unfold lpGetObject, non_null. rewrite getValue_at by done.
  destruct (elem_object_spec junk _ Hel) as (k & Hk & Hkb). rewrite Ht in Hkb. apply sds_bytes_inj in Hkb as ->.
  destruct (elem_of (sds_bytes e)) as [v|t]; [done|]. by rewrite str_bytes_at.
Qed.

Lemma memcmp_prefix k : forall (a b c : list Z), (k <= length a)%nat -> memcmp k (a ++ b) c = memcmp k a c.
Proof.
  induction k as [|k IH]; intros [|x a] b c Hk; try done; simpl in *; [lia|]. destruct c as [|y c]; [done|].
  by rewrite IH by lia.
Qed.

(** The comparison of an element with the searched one has the sign of sdscmp. *)
Lemma compareElements_at es1 (e : sds) es2 (ele : sds) : bytes_ok (sds_bytes e) ->
  exists c, zzlCompareElements junk (lp_of n (es1 ++ elem_of (sds_bytes e) :: es2) slack) (pos es1) (sds_bytes ele) (zlength (sds_bytes ele)) = Ok c /\
    (c >? 0) = (sdscmp e ele >? 0).
Proof.
  intros Hb. pose proof (sds_len e) as Hl1. pose proof (sds_len ele) as Hl2. pow_const.
  destruct (text_elem_of _ Hb Hl1) as (_ & Hok & Ht). unfold zzlCompareElements. rewrite getValue_at by done.
  assert (exists rest, (match (match elem_of (sds_bytes e) with
      | EInt v => inr v
      | EStr str => inl (pos es1 + (zlength (enc_str str) - zlength str), zlength str)
      end) with
    | inl (off, vlen) => let! vstr := load off vlen (lp_of n (es1 ++ elem_of (sds_bytes e) :: es2) slack) in Ok (vstr, vlen)
    | inr vlong => let! '(vlen, vbuf) := ll2string (replicate 32 junk) 32 vlong in Ok (vbuf, u32 vlen)
    end) = Ok (sds_bytes e ++ rest, zlength (sds_bytes e))) as [rest ->].
  { destruct (elem_of (sds_bytes e)) as [v|t] eqn:E; simpl in Ht.
    - simpl in Hok. pose proof (proj2 (int_text_eq v _ Hok) Ht) as Hd. pose proof (sdecimal_length v _ Hok Hd).
      eexists. rewrite (ll2string_fits _ _ v (sds_bytes e) Hok Hd) by (rewrite ?length_replicate; lia).
      by rewrite u_id by (pow_const; lia).
    - exists []. rewrite str_bytes_at by done. by rewrite Ht, app_nil_r. }
  eexists. split; [done|]. unfold sdscmp. rewrite memcmp_prefix by (destruct (Z.ltb_spec (zlength (sds_bytes e)) (zlength (sds_bytes ele))); lia).
  destruct (memcmp _ _ _ =? 0); [|done].
  assert (s32 (u32 (zlength (sds_bytes e) - zlength (sds_bytes ele))) = zlength (sds_bytes e) - zlength (sds_bytes ele)) as ->.
  { unfold u, s. pow_const. rewrite Zplus_mod_idemp_l, Z.mod_small by lia. lia. }
  destruct (Z.gtb_spec (zlength (sds_bytes e)) (zlength (sds_bytes ele))), (Z.ltb_spec (zlength (sds_bytes e)) (zlength (sds_bytes ele)));
    destruct (Z.gtb_spec (zlength (sds_bytes e) - zlength (sds_bytes ele)) 0); done || lia.
Qed.

End At.

(** ** Moving over the pairs *)

Lemma pairs_ele zs i p : zs !! i = Some p -> pairs zs !! (2 * i)%nat = Some (elem_of (sds_bytes p.1)).
Proof.
  revert i. induction zs as [|q zs IH]; intros [|i] Hp; try done; rewrite pairs_cons; [by injection Hp as ->|].
  replace (2 * S i)%nat with (S (S (2 * i))) by lia. by apply IH.
Qed.

Lemma pairs_score zs i p : zs !! i = Some p -> pairs zs !! S (2 * i) = Some p.2.
Proof.
  revert i. induction zs as [|q zs IH]; intros [|i] Hp; try done; rewrite pairs_cons; [by injection Hp as ->|].
  replace (2 * S i)%nat with (S (S (2 * i))) by lia. by apply IH.
Qed.

(** The pair numbered [i], and its score. *)
Definition eptr zs (i : nat) : option Z := ptr_opt (pairs zs) (2 * i).
Definition sptr zs (i : nat) : Z := ptr (pairs zs) (S (2 * i)).

Lemma eptr_lt zs i : (i < length zs)%nat -> eptr zs i = Some (ptr (pairs zs) (2 * i)).
Proof. intros Hi. apply ptr_opt_lt. rewrite pairs_length. lia. Qed.
Lemma eptr_ge zs i : (length zs <= i)%nat -> eptr zs i = None.
Proof. intros Hi. apply ptr_opt_ge. rewrite pairs_length. lia. Qed.

Section Pairs.
Context (n : Z) (slack : list Z) (zs : list (sds * elem)).
Hypothesis Hwf : lp_wf n (pairs zs).
Hypothesis Hok : Forall pair_ok zs.
Notation zl := (lp_of n (pairs zs) slack).

Lemma next_score i : (i < length zs)%nat -> lpNext zl (ptr (pairs zs) (2 * i)) = Ok (Some (sptr zs i)).
Proof.
  intros Hi. rewrite next_at by (done || (rewrite pairs_length; lia)). unfold sptr. by rewrite ptr_opt_lt by (rewrite pairs_length; lia).
Qed.

Lemma next_pair i : (i < length zs)%nat -> lpNext zl (sptr zs i) = Ok (eptr zs (S i)).
Proof.
  intros Hi. unfold sptr. rewrite next_at by (done || (rewrite pairs_length; lia)). unfold eptr. by replace (2 * S i)%nat with (S (S (2 * i))) by lia.
Qed.

Lemma prev_pair i : (i < length zs)%nat ->
  lpPrev zl (ptr (pairs zs) (2 * i)) = Ok (match i with O => None | S i => Some (sptr zs i) end).
Proof.
  intros Hi. rewrite prev_at by (done || (rewrite pairs_length; lia)). destruct i as [|i]; [done|].
  replace (2 * S i)%nat with (S (S (2 * i))) by lia. unfold sptr. by rewrite ptr_opt_lt by (rewrite pairs_length; lia).
Qed.

Lemma prev_ele i : (i < length zs)%nat -> lpPrev zl (sptr zs i) = Ok (eptr zs i).
Proof. intros Hi. unfold sptr. by rewrite prev_at by (done || (rewrite pairs_length; lia)). Qed.

Lemma seek_first : lpSeek zl 0 = Ok (eptr zs 0).
Proof.
  rewrite seek_spec by done. unfold seek_index, eptr. rewrite pairs_length. cbn [Z.ltb Z.leb Z.compare andb].
  destruct (Z.ltb_spec 0 (Z.of_nat (2 * length zs))); [by rewrite ptr_opt_lt by (rewrite pairs_length; lia)|by rewrite ptr_opt_ge by (rewrite pairs_length; lia)].
Qed.

Lemma getScore_ptr i p : zs !! i = Some p -> zzlGetScore zl (Some (sptr zs i)) = Ok (read_score p.2).
Proof.
  intros Hp. unfold sptr. destruct (elem_split _ _ _ (pairs_score zs i p Hp)) as (es1 & es2 & -> & ->). rewrite ptr_mid.
  apply getScore_at. eapply Forall_lookup_1 in Hok; [|done]. apply Hok.
Qed.

Lemma getObject_ptr i p : zs !! i = Some p -> lpGetObject junk zl (eptr zs i) = Ok p.1.
Proof.
  intros Hp. rewrite eptr_lt by (by eapply lookup_lt_Some). destruct (elem_split _ _ _ (pairs_ele zs i p Hp)) as (es1 & es2 & -> & ->). rewrite ptr_mid.
  apply getObject_at. eapply Forall_lookup_1 in Hok; [|done]. apply Hok.
Qed.

Lemma compareElements_ptr i p (ele : sds) : zs !! i = Some p ->
  exists c, zzlCompareElements junk zl (ptr (pairs zs) (2 * i)) (sds_bytes ele) (zlength (sds_bytes ele)) = Ok c /\ (c >? 0) = (sdscmp p.1 ele >? 0).
Proof.
  intros Hp. destruct (elem_split _ _ _ (pairs_ele zs i p Hp)) as (es1 & es2 & -> & ->). rewrite ptr_mid.
  apply compareElements_at. eapply Forall_lookup_1 in Hok; [|done]. apply Hok.
Qed.

(** ** zzlFind *)

Lemma ele_eqb (a b : sds) : bytes_ok (sds_bytes a) -> elem_eqb (elem_of (sds_bytes a)) (sds_bytes b) = bool_decide (a = b).
Proof.
  intros Ha. destruct (text_elem_of _ Ha (sds_len a)) as (_ & He & Ht). apply eq_bool_prop_intro.
  rewrite !Is_true_true, elem_eqb_text, bool_decide_eq_true, lp_text, Ht by done. apply sds_bytes_inj.
Qed.

Lemma find_pairs (ele : sds) : find_idx (fun e => elem_eqb e (sds_bytes ele)) 1 0 (pairs zs) =
  (fun x => (2 * x.1)%nat) <$> list_find (fun p => p.1 = ele) zs.
Proof.
  clear Hwf. induction zs as [|p zs' IH]; [done|]. apply Forall_cons_1 in Hok as [Hp Hok']. rewrite pairs_cons. cbn [find_idx list_find].
  rewrite ele_eqb by apply Hp. case_bool_decide as He; [by rewrite decide_True|]. rewrite decide_False by done. rewrite (IH Hok').
  destruct (list_find _ _) as [[i q]|]; simpl; [|done]. f_equal. lia.
Qed.

Lemma zzlFind_spec (ele : sds) : zzlFind zl ele =
  Ok ((fun x => (ptr (pairs zs) (2 * x.1), read_score x.2.2)) <$> list_find (fun p => p.1 = ele) zs).
Proof.
  unfold Zzl.zzlFind. rewrite first_spec by done. destruct (list_find (fun p => p.1 = ele) zs) as [[i p]|] eqn:Ef.
  - apply list_find_Some in Ef as (Hi & He & Hb). pose proof (lookup_lt_Some _ _ _ Hi) as Hlt.
    rewrite ptr_opt_lt by (rewrite pairs_length; lia).
    pose proof (find_spec n slack (pairs zs) (Some O) (sds_bytes ele) 1 Hwf ltac:(rewrite pairs_length; lia)) as Hfind.
    cbn [default fmap option_fmap option_map] in Hfind. change (Z.of_nat 1) with 1 in Hfind. unfold default, id in Hfind. rewrite Hfind, drop_0, find_pairs.
    rewrite (proj2 (list_find_Some (fun p => p.1 = ele) zs i p)) by done. cbn [fmap option_fmap option_map fst].
    match goal with |- context [lpNext _ ?x] => change x with (ptr (pairs zs) (2 * i)) end.
    rewrite next_score by done. cbn [non_null]. rewrite (getScore_ptr i p Hi). done.
  - destruct (decide (length zs = 0)%nat) as [Hz|Hz]; [by rewrite ptr_opt_ge by (rewrite pairs_length; lia)|].
    rewrite ptr_opt_lt by (rewrite pairs_length; lia).
    pose proof (find_spec n slack (pairs zs) (Some O) (sds_bytes ele) 1 Hwf ltac:(rewrite pairs_length; lia)) as Hfind.
    cbn [default fmap option_fmap option_map] in Hfind. change (Z.of_nat 1) with 1 in Hfind. unfold default, id in Hfind. rewrite Hfind, drop_0, find_pairs, Ef. done.
Qed.
End Pairs.

(** * Writing scores *)

Lemma enc_int_length v : zlength (lpEncodeIntegerGetType v) <= 9.
Proof. unfold lpEncodeIntegerGetType. repeat case_match; simpl; lia. Qed.

Lemma entry_bound e : zlength (entry e) <= zlength (enc_elem e) + 5.
Proof. rewrite entry_size. pose proof (backlenBytes_range (zlength (enc_elem e))). lia. Qed.

Lemma entry_elem_bound txt : zlength (entry (elem_of txt)) <= zlength txt + 14.
Proof.
  pose proof (entry_bound (elem_of txt)) as Hb. unfold elem_of in *. destruct (lpStringToInt64 _ _) as [[v|]|]; simpl enc_elem in Hb.
  - pose proof (enc_int_length v). lia.
  - rewrite enc_str_length in Hb. repeat case_match; lia.
  - rewrite enc_str_length in Hb. repeat case_match; lia.
Qed.

Lemma c_string_id t : Forall (fun c => 0 < c < 256) t -> c_string t = t.
Proof. induction 1 as [|c t Hc _ IH]; [done|]. simpl. rewrite (proj2 (Z.eqb_neq c 0)) by lia. by rewrite IH. Qed.

Context `{!FloatText fpconv_dtoa fast_float_strtod}.

Lemma score_text_ok t sc : fast_float_strtod t = sc -> Forall (fun c => 0 < c < 256) t -> zlength t <= 24 ->
  read_score (elem_of t) = sc.
Proof.
  intros Hs Hb Hl. unfold elem_of. rewrite lpStringToInt64_string2ll. destruct (string2ll_whole t) as ([v|] & -> & Hd); simpl.
  - destruct (proj1 (Hd v) eq_refl) as [Hv Ht]. by rewrite <- (strtod_int fpconv_dtoa fast_float_strtod v t Hv Ht).
  - rewrite take_ge by lia. by rewrite c_string_id.
Qed.

Lemma score_entry_spec sc : valid sc = true -> isnan sc = false ->
  exists ent, score_entry junk fpconv_dtoa sc = Ok ent /\ entry_ok ent /\ score_ok (entry_elem ent) /\ norm (read_score (entry_elem ent)) = norm sc.
Proof.
  intros Hv Hn. unfold score_entry. destruct (double2ll sc) as [l|] eqn:El.
  - destruct (double2ll_Some sc l Hv El) as [Hl Hnorm]. eexists. split; [done|]. cbn [entry_ok entry_elem sval lval].
    split; [done|]. split; [|done]. split; [done|]. split; [|split].
    + pose proof (entry_bound (EInt l)). simpl enc_elem in *. pose proof (enc_int_length l). unfold score_max. lia.
    + simpl. by rewrite <- norm_nan, Hnorm, norm_nan.
    + apply double_of_ll_valid.
  - destruct (d2string_spec fpconv_dtoa fast_float_strtod junk sc Hv Hn El) as (txt & rest & -> & Hs & Hb & Hl).
    rewrite (load_app [] txt rest) by done. eexists. split; [done|]. cbn [entry_ok entry_elem sval slen].
    assert (bytes_ok txt) as Hbt by (eapply list.Forall_impl; [exact Hb|]; simpl; lia).
    rewrite (score_text_ok txt sc Hs Hb Hl). split; [split_and!; [done|done|pow_const; lia]|]. split; [|done].
    split; [apply elem_of_ok; [done|pow_const; lia]|]. rewrite (score_text_ok txt sc Hs Hb Hl). split; [|done].
    pose proof (entry_elem_bound txt). unfold score_max. lia.
Qed.

(** * Sizes *)

Lemma budget_app zs1 zs2 : budget (zs1 ++ zs2) = budget zs1 + budget zs2 - 7.
Proof. induction zs1 as [|p zs1 IH]; simpl; [lia|]. rewrite IH. lia. Qed.

Lemma budget_mid zs1 p zs2 : budget (zs1 ++ p :: zs2) = budget (zs1 ++ zs2) + zlength (entry (elem_of (sds_bytes p.1))) + score_max.
Proof. rewrite !budget_app. simpl. lia. Qed.

Lemma budget_ge zs : 7 <= budget zs.
Proof. induction zs as [|p zs IH]; simpl; [lia|]. unfold score_max. lia. Qed.

Lemma total_budget zs : Forall pair_ok zs -> total (pairs zs) <= budget zs <= total (pairs zs) + score_max * zlength zs.
Proof.
  unfold total. induction 1 as [|p zs Hp _ IH]; [done|]. rewrite pairs_cons, !entries_cons, !length_app. cbn [budget foldr length].
  fold (budget zs). destruct (po_score _ Hp) as (He & Hl & _). pose proof (entry_pos _ He). unfold score_max in *. lia.
Qed.

Lemma zzl_wf zl zs : zzl_rep zl zs -> exists n slack, zl = lp_of n (pairs zs) slack /\ lp_wf n (pairs zs).
Proof. intros [(n & slack & -> & Hwf) _ _ _ _]. by exists n, slack. Qed.

Lemma zzl_elems zs : Forall pair_ok zs -> Forall elem_ok (pairs zs).
Proof.
  induction 1 as [|p zs Hp _ IH]; [constructor|]. rewrite pairs_cons. constructor; [apply ele_ok, Hp|]. constructor; [apply Hp|done].
Qed.

(** * Deletion *)

Lemma sorted_without {A} (R : A -> A -> Prop) (l1 l2 : list A) x : StronglySorted R (l1 ++ x :: l2) -> StronglySorted R (l1 ++ l2).
Proof.
  intros (Hc & H1 & H2)%StronglySorted_app. apply StronglySorted_inv in H2 as [H2 _]. apply StronglySorted_app. split_and!; [|done..].
  intros y z Hy Hz. apply Hc; [done|by right].
Qed.

Lemma zzl_without zl zl' zs1 p zs2 : zzl_rep zl (zs1 ++ p :: zs2) -> is_listpack zl' (pairs (zs1 ++ zs2)) -> zzl_rep zl' (zs1 ++ zs2).
Proof.
  intros [_ Hok Hs Hnd Hb] Hl. split; [done|..].
  - apply Forall_app in Hok as [H1 [_ H2]%Forall_cons_1]. by apply Forall_app.
  - rewrite fmap_app in Hs |- *. by apply sorted_without in Hs.
  - rewrite fmap_app in Hnd |- *. rewrite fmap_cons, <- Permutation_middle in Hnd. by apply list.NoDup_cons in Hnd as [_ ?].
  - rewrite budget_mid in Hb. unfold score_max in Hb. lia.
Qed.

Lemma deletePair_spec zl zs1 p zs2 : zzl_rep zl (zs1 ++ p :: zs2) ->
  exists zl', lpDeleteRangeWithEntry junk zl (ptr (pairs (zs1 ++ p :: zs2)) (2 * length zs1)) 2 = Ok (zl', eptr (zs1 ++ zs2) (length zs1)) /\ zzl_rep zl' (zs1 ++ zs2).
Proof.
  intros Hr. destruct (zzl_wf _ _ Hr) as (n & slack & -> & Hwf).
  replace (ptr (pairs (zs1 ++ p :: zs2)) (2 * length zs1)) with (pos (pairs zs1)) by (rewrite pairs_app, <- pairs_length, ptr_mid; done).
  rewrite pairs_app in Hwf. destruct (deleteRangeWithEntry_spec junk n slack (pairs zs1) (pairs (p :: zs2)) 2 Hwf ltac:(by rewrite pairs_cons) ltac:(lia)) as [sl' Hd].
  cbn zeta in Hd. rewrite <- pairs_app in Hd. rewrite Hd, pairs_cons. eexists. change (drop (Z.to_nat 2) (_ :: _ :: pairs zs2)) with (pairs zs2).
  split; [rewrite <- pairs_app, pairs_length; done|]. eapply zzl_without; [done|]. eexists _, _. split; [done|].
  destruct Hwf as [Hc Ht Hf]. split.
  - rewrite pairs_cons in Hc. unfold range_count. destruct Hc as [->|[-> Hc]]; [by left|]. right. case_match; [lia|].
    rewrite pairs_app, !length_app in *. simpl in *. lia.
  - rewrite !pairs_app, pairs_cons in *. rewrite !total_split, !entries_cons, !length_app in *. lia.
  - rewrite pairs_app. rewrite pairs_cons in Hf. apply Forall_app in Hf as [H1 [_ [_ H2]%Forall_cons_1]%Forall_cons_1]. by apply Forall_app.
Qed.

Lemma zzlDelete_spec zl zs1 p zs2 : zzl_rep zl (zs1 ++ p :: zs2) ->
  exists zl', zzlDelete junk zl (ptr (pairs (zs1 ++ p :: zs2)) (2 * length zs1)) = Ok zl' /\ zzl_rep zl' (zs1 ++ zs2).
Proof. intros Hr. destruct (deletePair_spec zl zs1 p zs2 Hr) as (zl' & Hd & Hr'). exists zl'. unfold zzlDelete. by rewrite Hd. Qed.

Lemma zzlLength_spec zl zs : zzl_rep zl zs -> exists zl', zzlLength zl = Ok (zlength zs, zl') /\ zzl_rep zl' zs.
Proof.
  intros Hr. destruct (zzl_wf _ _ Hr) as (n & slack & -> & Hwf). destruct (length_contract n slack (pairs zs) Hwf) as (zl' & Hl & Hlp & _).
  exists zl'. unfold zzlLength. rewrite Hl, pairs_length. pose proof (length_bound n (pairs zs) Hwf) as Hb. rewrite pairs_length in Hb.
  split; [|by destruct Hr; split]. do 2 f_equal. replace (Z.of_nat (2 * length zs) / 2) with (zlength zs) by (apply Z.div_unique_exact; lia).
  apply u_id. pow_const. lia.
Qed.

(** * Insertion *)

Lemma batch_new n slack es1 es2 args : Forall entry_ok args -> args <> [] -> lp_wf n (es1 ++ es2) ->
  Forall elem_ok (map entry_elem args) -> total (es1 ++ map entry_elem args ++ es2) <= UINT32_MAX ->
  exists zl' newp, lpBatchInsert junk (lp_of n (es1 ++ es2) slack) (pos es1) LP_BEFORE args = Ok (Some (zl', newp)) /\
    is_listpack zl' (es1 ++ map entry_elem args ++ es2).
Proof.
  intros Ha Hne Hwf Hel Ht. destruct (batch_before junk n slack args Ha Hne es1 es2 Hwf) as (r & Hi & Hr); [unfold UINT32_MAX in Ht; pow_const; lia|].
  rewrite Hi. unfold batch_result in Hr. rewrite (proj2 (Z.leb_le _ _) Ht) in Hr. destruct Hr as (sl' & ->). eexists _, _. split; [done|].
  eexists _, _. split; [done|]. destruct Hwf as [Hc _ Hf]. apply Forall_app in Hf as [Hf1 Hf2]. split; [by apply batch_count_ok|done|].
  apply Forall_app. split; [done|]. by apply Forall_app.
Qed.

Lemma insertAt_spec zl zs1 zs2 (ele : sds) sc :
  zzl_rep zl (zs1 ++ zs2) -> bytes_ok (sds_bytes ele) -> valid sc = true -> isnan sc = false ->
  budget (zs1 ++ zs2) + zlength (entry (elem_of (sds_bytes ele))) + score_max <= 2 ^ 31 ->
  exists zl' se, zzlInsertAt zl (eptr (zs1 ++ zs2) (length zs1)) ele sc = Ok (Some zl') /\
    is_listpack zl' (pairs (zs1 ++ (ele, se) :: zs2)) /\ score_ok se /\ norm (read_score se) = norm sc.
Proof.
  intros Hr Hb Hv Hn Hbud. destruct (zzl_wf _ _ Hr) as (n & slack & -> & Hwf). destruct (score_entry_spec sc Hv Hn) as (ent & Hent & Hok & Hso & Hnorm).
  set (args := [{| sval := Some (sds_bytes ele); slen := zlength (sds_bytes ele); lval := 0 |}; ent]).
  assert (Ha : Forall entry_ok args).
  { constructor; [|by constructor]. pose proof (sds_len ele). split_and!; [done|done|]. cbn [sval]. pow_const. lia. }
  assert (Hm : map entry_elem args = pairs [(ele, entry_elem ent)]) by done.
  assert (Hpo : pair_ok (ele, entry_elem ent)) by by split.
  assert (Ht : total (pairs zs1 ++ map entry_elem args ++ pairs zs2) <= UINT32_MAX).
  { rewrite Hm, <- !pairs_app. change ([(ele, entry_elem ent)] ++ zs2) with ((ele, entry_elem ent) :: zs2).
    pose proof (total_budget (zs1 ++ (ele, entry_elem ent) :: zs2)) as Htb. rewrite budget_mid in Htb. cbn [fst] in Htb. unfold UINT32_MAX. pow_const.
    destruct Htb; [|lia]. pose proof (zz_ok _ _ Hr) as Hz. apply Forall_app in Hz as [? ?]. apply Forall_app. split; [done|]. by constructor. }
  rewrite pairs_app in Hwf. destruct (batch_new n slack (pairs zs1) (pairs zs2) args Ha ltac:(done) Hwf) as (zl' & newp & Hi & Hlp); [|done|].
  { rewrite Hm. apply zzl_elems. by constructor. }
  rewrite Hm, <- !pairs_app in Hlp. exists zl', (entry_elem ent). split; [|done]. unfold Zzl.zzlInsertAt. rewrite Hent. fold args. rewrite pairs_app.
  destruct zs2 as [|p zs2].
  - rewrite app_nil_r, eptr_ge by done. unfold lpBatchAppend. cbn [pairs map concat] in *. rewrite app_nil_r in *. rewrite getTotal by apply Hwf.
    change (take (Z.to_nat (u32 (zlength args))) args) with args. replace (total (pairs zs1) - 1) with (pos (pairs zs1)) by (unfold total, pos, LP_HDR_SIZE; lia).
    by rewrite Hi.
  - rewrite eptr_lt by (rewrite length_app; simpl; lia). rewrite pairs_app, <- pairs_length, ptr_mid. by rewrite Hi.
Qed.

(** The loop stops at the first pair that is greater than the new member. *)
Definition stops (ele : sds) sc p : bool := dlt sc (read_score p.2) || (deq (read_score p.2) sc && (sdscmp p.1 ele >? 0)).

Lemma insert_loop_spec n slack zs (ele : sds) sc fuel : forall i,
  lp_wf n (pairs zs) -> Forall pair_ok zs -> (i <= length zs)%nat -> (length zs - i < fuel)%nat ->
  exists k, (i <= k <= length zs)%nat /\
    insert_loop junk fpconv_dtoa fast_float_strtod fuel (lp_of n (pairs zs) slack) (eptr zs i) ele sc =
      zzlInsertAt (lp_of n (pairs zs) slack) (eptr zs k) ele sc /\
    (forall j p, (i <= j < k)%nat -> zs !! j = Some p -> stops ele sc p = false) /\
    (forall p, zs !! k = Some p -> stops ele sc p = true).
Proof.
  induction fuel as [|fuel IH]; intros i Hwf Hok Hi Hf; [lia|]. destruct (decide (i = length zs)) as [->|Hne].
  - exists (length zs). rewrite eptr_ge by lia. split; [lia|]. split; [done|]. split; [lia|]. intros p Hp. apply lookup_lt_Some in Hp. lia.
  - destruct (lookup_lt_is_Some_2 zs i ltac:(lia)) as [p Hp]. rewrite eptr_lt by lia. cbn [insert_loop].
    rewrite next_score by (done || lia). cbn [non_null]. rewrite (getScore_ptr n slack zs Hok i p Hp).
    destruct (compareElements_ptr n slack zs Hok i p ele Hp) as (c & Hc & Hsign).
    assert (Hstop : stops ele sc p = true \/ stops ele sc p = false) by (destruct (stops ele sc p); auto). unfold stops in Hstop.
    destruct (dlt sc (read_score p.2)) eqn:Hd.
    { exists i. rewrite eptr_lt by lia. split; [lia|]. split; [done|]. split; [lia|]. intros q Hq. simplify_eq. unfold stops. by rewrite Hd. }
    destruct (deq (read_score p.2) sc) eqn:He; rewrite ?Hc, ?Hsign.
    + cbn [orb andb] in Hstop. destruct (sdscmp p.1 ele >? 0) eqn:Hg.
      * exists i. rewrite eptr_lt by lia. split; [lia|]. split; [done|]. split; [lia|]. intros q Hq. simplify_eq. unfold stops. by rewrite Hd, He, Hg.
      * rewrite next_pair by (done || lia). destruct (IH (S i) Hwf Hok ltac:(lia) ltac:(lia)) as (k & Hk & -> & Hbefore & Hat).
        exists k. split; [lia|]. split; [done|]. split; [|done]. intros j q Hj Hq. destruct (decide (j = i)) as [->|?]; [|apply (Hbefore j); [lia|done]].
        simplify_eq. unfold stops. by rewrite Hd, He, Hg.
    + rewrite next_pair by (done || lia). destruct (IH (S i) Hwf Hok ltac:(lia) ltac:(lia)) as (k & Hk & -> & Hbefore & Hat).
      exists k. split; [lia|]. split; [done|]. split; [|done]. intros j q Hj Hq. destruct (decide (j = i)) as [->|?]; [|apply (Hbefore j); [lia|done]].
      simplify_eq. unfold stops. by rewrite Hd, He.
Qed.

Lemma stops_mlt (ele : sds) sc p : isnan sc = false -> isnan (read_score p.2) = false -> stops ele sc p = true <-> mlt (sc, ele) (member_of p).
Proof.
  intros Hs Hp. unfold mlt, mltb, stops. simpl. rewrite (deq_sym sc), !sdscmp_lexcmp, (lexcmp_anti (sds_bytes ele)).
  by replace (- lexcmp (sds_bytes ele) (sds_bytes p.1) >? 0) with (lexcmp (sds_bytes ele) (sds_bytes p.1) <? 0) by lia.
Qed.

Lemma zzl_num zs : Forall pair_ok zs -> Forall num (member_of <$> zs).
Proof. intros Hok. apply Forall_fmap. eapply list.Forall_impl; [exact Hok|]. intros p Hp. apply (po_score _ Hp). Qed.

Lemma zzlInsert_spec zl zs (ele : sds) sc :
  zzl_rep zl zs -> ele ∉ zs.*1 -> bytes_ok (sds_bytes ele) -> valid sc = true -> isnan sc = false ->
  budget zs + zlength (entry (elem_of (sds_bytes ele))) + score_max <= 2 ^ 31 ->
  exists zl' k se, zzlInsert zl ele sc = Ok (Some zl') /\ zzl_rep zl' (take k zs ++ (ele, se) :: drop k zs) /\ norm (read_score se) = norm sc.
Proof.
  intros Hr Hout Hb Hv Hn Hbud. pose proof Hr as [_ Hok Hs Hnd _]. destruct (zzl_wf _ _ Hr) as (n & slack & -> & Hwf).
  unfold Zzl.zzlInsert. rewrite seek_first by done.
  destruct (insert_loop_spec n slack zs ele sc (length (lp_of n (pairs zs) slack)) 0 Hwf Hok) as (k & Hk & -> & Hbefore & Hat); [lia| |].
  { pose proof (fuel_enough n slack _ Hwf) as Hfu. rewrite pairs_length in Hfu. lia. }
  pose proof Hr as Hr'. rewrite <- (take_drop k zs) in Hr' at 2. rewrite <- (take_drop k zs) in Hbud. destruct (insertAt_spec _ (take k zs) (drop k zs) ele sc Hr' Hb Hv Hn Hbud) as (zl' & se & Hi & Hlp & Hso & Hnorm).
  rewrite take_drop, length_take, Nat.min_l in Hi by lia. exists zl', k, se. split; [done|]. split; [|done].
  assert (Hpo : pair_ok (ele, se)) by by split. pose proof (zz_ok _ _ Hr') as Hok'. apply Forall_app in Hok' as [Hok1 Hok2].
  assert (Hnm : nmember (sc, ele) = nmember (member_of (ele, se))) by (unfold nmember; simpl; by rewrite Hnorm).
  split; [done|..].
  - apply Forall_app. split; [done|]. by constructor.
  - rewrite fmap_app, fmap_cons, fmap_take, fmap_drop. apply members_insert; [done|by apply zzl_num|apply (po_score _ Hpo)| | |].
    + rewrite <- list_fmap_compose. done.
    + intros j x Hj Hx. rewrite list_lookup_fmap in Hx. destruct (zs !! j) as [q|] eqn:Eq; [|done]. injection Hx as <-.
      rewrite <- (mlt_nmember (sc, ele) _ _ _ Hnm eq_refl). pose proof (Hbefore j q ltac:(lia) Eq) as Hst.
      eapply Forall_lookup_1 in Hok; [|done]. rewrite <- stops_mlt by (done || apply (po_score _ Hok)). by rewrite Hst.
    + intros x Hx. rewrite list_lookup_fmap in Hx. destruct (zs !! k) as [q|] eqn:Eq; [|done]. injection Hx as <-.
      rewrite <- (mlt_nmember (sc, ele) _ _ _ Hnm eq_refl). eapply Forall_lookup_1 in Hok; [|done]. apply stops_mlt; [done|apply (po_score _ Hok)|by apply Hat].
  - rewrite fmap_app, fmap_cons, <- Permutation_middle, <- fmap_app, take_drop. by constructor.
  - rewrite budget_mid, take_drop in *. cbn [fst]. lia.
Qed.
End Zzl.
