(* ===== verification/ZzlRange.v ===== *)
(** Ranges of sorted sets in a listpack: the first and the last member in a range of scores
    or elements, and the deletion of ranges. *)

From Stdlib Require Import SpecFloat String.
From stdpp Require Import gmap sorting.
From S2P Require Import Prelude Machine UtilNum Double DoubleConv Listpack ListpackEnc ListpackSeq ListpackRead ListpackUpd ListpackSpec ListpackBatch SetType SetTypeSpec Skiplist ZOrder SkiplistSpec Zzl ZzlInv.

(** * Positions in a sequence *)

(** The first and the last position at which a predicate holds. *)
Definition first_pos {A} (P : A -> Prop) `{!forall x, Decision (P x)} (xs : list A) : option nat := fst <$> list_find P xs.
Definition last_pos {A} (P : A -> Prop) `{!forall x, Decision (P x)} (xs : list A) : option nat :=
  (fun i => length xs - S i)%nat <$> first_pos P (reverse xs).

Lemma first_pos_slice {A} (P : A -> Prop) `{!forall x, Decision (P x)} (xs : list A) a b : (b <= length xs)%nat ->
  (forall p x, xs !! p = Some x -> P x <-> (a <= p < b)%nat) ->
  first_pos P xs = if decide (a < b)%nat then Some a else None.
Proof.
  intros Hb HP. unfold first_pos. case_decide as Hd.
  - destruct (lookup_lt_is_Some_2 xs a ltac:(lia)) as [x Hx]. rewrite (proj2 (list_find_Some P xs a x)); [done|]. split_and!; [done|apply (HP a x Hx); lia|].
    intros j y Hj Hlt. rewrite (HP j y Hj). lia.
  - rewrite (proj2 (list_find_None P xs)); [done|]. apply list.Forall_forall. intros x [p Hp]%list_elem_of_lookup. rewrite (HP p x Hp). lia.
Qed.

Lemma last_pos_slice {A} (P : A -> Prop) `{!forall x, Decision (P x)} (xs : list A) a b : (b <= length xs)%nat ->
  (forall p x, xs !! p = Some x -> P x <-> (a <= p < b)%nat) ->
  last_pos P xs = if decide (a < b)%nat then Some (b - 1)%nat else None.
Proof.
  intros Hb HP. unfold last_pos. rewrite (first_pos_slice P (reverse xs) (length xs - b) (length xs - a)).
  - repeat case_decide; simpl; try done; try lia. f_equal. lia.
  - rewrite length_reverse. lia.
  - intros p x Hp. pose proof (lookup_lt_Some _ _ _ Hp) as Hlt. rewrite length_reverse in Hlt. rewrite reverse_lookup in Hp by done.
    rewrite (HP _ x Hp). lia.
Qed.

Section Range.
Context (junk : Z) (fpconv_dtoa : double -> list Z) (fast_float_strtod : list Z -> double).
Notation zzlGetScore := (zzlGetScore fast_float_strtod).
Notation read_score := (read_score fast_float_strtod).
Notation member_of := (member_of fast_float_strtod).
Notation pair_ok := (pair_ok fast_float_strtod).
Notation zzl_rep := (zzl_rep fast_float_strtod).
Implicit Types (zs : list (sds * elem)) (p : sds * elem) (a b i : nat) (range : zrangespec) (lrange : zlexrangespec).

Definition pair_in range p : bool := zslValueGteMin (read_score p.2) range && zslValueLteMax (read_score p.2) range.
Definition pair_in_lex lrange p : bool := zslLexValueGteMin p.1 lrange && zslLexValueLteMax p.1 lrange.

(** * The loops *)

Section Loops.
Context (n : Z) (slack : list Z) (zs : list (sds * elem)).
Hypothesis Hwf : lp_wf n (pairs zs).
Hypothesis Hok : Forall pair_ok zs.
Notation zl := (lp_of n (pairs zs) slack).

Lemma seek_pairs (index : Z) : lpSeek zl index = Ok (ptr (pairs zs) <$> seek_index (2 * zlength zs) index).
Proof. rewrite seek_spec by done. rewrite pairs_length. by replace (Z.of_nat (2 * length zs)) with (2 * zlength zs) by lia. Qed.

Lemma seek_last_score : lpSeek zl (-1) = Ok (match length zs with O => None | S k => Some (sptr zs k) end).
Proof.
  rewrite seek_pairs. unfold seek_index. cbn [Z.ltb Z.compare]. destruct (length zs) as [|k] eqn:E; [done|].
  rewrite (proj2 (Z.leb_le _ _)), (proj2 (Z.ltb_lt _ _)) by lia. cbn [andb fmap option_fmap option_map]. unfold sptr. do 3 f_equal. lia.
Qed.

Lemma seek_last_ele : lpSeek zl (-2) = Ok (match length zs with O => None | S k => eptr zs k end).
Proof.
  rewrite seek_pairs. unfold seek_index. cbn [Z.ltb Z.compare]. destruct (length zs) as [|k] eqn:E; [done|]. rewrite eptr_lt by lia.
  rewrite (proj2 (Z.leb_le _ _)), (proj2 (Z.ltb_lt _ _)) by lia. cbn [andb fmap option_fmap option_map]. do 3 f_equal. lia.
Qed.

Lemma seek_first_score : (0 < length zs)%nat -> lpSeek zl 1 = Ok (Some (sptr zs 0)).
Proof.
  intros Hl. rewrite seek_pairs. unfold seek_index. cbn [Z.ltb Z.leb Z.compare andb]. by rewrite (proj2 (Z.ltb_lt _ _)) by lia.
Qed.

Lemma lexGte_ptr i p lrange : zs !! i = Some p -> zzlLexValueGteMin junk zl (eptr zs i) lrange = Ok (zslLexValueGteMin p.1 lrange).
Proof. intros Hp. unfold zzlLexValueGteMin. by rewrite (getObject_ptr junk fast_float_strtod n slack zs Hok i p Hp). Qed.

Lemma lexLte_ptr i p lrange : zs !! i = Some p -> zzlLexValueLteMax junk zl (eptr zs i) lrange = Ok (zslLexValueLteMax p.1 lrange).
Proof. intros Hp. unfold zzlLexValueLteMax. by rewrite (getObject_ptr junk fast_float_strtod n slack zs Hok i p Hp). Qed.

Section Score.
Context (range : zrangespec) (a b : nat).
Hypothesis Hb : bounds zs (fun p => zslValueGteMin (read_score p.2) range) (fun p => zslValueLteMax (read_score p.2) range) a b.

Lemma first_loop_spec fuel : forall i, (i <= a)%nat -> (length zs - i < fuel)%nat ->
  first_loop fast_float_strtod fuel zl range (eptr zs i) = Ok (if decide (a < b)%nat then eptr zs a else None).
Proof.
  destruct Hb as (Ha & Hbl & Hp). induction fuel as [|fuel IH]; intros i Hi Hf; [lia|].
  destruct (decide (i = length zs)) as [->|Hne]; [rewrite eptr_ge by lia; by rewrite decide_False by lia|].
  destruct (lookup_lt_is_Some_2 zs i ltac:(lia)) as [p Hz]. destruct (Hp i p Hz) as [HG HL]. rewrite (eptr_lt zs i) by lia. cbn [first_loop].
  rewrite next_score by (done || lia). cbn [non_null]. rewrite (getScore_ptr fast_float_strtod n slack zs Hok i p Hz), HG, HL.
  destruct (bool_decide_reflect (a <= i)%nat) as [Hd|Hd]; [|rewrite next_pair by (done || lia); apply IH; lia].
  assert (i = a) as -> by lia. rewrite eptr_lt by lia. by repeat (case_decide || case_bool_decide); simpl; try lia.
Qed.

Lemma last_loop_spec fuel : forall i, (b <= S i)%nat -> (i < length zs)%nat -> (i < fuel)%nat ->
  last_loop fast_float_strtod fuel zl range (eptr zs i) = Ok (if decide (a < b)%nat then eptr zs (b - 1) else None).
Proof.
  destruct Hb as (Ha & Hbl & Hp). induction fuel as [|fuel IH]; intros i Hi Hlt Hf; [lia|].
  destruct (lookup_lt_is_Some_2 zs i ltac:(lia)) as [p Hz]. destruct (Hp i p Hz) as [HG HL]. rewrite (eptr_lt zs i) by lia. cbn [last_loop].
  rewrite next_score by (done || lia). cbn [non_null]. rewrite (getScore_ptr fast_float_strtod n slack zs Hok i p Hz), HG, HL.
  destruct (bool_decide_reflect (i < b)%nat) as [Hd|Hd].
  - assert (b = S i) as -> by lia. replace (S i - 1)%nat with i by lia. rewrite eptr_lt by lia. by repeat (case_decide || case_bool_decide); simpl; try lia.
  - rewrite prev_pair by (done || lia). destruct i as [|i]; [by rewrite decide_False by lia|]. rewrite prev_ele by (done || lia).
    rewrite (eptr_lt zs i) by lia. cbn [non_null]. rewrite <- eptr_lt by lia. apply IH; lia.
Qed.
End Score.

Section Lex.
Context (lrange : zlexrangespec) (a b : nat).
Hypothesis Hb : bounds zs (fun p => zslLexValueGteMin p.1 lrange) (fun p => zslLexValueLteMax p.1 lrange) a b.

Lemma first_lex_loop_spec fuel : forall i, (i <= a)%nat -> (length zs - i < fuel)%nat ->
  first_lex_loop junk fuel zl lrange (eptr zs i) = Ok (if decide (a < b)%nat then eptr zs a else None).
Proof.
  destruct Hb as (Ha & Hbl & Hp). induction fuel as [|fuel IH]; intros i Hi Hf; [lia|].
  destruct (decide (i = length zs)) as [->|Hne]; [rewrite eptr_ge by lia; by rewrite decide_False by lia|].
  destruct (lookup_lt_is_Some_2 zs i ltac:(lia)) as [p Hz]. destruct (Hp i p Hz) as [HG HL]. rewrite (eptr_lt zs i) by lia. cbn [first_lex_loop].
  rewrite <- (eptr_lt zs i) by lia. rewrite (lexGte_ptr i p), (lexLte_ptr i p), HG, HL by done.
  destruct (bool_decide_reflect (a <= i)%nat) as [Hd|Hd]; [|rewrite next_score by (done || lia); cbn [non_null]; rewrite next_pair by (done || lia); apply IH; lia].
  assert (i = a) as -> by lia. rewrite eptr_lt by lia. by repeat (case_decide || case_bool_decide); simpl; try lia.
Qed.

Lemma last_lex_loop_spec fuel : forall i, (b <= S i)%nat -> (i < length zs)%nat -> (i < fuel)%nat ->
  last_lex_loop junk fuel zl lrange (eptr zs i) = Ok (if decide (a < b)%nat then eptr zs (b - 1) else None).
Proof.
  destruct Hb as (Ha & Hbl & Hp). induction fuel as [|fuel IH]; intros i Hi Hlt Hf; [lia|].
  destruct (lookup_lt_is_Some_2 zs i ltac:(lia)) as [p Hz]. destruct (Hp i p Hz) as [HG HL]. rewrite (eptr_lt zs i) by lia. cbn [last_lex_loop].
  rewrite <- (eptr_lt zs i) by lia. rewrite (lexGte_ptr i p), (lexLte_ptr i p), HG, HL by done. destruct (bool_decide_reflect (i < b)%nat) as [Hd|Hd].
  - assert (b = S i) as -> by lia. replace (S i - 1)%nat with i by lia. rewrite eptr_lt by lia. by repeat (case_decide || case_bool_decide); simpl; try lia.
  - rewrite prev_pair by (done || lia). destruct i as [|i]; [by rewrite decide_False by lia|]. rewrite prev_ele by (done || lia).
    rewrite (eptr_lt zs i) by lia. cbn [non_null]. rewrite <- eptr_lt by lia. apply IH; lia.
Qed.
End Lex.

(** * The ends of the listpack *)

(** No member is in range when the last one is below it or the first one above it. *)
Lemma isInRange_spec range a b :
  bounds zs (fun p => zslValueGteMin (read_score p.2) range) (fun p => zslValueLteMax (read_score p.2) range) a b ->
  isnan (min range) = false -> isnan (max range) = false ->
  exists ok, zzlIsInRange fast_float_strtod zl range = Ok ok /\ (ok = false -> ~ (a < b)%nat).
Proof.
  intros (Ha & Hbl & Hp) Hm HM. unfold zzlIsInRange. destruct (_ || _) eqn:Einv.
  { eexists. split; [done|]. intros _ Hab. destruct (lookup_lt_is_Some_2 zs a ltac:(lia)) as [p Hz]. destruct (Hp a p Hz) as [HG HL].
    pose proof (Forall_lookup_1 _ _ _ _ Hok Hz) as [_ (_ & _ & Hn & _)]. pose proof (bounds_inverted range _ Hm HM Hn Einv) as Hf.
    rewrite HG, HL, !bool_decide_true in Hf by lia. done. }
  rewrite seek_last_score. destruct (length zs) as [|k] eqn:El; [eexists; split; [done|lia]|].
  destruct (lookup_lt_is_Some_2 zs k ltac:(lia)) as [p Hz]. destruct (Hp k p Hz) as [HG _]. rewrite (getScore_ptr fast_float_strtod n slack zs Hok k p Hz), HG.
  destruct (bool_decide_reflect (a <= k)%nat) as [Hd|Hd]; cbn [negb]; [|eexists; split; [done|lia]].
  rewrite seek_first_score by lia. cbn [non_null]. destruct (lookup_lt_is_Some_2 zs 0 ltac:(lia)) as [q Hq]. destruct (Hp 0%nat q Hq) as [_ HL].
  rewrite (getScore_ptr fast_float_strtod n slack zs Hok 0 q Hq), HL. eexists. split; [done|]. rewrite bool_decide_eq_false. lia.
Qed.

Lemma isInLexRange_spec lrange a b :
  bounds zs (fun p => zslLexValueGteMin p.1 lrange) (fun p => zslLexValueLteMax p.1 lrange) a b ->
  exists ok, zzlIsInLexRange junk zl lrange = Ok ok /\ (ok = false -> ~ (a < b)%nat).
Proof.
  intros (Ha & Hbl & Hp). unfold zzlIsInLexRange. cbn zeta. destruct (_ || _) eqn:Einv.
  { eexists. split; [done|]. intros _ Hab. destruct (lookup_lt_is_Some_2 zs a ltac:(lia)) as [p Hz]. destruct (Hp a p Hz) as [HG HL].
    pose proof (lex_bounds lrange p.1) as Hf. cbn zeta in Hf. rewrite Einv, HG, HL, !bool_decide_true in Hf by lia. done. }
  rewrite seek_last_ele. destruct (length zs) as [|k] eqn:El; [eexists; split; [done|lia]|].
  destruct (lookup_lt_is_Some_2 zs k ltac:(lia)) as [p Hz]. destruct (Hp k p Hz) as [HG _]. pose proof (lexGte_ptr k p lrange Hz) as Hg. rewrite (eptr_lt zs k) in * by lia. rewrite Hg, HG.
  destruct (bool_decide_reflect (a <= k)%nat) as [Hd|Hd]; cbn [negb]; [|eexists; split; [done|lia]].
  rewrite seek_first by done. destruct (lookup_lt_is_Some_2 zs 0 ltac:(lia)) as [q Hq]. destruct (Hp 0%nat q Hq) as [_ HL].
  pose proof (lexLte_ptr 0 q lrange Hq) as Hl. rewrite (eptr_lt zs 0) in * by lia. cbn [non_null]. rewrite Hl, HL. eexists. split; [done|]. rewrite bool_decide_eq_false. lia.
Qed.

Lemma fuel_pairs : (length zs < length zl)%nat.
Proof. pose proof (fuel_enough n slack _ Hwf) as Hfu. rewrite pairs_length in Hfu. lia. Qed.

Lemma first_last_score range a b :
  bounds zs (fun p => zslValueGteMin (read_score p.2) range) (fun p => zslValueLteMax (read_score p.2) range) a b ->
  isnan (min range) = false -> isnan (max range) = false ->
  zzlFirstInRange fast_float_strtod zl range = Ok (if decide (a < b)%nat then eptr zs a else None) /\
  zzlLastInRange fast_float_strtod zl range = Ok (if decide (a < b)%nat then eptr zs (b - 1) else None).
Proof.
  intros Hb Hm HM. pose proof fuel_pairs as Hfu. destruct (isInRange_spec range a b Hb Hm HM) as (ok & Hi & Hno).
  unfold zzlFirstInRange, zzlLastInRange. rewrite seek_first, seek_last_ele, Hi by done.
  destruct ok; cbn [negb]; [|by rewrite !decide_False by exact (Hno eq_refl)]. split; [apply (first_loop_spec range a b Hb); lia|].
  destruct (length zs) as [|k] eqn:El; [destruct Hb as (_ & Hb & _); rewrite decide_False by lia; by destruct (length zl)|].
  apply (last_loop_spec range a b Hb); destruct Hb as (_ & Hb & _); lia.
Qed.

Lemma first_last_lex lrange a b :
  bounds zs (fun p => zslLexValueGteMin p.1 lrange) (fun p => zslLexValueLteMax p.1 lrange) a b ->
  zzlFirstInLexRange junk zl lrange = Ok (if decide (a < b)%nat then eptr zs a else None) /\
  zzlLastInLexRange junk zl lrange = Ok (if decide (a < b)%nat then eptr zs (b - 1) else None).
Proof.
  intros Hb. pose proof fuel_pairs as Hfu. destruct (isInLexRange_spec lrange a b Hb) as (ok & Hi & Hno).
  unfold zzlFirstInLexRange, zzlLastInLexRange. rewrite seek_first, seek_last_ele, Hi by done.
  destruct ok; cbn [negb]; [|by rewrite !decide_False by exact (Hno eq_refl)]. split; [apply (first_lex_loop_spec lrange a b Hb); lia|].
  destruct (length zs) as [|k] eqn:El; [destruct Hb as (_ & Hb & _); rewrite decide_False by lia; by destruct (length zl)|].
  apply (last_lex_loop_spec lrange a b Hb); destruct Hb as (_ & Hb & _); lia.
Qed.
End Loops.

(** * Bounds of sorted pairs *)

Definition plt (p q : sds * elem) : Prop := mlt (member_of p) (member_of q).

Lemma zzl_plt zl zs : zzl_rep zl zs -> StronglySorted plt zs.
Proof.
  intros [_ _ Hs _ _]. clear -Hs. induction zs as [|p zs IH]; [constructor|]. rewrite fmap_cons in Hs. apply StronglySorted_inv in Hs as [Hs Hf].
  constructor; [by apply IH|]. rewrite Forall_fmap in Hf. exact Hf.
Qed.

Lemma mlt_scores (x y : member) : num x -> num y -> mlt x y -> dlt y.1 x.1 = false.
Proof.
  intros H1 H2 Hlt. apply not_true_is_false. rewrite mlt_key in Hlt by done. rewrite dlt_key by done.
  unfold klt in *. destruct (dkey x.1) as [[a1 a2] a3], (dkey y.1) as [[b1 b2] b3]. simpl in *. destruct Hlt as [?|[[= -> -> ->] _]]; lia.
Qed.

Lemma pair_bounds zl zs range : zzl_rep zl zs -> isnan (min range) = false -> isnan (max range) = false ->
  exists a b, bounds zs (fun p => zslValueGteMin (read_score p.2) range) (fun p => zslValueLteMax (read_score p.2) range) a b.
Proof.
  intros Hr Hm HM. pose proof (zz_ok _ _ _ Hr) as Hok. rewrite list.Forall_forall in Hok.
  assert (Hn : forall p, p ∈ zs -> num (member_of p)) by (intros p Hp; apply (po_score _ _ (Hok p Hp))).
  apply (sorted_bounds plt); [by eapply zzl_plt|..]; intros p q Hp Hq Hpq; pose proof (mlt_scores _ _ (Hn p Hp) (Hn q Hq) Hpq) as Hle.
  - apply gte_mono; [done|by apply Hn|by apply Hn|done].
  - apply lte_mono; [done|by apply Hn|by apply Hn|done].
Qed.

(** All members have the same score, as lexicographic ranges ask for. *)
Definition same_pair_scores zs : Prop := forall p q, p ∈ zs -> q ∈ zs -> deq (read_score p.2) (read_score q.2) = true.

Lemma pair_lex_bounds zl zs lrange : zzl_rep zl zs -> same_pair_scores zs ->
  exists a b, bounds zs (fun p => zslLexValueGteMin p.1 lrange) (fun p => zslLexValueLteMax p.1 lrange) a b.
Proof.
  intros Hr Hsame. assert (Hcmp : forall p q, p ∈ zs -> q ∈ zs -> plt p q -> sdscmp p.1 q.1 < 0).
  { intros p q Hp Hq Hpq. pose proof (Hsame p q Hp Hq) as Hd. destruct (deq_num _ _ Hd) as [N1 N2]. unfold plt in Hpq.
    rewrite mlt_key in Hpq by done. rewrite deq_key in Hd by done. simpl in Hpq. rewrite sdscmp_lexcmp. destruct Hpq as [Hk|[_ Hl]]; [|done].
    rewrite Hd in Hk. unfold klt in Hk. lia. }
  apply (sorted_bounds plt); [by eapply zzl_plt|..]; intros p q Hp Hq Hpq.
  - by apply lex_gte_mono, Hcmp.
  - by apply lex_lte_mono, Hcmp.
Qed.

(** * Deletion *)

(** A test that reads the pair at the two pointers. *)
Definition reads (test : list Z -> option Z -> option Z -> res bool) (L : sds * elem -> bool) : Prop :=
  forall zl zs i p, zzl_rep zl zs -> zs !! i = Some p -> test zl (eptr zs i) (Some (sptr zs i)) = Ok (L p).

Lemma score_reads range : reads (fun zl _ sptr => let! score := zzlGetScore zl sptr in Ok (zslValueLteMax score range)) (fun p => zslValueLteMax (read_score p.2) range).
Proof.
  intros zl zs i p Hr Hp. destruct (zzl_wf _ _ _ Hr) as (n & slack & -> & Hwf). by rewrite (getScore_ptr fast_float_strtod n slack zs (zz_ok _ _ _ Hr) i p Hp).
Qed.

Lemma lex_reads lrange : reads (fun zl eptr _ => zzlLexValueLteMax junk zl eptr lrange) (fun p => zslLexValueLteMax p.1 lrange).
Proof. intros zl zs i p Hr Hp. destruct (zzl_wf _ _ _ Hr) as (n & slack & -> & Hwf). by apply lexLte_ptr; [apply Hr|]. Qed.

(** The pairs that satisfy the test are deleted one by one. *)
Lemma delete_loop_spec test L (HL : reads test L) m : forall zl l r fuel num,
  zzl_rep zl (l ++ m ++ r) -> Forall (fun p => L p = true) m -> (forall p r', r = p :: r' -> L p = false) ->
  (length m < fuel)%nat -> 0 <= num -> num + zlength m < 2 ^ 64 ->
  exists zl', delete_loop junk fuel test zl (eptr (l ++ m ++ r) (length l)) num = Ok (zl', num + zlength m) /\ zzl_rep zl' (l ++ r).
Proof.
  induction m as [|p m IH]; intros zl l r fuel num Hr Hm Hend Hf Hn0 Hn.
  - exists zl. split; [|done]. destruct fuel as [|fuel]; [simpl in Hf; lia|]. rewrite Z.add_0_r. cbn [app] in *. destruct r as [|q r].
    { rewrite eptr_ge by (rewrite app_nil_r; lia). done. }
    assert ((l ++ q :: r) !! length l = Some q) as Hq by by rewrite list_lookup_middle.
    pose proof (HL _ _ _ _ Hr Hq) as Ht. destruct (zzl_wf _ _ _ Hr) as (n & slack & -> & Hwf). rewrite (eptr_lt _ (length l)) in * by (by eapply lookup_lt_Some).
    cbn [delete_loop]. rewrite next_score by (done || by eapply lookup_lt_Some). rewrite Ht, (Hend q r eq_refl). done.
  - apply Forall_cons_1 in Hm as [Hp Hm]. destruct fuel as [|fuel]; [simpl in Hf; lia|].
    assert ((l ++ (p :: m) ++ r) !! length l = Some p) as Hq by by apply list_lookup_middle.
    destruct (deletePair_spec junk fast_float_strtod zl l p (m ++ r) Hr) as (zl1 & Hd & Hr1). pose proof (HL _ _ _ _ Hr Hq) as Ht.
    rewrite (eptr_lt (l ++ (p :: m) ++ r) (length l)) in * by (by eapply lookup_lt_Some). cbn [delete_loop].
    assert (lpNext zl (ptr (pairs (l ++ (p :: m) ++ r)) (2 * length l)) = Ok (Some (sptr (l ++ (p :: m) ++ r) (length l)))) as ->.
    { destruct (zzl_wf _ _ _ Hr) as (n & slack & -> & Hwf). apply next_score; [done|by eapply lookup_lt_Some]. }
    rewrite Ht, Hp. cbn [app] in Hd |- *. rewrite Hd. cbn [length] in *. rewrite u_id by lia.
    destruct (IH zl1 l r fuel (num + 1) Hr1 Hm Hend ltac:(lia) ltac:(lia) ltac:(lia)) as (zl' & -> & Hr'). exists zl'. split; [|done]. do 2 f_equal. lia.
Qed.

(** The loop from the first pair in range. *)
Lemma delete_slice test (G L : sds * elem -> bool) (HL : reads test L) zl zs a b :
  zzl_rep zl zs -> bounds zs G L a b -> (a < b)%nat ->
  exists zl', delete_loop junk (S (length zl)) test zl (eptr zs a) 0 = Ok (zl', zlength (filter (fun p => G p && L p = true) zs)) /\
    zzl_rep zl' (filter (fun p => ~ (G p && L p = true)) zs).
Proof.
  intros Hr Hb Hab. destruct (bounds_filter _ _ _ _ _ Hb) as [-> ->]. destruct Hb as (Ha & Hbl & Hp).
  destruct (zzl_wf _ _ _ Hr) as (n & slack & Hzl & Hwf). pose proof (length_bound n _ Hwf) as Hlb. rewrite pairs_length in Hlb.
  pose proof (fuel_pairs n slack zs Hwf) as Hfu. rewrite <- Hzl in Hfu. set (m := take (b - a) (drop a zs)). set (r := drop (b - a) (drop a zs)).
  assert (Hz : zs = take a zs ++ m ++ r) by (unfold m, r; by rewrite !take_drop).
  assert (Hlm : length m = (b - a)%nat) by (unfold m; rewrite length_take, length_drop; lia).
  destruct (delete_loop_spec test L HL m zl (take a zs) r (S (length zl)) 0) as (zl' & Hd & Hr'); [by rewrite <- Hz| | |lia|lia|pow_const; lia|].
  - apply list.Forall_forall. intros p [j Hj]%list_elem_of_lookup. apply lookup_take_Some in Hj as [Hj Hlt]. rewrite lookup_drop in Hj.
    destruct (Hp _ p Hj) as [_ ->]. apply bool_decide_true. lia.
  - intros p r' Er. assert (zs !! b = Some p) as Hpb.
    { assert (r !! 0%nat = Some p) as H0 by (by rewrite Er). unfold r in H0. rewrite !lookup_drop in H0. rewrite <- H0. f_equal. lia. }
    destruct (Hp _ p Hpb) as [_ ->]. apply bool_decide_false. lia.
  - rewrite <- Hz, length_take, Nat.min_l in Hd by lia. exists zl'. split; [|done]. by rewrite Hd.
Qed.

Lemma slice_pos (G L : sds * elem -> bool) zs a b : bounds zs G L a b ->
  first_pos (fun p => G p && L p = true) zs = (if decide (a < b)%nat then Some a else None) /\
  last_pos (fun p => G p && L p = true) zs = (if decide (a < b)%nat then Some (b - 1)%nat else None).
Proof.
  intros (Ha & Hb & Hp).
  assert (forall i p, zs !! i = Some p -> G p && L p = true <-> (a <= i < b)%nat) as H.
  { intros i p Hi. destruct (Hp i p Hi) as [-> ->]. rewrite andb_true_iff, !bool_decide_eq_true. lia. }
  by rewrite (first_pos_slice _ zs a b Hb H), (last_pos_slice _ zs a b Hb H).
Qed.

Lemma slice_empty (G L : sds * elem -> bool) zs a b : bounds zs G L a b -> ~ (a < b)%nat ->
  filter (fun p => G p && L p = true) zs = [] /\ filter (fun p => ~ (G p && L p = true)) zs = zs.
Proof.
  intros Hb Hab. destruct (bounds_filter _ _ _ _ _ Hb) as [-> ->]. replace (b - a)%nat with O by lia. split; [done|]. by rewrite drop_0, take_drop.
Qed.

Lemma delete_range_some test (G L : sds * elem -> bool) (HL : reads test L) zl zs a b :
  zzl_rep zl zs -> bounds zs G L a b -> (a < b)%nat ->
  exists zl', match eptr zs a with Some _ => delete_loop junk (S (length zl)) test zl (eptr zs a) 0 | None => Ok (zl, 0) end =
      Ok (zl', zlength (filter (fun p => G p && L p = true) zs)) /\
    zzl_rep zl' (filter (fun p => ~ (G p && L p = true)) zs).
Proof.
  intros Hr Hb Hab. pose proof (delete_slice test G L HL zl zs a b Hr Hb Hab) as Hd. rewrite (eptr_lt zs a) in * by (destruct Hb as (_ & ? & _); lia). exact Hd.
Qed.

Lemma zzl_without_slice zl zl' l m r : zzl_rep zl (l ++ m ++ r) -> is_listpack zl' (pairs (l ++ r)) -> zzl_rep zl' (l ++ r).
Proof.
  intros [_ Hok Hs Hnd Hb] Hl. assert (Hsub : l ++ r `sublist_of` l ++ m ++ r) by (apply sublist_app; [done|by apply sublist_inserts_l]). split; [done|..].
  - rewrite !Forall_app in *. tauto.
  - rewrite !fmap_app in *. apply StronglySorted_app in Hs as (Hc & H1 & H2). apply StronglySorted_app in H2 as (_ & _ & H2).
    apply StronglySorted_app. split_and!; [|done|done]. intros x y Hx Hy. apply Hc; [done|]. apply elem_of_app. by right.
  - rewrite !fmap_app in *. apply list.NoDup_app in Hnd as (H1 & Hc & H2). apply list.NoDup_app in H2 as (_ & _ & H2). apply list.NoDup_app. split_and!; [done| |done].
    intros x Hx Hr. apply (Hc x Hx). apply elem_of_app. by right.
  - rewrite !budget_app in *. pose proof (budget_ge m). lia.
Qed.

Lemma deleteByRank_spec zl zs (start end_ : Z) : zzl_rep zl zs -> 1 <= start <= end_ -> end_ <= zlength zs ->
  exists zl', zzlDeleteRangeByRank junk zl start end_ = Ok (zl', end_ - start + 1) /\
    zzl_rep zl' (take (Z.to_nat (start - 1)) zs ++ drop (Z.to_nat end_) zs).
Proof.
  intros Hr Hs He. destruct (zzl_wf _ _ _ Hr) as (n & slack & -> & Hwf). pose proof (length_bound n _ Hwf) as Hlb. rewrite pairs_length in Hlb.
  unfold zzlDeleteRangeByRank. cbn zeta. rewrite (u_id 32 (end_ - start)), (u_id 32 (start - 1)) by (pow_const; lia). replace (end_ - start + 1) with (end_ - (start - 1)) by lia.
  rewrite (u_id 32 (end_ - (start - 1))), (u_id 32 (2 * (start - 1))) by (pow_const; lia). rewrite u_id by (pow_const; lia).
  destruct (deleteRange_contract junk n slack (pairs zs) (2 * (start - 1)) (2 * (end_ - (start - 1))) Hwf) as (zl' & -> & Hl); [pow_const; lia|].
  exists zl'. split; [done|]. unfold seek_index in Hl. rewrite pairs_length in Hl.
  rewrite (proj2 (Z.ltb_ge _ _)), (proj2 (Z.leb_le _ _)), (proj2 (Z.ltb_lt _ _)) in Hl by lia. cbn [andb] in Hl.
  set (i := Z.to_nat (start - 1)) in *. set (k := (Z.to_nat end_ - i)%nat).
  assert (Hz : zs = take i zs ++ take k (drop i zs) ++ drop k (drop i zs)) by by rewrite !take_drop.
  replace (drop (Z.to_nat end_) zs) with (drop k (drop i zs)) by (rewrite drop_drop; f_equal; lia).
  apply (zzl_without_slice (lp_of n (pairs zs) slack) _ _ (take k (drop i zs)) _); [rewrite <- Hz; exact Hr|].
  replace (Z.to_nat (2 * (start - 1))) with (length (pairs (take i zs))) in Hl by (rewrite pairs_length, length_take; lia).
  replace (Z.to_nat (2 * (end_ - (start - 1)))) with (length (pairs (take k (drop i zs)))) in Hl by (rewrite pairs_length, length_take, length_drop; lia).
  assert (Hpz : pairs zs = pairs (take i zs) ++ pairs (take k (drop i zs)) ++ pairs (drop k (drop i zs))) by (rewrite <- !pairs_app; by f_equal).
  rewrite Hpz, drop_app_length, take_app_length, drop_app_length in Hl. by rewrite pairs_app.
Qed.

(** C34: in a sorted set in a listpack, zzlFirstInRange and zzlLastInRange and their
    lexicographic forms return the first and the last member in range, and NULL when there
    is none; deleting a range of scores, elements or ranks removes exactly the members in
    the range and returns their number.  The lexicographic forms ask for equal scores. *)
Theorem zzl_range_correct zl zs :
  zzl_rep zl zs ->
  (forall range, isnan (min range) = false -> isnan (max range) = false ->
     let P p := pair_in range p = true in
     zzlFirstInRange fast_float_strtod zl range = Ok (first_pos P zs ≫= eptr zs) /\
     zzlLastInRange fast_float_strtod zl range = Ok (last_pos P zs ≫= eptr zs) /\
     exists zl', zzlDeleteRangeByScore junk fast_float_strtod zl range = Ok (zl', zlength (filter P zs)) /\ zzl_rep zl' (filter (fun p => ~ P p) zs)) /\
  (same_pair_scores zs -> forall lrange,
     let P p := pair_in_lex lrange p = true in
     zzlFirstInLexRange junk zl lrange = Ok (first_pos P zs ≫= eptr zs) /\
     zzlLastInLexRange junk zl lrange = Ok (last_pos P zs ≫= eptr zs) /\
     exists zl', zzlDeleteRangeByLex junk zl lrange = Ok (zl', zlength (filter P zs)) /\ zzl_rep zl' (filter (fun p => ~ P p) zs)) /\
  (forall start end_, 1 <= start <= end_ -> end_ <= zlength zs ->
     exists zl', zzlDeleteRangeByRank junk zl start end_ = Ok (zl', end_ - start + 1) /\
       zzl_rep zl' (take (Z.to_nat (start - 1)) zs ++ drop (Z.to_nat end_) zs)).
Proof.
  intros Hr. split_and!; [| |intros start end_; by apply deleteByRank_spec].
  - intros range Hm HM. cbv zeta. unfold pair_in. destruct (pair_bounds zl zs range Hr Hm HM) as (a & b & Hb).
    destruct (slice_pos _ _ _ _ _ Hb) as [-> ->]. destruct (zzl_wf _ _ _ Hr) as (n & slack & Hzl & Hwf).
    destruct (first_last_score n slack zs Hwf (zz_ok _ _ _ Hr) range a b Hb Hm HM) as [Hf Hl]. rewrite <- Hzl in Hf, Hl.
    unfold zzlDeleteRangeByScore. rewrite Hf, Hl. case_decide as Hab; (split; [done|]); (split; [done|]).
    + cbn [mbind option_bind]. apply (delete_range_some _ _ _ (score_reads range) zl zs a b Hr Hb Hab).
    + destruct (slice_empty _ _ _ _ _ Hb Hab) as [H1 H2]. exists zl. by rewrite H1, H2.
  - intros Hsame lrange. cbv zeta. unfold pair_in_lex. destruct (pair_lex_bounds zl zs lrange Hr Hsame) as (a & b & Hb).
    destruct (slice_pos _ _ _ _ _ Hb) as [-> ->]. destruct (zzl_wf _ _ _ Hr) as (n & slack & Hzl & Hwf).
    destruct (first_last_lex n slack zs Hwf (zz_ok _ _ _ Hr) lrange a b Hb) as [Hf Hl]. rewrite <- Hzl in Hf, Hl.
    unfold zzlDeleteRangeByLex. rewrite Hf, Hl. case_decide as Hab; (split; [done|]); (split; [done|]).
    + cbn [mbind option_bind]. apply (delete_range_some _ _ _ (lex_reads lrange) zl zs a b Hr Hb Hab).
    + destruct (slice_empty _ _ _ _ _ Hb Hab) as [H1 H2]. exists zl. by rewrite H1, H2.
Qed.
End Range.

(** The set with a: 1, b: 2, c: 2 and d: 3, and the range from 2 to 3 without 3. *)
Definition demo_pairs : list (sds * elem) := [(str [97], EInt 1); (str [98], EInt 2); (str [99], EInt 2); (str [100], EInt 3)].
Definition demo_zzl : list Z := lp_of 8 (pairs demo_pairs) [].
Definition demo_range : zrangespec := {| min := two; max := double_of_ll 3; minex := false; maxex := true |}.

Lemma demo_zzl_rep strtod : zzl_rep strtod demo_zzl demo_pairs.
Proof.
  split.
  - exists 8, []. split; [done|]. split; [by right|by vm_compute|]. apply (zzl_elems strtod). repeat constructor; by vm_compute.
  - repeat constructor; by vm_compute.
  - repeat constructor; by vm_compute.
  - apply (bool_decide_unpack _). by vm_compute.
  - by vm_compute.
Qed.

Lemma zzl_range_correct_witness :
  zzlFirstInRange (fun _ => one) demo_zzl demo_range = Ok (eptr demo_pairs 1) /\
  (exists zl', zzlDeleteRangeByScore 0 (fun _ => one) demo_zzl demo_range = Ok (zl', 2) /\ zzl_rep (fun _ => one) zl' [(str [97], EInt 1); (str [100], EInt 3)]).
Proof.
  destruct (zzl_range_correct 0 (fun _ => one) demo_zzl demo_pairs (demo_zzl_rep _)) as (Hs & _ & _).
  destruct (Hs demo_range eq_refl eq_refl) as (Hf & _ & zl' & Hd & Hr). split; [exact Hf|]. exists zl'. split; [exact Hd|exact Hr].
Defined.
