(* ===== verification/Zset.v ===== *)
(** Sorted set objects, the model: the common sorted set API of src/redis-stable/src/t_zset.c.

    A sorted set is a listpack of elements and scores, or a dict from elements to scores
    with a skip list.  The value in the dict is a pointer to the score inside a node of the
    skip list: it is the address of the node, so that a score that is updated in place
    changes for both.  The element is shared by the dict and the node; strings are values.
    Every call of zslRandomLevel consumes one list of random numbers.  Operations that may
    rehash the dict or repair the count of a listpack return the object as well. *)

From stdpp Require Import gmap.
From S2P Require Import Prelude Machine UtilNum Double DoubleConv Listpack ListpackBatch Dict SetType Skiplist Zzl.

Record zset_config := mkZsetConfig {
  zset_max_listpack_entries : Z;
  zset_max_listpack_value : Z
}.

Record zset := mkZset {
  zs_dict : dict sds Z;
  zs_zsl : zskiplist
}.

(** The encoding and the pointer of the object. *)
Inductive zsetobj :=
| ZsetListpack (zl : list Z)
| ZsetSkiplist (zs : zset).

Inductive zset_encoding := ENCODING_LISTPACK | ENCODING_SKIPLIST.

Definition ZADD_IN_INCR : Z := 1.
Definition ZADD_IN_NX : Z := 2.
Definition ZADD_IN_XX : Z := 4.
Definition ZADD_IN_GT : Z := 8.
Definition ZADD_IN_LT : Z := 16.
Definition ZADD_OUT_NOP : Z := 1.
Definition ZADD_OUT_NAN : Z := 2.
Definition ZADD_OUT_ADDED : Z := 4.
Definition ZADD_OUT_UPDATED : Z := 8.

Section Zset.
Context (junk : Z) (fpconv_dtoa : double -> list Z) (fast_float_strtod : list Z -> double).
Context (usable : Z -> Z) (sdsAllocSize : sds -> Z) (zsl_size : Z) (junk_level : zskiplistLevel).
Context (hashFunction : sds -> Z) (dict_can_resize : dictResizeEnable) (server : zset_config).
Implicit Types (zobj : zsetobj) (zs : zset) (d : dict sds Z) (draws : list (list Z)).

Notation zsetDictAdd d ele x := (dictAdd hashFunction dictSdsKeyCompare None false dict_can_resize d 0 ele x).
Notation zsetDictLink d ele := (dictFindLink hashFunction dictSdsKeyCompare dict_can_resize d ele false).
Notation zsetDictUnlink d ele := (dictUnlink hashFunction dictSdsKeyCompare None false dict_can_resize d ele).
Notation zsetDictExpand d n := (dictExpand hashFunction false dict_can_resize d n).

(** The random numbers of the next call of zslRandomLevel. *)
Definition next_draw draws : res (list Z * list (list Z)) :=
  match draws with ds :: draws => Ok (ds, draws) | [] => Fault OutOfFuel end.

(** The double that the value of an entry points to. *)
Definition score_at (zsl : zskiplist) (x : Z) : res double := let! n := deref zsl x in Ok (score n).

Definition zsetLength zobj : res (Z * zsetobj) :=
  match zobj with
  | ZsetListpack zl => let! '(n, zl) := zzlLength zl in Ok (n, ZsetListpack zl)
  | ZsetSkiplist zs => Ok (zlen (zs_zsl zs), zobj)
  end.

Definition createZsetObject : zset := mkZset dictCreate (zslCreate usable sdsAllocSize zsl_size junk_level).

Definition zsetTypeCreate (size_hint val_len_hint : Z) : res zsetobj :=
  if (size_hint <=? zset_max_listpack_entries server) && (val_len_hint <=? zset_max_listpack_value server)
  then let! zl := lpNew junk 0 in Ok (ZsetListpack zl)
  else
    let zs := createZsetObject in
    let! '(_, d) := zsetDictExpand (zs_dict zs) size_hint in
    Ok (ZsetSkiplist (mkZset d (zs_zsl zs))).

(** * Conversion *)

(** zslInsert, and serverAssert(dictAdd(d, ele, &node->score) == DICT_OK) *)
Definition insert_both zs (score : double) (ele : sds) (ds : list Z) : res zset :=
  let! '(node, zsl) := zslInsert usable sdsAllocSize junk_level (zs_zsl zs) score ele ds in
  let! '(st, d) := zsetDictAdd (zs_dict zs) ele node in
  assert! bool_decide (st = DICT_OK) in
  Ok (mkZset d zsl).

Fixpoint to_skiplist (fuel : nat) (zl : list Z) (eptr sptr : option Z) zs draws : res (zset * list (list Z)) :=
  match eptr with
  | None => Ok (zs, draws)
  | Some _ =>
      match fuel with
      | O => Fault OutOfFuel
      | S fuel =>
          let! score := zzlGetScore fast_float_strtod zl sptr in
          let! ele := lpGetObject junk zl eptr in
          let! '(ds, draws) := next_draw draws in
          let! zs := insert_both zs score ele ds in
          let! '(eptr, sptr) := zzlNext zl eptr sptr in
          to_skiplist fuel zl eptr sptr zs draws
      end
  end.

Fixpoint to_listpack (fuel : nat) (zl : list Z) (zsl : zskiplist) (node : option Z) : res (list Z) :=
  match node with
  | None => Ok zl
  | Some x =>
      match fuel with
      | O => Fault OutOfFuel
      | S fuel =>
          let! n := deref zsl x in
          let! ele := ele_of n in
          let! zl := not_null (zzlInsertAt junk fpconv_dtoa zl None ele (score n)) in
          let! l := get1 0 (levels n) in
          let! zsl := zslFreeNode usable sdsAllocSize zsl x in
          to_listpack fuel zl zsl (forward l)
      end
  end.

Definition zsetConvertAndExpand zobj (encoding : zset_encoding) (cap : Z) draws : res (zsetobj * list (list Z)) :=
  match zobj, encoding with
  | ZsetListpack zl, ENCODING_SKIPLIST =>
      let zs := createZsetObject in
      let! '(_, d) := zsetDictExpand (zs_dict zs) cap in
      let! eptr := lpSeek zl 0 in
      let! sptr := (match eptr with
                    | Some e => let! sptr := lpNext zl e in let! _ := non_null sptr in Ok sptr
                    | None => Ok None
                    end) in
      let! '(zs, draws) := to_skiplist (length zl) zl eptr sptr (mkZset d (zs_zsl zs)) draws in
      Ok (ZsetSkiplist zs, draws)
  | ZsetSkiplist zs, ENCODING_LISTPACK =>
      let! zl := lpNew junk 0 in
      let zsl := zs_zsl zs in
      let! l := get_level zsl (header zsl) 0 in
      let! zl := to_listpack (Z.to_nat (zlen zsl)) zl (set_nodes zsl (delete (header zsl) (nodes zsl))) (forward l) in
      Ok (ZsetListpack zl, draws)
  | _, _ => Ok (zobj, draws)
  end.

Definition zsetConvert zobj (encoding : zset_encoding) draws : res (zsetobj * list (list Z)) :=
  let! '(n, zobj) := zsetLength zobj in zsetConvertAndExpand zobj encoding n draws.

Definition zsetTypeMaybeConvert zobj (size_hint : Z) draws : res (zsetobj * list (list Z)) :=
  match zobj with
  | ZsetListpack _ =>
      if size_hint >? zset_max_listpack_entries server then zsetConvertAndExpand zobj ENCODING_SKIPLIST size_hint draws
      else Ok (zobj, draws)
  | ZsetSkiplist _ => Ok (zobj, draws)
  end.

Definition zsetConvertToListpackIfNeeded zobj (maxelelen totelelen : Z) draws : res (zsetobj * list (list Z)) :=
  match zobj with
  | ZsetListpack _ => Ok (zobj, draws)
  | ZsetSkiplist zs =>
      let! safe := lpSafeToAdd None totelelen in
      if (zlen (zs_zsl zs) <=? zset_max_listpack_entries server) && (maxelelen <=? zset_max_listpack_value server) && safe
      then zsetConvert zobj ENCODING_LISTPACK draws
      else Ok (zobj, draws)
  end.

(** * Members *)

(** [None] is C_ERR. *)
Definition zsetScore zobj (member : sds) : res (option double * zsetobj) :=
  match zobj with
  | ZsetListpack zl => let! r := zzlFind fast_float_strtod zl member in Ok (snd <$> r, zobj)
  | ZsetSkiplist zs =>
      let! '(de, _, d) := zsetDictLink (zs_dict zs) member in
      let zobj := ZsetSkiplist (mkZset d (zs_zsl zs)) in
      match de with
      | None => Ok (None, zobj)
      | Some l =>
          let! '(_, x) := entry_at d l in
          let! sc := score_at (zs_zsl zs) x in
          Ok (Some sc, zobj)
      end
  end.

(** What zsetAdd decides about an element that exists with score [curscore]: an early return
    with its flags, or the new score. *)
Definition existing_score (score curscore : double) (in_flags : Z) : (Z * Z) + double :=
  if negb (Z.land in_flags ZADD_IN_NX =? 0) then inl (1, ZADD_OUT_NOP)
  else
    let incr := negb (Z.land in_flags ZADD_IN_INCR =? 0) in
    let score := if incr then dadd score curscore else score in
    if incr && isnan score then inl (0, ZADD_OUT_NAN)
    else if (negb (Z.land in_flags ZADD_IN_LT =? 0) && dle curscore score) ||
            (negb (Z.land in_flags ZADD_IN_GT =? 0) && dle score curscore) then inl (1, ZADD_OUT_NOP)
    else inr score.

(** The result of zsetAdd: the return value, the flags, and the new score if it is set. *)
Definition zadd_result : Type := Z * Z * option double.

Definition add_skiplist zs (score : double) (ele : sds) (in_flags : Z) draws : res (zadd_result * zsetobj) :=
  let! '(de, _, d) := zsetDictLink (zs_dict zs) ele in
  let zs := mkZset d (zs_zsl zs) in
  match de with
  | Some l =>
      let! '(_, x) := entry_at d l in
      let! curscore := score_at (zs_zsl zs) x in
      match existing_score score curscore in_flags with
      | inl (ret, out) => Ok ((ret, out, None), ZsetSkiplist zs)
      | inr score =>
          if negb (deq score curscore) then
            let! '(ds, _) := next_draw draws in
            let! '(znode, zsl) := zslUpdateScore usable sdsAllocSize junk_level (zs_zsl zs) curscore ele score ds in
            let! d := dictSetVal d l znode in
            Ok ((1, ZADD_OUT_UPDATED, Some score), ZsetSkiplist (mkZset d zsl))
          else Ok ((1, 0, Some score), ZsetSkiplist zs)
      end
  | None =>
      if Z.land in_flags ZADD_IN_XX =? 0 then
        let! '(ds, _) := next_draw draws in
        let! zs := insert_both zs score ele ds in
        Ok ((1, ZADD_OUT_ADDED, Some score), ZsetSkiplist zs)
      else Ok ((1, ZADD_OUT_NOP, None), ZsetSkiplist zs)
  end.

Definition zsetAdd zobj (score : double) (ele : sds) (in_flags : Z) draws : res (zadd_result * zsetobj) :=
  if isnan score then Ok ((0, ZADD_OUT_NAN, None), zobj)
  else
    match zobj with
    | ZsetListpack zl =>
        let! r := zzlFind fast_float_strtod zl ele in
        match r with
        | Some (eptr, curscore) =>
            match existing_score score curscore in_flags with
            | inl (ret, out) => Ok ((ret, out, None), zobj)
            | inr score =>
                if negb (deq score curscore) then
                  let! zl := zzlDelete junk zl eptr in
                  let! zl := not_null (zzlInsert junk fpconv_dtoa fast_float_strtod zl ele score) in
                  Ok ((1, ZADD_OUT_UPDATED, Some score), ZsetListpack zl)
                else Ok ((1, 0, Some score), zobj)
            end
        | None =>
            if Z.land in_flags ZADD_IN_XX =? 0 then
              let! '(n, zl) := zzlLength zl in
              let! safe := lpSafeToAdd (Some zl) (zlength (sds_bytes ele)) in
              if (u32 (n + 1) >? zset_max_listpack_entries server) ||
                 (zlength (sds_bytes ele) >? zset_max_listpack_value server) || negb safe then
                let! '(n, zobj) := zsetLength (ZsetListpack zl) in
                let! '(zobj, draws) := zsetConvertAndExpand zobj ENCODING_SKIPLIST (u64 (n + 1)) draws in
                match zobj with
                | ZsetSkiplist zs => add_skiplist zs score ele in_flags draws
                | ZsetListpack _ => Fault AssertFailed
                end
              else
                let! zl := not_null (zzlInsert junk fpconv_dtoa fast_float_strtod zl ele score) in
                Ok ((1, ZADD_OUT_ADDED, Some score), ZsetListpack zl)
            else Ok ((1, ZADD_OUT_NOP, None), zobj)
        end
    | ZsetSkiplist zs => add_skiplist zs score ele in_flags draws
    end.

Definition zsetRemoveFromSkiplist zs (ele : sds) : res (bool * zset) :=
  let! '(de, d) := zsetDictUnlink (zs_dict zs) ele in
  match de with
  | Some (_, x) =>
      let! sc := score_at (zs_zsl zs) x in
      let! '(retval, _, zsl) := zslDelete usable sdsAllocSize (zs_zsl zs) sc ele false in
      assert! retval in
      Ok (true, mkZset d zsl)
  | None => Ok (false, mkZset d (zs_zsl zs))
  end.

Definition zsetDel zobj (ele : sds) : res (bool * zsetobj) :=
  match zobj with
  | ZsetListpack zl =>
      let! r := zzlFind fast_float_strtod zl ele in
      match r with
      | Some (eptr, _) => let! zl := zzlDelete junk zl eptr in Ok (true, ZsetListpack zl)
      | None => Ok (false, zobj)
      end
  | ZsetSkiplist zs => let! '(b, zs) := zsetRemoveFromSkiplist zs ele in Ok (b, ZsetSkiplist zs)
  end.

Fixpoint rank_search (fuel : nat) (zl : list Z) (eptr sptr : option Z) (ele : list Z) (rank : Z) (cached : Z * Z) :
    res (option (Z * option Z)) :=
  match eptr with
  | None => Ok None
  | Some e =>
      match fuel with
      | O => Fault OutOfFuel
      | S fuel =>
          let! '(eq, cached') := lpCompare zl e ele (zlength ele) (Some cached) in
          if (eq : bool) then Ok (Some (rank, sptr))
          else
            let! '(eptr, sptr) := zzlNext zl eptr sptr in
            rank_search fuel zl eptr sptr ele (u64 (rank + 1)) (default cached cached')
      end
  end.

(** The rank and the score; [None] is -1. *)
Definition zsetRank zobj (ele : sds) (reverse : bool) : res (option (Z * double) * zsetobj) :=
  let! '(llen, zobj) := zsetLength zobj in
  match zobj with
  | ZsetListpack zl =>
      let! eptr := lpSeek zl 0 in
      let! e := non_null eptr in
      let! sptr := lpNext zl e in
      let! _ := non_null sptr in
      let! r := rank_search (length zl) zl eptr sptr (sds_bytes ele) 1 (0, 0) in
      match r with
      | Some (rank, sptr) =>
          let! sc := zzlGetScore fast_float_strtod zl sptr in
          Ok (Some (s64 (if reverse then u64 (llen - rank) else u64 (rank - 1)), sc), zobj)
      | None => Ok (None, zobj)
      end
  | ZsetSkiplist zs =>
      let! '(de, _, d) := zsetDictLink (zs_dict zs) ele in
      let zobj := ZsetSkiplist (mkZset d (zs_zsl zs)) in
      match de with
      | None => Ok (None, zobj)
      | Some l =>
          let! '(_, x) := entry_at d l in
          let! sc := score_at (zs_zsl zs) x in
          let! rank := zslGetRank (zs_zsl zs) sc ele in
          assert! negb (rank =? 0) in
          Ok (Some (s64 (if reverse then u64 (llen - rank) else u64 (rank - 1)), sc), zobj)
      end
  end.

(** * Duplication *)

Fixpoint dup_loop (llen : nat) (zsl : zskiplist) (ln : option Z) zs draws : res zset :=
  match llen with
  | O => Ok zs
  | S llen =>
      let! n := deref_ptr zsl ln in
      let! ele := ele_of n in
      let! '(ds, draws) := next_draw draws in
      let! '(znode, new_zsl) := zslInsert usable sdsAllocSize junk_level (zs_zsl zs) (score n) ele ds in
      let! '(_, d) := zsetDictAdd (zs_dict zs) ele znode in
      dup_loop llen zsl (backward n) (mkZset d new_zsl) draws
  end.

Definition zsetDup zobj draws : res zsetobj :=
  match zobj with
  | ZsetListpack zl => let! zl := lpDup zl in Ok (ZsetListpack zl)
  | ZsetSkiplist zs =>
      let new_zs := createZsetObject in
      let! '(_, d) := zsetDictExpand (zs_dict new_zs) (dictSize (zs_dict zs)) in
      let! new_zs := dup_loop (Z.to_nat (zlen (zs_zsl zs))) (zs_zsl zs) (tail (zs_zsl zs)) (mkZset d (zs_zsl new_zs)) draws in
      Ok (ZsetSkiplist new_zs)
  end.

End Zset.
