(* ===== verification/ZsetInv.v ===== *)
(** Sorted set objects: what an object represents, and the contract of each operation of
    the sorted set API of src/redis-stable/src/t_zset.c. *)

From Stdlib Require Import SpecFloat.
From stdpp Require Import gmap sorting.
From S2P Require Import Prelude Machine UtilNum Double DoubleConv Listpack ListpackEnc ListpackSeq ListpackRead ListpackSpec ListpackBatch Dict DictInv DictOps SetType SetTypeSpec Skiplist ZOrder SkiplistInv SkiplistUpd SkiplistOps SkiplistDel SkiplistRange SkiplistSpec Zzl ZzlInv Zset.

(** * Maps made from sequences *)

Section Keyed.
Context {A V : Type} (key : A -> sds) (val : A -> V).
Implicit Types (l r xs : list A) (x : A).

Definition keyed xs : gmap sds V := list_to_map ((fun x => (key x, val x)) <$> xs).

Lemma keyed_keys xs : ((fun x => (key x, val x)) <$> xs).*1 = key <$> xs.
Proof. by rewrite <- list_fmap_compose. Qed.

Lemma nodup_key_mid l x r : NoDup (key <$> l ++ x :: r) <-> key x ∉ key <$> l ++ r /\ NoDup (key <$> l ++ r).
Proof. by rewrite !fmap_app, fmap_cons, <- Permutation_middle, list.NoDup_cons. Qed.

Lemma keyed_mid l x r : key x ∉ key <$> l ++ r -> keyed (l ++ x :: r) = <[key x := val x]> (keyed (l ++ r)).
Proof.
  unfold keyed. induction l as [|y l IH]; intros Hout; [done|]. cbn [app] in *. rewrite !fmap_cons. cbn [list_to_map foldr fst snd uncurry].
  rewrite fmap_cons, elem_of_cons in Hout. rewrite IH by tauto. apply insert_insert_ne. intros E. apply Hout. by left.
Qed.

Lemma keyed_None xs e : keyed xs !! e = None <-> e ∉ key <$> xs.
Proof. unfold keyed. by rewrite <- not_elem_of_list_to_map, keyed_keys. Qed.

Lemma keyed_lookup l x r : NoDup (key <$> l ++ x :: r) -> keyed (l ++ x :: r) !! key x = Some (val x).
Proof. intros [Hout _]%nodup_key_mid. rewrite keyed_mid by done. apply lookup_insert_eq. Qed.

Lemma keyed_delete l x r : NoDup (key <$> l ++ x :: r) -> delete (key x) (keyed (l ++ x :: r)) = keyed (l ++ r).
Proof. intros [Hout _]%nodup_key_mid. rewrite keyed_mid by done. apply delete_insert_id. by apply keyed_None. Qed.

Lemma keyed_size xs : NoDup (key <$> xs) -> base.size (keyed xs) = length xs.
Proof. intros Hnd. unfold keyed. rewrite map_size_list_to_map by (by rewrite keyed_keys). by rewrite length_fmap. Qed.

Lemma keyed_split xs e : e ∈ key <$> xs -> exists l x r, xs = l ++ x :: r /\ key x = e.
Proof. intros (x & -> & (l & r & ->)%list_elem_of_split)%list_elem_of_fmap. by exists l, x, r. Qed.
End Keyed.

Section ZsetInv.
Context (junk : Z) (fpconv_dtoa : double -> list Z) (fast_float_strtod : list Z -> double).
Context `{!FloatText fpconv_dtoa fast_float_strtod}.
Context (usable : Z -> Z) (sdsAllocSize : sds -> Z) (zsl_size : Z) (junk_level : zskiplistLevel).
Context (hashFunction : sds -> Z) (dict_can_resize : dictResizeEnable) (server : zset_config).
Implicit Types (z : zset) (ts : list tower) (d : dict sds Z) (ele : sds) (sc : double).

Notation dict_rep := (DictOps.dict_rep hashFunction).
Notation zsl_ok := (zsl_ok usable sdsAllocSize zsl_size).
Notation zsl_rep := (zsl_rep usable sdsAllocSize zsl_size).
Notation insert_both := (insert_both usable sdsAllocSize junk_level hashFunction dict_can_resize).

(** * The dict of a skip list *)

(** What the dict maps elements to: the addresses of their nodes. *)
Notation index := (keyed t_ele t_addr).

Definition tower_ok (t : tower) : Prop := bytes_ok (sds_bytes (t_ele t)) /\ valid (t_score t) = true.

Record skip_rep z ts : Prop := {
  sr_zsl : zsl_ok (zs_zsl z) ts;
  sr_dict : dict_rep (zs_dict z) (index ts);
  sr_nodup : NoDup (t_ele <$> ts);
  sr_ok : Forall tower_ok ts;
  sr_pause : pauseAutoResize (zs_dict z) = 0
}.

Lemma absent_ele ts sc ele : ele ∉ t_ele <$> ts -> absent ts sc ele.
Proof. intros Hout t Ht [_ <-]. apply Hout. by apply list_elem_of_fmap_2. Qed.

(** * The skip list encoding *)

Lemma score_at_spec z l t r : skip_rep z (l ++ t :: r) -> score_at (zs_zsl z) (t_addr t) = Ok (t_score t).
Proof.
  intros Hr. destruct (sr_zsl _ _ Hr) as [Hz _]. pose proof (zr_body _ _ _ _ _ _ Hz (length l) t ltac:(by rewrite list_lookup_middle)) as Hb.
  destruct (body_deref _ _ _ _ _ _ Hb) as (n & Hd & _ & _ & Hs & _). unfold score_at. by rewrite Hd, Hs.
Qed.

(** The lookup of an element may rehash the dict. *)
Lemma link_spec z ts ele : skip_rep z ts ->
  exists de b d', dictFindLink hashFunction dictSdsKeyCompare dict_can_resize (zs_dict z) ele false = Ok (de, b, d') /\
    skip_rep (mkZset d' (zs_zsl z)) ts /\
    match de with
    | Some k => exists l t r, ts = l ++ t :: r /\ t_ele t = ele /\ link_at d' k ele (t_addr t)
    | None => ele ∉ t_ele <$> ts
    end.
Proof.
  intros [Hz Hd Hnd Hok Hp]. destruct (findLink_spec hashFunction dictSdsKeyCompare dictSdsKeyCompare_eq dict_can_resize _ _ ele false Hd)
    as (de & b & d' & Hf & Hd' & [_ Hp'] & Hs). exists de, b, d'. split; [done|]. split; [split; simpl; congruence || done|].
  destruct de as [k|]; [|by apply (keyed_None t_ele t_addr)]. destruct Hs as (v & Hl & Hv).
  destruct (decide (ele ∈ t_ele <$> ts)) as [Hin|Hout]; [|apply (keyed_None t_ele t_addr) in Hout; congruence].
  destruct (keyed_split t_ele ts ele Hin) as (l & t & r & -> & <-). exists l, t, r. split_and!; [done|done|].
  rewrite (keyed_lookup t_ele t_addr) in Hv by done. by injection Hv as ->.
Qed.

Lemma insert_both_spec z ts sc ele ds lv :
  skip_rep z ts -> ele ∉ t_ele <$> ts -> bytes_ok (sds_bytes ele) -> valid sc = true -> isnan sc = false ->
  zslRandomLevel ds = Ok lv -> zlength ts + 1 < 2 ^ 58 ->
  exists z' l t r, insert_both z sc ele ds = Ok z' /\ skip_rep z' (l ++ t :: r) /\ ts = l ++ r /\ t_key t = (sc, ele).
Proof.
  intros [[Hz Htop] Hd Hnd Hok Hp] Hout Hb Hv Hn Hlv Hsm. unfold Zset.insert_both.
  destruct (zslInsert_spec usable sdsAllocSize zsl_size junk_level _ _ [] sc ele ds lv Hz Htop Hn Hlv (absent_ele ts sc ele Hout)) as (k & x & zsl' & -> & Hz' & Htop' & _ & _); [pow_const; lia|].
  destruct (add_contract hashFunction dictSdsKeyCompare dictSdsKeyCompare_eq None false dict_can_resize (zs_dict z) (index ts) 0 ele x Hd) as (d' & -> & [_ Hp'] & Hd').
  { right. lia. }
  { rewrite keyed_size by done. done. }
  rewrite (proj2 (keyed_None t_ele t_addr ts ele) Hout) in Hd' |- *. cbn [bool_decide decide]. 
  exists (mkZset d' zsl'), (take k ts), (mkTower x sc ele (Z.to_nat lv)), (drop k ts). split; [done|]. rewrite take_drop. split; [|done].
  split; [done| | | |simpl; congruence].
  - rewrite (keyed_mid t_ele t_addr) by (by rewrite take_drop). by rewrite take_drop.
  - apply nodup_key_mid. by rewrite take_drop.
  - rewrite <- (take_drop k ts) in Hok. apply Forall_app in Hok as [? ?]. apply Forall_app. split; [done|]. by constructor.
Qed.

Lemma skip_without z z' l t r : skip_rep z (l ++ t :: r) -> zsl_ok (zs_zsl z') (l ++ r) -> dict_rep (zs_dict z') (index (l ++ r)) ->
  pauseAutoResize (zs_dict z') = 0 -> skip_rep z' (l ++ r).
Proof.
  intros [_ _ Hnd Hok _] Hz Hd Hp. split; [done|done| |..|done].
  - by apply nodup_key_mid in Hnd as [_ ?].
  - apply Forall_app in Hok as [? [_ ?]%Forall_cons_1]. by apply Forall_app.
Qed.

Lemma removeFromSkiplist_found z l t r : skip_rep z (l ++ t :: r) ->
  exists z', zsetRemoveFromSkiplist usable sdsAllocSize hashFunction dict_can_resize z (t_ele t) = Ok (true, z') /\ skip_rep z' (l ++ r).
Proof.
  intros Hr. pose proof Hr as [[Hz Htop] Hd Hnd _ Hp]. unfold zsetRemoveFromSkiplist, dictUnlink.
  destruct (genericDelete_contract hashFunction dictSdsKeyCompare dictSdsKeyCompare_eq None false dict_can_resize _ _ (t_ele t) Hd) as (d' & -> & Hd' & [_ Hp']).
  rewrite (keyed_lookup t_ele t_addr) by done. cbn [fmap option_fmap option_map]. rewrite (score_at_spec z l t r Hr).
  pose proof (zr_nan _ _ _ _ _ _ Hz) as Hnan. apply Forall_app in Hnan as [_ [Hnt _]%Forall_cons_1].
  destruct (zslDelete_found usable sdsAllocSize zsl_size _ l t r [] (t_score t) false Hz (deq_refl _ Hnt)) as (zsl' & -> & Hz' & Htop' & _).
  eexists. split; [done|]. eapply skip_without; [done|done| |simpl; congruence]. by rewrite <- (keyed_delete t_ele t_addr l t r).
Qed.

Lemma removeFromSkiplist_absent z ts ele : skip_rep z ts -> ele ∉ t_ele <$> ts ->
  exists z', zsetRemoveFromSkiplist usable sdsAllocSize hashFunction dict_can_resize z ele = Ok (false, z') /\ skip_rep z' ts.
Proof.
  intros [Hz Hd Hnd Hok Hp] Hout. unfold zsetRemoveFromSkiplist, dictUnlink.
  destruct (genericDelete_contract hashFunction dictSdsKeyCompare dictSdsKeyCompare_eq None false dict_can_resize _ _ ele Hd) as (d' & -> & Hd' & [_ Hp']).
  apply (keyed_None t_ele t_addr) in Hout. rewrite Hout. eexists. split; [done|]. split; [done| |done|done|simpl; congruence]. by rewrite delete_id in Hd'.
Qed.

(** The new score of a member, and the pointer in the dict. *)
Lemma update_spec z l t r sc ds lv k : skip_rep z (l ++ t :: r) -> valid sc = true -> isnan sc = false -> zslRandomLevel ds = Ok lv ->
  link_at (zs_dict z) k (t_ele t) (t_addr t) ->
  exists x zsl' d' l' t' r', zslUpdateScore usable sdsAllocSize junk_level (zs_zsl z) (t_score t) (t_ele t) sc ds = Ok (x, zsl') /\
    dictSetVal (zs_dict z) k x = Ok d' /\ skip_rep (mkZset d' zsl') (l' ++ t' :: r') /\ l' ++ r' = l ++ r /\ t_key t' = (sc, t_ele t).
Proof.
  intros Hr Hv Hn Hlv Hk. pose proof Hr as [[Hz Htop] Hd Hnd Hok Hp]. pose proof (zr_nan _ _ _ _ _ _ Hz) as Hnan. apply Forall_app in Hnan as [_ [Hnt _]%Forall_cons_1].
  pose proof Hnd as [Hout Hnd']%nodup_key_mid.
  destruct (updateScore_spec usable sdsAllocSize zsl_size junk_level _ l t r [] (t_score t) sc ds lv Hz Htop (deq_refl _ Hnt) Hn Hlv (absent_ele _ _ _ Hout))
    as (zsl' & l' & t' & r' & Hu & Hz' & Htop' & _ & Heq & Hkey).
  destruct (setVal_contract hashFunction _ _ k (t_ele t) (t_addr t) (t_addr t') Hd Hk) as (d' & Hs & Hd' & [_ Hp']).
  exists (t_addr t'), zsl', d', l', t', r'. split; [done|]. split; [done|]. split; [|done]. injection Hkey as Hs' He'.
  assert (Hout' : t_ele t' ∉ t_ele <$> l' ++ r') by (by rewrite Heq, He'). split; [done| | | |simpl; congruence].
  - rewrite (keyed_mid t_ele t_addr) by done. rewrite Heq, He'. rewrite (keyed_mid t_ele t_addr), insert_insert_eq in Hd' by done. done.
  - apply nodup_key_mid. split; [done|]. by rewrite Heq.
  - apply Forall_app in Hok as [Hok1 [Hokt Hok2]%Forall_cons_1]. assert (Forall tower_ok (l' ++ r')) as Hlr by (rewrite Heq; by apply Forall_app).
    apply Forall_app in Hlr as [? ?]. apply Forall_app. split; [done|]. constructor; [|done]. unfold tower_ok. rewrite He', Hs'. split; [apply Hokt|done].
Qed.
End ZsetInv.
