(* ===== verification/ZsetConv.v ===== *)
(** Sorted set objects: conversion between the encodings and duplication. *)

From Stdlib Require Import SpecFloat.
From stdpp Require Import gmap sorting.
From S2P Require Import Prelude Machine UtilNum Double DoubleConv Listpack ListpackEnc ListpackSeq ListpackRead ListpackUpd ListpackSpec ListpackBatch Dict DictInv DictOps SetType SetTypeSpec Skiplist ZOrder SkiplistInv SkiplistUpd SkiplistOps SkiplistDel SkiplistRange SkiplistSpec Zzl ZzlInv Zset ZsetInv.

(** Random numbers from which a level can be drawn, for each of the calls. *)
Definition draws_ok (draws : list (list Z)) : Prop := Forall (fun ds => exists lv, zslRandomLevel ds = Ok lv) draws.

Lemma next_draw_ok draws : draws_ok draws -> (0 < length draws)%nat ->
  exists ds lv, next_draw draws = Ok (ds, drop 1 draws) /\ zslRandomLevel ds = Ok lv /\ draws_ok (drop 1 draws).
Proof. intros Hd Hl. destruct draws as [|ds draws]; [simpl in Hl; lia|]. apply Forall_cons_1 in Hd as [[lv Hlv] Hd]. by exists ds, lv. Qed.

Lemma sorted_nmember ms ms' : nmember <$> ms = nmember <$> ms' -> StronglySorted mlt ms -> StronglySorted mlt ms'.
Proof.
  revert ms'. induction ms as [|a ms IH]; intros [|a' ms']; rewrite ?fmap_cons; try done. intros [= Ha He Ht] Hs.
  apply StronglySorted_inv in Hs as [Hs Hf]. constructor; [by apply IH|]. rewrite list.Forall_forall in Hf |- *. intros b' Hb'.
  assert (nmember b' ∈ nmember <$> ms) as (b & Hb & Hin)%list_elem_of_fmap by (rewrite Ht; by apply list_elem_of_fmap_2).
  rewrite <- (mlt_nmember a b a' b'); [by apply Hf|unfold nmember; congruence|done].
Qed.

Section Conv.
Context (junk : Z) (fpconv_dtoa : double -> list Z) (fast_float_strtod : list Z -> double).
Context `{!FloatText fpconv_dtoa fast_float_strtod}.
Context (usable : Z -> Z) (sdsAllocSize : sds -> Z) (zsl_size : Z) (junk_level : zskiplistLevel).
Hypothesis Hsize : 0 <= zsl_size < 2 ^ 64.
Context (hashFunction : sds -> Z) (dict_can_resize : dictResizeEnable) (server : zset_config).
Implicit Types (z : zset) (ts : list tower) (zs : list (sds * elem)) (draws : list (list Z)).

Notation skip_rep := (skip_rep usable sdsAllocSize zsl_size hashFunction).
Notation zzl_rep := (zzl_rep fast_float_strtod).
Notation member_of := (member_of fast_float_strtod).
Notation pair_ok := (pair_ok fast_float_strtod).
Notation to_skiplist := (to_skiplist junk fast_float_strtod usable sdsAllocSize junk_level hashFunction dict_can_resize).

(** * From a listpack to a skip list *)

Lemma new_rep cap : 0 <= cap ->
  exists st d, dictExpand hashFunction false dict_can_resize (zs_dict (createZsetObject usable sdsAllocSize zsl_size junk_level)) cap = Ok (st, d) /\
    skip_rep (mkZset d (zs_zsl (createZsetObject usable sdsAllocSize zsl_size junk_level))) [].
Proof.
  intros Hc. destruct (expand_spec hashFunction dict_can_resize false (dictCreate : dict sds Z) cap (proj1 (create_contract hashFunction)) Hc) as (st & d & He & [Hm _ _ _] & _).
  exists st, d. split; [exact He|]. split.
  - by apply zslCreate_rep.
  - eapply rep_moved; [apply create_contract|exact Hm].
  - constructor.
  - constructor.
  - apply (mv_auto _ _ _ Hm).
Qed.

(** The score of the pair numbered [i]. *)
Definition sptr_opt zs (i : nat) : option Z := if decide (i < length zs)%nat then Some (sptr zs i) else None.

Lemma zzlNext_spec n slack zs i : lp_wf n (pairs zs) -> (i < length zs)%nat ->
  zzlNext (lp_of n (pairs zs) slack) (eptr zs i) (sptr_opt zs i) = Ok (eptr zs (S i), sptr_opt zs (S i)).
Proof.
  intros Hwf Hi. unfold zzlNext, sptr_opt. rewrite eptr_lt, decide_True by done. cbn [non_null]. rewrite next_pair by done.
  case_decide; [|by rewrite eptr_ge by lia]. rewrite eptr_lt by done. by rewrite next_score.
Qed.

Lemma to_skiplist_spec n slack zs : lp_wf n (pairs zs) -> Forall pair_ok zs -> NoDup zs.*1 -> zlength zs < 2 ^ 57 ->
  forall fuel i z ts draws, (i <= length zs)%nat -> (length zs - i <= fuel)%nat -> skip_rep z ts ->
  t_key <$> ts ≡ₚ member_of <$> take i zs -> draws_ok draws -> (length zs - i <= length draws)%nat ->
  exists z' ts', to_skiplist fuel (lp_of n (pairs zs) slack) (eptr zs i) (sptr_opt zs i) z draws = Ok (z', drop (length zs - i) draws) /\
    skip_rep z' ts' /\ t_key <$> ts' ≡ₚ member_of <$> zs.
Proof.
  intros Hwf Hok Hnd Hlen. induction fuel as [|fuel IH]; intros i z ts draws Hi Hf Hz Hperm Hdr Hdl.
  { assert (i = length zs) as -> by lia. rewrite eptr_ge, Nat.sub_diag by lia. exists z, ts. split; [done|]. by rewrite take_ge in Hperm. }
  destruct (decide (i = length zs)) as [->|Hne].
  { rewrite eptr_ge, Nat.sub_diag by lia. exists z, ts. split; [done|]. by rewrite take_ge in Hperm. }
  destruct (lookup_lt_is_Some_2 zs i ltac:(lia)) as [p Hp]. pose proof (Forall_lookup_1 _ _ _ _ Hok Hp) as Hpo.
  destruct (po_score _ _ Hpo) as (_ & _ & Hnan & Hval). rewrite (eptr_lt zs i) by lia. cbn [Zset.to_skiplist].
  rewrite <- (eptr_lt zs i) by lia. unfold sptr_opt at 1. rewrite decide_True by lia.
  rewrite (getScore_ptr fast_float_strtod n slack zs Hok i p Hp), (getObject_ptr junk fast_float_strtod n slack zs Hok i p Hp).
  destruct (next_draw_ok draws Hdr ltac:(lia)) as (ds & lv & -> & Hlv & Hdr').
  assert (Hout : p.1 ∉ t_ele <$> ts).
  { change (t_ele <$> ts) with ((snd ∘ t_key) <$> ts). rewrite list_fmap_compose, Hperm, <- list_fmap_compose. intros (q & Hq & (j & Hj)%list_elem_of_lookup)%list_elem_of_fmap.
    apply lookup_take_Some in Hj as [Hj Hji]. cbn in Hq. assert (zs.*1 !! i = zs.*1 !! j) as E by (rewrite !list_lookup_fmap, Hp, Hj; simpl; congruence).
    apply NoDup_lookup with (i := i) (j := j) (x := p.1) in Hnd; [lia|by rewrite list_lookup_fmap, Hp|by rewrite <- E, list_lookup_fmap, Hp]. }
  assert (Hlts : zlength ts = Z.of_nat i).
  { f_equal. rewrite <- (length_fmap t_key ts), Hperm, length_fmap, length_take. lia. }
  destruct (insert_both_spec usable sdsAllocSize zsl_size junk_level hashFunction dict_can_resize z ts (read_score fast_float_strtod p.2) p.1 ds lv Hz Hout)
    as (z1 & l & t & r & -> & Hz1 & -> & Hk); [apply Hpo|done|done|done|rewrite Hlts; pow_const; lia|].
  rewrite zzlNext_spec by (done || lia).
  destruct (IH (S i) z1 (l ++ t :: r) (drop 1 draws)) as (z' & ts' & -> & Hz' & Hperm'); [lia|lia|done| |done|rewrite length_drop; lia|].
  { rewrite fmap_app, fmap_cons, <- Permutation_middle, <- fmap_app, Hperm, Hk, (take_S_r _ _ _ Hp), fmap_app. apply (Permutation_cons_append (member_of <$> take i zs)). }
  exists z', ts'. split; [|done]. rewrite drop_drop. by replace (1 + (length zs - S i))%nat with (length zs - i)%nat by lia.
Qed.
Lemma to_skiplist_conv zl zs cap draws : zzl_rep zl zs -> 0 <= cap -> draws_ok draws -> (length zs <= length draws)%nat ->
  exists z ts, zsetConvertAndExpand junk fpconv_dtoa fast_float_strtod usable sdsAllocSize zsl_size junk_level hashFunction dict_can_resize
      (ZsetListpack zl) ENCODING_SKIPLIST cap draws = Ok (ZsetSkiplist z, drop (length zs) draws) /\
    skip_rep z ts /\ t_key <$> ts ≡ₚ member_of <$> zs.
Proof.
  intros Hr Hc Hdr Hdl. pose proof Hr as [_ Hok _ Hnd _]. destruct (zzl_wf _ _ _ Hr) as (n & slack & -> & Hwf). cbn [zsetConvertAndExpand].
  destruct (new_rep cap Hc) as (st & d & -> & Hnew). rewrite seek_first by done.
  assert ((match eptr zs 0 with
           | Some e => let! sptr := lpNext (lp_of n (pairs zs) slack) e in let! _ := non_null sptr in Ok sptr
           | None => Ok None
           end) = Ok (sptr_opt zs 0)) as ->.
  { unfold sptr_opt. case_decide; [|by rewrite eptr_ge by lia]. rewrite eptr_lt by done. by rewrite next_score. }
  pose proof (length_bound n _ Hwf) as Hlb. rewrite pairs_length in Hlb. pose proof (fuel_enough n slack _ Hwf) as Hfu. rewrite pairs_length in Hfu.
  destruct (to_skiplist_spec n slack zs Hwf Hok Hnd ltac:(pow_const; lia) (length (lp_of n (pairs zs) slack)) 0 (mkZset d (zs_zsl (createZsetObject usable sdsAllocSize zsl_size junk_level))) [] draws) as (z & ts & -> & Hz & Hp);
    [lia|lia|exact Hnew|done|done|lia|].
  exists z, ts. by rewrite Nat.sub_0_r.
Qed.

(** * From a skip list to a listpack *)

Lemma zzl_snoc zl zs ele se ms a : zzl_rep zl zs -> (forall zl', is_listpack zl' (pairs (zs ++ [(ele, se)])) -> pair_ok (ele, se) -> ele ∉ zs.*1 ->
  nmember <$> (member_of <$> zs ++ [(ele, se)]) = nmember <$> ms ++ [a] -> StronglySorted mlt (ms ++ [a]) ->
  budget (zs ++ [(ele, se)]) <= 2 ^ 31 -> zzl_rep zl' (zs ++ [(ele, se)])).
Proof.
  intros [_ Hok _ Hnd _] zl' Hlp Hpo Hout Hms Hs Hb. split; [done|..|done].
  - apply Forall_app. split; [done|]. by constructor.
  - by eapply sorted_nmember.
  - rewrite fmap_app. simpl. rewrite <- Permutation_cons_append. by constructor.
Qed.

(** The size that the elements of the towers may take in a listpack. *)
Definition tower_budget ts : Z := foldr (fun t b => zlength (entry (elem_of (sds_bytes (t_ele t)))) + score_max + b) 7 ts.

Lemma tower_budget_ge ts : 7 <= tower_budget ts.
Proof. induction ts as [|t ts IH]; simpl; [lia|]. unfold score_max. lia. Qed.

Lemma to_listpack_spec zsl0 ts : zsl_rep usable sdsAllocSize zsl_size zsl0 ts [] -> NoDup (t_ele <$> ts) -> Forall tower_ok ts ->
  forall r l fuel zl zs zsl, ts = l ++ r -> (length r <= fuel)%nat ->
  (forall t, t ∈ r -> nodes zsl !! t_addr t = nodes zsl0 !! t_addr t) ->
  zzl_rep zl zs -> nmember <$> (member_of <$> zs) = nmember <$> (t_key <$> l) -> budget zs + tower_budget r - 7 <= 2 ^ 31 ->
  exists zl' zs', to_listpack junk fpconv_dtoa usable sdsAllocSize fuel zl zsl (t_addr <$> head r) = Ok zl' /\
    zzl_rep zl' zs' /\ nmember <$> (member_of <$> zs') = nmember <$> (t_key <$> ts).
Proof.
  intros Hr Hnd Hok. induction r as [|t r IH]; intros l fuel zl zs zsl Hts Hf Hn Hzl Hms Hb.
  { exists zl, zs. rewrite Hts, app_nil_r. split; [by destruct fuel|done]. }
  destruct fuel as [|fuel]; [simpl in Hf; lia|]. cbn [head fmap option_fmap option_map to_listpack].
  rewrite Hts in Hr, Hnd, Hok. pose proof (zr_body _ _ _ _ _ _ Hr (length l) t ltac:(by rewrite list_lookup_middle)) as Hbody.
  destruct (body_deref _ _ _ _ _ _ Hbody) as (nd & _ & Hnd0 & He & Hs & _). destruct (neighbours _ _ _ zsl0 l t r [] zero nd Hr Hnd0) as (_ & Hg & Hfw & _).
  pose proof (Hn t ltac:(left)) as Hnt. rewrite Hnd0 in Hnt. unfold deref at 1. rewrite Hnt. unfold ele_of. rewrite He, Hs, Hg.
  pose proof Hok as [_ [Hto _]%Forall_cons_1]%Forall_app. pose proof (zr_nan _ _ _ _ _ _ Hr) as [_ [Hnan _]%Forall_cons_1]%Forall_app.
  pose proof (zr_sorted _ _ _ _ _ _ Hr) as Hsort.
  assert (Hbt : budget zs + zlength (entry (elem_of (sds_bytes (t_ele t)))) + score_max <= 2 ^ 31).
  { simpl in Hb. pose proof (tower_budget_ge r). lia. }
  destruct (insertAt_spec junk fpconv_dtoa fast_float_strtod zl zs [] (t_ele t) (t_score t)) as (zl1 & se & Hi & Hlp & Hso & Hnorm);
    [by rewrite app_nil_r|apply Hto|apply Hto|done|by rewrite app_nil_r|].
  rewrite app_nil_r, eptr_ge in Hi by done. unfold not_null at 1. rewrite Hi. unfold zslFreeNode, deref. rewrite Hnt. rewrite Hfw.
  assert (Hms1 : nmember <$> (member_of <$> zs ++ [(t_ele t, se)]) = nmember <$> (t_key <$> l) ++ [t_key t]).
  { rewrite !fmap_app, Hms. f_equal. simpl. unfold nmember. simpl. by rewrite Hnorm. }
  apply (IH (l ++ [t]) fuel zl1 (zs ++ [(t_ele t, se)])).
  - by rewrite <- app_assoc.
  - simpl in Hf. lia.
  - intros t' Ht'. cbn [nodes]. rewrite lookup_delete_ne; [apply Hn; by right|]. intros E.
    pose proof (zr_addrs _ _ _ _ _ _ Hr) as Ha. rewrite app_nil_r in Ha. apply list.NoDup_cons in Ha as [_ Ha]. rewrite fmap_app, fmap_cons in Ha.
    apply list.NoDup_app in Ha as (_ & _ & Ha). apply list.NoDup_cons in Ha as [Ha _]. apply Ha. rewrite E. by apply list_elem_of_fmap_2.
  - eapply (zzl_snoc zl zs (t_ele t) se (t_key <$> l) (t_key t)); [done|done|split; [apply Hto|done]| |done| |].
    + apply nodup_key_mid in Hnd as [Hout _]. intros Hin. apply Hout. rewrite fmap_app. apply elem_of_app. left.
      assert (zs.*1 = t_ele <$> l) as <-; [|done]. apply (f_equal (fmap snd)) in Hms. rewrite <- !list_fmap_compose in Hms. exact Hms.
    + change ([t_key t]) with (t_key <$> [t]). rewrite <- fmap_app. eapply (StronglySorted_fmap _ tlt mlt); [by intros ?|]. rewrite cons_middle in Hsort. by apply StronglySorted_app in Hsort as (_ & ? & _).
    + rewrite budget_mid, app_nil_r. simpl. lia.
  - rewrite Hms1. by rewrite (fmap_app t_key).
  - rewrite budget_mid, app_nil_r. simpl in Hb |- *. lia.
Qed.
Lemma to_listpack_conv z ts cap draws : skip_rep z ts -> tower_budget ts <= 2 ^ 31 ->
  exists zl zs, zsetConvertAndExpand junk fpconv_dtoa fast_float_strtod usable sdsAllocSize zsl_size junk_level hashFunction dict_can_resize
      (ZsetSkiplist z) ENCODING_LISTPACK cap draws = Ok (ZsetListpack zl, draws) /\
    zzl_rep zl zs /\ nmember <$> (member_of <$> zs) = nmember <$> (t_key <$> ts).
Proof.
  intros [[Hz _] _ Hnd Hok _] Hb. cbn [zsetConvertAndExpand]. destruct (new_contract junk 0) as (zl0 & -> & Hlp & _).
  pose proof (zr_level _ _ _ _ _ _ Hz) as Hlv. change 0 with (Z.of_nat 0) at 1. rewrite (cell_get _ _ 0 (link 0 ts)) by (apply (zr_links _ _ _ _ _ _ Hz); lia).
  pose proof (high_zero _ _ _ _ _ _ Hz) as Hhi.
  assert (forward (link 0 ts) = t_addr <$> head ts) as ->.
  { destruct ts as [|t1 ts1]; [done|]. simpl. apply Forall_cons_1 in Hhi as [? _]. by rewrite decide_True. }
  destruct (to_listpack_spec (zs_zsl z) ts Hz Hnd Hok ts [] (Z.to_nat (zlen (zs_zsl z))) zl0 []
    (set_nodes (zs_zsl z) (delete (header (zs_zsl z)) (nodes (zs_zsl z))))) as (zl & zs & -> & Hr & Hms); [done|..|done|simpl; lia|by exists zl, zs].
  - rewrite (zr_len _ _ _ _ _ _ Hz). lia.
  - intros t Ht. cbn [nodes set_nodes]. apply lookup_delete_ne. intros E. eapply addr_header; [exact Hz| |symmetry; exact E]. by rewrite app_nil_r.
  - split; [done|constructor|constructor|constructor|simpl; pow_const; lia].
Qed.

(** * Duplication *)

Lemma dup_loop_spec zsl0 ts : zsl_rep usable sdsAllocSize zsl_size zsl0 ts [] -> NoDup (t_ele <$> ts) -> Forall tower_ok ts -> zlength ts < 2 ^ 57 ->
  forall l r z ts' draws, ts = l ++ r -> skip_rep z ts' -> t_key <$> ts' ≡ₚ t_key <$> r -> draws_ok draws -> (length l <= length draws)%nat ->
  exists z' ts2, dup_loop usable sdsAllocSize junk_level hashFunction dict_can_resize (length l) zsl0 (t_addr <$> list.last l) z draws = Ok z' /\
    skip_rep z' ts2 /\ t_key <$> ts2 ≡ₚ t_key <$> ts.
Proof.
  intros Hr Hnd Hok Hlen. induction l as [|t l IH] using rev_ind; intros r z ts' draws Hts Hz Hp Hdr Hdl; [by exists z, ts'; subst|].
  rewrite length_app, last_snoc in *. cbn [length] in *. replace (length l + 1)%nat with (S (length l)) by lia. cbn [dup_loop fmap option_fmap option_map deref_ptr].
  rewrite <- app_assoc in Hts. cbn [app] in Hts. rewrite Hts in Hr. pose proof (zr_body _ _ _ _ _ _ Hr (length l) t ltac:(by rewrite list_lookup_middle)) as Hbody.
  destruct (body_deref _ _ _ _ _ _ Hbody) as (nd & -> & Hnd0 & He & Hs & Hb & _). unfold ele_of. rewrite He, Hs, Hb.
  destruct (next_draw_ok draws Hdr ltac:(lia)) as (ds & lv & -> & Hlv & Hdr').
  pose proof Hnd as Hnd'. rewrite Hts in Hnd'. pose proof Hok as Hok'. rewrite Hts in Hok'. apply Forall_app in Hok' as [_ [[Hbt Hvt] _]%Forall_cons_1].
  pose proof (zr_nan _ _ _ _ _ _ Hr) as [_ [Hnan _]%Forall_cons_1]%Forall_app.
  assert (Hout : t_ele t ∉ t_ele <$> ts').
  { change (t_ele <$> ts') with ((snd ∘ t_key) <$> ts'). rewrite list_fmap_compose, Hp, <- list_fmap_compose. apply nodup_key_mid in Hnd' as [Ho _].
    intros Hin. apply Ho. rewrite fmap_app. apply elem_of_app. by right. }
  assert (Hlts : zlength ts' <= zlength ts).
  { rewrite <- (length_fmap t_key ts'), Hp, length_fmap, Hts, length_app. simpl. lia. }
  destruct (insert_both_spec usable sdsAllocSize zsl_size junk_level hashFunction dict_can_resize z ts' (t_score t) (t_ele t) ds lv Hz Hout Hbt Hvt Hnan Hlv)
    as (z1 & l1 & t1 & r1 & Hi & Hz1 & -> & Hk); [pow_const; lia|].
  unfold insert_both in Hi. destruct (zslInsert _ _ _ _ _ _ _) as [[node zsl']|]; [|done]. destruct (dictAdd _ _ _ _ _ _ _ _) as [[st d']|]; [|done].
  destruct (bool_decide _); [|done]. injection Hi as <-.
  rewrite prev_addr_app, prev_last by lia.
  apply (IH (t :: r) _ (l1 ++ t1 :: r1)); [done|done| |done|rewrite length_drop; lia].
  rewrite fmap_app, fmap_cons, <- Permutation_middle, <- fmap_app, Hp, Hk. done.
Qed.
End Conv.
