(* ===== verification/ZsetSpec.v ===== *)
(** Sorted set objects: the contract.  Whatever its encoding, a sorted set is a finite map
    from elements to scores, ordered by score and then by element. *)

From Stdlib Require Import SpecFloat.
From stdpp Require Import gmap sorting.
From S2P Require Import Prelude Machine UtilNum Double DoubleConv Listpack ListpackEnc ListpackSeq ListpackRead ListpackUpd ListpackSpec ListpackBatch Dict DictInv DictOps SetType SetTypeSpec Skiplist ZOrder SkiplistInv SkiplistUpd SkiplistOps SkiplistDel SkiplistRange SkiplistSpec Zzl ZzlInv Zset ZsetInv ZsetConv.

Implicit Types (ms : list member) (m : gmap sds double).

(** * The map of a sequence of members *)

(** Scores are kept up to the sign of zero. *)
Definition zmap ms : gmap sds double := keyed snd (fun a => norm a.1) ms.

Lemma zmap_nmember ms ms' : nmember <$> ms = nmember <$> ms' -> zmap ms = zmap ms'.
Proof.
  intros E. assert (forall l : list member, zmap l = list_to_map ((fun a => (a.2, a.1)) <$> (nmember <$> l))) as H
    by (intros l; unfold zmap, keyed; by rewrite <- list_fmap_compose). by rewrite !H, E.
Qed.

Lemma zmap_perm ms ms' : ms ≡ₚ ms' -> NoDup ms.*2 -> zmap ms = zmap ms'.
Proof.
  intros Hp Hnd. unfold zmap, keyed. apply list_to_map_proper; [by rewrite keyed_keys|]. by rewrite Hp.
Qed.

Lemma zmap_keys ms : NoDup ms.*2 -> (map_to_list (zmap ms)).*1 ≡ₚ ms.*2.
Proof. intros Hnd. unfold zmap, keyed. rewrite map_to_list_to_map by (by rewrite keyed_keys). by rewrite keyed_keys. Qed.

(** The number of members before one. *)
Definition rank_in m (a : member) : nat := base.size (filter (fun x => mlt (x.2, x.1) a) m).

Lemma rank_count ms (a : member) : NoDup ms.*2 -> rank_in (zmap ms) a = length (filter (fun b => mlt b a) ms).
Proof.
  unfold rank_in, zmap, keyed. induction ms as [|b ms IH]; intros Hnd; [done|]. rewrite fmap_cons in Hnd. apply list.NoDup_cons in Hnd as [Hout Hnd].
  rewrite fmap_cons. cbn [list_to_map foldr fst snd uncurry]. rewrite filter_cons.
  assert (Hnone : (list_to_map ((fun x : member => (x.2, norm x.1)) <$> ms) : gmap sds double) !! b.2 = None) by (apply not_elem_of_list_to_map; by rewrite keyed_keys).
  assert (Hiff : mlt (norm b.1, b.2) a <-> mlt b a) by (apply mlt_nmember; [unfold nmember; simpl; by rewrite norm_norm|done]).
  destruct (decide (mlt b a)) as [Hb|Hb].
  - rewrite map_filter_insert_True by (simpl; by apply Hiff). rewrite map_size_insert_None; [simpl; by rewrite IH|].
    apply map_lookup_filter_None. by left.
  - rewrite map_filter_insert_False by (simpl; by rewrite Hiff). rewrite delete_id by done. by apply IH.
Qed.

(** In a sorted sequence this is the position. *)
Lemma rank_sorted l a r : StronglySorted mlt (l ++ a :: r) -> Forall num (l ++ a :: r) -> NoDup (l ++ a :: r).*2 ->
  rank_in (zmap (l ++ a :: r)) (nmember a) = length l.
Proof.
  intros Hs Hn Hnd. rewrite rank_count by done. rewrite list.Forall_forall in Hn. apply StronglySorted_app in Hs as (Hc & _ & Hr).
  apply StronglySorted_inv in Hr as [_ Hr]. rewrite list.Forall_forall in Hr.
  assert (Hiff : forall b, mlt b (nmember a) <-> mlt b a) by (intros b; apply mlt_nmember; [done|unfold nmember; simpl; by rewrite norm_norm]).
  rewrite list.filter_app, (filter_all _ l), filter_none; [by rewrite app_nil_r| |].
  - intros b Hb. rewrite Hiff. rewrite elem_of_cons in Hb. destruct Hb as [->|Hb].
    + apply mlt_irrefl, Hn, elem_of_app. right. left.
    + intros Hlt. assert (num a) by (apply Hn, elem_of_app; right; left). assert (num b) by (apply Hn, elem_of_app; right; by right).
      apply (mlt_irrefl a); [done|]. by apply (mlt_trans a b a); [..|apply Hr|].
  - intros b Hb. apply Hiff, Hc; [done|left].
Qed.

(** * The specification *)

(** The flags of a call of zsetAdd. *)
Definition has (flags bit : Z) : bool := negb (Z.land flags bit =? 0).

(** The score of an existing element: an early return, or the score to set. *)
Definition spec_existing (sc cur : double) (flags : Z) : (Z * Z) + double :=
  let new := norm (if has flags ZADD_IN_INCR then dadd sc cur else sc) in
  if has flags ZADD_IN_NX then inl (1, ZADD_OUT_NOP)
  else if has flags ZADD_IN_INCR && isnan new then inl (0, ZADD_OUT_NAN)
  else if (has flags ZADD_IN_LT && dle cur new) || (has flags ZADD_IN_GT && dle new cur) then inl (1, ZADD_OUT_NOP)
  else inr new.

Definition spec_add m (sc : double) (ele : sds) (flags : Z) : zadd_result * gmap sds double :=
  if isnan sc then ((0, ZADD_OUT_NAN, None), m)
  else
    match m !! ele with
    | Some cur =>
        match spec_existing sc cur flags with
        | inl (ret, out) => ((ret, out, None), m)
        | inr new => if deq new cur then ((1, 0, Some new), m) else ((1, ZADD_OUT_UPDATED, Some new), <[ele := new]> m)
        end
    | None => if has flags ZADD_IN_XX then ((1, ZADD_OUT_NOP, None), m) else ((1, ZADD_OUT_ADDED, Some (norm sc)), <[ele := norm sc]> m)
    end.

Definition spec_rank m (ele : sds) (reverse : bool) : option (Z * double) :=
  (fun sc => let k := Z.of_nat (rank_in m (sc, ele)) in (if reverse then Z.of_nat (base.size m) - 1 - k else k, sc)) <$> m !! ele.

Lemma existing_norm sc cur flags : spec_existing sc (norm cur) flags =
  match existing_score sc cur flags with inl r => inl r | inr new => inr (norm new) end.
Proof.
  unfold spec_existing, existing_score, has. destruct (negb (Z.land flags ZADD_IN_NX =? 0)); [done|].
  set (incr := negb (Z.land flags ZADD_IN_INCR =? 0)).
  assert (norm (if incr then dadd sc (norm cur) else sc) = norm (if incr then dadd sc cur else sc)) as ->.
  { destruct incr; [|done]. rewrite <- (dadd_norm sc (norm cur)), norm_norm. apply dadd_norm. }
  rewrite norm_nan, !dle_norm. by repeat case_match.
Qed.

Lemma existing_valid sc cur flags new : valid sc = true -> isnan sc = false -> valid cur = true -> existing_score sc cur flags = inr new ->
  valid new = true /\ isnan new = false.
Proof.
  intros Hs Hns Hc. unfold existing_score. destruct (negb _); [done|]. destruct (negb (Z.land flags ZADD_IN_INCR =? 0)); cbn [andb].
  - destruct (isnan (dadd sc cur)) eqn:Hn; [done|]. destruct (_ || _); [done|]. intros [= <-]. split; [by apply dadd_valid|done].
  - destruct (_ || _); [done|]. by intros [= <-].
Qed.

Section Spec.
Context (junk : Z) (fpconv_dtoa : double -> list Z) (fast_float_strtod : list Z -> double).
Context `{!FloatText fpconv_dtoa fast_float_strtod}.
Context (usable : Z -> Z) (sdsAllocSize : sds -> Z) (zsl_size : Z) (junk_level : zskiplistLevel).
Hypothesis Hsize : 0 <= zsl_size < 2 ^ 64.
Context (hashFunction : sds -> Z) (dict_can_resize : dictResizeEnable) (server : zset_config).
Hypothesis Hserver : zset_max_listpack_entries server <= 2 ^ 24.
Implicit Types (z : zset) (ts : list tower) (zs : list (sds * elem)) (draws : list (list Z)) (o : zsetobj) (ele : sds).

Notation skip_rep := (skip_rep usable sdsAllocSize zsl_size hashFunction).
Notation zzl_rep := (zzl_rep fast_float_strtod).
Notation member_of := (member_of fast_float_strtod).
Notation read_score := (read_score fast_float_strtod).
Notation zsetAdd := (zsetAdd junk fpconv_dtoa fast_float_strtod usable sdsAllocSize zsl_size junk_level hashFunction dict_can_resize server).
Notation add_skiplist := (add_skiplist usable sdsAllocSize junk_level hashFunction dict_can_resize).

(** * The map of an object *)

Definition lp_map zs : gmap sds double := zmap (member_of <$> zs).
Definition skip_map ts : gmap sds double := zmap (t_key <$> ts).

Definition zset_rep o m : Prop :=
  match o with
  | ZsetListpack zl => exists zs, zzl_rep zl zs /\ m = lp_map zs
  | ZsetSkiplist z => exists ts, skip_rep z ts /\ m = skip_map ts
  end.

Lemma lp_keys zs : (member_of <$> zs).*2 = zs.*1.
Proof. by rewrite <- list_fmap_compose. Qed.
Lemma skip_keys ts : (t_key <$> ts).*2 = t_ele <$> ts.
Proof. by rewrite <- list_fmap_compose. Qed.

Lemma lp_map_mid zs1 p zs2 : p.1 ∉ (zs1 ++ zs2).*1 -> lp_map (zs1 ++ p :: zs2) = <[p.1 := norm (read_score p.2)]> (lp_map (zs1 ++ zs2)).
Proof.
  intros Hout. unfold lp_map, zmap. rewrite !fmap_app, fmap_cons.
  apply (keyed_mid snd (fun a => norm a.1) (member_of <$> zs1) (member_of p)). by rewrite <- fmap_app, lp_keys.
Qed.

Lemma skip_map_mid l t r : t_ele t ∉ t_ele <$> l ++ r -> skip_map (l ++ t :: r) = <[t_ele t := norm (t_score t)]> (skip_map (l ++ r)).
Proof.
  intros Hout. unfold skip_map, zmap. rewrite !fmap_app, fmap_cons.
  apply (keyed_mid snd (fun a => norm a.1) (t_key <$> l) (t_key t)). by rewrite <- fmap_app, skip_keys.
Qed.

Lemma lp_map_None zs ele : lp_map zs !! ele = None <-> ele ∉ zs.*1.
Proof. unfold lp_map, zmap. by rewrite keyed_None, lp_keys. Qed.
Lemma skip_map_None ts ele : skip_map ts !! ele = None <-> ele ∉ t_ele <$> ts.
Proof. unfold skip_map, zmap. by rewrite keyed_None, skip_keys. Qed.

Lemma lp_map_size zs : NoDup zs.*1 -> base.size (lp_map zs) = length zs.
Proof. intros Hnd. unfold lp_map, zmap. rewrite keyed_size by (by rewrite lp_keys). apply length_fmap. Qed.
Lemma skip_map_size ts : NoDup (t_ele <$> ts) -> base.size (skip_map ts) = length ts.
Proof. intros Hnd. unfold skip_map, zmap. rewrite keyed_size by (by rewrite skip_keys). apply length_fmap. Qed.

(** * zsetAdd *)

(** The reply with its score normalised. *)
Definition norm_add (r : zadd_result) : zadd_result := (r.1, norm <$> r.2).

Lemma add_skiplist_spec z ts sc ele flags draws : skip_rep z ts -> isnan sc = false -> valid sc = true -> bytes_ok (sds_bytes ele) ->
  draws_ok draws -> (0 < length draws)%nat -> zlength ts + 1 < 2 ^ 58 ->
  exists r z', add_skiplist z sc ele flags draws = Ok (r, ZsetSkiplist z') /\ norm_add r = (spec_add (skip_map ts) sc ele flags).1 /\
    zset_rep (ZsetSkiplist z') (spec_add (skip_map ts) sc ele flags).2.
Proof.
  intros Hz Hnan Hval Hb Hdr Hdl Hsm. unfold Zset.add_skiplist, spec_add. rewrite Hnan.
  destruct (link_spec usable sdsAllocSize zsl_size hashFunction dict_can_resize z ts ele Hz) as (de & b & d' & -> & Hz' & Hs).
  destruct de as [k|].
  - destruct Hs as (l & t & r & -> & <- & Hk). cbn [zs_zsl zs_dict]. rewrite (link_entry_at _ _ _ _ Hk).
    rewrite (score_at_spec usable sdsAllocSize zsl_size hashFunction (mkZset d' (zs_zsl z)) l t r Hz' : score_at (zs_zsl z) _ = _).
    pose proof (sr_nodup _ _ _ _ _ _ Hz') as [Hout Hnd]%nodup_key_mid. pose proof (sr_ok _ _ _ _ _ _ Hz') as [_ [[_ Hvt] _]%Forall_cons_1]%Forall_app.
    rewrite skip_map_mid, lookup_insert_eq by done. rewrite existing_norm. destruct (existing_score sc (t_score t) flags) as [[ret out]|new] eqn:Ee.
    { eexists _, _. split; [done|]. split; [done|]. eexists. split; [exact Hz'|]. by rewrite skip_map_mid. }
    destruct (existing_valid _ _ _ _ Hval Hnan Hvt Ee) as [Hvn Hnn]. rewrite deq_norm_eq. destruct (deq new (t_score t)); cbn [negb].
    { eexists _, _. split; [done|]. split; [done|]. eexists. split; [exact Hz'|]. by rewrite skip_map_mid. }
    destruct (next_draw_ok draws Hdr Hdl) as (ds & lv & -> & Hlv & _).
    destruct (update_spec usable sdsAllocSize zsl_size junk_level hashFunction (mkZset d' (zs_zsl z)) l t r new ds lv k Hz' Hvn Hnn Hlv Hk)
      as (x & zsl' & d2 & l' & t' & r' & Hu & Hset & Hz2 & Heq & Hkey). cbn [zs_zsl zs_dict] in Hu, Hset. rewrite Hu, Hset.
    eexists _, _. split; [done|]. split; [done|]. eexists. split; [exact Hz2|]. injection Hkey as Hs' He'.
    rewrite skip_map_mid by (by rewrite Heq, He'). by rewrite Heq, He', Hs', insert_insert_eq.
  - rewrite (proj2 (skip_map_None ts ele) Hs). unfold has. destruct (Z.land flags ZADD_IN_XX =? 0); cbn [negb].
    + destruct (next_draw_ok draws Hdr Hdl) as (ds & lv & -> & Hlv & _).
      destruct (insert_both_spec usable sdsAllocSize zsl_size junk_level hashFunction dict_can_resize (mkZset d' (zs_zsl z)) ts sc ele ds lv Hz' Hs Hb Hval Hnan Hlv Hsm)
        as (z2 & l & t & r & -> & Hz2 & -> & Hkey).
      eexists _, _. split; [done|]. split; [done|]. eexists. split; [exact Hz2|]. injection Hkey as Hs' He'.
      rewrite skip_map_mid by (by rewrite He'). by rewrite He', Hs'.
    + eexists _, _. split; [done|]. split; [done|]. by eexists.
Qed.

(** The search in a listpack. *)
Lemma find_cases zl zs ele : zzl_rep zl zs ->
  (exists zs1 p zs2, zs = zs1 ++ p :: zs2 /\ p.1 = ele /\ ele ∉ (zs1 ++ zs2).*1 /\
     zzlFind fast_float_strtod zl ele = Ok (Some (ptr (pairs zs) (2 * length zs1), read_score p.2))) \/
  (ele ∉ zs.*1 /\ zzlFind fast_float_strtod zl ele = Ok None).
Proof.
  intros Hr. pose proof Hr as [_ Hok _ Hnd _]. destruct (zzl_wf _ _ _ Hr) as (n & slack & -> & Hwf). rewrite (zzlFind_spec fast_float_strtod n slack zs Hwf Hok).
  destruct (list_find (fun p => p.1 = ele) zs) as [[i p]|] eqn:Ef.
  - left. apply list_find_Some in Ef as (Hi & He & _). pose proof (take_drop_middle _ _ _ Hi) as Hsp. pose proof (lookup_lt_Some _ _ _ Hi) as Hlt.
    exists (take i zs), p, (drop (S i) zs). split; [done|]. split; [done|]. split.
    + rewrite <- Hsp in Hnd. apply (nodup_key_mid fst) in Hnd as [Hout _]. by rewrite <- He.
    + simpl. by rewrite length_take, Nat.min_l by lia.
  - right. split; [|done]. apply list_find_None in Ef. intros (p & Hp & Hin)%list_elem_of_fmap. rewrite list.Forall_forall in Ef. by apply (Ef p Hin).
Qed.

Lemma lp_map_insert zs k ele se : ele ∉ zs.*1 -> lp_map (take k zs ++ (ele, se) :: drop k zs) = <[ele := norm (read_score se)]> (lp_map zs).
Proof. intros Hout. rewrite lp_map_mid by (by rewrite take_drop). by rewrite take_drop. Qed.

Lemma safe_listpack zl zs (add : Z) : zzl_rep zl zs -> 0 <= add < 2 ^ 32 ->
  lpSafeToAdd (Some zl) add = Ok (total (pairs zs) + add <=? LISTPACK_MAX_SAFETY_SIZE).
Proof.
  intros Hr Hadd. destruct (zzl_wf _ _ _ Hr) as (n & slack & -> & Hwf). destruct Hwf as [_ Ht _]. unfold lpSafeToAdd. rewrite getTotal by done.
  unfold UINT32_MAX in Ht. pose proof (total_nonneg (pairs zs)). rewrite u_id by (pow_const; lia). rewrite Z.gtb_ltb, Z.ltb_antisym. by destruct (_ <=? _).
Qed.

(** What the checks of zsetAdd ensure for a new element. *)
Lemma new_budget zl zs ele : zzl_rep zl zs -> total (pairs zs) + zlength (sds_bytes ele) <= LISTPACK_MAX_SAFETY_SIZE ->
  zlength zs + 1 <= zset_max_listpack_entries server ->
  budget zs + zlength (entry (elem_of (sds_bytes ele))) + score_max <= 2 ^ 31.
Proof using Hserver.
  intros [_ Hok _ _ _] Hs Hn. pose proof (total_budget _ zs Hok). pose proof (entry_elem_bound (sds_bytes ele)). unfold LISTPACK_MAX_SAFETY_SIZE, score_max in *. pow_const. lia.
Qed.

Definition add_ok m sc ele draws : Prop :=
  valid sc = true /\ bytes_ok (sds_bytes ele) /\ draws_ok draws /\ (base.size m < length draws)%nat /\ Z.of_nat (base.size m) + 1 < 2 ^ 57.

Lemma add_listpack_spec zl zs sc ele flags draws : zzl_rep zl zs -> isnan sc = false -> add_ok (lp_map zs) sc ele draws ->
  exists r o', zsetAdd (ZsetListpack zl) sc ele flags draws = Ok (r, o') /\ norm_add r = (spec_add (lp_map zs) sc ele flags).1 /\
    zset_rep o' (spec_add (lp_map zs) sc ele flags).2.
Proof.
  intros Hr Hnan (Hval & Hb & Hdr & Hdl & Hsm). pose proof Hr as [_ Hok _ Hnd _]. unfold Zset.zsetAdd, spec_add. rewrite Hnan.
  destruct (find_cases zl zs ele Hr) as [(zs1 & p & zs2 & -> & <- & Hout & ->)|[Hout ->]].
  - apply Forall_app in Hok as [_ [Hp _]%Forall_cons_1]. destruct (po_score _ _ Hp) as (_ & _ & _ & Hvp).
    rewrite lp_map_mid, lookup_insert_eq, existing_norm by done. destruct (existing_score sc (read_score p.2) flags) as [[ret out]|new] eqn:Ee.
    { eexists _, _. split; [done|]. split; [done|]. eexists. split; [exact Hr|]. by rewrite lp_map_mid. }
    destruct (existing_valid _ _ _ _ Hval Hnan Hvp Ee) as [Hvn Hnn]. rewrite deq_norm_eq. destruct (deq new (read_score p.2)); cbn [negb].
    { eexists _, _. split; [done|]. split; [done|]. eexists. split; [exact Hr|]. by rewrite lp_map_mid. }
    destruct (zzlDelete_spec junk fast_float_strtod zl zs1 p zs2 Hr) as (zl1 & -> & Hr1).
    destruct (zzlInsert_spec junk fpconv_dtoa fast_float_strtod zl1 (zs1 ++ zs2) p.1 new Hr1 Hout Hb Hvn Hnn) as (zl2 & k & se & -> & Hr2 & Hnorm).
    { pose proof (zz_budget _ _ _ Hr) as Hbud. rewrite budget_mid in Hbud. done. }
    eexists _, _. split; [done|]. split; [done|]. eexists. split; [exact Hr2|]. by rewrite lp_map_insert, Hnorm, insert_insert_eq.
  - rewrite (proj2 (lp_map_None zs ele) Hout). unfold has. destruct (Z.land flags ZADD_IN_XX =? 0) eqn:Exx; cbn [negb].
    2:{ eexists _, _. split; [done|]. split; [done|]. by eexists. }
    destruct (zzlLength_spec fast_float_strtod zl zs Hr) as (zl1 & -> & Hr1). pose proof (sds_len ele).
    rewrite (safe_listpack zl1 zs _ Hr1) by (pow_const; lia). rewrite lp_map_size in Hdl, Hsm by done.
    destruct (zzl_wf _ _ _ Hr1) as (n & slack & Hzl1 & Hwf). pose proof (length_bound n _ Hwf) as Hlb. rewrite pairs_length in Hlb.
    rewrite u_id by (pow_const; lia). destruct (_ || _) eqn:Echk.
    + cbn [zsetLength]. destruct (zzlLength_spec fast_float_strtod zl1 zs Hr1) as (zl2 & -> & Hr2).
      rewrite u_id by (pow_const; lia).
      destruct (to_skiplist_conv junk fpconv_dtoa fast_float_strtod usable sdsAllocSize zsl_size junk_level Hsize hashFunction dict_can_resize zl2 zs (zlength zs + 1) draws Hr2)
        as (z & ts & -> & Hz & Hperm); [lia|done|lia|].
      assert (Hmap : skip_map ts = lp_map zs).
      { unfold skip_map, lp_map. apply zmap_perm; [done|]. rewrite skip_keys. apply (sr_nodup _ _ _ _ _ _ Hz). }
      assert (Hlts : length ts = length zs) by (rewrite <- (length_fmap t_key ts), Hperm; apply length_fmap).
      destruct (add_skiplist_spec z ts sc ele flags (drop (length zs) draws) Hz Hnan Hval Hb) as (r & z' & -> & Hrep & Hz').
      * by apply Forall_drop.
      * rewrite length_drop. lia.
      * rewrite Hlts. pow_const. lia.
      * rewrite Hmap in Hrep, Hz'. exists r, (ZsetSkiplist z'). split; [done|].
        unfold spec_add, has in Hrep, Hz'. rewrite Hnan, (proj2 (lp_map_None zs ele) Hout), Exx in Hrep, Hz'. done.
    + apply orb_false_iff in Echk as [[Hn Hl]%orb_false_iff Hs]. apply negb_false_iff, Z.leb_le in Hs. rewrite Z.gtb_ltb, Z.ltb_ge in Hn.
      destruct (zzlInsert_spec junk fpconv_dtoa fast_float_strtod zl1 zs ele sc Hr1 Hout Hb Hval Hnan (new_budget zl1 zs ele Hr1 Hs Hn)) as (zl2 & k & se & -> & Hr2 & Hnorm).
      eexists _, _. split; [done|]. split; [done|]. eexists. split; [exact Hr2|]. by rewrite lp_map_insert, Hnorm.
Qed.

Lemma zsetAdd_spec o m sc ele flags draws : zset_rep o m -> add_ok m sc ele draws ->
  exists r o', zsetAdd o sc ele flags draws = Ok (r, o') /\ norm_add r = (spec_add m sc ele flags).1 /\ zset_rep o' (spec_add m sc ele flags).2.
Proof.
  intros Ho Hadd. destruct (isnan sc) eqn:Hnan.
  { exists (0, ZADD_OUT_NAN, None), o. unfold Zset.zsetAdd, spec_add. rewrite Hnan. done. }
  destruct o as [zl|z]; destruct Ho as (x & Hr & ->); [by apply add_listpack_spec|].
  destruct Hadd as (Hval & Hb & Hdr & Hdl & Hsm). pose proof (sr_nodup _ _ _ _ _ _ Hr) as Hnd. rewrite skip_map_size in Hdl, Hsm by done.
  destruct (add_skiplist_spec z x sc ele flags draws Hr Hnan Hval Hb Hdr) as (r & z' & Ha & Hrep & Hz'); [lia|pow_const; lia|].
  exists r, (ZsetSkiplist z'). split; [|done]. unfold Zset.zsetAdd. by rewrite Hnan.
Qed.

(** * The other operations *)

Notation zsetDel := (zsetDel junk fast_float_strtod usable sdsAllocSize hashFunction dict_can_resize).
Notation zsetScore := (zsetScore fast_float_strtod hashFunction dict_can_resize).
Notation zsetRank := (zsetRank fast_float_strtod hashFunction dict_can_resize).

Lemma lp_map_delete zs1 p zs2 : p.1 ∉ (zs1 ++ zs2).*1 -> delete p.1 (lp_map (zs1 ++ p :: zs2)) = lp_map (zs1 ++ zs2).
Proof. intros Hout. rewrite lp_map_mid by done. apply delete_insert_id. by apply lp_map_None. Qed.

Lemma skip_map_delete l t r : t_ele t ∉ t_ele <$> l ++ r -> delete (t_ele t) (skip_map (l ++ t :: r)) = skip_map (l ++ r).
Proof. intros Hout. rewrite skip_map_mid by done. apply delete_insert_id. by apply skip_map_None. Qed.

Lemma zsetDel_spec o m ele : zset_rep o m ->
  exists o', zsetDel o ele = Ok (bool_decide (is_Some (m !! ele)), o') /\ zset_rep o' (delete ele m).
Proof.
  intros Ho. destruct o as [zl|z]; destruct Ho as (x & Hr & ->); cbn [Zset.zsetDel].
  - destruct (find_cases zl x ele Hr) as [(zs1 & p & zs2 & -> & <- & Hout & ->)|[Hout ->]].
    + destruct (zzlDelete_spec junk fast_float_strtod zl zs1 p zs2 Hr) as (zl1 & -> & Hr1). rewrite lp_map_delete, lp_map_mid, lookup_insert_eq by done.
      rewrite bool_decide_true by done. eexists. split; [done|]. by exists (zs1 ++ zs2).
    + apply lp_map_None in Hout. rewrite Hout, delete_id by done. rewrite bool_decide_false by (by intros []). eexists. split; [done|]. by exists x.
  - destruct (decide (ele ∈ t_ele <$> x)) as [Hin|Hout].
    + destruct (keyed_split t_ele x ele Hin) as (l & t & r & -> & <-). pose proof (sr_nodup _ _ _ _ _ _ Hr) as [Hout _]%nodup_key_mid.
      destruct (removeFromSkiplist_found usable sdsAllocSize zsl_size hashFunction dict_can_resize z l t r Hr) as (z' & -> & Hz').
      rewrite skip_map_delete, skip_map_mid, lookup_insert_eq by done. rewrite bool_decide_true by done. eexists. split; [done|]. by exists (l ++ r).
    + destruct (removeFromSkiplist_absent usable sdsAllocSize zsl_size hashFunction dict_can_resize z x ele Hr Hout) as (z' & -> & Hz').
      apply skip_map_None in Hout. rewrite Hout, delete_id by done. rewrite bool_decide_false by (by intros []). eexists. split; [done|]. by exists x.
Qed.

Lemma zsetScore_spec o m ele : zset_rep o m ->
  exists sc o', zsetScore o ele = Ok (sc, o') /\ norm <$> sc = m !! ele /\ zset_rep o' m.
Proof.
  intros Ho. destruct o as [zl|z]; destruct Ho as (x & Hr & ->); cbn [Zset.zsetScore].
  - destruct (find_cases zl x ele Hr) as [(zs1 & p & zs2 & -> & <- & Hout & ->)|[Hout ->]].
    + rewrite lp_map_mid, lookup_insert_eq by done. eexists _, _. split; [done|]. split; [done|]. exists (zs1 ++ p :: zs2). split; [done|]. by rewrite lp_map_mid.
    + apply lp_map_None in Hout. rewrite Hout. eexists _, _. split; [done|]. split; [done|]. by exists x.
  - destruct (link_spec usable sdsAllocSize zsl_size hashFunction dict_can_resize z x ele Hr) as (de & b & d' & -> & Hz' & Hs). destruct de as [k|].
    + destruct Hs as (l & t & r & -> & <- & Hk). rewrite (link_entry_at _ _ _ _ Hk).
      rewrite (score_at_spec usable sdsAllocSize zsl_size hashFunction (mkZset d' (zs_zsl z)) l t r Hz' : score_at (zs_zsl z) _ = _).
      pose proof (sr_nodup _ _ _ _ _ _ Hr) as [Hout _]%nodup_key_mid. eexists _, _. split; [done|]. rewrite skip_map_mid, lookup_insert_eq by done. split; [done|].
      exists (l ++ t :: r). split; [done|]. by rewrite skip_map_mid.
    + apply skip_map_None in Hs. eexists _, _. split; [done|]. rewrite Hs. split; [done|]. by exists x.
Qed.

Lemma zsetLength_spec o m : zset_rep o m -> exists o', zsetLength o = Ok (Z.of_nat (base.size m), o') /\ zset_rep o' m /\
  match o, o' with ZsetListpack _, ZsetListpack _ => True | ZsetSkiplist _, ZsetSkiplist _ => o' = o | _, _ => False end.
Proof.
  intros Ho. destruct o as [zl|z]; destruct Ho as (x & Hr & ->); cbn [zsetLength].
  - destruct (zzlLength_spec fast_float_strtod zl x Hr) as (zl1 & -> & Hr1). eexists. rewrite lp_map_size by apply Hr. split; [done|]. split; [|done]. by exists x.
  - destruct (sr_zsl _ _ _ _ _ _ Hr) as [Hz _]. rewrite skip_map_size by apply Hr. rewrite (zr_len _ _ _ _ _ _ Hz). eexists. split; [done|]. split; [|done]. by exists x.
Qed.

(** ** Ranks *)

Lemma compare_ptr n slack zs i p ele cached : lp_wf n (pairs zs) -> Forall (pair_ok fast_float_strtod) zs -> zs !! i = Some p -> cache_ok (sds_bytes ele) (Some cached) ->
  exists cached', lpCompare (lp_of n (pairs zs) slack) (ptr (pairs zs) (2 * i)) (sds_bytes ele) (zlength (sds_bytes ele)) (Some cached) =
    Ok (bool_decide (p.1 = ele), cached') /\ cache_ok (sds_bytes ele) (Some (default cached cached')).
Proof.
  intros Hwf Hok Hp Hc. pose proof (Forall_lookup_1 _ _ _ _ Hok Hp) as [Hb _]. rewrite <- ele_eqb by done.
  destruct (elem_split _ _ _ (pairs_ele zs i p Hp)) as (es1 & es2 & -> & ->). rewrite ptr_mid.
  destruct (compare_at n slack es1 (elem_of (sds_bytes p.1)) es2 (sds_bytes ele) (Some cached)) as (c' & -> & Hc'); [by apply ele_ok|done|].
  exists c'. split; [done|]. by destruct c'.
Qed.

Lemma rank_search_spec n slack zs ele : lp_wf n (pairs zs) -> Forall (pair_ok fast_float_strtod) zs ->
  forall fuel i cached, (length zs - i <= fuel)%nat -> (i <= length zs)%nat -> cache_ok (sds_bytes ele) (Some cached) ->
  (forall j p, (j < i)%nat -> zs !! j = Some p -> p.1 <> ele) ->
  rank_search fuel (lp_of n (pairs zs) slack) (eptr zs i) (sptr_opt zs i) (sds_bytes ele) (Z.of_nat i + 1) cached =
    Ok ((fun x => (Z.of_nat x.1 + 1, Some (sptr zs x.1))) <$> list_find (fun p => p.1 = ele) zs).
Proof.
  intros Hwf Hok. pose proof (length_bound n _ Hwf) as Hlb. rewrite pairs_length in Hlb.
  assert (Hend : forall i, i = length zs -> (forall j p, (j < i)%nat -> zs !! j = Some p -> p.1 <> ele) -> list_find (fun p => p.1 = ele) zs = None).
  { intros i -> Hb. apply list_find_None, list.Forall_forall. intros p [j Hj]%list_elem_of_lookup. eapply Hb; [|exact Hj]. by eapply lookup_lt_Some. }
  induction fuel as [|fuel IH]; intros i cached Hf Hi Hc Hb.
  { rewrite (Hend i) by (done || lia). by rewrite eptr_ge by lia. }
  destruct (decide (i = length zs)) as [->|Hne]; [rewrite (Hend (length zs)) by done; by rewrite eptr_ge by lia|].
  destruct (lookup_lt_is_Some_2 zs i ltac:(lia)) as [p Hp]. rewrite (eptr_lt zs i) by lia. cbn [rank_search].
  destruct (compare_ptr n slack zs i p ele cached Hwf Hok Hp Hc) as (c' & -> & Hc'). case_bool_decide as He.
  - rewrite (proj2 (list_find_Some (fun p => p.1 = ele) zs i p)); [|split_and!; [done|done|intros j q Hj Hlt; by eapply Hb]].
    simpl. unfold sptr_opt. by rewrite decide_True by lia.
  - rewrite <- (eptr_lt zs i) by lia. rewrite zzlNext_spec by (done || lia). rewrite u_id by (pow_const; lia).
    replace (Z.of_nat i + 1 + 1) with (Z.of_nat (S i) + 1) by lia. apply IH; [lia|lia|done|].
    intros j q Hj Hq. destruct (decide (j = i)) as [->|?]; [by simplify_eq|]. eapply Hb; [|done]. lia.
Qed.

Lemma rank_reply (sz k : nat) (reverse : bool) : (k < sz)%nat -> Z.of_nat sz < 2 ^ 62 ->
  s64 (if reverse then u64 (Z.of_nat sz - (Z.of_nat k + 1)) else u64 (Z.of_nat k + 1 - 1)) = if reverse then Z.of_nat sz - 1 - Z.of_nat k else Z.of_nat k.
Proof. intros Hk Hs. destruct reverse; rewrite u_id, s_id by (unfold in_s; pow_const; lia); lia. Qed.

Lemma lp_members zl zs : zzl_rep zl zs -> Forall num (member_of <$> zs) /\ NoDup (member_of <$> zs).*2.
Proof. intros [_ Hok _ Hnd _]. split; [by apply zzl_num|by rewrite lp_keys]. Qed.

Lemma rank_listpack zl zs ele reverse : zzl_rep zl zs -> zs <> [] ->
  exists r o', zsetRank (ZsetListpack zl) ele reverse = Ok (r, o') /\ prod_map id norm <$> r = spec_rank (lp_map zs) ele reverse /\ zset_rep o' (lp_map zs).
Proof.
  intros Hr0 Hne. unfold Zset.zsetRank. cbn [zsetLength]. destruct (zzlLength_spec fast_float_strtod zl zs Hr0) as (zl1 & -> & Hr).
  destruct (lp_members zl1 zs Hr) as [Hnum Hndm]. pose proof Hr as [_ Hok Hsort Hnd _]. destruct (zzl_wf _ _ _ Hr) as (n & slack & Hzl & Hwf). subst zl1.
  assert (0 < length zs)%nat by (destruct zs; [done|simpl; lia]). rewrite seek_first, (eptr_lt zs 0) by (done || lia). cbn [non_null].
  rewrite next_score by (done || lia). cbn [non_null]. pose proof (fuel_enough n slack _ Hwf) as Hfu. rewrite pairs_length in Hfu.
  pose proof (rank_search_spec n slack zs ele Hwf Hok (length (lp_of n (pairs zs) slack)) 0 (0, 0) ltac:(lia) ltac:(lia) ltac:(by left) ltac:(lia)) as Hsearch.
  unfold sptr_opt in Hsearch. rewrite (eptr_lt zs 0), decide_True in Hsearch by lia. change (Z.of_nat 0 + 1) with 1 in Hsearch. rewrite Hsearch.
  unfold spec_rank. destruct (list_find (fun p => p.1 = ele) zs) as [[i p]|] eqn:Ef; cbn [fmap option_fmap option_map fst].
  - apply list_find_Some in Ef as (Hi & <- & _). rewrite (getScore_ptr fast_float_strtod n slack zs Hok i p Hi). pose proof (take_drop_middle _ _ _ Hi) as Hsp.
    pose proof (lookup_lt_Some _ _ _ Hi) as Hlt. pose proof (length_bound n _ Hwf) as Hlb. rewrite pairs_length in Hlb.
    rewrite <- Hsp in Hnd, Hsort, Hnum, Hndm. pose proof Hnd as [Hout _]%(nodup_key_mid fst).
    assert (Hlook : lp_map zs !! p.1 = Some (norm (read_score p.2))) by (rewrite <- Hsp, lp_map_mid by done; apply lookup_insert_eq).
    rewrite Hlook. eexists _, _. split; [done|]. split; [|by exists zs]. simpl. f_equal. rewrite rank_reply by (pow_const; lia). f_equal.
    assert (rank_in (lp_map zs) (norm (read_score p.2), p.1) = i) as ->; [|by rewrite lp_map_size by (rewrite <- Hsp; done)].
    rewrite fmap_app, fmap_cons in Hsort, Hnum, Hndm. pose proof (rank_sorted _ _ _ Hsort Hnum Hndm) as Hrank.
    rewrite <- fmap_cons, <- fmap_app, Hsp, length_fmap, length_take, Nat.min_l in Hrank by lia. exact Hrank.
  - assert (ele ∉ zs.*1) as Hout. { apply list_find_None in Ef. intros (p & Hp & Hin)%list_elem_of_fmap. rewrite list.Forall_forall in Ef. by apply (Ef p Hin). }
    apply lp_map_None in Hout. rewrite Hout. eexists _, _. split; [done|]. split; [done|]. by exists zs.
Qed.

Lemma rank_skiplist z ts ele reverse : skip_rep z ts ->
  exists r o', zsetRank (ZsetSkiplist z) ele reverse = Ok (r, o') /\ prod_map id norm <$> r = spec_rank (skip_map ts) ele reverse /\ zset_rep o' (skip_map ts).
Proof.
  intros Hr. unfold Zset.zsetRank. cbn [zsetLength]. unfold spec_rank.
  destruct (link_spec usable sdsAllocSize zsl_size hashFunction dict_can_resize z ts ele Hr) as (de & b & d' & -> & Hz' & Hs). destruct de as [k|].
  - destruct Hs as (l & t & r & -> & <- & Hk). rewrite (link_entry_at _ _ _ _ Hk).
    rewrite (score_at_spec usable sdsAllocSize zsl_size hashFunction (mkZset d' (zs_zsl z)) l t r Hz' : score_at (zs_zsl z) _ = _).
    destruct (sr_zsl _ _ _ _ _ _ Hr) as [Hz _]. pose proof (sr_nodup _ _ _ _ _ _ Hr) as Hnd. pose proof Hnd as [Hout _]%nodup_key_mid.
    pose proof (zr_nan _ _ _ _ _ _ Hz) as Hnan. pose proof Hnan as [_ [Hnt _]%Forall_cons_1]%Forall_app.
    rewrite (getRank_found usable sdsAllocSize zsl_size _ l t r [] (t_score t) Hz (deq_refl _ Hnt)).
    rewrite (proj2 (Z.eqb_neq _ _)) by lia. cbn [negb]. rewrite (zr_len _ _ _ _ _ _ Hz).
    assert (Hlook : skip_map (l ++ t :: r) !! t_ele t = Some (norm (t_score t))) by (rewrite skip_map_mid by done; apply lookup_insert_eq).
    rewrite Hlook. eexists _, _. split; [done|]. split; [|by exists (l ++ t :: r)]. simpl. f_equal.
    pose proof (zr_small _ _ _ _ _ _ Hz). assert (length l < length (l ++ t :: r))%nat by (rewrite length_app; simpl; lia). rewrite rank_reply by done. f_equal.
    assert (rank_in (skip_map (l ++ t :: r)) (norm (t_score t), t_ele t) = length l) as ->; [|by rewrite skip_map_size by done].
    assert (Hsort : StronglySorted mlt (t_key <$> l ++ t :: r)) by (eapply (StronglySorted_fmap _ tlt mlt); [by intros ?|apply Hz]).
    assert (Hnum : Forall num (t_key <$> l ++ t :: r)) by (by apply Forall_fmap). unfold skip_map. rewrite fmap_app, fmap_cons in *.
    change (norm (t_score t), t_ele t) with (nmember (t_key t)). rewrite (rank_sorted _ (t_key t) _ Hsort Hnum); [apply length_fmap|]. by rewrite <- fmap_cons, <- fmap_app, skip_keys.
  - apply skip_map_None in Hs. rewrite Hs. eexists _, _. split; [done|]. split; [done|]. by exists ts.
Qed.

Lemma zsetRank_spec o m ele reverse : zset_rep o m -> m <> ∅ ->
  exists r o', zsetRank o ele reverse = Ok (r, o') /\ prod_map id norm <$> r = spec_rank m ele reverse /\ zset_rep o' m.
Proof.
  intros Ho Hne. destruct o as [zl|z]; destruct Ho as (x & Hr & ->); [|by apply rank_skiplist].
  apply rank_listpack; [done|]. by intros ->.
Qed.

(** ** Conversion and duplication *)

Notation zsetConvertAndExpand := (zsetConvertAndExpand junk fpconv_dtoa fast_float_strtod usable sdsAllocSize zsl_size junk_level hashFunction dict_can_resize).
Notation zsetConvert := (zsetConvert junk fpconv_dtoa fast_float_strtod usable sdsAllocSize zsl_size junk_level hashFunction dict_can_resize).
Notation zsetTypeMaybeConvert := (zsetTypeMaybeConvert junk fpconv_dtoa fast_float_strtod usable sdsAllocSize zsl_size junk_level hashFunction dict_can_resize server).
Notation zsetConvertToListpackIfNeeded := (zsetConvertToListpackIfNeeded junk fpconv_dtoa fast_float_strtod usable sdsAllocSize zsl_size junk_level hashFunction dict_can_resize server).
Notation zsetDup := (zsetDup usable sdsAllocSize zsl_size junk_level hashFunction dict_can_resize).

Definition enough m draws : Prop := draws_ok draws /\ (base.size m <= length draws)%nat /\ Z.of_nat (base.size m) < 2 ^ 57.

Lemma convert_skiplist_spec o m cap draws : zset_rep o m -> 0 <= cap -> enough m draws ->
  exists o' draws', zsetConvertAndExpand o ENCODING_SKIPLIST cap draws = Ok (o', draws') /\ zset_rep o' m.
Proof.
  intros Ho Hc (Hdr & Hdl & _). destruct o as [zl|z]; [|by eexists _, _]. destruct Ho as (zs & Hr & ->). rewrite lp_map_size in Hdl by apply Hr.
  destruct (to_skiplist_conv junk fpconv_dtoa fast_float_strtod usable sdsAllocSize zsl_size junk_level Hsize hashFunction dict_can_resize zl zs cap draws Hr Hc Hdr Hdl)
    as (z & ts & -> & Hz & Hperm). eexists _, _. split; [done|]. exists ts. split; [done|]. symmetry. apply zmap_perm; [done|].
  rewrite skip_keys. apply (sr_nodup _ _ _ _ _ _ Hz).
Qed.

Lemma maybeConvert_spec o m hint draws : zset_rep o m -> 0 <= hint -> enough m draws ->
  exists o' draws', zsetTypeMaybeConvert o hint draws = Ok (o', draws') /\ zset_rep o' m.
Proof.
  intros Ho Hc Hd. destruct o as [zl|z]; cbn [Zset.zsetTypeMaybeConvert]; [|by eexists _, _].
  destruct (_ >? _); [by apply convert_skiplist_spec|by eexists _, _].
Qed.

(** The lengths of the elements, and their sum. *)
Definition total_length m : Z := foldr Z.add 0 ((fun e => zlength (sds_bytes e)) <$> (map_to_list m).*1).

Lemma sum_perm l l' : l ≡ₚ l' -> foldr Z.add 0 l = foldr Z.add 0 l'.
Proof. induction 1; simpl; lia. Qed.

Lemma total_length_skip ts : NoDup (t_ele <$> ts) -> total_length (skip_map ts) = foldr Z.add 0 ((fun t => zlength (sds_bytes (t_ele t))) <$> ts).
Proof.
  intros Hnd. unfold total_length, skip_map. rewrite (sum_perm _ ((fun e => zlength (sds_bytes e)) <$> (t_ele <$> ts))).
  - by rewrite <- list_fmap_compose.
  - rewrite zmap_keys by (by rewrite skip_keys). by rewrite skip_keys.
Qed.

Lemma tower_budget_bound ts : tower_budget ts <= 7 + foldr Z.add 0 ((fun t => zlength (sds_bytes (t_ele t))) <$> ts) + 62 * zlength ts.
Proof.
  induction ts as [|t ts IH]; [simpl; lia|]. rewrite fmap_cons. cbn [tower_budget foldr length]. fold (tower_budget ts).
  pose proof (entry_elem_bound (sds_bytes (t_ele t))). unfold score_max. lia.
Qed.

(** The caller passes the sum of the lengths of the elements, or more. *)
Lemma toListpack_spec o m maxlen totlen draws : zset_rep o m -> total_length m <= totlen < 2 ^ 64 ->
  exists o' draws', zsetConvertToListpackIfNeeded o maxlen totlen draws = Ok (o', draws') /\ zset_rep o' m.
Proof.
  intros Ho Htot. destruct o as [zl|z]; cbn [Zset.zsetConvertToListpackIfNeeded]; [by eexists _, _|]. pose proof Ho as (ts & Hr & ->).
  pose proof (sr_nodup _ _ _ _ _ _ Hr) as Hnd. rewrite total_length_skip in Htot by done.
  assert (Hpos : 0 <= foldr Z.add 0 ((fun t => zlength (sds_bytes (t_ele t))) <$> ts)) by (clear; induction ts as [|t ts IH]; [done|]; rewrite fmap_cons; cbn [foldr]; lia).
  unfold lpSafeToAdd. rewrite Z.add_0_l, u_id by lia. destruct (sr_zsl _ _ _ _ _ _ Hr) as [Hz _]. rewrite (zr_len _ _ _ _ _ _ Hz).
  destruct (totlen >? LISTPACK_MAX_SAFETY_SIZE) eqn:Es; [rewrite andb_false_r; by eexists _, _|]. rewrite andb_true_r.
  destruct (_ && _) eqn:Ec; [|by eexists _, _]. apply andb_true_iff in Ec as [Hn _]. apply Z.leb_le in Hn. rewrite Z.gtb_ltb in Es. apply Z.ltb_ge in Es.
  unfold Zset.zsetConvert. destruct (zsetLength_spec (ZsetSkiplist z) _ Ho) as (o1 & -> & _ & Henc). destruct o1 as [|z1]; [done|]. injection Henc as ->.
  pose proof (tower_budget_bound ts). unfold LISTPACK_MAX_SAFETY_SIZE in Es. pow_const.
  destruct (to_listpack_conv junk fpconv_dtoa fast_float_strtod usable sdsAllocSize zsl_size junk_level hashFunction dict_can_resize z ts
    (Z.of_nat (base.size (skip_map ts))) draws Hr) as (zl & zs & -> & Hzl & Hms); [pow_const; lia|].
  eexists _, _. split; [done|]. exists zs. split; [done|]. symmetry. by apply zmap_nmember.
Qed.

Lemma zsetDup_spec o m draws : zset_rep o m -> enough m draws -> exists o', zsetDup o draws = Ok o' /\ zset_rep o' m.
Proof.
  intros Ho (Hdr & Hdl & Hsm). destruct o as [zl|z]; destruct Ho as (x & Hr & ->); cbn [Zset.zsetDup].
  - destruct (zzl_wf _ _ _ Hr) as (n & slack & -> & Hwf). rewrite dup_contract by done. eexists. split; [done|]. exists x. split; [|done].
    destruct Hr as [_ ? ? ? ?]. split; try done. by exists n, [].
  - pose proof Hr as [[Hz _] Hd Hnd Hok _]. rewrite (rep_dictSize _ _ _ Hd), keyed_size by done.
    destruct (new_rep usable sdsAllocSize zsl_size junk_level Hsize hashFunction dict_can_resize (Z.of_nat (length x)) ltac:(lia)) as (st & d & -> & Hnew).
    rewrite skip_map_size in Hdl, Hsm by done. rewrite (zr_len _ _ _ _ _ _ Hz), (zr_tail _ _ _ _ _ _ Hz), Nat2Z.id.
    destruct (dup_loop_spec usable sdsAllocSize zsl_size junk_level hashFunction dict_can_resize (zs_zsl z) x Hz Hnd Hok Hsm x [] _ [] draws
      ltac:(by rewrite app_nil_r) Hnew ltac:(done) Hdr Hdl) as (z' & ts' & -> & Hz' & Hp).
    eexists. split; [done|]. exists ts'. split; [done|]. symmetry. apply zmap_perm; [done|]. rewrite skip_keys. apply (sr_nodup _ _ _ _ _ _ Hz').
Qed.

Lemma zsetTypeCreate_spec size_hint val_len_hint : 0 <= size_hint ->
  exists o, zsetTypeCreate junk usable sdsAllocSize zsl_size junk_level hashFunction dict_can_resize server size_hint val_len_hint = Ok o /\ zset_rep o ∅.
Proof.
  intros Hs. unfold zsetTypeCreate. destruct (_ && _).
  - destruct (new_contract junk 0) as (zl & -> & Hlp & _). eexists. split; [done|]. exists []. split; [|done].
    split; [done|constructor|constructor|constructor|simpl; pow_const; lia].
  - destruct (new_rep usable sdsAllocSize zsl_size junk_level Hsize hashFunction dict_can_resize size_hint Hs) as (st & d & -> & Hnew).
    eexists. split; [done|]. by exists [].
Qed.
End Spec.
