(* ===== verification/ZsetRefine.v ===== *)
(** Sorted set objects: sequences of operations.  Any history of a sorted set gives the
    answers of a finite map from elements to scores, while the object changes its encoding. *)

From Stdlib Require Import SpecFloat String.
From stdpp Require Import gmap sorting.
From S2P Require Import Prelude Machine UtilNum Double DoubleConv Listpack ListpackSeq ListpackRead Dict DictInv DictOps SetType SetTypeSpec Skiplist ZOrder SkiplistInv SkiplistSpec Zzl ZzlInv Zset ZsetInv ZsetConv ZsetSpec.

Inductive zop :=
| OpAdd (sc : double) (ele : sds) (flags : Z) (draws : list (list Z))
| OpDel (ele : sds)
| OpScore (ele : sds)
| OpLength
| OpRank (ele : sds) (reverse : bool)
| OpMaybeConvert (size_hint : Z) (draws : list (list Z))
| OpToListpack (maxelelen totelelen : Z)
| OpDup (draws : list (list Z)).

Inductive zreply :=
| RAdd (r : zadd_result)
| RDel (deleted : bool)
| RScore (sc : option double)
| RLength (n : Z)
| RRank (r : option (Z * double))
| RNone.

Definition norm_reply (r : zreply) : zreply :=
  match r with
  | RAdd r => RAdd (norm_add r)
  | RScore sc => RScore (norm <$> sc)
  | RRank r => RRank (prod_map id norm <$> r)
  | r => r
  end.

(** One operation of a finite map. *)
Definition zspec (m : gmap sds double) (op : zop) : zreply * gmap sds double :=
  match op with
  | OpAdd sc ele flags _ => let '(r, m') := spec_add m sc ele flags in (RAdd r, m')
  | OpDel ele => (RDel (bool_decide (is_Some (m !! ele))), delete ele m)
  | OpScore ele => (RScore (m !! ele), m)
  | OpLength => (RLength (Z.of_nat (base.size m)), m)
  | OpRank ele reverse => (RRank (spec_rank m ele reverse), m)
  | _ => (RNone, m)
  end.

(** What the callers guarantee: elements are strings of bytes, there are random numbers for
    every level that may be drawn, the rank is not asked of an empty set, the total length
    of the elements is not understated, and the set fits into memory. *)
Definition zop_ok (m : gmap sds double) (op : zop) : Prop :=
  match op with
  | OpAdd sc ele _ draws => add_ok m sc ele draws
  | OpRank _ _ => m <> ∅
  | OpMaybeConvert hint draws => 0 <= hint /\ enough m draws
  | OpToListpack _ totlen => total_length m <= totlen < 2 ^ 64
  | OpDup draws => enough m draws
  | _ => True
  end.

Fixpoint zrun_ok (m : gmap sds double) (ops : list zop) : Prop :=
  match ops with [] => True | op :: ops => zop_ok m op /\ zrun_ok (zspec m op).2 ops end.

Fixpoint zspec_run (m : gmap sds double) (ops : list zop) : list zreply * gmap sds double :=
  match ops with
  | [] => ([], m)
  | op :: ops => let '(r, m) := zspec m op in let '(rs, m) := zspec_run m ops in (r :: rs, m)
  end.

Section Run.
Context (junk : Z) (fpconv_dtoa : double -> list Z) (fast_float_strtod : list Z -> double).
Context (usable : Z -> Z) (sdsAllocSize : sds -> Z) (zsl_size : Z) (junk_level : zskiplistLevel).
Context (hashFunction : sds -> Z) (dict_can_resize : dictResizeEnable) (server : zset_config).

(** One operation of an object; a copy takes the place of the original. *)
Definition zexec (o : zsetobj) (op : zop) : res (zreply * zsetobj) :=
  match op with
  | OpAdd sc ele flags draws =>
      let! '(r, o) := zsetAdd junk fpconv_dtoa fast_float_strtod usable sdsAllocSize zsl_size junk_level hashFunction dict_can_resize server o sc ele flags draws in
      Ok (RAdd r, o)
  | OpDel ele => let! '(b, o) := zsetDel junk fast_float_strtod usable sdsAllocSize hashFunction dict_can_resize o ele in Ok (RDel b, o)
  | OpScore ele => let! '(sc, o) := zsetScore fast_float_strtod hashFunction dict_can_resize o ele in Ok (RScore sc, o)
  | OpLength => let! '(n, o) := zsetLength o in Ok (RLength n, o)
  | OpRank ele reverse => let! '(r, o) := zsetRank fast_float_strtod hashFunction dict_can_resize o ele reverse in Ok (RRank r, o)
  | OpMaybeConvert hint draws =>
      let! '(o, _) := zsetTypeMaybeConvert junk fpconv_dtoa fast_float_strtod usable sdsAllocSize zsl_size junk_level hashFunction dict_can_resize server o hint draws in
      Ok (RNone, o)
  | OpToListpack maxlen totlen =>
      let! '(o, _) := zsetConvertToListpackIfNeeded junk fpconv_dtoa fast_float_strtod usable sdsAllocSize zsl_size junk_level hashFunction dict_can_resize server o maxlen totlen [] in
      Ok (RNone, o)
  | OpDup draws => let! o := zsetDup usable sdsAllocSize zsl_size junk_level hashFunction dict_can_resize o draws in Ok (RNone, o)
  end.

Fixpoint zexec_run (o : zsetobj) (ops : list zop) : res (list zreply * zsetobj) :=
  match ops with
  | [] => Ok ([], o)
  | op :: ops => let! '(r, o) := zexec o op in let! '(rs, o) := zexec_run o ops in Ok (r :: rs, o)
  end.

Context `{!FloatText fpconv_dtoa fast_float_strtod}.
Hypothesis Hsize : 0 <= zsl_size < 2 ^ 64.
Hypothesis Hserver : zset_max_listpack_entries server <= 2 ^ 24.
Notation zset_rep := (zset_rep fast_float_strtod usable sdsAllocSize zsl_size hashFunction).
Notation zsetTypeCreate := (zsetTypeCreate junk usable sdsAllocSize zsl_size junk_level hashFunction dict_can_resize server).

Lemma zexec_spec o m op : zset_rep o m -> zop_ok m op ->
  exists r o', zexec o op = Ok (r, o') /\ norm_reply r = (zspec m op).1 /\ zset_rep o' (zspec m op).2.
Proof.
  intros Ho Hop. destruct op as [sc ele flags draws|ele|ele| |ele reverse|hint draws|maxlen totlen|draws]; cbn [zexec zspec zop_ok] in *.
  - destruct (zsetAdd_spec junk fpconv_dtoa fast_float_strtod usable sdsAllocSize zsl_size junk_level Hsize hashFunction dict_can_resize server Hserver o m sc ele flags draws Ho Hop)
      as (r & o' & -> & Hr & Ho'). eexists _, _. split; [done|]. destruct (spec_add m sc ele flags) as [r0 m0]. simpl in *. by rewrite Hr.
  - destruct (zsetDel_spec junk fast_float_strtod usable sdsAllocSize zsl_size hashFunction dict_can_resize o m ele Ho) as (o' & -> & Ho'). by eexists _, _.
  - destruct (zsetScore_spec fast_float_strtod usable sdsAllocSize zsl_size hashFunction dict_can_resize o m ele Ho) as (sc & o' & -> & Hs & Ho').
    eexists _, _. split; [done|]. simpl. by rewrite Hs.
  - destruct (zsetLength_spec fast_float_strtod usable sdsAllocSize zsl_size hashFunction o m Ho) as (o' & -> & Ho' & _). by eexists _, _.
  - destruct (zsetRank_spec fast_float_strtod usable sdsAllocSize zsl_size hashFunction dict_can_resize o m ele reverse Ho Hop) as (r & o' & -> & Hr & Ho').
    eexists _, _. split; [done|]. simpl. by rewrite Hr.
  - destruct Hop as [Hh Hd]. destruct (maybeConvert_spec junk fpconv_dtoa fast_float_strtod usable sdsAllocSize zsl_size junk_level Hsize hashFunction dict_can_resize server o m hint draws Ho Hh Hd)
      as (o' & draws' & -> & Ho'). by eexists _, _.
  - destruct (toListpack_spec junk fpconv_dtoa fast_float_strtod usable sdsAllocSize zsl_size junk_level hashFunction dict_can_resize server Hserver o m maxlen totlen [] Ho Hop)
      as (o' & draws' & -> & Ho'). by eexists _, _.
  - destruct (zsetDup_spec fast_float_strtod usable sdsAllocSize zsl_size junk_level Hsize hashFunction dict_can_resize o m draws Ho Hop) as (o' & -> & Ho'). by eexists _, _.
Qed.

Lemma zexec_run_spec ops : forall o m, zset_rep o m -> zrun_ok m ops ->
  exists rs o', zexec_run o ops = Ok (rs, o') /\ norm_reply <$> rs = (zspec_run m ops).1 /\ zset_rep o' (zspec_run m ops).2.
Proof.
  induction ops as [|op ops IH]; intros o m Ho Hok; [by eexists _, _|]. destruct Hok as [Hop Hok]. cbn [zexec_run zspec_run].
  destruct (zexec_spec o m op Ho Hop) as (r & o1 & -> & Hr & Ho1). destruct (zspec m op) as [r0 m1]. cbn [fst snd] in *.
  destruct (IH o1 m1 Ho1 Hok) as (rs & o2 & -> & Hrs & Ho2). destruct (zspec_run m1 ops) as [rs0 m2]. cbn [fst snd] in *.
  eexists _, _. split; [done|]. split; [|done]. rewrite fmap_cons. by rewrite Hr, Hrs.
Qed.

(** C5: a sorted set made by zsetTypeCreate and driven by any sequence of additions and
    updates with all their flags, removals, score and rank queries, size queries, copies and
    conversions in both directions answers every call as the finite map from its elements to
    their scores does: no call fails or reads outside of its memory, scores agree up to the
    sign of zero, and a rank is the number of members before the element. *)
Theorem zset_refines_maps size_hint val_len_hint ops :
  0 <= size_hint -> zrun_ok ∅ ops ->
  exists o rs o', zsetTypeCreate size_hint val_len_hint = Ok o /\ zexec_run o ops = Ok (rs, o') /\
    norm_reply <$> rs = (zspec_run ∅ ops).1 /\ zset_rep o' (zspec_run ∅ ops).2.
Proof.
  intros Hs Hok. destruct (zsetTypeCreate_spec junk fast_float_strtod usable sdsAllocSize zsl_size junk_level Hsize hashFunction dict_can_resize server size_hint val_len_hint Hs)
    as (o & Ho & Hrep). destruct (zexec_run_spec ops o ∅ Hrep Hok) as (rs & o' & Hrun & Hrs & Hrep'). by exists o, rs, o'.
Qed.

Lemma zset_rep_valid o m ele sc : zset_rep o m -> m !! ele = Some sc -> valid sc = true /\ isnan sc = false.
Proof.
  intros Ho Hm. destruct o as [zl|z]; destruct Ho as (x & Hr & ->).
  - destruct (decide (ele ∈ x.*1)) as [Hin|Hout]; [|apply lp_map_None with (fast_float_strtod := fast_float_strtod) in Hout; congruence].
    destruct (keyed_split fst x ele Hin) as (zs1 & p & zs2 & -> & <-). pose proof Hr as [_ Hok _ Hnd _]. apply (nodup_key_mid fst) in Hnd as [Hout _].
    rewrite lp_map_mid, lookup_insert_eq in Hm by done. injection Hm as <-. apply Forall_app in Hok as [_ [Hp _]%Forall_cons_1].
    destruct (po_score _ _ Hp) as (_ & _ & Hn & Hv). by rewrite norm_valid, norm_nan.
  - destruct (decide (ele ∈ t_ele <$> x)) as [Hin|Hout]; [|apply skip_map_None in Hout; congruence].
    destruct (keyed_split t_ele x ele Hin) as (l & t & r & -> & <-). pose proof Hr as [[Hz _] _ Hnd Hok _]. apply nodup_key_mid in Hnd as [Hout _].
    rewrite skip_map_mid, lookup_insert_eq in Hm by done. injection Hm as <-. apply Forall_app in Hok as [_ [[_ Hv] _]%Forall_cons_1].
    pose proof (zr_nan _ _ _ _ _ _ Hz) as [_ [Hn _]%Forall_cons_1]%Forall_app. by rewrite norm_valid, norm_nan.
Qed.

(** C35: a score that a sorted set returns is always a double of the 64-bit format and never
    NaN, whatever additions and increments led to it: rounding stays in the format, and an
    increment that would give NaN is refused. *)
Theorem zset_scores_valid size_hint val_len_hint ops o rs o' ele sc o'' :
  0 <= size_hint -> zrun_ok ∅ ops -> zsetTypeCreate size_hint val_len_hint = Ok o -> zexec_run o ops = Ok (rs, o') ->
  zsetScore fast_float_strtod hashFunction dict_can_resize o' ele = Ok (Some sc, o'') -> valid sc = true /\ isnan sc = false.
Proof.
  intros Hs Hok Hc Hrun Hsc.
  destruct (zsetTypeCreate_spec junk fast_float_strtod usable sdsAllocSize zsl_size junk_level Hsize hashFunction dict_can_resize server size_hint val_len_hint Hs) as (o1 & Ho1 & Hrep).
  rewrite Hc in Ho1. injection Ho1 as <-. destruct (zexec_run_spec ops o ∅ Hrep Hok) as (rs1 & o2 & Hrun1 & _ & Hrep'). rewrite Hrun in Hrun1. injection Hrun1 as <- <-.
  destruct (zsetScore_spec fast_float_strtod usable sdsAllocSize zsl_size hashFunction dict_can_resize o' _ ele Hrep') as (sc1 & o3 & Hs1 & Hm & _).
  rewrite Hsc in Hs1. injection Hs1 as <- <-. destruct (zset_rep_valid _ _ ele (norm sc) Hrep' ltac:(by rewrite <- Hm)) as [Hv Hn]. by rewrite norm_valid, norm_nan in *.
Qed.
End Run.

(** * A concrete pair of conversions *)

(** A number is printed as its mantissa and its exponent. *)
Definition demo_dtoa (d : double) : list Z :=
  match d with S754_finite s m e => int_text (cond_Zopp s (Zpos m)) ++ 101 :: int_text e | _ => [] end.

Fixpoint split_e (t : list Z) : option (list Z * list Z) :=
  match t with
  | [] => None
  | c :: t => if c =? 101 then Some ([], t) else match split_e t with Some (a, b) => Some (c :: a, b) | None => None end
  end.

Definition demo_strtod (t : list Z) : double :=
  match split_e t with
  | Some (a, b) =>
      match string2ll a (zlength a), string2ll b (zlength b) with
      | Ok (Some (Zpos m)), Ok (Some e) => S754_finite false m e
      | Ok (Some (Zneg m)), Ok (Some e) => S754_finite true m e
      | _, _ => S754_nan
      end
  | None =>
      match string2ll t (zlength t) with
      | Ok (Some v) => double_of_ll v
      | _ => if bool_decide (t = bytes_of "inf"%string) then S754_infinity false
             else if bool_decide (t = bytes_of "-inf"%string) then S754_infinity true else S754_nan
      end
  end.

Lemma int_text_chars v : in_s 64 v -> Forall (fun c => 45 <= c <= 57) (int_text v).
Proof.
  intros Hv. destruct (proj2 (int_text_eq v _ Hv) eq_refl) as [l _ Hd|l _ Hd]; apply decimal_digits in Hd.
  - eapply list.Forall_impl; [exact Hd|]. intros c Hc. unfold isdig in Hc. lia.
  - constructor; [lia|]. eapply list.Forall_impl; [exact Hd|]. intros c Hc. unfold isdig in Hc. lia.
Qed.

Lemma split_e_none t : Forall (fun c => 45 <= c <= 57) t -> split_e t = None.
Proof. induction 1 as [|c t Hc _ IH]; [done|]. simpl. rewrite (proj2 (Z.eqb_neq c 101)) by lia. by rewrite IH. Qed.

Lemma split_e_at a b : Forall (fun c => 45 <= c <= 57) a -> split_e (a ++ 101 :: b) = Some (a, b).
Proof. induction 1 as [|c t Hc _ IH]; [done|]. simpl. rewrite (proj2 (Z.eqb_neq c 101)) by lia. by rewrite IH. Qed.

Lemma decimal_short w l (k : Z) : 1 <= k -> w < 10 ^ k -> decimal w l -> zlength l <= k.
Proof.
  intros Hk Hw [d (H1 & H2 & H3)]. rewrite length_digs, Z2Nat.id by lia. destruct H3 as [->|H3]; [lia|].
  destruct (Z.le_gt_cases d k); [done|]. pose proof (Z.pow_le_mono_r 10 k (d - 1)). lia.
Qed.

Lemma int_text_short v (k : Z) : in_s 64 v -> 1 <= k -> - 10 ^ k < v < 10 ^ k -> zlength (int_text v) <= k + 1.
Proof.
  intros Hv Hk Hr. destruct (proj2 (int_text_eq v _ Hv) eq_refl) as [l _ Hd|l _ Hd]; apply (decimal_short _ _ k) in Hd; cbn [length]; lia.
Qed.

Lemma valid_range s m e : valid (S754_finite s m e) = true -> in_s 64 (cond_Zopp s (Zpos m)) /\ - 10 ^ 16 < cond_Zopp s (Zpos m) < 10 ^ 16 /\ in_s 64 e /\ - 10 ^ 4 < e < 10 ^ 4.
Proof.
  intros Hv. pose proof (valid_mantissa s m e Hv) as Hm. simpl in Hv. unfold bounded, canonical_mantissa in Hv. rewrite andb_true_iff, Z.eqb_eq, Z.leb_le, fexp_eq in Hv.
  unfold in_s, cond_Zopp. pow_const. destruct s; lia.
Qed.

#[export] Instance demo_text : FloatText demo_dtoa demo_strtod.
Proof.
  split.
  - intros s m e Hv. destruct (valid_range s m e Hv) as (H1 & H2 & H3 & H4). unfold demo_dtoa. split.
    + apply Forall_app. split; [|constructor; [lia|]]; (eapply list.Forall_impl; [by apply int_text_chars|]; simpl; lia).
    + rewrite length_app. simpl. pose proof (int_text_short _ 16 H1 ltac:(lia) H2). pose proof (int_text_short _ 4 H3 ltac:(lia) H4). lia.
  - intros s m e Hv. destruct (valid_range s m e Hv) as (H1 & _ & H3 & _). unfold demo_strtod, demo_dtoa. rewrite split_e_at by (by apply int_text_chars).
    rewrite (proj2 (int_text_parse _ _ H1) eq_refl), (proj2 (int_text_parse _ _ H3) eq_refl). by destruct s.
  - intros v txt Hv Hd. apply (int_text_eq v txt Hv) in Hd as <-. unfold demo_strtod. rewrite split_e_none by (by apply int_text_chars).
    by rewrite (proj2 (int_text_parse _ _ Hv) eq_refl).
  - intros s. by destruct s; vm_compute.
Qed.

(** * A concrete history *)

Definition demo_draws : list (list Z) := replicate 4 [2147483647].

Lemma demo_draws_ok : draws_ok demo_draws.
Proof. unfold draws_ok, demo_draws. apply Forall_replicate. by exists 1. Qed.

(** A listpack may hold one member: the second addition of a new element converts it. *)
Definition demo_ops : list zop :=
  [OpAdd one (str [97]) 0 demo_draws; OpAdd two (str [97]) ZADD_IN_INCR demo_draws; OpAdd two (str [98]) 0 demo_draws;
   OpRank (str [97]) false; OpDel (str [98]); OpLength].

Lemma demo_add m sc ele : valid sc = true -> bytes_ok (sds_bytes ele) -> (base.size m < 4)%nat -> add_ok m sc ele demo_draws.
Proof. intros Hv Hb Hs. split_and!; [done|done|apply demo_draws_ok|done|pow_const; lia]. Qed.

Lemma demo_run_ok : zrun_ok ∅ demo_ops.
Proof.
  unfold demo_ops. cbn [zrun_ok zop_ok]. split_and!; try done.
  - apply demo_add; [done|repeat constructor; lia|]. vm_compute. lia.
  - apply demo_add; [done|repeat constructor; lia|]. vm_compute. lia.
  - apply demo_add; [done|repeat constructor; lia|]. vm_compute. lia.
Qed.

Lemma zset_refines_maps_witness :
  exists o rs o', zsetTypeCreate 0 (fun n => 16 * n) (fun _ => 24) 48 (mkLevel None 0) (fun _ => 5) DICT_RESIZE_ENABLE (mkZsetConfig 1 64) 0 0 = Ok o /\
    zexec_run 0 demo_dtoa demo_strtod (fun n => 16 * n) (fun _ => 24) 48 (mkLevel None 0) (fun _ => 5) DICT_RESIZE_ENABLE (mkZsetConfig 1 64) o demo_ops = Ok (rs, o') /\
    norm_reply <$> rs = (zspec_run ∅ demo_ops).1.
Proof.
  destruct (zset_refines_maps 0 demo_dtoa demo_strtod (fun n => 16 * n) (fun _ => 24) 48 (mkLevel None 0) (fun _ => 5) DICT_RESIZE_ENABLE (mkZsetConfig 1 64)
    ltac:(pow_const; lia) ltac:(simpl; pow_const; lia) 0 0 demo_ops ltac:(lia) demo_run_ok) as (o & rs & o' & H1 & H2 & H3 & _).
  exists o, rs, o'. split; [exact H1|]. split; [exact H2|exact H3].
Defined.

(** The answers: the increment gives 3, the rank of the incremented element is 1. *)
Example demo_answers : (zspec_run ∅ demo_ops).1 =
  [RAdd (1, ZADD_OUT_ADDED, Some one); RAdd (1, ZADD_OUT_UPDATED, Some (double_of_ll 3)); RAdd (1, ZADD_OUT_ADDED, Some two);
   RRank (Some (1, double_of_ll 3)); RDel true; RLength 1].
Proof. vm_compute. reflexivity. Qed.

Lemma zset_scores_valid_witness :
  exists o rs o' o'', zsetTypeCreate 0 (fun n => 16 * n) (fun _ => 24) 48 (mkLevel None 0) (fun _ => 5) DICT_RESIZE_ENABLE (mkZsetConfig 1 64) 0 0 = Ok o /\
    zexec_run 0 demo_dtoa demo_strtod (fun n => 16 * n) (fun _ => 24) 48 (mkLevel None 0) (fun _ => 5) DICT_RESIZE_ENABLE (mkZsetConfig 1 64) o
      [OpAdd one (str [97]) 0 demo_draws] = Ok (rs, o') /\
    zsetScore demo_strtod (fun _ => 5) DICT_RESIZE_ENABLE o' (str [97]) = Ok (Some one, o'') /\ valid one = true /\ isnan one = false.
Proof.
  eexists _, _, _, _. split; [vm_compute; reflexivity|]. split; [vm_compute; reflexivity|]. split; [vm_compute; reflexivity|].
  eapply (zset_scores_valid 0 demo_dtoa demo_strtod (fun n => 16 * n) (fun _ => 24) 48 (mkLevel None 0) (fun _ => 5) DICT_RESIZE_ENABLE (mkZsetConfig 1 64)
    ltac:(pow_const; lia) ltac:(simpl; pow_const; lia) 0 0 [OpAdd one (str [97]) 0 demo_draws] _ _ _ (str [97])); [lia| |vm_compute; reflexivity..].
  split; [|done]. apply demo_add; [done|repeat constructor; lia|vm_compute; lia].
Defined.
