(* ===== verification/Rio.v ===== *)
(** Streams: src/redis-stable/src/rio.h and the buffer target of rio.c.

    A rio is a backend with an optional checksum, error flags, a count of the processed
    bytes and a largest chunk.  The backend's functions are a class: the in-memory buffer
    of rio.c is an instance; files and sockets are outside of the model, but what is proved
    of the code that saves and loads holds for every backend that keeps the contract
    [Stream]: reads hand out the bytes in order, or fail when there are too few. *)

From S2P Require Import Prelude Machine.

(** * The backends *)

(** read and write of struct _rio; [None] and [false] are 0. *)
Class RioBackend (D : Type) := {
  dev_read : D -> Z -> res (option (list Z) * D);
  dev_write : D -> list Z -> res (bool * D)
}.

(** io.buffer *)
Record rio_buffer := mkBuffer { buf_ptr : list Z; buf_pos : Z }.

Definition rioBufferWrite (d : rio_buffer) (buf : list Z) : res (bool * rio_buffer) :=
  Ok (true, mkBuffer (buf_ptr d ++ buf) (buf_pos d + zlength buf)).

Definition rioBufferRead (d : rio_buffer) (len : Z) : res (option (list Z) * rio_buffer) :=
  if u64 (zlength (buf_ptr d) - buf_pos d) <? len then Ok (None, d)
  else
    let! buf := load (buf_pos d) len (buf_ptr d) in
    Ok (Some buf, mkBuffer (buf_ptr d) (buf_pos d + len)).

#[export] Instance buffer_backend : RioBackend rio_buffer := {
  dev_read := rioBufferRead;
  dev_write := rioBufferWrite
}.

(** * The interface *)

Definition RIO_FLAG_READ_ERROR : Z := 1.
Definition RIO_FLAG_WRITE_ERROR : Z := 2.

Record rio (D : Type) := mkRio {
  io : D;
  update_cksum : option (Z -> list Z -> Z);
  cksum : Z;
  flags : Z;
  processed_bytes : Z;
  max_processing_chunk : Z
}.
Arguments mkRio {D} io update_cksum cksum flags processed_bytes max_processing_chunk.
Arguments io {D} r.
Arguments update_cksum {D} r.
Arguments cksum {D} r.
Arguments flags {D} r.
Arguments processed_bytes {D} r.
Arguments max_processing_chunk {D} r.

Definition rioInitWithBuffer (s : list Z) : rio rio_buffer := mkRio (mkBuffer s 0) None 0 0 0 0.

Section Rio.
Context {D : Type} `{RioBackend D}.
Implicit Types (r : rio D) (buf : list Z).

Definition chunk r (len : Z) : Z :=
  if negb (max_processing_chunk r =? 0) && (max_processing_chunk r <? len) then max_processing_chunk r else len.

Definition add_cksum r buf : rio D :=
  mkRio (io r) (update_cksum r) (match update_cksum r with Some f => f (cksum r) buf | None => cksum r end)
    (flags r) (processed_bytes r) (max_processing_chunk r).

Definition set_flag r (flag : Z) : rio D :=
  mkRio (io r) (update_cksum r) (cksum r) (Z.lor (flags r) flag) (processed_bytes r) (max_processing_chunk r).

Definition set_io r (d : D) : rio D :=
  mkRio d (update_cksum r) (cksum r) (flags r) (processed_bytes r) (max_processing_chunk r).

Definition add_processed r (n : Z) : rio D :=
  mkRio (io r) (update_cksum r) (cksum r) (flags r) (u64 (processed_bytes r + n)) (max_processing_chunk r).

Fixpoint write_loop (fuel : nat) r buf : res (bool * rio D) :=
  match buf with
  | [] => Ok (true, r)
  | _ =>
      match fuel with
      | O => Fault OutOfFuel
      | S fuel =>
          let n := chunk r (zlength buf) in
          let part := take (Z.to_nat n) buf in
          let r := add_cksum r part in
          let! '(ok, d) := dev_write (io r) part in
          if negb ok then Ok (false, set_flag (set_io r d) RIO_FLAG_WRITE_ERROR)
          else write_loop fuel (add_processed (set_io r d) n) (drop (Z.to_nat n) buf)
      end
  end.

Definition rioWrite r buf : res (bool * rio D) :=
  if negb (Z.land (flags r) RIO_FLAG_WRITE_ERROR =? 0) then Ok (false, r) else write_loop (length buf) r buf.

(** The bytes read so far are in [buf]. *)
Fixpoint read_loop (fuel : nat) r buf (len : Z) : res (option (list Z) * rio D) :=
  if len =? 0 then Ok (Some buf, r)
  else
    match fuel with
    | O => Fault OutOfFuel
    | S fuel =>
        let n := chunk r len in
        let! '(part, d) := dev_read (io r) n in
        match part with
        | None => Ok (None, set_flag (set_io r d) RIO_FLAG_READ_ERROR)
        | Some part => read_loop fuel (add_processed (add_cksum (set_io r d) part) n) (buf ++ part) (len - n)
        end
    end.

Definition rioRead r (len : Z) : res (option (list Z) * rio D) :=
  if negb (Z.land (flags r) RIO_FLAG_READ_ERROR =? 0) then Ok (None, r) else read_loop (Z.to_nat len) r [] len.

Definition rioAbort r : rio D := set_flag r (Z.lor RIO_FLAG_READ_ERROR RIO_FLAG_WRITE_ERROR).
Definition rioGetReadError r : bool := negb (Z.land (flags r) RIO_FLAG_READ_ERROR =? 0).
Definition rioGetWriteError r : bool := negb (Z.land (flags r) RIO_FLAG_WRITE_ERROR =? 0).
Definition rioClearErrors r : rio D :=
  mkRio (io r) (update_cksum r) (cksum r) (Z.land (flags r) (Z.lnot (Z.lor RIO_FLAG_READ_ERROR RIO_FLAG_WRITE_ERROR)))
    (processed_bytes r) (max_processing_chunk r).
End Rio.

(** * What a backend promises *)

(** [written]: the bytes that successful writes have put there.  [unread]: the bytes that
    are still to be read.  A read of more than there is fails.  [can_fail]: whether a write
    may fail at all. *)
Class Stream (D : Type) `{RioBackend D} := {
  written : D -> list Z;
  unread : D -> list Z;
  stream_ok : D -> Prop;
  can_fail : Prop;
  write_spec (d : D) (bs : list Z) : bs <> [] -> exists ok d', dev_write d bs = Ok (ok, d') /\ if (ok : bool) then written d' = written d ++ bs else can_fail;
  read_spec (d : D) (n : Z) : stream_ok d -> 0 < n -> exists d', stream_ok d' /\
    if decide (n <= zlength (unread d)) then dev_read d n = Ok (Some (take (Z.to_nat n) (unread d)), d') /\ unread d' = drop (Z.to_nat n) (unread d)
    else dev_read d n = Ok (None, d')
}.

Lemma buffer_write d bs : bs <> [] -> exists ok d', rioBufferWrite d bs = Ok (ok, d') /\ if (ok : bool) then buf_ptr d' = buf_ptr d ++ bs else False.
Proof. intros _. by exists true, (mkBuffer (buf_ptr d ++ bs) (buf_pos d + zlength bs)). Qed.

Definition buffer_unread d : list Z := drop (Z.to_nat (buf_pos d)) (buf_ptr d).
Definition buffer_ok d : Prop := 0 <= buf_pos d <= zlength (buf_ptr d) /\ zlength (buf_ptr d) < 2 ^ 63.

Lemma buffer_read d n : buffer_ok d -> 0 < n -> exists d', buffer_ok d' /\
  if decide (n <= zlength (buffer_unread d))
  then rioBufferRead d n = Ok (Some (take (Z.to_nat n) (buffer_unread d)), d') /\ buffer_unread d' = drop (Z.to_nat n) (buffer_unread d)
  else rioBufferRead d n = Ok (None, d').
Proof.
  unfold buffer_ok, buffer_unread, rioBufferRead. intros [Hp Hl] Hn. rewrite length_drop, u_id by (pow_const; lia). destruct (decide _) as [Hd|Hd].
  - rewrite (proj2 (Z.ltb_ge _ _)) by lia. unfold load. rewrite !(proj2 (Z.leb_le _ _)) by lia. cbn [andb].
    exists (mkBuffer (buf_ptr d) (buf_pos d + n)). simpl. split; [lia|]. split; [done|]. rewrite drop_drop. f_equal. lia.
  - rewrite (proj2 (Z.ltb_lt _ _)) by lia. by exists d.
Qed.

#[export] Instance buffer_stream : Stream rio_buffer := {
  written := buf_ptr;
  unread := buffer_unread;
  stream_ok := buffer_ok;
  can_fail := False;
  write_spec := buffer_write;
  read_spec := buffer_read
}.
Arguments can_fail D {H Stream}.

(** * What the interface promises *)

Section Spec.
Context {D : Type} `{BD : RioBackend D, SD : !Stream D}.
Implicit Types (r : rio D) (bs : list Z).

(** No error has happened. *)
Definition can_read r : Prop := Z.land (flags r) RIO_FLAG_READ_ERROR = 0 /\ stream_ok (io r) /\ 0 <= max_processing_chunk r.
Definition can_write r : Prop := Z.land (flags r) RIO_FLAG_WRITE_ERROR = 0 /\ 0 <= max_processing_chunk r.
Definition write_failed r : Prop := can_fail D /\ Z.land (flags r) RIO_FLAG_WRITE_ERROR <> 0.
Definition read_failed r : Prop := Z.land (flags r) RIO_FLAG_READ_ERROR <> 0.

Lemma chunk_range r len : 0 <= max_processing_chunk r -> 0 < len -> 0 < chunk r len <= len.
Proof. intros Hm Hl. unfold chunk. destruct (Z.eqb_spec (max_processing_chunk r) 0), (Z.ltb_spec (max_processing_chunk r) len); simpl; lia. Qed.

Lemma flag_set r flag : flag = 1 \/ flag = 2 -> Z.land (flags (set_flag r flag)) flag <> 0.
Proof.
  intros Hf E. simpl in E. apply (f_equal (fun z => Z.testbit z (flag - 1))) in E. rewrite Z.land_spec, Z.lor_spec, Z.bits_0 in E.
  destruct Hf as [-> | ->]; simpl in E; by rewrite orb_true_r in E.
Qed.

Lemma rio_write_loop_spec fuel : forall r bs, can_write r -> (length bs <= fuel)%nat ->
  exists ok r', write_loop fuel r bs = Ok (ok, r') /\
    if (ok : bool) then can_write r' /\ written (io r') = written (io r) ++ bs else write_failed r'.
Proof.
  induction fuel as [|fuel IH]; intros r bs Hr Hf.
  { destruct bs; [|simpl in Hf; lia]. exists true, r. split; [done|]. by rewrite app_nil_r. }
  destruct bs as [|b bs]; [exists true, r; split; [done|]; by rewrite app_nil_r|]. destruct Hr as [Hr Hm]. cbn [write_loop].
  set (buf := b :: bs) in *. set (n := chunk r (zlength buf)). set (part := take (Z.to_nat n) buf).
  assert (0 < n <= zlength buf) as Hn by (apply chunk_range; [done|simpl; lia]).
  assert (length part = Z.to_nat n) as Hlp by (unfold part; rewrite length_take; lia).
  destruct (write_spec (io (add_cksum r part)) part) as (ok & d & -> & Hd); [intros E; rewrite E in Hlp; simpl in Hlp; lia|].
  destruct ok; cbn [negb]; [|eexists false, _; split; [done|]; split; [exact Hd|apply flag_set; by right]].
  destruct (IH (add_processed (set_io (add_cksum r part) d) n) (drop (Z.to_nat n) buf)) as (ok & r' & -> & Hr'); [done|rewrite length_drop; lia|].
  exists ok, r'. split; [done|]. destruct ok; [|done]. destruct Hr' as [? Hw]. split; [done|]. rewrite Hw. simpl. rewrite Hd. simpl.
  rewrite <- (assoc_L (++)). f_equal. apply take_drop.
Qed.

(** A write appends its bytes or reports an error. *)
Lemma rioWrite_spec r bs : can_write r ->
  exists ok r', rioWrite r bs = Ok (ok, r') /\ if (ok : bool) then can_write r' /\ written (io r') = written (io r) ++ bs else write_failed r'.
Proof. intros Hr. unfold rioWrite. rewrite (proj1 Hr). by apply rio_write_loop_spec. Qed.

Lemma rio_read_loop_spec fuel : forall r buf (len : Z), can_read r -> 0 <= len -> (Z.to_nat len <= fuel)%nat ->
  exists v r', read_loop fuel r buf len = Ok (v, r') /\
    if decide (len <= zlength (unread (io r)))
    then v = Some (buf ++ take (Z.to_nat len) (unread (io r))) /\ can_read r' /\ unread (io r') = drop (Z.to_nat len) (unread (io r))
    else v = None /\ read_failed r'.
Proof.
  induction fuel as [|fuel IH]; intros r buf len Hr Hl Hf.
  { assert (len = 0) as -> by lia. eexists _, _. split; [done|]. rewrite decide_True by lia. simpl. by rewrite app_nil_r. }
  cbn [read_loop]. destruct (Z.eqb_spec len 0) as [->|Hne]; [eexists _, _; split; [done|]; rewrite decide_True by lia; simpl; by rewrite app_nil_r|].
  destruct Hr as (Hr & Hs & Hm). pose proof (chunk_range r len Hm ltac:(lia)) as Hn. set (n := chunk r len) in *.
  destruct (read_spec (io r) n Hs ltac:(lia)) as (d & Hd & Hread). destruct (decide (n <= _)) as [Hle|Hle].
  2: { rewrite Hread. eexists _, _. split; [done|]. rewrite decide_False by lia. split; [done|]. apply flag_set. by left. }
  destruct Hread as [-> Hun]. cbn iota beta.
  destruct (IH (add_processed (add_cksum (set_io r d) (take (Z.to_nat n) (unread (io r)))) n) (buf ++ take (Z.to_nat n) (unread (io r))) (len - n))
    as (v & r' & -> & Hv); [done|lia|lia|]. exists v, r'. split; [done|]. simpl in Hv. rewrite Hun, length_drop in Hv.
  destruct (decide (len <= _)) as [Hle2|Hle2], (decide (len - n <= _)) as [Hle3|Hle3]; try lia; [|done].
  destruct Hv as (-> & Hc & ->). rewrite <- (assoc_L (++)), drop_drop. replace (Z.to_nat n + Z.to_nat (len - n))%nat with (Z.to_nat len) by lia.
  split; [|done]. do 2 f_equal. rewrite take_take_drop. f_equal. lia.
Qed.

(** A read of as many bytes as are left or fewer returns them; a longer one fails. *)
Lemma rioRead_spec r (len : Z) : can_read r -> 0 <= len ->
  exists v r', rioRead r len = Ok (v, r') /\
    if decide (len <= zlength (unread (io r)))
    then v = Some (take (Z.to_nat len) (unread (io r))) /\ can_read r' /\ unread (io r') = drop (Z.to_nat len) (unread (io r))
    else v = None /\ read_failed r'.
Proof. intros Hr Hl. unfold rioRead. rewrite (proj1 Hr). by apply rio_read_loop_spec. Qed.
End Spec.
