(* ===== verification/StringObj.v ===== *)
(** String objects: src/redis-stable/src/object.c.

    A string object holds an sds (RAW), an sds in the allocation of the object (EMBSTR), or
    a long in place of the pointer (INT).  The functions that create, encode, decode and
    compare them must agree on the string that an object stands for; it is the same for all
    three encodings.  Free space at the end of an sds and the LRU fields are not modelled. *)

From S2P Require Import Prelude Machine UtilNum ListpackRead SetType SetTypeSpec Skiplist ZOrder.

(** * The model *)

Inductive strval := RAW (ptr : list Z) | EMBSTR (ptr : list Z) | INT (ptr : Z).

Record strobj := mkStr { value : strval; refcount : Z }.

Record string_config := mkStringConfig { maxmemory : Z; maxmemory_policy : Z }.

Definition OBJ_SHARED_REFCOUNT : Z := 2 ^ 30 - 1.
Definition OBJ_STATIC_REFCOUNT : Z := 2 ^ 30 - 2.
Definition OBJ_FIRST_SPECIAL_REFCOUNT : Z := OBJ_STATIC_REFCOUNT.
Definition OBJ_SHARED_INTEGERS : Z := 10000.
Definition OBJ_ENCODING_EMBSTR_SIZE_LIMIT : Z := 44.
Definition MAXMEMORY_FLAG_NO_SHARED_INTEGERS : Z := 3.

Definition sdsEncodedObject (o : strobj) : bool := match value o with INT _ => false | _ => true end.

(** createObject(OBJ_STRING, ...), with the encoding set afterwards. *)
Definition createObject (v : strval) : strobj := mkStr v 1.
Definition createRawStringObject (ptr : list Z) : strobj := createObject (RAW ptr).
Definition createEmbeddedStringObject (ptr : list Z) : strobj := createObject (EMBSTR ptr).

Definition createStringObject (ptr : list Z) : strobj :=
  if zlength ptr <=? OBJ_ENCODING_EMBSTR_SIZE_LIMIT then createEmbeddedStringObject ptr else createRawStringObject ptr.

(** shared.integers[value] *)
Definition shared_integer (v : Z) : strobj := mkStr (INT v) OBJ_SHARED_REFCOUNT.

Inductive ll2strobj := LL2STROBJ_AUTO | LL2STROBJ_NO_SHARED | LL2STROBJ_NO_INT_ENC.
#[global] Instance ll2strobj_eq_dec : EqDecision ll2strobj.
Proof. solve_decision. Defined.

Fixpoint strlen (buf : list Z) : res Z :=
  match buf with [] => Fault OutOfBounds | c :: buf => if c =? 0 then Ok 0 else let! n := strlen buf in Ok (n + 1) end.

Section StringObj.
Context (junk : Z) (server : string_config).
Implicit Types (o a b : strobj).

Definition createStringObjectFromLongLongWithOptions (v : Z) (flag : ll2strobj) : res strobj :=
  if (v >=? 0) && (v <? OBJ_SHARED_INTEGERS) && bool_decide (flag = LL2STROBJ_AUTO) then Ok (shared_integer v)
  else if (v >=? LONG_MIN) && (v <=? LONG_MAX) && negb (bool_decide (flag = LL2STROBJ_NO_INT_ENC)) then Ok (createObject (INT v))
  else
    let! '(len, buf) := ll2string (replicate 21 junk) LONG_STR_SIZE v in
    let! str := load 0 len buf in
    Ok (createStringObject str).

Definition createStringObjectFromLongLong (v : Z) : res strobj := createStringObjectFromLongLongWithOptions v LL2STROBJ_AUTO.

Definition createStringObjectFromLongLongForValue (v : Z) : res strobj :=
  if (maxmemory server =? 0) || (Z.land (maxmemory_policy server) MAXMEMORY_FLAG_NO_SHARED_INTEGERS =? 0)
  then createStringObjectFromLongLongWithOptions v LL2STROBJ_AUTO
  else createStringObjectFromLongLongWithOptions v LL2STROBJ_NO_SHARED.

Definition createStringObjectFromLongLongWithSds (v : Z) : res strobj :=
  createStringObjectFromLongLongWithOptions v LL2STROBJ_NO_INT_ENC.

Definition dupStringObject o : strobj :=
  match value o with
  | RAW ptr => createRawStringObject ptr
  | EMBSTR ptr => createEmbeddedStringObject ptr
  | INT v => createObject (INT v)
  end.

Definition isSdsRepresentableAsLongLong (str : list Z) : res (option Z) := string2ll str (zlength str).

Definition isObjectRepresentableAsLongLong o : res (option Z) :=
  match value o with INT v => Ok (Some v) | RAW str | EMBSTR str => isSdsRepresentableAsLongLong str end.

(** NULL is [None]; C_ERR is the result [None]. *)
Definition getLongLongFromObject (o : option strobj) : res (option Z) :=
  match o with
  | None => Ok (Some 0)
  | Some o => match value o with INT v => Ok (Some v) | RAW str | EMBSTR str => string2ll str (zlength str) end
  end.

Definition tryObjectEncodingEx o : res strobj :=
  match value o with
  | INT _ => Ok o
  | RAW str | EMBSTR str =>
      if refcount o >? 1 then Ok o
      else
        let len := zlength str in
        let! v := (if len <=? 20 then string2l str len else Ok None) in
        match v, value o with
        | Some v, RAW _ => Ok (mkStr (INT v) (refcount o))
        | Some v, _ => createStringObjectFromLongLongForValue v
        | None, EMBSTR _ => Ok o
        | None, _ => Ok (if len <=? OBJ_ENCODING_EMBSTR_SIZE_LIMIT then createEmbeddedStringObject str else o)
        end
  end.

Definition incrRefCount o : res strobj :=
  if refcount o <? OBJ_FIRST_SPECIAL_REFCOUNT then Ok (mkStr (value o) (refcount o + 1))
  else if refcount o =? OBJ_SHARED_REFCOUNT then Ok o
  else if refcount o =? OBJ_STATIC_REFCOUNT then Fault AssertFailed
  else Ok o.

Definition getDecodedObject o : res strobj :=
  match value o with
  | INT v =>
      let! '(_, buf) := ll2string (replicate 32 junk) 32 v in
      let! n := strlen buf in
      let! str := load 0 n buf in
      Ok (createStringObject str)
  | _ => incrRefCount o
  end.

(** The bytes and the length of an object in compareStringObjectsWithFlags. *)
Definition object_text o : res (list Z * Z) :=
  match value o with
  | INT v => let! '(len, buf) := ll2string (replicate 128 junk) 128 v in Ok (buf, len)
  | RAW str | EMBSTR str => Ok (str, zlength str)
  end.

(** [same] tells whether the two pointers are equal. *)
Definition compareStringObjects (same : bool) a b : res Z :=
  if same then Ok 0
  else
    let! '(astr, alen) := object_text a in
    let! '(bstr, blen) := object_text b in
    let minlen := if alen <? blen then alen else blen in
    let cmp := memcmp (Z.to_nat minlen) astr bstr in
    Ok (if cmp =? 0 then s32 (u64 (alen - blen)) else cmp).

Definition equalStringObjects (same : bool) a b : res bool :=
  match value a, value b with
  | INT v, INT w => Ok (v =? w)
  | (RAW astr | EMBSTR astr), (RAW bstr | EMBSTR bstr) =>
      if negb (zlength astr =? zlength bstr) then Ok false
      else let! c := compareStringObjects same a b in Ok (c =? 0)
  | _, _ => let! c := compareStringObjects same a b in Ok (c =? 0)
  end.

Definition stringObjectLen o : res Z :=
  match value o with INT v => sdigits10 v | RAW str | EMBSTR str => Ok (zlength str) end.
End StringObj.

(** * The string of an object *)

Definition string_of (o : strobj) : list Z := match value o with RAW str | EMBSTR str => str | INT v => int_text v end.

Definition strobj_ok (o : strobj) : Prop :=
  match value o with INT v => in_s 64 v | RAW str => bytes_ok str | EMBSTR str => bytes_ok str /\ zlength str <= 44 end /\
  1 <= refcount o /\ refcount o <> OBJ_STATIC_REFCOUNT.

Section Spec.
Context (junk : Z) (server : string_config).
Implicit Types (o a b : strobj).

Lemma int_buf n v : in_s 64 v -> 21 <= n ->
  exists rest, ll2string (replicate (Z.to_nat n) junk) n v = Ok (zlength (int_text v), int_text v ++ 0 :: rest).
Proof.
  intros Hv Hn. pose proof (int_text_length v Hv). rewrite (ll2string_fits _ _ v (int_text v)); [by eexists|done|by apply int_text_eq|..];
    rewrite ?length_replicate; lia.
Qed.

Lemma strlen_text t rest : Forall (fun c => c <> 0) t -> strlen (t ++ 0 :: rest) = Ok (zlength t).
Proof.
  induction 1 as [|c t Hc _ IH]; [done|]. cbn [app strlen]. rewrite (proj2 (Z.eqb_neq c 0) Hc), IH. do 2 f_equal. simpl. lia.
Qed.

Lemma int_text_nonzero v : in_s 64 v -> Forall (fun c => c <> 0) (int_text v).
Proof.
  intros Hv. destruct (proj2 (int_text_eq v _ Hv) eq_refl) as [l _ Hd|l _ Hd]; apply decimal_digits in Hd.
  - eapply list.Forall_impl; [exact Hd|]. intros c Hc. unfold isdig in Hc. lia.
  - constructor; [lia|]. eapply list.Forall_impl; [exact Hd|]. intros c Hc. unfold isdig in Hc. lia.
Qed.

Lemma createString_of str : string_of (createStringObject str) = str.
Proof. unfold createStringObject. by destruct (_ <=? _). Qed.

Lemma createString_sds str : sdsEncodedObject (createStringObject str) = true.
Proof. unfold createStringObject. by destruct (_ <=? _). Qed.

(** An object made from a number stands for its decimal notation. *)
Lemma fromLongLong_spec v flag : in_s 64 v ->
  exists o, createStringObjectFromLongLongWithOptions junk v flag = Ok o /\ string_of o = int_text v /\
    (flag <> LL2STROBJ_NO_INT_ENC -> value o = INT v) /\ (flag = LL2STROBJ_NO_INT_ENC -> sdsEncodedObject o = true).
Proof.
  intros Hv. unfold createStringObjectFromLongLongWithOptions. destruct (_ && _) eqn:E.
  { eexists. split; [reflexivity|]. split; [reflexivity|]. split; [reflexivity|]. intros ->. rewrite bool_decide_false, andb_false_r in E by discriminate. discriminate. }
  destruct (_ && _) eqn:E2 at 1.
  { eexists. split; [reflexivity|]. split; [reflexivity|]. split; [reflexivity|]. intros ->. rewrite bool_decide_true, andb_false_r in E2 by reflexivity. discriminate. }
  destruct (int_buf 21 v Hv ltac:(lia)) as (rest & Hb). change (Z.to_nat 21) with 21%nat in Hb. unfold LONG_STR_SIZE. rewrite Hb.
  rewrite (load_app [] (int_text v) (0 :: rest)) by done. eexists. split; [done|]. split; [apply createString_of|]. split.
  - intros Hf. rewrite bool_decide_false, andb_true_r in E2 by done. unfold in_s in Hv. unfold LONG_MIN, LONG_MAX, LLONG_MIN, LLONG_MAX in E2. pow_const. lia.
  - intros _. apply createString_sds.
Qed.

Lemma forValue_spec v : in_s 64 v -> exists o, createStringObjectFromLongLongForValue junk server v = Ok o /\ value o = INT v.
Proof.
  intros Hv. unfold createStringObjectFromLongLongForValue. destruct (_ || _).
  - destruct (fromLongLong_spec v LL2STROBJ_AUTO Hv) as (o & Ho & _ & Hi & _). exists o. split; [done|by apply Hi].
  - destruct (fromLongLong_spec v LL2STROBJ_NO_SHARED Hv) as (o & Ho & _ & Hi & _). exists o. split; [done|by apply Hi].
Qed.

(** With the reference count of a new or a shared object. *)
Lemma fromLongLong_ok v flag o : in_s 64 v -> createStringObjectFromLongLongWithOptions junk v flag = Ok o -> strobj_ok o.
Proof.
  intros Hv. unfold createStringObjectFromLongLongWithOptions. destruct (_ && _); [intros [= <-]; by split|]. destruct (_ && _); [intros [= <-]; by split|].
  destruct (int_buf 21 v Hv ltac:(lia)) as (rest & Hb). change (Z.to_nat 21) with 21%nat in Hb. unfold LONG_STR_SIZE. rewrite Hb.
  rewrite (load_app [] (int_text v) (0 :: rest)) by done. intros [= <-]. pose proof (int_text_length v Hv). unfold createStringObject, OBJ_ENCODING_EMBSTR_SIZE_LIMIT.
  rewrite (proj2 (Z.leb_le _ _)) by lia. split; [|done]. simpl. split; [by apply int_text_bytes|lia].
Qed.

Lemma forValue_ok v : in_s 64 v -> exists o, createStringObjectFromLongLongForValue junk server v = Ok o /\ string_of o = int_text v /\ strobj_ok o.
Proof.
  intros Hv. unfold createStringObjectFromLongLongForValue. destruct (_ || _).
  - destruct (fromLongLong_spec v LL2STROBJ_AUTO Hv) as (o & Ho & Hs & _). exists o. split_and!; [done|done|by eapply fromLongLong_ok].
  - destruct (fromLongLong_spec v LL2STROBJ_NO_SHARED Hv) as (o & Ho & Hs & _). exists o. split_and!; [done|done|by eapply fromLongLong_ok].
Qed.

Lemma withSds_ok v : in_s 64 v -> exists o, createStringObjectFromLongLongWithSds junk v = Ok o /\ string_of o = int_text v /\ strobj_ok o.
Proof.
  intros Hv. destruct (fromLongLong_spec v LL2STROBJ_NO_INT_ENC Hv) as (o & Ho & Hs & _). exists o. split_and!; [done|done|by eapply fromLongLong_ok].
Qed.

Lemma createString_ok str : bytes_ok str -> strobj_ok (createStringObject str).
Proof.
  intros Hb. unfold createStringObject, OBJ_ENCODING_EMBSTR_SIZE_LIMIT. destruct (Z.leb_spec (zlength str) 44) as [Hl|Hl]; split; done.
Qed.

Lemma string2l_spec str : exists r, string2l str (zlength str) = Ok r /\ forall v, r = Some v <-> in_s 64 v /\ int_text v = str.
Proof.
  destruct (string2ll_whole str) as (r & Hr & Hs). unfold string2l. rewrite Hr. exists r. split.
  - destruct r as [v|]; [|done]. destruct (proj1 (Hs v) eq_refl) as [Hv _]. unfold in_s in Hv. unfold LONG_MIN, LONG_MAX, LLONG_MIN, LLONG_MAX. pow_const.
    by rewrite (proj2 (orb_false_iff _ _)) by (split; lia).
  - intros v. rewrite Hs. split; intros [Hv Ht]; (split; [done|]); by apply int_text_eq.
Qed.

Lemma tryObjectEncoding_spec o : strobj_ok o ->
  exists o', tryObjectEncodingEx junk server o = Ok o' /\ string_of o' = string_of o /\
    (refcount o = 1 -> match value o' with
     | INT v => int_text v = string_of o
     | EMBSTR _ => zlength (string_of o) <= 44 /\ forall v, in_s 64 v -> int_text v <> string_of o
     | RAW _ => 44 < zlength (string_of o)
     end).
Proof.
  intros [Ho Hrc]. unfold tryObjectEncodingEx. destruct o as [v rc]. cbn [value refcount] in *. unfold OBJ_ENCODING_EMBSTR_SIZE_LIMIT. destruct v as [str|str|v].
  3: { eexists. split; [done|]. split; [done|]. done. }
  all: destruct (Z.gtb_spec rc 1) as [Hg|Hg]; [eexists; split; [done|]; split; [done|lia]|].
  all: destruct (string2l_spec str) as (r & Hr & Hs).
  all: assert (Hv : exists r', (if zlength str <=? 20 then string2l str (zlength str) else Ok None) = Ok r' /\ forall v, r' = Some v <-> in_s 64 v /\ int_text v = str)
    by (destruct (Z.leb_spec (zlength str) 20) as [Hl|Hl]; [by exists r|]; exists None; split; [done|]; intros v; split; [done|]; intros [Hv Ht];
        pose proof (int_text_length v Hv) as Hlen; rewrite Ht in Hlen; lia).
  all: destruct Hv as ([v|] & -> & Hv); [destruct (proj1 (Hv v) eq_refl) as [Hv64 Ht]|
    assert (Hno : forall v, in_s 64 v -> int_text v <> str) by (intros v H64 Ht; by discriminate (proj2 (Hv v) (conj H64 Ht)))].
  - eexists. split; [done|]. split; [done|]. done.
  - unfold string_of. simpl. destruct (Z.leb_spec (zlength str) 44); eexists; (split; [done|]); done || lia.
  - destruct (forValue_spec v Hv64) as (o & -> & Hval). exists o. split; [done|]. unfold string_of. rewrite Hval. done.
  - eexists. split; [done|]. split; [done|]. intros _. by split; [apply Ho|].
Qed.

Lemma getDecoded_spec o : strobj_ok o -> exists o', getDecodedObject junk o = Ok o' /\ string_of o' = string_of o /\ sdsEncodedObject o' = true.
Proof.
  intros [Ho [Hrc Hns]]. destruct o as [v rc]. unfold getDecodedObject, incrRefCount. cbn [value refcount] in *.
  assert (forall w : strval, exists o', (if rc <? OBJ_FIRST_SPECIAL_REFCOUNT then Ok (mkStr w (rc + 1)) else if rc =? OBJ_SHARED_REFCOUNT then Ok (mkStr w rc)
    else if rc =? OBJ_STATIC_REFCOUNT then Fault AssertFailed else Ok (mkStr w rc)) = Ok o' /\ value o' = w) as Hinc.
  { intros w. rewrite (proj2 (Z.eqb_neq rc OBJ_STATIC_REFCOUNT) Hns). repeat case_match; by eexists. }
  destruct v as [str|str|v].
  - destruct (Hinc (RAW str)) as (o' & -> & Hv). exists o'. unfold string_of, sdsEncodedObject. by rewrite Hv.
  - destruct (Hinc (EMBSTR str)) as (o' & -> & Hv). exists o'. unfold string_of, sdsEncodedObject. by rewrite Hv.
  - destruct (int_buf 32 v Ho ltac:(lia)) as (rest & Hb). change (Z.to_nat 32) with 32%nat in Hb. rewrite Hb.
    rewrite strlen_text by (by apply int_text_nonzero). rewrite (load_app [] (int_text v) (0 :: rest)) by done. eexists. split; [done|].
    split; [apply createString_of|apply createString_sds].
Qed.

Lemma object_text_spec o : strobj_ok o -> exists rest, object_text junk o = Ok (string_of o ++ rest, zlength (string_of o)).
Proof.
  intros [Ho _]. unfold object_text, string_of. destruct (value o) as [str|str|v]; [exists []; by rewrite app_nil_r..|].
  destruct (int_buf 128 v Ho ltac:(lia)) as (rest & Hb). change (Z.to_nat 128) with 128%nat in Hb. rewrite Hb. by exists (0 :: rest).
Qed.

Lemma memcmp_prefixes k : forall (x y s t : list Z), (k <= length x)%nat -> (k <= length y)%nat -> memcmp k (x ++ s) (y ++ t) = memcmp k x y.
Proof.
  induction k as [|k IH]; intros [|c x] [|d y] s t Hx Hy; try done; simpl in *; try lia. by rewrite IH by lia.
Qed.

Lemma memcmp_sgn k : forall x y : list Z, Z.sgn (memcmp k x y) = memcmp k x y.
Proof. induction k as [|k IH]; intros [|c x] [|d y]; try done; simpl in *. destruct (c =? d); [by apply IH|]. by destruct (c <? d). Qed.

(** The comparison has the sign of the lexicographic order of the strings. *)
Lemma compareObjects_spec (same : bool) a b : strobj_ok a -> strobj_ok b -> (same = true -> a = b) ->
  zlength (string_of a) < 2 ^ 31 -> zlength (string_of b) < 2 ^ 31 ->
  exists c, compareStringObjects junk same a b = Ok c /\ Z.sgn c = lexcmp (string_of a) (string_of b).
Proof.
  intros Ha Hb Hsame Hla Hlb. unfold compareStringObjects. destruct same.
  { rewrite (Hsame eq_refl). exists 0. split; [done|]. symmetry. by apply lexcmp_zero. }
  destruct (object_text_spec a Ha) as (ra & ->). destruct (object_text_spec b Hb) as (rb & ->). cbn zeta.
  set (x := string_of a) in *. set (y := string_of b) in *. rewrite <- (memcmp_lexcmp x y).
  rewrite memcmp_prefixes by (destruct (Z.ltb_spec (zlength x) (zlength y)); lia).
  replace (Z.to_nat (if zlength x <? zlength y then zlength x else zlength y)) with (Nat.min (length x) (length y)) by (destruct (Z.ltb_spec (zlength x) (zlength y)); lia).
  eexists. split; [done|]. cbn zeta. destruct (Z.eqb_spec (memcmp (Nat.min (length x) (length y)) x y) 0) as [E|E].
  - assert (s32 (u64 (zlength x - zlength y)) = zlength x - zlength y) as ->.
    { unfold s, u. pow_const. replace 18446744073709551616 with (4294967296 * 4294967296) by lia.
      rewrite Z.rem_mul_r by lia. rewrite (Z.mul_comm 4294967296 (_ mod _)), <- Z.add_assoc, (Z.add_comm (_ * _)), Z.add_assoc, Z_mod_plus_full, Zplus_mod_idemp_l, Z.mod_small by lia. lia. }
    rewrite Z.gtb_ltb. destruct (Z.ltb_spec (zlength y) (zlength x)), (Z.ltb_spec (zlength x) (zlength y)); lia.
  - apply memcmp_sgn.
Qed.

Lemma equalObjects_spec (same : bool) a b : strobj_ok a -> strobj_ok b -> (same = true -> a = b) ->
  zlength (string_of a) < 2 ^ 31 -> zlength (string_of b) < 2 ^ 31 ->
  equalStringObjects junk same a b = Ok (bool_decide (string_of a = string_of b)).
Proof.
  intros Ha Hb Hsame Hla Hlb. destruct (compareObjects_spec same a b Ha Hb Hsame Hla Hlb) as (c & Hc & Hsgn).
  assert (Hcmp : (let! c := compareStringObjects junk same a b in Ok (c =? 0)) = Ok (bool_decide (string_of a = string_of b))).
  { rewrite Hc. f_equal. apply eq_bool_prop_intro. rewrite !Is_true_true, bool_decide_eq_true, Z.eqb_eq, <- lexcmp_zero, <- Hsgn. lia. }
  assert (Hlen : forall x y : list Z, string_of a = x -> string_of b = y -> (if negb (zlength x =? zlength y) then Ok false else
    let! c := compareStringObjects junk same a b in Ok (c =? 0)) = Ok (bool_decide (string_of a = string_of b))).
  { intros x y <- <-. destruct (Z.eqb_spec (zlength (string_of a)) (zlength (string_of b))) as [E|E]; [exact Hcmp|]. cbn [negb].
    rewrite bool_decide_false; [done|]. intros Hs. by rewrite Hs in E. }
  clear Hc Hsgn. destruct Ha as [Ha _], Hb as [Hb _]. unfold equalStringObjects, string_of in *.
  destruct (value a) as [x|x|v], (value b) as [y|y|w]; try exact Hcmp; try (by apply Hlen).
  f_equal. apply eq_bool_prop_intro. rewrite !Is_true_true, bool_decide_eq_true, Z.eqb_eq. split; [by intros ->|by apply int_text_inj].
Qed.

Lemma objectLen_spec o : strobj_ok o -> stringObjectLen o = Ok (zlength (string_of o)).
Proof.
  intros [Ho _]. unfold stringObjectLen, string_of. destruct (value o) as [str|str|v]; [done..|].
  destruct (sdecimal_exists v Ho) as (t & Hd & Hs). apply (int_text_eq v t Ho) in Hd as <-. done.
Qed.

Lemma getLongLong_spec o : strobj_ok o -> exists r, getLongLongFromObject (Some o) = Ok r /\ forall v, r = Some v <-> in_s 64 v /\ int_text v = string_of o.
Proof.
  intros [Ho _]. unfold getLongLongFromObject, string_of. destruct (value o) as [str|str|v].
  1,2: destruct (string2ll_whole str) as (r & -> & Hs); exists r; split; [done|]; intros v; rewrite Hs; split; intros [Hv Ht]; (split; [done|]); by apply int_text_eq.
  eexists. split; [done|]. intros w. split; [by intros [= <-]|]. intros [Hw Ht]. f_equal. by apply int_text_inj.
Qed.

(** C29: the three encodings of a string object are interchangeable.  Encoding an object in
    less space keeps its string, and an unshared object gets the INT encoding exactly when
    the string is the canonical notation of a 64-bit integer, EMBSTR up to 44 bytes, and RAW
    only above that; decoding and duplicating keep the string, the length, the comparison,
    the test for equality and the numeric value are those of the string. *)
Theorem string_objects_correct o :
  strobj_ok o ->
  (exists o', tryObjectEncodingEx junk server o = Ok o' /\ string_of o' = string_of o /\
     (refcount o = 1 -> match value o' with
      | INT v => int_text v = string_of o
      | EMBSTR _ => zlength (string_of o) <= 44 /\ forall v, in_s 64 v -> int_text v <> string_of o
      | RAW _ => 44 < zlength (string_of o)
      end)) /\
  (exists o', getDecodedObject junk o = Ok o' /\ string_of o' = string_of o /\ sdsEncodedObject o' = true) /\
  string_of (dupStringObject o) = string_of o /\
  stringObjectLen o = Ok (zlength (string_of o)) /\
  (exists r, getLongLongFromObject (Some o) = Ok r /\ forall v, r = Some v <-> in_s 64 v /\ int_text v = string_of o) /\
  (forall (same : bool) b, strobj_ok b -> (same = true -> o = b) -> zlength (string_of o) < 2 ^ 31 -> zlength (string_of b) < 2 ^ 31 ->
     (exists c, compareStringObjects junk same o b = Ok c /\ Z.sgn c = lexcmp (string_of o) (string_of b)) /\
     equalStringObjects junk same o b = Ok (bool_decide (string_of o = string_of b))).
Proof.
  intros Ho. split_and!; [by apply tryObjectEncoding_spec|by apply getDecoded_spec| |by apply objectLen_spec|by apply getLongLong_spec|].
  - unfold dupStringObject, string_of. by destruct (value o).
  - intros same b Hb Hs Hla Hlb. split; [by apply compareObjects_spec|by apply equalObjects_spec].
Qed.
End Spec.

(** The string 123 in a RAW object becomes an integer object, and is equal to the shared one. *)
Definition demo_str : strobj := createRawStringObject [49; 50; 51].

Lemma demo_str_ok : strobj_ok demo_str.
Proof. split; [repeat constructor; lia|]. split; [simpl; lia|discriminate]. Qed.

Lemma string_objects_correct_witness :
  (exists o', tryObjectEncodingEx 0 (mkStringConfig 0 0) demo_str = Ok o' /\ string_of o' = [49; 50; 51]) /\
  equalStringObjects 0 false demo_str (shared_integer 123) = Ok true.
Proof.
  destruct (string_objects_correct 0 (mkStringConfig 0 0) demo_str demo_str_ok) as ((o' & H1 & H2 & _) & _ & _ & _ & _ & Hc). split.
  - exists o'. split; [exact H1|exact H2].
  - assert (Hb : strobj_ok (shared_integer 123)) by (split; [unfold in_s; simpl; lia|split; [vm_compute; discriminate|vm_compute; discriminate]]).
    destruct (Hc false (shared_integer 123) Hb ltac:(discriminate) ltac:(vm_compute; reflexivity) ltac:(vm_compute; reflexivity)) as [_ He].
    exact (eq_trans He eq_refl).
Defined.
