(* ===== verification/Rdb.v ===== *)
(** Persistence, the model: the encoding of lengths, integers, strings and doubles in
    src/redis-stable/src/rdb.c.

    The saving functions append to a stream, or only count when the stream is NULL, and
    return the number of bytes or -1 ([None]); the loading functions consume a stream and
    return NULL ([None]) on a short read or on corrupt data, which they also report (a
    server that is not serving RESTORE exits then).  Allocations that may fail ask
    [malloc_ok]; the hash table of the compressor is not initialised and its input has some
    address.  The memory accounting through [usable] is not modelled. *)

From Stdlib Require Import SpecFloat.
From S2P Require Import Prelude Machine UtilNum Double DoubleConv Lzf Rio StringObj.

(** * Constants of rdb.h *)

Definition RDB_6BITLEN : Z := 0.
Definition RDB_14BITLEN : Z := 1.
Definition RDB_32BITLEN : Z := 0x80.
Definition RDB_64BITLEN : Z := 0x81.
Definition RDB_ENCVAL : Z := 3.
Definition RDB_LENERR : Z := ULLONG_MAX.
Definition RDB_ENC_INT8 : Z := 0.
Definition RDB_ENC_INT16 : Z := 1.
Definition RDB_ENC_INT32 : Z := 2.
Definition RDB_ENC_LZF : Z := 3.
Definition RDB_LOAD_NONE : Z := 0.
Definition RDB_LOAD_ENC : Z := 1.
Definition RDB_LOAD_PLAIN : Z := 2.
Definition RDB_LOAD_SDS : Z := 4.
Definition RDB_LOAD_HFLD : Z := 8.
Definition RDB_LOAD_HFLD_TTL : Z := 16.

(** A number in network byte order. *)
Definition be_enc (n : nat) (v : Z) : list Z := reverse (le_enc n v).
Definition be_dec (bs : list Z) : Z := le_dec (reverse bs).

(** * Doubles in memory *)

(** The 64 bits of a double: sign, biased exponent and fraction. *)
Definition bits_of_double (x : double) : Z :=
  let join (s : bool) (e m : Z) := b2z s * 2 ^ 63 + e * 2 ^ 52 + m in
  match x with
  | S754_zero s => join s 0 0
  | S754_infinity s => join s 2047 0
  | S754_nan => join false 2047 (2 ^ 51)
  | S754_finite s m e =>
      if Zpos m <? 2 ^ 52 then join s 0 (Zpos m) else join s (e + 1075) (Zpos m - 2 ^ 52)
  end.

Definition double_of_bits (b : Z) : double :=
  let s := b / 2 ^ 63 =? 1 in
  let e := b / 2 ^ 52 mod 2048 in
  let m := b mod 2 ^ 52 in
  if e =? 2047 then (if m =? 0 then S754_infinity s else S754_nan)
  else if e =? 0 then match m with Zpos m => S754_finite s m (-1074) | _ => S754_zero s end
  else match m + 2 ^ 52 with Zpos m => S754_finite s m (e - 1075) | _ => S754_nan end.

(** What rdbGenericLoadStringObject returns: a plain string, an sds, a hash field with or
    without room for a TTL, or an object. *)
Inductive loaded := LPlain (bs : list Z) | LSds (bs : list Z) | LHfield (bs : list Z) (ttl : bool) | LObj (o : strobj).

Record rdb_config := mkRdbConfig { rdb_compression : bool; string_options : string_config }.

(** if ((n = e) == -1) return -1; ... *)
Notation "'save!' n , rdb ':=' e 'in' k" :=
  (match e with Ok (Some n, rdb) => k | Ok (None, rdb) => Ok (None, rdb) | Fault f => Fault f end)
  (at level 200, n name, rdb name, e at level 100, k at level 200, format "'save!'  n ,  rdb  ':='  e  'in' '//' k").

(** if ((v = e) == NULL) return NULL; ... *)
Notation "'load!' v , rdb ':=' e 'in' k" :=
  (match e with Ok (Some v, rdb) => k | Ok (None, rdb) => Ok (None, rdb) | Fault f => Fault f end)
  (at level 200, v name, rdb name, e at level 100, k at level 200, format "'load!'  v ,  rdb  ':='  e  'in' '//' k").

Section Rdb.
Context {D : Type} `{RioBackend D}.
Context (junk : Z) (malloc_ok : Z -> bool) (htab : list Z -> htable) (address : list Z -> Z) (server : rdb_config).
Implicit Types (rdb : option (rio D)) (r : rio D).

(** * Saving *)

Definition rdbWriteRaw rdb (p : list Z) : res (option Z * option (rio D)) :=
  match rdb with
  | Some r => let! '(ok, r) := rioWrite r p in Ok (if (ok : bool) then Some (zlength p) else None, Some r)
  | None => Ok (Some (zlength p), None)
  end.

Definition rdbSaveType rdb (type : Z) : res (option Z * option (rio D)) := rdbWriteRaw rdb [u8 type].

Definition rdbSaveMillisecondTime rdb (t : Z) : res (option Z * option (rio D)) := rdbWriteRaw rdb (le_enc 8 t).

Definition rdbSaveLen rdb (len : Z) : res (option Z * option (rio D)) :=
  if len <? Z.shiftl 1 6 then
    save! _, rdb := rdbWriteRaw rdb [u8 (Z.lor (Z.land len 0xFF) (Z.shiftl RDB_6BITLEN 6))] in
    Ok (Some 1, rdb)
  else if len <? Z.shiftl 1 14 then
    save! _, rdb := rdbWriteRaw rdb [u8 (Z.lor (Z.land (Z.shiftr len 8) 0xFF) (Z.shiftl RDB_14BITLEN 6)); u8 (Z.land len 0xFF)] in
    Ok (Some 2, rdb)
  else if len <=? UINT32_MAX then
    save! _, rdb := rdbWriteRaw rdb [RDB_32BITLEN] in
    save! _, rdb := rdbWriteRaw rdb (be_enc 4 len) in
    Ok (Some (1 + 4), rdb)
  else
    save! _, rdb := rdbWriteRaw rdb [RDB_64BITLEN] in
    save! _, rdb := rdbWriteRaw rdb (be_enc 8 len) in
    Ok (Some (1 + 8), rdb).

(** The bytes of the buffer; none when 0 is returned. *)
Definition rdbEncodeInteger (v : Z) : list Z :=
  if (v >=? - Z.shiftl 1 7) && (v <=? Z.shiftl 1 7 - 1) then
    [u8 (Z.lor (Z.shiftl RDB_ENCVAL 6) RDB_ENC_INT8); Z.land v 0xFF]
  else if (v >=? - Z.shiftl 1 15) && (v <=? Z.shiftl 1 15 - 1) then
    [u8 (Z.lor (Z.shiftl RDB_ENCVAL 6) RDB_ENC_INT16); Z.land v 0xFF; Z.land (Z.shiftr v 8) 0xFF]
  else if (v >=? - Z.shiftl 1 31) && (v <=? Z.shiftl 1 31 - 1) then
    [u8 (Z.lor (Z.shiftl RDB_ENCVAL 6) RDB_ENC_INT32); Z.land v 0xFF; Z.land (Z.shiftr v 8) 0xFF; Z.land (Z.shiftr v 16) 0xFF; Z.land (Z.shiftr v 24) 0xFF]
  else [].

Definition rdbTryIntegerEncoding (str : list Z) : res (list Z) :=
  let! v := string2ll str (zlength str) in
  Ok (match v with Some v => rdbEncodeInteger v | None => [] end).

Definition rdbSaveLzfBlob rdb (data : list Z) (original_len : Z) : res (option Z * option (rio D)) :=
  save! n1, rdb := rdbWriteRaw rdb [u8 (Z.lor (Z.shiftl RDB_ENCVAL 6) RDB_ENC_LZF)] in
  save! n2, rdb := rdbSaveLen rdb (zlength data) in
  save! n3, rdb := rdbSaveLen rdb original_len in
  save! n4, rdb := rdbWriteRaw rdb data in
  Ok (Some (n1 + n2 + n3 + n4), rdb).

(** The compressor is not told of the byte that is allocated on top of [outlen]. *)
Definition rdbSaveLzfStringObject rdb (str : list Z) : res (option Z * option (rio D)) :=
  let len := zlength str in
  if len <=? 4 then Ok (Some 0, rdb)
  else
    let outlen := len - 4 in
    let! '(comprlen, out) := lzf_compress (htab str) (address str) str len (replicate (Z.to_nat outlen) junk) outlen in
    if comprlen =? 0 then Ok (Some 0, rdb)
    else
      let! data := load 0 comprlen out in
      rdbSaveLzfBlob rdb data len.

Definition store_verbatim rdb (str : list Z) : res (option Z * option (rio D)) :=
  save! n, rdb := rdbSaveLen rdb (zlength str) in
  if zlength str >? 0 then
    save! _, rdb := rdbWriteRaw rdb str in
    Ok (Some (n + zlength str), rdb)
  else Ok (Some n, rdb).

Definition rdbSaveRawString rdb (str : list Z) : res (option Z * option (rio D)) :=
  let len := zlength str in
  let! enc := (if len <=? 11 then rdbTryIntegerEncoding str else Ok []) in
  if zlength enc >? 0 then
    save! _, rdb := rdbWriteRaw rdb enc in
    Ok (Some (zlength enc), rdb)
  else if rdb_compression server && (len >? 20) then
    save! n, rdb := rdbSaveLzfStringObject rdb str in
    if n >? 0 then Ok (Some n, rdb) else store_verbatim rdb str
  else store_verbatim rdb str.

Definition rdbSaveLongLongAsStringObject rdb (v : Z) : res (option Z * option (rio D)) :=
  let enc := rdbEncodeInteger v in
  if zlength enc >? 0 then rdbWriteRaw rdb enc
  else
    let! '(enclen, buf) := ll2string (replicate 32 junk) 32 v in
    assert! enclen <? 32 in
    save! n1, rdb := rdbSaveLen rdb enclen in
    let! str := load 0 enclen buf in
    save! n2, rdb := rdbWriteRaw rdb str in
    Ok (Some (n1 + n2), rdb).

Definition rdbSaveStringObject rdb (o : strobj) : res (option Z * option (rio D)) :=
  match value o with
  | INT v => rdbSaveLongLongAsStringObject rdb v
  | RAW str | EMBSTR str => rdbSaveRawString rdb str
  end.

Definition rdbSaveBinaryDoubleValue rdb (val : double) : res (option Z * option (rio D)) :=
  rdbWriteRaw rdb (le_enc 8 (bits_of_double val)).

(** * Loading *)

(** [None] is -1. *)
Definition rdbLoadType r : res (option Z * rio D) :=
  load! buf, r := rioRead r 1 in
  let! type := get1 0 buf in Ok (Some type, r).

Definition rdbLoadMillisecondTime r : res (Z * rio D) :=
  let! '(buf, r) := rioRead r 8 in
  Ok (match buf with Some buf => sle_dec buf | None => LLONG_MAX end, r).

(** The length and *isencoded. *)
Definition rdbLoadLenByRef r : res (option (Z * bool) * rio D) :=
  load! buf, r := rioRead r 1 in
  let! b0 := get1 0 buf in
  let type := Z.shiftr (Z.land b0 0xC0) 6 in
  if type =? RDB_ENCVAL then Ok (Some (Z.land b0 0x3F, true), r)
  else if type =? RDB_6BITLEN then Ok (Some (Z.land b0 0x3F, false), r)
  else if type =? RDB_14BITLEN then
    load! buf, r := rioRead r 1 in
    let! b1 := get1 0 buf in
    Ok (Some (Z.lor (Z.shiftl (Z.land b0 0x3F) 8) b1, false), r)
  else if b0 =? RDB_32BITLEN then
    load! buf, r := rioRead r 4 in Ok (Some (be_dec buf, false), r)
  else if b0 =? RDB_64BITLEN then
    load! buf, r := rioRead r 8 in Ok (Some (be_dec buf, false), r)
  else Ok (None, r).

Definition rdbLoadLen r : res (Z * bool * rio D) :=
  let! '(v, r) := rdbLoadLenByRef r in
  Ok (match v with Some (len, isencoded) => (len, isencoded, r) | None => (RDB_LENERR, false, r) end).

Definition has_flag (flags flag : Z) : bool := negb (Z.land flags flag =? 0).
Definition hfldFlag (flags : Z) : bool := has_flag flags (Z.lor RDB_LOAD_HFLD RDB_LOAD_HFLD_TTL).
Definition robjFlag (flags : Z) : bool := negb (has_flag flags RDB_LOAD_PLAIN || has_flag flags RDB_LOAD_SDS || hfldFlag flags).

(** The string in memory of the kind that is asked for. *)
Definition make_string (flags : Z) (bs : list Z) : loaded :=
  if has_flag flags RDB_LOAD_PLAIN then LPlain bs
  else if has_flag flags RDB_LOAD_SDS then LSds bs
  else LHfield bs (negb (has_flag flags RDB_LOAD_HFLD)).

Definition rdbLoadIntegerObject r (enctype flags : Z) : res (option loaded * rio D) :=
  load! v, r :=
    (if enctype =? RDB_ENC_INT8 then
       load! enc, r := rioRead r 1 in
       let! e0 := get1 0 enc in Ok (Some (s 8 e0), r)
     else if enctype =? RDB_ENC_INT16 then
       load! enc, r := rioRead r 2 in
       let! e0 := get1 0 enc in
       let! e1 := get1 1 enc in
       Ok (Some (s16 (u16 (Z.lor e0 (Z.shiftl e1 8)))), r)
     else if enctype =? RDB_ENC_INT32 then
       load! enc, r := rioRead r 4 in
       let! e0 := get1 0 enc in
       let! e1 := get1 1 enc in
       let! e2 := get1 2 enc in
       let! e3 := get1 3 enc in
       Ok (Some (s32 (u32 (Z.lor (Z.lor (Z.lor e0 (Z.shiftl e1 8)) (Z.shiftl e2 16)) (Z.shiftl e3 24)))), r)
     else Ok (None, r)) in
  if negb (robjFlag flags) then
    let! '(len, buf) := ll2string (replicate 21 junk) LONG_STR_SIZE v in
    let! str := load 0 len buf in
    Ok (Some (make_string flags str), r)
  else if has_flag flags RDB_LOAD_ENC then
    let! o := createStringObjectFromLongLongForValue junk (string_options server) v in Ok (Some (LObj o), r)
  else
    let! o := createStringObjectFromLongLongWithSds junk v in Ok (Some (LObj o), r).

Definition rdbLoadLzfStringObject r (flags : Z) : res (option loaded * rio D) :=
  let! '(clen, _, r) := rdbLoadLen r in
  if clen =? RDB_LENERR then Ok (None, r)
  else
    let! '(len, _, r) := rdbLoadLen r in
    if len =? RDB_LENERR then Ok (None, r)
    else if negb (malloc_ok clen) || negb (malloc_ok len) then Ok (None, r)
    else
      load! c, r := rioRead r clen in
      let! '(n, _, val) := lzf_decompress c clen (replicate (Z.to_nat len) junk) len in
      if negb (n =? len) then Ok (None, r)
      else Ok (Some (if robjFlag flags then LObj (createObject (RAW val)) else make_string flags val), r).

(** tryCreateStringObject(SDS_NOINIT, len) fails only for a string of its own allocation. *)
Definition tryCreateStringObject (len : Z) : bool := (len <=? OBJ_ENCODING_EMBSTR_SIZE_LIMIT) || malloc_ok len.

Definition read_string r (len : Z) : res (option (list Z) * rio D) :=
  if len =? 0 then Ok (Some [], r) else rioRead r len.

Definition rdbGenericLoadStringObject r (flags : Z) : res (option loaded * rio D) :=
  let! '(len, isencoded, r) := rdbLoadLen r in
  if len =? RDB_LENERR then Ok (None, r)
  else if isencoded then
    if (len =? RDB_ENC_INT8) || (len =? RDB_ENC_INT16) || (len =? RDB_ENC_INT32) then rdbLoadIntegerObject r len flags
    else if len =? RDB_ENC_LZF then rdbLoadLzfStringObject r flags
    else Ok (None, r)
  else if robjFlag flags then
    if negb (tryCreateStringObject len) then Ok (None, r)
    else
      load! str, r := read_string r len in
      Ok (Some (LObj (createStringObject str)), r)
  else if negb (malloc_ok len) then Ok (None, r)
  else
    load! str, r := read_string r len in
    Ok (Some (make_string flags str), r).

Definition rdbLoadStringObject r : res (option loaded * rio D) := rdbGenericLoadStringObject r RDB_LOAD_NONE.
Definition rdbLoadEncodedStringObject r : res (option loaded * rio D) := rdbGenericLoadStringObject r RDB_LOAD_ENC.

Definition rdbLoadBinaryDoubleValue r : res (option double * rio D) :=
  load! buf, r := rioRead r 8 in Ok (Some (double_of_bits (le_dec buf)), r).
End Rdb.
