(* ===== verification/RdbSpec.v ===== *)
(** Persistence: what the saving functions of src/redis-stable/src/rdb.c write is what the
    loading functions read back, and loading is safe on arbitrary bytes. *)

From Stdlib Require Import SpecFloat.
From S2P Require Import Prelude Machine UtilNum Double DoubleConv ListpackEnc ListpackRead SetType SetTypeSpec Lzf LzfSpec Rio StringObj Rdb.

(** * Saving and loading, as predicates *)

Section Streams.
Context {D : Type} `{BD : RioBackend D, SD : !Stream D}.
Implicit Types (rdb : option (rio D)) (r : rio D) (bs : list Z).
Notation saver := (option (rio D) -> res (option Z * option (rio D))).

(** The function writes [bs], which are bytes, and returns [n], or reports the error of the stream;
    without a stream it returns the same number. *)
Definition saves (f : saver) bs (n : Z) : Prop :=
  f None = Ok (Some n, None) /\
  (forall r, can_write r -> exists k r', f (Some r) = Ok (k, Some r') /\
    match k with Some k => k = n /\ can_write r' /\ written (io r') = written (io r) ++ bs | None => write_failed r' end) /\
  bytes_ok bs.

(** The function reads [bs], whatever follows, and returns [v]. *)
Definition loads {A} (f : rio D -> res (A * rio D)) bs (v : A) : Prop :=
  forall r rest, can_read r -> unread (io r) = bs ++ rest -> exists r', f r = Ok (v, r') /\ can_read r' /\ unread (io r') = rest.

(** The function returns on every input; only NULL leaves the stream unusable. *)
Definition readable r : Prop := can_read r /\ bytes_ok (unread (io r)).
Definition total_load {A} (f : rio D -> res (option A * rio D)) : Prop :=
  forall r, readable r -> exists v r', f r = Ok (v, r') /\ (v <> None -> readable r').

Lemma saves_raw bs : bytes_ok bs -> saves (fun rdb => rdbWriteRaw rdb bs) bs (zlength bs).
Proof.
  intros Hb. split; [done|]. split; [|done]. intros r Hr. destruct (rioWrite_spec r bs Hr) as (ok & r' & Hw & Hr'). unfold rdbWriteRaw. rewrite Hw.
  destruct ok; eexists _, _; (split; [done|]); simpl; [by destruct Hr'|done].
Qed.

Lemma saves_done n : saves (fun rdb => Ok (Some n, rdb)) [] n.
Proof. split; [done|]. split; [|constructor]. intros r Hr. eexists _, _. split; [done|]. simpl. by rewrite app_nil_r. Qed.

Lemma saves_seq (f : saver) (k : Z -> saver) bs1 n1 bs2 n :
  saves f bs1 n1 -> saves (k n1) bs2 n -> saves (fun rdb => save! m, rdb := f rdb in k m rdb) (bs1 ++ bs2) n.
Proof.
  intros (Hf0 & Hf & Hb1) (Hk0 & Hk & Hb2). split; [by rewrite Hf0|]. split; [|by apply Forall_app]. intros r Hr. destruct (Hf r Hr) as (k1 & r1 & -> & H1). destruct k1 as [k1|]; [|by eexists _, _].
  destruct H1 as (-> & Hc & Hw). destruct (Hk r1 Hc) as (k2 & r2 & -> & H2). eexists _, _. split; [done|]. destruct k2 as [k2|]; [|done].
  destruct H2 as (-> & ? & ->). by rewrite Hw, (assoc_L (++)).
Qed.

Lemma saves_ext (f g : saver) bs n : (forall rdb, g rdb = f rdb) -> saves f bs n -> saves g bs n.
Proof. intros E (H0 & Hs & Hb). split; [by rewrite E|]. split; [|done]. intros r Hr. rewrite E. by apply Hs. Qed.

Lemma loads_read bs (n : Z) : n = zlength bs -> loads (fun r => rioRead r n) bs (Some bs).
Proof.
  intros -> r rest Hr Hu. destruct (rioRead_spec r (zlength bs) Hr ltac:(lia)) as (v & r' & Hread & Hv). rewrite Hu, length_app, decide_True in Hv by lia.
  destruct Hv as (-> & Hc & Hun). exists r'. rewrite Nat2Z.id in *. rewrite take_app_length, drop_app_length in *. done.
Qed.

Lemma loads_seq {A B} (f : rio D -> res (option A * rio D)) (k : A -> rio D -> res (option B * rio D)) bs1 v bs2 w :
  loads f bs1 (Some v) -> loads (k v) bs2 w -> loads (fun r => load! x, r := f r in k x r) (bs1 ++ bs2) w.
Proof.
  intros Hf Hk r rest Hr Hu. rewrite <- (assoc_L (++)) in Hu. destruct (Hf r _ Hr Hu) as (r1 & -> & Hr1 & Hu1). apply (Hk r1 rest Hr1 Hu1).
Qed.

Lemma loads_done {A} (v : A) : loads (fun r => Ok (v, r)) [] v.
Proof. intros r rest Hr Hu. by exists r. Qed.

Lemma loads_last {A B} (f : rio D -> res (option A * rio D)) (k : A -> rio D -> res (option B * rio D)) bs v w :
  loads f bs (Some v) -> (forall r, k v r = Ok (w, r)) -> loads (fun r => load! x, r := f r in k x r) bs w.
Proof. intros Hf Hk r rest Hr Hu. destruct (Hf r rest Hr Hu) as (r1 & -> & Hr1 & Hu1). exists r1. by rewrite Hk. Qed.

Lemma total_read (n : Z) : 0 <= n -> total_load (fun r => rioRead r n).
Proof.
  intros Hn r [Hr Hb]. destruct (rioRead_spec r n Hr Hn) as (v & r' & Hread & Hv). exists v, r'. split; [done|]. destruct (decide _).
  - destruct Hv as (-> & Hc & Hun). intros _. split; [done|]. rewrite Hun. by apply Forall_drop.
  - destruct Hv as [-> _]. done.
Qed.

(** What a successful read returns. *)
Lemma read_result r n bs r' : readable r -> 0 <= n -> rioRead r n = Ok (Some bs, r') -> zlength bs = n /\ bytes_ok bs /\ readable r'.
Proof.
  intros [Hr Hb] Hn Hread. destruct (rioRead_spec r n Hr Hn) as (v & r1 & Hread' & Hv). rewrite Hread in Hread'. injection Hread' as <- <-.
  destruct (decide _) as [Hd|]; [|by destruct Hv]. destruct Hv as ([= ->] & Hc & Hun). split; [rewrite length_take; lia|]. split; [by apply Forall_take|].
  split; [done|]. rewrite Hun. by apply Forall_drop.
Qed.
End Streams.

(** * Numbers *)

Lemma be_dec_enc n v : be_dec (be_enc n v) = v mod 2 ^ (8 * Z.of_nat n).
Proof. unfold be_dec, be_enc. rewrite reverse_involutive. apply le_dec_enc. Qed.

Lemma be_enc_bytes n v : bytes_ok (be_enc n v).
Proof. apply Forall_reverse, le_enc_bytes. Qed.

Lemma length_be_enc n v : length (be_enc n v) = n.
Proof. unfold be_enc. by rewrite length_reverse, length_le_enc. Qed.

Lemma le_enc_land2 v : [Z.land v 0xFF; Z.land (Z.shiftr v 8) 0xFF] = le_enc 2 v.
Proof. change 0xFF with (Z.ones 8). rewrite !Z.land_ones, Z.shiftr_div_pow2 by lia. reflexivity. Qed.

Lemma le_enc_land4 v : [Z.land v 0xFF; Z.land (Z.shiftr v 8) 0xFF; Z.land (Z.shiftr v 16) 0xFF; Z.land (Z.shiftr v 24) 0xFF] = le_enc 4 v.
Proof.
  change 0xFF with (Z.ones 8). rewrite !Z.land_ones, !Z.shiftr_div_pow2 by lia. cbn [le_enc]. rewrite !Z.div_div by lia. reflexivity.
Qed.

Lemma le_dec_lor2 e0 e1 : 0 <= e0 < 256 -> Z.lor e0 (Z.shiftl e1 8) = le_dec [e0; e1].
Proof. intros H0. rewrite lor_shl_add by (simpl; lia). simpl. lia. Qed.

Lemma le_dec_lor4 e0 e1 e2 e3 : 0 <= e0 < 256 -> 0 <= e1 < 256 -> 0 <= e2 < 256 ->
  Z.lor (Z.lor (Z.lor e0 (Z.shiftl e1 8)) (Z.shiftl e2 16)) (Z.shiftl e3 24) = le_dec [e0; e1; e2; e3].
Proof.
  intros H0 H1 H2. rewrite (lor_shl_add e0 e1 8) by (pow_const; lia). rewrite (lor_shl_add _ e2 16) by (pow_const; lia).
  rewrite (lor_shl_add _ e3 24) by (pow_const; lia). cbn [le_dec]. pow_const. lia.
Qed.

(** The bytes of a length. *)
Definition len_bytes (len : Z) : list Z :=
  if len <? 64 then [len] else if len <? 16384 then [64 + len / 256; len mod 256]
  else if len <=? UINT32_MAX then 0x80 :: be_enc 4 len else 0x81 :: be_enc 8 len.

Lemma byte6 len : 0 <= len < 64 -> u8 (Z.lor (Z.land len 0xFF) (Z.shiftl RDB_6BITLEN 6)) = len.
Proof.
  intros Hl. pose proof (byte_check (fun b => negb (b <? 64) || (u8 (Z.lor (Z.land b 0xFF) (Z.shiftl RDB_6BITLEN 6)) =? b)) len eq_refl ltac:(lia)) as E.
  cbn beta in E. rewrite (proj2 (Z.ltb_lt _ _)) in E by lia. by apply Z.eqb_eq in E.
Qed.

Lemma byte14 h : 0 <= h < 64 -> u8 (Z.lor (Z.land h 0xFF) (Z.shiftl RDB_14BITLEN 6)) = 64 + h.
Proof.
  intros Hl. pose proof (byte_check (fun b => negb (b <? 64) || (u8 (Z.lor (Z.land b 0xFF) (Z.shiftl RDB_14BITLEN 6)) =? 64 + b)) h eq_refl ltac:(lia)) as E.
  cbn beta in E. rewrite (proj2 (Z.ltb_lt _ _)) in E by lia. by apply Z.eqb_eq in E.
Qed.

(** The type and the low bits of the first byte. *)
Lemma first_byte b : 0 <= b < 256 -> Z.shiftr (Z.land b 0xC0) 6 = b / 64 /\ Z.land b 0x3F = b mod 64.
Proof.
  intros Hb. pose proof (byte_check (fun b => (Z.shiftr (Z.land b 0xC0) 6 =? b / 64) && (Z.land b 0x3F =? b mod 64)) b eq_refl Hb) as E.
  apply andb_true_iff in E as [E1%Z.eqb_eq E2%Z.eqb_eq]. done.
Qed.

Section Spec.
Context {D : Type} `{BD : RioBackend D, SD : !Stream D}.
Context (junk : Z) (malloc_ok : Z -> bool) (htab : list Z -> htable) (address : list Z -> Z) (server : rdb_config).
Implicit Types (rdb : option (rio D)) (r : rio D) (bs : list Z).

(** ** Lengths *)

Lemma saveLen_spec len : 0 <= len -> saves (fun rdb => rdbSaveLen rdb len) (len_bytes len) (zlength (len_bytes len)).
Proof.
  intros Hl. unfold rdbSaveLen, len_bytes. change (Z.shiftl 1 6) with 64. change (Z.shiftl 1 14) with 16384.
  destruct (Z.ltb_spec len 64) as [H6|H6].
  { rewrite byte6 by lia. apply (saves_seq _ (fun _ rdb => Ok (Some 1, rdb)) [len] 1 []); [apply saves_raw; repeat constructor; lia|apply saves_done]. }
  destruct (Z.ltb_spec len 16384) as [H14|H14].
  { rewrite Z.shiftr_div_pow2 by lia. pow_const. pose proof (Z.div_lt_upper_bound len 256 64 ltac:(lia) ltac:(lia)). pose proof (Z.div_pos len 256 ltac:(lia) ltac:(lia)).
    rewrite byte14 by lia. change 0xFF with (Z.ones 8). rewrite Z.land_ones by lia. pow_const. rewrite u_id by (pow_const; apply Z.mod_pos_bound; lia).
    apply (saves_seq _ (fun _ rdb => Ok (Some 2, rdb)) [64 + len / 256; len mod 256] 2 []); [apply saves_raw; pose proof (Z.mod_pos_bound len 256); by repeat (constructor; [lia|])|apply saves_done]. }
  destruct (Z.leb_spec len UINT32_MAX) as [H32|H32].
  - cbn [length]. rewrite length_be_enc.
    apply (saves_seq _ (fun _ rdb => save! _, rdb := rdbWriteRaw rdb (be_enc 4 len) in Ok (Some (1 + 4), rdb)) [_] 1); [apply saves_raw; by repeat constructor|].
    rewrite <- (app_nil_r (be_enc 4 len)). apply (saves_seq _ (fun _ rdb => Ok (Some (1 + 4), rdb)) _ 4 []); [|apply saves_done].
    rewrite app_nil_r. pose proof (saves_raw (be_enc 4 len) (be_enc_bytes _ _)) as Hs. rewrite length_be_enc in Hs. exact Hs.
  - cbn [length]. rewrite length_be_enc.
    apply (saves_seq _ (fun _ rdb => save! _, rdb := rdbWriteRaw rdb (be_enc 8 len) in Ok (Some (1 + 8), rdb)) [_] 1); [apply saves_raw; by repeat constructor|].
    rewrite <- (app_nil_r (be_enc 8 len)). apply (saves_seq _ (fun _ rdb => Ok (Some (1 + 8), rdb)) _ 8 []); [|apply saves_done].
    rewrite app_nil_r. pose proof (saves_raw (be_enc 8 len) (be_enc_bytes _ _)) as Hs. rewrite length_be_enc in Hs. exact Hs.
Qed.

(** Reading the first byte decides what follows. *)
Definition len_rest (b0 : Z) : rio D -> res (option (Z * bool) * rio D) := fun r =>
  if b0 / 64 =? 3 then Ok (Some (b0 mod 64, true), r)
  else if b0 / 64 =? 0 then Ok (Some (b0 mod 64, false), r)
  else if b0 / 64 =? 1 then
    load! buf, r := rioRead r 1 in
    let! b1 := get1 0 buf in
    Ok (Some (Z.lor (Z.shiftl (b0 mod 64) 8) b1, false), r)
  else if b0 =? RDB_32BITLEN then load! buf, r := rioRead r 4 in Ok (Some (be_dec buf, false), r)
  else if b0 =? RDB_64BITLEN then load! buf, r := rioRead r 8 in Ok (Some (be_dec buf, false), r)
  else Ok (None, r).

Lemma loadLen_first b0 bs v : 0 <= b0 < 256 -> loads (len_rest b0) bs v -> loads rdbLoadLenByRef (b0 :: bs) v.
Proof.
  intros Hb Hl r rest Hr Hu. destruct (loads_read [b0] 1 eq_refl r (bs ++ rest) Hr Hu) as (r1 & Hread & Hr1 & Hu1). unfold rdbLoadLenByRef.
  rewrite Hread. cbn [get1 Z.leb Z.compare lookup]. destruct (first_byte b0 Hb) as [E1 E2].
  change (get1 0 [b0]) with (Ok b0). cbn iota beta. rewrite E1, E2. apply (Hl r1 rest Hr1 Hu1).
Qed.

Lemma lenByRef_spec len : 0 <= len < 2 ^ 64 -> loads rdbLoadLenByRef (len_bytes len) (Some (len, false)).
Proof.
  intros Hl. unfold len_bytes. destruct (Z.ltb_spec len 64) as [H6|H6].
  { apply loadLen_first; [lia|]. unfold len_rest. rewrite Z.div_small, Z.mod_small by lia. apply loads_done. }
  pose proof (Z.mod_pos_bound len 256 ltac:(lia)) as Hm. pose proof (Z.div_mod len 256 ltac:(lia)) as Hdm.
  destruct (Z.ltb_spec len 16384) as [H14|H14].
  { assert (0 <= len / 256 < 64) as Hd by (split; [apply Z.div_pos; lia|apply Z.div_lt_upper_bound; lia]).
    apply loadLen_first; [lia|]. unfold len_rest. replace ((64 + len / 256) / 64) with 1 by (apply (Z.div_unique _ _ _ (len / 256)); lia).
    replace ((64 + len / 256) mod 64) with (len / 256) by (apply (Z.mod_unique _ _ 1); lia). cbn [Z.eqb Pos.eqb].
    apply (loads_seq _ (fun buf r => let! b1 := get1 0 buf in Ok (Some (Z.lor (Z.shiftl (len / 256) 8) b1, false), r)) [len mod 256] [len mod 256] []); [by apply loads_read|].
    change (get1 0 [len mod 256]) with (Ok (len mod 256)). cbn iota beta. rewrite Z.lor_comm, lor_shl_add by (pow_const; lia). pow_const.
    replace (len mod 256 + len / 256 * 256) with len by lia. apply loads_done. }
  unfold UINT32_MAX. pow_const. destruct (Z.leb_spec len 4294967295) as [H32|H32]; (apply loadLen_first; [lia|]); unfold len_rest; cbn [Z.div Z.eqb Pos.eqb].
  - change (128 / 64 =? 3) with false. change (128 / 64 =? 0) with false. change (128 / 64 =? 1) with false. change (128 =? RDB_32BITLEN) with true. cbn iota.
    rewrite <- (app_nil_r (be_enc 4 len)).
    apply (loads_seq _ (fun buf r => Ok (Some (be_dec buf, false), r)) (be_enc 4 len) (be_enc 4 len) []); [apply loads_read; by rewrite length_be_enc|].
    rewrite be_dec_enc, Z.mod_small by (pow_const; lia). apply loads_done.
  - change (129 / 64 =? 3) with false. change (129 / 64 =? 0) with false. change (129 / 64 =? 1) with false. change (129 =? RDB_32BITLEN) with false. change (129 =? RDB_64BITLEN) with true. cbn iota.
    rewrite <- (app_nil_r (be_enc 8 len)).
    apply (loads_seq _ (fun buf r => Ok (Some (be_dec buf, false), r)) (be_enc 8 len) (be_enc 8 len) []); [apply loads_read; by rewrite length_be_enc|].
    rewrite be_dec_enc, Z.mod_small by (pow_const; lia). apply loads_done.
Qed.

(** The length, with the flag. *)
Definition load_len (r : rio D) : res ((Z * bool) * rio D) := let! '(len, e, r) := rdbLoadLen r in Ok ((len, e), r).

Lemma loadLen_spec len : 0 <= len < 2 ^ 64 -> loads load_len (len_bytes len) (len, false).
Proof.
  intros Hl r rest Hr Hu. destruct (lenByRef_spec len Hl r rest Hr Hu) as (r' & Hf & Hr' & Hu'). exists r'. unfold load_len, rdbLoadLen. rewrite Hf. done.
Qed.

Lemma loadLen_encoded (t : Z) : 0 <= t < 64 -> loads load_len [192 + t] (t, true).
Proof.
  intros Ht r rest Hr Hu.
  assert (loads rdbLoadLenByRef [192 + t] (Some (t, true))) as Hl.
  { apply loadLen_first; [lia|]. unfold len_rest. replace ((192 + t) / 64) with 3 by (apply (Z.div_unique _ _ _ t); lia).
    replace ((192 + t) mod 64) with t by (apply (Z.mod_unique _ _ 3); lia). apply loads_done. }
  destruct (Hl r rest Hr Hu) as (r' & Hf & Hr' & Hu'). exists r'. unfold load_len, rdbLoadLen. by rewrite Hf.
Qed.

Lemma loads_then {A} (k : Z -> bool -> rio D -> res (A * rio D)) bs1 len e bs2 v :
  loads load_len bs1 (len, e) -> loads (k len e) bs2 v -> loads (fun r => let! '(len, e, r) := rdbLoadLen r in k len e r) (bs1 ++ bs2) v.
Proof.
  intros Hl Hk r rest Hr Hu. rewrite <- (assoc_L (++)) in Hu. destruct (Hl r _ Hr Hu) as (r1 & Hf & Hr1 & Hu1). unfold load_len in Hf.
  destruct (rdbLoadLen r) as [[[len' e'] r']|]; [|done]. injection Hf as -> -> ->. apply (Hk r1 rest Hr1 Hu1).
Qed.

(** ** Integers *)

(** The code, the width in bytes of an integer encoding. *)
Inductive int_code : Z -> nat -> Prop :=
| code8 : int_code RDB_ENC_INT8 1
| code16 : int_code RDB_ENC_INT16 2
| code32 : int_code RDB_ENC_INT32 4.

Lemma integer_code_bytes t n v : int_code t n -> bytes_ok ((192 + t) :: le_enc n v).
Proof. intros Hc. constructor; [by destruct Hc|apply le_enc_bytes]. Qed.

Lemma encodeInteger_spec v :
  (rdbEncodeInteger v = [] /\ ~ (- 2 ^ 31 <= v < 2 ^ 31)) \/
  exists t n, int_code t n /\ rdbEncodeInteger v = (192 + t) :: le_enc n v /\ in_s (8 * Z.of_nat n) v.
Proof.
  unfold rdbEncodeInteger, in_s.
  match goal with |- context [if ?b then _ else _] => destruct b eqn:E8 end; [right; exists RDB_ENC_INT8, 1%nat; split; [constructor|]|].
  { split; [|change (Z.shiftl 1 7) with 128 in E8; pow_const; lia]. change 0xFF with (Z.ones 8). rewrite Z.land_ones by lia. reflexivity. }
  match goal with |- context [if ?b then _ else _] => destruct b eqn:E16 end; [right; exists RDB_ENC_INT16, 2%nat; split; [constructor|]|].
  { split; [|change (Z.shiftl 1 15) with 32768 in E16; pow_const; lia]. rewrite <- le_enc_land2. reflexivity. }
  match goal with |- context [if ?b then _ else _] => destruct b eqn:E32 end; [right; exists RDB_ENC_INT32, 4%nat; split; [constructor|]|].
  { split; [|change (Z.shiftl 1 31) with 2147483648 in E32; pow_const; lia]. rewrite <- le_enc_land4. reflexivity. }
  left. split; [done|]. change (Z.shiftl 1 31) with 2147483648 in E32. pow_const. lia.
Qed.

(** What loading the string [str] gives. *)
Definition string_loaded (flags : Z) (str : list Z) (w : loaded) : Prop :=
  if robjFlag flags then exists o, w = LObj o /\ string_of o = str /\ strobj_ok o else w = make_string flags str.

Lemma integerObject_finish flags v : in_s 64 v ->
  exists w, string_loaded flags (int_text v) w /\ forall r,
    (if negb (robjFlag flags) then
      let! '(len, buf) := ll2string (replicate 21 junk) LONG_STR_SIZE v in
      let! str := load 0 len buf in
      Ok (Some (make_string flags str), r)
    else if has_flag flags RDB_LOAD_ENC then
      let! o := createStringObjectFromLongLongForValue junk (string_options server) v in Ok (Some (LObj o), r)
    else let! o := createStringObjectFromLongLongWithSds junk v in Ok (Some (LObj o), r)) = Ok (Some w, r).
Proof.
  intros Hv. unfold string_loaded. destruct (robjFlag flags); cbn [negb].
  - destruct (has_flag flags RDB_LOAD_ENC).
    + destruct (forValue_ok junk (string_options server) v Hv) as (o & -> & Ho & Hs). exists (LObj o). split; [by exists o|done].
    + destruct (withSds_ok junk v Hv) as (o & -> & Ho & Hs). exists (LObj o). split; [by exists o|done].
  - destruct (int_buf junk 21 v Hv ltac:(lia)) as (rest & Hb). change (Z.to_nat 21) with 21%nat in Hb. unfold LONG_STR_SIZE. rewrite Hb.
    rewrite (load_app [] (int_text v) (0 :: rest)) by done. eexists. split; [reflexivity|done].
Qed.

Lemma loadInteger_spec t n v flags : int_code t n -> in_s (8 * Z.of_nat n) v ->
  exists w, string_loaded flags (int_text v) w /\ loads (fun r => rdbLoadIntegerObject junk server r t flags) (le_enc n v) (Some w).
Proof.
  intros Hc Hv. assert (in_s 64 v) as Hv64 by (destruct Hc; unfold in_s in *; pow_const; simpl in Hv; pow_const; lia).
  destruct (integerObject_finish flags v Hv64) as (w & Hw & Hfin). exists w. split; [done|].
  pose proof (le_enc_bytes n v) as Hb. pose proof (sle_dec_enc n v ltac:(destruct Hc; lia) Hv) as Hdec. unfold sle_dec in Hdec. rewrite length_le_enc in Hdec.
  intros r rest Hr Hu. unfold rdbLoadIntegerObject.
  destruct (loads_read (le_enc n v) (Z.of_nat n) ltac:(by rewrite length_le_enc) r rest Hr Hu) as (r1 & Hread & Hr1 & Hu1). exists r1. split; [|done].
  destruct Hc; cbn [RDB_ENC_INT8 RDB_ENC_INT16 RDB_ENC_INT32 Z.eqb Pos.eqb] in *.
  - change (Z.of_nat 1) with 1 in Hread. rewrite Hread. cbn [le_enc]. rewrite get1_0. cbn iota beta.
    change (s 8 (v mod 256)) with (s (8 * Z.of_nat 1) (v mod 256)). cbn [le_enc le_dec] in Hdec. rewrite Z.mul_0_r, Z.add_0_r in Hdec. rewrite Hdec. apply Hfin.
  - change (RDB_ENC_INT16 =? RDB_ENC_INT8) with false. change (RDB_ENC_INT16 =? RDB_ENC_INT16) with true. cbn iota. change (Z.of_nat 2) with 2 in Hread. rewrite Hread.
    cbn [le_enc] in *. apply Forall_cons_1 in Hb as [B0 [B1 _]%Forall_cons_1]. rewrite get1_0, get1_1. cbn iota beta. rewrite le_dec_lor2 by done.
    assert (u16 (le_dec [v mod 256; v / 256 mod 256]) = le_dec [v mod 256; v / 256 mod 256]) as -> by (apply u_id; cbn [le_dec]; pow_const; lia).
    change (8 * Z.of_nat 2) with 16 in Hdec. rewrite Hdec. apply Hfin.
  - change (RDB_ENC_INT32 =? RDB_ENC_INT8) with false. change (RDB_ENC_INT32 =? RDB_ENC_INT16) with false. change (RDB_ENC_INT32 =? RDB_ENC_INT32) with true. cbn iota.
    change (Z.of_nat 4) with 4 in Hread. rewrite Hread. cbn [le_enc] in *.
    apply Forall_cons_1 in Hb as [B0 [B1 [B2 [B3 _]%Forall_cons_1]%Forall_cons_1]%Forall_cons_1]. rewrite get1_0, get1_1.
    set (e0 := v mod 256) in *. set (e1 := v / 256 mod 256) in *. set (e2 := v / 256 / 256 mod 256) in *. set (e3 := v / 256 / 256 / 256 mod 256) in *.
    change (get1 2 [e0; e1; e2; e3]) with (Ok e2). change (get1 3 [e0; e1; e2; e3]) with (Ok e3). cbn iota beta. rewrite le_dec_lor4 by done.
    assert (u32 (le_dec [e0; e1; e2; e3]) = le_dec [e0; e1; e2; e3]) as -> by (apply u_id; cbn [le_dec]; pow_const; lia).
    change (8 * Z.of_nat 4) with 32 in Hdec. rewrite Hdec. apply Hfin.
Qed.

(** ** Strings *)

Notation loadString flags := (fun r => rdbGenericLoadStringObject junk malloc_ok server r flags).
Notation saveRawString str := (fun rdb => rdbSaveRawString junk htab address server rdb str).

(** The bytes of a saved string: they load as the string, with every flag. *)
Definition string_bytes (str bs : list Z) : Prop :=
  forall flags, exists w, string_loaded flags str w /\ loads (loadString flags) bs (Some w).

Lemma integer_bytes v t n : int_code t n -> in_s (8 * Z.of_nat n) v -> string_bytes (int_text v) ((192 + t) :: le_enc n v).
Proof.
  intros Hc Hv flags. destruct (loadInteger_spec t n v flags Hc Hv) as (w & Hw & Hl). exists w. split; [done|].
  apply (loads_then (fun len e r => _) [192 + t] t true (le_enc n v)); [apply loadLen_encoded; destruct Hc; vm_compute; split; congruence|].
  destruct Hc; exact Hl.
Qed.

Lemma read_string_spec str : loads (fun r => read_string r (zlength str)) str (Some str).
Proof.
  unfold read_string. destruct (Z.eqb_spec (zlength str) 0) as [E|E]; [|by apply loads_read]. destruct str; [|simpl in E; lia]. apply loads_done.
Qed.

Lemma verbatim_bytes str : bytes_ok str -> zlength str < 2 ^ 63 -> malloc_ok (zlength str) = true -> string_bytes str (len_bytes (zlength str) ++ str).
Proof.
  intros Hb Hl Hm flags. unfold string_loaded.
  assert (Hk : exists w, string_loaded flags str w /\ loads (fun r =>
    if zlength str =? RDB_LENERR then Ok (None, r)
    else if robjFlag flags then
      if negb (tryCreateStringObject malloc_ok (zlength str)) then Ok (None, r)
      else load! str, r := read_string r (zlength str) in Ok (Some (LObj (createStringObject str)), r)
    else if negb (malloc_ok (zlength str)) then Ok (None, r)
    else load! str, r := read_string r (zlength str) in Ok (Some (make_string flags str), r)) str (Some w)).
  { rewrite (proj2 (Z.eqb_neq _ _)) by (unfold RDB_LENERR, ULLONG_MAX; pow_const; lia). unfold string_loaded, tryCreateStringObject. rewrite Hm, orb_true_r. cbn [negb].
    destruct (robjFlag flags).
    - exists (LObj (createStringObject str)). split; [exists (createStringObject str); split_and!; [done|apply createString_of|by apply createString_ok]|].
      apply (loads_last _ (fun str r => Ok (Some (LObj (createStringObject str)), r)) str str); [apply read_string_spec|done].
    - exists (make_string flags str). split; [done|].
      apply (loads_last _ (fun str r => Ok (Some (make_string flags str), r)) str str); [apply read_string_spec|done]. }
  destruct Hk as (w & Hw & Hk). exists w. split; [done|].
  apply (loads_then (fun len e r => _) (len_bytes (zlength str)) (zlength str) false str); [apply loadLen_spec; pow_const; lia|exact Hk].
Qed.

(** A compressed stream for the string. *)
Lemma lzf_bytes str E : bytes_ok str -> zlength str < 2 ^ 63 -> decodes E str -> zlength E < 2 ^ 63 ->
  malloc_ok (zlength E) = true -> malloc_ok (zlength str) = true ->
  string_bytes str ([195] ++ len_bytes (zlength E) ++ len_bytes (zlength str) ++ E).
Proof.
  intros Hb Hl Hd HlE HmE Hm flags. set (w := if robjFlag flags then LObj (createObject (RAW str)) else make_string flags str).
  exists w. split.
  { unfold string_loaded, w. destruct (robjFlag flags); [|done]. eexists. split; [done|]. split; [done|]. by split. }
  apply (loads_then (fun len e r => _) [195] 3 true); [by apply (loadLen_encoded 3)|].
  change (3 =? RDB_LENERR) with false. cbn [RDB_ENC_INT8 RDB_ENC_INT16 RDB_ENC_INT32 RDB_ENC_LZF Z.eqb Pos.eqb orb]. unfold rdbLoadLzfStringObject.
  apply (loads_then (fun clen _ r => _) (len_bytes (zlength E)) (zlength E) false); [apply loadLen_spec; pow_const; lia|].
  rewrite (proj2 (Z.eqb_neq (zlength E) _)) by (unfold RDB_LENERR, ULLONG_MAX; pow_const; lia).
  apply (loads_then (fun len _ r => _) (len_bytes (zlength str)) (zlength str) false); [apply loadLen_spec; pow_const; lia|].
  rewrite (proj2 (Z.eqb_neq (zlength str) _)) by (unfold RDB_LENERR, ULLONG_MAX; pow_const; lia). rewrite HmE, Hm. cbn [negb orb].
  apply (loads_last _ (fun c r => let! '(n, _, val) := lzf_decompress c (zlength E) (replicate (Z.to_nat (zlength str)) junk) (zlength str) in
    if negb (n =? zlength str) then Ok (None, r) else Ok (Some (if robjFlag flags then LObj (createObject (RAW val)) else make_string flags val), r)) E E);
    [by apply loads_read|].
  rewrite Nat2Z.id. pose proof (decodes_decompress E str [] (replicate (length str) junk) Hd) as Hdec. rewrite length_replicate, app_nil_r in Hdec.
  rewrite Hdec by lia. rewrite Z.eqb_refl, drop_ge, app_nil_r by (by rewrite length_replicate). done.
Qed.

Lemma saves_last (f : option (rio D) -> res (option Z * option (rio D))) (g : Z -> Z) bs n :
  saves f bs n -> saves (fun rdb => save! m, rdb := f rdb in Ok (Some (g m), rdb)) bs (g n).
Proof. intros Hf. rewrite <- (app_nil_r bs). apply (saves_seq _ (fun m rdb => Ok (Some (g m), rdb)) bs n []); [done|apply saves_done]. Qed.

Lemma saveBlob_spec data (olen : Z) : bytes_ok data -> 0 <= olen ->
  saves (fun rdb => rdbSaveLzfBlob rdb data olen) ([195] ++ len_bytes (zlength data) ++ len_bytes olen ++ data)
    (zlength ([195] ++ len_bytes (zlength data) ++ len_bytes olen ++ data)).
Proof.
  intros Hb Ho. rewrite !length_app, !Nat2Z.inj_add, !Z.add_assoc. unfold rdbSaveLzfBlob.
  apply (saves_seq _ (fun n1 rdb => _) [195] 1); [apply saves_raw; by repeat constructor|].
  apply (saves_seq _ (fun n2 rdb => _) (len_bytes (zlength data)) (zlength (len_bytes (zlength data)))); [apply saveLen_spec; lia|].
  apply (saves_seq _ (fun n3 rdb => _) (len_bytes olen) (zlength (len_bytes olen))); [by apply saveLen_spec|].
  apply (saves_last _ (fun n4 => 1 + zlength (len_bytes (zlength data)) + zlength (len_bytes olen) + n4) data (zlength data)), saves_raw, Hb.
Qed.

Lemma verbatim_saves str : bytes_ok str -> saves (fun rdb => store_verbatim rdb str) (len_bytes (zlength str) ++ str) (zlength (len_bytes (zlength str) ++ str)).
Proof.
  intros Hb. rewrite length_app, Nat2Z.inj_add. unfold store_verbatim. apply (saves_seq _ (fun n rdb => _) _ (zlength (len_bytes (zlength str)))); [apply saveLen_spec; lia|].
  destruct (Z.gtb_spec (zlength str) 0) as [Hp|Hp]; [by apply (saves_last _ (fun _ => _) str (zlength str)), saves_raw, Hb|]. destruct str; [|simpl in Hp; lia]. rewrite Z.add_0_r. apply saves_done.
Qed.

(** What the compressor and the allocator must be given. *)
Definition lzf_env_ok (str : list Z) : Prop :=
  8192 <= address str /\ address str + zlength str < 2 ^ 64 /\ forall i, 0 <= htab str i < 2 ^ 64.
Definition malloc_up_to (n : Z) : Prop := forall k, k <= n -> malloc_ok k = true.

Lemma saveRaw_spec str : bytes_ok str -> zlength str < 2 ^ 63 -> lzf_env_ok str -> malloc_up_to (zlength str) ->
  exists bs, saves (saveRawString str) bs (zlength bs) /\ string_bytes str bs /\ 0 < zlength bs.
Proof.
  intros Hb Hl (Hbase & Hend & Htab) Hm. unfold rdbSaveRawString.
  assert (Hplain : exists bs, saves (fun rdb => store_verbatim rdb str) bs (zlength bs) /\ string_bytes str bs /\ 0 < zlength bs).
  { eexists. split; [by apply verbatim_saves|]. split; [apply verbatim_bytes; [done..|apply Hm; lia]|]. rewrite length_app.
    assert (0 < length (len_bytes (zlength str)))%nat; [|lia]. unfold len_bytes. repeat case_match; simpl; lia. }
  assert (Henc : exists enc, (if zlength str <=? 11 then rdbTryIntegerEncoding str else Ok []) = Ok enc /\
    (enc = [] \/ exists v t n, int_text v = str /\ int_code t n /\ in_s (8 * Z.of_nat n) v /\ enc = (192 + t) :: le_enc n v)).
  { destruct (zlength str <=? 11); [|exists []; split; [done|by left]]. unfold rdbTryIntegerEncoding.
    destruct (string2ll_whole str) as (rv & -> & Hs). destruct rv as [v|]; [|exists []; split; [done|by left]].
    destruct (proj1 (Hs v) eq_refl) as [Hv Ht]. apply (int_text_eq v str Hv) in Ht.
    destruct (encodeInteger_spec v) as [[-> _]|(t & n & Hc & -> & Hin)]; [exists []; split; [done|by left]|].
    eexists. split; [done|]. right. by exists v, t, n. }
  destruct Henc as (enc & -> & [->|(v & t & n & Ht & Hc & Hin & ->)]); cbn [length].
  2: { exists ((192 + t) :: le_enc n v). rewrite (proj2 (Z.gtb_lt _ _)) by lia. split; [apply (saves_last _ (fun _ => _) _ (zlength ((192 + t) :: le_enc n v))), saves_raw; by apply integer_code_bytes|]. split; [rewrite <- Ht; by apply integer_bytes|simpl; lia]. }
  change (Z.of_nat 0 >? 0) with false. cbn iota. destruct (rdb_compression server && _) eqn:Ecmp; [|exact Hplain].
  apply andb_true_iff in Ecmp as [_ Hgt%Z.gtb_lt]. unfold rdbSaveLzfStringObject. rewrite (proj2 (Z.leb_gt _ _)) by lia.
  destruct (compress_decodes (htab str) (address str) str (replicate (Z.to_nat (zlength str - 4)) junk) Hb ltac:(lia) ltac:(rewrite length_replicate; lia) Hbase Hend Htab)
    as (k & out & Hcomp & _ & Hres). rewrite length_replicate, Z2Nat.id in Hcomp by lia. rewrite Hcomp. destruct Hres as [[-> _]|[Hk (E & R & -> & -> & Hd)]].
  { cbn [Z.eqb]. destruct Hplain as (bs & Hs & Hsb). exists bs. split; [|done]. exact Hs. }
  rewrite length_replicate in Hk. rewrite (proj2 (Z.eqb_neq _ _)) by lia. rewrite (load_app [] E R) by done.
  set (bs := [195] ++ len_bytes (zlength E) ++ len_bytes (zlength str) ++ E). exists bs. split.
  - rewrite <- (app_nil_r bs) at 1. apply (saves_seq _ (fun n rdb => if n >? 0 then Ok (Some n, rdb) else store_verbatim rdb str) bs (zlength bs) []); [apply saveBlob_spec; [by eapply decodes_bytes|lia]|].
    rewrite (proj2 (Z.gtb_lt _ _)) by (simpl; lia). apply saves_done.
  - split; [|simpl; lia]. apply lzf_bytes; [done|done|done|lia|apply Hm; lia|apply Hm; lia].
Qed.

(** ** String objects *)

Lemma saveLongLong_spec v : in_s 64 v -> malloc_up_to 20 ->
  exists bs, saves (fun rdb => rdbSaveLongLongAsStringObject junk rdb v) bs (zlength bs) /\ string_bytes (int_text v) bs /\ 0 < zlength bs.
Proof.
  intros Hv Hm. unfold rdbSaveLongLongAsStringObject. destruct (encodeInteger_spec v) as [[-> _]|(t & n & Hc & -> & Hin)]; cbn [length].
  - change (Z.of_nat 0 >? 0) with false. cbn iota. destruct (int_buf junk 32 v Hv ltac:(lia)) as (rest & Hb). change (Z.to_nat 32) with 32%nat in Hb. rewrite Hb.
    pose proof (int_text_length v Hv) as Hlen. rewrite (proj2 (Z.ltb_lt _ _)) by lia. rewrite (load_app [] (int_text v) (0 :: rest)) by done.
    exists (len_bytes (zlength (int_text v)) ++ int_text v). split; [|split].
    + rewrite length_app, Nat2Z.inj_add. apply (saves_seq _ (fun n1 rdb => _) _ (zlength (len_bytes (zlength (int_text v))))); [apply saveLen_spec; lia|].
      apply (saves_last _ (fun n2 => zlength (len_bytes (zlength (int_text v))) + n2) _ (zlength (int_text v))), saves_raw, int_text_bytes, Hv.
    + apply verbatim_bytes; [by apply int_text_bytes|pow_const; lia|apply Hm; lia].
    + rewrite length_app. unfold len_bytes. rewrite (proj2 (Z.ltb_lt _ _)) by lia. simpl. lia.
  - rewrite (proj2 (Z.gtb_lt _ _)) by lia. exists ((192 + t) :: le_enc n v). split; [apply saves_raw; by apply integer_code_bytes|]. split; [by apply integer_bytes|simpl; lia].
Qed.

(** ** Arbitrary input *)

Lemma total_bind {A B} (f : rio D -> res (option A * rio D)) (k : A -> rio D -> res (option B * rio D)) (P : A -> Prop) :
  (forall r, readable r -> exists v r', f r = Ok (v, r') /\ forall x, v = Some x -> P x /\ readable r') ->
  (forall x, P x -> total_load (k x)) -> total_load (fun r => load! x, r := f r in k x r).
Proof.
  intros Hf Hk r Hr. destruct (Hf r Hr) as (v & r1 & -> & Hv). destruct v as [x|]; [|by eexists _, _]. destruct (Hv x eq_refl) as [Hx Hr1]. by apply Hk.
Qed.

Lemma read_total (n : Z) r : 0 <= n -> readable r ->
  exists v r', rioRead r n = Ok (v, r') /\ forall x, v = Some x -> (zlength x = n /\ bytes_ok x) /\ readable r'.
Proof.
  intros Hn Hr. destruct (total_read n Hn r Hr) as (v & r' & Hread & _). exists v, r'. split; [done|]. intros x ->.
  destruct (read_result r n x r' Hr Hn Hread) as (? & ? & ?). done.
Qed.

Lemma one_byte x : zlength x = 1 /\ bytes_ok x -> exists b, x = [b] /\ 0 <= b < 256.
Proof. intros [Hl Hb]. destruct x as [|b [|? ?]]; simpl in Hl; try lia. apply Forall_cons_1 in Hb as [? _]. by exists b. Qed.

Lemma be_dec_range x : bytes_ok x -> 0 <= be_dec x.
Proof. intros Hb. unfold be_dec. apply le_dec_range. by apply Forall_reverse. Qed.

Lemma lenByRef_total r : readable r ->
  exists v r', rdbLoadLenByRef r = Ok (v, r') /\ forall x, v = Some x -> 0 <= x.1 /\ readable r'.
Proof.
  intros Hr. unfold rdbLoadLenByRef. destruct (read_total 1 r ltac:(lia) Hr) as ([x|] & r1 & -> & Hx); [|by eexists _, _].
  destruct (Hx x eq_refl) as [(b & -> & Hb)%one_byte Hr1]. rewrite get1_0. cbn iota beta. destruct (first_byte b Hb) as [-> ->].
  pose proof (Z.mod_pos_bound b 64 ltac:(lia)) as Hmod.
  destruct (_ =? RDB_ENCVAL); [eexists _, _; split; [done|]; intros y [= <-]; split; [simpl; lia|done]|].
  destruct (_ =? RDB_6BITLEN); [eexists _, _; split; [done|]; intros y [= <-]; split; [simpl; lia|done]|].
  destruct (_ =? RDB_14BITLEN).
  { destruct (read_total 1 r1 ltac:(lia) Hr1) as ([y|] & r2 & -> & Hy); [|by eexists _, _]. destruct (Hy y eq_refl) as [(c & -> & Hc)%one_byte Hr2].
    rewrite get1_0. eexists _, _. split; [done|]. intros z [= <-]. split; [|done]. cbn [fst]. rewrite Z.lor_comm, lor_shl_add by (pow_const; lia). pow_const. lia. }
  destruct (b =? RDB_32BITLEN).
  { destruct (read_total 4 r1 ltac:(lia) Hr1) as ([y|] & r2 & -> & Hy); [|by eexists _, _]. destruct (Hy y eq_refl) as [[_ Hbs] Hr2].
    eexists _, _. split; [done|]. intros z [= <-]. split; [by apply be_dec_range|done]. }
  destruct (b =? RDB_64BITLEN); [|by eexists _, _].
  destruct (read_total 8 r1 ltac:(lia) Hr1) as ([y|] & r2 & -> & Hy); [|by eexists _, _]. destruct (Hy y eq_refl) as [[_ Hbs] Hr2].
  eexists _, _. split; [done|]. intros z [= <-]. split; [by apply be_dec_range|done].
Qed.

Lemma loadLen_total {A} (k : Z -> bool -> rio D -> res (option A * rio D)) :
  (forall e r, exists r', k RDB_LENERR e r = Ok (None, r')) -> (forall len e, 0 <= len -> len <> RDB_LENERR -> total_load (k len e)) ->
  total_load (fun r => let! '(len, e, r) := rdbLoadLen r in k len e r).
Proof.
  intros Herr Hk r Hr. unfold rdbLoadLen. destruct (lenByRef_total r Hr) as (v & r1 & -> & Hv). destruct v as [[len e]|].
  - destruct (Hv _ eq_refl) as [Hl Hr1]. destruct (decide (len = RDB_LENERR)) as [->|Hne]; [|by apply Hk].
    destruct (Herr e r1) as (r' & ->). by eexists _, _.
  - destruct (Herr false r1) as (r' & ->). by eexists _, _.
Qed.

Lemma integerObject_total t flags : total_load (fun r => rdbLoadIntegerObject junk server r t flags).
Proof.
  assert (Hfin : forall v : Z, in_s 64 v -> total_load (fun r => if negb (robjFlag flags) then
      let! '(len, buf) := ll2string (replicate 21 junk) LONG_STR_SIZE v in
      let! str := load 0 len buf in
      Ok (Some (make_string flags str), r)
    else if has_flag flags RDB_LOAD_ENC then
      let! o := createStringObjectFromLongLongForValue junk (string_options server) v in Ok (Some (LObj o), r)
    else let! o := createStringObjectFromLongLongWithSds junk v in Ok (Some (LObj o), r))).
  { intros v Hv r Hr. destruct (integerObject_finish flags v Hv) as (w & _ & Hf). rewrite Hf. by eexists _, _. }
  apply (total_bind (fun r => _) (fun v r => _) (in_s 64)); [|done]. intros r Hr.
  assert (Hs : forall w z, 0 < w <= 32 -> in_s 64 (s w z)).
  { intros w z Hw. pose proof (s_range w z ltac:(lia)) as Hs. unfold in_s in *. pose proof (Z.pow_le_mono_r 2 (w - 1) 63 ltac:(lia) ltac:(lia)). pow_const. lia. }
  destruct (t =? RDB_ENC_INT8).
  { destruct (read_total 1 r ltac:(lia) Hr) as ([x|] & r1 & -> & Hx); [|by eexists _, _]. destruct (Hx x eq_refl) as [(b & -> & _)%one_byte Hr1].
    rewrite get1_0. eexists _, _. split; [done|]. intros y [= <-]. split; [apply Hs; lia|done]. }
  destruct (t =? RDB_ENC_INT16).
  { destruct (read_total 2 r ltac:(lia) Hr) as ([x|] & r1 & -> & Hx); [|by eexists _, _]. destruct (Hx x eq_refl) as [[Hl _] Hr1].
    destruct x as [|b0 [|b1 [|? ?]]]; simpl in Hl; try lia. rewrite get1_0, get1_1. eexists _, _. split; [done|]. intros y [= <-]. split; [apply Hs; lia|done]. }
  destruct (t =? RDB_ENC_INT32); [|by eexists _, _].
  destruct (read_total 4 r ltac:(lia) Hr) as ([x|] & r1 & -> & Hx); [|by eexists _, _]. destruct (Hx x eq_refl) as [[Hl _] Hr1].
  destruct x as [|b0 [|b1 [|b2 [|b3 [|? ?]]]]]; simpl in Hl; try lia. rewrite get1_0, get1_1.
  change (get1 2 [b0; b1; b2; b3]) with (Ok b2). change (get1 3 [b0; b1; b2; b3]) with (Ok b3). eexists _, _. split; [done|]. intros y [= <-]. split; [apply Hs; lia|done].
Qed.

Lemma lzfString_total flags : total_load (fun r => rdbLoadLzfStringObject junk malloc_ok r flags).
Proof.
  unfold rdbLoadLzfStringObject. apply (loadLen_total (fun clen _ r => _)); [by eexists|]. intros clen _ Hc Hce. rewrite (proj2 (Z.eqb_neq _ _) Hce).
  apply (loadLen_total (fun len _ r => _)); [by eexists|]. intros len _ Hl Hle. rewrite (proj2 (Z.eqb_neq _ _) Hle).
  destruct (_ || _); [intros r Hr; by eexists _, _|].
  apply (total_bind (fun r => rioRead r clen) (fun c r => _) (fun c => zlength c = clen /\ bytes_ok c)); [intros r; by apply read_total|].
  intros c [Hlen Hb] r Hr. pose proof (decompress_total c (replicate (Z.to_nat len) junk) Hb) as (n & err & out & Hd). rewrite length_replicate, Z2Nat.id, Hlen in Hd by lia.
  rewrite Hd. destruct (negb _); by eexists _, _.
Qed.

Lemma loadString_total flags : total_load (loadString flags).
Proof.
  unfold rdbGenericLoadStringObject. apply (loadLen_total (fun len e r => _)); [by eexists|]. intros len e Hl Hle. rewrite (proj2 (Z.eqb_neq _ _) Hle).
  destruct e.
  { destruct (_ || _); [apply integerObject_total|]. destruct (len =? RDB_ENC_LZF); [apply lzfString_total|intros r Hr; by eexists _, _]. }
  assert (Hread : forall r, readable r -> exists v r', read_string r len = Ok (v, r') /\ forall x, v = Some x -> True /\ readable r').
  { intros r Hr. unfold read_string. destruct (len =? 0); [eexists _, _; split; [done|]; by intros x [= <-]|].
    destruct (read_total len r Hl Hr) as (v & r' & -> & Hv). exists v, r'. split; [done|]. intros x Hx. by destruct (Hv x Hx). }
  destruct (robjFlag flags).
  - destruct (negb _); [intros r Hr; by eexists _, _|]. apply (total_bind (fun r => read_string r len) (fun str r => _) (fun _ => True)); [done|].
    intros str _ r Hr. by eexists _, _.
  - destruct (negb _); [intros r Hr; by eexists _, _|]. apply (total_bind (fun r => read_string r len) (fun str r => _) (fun _ => True)); [done|].
    intros str _ r Hr. by eexists _, _.
Qed.

(** ** The theorems *)

Lemma saveString_spec o : strobj_ok o -> zlength (string_of o) < 2 ^ 63 -> lzf_env_ok (string_of o) -> malloc_up_to (Z.max 20 (zlength (string_of o))) ->
  exists bs, saves (fun rdb => rdbSaveStringObject junk htab address server rdb o) bs (zlength bs) /\ string_bytes (string_of o) bs /\ 0 < zlength bs.
Proof.
  intros [Ho _] Hl He Hm. unfold rdbSaveStringObject, string_of in *. destruct (value o) as [str|str|v].
  - apply saveRaw_spec; [done..|]. intros k Hk. apply Hm. lia.
  - apply saveRaw_spec; [apply Ho|done..|]. intros k Hk. apply Hm. lia.
  - apply saveLongLong_spec; [done|]. intros k Hk. apply Hm. lia.
Qed.

(** C10: a string object that was saved loads as the same string.  Saving writes some bytes,
    the same ones on every stream, and returns their number, or fails because the stream
    fails; without a stream it returns the number it would write.  From a stream that starts with
    these bytes, every way of loading a string (as an object, encoded or not, as an sds, as a
    plain string, as a hash field) returns the string and consumes exactly these bytes. *)
Theorem rdb_string_roundtrip o :
  strobj_ok o -> zlength (string_of o) < 2 ^ 63 -> lzf_env_ok (string_of o) -> malloc_up_to (Z.max 20 (zlength (string_of o))) ->
  exists bs, 0 < zlength bs /\
    rdbSaveStringObject junk htab address server (None : option (rio D)) o = Ok (Some (zlength bs), None) /\
    (forall r, can_write r -> exists n r', rdbSaveStringObject junk htab address server (Some r) o = Ok (n, Some r') /\
       match n with Some n => n = zlength bs /\ written (io r') = written (io r) ++ bs | None => write_failed r' end) /\
    (forall flags r rest, can_read r -> unread (io r) = bs ++ rest ->
       exists w r', rdbGenericLoadStringObject junk malloc_ok server r flags = Ok (Some w, r') /\
         string_loaded flags (string_of o) w /\ can_read r' /\ unread (io r') = rest).
Proof.
  intros Ho Hl He Hm. destruct (saveString_spec o Ho Hl He Hm) as (bs & (Hnull & Hs & _) & Hb & Hp). exists bs. split; [done|]. split; [done|]. split.
  - intros r Hr. destruct (Hs r Hr) as (k & r' & Hk & Hres). exists k, r'. split; [done|]. destruct k; [by destruct Hres as (? & _ & ?)|done].
  - intros flags r rest Hr Hu. destruct (Hb flags) as (w & Hw & Hload). destruct (Hload r rest Hr Hu) as (r' & ? & ? & ?). by exists w, r'.
Qed.

(** C27: loading a length, a string or a double is safe on arbitrary bytes: whatever the
    stream holds, the function returns, reads and writes no memory out of bounds, and fails
    no assertion; when it does not return an error the stream is still usable. *)
Theorem rdb_load_safe flags r :
  can_read r -> bytes_ok (unread (io r)) ->
  (exists v r', rdbGenericLoadStringObject junk malloc_ok server r flags = Ok (v, r') /\ (v <> None -> can_read r' /\ bytes_ok (unread (io r')))) /\
  (exists v r', rdbLoadLenByRef r = Ok (v, r') /\ (v <> None -> can_read r' /\ bytes_ok (unread (io r')))) /\
  (exists v r', rdbLoadType r = Ok (v, r') /\ (v <> None -> can_read r' /\ bytes_ok (unread (io r')))) /\
  (exists v r', rdbLoadBinaryDoubleValue r = Ok (v, r') /\ (v <> None -> can_read r' /\ bytes_ok (unread (io r')))).
Proof.
  intros Hr Hb. assert (readable r) as Hread by (by split). split; [|split; [|split]].
  - apply (loadString_total flags r Hread).
  - destruct (lenByRef_total r Hread) as (v & r' & -> & Hv). exists v, r'. split; [done|]. intros Hne. destruct v as [x|]; [|done]. by destruct (Hv x eq_refl).
  - unfold rdbLoadType. destruct (read_total 1 r ltac:(lia) Hread) as ([x|] & r1 & -> & Hx); [|by eexists _, _].
    destruct (Hx x eq_refl) as [(b & -> & _)%one_byte Hr1]. rewrite get1_0. by eexists _, _.
  - unfold rdbLoadBinaryDoubleValue. destruct (read_total 8 r ltac:(lia) Hread) as ([x|] & r1 & -> & Hx); [|by eexists _, _].
    destruct (Hx x eq_refl) as [_ Hr1]. by eexists _, _.
Qed.
End Spec.

(** The number 123456 in a buffer of its own: five bytes. *)
Definition demo_rdb : rdb_config := mkRdbConfig true (mkStringConfig 0 0).
Definition demo_table (_ : list Z) : htable := fun _ => 0.
Definition demo_address (_ : list Z) : Z := 65536.
Definition demo_malloc (_ : Z) : bool := true.
Definition demo_obj : strobj := createRawStringObject [49; 50; 51; 52; 53; 54].

Lemma demo_obj_ok : strobj_ok demo_obj.
Proof. split; [repeat constructor; lia|]. split; [simpl; lia|discriminate]. Qed.

Lemma rdb_string_roundtrip_witness :
  exists bs, rdbSaveStringObject 0 demo_table demo_address demo_rdb (None : option (rio rio_buffer)) demo_obj = Ok (Some (zlength bs), None) /\
    exists w r', rdbGenericLoadStringObject 0 demo_malloc demo_rdb (rioInitWithBuffer bs) RDB_LOAD_SDS = Ok (Some w, r') /\ string_loaded RDB_LOAD_SDS [49; 50; 51; 52; 53; 54] w.
Proof.
  destruct (@rdb_string_roundtrip rio_buffer _ _ 0 demo_malloc demo_table demo_address demo_rdb demo_obj demo_obj_ok) as (bs & Hp & Hnull & Hsave & Hload).
  - reflexivity.
  - split; [vm_compute; discriminate|]. split; [reflexivity|]. intros i. split; [vm_compute; discriminate|reflexivity].
  - intros k _. reflexivity.
  - exists bs. split; [exact Hnull|].
    assert (Hbs : bs = [194; 64; 226; 1; 0]).
    { destruct (Hsave (rioInitWithBuffer [])) as (n & r' & Hw & Hres); [split; [reflexivity|vm_compute; discriminate]|].
      vm_compute in Hw. injection Hw as <- <-. symmetry. exact (proj2 Hres). }
    rewrite Hbs in *. destruct (Hload RDB_LOAD_SDS (rioInitWithBuffer [194; 64; 226; 1; 0]) []) as (w & r' & Hl & Hw & _).
    + split; [reflexivity|]. split; [|vm_compute; discriminate]. split; [split; vm_compute; discriminate|reflexivity].
    + reflexivity.
    + exists w, r'. split; [exact Hl|exact Hw].
Defined.

(** A compressed string that announces more than it holds is refused. *)
Lemma rdb_load_safe_witness :
  exists v r', rdbGenericLoadStringObject 0 demo_malloc demo_rdb (rioInitWithBuffer [195; 5; 100; 1; 2]) RDB_LOAD_NONE = Ok (v, r') /\ v = None.
Proof.
  destruct (@rdb_load_safe rio_buffer _ _ 0 demo_malloc demo_rdb RDB_LOAD_NONE (rioInitWithBuffer [195; 5; 100; 1; 2])) as ((v & r' & Hl & _) & _).
  - split; [reflexivity|]. split; [|vm_compute; discriminate]. split; [split; vm_compute; discriminate|reflexivity].
  - repeat constructor; lia.
  - exists v, r'. split; [exact Hl|]. vm_compute in Hl. injection Hl as <- _. reflexivity.
Defined.
