(* ===== verification/RdbDups.v ===== *)
(** Persistence: validating a listpack that was loaded, lpValidateIntegrityAndDups of
    src/redis-stable/src/rdb.c.

    The entries of the listpack form tuples, and the first entries of the tuples must be
    different.  The callback collects them in a dict.  With tuples of three, the third
    entry is the expiration time of a hash field, and these times are in order.  On
    arbitrary bytes the validation is safe and what it accepts has no duplicates. *)

From stdpp Require Import gmap.
From S2P Require Import Prelude Machine UtilNum Listpack ListpackEnc ListpackSeq ListpackRead ListpackUpd ListpackValid Dict DictInv DictOps SetType SetTypeSpec.

(** * The model *)

(** The userdata of the callback. *)
Record dups_data := mkDups { tuple_len : Z; count : Z; fields : option (dict sds unit); last_expireat : Z }.

Definition EB_EXPIRE_TIME_MAX : Z := 0x0000FFFFFFFFFFFF.

Section Dups.
Context (junk : Z) (hashFunction : sds -> Z) (dict_can_resize : dictResizeEnable).

(** The text of an entry: str and slen of lpGet(p, &slen, buf). *)
Definition lp_string (lp : list Z) (p : Z) : res (list Z) :=
  let! v := lpGet lp p (Some (replicate 21 junk)) in
  match v with
  | LpStr off slen => load off slen lp
  | LpBuf buf slen => load 0 slen buf
  | LpInt _ => Fault OutOfBounds
  end.

Definition add_field (lp : list Z) (p : Z) (d : dict sds unit) : res (bool * dict sds unit) :=
  let! str := lp_string lp p in
  let! field := sdsnewlen str in
  let! '(st, d) := setDictAdd hashFunction dict_can_resize d field in
  Ok (bool_decide (st = DICT_OK), d).

(** The time that becomes last_expireat, when it is valid. *)
Definition check_ttl (lp : list Z) (p last_expireat : Z) : res (option Z) :=
  let! expire_at := lpGetIntegerValue lp p in
  match expire_at with
  | None => Ok None
  | Some expire_at =>
      if (expire_at <? 0) || (u64 expire_at >? EB_EXPIRE_TIME_MAX) then Ok None
      else if negb (expire_at =? 0) && ((last_expireat =? 0) || (expire_at <? last_expireat)) then Ok None
      else Ok (Some expire_at)
  end.

Definition _lpEntryValidation (lp : list Z) (p head_count : Z) (data : dups_data) : res (bool * dups_data) :=
  let tl := tuple_len data in
  let! d := (match fields data with
             | Some d => Ok d
             | None => let! '(_, d) := dictExpand hashFunction false dict_can_resize dictCreate (u32 head_count / u32 tl) in Ok d
             end) in
  let! '(fresh, d) := (if Z.rem (count data) tl =? 0 then add_field lp p d else Ok (true, d)) in
  if negb fresh then Ok (false, mkDups tl (count data) (Some d) (last_expireat data))
  else
    let! last := (if Z.rem (count data) tl =? 2 then check_ttl lp p (last_expireat data) else Ok (Some (last_expireat data))) in
    match last with
    | None => Ok (false, mkDups tl (count data) (Some d) (last_expireat data))
    | Some last => Ok (true, mkDups tl (s64 (count data + 1)) (Some d) last)
    end.

Definition lpValidateIntegrityAndDups (lp : list Z) (size : Z) (deep : bool) (tuple_len : Z) : res bool :=
  if negb deep then let! '(ret, _) := lpValidateIntegrity (@None (list Z -> Z -> Z -> unit -> res (bool * unit))) lp size false tt in Ok ret
  else
    let! '(ret, data) := lpValidateIntegrity (Some _lpEntryValidation) lp size true (mkDups tuple_len 0 None (-1)) in
    Ok (if negb (Z.rem (count data) tuple_len =? 0) then false else ret).
End Dups.

(** * Tuples *)

(** The first elements of the tuples of [tl]. *)
Definition firsts {A} (tl : nat) (l : list A) : list A := concat (imap (fun i x => if (i mod tl =? 0)%nat then [x] else []) l).

Lemma firsts_snoc {A} tl (l : list A) x : firsts tl (l ++ [x]) = firsts tl l ++ (if (length l mod tl =? 0)%nat then [x] else []).
Proof. unfold firsts. rewrite imap_app, concat_app. cbn [imap concat]. by rewrite app_nil_r, Nat.add_0_r. Qed.

Lemma firsts_length {A} tl (l : list A) : (length (firsts tl l) <= length l)%nat.
Proof.
  induction l as [|x l IH] using rev_ind; [done|]. rewrite firsts_snoc, !length_app. destruct (_ =? _)%nat; simpl; lia.
Qed.

Lemma firsts_prefix {A} tl (l1 l2 : list A) : exists r, firsts tl (l1 ++ l2) = firsts tl l1 ++ r.
Proof.
  induction l2 as [|x l2 [r IH]] using rev_ind; [exists []; by rewrite !app_nil_r|]. rewrite (assoc_L (++)), firsts_snoc, IH, <- (assoc_L (++)). by eexists.
Qed.

Lemma firsts_one {A} (l : list A) : firsts 1 l = l.
Proof. induction l as [|x l IH] using rev_ind; [done|]. by rewrite firsts_snoc, IH, Nat.mod_1_r. Qed.

Lemma rem_zlength {A} (l : list A) (k : nat) : (0 < k)%nat -> Z.rem (zlength l) (Z.of_nat k) = Z.of_nat (length l mod k).
Proof. intros Hk. rewrite Z.rem_mod_nonneg by lia. symmetry. apply Nat2Z.inj_mod. Qed.

(** * Bytes *)

(** The bytes of a listpack are bytes. *)
Lemma shape_bytes e bs : shape e bs -> bytes_ok bs.
Proof.
  destruct 1 as [v Hv|v b0 b1 _ H0 H1 _|tag n v Ht _|str Hb Hl|str b0 b1 Hb H0 H1 _|str Hb Hl].
  - by repeat constructor; lia.
  - repeat constructor; lia.
  - constructor; [destruct Ht; lia|apply le_enc_bytes].
  - constructor; [lia|done].
  - constructor; [lia|]. by constructor; [lia|].
  - constructor; [lia|]. apply bytes_ok_app. split; [apply le_enc_bytes|done].
Qed.

Lemma backlen_bytes l : 0 <= l -> bytes_ok (lpEncodeBacklen l).
Proof.
  intros Hl. assert (Hu : forall z, 0 <= u8 z < 256) by (intros z; apply (u_range 8); lia).
  assert (Hc : forall z, 0 <= Z.lor (Z.land z 127) 128 < 256) by (intros z; rewrite backlen_cont; pose proof (Z.mod_pos_bound z 128); lia).
  unfold lpEncodeBacklen. destruct (Z.leb_spec l 127); [repeat constructor; lia|].
  destruct (_ <? _); [repeat constructor; apply Hu || apply Hc|]. destruct (_ <? _); [repeat constructor; apply Hu || apply Hc|].
  destruct (_ <? _); repeat constructor; apply Hu || apply Hc.
Qed.

Lemma entries_bytes es : Forall elem_ok es -> bytes_ok (ListpackSeq.entries es).
Proof.
  induction 1 as [|e es He Hes IH]; [constructor|]. rewrite entries_cons. apply bytes_ok_app. split; [|done]. apply bytes_ok_app.
  split; [apply (shape_bytes e), shape_elem, He|apply backlen_bytes; lia].
Qed.

Lemma listpack_bytes n es : lp_wf n es -> bytes_ok (lp_of n es []).
Proof.
  intros [_ _ Hf]. unfold lp_of. rewrite !bytes_ok_app. split_and!; [apply le_enc_bytes..|by apply entries_bytes|]. constructor; [unfold LP_EOF; lia|constructor].
Qed.

(** * The contract *)

(** The text of an entry, for a reader without a buffer. *)
Definition entry_text (lp : list Z) (p : Z) : res (list Z) :=
  let! v := lpGet lp p None in
  match v with LpStr off slen => load off slen lp | LpInt v => Ok (int_text v) | LpBuf _ _ => Fault OutOfBounds end.

Section Spec.
Context (junk : Z) (hashFunction : sds -> Z) (dict_can_resize : dictResizeEnable).
Context (tl : nat) (Htl : (0 < tl)%nat).
Implicit Types (txts : list (list Z)) (m : gmap sds unit).
Notation _lpEntryValidation := (_lpEntryValidation junk hashFunction dict_can_resize).
Notation lpValidateIntegrityAndDups := (lpValidateIntegrityAndDups junk hashFunction dict_can_resize).

(** The callback has seen the texts [txts]: the dict holds the first ones of the tuples. *)
Definition seen txts (data : dups_data) : Prop :=
  tuple_len data = Z.of_nat tl /\ count data = zlength txts /\
  exists ts m, sds_bytes <$> ts = firsts tl txts /\ NoDup ts /\ (forall k, is_Some (m !! k) <-> k ∈ ts) /\ size m = length ts /\
    match fields data with Some d => dict_rep hashFunction d m /\ pauseAutoResize d <= 0 | None => m = ∅ end.

Lemma seen_start : seen [] (mkDups (Z.of_nat tl) 0 None (-1)).
Proof.
  split; [done|]. split; [done|]. exists [], ∅. split_and!; [done|constructor| |done|done]. intros k. rewrite lookup_empty. split; [by intros []|]. by intros ?%elem_of_nil.
Qed.

Lemma seen_nodup txts data : seen txts data -> NoDup (firsts tl txts).
Proof.
  intros (_ & _ & ts & m & <- & Hnd & _). apply NoDup_fmap_2_strong; [|done]. intros x y _ _. apply sds_bytes_inj.
Qed.

(** Where a reader sees a text, the callback gets it. *)
Lemma string_text lp p txt : entry_text lp p = Ok txt -> lp_string junk lp p = Ok txt.
Proof.
  unfold entry_text, lp_string. unfold lpGet. rewrite getWithBuf_buf. fold (lpGet lp p None). destruct (lpGet lp p None) as [v|] eqn:Hg; [|done].
  destruct v as [off slen|buf slen|v]; [done|done|]. intros [= <-]. pose proof (get_int_range lp p v Hg) as Hv. pose proof (int_text_length v Hv).
  rewrite (ll2string_fits _ _ v (int_text v)); [|done|by apply int_text_eq|by rewrite length_replicate|unfold LP_INTBUF_SIZE; lia].
  by apply (load_app [] (int_text v)).
Qed.

(** The dict of the first call, and later. *)
Lemma fields_spec (od : option (dict sds unit)) m cap : 0 <= cap ->
  match od with Some d => dict_rep hashFunction d m /\ pauseAutoResize d <= 0 | None => m = ∅ end ->
  exists d, (match od with Some d => Ok d | None => let! '(_, d) := dictExpand hashFunction false dict_can_resize dictCreate cap in Ok d end) = Ok d /\
    dict_rep hashFunction d m /\ pauseAutoResize d <= 0.
Proof.
  intros Hc. destruct od as [d|]; [intros [? ?]; by exists d|]. intros ->.
  destruct (expand_spec hashFunction dict_can_resize false (dictCreate : dict sds unit) cap (proj1 (create_contract hashFunction)) Hc) as (st & d & -> & [Hm _ _ _] & _).
  exists d. split; [done|]. split; [|by rewrite (mv_auto _ _ _ Hm)]. eapply rep_moved; [|exact Hm]. apply create_contract.
Qed.

Lemma add_field_spec lp p txt d m : entry_text lp p = Ok txt -> zlength txt < 2147483648 ->
  dict_rep hashFunction d m -> pauseAutoResize d <= 0 -> Z.of_nat (size m) + 1 < 2 ^ 58 ->
  exists k d', sds_bytes k = txt /\ add_field junk hashFunction dict_can_resize lp p d = Ok (bool_decide (m !! k = None), d') /\
    pauseAutoResize d' <= 0 /\ dict_rep hashFunction d' (match m !! k with Some _ => m | None => <[k := tt]> m end).
Proof.
  intros Htxt Hl Hd Hp Hsz. unfold add_field. rewrite (string_text _ _ _ Htxt). destruct (sdsnewlen_ok txt Hl) as (k & -> & Hk).
  destruct (add_contract hashFunction dictSdsKeyCompare dictSdsKeyCompare_eq None false dict_can_resize d m tt k tt Hd) as (d' & Ha & [_ Hp'] & Hd'); [by right|done|].
  exists k, d'. unfold setDictAdd. rewrite Ha. split; [done|]. split; [|split; [by rewrite Hp'|done]].
  do 3 f_equal. by destruct (m !! k).
Qed.

(** One call. *)
Lemma entry_step lp p hc txts data txt : seen txts data -> entry_text lp p = Ok txt -> zlength txt < 2147483648 -> zlength txts < 2 ^ 57 ->
  exists ok data', _lpEntryValidation lp p hc data = Ok (ok, data') /\ (ok = true -> seen (txts ++ [txt]) data') /\
    ((tl <= 2)%nat -> NoDup (firsts tl (txts ++ [txt])) -> ok = true).
Proof.
  intros (Ht & Hc & ts & m & Hts & Hnd & Hm & Hsz & Hd) Htxt Hl Hlen. unfold RdbDups._lpEntryValidation. rewrite Ht, Hc, rem_zlength by done.
  assert (Hcap : 0 <= u32 hc / u32 (Z.of_nat tl)).
  { pose proof (u_range 32 hc ltac:(lia)). pose proof (u_range 32 (Z.of_nat tl) ltac:(lia)). destruct (decide (u32 (Z.of_nat tl) = 0)) as [->|]; [by rewrite Zdiv_0_r|]. apply Z.div_pos; lia. }
  destruct (fields_spec (fields data) m _ Hcap Hd) as (d & -> & Hd1 & Hp1).
  assert (Hsm : Z.of_nat (size m) + 1 < 2 ^ 58).
  { rewrite Hsz, <- (length_fmap sds_bytes), Hts. pose proof (firsts_length tl txts). pow_const. lia. }
  assert (Hcount : s64 (zlength txts + 1) = zlength (txts ++ [txt])) by (rewrite length_app, s_id by (unfold in_s; pow_const; simpl; lia); simpl; lia).
  destruct (Z.eqb_spec (Z.of_nat (length txts mod tl)) 0) as [E|E].
  - destruct (add_field_spec lp p txt d m Htxt Hl Hd1 Hp1 Hsm) as (k & d2 & Hk & -> & Hp2 & Hd2). assert (E0 : (length txts mod tl = 0)%nat) by lia.
    rewrite (proj2 (Z.eqb_neq _ 2)) by lia. destruct (m !! k) as [[]|] eqn:Ek; cbn [bool_decide decide decide_rel option_eq_None_dec negb].
    + eexists _, _. split; [done|]. split; [done|]. intros _ Hno. exfalso. rewrite firsts_snoc, E0, <- Hts in Hno. cbn [Nat.eqb] in Hno.
      apply list.NoDup_app in Hno as (_ & Hno & _). apply (Hno txt); [|left]. rewrite <- Hk. apply list_elem_of_fmap_2, Hm. by rewrite Ek.
    + eexists _, _. split; [done|]. split; [|done]. intros _. split; [done|]. split; [exact Hcount|]. exists (ts ++ [k]), (<[k := tt]> m).
      assert (Hkts : k ∉ ts) by (intros Hin; apply Hm in Hin as [? Hin]; congruence). split; [|split; [|split; [|split]]].
      * rewrite fmap_app, Hts, firsts_snoc, E0. cbn [Nat.eqb fmap list_fmap]. by rewrite Hk.
      * apply list.NoDup_app. split_and!; [done| |apply NoDup_singleton]. intros x Hx ->%list_elem_of_singleton. done.
      * intros k'. rewrite elem_of_app, list_elem_of_singleton, <- Hm. destruct (decide (k' = k)) as [->|Hne]; [rewrite lookup_insert_eq; by split; [right|]|].
        rewrite lookup_insert_ne by done. split; [by left|]. by intros [?| ->].
      * rewrite map_size_insert_None, Hsz, length_app by done. simpl. lia.
      * done.
  - assert (E0 : ((length txts mod tl =? 0) = false)%nat) by (apply Nat.eqb_neq; lia).
    assert (Hseen : forall last, seen (txts ++ [txt]) (mkDups (Z.of_nat tl) (s64 (zlength txts + 1)) (Some d) last)).
    { intros last. split; [done|]. split; [exact Hcount|]. exists ts, m. by rewrite firsts_snoc, E0, app_nil_r. }
    cbn [negb]. destruct (Z.eqb_spec (Z.of_nat (length txts mod tl)) 2) as [E2|E2].
    + assert (tl > 2)%nat by (pose proof (Nat.mod_upper_bound (length txts) tl); lia). unfold check_ttl, lpGetIntegerValue. unfold entry_text in Htxt.
      destruct (lpGet lp p None) as [v|]; [|done]. destruct v as [off slen|buf slen|v]; [eexists _, _; split; [done|]; split; [done|lia]|done|].
      destruct (_ || _); [eexists _, _; split; [done|]; split; [done|lia]|]. destruct (_ && _); [eexists _, _; split; [done|]; split; [done|lia]|].
      eexists _, _. split; [done|]. split; [|done]. intros _. apply Hseen.
    + eexists _, _. split; [done|]. split; [|done]. intros _. apply Hseen.
Qed.

(** ** Arbitrary bytes *)

Lemma readable_text lp p : bytes_ok lp -> (exists v, lpGet lp p None = Ok v /\ in_bounds lp v) -> zlength lp < 2147483648 ->
  exists txt, entry_text lp p = Ok txt /\ zlength txt < 2147483648.
Proof.
  intros Hb (v & Hg & Hv) Hl. unfold entry_text. rewrite Hg. destruct v as [off slen|buf slen|v]; simpl in Hv; [|done|].
  - destruct (split_at lp off slen) as (pre & mid & post & -> & -> & Hm); [lia..|]. rewrite (load_app pre mid post) by lia. exists mid. split; [done|lia].
  - exists (int_text v). split; [done|]. pose proof (int_text_length v (get_int_range lp p v Hg)). lia.
Qed.

(** C28: the validation of a loaded listpack is safe on arbitrary bytes, and with a deep
    validation an accepted one can be walked from lpFirst with lpNext to its end, the
    entries are whole tuples, and no two tuples start with the same text. *)
Theorem lpValidateIntegrityAndDups_sound lp deep :
  bytes_ok lp -> zlength lp < 2147483648 ->
  exists r, lpValidateIntegrityAndDups lp (zlength lp) deep (Z.of_nat tl) = Ok r /\
    (r = true -> deep = true -> exists ps txts n,
       lpFirst lp = Ok (head ps) /\ (forall i p, ps !! i = Some p -> lpNext lp p = Ok (ps !! S i)) /\
       lpGetNumElements lp = Ok n /\ (n = LP_HDR_NUMELE_UNKNOWN \/ n = zlength ps) /\
       Forall2 (fun p txt => entry_text lp p = Ok txt) ps txts /\ (length ps mod tl = 0)%nat /\ NoDup (firsts tl txts)).
Proof.
  intros Hb Hl. unfold RdbDups.lpValidateIntegrityAndDups. destruct deep; cbn [negb].
  2: { destruct (validate_deep lp Hb (@None (list Z -> Z -> Z -> unit -> res (bool * unit))) (fun _ _ => True) false tt) as (r & a' & -> & _); [|done|by exists r].
       intros p numele ps a _ _ _. by eexists _, _. }
  destruct (validate_deep lp Hb (Some _lpEntryValidation) (fun ps data => exists txts, Forall2 (fun p txt => entry_text lp p = Ok txt) ps txts /\ seen txts data)
    true (mkDups (Z.of_nat tl) 0 None (-1))) as (r & data & -> & Hr).
  - intros p numele ps data Hv Hlen (txts & Hps & Hs). destruct (readable_text lp p Hb Hv Hl) as (txt & Htxt & Hlt).
    destruct (entry_step lp p numele txts data txt Hs Htxt Hlt) as (ok & data' & He & Hok & _).
    { pose proof (list.Forall2_length _ _ _ Hps). pow_const. lia. }
    exists ok, data'. split; [exact He|]. intros Ht. exists (txts ++ [txt]). split; [|by apply Hok]. apply Forall2_app; [done|]. by constructor.
  - exists []. split; [constructor|apply seen_start].
  - eexists. split; [done|]. intros Hrt _. destruct (Z.eqb_spec (Z.rem (count data) (Z.of_nat tl)) 0) as [E|]; [|done]. cbn [negb] in Hrt.
    destruct (Hr Hrt eq_refl) as (ps & q & n & Hw & (txts & Hps & Hs) & Ht & Hn & Hnn). exists ps, txts, n.
    split; [by apply (walk_head lp 6 ps q Hw)|]. split; [intros i p Hi; by apply (walk_next lp Hb 6 ps q Hw Ht i p Hi)|]. split_and!; [done..| |by eapply seen_nodup].
    destruct Hs as (_ & Hc & _). rewrite Hc, rem_zlength in E by done. rewrite (list.Forall2_length _ _ _ Hps). lia.
Qed.

(** ** Well-formed listpacks *)

Lemma text_at n es1 e es2 slack : elem_ok e -> entry_text (lp_of n (es1 ++ e :: es2) slack) (pos es1) = Ok (text (lp_elem e)).
Proof.
  intros He. unfold entry_text. rewrite get_at by done. destruct e as [v|str]; [done|]. by apply str_bytes_at.
Qed.

Lemma validate_wf n es slack deep : lp_wf n es -> Forall el_ok (lp_elem <$> es) -> (tl <= 2)%nat -> (length es mod tl = 0)%nat ->
  NoDup (firsts tl (text <$> (lp_elem <$> es))) ->
  lpValidateIntegrityAndDups (lp_of n es slack) (total es) deep (Z.of_nat tl) = Ok true.
Proof.
  intros Hwf Hok Ht Hlen Hnd. unfold RdbDups.lpValidateIntegrityAndDups. destruct deep; cbn [negb].
  2: { destruct (validate_complete_with (@None (list Z -> Z -> Z -> unit -> res (bool * unit))) (fun _ _ => True) n es slack false tt Hwf) as (a & -> & _); [|done..].
       intros es1 e es2 numele a _ _. by exists a. }
  destruct (validate_complete_with (Some _lpEntryValidation) (fun es1 data => seen (text <$> (lp_elem <$> es1)) data) n es slack true (mkDups (Z.of_nat tl) 0 None (-1)) Hwf)
    as (data & -> & Hs).
  - intros es1 e es2 numele data Hes Hs. pose proof (wf_elems _ _ Hwf) as Hf. rewrite Hes in Hf, Hok, Hnd. apply Forall_app in Hf as [_ [He _]%Forall_cons_1].
    rewrite fmap_app, fmap_cons in Hok. apply Forall_app in Hok as [_ [[_ Hle]%text_ok _]%Forall_cons_1].
    pose proof (length_bound n es Hwf) as Hlb. rewrite Hes in Hlb |- *.
    destruct (entry_step (lp_of n (es1 ++ e :: es2) slack) (pos es1) numele _ data (text (lp_elem e)) Hs (text_at n es1 e es2 slack He) Hle) as (ok & data' & Hstep & Hseen & Hacc).
    { rewrite !length_fmap. rewrite length_app in Hlb. pow_const. lia. }
    exists data'. rewrite cons_middle, !fmap_app in Hnd. destruct (firsts_prefix tl ((text <$> (lp_elem <$> es1)) ++ [text (lp_elem e)]) (text <$> (lp_elem <$> es2))) as (r & Hr).
    cbn [fmap list_fmap] in Hnd. rewrite Hr in Hnd. apply list.NoDup_app in Hnd as (Hnd & _). rewrite (Hacc Ht Hnd) in Hstep, Hseen.
    split; [exact Hstep|]. rewrite !fmap_app. by apply Hseen.
  - apply seen_start.
  - destruct Hs as (_ & Hc & _). rewrite Hc, rem_zlength, !length_fmap, Hlen by done. done.
Qed.
End Spec.

(** The integer 100 and the string "a", as a set. *)
Lemma lpValidateIntegrityAndDups_sound_witness :
  lpValidateIntegrityAndDups 0 SetTypeSpec.demo_hash DICT_RESIZE_ENABLE [12; 0; 0; 0; 2; 0; 100; 1; 129; 97; 2; 255] 12 true 1 = Ok true /\
  exists ps txts, Forall2 (fun p txt => entry_text [12; 0; 0; 0; 2; 0; 100; 1; 129; 97; 2; 255] p = Ok txt) ps txts /\ NoDup (firsts 1 txts).
Proof.
  assert (Hv : lpValidateIntegrityAndDups 0 SetTypeSpec.demo_hash DICT_RESIZE_ENABLE [12; 0; 0; 0; 2; 0; 100; 1; 129; 97; 2; 255] 12 true 1 = Ok true) by reflexivity.
  split; [exact Hv|].
  destruct (lpValidateIntegrityAndDups_sound 0 SetTypeSpec.demo_hash DICT_RESIZE_ENABLE 1 ltac:(lia) [12; 0; 0; 0; 2; 0; 100; 1; 129; 97; 2; 255] true) as (r & Hr & Hs).
  - repeat constructor; lia.
  - reflexivity.
  - change (Z.of_nat 1) with 1 in Hr. change (zlength [12; 0; 0; 0; 2; 0; 100; 1; 129; 97; 2; 255]) with 12 in Hr. rewrite Hv in Hr. injection Hr as <-.
    destruct (Hs eq_refl eq_refl) as (ps & txts & _ & _ & _ & _ & _ & Ht & _ & Hnd). exists ps, txts. split; [exact Ht|exact Hnd].
Defined.
