(* ===== verification/RdbObj.v ===== *)
(** Persistence, the model: saving and loading objects, rdbSaveObjectType, rdbSaveObject and
    rdbLoadObject of src/redis-stable/src/rdb.c.

    The objects are strings, sets and sorted sets, each in all of its encodings; lists,
    hashes, streams and module values are not modelled, nor are the types of older versions
    that are only loaded (ziplists, zipmaps, sorted sets with scores as text).  Loading
    returns NULL with one of two error codes.  [draws] are the random numbers for the levels
    of a skip list, [table_malloc] is the outcome of the allocation of a table for the
    given number of entries. *)

From Stdlib Require Import SpecFloat.
From stdpp Require Import gmap.
From S2P Require Import Prelude Machine UtilNum Double DoubleConv Intset Listpack Dict DictIter SetType Skiplist Zzl Zset Lzf Rio StringObj Rdb RdbDups.

Inductive robj := OString (o : strobj) | OSet (o : setobj) | OZset (o : zsetobj).

(** The types of rdb.h that these objects are saved as. *)
Inductive rdb_type := RDB_TYPE_STRING | RDB_TYPE_SET | RDB_TYPE_ZSET_2 | RDB_TYPE_SET_INTSET | RDB_TYPE_ZSET_LISTPACK | RDB_TYPE_SET_LISTPACK.

Definition type_code (t : rdb_type) : Z :=
  match t with
  | RDB_TYPE_STRING => 0
  | RDB_TYPE_SET => 2
  | RDB_TYPE_ZSET_2 => 5
  | RDB_TYPE_SET_INTSET => 11
  | RDB_TYPE_ZSET_LISTPACK => 17
  | RDB_TYPE_SET_LISTPACK => 20
  end.

Definition rdbIsObjectType (t : Z) : bool := ((t >=? 0) && (t <=? 7)) || ((t >=? 9) && (t <=? 25)).

Definition RDB_LOAD_ERR_EMPTY_KEY : Z := 1.
Definition RDB_LOAD_ERR_OTHER : Z := 2.

Definition SANITIZE_DUMP_YES : Z := 1.
Definition SANITIZE_DUMP_CLIENTS : Z := 2.

(** The client on whose behalf the server loads: CLIENT_MASTER, and the flag
    USER_FLAG_SANITIZE_PAYLOAD_SKIP of its user, when it has one. *)
Record rdb_client := mkRdbClient { client_master : bool; user_skip : option bool }.

Record rdb_server := mkRdbServer {
  srv_rdb : rdb_config;
  srv_set : set_config;
  srv_zset : zset_config;
  sanitize_dump_payload : Z;
  loading : bool;
  current_client : option rdb_client
}.

(** if ((v = e) == NULL) return NULL, with the default error *)
Notation "'try!' v , r ':=' e 'in' k" :=
  (match e with Ok (Some v, r) => k | Ok (None, r) => Ok (inl RDB_LOAD_ERR_OTHER, r) | Fault f => Fault f end)
  (at level 200, v name, r name, e at level 100, k at level 200, format "'try!'  v ,  r  ':='  e  'in' '//' k").

(** An integer set at a pointer. *)
Definition intset_at (p : list Z) : res intset :=
  let! enc := load 0 4 p in
  let! len := load 4 4 p in
  Ok (mk_intset (le_dec enc) (le_dec len) (drop 8 p)).

Section RdbObj.
Context {D : Type} `{RioBackend D}.
Context (junk : Z) (malloc_ok : Z -> bool) (htab : list Z -> htable) (address : list Z -> Z) (server : rdb_server).
Context (hashFunction : sds -> Z) (table_address : list (list (sds * unit)) -> Z) (sdsAllocSize : list Z -> Z).
Context (dict_can_resize : dictResizeEnable) (table_malloc : Z -> bool).
Context (fpconv_dtoa : double -> list Z) (fast_float_strtod : list Z -> double).
Context (usable : Z -> Z) (zsl_size : Z) (junk_level : zskiplistLevel).
Implicit Types (rdb : option (rio D)) (r : rio D) (draws : list (list Z)).

Notation saveRawString := (rdbSaveRawString junk htab address (srv_rdb server)).
Notation loadString := (rdbGenericLoadStringObject junk malloc_ok (srv_rdb server)).
Notation ele_alloc := (fun ele : sds => sdsAllocSize (sds_bytes ele)).
Notation convertSet := (setTypeConvert junk hashFunction table_address sdsAllocSize dict_can_resize).
Notation convertAndExpandSet := (setTypeConvertAndExpand junk hashFunction table_address sdsAllocSize dict_can_resize).
Notation convertZset := (zsetConvert junk fpconv_dtoa fast_float_strtod usable ele_alloc zsl_size junk_level hashFunction dict_can_resize).

(** * Saving *)

Definition object_type (o : robj) : rdb_type :=
  match o with
  | OString _ => RDB_TYPE_STRING
  | OSet (SetIntset _) => RDB_TYPE_SET_INTSET
  | OSet (SetHT _ _) => RDB_TYPE_SET
  | OSet (SetListpack _) => RDB_TYPE_SET_LISTPACK
  | OZset (ZsetListpack _) => RDB_TYPE_ZSET_LISTPACK
  | OZset (ZsetSkiplist _) => RDB_TYPE_ZSET_2
  end.

Definition rdbSaveObjectType rdb (o : robj) : res (option Z * option (rio D)) := rdbSaveType rdb (type_code (object_type o)).

(** while((de = dictNext(&di)) != NULL) ...; dictResetIterator(&di) *)
Fixpoint save_set_loop (fuel : nat) (set : dict sds unit) (di : dictIterator sds) rdb (nwritten : Z) : res (option Z * option (rio D)) :=
  match fuel with
  | O => Fault OutOfFuel
  | S fuel =>
      let! '(de, set, di) := dictNext table_address set di in
      match de with
      | None => let! _ := dictResetIterator table_address set di in Ok (Some nwritten, rdb)
      | Some (ele, _) =>
          match saveRawString rdb (sds_bytes ele) with
          | Ok (Some n, rdb) => save_set_loop fuel set di rdb (nwritten + n)
          | Ok (None, rdb) => let! _ := dictResetIterator table_address set di in Ok (None, rdb)
          | Fault f => Fault f
          end
      end
  end.

(** From the tail backwards. *)
Fixpoint save_zset_loop (fuel : nat) (zsl : zskiplist) (zn : option Z) rdb (nwritten : Z) : res (option Z * option (rio D)) :=
  match zn with
  | None => Ok (Some nwritten, rdb)
  | Some x =>
      match fuel with
      | O => Fault OutOfFuel
      | S fuel =>
          let! zn := deref zsl x in
          let! ele := ele_of zn in
          save! n1, rdb := saveRawString rdb (sds_bytes ele) in
          save! n2, rdb := rdbSaveBinaryDoubleValue rdb (score zn) in
          save_zset_loop fuel zsl (backward zn) rdb (nwritten + n1 + n2)
      end
  end.

(** A listpack is saved as the string of its bytes. *)
Definition save_listpack rdb (lp : list Z) : res (option Z * option (rio D)) :=
  let! l := lpBytes lp in
  let! bytes := load 0 l lp in
  saveRawString rdb bytes.

Definition rdbSaveObject rdb (o : robj) : res (option Z * option (rio D)) :=
  match o with
  | OString o => rdbSaveStringObject junk htab address (srv_rdb server) rdb o
  | OSet (SetHT set _) =>
      save! n, rdb := rdbSaveLen rdb (dictSize set) in
      save_set_loop (S (Z.to_nat (dictSize set))) set dictInitIterator rdb n
  | OSet (SetIntset iset) =>
      let! bytes := load 0 (intsetBlobLen iset) (blob iset) in
      saveRawString rdb bytes
  | OSet (SetListpack lp) => save_listpack rdb lp
  | OZset (ZsetListpack zl) => save_listpack rdb zl
  | OZset (ZsetSkiplist zs) =>
      let zsl := zs_zsl zs in
      save! n, rdb := rdbSaveLen rdb (zlen zsl) in
      save_zset_loop (Z.to_nat (zlen zsl)) zsl (tail zsl) rdb n
  end.

(** serverAssertWithInfo(NULL, o, len != -1) *)
Definition rdbSavedObjectLen (o : robj) : res Z :=
  let! '(len, _) := rdbSaveObject None o in
  match len with Some len => Ok len | None => Fault AssertFailed end.

(** * Loading *)

(** [None] is -1. *)
Definition rdbLoadObjectType r : res (option Z * rio D) :=
  load! type, r := rdbLoadType r in
  if negb (rdbIsObjectType type) then Ok (None, r) else Ok (Some type, r).

Definition deep_integrity_validation : bool :=
  if sanitize_dump_payload server =? SANITIZE_DUMP_CLIENTS then
    let skip := loading server || match current_client server with Some c => client_master c | None => false end in
    let skip := if negb skip then match current_client server with Some c => default skip (user_skip c) | None => skip end else skip in
    negb skip
  else sanitize_dump_payload server =? SANITIZE_DUMP_YES.

(** The string with RDB_LOAD_SDS or RDB_LOAD_PLAIN. *)
Definition load_bytes r (flags : Z) : res (option (list Z) * rio D) :=
  load! v, r := loadString r flags in
  match v with LPlain bs | LSds bs => Ok (Some bs, r) | _ => Fault AssertFailed end.

(** ** Sets *)

(** The three steps of the loop that adds an element; [None] is a corrupt file or a failed
    allocation. *)
Definition to_table (o : setobj) (len : Z) : res (option setobj) :=
  let! '(ok, o) := convertAndExpandSet o OBJ_ENCODING_HT len false (table_malloc len) in Ok (if (ok : bool) then Some o else None).

Definition add_to_intset (o : setobj) (len maxelelen sumelelen : Z) (ele : list Z) : res (option setobj) :=
  match o with
  | SetIntset iset =>
      let! llval := isSdsRepresentableAsLongLong ele in
      match llval with
      | Some llval => let! '(iset, success) := intsetAdd junk iset llval in Ok (if (success : bool) then Some (SetIntset iset) else None)
      | None =>
          let! '(n, o) := setTypeSize o in
          let! safe := lpSafeToAdd None sumelelen in
          if (n <? set_max_listpack_entries (srv_set server)) && (maxelelen <=? set_max_listpack_value (srv_set server)) && safe
          then let! o := convertSet o OBJ_ENCODING_LISTPACK in Ok (Some o)
          else to_table o len
      end
  | _ => Ok (Some o)
  end.

(** An element that an integer set has taken is done. *)
Definition add_to_listpack (o : setobj) (len : Z) (ele : list Z) : res (option setobj) :=
  match o with
  | SetListpack lp =>
      let! '(n, lp) := lpLength lp in
      let! safe := lpSafeToAdd (Some lp) (zlength ele) in
      if (n <? set_max_listpack_entries (srv_set server)) && (zlength ele <=? set_max_listpack_value (srv_set server)) && safe then
        let! p := lpFirst lp in
        let! p := (match p with Some _ => lpFind lp p ele (zlength ele) 0 | None => Ok None end) in
        match p with
        | Some _ => Ok None
        | None => let! lp := not_null (lpAppend junk lp ele (zlength ele)) in Ok (Some (SetListpack lp))
        end
      else to_table (SetListpack lp) len
  | _ => Ok (Some o)
  end.

Definition add_to_table (o : setobj) (ele : list Z) : res (option setobj) :=
  match o with
  | SetHT d alloc_size =>
      let! sdsele := sdsnewlen ele in
      let! '(st, d) := setDictAdd hashFunction dict_can_resize d sdsele in
      Ok (if bool_decide (st = DICT_OK) then Some (SetHT d (u64 (alloc_size + sdsAllocSize ele))) else None)
  | _ => Ok (Some o)
  end.

Definition and_then (o : res (option setobj)) (f : setobj -> res (option setobj)) : res (option setobj) :=
  let! o := o in match o with Some o => f o | None => Ok None end.

Definition add_loaded (o : setobj) (len maxelelen sumelelen : Z) (ele : list Z) : res (option setobj) :=
  and_then (add_to_intset o len maxelelen sumelelen ele) (fun o =>
  and_then (add_to_listpack o len ele) (fun o => add_to_table o ele)).

(** for (i = 0; i < len; i++) with an unsigned int i *)
Fixpoint load_set_loop (fuel : nat) r (o : setobj) (i len maxelelen sumelelen : Z) : res ((Z + robj) * rio D) :=
  if negb (i <? len) then Ok (inr (OSet o), r)
  else
    match fuel with
    | O => Fault OutOfFuel
    | S fuel =>
        try! ele, r := load_bytes r RDB_LOAD_SDS in
        let elelen := zlength ele in
        let sumelelen := u64 (sumelelen + elelen) in
        let maxelelen := if elelen >? maxelelen then elelen else maxelelen in
        let! o := add_loaded o len maxelelen sumelelen ele in
        match o with
        | None => Ok (inl RDB_LOAD_ERR_OTHER, r)
        | Some o => load_set_loop fuel r o (u32 (i + 1)) len maxelelen sumelelen
        end
    end.

(** A new table for [len] entries; small ones grow on demand. *)
Definition new_table {V} (len : Z) : res (option (dict sds V)) :=
  if len >? DICT_HT_INITIAL_SIZE then
    let! '(st, d) := dictTryExpand hashFunction false dict_can_resize dictCreate len (table_malloc len) in
    Ok (if bool_decide (st = DICT_OK) then Some d else None)
  else Ok (Some dictCreate).

Definition rdbLoadSet r : res ((Z + robj) * rio D) :=
  let! '(len, _, r) := rdbLoadLen r in
  if len =? RDB_LENERR then Ok (inl RDB_LOAD_ERR_OTHER, r)
  else if len =? 0 then Ok (inl RDB_LOAD_ERR_EMPTY_KEY, r)
  else if len >? intsetMaxEntries (srv_set server) then
    let! d := new_table len in
    match d with
    | None => Ok (inl RDB_LOAD_ERR_OTHER, r)
    | Some d => load_set_loop (Z.to_nat len) r (SetHT d 0) 0 len 0 0
    end
  else load_set_loop (Z.to_nat len) r (SetIntset intsetNew) 0 len 0 0.

(** ** Sorted sets *)

(** while(zsetlen--); also returns the greatest and the total length of the elements. *)
Fixpoint load_zset_loop (zsetlen : nat) r (zs : zset) (maxelelen totelelen : Z) draws : res (option (zset * Z * Z * list (list Z)) * rio D) :=
  match zsetlen with
  | O => Ok (Some (zs, maxelelen, totelelen, draws), r)
  | S zsetlen =>
      load! ele, r := load_bytes r RDB_LOAD_SDS in
      load! score, r := rdbLoadBinaryDoubleValue r in
      if isnan score then Ok (None, r)
      else
        let! sdsele := sdsnewlen ele in
        let maxelelen := if zlength ele >? maxelelen then zlength ele else maxelelen in
        let totelelen := u64 (totelelen + zlength ele) in
        let! '(ds, draws) := next_draw draws in
        let! '(znode, zsl) := zslInsert usable ele_alloc junk_level (zs_zsl zs) score sdsele ds in
        let! '(st, d) := dictAdd hashFunction dictSdsKeyCompare None false dict_can_resize (zs_dict zs) 0 sdsele znode in
        if negb (bool_decide (st = DICT_OK)) then Ok (None, r)
        else load_zset_loop zsetlen r (mkZset d zsl) maxelelen totelelen draws
  end.

Definition rdbLoadZset r draws : res ((Z + robj) * rio D) :=
  let! '(zsetlen, _, r) := rdbLoadLen r in
  if zsetlen =? RDB_LENERR then Ok (inl RDB_LOAD_ERR_OTHER, r)
  else if zsetlen =? 0 then Ok (inl RDB_LOAD_ERR_EMPTY_KEY, r)
  else
    let zs := createZsetObject usable ele_alloc zsl_size junk_level in
    let! d := new_table zsetlen in
    match d with
    | None => Ok (inl RDB_LOAD_ERR_OTHER, r)
    | Some d =>
        try! v, r := load_zset_loop (Z.to_nat zsetlen) r (mkZset d (zs_zsl zs)) 0 0 draws in
        let '(zs, maxelelen, totelelen, draws) := v in
        let o := ZsetSkiplist zs in
        let! '(n, o) := zsetLength o in
        let! safe := lpSafeToAdd None totelelen in
        if (n <=? zset_max_listpack_entries (srv_zset server)) && (maxelelen <=? zset_max_listpack_value (srv_zset server)) && safe then
          let! '(o, _) := convertZset o ENCODING_LISTPACK draws in Ok (inr (OZset o), r)
        else Ok (inr (OZset o), r)
    end.

(** ** Encoded objects *)

Definition load_intset r : res ((Z + robj) * rio D) :=
  try! encoded, r := load_bytes r RDB_LOAD_PLAIN in
  let! ok := intsetValidateIntegrity encoded (zlength encoded) deep_integrity_validation in
  if negb ok then Ok (inl RDB_LOAD_ERR_OTHER, r)
  else
    let! iset := intset_at encoded in
    if intsetLen iset >? set_max_intset_entries (srv_set server) then
      let! o := convertSet (SetIntset iset) OBJ_ENCODING_HT in Ok (inr (OSet o), r)
    else Ok (inr (OSet (SetIntset iset)), r).

Definition load_set_listpack r : res ((Z + robj) * rio D) :=
  try! encoded, r := load_bytes r RDB_LOAD_PLAIN in
  let! ok := lpValidateIntegrityAndDups junk hashFunction dict_can_resize encoded (zlength encoded) deep_integrity_validation 1 in
  if negb ok then Ok (inl RDB_LOAD_ERR_OTHER, r)
  else
    let! '(n, o) := setTypeSize (SetListpack encoded) in
    if n =? 0 then Ok (inl RDB_LOAD_ERR_EMPTY_KEY, r)
    else
      let! '(n, o) := setTypeSize o in
      if n >? set_max_listpack_entries (srv_set server) then
        let! o := convertSet o OBJ_ENCODING_HT in Ok (inr (OSet o), r)
      else Ok (inr (OSet o), r).

Definition load_zset_listpack r draws : res ((Z + robj) * rio D) :=
  try! encoded, r := load_bytes r RDB_LOAD_PLAIN in
  let! ok := lpValidateIntegrityAndDups junk hashFunction dict_can_resize encoded (zlength encoded) deep_integrity_validation 2 in
  if negb ok then Ok (inl RDB_LOAD_ERR_OTHER, r)
  else
    let! '(n, o) := zsetLength (ZsetListpack encoded) in
    if n =? 0 then Ok (inl RDB_LOAD_ERR_EMPTY_KEY, r)
    else
      let! '(n, o) := zsetLength o in
      if n >? zset_max_listpack_entries (srv_zset server) then
        let! '(o, _) := convertZset o ENCODING_SKIPLIST draws in Ok (inr (OZset o), r)
      else Ok (inr (OZset o), r).

Definition load_string r : res ((Z + robj) * rio D) :=
  try! v, r := rdbLoadEncodedStringObject junk malloc_ok (srv_rdb server) r in
  match v with
  | LObj o => let! o := tryObjectEncodingEx junk (string_options (srv_rdb server)) o in Ok (inr (OString o), r)
  | _ => Fault AssertFailed
  end.

Definition rdbLoadObject (rdbtype : rdb_type) r draws : res ((Z + robj) * rio D) :=
  match rdbtype with
  | RDB_TYPE_STRING => load_string r
  | RDB_TYPE_SET => rdbLoadSet r
  | RDB_TYPE_ZSET_2 => rdbLoadZset r draws
  | RDB_TYPE_SET_INTSET => load_intset r
  | RDB_TYPE_SET_LISTPACK => load_set_listpack r
  | RDB_TYPE_ZSET_LISTPACK => load_zset_listpack r draws
  end.
End RdbObj.
