(* ===== verification/RdbSetSpec.v ===== *)
(** Persistence: a set object that was saved loads as the same set, in every encoding and
    under every configuration. *)

From Stdlib Require Import SpecFloat.
From stdpp Require Import gmap.
From S2P Require Import Prelude Machine UtilNum Double DoubleConv Iterable Intset Listpack ListpackEnc ListpackSeq ListpackRead ListpackUpd ListpackSpec Dict DictInv DictOps DictIter SetType SetTypeSpec Skiplist Zzl Zset Lzf Rio StringObj Rdb RdbSpec RdbDups RdbObj.

(** Every text of an integer is at least a third of its entry in a listpack. *)
Lemma int_entry_text v : in_s 64 v -> lpEntrySizeInteger v <= 3 * zlength (int_text v).
Proof.
  intros Hv. rewrite int_entry_cases.
  assert (Hsz : forall d l, ndigits (Z.abs v) d -> zlength l >= d -> (if (0 <=? v) && (v <=? 127) then 2 else if (-4096 <=? v) && (v <=? 4095) then 3
    else if (-32768 <=? v) && (v <=? 32767) then 4 else if (-8388608 <=? v) && (v <=? 8388607) then 5
    else if (-2147483648 <=? v) && (v <=? 2147483647) then 6 else 10) <= 3 * zlength (l : list Z)).
  { intros d l (Hd & Hlt & _) Hl. destruct (Z.le_gt_cases 4 d) as [H4|H4]; [repeat case_match; lia|].
    assert (10 ^ d <= 1000) by (change 1000 with (10 ^ 3); apply Z.pow_le_mono_r; lia). repeat case_match; lia. }
  destruct (proj2 (int_text_eq v _ Hv) eq_refl) as [l Hn [d Hd]|l Hn [d Hd]].
  - apply (Hsz d); [by rewrite Z.abs_eq|]. rewrite length_digs. destruct Hd. lia.
  - apply (Hsz d); [by rewrite Z.abs_neq by lia|]. cbn [length]. rewrite length_digs. destruct Hd. lia.
Qed.

Lemma lengths_nonneg (l : list (list Z)) : 0 <= alloc_total (fun t => zlength t) l.
Proof. induction l as [|x l IH]; simpl; lia. Qed.

Lemma total_texts xs : Forall (in_s 64) xs -> total (EInt <$> xs) <= 7 + 3 * alloc_total (fun t => zlength t) (int_text <$> xs).
Proof.
  induction xs as [|v xs IH] using rev_ind; [done|]. rewrite Forall_app, !fmap_app. intros [Hf [Hv _]%Forall_cons_1]. cbn [fmap list_fmap].
  rewrite total_snoc. destruct (int_entry_size v) as [<- _]. pose proof (int_entry_text v Hv). specialize (IH Hf).
  assert (forall l t, alloc_total (fun t => zlength t) (l ++ [t]) = alloc_total (fun t => zlength t) l + zlength t) as ->.
  { intros l t. induction l as [|x l IHl]; [simpl; lia|]. cbn [app alloc_total foldr] in *. unfold alloc_total in IHl. rewrite IHl. lia. }
  unfold fmap in *. lia.
Qed.

(** A new table is empty; the allocation does not fail. *)
Lemma tryExpand_ok {V} (hash : sds -> Z) can_resize (d : dict sds V) size st d' :
  dictTryExpand hash false can_resize d size true = Ok (st, d') -> st = DICT_OK.
Proof.
  unfold dictTryExpand, _dictExpand, _dictResize. repeat case_match; intros; simplify_eq; done.
Qed.

(** * Streams of values *)

Section Streams.
Context {D : Type} `{BD : RioBackend D, SD : !Stream D}.

Lemma loads_try {A B} (f : rio D -> res (option A * rio D)) (k : A -> rio D -> res ((Z + B) * rio D)) bs1 v bs2 w :
  loads f bs1 (Some v) -> loads (k v) bs2 w -> loads (fun r => try! x, r := f r in k x r) (bs1 ++ bs2) w.
Proof.
  intros Hf Hk r rest Hr Hu. rewrite <- (assoc_L (++)) in Hu. destruct (Hf r _ Hr Hu) as (r1 & -> & Hr1 & Hu1). apply (Hk r1 rest Hr1 Hu1).
Qed.

Lemma loads_try_last {A B} (f : rio D -> res (option A * rio D)) (k : A -> rio D -> res ((Z + B) * rio D)) bs v w :
  loads f bs (Some v) -> (forall r, k v r = Ok (w, r)) -> loads (fun r => try! x, r := f r in k x r) bs w.
Proof. intros Hf Hk r rest Hr Hu. destruct (Hf r rest Hr Hu) as (r1 & -> & Hr1 & Hu1). exists r1. by rewrite Hk. Qed.

Lemma loads_ext {A} (f g : rio D -> res (A * rio D)) bs v : (forall r, g r = f r) -> loads f bs v -> loads g bs v.
Proof. intros E Hf r rest Hr Hu. rewrite E. by apply Hf. Qed.
End Streams.

(** What the surroundings must provide: a compressor table and addresses, and memory. *)
Record env_ok (malloc_ok : Z -> bool) (htab : list Z -> htable) (address : list Z -> Z) (table_malloc : Z -> bool) : Prop := {
  env_lzf str : zlength str < 2 ^ 32 -> lzf_env_ok htab address str;
  env_malloc : malloc_up_to malloc_ok (2 ^ 32);
  env_table n : table_malloc n = true
}.

Section Spec.
Context {D : Type} `{BD : RioBackend D, SD : !Stream D}.
Context (junk : Z) (malloc_ok : Z -> bool) (htab : list Z -> htable) (address : list Z -> Z) (server : rdb_server).
Context (hashFunction : sds -> Z) (table_address : list (list (sds * unit)) -> Z) (sdsAllocSize : list Z -> Z).
Context (dict_can_resize : dictResizeEnable) (table_malloc : Z -> bool).
Hypothesis Henv : env_ok malloc_ok htab address table_malloc.
Implicit Types (X : gset (list Z)) (str : list Z) (strs : list (list Z)).

Notation saveRawString := (rdbSaveRawString junk htab address (srv_rdb server)).
Notation string_bytes := (@RdbSpec.string_bytes D _ _ junk malloc_ok (srv_rdb server)).
Notation load_bytes := (load_bytes junk malloc_ok server).
Notation set_rep := (set_rep hashFunction sdsAllocSize).
Notation ht_members := (ht_members hashFunction sdsAllocSize).
Notation to_table := (to_table junk hashFunction table_address sdsAllocSize dict_can_resize table_malloc).
Notation add_to_listpack := (add_to_listpack junk server hashFunction table_address sdsAllocSize dict_can_resize table_malloc).
Notation add_to_intset := (add_to_intset junk server hashFunction table_address sdsAllocSize dict_can_resize table_malloc).
Notation add_to_table := (add_to_table hashFunction sdsAllocSize dict_can_resize).
Notation add_loaded := (add_loaded junk server hashFunction table_address sdsAllocSize dict_can_resize table_malloc).
Notation load_set_loop := (load_set_loop junk malloc_ok server hashFunction table_address sdsAllocSize dict_can_resize table_malloc).
Notation save_set_loop := (save_set_loop junk htab address server table_address).

(** ** Strings *)

Lemma save_str str : bytes_ok str -> zlength str < 2 ^ 32 ->
  exists bs, saves (D := D) (fun rdb => saveRawString rdb str) bs (zlength bs) /\ string_bytes str bs /\ 0 < zlength bs.
Proof.
  intros Hb Hl. apply saveRaw_spec; [done|pow_const; lia|by apply (env_lzf _ _ _ _ Henv)|]. intros k Hk. apply (env_malloc _ _ _ _ Henv). lia.
Qed.

Lemma load_str str bs flags : flags = RDB_LOAD_SDS \/ flags = RDB_LOAD_PLAIN -> string_bytes str bs ->
  loads (fun r => load_bytes r flags) bs (Some str).
Proof.
  intros Hf Hb. destruct (Hb flags) as (w & Hw & Hload). unfold RdbObj.load_bytes. eapply loads_last; [exact Hload|]. intros r.
  unfold string_loaded in Hw. by destruct Hf as [-> | ->]; simpl in Hw; subst w.
Qed.

(** The bytes of several strings, one after the other. *)
Fixpoint strings_bytes strs (bs : list Z) : Prop :=
  match strs with
  | [] => bs = []
  | str :: strs => exists b bs', bs = b ++ bs' /\ string_bytes str b /\ strings_bytes strs bs'
  end.

(** ** Adding a loaded element *)

Lemma table_step d a X ele : ht_members d a X -> ele ∉ X -> bytes_ok ele -> zlength ele < 2147483648 -> Z.of_nat (size X) + 1 < 2 ^ 58 ->
  exists o', add_to_table (SetHT d a) ele = Ok (Some o') /\ set_rep o' ({[ele]} ∪ X).
Proof.
  intros Hm Hn Hb Hl Hsz. unfold RdbObj.add_to_table. destruct (sdsnewlen_ok ele Hl) as (k & -> & Hk). rewrite <- Hk in *.
  destruct (ht_add_new_contract hashFunction sdsAllocSize dict_can_resize d a X k Hm Hn Hb Hsz) as (d' & a' & Ha & Hm'). unfold ht_add_new in Ha. cbn [fst snd] in Ha.
  destruct (setDictAdd hashFunction dict_can_resize d k) as [[st d2]|]; [|done]. destruct (bool_decide (st = DICT_OK)); [|done]. injection Ha as -> <-.
  eexists. split; [done|]. by apply ht_rep.
Qed.

Lemma to_table_spec o X len : set_rep o X -> encoding_of o <> OBJ_ENCODING_HT -> 0 <= len -> Z.of_nat (size X) < 2 ^ 58 ->
  exists d a, to_table o len = Ok (Some (SetHT d a)) /\ ht_members d a X.
Proof.
  intros Hr He Hl Hsz. unfold RdbObj.to_table. rewrite (env_table _ _ _ _ Henv).
  destruct (convert_ht junk hashFunction table_address sdsAllocSize dict_can_resize o X len false true Hr He Hl Hsz) as (r & o' & Hc & _ & Ho). rewrite Hc.
  assert (r = true) as ->.
  { unfold setTypeConvertAndExpand in Hc. rewrite bool_decide_eq_false_2 in Hc by done. cbn [negb] in Hc.
    destruct (dictTryExpand _ _ _ _ _ _) as [[st d]|] eqn:Ht; [|done]. rewrite (tryExpand_ok _ _ _ _ _ _ Ht) in Hc. cbn [bool_decide decide negb] in Hc.
    change (negb (bool_decide (DICT_OK = DICT_OK))) with false in Hc. cbn iota in Hc. by destruct (set_each _ _ _ _) as [[d' a']|]; [injection Hc as <- _|]. }
  destruct Ho as (d & a & -> & Hm). by exists d, a.
Qed.

Lemma listpack_step lp X ele len : set_rep (SetListpack lp) X -> ele ∉ X -> bytes_ok ele -> zlength ele < 2147483648 -> 0 <= len -> Z.of_nat (size X) + 1 < 2 ^ 58 ->
  exists o', and_then (add_to_listpack (SetListpack lp) len ele) (fun o => add_to_table o ele) = Ok (Some o') /\ set_rep o' ({[ele]} ∪ X).
Proof.
  intros Hr Hn Hb Hl Hlen Hsz. pose proof Hr as (els & (es & Hlp & ->) & Hels). pose proof Hlp as (n & slack & -> & Hwf). cbn [RdbObj.add_to_listpack].
  destruct (length_contract n slack es Hwf) as (lp' & -> & Hlp' & _). rewrite (safeToAdd_some lp' es) by (first [done | pow_const; lia]).
  assert (Hr' : set_rep (SetListpack lp') X) by (exists (lp_elem <$> es); split; [by exists es|done]). destruct (_ && _) eqn:Ec.
  - apply andb_true_iff in Ec as [_ Hsafe%Z.leb_le]. unfold LISTPACK_MAX_SAFETY_SIZE in Hsafe.
    assert ((let! p := lpFirst lp' in match p with Some _ => lpFind lp' p ele (zlength ele) 0 | None => Ok None end) = Ok None) as Hfind.
    { destruct (lp_search lp' es X ele Hlp' Hels) as [[-> _]|(p & r & -> & -> & Hs)]; [done|]. destruct r; [|done]. by destruct Hs as (_ & _ & Hs). }
    destruct (lpFirst lp') as [p|]; [|done]. rewrite Hfind.
    destruct (text_elem_of ele Hb Hl) as (Hok & _ & Ht). destruct (append_str junk lp' es ele Hlp' Hb Hl) as (lp2 & -> & Hlp2); [unfold UINT32_MAX; lia|].
    eexists. split; [reflexivity|]. eexists. split; [by eexists|]. rewrite fmap_app. rewrite <- Ht at 2. apply elements_snoc; [done..|by rewrite Ht].
  - destruct (to_table_spec (SetListpack lp') X len Hr' ltac:(done) Hlen ltac:(lia)) as (d & a & -> & Hm). by apply table_step.
Qed.

Lemma step_from o X ele len : set_rep o X -> encoding_of o <> OBJ_ENCODING_INTSET -> ele ∉ X -> bytes_ok ele -> zlength ele < 2147483648 -> 0 <= len ->
  Z.of_nat (size X) + 1 < 2 ^ 58 ->
  exists o', and_then (add_to_listpack o len ele) (fun o => add_to_table o ele) = Ok (Some o') /\ set_rep o' ({[ele]} ∪ X).
Proof.
  intros Hr He Hn Hb Hl Hlen Hsz. destruct o as [iset|lp|d a]; [done|by apply listpack_step|]. apply ht_rep in Hr. by apply table_step.
Qed.

Lemma convert_to_listpack iset X (sum : Z) : set_rep (SetIntset iset) X -> alloc_total (fun t => zlength t) (elements X) <= sum <= 1073741824 ->
  exists lp, setTypeConvert junk hashFunction table_address sdsAllocSize dict_can_resize (SetIntset iset) OBJ_ENCODING_LISTPACK = Ok (SetListpack lp) /\ set_rep (SetListpack lp) X.
Proof.
  intros Hr Hsum. pose proof Hr as Hr2. apply intset_rep in Hr2 as (xs & HR & Hsm & HX). pose proof (intset_in_s _ _ HR) as Hf.
  destruct (intset_elements iset xs HR) as (Hok & Hnd & _). assert (Hxs : text <$> (ElInt <$> xs) = int_text <$> xs) by (by rewrite <- list_fmap_compose). rewrite Hxs in Hnd.
  assert (Hp : elements X ≡ₚ int_text <$> xs) by (rewrite HX; by apply elements_list_to_set).
  pose proof (total_texts xs Hf) as Ht. rewrite <- (alloc_total_perm _ _ _ Hp) in Ht.
  unfold setTypeConvert, setTypeSize. destruct (convert_intset_total junk hashFunction table_address sdsAllocSize dict_can_resize iset xs (intsetLen iset) HR Hsm) as (lp & Hc & Hlp);
    [unfold UINT32_MAX; lia|]. rewrite Hc. exists lp. split; [done|]. exists (ElInt <$> xs). split.
  - exists (EInt <$> xs). split; [done|]. by rewrite <- list_fmap_compose.
  - by rewrite HX; apply intset_elements with iset.
Qed.

Lemma add_loaded_spec o X len (maxlen sum : Z) ele : set_rep o X -> ele ∉ X -> bytes_ok ele -> zlength ele < 2147483648 -> 0 <= len ->
  Z.of_nat (size X) < 536870911 -> alloc_total (fun t => zlength t) (elements X) <= sum < 2 ^ 64 ->
  exists o', add_loaded o len maxlen sum ele = Ok (Some o') /\ set_rep o' ({[ele]} ∪ X).
Proof.
  intros Hr Hn Hb Hl Hlen Hsz Hsum. unfold RdbObj.add_loaded.
  destruct o as [iset|lp|d a]; [|apply (step_from (SetListpack lp)); (first [done | pow_const; lia])|apply (step_from (SetHT d a)); (first [done | pow_const; lia])].
  cbn [RdbObj.add_to_intset]. unfold isSdsRepresentableAsLongLong. destruct (string2ll_whole ele) as (rv & -> & Hs). destruct rv as [v|].
  - destruct (proj1 (Hs v) eq_refl) as [Hv Ht]. apply (int_text_eq v ele Hv) in Ht. subst ele.
    pose proof (intset_size _ _ _ _ Hr) as Hls. apply intset_rep in Hr as (xs & HR & Hsm & HX). unfold intsetLen in Hls. rewrite (repr_len _ _ HR) in Hls.
    destruct (add_list junk iset xs v HR Hsm Hv) as (iset' & xs' & -> & HR' & Hin & Hlx).
    rewrite bool_decide_eq_true_2 by (rewrite HX, int_member in Hn; [done|by eapply intset_in_s|done]). eexists. split; [reflexivity|].
    apply intset_rep. exists xs'. split_and!; [done|unfold small; lia|]. rewrite HX. by apply insert_texts.
  - unfold setTypeSize. pose proof (lengths_nonneg (elements X)). assert (lpSafeToAdd None sum = Ok (sum <=? 1073741824)) as ->.
    { unfold lpSafeToAdd. rewrite u_id by (pow_const; lia). rewrite Z.gtb_ltb. unfold LISTPACK_MAX_SAFETY_SIZE. by zbool; try lia. }
    destruct (_ && _) eqn:Ec.
    + apply andb_true_iff in Ec as [_ Hsafe%Z.leb_le]. destruct (convert_to_listpack iset X sum Hr) as (lp & -> & Hr'); [lia|].
      apply (step_from (SetListpack lp)); (first [done | pow_const; lia]).
    + destruct (to_table_spec (SetIntset iset) X len Hr ltac:(done) Hlen) as (d & a & -> & Hm); [pow_const; lia|].
      apply (step_from (SetHT d a)); [by apply ht_rep|done..|pow_const; lia].
Qed.

(** ** The table *)

Notation dict_spec := (dict_iterator_spec hashFunction table_address).

(** The next entry, after which the iterator can be released. *)
Lemma next_entry (d : dict sds unit) it es : to_come (IteratorSpec := dict_spec) d it es ->
  exists it', dictNext table_address d it = Ok (head es, d, it') /\ dictResetIterator table_address d it' = Ok d /\
    match es with [] => True | _ :: es => to_come (IteratorSpec := dict_spec) d it' es end.
Proof.
  intros (Hd & Hs & Ht & Hfp). destruct (dictNext_spec hashFunction table_address d it es Hd Ht) as (it' & Hn & Hs' & Hf & Hst & Hto).
  assert (it_fingerprint it' = dictFingerprint table_address d) as Hfp' by (rewrite (Hf Hs); destruct (decide _); [done|by apply Hfp]).
  exists it'. rewrite Hn. unfold iter_dict. rewrite Hs, andb_false_r. split; [done|]. split.
  - unfold dictResetIterator. rewrite Hs', Hs, Hfp', Z.eqb_refl. by destruct (negb _).
  - destruct es as [|e es]; [done|]. split; [done|]. split; [by rewrite Hs'|]. split; [by apply Hto|done].
Qed.

Lemma save_table_spec d es : forall it fuel n, to_come (IteratorSpec := dict_spec) d it es -> (length es < fuel)%nat ->
  Forall (fun e : sds * unit => bytes_ok (sds_bytes e.1)) es ->
  exists bs, saves (D := D) (fun rdb => save_set_loop fuel d it rdb n) bs (n + zlength bs) /\ strings_bytes ((fun e => sds_bytes e.1) <$> es) bs.
Proof.
  induction es as [|[ele []] es IH]; intros it fuel n Ht Hf Hok; (destruct fuel as [|fuel]; [simpl in Hf; lia|]);
    destruct (next_entry d it _ Ht) as (it' & Hn & Hr & Ht'); cbn [head] in Hn.
  - exists []. split; [|done]. rewrite Z.add_0_r. eapply saves_ext; [|apply saves_done]. intros rdb. cbn [RdbObj.save_set_loop]. by rewrite Hn, Hr.
  - apply Forall_cons_1 in Hok as [Hb Hok]. cbn [fst] in Hb. pose proof (sds_length ele) as Hl.
    destruct (save_str (sds_bytes ele) Hb ltac:(pow_const; lia)) as (b & Hs & Hsb & _).
    destruct (IH it' fuel (n + zlength b) Ht' ltac:(simpl in Hf; lia) Hok) as (bs & Hss & Hssb). exists (b ++ bs). split; [|by exists b, bs].
    rewrite length_app, Nat2Z.inj_add, Z.add_assoc.
    eapply saves_ext; [|eapply (saves_seq _ (fun m rdb => save_set_loop fuel d it' rdb (n + m))); [exact Hs|exact Hss]].
    intros rdb. cbn [RdbObj.save_set_loop]. rewrite Hn. destruct (saveRawString rdb (sds_bytes ele)) as [[[m|] rdb']|]; [done|by rewrite Hr|done].
Qed.

Lemma load_set_spec strs : forall pre o bs fuel (maxlen sum : Z), set_rep o (list_to_set pre) -> NoDup (pre ++ strs) ->
  Forall (fun str => bytes_ok str /\ zlength str < 2147483648) strs -> strings_bytes strs bs -> (length strs <= fuel)%nat ->
  alloc_total (fun t => zlength t) (elements (list_to_set pre : gset (list Z))) <= sum <= 2147483648 * zlength pre -> zlength (pre ++ strs) < 536870911 ->
  exists o', loads (fun r => load_set_loop fuel r o (zlength pre) (zlength (pre ++ strs)) maxlen sum) bs (inr (OSet o')) /\ set_rep o' (list_to_set (pre ++ strs)).
Proof.
  induction strs as [|str strs IH]; intros pre o bs fuel maxlen sum Hr Hnd Hok Hbs Hf Hsum Hlen.
  { rewrite app_nil_r in *. simpl in Hbs. subst bs. exists o. split; [|done]. eapply loads_ext; [|apply loads_done]. intros r.
    destruct fuel; cbn [RdbObj.load_set_loop]; by rewrite Z.ltb_irrefl. }
  destruct fuel as [|fuel]; [simpl in Hf; lia|]. destruct Hbs as (b & bs' & -> & Hsb & Hbs'). apply Forall_cons_1 in Hok as [[Hb Hl] Hok].
  rewrite length_app in Hlen. cbn [length] in Hlen.
  assert (Hn : str ∉ (list_to_set pre : gset (list Z))).
  { rewrite elem_of_list_to_set. intros Hin. apply list.NoDup_app in Hnd as (_ & Hnd & _). apply (Hnd str Hin). left. }
  assert (Hsz : Z.of_nat (size (list_to_set pre : gset (list Z))) < 536870911).
  { apply list.NoDup_app in Hnd as (Hnd & _). rewrite size_list_to_set by done. lia. }
  set (sum' := u64 (sum + zlength str)). set (max' := if zlength str >? maxlen then zlength str else maxlen).
  pose proof (alloc_total_insert (fun t => zlength t) (list_to_set pre) str Hn) as Hins.
  pose proof (lengths_nonneg (elements (list_to_set pre : gset (list Z)))) as Htot0.
  assert (Es : sum' = sum + zlength str) by (apply u_id; pow_const; lia).
  destruct (add_loaded_spec o (list_to_set pre) (zlength (pre ++ str :: strs)) max' sum' str Hr Hn Hb Hl ltac:(lia) Hsz) as (o1 & Hadd & Hr1); [pow_const; lia|].
  assert (Hset : list_to_set (pre ++ [str]) = {[str]} ∪ (list_to_set pre : gset (list Z))) by (rewrite list_to_set_app_L; set_solver).
  destruct (IH (pre ++ [str]) o1 bs' fuel max' sum') as (o' & Hload & Hr').
  - by rewrite Hset.
  - by rewrite <- (assoc_L (++)).
  - done.
  - done.
  - simpl in Hf. lia.
  - rewrite Hset, Hins, Es, length_app. simpl. lia.
  - rewrite <- (assoc_L (++)), length_app. cbn [app length]. lia.
  - rewrite <- (assoc_L (++)) in Hload, Hr'. cbn [app] in Hload, Hr'. exists o'. split; [|done].
    intros r rest Hcr Hu. rewrite <- (assoc_L (++)) in Hu. destruct (load_str str b RDB_LOAD_SDS (or_introl eq_refl) Hsb r _ Hcr Hu) as (r1 & Hl1 & Hcr1 & Hu1).
    cbn [RdbObj.load_set_loop]. rewrite (proj2 (Z.ltb_lt _ _)) by (rewrite length_app; simpl; lia). cbn [negb]. rewrite Hl1. cbv zeta. fold sum' max'. rewrite Hadd.
    replace (u32 (zlength pre + 1)) with (zlength (pre ++ [str])) by (rewrite u_id by (pow_const; lia); rewrite length_app; simpl; lia). by apply Hload.
Qed.
End Spec.
