(* ===== verification/RdbSetObj.v ===== *)
(** Persistence: the set objects of each encoding.  Whatever an object is saved as, loading
    the bytes gives an object that represents the same set. *)

From Stdlib Require Import SpecFloat.
From stdpp Require Import gmap.
From S2P Require Import Prelude Machine UtilNum Double DoubleConv Iterable Intset Listpack ListpackEnc ListpackSeq ListpackRead ListpackUpd ListpackSpec Dict DictInv DictOps DictIter SetType SetTypeSpec Skiplist Zzl Zset Lzf Rio StringObj Rdb RdbSpec RdbDups RdbObj RdbSetSpec.

(** * The bytes of an integer set *)

Section Blob.
Context (iset : intset) (xs : list Z) (HR : repr iset xs) (Hlen : zlength xs < 536870911).

Lemma blob_length : zlength (blob iset) = 8 + is_length iset * encoding iset /\ zlength (blob iset) < 2 ^ 32.
Proof.
  pose proof (repr_enc _ _ HR) as He. pose proof (repr_len _ _ HR) as Hl. pose proof (repr_contents _ _ HR) as Hc. unfold blob. rewrite Hc.
  rewrite !length_app, !length_le_enc, length_enc_seq. pose proof (valid_enc_bounds _ He). rewrite Hl. pow_const. nia.
Qed.

Lemma blob_bytes : bytes_ok (blob iset).
Proof.
  unfold blob. rewrite !bytes_ok_app. split; [apply le_enc_bytes|]. split; [apply le_enc_bytes|]. rewrite (repr_contents _ _ HR). unfold enc_seq.
  clear. induction xs as [|x l IH]; [constructor|]. cbn [map concat]. apply bytes_ok_app. split; [apply le_enc_bytes|exact IH].
Qed.

Lemma blob_len : intsetBlobLen iset = zlength (blob iset).
Proof.
  destruct blob_length as [-> Hb]. unfold intsetBlobLen, sizeof_intset. pose proof (repr_enc _ _ HR) as He. pose proof (valid_enc_bounds _ He). pose proof (repr_len _ _ HR) as Hl.
  assert (0 <= is_length iset * encoding iset < 8589934592) by (rewrite Hl; nia). rewrite !u_id by (rewrite ?u_id; pow_const; lia). done.
Qed.

Lemma blob_at : intset_at (blob iset) = Ok iset.
Proof.
  unfold intset_at, blob. destruct (load_header (le_enc 4 (encoding iset)) (le_enc 4 (is_length iset)) (contents iset)) as (-> & -> & ->); [by rewrite length_le_enc..|].
  pose proof (repr_enc _ _ HR) as He. pose proof (valid_enc_bounds _ He). pose proof (repr_len _ _ HR) as Hl.
  rewrite !le_dec_enc, !Z.mod_small by (pow_const; simpl; pow_const; lia). by destruct iset.
Qed.

Lemma blob_valid deep : xs <> [] -> intsetValidateIntegrity (blob iset) (zlength (blob iset)) deep = Ok true.
Proof.
  intros Hne. destruct (intsetValidateIntegrity_correct (blob iset) _ blob_bytes eq_refl (proj2 blob_length)) as (b & Hv & Hb).
  assert (b = true) as -> by (apply Hb; by exists iset, xs). destruct deep; [done|]. revert Hv. unfold intsetValidateIntegrity.
  destruct (_ <? _); [done|]. destruct (load 0 4 _); [|done]. destruct (load 4 4 _); [|done]. cbv zeta.
  destruct (_ || _); [|done]. destruct (negb _); [done|]. by destruct (_ =? 0).
Qed.
End Blob.

Section Spec.
Context {D : Type} `{BD : RioBackend D, SD : !Stream D}.
Context (junk : Z) (malloc_ok : Z -> bool) (htab : list Z -> htable) (address : list Z -> Z) (server : rdb_server).
Context (hashFunction : sds -> Z) (table_address : list (list (sds * unit)) -> Z) (sdsAllocSize : list Z -> Z).
Context (dict_can_resize : dictResizeEnable) (table_malloc : Z -> bool).
Hypothesis Henv : env_ok malloc_ok htab address table_malloc.
Implicit Types (X : gset (list Z)) (o : setobj).

Notation string_bytes := (@RdbSpec.string_bytes D _ _ junk malloc_ok (srv_rdb server)).
Notation set_rep := (set_rep hashFunction sdsAllocSize).
Notation ht_members := (ht_members hashFunction sdsAllocSize).
Notation strings_bytes := (strings_bytes (D := D) junk malloc_ok server).
Notation save o := (fun rdb => rdbSaveObject (D := D) junk htab address server table_address rdb (OSet o)).
Notation rdbLoadSet := (rdbLoadSet (D := D) junk malloc_ok server hashFunction table_address sdsAllocSize dict_can_resize table_malloc).
Notation load_intset := (load_intset (D := D) junk malloc_ok server hashFunction table_address sdsAllocSize dict_can_resize).
Notation load_set_listpack := (load_set_listpack (D := D) junk malloc_ok server hashFunction table_address sdsAllocSize dict_can_resize).
Notation load_set_loop := (load_set_loop (D := D) junk malloc_ok server hashFunction table_address sdsAllocSize dict_can_resize table_malloc).

(** The object is saved, and [load] gives back the set. *)
Definition set_kept o (load : rio D -> res ((Z + robj) * rio D)) X : Prop :=
  exists bs, saves (save o) bs (zlength bs) /\ 0 < zlength bs /\ exists o', loads load bs (inr (OSet o')) /\ set_rep o' X.

(** ** Hash tables *)

(** The loop of rdbLoadSet on an empty object. *)
Lemma fresh_loop strs bs o : strs <> [] -> NoDup strs -> Forall (fun str => bytes_ok str /\ zlength str < 2147483648) strs -> strings_bytes strs bs ->
  zlength strs < 536870911 -> set_rep o ∅ ->
  exists o', loads (fun r => load_set_loop (Z.to_nat (zlength strs)) r o 0 (zlength strs) 0 0) bs (inr (OSet o')) /\ set_rep o' (list_to_set strs).
Proof.
  intros Hne Hnd Hok Hb Hl Ho. rewrite Nat2Z.id.
  apply (load_set_spec junk malloc_ok htab address server hashFunction table_address sdsAllocSize dict_can_resize table_malloc Henv strs [] o bs (length strs) 0 0 Ho Hnd Hok Hb);
    [lia|cbn [list_to_set]; rewrite elements_empty; simpl; lia|done].
Qed.

Lemma new_table_moved {V} len : 0 <= len ->
  exists d, new_table hashFunction dict_can_resize table_malloc len = Ok (Some d) /\ moved hashFunction (dictCreate : dict sds V) d.
Proof.
  intros Hl. pose proof (proj1 (create_contract hashFunction) : dict_ok hashFunction (dictCreate : dict sds V)) as Hc. unfold new_table. destruct (_ >? _).
  - rewrite (env_table _ _ _ _ Henv). destruct (tryExpand_spec hashFunction dict_can_resize false (dictCreate : dict sds V) len true Hc Hl) as (st & d & Hd & [Hm _ _ _]).
    rewrite Hd. rewrite (tryExpand_ok _ _ _ _ _ _ Hd). exists d. by rewrite bool_decide_eq_true_2.
  - exists dictCreate. split; [done|]. by apply moved_refl.
Qed.

Lemma empty_intset : set_rep (SetIntset intsetNew) ∅.
Proof. apply intset_rep. exists []. split; [|done]. split; [by left|done..|constructor|constructor]. Qed.

Lemma load_strings strs bs : strs <> [] -> NoDup strs -> Forall (fun str => bytes_ok str /\ zlength str < 2147483648) strs -> strings_bytes strs bs ->
  zlength strs < 536870911 ->
  exists o', loads rdbLoadSet (len_bytes (zlength strs) ++ bs) (inr (OSet o')) /\ set_rep o' (list_to_set strs).
Proof.
  intros Hne Hnd Hok Hb Hl. destruct (new_table_moved (V := unit) (zlength strs) ltac:(lia)) as (d & Hd & Hm).
  assert (Hn : exists o, (if zlength strs >? intsetMaxEntries (srv_set server)
      then let! d := new_table hashFunction dict_can_resize table_malloc (zlength strs) in Ok (match d with Some d => Some (SetHT d 0) | None => None end)
      else Ok (Some (SetIntset intsetNew))) = Ok (Some o) /\ set_rep o ∅).
  { destruct (_ >? _); [rewrite Hd; exists (SetHT d 0); split; [done|by apply ht_rep, fresh_members]|exists (SetIntset intsetNew); split; [done|apply empty_intset]]. }
  destruct Hn as (o & Hn & Ho). destruct (fresh_loop strs bs o Hne Hnd Hok Hb Hl Ho) as (o' & Hload & Hr). exists o'. split; [|done].
  unfold RdbObj.rdbLoadSet. apply (loads_then (fun len e r => _) _ (zlength strs) false bs); [apply loadLen_spec; pow_const; lia|].
  assert (0 < zlength strs) by (destruct strs; [done|simpl; lia]). eapply loads_ext; [|exact Hload]. intros r.
  rewrite (proj2 (Z.eqb_neq _ RDB_LENERR)) by (unfold RDB_LENERR, ULLONG_MAX; lia). rewrite (proj2 (Z.eqb_neq _ 0)) by lia.
  destruct (_ >? _); [|by injection Hn as <-]. rewrite Hd in Hn |- *. by injection Hn as <-.
Qed.

Lemma table_kept d a X : ht_members d a X -> X <> ∅ -> Z.of_nat (size X) < 536870911 -> set_kept (SetHT d a) rdbLoadSet X.
Proof.
  intros Hm HX Hsz. pose proof Hm as Hm'. apply ht_rep in Hm' as (els & (m & Hr & _ & -> & _) & Hok & Hnd & HXe).
  set (strs := (fun e : sds * unit => sds_bytes e.1) <$> DictInv.entries d).
  assert (Hs : text <$> (ht_elem <$> DictInv.entries d) = strs) by (unfold strs; by rewrite <- list_fmap_compose). rewrite Hs in *.
  assert (Hlen : zlength strs = Z.of_nat (size X)) by (rewrite HXe, size_list_to_set by done; done).
  assert (Hoks : Forall (fun str => bytes_ok str /\ zlength str < 2147483648) strs).
  { apply list.Forall_forall. intros str Hin. apply list_elem_of_fmap in Hin as (e & -> & He). rewrite list.Forall_forall in Hok.
    apply (Hok (ht_elem e)). by apply list_elem_of_fmap_2. }
  destruct (ht_size _ _ _ _ _ _ Hm Hr) as [Hds _].
  destruct (save_table_spec junk malloc_ok htab address server hashFunction table_address table_malloc Henv d (DictInv.entries d) dictInitIterator (S (Z.to_nat (dictSize d)))
    (zlength (len_bytes (dictSize d)))) as (bs & Hsave & Hb).
  - apply dict_to_come, Hr.
  - rewrite Hds, <- Hlen. unfold strs. rewrite length_fmap. lia.
  - unfold strs in Hoks. rewrite Forall_fmap in Hoks. eapply list.Forall_impl; [exact Hoks|]. by intros e [? _].
  - fold strs in Hb. exists (len_bytes (dictSize d) ++ bs). split; [|split].
    + rewrite length_app, Nat2Z.inj_add. cbn [rdbSaveObject]. apply (saves_seq _ (fun n rdb => _) _ (zlength (len_bytes (dictSize d)))); [apply saveLen_spec; lia|exact Hsave].
    + rewrite length_app. unfold len_bytes. repeat case_match; simpl; lia.
    + rewrite Hds, <- Hlen. rewrite HXe. apply load_strings; [|done..|lia]. intros E. rewrite HXe, E in HX. done.
Qed.

(** ** Integer sets *)

(** A conversion to a hash table, without limits on memory. *)
Lemma convert_to_table o X : set_rep o X -> encoding_of o <> OBJ_ENCODING_HT -> Z.of_nat (size X) < 2 ^ 58 ->
  exists o', setTypeConvert junk hashFunction table_address sdsAllocSize dict_can_resize o OBJ_ENCODING_HT = Ok o' /\ set_rep o' X.
Proof.
  intros Hr He Hsz. unfold setTypeConvert. destruct (size_set_contract hashFunction sdsAllocSize o X Hr) as (o1 & -> & Hr1 & He1).
  destruct (convert_ht junk hashFunction table_address sdsAllocSize dict_can_resize o1 X (Z.of_nat (size X)) true true Hr1) as (r & o' & -> & Hp & Ho); [congruence|lia|done|].
  rewrite (Hp eq_refl) in Ho. destruct Ho as (d & a & -> & Hm). eexists. split; [done|]. by apply ht_rep.
Qed.

Lemma intset_kept iset X : set_rep (SetIntset iset) X -> X <> ∅ -> Z.of_nat (size X) < 536870911 -> set_kept (SetIntset iset) load_intset X.
Proof.
  intros Hr HX Hsz. pose proof (intset_size _ _ _ _ Hr) as Hls. pose proof Hr as Hr'. apply intset_rep in Hr' as (xs & HR & Hsm & HXs).
  unfold intsetLen in Hls. rewrite (repr_len _ _ HR) in Hls. assert (Hlen : zlength xs < 536870911) by lia. assert (Hne : xs <> []) by (by intros ->).
  destruct (blob_length iset xs HR Hlen) as [_ Hbl].
  destruct (save_str junk malloc_ok htab address server table_malloc Henv (blob iset) (blob_bytes iset xs HR) Hbl) as (bs & Hsave & Hb & Hp).
  exists bs. split; [|split; [done|]].
  - eapply saves_ext; [|exact Hsave]. intros rdb. cbn [rdbSaveObject]. rewrite (blob_len iset xs HR Hlen).
    pose proof (load_app [] (blob iset) []) as Hl. rewrite app_nil_r in Hl. by rewrite Hl.
  - pose proof (load_str junk malloc_ok server (blob iset) bs RDB_LOAD_PLAIN (or_intror eq_refl) Hb) as Hload.
    assert (Hk : exists o', (if intsetLen iset >? set_max_intset_entries (srv_set server)
        then setTypeConvert junk hashFunction table_address sdsAllocSize dict_can_resize (SetIntset iset) OBJ_ENCODING_HT else Ok (SetIntset iset)) = Ok o' /\ set_rep o' X).
    { destruct (_ >? _); [apply convert_to_table; [done..|pow_const; lia]|by eexists]. }
    destruct Hk as (o' & Hk & Ho). exists o'. split; [|done]. unfold RdbObj.load_intset. eapply loads_try_last; [exact Hload|]. intros r.
    rewrite (blob_valid iset xs HR Hlen _ Hne), (blob_at iset xs HR Hlen). cbn [negb]. destruct (_ >? _); [by rewrite Hk|by injection Hk as ->].
Qed.

(** ** Listpacks *)

(** A listpack saved as a string loads as itself, without what follows it in memory. *)
Lemma listpack_saved n es slack : lp_wf n es ->
  exists bs, saves (fun rdb => save_listpack junk htab address server rdb (lp_of n es slack)) bs (zlength bs) /\ 0 < zlength bs /\
    loads (fun r => load_bytes junk malloc_ok server r RDB_LOAD_PLAIN) bs (Some (lp_of n es [])).
Proof.
  intros Hwf. pose proof (wf_total _ _ Hwf) as Ht. unfold UINT32_MAX in Ht. pose proof (dup_contract n es slack Hwf) as Hd.
  assert (Hl : zlength (lp_of n es []) = total es) by (unfold lp_of, total; len).
  destruct (save_str junk malloc_ok htab address server table_malloc Henv (lp_of n es []) (listpack_bytes n es Hwf)) as (bs & Hsave & Hb & Hp); [pow_const; lia|].
  exists bs. split; [|split; [done|]].
  - eapply saves_ext; [|exact Hsave]. intros rdb. unfold save_listpack. unfold lpDup in Hd. destruct (lpBytes (lp_of n es slack)) as [l|]; [|done]. by rewrite Hd.
  - apply load_str; [by right|done].
Qed.

Lemma set_listpack_kept lp X : set_rep (SetListpack lp) X -> X <> ∅ -> Z.of_nat (size X) < 2 ^ 58 -> set_kept (SetListpack lp) load_set_listpack X.
Proof.
  intros (els & (es & (n & slack & -> & Hwf) & ->) & Hok & Hnd & HX) Hne Hsz. destruct (listpack_saved n es slack Hwf) as (bs & Hsave & Hp & Hload).
  exists bs. split; [exact Hsave|]. split; [done|].
  assert (Hr : set_rep (SetListpack (lp_of n es [])) X) by (exists (lp_elem <$> es); split; [exists es; split; [by exists n, []|done]|done]).
  destruct (size_set_contract hashFunction sdsAllocSize _ X Hr) as (o0 & Hsize & Hr0 & He0).
  destruct (size_set_contract hashFunction sdsAllocSize _ X Hr0) as (o1 & Hsize1 & Hr1 & He1).
  assert (Hk : exists o', (if Z.of_nat (size X) >? set_max_listpack_entries (srv_set server)
      then setTypeConvert junk hashFunction table_address sdsAllocSize dict_can_resize o1 OBJ_ENCODING_HT else Ok o1) = Ok o' /\ set_rep o' X).
  { destruct (_ >? _); [apply convert_to_table; [done|by rewrite He1, He0|done]|by exists o1]. }
  destruct Hk as (o' & Hk & Ho). exists o'. split; [|done]. unfold RdbObj.load_set_listpack. eapply loads_try_last; [exact Hload|]. intros r.
  assert (Hl : zlength (lp_of n es []) = total es) by (unfold lp_of, total; len). rewrite Hl.
  rewrite (validate_wf junk hashFunction dict_can_resize 1 ltac:(lia) n es [] _ Hwf Hok ltac:(lia) (Nat.mod_1_r _)) by (by rewrite firsts_one).
  cbn [negb]. rewrite Hsize, (proj2 (Z.eqb_neq _ 0)) by (intros E; apply Hne, leibniz_equiv, size_empty_inv; lia). rewrite Hsize1.
  destruct (_ >? _); [by rewrite Hk|by injection Hk as ->].
Qed.

(** ** Set objects *)

Lemma set_object_kept o X : set_rep o X -> X <> ∅ -> Z.of_nat (size X) < 536870911 ->
  set_kept o (fun r => match o with SetHT _ _ => rdbLoadSet r | SetIntset _ => load_intset r | SetListpack _ => load_set_listpack r end) X.
Proof.
  intros Hr Hne Hsz. destruct o as [iset|lp|d a].
  - by apply intset_kept.
  - apply set_listpack_kept; [done..|pow_const; lia].
  - apply table_kept; [by apply ht_rep|done..].
Qed.
End Spec.
