(* ===== verification/RdbZset.v ===== *)
(** Persistence: the sorted set objects of each encoding.  Whatever an object is saved as,
    loading the bytes gives an object that represents the same map from elements to scores; the
    scores are written as the 64 bits of the double. *)

From Stdlib Require Import SpecFloat.
From stdpp Require Import gmap sorting.
From S2P Require Import Prelude Machine UtilNum Double DoubleConv Iterable Intset Listpack ListpackEnc ListpackSeq ListpackRead ListpackUpd ListpackSpec Dict DictInv DictOps DictIter SetType SetTypeSpec Skiplist ZOrder SkiplistInv SkiplistUpd SkiplistOps SkiplistDel SkiplistSpec Zzl ZzlInv Zset ZsetInv ZsetConv ZsetSpec Lzf Rio StringObj Rdb RdbSpec RdbDups RdbObj RdbSetSpec RdbSetObj.

(** * Doubles in memory *)

(** The 64 bits of every double of the format, and back. *)
Lemma fields (s : bool) (e m : Z) : 0 <= e < 2048 -> 0 <= m < 2 ^ 52 ->
  let b := b2z s * 2 ^ 63 + e * 2 ^ 52 + m in
  0 <= b < 2 ^ 64 /\ b / 2 ^ 63 = b2z s /\ b / 2 ^ 52 mod 2048 = e /\ b mod 2 ^ 52 = m.
Proof.
  intros He Hm b. assert (0 <= b2z s <= 1) as Hs by (destruct s; simpl; lia). unfold b. pow_const. split; [lia|]. split; [|split].
  - symmetry. apply (Z.div_unique _ _ _ (e * 4503599627370496 + m)); lia.
  - replace ((b2z s * 9223372036854775808 + e * 4503599627370496 + m) / 4503599627370496) with (b2z s * 2048 + e) by (apply (Z.div_unique _ _ _ m); lia).
    rewrite Z.add_comm, Z_mod_plus_full. apply Z.mod_small. lia.
  - replace (b2z s * 9223372036854775808 + e * 4503599627370496 + m) with (m + (b2z s * 2048 + e) * 4503599627370496) by lia.
    rewrite Z_mod_plus_full. apply Z.mod_small. lia.
Qed.

(** The exponent of a double of the format: the least one for a small mantissa. *)
Lemma finite_range s m e : valid (S754_finite s m e) = true ->
  Zpos m < 2 ^ 53 /\ (Zpos m < 2 ^ 52 -> e = -1074) /\ -1074 <= e <= 971.
Proof.
  intros Hv. pose proof (valid_mantissa s m e Hv) as Hm. simpl in Hv. unfold bounded, canonical_mantissa in Hv. rewrite andb_true_iff, Z.eqb_eq, Z.leb_le, fexp_eq in Hv.
  change (Zpos (digits2_pos m)) with (Zdigits2 (Zpos m)) in Hv. rewrite digits_log2 in Hv. pow_const. split; [lia|]. split; [|lia].
  intros Hlt. assert (Z.log2 (Zpos m) < 52) by (apply Z.log2_lt_pow2; pow_const; lia). lia.
Qed.

Lemma bits_roundtrip x : valid x = true -> double_of_bits (bits_of_double x) = x /\ 0 <= bits_of_double x < 2 ^ 64.
Proof.
  intros Hv. assert (Hs : forall s : bool, (b2z s =? 1) = s) by by intros [].
  unfold bits_of_double, double_of_bits. destruct x as [s|s| |s m e].
  - destruct (fields s 0 0 ltac:(lia) ltac:(pow_const; lia)) as (Hr & -> & -> & ->). by rewrite Hs.
  - destruct (fields s 2047 0 ltac:(lia) ltac:(pow_const; lia)) as (Hr & -> & -> & ->). by rewrite Hs.
  - split; [reflexivity|vm_compute; split; congruence].
  - destruct (finite_range s m e Hv) as (Hm & He & Hr). destruct (Z.ltb_spec (Zpos m) (2 ^ 52)) as [Hlt|Hge].
    + destruct (fields s 0 (Zpos m) ltac:(lia) ltac:(lia)) as (Hb & -> & -> & ->). rewrite Hs, He by done. done.
    + destruct (fields s (e + 1075) (Zpos m - 2 ^ 52) ltac:(lia) ltac:(pow_const; lia)) as (Hb & -> & -> & ->).
      rewrite Hs, (proj2 (Z.eqb_neq _ 2047)), (proj2 (Z.eqb_neq _ 0)) by lia. rewrite Z.sub_add. by replace (e + 1075 - 1075) with e by lia.
Qed.

(** * Members *)

(** The total length of the elements. *)
Definition lengths (ms : list member) : Z := foldr Z.add 0 ((fun a => zlength (sds_bytes a.2)) <$> ms).

Lemma lengths_perm ms ms' : ms ≡ₚ ms' -> lengths ms = lengths ms'.
Proof. intros Hp. unfold lengths. apply sum_perm. by rewrite Hp. Qed.

Lemma lengths_range ms : 0 <= lengths ms <= 2 ^ 31 * zlength ms.
Proof.
  induction ms as [|a ms IH]; [done|]. unfold lengths in *. rewrite fmap_cons. cbn [foldr length]. pose proof (sds_len a.2). pow_const. lia.
Qed.

Lemma total_length_keys ts : NoDup (t_ele <$> ts) -> total_length (skip_map ts) = lengths (t_key <$> ts).
Proof. intros Hnd. rewrite total_length_skip by done. unfold lengths. by rewrite <- list_fmap_compose. Qed.

(** The members can be stored. *)
Definition member_ok (a : member) : Prop := bytes_ok (sds_bytes a.2) /\ valid a.1 = true /\ isnan a.1 = false.

(** The elements of a listpack of pairs, which the validation of duplicates looks at. *)
Lemma firsts_pairs zs : Forall (fun p => bytes_ok (sds_bytes p.1)) zs -> firsts 2 (text <$> (lp_elem <$> pairs zs)) = sds_bytes <$> zs.*1.
Proof.
  induction zs as [|p zs IH] using rev_ind; [done|]. intros [Hf [Hb _]%Forall_cons_1]%Forall_app. rewrite pairs_app, !fmap_app.
  change (pairs [p]) with ([elem_of (sds_bytes p.1)] ++ [p.2]). rewrite !fmap_app, (assoc_L (++)). cbn [fmap list_fmap].
  rewrite !firsts_snoc, IH by done. rewrite !length_app, !length_fmap, pairs_length. cbn [length].
  rewrite (Nat.mul_comm 2), Nat.Div0.mod_mul. replace ((length zs * 2 + 1) mod 2)%nat with 1%nat by (rewrite Nat.add_comm, Nat.Div0.mod_add; done).
  cbn [Nat.eqb]. rewrite app_nil_r. f_equal. f_equal. pose proof (sds_len p.1). apply text_elem_of; [done|pow_const; lia].
Qed.

Section Spec.
Context {D : Type} `{BD : RioBackend D, SD : !Stream D}.
Context (junk : Z) (malloc_ok : Z -> bool) (htab : list Z -> htable) (address : list Z -> Z) (server : rdb_server).
Context (hashFunction : sds -> Z) (table_address : list (list (sds * unit)) -> Z) (sdsAllocSize : list Z -> Z).
Context (dict_can_resize : dictResizeEnable) (table_malloc : Z -> bool).
Context (fpconv_dtoa : double -> list Z) (fast_float_strtod : list Z -> double) `{!FloatText fpconv_dtoa fast_float_strtod}.
Context (usable : Z -> Z) (zsl_size : Z) (junk_level : zskiplistLevel).
Hypothesis Henv : env_ok malloc_ok htab address table_malloc.
Hypothesis Hsize : 0 <= zsl_size < 2 ^ 64.
Hypothesis Hserver : zset_max_listpack_entries (srv_zset server) <= 2 ^ 24.
Implicit Types (m : gmap sds double) (ms : list member) (ts : list tower) (z : zset) (draws : list (list Z)).

Notation string_bytes := (@RdbSpec.string_bytes D _ _ junk malloc_ok (srv_rdb server)).
Notation ele_alloc := (fun ele : sds => sdsAllocSize (sds_bytes ele)).
Notation skip_rep := (skip_rep usable ele_alloc zsl_size hashFunction).
Notation zsl_rep := (zsl_rep usable ele_alloc zsl_size).
Notation zzl_rep := (zzl_rep fast_float_strtod).
Notation zset_rep := (zset_rep fast_float_strtod usable ele_alloc zsl_size hashFunction).
Notation save o := (fun rdb => rdbSaveObject (D := D) junk htab address server table_address rdb (OZset o)).
Notation save_zset_loop := (save_zset_loop (D := D) junk htab address server).
Notation load_zset_loop := (load_zset_loop (D := D) junk malloc_ok server hashFunction sdsAllocSize dict_can_resize usable junk_level).
Notation rdbLoadZset := (rdbLoadZset (D := D) junk malloc_ok server hashFunction sdsAllocSize dict_can_resize table_malloc fpconv_dtoa fast_float_strtod usable zsl_size junk_level).
Notation load_zset_listpack := (load_zset_listpack (D := D) junk malloc_ok server hashFunction sdsAllocSize dict_can_resize fpconv_dtoa fast_float_strtod usable zsl_size junk_level).

(** ** Saving *)

Lemma load_double sc : valid sc = true -> loads (D := D) (fun r => rdbLoadBinaryDoubleValue r) (le_enc 8 (bits_of_double sc)) (Some sc).
Proof.
  intros Hv. destruct (bits_roundtrip sc Hv) as [Hb Hr]. unfold rdbLoadBinaryDoubleValue. eapply loads_last; [by apply loads_read|].
  intros r. cbn beta. by rewrite le_dec_enc, Z.mod_small, Hb by (exact Hr).
Qed.

(** The bytes of several members, one after the other. *)
Fixpoint members_bytes ms (bs : list Z) : Prop :=
  match ms with
  | [] => bs = []
  | (sc, ele) :: ms => exists b bs', bs = b ++ le_enc 8 (bits_of_double sc) ++ bs' /\ string_bytes (sds_bytes ele) b /\ members_bytes ms bs'
  end.

Lemma save_zset_spec zsl ts : zsl_rep zsl ts [] -> Forall tower_ok ts -> forall l r n, ts = l ++ r ->
  exists bs, saves (fun rdb => save_zset_loop (length l) zsl (t_addr <$> list.last l) rdb n) bs (n + zlength bs) /\ members_bytes (t_key <$> reverse l) bs.
Proof.
  intros Hr Hok. induction l as [|t l IH] using rev_ind; intros r n Hts.
  { exists []. split; [|done]. rewrite Z.add_0_r. apply saves_done. }
  rewrite length_app, last_snoc, reverse_snoc. cbn [length]. replace (length l + 1)%nat with (S (length l)) by lia. cbn [fmap option_fmap option_map list_fmap].
  rewrite <- app_assoc in Hts. cbn [app] in Hts. pose proof Hr as Hr'. rewrite Hts in Hr'.
  pose proof (zr_body _ _ _ _ _ _ Hr' (length l) t ltac:(by rewrite list_lookup_middle)) as Hbody.
  destruct (body_deref _ _ _ _ _ _ Hbody) as (nd & Hd & _ & He & Hs & Hb & _). rewrite prev_addr_app, prev_last in Hb by lia.
  rewrite Hts in Hok. apply Forall_app in Hok as [_ [[Hbt Hvt] _]%Forall_cons_1]. pose proof (sds_len (t_ele t)) as Hl.
  destruct (save_str junk malloc_ok htab address server table_malloc Henv (sds_bytes (t_ele t)) Hbt) as (b & Hsave & Hsb & _); [pow_const; lia|].
  destruct (IH (t :: r) (n + zlength b + zlength (le_enc 8 (bits_of_double (t_score t)))) Hts) as (bs & Hss & Hmb).
  exists (b ++ le_enc 8 (bits_of_double (t_score t)) ++ bs). split; [|by exists b, bs]. rewrite !length_app, !Nat2Z.inj_add, !Z.add_assoc.
  eapply saves_ext; [|eapply (saves_seq _ (fun n1 rdb => save! n2, rdb := rdbSaveBinaryDoubleValue rdb (t_score t) in
     save_zset_loop (length l) zsl (t_addr <$> list.last l) rdb (n + n1 + n2))); [exact Hsave|]].
  - intros rdb. cbn [RdbObj.save_zset_loop]. rewrite Hd. unfold ele_of. by rewrite He, Hs, Hb.
  - eapply (saves_seq _ (fun n2 rdb => save_zset_loop (length l) zsl (t_addr <$> list.last l) rdb (n + zlength b + n2))); [apply saves_raw, le_enc_bytes|exact Hss].
Qed.

(** ** Loading *)

Lemma load_zset_spec ms : forall z ts bs (maxl : Z) draws,
  skip_rep z ts -> NoDup ((t_ele <$> ts) ++ ms.*2) -> Forall member_ok ms -> members_bytes ms bs -> zlength ts + zlength ms < 2 ^ 32 ->
  draws_ok draws -> (length ms <= length draws)%nat ->
  exists z' ts' maxl' draws', loads (fun r => load_zset_loop (length ms) r z maxl (lengths (t_key <$> ts)) draws) bs (Some (z', maxl', lengths (t_key <$> ts'), draws')) /\
    skip_rep z' ts' /\ t_key <$> ts' ≡ₚ (t_key <$> ts) ++ ms.
Proof.
  induction ms as [|[sc ele] ms IH]; intros z ts bs maxl draws Hz Hnd Hok Hb Hlen Hdr Hdl.
  { simpl in Hb. subst bs. exists z, ts, maxl, draws. split; [apply loads_done|]. split; [done|]. by rewrite app_nil_r. }
  destruct Hb as (b & bs' & -> & Hsb & Hb). apply Forall_cons_1 in Hok as [(Hbe & Hv & Hn) Hok]. cbn [fst snd length] in *.
  destruct (next_draw_ok draws Hdr ltac:(lia)) as (ds & lv & Hnext & Hlv & Hdr').
  assert (Hout : ele ∉ t_ele <$> ts) by (intros Hin; apply list.NoDup_app in Hnd as (_ & Hnd & _); apply (Hnd ele Hin); left).
  destruct (insert_both_spec usable ele_alloc zsl_size junk_level hashFunction dict_can_resize z ts sc ele ds lv Hz Hout Hbe Hv Hn Hlv)
    as (z1 & l & t & r & Hi & Hz1 & Hts & Hk); [pow_const; lia|].
  assert (Hp1 : t_key <$> l ++ t :: r ≡ₚ (sc, ele) :: (t_key <$> ts)) by (rewrite Hts, fmap_app, fmap_cons, Hk, fmap_app; by rewrite <- Permutation_middle).
  assert (Hsum : u64 (lengths (t_key <$> ts) + zlength (sds_bytes ele)) = lengths (t_key <$> l ++ t :: r)).
  { pose proof (lengths_range (t_key <$> ts)) as Hr. rewrite length_fmap in Hr. pose proof (sds_len ele). rewrite (lengths_perm _ _ Hp1).
    rewrite u_id by (pow_const; lia). unfold lengths. rewrite fmap_cons. simpl. lia. }
  set (maxl1 := if zlength (sds_bytes ele) >? maxl then zlength (sds_bytes ele) else maxl).
  destruct (IH z1 (l ++ t :: r) bs' maxl1 (drop 1 draws) Hz1) as (z' & ts' & maxl' & draws' & Hload & Hz' & Hp'); [|done|done| |done|rewrite length_drop; lia|].
  { change (t_ele <$> l ++ t :: r) with ((snd ∘ t_key) <$> (l ++ t :: r)). rewrite list_fmap_compose, Hp1, fmap_cons, <- list_fmap_compose. rewrite fmap_cons, <- Permutation_middle in Hnd. exact Hnd. }
  { rewrite <- (length_fmap t_key), Hp1. cbn [length]. rewrite length_fmap. lia. }
  exists z', ts', maxl', draws'. split; [|split; [done|by rewrite Hp', Hp1, <- Permutation_middle]].
  pose proof (load_str junk malloc_ok server (sds_bytes ele) b RDB_LOAD_SDS (or_introl eq_refl) Hsb) as Hls.
  eapply loads_ext; [intros q; cbn [RdbObj.load_zset_loop]; reflexivity|]. eapply (loads_seq _ (fun e r => _)); [exact Hls|].
  eapply (loads_seq _ (fun s r => _)); [by apply load_double|]. eapply loads_ext; [|exact Hload]. intros q. cbn beta. rewrite Hn.
  destruct (sdsnewlen_ok (sds_bytes ele)) as (k & -> & Hkb); [pose proof (sds_len ele); pow_const; lia|]. apply sds_bytes_inj in Hkb as ->.
  fold maxl1. rewrite Hnext, Hsum. unfold insert_both in Hi. destruct (zslInsert _ _ _ _ _ _ _) as [[x zsl']|]; [|done].
  destruct (dictAdd _ _ _ _ _ _ _ _) as [[st d']|]; [|done]. destruct (bool_decide _); [|done]. by injection Hi as <-.
Qed.

(** ** Skip lists *)

Lemma fresh_zset len : 0 <= len -> exists d, new_table hashFunction dict_can_resize table_malloc len = Ok (Some d) /\
  skip_rep (mkZset d (zs_zsl (createZsetObject usable ele_alloc zsl_size junk_level))) [].
Proof.
  intros Hl. destruct (new_table_moved (V := Z) malloc_ok htab address hashFunction dict_can_resize table_malloc Henv len Hl) as (d & Hd & Hm). exists d. split; [done|]. split.
  - by apply zslCreate_rep.
  - eapply rep_moved; [apply create_contract|exact Hm].
  - constructor.
  - constructor.
  - apply (mv_auto _ _ _ Hm).
Qed.

(** The object is saved, and [load] gives back the map. *)
Definition zset_kept o (load : rio D -> res ((Z + robj) * rio D)) m : Prop :=
  exists bs, saves (save o) bs (zlength bs) /\ 0 < zlength bs /\ exists o', loads load bs (inr (OZset o')) /\ zset_rep o' m.

(** At the end of rdbLoadZset the object may become a listpack. *)
Lemma load_finish z ts (maxl : Z) draws : skip_rep z ts -> zlength ts < 2 ^ 32 ->
  exists o', zset_rep o' (skip_map ts) /\ forall r : rio D,
    (let! '(n, o) := zsetLength (ZsetSkiplist z) in
     let! safe := lpSafeToAdd None (lengths (t_key <$> ts)) in
     if (n <=? zset_max_listpack_entries (srv_zset server)) && (maxl <=? zset_max_listpack_value (srv_zset server)) && safe then
       let! '(o, _) := zsetConvert junk fpconv_dtoa fast_float_strtod usable ele_alloc zsl_size junk_level hashFunction dict_can_resize o ENCODING_LISTPACK draws in
       Ok (inr (OZset o), r)
     else Ok (inr (OZset o), r)) = Ok (@inr Z robj (OZset o'), r).
Proof.
  intros Hz Hlen. pose proof (sr_nodup _ _ _ _ _ _ Hz) as Hnd. assert (Ho : zset_rep (ZsetSkiplist z) (skip_map ts)) by (by exists ts).
  pose proof (lengths_range (t_key <$> ts)) as Hr. rewrite length_fmap in Hr.
  destruct (toListpack_spec junk fpconv_dtoa fast_float_strtod usable ele_alloc zsl_size junk_level hashFunction dict_can_resize (srv_zset server) Hserver
    (ZsetSkiplist z) (skip_map ts) maxl (lengths (t_key <$> ts)) draws Ho) as (o' & draws' & Hc & Ho').
  { rewrite total_length_keys by done. pow_const. lia. }
  exists o'. split; [done|]. intros r. cbn [zsetLength]. cbn [zsetConvertToListpackIfNeeded] in Hc. destruct (lpSafeToAdd _ _) as [safe|]; [|done].
  destruct (_ && _); [by rewrite Hc|by injection Hc as <- _].
Qed.

Lemma skip_kept z ts draws : skip_rep z ts -> ts <> [] -> zlength ts < 2 ^ 32 -> draws_ok draws -> (length ts <= length draws)%nat ->
  zset_kept (ZsetSkiplist z) (fun r => rdbLoadZset r draws) (skip_map ts).
Proof.
  intros Hr Hne Hlen Hdr Hdl. pose proof Hr as [[Hz _] _ Hnd Hok _]. pose proof (zr_len _ _ _ _ _ _ Hz) as Hl. pose proof (zr_tail _ _ _ _ _ _ Hz) as Htl.
  destruct (save_zset_spec (zs_zsl z) ts Hz Hok ts [] (zlength (len_bytes (zlength ts))) (eq_sym (app_nil_r ts))) as (bs & Hsave & Hb).
  destruct (fresh_zset (zlength ts) ltac:(lia)) as (d & Hd & Hz0).
  destruct (load_zset_spec (t_key <$> reverse ts) _ [] bs 0 draws Hz0) as (z' & ts' & maxl & draws' & Hload & Hz' & Hp).
  { cbn [fmap list_fmap app]. rewrite <- list_fmap_compose. by rewrite reverse_Permutation. }
  { apply Forall_fmap. rewrite reverse_Permutation. pose proof (zr_nan _ _ _ _ _ _ Hz) as Hnan. rewrite list.Forall_forall in Hok, Hnan |- *.
    intros t Ht. destruct (Hok t Ht). split; [done|]. split; [done|by apply Hnan]. }
  { done. }
  { rewrite length_fmap, length_reverse. cbn [length]. lia. }
  { done. }
  { by rewrite length_fmap, length_reverse. }
  assert (Hp2 : t_key <$> ts' ≡ₚ t_key <$> ts) by (rewrite Hp; cbn [fmap list_fmap app]; by rewrite reverse_Permutation).
  assert (Hlen' : length ts' = length ts) by (rewrite <- (length_fmap t_key), Hp2; apply length_fmap).
  destruct (load_finish z' ts' maxl draws' Hz' ltac:(lia)) as (o' & Ho' & Hfin).
  assert (skip_map ts' = skip_map ts) as Hmap by (apply zmap_perm; [done|]; rewrite skip_keys; apply Hz').
  exists (len_bytes (zlength ts) ++ bs). split; [|split].
  - cbn [rdbSaveObject]. rewrite Hl, Htl, Nat2Z.id, length_app, Nat2Z.inj_add.
    apply (saves_seq _ (fun n rdb => _) _ (zlength (len_bytes (zlength ts)))); [apply saveLen_spec; lia|exact Hsave].
  - rewrite length_app. unfold len_bytes. repeat case_match; simpl; lia.
  - exists o'. split; [|by rewrite <- Hmap]. unfold RdbObj.rdbLoadZset.
    apply (loads_then (fun len e r => _) _ (zlength ts) false bs); [apply loadLen_spec; pow_const; lia|].
    assert (0 < zlength ts) by (destruct ts; [done|simpl; lia]). rewrite length_fmap, length_reverse in Hload.
    eapply loads_ext; [intros q; rewrite (proj2 (Z.eqb_neq _ RDB_LENERR)), (proj2 (Z.eqb_neq _ 0)), Hd, Nat2Z.id by (unfold RDB_LENERR, ULLONG_MAX; pow_const; lia); reflexivity|].
    eapply loads_try_last; [exact Hload|]. intros q. apply Hfin.
Qed.

(** ** Listpacks *)

Lemma score_el_ok e : score_ok fast_float_strtod e -> el_ok (lp_elem e).
Proof.
  intros (He & Hs & _). destruct e as [v|str]; simpl in *; [done|]. destruct He as [Hb Hl]. split; [done|].
  rewrite entry_size in Hs. cbn [enc_elem] in Hs. pose proof (backlenBytes_range (zlength (enc_str str))). rewrite enc_str_length in *. unfold score_max in Hs. destruct (_ <? 64); [lia|]. destruct (_ <? 4096); lia.
Qed.

Lemma zset_listpack_kept zl zs draws : zzl_rep zl zs -> zs <> [] -> draws_ok draws -> (length zs <= length draws)%nat -> zlength zs < 2 ^ 57 ->
  zset_kept (ZsetListpack zl) (fun r => load_zset_listpack r draws) (lp_map fast_float_strtod zs).
Proof.
  intros Hr Hne Hdr Hdl Hsm. destruct (zzl_wf _ _ _ Hr) as (n & slack & -> & Hwf). pose proof Hr as [_ Hok Hsort Hnd Hbud].
  destruct (listpack_saved junk malloc_ok htab address server table_malloc Henv n (pairs zs) slack Hwf) as (bs & Hsave & Hp & Hload).
  exists bs. split; [exact Hsave|]. split; [done|].
  assert (Hr' : zzl_rep (lp_of n (pairs zs) []) zs) by (split; [by exists n, []|done..]).
  assert (Ho : zset_rep (ZsetListpack (lp_of n (pairs zs) [])) (lp_map fast_float_strtod zs)) by (by exists zs).
  destruct (zsetLength_spec fast_float_strtod usable ele_alloc zsl_size hashFunction _ _ Ho) as (o0 & Hlen & Ho0 & _).
  destruct (zsetLength_spec fast_float_strtod usable ele_alloc zsl_size hashFunction _ _ Ho0) as (o1 & Hlen1 & Ho1 & _).
  assert (Hsz : base.size (lp_map fast_float_strtod zs) = length zs) by (by apply lp_map_size).
  assert (Hk : exists o' draws', (if Z.of_nat (base.size (lp_map fast_float_strtod zs)) >? zset_max_listpack_entries (srv_zset server)
      then zsetConvert junk fpconv_dtoa fast_float_strtod usable ele_alloc zsl_size junk_level hashFunction dict_can_resize o1 ENCODING_SKIPLIST draws
      else Ok (o1, draws)) = Ok (o', draws') /\ zset_rep o' (lp_map fast_float_strtod zs)).
  { destruct (_ >? _); [|by exists o1, draws]. unfold zsetConvert. destruct (zsetLength_spec fast_float_strtod usable ele_alloc zsl_size hashFunction _ _ Ho1) as (o2 & -> & Ho2 & _).
    apply convert_skiplist_spec; [done|done|lia|]. split; [done|]. rewrite Hsz. done. }
  destruct Hk as (o' & draws' & Hk & Ho'). exists o'. split; [|done]. unfold RdbObj.load_zset_listpack. eapply loads_try_last; [exact Hload|]. intros r.
  assert (Hl : zlength (lp_of n (pairs zs) []) = total (pairs zs)) by (unfold lp_of, total; len). rewrite Hl.
  assert (Hbs : Forall (fun p => bytes_ok (sds_bytes p.1)) zs) by (eapply list.Forall_impl; [exact Hok|]; by intros p [? _]).
  assert (Hels : Forall el_ok (lp_elem <$> pairs zs)).
  { clear - Hok. induction Hok as [|p l [Hpb Hps] _ IH]; [constructor|]. rewrite pairs_cons, !fmap_cons. pose proof (sds_len p.1).
    constructor; [apply text_elem_of; [done|pow_const; lia]|]. constructor; [by apply score_el_ok|done]. }
  pose proof (validate_wf junk hashFunction dict_can_resize 2 ltac:(lia) n (pairs zs) [] (deep_integrity_validation server) Hwf Hels) as Hval.
  change (Z.of_nat 2) with 2 in Hval. rewrite Hval; [|lia|by rewrite pairs_length, (Nat.mul_comm 2), Nat.Div0.mod_mul|rewrite firsts_pairs by done; by apply NoDup_fmap_2_strong; [intros x y _ _; apply sds_bytes_inj|]].
  cbn [negb]. rewrite Hlen, (proj2 (Z.eqb_neq _ 0)) by (rewrite Hsz; destruct zs; [done|simpl; lia]). rewrite Hlen1.
  destruct (_ >? _); [by rewrite Hk|by injection Hk as -> ->].
Qed.
End Spec.
