(* ===== verification/RdbObjSpec.v ===== *)
(** Persistence: an object that was saved loads as the same value.

    The value of an object is a string, a set, or a map from elements to scores,
    independently of its encoding: the object that is loaded may have another encoding than
    the one that was saved, because loading chooses it from the configuration. *)

From Stdlib Require Import SpecFloat.
From stdpp Require Import gmap.
From S2P Require Import Prelude Machine UtilNum Double DoubleConv Iterable Intset Listpack Dict DictInv DictOps DictIter SetType SetTypeSpec Skiplist SkiplistInv SkiplistSpec Zzl ZzlInv Zset ZsetInv ZsetConv ZsetSpec ZsetRefine Lzf Rio StringObj Rdb RdbSpec RdbDups RdbObj RdbSetSpec RdbSetObj RdbZset.

Inductive val := VString (str : list Z) | VSet (X : gset (list Z)) | VZset (m : gmap sds double).

(** ** String objects *)

Section Strings.
Context (junk : Z) (server : string_config).

Lemma fromLongLong_strobj v flag o : in_s 64 v -> createStringObjectFromLongLongWithOptions junk v flag = Ok o -> strobj_ok o.
Proof.
  intros Hv. unfold createStringObjectFromLongLongWithOptions. destruct (_ && bool_decide _); [intros [= <-]; split; [done|by vm_compute]|].
  destruct (_ && _); [intros [= <-]; split; [done|by vm_compute]|]. unfold LONG_STR_SIZE.
  destruct (int_buf junk 21 v Hv ltac:(lia)) as (rest & Hb). change (Z.to_nat 21) with 21%nat in Hb. rewrite Hb, (load_app [] (int_text v) (0 :: rest)) by done.
  intros [= <-]. pose proof (int_text_length v Hv). unfold createStringObject, OBJ_ENCODING_EMBSTR_SIZE_LIMIT. rewrite (proj2 (Z.leb_le _ _)) by lia.
  split; [split; [by apply int_text_bytes|lia]|by vm_compute].
Qed.

Lemma tryObjectEncoding_ok o o' : strobj_ok o -> tryObjectEncodingEx junk server o = Ok o' -> strobj_ok o'.
Proof.
  intros Hok. pose proof Hok as [Ho Hrc]. unfold tryObjectEncodingEx. destruct o as [w rc]. cbn [value refcount] in *.
  assert (Hs : forall str v, (if zlength str <=? 20 then string2l str (zlength str) else Ok None) = Ok (Some v) -> in_s 64 v).
  { intros str v. destruct (_ <=? _); [|done]. destruct (string2l_spec str) as (r & -> & Hr). intros [= ->]. by apply Hr. }
  destruct w as [str|str|v]; [| |by intros [= <-]]; (destruct (_ >? _); [by intros [= <-]|]); specialize (Hs str);
    (destruct (if zlength str <=? 20 then string2l str (zlength str) else Ok None) as [[v|]|]; [specialize (Hs v eq_refl)| |done]).
  - intros [= <-]. by split.
  - unfold OBJ_ENCODING_EMBSTR_SIZE_LIMIT. destruct (Z.leb_spec (zlength str) 44); intros [= <-]; [|done]. split; [done|by vm_compute].
  - unfold createStringObjectFromLongLongForValue. destruct (_ || _); by apply fromLongLong_strobj.
  - by intros [= <-].
Qed.
End Strings.

Lemma type_code_inj t t' : type_code t = type_code t' -> t = t'.
Proof. by destruct t, t'. Qed.

Section Spec.
Context {D : Type} `{BD : RioBackend D, SD : !Stream D}.
Context (junk : Z) (malloc_ok : Z -> bool) (htab : list Z -> htable) (address : list Z -> Z) (server : rdb_server).
Context (hashFunction : sds -> Z) (table_address : list (list (sds * unit)) -> Z) (sdsAllocSize : list Z -> Z).
Context (dict_can_resize : dictResizeEnable) (table_malloc : Z -> bool).
Context (fpconv_dtoa : double -> list Z) (fast_float_strtod : list Z -> double) `{!FloatText fpconv_dtoa fast_float_strtod}.
Context (usable : Z -> Z) (zsl_size : Z) (junk_level : zskiplistLevel).
Hypothesis Henv : env_ok malloc_ok htab address table_malloc.
Hypothesis Hsize : 0 <= zsl_size < 2 ^ 64.
Hypothesis Hserver : zset_max_listpack_entries (srv_zset server) <= 2 ^ 24.
Implicit Types (o : robj) (v : val) (draws : list (list Z)).

Notation ele_alloc := (fun ele : sds => sdsAllocSize (sds_bytes ele)).
Notation save := (rdbSaveObject (D := D) junk htab address server table_address).
Notation load := (rdbLoadObject (D := D) junk malloc_ok server hashFunction table_address sdsAllocSize dict_can_resize table_malloc fpconv_dtoa fast_float_strtod usable zsl_size junk_level).

(** The object has the value. *)
Definition represents o v : Prop :=
  match o, v with
  | OString o, VString str => strobj_ok o /\ string_of o = str
  | OSet o, VSet X => set_rep hashFunction sdsAllocSize o X
  | OZset o, VZset m => zset_rep fast_float_strtod usable ele_alloc zsl_size hashFunction o m
  | _, _ => False
  end.

(** Sets and sorted sets have members, and the sizes fit; there are enough random numbers. *)
Definition storable v draws : Prop :=
  match v with
  | VString str => zlength str < 2 ^ 32
  | VSet X => X <> ∅ /\ Z.of_nat (base.size X) < 536870911
  | VZset m => m <> ∅ /\ Z.of_nat (base.size m) < 2 ^ 32 /\ draws_ok draws /\ (base.size m <= length draws)%nat
  end.

(** The object is saved as [bs], and [bs] loads as an object with the same value. *)
Definition kept o v draws : Prop :=
  exists bs, saves (fun rdb => save rdb o) bs (zlength bs) /\ 0 < zlength bs /\
    exists o', loads (fun r => load (object_type o) r draws) bs (inr o') /\ represents o' v.

Lemma string_kept s str draws : strobj_ok s -> string_of s = str -> zlength str < 2 ^ 32 -> kept (OString s) (VString str) draws.
Proof.
  intros Hs <- Hl. destruct (saveString_spec (D := D) junk malloc_ok htab address (srv_rdb server) s Hs) as (bs & Hsave & Hb & Hp).
  { pow_const. lia. }
  { by apply (env_lzf _ _ _ _ Henv). }
  { intros k Hk. apply (env_malloc _ _ _ _ Henv). lia. }
  exists bs. split; [exact Hsave|]. split; [done|].
  destruct (Hb RDB_LOAD_ENC) as (w & (o & -> & Ho & Hok) & Hload). destruct (tryObjectEncoding_spec junk (string_options (srv_rdb server)) o Hok) as (o' & He & Hs' & _).
  exists (OString o'). split; [|split; [by eapply tryObjectEncoding_ok|by rewrite Hs']]. eapply loads_try_last; [exact Hload|]. intros r. cbn beta iota. by rewrite He.
Qed.

Lemma object_kept o v draws : represents o v -> storable v draws -> kept o v draws.
Proof.
  intros Hr Hst. destruct o as [s|o|o], v as [str|X|m]; try done; simpl in Hr, Hst.
  - destruct Hr. by apply string_kept.
  - destruct Hst as [Hne Hsz]. unfold kept. cbn [object_type].
    destruct (set_object_kept (D := D) junk malloc_ok htab address server hashFunction table_address sdsAllocSize dict_can_resize table_malloc Henv o X Hr Hne Hsz)
      as (bs & Hs & Hp & o' & Hl & Ho'). exists bs. split; [done|]. split; [done|]. exists (OSet o'). split; [|done]. by destruct o.
  - destruct Hst as (Hne & Hsz & Hdr & Hdl). unfold kept. cbn [object_type].
    assert (Hk : zset_kept (D := D) junk htab address server hashFunction table_address sdsAllocSize fast_float_strtod usable zsl_size o
      (fun r => match o with
       | ZsetListpack _ => load_zset_listpack junk malloc_ok server hashFunction sdsAllocSize dict_can_resize fpconv_dtoa fast_float_strtod usable zsl_size junk_level r draws
       | ZsetSkiplist _ => rdbLoadZset junk malloc_ok server hashFunction sdsAllocSize dict_can_resize table_malloc fpconv_dtoa fast_float_strtod usable zsl_size junk_level r draws
       end) m).
    { destruct o as [zl|z]; destruct Hr as (x & Hx & ->).
      - pose proof (lp_map_size fast_float_strtod x ltac:(apply Hx)) as Hs. rewrite Hs in *.
        apply (zset_listpack_kept (D := D)) with (table_malloc := table_malloc); [done..|by intros ->|done|done|pow_const; lia].
      - pose proof (skip_map_size x ltac:(apply Hx)) as Hs. rewrite Hs in *. apply (skip_kept (D := D)); [done..|by intros ->|lia|done|done]. }
    destruct Hk as (bs & Hs & Hp & o' & Hl & Ho'). exists bs. split; [done|]. split; [done|]. exists (OZset o'). split; [|done]. by destruct o.
Qed.

Lemma type_kept o :
  saves (D := D) (fun rdb => rdbSaveObjectType rdb o) [type_code (object_type o)] 1 /\
  loads (D := D) (fun r => rdbLoadObjectType r) [type_code (object_type o)] (Some (type_code (object_type o))).
Proof.
  split.
  - unfold rdbSaveObjectType, rdbSaveType. assert (u8 (type_code (object_type o)) = type_code (object_type o)) as E by (by destruct o as [|[]|[]]).
    rewrite E. apply saves_raw. by destruct o as [|[]|[]]; repeat constructor.
  - unfold rdbLoadObjectType, rdbLoadType. eapply loads_last.
    + eapply loads_last; [by apply loads_read|]. intros r. by rewrite get1_0.
    + intros r. by destruct o as [|[]|[]].
Qed.

(** C6: an object that was saved loads as the same value.  The object is a string, a set or
    a sorted set in any of its encodings, under any configuration.  rdbSavedObjectLen
    predicts the number of bytes; saving writes these bytes on every stream, or fails because
    the stream fails.  From a stream that starts with the type of the object and these bytes,
    rdbLoadObjectType and rdbLoadObject return an object with the same string, the same
    members or the same scores, whatever encoding loading chooses, and consume exactly the
    type and the bytes. *)
Theorem rdb_object_roundtrip o v draws :
  represents o v -> storable v draws ->
  exists bs, 0 < zlength bs /\
    rdbSavedObjectLen (D := D) junk htab address server table_address o = Ok (zlength bs) /\
    (forall r, can_write r -> exists n r', save (Some r) o = Ok (n, Some r') /\
       match n with Some n => n = zlength bs /\ written (io r') = written (io r) ++ bs | None => write_failed r' end) /\
    (forall r rest, can_read r -> unread (io r) = type_code (object_type o) :: bs ++ rest ->
       exists r1 o' r', rdbLoadObjectType r = Ok (Some (type_code (object_type o)), r1) /\
         load (object_type o) r1 draws = Ok (inr o', r') /\ represents o' v /\ can_read r' /\ unread (io r') = rest).
Proof.
  intros Hr Hst. destruct (object_kept o v draws Hr Hst) as (bs & (Hnull & Hs & _) & Hp & o' & Hload & Ho'). exists bs. split; [done|]. split; [|split].
  - unfold rdbSavedObjectLen. by rewrite Hnull.
  - intros r Hcw. destruct (Hs r Hcw) as (k & r' & Hk & Hres). exists k, r'. split; [done|]. destruct k; [by destruct Hres as (? & _ & ?)|done].
  - intros r rest Hcr Hu. destruct (proj2 (type_kept o) r (bs ++ rest) Hcr Hu) as (r1 & Ht & Hcr1 & Hu1).
    destruct (Hload r1 rest Hcr1 Hu1) as (r' & Hl & Hcr' & Hu'). by exists r1, o', r'.
Qed.
End Spec.

(** The integer set of 1 and 300, loaded where integer sets have one element at most. *)
Definition demo_server : rdb_server := mkRdbServer demo_rdb (mkSetConfig 1 128 64) (mkZsetConfig 128 64) SANITIZE_DUMP_YES false None.
Definition demo_intset : robj := OSet (SetIntset (mk_intset 2 2 [1; 0; 44; 1])).

Lemma demo_env : env_ok demo_malloc demo_table demo_address (fun _ => true).
Proof.
  split; [|done|done]. intros str Hl. split; [vm_compute; discriminate|]. split; [|intros i; split; [vm_compute; discriminate|reflexivity]].
  unfold demo_address. pow_const. lia.
Qed.

Lemma demo_represents : represents SetTypeSpec.demo_hash (fun t => zlength t) demo_strtod (fun n => 16 * n) 48 demo_intset (VSet (list_to_set [int_text 1; int_text 300])).
Proof.
  apply intset_rep. exists [1; 300]. split; [|done]. split; [by left|done|done| |].
  - repeat constructor.
  - by repeat constructor.
Qed.

Lemma rdb_object_roundtrip_witness :
  exists bs, rdbSavedObjectLen (D := rio_buffer) 0 demo_table demo_address demo_server (fun _ => 0) demo_intset = Ok (zlength bs) /\
    exists r1 o' r', rdbLoadObjectType (rioInitWithBuffer (11 :: bs)) = Ok (Some 11, r1) /\
      rdbLoadObject 0 demo_malloc demo_server SetTypeSpec.demo_hash (fun _ => 0) (fun t => zlength t) DICT_RESIZE_ENABLE (fun _ => true) demo_dtoa demo_strtod
        (fun n => 16 * n) 48 (mkLevel None 0) RDB_TYPE_SET_INTSET r1 [] = Ok (inr o', r') /\
      represents SetTypeSpec.demo_hash (fun t => zlength t) demo_strtod (fun n => 16 * n) 48 o' (VSet (list_to_set [int_text 1; int_text 300])).
Proof.
  destruct (@rdb_object_roundtrip rio_buffer _ _ 0 demo_malloc demo_table demo_address demo_server SetTypeSpec.demo_hash (fun _ => 0) (fun t => zlength t) DICT_RESIZE_ENABLE (fun _ => true)
    demo_dtoa demo_strtod _ (fun n => 16 * n) 48 (mkLevel None 0) demo_env ltac:(pow_const; lia) ltac:(simpl; pow_const; lia) demo_intset
    (VSet (list_to_set [int_text 1; int_text 300])) [] demo_represents) as (bs & Hp & Hlen & Hsave & Hload).
  - split; [|vm_compute; reflexivity]. intros E. apply (f_equal (fun X : gset (list Z) => base.size X)) in E. vm_compute in E. discriminate E.
  - exists bs. split; [exact Hlen|].
    assert (Hbs : bs = [12; 2; 0; 0; 0; 2; 0; 0; 0; 1; 0; 44; 1]).
    { destruct (Hsave (rioInitWithBuffer [])) as (n & r' & Hw & Hres); [split; [reflexivity|vm_compute; discriminate]|].
      vm_compute in Hw. injection Hw as <- <-. symmetry. exact (proj2 Hres). }
    rewrite Hbs in *. destruct (Hload (rioInitWithBuffer [11; 12; 2; 0; 0; 0; 2; 0; 0; 0; 1; 0; 44; 1]) []) as (r1 & o' & r' & H1 & H2 & H3 & _).
    + split; [reflexivity|]. split; [|vm_compute; discriminate]. split; [split; vm_compute; discriminate|reflexivity].
    + reflexivity.
    + exists r1, o', r'. split; [exact H1|]. split; [exact H2|exact H3].
Defined.
