(* ===== verification/Dump.v ===== *)
(** Dumped values: createDumpPayload and verifyDumpPayload of src/redis-stable/src/cluster.c.

    A dumped value is its type, the bytes that saving writes, two bytes with the version of the
    format and eight bytes with the checksum of all that comes before, or eight zeros.  The
    theorems put together what is known of saving, of loading and of the checksum.
    [address_of] is the address of the string; memrev64ifbe does nothing on little-endian
    machines. *)

From stdpp Require Import gmap.
From S2P Require Import Prelude Machine Dict DictIter Double SetType Lzf Rio Rdb RdbObj Crc64.

Definition RDB_VERSION : Z := 12.

(** payload->io.buffer.ptr *)
Definition payload_bytes (payload : option (rio rio_buffer)) : list Z := match payload with Some r => buf_ptr (io r) | None => [] end.

(** payload->io.buffer.ptr = sdscatlen(payload->io.buffer.ptr, buf, len) *)
Definition payload_cat (payload : option (rio rio_buffer)) (buf : list Z) : option (rio rio_buffer) :=
  (fun r => set_io r (mkBuffer (buf_ptr (io r) ++ buf) (buf_pos (io r)))) <$> payload.

(** The value of an assertion about a number of bytes; [None] is -1. *)
Definition nonzero (n : option Z) : bool := match n with Some n => negb (n =? 0) | None => true end.

Section Dump.
Context (junk : Z) (htab : list Z -> htable) (address : list Z -> Z) (server : rdb_server) (table_address : list (list (sds * unit)) -> Z).

Definition createDumpPayload (st : crc64_state) (address_of : Z) (o : robj) (skip_checksum : bool) : res (option (rio rio_buffer) * crc64_state) :=
  let payload := Some (rioInitWithBuffer []) in
  let! '(n, payload) := rdbSaveObjectType payload o in
  assert! nonzero n in
  let! '(n, payload) := rdbSaveObject junk htab address server table_address payload o in
  assert! nonzero n in
  let buf := [Z.land RDB_VERSION 0xff; Z.land (Z.shiftr RDB_VERSION 8) 0xff] in
  let payload := payload_cat payload buf in
  let! '(crc, st) :=
    (if negb skip_checksum then crc64 st address_of 0 (payload_bytes payload) (zlength (payload_bytes payload)) else Ok (0, st)) in
  Ok (payload_cat payload (le_enc 8 crc), st).
End Dump.

(** C_OK or C_ERR, the version, and the state of the checksum. *)
Definition verifyDumpPayload (skip_checksum_validation : bool) (st : crc64_state) (address_of : Z) (p : list Z) (len : Z) : res (bool * option Z * crc64_state) :=
  if len <? 10 then Ok (false, None, st)
  else
    let footer := len - 10 in
    let! f1 := get1 (footer + 1) p in
    let! f0 := get1 footer p in
    let rdbver := Z.lor (Z.shiftl f1 8) f0 in
    if rdbver >? RDB_VERSION then Ok (false, Some rdbver, st)
    else if skip_checksum_validation then Ok (true, Some rdbver, st)
    else
      let! w := load (footer + 2) 8 p in
      let crc_payload := le_dec w in
      if crc_payload =? 0 then Ok (true, Some rdbver, st)
      else
        let! '(crc, st) := crc64 st address_of 0 p (len - 8) in
        Ok (crc =? crc_payload, Some rdbver, st).
