(* ===== verification/DumpSpec.v ===== *)
(** Dumped values: what createDumpPayload makes, verifyDumpPayload accepts, and loading it
    gives the value back; a payload in which some bytes were changed is not accepted. *)

From Stdlib Require Import SpecFloat.
From stdpp Require Import gmap.
From S2P Require Import Prelude Machine UtilNum Double DoubleConv Iterable Intset Listpack Dict DictInv DictOps DictIter SetType SetTypeSpec Skiplist SkiplistInv SkiplistSpec Zzl ZzlInv Zset ZsetInv ZsetConv ZsetSpec ZsetRefine Gf2 Crc64 Crc64Inv Crc64Spec Lzf Rio StringObj Rdb RdbSpec RdbDups RdbObj RdbSetSpec RdbSetObj RdbZset RdbObjSpec Dump.

(** * Verification *)

Lemma last_two (l : list Z) : (2 <= length l)%nat -> exists b v0 v1, l = b ++ [v0; v1].
Proof.
  intros Hl. destruct l as [|v1 l _] using rev_ind; [simpl in Hl; lia|]. destruct l as [|v0 b _] using rev_ind; [simpl in Hl; lia|].
  exists b, v0, v1. by rewrite <- app_assoc.
Qed.

Section Verify.
Context (skip_checksum_validation : bool).
Notation verify := (verifyDumpPayload skip_checksum_validation).

(** The decision, for the body [body ++ [v0; v1]] and the checksum [c]. *)
Definition dump_valid (body c : list Z) (version : Z) : bool :=
  (version <=? RDB_VERSION) && (skip_checksum_validation || (le_dec c =? 0) || (crc_ref 0 body =? le_dec c)).

Lemma verify_spec st addr b v0 v1 c p : crc64_ok st -> p = (b ++ [v0; v1]) ++ c -> length c = 8%nat -> bytes_ok p -> zlength p < 2 ^ 63 ->
  exists st', verify st addr p (zlength p) = Ok (dump_valid (b ++ [v0; v1]) c (v0 + 256 * v1), Some (v0 + 256 * v1), st') /\ crc64_ok st'.
Proof.
  intros Hst Hp Hc Hb Hl. assert (Hlen : zlength p = zlength b + 10) by (rewrite Hp, !length_app, Hc; simpl; lia). unfold verifyDumpPayload, dump_valid.
  rewrite (proj2 (Z.ltb_ge _ _)) by lia. rewrite Hlen. replace (zlength b + 10 - 10) with (zlength b) by lia. replace (zlength b + 10 - 8) with (zlength b + 2) by lia.
  assert (Hg1 : get1 (zlength b + 1) p = Ok v1).
  { rewrite Hp, <- app_assoc. cbn [app]. change (b ++ v0 :: v1 :: c) with (b ++ [v0] ++ v1 :: c). rewrite (assoc_L (++)). apply get1_app. rewrite length_app. simpl. lia. }
  assert (Hg0 : get1 (zlength b) p = Ok v0) by (rewrite Hp, <- app_assoc; by apply get1_app).
  assert (Hw : load (zlength b + 2) 8 p = Ok c).
  { pose proof (load_app (b ++ [v0; v1]) c [] (zlength b + 2) 8) as Hload. rewrite app_nil_r, <- Hp in Hload. apply Hload; [rewrite length_app; simpl; lia|by rewrite Hc]. }
  assert (Hv : 0 <= v0 < 256).
  { rewrite Hp in Hb. apply Forall_app in Hb as [[_ [? _]%Forall_cons_1]%Forall_app _]. done. }
  rewrite Hg1, Hg0, Z.lor_comm, lor_shl_add by (pow_const; lia). change (2 ^ 8) with 256. rewrite (Z.mul_comm v1 256).
  destruct (Z.gtb_spec (v0 + 256 * v1) RDB_VERSION) as [H|H]; [rewrite (proj2 (Z.leb_gt _ _)) by lia; by exists st|]. rewrite (proj2 (Z.leb_le _ _)) by lia.
  destruct skip_checksum_validation; [by exists st|]. rewrite Hw. destruct (Z.eqb_spec (le_dec c) 0) as [H0|H0]; [by exists st|].
  destruct (crc64_calls st addr 0 p (zlength b + 2) Hst Hb) as (st' & Hcrc & Hst' & _); [lia|split; pow_const; lia|]. rewrite Hcrc.
  exists st'. split; [|done]. do 3 f_equal. cbn [orb andb]. f_equal. f_equal. rewrite Hp. apply take_app_length'. rewrite length_app. simpl. lia.
Qed.
End Verify.

(** * Detection of changes *)

Lemma verify_short skip st addr p ver st' : verifyDumpPayload skip st addr p (zlength p) = Ok (true, ver, st') -> 10 <= zlength p.
Proof. unfold verifyDumpPayload. destruct (Z.ltb_spec (zlength p) 10); [done|lia]. Qed.

(** C9: a changed payload is refused.  If a payload with a checksum is accepted, the payload
    in which at most eight bytes in a row, anywhere before the checksum, have been replaced
    by others is refused, and no memory outside of it is read.  The checksums may be computed at
    different addresses, in different states of the tables. *)
Theorem dump_change_detected st addr a w w' t c ver st1 st2 addr2 :
  crc64_ok st -> crc64_ok st2 -> bytes_ok (a ++ w ++ t ++ c) -> bytes_ok w' -> zlength (a ++ w ++ t ++ c) < 2 ^ 63 ->
  length c = 8%nat -> le_dec c <> 0 -> length w = length w' -> zlength w <= 8 -> w <> w' ->
  verifyDumpPayload false st addr (a ++ w ++ t ++ c) (zlength (a ++ w ++ t ++ c)) = Ok (true, ver, st1) ->
  exists ver' st3, verifyDumpPayload false st2 addr2 (a ++ w' ++ t ++ c) (zlength (a ++ w' ++ t ++ c)) = Ok (false, ver', st3) /\ crc64_ok st3.
Proof.
  intros Hst Hst2 Hb Hw' Hmax Hc Hnz Hlw H8 Hne Hver. pose proof (verify_short _ _ _ _ _ _ Hver) as H10.
  assert (Hlen : length (a ++ w ++ t) = (length (a ++ w ++ t ++ c) - 8)%nat) by (rewrite !length_app; lia).
  assert (Hlen' : length (a ++ w' ++ t) = length (a ++ w ++ t)) by (rewrite !length_app; lia).
  assert (Hz : zlength (a ++ w' ++ t ++ c) = zlength (a ++ w ++ t ++ c)) by (rewrite !length_app; lia).
  assert (E : forall x, a ++ x ++ t ++ c = (a ++ x ++ t) ++ c) by (intros x; by rewrite <- !(assoc_L (++))).
  assert (Hb' : bytes_ok (a ++ w' ++ t ++ c)) by (pose proof Hb as [? [_ ?]%Forall_app]%Forall_app; apply Forall_app; split; [done|]; by apply Forall_app).
  destruct (last_two (a ++ w ++ t) ltac:(lia)) as (b & v0 & v1 & Eb). destruct (last_two (a ++ w' ++ t) ltac:(lia)) as (b' & v0' & v1' & Eb').
  destruct (verify_spec false st addr b v0 v1 c _ Hst (eq_trans (E w) (f_equal (fun l => l ++ c) Eb)) Hc Hb Hmax) as (sx & Hv & _).
  destruct (verify_spec false st2 addr2 b' v0' v1' c _ Hst2 (eq_trans (E w') (f_equal (fun l => l ++ c) Eb')) Hc Hb' ltac:(lia)) as (st3 & Hv' & Hst3).
  exists (Some (v0' + 256 * v1')), st3. split; [|exact Hst3]. rewrite Hv'. do 3 f_equal. rewrite Hver in Hv. injection Hv as Hd _ _. symmetry in Hd.
  unfold dump_valid in Hd |- *. rewrite (proj2 (Z.eqb_neq _ _) Hnz) in Hd |- *. cbn [orb] in Hd |- *. apply andb_true_iff in Hd as [_ Hcrc%Z.eqb_eq].
  apply andb_false_iff. right. apply Z.eqb_neq. intros Hcrc'. apply Hne. rewrite <- Eb in Hcrc. rewrite <- Eb', <- Hcrc in Hcrc'.
  apply (crc_ref_burst 0 a w w' t); [split; pow_const; lia| |done..]. rewrite E in Hb. by apply Forall_app in Hb as [Hb _].
Qed.

(** * Creation *)

Section Create.
Context (junk : Z) (malloc_ok : Z -> bool) (htab : list Z -> htable) (address : list Z -> Z) (server : rdb_server).
Context (hashFunction : sds -> Z) (table_address : list (list (sds * unit)) -> Z) (sdsAllocSize : list Z -> Z).
Context (dict_can_resize : dictResizeEnable) (table_malloc : Z -> bool).
Context (fpconv_dtoa : double -> list Z) (fast_float_strtod : list Z -> double) `{!FloatText fpconv_dtoa fast_float_strtod}.
Context (usable : Z -> Z) (zsl_size : Z) (junk_level : zskiplistLevel).
Hypothesis Henv : env_ok malloc_ok htab address table_malloc.
Hypothesis Hsize : 0 <= zsl_size < 2 ^ 64.
Hypothesis Hserver : zset_max_listpack_entries (srv_zset server) <= 2 ^ 24.
Implicit Types (o : robj) (v : val) (draws : list (list Z)).

Notation load := (rdbLoadObject (D := rio_buffer) junk malloc_ok server hashFunction table_address sdsAllocSize dict_can_resize table_malloc fpconv_dtoa fast_float_strtod usable zsl_size junk_level).
Notation represents := (represents hashFunction sdsAllocSize fast_float_strtod usable zsl_size).
Notation savedLen := (rdbSavedObjectLen (D := rio_buffer) junk htab address server table_address).
Notation createDump := (createDumpPayload junk htab address server table_address).

(** On a buffer, saving succeeds. *)
Lemma buffer_saves (f : option (rio rio_buffer) -> res (option Z * option (rio rio_buffer))) bs n r :
  saves f bs n -> can_write r -> exists r', f (Some r) = Ok (Some n, Some r') /\ can_write r' /\ buf_ptr (io r') = buf_ptr (io r) ++ bs.
Proof.
  intros (_ & Hs & _) Hr. destruct (Hs r Hr) as (k & r' & Hf & Hk). destruct k as [k|]; [|by destruct Hk as [[] _]].
  destruct Hk as (-> & Hw & Hb). by exists r'.
Qed.

Lemma createDump_spec st addr o bs (skip_checksum : bool) : crc64_ok st -> saves (fun rdb => rdbSaveObject (D := rio_buffer) junk htab address server table_address rdb o) bs (zlength bs) ->
  0 < zlength bs < 2 ^ 62 -> let body := type_code (object_type o) :: bs ++ [12; 0] in
  exists payload st', createDump st addr o skip_checksum = Ok (payload, st') /\ crc64_ok st' /\ bytes_ok body /\
    payload_bytes payload = body ++ le_enc 8 (if skip_checksum then 0 else crc_ref 0 body).
Proof.
  intros Hst Hs Hl body. unfold createDumpPayload. destruct (type_kept (D := rio_buffer) o) as [Ht _].
  destruct (buffer_saves _ _ _ (rioInitWithBuffer []) Ht) as (r1 & -> & Hw1 & Hb1); [split; [reflexivity|vm_compute; discriminate]|]. cbn [nonzero Z.eqb negb].
  destruct (buffer_saves _ _ _ r1 Hs Hw1) as (r2 & -> & Hw2 & Hb2). cbn [nonzero]. rewrite (proj2 (Z.eqb_neq _ _)) by lia. cbn [negb].
  set (payload := payload_cat (Some r2) _). assert (Hp : payload_bytes payload = body).
  { unfold payload. cbn [payload_cat payload_bytes fmap option_fmap option_map io set_io buf_ptr]. rewrite Hb2, Hb1. unfold body. cbn [rioInitWithBuffer io buf_ptr app]. done. }
  assert (Hbody : bytes_ok body).
  { unfold body. pose proof (proj2 (proj2 Ht)) as Hty. apply Forall_cons_1 in Hty as [Hty _]. constructor; [done|]. apply Forall_app. split; [apply Hs|by repeat constructor]. }
  assert (Hlen : zlength body = zlength bs + 3) by (unfold body; cbn [length]; rewrite length_app; simpl; lia).
  assert (Hcat : forall c, payload_bytes (payload_cat payload c) = payload_bytes payload ++ c) by done.
  destruct skip_checksum; cbn [negb].
  - eexists _, st. split; [done|]. split; [exact Hst|]. split; [exact Hbody|]. by rewrite Hcat, Hp.
  - rewrite Hp. destruct (crc64_calls st addr 0 body (zlength body) Hst Hbody) as (st' & Hcrc & Hst' & _); [split; pow_const; lia|split; pow_const; lia|].
    rewrite Hcrc, Nat2Z.id, firstn_all. eexists _, st'. split; [done|]. split; [exact Hst'|]. split; [exact Hbody|]. by rewrite Hcat, Hp.
Qed.

(** C7: a value that was dumped is restored.  For a string, a set or a sorted set in any
    encoding, createDumpPayload returns a payload of the saved bytes and 11 more, the type, the
    version and the checksum; none of its assertions fails.  verifyDumpPayload accepts the payload,
    whether checksums were skipped or are not validated; and rdbLoadObjectType and rdbLoadObject
    return from the payload an object with the same value and leave the last 10 bytes unread. *)
Theorem dump_roundtrip o v draws st addr (skip_checksum : bool) :
  represents o v -> storable v draws -> crc64_ok st -> (forall n, savedLen o = Ok n -> n < 2 ^ 62) ->
  exists payload st', createDump st addr o skip_checksum = Ok (payload, st') /\ crc64_ok st' /\
    let p := payload_bytes payload in
    savedLen o = Ok (zlength p - 11) /\
    (forall skip_validation st2 addr2, crc64_ok st2 ->
       exists st3, verifyDumpPayload skip_validation st2 addr2 p (zlength p) = Ok (true, Some RDB_VERSION, st3) /\ crc64_ok st3) /\
    exists r1 o' r', rdbLoadObjectType (rioInitWithBuffer p) = Ok (Some (type_code (object_type o)), r1) /\
      load (object_type o) r1 draws = Ok (inr o', r') /\ represents o' v /\ zlength (unread (io r')) = 10.
Proof.
  intros Hr Hv Hst Hlen. destruct (object_kept (D := rio_buffer) junk malloc_ok htab address server hashFunction table_address sdsAllocSize dict_can_resize table_malloc
    fpconv_dtoa fast_float_strtod usable zsl_size junk_level Henv Hsize Hserver o v draws Hr Hv) as (bs & Hs & Hp & o' & Hload & Ho').
  assert (Hsl : savedLen o = Ok (zlength bs)) by (unfold rdbSavedObjectLen; by rewrite (proj1 Hs)). specialize (Hlen _ Hsl).
  destruct (createDump_spec st addr o bs skip_checksum Hst Hs ltac:(lia)) as (payload & st' & Hc & Hst' & Hbody & Hb).
  exists payload, st'. split; [exact Hc|]. split; [exact Hst'|]. set (crc := if skip_checksum then 0 else _) in Hb. cbv zeta. rewrite Hb.
  set (body := _ :: _) in *. assert (Hcw : word crc) by (destruct skip_checksum; [split; pow_const; lia|apply crc_ref_word; [split; pow_const; lia|exact Hbody]]).
  assert (Hzl : zlength (body ++ le_enc 8 crc) = zlength bs + 11) by (rewrite length_app, length_le_enc; unfold body; cbn [length]; rewrite length_app; simpl; lia).
  split; [rewrite Hzl, Hsl; f_equal; lia|]. split.
  - intros sv st2 addr2 Hst2. assert (Hbb : bytes_ok (body ++ le_enc 8 crc)) by (apply Forall_app; split; [exact Hbody|apply le_enc_bytes]).
    destruct (verify_spec sv st2 addr2 (type_code (object_type o) :: bs) 12 0 (le_enc 8 crc) (body ++ le_enc 8 crc) Hst2) as (st3 & Hver & Hst3);
      [reflexivity|apply length_le_enc|exact Hbb|rewrite Hzl; pow_const; lia|]. exists st3. split; [|exact Hst3]. rewrite Hver. do 3 f_equal.
    unfold dump_valid. rewrite le_dec_enc. change (8 * Z.of_nat 8) with 64. rewrite Z.mod_small by exact Hcw. unfold crc, body. destruct skip_checksum; [destruct sv; reflexivity|].
    cbn [app]. rewrite (Z.eqb_refl (crc_ref _ _)), !orb_true_r. reflexivity.
  - assert (Hcr : can_read (rioInitWithBuffer (body ++ le_enc 8 crc))).
    { split; [reflexivity|]. split; [|vm_compute; discriminate]. split; [cbn [rioInitWithBuffer io buf_ptr buf_pos]; lia|]. cbn [rioInitWithBuffer io buf_ptr]. rewrite Hzl. pow_const. lia. }
    destruct (proj2 (type_kept (D := rio_buffer) o) _ (bs ++ [12; 0] ++ le_enc 8 crc) Hcr) as (r1 & Ht & Hcr1 & Hu1).
    { unfold body. cbn. unfold buffer_unread. cbn. rewrite <- app_assoc. done. }
    destruct (Hload r1 _ Hcr1 Hu1) as (r' & Hl & _ & Hu'). exists r1, o', r'. split; [exact Ht|]. split; [exact Hl|]. split; [exact Ho'|].
    rewrite Hu', length_app, length_le_enc. reflexivity.
Qed.
End Create.

(** ** Examples *)

(** The integer set of 1 and 300: its type, a string of twelve bytes, the version and the
    checksum. *)
Definition demo_body : list Z := [11; 12; 2; 0; 0; 0; 2; 0; 0; 0; 1; 0; 44; 1; 12; 0].

Lemma dump_change_detected_witness :
  let c := le_enc 8 (crc_ref 0 demo_body) in
  exists ver st, verifyDumpPayload false demo_crc 0 ([11; 12; 2] ++ [7; 7; 7] ++ [2; 0; 0; 0; 1; 0; 44; 1; 12; 0] ++ c) 24 = Ok (false, ver, st).
Proof.
  assert (Hb : bytes_ok ([11; 12; 2] ++ [0; 0; 0] ++ [2; 0; 0; 0; 1; 0; 44; 1; 12; 0] ++ le_enc 8 (crc_ref 0 demo_body))) by (vm_compute; repeat constructor; discriminate).
  destruct (verify_spec false demo_crc 0 [11; 12; 2; 0; 0; 0; 2; 0; 0; 0; 1; 0; 44; 1] 12 0 (le_enc 8 (crc_ref 0 demo_body)) _ demo_crc_ok eq_refl eq_refl Hb ltac:(vm_compute; reflexivity)) as (st' & Hv & _).
  destruct (dump_change_detected demo_crc 0 [11; 12; 2] [0; 0; 0] [7; 7; 7] [2; 0; 0; 0; 1; 0; 44; 1; 12; 0] (le_enc 8 (crc_ref 0 demo_body)) (Some 12) st' demo_crc 0) as (ver & st & Hd & _).
  - exact demo_crc_ok.
  - exact demo_crc_ok.
  - exact Hb.
  - repeat constructor; lia.
  - vm_compute. reflexivity.
  - reflexivity.
  - vm_compute. discriminate.
  - reflexivity.
  - vm_compute. discriminate.
  - discriminate.
  - refine (eq_trans Hv _). do 3 f_equal.
  - exists ver, st. exact Hd.
Defined.

Lemma dump_roundtrip_witness :
  exists payload st, createDumpPayload 0 demo_table demo_address demo_server (fun _ => 0) demo_crc 0 demo_intset false = Ok (payload, st) /\
    zlength (payload_bytes payload) = 24 /\
    exists st3, verifyDumpPayload false st 1 (payload_bytes payload) (zlength (payload_bytes payload)) = Ok (true, Some 12, st3).
Proof.
  destruct (dump_roundtrip 0 demo_malloc demo_table demo_address demo_server SetTypeSpec.demo_hash (fun _ => 0) (fun t => zlength t) DICT_RESIZE_ENABLE (fun _ => true)
    demo_dtoa demo_strtod (fun n => 16 * n) 48 (mkLevel None 0) demo_env ltac:(pow_const; lia) ltac:(simpl; pow_const; lia) demo_intset
    (VSet (list_to_set [int_text 1; int_text 300])) [] demo_crc 0 false demo_represents) as (payload & st & Hc & Hst & Hlen & Hver & _).
  - split; [|vm_compute; reflexivity]. intros E. apply (f_equal (fun X : gset (list Z) => base.size X)) in E. vm_compute in E. discriminate E.
  - exact demo_crc_ok.
  - intros n Hn. assert (Hx : rdbSavedObjectLen (D := rio_buffer) 0 demo_table demo_address demo_server (fun _ => 0) demo_intset = Ok 13) by (vm_compute; reflexivity).
    rewrite Hx in Hn. injection Hn as <-. pow_const. lia.
  - exists payload, st. split; [exact Hc|]. split.
    + assert (Hx : rdbSavedObjectLen (D := rio_buffer) 0 demo_table demo_address demo_server (fun _ => 0) demo_intset = Ok 13) by (vm_compute; reflexivity).
      rewrite Hx in Hlen. injection Hlen as Hlen. lia.
    + destruct (Hver false st 1 Hst) as (st3 & Hv & _). exists st3. exact Hv.
Defined.
