(* ===== verification/Kvstore.v ===== *)
(** The keyspace, the model: src/redis-stable/src/kvstore.c.

    A kvstore is an array of dicts, one per cluster slot, with counters over all of them:
    the number of keys, a Fenwick tree of the dict sizes, the buckets, and the list of the
    dicts that are being rehashed.  The counters of buckets and rehashing dicts are
    maintained by the callbacks that the dicts call; here a callback is a notification in
    the log of the dict, processed when the operation returns.  A node of the rehashing
    list is named by a number, a dict by its index.  The dict types given to kvstoreCreate
    do not force full rehashing; the per-dict histogram metadata is not modelled. *)

From stdpp Require Import gmap.
From S2P Require Import Prelude Machine Fwtree Dict DictIter DictScan.

Definition KVSTORE_ALLOCATE_DICTS_ON_DEMAND : Z := 1.
Definition KVSTORE_FREE_EMPTY_DICTS : Z := 2.

(** A dict and the [rehashing_node] of its metadata. *)
Record slot (K V : Type) := mkSlot { s_dict : dict K V; rehashing_node : option Z }.
Arguments mkSlot {K V} _ _.
Arguments s_dict {K V} _.
Arguments rehashing_node {K V} _.

Record kvstore (K V : Type) := mkKvs {
  flags : Z;
  dicts : list (option (slot K V));
  num_dicts : Z;
  num_dicts_bits : Z;
  rehashing : list (Z * Z);            (* nodes with the index of their dict *)
  next_node : Z;                       (* names of nodes not used yet *)
  resize_cursor : Z;
  allocated_dicts : Z;
  non_empty_dicts : Z;
  key_count : Z;
  bucket_count : Z;
  dict_sizes : option fenwickTree;
  overhead_hashtable_rehashing : Z
}.
Arguments mkKvs {K V} _ _ _ _ _ _ _ _ _ _ _ _ _.
Arguments flags {K V} _.
Arguments dicts {K V} _.
Arguments num_dicts {K V} _.
Arguments num_dicts_bits {K V} _.
Arguments rehashing {K V} _.
Arguments next_node {K V} _.
Arguments resize_cursor {K V} _.
Arguments allocated_dicts {K V} _.
Arguments non_empty_dicts {K V} _.
Arguments key_count {K V} _.
Arguments bucket_count {K V} _.
Arguments dict_sizes {K V} _.
Arguments overhead_hashtable_rehashing {K V} _.

Section Kvstore.
Context {K V : Type} `{Countable K}.
Context (hashFunction : K -> Z) (keyCompare : K -> K -> bool).
Context (resizeAllowed : option (Z -> Z * Z -> bool)) (dict_can_resize : dictResizeEnable).
Notation kvstore := (kvstore K V).
Notation slot := (slot K V).
Implicit Types (kvs : kvstore) (d : dict K V) (s : slot).

(** * Updates of the fields *)

Definition set_dicts kvs ds alloc : kvstore :=
  mkKvs (flags kvs) ds (num_dicts kvs) (num_dicts_bits kvs) (rehashing kvs) (next_node kvs) (resize_cursor kvs)
    alloc (non_empty_dicts kvs) (key_count kvs) (bucket_count kvs) (dict_sizes kvs) (overhead_hashtable_rehashing kvs).
Definition set_counts kvs non_empty keys sizes : kvstore :=
  mkKvs (flags kvs) (dicts kvs) (num_dicts kvs) (num_dicts_bits kvs) (rehashing kvs) (next_node kvs) (resize_cursor kvs)
    (allocated_dicts kvs) non_empty keys (bucket_count kvs) sizes (overhead_hashtable_rehashing kvs).
Definition set_rehashing kvs nodes next buckets overhead : kvstore :=
  mkKvs (flags kvs) (dicts kvs) (num_dicts kvs) (num_dicts_bits kvs) nodes next (resize_cursor kvs)
    (allocated_dicts kvs) (non_empty_dicts kvs) (key_count kvs) buckets (dict_sizes kvs) overhead.
Definition set_resize_cursor kvs c : kvstore :=
  mkKvs (flags kvs) (dicts kvs) (num_dicts kvs) (num_dicts_bits kvs) (rehashing kvs) (next_node kvs) c
    (allocated_dicts kvs) (non_empty_dicts kvs) (key_count kvs) (bucket_count kvs) (dict_sizes kvs)
    (overhead_hashtable_rehashing kvs).

Definition has_flag kvs (f : Z) : bool := negb (Z.land (flags kvs) f =? 0).

(** * Dict callbacks *)

(** listAddNodeTail and the new [rehashing_node] *)
Definition kvstoreDictRehashingStarted kvs (didx from : Z) : kvstore * option Z :=
  (set_rehashing kvs (rehashing kvs ++ [(next_node kvs, didx)]) (next_node kvs + 1) (bucket_count kvs)
     (u64 (overhead_hashtable_rehashing kvs + from)),
   Some (next_node kvs)).

Definition kvstoreDictRehashingCompleted kvs (node : option Z) (from : Z) : kvstore * option Z :=
  (set_rehashing kvs
     (match node with Some n => filter (fun x => x.1 <> n) (rehashing kvs) | None => rehashing kvs end)
     (next_node kvs) (bucket_count kvs) (u64 (overhead_hashtable_rehashing kvs - from)),
   None).

Definition kvstoreDictBucketChanged kvs (delta : Z) : kvstore :=
  set_rehashing kvs (rehashing kvs) (next_node kvs) (u64 (bucket_count kvs + delta)) (overhead_hashtable_rehashing kvs).

(** The callback for a notification of the dict at [didx], with its [rehashing_node]. *)
Definition dict_callback (didx : Z) (st : kvstore * option Z) (e : dictEvent) : kvstore * option Z :=
  let '(kvs, node) := st in
  match e with
  | RehashingStarted from => kvstoreDictRehashingStarted kvs didx from
  | RehashingCompleted from => kvstoreDictRehashingCompleted kvs node from
  | BucketChanged delta => (kvstoreDictBucketChanged kvs delta, node)
  end.

(** The notifications that a call on the dict of [s] has added to its log. *)
Definition dict_callbacks kvs (didx : Z) s (log : list dictEvent) : kvstore * option Z :=
  foldl (dict_callback didx) (kvs, rehashing_node s) (drop (length (events (s_dict s))) log).

(** The dict [d] as a call on the dict of [s] left it. *)
Definition store_dict kvs (didx : Z) s d : res kvstore :=
  let '(kvs, node) := dict_callbacks kvs didx s (events d) in
  let! ds := set1 didx (Some (mkSlot d node)) (dicts kvs) in
  Ok (set_dicts kvs ds (allocated_dicts kvs)).

(** * Helpers *)

Definition kvstoreGetDict kvs (didx : Z) : res (option slot) := get1 didx (dicts kvs).

(** A dereferenced dict pointer. *)
Definition deref_dict kvs (didx : Z) : res slot :=
  let! s := kvstoreGetDict kvs didx in match s with Some s => Ok s | None => Fault OutOfBounds end.

Definition kvstoreDictSize kvs (didx : Z) : res Z :=
  let! s := kvstoreGetDict kvs didx in Ok (match s with None => 0 | Some s => dictSize (s_dict s) end).

Definition kvstoreDictIsRehashingPaused kvs (didx : Z) : res bool :=
  let! s := kvstoreGetDict kvs didx in Ok (match s with None => false | Some s => pauserehash (s_dict s) >? 0 end).

Definition addDictIndexToCursor kvs (didx cursor : Z) : Z :=
  if num_dicts kvs =? 1 then cursor
  else if didx <? 0 then cursor
  else Z.lor (u64 (Z.shiftl cursor (num_dicts_bits kvs))) didx.

Definition getAndClearDictIndexFromCursor kvs (cursor : Z) : Z * Z :=
  if num_dicts kvs =? 1 then (0, cursor)
  else (s32 (Z.land cursor (num_dicts kvs - 1)), Z.shiftr cursor (num_dicts_bits kvs)).

Definition cumulativeKeyCountAdd kvs (didx delta : Z) : res kvstore :=
  let keys := u64 (key_count kvs + delta) in
  let! s := deref_dict kvs didx in
  let dsize := dictSize (s_dict s) in
  let non_empty_dicts_delta := if (dsize =? 1) && (delta >? 0) then 1 else if dsize =? 0 then -1 else 0 in
  let non_empty := s32 (non_empty_dicts kvs + non_empty_dicts_delta) in
  if num_dicts kvs =? 1 then Ok (set_counts kvs non_empty keys (dict_sizes kvs))
  else
    let! sizes := fwTreeUpdate (dict_sizes kvs) didx delta in
    Ok (set_counts kvs non_empty keys sizes).

Definition createDictIfNeeded kvs (didx : Z) : res kvstore :=
  let! s := kvstoreGetDict kvs didx in
  match s with
  | Some _ => Ok kvs
  | None =>
      let! ds := set1 didx (Some (mkSlot dictCreate None)) (dicts kvs) in
      Ok (set_dicts kvs ds (s32 (allocated_dicts kvs + 1)))
  end.

Definition freeDictIfNeeded kvs (didx : Z) : res kvstore :=
  if negb (has_flag kvs KVSTORE_FREE_EMPTY_DICTS) then Ok kvs
  else
    let! s := kvstoreGetDict kvs didx in
    match s with
    | None => Ok kvs
    | Some s =>
        let! n := kvstoreDictSize kvs didx in
        let! paused := kvstoreDictIsRehashingPaused kvs didx in
        if negb (n =? 0) || paused then Ok kvs
        else
          let '(kvs, _) := dict_callbacks kvs didx s (dictRelease (s_dict s)) in
          let! ds := set1 didx None (dicts kvs) in
          Ok (set_dicts kvs ds (s32 (allocated_dicts kvs - 1)))
    end.

(** for (int i = first; n more rounds; i++) *)
Fixpoint for_dicts {A} (n : nat) (i : Z) (body : A -> Z -> res A) (a : A) : res A :=
  match n with
  | O => Ok a
  | S n => let! a := body a i in for_dicts n (i + 1) body a
  end.

(** * API *)

Definition kvstoreCreate (bits fl : Z) : res kvstore :=
  assert! bits <=? 16 in
  let num := s32 (Z.shiftl 1 bits) in
  let kvs := mkKvs fl (replicate (Z.to_nat num) None) num bits [] 0 0 0 0 0 0 None 0 in
  let! kvs :=
    (if negb (has_flag kvs KVSTORE_ALLOCATE_DICTS_ON_DEMAND)
     then for_dicts (Z.to_nat num) 0 createDictIfNeeded kvs else Ok kvs) in
  Ok (mkKvs (flags kvs) (dicts kvs) (num_dicts kvs) (num_dicts_bits kvs) [] (next_node kvs) 0 (allocated_dicts kvs) 0 0 0
        (if num_dicts kvs >? 1 then Some (fwTreeCreate (num_dicts_bits kvs)) else None) 0).

(** the body of the loop of kvstoreEmpty *)
Definition empty_dict kvs (didx : Z) : res kvstore :=
  let! s := kvstoreGetDict kvs didx in
  match s with
  | None => Ok kvs
  | Some s =>
      let s := mkSlot (s_dict s) None in
      let! kvs := store_dict kvs didx s (dictEmpty (s_dict s)) in
      freeDictIfNeeded kvs didx
  end.

Definition kvstoreEmpty kvs : res kvstore :=
  let! kvs := for_dicts (Z.to_nat (num_dicts kvs)) 0 empty_dict kvs in
  Ok (mkKvs (flags kvs) (dicts kvs) (num_dicts kvs) (num_dicts_bits kvs) [] (next_node kvs) 0 (allocated_dicts kvs) 0 0 0
        (fwTreeClear <$> dict_sizes kvs) 0).

Definition kvstoreSize kvs : Z := key_count kvs.

Definition kvstoreBuckets kvs : res Z :=
  if negb (num_dicts kvs =? 1) then Ok (bucket_count kvs)
  else let! s := kvstoreGetDict kvs 0 in Ok (match s with Some s => dictBuckets (s_dict s) | None => 0 end).

Definition kvstoreDictRehashingCount kvs : Z := zlength (rehashing kvs).

Definition kvstoreNumNonEmptyDicts kvs : Z := non_empty_dicts kvs.
Definition kvstoreNumAllocatedDicts kvs : Z := allocated_dicts kvs.

(** ** Dict indices *)

Definition kvstoreFindDictIndexByKeyIndex kvs (target : Z) : res Z :=
  if (num_dicts kvs =? 1) || (kvstoreSize kvs =? 0) then Ok 0
  else
    assert! target <=? kvstoreSize kvs in
    match dict_sizes kvs with Some ft => fwTreeFindIndex ft target | None => Fault OutOfBounds end.

Definition kvstoreGetFirstNonEmptyDictIndex kvs : res Z :=
  if (num_dicts kvs =? 1) || (kvstoreSize kvs =? 0) then Ok 0
  else match dict_sizes kvs with Some ft => fwTreeFindFirstNonEmpty ft | None => Fault OutOfBounds end.

Definition kvstoreGetNextNonEmptyDictIndex kvs (didx : Z) : res Z :=
  if num_dicts kvs =? 1 then assert! didx =? 0 in Ok (-1)
  else fwTreeFindNextNonEmpty (dict_sizes kvs) didx.

(** A skip_cb that may be NULL. *)
Definition skipped (skip_cb : option (Z -> bool)) (didx : Z) : bool :=
  match skip_cb with Some f => f didx | None => false end.

(** The attempts; [random] is what randomULong returns at each of them. *)
Fixpoint fair_attempts kvs (skip_cb : option (Z -> bool)) (random : list Z) : res (option Z) :=
  match random with
  | [] => Ok None
  | r :: random =>
      let target := u64 (r mod kvstoreSize kvs + 1) in
      let! didx := kvstoreFindDictIndexByKeyIndex kvs target in
      if negb (skipped skip_cb didx) then Ok (Some didx) else fair_attempts kvs skip_cb random
  end.

(** for (int i = 0; i < kvs->num_dicts; i++) from [i] on, [n] rounds *)
Fixpoint slow_search kvs (skip_cb : option (Z -> bool)) (n : nat) (start i : Z) : res Z :=
  match n with
  | O => Ok (-1)
  | S n =>
      let didx := s32 ((start + i) mod num_dicts kvs) in
      let! s := kvstoreGetDict kvs didx in
      if bool_decide (s <> None) && negb (skipped skip_cb didx) then Ok didx
      else slow_search kvs skip_cb n start (i + 1)
  end.

(** [random] holds one number per fair attempt; [start] is the number for the fallback. *)
Definition kvstoreGetFairRandomDictIndex kvs (skip_cb : option (Z -> bool)) (random : list Z) (slow_fallback : option Z) : res Z :=
  if (num_dicts kvs =? 1) || (kvstoreSize kvs =? 0) then Ok 0
  else
    let! r := fair_attempts kvs skip_cb random in
    match r with
    | Some didx => Ok didx
    | None =>
        match slow_fallback with
        | Some rnd => slow_search kvs skip_cb (Z.to_nat (num_dicts kvs)) (s32 (rnd mod num_dicts kvs)) 0
        | None => Ok (-1)
        end
    end.

(** ** Scanning *)

(** The new cursor and the entries given to the callback; [onlydidx] is -1 for all dicts. *)
Definition kvstoreScan kvs (cursor onlydidx : Z) (skip_cb : option (dict K V -> Z -> bool)) : res (Z * list (K * V) * kvstore) :=
  let '(didx, cursor) := getAndClearDictIndexFromCursor kvs cursor in
  if (onlydidx >=? 0) && (didx >? onlydidx) then Ok (0, [], kvs)
  else
    assert! (if (onlydidx >=? 0) && (didx <? onlydidx) then onlydidx <? num_dicts kvs else true) in
    let '(didx, cursor) := if (onlydidx >=? 0) && (didx <? onlydidx) then (onlydidx, 0) else (didx, cursor) in
    let! s := kvstoreGetDict kvs didx in
    let! '(skip, _cursor, es, kvs) :=
      (match s with
       | Some s =>
           if (match skip_cb with Some f => f (s_dict s) didx | None => false end) then Ok (true, 0, [], kvs)
           else
             let! '(c, es) := dictScan (s_dict s) cursor in
             let! kvs := freeDictIfNeeded kvs didx in
             Ok (false, c, es, kvs)
       | None => Ok (true, 0, [], kvs)
       end) in
    if (_cursor =? 0) || skip then
      if onlydidx >=? 0 then Ok (0, es, kvs)
      else
        let! didx := kvstoreGetNextNonEmptyDictIndex kvs didx in
        if didx =? -1 then Ok (0, es, kvs) else Ok (addDictIndexToCursor kvs didx _cursor, es, kvs)
    else Ok (addDictIndexToCursor kvs didx _cursor, es, kvs).

(** ** Resizing *)

(** The body of the loop of kvstoreExpand; the flag tells that an allocation has failed,
    after which the loop is left. *)
Definition expand_dict (newsize : Z) (try_expand : bool) (skip_cb : option (Z -> bool)) (alloc_ok : Z -> bool)
    (st : bool * kvstore) (i : Z) : res (bool * kvstore) :=
  let '(failed, kvs) := st in
  if (failed : bool) then Ok st
  else
    let! s := kvstoreGetDict kvs i in
    match s with
    | None => Ok st
    | Some s =>
        if skipped skip_cb i then Ok st
        else
          let! '(result, d) :=
            (if try_expand then dictTryExpand hashFunction false dict_can_resize (s_dict s) newsize (alloc_ok i)
             else dictExpand hashFunction false dict_can_resize (s_dict s) newsize) in
          let! kvs := store_dict kvs i s d in
          Ok (try_expand && bool_decide (result = DICT_ERR), kvs)
    end.

Definition kvstoreExpand kvs (newsize : Z) (try_expand : bool) (skip_cb : option (Z -> bool)) (alloc_ok : Z -> bool) : res (Z * kvstore) :=
  let! '(failed, kvs) := for_dicts (Z.to_nat (num_dicts kvs)) 0 (expand_dict newsize try_expand skip_cb alloc_ok) (false, kvs) in
  Ok (if (failed : bool) then 0 else 1, kvs).

(** the body of the loop of kvstoreTryResizeDicts *)
Definition resize_dict kvs (_i : Z) : res kvstore :=
  let didx := resize_cursor kvs in
  let! s := kvstoreGetDict kvs didx in
  let! kvs :=
    (match s with
     | None => Ok kvs
     | Some s =>
         let! '(st, d) := dictShrinkIfNeeded hashFunction resizeAllowed false dict_can_resize (s_dict s) in
         let! d :=
           (match st with
            | DICT_ERR => let! '(_, d) := dictExpandIfNeeded hashFunction resizeAllowed false dict_can_resize d in Ok d
            | DICT_OK => Ok d
            end) in
         store_dict kvs didx s d
     end) in
  Ok (set_resize_cursor kvs (s32 ((didx + 1) mod num_dicts kvs))).

Definition kvstoreTryResizeDicts kvs (limit : Z) : res kvstore :=
  let limit := if limit >? num_dicts kvs then num_dicts kvs else limit in
  for_dicts (Z.to_nat limit) 0 resize_dict kvs.

Definition kvstoreDictExpand kvs (didx size : Z) : res (dictStatus * kvstore) :=
  let! kvs := createDictIfNeeded kvs didx in
  let! s := deref_dict kvs didx in
  let! '(st, d) := dictExpand hashFunction false dict_can_resize (s_dict s) size in
  let! kvs := store_dict kvs didx s d in
  Ok (st, kvs).

(** ** Keys *)

Definition kvstoreDictFind kvs (didx : Z) (key : K) : res (option (K * V) * kvstore) :=
  let! s := kvstoreGetDict kvs didx in
  match s with
  | None => Ok (None, kvs)
  | Some s =>
      let! '(de, d) := dictFind hashFunction keyCompare dict_can_resize (s_dict s) key in
      let! kvs := store_dict kvs didx s d in
      Ok (de, kvs)
  end.

Definition kvstoreDictFetchValue kvs (didx : Z) (key : K) : res (option V * kvstore) :=
  let! '(de, kvs) := kvstoreDictFind kvs didx key in Ok (snd <$> de, kvs).

Definition kvstoreDictFindLink kvs (didx : Z) (key : K) : res (option link * option (Z * Z) * kvstore) :=
  let! s := kvstoreGetDict kvs didx in
  match s with
  | None => Ok (None, None, kvs)
  | Some s =>
      let! '(link, bucket, d) := dictFindLink hashFunction keyCompare dict_can_resize (s_dict s) key true in
      let! kvs := store_dict kvs didx s d in
      Ok (link, bucket, kvs)
  end.

(** kvstoreDictSetAtLink with [newItem] set *)
Definition kvstoreDictSetAtLink kvs (didx : Z) (junk : V) (key : K) (bucket : option (Z * Z)) : res kvstore :=
  let! kvs := createDictIfNeeded kvs didx in
  let! s := deref_dict kvs didx in
  let! d := dictSetKeyAtLink hashFunction keyCompare resizeAllowed dict_can_resize (s_dict s) junk key bucket in
  let! kvs := store_dict kvs didx s d in
  cumulativeKeyCountAdd kvs didx 1.

Definition kvstoreDictAddRaw kvs (didx : Z) (junk : V) (key : K) : res ((link + link) * kvstore) :=
  let! kvs := createDictIfNeeded kvs didx in
  let! s := deref_dict kvs didx in
  let! '(ret, d) := dictAddRaw hashFunction keyCompare resizeAllowed false dict_can_resize (s_dict s) junk key in
  let! kvs := store_dict kvs didx s d in
  match ret with
  | inl _ => Ok (ret, kvs)
  | inr _ => let! kvs := cumulativeKeyCountAdd kvs didx 1 in Ok (ret, kvs)
  end.

Definition kvstoreDictSetVal kvs (didx : Z) (de : link) (val : V) : res kvstore :=
  let! s := deref_dict kvs didx in
  let! d := dictSetVal (s_dict s) de val in
  store_dict kvs didx s d.

Definition kvstoreDictTwoPhaseUnlinkFind kvs (didx : Z) (key : K) : res (option link * kvstore) :=
  let! s := kvstoreGetDict kvs didx in
  match s with
  | None => Ok (None, kvs)
  | Some s =>
      let! '(l, d) := dictTwoPhaseUnlinkFind hashFunction keyCompare dict_can_resize (s_dict s) key in
      let! kvs := store_dict kvs didx s d in
      Ok (l, kvs)
  end.

Definition kvstoreDictTwoPhaseUnlinkFree kvs (didx : Z) (plink : option link) : res kvstore :=
  let! s := deref_dict kvs didx in
  let! d := dictTwoPhaseUnlinkFree hashFunction resizeAllowed false dict_can_resize (s_dict s) plink in
  let! kvs := store_dict kvs didx s d in
  let! kvs := cumulativeKeyCountAdd kvs didx (-1) in
  freeDictIfNeeded kvs didx.

Definition kvstoreDictDelete kvs (didx : Z) (key : K) : res (dictStatus * kvstore) :=
  let! s := kvstoreGetDict kvs didx in
  match s with
  | None => Ok (DICT_ERR, kvs)
  | Some s =>
      let! '(ret, d) := dictDelete hashFunction keyCompare resizeAllowed false dict_can_resize (s_dict s) key in
      let! kvs := store_dict kvs didx s d in
      match ret with
      | DICT_OK =>
          let! kvs := cumulativeKeyCountAdd kvs didx (-1) in
          let! kvs := freeDictIfNeeded kvs didx in Ok (DICT_OK, kvs)
      | DICT_ERR => Ok (DICT_ERR, kvs)
      end
  end.

(** ** Moving a dict to another kvstore *)

Definition kvstoreMoveDict kvs (dst : kvstore) (didx : Z) : res (kvstore * kvstore) :=
  assert! num_dicts kvs >? didx in
  assert! num_dicts kvs =? num_dicts dst in
  let! s' := kvstoreGetDict dst didx in
  assert! bool_decide (s' = None) in
  let! s := kvstoreGetDict kvs didx in
  match s with
  | None => Ok (kvs, dst)
  | Some s =>
      let d := s_dict s in
      let kvs := set_dicts kvs (dicts kvs) (s32 (allocated_dicts kvs - 1)) in
      let! kvs := cumulativeKeyCountAdd kvs didx (s64 (- dictSize d)) in
      let kvs := kvstoreDictBucketChanged kvs (- dictBuckets d) in
      let '(kvs, node) := if dictIsRehashing d
                          then kvstoreDictRehashingCompleted kvs (rehashing_node s) (fst (dictRehashingInfo d))
                          else (kvs, rehashing_node s) in
      let! ds := set1 didx None (dicts kvs) in
      let kvs := set_dicts kvs ds (allocated_dicts kvs) in
      let! kvs := (if negb (has_flag kvs (Z.lor KVSTORE_ALLOCATE_DICTS_ON_DEMAND KVSTORE_FREE_EMPTY_DICTS))
                   then createDictIfNeeded kvs didx else Ok kvs) in
      let! ds := set1 didx (Some (mkSlot d node)) (dicts dst) in
      let dst := set_dicts dst ds (s32 (allocated_dicts dst + 1)) in
      let! dst := cumulativeKeyCountAdd dst didx (s64 (dictSize d)) in
      let dst := kvstoreDictBucketChanged dst (dictBuckets d) in
      if dictIsRehashing d then
        let '(dst, node) := kvstoreDictRehashingStarted dst didx (fst (dictRehashingInfo d)) in
        let! ds := set1 didx (Some (mkSlot d node)) (dicts dst) in
        Ok (kvs, set_dicts dst ds (allocated_dicts dst))
      else Ok (kvs, dst)
  end.
End Kvstore.
