(* ===== verification/KvstoreInv.v ===== *)
(** The keyspace, the invariant: a kvstore of src/redis-stable/src/kvstore.c represents an
    array of finite maps, and its counters, which the operations and the callbacks of the
    dicts maintain, agree with it. *)

From stdpp Require Import gmap.
From S2P Require Import Prelude Machine Fwtree Dict DictInv DictOps DictIter DictLog DictScan Kvstore.

(** * Sums over an array *)

Definition zsum (xs : list Z) : Z := foldr Z.add 0 xs.

Lemma zsum_insert xs i x y : xs !! i = Some x -> zsum (<[i := y]> xs) = zsum xs - x + y.
Proof.
  unfold zsum. revert i. induction xs as [|z xs IH]; intros [|i] Hi; simpl in *; simplify_eq; [lia|]. rewrite (IH i Hi). lia.
Qed.

Lemma zsum_fmap_insert {A} (f : A -> Z) l i x y : l !! i = Some x -> zsum (f <$> <[i := y]> l) = zsum (f <$> l) - f x + f y.
Proof. intros Hi. rewrite list_fmap_insert. apply zsum_insert. by rewrite list_lookup_fmap, Hi. Qed.

Lemma zsum_indicator {A} (f : A -> Z) l : (forall x, 0 <= f x <= 1) -> 0 <= zsum (f <$> l) <= zlength l.
Proof. intros Hf. unfold zsum. induction l as [|x l IH]; cbn [fmap list_fmap foldr length]; [lia|]. pose proof (Hf x). lia. Qed.

Lemma zsum_elem (xs : list Z) i x : Forall (fun x => 0 <= x) xs -> xs !! i = Some x -> 0 <= x <= zsum xs.
Proof.
  unfold zsum. intros Hp. revert i. induction Hp as [|z xs Hz Hp IH]; intros [|i] Hi; simpl in *; simplify_eq.
  - pose proof (foldr_add_nonneg xs Hp). lia.
  - destruct (IH i Hi). lia.
Qed.

Lemma psum_zsum xs n : zlength xs <= n -> psum xs n = zsum xs.
Proof. intros Hn. unfold psum, zsum. by rewrite take_ge by lia. Qed.

Section Inv.
Context {K V : Type} `{Countable K}.
Context (hashFunction : K -> Z).
Notation kvstore := (kvstore K V).
Notation slot := (slot K V).
Notation dict_rep := (dict_rep hashFunction).
Implicit Types (kvs : kvstore) (d : dict K V) (s : slot) (m : gmap K V) (ms : list (gmap K V)).

(** * Dicts and callbacks *)

(** A dict of the array and the map it stands for; a missing dict is an empty one. *)
Definition slot_rep (o : option slot) m : Prop :=
  match o with
  | None => m = ∅
  | Some s =>
      dict_rep (s_dict s) m /\ pauseAutoResize (s_dict s) = 0 /\
      (rehashing_node s <> None <-> rehash_state (s_dict s) <> None)
  end.

Definition slot_alloc (o : option slot) : Z := match o with Some _ => 1 | None => 0 end.
Definition slot_buckets (o : option slot) : Z := match o with Some s => dictBuckets (s_dict s) | None => 0 end.
Definition slot_from (o : option slot) : Z := match o with Some s => default 0 (rehash_state (s_dict s)) | None => 0 end.

(** The node [n] of the list belongs to the dict at [i]. *)
Definition node_at (ds : list (option slot)) (n i : Z) : Prop :=
  exists s, 0 <= i /\ ds !! Z.to_nat i = Some (Some s) /\ rehashing_node s = Some n.

Record dicts_rep kvs ms : Prop := {
  dr_bits : 0 <= num_dicts_bits kvs <= 16;
  dr_num : num_dicts kvs = 2 ^ num_dicts_bits kvs;
  dr_len : zlength ms = num_dicts kvs;
  dr_slots : Forall2 slot_rep (dicts kvs) ms;
  dr_alloc : allocated_dicts kvs = zsum (slot_alloc <$> dicts kvs);
  dr_buckets : bucket_count kvs = u64 (zsum (slot_buckets <$> dicts kvs));
  dr_overhead : overhead_hashtable_rehashing kvs = u64 (zsum (slot_from <$> dicts kvs));
  dr_nodes : forall n i, (n, i) ∈ rehashing kvs <-> node_at (dicts kvs) n i;
  dr_nodup : NoDup (rehashing kvs).*1;
  dr_fresh : Forall (fun x => x.1 < next_node kvs) (rehashing kvs);
  dr_cursor : 0 <= resize_cursor kvs < num_dicts kvs
}.

Definition nonzero (x : Z) : Z := if x =? 0 then 0 else 1.
Lemma nonzero_bit x : 0 <= nonzero x <= 1.
Proof. unfold nonzero. destruct (x =? 0); lia. Qed.

(** The counters of keys. *)
Record counts_rep kvs (szs : list Z) : Prop := {
  cr_pos : Forall (fun x => 0 <= x) szs;
  cr_keys : key_count kvs = zsum szs;
  cr_small : zsum szs < 2 ^ 58;
  cr_nonempty : non_empty_dicts kvs = zsum (nonzero <$> szs);
  cr_tree : if num_dicts kvs =? 1 then dict_sizes kvs = None
            else exists ft, dict_sizes kvs = Some ft /\ size ft = num_dicts kvs /\ fw_repr ft szs
}.

Definition map_sizes ms : list Z := (fun m => Z.of_nat (base.size m)) <$> ms.

Definition kvs_rep kvs ms : Prop := dicts_rep kvs ms /\ counts_rep kvs (map_sizes ms).

(** What the callbacks keep while they process the log of the dict at [didx]: the other
    dicts contribute [B] buckets, the overhead [O] and the nodes [R]. *)
Record cb_state kvs (didx : Z) (node st : option Z) (B O : Z) (R : Z -> Z -> Prop) : Prop := {
  cb_node : node <> None <-> st <> None;
  cb_buckets : bucket_count kvs = u64 B;
  cb_overhead : overhead_hashtable_rehashing kvs = u64 (O + default 0 st);
  cb_nodes : forall n i, (n, i) ∈ rehashing kvs <-> (i = didx /\ node = Some n) \/ R n i;
  cb_nodup : NoDup (rehashing kvs).*1;
  cb_fresh : Forall (fun x => x.1 < next_node kvs) (rehashing kvs)
}.

Lemma u64_add a b : u64 (u64 a + b) = u64 (a + b).
Proof. unfold u. by rewrite Z.add_mod_idemp_l by done. Qed.

Lemma u64_sub a b : u64 (u64 a - b) = u64 (a - b).
Proof. unfold u. by rewrite Zminus_mod_idemp_l. Qed.

Lemma started_state kvs didx B O R from :
  (forall n i, R n i -> i <> didx) ->
  cb_state kvs didx None None B O R ->
  let '(kvs', node) := kvstoreDictRehashingStarted kvs didx from in cb_state kvs' didx node (Some from) B O R.
Proof.
  intros HR [_ Hb Ho Hn Hnd Hf]. split; simpl.
  - done.
  - done.
  - simpl in Ho. rewrite Ho, u64_add. f_equal. lia.
  - intros n i. rewrite elem_of_app, Hn, list_elem_of_singleton. split; intros [?|?]; naive_solver.
  - rewrite fmap_app. apply list.NoDup_app. split; [done|]. split; [|apply NoDup_singleton].
    intros n Hin. simpl. rewrite list_elem_of_singleton. intros ->. apply list_elem_of_fmap in Hin as (x & E & Hx).
    apply (proj1 (list.Forall_forall _ _) Hf) in Hx. lia.
  - apply Forall_app. split; [|constructor; [simpl; lia|constructor]]. eapply list.Forall_impl; [done|]. simpl. lia.
Qed.

Lemma completed_state kvs didx node B O R from :
  (forall n i, R n i -> i <> didx) ->
  cb_state kvs didx node (Some from) B O R ->
  let '(kvs', node') := kvstoreDictRehashingCompleted kvs node from in cb_state kvs' didx node' None B O R.
Proof.
  intros HR [Hnode Hb Ho Hn Hnd Hf]. destruct node as [n0|]; [|destruct (proj2 Hnode); done].
  assert (forall n i, R n i -> n <> n0) as HR0.
  { intros n i Hr ->. assert ((n0, didx) ∈ rehashing kvs) as H1 by (apply Hn; auto).
    assert ((n0, i) ∈ rehashing kvs) as H2 by (apply Hn; auto).
    assert (i = didx) as ->; [|by eapply HR].
    apply list_elem_of_lookup in H1 as [a Ha], H2 as [b Hb'].
    assert (a = b) as ->; [|congruence]. eapply (NoDup_lookup (rehashing kvs).*1); [done| |]; rewrite list_lookup_fmap; [by rewrite Ha|by rewrite Hb']. }
  split; simpl.
  - done.
  - done.
  - rewrite Ho, u64_sub. simpl. f_equal. lia.
  - intros n i. rewrite list_elem_of_filter, Hn. simpl. split; [intros [? [[-> [= ->]]|?]]; naive_solver|].
    intros [[_ ?]|?]; [done|]. split; [by eapply HR0|by right].
  - eapply sublist_NoDup; [done|]. apply fmap_sublist, sublist_filter.
  - apply list.Forall_forall. intros x [_ Hx]%list_elem_of_filter. by apply (proj1 (list.Forall_forall _ _) Hf).
Qed.

(** The fields that callbacks do not touch. *)
Definition callback_frame kvs kvs' : Prop :=
  exists nodes next buckets overhead, kvs' = set_rehashing kvs nodes next buckets overhead.

Lemma callback_run evs : forall kvs didx node st B O R st',
  (forall n i, R n i -> i <> didx) -> cb_state kvs didx node st B O R -> foldl rehash_event (Some st) evs = Some st' ->
  let '(kvs', node') := foldl (dict_callback didx) (kvs, node) evs in
  cb_state kvs' didx node' st' (B + bucket_sum evs) O R /\ callback_frame kvs kvs'.
Proof.
  induction evs as [|e evs IH]; intros kvs didx node st B O R st' HR Hs Hrun; cbn [foldl] in *.
  { injection Hrun as <-. simpl. rewrite Z.add_0_r. split; [done|]. by destruct kvs; repeat eexists. }
  assert (exists st1, rehash_event (Some st) e = Some st1) as [st1 E].
  { destruct (rehash_event (Some st) e); [by eexists|]. exfalso. clear IH. induction evs; simpl in *; [done|auto]. }
  rewrite E in Hrun.
  assert (let '(kvs1, node1) := dict_callback didx (kvs, node) e in
    cb_state kvs1 didx node1 st1 (B + bucket_sum [e]) O R /\ callback_frame kvs kvs1) as Hstep.
  { destruct e as [from|from|delta]; simpl in E |- *; rewrite ?Z.add_0_r.
    - destruct st; [done|]. injection E as <-. split; [|by repeat eexists]. destruct node; [by destruct Hs as [[Hx _] _ _ _ _ _]; destruct Hx|].
      by apply (started_state kvs didx B O R from).
    - destruct st as [from0|]; [|done]. destruct (Z.eqb_spec from0 from) as [->|]; [|done]. injection E as <-.
      split; [|by repeat eexists]. by apply (completed_state kvs didx node B O R from).
    - assert (st1 = st) as -> by (destruct st; congruence). split; [|by repeat eexists]. destruct Hs as [? Hb ? ? ? ?]. split; try done. simpl. by rewrite Hb, u64_add. }
  destruct (dict_callback didx (kvs, node) e) as [kvs1 node1]. destruct Hstep as [Hs1 (n1 & x1 & b1 & o1 & ->)].
  specialize (IH _ didx node1 st1 _ O R st' HR Hs1 Hrun). destruct (foldl _ _ _) as [kvs2 node2].
  destruct IH as [Hs2 (n2 & x2 & b2 & o2 & ->)]. split; [|by repeat eexists].
  replace (B + bucket_sum (e :: evs)) with (B + bucket_sum [e] + bucket_sum evs) by (simpl; destruct e; lia). done.
Qed.
Lemma dict_buckets d : dict_ok hashFunction d -> dictBuckets d = bucket_sum (events d).
Proof.
  intros Hd. destruct (ht_ok_size _ _ (ok_ht0 _ d Hd)) as [_ ?]. destruct (ht_ok_size _ _ (ok_ht1 _ d Hd)) as [_ ?].
  destruct (ok_events _ d Hd) as [-> _]. unfold dictBuckets. apply u_id. pow_const. lia.
Qed.

Lemma slot_lookup kvs ms didx o :
  dicts_rep kvs ms -> kvstoreGetDict kvs didx = Ok o -> exists m, 0 <= didx /\ dicts kvs !! Z.to_nat didx = Some o /\
    ms !! Z.to_nat didx = Some m /\ slot_rep o m.
Proof.
  intros Hr Hg. apply get1_Ok in Hg as [H0 Hg]. destruct (Forall2_lookup_l _ _ _ _ _ (dr_slots _ _ Hr) Hg) as (m & Hm & Hs).
  by exists m.
Qed.

Lemma getDict_ok kvs ms didx : dicts_rep kvs ms -> 0 <= didx < num_dicts kvs -> exists o, kvstoreGetDict kvs didx = Ok o.
Proof.
  intros Hr Hi. apply get1_in. pose proof (list.Forall2_length _ _ _ (dr_slots _ _ Hr)). pose proof (dr_len _ _ Hr). lia.
Qed.

(** Processing the log of one dict. *)
Lemma process_log kvs ms didx s m log st :
  dicts_rep kvs ms -> 0 <= didx -> dicts kvs !! Z.to_nat didx = Some (Some s) -> slot_rep (Some s) m ->
  events (s_dict s) `prefix_of` log -> rehash_log log = Some st ->
  let '(kvs', node) := dict_callbacks kvs didx s log in
  callback_frame kvs kvs' /\
  cb_state kvs' didx node st (zsum (slot_buckets <$> dicts kvs) - slot_buckets (Some s) + bucket_sum log)
    (zsum (slot_from <$> dicts kvs) - slot_from (Some s)) (fun n i => i <> didx /\ node_at (dicts kvs) n i).
Proof.
  intros Hr H0 Hi (Hd & _ & Hnode) [evs ->] Hst. unfold dict_callbacks. rewrite drop_app_length.
  pose proof Hd as [Hok _]. destruct (ok_events _ _ Hok) as [_ Hlog]. unfold rehash_log in Hst, Hlog. rewrite foldl_app, Hlog in Hst.
  pose proof (callback_run evs kvs didx (rehashing_node s) (rehash_state (s_dict s)) (zsum (slot_buckets <$> dicts kvs))
    (zsum (slot_from <$> dicts kvs) - slot_from (Some s)) (fun n i => i <> didx /\ node_at (dicts kvs) n i) st) as Hrun.
  destruct (foldl (dict_callback didx) _ evs) as [kvs' node]. destruct Hrun as [Hs Hfr]; [by intros n i []| |done|].
  - destruct Hr as [_ _ _ _ _ Hb Ho Hn Hnd Hf _]. split; try done.
    + rewrite Ho. f_equal. unfold slot_from. lia.
    + intros n i. rewrite Hn. split.
      * intros Hat. destruct (Z.eq_dec i didx) as [->|Hne]; [left|by right]. destruct Hat as (s' & _ & Hs' & Hx). split; [done|congruence].
      * intros [[-> Hx]|[_ ?]]; [by exists s|done].
  - split; [done|]. rewrite bucket_sum_app.
    assert (slot_buckets (Some s) = bucket_sum (events (s_dict s))) as -> by apply (dict_buckets _ Hok).
    by replace (zsum (slot_buckets <$> dicts kvs) - bucket_sum (events (s_dict s)) + (bucket_sum (events (s_dict s)) + bucket_sum evs))
      with (zsum (slot_buckets <$> dicts kvs) + bucket_sum evs) by lia.
Qed.

Definition slot_node (o : option slot) : option Z := o ≫= rehashing_node.

(** Putting the resulting dict, or none, into the array. *)
Lemma put_slot kvs kvs' ms didx o m' node st B o' alloc :
  dicts_rep kvs ms -> 0 <= didx -> dicts kvs !! Z.to_nat didx = Some o -> callback_frame kvs kvs' ->
  cb_state kvs' didx node st (zsum (slot_buckets <$> dicts kvs) - slot_buckets o + B)
    (zsum (slot_from <$> dicts kvs) - slot_from o) (fun n i => i <> didx /\ node_at (dicts kvs) n i) ->
  slot_rep o' m' -> slot_buckets o' = B -> slot_from o' = default 0 st -> slot_node o' = node ->
  alloc = allocated_dicts kvs - slot_alloc o + slot_alloc o' ->
  set1 didx o' (dicts kvs') = Ok (<[Z.to_nat didx := o']> (dicts kvs)) /\
  dicts_rep (set_dicts kvs' (<[Z.to_nat didx := o']> (dicts kvs)) alloc) (<[Z.to_nat didx := m']> ms).
Proof.
  intros Hr H0 Hi (x1 & x2 & x3 & x4 & ->) [_ Hb Ho Hn Hnd Hf] Hs' HB HO Hnode ->. pose proof (lookup_lt_Some _ _ _ Hi) as Hlt.
  split; [simpl; apply set1_insert; lia|]. destruct Hr as [Hbits Hnum Hlen Hsl Hal _ _ _ _ _ Hcur]. simpl in *.
  split; cbn -[zsum]; try done.
  - by rewrite length_insert.
  - by apply Forall2_insert.
  - rewrite (zsum_fmap_insert _ _ _ _ _ Hi), Hal. done.
  - rewrite (zsum_fmap_insert _ _ _ _ _ Hi), Hb, HB. done.
  - rewrite (zsum_fmap_insert _ _ _ _ _ Hi), Ho, HO. done.
  - intros n i. rewrite Hn. split.
    + intros [[-> Hx]|[Hne (s & ? & Hs & ?)]].
      * rewrite <- Hnode in Hx. destruct o' as [s'|]; [|done]. exists s'. by rewrite list_lookup_insert_eq.
      * exists s. rewrite list_lookup_insert_ne by lia. done.
    + intros (s & Hi0 & Hs & Hx). destruct (Z.eq_dec i didx) as [->|Hne].
      * left. split; [done|]. rewrite list_lookup_insert_eq in Hs by done. injection Hs as ->. by rewrite <- Hnode.
      * right. split; [done|]. exists s. rewrite list_lookup_insert_ne in Hs by lia. done.
Qed.

(** The parts of a kvstore that the operations on dicts leave alone. *)
Definition same_keys kvs kvs' : Prop :=
  (forall szs, counts_rep kvs szs -> counts_rep kvs' szs) /\ num_dicts kvs' = num_dicts kvs /\
  num_dicts_bits kvs' = num_dicts_bits kvs /\ flags kvs' = flags kvs.

Lemma same_keys_refl kvs : same_keys kvs kvs.
Proof. done. Qed.
Lemma same_keys_trans kvs1 kvs2 kvs3 : same_keys kvs1 kvs2 -> same_keys kvs2 kvs3 -> same_keys kvs1 kvs3.
Proof. intros (Hc1 & ? & ? & ?) (Hc2 & ? & ? & ?). split; [auto|]. split_and!; congruence. Qed.

Lemma frame_same_keys kvs kvs' ds alloc : callback_frame kvs kvs' -> same_keys kvs (set_dicts kvs' ds alloc).
Proof. intros (x1 & x2 & x3 & x4 & ->). split; [|done]. intros szs [? ? ? ? ?]. by split. Qed.

(** The result of a call on the dict at [didx] is stored and its callbacks are run. *)
Lemma store_dict_contract kvs ms didx s m d m' :
  dicts_rep kvs ms -> kvstoreGetDict kvs didx = Ok (Some s) -> ms !! Z.to_nat didx = Some m ->
  dict_rep d m' -> pauseAutoResize d = pauseAutoResize (s_dict s) -> logged (s_dict s) d ->
  exists kvs', store_dict kvs didx s d = Ok kvs' /\ dicts_rep kvs' (<[Z.to_nat didx := m']> ms) /\
    (exists node, dicts kvs' = <[Z.to_nat didx := Some (mkSlot d node)]> (dicts kvs)) /\
    same_keys kvs kvs'.
Proof.
  intros Hr Hg Hm Hd Hp Hlog. destruct (slot_lookup kvs ms didx _ Hr Hg) as (m0 & H0 & Hi & Hm0 & Hs).
  pose proof Hs as (Hd0 & Hz & Hnode). pose proof Hd as [Hok _].
  pose proof (process_log kvs ms didx s m0 (events d) (rehash_state d) Hr H0 Hi Hs Hlog (proj2 (ok_events _ d Hok))) as Hpl.
  unfold store_dict. destruct (dict_callbacks kvs didx s (events d)) as [kvs1 node]. destruct Hpl as [Hfr Hcb].
  pose proof (cb_node _ _ _ _ _ _ _ Hcb) as Hnn.
  destruct (put_slot kvs kvs1 ms didx (Some s) m' node (rehash_state d) (bucket_sum (events d)) (Some (mkSlot d node)) (allocated_dicts kvs1) Hr H0 Hi Hfr Hcb)
    as [Hset Hr']; [| |done|done| |].
  - split; [done|]. cbn [s_dict rehashing_node]. split; [congruence|done].
  - simpl. by apply dict_buckets.
  - destruct Hfr as (x1 & x2 & x3 & x4 & ->). simpl. lia.
  - rewrite Hset. eexists. split; [done|]. split; [done|]. destruct Hfr as (x1 & x2 & x3 & x4 & ->).
    split; [by exists node|]. apply frame_same_keys. by repeat eexists.
Qed.
Lemma slot_alloc_bit o : 0 <= slot_alloc o <= 1.
Proof. destruct o; simpl; lia. Qed.

Lemma alloc_range kvs ms : dicts_rep kvs ms -> 0 <= allocated_dicts kvs <= num_dicts kvs /\ num_dicts kvs <= 2 ^ 16.
Proof.
  intros Hr. split; [|rewrite (dr_num _ _ Hr); apply Z.pow_le_mono_r; [lia|apply Hr]]. rewrite (dr_alloc _ _ Hr).
  pose proof (zsum_indicator slot_alloc (dicts kvs) slot_alloc_bit). pose proof (list.Forall2_length _ _ _ (dr_slots _ _ Hr)).
  pose proof (dr_len _ _ Hr). lia.
Qed.

(** An index without a dict owes nothing to the counters. *)
Lemma vacant_state kvs ms didx :
  dicts_rep kvs ms -> dicts kvs !! Z.to_nat didx = Some None ->
  cb_state kvs didx None None (zsum (slot_buckets <$> dicts kvs) - slot_buckets None + 0)
    (zsum (slot_from <$> dicts kvs) - slot_from None) (fun n i => i <> didx /\ node_at (dicts kvs) n i).
Proof.
  intros [_ _ _ _ _ Hb Ho Hn Hnd Hf _] Hi. split; try done.
  - rewrite Hb. f_equal. simpl. lia.
  - rewrite Ho. f_equal. simpl. lia.
  - intros n i. rewrite Hn. split; [|by intros [[_ ?]|[_ ?]]]. intros Hat. right. split; [|done].
    intros ->. destruct Hat as (s & _ & Hs & _). congruence.
Qed.

Lemma create_dict_contract kvs ms didx :
  dicts_rep kvs ms -> 0 <= didx < num_dicts kvs ->
  exists kvs' s, createDictIfNeeded kvs didx = Ok kvs' /\ dicts_rep kvs' ms /\ kvstoreGetDict kvs' didx = Ok (Some s) /\ same_keys kvs kvs'.
Proof.
  intros Hr Hrange. destruct (getDict_ok kvs ms didx Hr Hrange) as [o Hg]. unfold createDictIfNeeded. rewrite Hg.
  destruct o as [s|]; [by exists kvs, s|]. destruct (slot_lookup kvs ms didx _ Hr Hg) as (m & H0 & Hi & Hm & ->).
  pose proof (alloc_range kvs ms Hr) as Hal. pose proof (lookup_lt_Some _ _ _ Hi) as Hlt.
  assert (callback_frame kvs kvs) as Hfr by (destruct kvs; by repeat eexists).
  destruct (put_slot kvs kvs ms didx None ∅ None None 0 (Some (mkSlot dictCreate None)) (s32 (allocated_dicts kvs + 1)) Hr H0 Hi Hfr)
    as [Hset Hr']; [| |done|done|done| |].
  - by apply (vacant_state kvs ms).
  - split; [apply create_contract|done].
  - simpl. rewrite s_id by (unfold in_s; pow_const; lia). lia.
  - rewrite Hset. eexists _, _. split; [done|]. rewrite (list_insert_id ms) in Hr' by done. split; [done|]. split; [|by apply frame_same_keys].
    apply get1_Ok. split; [done|]. cbn [dicts set_dicts]. by rewrite list_lookup_insert_eq.
Qed.

Lemma free_dict_contract kvs ms didx :
  dicts_rep kvs ms -> 0 <= didx < num_dicts kvs ->
  exists kvs', freeDictIfNeeded kvs didx = Ok kvs' /\ dicts_rep kvs' ms /\ same_keys kvs kvs'.
Proof.
  intros Hr Hrange. unfold freeDictIfNeeded. destruct (negb _); [by exists kvs|].
  destruct (getDict_ok kvs ms didx Hr Hrange) as [o Hg]. unfold kvstoreDictSize, kvstoreDictIsRehashingPaused. rewrite Hg.
  destruct o as [s|]; [|by exists kvs]. destruct (slot_lookup kvs ms didx _ Hr Hg) as (m & H0 & Hi & Hm & Hs).
  destruct (Z.eqb_spec (dictSize (s_dict s)) 0) as [Hz|]; cbn [negb orb]; [|by exists kvs].
  destruct (_ >? 0); [by exists kvs|]. pose proof Hs as ([Hd Hme] & _).
  destruct (release_log hashFunction _ Hd) as [Hb0 Hl0].
  pose proof (process_log kvs ms didx s m (dictRelease (s_dict s)) None Hr H0 Hi Hs (release_extends _) Hl0) as Hpl.
  destruct (dict_callbacks kvs didx s _) as [kvs1 node]. destruct Hpl as [Hfr Hcb].
  pose proof (cb_node _ _ _ _ _ _ _ Hcb) as Hnode. assert (node = None) as -> by (destruct node; [destruct (proj1 Hnode); done|done]).
  rewrite Hb0 in Hcb. assert (m = ∅) as ->.
  { apply map_size_empty_iff. pose proof (rep_dictSize hashFunction _ m (conj Hd Hme)). lia. }
  pose proof (alloc_range kvs ms Hr) as Hal.
  assert (1 <= allocated_dicts kvs) as Hal1.
  { rewrite (dr_alloc _ _ Hr). apply (zsum_elem (slot_alloc <$> dicts kvs) (Z.to_nat didx)).
    - apply Forall_fmap, list.Forall_true. intros [|]; simpl; lia.
    - by rewrite list_lookup_fmap, Hi. }
  destruct (put_slot kvs kvs1 ms didx (Some s) ∅ None None 0 None (s32 (allocated_dicts kvs1 - 1)) Hr H0 Hi Hfr Hcb)
    as [Hset Hr']; [done..| |].
  - pose proof Hfr as (x1 & x2 & x3 & x4 & ->). simpl. rewrite s_id by (unfold in_s; pow_const; lia). lia.
  - rewrite Hset. eexists. split; [done|]. rewrite (list_insert_id ms) in Hr' by done. split; [done|]. by apply frame_same_keys.
Qed.


(** One key more or less in the dict at [didx]. *)
Lemma key_count_contract kvs ms szs didx s m x delta :
  dicts_rep kvs ms -> counts_rep kvs szs -> kvstoreGetDict kvs didx = Ok (Some s) -> ms !! Z.to_nat didx = Some m ->
  szs !! Z.to_nat didx = Some x -> zlength szs = num_dicts kvs -> delta = 1 \/ delta = -1 -> Z.of_nat (base.size m) = x + delta -> zsum szs + delta < 2 ^ 58 ->
  exists kvs', cumulativeKeyCountAdd kvs didx delta = Ok kvs' /\ dicts_rep kvs' ms /\
    counts_rep kvs' (<[Z.to_nat didx := x + delta]> szs) /\ dicts kvs' = dicts kvs /\ num_dicts kvs' = num_dicts kvs /\
    num_dicts_bits kvs' = num_dicts_bits kvs /\ flags kvs' = flags kvs.
Proof.
  intros Hr Hc Hg Hm Hx Hlen Hdelta Hsz Hsm. destruct (slot_lookup kvs ms didx _ Hr Hg) as (m0 & H0 & Hi & Hm0 & Hs).
  assert (m0 = m) as -> by congruence. destruct Hs as (Hd & _). pose proof (alloc_range kvs ms Hr) as Hal.
  pose proof Hc as [Hpos Hkeys Hsmall Hne Htree]. unfold cumulativeKeyCountAdd, deref_dict. rewrite Hg, (rep_dictSize _ _ m Hd), Hsz.
  pose proof (zsum_elem szs _ x Hpos Hx) as Hxr.
  pose proof (zsum_indicator nonzero szs nonzero_bit) as Hnr.
  assert (zsum (nonzero <$> <[Z.to_nat didx := x + delta]> szs) = zsum (nonzero <$> szs) - nonzero x + nonzero (x + delta)) as Hni
    by by apply zsum_fmap_insert.
  set (ne := if (x + delta =? 1) && (delta >? 0) then 1 else if x + delta =? 0 then -1 else 0).
  assert (ne = nonzero (x + delta) - nonzero x) as Hnd.
  { unfold ne, nonzero. destruct Hdelta as [-> | ->]; zbool; simpl; lia. }
  pose proof (zsum_indicator nonzero (<[Z.to_nat didx := x + delta]> szs) nonzero_bit) as Hnr'. rewrite length_insert in Hnr'.
  assert (forall sizes, (if num_dicts kvs =? 1 then sizes = None else exists ft, sizes = Some ft /\ size ft = num_dicts kvs /\ fw_repr ft (<[Z.to_nat didx := x + delta]> szs)) ->
    let kvs' := set_counts kvs (s32 (non_empty_dicts kvs + ne)) (u64 (key_count kvs + delta)) sizes in
    dicts_rep kvs' ms /\ counts_rep kvs' (<[Z.to_nat didx := x + delta]> szs)) as Hdone.
  { intros sizes Hsizes. split; [destruct Hr; by split|]. split; cbn -[zsum]; try done.
    - apply Forall_insert; [done|lia].
    - rewrite (zsum_insert _ _ _ _ Hx), Hkeys, u_id by (pow_const; lia). lia.
    - rewrite (zsum_insert _ _ _ _ Hx). lia.
    - rewrite Hne, Hni, Hnd, s_id by (unfold in_s; pow_const; lia). lia. }
  destruct (Z.eqb_spec (num_dicts kvs) 1) as [E1|E1].
  - eexists. split; [done|]. destruct (Hdone (dict_sizes kvs) Htree) as [? ?]. split_and!; done.
  - destruct Htree as (ft & -> & Hfs & Hft). destruct (update_contract ft szs didx delta x Hft H0 Hx) as (ft' & -> & Hfs' & Hft').
    + unfold LLONG_MIN, LLONG_MAX. lia.
    + lia.
    + rewrite psum_zsum by lia. pow_const. lia.
    + eexists. split; [done|]. destruct (Hdone (Some ft')) as [? ?]; [exists ft'; split_and!; [done|congruence|done]|]. split_and!; done.
Qed.
End Inv.
