(* ===== verification/KvstoreOps.v ===== *)
(** The keyspace, the contracts: what each operation of src/redis-stable/src/kvstore.c does
    to the array of maps that the kvstore represents. *)

From stdpp Require Import gmap.
From S2P Require Import Prelude Machine Fwtree Dict DictInv DictOps DictIter DictLog DictScan Kvstore KvstoreInv.

Section Ops.
Context {K V : Type} `{Countable K}.
Context (hashFunction : K -> Z) (keyCompare : K -> K -> bool).
Context (resizeAllowed : option (Z -> Z * Z -> bool)) (dict_can_resize : dictResizeEnable).
(** keyCompare is an equality test. *)
Hypothesis Hcmp : forall a b, keyCompare a b = true <-> a = b.
Notation kvstore := (kvstore K V).
Notation slot := (slot K V).
Notation dict_rep := (dict_rep hashFunction).
Notation kvs_rep := (kvs_rep hashFunction).
Notation same_keys := (@same_keys K V).
Implicit Types (kvs : kvstore) (d : dict K V) (s : slot) (m : gmap K V) (ms : list (gmap K V)).

Lemma rep_range kvs ms didx m : kvs_rep kvs ms -> 0 <= didx -> ms !! Z.to_nat didx = Some m -> 0 <= didx < num_dicts kvs.
Proof. intros [Hr _] H0 Hm. apply lookup_lt_Some in Hm. pose proof (dr_len _ _ _ Hr). lia. Qed.

Lemma rep_keys kvs kvs' ms : kvs_rep kvs ms -> dicts_rep hashFunction kvs' ms -> same_keys kvs kvs' -> kvs_rep kvs' ms.
Proof. intros [_ Hc] Hr (Hk & _). split; auto. Qed.

(** The dict at an index, with the map it stands for. *)
Lemma rep_slot kvs ms didx m :
  kvs_rep kvs ms -> 0 <= didx -> ms !! Z.to_nat didx = Some m ->
  exists o, kvstoreGetDict kvs didx = Ok o /\ slot_rep hashFunction o m.
Proof.
  intros Hk H0 Hm. pose proof Hk as [Hr _]. destruct (getDict_ok _ kvs ms didx Hr) as [o Hg]; [by eapply rep_range|].
  exists o. split; [done|]. destruct (slot_lookup _ kvs ms didx o Hr Hg) as (m0 & _ & _ & Hm0 & Hs). congruence.
Qed.

Lemma ensure_dict kvs ms didx m :
  kvs_rep kvs ms -> 0 <= didx -> ms !! Z.to_nat didx = Some m ->
  exists kvs' s, createDictIfNeeded kvs didx = Ok kvs' /\ kvs_rep kvs' ms /\ same_keys kvs kvs' /\
    kvstoreGetDict kvs' didx = Ok (Some s) /\ slot_rep hashFunction (Some s) m.
Proof.
  intros Hk H0 Hm. pose proof Hk as [Hr _].
  destruct (create_dict_contract _ kvs ms didx Hr) as (kvs' & s & Hc & Hr' & Hg & Hsame); [by eapply rep_range|].
  pose proof (rep_keys _ _ _ Hk Hr' Hsame) as Hk'. exists kvs', s. split_and!; try done.
  destruct (rep_slot kvs' ms didx m Hk' H0 Hm) as (o & Ho & Hs). congruence.
Qed.

(** A call on a dict that keeps its map. *)
Lemma store_keep kvs ms didx s m d :
  kvs_rep kvs ms -> kvstoreGetDict kvs didx = Ok (Some s) -> ms !! Z.to_nat didx = Some m ->
  dict_rep d m -> pauseAutoResize d = pauseAutoResize (s_dict s) -> logged (s_dict s) d ->
  exists kvs' node, store_dict kvs didx s d = Ok kvs' /\ kvs_rep kvs' ms /\ same_keys kvs kvs' /\
    kvstoreGetDict kvs' didx = Ok (Some (mkSlot d node)).
Proof.
  intros Hk Hg Hm Hd Hp Hl. pose proof Hk as [Hr Hc].
  destruct (store_dict_contract _ kvs ms didx s m d m Hr Hg Hm Hd Hp Hl) as (kvs' & Hs & Hr' & [node Hds] & Hsame).
  rewrite list_insert_id in Hr' by done. exists kvs', node. split_and!; [done|by eapply rep_keys|done..|].
  unfold kvstoreGetDict in *. apply get1_Ok in Hg as [H0 Hg]. apply get1_Ok. split; [done|]. rewrite Hds.
  apply list_lookup_insert_eq. by eapply lookup_lt_Some.
Qed.

Lemma find_kv_contract kvs ms didx m k :
  kvs_rep kvs ms -> 0 <= didx -> ms !! Z.to_nat didx = Some m ->
  exists kvs', kvstoreDictFind hashFunction keyCompare dict_can_resize kvs didx k = Ok (pair k <$> m !! k, kvs') /\
    kvs_rep kvs' ms /\ same_keys kvs kvs'.
Proof.
  intros Hk H0 Hm. unfold kvstoreDictFind. destruct (rep_slot kvs ms didx m Hk H0 Hm) as (o & Hg & Hs). rewrite Hg.
  destruct o as [s|]; [|rewrite Hs; by exists kvs]. destruct Hs as (Hd & _).
  destruct (find_contract hashFunction keyCompare Hcmp dict_can_resize (s_dict s) m k Hd) as (d' & Hf & Hd' & Hp). rewrite Hf.
  destruct (store_keep kvs ms didx s m d' Hk Hg Hm Hd' (proj2 Hp) (dictFind_log _ _ _ _ _ _ _ Hf)) as (kvs' & node & -> & Hk' & Hsame & _).
  by exists kvs'.
Qed.

(** A dict that gained or lost a key, and the counters. *)
Lemma store_change kvs ms didx s m d m' delta :
  kvs_rep kvs ms -> kvstoreGetDict kvs didx = Ok (Some s) -> ms !! Z.to_nat didx = Some m ->
  dict_rep d m' -> pauseAutoResize d = pauseAutoResize (s_dict s) -> logged (s_dict s) d ->
  delta = 1 \/ delta = -1 -> Z.of_nat (base.size m') = Z.of_nat (base.size m) + delta -> key_count kvs + delta < 2 ^ 58 ->
  exists kvs1 kvs2 node, store_dict kvs didx s d = Ok kvs1 /\ cumulativeKeyCountAdd kvs1 didx delta = Ok kvs2 /\
    kvs_rep kvs2 (<[Z.to_nat didx := m']> ms) /\ kvstoreGetDict kvs2 didx = Ok (Some (mkSlot d node)) /\
    num_dicts kvs2 = num_dicts kvs /\ num_dicts_bits kvs2 = num_dicts_bits kvs /\ flags kvs2 = flags kvs.
Proof.
  intros Hk Hg Hm Hd Hp Hl Hdelta Hsz Hsm. pose proof Hk as [Hr Hc]. pose proof (lookup_lt_Some _ _ _ Hm) as Hlt.
  destruct (store_dict_contract _ kvs ms didx s m d m' Hr Hg Hm Hd Hp Hl) as (kvs1 & Hs & Hr1 & [node Hds] & (Hc1 & Hn1 & Hb1 & Hf1)).
  pose proof Hg as Hg'. apply get1_Ok in Hg' as [H0 Hi].
  assert (kvstoreGetDict kvs1 didx = Ok (Some (mkSlot d node))) as Hg1.
  { apply get1_Ok. split; [done|]. rewrite Hds. apply list_lookup_insert_eq. by eapply lookup_lt_Some. }
  destruct (key_count_contract _ kvs1 _ (map_sizes ms) didx _ m' (Z.of_nat (base.size m)) delta Hr1 (Hc1 _ Hc) Hg1)
    as (kvs2 & Ha & Hr2 & Hc2 & Hds2 & Hn2 & Hb2 & Hf2); try done.
  - by rewrite list_lookup_insert_eq.
  - unfold map_sizes. by rewrite list_lookup_fmap, Hm.
  - unfold map_sizes. rewrite length_fmap, Hn1. apply Hr.
  - rewrite <- (cr_keys _ _ Hc). done.
  - exists kvs1, kvs2, node. split_and!; try done; [|unfold kvstoreGetDict; by rewrite Hds2|congruence..].
    split; [done|]. unfold map_sizes in *. rewrite list_fmap_insert, Hsz. done.
Qed.
Definition kv_link kvs (didx : Z) (l : link) (k : K) (v : V) : Prop :=
  exists s, kvstoreGetDict kvs didx = Ok (Some s) /\ link_at (s_dict s) l k v.

Lemma new_size m k (v : V) : m !! k = None -> Z.of_nat (base.size (<[k := v]> m)) = Z.of_nat (base.size m) + 1.
Proof. intros Hn. rewrite map_size_insert_None by done. lia. Qed.

Lemma dict_keys_bound kvs ms didx m : kvs_rep kvs ms -> ms !! Z.to_nat didx = Some m -> 0 <= Z.of_nat (base.size m) <= key_count kvs.
Proof.
  intros [_ Hc] Hm. rewrite (cr_keys _ _ Hc). apply (zsum_elem (map_sizes ms) (Z.to_nat didx)); [apply Hc|].
  unfold map_sizes. by rewrite list_lookup_fmap, Hm.
Qed.

Lemma add_kv_contract kvs ms didx m junk k :
  kvs_rep kvs ms -> 0 <= didx -> ms !! Z.to_nat didx = Some m -> key_count kvs + 1 < 2 ^ 58 ->
  exists ret kvs', kvstoreDictAddRaw hashFunction keyCompare resizeAllowed dict_can_resize kvs didx junk k = Ok (ret, kvs') /\
    match ret with
    | inl l => kvs_rep kvs' ms /\ exists v, m !! k = Some v /\ kv_link kvs' didx l k v
    | inr l => kvs_rep kvs' (<[Z.to_nat didx := <[k := junk]> m]> ms) /\ m !! k = None /\ kv_link kvs' didx l k junk
    end.
Proof.
  intros Hk H0 Hm Hsm. unfold kvstoreDictAddRaw, deref_dict.
  destruct (ensure_dict kvs ms didx m Hk H0 Hm) as (kvs1 & s & -> & Hk1 & (Hc1 & _) & Hg & Hs). rewrite Hg. destruct Hs as (Hd & Hp2 & _).
  assert (key_count kvs1 = key_count kvs) as Hkc.
  { destruct Hk as [_ Hc]. rewrite (cr_keys _ _ Hc). symmetry. by rewrite (cr_keys _ _ (Hc1 _ Hc)). }
  pose proof (dict_keys_bound kvs ms didx m Hk Hm) as Hb.
  destruct (addRaw_contract hashFunction keyCompare Hcmp resizeAllowed false dict_can_resize (s_dict s) m junk k Hd) as (ret & d & Ha & Hp & Hret); [by right; lia|lia|].
  rewrite Ha. pose proof (dictAddRaw_log _ _ _ _ _ _ _ _ _ _ Ha) as Hl. destruct ret as [l|l].
  - destruct Hret as (Hd' & v & Hlk & Hv). destruct (store_keep kvs1 ms didx s m d Hk1 Hg Hm Hd' (proj2 Hp) Hl) as (kvs2 & node & -> & Hk2 & _ & Hg2).
    exists (inl l), kvs2. split; [done|]. split; [done|]. exists v. split; [done|]. by eexists.
  - destruct Hret as (Hd' & Hn & Hlk).
    destruct (store_change kvs1 ms didx s m d _ 1 Hk1 Hg Hm Hd' (proj2 Hp) Hl) as (kvs2 & kvs3 & node & -> & -> & Hk3 & Hg3 & _);
      [by left|by apply new_size|lia|].
    exists (inr l), kvs3. split; [done|]. split; [done|]. split; [done|]. by eexists.
Qed.

Lemma set_val_contract kvs ms didx m l k v val :
  kvs_rep kvs ms -> 0 <= didx -> ms !! Z.to_nat didx = Some m -> kv_link kvs didx l k v ->
  exists kvs', kvstoreDictSetVal kvs didx l val = Ok kvs' /\ kvs_rep kvs' (<[Z.to_nat didx := <[k := val]> m]> ms) /\
    key_count kvs' = key_count kvs.
Proof.
  intros Hk H0 Hm (s & Hg & Hl). unfold kvstoreDictSetVal, deref_dict. rewrite Hg. pose proof Hk as [Hr Hc].
  destruct (rep_slot kvs ms didx m Hk H0 Hm) as (o & Ho & Hs). assert (o = Some s) as -> by congruence. destruct Hs as (Hd & _).
  destruct (setVal_contract hashFunction (s_dict s) m l k v val Hd Hl) as (d' & Hv & Hd' & Hp). rewrite Hv.
  destruct (store_dict_contract _ kvs ms didx s m d' _ Hr Hg Hm Hd' (proj2 Hp) (dictSetVal_log _ _ _ _ Hv)) as (kvs' & -> & Hr' & _ & (Hc' & _)).
  exists kvs'. split; [done|]. pose proof (Hc' _ Hc) as Hcc. split; [|by rewrite (cr_keys _ _ Hcc), (cr_keys _ _ Hc)]. split; [done|].
  unfold map_sizes. rewrite list_fmap_insert, list_insert_id; [done|]. rewrite list_lookup_fmap, Hm. simpl. do 2 f_equal.
  assert (m !! k = Some v) as Hmk; [|rewrite map_size_insert_Some by (by eexists); done].
  apply (rep_lookup hashFunction (s_dict s)); [done|]. by eapply link_entries.
Qed.

Lemma free_kv_contract kvs ms didx :
  kvs_rep kvs ms -> 0 <= didx < num_dicts kvs -> exists kvs', freeDictIfNeeded kvs didx = Ok kvs' /\ kvs_rep kvs' ms /\ same_keys kvs kvs'.
Proof.
  intros Hk Hi. pose proof Hk as [Hr _]. destruct (free_dict_contract _ kvs ms didx Hr Hi) as (kvs' & -> & Hr' & Hs).
  exists kvs'. split_and!; [done|by eapply rep_keys|done..].
Qed.

Lemma delete_size m k : m !! k <> None -> Z.of_nat (base.size (delete k m)) = Z.of_nat (base.size m) + -1.
Proof.
  intros Hne. assert (is_Some (m !! k)) as Hs by by apply not_eq_None_Some.
  rewrite map_size_delete_Some by done. assert (base.size m <> 0)%nat; [|lia]. rewrite map_size_non_empty_iff.
  intros ->. by rewrite lookup_empty in Hs; destruct Hs.
Qed.

Lemma delete_kv_contract kvs ms didx m k :
  kvs_rep kvs ms -> 0 <= didx -> ms !! Z.to_nat didx = Some m ->
  exists kvs', kvstoreDictDelete hashFunction keyCompare resizeAllowed dict_can_resize kvs didx k =
      Ok (match m !! k with Some _ => DICT_OK | None => DICT_ERR end, kvs') /\
    kvs_rep kvs' (<[Z.to_nat didx := delete k m]> ms).
Proof.
  intros Hk H0 Hm. unfold kvstoreDictDelete, dictDelete. destruct (rep_slot kvs ms didx m Hk H0 Hm) as (o & Hg & Hs). rewrite Hg.
  pose proof (rep_range kvs ms didx m Hk H0 Hm) as Hrange. pose proof (lookup_lt_Some _ _ _ Hm) as Hlt.
  destruct o as [s|]; [|rewrite Hs in Hm |- *; rewrite delete_empty, lookup_empty, list_insert_id by done; by exists kvs].
  destruct Hs as (Hd & _).
  destruct (genericDelete_contract hashFunction keyCompare Hcmp resizeAllowed false dict_can_resize (s_dict s) m k Hd) as (d' & Ha & Hd' & Hp).
  rewrite Ha. pose proof (genericDelete_log _ _ _ _ _ _ _ _ _ Ha) as Hl. destruct (m !! k) as [v|] eqn:E; cbn [fmap option_fmap option_map].
  - pose proof (dict_keys_bound kvs ms didx m Hk Hm). pose proof (cr_small _ _ (proj2 Hk)). pose proof (cr_keys _ _ (proj2 Hk)).
    destruct (store_change kvs ms didx s m d' _ (-1) Hk Hg Hm Hd' (proj2 Hp) Hl) as (kvs2 & kvs3 & node & -> & -> & Hk3 & Hg3 & Hn3 & _);
      [by right|apply delete_size; congruence|lia|].
    destruct (free_kv_contract kvs3 _ didx Hk3) as (kvs4 & -> & Hk4 & _); [lia|]. by exists kvs4.
  - rewrite delete_id in Hd' |- * by done. rewrite list_insert_id by done.
    destruct (store_keep kvs ms didx s m d' Hk Hg Hm Hd' (proj2 Hp) Hl) as (kvs2 & node & -> & Hk2 & _). by exists kvs2.
Qed.
(** ** Insertion in two steps *)

Lemma set_at_link_contract kvs ms didx m junk k :
  kvs_rep kvs ms -> 0 <= didx -> ms !! Z.to_nat didx = Some m -> key_count kvs + 1 < 2 ^ 58 ->
  exists l b kvs1, kvstoreDictFindLink hashFunction keyCompare dict_can_resize kvs didx k = Ok (l, b, kvs1) /\ kvs_rep kvs1 ms /\
    match l with
    | Some l => exists v, m !! k = Some v /\ kv_link kvs1 didx l k v
    | None => m !! k = None /\
        exists kvs2, kvstoreDictSetAtLink hashFunction keyCompare resizeAllowed dict_can_resize kvs1 didx junk k b = Ok kvs2 /\
          kvs_rep kvs2 (<[Z.to_nat didx := <[k := junk]> m]> ms)
    end.
Proof.
  intros Hk H0 Hm Hsm. unfold kvstoreDictFindLink, kvstoreDictSetAtLink, deref_dict.
  destruct (rep_slot kvs ms didx m Hk H0 Hm) as (o & Hg & Hs). rewrite Hg. pose proof (dict_keys_bound kvs ms didx m Hk Hm) as Hb.
  destruct o as [s|].
  - destruct Hs as (Hd & Hp2 & _). destruct (m !! k) as [v|] eqn:E.
    + destruct (findLink_spec hashFunction keyCompare Hcmp dict_can_resize (s_dict s) m k true Hd) as (r & b & d1 & Hf & Hd1 & Hp & Hr).
      rewrite Hf. destruct (store_keep kvs ms didx s m d1 Hk Hg Hm Hd1 (proj2 Hp) (findLink_log _ _ _ _ _ _ _ _ _ Hf)) as (kvs1 & node & -> & Hk1 & _ & Hg1).
      destruct r as [l|]; [|congruence]. destruct Hr as (v' & Hl & Hv'). exists (Some l), b, kvs1. split; [done|]. split; [done|].
      exists v. split; [done|]. assert (v' = v) as -> by congruence. by eexists.
    + destruct (setKey_contract hashFunction keyCompare resizeAllowed dict_can_resize Hcmp (s_dict s) m junk k Hd E) as (b & d1 & d2 & Hf & Hset & Hd2 & Hp2'); [lia|].
      destruct (findLink_spec hashFunction keyCompare Hcmp dict_can_resize (s_dict s) m k true Hd) as (r & b' & d1' & Hf' & Hd1 & Hp & Hr).
      rewrite Hf in Hf'. injection Hf' as <- <- <-. rewrite Hf.
      destruct (store_keep kvs ms didx s m d1 Hk Hg Hm Hd1 (proj2 Hp) (findLink_log _ _ _ _ _ _ _ _ _ Hf)) as (kvs1 & node & -> & Hk1 & (Hc1 & _) & Hg1).
      exists None, b, kvs1. split; [done|]. split; [done|]. split; [done|].
      destruct (ensure_dict kvs1 ms didx m Hk1 H0 Hm) as (kvs1' & s1 & Hcr & Hk1' & _ & Hg1' & Hs1).
      unfold createDictIfNeeded in Hcr |- *. rewrite Hg1 in Hcr |- *. injection Hcr as <-. rewrite Hg1. cbn [s_dict]. rewrite Hset.
      assert (key_count kvs1 = key_count kvs) as Hkc by (rewrite (cr_keys _ _ (Hc1 _ (proj2 Hk))), (cr_keys _ _ (proj2 Hk)); done).
      destruct (store_change kvs1 ms didx (mkSlot d1 node) m d2 _ 1 Hk1 Hg1 Hm Hd2) as (kvs2 & kvs3 & node' & -> & -> & Hk3 & _);
        [|by eapply setKeyAtLink_log|by left|by apply new_size|lia|by exists kvs3].
      destruct Hp, Hp2'. cbn [s_dict]. congruence.
  - rewrite Hs in Hm |- *. exists None, None, kvs. split; [done|]. split; [done|]. split; [done|].
    destruct (ensure_dict kvs ms didx ∅ Hk H0 Hm) as (kvs1 & s1 & Hcr & Hk1 & (Hc1 & _) & Hg1 & (Hd1 & Hp2 & _)). rewrite Hcr, Hg1.
    assert (key_count kvs1 = key_count kvs) as Hkc by (rewrite (cr_keys _ _ (Hc1 _ (proj2 Hk))), (cr_keys _ _ (proj2 Hk)); done).
    destruct (setKey_contract hashFunction keyCompare resizeAllowed dict_can_resize Hcmp (s_dict s1) ∅ junk k Hd1) as (b & d1 & d2 & Hf & Hset & Hd2 & Hpp);
      [done|rewrite map_size_empty; lia|].
    unfold dictFindLink in Hf. rewrite (rep_dictSize _ _ _ Hd1), map_size_empty in Hf. injection Hf as <- <-. rewrite Hset.
    destruct (store_change kvs1 ms didx s1 ∅ d2 _ 1 Hk1 Hg1 Hm Hd2 (proj2 Hpp)) as (kvs2 & kvs3 & node' & -> & -> & Hk3 & _);
      [by eapply setKeyAtLink_log|by left|by apply new_size|lia|by exists kvs3].
Qed.

(** ** Resizing *)

(** A call that only moves the entries of a dict. *)
Lemma store_resized kvs ms didx s m d :
  kvs_rep kvs ms -> kvstoreGetDict kvs didx = Ok (Some s) -> ms !! Z.to_nat didx = Some m -> slot_rep hashFunction (Some s) m ->
  moved hashFunction (s_dict s) d -> logged (s_dict s) d ->
  exists kvs', store_dict kvs didx s d = Ok kvs' /\ kvs_rep kvs' ms /\ same_keys kvs kvs'.
Proof.
  intros Hk Hg Hm (Hd & _) Hmv Hl.
  destruct (store_keep kvs ms didx s m d Hk Hg Hm) as (kvs' & node & ? & ? & ? & _); [by eapply rep_moved|apply Hmv|done|].
  by exists kvs'.
Qed.

Lemma expand_kv_contract kvs ms didx m size :
  kvs_rep kvs ms -> 0 <= didx -> ms !! Z.to_nat didx = Some m -> 0 <= size ->
  exists st kvs', kvstoreDictExpand hashFunction dict_can_resize kvs didx size = Ok (st, kvs') /\ kvs_rep kvs' ms.
Proof.
  intros Hk H0 Hm Hsz. unfold kvstoreDictExpand, deref_dict.
  destruct (ensure_dict kvs ms didx m Hk H0 Hm) as (kvs1 & s & -> & Hk1 & _ & Hg & Hs). rewrite Hg.
  destruct (expand_spec hashFunction dict_can_resize false (s_dict s) size (proj1 (proj1 Hs)) Hsz) as (st & d & He & [Hmv _ _ _] & _). rewrite He.
  destruct (store_resized kvs1 ms didx s m d Hk1 Hg Hm Hs Hmv (dictExpand_log _ _ _ _ _ _ _ He)) as (kvs' & -> & Hk' & _). by exists st, kvs'.
Qed.

(** A loop whose body keeps the maps. *)
Lemma for_dicts_inv {A} (P : A -> Z -> Prop) (body : A -> Z -> res A) n : forall i a,
  P a i -> (forall a j, i <= j < i + Z.of_nat n -> P a j -> exists a', body a j = Ok a' /\ P a' (j + 1)) ->
  exists a', for_dicts n i body a = Ok a' /\ P a' (i + Z.of_nat n).
Proof.
  induction n as [|n IH]; intros i a Ha Hstep; cbn [for_dicts]; [exists a; by rewrite Z.add_0_r|].
  destruct (Hstep a i ltac:(lia) Ha) as (a1 & -> & Ha1). destruct (IH (i + 1) a1 Ha1) as (a2 & -> & Ha2).
  - intros b j Hj. apply Hstep. lia.
  - exists a2. split; [done|]. by replace (i + Z.of_nat (S n)) with (i + 1 + Z.of_nat n) by lia.
Qed.

Lemma all_maps ms i : 0 <= i < zlength ms -> exists m, ms !! Z.to_nat i = Some m.
Proof. intros Hi. apply lookup_lt_is_Some_2. lia. Qed.

Lemma kvstoreExpand_contract kvs ms newsize try_expand skip_cb alloc_ok :
  kvs_rep kvs ms -> 0 <= newsize ->
  exists r kvs', kvstoreExpand hashFunction dict_can_resize kvs newsize try_expand skip_cb alloc_ok = Ok (r, kvs') /\ kvs_rep kvs' ms /\
    (try_expand = false -> r = 1).
Proof.
  intros Hk Hsz. unfold kvstoreExpand. pose proof Hk as [Hr _].
  destruct (for_dicts_inv (fun st (_ : Z) => kvs_rep st.2 ms /\ (try_expand = false -> st.1 = false))
    (expand_dict hashFunction dict_can_resize newsize try_expand skip_cb alloc_ok) (Z.to_nat (num_dicts kvs)) 0 (false, kvs)) as ([failed kvs'] & -> & Hk' & Hf).
  - done.
  - intros [failed kvs1] j Hj [Hk1 Hf]. unfold expand_dict. destruct failed; [by eexists|].
    destruct (all_maps ms j) as [m Hm]; [pose proof (dr_len _ _ _ Hr); lia|].
    destruct (rep_slot kvs1 ms j m Hk1 ltac:(lia) Hm) as (o & Hg & Hs). rewrite Hg. destruct o as [s|]; [|by eexists].
    destruct (skipped skip_cb j); [by eexists|]. pose proof (proj1 (proj1 Hs)) as Hd. destruct try_expand.
    + destruct (tryExpand_spec hashFunction dict_can_resize false (s_dict s) newsize (alloc_ok j) Hd Hsz) as (st & d & He & [Hmv _ _ _]). rewrite He.
      destruct (store_resized kvs1 ms j s m d Hk1 Hg Hm Hs Hmv (dictTryExpand_log _ _ _ _ _ _ _ _ He)) as (kvs2 & -> & Hk2 & _). by eexists.
    + destruct (expand_spec hashFunction dict_can_resize false (s_dict s) newsize Hd Hsz) as (st & d & He & [Hmv _ _ _] & _). rewrite He.
      destruct (store_resized kvs1 ms j s m d Hk1 Hg Hm Hs Hmv (dictExpand_log _ _ _ _ _ _ _ He)) as (kvs2 & -> & Hk2 & _). by eexists.
  - do 2 eexists. split; [done|]. split; [done|]. intros ->. simpl in Hf. by rewrite (Hf eq_refl).
Qed.

Lemma set_cursor_rep kvs ms c : kvs_rep kvs ms -> 0 <= c < num_dicts kvs -> kvs_rep (set_resize_cursor kvs c) ms.
Proof. intros [[] []] Hc. split; by split. Qed.

Lemma tryResize_contract kvs ms limit :
  kvs_rep kvs ms -> exists kvs', kvstoreTryResizeDicts hashFunction resizeAllowed dict_can_resize kvs limit = Ok kvs' /\ kvs_rep kvs' ms.
Proof.
  intros Hk. unfold kvstoreTryResizeDicts.
  destruct (for_dicts_inv (fun kvs (_ : Z) => kvs_rep kvs ms) (resize_dict hashFunction resizeAllowed dict_can_resize)
    (Z.to_nat (if limit >? num_dicts kvs then num_dicts kvs else limit)) 0 kvs Hk) as (kvs' & -> & Hk'); [|by exists kvs'].
  clear Hk. intros kvs1 j _ Hk1. unfold resize_dict. pose proof Hk1 as [Hr1 _]. pose proof (dr_cursor _ _ _ Hr1) as Hcur.
  destruct (all_maps ms (resize_cursor kvs1)) as [m Hm]; [pose proof (dr_len _ _ _ Hr1); lia|].
  destruct (rep_slot kvs1 ms (resize_cursor kvs1) m Hk1 ltac:(lia) Hm) as (o & Hg & Hs). rewrite Hg.
  assert (forall kvs2, kvs_rep kvs2 ms -> num_dicts kvs2 = num_dicts kvs1 ->
    kvs_rep (set_resize_cursor kvs2 (s32 ((resize_cursor kvs1 + 1) mod num_dicts kvs2))) ms) as Hdone.
  { intros kvs2 Hk2 Hn2. apply set_cursor_rep; [done|]. pose proof (alloc_range _ _ _ Hr1) as [_ Hnn]. rewrite Hn2.
    pose proof (Z.mod_pos_bound (resize_cursor kvs1 + 1) (num_dicts kvs1) ltac:(lia)). rewrite s_id by (unfold in_s; pow_const; lia). lia. }
  destruct o as [s|]; [|eexists; split; [done|by apply Hdone]]. pose proof (proj1 (proj1 Hs)) as Hd.
  destruct (shrinkIfNeeded_spec hashFunction dict_can_resize false resizeAllowed (s_dict s) Hd) as (st & d1 & He & [Hmv _ _ _]). rewrite He.
  apply shrinkIfNeeded_log in He. destruct st.
  - destruct (store_resized kvs1 ms _ s m d1 Hk1 Hg Hm Hs Hmv He) as (kvs2 & -> & Hk2 & (_ & Hn2 & _)). eexists. split; [done|]. by apply Hdone.
  - destruct (expandIfNeeded_spec hashFunction dict_can_resize false resizeAllowed d1 (mv_ok _ _ _ Hmv)) as (st & d2 & He2 & [Hmv2 _ _ _] & _).
    rewrite He2. apply expandIfNeeded_log in He2.
    destruct (store_resized kvs1 ms _ s m d2 Hk1 Hg Hm Hs) as (kvs2 & -> & Hk2 & (_ & Hn2 & _)); [by eapply moved_trans|by etrans|].
    eexists. split; [done|]. by apply Hdone.
Qed.
(** ** Deletion in two steps *)

Lemma two_phase_kv_contract kvs ms didx m k :
  kvs_rep kvs ms -> 0 <= didx -> ms !! Z.to_nat didx = Some m ->
  (forall s, kvstoreGetDict kvs didx = Ok (Some s) -> 0 <= pauserehash (s_dict s) < UINT32_MAX) ->
  exists l kvs1, kvstoreDictTwoPhaseUnlinkFind hashFunction keyCompare dict_can_resize kvs didx k = Ok (l, kvs1) /\ kvs_rep kvs1 ms /\
    (l = None <-> m !! k = None) /\
    (l <> None -> exists kvs2, kvstoreDictTwoPhaseUnlinkFree hashFunction resizeAllowed dict_can_resize kvs1 didx l = Ok kvs2 /\
       kvs_rep kvs2 (<[Z.to_nat didx := delete k m]> ms)).
Proof.
  intros Hk H0 Hm Hpause. unfold kvstoreDictTwoPhaseUnlinkFind, kvstoreDictTwoPhaseUnlinkFree, deref_dict.
  destruct (rep_slot kvs ms didx m Hk H0 Hm) as (o & Hg & Hs). rewrite Hg.
  destruct o as [s|]; [|rewrite Hs; by exists None, kvs]. destruct Hs as (Hd & Hz & _). pose proof (Hpause s Hg) as Hpr.
  destruct (twoPhase_contract hashFunction keyCompare Hcmp resizeAllowed false dict_can_resize (s_dict s) m k Hd) as (l & d1 & d2 & Hf & Hl & Hd1 & Hp1 & Hfr & Hd2 & Hp2);
    [unfold in_u, UINT32_MAX in *; pow_const; lia|lia|].
  rewrite Hf.
  assert (pauseAutoResize d1 = pauseAutoResize (s_dict s)) as Hpa.
  { by eapply twoPhaseFind_pause. }
  destruct (store_keep kvs ms didx s m d1 Hk Hg Hm Hd1 Hpa (twoPhaseFind_log _ _ _ _ _ _ _ Hf)) as (kvs1 & node & -> & Hk1 & (Hc1 & _) & Hg1).
  exists l, kvs1. split; [done|]. split; [done|]. split; [done|]. intros Hne. rewrite Hg1. cbn [s_dict]. rewrite Hfr.
  pose proof (dict_keys_bound kvs1 ms didx m Hk1 Hm). pose proof (cr_small _ _ (proj2 Hk1)). pose proof (cr_keys _ _ (proj2 Hk1)).
  destruct (store_change kvs1 ms didx (mkSlot d1 node) m d2 _ (-1) Hk1 Hg1 Hm Hd2) as (kvs2 & kvs3 & node' & -> & -> & Hk3 & _ & Hn3 & _);
    [cbn [s_dict]; destruct Hp2; congruence|by eapply twoPhaseFree_log|by right|apply delete_size; intros E; by apply Hne, Hl|lia|].
  pose proof (rep_range kvs1 ms didx m Hk1 H0 Hm).
  destruct (free_kv_contract kvs3 _ didx Hk3) as (kvs4 & -> & Hk4 & _); [lia|]. by exists kvs4.
Qed.

(** ** Creation *)

Lemma fresh_counts n : map_sizes (replicate n (∅ : gmap K V)) = replicate n 0.
Proof. unfold map_sizes. by rewrite fmap_replicate, map_size_empty. Qed.

Lemma zsum_zeros n : zsum (replicate n 0) = 0.
Proof. induction n; simpl in *; lia. Qed.

Lemma zero_counts kvs n :
  num_dicts kvs = 2 ^ num_dicts_bits kvs -> 0 <= num_dicts_bits kvs <= 16 -> Z.of_nat n = num_dicts kvs ->
  key_count kvs = 0 -> non_empty_dicts kvs = 0 ->
  dict_sizes kvs = (if num_dicts kvs =? 1 then None else Some (fwTreeCreate (num_dicts_bits kvs))) ->
  counts_rep kvs (replicate n 0).
Proof.
  intros Hnum Hbits Hn Hkc Hne Hds. split.
  - by apply Forall_replicate.
  - by rewrite zsum_zeros.
  - by rewrite zsum_zeros.
  - rewrite fmap_replicate. change (nonzero 0) with 0. by rewrite zsum_zeros.
  - destruct (num_dicts kvs =? 1) eqn:E; [done|]. eexists. split; [done|].
    assert (1 <= 2 ^ num_dicts_bits kvs <= 2 ^ 16) by (split; [apply (Z.pow_le_mono_r 2 0); lia|apply Z.pow_le_mono_r; lia]). split.
    + unfold fwTreeCreate. simpl. rewrite Z.shiftl_1_l, s32_id by (pow_const; lia). done.
    + replace n with (Z.to_nat (2 ^ num_dicts_bits kvs)) by lia. apply create_repr. lia.
Qed.

Lemma create_frame kvs didx kvs' : createDictIfNeeded kvs didx = Ok kvs' -> exists ds alloc, kvs' = set_dicts kvs ds alloc.
Proof.
  unfold createDictIfNeeded. destruct (kvstoreGetDict kvs didx) as [[s|]|]; [|destruct (set1 _ _ _)|]; intros; res_inv; simplify_eq.
  - destruct kvs'. by do 2 eexists.
  - by do 2 eexists.
Qed.

Lemma kvstoreCreate_contract bits fl :
  0 <= bits <= 16 ->
  exists kvs, kvstoreCreate bits fl = Ok kvs /\ kvs_rep kvs (replicate (Z.to_nat (2 ^ bits)) ∅) /\
    num_dicts kvs = 2 ^ bits /\ num_dicts_bits kvs = bits /\ flags kvs = fl.
Proof.
  intros Hb. assert (1 <= 2 ^ bits <= 2 ^ 16) as Hp by (split; [apply (Z.pow_le_mono_r 2 0); lia|apply Z.pow_le_mono_r; lia]).
  unfold kvstoreCreate. rewrite Z.shiftl_1_l, s32_id by (pow_const; lia). zif. set (n := Z.to_nat (2 ^ bits)).
  set (kvs0 := mkKvs fl (replicate n None) (2 ^ bits) bits [] 0 0 0 0 0 0 None 0 : kvstore).
  assert (dicts_rep hashFunction kvs0 (replicate n ∅)) as Hr0.
  { split; cbn -[zsum Z.pow]; try done; try (rewrite fmap_replicate; by rewrite zsum_zeros).
    - rewrite length_replicate. lia.
    - by apply Forall2_replicate.
    - intros n' i. split; [intros Hin; by apply elem_of_nil in Hin|]. intros (s & _ & Hs & _).
      apply lookup_replicate in Hs as [? _]. done.
    - constructor.
    - lia. }
  set (P := fun kvs (_ : Z) => dicts_rep hashFunction kvs (replicate n ∅) /\ exists ds alloc, kvs = set_dicts kvs0 ds alloc).
  assert (exists kvs1, (if negb (has_flag kvs0 KVSTORE_ALLOCATE_DICTS_ON_DEMAND) then for_dicts n 0 createDictIfNeeded kvs0 else Ok kvs0) = Ok kvs1 /\ P kvs1 0) as (kvs1 & -> & Hr1 & ds & alloc & ->).
  { assert (P kvs0 0) as HP0 by (split; [done|by do 2 eexists]). destruct (negb _); [|by exists kvs0].
    destruct (for_dicts_inv P createDictIfNeeded n 0 kvs0 HP0) as (kvs1 & -> & HP1); [|by exists kvs1].
    intros kvs j Hj (Hr & ds & alloc & ->).
    destruct (create_dict_contract _ _ _ j Hr) as (kvs' & s & Hc & Hr' & _); [simpl; lia|]. exists kvs'. split; [done|].
    split; [done|]. apply create_frame in Hc as (ds' & alloc' & ->). by do 2 eexists. }
  eexists. split; [done|]. split; [|done]. split.
  - destruct Hr1. by split.
  - rewrite fresh_counts. apply zero_counts; try done; [simpl; lia|]. simpl. destruct (Z.gtb_spec (2 ^ bits) 1); destruct (Z.eqb_spec (2 ^ bits) 1); (done || lia).
Qed.
(** ** Emptying *)

(** A dict without tables, keys and list node. *)
Definition cleared (o : option slot) : Prop :=
  match o with
  | None => True
  | Some s => dict_rep (s_dict s) ∅ /\ dictBuckets (s_dict s) = 0 /\ rehash_state (s_dict s) = None /\
              rehashing_node s = None /\ pauseAutoResize (s_dict s) = 0
  end.

(** The loop of kvstoreEmpty has cleared the dicts below [i]; the list of nodes and the
    counters are out of date. *)
Record emptying (kvs0 kvs : kvstore) (i : Z) : Prop := {
  em_num : num_dicts kvs = num_dicts kvs0;
  em_bits : num_dicts_bits kvs = num_dicts_bits kvs0;
  em_sizes : dict_sizes kvs = dict_sizes kvs0;
  em_flags : flags kvs = flags kvs0;
  em_len : length (dicts kvs) = length (dicts kvs0);
  em_done : forall j o, Z.of_nat j < i -> dicts kvs !! j = Some o -> cleared o;
  em_rest : forall j s, dicts kvs !! j = Some (Some s) -> dict_ok hashFunction (s_dict s);
  em_alloc : allocated_dicts kvs = zsum (slot_alloc <$> dicts kvs)
}.

Lemma callbacks_frame didx evs : forall kvs node, callback_frame kvs (foldl (dict_callback didx) (kvs, node) evs).1.
Proof.
  induction evs as [|e evs IH]; intros kvs node; cbn [foldl]; [destruct kvs; by repeat eexists|].
  assert (callback_frame kvs (dict_callback didx (kvs, node) e).1) as (x1 & x2 & x3 & x4 & E) by (destruct e; by repeat eexists).
  destruct (dict_callback didx (kvs, node) e) as [kvs1 node1]. simpl in E. subst kvs1.
  destruct (IH (set_rehashing kvs x1 x2 x3 x4) node1) as (y1 & y2 & y3 & y4 & ->). by repeat eexists.
Qed.

Lemma empty_callbacks kvs didx d :
  exists x1 x2 x3 x4, dict_callbacks kvs didx (mkSlot d None) (dictRelease d) = (set_rehashing kvs x1 x2 x3 x4, None).
Proof.
  unfold dict_callbacks, dictRelease. cbn [s_dict rehashing_node].
  destruct (dictIsRehashing d); cbn [events notify]; rewrite <- ?(assoc_L (++)), drop_app_length; cbn; by repeat eexists.
Qed.

Lemma emptying_put kvs0 kvs i o o' :
  emptying kvs0 kvs i -> 0 <= i -> dicts kvs !! Z.to_nat i = Some o -> cleared o' -> forall x1 x2 x3 x4,
  emptying kvs0 (set_dicts (set_rehashing kvs x1 x2 x3 x4) (<[Z.to_nat i := o']> (dicts kvs)) (allocated_dicts kvs - slot_alloc o + slot_alloc o')) (i + 1).
Proof.
  intros [H1 H2 H3 Hf H4 H5 H6 H7] H0 Ho Hc x1 x2 x3 x4. split; cbn -[zsum]; try done.
  - by rewrite length_insert.
  - intros j o1 Hj Hl. apply list_lookup_insert_Some in Hl as [(<- & <- & _)|[Hne Hl]]; [done|]. apply (H5 j); [lia|done].
  - intros j s Hl. apply list_lookup_insert_Some in Hl as [(<- & -> & _)|[Hne Hl]]; [|by eapply H6]. apply Hc.
  - rewrite (zsum_fmap_insert _ _ _ _ _ Ho), H7. done.
Qed.

Lemma emptying_alloc kvs0 kvs i s j :
  emptying kvs0 kvs i -> length (dicts kvs0) = Z.to_nat (num_dicts kvs0) -> num_dicts kvs0 <= 2 ^ 16 ->
  dicts kvs !! j = Some (Some s) -> 1 <= allocated_dicts kvs <= 2 ^ 16.
Proof.
  intros He Hl Hn Hj. rewrite (em_alloc _ _ _ He). pose proof (zsum_indicator slot_alloc (dicts kvs) slot_alloc_bit) as Hb.
  rewrite (em_len _ _ _ He) in Hb. split; [|lia]. apply (zsum_elem (slot_alloc <$> dicts kvs) j).
  - apply Forall_fmap, list.Forall_true. intros x. apply slot_alloc_bit.
  - by rewrite list_lookup_fmap, Hj.
Qed.

Lemma empty_dict_step kvs0 kvs i :
  emptying kvs0 kvs i -> length (dicts kvs0) = Z.to_nat (num_dicts kvs0) -> 0 <= i < num_dicts kvs0 -> num_dicts kvs0 <= 2 ^ 16 ->
  exists kvs', empty_dict kvs i = Ok kvs' /\ emptying kvs0 kvs' (i + 1).
Proof.
  intros He Hl Hi Hn. unfold empty_dict. destruct (get1_in (dicts kvs) i) as [o Ho]; [rewrite (em_len _ _ _ He); lia|].
  unfold kvstoreGetDict at 1. rewrite Ho. apply get1_Ok in Ho as [_ Ho]. pose proof (lookup_lt_Some _ _ _ Ho) as Hlt.
  destruct o as [s|].
  2: { exists kvs. split; [done|]. pose proof (emptying_put kvs0 kvs i None None He ltac:(lia) Ho I (rehashing kvs) (next_node kvs) (bucket_count kvs) (overhead_hashtable_rehashing kvs)) as Hp.
       rewrite list_insert_id in Hp by done. destruct Hp as [? ? ? ? ? ? ? Hal]. split; try done. cbn -[zsum] in Hal. lia. }
  pose proof (em_rest _ _ _ He _ _ Ho) as Hd. cbn [s_dict]. unfold store_dict.
  change (events (dictEmpty (s_dict s))) with (dictRelease (s_dict s)).
  destruct (empty_callbacks kvs i (s_dict s)) as (x1 & x2 & x3 & x4 & ->). cbn [dicts set_rehashing]. rewrite set1_insert by lia.
  destruct (empty_contract hashFunction (s_dict s) Hd) as [Hde _].
  set (o1 := Some (mkSlot (dictEmpty (s_dict s)) None)). set (kvs1 := set_dicts _ _ _).
  assert (emptying kvs0 kvs1 (i + 1)) as He1.
  { unfold kvs1. cbn [allocated_dicts set_rehashing]. replace (allocated_dicts kvs) with (allocated_dicts kvs - slot_alloc (Some s) + slot_alloc o1) by (simpl; lia).
    apply emptying_put; [done|lia|done|]. split_and!; done. }
  assert (dicts kvs1 !! Z.to_nat i = Some o1) as Ho1 by (simpl; by apply list_lookup_insert_eq).
  unfold freeDictIfNeeded, kvstoreDictSize, kvstoreDictIsRehashingPaused, kvstoreGetDict. destruct (negb _); [by exists kvs1|].
  assert (get1 i (dicts kvs1) = Ok o1) as -> by (apply get1_Ok; split; [lia|done]). unfold o1 at 1 2 3. cbn [s_dict].
  destruct (_ || _); [by exists kvs1|].
  pose proof (callbacks_frame i (drop (length (events (dictEmpty (s_dict s)))) (dictRelease (dictEmpty (s_dict s)))) kvs1 None) as Hfr.
  unfold dict_callbacks. cbn [s_dict rehashing_node]. destruct (foldl _ _ _) as [kvs2 node2]. destruct Hfr as (y1 & y2 & y3 & y4 & E). simpl in E. subst kvs2.
  pose proof (lookup_lt_Some _ _ _ Ho1) as Hlt1. cbn [dicts set_rehashing allocated_dicts]. rewrite set1_insert by lia. eexists. split; [done|].
  pose proof (emptying_alloc kvs0 kvs1 _ _ _ He1 Hl Hn Ho1) as Hal.
  rewrite s_id by (unfold in_s; pow_const; lia).
  assert (emptying kvs0 kvs1 i) as He1' by (destruct He1 as [? ? ? ? ? Hdn ? ?]; split; try done; intros j o Hj; apply Hdn; lia).
  pose proof (emptying_put kvs0 kvs1 i o1 None He1' ltac:(lia) Ho1 I y1 y2 y3 y4) as Hfin.
  replace (allocated_dicts kvs1 - slot_alloc o1 + slot_alloc None) with (allocated_dicts kvs1 - 1) in Hfin by (simpl; lia). done.
Qed.

Lemma zsum_all_zero {A} (f : A -> Z) l : (forall j x, l !! j = Some x -> f x = 0) -> zsum (f <$> l) = 0.
Proof.
  induction l as [|x l IH]; intros Hf; [done|]. cbn [fmap list_fmap zsum foldr]. rewrite (Hf 0%nat x eq_refl).
  change (foldr Z.add 0 (f <$> l)) with (zsum (f <$> l)). rewrite IH; [done|]. intros j y Hj. by apply (Hf (S j)).
Qed.

Lemma kvstoreEmpty_contract kvs ms :
  kvs_rep kvs ms -> exists kvs', kvstoreEmpty kvs = Ok kvs' /\ kvs_rep kvs' (replicate (length ms) ∅) /\
    num_dicts kvs' = num_dicts kvs /\ flags kvs' = flags kvs.
Proof.
  intros [Hr Hc]. pose proof (list.Forall2_length _ _ _ (dr_slots _ _ _ Hr)) as Hlen. pose proof (dr_len _ _ _ Hr) as Hnum.
  pose proof (alloc_range _ _ _ Hr) as [_ Hn16]. unfold kvstoreEmpty.
  destruct (for_dicts_inv (emptying kvs) empty_dict (Z.to_nat (num_dicts kvs)) 0 kvs) as (kvs1 & -> & He).
  - split; try done; [intros j o Hj; lia| |apply Hr]. intros j s Hj.
    destruct (Forall2_lookup_l _ _ _ _ _ (dr_slots _ _ _ Hr) Hj) as (m & _ & (Hd & _)). apply Hd.
  - intros kvs1 j Hj He. apply (empty_dict_step kvs); [done|lia..].
  - eexists. split; [done|]. pose proof He as [Hn Hb Hsz Hfl Hl Hdone Hrest Hal]. split; [|done].
    assert (forall j o, dicts kvs1 !! j = Some o -> cleared o) as Hall.
    { intros j o Hj. apply (Hdone j o); [|done]. apply lookup_lt_Some in Hj. lia. }
    split.
    + split; cbn -[zsum].
      * rewrite Hb. apply Hr.
      * rewrite Hn, Hb. apply Hr.
      * rewrite length_replicate, Hn. done.
      * apply Forall2_same_length_lookup. split; [rewrite length_replicate; lia|]. intros j o m Hj Hm.
        apply lookup_replicate in Hm as [-> _]. specialize (Hall j o Hj). destruct o as [s|]; [|done].
        destruct Hall as (? & _ & Hst & Hnd & ?). split_and!; try done; intros Hx; congruence.
      * done.
      * rewrite zsum_all_zero; [done|]. intros j [s|] Hj; [|done]. apply (Hall j _ Hj).
      * rewrite zsum_all_zero; [done|]. intros j [s|] Hj; [|done]. simpl. destruct (Hall j _ Hj) as (_ & _ & -> & _). done.
      * intros n i. split; [intros Hin; by apply elem_of_nil in Hin|]. intros (s & _ & Hs & Hx).
        destruct (Hall _ _ Hs) as (_ & _ & _ & Hy & _). congruence.
      * constructor.
      * constructor.
      * rewrite Hn. pose proof (dr_cursor _ _ _ Hr). lia.
    + rewrite fresh_counts. apply zero_counts; cbn -[Z.eqb]; try done; rewrite ?Hn, ?Hb; [apply Hr..|done|].
      rewrite Hsz. pose proof (cr_tree _ _ Hc) as Ht. destruct (num_dicts kvs =? 1); [by rewrite Ht|].
      destruct Ht as (ft & -> & Hfs & Hft). simpl. rewrite (clear_create ft _ Hft). f_equal. f_equal.
      pose proof (fr_size _ _ Hft) as E. rewrite Hfs, (dr_num _ _ _ Hr) in E. symmetry.
      apply (Z.pow_inj_r 2); [lia|pose proof (dr_bits _ _ _ Hr); lia|apply (fr_bits _ _ Hft)|done].
Qed.
End Ops.
