(* ===== verification/KvstoreSpec.v ===== *)
(** The contract of src/redis-stable/src/kvstore.c: a kvstore is an array of finite maps
    with exact statistics; the index queries agree with it, and a scan over all dicts that
    runs to completion returns every key that was there all along. *)

From stdpp Require Import gmap.
From S2P Require Import Prelude Machine Fwtree Dict DictInv DictOps DictIter DictLog DictScan Kvstore KvstoreInv KvstoreOps.

Section Spec.
Context {K V : Type} `{Countable K}.
Context (hashFunction : K -> Z).
Notation kvstore := (kvstore K V).
Notation slot := (slot K V).
Notation kvs_rep := (kvs_rep hashFunction).
Implicit Types (kvs : kvstore) (d : dict K V) (s : slot) (m : gmap K V) (ms : list (gmap K V)).

(** * Cursors *)

Lemma num_pow kvs ms : kvs_rep kvs ms -> num_dicts kvs = 2 ^ num_dicts_bits kvs /\ 0 <= num_dicts_bits kvs <= 16 /\
  1 <= num_dicts kvs <= 2 ^ 16 /\ (num_dicts kvs = 1 <-> num_dicts_bits kvs = 0).
Proof.
  intros [Hr _]. pose proof (dr_num _ _ _ Hr) as Hn. pose proof (dr_bits _ _ _ Hr) as Hb. split; [done|]. split; [done|].
  split; [rewrite Hn; split; [apply (Z.pow_le_mono_r 2 0); lia|apply Z.pow_le_mono_r; lia]|]. rewrite Hn. split; [|by intros ->].
  intros E. destruct (Z.eq_dec (num_dicts_bits kvs) 0); [done|]. pose proof (Z.pow_le_mono_r 2 1 (num_dicts_bits kvs) ltac:(lia) ltac:(lia)). lia.
Qed.

Lemma cursor_decode kvs ms c :
  kvs_rep kvs ms -> 0 <= c < 2 ^ 64 ->
  getAndClearDictIndexFromCursor kvs c = (c mod num_dicts kvs, c / num_dicts kvs).
Proof.
  intros Hk Hc. destruct (num_pow kvs ms Hk) as (Hn & Hb & Hr & H1). unfold getAndClearDictIndexFromCursor.
  destruct (Z.eqb_spec (num_dicts kvs) 1) as [E|E]; [rewrite E, Z.mod_1_r, Z.div_1_r; done|].
  rewrite Hn at 1. replace (2 ^ num_dicts_bits kvs - 1) with (Z.ones (num_dicts_bits kvs)) by (rewrite Z.ones_equiv; lia).
  rewrite Z.land_ones, <- Hn, Z.shiftr_div_pow2, <- Hn by lia. pose proof (Z.mod_pos_bound c (num_dicts kvs) ltac:(lia)).
  by rewrite s_id by (unfold in_s; pow_const; lia).
Qed.

Lemma cursor_encode kvs ms didx v :
  kvs_rep kvs ms -> 0 <= didx < num_dicts kvs -> 0 <= v -> v * num_dicts kvs + didx < 2 ^ 64 ->
  addDictIndexToCursor kvs didx v = v * num_dicts kvs + didx.
Proof.
  intros Hk Hd Hv Hs. destruct (num_pow kvs ms Hk) as (Hn & Hb & Hr & H1). unfold addDictIndexToCursor.
  destruct (Z.eqb_spec (num_dicts kvs) 1) as [E|E]; [rewrite E in *; lia|]. zif.
  rewrite Z.shiftl_mul_pow2, <- Hn, u_id by lia. rewrite Z.lor_comm, Hn in *. rewrite <- Z.shiftl_mul_pow2 by lia.
  rewrite lor_shl_add, Z.shiftl_mul_pow2 by lia. lia.
Qed.

(** A cursor that a scan of a table of [2 ^ e] buckets returns is below its size. *)
Lemma cursor_small v e : 0 <= v < 2 ^ 64 -> 0 <= e <= 64 -> rev v mod 2 ^ (64 - e) = 0 -> v < 2 ^ e.
Proof.
  intros Hv He Hm. apply bits_bound; [lia|lia|]. intros i Hi. destruct (Z.lt_ge_cases i 64); [|by apply (bits_high v 64)].
  rewrite <- (rev_involutive v), rev_bits by lia. rewrite <- (Z.mod_pow2_bits_low (rev v) (64 - e)) by lia. rewrite Hm. apply Z.bits_0.
Qed.
(** * Dict indices *)

Lemma sizes_lookup ms i x : map_sizes ms !! i = Some x <-> exists m, ms !! i = Some m /\ x = Z.of_nat (base.size m).
Proof.
  unfold map_sizes. rewrite list_lookup_fmap. destruct (ms !! i) as [m|]; simpl; [|split; [done|by intros (m & ? & _)]].
  split; [intros [= <-]; by exists m|]. by intros (m' & [= <-] & ->).
Qed.

Lemma size_pos m : 0 < Z.of_nat (base.size m) <-> m <> ∅.
Proof. rewrite <- map_size_non_empty_iff. lia. Qed.

Lemma next_index kvs ms didx :
  kvs_rep kvs ms -> 0 <= didx < num_dicts kvs ->
  exists r, kvstoreGetNextNonEmptyDictIndex kvs didx = Ok r /\
    ((r = -1 /\ forall j m, didx < j -> ms !! Z.to_nat j = Some m -> m = ∅) \/
     (didx < r < num_dicts kvs /\ (exists m, ms !! Z.to_nat r = Some m /\ m <> ∅) /\
      forall j m, didx < j < r -> ms !! Z.to_nat j = Some m -> m = ∅)).
Proof.
  intros Hk Hi. pose proof Hk as [Hr Hc]. destruct (num_pow kvs ms Hk) as (_ & _ & Hnr & _). pose proof (dr_len _ _ _ Hr) as Hlen.
  unfold kvstoreGetNextNonEmptyDictIndex. pose proof (cr_tree _ _ Hc) as Ht. destruct (Z.eqb_spec (num_dicts kvs) 1) as [E|E].
  { exists (-1). zif. split; [done|left]. split; [done|]. intros j m Hj Hm. apply lookup_lt_Some in Hm. lia. }
  destruct Ht as (ft & -> & Hsz & Hft).
  assert (forall j m, 0 <= j -> ms !! Z.to_nat j = Some m -> (forall y, map_sizes ms !! Z.to_nat j = Some y -> y = 0) -> m = ∅) as Hz.
  { intros j m Hj Hm Hy. apply map_size_empty_inv. assert (Z.of_nat (base.size m) = 0); [|lia]. apply Hy, sizes_lookup. by exists m. }
  destruct (findNext_contract ft (map_sizes ms) didx Hft) as (r & -> & Hres); [|lia|].
  { rewrite (fr_total _ _ Hft), psum_zsum by (unfold map_sizes; rewrite length_fmap; lia). pose proof (cr_small _ _ Hc). unfold ULLONG_MAX. pow_const. lia. }
  exists r. split; [done|]. destruct Hres as [[-> Hall]|(Hlt & (y & Hy & Hpos) & Hall)]; [left|right].
  - split; [done|]. intros j m Hj Hm. apply (Hz j m); [lia|done|]. intros y Hy. by apply (Hall j).
  - apply sizes_lookup in Hy as (m & Hm & ->). pose proof (lookup_lt_Some _ _ _ Hm). split; [lia|]. split.
    + exists m. split; [done|]. by apply size_pos.
    + intros j m' Hj Hm'. apply (Hz j m'); [lia|done|]. intros y Hy. by apply (Hall j).
Qed.

(** * One call of a scan *)

(** Cursors of the tables leave room for the dict index. *)
Definition cursor_fits kvs : Prop :=
  forall i s, dicts kvs !! i = Some (Some s) ->
    size_exp (ht0 (s_dict s)) <= 64 - num_dicts_bits kvs /\ size_exp (ht1 (s_dict s)) <= 64 - num_dicts_bits kvs.

(** The scan of the dict at [didx] from the cursor [v], and where it leaves off: at [v']
    in the same dict, or, with [v'] = 0, at the end of it. *)
Definition scans_dict (o : option slot) m (skip : bool) (v v' : Z) (es : list (K * V)) : Prop :=
  (skip = true \/ m = ∅) /\ v' = 0 /\ es = [] \/
  (skip = false /\ m <> ∅ /\ exists s e, o = Some s /\ scan_step hashFunction (s_dict s) v v' es e).

Definition skips (skip_cb : option (dict K V -> Z -> bool)) (o : option slot) (didx : Z) : bool :=
  match o, skip_cb with Some s, Some f => f (s_dict s) didx | _, _ => false end.

(** Where the scan goes on after the dict at [didx]: the cursor of the next non-empty one. *)
Definition goes_on ms (n didx c' : Z) : Prop :=
  (c' = 0 /\ forall j m, didx < j -> ms !! Z.to_nat j = Some m -> m = ∅) \/
  (didx < c' < n /\ forall j m, didx < j < c' -> ms !! Z.to_nat j = Some m -> m = ∅).

Lemma move_on kvs ms didx (es : list (K * V)) :
  kvs_rep kvs ms -> 0 <= didx < num_dicts kvs ->
  exists c', (let! j := kvstoreGetNextNonEmptyDictIndex kvs didx in
              if j =? -1 then Ok (0, es, kvs) else Ok (addDictIndexToCursor kvs j 0, es, kvs)) = Ok (c', es, kvs) /\
    0 <= c' < 2 ^ 64 /\ goes_on ms (num_dicts kvs) didx c'.
Proof.
  intros Hk Hi. destruct (num_pow kvs ms Hk) as (_ & _ & Hnr & _).
  destruct (next_index kvs ms didx Hk Hi) as (r & -> & [[-> Hall]|(Hr & _ & Hall)]).
  - exists 0. split; [done|]. split; [lia|by left].
  - rewrite (proj2 (Z.eqb_neq r (-1))) by lia. rewrite (cursor_encode kvs ms r 0) by (done || pow_const; lia).
    exists r. split; [done|]. split; [pow_const; lia|]. right. split; [lia|done].
Qed.

(** The cursor of a dict and the dict index fit into 64 bits. *)
Lemma dict_cursor_room kvs ms s i v v' es e :
  kvs_rep kvs ms -> cursor_fits kvs -> dicts kvs !! i = Some (Some s) -> scan_step hashFunction (s_dict s) v v' es e ->
  0 <= v' < 2 ^ (64 - num_dicts_bits kvs).
Proof.
  intros Hk Hfit Hg Hstep. destruct (num_pow kvs ms Hk) as (_ & Hb & _ & _).
  pose proof (sc_exp _ _ _ _ _ _ Hstep). pose proof (sc_range _ _ _ _ _ _ Hstep). split; [lia|].
  assert (e <= 64 - num_dicts_bits kvs) as He.
  { destruct (Hfit _ s Hg). destruct (Z.eq_dec (rehashidx (s_dict s)) (-1)) as [E|E].
    - by rewrite (sc_idle _ _ _ _ _ _ Hstep E).
    - rewrite (sc_reh _ _ _ _ _ _ Hstep E). lia. }
  apply (Z.lt_le_trans _ (2 ^ e)); [|apply Z.pow_le_mono_r; lia]. apply cursor_small; [done|lia|].
  rewrite (sc_next _ _ _ _ _ _ Hstep). assert (2 ^ 64 = 2 ^ (64 - e) * 2 ^ e) as -> by (rewrite <- Z.pow_add_r by lia; f_equal; lia).
  assert (0 < 2 ^ (64 - e)) by (apply Z.pow_pos_nonneg; lia). assert (0 < 2 ^ e) by (apply Z.pow_pos_nonneg; lia).
  rewrite Z.rem_mul_r, Z.mod_mul, Z.add_0_l by lia. rewrite Z.mul_comm. apply Z.mod_mul. lia.
Qed.

Lemma scan_call kvs ms c skip_cb :
  kvs_rep kvs ms -> cursor_fits kvs -> 0 <= c < 2 ^ 64 ->
  let didx := c mod num_dicts kvs in let v := c / num_dicts kvs in
  exists o m v' es c' kvs', kvstoreGetDict kvs didx = Ok o /\ ms !! Z.to_nat didx = Some m /\
    kvstoreScan kvs c (-1) skip_cb = Ok (c', es, kvs') /\ kvs_rep kvs' ms /\ 0 <= c' < 2 ^ 64 /\
    num_dicts kvs' = num_dicts kvs /\ scans_dict o m (skips skip_cb o didx) v v' es /\
    if v' =? 0 then goes_on ms (num_dicts kvs) didx c'
    else c' = v' * num_dicts kvs + didx.
Proof.
  intros Hk Hfit Hc didx v. destruct (num_pow kvs ms Hk) as (Hn & Hb & Hnr & _). pose proof (dr_len _ _ _ (proj1 Hk)) as Hlen.
  assert (0 <= didx < num_dicts kvs) as Hi by (apply Z.mod_pos_bound; lia).
  assert (0 <= v < 2 ^ 64) as Hv by (split; [apply Z.div_pos; lia|apply Z.div_lt_upper_bound; nia]).
  destruct (all_maps ms didx ltac:(lia)) as [m Hm]. destruct (rep_slot _ kvs ms didx m Hk ltac:(lia) Hm) as (o & Hg & Hs).
  unfold kvstoreScan. rewrite (cursor_decode kvs ms c Hk Hc). cbn [Z.geb Z.compare andb]. fold didx v. rewrite Hg.
  destruct o as [s|].
  2: { cbn [skips Z.eqb orb]. destruct (move_on kvs ms didx [] Hk Hi) as (c' & -> & Hc' & Hres).
       exists None, m, 0, [], c', kvs. do 6 (split; [done|]); split; [|done]. left. split_and!; [by right|done..]. }
  fold (skips skip_cb (Some s) didx). change (match skip_cb with Some f => f (s_dict s) didx | None => false end) with (skips skip_cb (Some s) didx).
  destruct (skips skip_cb (Some s) didx) eqn:Esk.
  { cbn [Z.eqb orb]. destruct (move_on kvs ms didx [] Hk Hi) as (c' & -> & Hc' & Hres).
    exists (Some s), m, 0, [], c', kvs. do 6 (split; [done|]); split; [|done]. left. split_and!; [by left|done..]. }
  destruct (free_kv_contract hashFunction kvs ms didx Hk Hi) as (kvs' & -> & Hk' & (_ & Hn' & Hb' & _)). destruct Hs as (Hd & _).
  destruct (decide (m = ∅)) as [->|Hne].
  { assert (dictScan (s_dict s) v = Ok (0, [])) as -> by (unfold dictScan; by rewrite (rep_dictSize _ _ _ Hd), map_size_empty).
    cbn [Z.eqb orb].
    destruct (move_on kvs' ms didx [] Hk' ltac:(lia)) as (c' & -> & Hc' & Hres). rewrite Hn' in Hres. exists (Some s), ∅, 0, [], c', kvs'. do 6 (split; [done|]); split; [|done]. left. split_and!; [by right|done..]. }
  destruct (scan_step_spec hashFunction (s_dict s) m v Hd) as (v' & es & e & -> & Hstep); [rewrite (rep_dictSize _ _ _ Hd); apply size_pos in Hne; lia|done|].
  rewrite orb_false_r. destruct (Z.eqb_spec v' 0) as [->|Hv'].
  - destruct (move_on kvs' ms didx es Hk' ltac:(lia)) as (c' & -> & Hc' & Hres). rewrite Hn' in Hres. exists (Some s), m, 0, es, c', kvs'. do 6 (split; [done|]); split; [|done].
    right. split; [done|]. split; [done|]. by exists s, e.
  - apply get1_Ok in Hg as Hg'. pose proof (dict_cursor_room kvs ms s _ _ _ _ _ Hk Hfit (proj2 Hg') Hstep) as Hvr.
    assert (0 <= v' * num_dicts kvs + didx < 2 ^ 64) as Hcr.
    { assert (2 ^ 64 = 2 ^ (64 - num_dicts_bits kvs) * num_dicts kvs) as -> by (rewrite Hn, <- Z.pow_add_r by lia; f_equal; lia). nia. }
    exists (Some s), m, v', es, (v' * num_dicts kvs + didx), kvs'. split; [done|]. split; [done|]. split.
    { rewrite (cursor_encode kvs' ms didx v'); rewrite ?Hn'; (done || lia). }
    split_and!; try done; [lia|lia| |by rewrite (proj2 (Z.eqb_neq _ _) Hv')]. right. split; [done|]. split; [done|]. by exists s, e.
Qed.
(** * A whole scan *)

(** Calls that hand the cursor on, each on the kvstore as it is at that time. *)
Fixpoint kv_scan_calls (kss : list kvstore) (skip_cb : option (dict K V -> Z -> bool)) (c : Z) : res (Z * list (K * V)) :=
  match kss with
  | [] => Ok (c, [])
  | kvs :: kss =>
      let! '(c, es, _) := kvstoreScan kvs c (-1) skip_cb in
      let! '(c, es') := kv_scan_calls kss skip_cb c in
      Ok (c, es ++ es')
  end.

(** The key [k] of dict [j] is still to come. *)
Definition ahead (n j : Z) (k : K) (c : Z) : Prop :=
  c mod n < j \/ (c mod n = j /\ rev (c / n) <= scan_pos hashFunction k).

Lemma cursor_split n didx v : 0 <= didx < n -> (v * n + didx) mod n = didx /\ (v * n + didx) / n = v.
Proof.
  intros Hi. rewrite Z.add_comm, Z.mod_add, Z.div_add, Z.mod_small, Z.div_small by lia. lia.
Qed.

Lemma scan_progress kvs ms c skip_cb j m k :
  kvs_rep kvs ms -> cursor_fits kvs -> 0 <= c < 2 ^ 64 -> ms !! Z.to_nat j = Some m -> is_Some (m !! k) -> 0 <= j ->
  (forall f d, skip_cb = Some f -> f d j = false) -> ahead (num_dicts kvs) j k c ->
  exists c' es kvs', kvstoreScan kvs c (-1) skip_cb = Ok (c', es, kvs') /\
    ((exists x, (k, x) ∈ es) \/ (c' <> 0 /\ 0 <= c' < 2 ^ 64 /\ ahead (num_dicts kvs) j k c')).
Proof.
  intros Hk Hfit Hc Hj [x Hx] Hj0 Hskip Hah. destruct (num_pow kvs ms Hk) as (_ & _ & Hnr & _).
  destruct (scan_call kvs ms c skip_cb Hk Hfit Hc) as (o & m0 & v' & es & c' & kvs' & Hg & Hm0 & -> & _ & Hc' & _ & Hsd & Hnext).
  unfold ahead in Hah. set (didx := c mod num_dicts kvs) in *. set (v := c / num_dicts kvs) in *.
  assert (0 <= didx < num_dicts kvs) as Hi by (apply Z.mod_pos_bound; lia). exists c', es, kvs'. split; [done|].
  pose proof (lookup_lt_Some _ _ _ Hj) as Hjl. pose proof (dr_len _ _ _ (proj1 Hk)) as Hlen.
  assert (m <> ∅) as Hne by (intros ->; by rewrite lookup_empty in Hx).
  assert (didx < j -> goes_on ms (num_dicts kvs) didx c' -> c' <> 0 /\ 0 <= c' < 2 ^ 64 /\ ahead (num_dicts kvs) j k c') as Hgo.
  { intros Hlt [[_ Hall]|[Hr Hall]]; [by destruct Hne; apply (Hall j m)|]. split; [lia|]. split; [done|].
    assert (c' <= j) as Hle by (destruct (Z.le_gt_cases c' j); [done|]; destruct Hne; apply (Hall j m); [lia|done]).
    unfold ahead. rewrite (Z.mod_small c'), (Z.div_small c') by lia. destruct (Z.eq_dec c' j) as [->|]; [right|left; lia].
    split; [done|]. change (rev 0) with 0. apply scan_pos_range. }
  destruct (Z.eqb_spec v' 0) as [->|Hv'].
  - destruct Hah as [Hlt|[Heq Hpos]]; [right; by apply Hgo|]. assert (m0 = m) as -> by (rewrite Heq in Hm0; congruence).
    destruct Hsd as [([Hsk|?] & _)|(_ & _ & s & e & -> & [He _ _ _ Hr' _ Hcov])]; [|done|].
    { unfold skips in Hsk. destruct o as [s|]; [|done]. destruct skip_cb as [f|]; [|done]. by rewrite Heq, (Hskip f) in Hsk. }
    left. exists x. destruct (slot_lookup hashFunction kvs ms didx _ (proj1 Hk) Hg) as (m1 & _ & _ & Hm1 & (Hd & _)). assert (m1 = m) as -> by congruence.
    apply Hcov; [by apply (rep_lookup hashFunction _ m)|]. split; [done|].
    change (rev 0) with 0 in Hr'. assert (0 <= v) by (apply Z.div_pos; lia). pose proof (rev_range v ltac:(lia)) as Hrv.
    pose proof (interval_end (rev v) e Hrv He) as Hhi. set (hi := (rev v / 2 ^ (64 - e) + 1) * 2 ^ (64 - e)) in *.
    pose proof (scan_pos_range hashFunction k). destruct (Z.eq_dec hi (2 ^ 64)) as [E|E]; [lia|]. rewrite Z.mod_small in Hr' by lia. lia.
  - destruct (cursor_split (num_dicts kvs) didx v' Hi) as [E1 E2]. rewrite Hnext.
    destruct Hsd as [(_ & ? & _)|(_ & _ & s & e & -> & [He _ _ Hvr Hr' _ Hcov])]; [done|].
    assert (0 <= v) by (apply Z.div_pos; lia). pose proof (rev_range v ltac:(lia)) as Hrv. pose proof (interval_end (rev v) e Hrv He) as Hhi.
    assert (v' * num_dicts kvs + didx <> 0) by nia. unfold ahead. rewrite E1, E2. destruct Hah as [Hlt|[Heq Hpos]]; [right; subst c'; auto|].
    assert (m0 = m) as -> by (rewrite Heq in Hm0; congruence).
    set (hi := (rev v / 2 ^ (64 - e) + 1) * 2 ^ (64 - e)) in *. destruct (Z.lt_ge_cases (scan_pos hashFunction k) hi) as [Hlt|Hge].
    + left. exists x. destruct (slot_lookup hashFunction kvs ms didx _ (proj1 Hk) Hg) as (m1 & _ & _ & Hm1 & (Hd & _)). assert (m1 = m) as -> by congruence.
      apply Hcov; [by apply (rep_lookup hashFunction _ m)|]. split; [done|lia].
    + right. split; [done|]. split; [subst c'; done|]. right. split; [done|]. pose proof (scan_pos_range hashFunction k).
      rewrite Hr', Z.mod_small by lia. done.
Qed.

Lemma kv_scan_cover n j k kss skip_cb : forall c es,
  kss <> [] -> 0 <= j -> (forall f d, skip_cb = Some f -> f d j = false) ->
  (forall kvs, kvs ∈ kss -> num_dicts kvs = n /\ cursor_fits kvs /\
     exists ms m, kvs_rep kvs ms /\ ms !! Z.to_nat j = Some m /\ is_Some (m !! k)) ->
  kv_scan_calls kss skip_cb c = Ok (0, es) -> ahead n j k c -> 0 <= c < 2 ^ 64 -> exists x, (k, x) ∈ es.
Proof.
  induction kss as [|kvs kss IH]; intros c es Hne Hj Hskip Hall Hs Hah Hc; [done|]. cbn [kv_scan_calls] in Hs.
  destruct (Hall kvs) as (Hn & Hfit & ms & m & Hk & Hm & Hx); [apply elem_of_cons; by left|]. subst n.
  destruct (scan_progress kvs ms c skip_cb j m k Hk Hfit Hc Hm Hx Hj Hskip Hah) as (c' & es1 & kvs' & Hsc & Hres). rewrite Hsc in Hs.
  destruct (kv_scan_calls kss skip_cb c') as [[c2 es2]|] eqn:E; [|done]. injection Hs as -> <-.
  destruct Hres as [[x Hin]|(Hc0 & Hcr & Hah')]; [exists x; apply elem_of_app; by left|].
  destruct kss as [|kvs2 kss]; [injection E as ->; done|].
  destruct (IH c' es2) as [x Hin]; [done..| |done|done|done|exists x; apply elem_of_app; by right].
  intros kvs3 Hin. apply Hall, elem_of_cons. by right.
Qed.

(** C12: The guarantee of SCAN over a keyspace of up to 2^16 dicts: start with cursor 0 and
    call kvstoreScan until the cursor comes back to 0, with any changes to the kvstore
    between two calls (insertions, deletions, creation and removal of dicts, resizing,
    rehashing); every key that is in its dict at each of the calls has been returned,
    unless the callback skips that dict. *)
Theorem kvstoreScan_complete kss skip_cb n j k es :
  kss <> [] -> 0 <= j -> (forall f d, skip_cb = Some f -> f d j = false) ->
  (forall kvs, kvs ∈ kss -> num_dicts kvs = n /\ cursor_fits kvs /\
     exists ms m, kvs_rep kvs ms /\ ms !! Z.to_nat j = Some m /\ is_Some (m !! k)) ->
  kv_scan_calls kss skip_cb 0 = Ok (0, es) -> exists x, (k, x) ∈ es.
Proof.
  intros Hne Hj Hskip Hall Hs.
  assert (ahead n j k 0) as Hah.
  { unfold ahead. rewrite Z.mod_0_l, Z.div_0_l; [|destruct kss as [|kvs kss]; [done|];
      destruct (Hall kvs) as (<- & _ & ms & m & Hk & _); [apply elem_of_cons; by left|]; destruct (num_pow kvs ms Hk) as (_ & _ & ? & _); lia ..].
    destruct (Z.eq_dec j 0) as [->|]; [right|left; lia]. split; [done|]. change (rev 0) with 0. apply scan_pos_range. }
  eapply (kv_scan_cover n j k kss skip_cb 0); done.
Qed.
End Spec.

(** * Statistics and dict indices *)

Section Index.
Context {K V : Type} `{Countable K}.
Context (hashFunction : K -> Z).
Notation kvstore := (kvstore K V).
Notation kvs_rep := (kvs_rep hashFunction).
Implicit Types (kvs : kvstore) (m : gmap K V) (ms : list (gmap K V)).

(** The dict at [i] is there and being rehashed. *)
Definition dict_rehashing kvs (i : Z) : bool :=
  match kvstoreGetDict kvs i with Ok (Some s) => dictIsRehashing (s_dict s) | _ => false end.

Lemma node_dict kvs ms i :
  kvs_rep kvs ms -> (exists n, (n, i) ∈ rehashing kvs) <-> (0 <= i < num_dicts kvs /\ dict_rehashing kvs i = true).
Proof.
  intros [Hr _]. unfold dict_rehashing. pose proof (list.Forall2_length _ _ _ (dr_slots _ _ _ Hr)) as Hl. pose proof (dr_len _ _ _ Hr) as Hlen.
  assert (forall d : dict K V, rehash_state d <> None <-> dictIsRehashing d = true) as Hst.
  { intros d. unfold rehash_state. by destruct (dictIsRehashing d). }
  split.
  - intros [n Hin]. apply (dr_nodes _ _ _ Hr) in Hin as (s & H0 & Hs & Hn). pose proof (lookup_lt_Some _ _ _ Hs). split; [lia|].
    assert (kvstoreGetDict kvs i = Ok (Some s)) as Hg by by apply get1_Ok. rewrite Hg.
    destruct (slot_lookup _ kvs ms i _ Hr Hg) as (m & _ & _ & _ & (_ & _ & Hnode)). apply Hst, Hnode. congruence.
  - intros [Hi Hre]. destruct (getDict_ok _ kvs ms i Hr Hi) as [o Hg]. rewrite Hg in Hre. destruct o as [s|]; [|done].
    destruct (slot_lookup _ kvs ms i _ Hr Hg) as (m & H0 & Hs & _ & (_ & _ & Hnode)). apply Hst, Hnode in Hre.
    destruct (rehashing_node s) as [n|] eqn:E; [|done]. exists n. apply (dr_nodes _ _ _ Hr). by exists s.
Qed.

Lemma rehashing_dicts kvs ms :
  kvs_rep kvs ms -> (rehashing kvs).*2 ≡ₚ filter (fun i => dict_rehashing kvs i = true) (seqZ 0 (num_dicts kvs)).
Proof.
  intros Hk. pose proof Hk as [Hr _]. apply NoDup_Permutation.
  - assert (forall a b, a ∈ rehashing kvs -> b ∈ rehashing kvs -> a.2 = b.2 -> a = b) as Hinj.
    { intros [n i] [n' i'] Ha Hb E. simpl in E. subst i'. apply (dr_nodes _ _ _ Hr) in Ha as (s & _ & Hs & Hn), Hb as (s' & _ & Hs' & Hn'). congruence. }
    pose proof (NoDup_fmap_1 _ _ (dr_nodup _ _ _ Hr)) as Hnd. revert Hnd Hinj. generalize (rehashing kvs) as l.
    induction l as [|x l IH]; intros Hnd Hinj; [constructor|]. apply list.NoDup_cons in Hnd as [Hx Hnd]. cbn [fmap list_fmap]. apply list.NoDup_cons. split.
    + intros Hin. apply list_elem_of_fmap in Hin as (y & E & Hy). destruct Hx. rewrite (Hinj x y); [done|apply elem_of_cons; by left|apply elem_of_cons; by right|done].
    + apply IH; [done|]. intros a b Ha Hb. apply Hinj; apply elem_of_cons; by right.
  - apply list.NoDup_filter, NoDup_seqZ.
  - intros i. rewrite list_elem_of_filter, elem_of_seqZ. pose proof (node_dict kvs ms i Hk) as Hn. rewrite list_elem_of_fmap. split.
    + intros ([n i0] & E & Hin). simpl in E. subst i0. destruct (proj1 Hn) as [? ?]; [by exists n|]. split; [done|lia].
    + intros [Hre Hi]. destruct (proj2 Hn) as [n Hin]; [split; [lia|done]|]. by exists (n, i).
Qed.

(** The statistics of a kvstore that represents [ms]. *)
Definition stats_ok kvs ms : Prop :=
  kvstoreSize kvs = zsum (map_sizes ms) /\
  kvstoreNumNonEmptyDicts kvs = zlength (filter (fun m => m <> ∅) ms) /\
  kvstoreNumAllocatedDicts kvs = zlength (filter (fun o => is_Some o) (dicts kvs)) /\
  kvstoreBuckets kvs = Ok (u64 (zsum (slot_buckets <$> dicts kvs))) /\
  (rehashing kvs).*2 ≡ₚ filter (fun i => dict_rehashing kvs i = true) (seqZ 0 (num_dicts kvs)) /\
  overhead_hashtable_rehashing kvs = u64 (zsum (slot_from <$> dicts kvs)).

Lemma rep_stats kvs ms : kvs_rep kvs ms -> stats_ok kvs ms.
Proof.
  intros Hk. pose proof Hk as [Hr Hc]. split_and!.
  - apply Hc.
  - unfold kvstoreNumNonEmptyDicts. rewrite (cr_nonempty _ _ Hc). unfold map_sizes. clear. induction ms as [|m ms IH]; [done|].
    cbn [fmap list_fmap zsum foldr]. change (foldr Z.add 0) with zsum. rewrite IH. unfold nonzero. destruct (decide (m = ∅)) as [->|Hne].
    + rewrite filter_cons_False by (intros ?; done). rewrite map_size_empty. simpl. lia.
    + rewrite filter_cons_True by done. apply map_size_non_empty_iff in Hne. zif. cbn [length]. lia.
  - unfold kvstoreNumAllocatedDicts. rewrite (dr_alloc _ _ _ Hr). clear. induction (dicts kvs) as [|o l IH]; [done|].
    cbn [fmap list_fmap zsum foldr]. change (foldr Z.add 0) with zsum. rewrite IH. destruct o as [s|].
    + simpl. lia.
    + rewrite filter_cons_False by (by intros [? ?]). simpl. lia.
  - unfold kvstoreBuckets. destruct (Z.eqb_spec (num_dicts kvs) 1) as [E|E]; cbn [negb]; [|by rewrite (dr_buckets _ _ _ Hr)].
    pose proof (list.Forall2_length _ _ _ (dr_slots _ _ _ Hr)) as Hl. pose proof (dr_len _ _ _ Hr). unfold kvstoreGetDict.
    destruct (dicts kvs) as [|o [|? ?]] eqn:Ed; simpl in Hl; try lia. cbn. rewrite Z.add_0_r. destruct o as [s|]; [|done]. simpl.
    unfold dictBuckets, u. by rewrite Z.mod_mod.
  - by eapply rehashing_dicts.
  - apply Hr.
Qed.
(** The key number [target], counted over the dicts in order, is in dict [r]. *)
Definition holds_key_number ms (target r : Z) : Prop :=
  0 <= r < zlength ms /\ psum (map_sizes ms) r < target <= psum (map_sizes ms) (r + 1).

Lemma key_number_nonempty ms target r : holds_key_number ms target r -> exists m, ms !! Z.to_nat r = Some m /\ m <> ∅.
Proof.
  intros [Hr Ht]. destruct (all_maps ms r Hr) as [m Hm]. exists m. split; [done|]. apply size_pos.
  rewrite (psum_succ _ r (Z.of_nat (base.size m))) in Ht; [lia|lia|]. apply sizes_lookup. by exists m.
Qed.

Lemma find_key_number kvs ms target :
  kvs_rep kvs ms -> 1 <= target <= kvstoreSize kvs ->
  exists r, kvstoreFindDictIndexByKeyIndex kvs target = Ok r /\ holds_key_number ms target r.
Proof.
  intros Hk Ht. pose proof Hk as [Hr Hc]. unfold kvstoreFindDictIndexByKeyIndex, holds_key_number, kvstoreSize in *. pose proof (dr_len _ _ _ Hr) as Hlen.
  pose proof (cr_keys _ _ Hc) as Hkeys. pose proof (cr_tree _ _ Hc) as Htree. assert (zlength (map_sizes ms) = num_dicts kvs) as Hsl by (unfold map_sizes; by rewrite length_fmap).
  rewrite (proj2 (Z.eqb_neq (key_count kvs) 0)), orb_false_r by lia. destruct (Z.eqb_spec (num_dicts kvs) 1) as [E|E].
  - exists 0. split; [done|]. split; [lia|]. rewrite psum_0, psum_zsum by lia. lia.
  - zif. destruct Htree as (ft & -> & Hsz & Hft). destruct (findIndex_contract ft (map_sizes ms) target Hft) as (r & -> & Hrr & Hp).
    + rewrite (fr_total _ _ Hft), psum_zsum by lia. lia.
    + exists r. split; [done|]. split; [lia|done].
Qed.

Lemma first_index kvs ms :
  kvs_rep kvs ms -> 0 < kvstoreSize kvs ->
  exists r, kvstoreGetFirstNonEmptyDictIndex kvs = Ok r /\ holds_key_number ms 1 r.
Proof.
  intros Hk Hs. destruct (find_key_number kvs ms 1 Hk ltac:(lia)) as (r & Hf & Hh). exists r. split; [|done]. revert Hf.
  unfold kvstoreFindDictIndexByKeyIndex, kvstoreGetFirstNonEmptyDictIndex, fwTreeFindFirstNonEmpty. destruct (_ || _); [done|].
  by destruct (1 <=? kvstoreSize kvs).
Qed.

(** The dict of the key number [t], when the keys are counted over the dicts in order from 1 on. *)
Fixpoint key_dict ms (t : Z) : Z :=
  match ms with [] => 0 | m :: ms => if t <=? Z.of_nat (base.size m) then 0 else 1 + key_dict ms (t - Z.of_nat (base.size m)) end.

Lemma key_dict_nonneg ms : forall t, 0 <= key_dict ms t.
Proof. induction ms as [|m ms IH]; intros t; cbn [key_dict]; [lia|]. specialize (IH (t - Z.of_nat (base.size m))). destruct (_ <=? _); lia. Qed.

Lemma psum_cons x xs n : 0 <= n -> psum (x :: xs) (n + 1) = x + psum xs n.
Proof. intros Hn. unfold psum. by replace (Z.to_nat (n + 1)) with (S (Z.to_nat n)) by lia. Qed.

Lemma key_dict_holds ms : forall t, 1 <= t <= zsum (map_sizes ms) -> holds_key_number ms t (key_dict ms t).
Proof.
  unfold holds_key_number. induction ms as [|m ms IH]; intros t Ht; [cbn in Ht; lia|]. cbn [key_dict]. unfold map_sizes in *. rewrite fmap_cons in *. cbn [zsum foldr] in Ht. cbn [length].
  destruct (Z.leb_spec t (Z.of_nat (base.size m))) as [Hle|Hgt].
  - split; [lia|]. rewrite psum_0, (psum_cons _ _ 0), psum_0 by lia. lia.
  - destruct (IH (t - Z.of_nat (base.size m))) as [Hr Hp]; [unfold zsum; lia|]. set (r := key_dict ms _) in *. split; [lia|].
    rewrite (Z.add_comm 1 r), !psum_cons by lia. lia.
Qed.

Lemma key_number_unique ms t r r' : holds_key_number ms t r -> holds_key_number ms t r' -> r = r'.
Proof.
  intros [Hr Ht] [Hr' Ht']. assert (Forall (fun x => 0 <= x) (map_sizes ms)) as Hp by (apply Forall_fmap, list.Forall_true; intros; simpl; lia).
  destruct (Z.lt_trichotomy r r') as [Hl|[He|Hl]]; [|done|].
  - pose proof (psum_mono (map_sizes ms) (r + 1) r' Hp ltac:(lia)). lia.
  - pose proof (psum_mono (map_sizes ms) (r' + 1) r Hp ltac:(lia)). lia.
Qed.

Lemma find_key_dict kvs ms target :
  kvs_rep kvs ms -> 1 <= target <= kvstoreSize kvs -> kvstoreFindDictIndexByKeyIndex kvs target = Ok (key_dict ms target).
Proof.
  intros Hk Ht. destruct (find_key_number kvs ms target Hk Ht) as (r & -> & Hr). f_equal. apply (key_number_unique ms target); [done|]. apply key_dict_holds.
  unfold kvstoreSize in Ht. by rewrite (cr_keys _ _ (proj2 Hk)) in Ht.
Qed.

Lemma count_shift (P Q : Z -> Prop) `{!forall t, Decision (P t)} `{!forall t, Decision (Q t)} a (l : list Z) :
  (forall t, t ∈ l -> P (a + t) <-> Q t) -> length (filter P (Z.add a <$> l)) = length (filter Q l).
Proof.
  induction l as [|t l IH]; intros Hpq; [done|]. rewrite fmap_cons, !filter_cons. pose proof (Hpq t ltac:(by left)). specialize (IH (fun x Hx => Hpq x ltac:(by right))).
  destruct (decide (P (a + t))), (decide (Q t)); cbn [length]; tauto || congruence.
Qed.

Lemma count_none (P : Z -> Prop) `{!forall t, Decision (P t)} (l : list Z) : (forall t, t ∈ l -> ~ P t) -> length (filter P l) = 0%nat.
Proof. induction l as [|t l IH]; intros Hp; [done|]. rewrite filter_cons_False by (apply Hp; by left). apply IH. intros x Hx. apply Hp. by right. Qed.

Lemma count_all (P : Z -> Prop) `{!forall t, Decision (P t)} (l : list Z) : (forall t, t ∈ l -> P t) -> length (filter P l) = length l.
Proof. induction l as [|t l IH]; intros Hp; [done|]. rewrite filter_cons_True by (apply Hp; by left). cbn [length]. f_equal. apply IH. intros x Hx. apply Hp. by right. Qed.

(** Every dict is the choice of as many key numbers as it has keys. *)
Lemma key_dict_count ms : forall i m, ms !! i = Some m ->
  length (filter (fun t => key_dict ms t = Z.of_nat i) (seqZ 1 (zsum (map_sizes ms)))) = base.size m.
Proof.
  induction ms as [|m0 ms IH]; intros i m Hm; [done|]. specialize (IH (pred i) m). unfold map_sizes in *. rewrite fmap_cons. set (a := Z.of_nat (base.size m0)). set (b := zsum ((fun m => Z.of_nat (base.size m)) <$> ms)) in *.
  assert (0 <= b) as Hb by (apply foldr_add_nonneg, Forall_fmap, list.Forall_true; intros; simpl; lia).
  change (zsum (a :: _)) with (a + b). rewrite seqZ_app by lia. rewrite list.filter_app, length_app.
  assert (Hlow : forall t, t ∈ seqZ 1 a -> key_dict (m0 :: ms) t = 0) by (intros t Ht%elem_of_seqZ; cbn [key_dict]; fold a; by rewrite (proj2 (Z.leb_le t a)) by lia).
  replace (seqZ (1 + a) b) with (Z.add a <$> seqZ 1 b) by (rewrite fmap_add_seqZ; f_equal; lia).
  assert (Hhigh : forall t, t ∈ seqZ 1 b -> key_dict (m0 :: ms) (a + t) = 1 + key_dict ms t).
  { intros t Ht%elem_of_seqZ. cbn [key_dict]. fold a. rewrite (proj2 (Z.leb_gt (a + t) a)) by lia. by replace (a + t - a) with t by lia. }
  destruct i as [|i].
  - cbn in Hm. injection Hm as <-. rewrite count_all by apply Hlow. rewrite (count_shift _ (fun _ => False)), count_none; [rewrite length_seqZ; unfold a; lia|auto|].
    intros t Ht. rewrite Hhigh by done. pose proof (key_dict_nonneg ms t). lia.
  - cbn [pred] in IH. rewrite count_none, <- (IH Hm) by (intros t Ht; rewrite Hlow by done; lia). apply count_shift. intros t Ht. rewrite Hhigh by done. lia.
Qed.

(** ** The random choice *)

Definition allocated kvs (r : Z) : bool := match kvstoreGetDict kvs r with Ok (Some _) => true | _ => false end.

(** The dicts that are drawn, and those that the fallback visits. *)
Definition drawn kvs ms (random : list Z) : list Z := (fun x => key_dict ms (x mod kvstoreSize kvs + 1)) <$> random.
Definition visited kvs (x : Z) : list Z := (fun i => (x + i) mod num_dicts kvs) <$> seqZ 0 (num_dicts kvs).

(** The first dict drawn that is not skipped; else the first one visited that is there and not
    skipped, if there is a fallback; else -1. *)
Definition fair_choice kvs ms (skip_cb : option (Z -> bool)) (random : list Z) (slow_fallback : option Z) : Z :=
  match find (fun r => negb (skipped skip_cb r)) (drawn kvs ms random) with
  | Some r => r
  | None =>
      match slow_fallback with
      | Some x => default (-1) (find (fun r => allocated kvs r && negb (skipped skip_cb r)) (visited kvs x))
      | None => -1
      end
  end.

Lemma fair_attempts_spec kvs ms skip_cb random :
  kvs_rep kvs ms -> 0 < kvstoreSize kvs -> fair_attempts kvs skip_cb random = Ok (find (fun r => negb (skipped skip_cb r)) (drawn kvs ms random)).
Proof.
  intros Hk Hs. pose proof (cr_small _ _ (proj2 Hk)). pose proof (cr_keys _ _ (proj2 Hk)). unfold drawn, kvstoreSize in *.
  induction random as [|x random IH]; [done|]. cbn [fair_attempts fmap list_fmap find].
  pose proof (Z.mod_pos_bound x (key_count kvs) Hs). unfold kvstoreSize. rewrite u_id by (pow_const; lia).
  rewrite (find_key_dict kvs ms) by (done || (unfold kvstoreSize; lia)). destruct (skipped skip_cb _); cbn [negb]; [apply IH|done].
Qed.

Lemma slow_search_spec kvs ms skip_cb x n : forall i,
  kvs_rep kvs ms -> slow_search kvs skip_cb n (s32 (x mod num_dicts kvs)) i =
    Ok (default (-1) (find (fun r => allocated kvs r && negb (skipped skip_cb r)) ((fun i => (x + i) mod num_dicts kvs) <$> seqZ i (Z.of_nat n)))).
Proof.
  intros i Hk. destruct (num_pow hashFunction kvs ms Hk) as (_ & _ & Hn & _). revert i.
  induction n as [|n IH]; intros i; cbn [slow_search]; [done|]. rewrite seqZ_cons, fmap_cons by lia. cbn [find].
  pose proof (Z.mod_pos_bound x (num_dicts kvs) ltac:(lia)) as Hx. rewrite (s_id 32 (x mod _)) by (lia || (unfold in_s; pow_const; lia)).
  pose proof (Z.mod_pos_bound (x + i) (num_dicts kvs) ltac:(lia)) as Hm. rewrite Zplus_mod_idemp_l, (s_id 32 ((x + i) mod _)) by (lia || (unfold in_s; pow_const; lia)).
  rewrite (s_id 32 (x mod _)) in IH by (lia || (unfold in_s; pow_const; lia)).
  set (didx := (x + i) mod num_dicts kvs) in *. destruct (getDict_ok _ kvs ms didx (proj1 Hk) Hm) as [o Hg]. unfold allocated at 1. rewrite Hg.
  replace (Z.pred (Z.of_nat (S n))) with (Z.of_nat n) by lia. change (Z.succ i) with (i + 1).
  destruct o as [s|]; [rewrite bool_decide_eq_true_2 by done|rewrite bool_decide_eq_false_2 by (intros Hx'; by apply Hx'); apply IH].
  destruct (skipped skip_cb didx) eqn:E; cbn [negb andb]; [apply IH|done].
Qed.

Lemma fair_random_spec kvs ms skip_cb random slow_fallback : kvs_rep kvs ms ->
  kvstoreGetFairRandomDictIndex kvs skip_cb random slow_fallback =
    Ok (if (num_dicts kvs =? 1) || (kvstoreSize kvs =? 0) then 0 else fair_choice kvs ms skip_cb random slow_fallback).
Proof.
  intros Hk. unfold kvstoreGetFairRandomDictIndex, fair_choice. destruct (_ || _) eqn:E; [done|]. apply orb_false_iff in E as [_ E]. destruct (num_pow hashFunction kvs ms Hk) as (_ & _ & Hn & _).
  assert (0 <= kvstoreSize kvs) as H0.
  { unfold kvstoreSize. rewrite (cr_keys _ _ (proj2 Hk)). apply foldr_add_nonneg, Forall_fmap, list.Forall_true. intros; simpl; lia. }
  rewrite (fair_attempts_spec kvs ms) by (done || lia). destruct (find _ (drawn _ _ _)) as [r|]; [done|]. destruct slow_fallback as [x|]; [|done].
  rewrite (slow_search_spec kvs ms) by done. unfold visited. by rewrite Z2Nat.id by lia.
Qed.

(** Every dict is visited by the fallback. *)
Lemma visited_all kvs ms x r : kvs_rep kvs ms -> 0 <= r < num_dicts kvs -> r ∈ visited kvs x.
Proof.
  intros Hk Hr. destruct (num_pow hashFunction kvs ms Hk) as (_ & _ & Hn & _). apply list_elem_of_fmap. exists ((r - x) mod num_dicts kvs).
  pose proof (Z.mod_pos_bound (r - x) (num_dicts kvs) ltac:(lia)). split; [|apply elem_of_seqZ; lia]. rewrite Zplus_mod_idemp_r. replace (x + (r - x)) with r by lia. by rewrite Z.mod_small.
Qed.

(** C38: The index queries of a kvstore agree with the array of maps: the dict of the n-th
    key, the first non-empty dict and the next non-empty one are found.  The random choice is
    the first dict drawn that is not skipped, where the number of the key that is drawn is the
    random number modulo the number of keys: each dict is the choice of exactly as many key
    numbers as it has keys, so that it is chosen in proportion to them, and without a callback one
    attempt yields a non-empty dict.  When every draw is skipped, the result is -1 without a
    fallback, and with it the first dict from the random start on, round the array, that is
    allocated and not skipped, which is found if there is one; that dict may be empty, unlike
    the comment of the function says. *)
Theorem kvstore_index_correct kvs ms :
  kvs_rep kvs ms ->
  (forall target, 1 <= target <= kvstoreSize kvs ->
     kvstoreFindDictIndexByKeyIndex kvs target = Ok (key_dict ms target) /\ holds_key_number ms target (key_dict ms target)) /\
  (0 < kvstoreSize kvs -> exists r, kvstoreGetFirstNonEmptyDictIndex kvs = Ok r /\ holds_key_number ms 1 r) /\
  (forall didx, 0 <= didx < num_dicts kvs -> exists r, kvstoreGetNextNonEmptyDictIndex kvs didx = Ok r /\
     ((r = -1 /\ forall j m, didx < j -> ms !! Z.to_nat j = Some m -> m = ∅) \/
      (didx < r < num_dicts kvs /\ (exists m, ms !! Z.to_nat r = Some m /\ m <> ∅) /\
       forall j m, didx < j < r -> ms !! Z.to_nat j = Some m -> m = ∅))) /\
  (forall skip_cb random slow_fallback,
     kvstoreGetFairRandomDictIndex kvs skip_cb random slow_fallback =
       Ok (if (num_dicts kvs =? 1) || (kvstoreSize kvs =? 0) then 0 else fair_choice kvs ms skip_cb random slow_fallback)) /\
  (forall i m, ms !! i = Some m -> length (filter (fun t => key_dict ms t = Z.of_nat i) (seqZ 1 (kvstoreSize kvs))) = base.size m) /\
  (forall x random slow_fallback, 0 < kvstoreSize kvs ->
     fair_choice kvs ms None (x :: random) slow_fallback = key_dict ms (x mod kvstoreSize kvs + 1) /\
     exists m, ms !! Z.to_nat (fair_choice kvs ms None (x :: random) slow_fallback) = Some m /\ m <> ∅) /\
  (forall skip_cb random x r, 0 <= r < num_dicts kvs -> allocated kvs r = true -> skipped skip_cb r = false ->
     fair_choice kvs ms skip_cb random (Some x) <> -1 /\ skipped skip_cb (fair_choice kvs ms skip_cb random (Some x)) = false).
Proof.
  intros Hk. pose proof (cr_keys _ _ (proj2 Hk)) as Hkeys. destruct (num_pow hashFunction kvs ms Hk) as (_ & _ & Hn & _). split; [|split; [|split; [|split; [|split; [|split]]]]].
  - intros target Ht. split; [by apply find_key_dict|]. apply key_dict_holds. unfold kvstoreSize in Ht. by rewrite Hkeys in Ht.
  - by apply first_index.
  - intros. by apply (next_index hashFunction).
  - intros. by apply fair_random_spec.
  - unfold kvstoreSize. rewrite Hkeys. apply key_dict_count.
  - intros x random slow_fallback Hs. split; [done|]. apply (key_number_nonempty ms (x mod kvstoreSize kvs + 1)). unfold fair_choice. cbn. apply key_dict_holds.
    pose proof (Z.mod_pos_bound x (kvstoreSize kvs) Hs). unfold kvstoreSize in *. rewrite <- Hkeys. lia.
  - intros skip_cb random x r Hr Ha Hsk. unfold fair_choice. destruct (find _ (drawn _ _ _)) as [r'|] eqn:E.
    + apply find_some in E as [Hin%list_elem_of_In Hns%negb_true_iff]. split; [|done]. apply list_elem_of_fmap in Hin as (y & -> & _). pose proof (key_dict_nonneg ms (y mod kvstoreSize kvs + 1)). lia.
    + destruct (find _ (visited _ _)) as [r'|] eqn:E2; cbn [from_option].
      * apply find_some in E2 as [Hin%list_elem_of_In Hns]. apply andb_true_iff in Hns as [_ Hns%negb_true_iff]. split; [|done].
        apply list_elem_of_fmap in Hin as (y & -> & _). pose proof (Z.mod_pos_bound (x + y) (num_dicts kvs) ltac:(lia)). unfold id. lia.
      * pose proof (find_none _ _ E2 r (proj1 (list_elem_of_In _ _) (visited_all kvs ms x r Hk Hr))) as Hno. cbn beta in Hno. by rewrite Ha, Hsk in Hno.
Qed.
End Index.

(** * Histories *)

Section Histories.
Context {K V : Type} `{Countable K}.
Context (hashFunction : K -> Z) (keyCompare : K -> K -> bool).
Context (resizeAllowed : option (Z -> Z * Z -> bool)) (dict_can_resize : dictResizeEnable) (junk : V).
Notation kvstore := (kvstore K V).
Notation kvs_rep := (kvs_rep hashFunction).
Implicit Types (kvs : kvstore) (m : gmap K V) (ms : list (gmap K V)).

Inductive kv_op :=
| KvAdd (didx : Z) (k : K) (v : V)          (* kvstoreDictAddRaw and kvstoreDictSetVal *)
| KvAddByLink (didx : Z) (k : K)            (* kvstoreDictFindLink and kvstoreDictSetAtLink *)
| KvDelete (didx : Z) (k : K)
| KvFetch (didx : Z) (k : K)
| KvSize
| KvNonEmpty
| KvDictSize (didx : Z)
| KvDictExpand (didx size : Z)
| KvExpand (size : Z) (try_expand : bool) (alloc_ok : Z -> bool)
| KvTryResize (limit : Z)
| KvEmpty.

Inductive kv_reply := Num (n : Z) | Val (v : option V).

Definition op_index (op : kv_op) : option Z :=
  match op with
  | KvAdd i _ _ | KvAddByLink i _ | KvDelete i _ | KvFetch i _ | KvDictSize i | KvDictExpand i _ => Some i
  | _ => None
  end.

Definition kv_op_ok (n : Z) (op : kv_op) : Prop :=
  (forall i, op_index op = Some i -> 0 <= i < n) /\
  match op with KvDictExpand _ size | KvExpand size _ _ => 0 <= size | _ => True end.

Definition kv_exec_op kvs (op : kv_op) : res (kv_reply * kvstore) :=
  match op with
  | KvAdd didx k v =>
      let! '(ret, kvs) := kvstoreDictAddRaw hashFunction keyCompare resizeAllowed dict_can_resize kvs didx junk k in
      match ret with
      | inl _ => Ok (Num 0, kvs)
      | inr de => let! kvs := kvstoreDictSetVal kvs didx de v in Ok (Num 1, kvs)
      end
  | KvAddByLink didx k =>
      let! '(link, bucket, kvs) := kvstoreDictFindLink hashFunction keyCompare dict_can_resize kvs didx k in
      match link with
      | Some _ => Ok (Num 0, kvs)
      | None => let! kvs := kvstoreDictSetAtLink hashFunction keyCompare resizeAllowed dict_can_resize kvs didx junk k bucket in Ok (Num 1, kvs)
      end
  | KvDelete didx k =>
      let! '(st, kvs) := kvstoreDictDelete hashFunction keyCompare resizeAllowed dict_can_resize kvs didx k in
      Ok (Num (match st with DICT_OK => 1 | DICT_ERR => 0 end), kvs)
  | KvFetch didx k => let! '(v, kvs) := kvstoreDictFetchValue hashFunction keyCompare dict_can_resize kvs didx k in Ok (Val v, kvs)
  | KvSize => Ok (Num (kvstoreSize kvs), kvs)
  | KvNonEmpty => Ok (Num (kvstoreNumNonEmptyDicts kvs), kvs)
  | KvDictSize didx => let! n := kvstoreDictSize kvs didx in Ok (Num n, kvs)
  | KvDictExpand didx size => let! '(_, kvs) := kvstoreDictExpand hashFunction dict_can_resize kvs didx size in Ok (Num 0, kvs)
  | KvExpand size try_expand alloc_ok =>
      let! '(_, kvs) := kvstoreExpand hashFunction dict_can_resize kvs size try_expand None alloc_ok in Ok (Num 0, kvs)
  | KvTryResize limit => let! kvs := kvstoreTryResizeDicts hashFunction resizeAllowed dict_can_resize kvs limit in Ok (Num 0, kvs)
  | KvEmpty => let! kvs := kvstoreEmpty kvs in Ok (Num 0, kvs)
  end.

(** The same on an array of maps. *)
Definition map_at ms (didx : Z) : gmap K V := default ∅ (ms !! Z.to_nat didx).

Definition add_new ms (didx : Z) (k : K) (v : V) : kv_reply * list (gmap K V) :=
  match map_at ms didx !! k with
  | Some _ => (Num 0, ms)
  | None => (Num 1, <[Z.to_nat didx := <[k := v]> (map_at ms didx)]> ms)
  end.

Definition kv_spec_op ms (op : kv_op) : kv_reply * list (gmap K V) :=
  match op with
  | KvAdd didx k v => add_new ms didx k v
  | KvAddByLink didx k => add_new ms didx k junk
  | KvDelete didx k =>
      (Num (match map_at ms didx !! k with Some _ => 1 | None => 0 end), <[Z.to_nat didx := delete k (map_at ms didx)]> ms)
  | KvFetch didx k => (Val (map_at ms didx !! k), ms)
  | KvSize => (Num (zsum (map_sizes ms)), ms)
  | KvNonEmpty => (Num (zsum (nonzero <$> map_sizes ms)), ms)
  | KvDictSize didx => (Num (Z.of_nat (base.size (map_at ms didx))), ms)
  | KvEmpty => (Num 0, replicate (length ms) ∅)
  | _ => (Num 0, ms)
  end.

Fixpoint kv_exec kvs (ops : list kv_op) : res (list kv_reply * kvstore) :=
  match ops with
  | [] => Ok ([], kvs)
  | op :: ops =>
      let! '(r, kvs) := kv_exec_op kvs op in
      let! '(rs, kvs) := kv_exec kvs ops in
      Ok (r :: rs, kvs)
  end.

Fixpoint kv_spec ms (ops : list kv_op) : list kv_reply * list (gmap K V) :=
  match ops with
  | [] => ([], ms)
  | op :: ops => let '(r, ms) := kv_spec_op ms op in let '(rs, ms) := kv_spec ms ops in (r :: rs, ms)
  end.

(** keyCompare is an equality test. *)
Hypothesis Hcmp : forall a b, keyCompare a b = true <-> a = b.

Lemma kv_exec_op_spec kvs ms op :
  kvs_rep kvs ms -> kv_op_ok (num_dicts kvs) op -> kvstoreSize kvs + 1 < 2 ^ 58 ->
  exists kvs', kv_exec_op kvs op = Ok ((kv_spec_op ms op).1, kvs') /\ kvs_rep kvs' (kv_spec_op ms op).2.
Proof.
  intros Hk [Hidx Hop] Hsm. unfold kvstoreSize in Hsm. pose proof (dr_len _ _ _ (proj1 Hk)) as Hlen.
  assert (forall i, op_index op = Some i -> 0 <= i /\ ms !! Z.to_nat i = Some (map_at ms i)) as Hat.
  { intros i Hi. destruct (Hidx i Hi) as [H0 H1]. split; [done|]. destruct (all_maps ms i) as [m Hm]; [lia|]. unfold map_at. by rewrite Hm. }
  destruct op as [i k v|i k|i k|i k| | |i|i sz|sz te ao|lim|]; cbn [kv_exec_op kv_spec_op fst snd]; try destruct (Hat i eq_refl) as [H0 Hm].
  - destruct (add_kv_contract hashFunction keyCompare resizeAllowed dict_can_resize Hcmp kvs ms i _ junk k Hk H0 Hm Hsm) as (ret & kvs1 & -> & Hr).
    unfold add_new. destruct ret as [l|l].
    + destruct Hr as (Hk1 & x & -> & _). by exists kvs1.
    + destruct Hr as (Hk1 & -> & Hl). pose proof (lookup_lt_Some _ _ _ Hm).
      destruct (set_val_contract hashFunction kvs1 _ i _ l k junk v Hk1 H0 ltac:(by apply list_lookup_insert_eq) Hl) as (kvs2 & -> & Hk2 & _).
      rewrite list_insert_insert_eq, insert_insert_eq in Hk2. by exists kvs2.
  - destruct (set_at_link_contract hashFunction keyCompare resizeAllowed dict_can_resize Hcmp kvs ms i _ junk k Hk H0 Hm Hsm) as (l & b & kvs1 & -> & Hk1 & Hl).
    unfold add_new. destruct l as [l|].
    + destruct Hl as (x & -> & _). by exists kvs1.
    + destruct Hl as (-> & kvs2 & -> & Hk2). by exists kvs2.
  - destruct (delete_kv_contract hashFunction keyCompare resizeAllowed dict_can_resize Hcmp kvs ms i _ k Hk H0 Hm) as (kvs1 & -> & Hk1).
    exists kvs1. split; [|done]. by destruct (map_at ms i !! k).
  - unfold kvstoreDictFetchValue. destruct (find_kv_contract hashFunction keyCompare dict_can_resize Hcmp kvs ms i _ k Hk H0 Hm) as (kvs1 & -> & Hk1 & _).
    exists kvs1. split; [|done]. by destruct (map_at ms i !! k).
  - exists kvs. split; [|done]. unfold kvstoreSize. by rewrite (cr_keys _ _ (proj2 Hk)).
  - exists kvs. split; [|done]. unfold kvstoreNumNonEmptyDicts. by rewrite (cr_nonempty _ _ (proj2 Hk)).
  - unfold kvstoreDictSize. destruct (rep_slot hashFunction kvs ms i _ Hk H0 Hm) as (o & -> & Hs). exists kvs. split; [|done].
    destruct o as [s|]; [by rewrite (rep_dictSize hashFunction _ _ (proj1 Hs))|by rewrite Hs, map_size_empty].
  - destruct (expand_kv_contract hashFunction dict_can_resize kvs ms i _ sz Hk H0 Hm Hop) as (st & kvs1 & -> & ?). by exists kvs1.
  - destruct (kvstoreExpand_contract hashFunction dict_can_resize kvs ms sz te None ao Hk Hop) as (r & kvs1 & -> & ? & _). by exists kvs1.
  - destruct (tryResize_contract hashFunction resizeAllowed dict_can_resize kvs ms lim Hk) as (kvs1 & -> & ?). by exists kvs1.
  - destruct (kvstoreEmpty_contract hashFunction kvs ms Hk) as (kvs1 & -> & ? & _). by exists kvs1.
Qed.

Lemma map_at_size ms i : 0 <= Z.of_nat (base.size (map_at ms i)) <= zsum (map_sizes ms).
Proof.
  assert (Forall (fun x => 0 <= x) (map_sizes ms)) as Hp by (apply Forall_fmap, list.Forall_true; intros; simpl; lia).
  unfold map_at. destruct (ms !! Z.to_nat i) as [m|] eqn:E; simpl.
  - apply (zsum_elem (map_sizes ms) (Z.to_nat i)); [done|]. apply sizes_lookup. by exists m.
  - rewrite map_size_empty. pose proof (foldr_add_nonneg (map_sizes ms) Hp). unfold zsum. lia.
Qed.

Lemma put_map_size ms i m c :
  Z.of_nat (base.size m) <= Z.of_nat (base.size (map_at ms i)) + c -> 0 <= c -> zsum (map_sizes (<[Z.to_nat i := m]> ms)) <= zsum (map_sizes ms) + c.
Proof.
  unfold map_at, map_sizes. intros Hm Hc. destruct (ms !! Z.to_nat i) as [m0|] eqn:E; simpl in Hm.
  - rewrite (zsum_fmap_insert _ _ _ _ _ E). lia.
  - rewrite list_insert_ge by (by apply lookup_ge_None_1). lia.
Qed.

Lemma kv_spec_op_size ms op : length (kv_spec_op ms op).2 = length ms /\ zsum (map_sizes (kv_spec_op ms op).2) <= zsum (map_sizes ms) + 1.
Proof.
  assert (forall i k v, length (add_new ms i k v).2 = length ms /\ zsum (map_sizes (add_new ms i k v).2) <= zsum (map_sizes ms) + 1) as Hadd.
  { intros i k v. unfold add_new. destruct (map_at ms i !! k) eqn:E; cbn [snd]; [split; [done|lia]|]. split; [apply length_insert|].
    apply put_map_size; [|lia]. rewrite (new_size _ _ _ E). lia. }
  destruct op as [i k v|i k|i k|i k| | |i|i sz|sz te ao|lim|]; cbn [kv_spec_op snd]; auto; try (split; [done|lia]).
  - split; [apply length_insert|]. pose proof (put_map_size ms i (delete k (map_at ms i)) 0) as Hp. 
    assert (base.size (delete k (map_at ms i)) <= base.size (map_at ms i))%nat; [|lia].
    destruct (map_at ms i !! k) eqn:E; [rewrite map_size_delete_Some by (by eexists); lia|by rewrite delete_id].
  - split; [by rewrite length_replicate|]. rewrite fresh_counts, zsum_zeros. pose proof (map_at_size ms 0). lia.
Qed.

Lemma kv_exec_spec ops : forall kvs ms,
  kvs_rep kvs ms -> Forall (kv_op_ok (num_dicts kvs)) ops -> zsum (map_sizes ms) + zlength ops < 2 ^ 58 ->
  exists kvs', kv_exec kvs ops = Ok ((kv_spec ms ops).1, kvs') /\ kvs_rep kvs' (kv_spec ms ops).2.
Proof.
  induction ops as [|op ops IH]; intros kvs ms Hk Hops Hsm; cbn [kv_exec kv_spec]; [by exists kvs|].
  apply Forall_cons_1 in Hops as [Hop Hops]. cbn [length] in Hsm.
  destruct (kv_exec_op_spec kvs ms op Hk Hop) as (kvs1 & -> & Hk1); [unfold kvstoreSize; rewrite (cr_keys _ _ (proj2 Hk)); lia|].
  destruct (kv_spec_op_size ms op) as [Hl Hs]. pose proof (dr_len _ _ _ (proj1 Hk)) as E0. pose proof (dr_len _ _ _ (proj1 Hk1)) as E1.
  destruct (kv_spec_op ms op) as [r ms1]. cbn [fst snd] in *.
  destruct (IH kvs1 ms1 Hk1) as (kvs2 & -> & Hk2); [by replace (num_dicts kvs1) with (num_dicts kvs) by lia|lia|].
  destruct (kv_spec ms1 ops) as [rs ms2]. by exists kvs2.
Qed.

(** C3: A kvstore refines an array of finite maps: after kvstoreCreate for 1 to 2^16 dicts
    and any flags, any sequence of additions (in one step, or with a link found before),
    deletions, lookups, size queries, expansions and resizes of the dicts and emptying
    never fails, and every reply is the one of the array of maps, although dicts are
    created on demand, freed when they become empty, resized and rehashed on the way.
    The final state satisfies the invariant: the Fenwick tree, the counters and the
    rehashing list agree with the dicts. *)
Theorem kvstore_refines_maps bits fl ops :
  0 <= bits <= 16 -> Forall (kv_op_ok (2 ^ bits)) ops -> zlength ops < 2 ^ 58 ->
  let ms := replicate (Z.to_nat (2 ^ bits)) ∅ in
  exists kvs kvs', kvstoreCreate bits fl = Ok kvs /\ kv_exec kvs ops = Ok ((kv_spec ms ops).1, kvs') /\ kvs_rep kvs' (kv_spec ms ops).2.
Proof.
  intros Hb Hops Hl ms. destruct (kvstoreCreate_contract (V := V) hashFunction bits fl Hb) as (kvs & -> & Hk & Hn & _). rewrite <- Hn in Hops.
  destruct (kv_exec_spec ops kvs ms Hk Hops) as (kvs' & ? & ?); [unfold ms; rewrite fresh_counts, zsum_zeros; lia|]. by exists kvs, kvs'.
Qed.

(** C37: The statistics of a kvstore stay exact.  After kvstoreCreate and any sequence of the operations,
    which change the counters one by one and through the callbacks that the dicts call when they
    allocate, resize and rehash: kvstoreSize is the number of keys over all maps,
    kvstoreNumNonEmptyDicts and kvstoreNumAllocatedDicts count the dicts, kvstoreBuckets is the sum
    of the buckets of the dicts, the rehashing list holds exactly the dicts that are being
    rehashed, each once, and the rehashing overhead is the sum of the sizes of their first
    tables. *)
Theorem kvstore_stats_correct bits fl ops :
  0 <= bits <= 16 -> Forall (kv_op_ok (2 ^ bits)) ops -> zlength ops < 2 ^ 58 ->
  exists kvs replies kvs', kvstoreCreate bits fl = Ok kvs /\ kv_exec kvs ops = Ok (replies, kvs') /\
    stats_ok kvs' (kv_spec (replicate (Z.to_nat (2 ^ bits)) ∅) ops).2.
Proof.
  intros Hb Hops Hl. destruct (kvstoreCreate_contract (V := V) hashFunction bits fl Hb) as (kvs & -> & Hk & Hn & _). rewrite <- Hn in Hops.
  destruct (kv_exec_spec ops kvs _ Hk Hops) as (kvs' & Hx & Hr); [rewrite fresh_counts, zsum_zeros; lia|]. do 3 eexists. split; [done|]. split; [done|]. by apply (rep_stats hashFunction).
Qed.
End Histories.

(** * Examples *)

Definition kv_hash (k : Z) : Z := k.
Lemma zeqb_cmp (a b : Z) : Z.eqb a b = true <-> a = b.
Proof. apply Z.eqb_eq. Qed.

(** Four dicts; the second has five keys and is being rehashed, the last one key. *)
Definition kv_demo_ops : list (kv_op (K := Z) (V := Z)) :=
  [KvAdd 1 1 11; KvAdd 1 2 12; KvAddByLink 1 5; KvAdd 3 7 17; KvAdd 1 9 19; KvAdd 1 12 22; KvAdd 3 7 23; KvDelete 3 8; KvSize; KvNonEmpty; KvFetch 3 7].
Definition kv_demo : kvstore Z Z :=
  match kvstoreCreate 2 0 with
  | Ok kvs => match kv_exec kv_hash Z.eqb None DICT_RESIZE_ENABLE 0 kvs kv_demo_ops with Ok (_, kvs) => kvs | _ => kvs end
  | Fault _ => mkKvs 0 [] 0 0 [] 0 0 0 0 0 0 None 0
  end.
Definition kv_demo_maps : list (gmap Z Z) := (kv_spec (0 : Z) (replicate 4 ∅) kv_demo_ops).2.

Lemma kv_demo_ok : Forall (kv_op_ok (2 ^ 2)) kv_demo_ops.
Proof. repeat (constructor; [split; [intros i [= <-]; lia|exact I] || (split; [done|exact I])|]). constructor. Qed.

Lemma kv_demo_rep : kvs_rep kv_hash kv_demo kv_demo_maps.
Proof.
  destruct (kvstoreCreate_contract (K := Z) (V := Z) kv_hash 2 0 ltac:(lia)) as (kvs & Hc & Hk & Hn & _).
  destruct (kv_exec_spec kv_hash Z.eqb None DICT_RESIZE_ENABLE 0 zeqb_cmp kv_demo_ops kvs (replicate 4 ∅) Hk) as (kvs' & Hx & Hk').
  - rewrite Hn. apply kv_demo_ok.
  - reflexivity.
  - replace kv_demo with kvs'; [exact Hk'|]. unfold kv_demo. rewrite Hc, Hx. reflexivity.
Qed.

Lemma kvstore_refines_maps_witness :
  exists kvs kvs', kvstoreCreate 2 0 = Ok kvs /\
    kv_exec kv_hash Z.eqb None DICT_RESIZE_ENABLE 0 kvs kv_demo_ops =
      Ok ([Num 1; Num 1; Num 1; Num 1; Num 1; Num 1; Num 0; Num 0; Num 6; Num 2; Val (Some 17)], kvs').
Proof.
  destruct (kvstore_refines_maps kv_hash Z.eqb None DICT_RESIZE_ENABLE 0 zeqb_cmp 2 0 kv_demo_ops) as (kvs & kvs' & H1 & H2 & _);
    [lia|exact kv_demo_ok|reflexivity|].
  exists kvs, kvs'. split; [exact H1|]. rewrite H2. vm_compute. reflexivity.
Defined.

Lemma kvstore_stats_correct_witness :
  exists kvs replies kvs', kvstoreCreate 2 0 = Ok kvs /\ kv_exec kv_hash Z.eqb None DICT_RESIZE_ENABLE 0 kvs kv_demo_ops = Ok (replies, kvs') /\
    stats_ok kvs' kv_demo_maps /\ kvstoreSize kvs' = 6 /\ kvstoreBuckets kvs' = Ok 16 /\ (rehashing kvs').*2 = [1] /\ overhead_hashtable_rehashing kvs' = 4.
Proof.
  destruct (kvstore_stats_correct kv_hash Z.eqb None DICT_RESIZE_ENABLE 0 zeqb_cmp 2 0 kv_demo_ops) as (kvs & replies & kvs' & H1 & H2 & H3); [lia|exact kv_demo_ok|reflexivity|].
  exists kvs, replies, kvs'. split; [exact H1|]. split; [exact H2|]. split; [exact H3|]. vm_compute in H1. injection H1 as <-. vm_compute in H2. injection H2 as <- <-.
  vm_compute. repeat split; reflexivity.
Defined.

(** The key number 6 is in dict 3; with dict 1 skipped, the draw of key 1 is passed over and that of key 6 taken. *)
Lemma kvstore_index_correct_witness :
  kvstoreFindDictIndexByKeyIndex kv_demo 6 = Ok 3 /\ kvstoreGetFairRandomDictIndex kv_demo (Some (fun i => i =? 1)) [0; 5; 2] None = Ok 3.
Proof.
  destruct (kvstore_index_correct kv_hash kv_demo kv_demo_maps kv_demo_rep) as (H1 & _ & _ & H4 & _). split.
  - destruct (H1 6) as [H _]; [split; [lia|vm_compute; discriminate]|]. rewrite H. vm_compute. reflexivity.
  - rewrite H4. vm_compute. reflexivity.
Defined.

(** A scan of the four dicts takes nine calls: one for the empty first dict and four for
    each of the two with keys. *)
Lemma kv_demo_fits : cursor_fits kv_demo.
Proof.
  intros i s Hs. assert (i < 4)%nat as Hi by (apply lookup_lt_Some in Hs; exact Hs).
  change (num_dicts_bits kv_demo) with 2.
  assert (forallb (fun o => match o with Some s => (size_exp (ht0 (s_dict s)) <=? 62) && (size_exp (ht1 (s_dict s)) <=? 62) | None => true end) (dicts kv_demo) = true) as Hall by (vm_compute; reflexivity).
  rewrite forallb_forall in Hall. apply list_elem_of_lookup_2, list_elem_of_In in Hs. specialize (Hall _ Hs). simpl in Hall. lia.
Qed.

Lemma kvstoreScan_complete_witness :
  exists es, kv_scan_calls (replicate 9 kv_demo) None 0 = Ok (0, es) /\ exists x, (9, x) ∈ es.
Proof.
  eexists. split; [vm_compute; reflexivity|].
  eapply (kvstoreScan_complete kv_hash (replicate 9 kv_demo) None 4 1 9).
  - discriminate.
  - lia.
  - discriminate.
  - intros kvs Hin. apply elem_of_replicate_inv in Hin as ->. split; [vm_compute; reflexivity|]. split; [exact kv_demo_fits|].
    exists kv_demo_maps. eexists. split; [exact kv_demo_rep|]. split; [vm_compute; reflexivity|]. exists 19. vm_compute. reflexivity.
  - vm_compute. reflexivity.
Defined.

(** The fallback of the random choice may return an empty dict although the comment of
    kvstoreGetFairRandomDictIndex promises a non-empty one: all keys are in the dicts 1
    and 3, dict 1 is skipped, dict 3 is not, and dict 0 is chosen. *)
Lemma fair_random_empty_dict :
  kvstoreGetFairRandomDictIndex kv_demo (Some (fun i => i =? 1)) [0; 1] (Some 0) = Ok 0 /\ kvstoreDictSize kv_demo 0 = Ok 0 /\
  kvstoreDictSize kv_demo 3 = Ok 1.
Proof. split_and!; vm_compute; reflexivity. Qed.
