(* ===== verification/KvstoreMove.v ===== *)
(** Moving a dict from one kvstore to another: kvstoreMoveDict of
    src/redis-stable/src/kvstore.c.  The keys, the tree of sizes, the buckets and the
    rehashing list of both sides end up right; the counter of non-empty dicts does not. *)

From stdpp Require Import gmap.
From S2P Require Import Prelude Machine Fwtree Dict DictInv DictOps DictIter DictLog Kvstore KvstoreInv KvstoreOps KvstoreSpec.

Section Move.
Context {K V : Type} `{Countable K}.
Context (hashFunction : K -> Z).
Notation kvstore := (kvstore K V).
Notation slot := (slot K V).
Notation kvs_rep := (kvs_rep hashFunction).
Notation dicts_rep := (dicts_rep hashFunction).
Implicit Types (kvs dst : kvstore) (s : slot) (m : gmap K V) (ms : list (gmap K V)).

(** The count of keys and the tree of sizes, without the counter of non-empty dicts. *)
Definition keys_rep kvs (szs : list Z) : Prop :=
  key_count kvs = zsum szs /\
  if num_dicts kvs =? 1 then dict_sizes kvs = None
  else exists ft, dict_sizes kvs = Some ft /\ size ft = num_dicts kvs /\ fw_repr ft szs.

(** What cumulativeKeyCountAdd adds to [non_empty_dicts], with [n] keys in the dict. *)
Definition non_empty_delta (n delta : Z) : Z := if (n =? 1) && (delta >? 0) then 1 else if n =? 0 then -1 else 0.

Lemma key_count_any kvs szs didx s m x delta :
  dict_rep hashFunction (s_dict s) m -> counts_rep kvs szs -> kvstoreGetDict kvs didx = Ok (Some s) ->
  szs !! Z.to_nat didx = Some x -> zlength szs = num_dicts kvs -> - 2 ^ 58 < delta < 2 ^ 58 -> 0 <= x + delta -> zsum szs + delta < 2 ^ 58 ->
  exists kvs' sizes, cumulativeKeyCountAdd kvs didx delta = Ok kvs' /\
    kvs' = set_counts kvs (s32 (non_empty_dicts kvs + non_empty_delta (Z.of_nat (base.size m)) delta)) (key_count kvs + delta) sizes /\
    keys_rep kvs' (<[Z.to_nat didx := x + delta]> szs).
Proof.
  intros Hd Hc Hg Hx Hlen Hdelta Hxd Hsm. apply get1_Ok in Hg as Hg'. destruct Hg' as [H0 _]. pose proof Hc as [Hpos Hkeys Hsmall Hne Htree]. pose proof (zsum_elem szs _ x Hpos Hx) as Hxr.
  unfold cumulativeKeyCountAdd, deref_dict. rewrite Hg, (rep_dictSize _ _ m Hd). rewrite u_id by (pow_const; lia).
  unfold keys_rep. rewrite (zsum_insert _ _ _ _ Hx). destruct (Z.eqb_spec (num_dicts kvs) 1) as [E|E].
  - do 2 eexists. split; [done|]. split; [done|]. cbn [key_count set_counts num_dicts dict_sizes]. rewrite E. cbn [Z.eqb Pos.eqb]. split; [lia|done].
  - destruct Htree as (ft & -> & Hfs & Hft). destruct (update_contract ft szs didx delta x Hft H0 Hx) as (ft' & -> & Hfs' & Hft').
    + unfold LLONG_MIN, LLONG_MAX. pow_const. lia.
    + lia.
    + rewrite psum_zsum by lia. pow_const. lia.
    + do 2 eexists. split; [done|]. split; [done|]. cbn [key_count set_counts num_dicts dict_sizes]. rewrite (proj2 (Z.eqb_neq _ _) E).
      split; [lia|]. exists ft'. split_and!; [done|congruence|done].
Qed.

(** The notifications of a dict that leaves, and of one that arrives. *)
Definition leave_callbacks kvs s : kvstore * option Z :=
  let kvs := kvstoreDictBucketChanged kvs (- dictBuckets (s_dict s)) in
  if dictIsRehashing (s_dict s) then kvstoreDictRehashingCompleted kvs (rehashing_node s) (fst (dictRehashingInfo (s_dict s)))
  else (kvs, rehashing_node s).

Lemma leave_spec kvs ms didx s m :
  dicts_rep kvs ms -> 0 <= didx -> dicts kvs !! Z.to_nat didx = Some (Some s) -> slot_rep hashFunction (Some s) m ->
  exists kvs', leave_callbacks kvs s = (kvs', None) /\ callback_frame kvs kvs' /\
    cb_state kvs' didx None None (zsum (slot_buckets <$> dicts kvs) - slot_buckets (Some s) + 0)
      (zsum (slot_from <$> dicts kvs) - slot_from (Some s)) (fun n i => i <> didx /\ node_at (dicts kvs) n i).
Proof.
  intros Hr H0 Hi Hs. pose proof Hs as ((Hd & _) & _ & Hnode). destruct (ok_events _ _ Hd) as [_ Hlog].
  pose proof (process_log _ kvs ms didx s m _ _ Hr H0 Hi Hs (reflexivity _) Hlog) as Hpl.
  unfold dict_callbacks in Hpl. rewrite drop_all in Hpl. cbn [foldl] in Hpl. destruct Hpl as [_ [Hn Hb Ho Hnd Hdup Hf]].
  set (B := zsum (slot_buckets <$> dicts kvs)) in *. assert (slot_buckets (Some s) = dictBuckets (s_dict s)) as Hsb by done.
  rewrite <- (dict_buckets _ _ Hd) in Hb. unfold leave_callbacks.
  set (kvs1 := kvstoreDictBucketChanged kvs (- dictBuckets (s_dict s))).
  assert (cb_state kvs1 didx (rehashing_node s) (rehash_state (s_dict s)) (B - slot_buckets (Some s) + 0)
    (zsum (slot_from <$> dicts kvs) - slot_from (Some s)) (fun n i => i <> didx /\ node_at (dicts kvs) n i)) as Hcb1.
  { split; try done. unfold kvs1. cbn [kvstoreDictBucketChanged bucket_count set_rehashing]. rewrite Hb, u64_add. f_equal. lia. }
  unfold rehash_state in *. destruct (dictIsRehashing (s_dict s)).
  - eexists. split; [done|]. split; [by repeat eexists|].
    exact (completed_state kvs1 didx (rehashing_node s) _ _ _ (DICTHT_SIZE (size_exp (ht0 (s_dict s)))) (fun n i Hx => proj1 Hx) Hcb1).
  - exists kvs1. assert (rehashing_node s = None) as E by (destruct (rehashing_node s); [by destruct (proj1 Hn)|done]).
    rewrite E in Hcb1 |- *. split; [done|]. split; [by repeat eexists|done].
Qed.
(** The array and the counters of the source, with the dict gone. *)
Lemma leave_rep kvs ms didx s m :
  dicts_rep kvs ms -> 0 <= didx -> dicts kvs !! Z.to_nat didx = Some (Some s) -> slot_rep hashFunction (Some s) m ->
  exists kvs', leave_callbacks kvs s = (kvs', None) /\ callback_frame kvs kvs' /\
    set1 didx None (dicts kvs') = Ok (<[Z.to_nat didx := None]> (dicts kvs)) /\
    dicts_rep (set_dicts kvs' (<[Z.to_nat didx := None]> (dicts kvs)) (allocated_dicts kvs - 1)) (<[Z.to_nat didx := ∅]> ms).
Proof.
  intros Hr H0 Hi Hs. destruct (leave_spec kvs ms didx s m Hr H0 Hi Hs) as (kvs' & Hl & Hfr & Hcb). exists kvs'. split; [done|]. split; [done|].
  apply (put_slot hashFunction kvs kvs' ms didx (Some s) ∅ None None 0 None); try done. simpl. lia.
Qed.

Definition arrive_callbacks kvs (didx : Z) s : kvstore * option Z :=
  let kvs := kvstoreDictBucketChanged kvs (dictBuckets (s_dict s)) in
  if dictIsRehashing (s_dict s) then kvstoreDictRehashingStarted kvs didx (fst (dictRehashingInfo (s_dict s))) else (kvs, None).

Lemma arrive_rep kvs ms didx s m :
  dicts_rep kvs ms -> 0 <= didx -> dicts kvs !! Z.to_nat didx = Some None -> slot_rep hashFunction (Some s) m ->
  exists kvs' node, arrive_callbacks kvs didx s = (kvs', node) /\ callback_frame kvs kvs' /\
    (dictIsRehashing (s_dict s) = false -> node = None) /\
    dicts_rep (set_dicts kvs' (<[Z.to_nat didx := Some (mkSlot (s_dict s) node)]> (dicts kvs)) (allocated_dicts kvs + 1)) (<[Z.to_nat didx := m]> ms).
Proof.
  intros Hr H0 Hi Hs. pose proof Hs as ((Hd & Hm) & Hz & _). pose proof (vacant_state hashFunction kvs ms didx Hr Hi) as Hcb.
  unfold arrive_callbacks. set (kvs1 := kvstoreDictBucketChanged kvs (dictBuckets (s_dict s))).
  assert (callback_frame kvs kvs1) as Hfr1 by by repeat eexists.
  assert (cb_state kvs1 didx None None (zsum (slot_buckets <$> dicts kvs) - slot_buckets (None : option slot) + dictBuckets (s_dict s))
    (zsum (slot_from <$> dicts kvs) - slot_from (None : option slot)) (fun n i => i <> didx /\ node_at (dicts kvs) n i)) as Hcb1.
  { destruct Hcb as [? Hb ? ? ? ?]. split; try done. unfold kvs1. cbn [kvstoreDictBucketChanged bucket_count set_rehashing]. rewrite Hb, u64_add. f_equal. lia. }
  assert (exists kvs' node, (if dictIsRehashing (s_dict s) then kvstoreDictRehashingStarted kvs1 didx (fst (dictRehashingInfo (s_dict s))) else (kvs1, None)) = (kvs', node) /\
    callback_frame kvs kvs' /\ (dictIsRehashing (s_dict s) = false -> node = None) /\
    cb_state kvs' didx node (rehash_state (s_dict s)) (zsum (slot_buckets <$> dicts kvs) - slot_buckets (None : option slot) + dictBuckets (s_dict s))
      (zsum (slot_from <$> dicts kvs) - slot_from (None : option slot)) (fun n i => i <> didx /\ node_at (dicts kvs) n i)) as (kvs' & node & -> & Hfr & Hnn & Hcb').
  { unfold rehash_state. destruct (dictIsRehashing (s_dict s)); [|by exists kvs1, None]. do 2 eexists. split; [done|]. split; [by repeat eexists|]. split; [done|].
    exact (started_state kvs1 didx _ _ _ (DICTHT_SIZE (size_exp (ht0 (s_dict s)))) (fun n i Hx => proj1 Hx) Hcb1). }
  exists kvs', node. split; [done|]. split; [done|]. split; [done|].
  refine (proj2 (put_slot hashFunction kvs kvs' ms didx None m node _ _ (Some (mkSlot (s_dict s) node)) _ Hr H0 Hi Hfr Hcb' _ _ _ _ _)); try done.
  - split; [done|]. split; [done|]. apply (cb_node _ _ _ _ _ _ _ Hcb').
  - simpl. lia.
Qed.

Lemma leave_set_dicts kvs ds alloc s :
  leave_callbacks (set_dicts kvs ds alloc) s = let '(kvs', node) := leave_callbacks kvs s in (set_dicts kvs' ds alloc, node).
Proof. unfold leave_callbacks. by destruct (dictIsRehashing (s_dict s)). Qed.

Lemma arrive_set_dicts kvs ds alloc didx s :
  arrive_callbacks (set_dicts kvs ds alloc) didx s = let '(kvs', node) := arrive_callbacks kvs didx s in (set_dicts kvs' ds alloc, node).
Proof. unfold arrive_callbacks. by destruct (dictIsRehashing (s_dict s)). Qed.

Lemma counts_dicts_rep kvs ms ne keys sizes : dicts_rep kvs ms -> dicts_rep (set_counts kvs ne keys sizes) ms.
Proof. intros []. by split. Qed.

Lemma set_dicts_counts kvs ds alloc szs : counts_rep kvs szs -> counts_rep (set_dicts kvs ds alloc) szs.
Proof. intros []. by split. Qed.

Lemma nonempty_small kvs ms : kvs_rep kvs ms -> 0 <= non_empty_dicts kvs <= 2 ^ 16.
Proof.
  intros [Hr Hc]. rewrite (cr_nonempty _ _ Hc). pose proof (zsum_indicator nonzero (map_sizes ms) nonzero_bit) as Hb.
  unfold map_sizes in Hb. rewrite !length_fmap in Hb. pose proof (alloc_range _ _ _ Hr). pose proof (dr_len _ _ _ Hr). unfold map_sizes. lia.
Qed.

(** The first half of kvstoreMoveDict. *)
Lemma move_out kvs ms didx s m :
  kvs_rep kvs ms -> kvstoreGetDict kvs didx = Ok (Some s) -> ms !! Z.to_nat didx = Some m -> m <> ∅ ->
  exists kvs1 kvs2 kvs3, cumulativeKeyCountAdd (set_dicts kvs (dicts kvs) (s32 (allocated_dicts kvs - 1))) didx (s64 (- dictSize (s_dict s))) = Ok kvs1 /\
    leave_callbacks kvs1 s = (kvs2, None) /\ set1 didx None (dicts kvs2) = Ok (<[Z.to_nat didx := None]> (dicts kvs)) /\
    kvs3 = set_dicts kvs2 (<[Z.to_nat didx := None]> (dicts kvs)) (allocated_dicts kvs2) /\
    dicts_rep kvs3 (<[Z.to_nat didx := ∅]> ms) /\ keys_rep kvs3 (<[Z.to_nat didx := 0]> (map_sizes ms)) /\
    non_empty_dicts kvs3 = non_empty_dicts kvs /\ num_dicts kvs3 = num_dicts kvs.
Proof.
  intros Hk Hg Hm Hne. pose proof Hk as [Hr Hc]. destruct (slot_lookup _ kvs ms didx _ Hr Hg) as (m0 & H0 & Hi & Hm0 & Hs).
  assert (m0 = m) as -> by congruence. pose proof Hs as (Hd & _). pose proof (rep_dictSize _ _ _ Hd) as Hsz.
  pose proof (dict_keys_bound _ kvs ms didx m Hk Hm) as Hb. pose proof (cr_small _ _ Hc). pose proof (cr_keys _ _ Hc) as Hkc.
  assert (0 < Z.of_nat (base.size m)) by (apply map_size_non_empty_iff in Hne; lia). pose proof (alloc_range _ _ _ Hr) as Hal.
  rewrite Hsz, (s_id 64), (s_id 32) by (unfold in_s; pow_const; lia). set (al := allocated_dicts kvs - 1).
  destruct (key_count_any (set_dicts kvs (dicts kvs) al) (map_sizes ms) didx s m (Z.of_nat (base.size m)) (- Z.of_nat (base.size m)) Hd (set_dicts_counts _ _ _ _ Hc))
    as (kvs1 & sizes & -> & -> & Hkeys); [done| | |pow_const; lia|lia|lia|].
  { unfold map_sizes. by rewrite list_lookup_fmap, Hm. }
  { unfold map_sizes. rewrite length_fmap. simpl. apply Hr. }
  set (kvsx := set_counts kvs (s32 (non_empty_dicts kvs + non_empty_delta (Z.of_nat (base.size m)) (- Z.of_nat (base.size m)))) (key_count kvs - Z.of_nat (base.size m)) sizes).
  destruct (leave_rep kvsx ms didx s m (counts_dicts_rep _ _ _ _ _ Hr) H0 Hi Hs) as (kvs2 & Hl & Hfr & Hset & Hr').
  destruct Hfr as (x1 & x2 & x3 & x4 & ->). set (kvs2 := set_rehashing kvsx x1 x2 x3 x4) in *.
  eexists _, (set_dicts kvs2 (dicts kvs) al), _. split; [done|]. split.
  { etrans; [apply (leave_set_dicts kvsx (dicts kvs) al s)|]. by rewrite Hl. }
  split; [exact Hset|]. split; [reflexivity|]. split; [exact Hr'|]. split.
  - rewrite Z.add_opp_diag_r in Hkeys. exact Hkeys.
  - split; [|done]. cbn [non_empty_dicts set_dicts set_rehashing set_counts kvsx]. unfold kvs2, kvsx, non_empty_delta. cbn [non_empty_dicts set_counts set_rehashing].
    pose proof (nonempty_small kvs ms Hk). rewrite Z.gtb_ltb, (proj2 (Z.ltb_ge _ _)), andb_false_r, (proj2 (Z.eqb_neq _ 0)), Z.add_0_r by lia.
    apply s_id; [lia|]. unfold in_s. pow_const. lia.
Qed.

(** The second half. *)
Lemma move_in dst ms didx s m :
  kvs_rep dst ms -> kvstoreGetDict dst didx = Ok None -> slot_rep hashFunction (Some s) m -> m <> ∅ -> key_count dst + Z.of_nat (base.size m) < 2 ^ 58 ->
  exists dst1 dst2 node, let ds := <[Z.to_nat didx := Some (mkSlot (s_dict s) None)]> (dicts dst) in
    set1 didx (Some (mkSlot (s_dict s) None)) (dicts dst) = Ok ds /\
    cumulativeKeyCountAdd (set_dicts dst ds (s32 (allocated_dicts dst + 1))) didx (s64 (dictSize (s_dict s))) = Ok dst1 /\
    arrive_callbacks dst1 didx s = (dst2, node) /\ (dictIsRehashing (s_dict s) = false -> node = None /\ dicts dst2 = ds) /\
    set1 didx (Some (mkSlot (s_dict s) node)) (dicts dst2) = Ok (<[Z.to_nat didx := Some (mkSlot (s_dict s) node)]> (dicts dst)) /\
    let dst3 := set_dicts dst2 (<[Z.to_nat didx := Some (mkSlot (s_dict s) node)]> (dicts dst)) (allocated_dicts dst2) in
    dicts_rep dst3 (<[Z.to_nat didx := m]> ms) /\ keys_rep dst3 (<[Z.to_nat didx := Z.of_nat (base.size m)]> (map_sizes ms)) /\
    non_empty_dicts dst3 = non_empty_dicts dst + (if Z.of_nat (base.size m) =? 1 then 1 else 0).
Proof.
  intros Hk Hg Hs Hne Hsm. pose proof Hk as [Hr Hc]. destruct (slot_lookup _ dst ms didx _ Hr Hg) as (m0 & H0 & Hi & Hm0 & ->).
  pose proof Hs as (Hd & _). pose proof (rep_dictSize _ _ _ Hd) as Hsz. pose proof (lookup_lt_Some _ _ _ Hi) as Hlt.
  pose proof (cr_small _ _ Hc). pose proof (cr_keys _ _ Hc) as Hkc. pose proof (alloc_range _ _ _ Hr) as Hal.
  assert (0 < Z.of_nat (base.size m)) by (apply map_size_non_empty_iff in Hne; lia).
  assert (Z.of_nat (base.size m) < 2 ^ 58) by (pose proof (dict_keys_bound _ dst ms didx _ Hk Hm0); lia).
  rewrite Hsz, (s_id 64), (s_id 32) by (unfold in_s; pow_const; lia). set (al := allocated_dicts dst + 1).
  set (ds := <[Z.to_nat didx := Some (mkSlot (s_dict s) None)]> (dicts dst)).
  destruct (key_count_any (set_dicts dst ds al) (map_sizes ms) didx (mkSlot (s_dict s) None) m 0 (Z.of_nat (base.size m)) Hd (set_dicts_counts _ _ _ _ Hc))
    as (dst1 & sizes & Hadd & -> & Hkeys); [| | |pow_const; lia|lia|lia|].
  { apply get1_Ok. split; [done|]. cbn [dicts set_dicts]. by apply list_lookup_insert_eq. }
  { unfold map_sizes. rewrite list_lookup_fmap, Hm0. cbn. by rewrite map_size_empty. }
  { unfold map_sizes. rewrite length_fmap. simpl. apply Hr. }
  set (dstx := set_counts dst (s32 (non_empty_dicts dst + non_empty_delta (Z.of_nat (base.size m)) (Z.of_nat (base.size m)))) (key_count dst + Z.of_nat (base.size m)) sizes).
  destruct (arrive_rep dstx ms didx s m (counts_dicts_rep _ _ _ _ _ Hr) H0 Hi Hs) as (dst2 & node & Ha & Hfr & Hnode & Hr').
  destruct Hfr as (x1 & x2 & x3 & x4 & ->). set (dst2 := set_rehashing dstx x1 x2 x3 x4) in *.
  eexists _, (set_dicts dst2 ds al), node. split; [apply set1_insert; lia|]. split; [exact Hadd|]. split.
  { etrans; [apply (arrive_set_dicts dstx ds al didx s)|]. by rewrite Ha. }
  split; [intros E; split; [by apply Hnode|done]|]. split.
  { cbn [dicts set_dicts]. unfold ds. rewrite set1_insert by (rewrite length_insert; lia). by rewrite list_insert_insert_eq. }
  split; [exact Hr'|]. split; [exact Hkeys|].
  unfold dst2, dstx, non_empty_delta. cbn [non_empty_dicts set_dicts set_rehashing set_counts].
  pose proof (nonempty_small dst ms Hk). rewrite Z.gtb_ltb, (proj2 (Z.ltb_lt _ _)), andb_true_r, (proj2 (Z.eqb_neq _ 0)) by lia.
  apply s_id; [lia|]. unfold in_s. pow_const. destruct (_ =? 1); lia.
Qed.

(** kvstoreMoveDict moves the keys of one dict to another kvstore: on both sides the
    array of dicts, the number of keys, the tree of sizes, the buckets, the rehashing list
    and its overhead are as they should be.  The counter of non-empty dicts is not: the
    source still counts the dict that it lost, and the destination counts the dict that it
    got only when that has exactly one key, because cumulativeKeyCountAdd looks at the size
    of the dict after an insertion or deletion of one key. *)
Theorem kvstoreMoveDict_effect kvs dst ms ms' didx s m :
  kvs_rep kvs ms -> kvs_rep dst ms' -> num_dicts kvs = num_dicts dst -> 0 <= didx -> kvstoreGetDict dst didx = Ok None ->
  kvstoreGetDict kvs didx = Ok (Some s) -> ms !! Z.to_nat didx = Some m -> m <> ∅ -> key_count dst + Z.of_nat (base.size m) < 2 ^ 58 ->
  exists kvs1 dst1, kvstoreMoveDict kvs dst didx = Ok (kvs1, dst1) /\
    dicts_rep kvs1 (<[Z.to_nat didx := ∅]> ms) /\ keys_rep kvs1 (<[Z.to_nat didx := 0]> (map_sizes ms)) /\
    dicts_rep dst1 (<[Z.to_nat didx := m]> ms') /\ keys_rep dst1 (<[Z.to_nat didx := Z.of_nat (base.size m)]> (map_sizes ms')) /\
    non_empty_dicts kvs1 = non_empty_dicts kvs /\
    non_empty_dicts dst1 = non_empty_dicts dst + (if Z.of_nat (base.size m) =? 1 then 1 else 0).
Proof.
  intros Hk Hk' Hn H0 Hgd Hg Hm Hne Hsm. pose proof (rep_range _ kvs ms didx m Hk H0 Hm) as Hrange.
  destruct (rep_slot _ kvs ms didx m Hk H0 Hm) as (o & Ho & Hs). assert (o = Some s) as -> by congruence.
  unfold kvstoreMoveDict. rewrite Z.gtb_ltb, (proj2 (Z.ltb_lt _ _)), (proj2 (Z.eqb_eq _ _) Hn), Hgd, bool_decide_eq_true_2, Hg by (done || lia).
  destruct (move_out kvs ms didx s m Hk Hg Hm Hne) as (kvs1 & kvs2 & kvs3 & -> & Hl & Hset & E3 & Hr3 & Hkeys3 & Hne3 & Hn3).
  unfold leave_callbacks in Hl. rewrite Hl, Hset. cbv beta zeta. rewrite <- E3.
  destruct (move_in dst ms' didx s m Hk' Hgd Hs Hne Hsm) as (dst1 & dst2 & node & Hs1 & Hadd & Ha & Hidle & Hs2 & Hr2 & Hkeys2 & Hne2).
  rewrite Hs1, Hadd. unfold arrive_callbacks in Ha.
  assert (exists kvs4, (if negb (has_flag kvs3 (Z.lor KVSTORE_ALLOCATE_DICTS_ON_DEMAND KVSTORE_FREE_EMPTY_DICTS)) then createDictIfNeeded kvs3 didx else Ok kvs3) = Ok kvs4 /\
    dicts_rep kvs4 (<[Z.to_nat didx := ∅]> ms) /\ keys_rep kvs4 (<[Z.to_nat didx := 0]> (map_sizes ms)) /\ non_empty_dicts kvs4 = non_empty_dicts kvs)
    as (kvs4 & -> & Hr4 & Hkeys4 & Hne4).
  { destruct (negb _); [|by exists kvs3]. destruct (create_dict_contract _ kvs3 _ didx Hr3) as (kvs4 & s4 & Hc & Hr4 & _); [lia|].
    exists kvs4. split; [done|]. split; [done|]. apply create_frame in Hc as (ds & al & ->). done. }
  destruct (dictIsRehashing (s_dict s)).
  - rewrite Ha, Hs2. by do 2 eexists.
  - injection Ha as <- <-. destruct (Hidle eq_refl) as [_ Hds]. do 2 eexists. split; [done|]. split_and!; try done.
    rewrite <- Hds in Hr2. by destruct (kvstoreDictBucketChanged dst1 (dictBuckets (s_dict s))).
Qed.
End Move.

(** * Example *)

Definition kv_target : kvstore Z Z := match kvstoreCreate 2 KVSTORE_ALLOCATE_DICTS_ON_DEMAND with Ok kvs => kvs | Fault _ => kv_demo end.

Lemma kv_target_rep : kvs_rep kv_hash kv_target (replicate 4 ∅).
Proof.
  destruct (kvstoreCreate_contract (K := Z) (V := Z) kv_hash 2 KVSTORE_ALLOCATE_DICTS_ON_DEMAND ltac:(lia)) as (kvs & Hc & Hk & _).
  unfold kv_target. rewrite Hc. exact Hk.
Qed.

(** The dict with five keys moves away: both kvstores then count wrongly. *)
Lemma kvstoreMoveDict_effect_witness :
  exists kvs1 dst1, kvstoreMoveDict kv_demo kv_target 1 = Ok (kvs1, dst1) /\ key_count dst1 = 5 /\
    non_empty_dicts kvs1 = 2 /\ non_empty_dicts dst1 = 0.
Proof.
  assert (exists s, kvstoreGetDict kv_demo 1 = Ok (Some s)) as [s Hs] by (eexists; vm_compute; reflexivity).
  assert (exists m, kv_demo_maps !! Z.to_nat 1 = Some m /\ Z.of_nat (base.size m) = 5) as (m & Hm & H5) by (eexists; split; vm_compute; reflexivity).
  destruct (kvstoreMoveDict_effect kv_hash kv_demo kv_target kv_demo_maps (replicate 4 ∅) 1 s m) as (kvs1 & dst1 & H1 & _ & _ & _ & [H2 _] & H3 & H4).
  - exact kv_demo_rep.
  - exact kv_target_rep.
  - vm_compute. reflexivity.
  - lia.
  - vm_compute. reflexivity.
  - exact Hs.
  - exact Hm.
  - intros ->. discriminate H5.
  - rewrite H5. vm_compute. reflexivity.
  - exists kvs1, dst1. split; [exact H1|]. rewrite H5 in *. split; [rewrite H2; vm_compute; reflexivity|].
    split; [rewrite H3; vm_compute; reflexivity|rewrite H4; vm_compute; reflexivity].
Defined.
