(* ===== verification/KvstoreIter.v ===== *)
(** Iterating over the keyspace: kvstoreIteratorInit, kvstoreIteratorNext and
    kvstoreIteratorRelease of src/redis-stable/src/kvstore.c.

    The iterator walks the non-empty dicts with a safe iterator on each.  The client may
    delete keys that have been returned; no key is returned twice or missed. *)

From stdpp Require Import gmap.
From S2P Require Import Prelude Machine Fwtree Dict DictInv DictOps DictIter DictLog DictSafe Kvstore KvstoreInv KvstoreOps KvstoreSpec.

(** * The model *)

(** [ki_dict] is the dict that the dict iterator [ki_di] is attached to. *)
Record kvstoreIterator (K : Type) := mkKvsIter {
  ki_didx : Z;
  ki_next_didx : Z;
  ki_dict : option Z;
  ki_di : dictIterator K
}.
Arguments mkKvsIter {K} _ _ _ _.
Arguments ki_didx {K} _.
Arguments ki_next_didx {K} _.
Arguments ki_dict {K} _.
Arguments ki_di {K} _.

Section Iterator.
Context {K V : Type} `{Countable K}.
Context (table_address : list (list (K * V)) -> Z).
Notation kvstore := (kvstore K V).
Implicit Types (kvs : kvstore) (it : kvstoreIterator K).

Definition kvstoreIteratorInit kvs : res (kvstoreIterator K) :=
  let! first := kvstoreGetFirstNonEmptyDictIndex kvs in
  Ok (mkKvsIter (-1) first None dictInitSafeIterator).

(** dictResetIterator(&kvs_it->di): the dict is not touched if the iteration of it has not
    started. *)
Definition reset_di kvs it : res kvstore :=
  if (it_index (ki_di it) =? -1) && (it_table (ki_di it) =? 0) then Ok kvs
  else
    match ki_dict it with
    | None => Fault OutOfBounds
    | Some didx =>
        let! s := deref_dict kvs didx in
        let! d := dictResetIterator table_address (s_dict s) (ki_di it) in
        store_dict kvs didx s d
    end.

Definition kvstoreIteratorRelease kvs it : res kvstore :=
  let! kvs := reset_di kvs it in
  freeDictIfNeeded kvs (ki_didx it).

(** The index of the next dict, [None] for NULL. *)
Definition kvstoreIteratorNextDict kvs it : res (option Z * kvstore * kvstoreIterator K) :=
  if ki_next_didx it =? -1 then Ok (None, kvs, it)
  else
    let! kvs :=
      (if negb (ki_didx it =? -1) then
         let! s := kvstoreGetDict kvs (ki_didx it) in
         match s with
         | Some _ =>
             let! kvs := reset_di kvs it in
             freeDictIfNeeded kvs (ki_didx it)
         | None => Ok kvs
         end
       else Ok kvs) in
    let didx := ki_next_didx it in
    let! next := kvstoreGetNextNonEmptyDictIndex kvs didx in
    let! s := kvstoreGetDict kvs didx in
    Ok ((fun _ => didx) <$> s, kvs, mkKvsIter didx next (ki_dict it) (ki_di it)).

Definition kvstoreIteratorGetCurrentDictIndex kvs it : res Z :=
  assert! (ki_didx it >=? 0) && (ki_didx it <? num_dicts kvs) in Ok (ki_didx it).

(** dictNext(&kvs_it->di) on the dict at [didx] *)
Definition next_di kvs it (didx : Z) : res (option (K * V) * kvstore * kvstoreIterator K) :=
  let! s := deref_dict kvs didx in
  let! '(de, d, di) := dictNext table_address (s_dict s) (ki_di it) in
  let! kvs := store_dict kvs didx s d in
  Ok (de, kvs, mkKvsIter (ki_didx it) (ki_next_didx it) (ki_dict it) di).

Definition kvstoreIteratorNext kvs it : res (option (K * V) * kvstore * kvstoreIterator K) :=
  let! '(de, kvs, it) :=
    (match ki_dict it with Some didx => next_di kvs it didx | None => Ok (None, kvs, it) end) in
  match de with
  | Some _ => Ok (de, kvs, it)
  | None =>
      let! '(d, kvs, it) := kvstoreIteratorNextDict kvs it in
      match d with
      | None => Ok (None, kvs, it)
      | Some didx => next_di kvs (mkKvsIter (ki_didx it) (ki_next_didx it) (Some didx) dictInitSafeIterator) didx
      end
  end.

End Iterator.

(** * Frames *)

Section Frames.
Context {K V : Type} `{Countable K}.
Notation kvstore := (kvstore K V).
Implicit Types (kvs : kvstore).

(** Only the dict at [i] is changed. *)
Definition only_at (i : Z) kvs kvs' : Prop :=
  num_dicts kvs' = num_dicts kvs /\
  forall j, j <> i -> kvstoreGetDict kvs' j = kvstoreGetDict kvs j.

#[global] Instance only_at_preorder i : PreOrder (only_at i).
Proof.
  split; [done|]. intros k1 k2 k3 [H1 H2] [H3 H4]. split; [congruence|].
  intros j Hj. by rewrite H4, H2.
Qed.

Lemma callbacks_dicts evs : forall didx kvs node,
  dicts (foldl (dict_callback didx) (kvs, node) evs).1 = dicts kvs /\
  num_dicts (foldl (dict_callback didx) (kvs, node) evs).1 = num_dicts kvs.
Proof.
  induction evs as [|e evs IH]; intros didx kvs node; [done|]. cbn [foldl].
  destruct (dict_callback didx (kvs, node) e) as [kvs1 node1] eqn:E.
  destruct (IH didx kvs1 node1) as [-> ->]. by destruct e; injection E as <- <-.
Qed.

Lemma set1_other {A} (l : list A) i x l' j : set1 i x l = Ok l' -> j <> i -> get1 j l' = get1 j l.
Proof.
  unfold set1, store, get1. intros Hs Hj. destruct ((0 <=? i) && _) eqn:E; [|done]. injection Hs as <-.
  apply andb_true_iff in E as [E1 E2]. simpl length in *.
  destruct (Z.ltb_spec j 0); [done|].
  replace (take (Z.to_nat i) l ++ x :: drop (Z.to_nat i + 1) l) with (<[Z.to_nat i := x]> l).
  - by rewrite list_lookup_insert_ne by lia.
  - rewrite insert_take_drop by lia. by replace (Z.to_nat i + 1)%nat with (S (Z.to_nat i)) by lia.
Qed.

Lemma store_only kvs i s d kvs' : store_dict kvs i s d = Ok kvs' -> only_at i kvs kvs'.
Proof.
  unfold store_dict, dict_callbacks. pose proof (callbacks_dicts (drop (length (events (s_dict s))) (events d)) i kvs (rehashing_node s)) as [Hd Hn].
  destruct (foldl _ _ _) as [kvs1 node]. simpl in Hd, Hn. destruct (set1 _ _ _) as [ds|] eqn:E; [|done].
  intros [= <-]. split; [done|]. intros j Hj. unfold kvstoreGetDict. simpl. rewrite (set1_other _ _ _ _ j E) by done. by rewrite Hd.
Qed.

Lemma store_get kvs i s d kvs' : store_dict kvs i s d = Ok kvs' -> exists node, kvstoreGetDict kvs' i = Ok (Some (mkSlot d node)).
Proof.
  unfold store_dict. destruct (dict_callbacks _ _ _ _) as [kvs1 node]. destruct (set1 _ _ _) as [ds|] eqn:E; [|done].
  intros [= <-]. exists node. unfold kvstoreGetDict. cbn [dicts set_dicts]. revert E. unfold set1, store.
  destruct (_ && _) eqn:Eb; [|done]. intros [= <-]. apply andb_true_iff in Eb as [Eb ?]. apply Z.leb_le in Eb.
  apply get1_Ok. split; [lia|]. simpl length in *. rewrite lookup_app_r; rewrite length_take; [|lia].
  by rewrite Nat.min_l, Nat.sub_diag by lia.
Qed.

Lemma free_only kvs i kvs' : freeDictIfNeeded kvs i = Ok kvs' -> only_at i kvs kvs'.
Proof.
  unfold freeDictIfNeeded, dict_callbacks. destruct (negb (has_flag _ _)); [intros [= <-]; done|].
  destruct (kvstoreGetDict kvs i) as [[s|]|]; [|intros [= <-]; done|done].
  destruct (kvstoreDictSize kvs i) as [sz|]; [|done]. destruct (kvstoreDictIsRehashingPaused kvs i) as [b|]; [|done].
  destruct (negb _ || _); [intros [= <-]; done|].
  pose proof (callbacks_dicts (drop (length (events (s_dict s))) (dictRelease (s_dict s))) i kvs (rehashing_node s)) as [Hd Hn].
  destruct (foldl _ _ _) as [kvs1 node]. simpl in Hd, Hn. destruct (set1 _ _ _) as [ds|] eqn:E; [|done].
  intros [= <-]. split; [done|]. intros j Hj. unfold kvstoreGetDict. simpl. rewrite (set1_other _ _ _ _ j E) by done. by rewrite Hd.
Qed.

Lemma counts_only kvs i delta kvs' :
  cumulativeKeyCountAdd kvs i delta = Ok kvs' -> dicts kvs' = dicts kvs /\ num_dicts kvs' = num_dicts kvs.
Proof.
  unfold cumulativeKeyCountAdd. destruct (deref_dict kvs i); [|done].
  destruct (num_dicts kvs =? 1); [intros [= <-]; done|]. destruct (fwTreeUpdate _ _ _); [|done]. by intros [= <-].
Qed.

(** A dict that is freed was there; otherwise nothing happens. *)
Lemma free_get kvs i kvs' s :
  freeDictIfNeeded kvs i = Ok kvs' -> kvstoreGetDict kvs' i = Ok (Some s) -> kvs' = kvs.
Proof.
  unfold freeDictIfNeeded, dict_callbacks. destruct (negb (has_flag _ _)); [intros [= <-]; done|].
  destruct (kvstoreGetDict kvs i) as [[s0|]|] eqn:Hg; [|intros [= <-]; done|done].
  destruct (kvstoreDictSize kvs i) as [sz|]; [|done]. destruct (kvstoreDictIsRehashingPaused kvs i) as [b|]; [|done].
  destruct (negb _ || _); [intros [= <-]; done|].
  destruct (foldl _ _ _) as [kvs1 node]. destruct (set1 _ _ _) as [ds|] eqn:E; [|done].
  intros [= <-]. unfold kvstoreGetDict. simpl. intros Hx. exfalso. revert E Hx. unfold set1, store.
  destruct (_ && _) eqn:Eb; [|done]. intros [= <-]. apply andb_true_iff in Eb as [Eb ?].
  intros [_ Hx]%get1_Ok. rewrite lookup_app_r in Hx; rewrite length_take in *; simpl length in *; [|lia].
  rewrite Nat.min_l, Nat.sub_diag in Hx by lia. done.
Qed.

End Frames.

(** * The state of an iteration *)

Section Iteration.
Context {K V : Type} `{Countable K}.
Context (hashFunction : K -> Z) (keyCompare : K -> K -> bool).
Hypothesis Hcmp : forall a b, keyCompare a b = true <-> a = b.
Context (resizeAllowed : option (Z -> Z * Z -> bool)) (dict_can_resize : dictResizeEnable).
Context (table_address : list (list (K * V)) -> Z).
Notation kvstore := (kvstore K V).
Notation kvs_rep := (kvs_rep hashFunction).
Implicit Types (kvs : kvstore) (it : kvstoreIterator K) (ms : list (gmap K V)) (p : Z -> Z).

(** [p i] is how often rehashing of dict [i] is paused, not counting the iterator, which
    is at work on dict [cur]. *)
Definition pauses kvs p (cur : Z) : Prop :=
  (forall i, 0 <= p i < UINT32_MAX) /\
  forall i s, kvstoreGetDict kvs i = Ok (Some s) -> pauserehash (s_dict s) = p i + (if i =? cur then 1 else 0).

(** The dict that follows [didx]. *)
Definition next_ok ms (didx next : Z) : Prop :=
  (next = -1 /\ forall j m, didx < j -> ms !! Z.to_nat j = Some m -> m = ∅) \/
  (didx < next < zlength ms /\ (exists m, ms !! Z.to_nat next = Some m /\ m <> ∅) /\
   forall j m, didx < j < next -> ms !! Z.to_nat j = Some m -> m = ∅).

(** The iterator is at work on the dict of [s]. *)
Record attached kvs ms p it (s : slot K V) : Prop := {
  at_rep : kvs_rep kvs ms;
  at_range : 0 <= ki_didx it < num_dicts kvs;
  at_dict : ki_dict it = Some (ki_didx it);
  at_slot : kvstoreGetDict kvs (ki_didx it) = Ok (Some s);
  at_safe : it_safe (ki_di it) = true;
  at_started : it_index (ki_di it) <> -1 \/ it_table (ki_di it) <> 0;
  at_pauses : pauses kvs p (ki_didx it);
  at_next : next_ok ms (ki_didx it) (ki_next_didx it)
}.

Lemma reset_release kvs ms p it s :
  attached kvs ms p it s ->
  exists kvs' kvs'', reset_di table_address kvs it = Ok kvs' /\ freeDictIfNeeded kvs' (ki_didx it) = Ok kvs'' /\
    kvs_rep kvs'' ms /\ pauses kvs'' p (-1) /\ only_at (ki_didx it) kvs kvs''.
Proof.
  intros [Hk Hr Hd Hg Hsafe Hst [Hp1 Hp2] Hn]. unfold reset_di.
  assert ((it_index (ki_di it) =? -1) && (it_table (ki_di it) =? 0) = false) as Hb by lia.
  rewrite Hb, Hd. unfold deref_dict. rewrite Hg. unfold dictResetIterator. rewrite Hb, Hsafe. cbn [negb].
  assert (exists m, ms !! Z.to_nat (ki_didx it) = Some m) as [m Hm].
  { apply lookup_lt_is_Some_2. pose proof (dr_len _ _ _ (proj1 Hk)). lia. }
  destruct (rep_slot hashFunction kvs ms _ m Hk (proj1 Hr) Hm) as (o & Hg' & Hs).
  assert (o = Some s) as -> by congruence. destruct Hs as (Hrep & Hz & Hnode).
  set (d := dictResumeRehashing (s_dict s)).
  destruct (store_keep hashFunction kvs ms (ki_didx it) s m d Hk Hg Hm) as (kvs' & node & Hst' & Hk' & Hsame & Hg1);
    [by apply pause_rep|done|by apply logged_same|].
  rewrite Hst'. pose proof (store_only _ _ _ _ _ Hst') as Ho1.
  destruct (free_kv_contract hashFunction kvs' ms (ki_didx it) Hk') as (kvs'' & Hf & Hk'' & _);
    [destruct Ho1 as [-> _]; done|].
  pose proof (free_only _ _ _ Hf) as Ho2. exists kvs', kvs''. split_and!; [done..| |by etrans].
  split; [done|]. intros i s' Hi. destruct (Z.eqb_spec i (-1)) as [->|_].
  { apply get1_Ok in Hi as [Hi _]. lia. }
  destruct (decide (i = ki_didx it)) as [->|Hne].
  - pose proof (free_get _ _ _ _ Hf Hi) as ->. rewrite Hg1 in Hi. injection Hi as <-. cbn [s_dict].
    unfold d, dictResumeRehashing. cbn [pauserehash set_pauserehash]. rewrite (Hp2 _ _ Hg), Z.eqb_refl.
    specialize (Hp1 (ki_didx it)). unfold UINT32_MAX in Hp1. rewrite u_id by (pow_const; lia). lia.
  - destruct Ho1 as [_ Ho1], Ho2 as [_ Ho2]. rewrite Ho2, Ho1 in Hi by done. rewrite (Hp2 _ _ Hi).
    by rewrite (proj2 (Z.eqb_neq i (ki_didx it))).
Qed.

(** What is to come: the rest of the current dict and the dicts after it. *)
Definition dict_entries kvs (i : nat) : list (K * V) :=
  match dicts kvs !! i with Some (Some s) => entries (s_dict s) | _ => [] end.
Definition tagged (i : Z) (l : list (K * V)) : list (Z * (K * V)) := (fun e => (i, e)) <$> l.
Definition later kvs (i : nat) : list (Z * (K * V)) :=
  concat ((fun j => tagged (Z.of_nat j) (dict_entries kvs j)) <$> seq i (length (dicts kvs) - i)).

Definition live kvs ms p it (todo : list (Z * (K * V))) : Prop :=
  exists s rest, attached kvs ms p it s /\ it_entry (ki_di it) <> None /\
    iter_todo (s_dict s) (ki_di it) rest /\
    todo = tagged (ki_didx it) rest ++ later kvs (S (Z.to_nat (ki_didx it))).

(** Before the first call. *)
Definition initial kvs ms p it (todo : list (Z * (K * V))) : Prop :=
  kvs_rep kvs ms /\ pauses kvs p (-1) /\ ki_didx it = -1 /\ ki_dict it = None /\ ki_di it = dictInitSafeIterator /\
  0 <= ki_next_didx it < num_dicts kvs /\
  (forall j m, 0 <= j < ki_next_didx it -> ms !! Z.to_nat j = Some m -> m = ∅) /\
  (forall m, ms !! Z.to_nat (ki_next_didx it) = Some m -> m = ∅ -> Forall (.= ∅) ms) /\
  todo = later kvs 0.

(** The iteration is over and the iterator can be released. *)
Definition over kvs ms p it : Prop :=
  exists kvs', kvstoreIteratorRelease table_address kvs it = Ok kvs' /\ kvs_rep kvs' ms /\ pauses kvs' p (-1).

(** ** Dicts to come *)

Lemma slot_entries kvs ms i m :
  kvs_rep kvs ms -> ms !! i = Some m -> forall e, e ∈ dict_entries kvs i <-> m !! e.1 = Some e.2.
Proof.
  intros Hk Hm [k v]. destruct (rep_slot hashFunction kvs ms (Z.of_nat i) m Hk) as (o & Hg & Hs);
    [lia|by rewrite Nat2Z.id|].
  apply get1_Ok in Hg as [_ Hg]. rewrite Nat2Z.id in Hg. unfold dict_entries. rewrite Hg. destruct o as [s|].
  - destruct Hs as (Hr & _). by rewrite (rep_lookup hashFunction (s_dict s) m).
  - simpl in Hs. rewrite Hs. rewrite lookup_empty. split; [intros []%elem_of_nil|done].
Qed.

Lemma empty_entries kvs ms i m : kvs_rep kvs ms -> ms !! i = Some m -> m = ∅ <-> dict_entries kvs i = [].
Proof.
  intros Hk Hm. pose proof (slot_entries kvs ms i m Hk Hm) as He. split.
  - intros ->. destruct (dict_entries kvs i) as [|e l]; [done|]. assert (e ∈ e :: l) as Hin by left.
    apply He in Hin. by rewrite lookup_empty in Hin.
  - intros E. rewrite E in He. apply map_empty. intros k. destruct (m !! k) as [v|] eqn:Ek; [|done].
    specialize (He (k, v)). apply He, elem_of_nil in Ek. done.
Qed.

Lemma later_step kvs i : (i < length (dicts kvs))%nat ->
  later kvs i = tagged (Z.of_nat i) (dict_entries kvs i) ++ later kvs (S i).
Proof.
  intros Hi. unfold later. replace (length (dicts kvs) - i)%nat with (S (length (dicts kvs) - S i)) by lia. done.
Qed.

Lemma later_skip kvs ms i j :
  kvs_rep kvs ms -> (i <= j <= length (dicts kvs))%nat ->
  (forall x m, (i <= x < j)%nat -> ms !! x = Some m -> m = ∅) -> later kvs i = later kvs j.
Proof.
  intros Hk. remember (j - i)%nat as n eqn:E. revert i E. induction n as [|n IH]; intros i E Hij He.
  { by replace i with j by lia. }
  rewrite later_step by lia. destruct (lookup_lt_is_Some_2 ms i) as [m Hm].
  { pose proof (list.Forall2_length _ _ _ (dr_slots _ _ _ (proj1 Hk))). lia. }
  rewrite (proj1 (empty_entries kvs ms i m Hk Hm)) by (apply (He i m); [lia|done]).
  apply IH; [lia|lia|]. intros x m' Hx. apply He. lia.
Qed.

Lemma later_frame kvs kvs' i j :
  only_at i kvs kvs' -> length (dicts kvs') = length (dicts kvs) -> i < Z.of_nat j -> later kvs' j = later kvs j.
Proof.
  intros [_ Ho] Hl Hi. unfold later. rewrite Hl. f_equal. apply list_fmap_ext. intros x y [Hx _]%lookup_seq. subst y.
  f_equal. unfold dict_entries. specialize (Ho (Z.of_nat (j + x)) ltac:(lia)). unfold kvstoreGetDict, get1 in Ho.
  rewrite Nat2Z.id in Ho. destruct (Z.ltb_spec (Z.of_nat (j + x)) 0); [lia|].
  destruct (dicts kvs' !! (j + x)%nat), (dicts kvs !! (j + x)%nat); by simplify_eq/=.
Qed.
(** ** One call *)

Lemma iter_dict_rep (d : dict K V) di m : dict_rep hashFunction d m -> dict_rep hashFunction (iter_dict d di) m.
Proof. unfold iter_dict. destruct (_ && _); [apply pause_rep|done]. Qed.

Lemma next_di_spec kvs ms it didx s rest :
  kvs_rep kvs ms -> kvstoreGetDict kvs didx = Ok (Some s) -> iter_todo (s_dict s) (ki_di it) rest ->
  exists kvs' node di, next_di table_address kvs it didx =
      Ok (head rest, kvs', mkKvsIter (ki_didx it) (ki_next_didx it) (ki_dict it) di) /\
    kvs_rep kvs' ms /\ only_at didx kvs kvs' /\
    kvstoreGetDict kvs' didx = Ok (Some (mkSlot (iter_dict (s_dict s) (ki_di it)) node)) /\
    it_safe di = it_safe (ki_di it) /\ (it_index di <> -1 \/ it_table di <> 0) /\
    (rest <> [] -> it_entry di <> None /\ iter_todo (iter_dict (s_dict s) (ki_di it)) di (tail rest)).
Proof.
  intros Hk Hg Ht. destruct (slot_lookup hashFunction kvs ms didx _ (proj1 Hk) Hg) as (m & H0 & _ & Hm & (Hr & Hz & _)).
  destruct (dictNext_spec hashFunction table_address (s_dict s) (ki_di it) rest (proj1 Hr) Ht)
    as (di & Hnext & Hsafe & _ & Hst & Htodo).
  unfold next_di, deref_dict. rewrite Hg, Hnext.
  destruct (store_keep hashFunction kvs ms didx s m (iter_dict (s_dict s) (ki_di it)) Hk Hg Hm)
    as (kvs' & node & Hs & Hk' & _ & Hg').
  - by apply iter_dict_rep.
  - unfold iter_dict. by destruct (_ && _).
  - apply logged_same. unfold iter_dict. by destruct (_ && _).
  - rewrite Hs. exists kvs', node, di. split_and!; [done|done|by eapply store_only|done|done|done|].
    intros Hne. specialize (Htodo Hne). split.
    + destruct Htodo as [(_ & Hi & Hx & _)|[(? & ? & ? & _)|(? & _)]]; [|done..]. destruct Hst; congruence.
    + by apply iter_dict_todo.
Qed.

Lemma rep_lengths kvs ms : kvs_rep kvs ms -> zlength ms = num_dicts kvs /\ length (dicts kvs) = length ms.
Proof.
  intros Hk. pose proof (dr_len _ _ _ (proj1 Hk)). pose proof (list.Forall2_length _ _ _ (dr_slots _ _ _ (proj1 Hk))). lia.
Qed.

(** A dict is entered with a new safe iterator. *)
Lemma enter_dict kvs ms p r :
  kvs_rep kvs ms -> pauses kvs p (-1) -> 0 <= r < num_dicts kvs ->
  exists next, kvstoreGetNextNonEmptyDictIndex kvs r = Ok next /\ next_ok ms r next /\
    forall s, kvstoreGetDict kvs r = Ok (Some s) ->
    exists kvs' di s', let it := mkKvsIter r next (Some r) di in
      next_di table_address kvs (mkKvsIter r next (Some r) dictInitSafeIterator) r =
        Ok (head (entries (s_dict s)), kvs', it) /\
      attached kvs' ms p it s' /\ only_at r kvs kvs' /\
      (entries (s_dict s) <> [] -> live kvs' ms p it (tagged r (tail (entries (s_dict s))) ++ later kvs (S (Z.to_nat r)))).
Proof.
  intros Hk [Hp1 Hp2] Hr. destruct (rep_lengths kvs ms Hk) as [Hl1 Hl2].
  destruct (next_index hashFunction kvs ms r Hk Hr) as (next & Hn & Hnext). exists next. split; [done|].
  assert (next_ok ms r next) as Hnok by (unfold next_ok; by rewrite Hl1). split; [done|]. intros s Hg.
  destruct (next_di_spec kvs ms (mkKvsIter r next (Some r) dictInitSafeIterator) r s (entries (s_dict s)) Hk Hg)
    as (kvs' & node & di & Hd & Hk' & Ho & Hg' & Hsafe & Hst & Htodo); [by left|].
  exists kvs', di, (mkSlot (dictPauseRehashing (s_dict s)) node). cbn zeta.
  assert (attached kvs' ms p (mkKvsIter r next (Some r) di) (mkSlot (dictPauseRehashing (s_dict s)) node)) as Ha.
  { split; cbn [ki_didx ki_next_didx ki_dict ki_di]; try done.
    - destruct Ho as [-> _]. done.
    - split; [done|]. intros i s' Hi. destruct (Z.eqb_spec i r) as [->|Hne].
      + rewrite Hg' in Hi. injection Hi as <-. change (pauserehash (dictPauseRehashing (s_dict s)) = p r + 1).
        unfold dictPauseRehashing. cbn [pauserehash set_pauserehash]. rewrite (Hp2 _ _ Hg).
        rewrite (proj2 (Z.eqb_neq r (-1))) by lia. specialize (Hp1 r). unfold UINT32_MAX in Hp1.
        rewrite u_id by (pow_const; lia). lia.
      + destruct Ho as [_ Ho]. rewrite Ho in Hi by done. rewrite (Hp2 _ _ Hi).
        destruct (Z.eqb_spec i (-1)) as [->|]; [|done]. apply get1_Ok in Hi as [? _]. lia. }
  split_and!; [done..|]. intros Hne. destruct (Htodo Hne) as [He Hi].
  exists (mkSlot (dictPauseRehashing (s_dict s)) node), (tail (entries (s_dict s))). split_and!; [done..|].
  cbn [ki_didx]. f_equal. symmetry. apply (later_frame kvs kvs' r); [done| |lia].
  destruct (rep_lengths kvs' ms Hk') as [_ ->]. done.
Qed.

(** The non-empty dict [r] is the next one with keys. *)
Lemma enter_next kvs ms p r i m :
  kvs_rep kvs ms -> pauses kvs p (-1) -> ms !! Z.to_nat r = Some m -> m <> ∅ -> i <= r -> 0 <= i ->
  (forall j m, i <= j < r -> ms !! Z.to_nat j = Some m -> m = ∅) ->
  exists next s kvs' it, kvstoreGetNextNonEmptyDictIndex kvs r = Ok next /\ kvstoreGetDict kvs r = Ok (Some s) /\
    next_di table_address kvs (mkKvsIter r next (Some r) dictInitSafeIterator) r =
      Ok (snd <$> head (later kvs (Z.to_nat i)), kvs', it) /\ ki_didx it = r /\
    later kvs (Z.to_nat i) <> [] /\ (forall x, head (later kvs (Z.to_nat i)) = Some x -> x.1 = r) /\
    live kvs' ms p it (tail (later kvs (Z.to_nat i))).
Proof.
  intros Hk Hp Hm Hne Hir Hi Hbetween. pose proof (rep_range hashFunction kvs ms r m Hk ltac:(lia) Hm) as Hr.
  destruct (rep_lengths kvs ms Hk) as [Hl1 Hl2].
  destruct (enter_dict kvs ms p r Hk Hp Hr) as (next & Hn & Hnok & Henter).
  assert (later kvs (Z.to_nat i) = tagged r (dict_entries kvs (Z.to_nat r)) ++ later kvs (S (Z.to_nat r))) as Hlater.
  { rewrite (later_skip kvs ms _ (Z.to_nat r) Hk); [|lia|].
    - by rewrite later_step, Z2Nat.id by lia.
    - intros x m' Hx Hm'. apply (Hbetween (Z.of_nat x)); [lia|]. by rewrite Nat2Z.id. }
  assert (dict_entries kvs (Z.to_nat r) <> []) as Hde by (intros E; by apply (empty_entries kvs ms _ m Hk Hm) in E).
  unfold dict_entries in *. destruct (dicts kvs !! Z.to_nat r) as [[s|]|] eqn:Hg; [|done..].
  assert (kvstoreGetDict kvs r = Ok (Some s)) as Hget by (apply get1_Ok; split; [lia|done]).
  destruct (Henter s Hget) as (kvs' & di & s' & Hd & Ha & Ho & Hlive).
  exists next, s, kvs', (mkKvsIter r next (Some r) di). rewrite Hlater.
  destruct (entries (s_dict s)) as [|e es] eqn:Ees; [done|]. split_and!; try done.
  - by intros x [= <-].
  - apply Hlive. done.
Qed.
(** The call of kvstoreIteratorNext returns the first entry to come. *)
Definition next_result kvs ms p it (todo : list (Z * (K * V))) : Prop :=
  exists kvs' it', kvstoreIteratorNext table_address kvs it = Ok (snd <$> head todo, kvs', it') /\
    num_dicts kvs' = num_dicts kvs /\
    match todo with
    | [] => over kvs' ms p it'
    | x :: todo => ki_didx it' = x.1 /\ live kvs' ms p it' todo
    end.

Lemma later_end kvs ms i : kvs_rep kvs ms -> 0 <= i ->
  (forall j m, i <= j -> ms !! Z.to_nat j = Some m -> m = ∅) -> later kvs (Z.to_nat i) = [].
Proof.
  intros Hk Hi He. destruct (rep_lengths kvs ms Hk) as [_ Hl].
  destruct (le_lt_dec (length (dicts kvs)) (Z.to_nat i)) as [Hge|Hlt].
  - unfold later. by replace (length (dicts kvs) - Z.to_nat i)%nat with O by lia.
  - rewrite (later_skip kvs ms _ (length (dicts kvs)) Hk); [|lia|].
    + unfold later. by rewrite Nat.sub_diag.
    + intros x m Hx Hm. apply (He (Z.of_nat x)); [lia|]. by rewrite Nat2Z.id.
Qed.

Lemma attached_over kvs ms p it s : attached kvs ms p it s -> over kvs ms p it.
Proof.
  intros Ha. destruct (reset_release kvs ms p it s Ha) as (kvs1 & kvs2 & H1 & H2 & Hk & Hp & _).
  exists kvs2. unfold kvstoreIteratorRelease. by rewrite H1, H2.
Qed.

(** A call of dictNext that does not start an iteration. *)
Lemma attached_same kvs kvs1 ms p it s node di :
  attached kvs ms p it s -> kvs_rep kvs1 ms -> only_at (ki_didx it) kvs kvs1 ->
  kvstoreGetDict kvs1 (ki_didx it) = Ok (Some (mkSlot (s_dict s) node)) ->
  it_safe di = true -> it_index di <> -1 \/ it_table di <> 0 ->
  attached kvs1 ms p (mkKvsIter (ki_didx it) (ki_next_didx it) (Some (ki_didx it)) di) (mkSlot (s_dict s) node).
Proof.
  intros [Hk Hr Hd Hg Hsafe Hst Hpz Hn] Hk1 Ho1 Hg1 Hsafe1 Hst1. split; cbn [ki_didx ki_next_didx ki_dict ki_di]; try done.
  - destruct Ho1 as [-> _]. done.
  - split; [apply Hpz|]. intros i s' Hi'. destruct (decide (i = ki_didx it)) as [->|Hne].
    + rewrite Hg1 in Hi'. injection Hi' as <-. exact (proj2 Hpz _ _ Hg).
    + destruct Ho1 as [_ Ho1]. rewrite Ho1 in Hi' by done. by apply (proj2 Hpz).
Qed.

Lemma live_next kvs ms p it todo : live kvs ms p it todo -> next_result kvs ms p it todo.
Proof.
  intros (s & rest & Ha & He & Hi & ->). pose proof Ha as [Hk Hr Hd Hg Hsafe Hst Hpz Hn].
  destruct (next_di_spec kvs ms it (ki_didx it) s rest Hk Hg Hi)
    as (kvs1 & node & di & Hnd & Hk1 & Ho1 & Hg1 & Hsafe1 & Hst1 & Htodo).
  assert (iter_dict (s_dict s) (ki_di it) = s_dict s) as Eid
    by (unfold iter_dict; by rewrite bool_decide_eq_false_2 by done).
  rewrite Eid in *. rewrite Hd in Hnd. set (it1 := mkKvsIter (ki_didx it) (ki_next_didx it) (Some (ki_didx it)) di) in *.
  pose proof (attached_same kvs kvs1 ms p it s node di Ha Hk1 Ho1 Hg1 ltac:(congruence) Hst1 : attached kvs1 ms p it1 _) as Ha1.
  destruct (rep_lengths kvs ms Hk) as [Hl1 Hl2]. destruct (rep_lengths kvs1 ms Hk1) as [Hl1' Hl2'].
  assert (later kvs1 (S (Z.to_nat (ki_didx it))) = later kvs (S (Z.to_nat (ki_didx it)))) as Hlat1
    by (apply (later_frame kvs kvs1 (ki_didx it)); [done|lia|lia]).
  unfold next_result, kvstoreIteratorNext. rewrite Hd, Hnd. destruct rest as [|e rest].
  2: { exists kvs1, it1. split; [done|]. split; [by destruct Ho1|]. split; [done|].
       destruct (Htodo ltac:(done)) as [He1 Hi1]. exists (mkSlot (s_dict s) node), rest.
       split_and!; [done..|]. cbn [ki_didx it1]. by rewrite Hlat1. }
  cbn [head tagged fmap list_fmap app]. unfold kvstoreIteratorNextDict. cbn [ki_next_didx ki_didx it1].
  destruct Hn as [(Hn & Hall)|(Hnr & (m & Hm & Hne) & Hbet)].
  { rewrite Hn, Z.eqb_refl. replace (S (Z.to_nat (ki_didx it))) with (Z.to_nat (ki_didx it + 1)) in * by lia.
    rewrite (later_end kvs ms) by (done || lia || (intros j m Hj; apply Hall; lia)).
    exists kvs1, it1. split; [done|]. split; [by destruct Ho1|]. by eapply attached_over. }
  rewrite (proj2 (Z.eqb_neq (ki_next_didx it) (-1))), (proj2 (Z.eqb_neq (ki_didx it) (-1))) by lia. cbn [negb].
  rewrite Hg1. destruct (reset_release kvs1 ms p it1 _ Ha1) as (kvs2 & kvs3 & H2 & H3 & Hk3 & Hp3 & Ho3).
  cbn [ki_didx it1] in H3, Ho3. rewrite H2, H3.
  destruct (enter_next kvs3 ms p (ki_next_didx it) (ki_didx it + 1) m Hk3 Hp3 Hm Hne) as
    (next & s3 & kvs4 & it4 & Hn4 & Hg4 & Hd4 & Hdx4 & Hne4 & Hhd4 & Hlive4); [lia|lia|intros j m' Hj; apply Hbet; lia|].
  rewrite Hn4, Hg4. cbn [fmap option_fmap option_map ki_didx ki_next_didx]. rewrite Hd4.
  destruct (rep_lengths kvs3 ms Hk3) as [Hl3 Hl3'].
  assert (later kvs3 (Z.to_nat (ki_didx it + 1)) = later kvs (S (Z.to_nat (ki_didx it)))) as Hlat3.
  { rewrite <- Hlat1. replace (Z.to_nat (ki_didx it + 1)) with (S (Z.to_nat (ki_didx it))) by lia.
    apply (later_frame kvs1 kvs3 (ki_didx it)); [done|lia|lia]. }
  rewrite Hlat3 in *. exists kvs4, it4. split; [done|]. split.
  { destruct Hlive4 as (s4 & r4 & Ha4 & _). destruct (rep_lengths kvs4 ms (at_rep _ _ _ _ _ Ha4)). lia. }
  destruct (later kvs (S (Z.to_nat (ki_didx it)))) as [|x l]; [done|]. split; [|done].
  by rewrite Hdx4, (Hhd4 x).
Qed.
(** ** The start *)

Lemma free_pauses kvs ms p i :
  kvs_rep kvs ms -> pauses kvs p (-1) -> 0 <= i < num_dicts kvs ->
  exists kvs', freeDictIfNeeded kvs i = Ok kvs' /\ kvs_rep kvs' ms /\ pauses kvs' p (-1).
Proof.
  intros Hk [Hp1 Hp2] Hi. destruct (free_kv_contract hashFunction kvs ms i Hk Hi) as (kvs' & Hf & Hk' & _).
  exists kvs'. split_and!; [done..|]. split; [done|]. intros j s Hj. destruct (decide (j = i)) as [->|Hne].
  - pose proof (free_get _ _ _ _ Hf Hj) as ->. by apply Hp2.
  - destruct (free_only _ _ _ Hf) as [_ Ho]. rewrite Ho in Hj by done. by apply Hp2.
Qed.

Lemma initial_next kvs ms p it todo : initial kvs ms p it todo -> next_result kvs ms p it todo.
Proof.
  intros (Hk & Hp & Hd & Hdict & Hdi & Hr & Hbefore & Hall & ->). destruct (rep_lengths kvs ms Hk) as [Hl1 Hl2].
  unfold next_result, kvstoreIteratorNext. rewrite Hdict. unfold kvstoreIteratorNextDict. rewrite Hd, Hdict, Hdi.
  rewrite (proj2 (Z.eqb_neq (ki_next_didx it) (-1))), Z.eqb_refl by lia. cbn [negb].
  destruct (lookup_lt_is_Some_2 ms (Z.to_nat (ki_next_didx it)) ltac:(lia)) as [m Hm].
  destruct (decide (m = ∅)) as [He|Hne].
  - specialize (Hall m Hm He). rewrite list.Forall_forall in Hall.
    assert (Hemp : forall j m, ms !! Z.to_nat j = Some m -> m = ∅) by (intros j m' Hm'; eapply Hall, list_elem_of_lookup; eauto).
    assert (later kvs 0 = []) as -> by (change 0%nat with (Z.to_nat 0); apply (later_end kvs ms); [done|lia|intros; by eapply Hemp]).
    destruct (enter_dict kvs ms p (ki_next_didx it) Hk Hp Hr) as (next & Hn & Hnok & Henter). rewrite Hn.
    destruct (rep_slot hashFunction kvs ms (ki_next_didx it) m Hk ltac:(lia) Hm) as (o & Hg & Hs). rewrite Hg.
    destruct o as [s|]; cbn [fmap option_fmap option_map ki_didx ki_next_didx].
    + destruct (Henter s Hg) as (kvs' & di & s' & Hnd & Ha & Ho & _). rewrite Hnd.
      assert (entries (s_dict s) = []) as ->.
      { pose proof (proj1 (empty_entries kvs ms _ m Hk Hm) He) as E. unfold dict_entries in E.
        apply get1_Ok in Hg as [_ Hg]. by rewrite Hg in E. }
      exists kvs', (mkKvsIter (ki_next_didx it) next (Some (ki_next_didx it)) di). split; [done|].
      split; [by destruct Ho|]. by eapply attached_over.
    + do 2 eexists. split; [done|]. split; [done|]. unfold over, kvstoreIteratorRelease, reset_di. cbn [ki_di ki_didx].
      by apply free_pauses.
  - destruct (enter_next kvs ms p (ki_next_didx it) 0 m Hk Hp Hm Hne) as
      (next & s & kvs' & it' & Hn & Hg & Hnd & Hdx & Hnemp & Hhd & Hlive); [lia|lia|done|].
    rewrite Hn, Hg. cbn [fmap option_fmap option_map ki_didx ki_next_didx]. rewrite Hnd.
    exists kvs', it'. split; [done|]. split.
    { destruct Hlive as (s4 & r4 & Ha4 & _). destruct (rep_lengths kvs' ms (at_rep _ _ _ _ _ Ha4)). lia. }
    change (Z.to_nat 0) with O in *. destruct (later kvs 0) as [|x l]; [done|]. split; [|done]. by rewrite Hdx, (Hhd x).
Qed.

Lemma all_empty ms (n : nat) :
  zsum (take n (map_sizes ms)) <= 0 -> forall j m, (j < n)%nat -> ms !! j = Some m -> m = ∅.
Proof.
  intros Hz j m Hj Hm. apply map_size_empty_inv.
  assert (map_sizes ms !! j = Some (Z.of_nat (base.size m))) as Hs by (apply sizes_lookup; by exists m).
  destruct (zsum_elem (take n (map_sizes ms)) j (Z.of_nat (base.size m))) as [H1 H2]; [|by rewrite lookup_take_lt|lia].
  apply Forall_take. unfold map_sizes. apply Forall_fmap, list.Forall_forall. intros x _. simpl. lia.
Qed.

Lemma init_spec kvs ms p :
  kvs_rep kvs ms -> pauses kvs p (-1) ->
  exists it, kvstoreIteratorInit kvs = Ok it /\ initial kvs ms p it (later kvs 0).
Proof.
  intros Hk Hp. destruct (rep_lengths kvs ms Hk) as [Hl1 Hl2]. destruct (num_pow hashFunction kvs ms Hk) as (_ & _ & Hnum & _).
  pose proof (cr_keys _ _ (proj2 Hk)) as Hkeys. pose proof (cr_pos _ _ (proj2 Hk)) as Hpos.
  assert (Hsum : zsum (map_sizes ms) = 0 -> Forall (.= ∅) ms).
  { intros Hz. apply list.Forall_forall. intros m [j Hj]%list_elem_of_lookup.
    apply (all_empty ms (length ms)) with j; [|by eapply lookup_lt_Some|done].
    rewrite take_ge by (unfold map_sizes; len). lia. }
  unfold kvstoreIteratorInit. destruct (Z.eq_dec (kvstoreSize kvs) 0) as [Hz|Hz].
  - unfold kvstoreGetFirstNonEmptyDictIndex. rewrite Hz, Z.eqb_refl, orb_true_r. eexists. split; [done|].
    unfold kvstoreSize in Hz. split_and!; try done; cbn [ki_next_didx]; try lia. intros m _ _. apply Hsum. lia.
  - pose proof (foldr_add_nonneg (map_sizes ms) Hpos) as Hnn. unfold kvstoreSize in Hz.
    unfold zsum in Hkeys. destruct (first_index hashFunction kvs ms Hk) as (r & Hf & [Hr Hps]); [unfold kvstoreSize; lia|]. rewrite Hf.
    eexists. split; [done|]. split_and!; try done; cbn [ki_next_didx]; try lia.
    + intros j m Hj Hm. apply (all_empty ms (Z.to_nat r)) with (Z.to_nat j); [|lia|done]. unfold psum, zsum in *. lia.
    + intros m Hm ->. exfalso. rewrite (psum_succ (map_sizes ms) r 0) in Hps; [lia|lia|]. apply sizes_lookup. exists ∅. by rewrite map_size_empty.
Qed.

(** ** Deleting *)

Notation kvstoreDictDelete := (kvstoreDictDelete hashFunction keyCompare resizeAllowed dict_can_resize).
Notation genericDelete := (dictGenericDelete hashFunction keyCompare resizeAllowed false dict_can_resize).

Lemma free_paused kvs i s : kvstoreGetDict kvs i = Ok (Some s) -> 0 < pauserehash (s_dict s) -> freeDictIfNeeded kvs i = Ok kvs.
Proof.
  intros Hg Hp. unfold freeDictIfNeeded, kvstoreDictSize, kvstoreDictIsRehashingPaused. rewrite Hg.
  rewrite (proj2 (Z.gtb_lt _ _) Hp), orb_true_r. by destruct (negb _).
Qed.

Lemma counts_get kvs i delta kvs' : cumulativeKeyCountAdd kvs i delta = Ok kvs' -> only_at (-1) kvs kvs' /\ forall j, kvstoreGetDict kvs' j = kvstoreGetDict kvs j.
Proof. intros [E1 E2]%counts_only. unfold only_at, kvstoreGetDict. by rewrite E1. Qed.

(** What a deletion does to the dicts. *)
Lemma delete_slot kvs ms i m k :
  kvs_rep kvs ms -> 0 <= i -> ms !! Z.to_nat i = Some m ->
  exists st kvs', kvstoreDictDelete kvs i k = Ok (st, kvs') /\ kvs_rep kvs' (<[Z.to_nat i := delete k m]> ms) /\
    only_at i kvs kvs' /\
    (forall s', kvstoreGetDict kvs' i = Ok (Some s') -> exists s r, kvstoreGetDict kvs i = Ok (Some s) /\
       genericDelete (s_dict s) k = Ok (r, s_dict s')) /\
    (forall s, kvstoreGetDict kvs i = Ok (Some s) -> 0 < pauserehash (s_dict s) -> exists s', kvstoreGetDict kvs' i = Ok (Some s')).
Proof.
  intros Hk H0 Hm. destruct (delete_kv_contract hashFunction keyCompare resizeAllowed dict_can_resize Hcmp kvs ms i m k Hk H0 Hm)
    as (kvs' & Hdel & Hk').
  eexists _, kvs'. split; [done|]. split; [done|]. revert Hdel. unfold kvstoreDictDelete, dictDelete.
  destruct (rep_slot hashFunction kvs ms i m Hk H0 Hm) as (o & Hg & Hs). rewrite Hg.
  destruct o as [s|]; [|intros [= _ <-]; split_and!; [done|..]; intros s Hs'; congruence]. destruct Hs as (Hd & _).
  destruct (genericDelete_contract hashFunction keyCompare Hcmp resizeAllowed false dict_can_resize (s_dict s) m k Hd)
    as (d' & Ha & Hd' & Hp).
  rewrite Ha. destruct (store_dict kvs i s d') as [kvs1|] eqn:Est; [|done]. pose proof (store_only _ _ _ _ _ Est) as Ho1.
  pose proof (store_get _ _ _ _ _ Est) as [node Hg1]. destruct (m !! k) as [v|]; cbn [fmap option_fmap option_map].
  - destruct (cumulativeKeyCountAdd kvs1 i (-1)) as [kvs2|] eqn:Ec; [|done].
    destruct (freeDictIfNeeded kvs2 i) as [kvs3|] eqn:Ef; [|done]. intros [= <-].
    destruct (counts_get _ _ _ _ Ec) as [[Hn2 _] Hg2]. pose proof (free_only _ _ _ Ef) as Ho3. split_and!.
    + etrans; [exact Ho1|]. etrans; [|exact Ho3]. by split.
    + intros s' Hs'. pose proof (free_get _ _ _ _ Ef Hs') as ->. rewrite Hg2, Hg1 in Hs'. injection Hs' as <-. by exists s, (Some (k, v)).
    + intros s0 [= <-] Hpz. rewrite (free_paused kvs2 i (mkSlot d' node)) in Ef; [|by rewrite Hg2|simpl; destruct Hp as [-> _]; done].
      injection Ef as <-. exists (mkSlot d' node). by rewrite Hg2.
  - intros [= <-]. split_and!; [done| |].
    + intros s' Hs'. rewrite Hg1 in Hs'. injection Hs' as <-. by exists s, None.
    + intros _ _ _. by eexists.
Qed.

Lemma next_ok_below ms didx next i m : next_ok ms didx next -> 0 <= i <= didx -> next_ok (<[Z.to_nat i := m]> ms) didx next.
Proof.
  intros Hn Hi. assert (Hne : forall j, didx < j -> <[Z.to_nat i := m]> ms !! Z.to_nat j = ms !! Z.to_nat j)
    by (intros j Hj; apply list_lookup_insert_ne; lia).
  destruct Hn as [(-> & Hall)|(Hr & (m' & Hm & Hm') & Hbet)].
  - left. split; [done|]. intros j m' Hj. rewrite Hne by done. by apply Hall.
  - right. rewrite length_insert. split; [done|]. split; [exists m'; by rewrite Hne by lia|].
    intros j m0 Hj. rewrite Hne by lia. by apply Hbet.
Qed.

Lemma delete_step kvs ms p it todo i m k :
  live kvs ms p it todo -> 0 <= i <= ki_didx it -> ms !! Z.to_nat i = Some m -> (i, k) ∉ (fun x => (x.1, x.2.1)) <$> todo ->
  exists st kvs', kvstoreDictDelete kvs i k = Ok (st, kvs') /\ live kvs' (<[Z.to_nat i := delete k m]> ms) p it todo /\
    num_dicts kvs' = num_dicts kvs.
Proof.
  intros (s & rest & Ha & He & Ht & ->) Hi Hm Hnot. pose proof Ha as [Hk Hr Hd Hg Hsafe Hst [Hp1 Hp2] Hn].
  destruct (delete_slot kvs ms i m k Hk ltac:(lia) Hm) as (st & kvs' & Hdel & Hk' & Ho & Hback & Hkeep).
  exists st, kvs'. split; [done|]. split; [|by destruct Ho].
  assert (Hps : pauses kvs' p (ki_didx it)).
  { split; [done|]. intros j sj Hj. destruct (decide (j = i)) as [->|Hne].
    - destruct (Hback sj Hj) as (s0 & r & Hg0 & Hgd). rewrite <- (Hp2 _ _ Hg0).
      destruct (rep_slot hashFunction kvs ms i m Hk ltac:(lia) Hm) as (o & Hg0' & Hrs). assert (o = Some s0) as -> by congruence.
      destruct (genericDelete_contract hashFunction keyCompare Hcmp resizeAllowed false dict_can_resize (s_dict s0) m k (proj1 Hrs))
        as (d' & Ha' & _ & [Hpp _]). rewrite Ha' in Hgd. by injection Hgd as _ <-.
    - destruct Ho as [_ Ho]. rewrite Ho in Hj by done. by apply Hp2. }
  assert (Hcur : exists s', kvstoreGetDict kvs' (ki_didx it) = Ok (Some s') /\ iter_todo (s_dict s') (ki_di it) rest).
  { assert (Hpaused : 0 < pauserehash (s_dict s)) by (rewrite (Hp2 _ _ Hg), Z.eqb_refl; specialize (Hp1 (ki_didx it)); lia).
    destruct (decide (i = ki_didx it)) as [->|Hne]; [|exists s; split; [|done]; destruct Ho as [_ Ho]; by rewrite Ho].
    destruct (Hkeep s Hg Hpaused) as [s' Hg']. exists s'. split; [done|]. destruct (Hback s' Hg') as (s0 & r & Hg0 & Hgd).
    assert (s0 = s) as -> by congruence. destruct (rep_slot hashFunction kvs ms (ki_didx it) m Hk ltac:(lia) Hm) as (o & Hg0' & Hrs).
    assert (o = Some s) as -> by congruence.
    destruct (safe_delete hashFunction keyCompare Hcmp resizeAllowed dict_can_resize (s_dict s) m (ki_di it) rest k (proj1 Hrs) Ht He)
      as (r' & d' & Hgd' & _ & Ht' & _); [lia| |rewrite Hgd' in Hgd; by injection Hgd as _ <-].
    intros Hin. apply Hnot. rewrite fmap_app. apply elem_of_app. left. unfold tagged. rewrite <- list_fmap_compose.
    apply list_elem_of_fmap in Hin as (e & -> & Hin). apply list_elem_of_fmap. by exists e. }
  destruct Hcur as (s' & Hg' & Ht'). exists s', rest. split_and!; [|done|done|].
  - split; try done; [destruct Ho as [-> _]; done|]. by apply next_ok_below.
  - f_equal. symmetry. apply (later_frame kvs kvs' i); [done| |lia].
    destruct (rep_lengths _ _ Hk) as [_ ->], (rep_lengths _ _ Hk') as [_ ->]. by rewrite length_insert.
Qed.

(** ** The whole iteration *)

Definition entry_key (x : Z * (K * V)) : Z * K := (x.1, x.2.1).

Definition delete_at ms (ik : Z * K) : list (gmap K V) :=
  <[Z.to_nat ik.1 := delete ik.2 (map_at ms ik.1)]> ms.

Fixpoint delete_keys kvs (iks : list (Z * K)) : res kvstore :=
  match iks with
  | [] => Ok kvs
  | (i, k) :: iks => let! '(_, kvs) := kvstoreDictDelete kvs i k in delete_keys kvs iks
  end.

(** The loop of a client: after each entry it deletes some of the keys that were returned
    up to then, as [client] says.  The result is what was returned and what was deleted. *)
Fixpoint iterate (fuel : nat) (client : list (Z * (K * V)) -> list (Z * K)) kvs it (seen : list (Z * (K * V)))
    (gone : list (Z * K)) : res (list (Z * (K * V)) * list (Z * K) * kvstore) :=
  match fuel with
  | O => Fault OutOfFuel
  | S fuel =>
      let! '(de, kvs, it) := kvstoreIteratorNext table_address kvs it in
      match de with
      | None => let! kvs := kvstoreIteratorRelease table_address kvs it in Ok (seen, gone, kvs)
      | Some e =>
          let! didx := kvstoreIteratorGetCurrentDictIndex kvs it in
          let seen := seen ++ [(didx, e)] in
          let iks := filter (fun ik => ik ∈ entry_key <$> seen) (client seen) in
          let! kvs := delete_keys kvs iks in
          iterate fuel client kvs it seen (gone ++ iks)
      end
  end.

Lemma delete_keys_live iks : forall kvs ms p it todo,
  live kvs ms p it todo -> Forall (fun ik => 0 <= ik.1 <= ki_didx it /\ ik ∉ entry_key <$> todo) iks ->
  exists kvs', delete_keys kvs iks = Ok kvs' /\ live kvs' (foldl delete_at ms iks) p it todo /\ num_dicts kvs' = num_dicts kvs.
Proof.
  induction iks as [|[i k] iks IH]; intros kvs ms p it todo Hl Hall; [by exists kvs|].
  apply Forall_cons_1 in Hall as [[Hi Hnot] Hall]. pose proof Hl as (s & rest & [Hk Hr _ _ _ _ _ _] & _).
  destruct (rep_lengths kvs ms Hk) as [Hl1 _]. simpl in Hi. destruct (lookup_lt_is_Some_2 ms (Z.to_nat i) ltac:(lia)) as [m Hm].
  destruct (delete_step kvs ms p it todo i m k Hl Hi Hm Hnot) as (st & kvs1 & Hdel & Hl' & Hn1).
  cbn [delete_keys foldl]. rewrite Hdel. unfold delete_at at 2, map_at. cbn [fst snd]. rewrite Hm. cbn [default from_option].
  destruct (IH kvs1 _ p it todo Hl' Hall) as (kvs2 & -> & Hl2 & Hn2). exists kvs2. split_and!; [done..|congruence].
Qed.

Lemma later_from kvs i : Forall (fun x => Z.of_nat i <= x.1) (later kvs i).
Proof.
  apply list.Forall_forall. intros x Hx. unfold later in Hx. apply list_elem_of_In, in_concat in Hx as (l & Hl & Hx).
  apply list_elem_of_In in Hl, Hx. apply list_elem_of_fmap in Hl as (j & -> & Hj%elem_of_seq).
  apply list_elem_of_fmap in Hx as (e & -> & _). simpl. lia.
Qed.

Lemma live_from kvs ms p it todo : live kvs ms p it todo -> Forall (fun x => ki_didx it <= x.1) todo.
Proof.
  intros (s & rest & [_ Hr _ _ _ _ _ _] & _ & _ & ->). apply Forall_app. split.
  - apply list.Forall_forall. intros x (e & -> & _)%list_elem_of_fmap. simpl. lia.
  - eapply list.Forall_impl; [apply (later_from kvs)|]. simpl. intros x. lia.
Qed.

Lemma iterate_from fuel client : forall kvs ms p it seen gone todo,
  (length todo < fuel)%nat -> NoDup (entry_key <$> seen ++ todo) -> next_result kvs ms p it todo ->
  Forall (fun x => 0 <= x.1 <= default (-1) (fst <$> head todo)) seen \/ todo = [] ->
  Forall (fun x => 0 <= x.1 < num_dicts kvs) todo ->
  exists gone' kvs', iterate fuel client kvs it seen gone = Ok (seen ++ todo, gone ++ gone', kvs') /\
    kvs_rep kvs' (foldl delete_at ms gone') /\ pauses kvs' p (-1).
Proof.
  induction fuel as [|fuel IH]; intros kvs ms p it seen gone todo Hf Hnd (kvs1 & it1 & Hnext & Hn1 & Hres) Hseen Hrange; [lia|].
  cbn [iterate]. rewrite Hnext. destruct todo as [|x todo]; cbn [head fmap option_fmap option_map].
  { destruct Hres as (kvs2 & Hrel & Hk2 & Hp2). rewrite Hrel. exists [], kvs2. by rewrite !app_nil_r. }
  destruct Hres as [Hdx Hlive]. apply Forall_cons_1 in Hrange as [Hx Hrange]. destruct x as [i e]. cbn [fst snd] in *.
  unfold kvstoreIteratorGetCurrentDictIndex. rewrite Hdx, Hn1.
  rewrite (proj2 (Z.geb_le i 0)), (proj2 (Z.ltb_lt i (num_dicts kvs))) by lia. cbn [andb].
  set (seen1 := seen ++ [(i, e)]). set (iks := filter _ _).
  replace (seen ++ (i, e) :: todo) with (seen1 ++ todo) in * by (unfold seen1; by rewrite <- app_assoc).
  assert (Hseen1 : Forall (fun x => 0 <= x.1 <= i) seen1).
  { apply Forall_app. split; [|by apply Forall_singleton; simpl; lia]. destruct Hseen as [Hs|?]; [|done].
    eapply list.Forall_impl; [exact Hs|]. simpl. intros; lia. }
  destruct (delete_keys_live iks kvs1 ms p it1 todo Hlive) as (kvs2 & -> & Hl2 & Hn2).
  { apply list.Forall_forall. intros ik [Hin _]%list_elem_of_filter. rewrite fmap_app in Hnd.
    apply list.NoDup_app in Hnd as (_ & Hdis & _). split; [|by apply Hdis].
    apply list_elem_of_fmap in Hin as (y & -> & Hy). rewrite list.Forall_forall in Hseen1. rewrite Hdx. by apply Hseen1. }
  pose proof (live_from _ _ _ _ _ Hl2) as Hge.
  destruct (IH kvs2 (foldl delete_at ms iks) p it1 seen1 (gone ++ iks) todo) as (gone' & kvs' & -> & Hk' & Hp'); [simpl in Hf; lia|done|by apply live_next| | |].
  - destruct todo as [|y todo]; [by right|left]. apply Forall_cons_1 in Hge as [Hge _]. simpl.
    eapply list.Forall_impl; [exact Hseen1|]. simpl. intros; lia.
  - by rewrite Hn2, Hn1.
  - exists (iks ++ gone'), kvs'. rewrite <- app_assoc, foldl_app. done.
Qed.

(** ** The entries of all dicts *)

Definition entry_of ms (x : Z * (K * V)) : Prop :=
  exists m, 0 <= x.1 /\ ms !! Z.to_nat x.1 = Some m /\ m !! x.2.1 = Some x.2.2.

Lemma later_entries kvs ms x : kvs_rep kvs ms -> x ∈ later kvs 0 <-> entry_of ms x.
Proof.
  intros Hk. destruct (rep_lengths kvs ms Hk) as [_ Hl]. unfold later, entry_of. rewrite Nat.sub_0_r. split.
  - intros Hx. apply list_elem_of_In, in_concat in Hx as (l & Hin & Hx). apply list_elem_of_In in Hin, Hx.
    apply list_elem_of_fmap in Hin as (j & -> & Hj%elem_of_seq). apply list_elem_of_fmap in Hx as (e & -> & He).
    destruct (lookup_lt_is_Some_2 ms j ltac:(lia)) as [m Hm]. exists m. simpl. rewrite Nat2Z.id.
    split_and!; [lia|done|]. by apply (slot_entries kvs ms j m Hk Hm).
  - intros (m & H0 & Hm & He). apply list_elem_of_In, in_concat. eexists. split.
    + apply list_elem_of_In, list_elem_of_fmap. exists (Z.to_nat x.1). split; [done|]. apply elem_of_seq.
      apply lookup_lt_Some in Hm. lia.
    + apply list_elem_of_In, list_elem_of_fmap. exists x.2. split; [destruct x; simpl in *; by rewrite Z2Nat.id by lia|].
      by apply (slot_entries kvs ms _ m Hk Hm).
Qed.

Lemma dict_entries_nodup kvs ms i : kvs_rep kvs ms -> NoDup (dict_entries kvs i).*1.
Proof.
  intros Hk. unfold dict_entries. destruct (dicts kvs !! i) as [[s|]|] eqn:E; [|apply NoDup_nil_2..].
  destruct (slot_lookup hashFunction kvs ms (Z.of_nat i) (Some s) (proj1 Hk)) as (m & _ & _ & _ & ((Hd & _) & _));
    [apply get1_Ok; split; [lia|by rewrite Nat2Z.id]|]. apply Hd.
Qed.

Lemma later_nodup kvs ms i n : kvs_rep kvs ms -> (length (dicts kvs) - i = n)%nat -> NoDup (entry_key <$> later kvs i).
Proof.
  intros Hk. revert i. induction n as [|n IH]; intros i Hn.
  { unfold later. rewrite Hn. apply NoDup_nil_2. }
  rewrite later_step by lia. rewrite fmap_app. apply list.NoDup_app. split_and!; [| |apply IH; lia].
  - unfold tagged. rewrite <- list_fmap_compose. pose proof (dict_entries_nodup kvs ms i Hk) as Hnd.
    replace ((entry_key ∘ _) <$> _) with (pair (Z.of_nat i) <$> (dict_entries kvs i).*1) by by rewrite <- list_fmap_compose.
    apply list.NoDup_fmap_2; [|done]. intros a b. congruence.
  - intros x Hx Hy. unfold tagged in Hx. rewrite <- list_fmap_compose in Hx. apply list_elem_of_fmap in Hx as (e & -> & _).
    apply list_elem_of_fmap in Hy as (y & Hy & Hin). pose proof (later_from kvs (S i)) as Hge.
    rewrite list.Forall_forall in Hge. specialize (Hge y Hin). injection Hy as Hy _. lia.
Qed.

Lemma later_length kvs ms i n : kvs_rep kvs ms -> (length (dicts kvs) - i = n)%nat ->
  Z.of_nat (length (later kvs i)) = zsum (drop i (map_sizes ms)).
Proof.
  intros Hk. destruct (rep_lengths kvs ms Hk) as [_ Hl]. revert i. induction n as [|n IH]; intros i Hn.
  { unfold later. rewrite Hn, drop_ge by (unfold map_sizes; rewrite length_fmap; lia). done. }
  destruct (lookup_lt_is_Some_2 ms i ltac:(lia)) as [m Hm].
  assert (map_sizes ms !! i = Some (Z.of_nat (base.size m))) as Hs by (apply sizes_lookup; by exists m).
  rewrite later_step, (drop_S _ _ _ Hs), length_app, Nat2Z.inj_add, IH by lia. unfold tagged. rewrite length_fmap.
  cbn [zsum foldr]. f_equal. unfold dict_entries.
  destruct (rep_slot hashFunction kvs ms (Z.of_nat i) m Hk ltac:(lia)) as (o & Hg & Ho); [by rewrite Nat2Z.id|].
  apply get1_Ok in Hg as [_ Hg]. rewrite Nat2Z.id in Hg. rewrite Hg. destruct o as [s|].
  - by rewrite (rep_size hashFunction (s_dict s) m) by apply Ho.
  - simpl in Ho. by rewrite Ho, map_size_empty.
Qed.

(** C13: an iteration over the keyspace in which the client may delete any keys that have
    been returned already, from the current dict or from an earlier one: it ends after as
    many calls as there are keys and one more, every key with its value is returned exactly
    once with the index of its dict, none of the calls faults, the keyspace holds what was
    not deleted, and rehashing is paused as often as before. *)
Theorem kvstoreIterator_complete client kvs ms p :
  kvs_rep kvs ms -> pauses kvs p (-1) ->
  exists it seen gone kvs',
    kvstoreIteratorInit kvs = Ok it /\
    iterate (S (Z.to_nat (kvstoreSize kvs))) client kvs it [] [] = Ok (seen, gone, kvs') /\
    NoDup (entry_key <$> seen) /\ (forall x, x ∈ seen <-> entry_of ms x) /\
    kvs_rep kvs' (foldl delete_at ms gone) /\ pauses kvs' p (-1).
Proof.
  intros Hk Hp. destruct (init_spec kvs ms p Hk Hp) as (it & Hinit & Hstart). exists it, (later kvs 0).
  pose proof (later_nodup kvs ms 0 _ Hk eq_refl) as Hnd. pose proof (later_length kvs ms 0 _ Hk eq_refl) as Hlen.
  destruct (rep_lengths kvs ms Hk) as [Hl1 Hl2].
  destruct (iterate_from (S (Z.to_nat (kvstoreSize kvs))) client kvs ms p it [] [] (later kvs 0)) as (gone & kvs' & Hit & Hk' & Hp').
  - unfold kvstoreSize. rewrite (cr_keys _ _ (proj2 Hk)). rewrite drop_0 in Hlen. lia.
  - done.
  - by apply initial_next.
  - by left.
  - apply list.Forall_forall. intros x (m & H0 & Hm & _)%(later_entries kvs ms x Hk). apply lookup_lt_Some in Hm. lia.
  - exists gone, kvs'. split_and!; try done. intros x. by apply later_entries.
Qed.
End Iteration.

(** The client deletes every second key that is returned. *)
Definition even_client (seen : list (Z * (Z * Z))) : list (Z * Z) :=
  match list.last seen with Some x => if Nat.even (length seen) then [(x.1, x.2.1)] else [] | None => [] end.

Lemma kv_demo_pauses : pauses kv_demo (fun _ => 0) (-1).
Proof.
  split; [done|]. intros i s Hg. assert (0 <= i < 4) as Hi.
  { apply get1_Ok in Hg as [H0 Hg]. apply lookup_lt_Some in Hg. change (length (dicts kv_demo)) with 4%nat in Hg. lia. }
  assert (i = 0 \/ i = 1 \/ i = 2 \/ i = 3) as [-> | [-> | [-> | ->]]] by lia; vm_compute in Hg; by simplify_eq.
Qed.

Lemma kvstoreIterator_complete_witness :
  exists it seen gone kvs', kvstoreIteratorInit kv_demo = Ok it /\
    iterate kv_hash Z.eqb None DICT_RESIZE_ENABLE (fun _ => 0) 7 even_client kv_demo it [] [] = Ok (seen, gone, kvs') /\
    NoDup (entry_key <$> seen) /\ length gone = 3%nat.
Proof.
  destruct (kvstoreIterator_complete kv_hash Z.eqb zeqb_cmp None DICT_RESIZE_ENABLE (fun _ => 0) even_client kv_demo kv_demo_maps (fun _ => 0) kv_demo_rep kv_demo_pauses)
    as (it & seen & gone & kvs' & Hi & Hr & Hn & _).
  exists it, seen, gone, kvs'. split; [done|]. split; [exact Hr|]. split; [done|].
  vm_compute in Hi. injection Hi as <-. vm_compute in Hr. by injection Hr as <- <- <-.
Defined.
